(* ===== verification/_CoqProject ===== *)
-Q . S2P
Prelude.v
Text.v
Schema.v
References.v
Core.v
Sessions.v
RateLimit.v
Counters.v
Sticky.v
Headers.v
Routing.v
Spawn.v
Bollard.v
Docker.v
Liveness.v
Scaler.v
Runtime.v
Auth.v
Caches.v
Gateway.v
Forward.v
MultiHost.v
Interpolation.v
Validate.v
WellFormed.v
Leader.v
Database.v
SessionsPg.v
SpecStore.v
SpecCatalog.v
Schedules.v
Jobs.v
Accounts.v
Users.v
MfaStore.v
AccountRuntime.v
UsersCsv.v
UserRoutes.v
UserAccess.v
Credentials.v
SignIn.v
SignInSafety.v
MfaRoutes.v
MfaRoutesSafety.v
SpecForm.v
FormFields.v
SpecRoutes.v
Pulls.v
AdminSessionsPg.v
Groups.v
