(* ===== verification/Prelude.v ===== *)
(** * Ruscker: verification development

    Ruscker is a portal that runs each app of a catalogue in Docker
    containers and proxies its visitors to them.  This library models the
    parts that decide something, from src/crates/: which request reaches
    which container, when a container starts and stops, what a session and a
    cookie are worth, and what the configuration and the database mean.

    ** How the parts interact

    A request goes through [forward] (routes/proxy.rs): the gate (Gateway)
    looks the app up, limits, authorises and checks MFA; the path (Forward)
    resolves the sticky cookie, picks a replica (Routing) or spawns one
    (Spawn), filters headers both ways (Headers) and keeps the session store
    (Sessions) and the in-flight gauge.  In the background the scaler
    (Scaler) ticks: it reconciles the replica registry (Core) with what the
    backend reports (Liveness), reaps, scales and sweeps.  Both share one
    state, [Spawn.World.t]; the containers are behind the interface
    [Spawn.ContainerBackend], which the local Docker backend (Docker over
    Bollard) and the cluster of Docker hosts (MultiHost) implement.  Apps
    come from the configuration file (Schema, Interpolation, Validate) and
    from the database (Database, SpecStore), joined in SpecCatalog; cron jobs
    (Schedules, Jobs) run their images to completion.  Among several
    instances one is elected (Leader) to scale and to fire jobs; sessions of
    visitors (SessionsPg) and of the admin panel (AdminSessionsPg) are rows
    they share.

    People have accounts and second factors (Accounts, Users, MfaStore).
    They sign in (SignIn) and confirm devices (MfaRoutes), which is what the
    gate asks for; on the admin pages Editors and Admins change accounts
    (UserRoutes), groups (Groups), registry credentials (Credentials) and
    apps (SpecForm, SpecRoutes), and pull images (Pulls).

    ** Files

    Foundations
    - Prelude: [Result], the state monad [St] with its notations and the
      [preserves] tactics, machine integers, durations, binary64 floats.
    - Text: the [str] operations of the standard library on UTF-8 bytes.
    - Database: SQL statements with faults, and transactions.

    Configuration (crates/ruscker-config)
    - Schema: schema.rs, the spec with every resolver, and env.rs for one line.
    - Interpolation: env.rs for a whole document.
    - Validate: validate.rs and lib.rs, every warning and the loading.

    Runtime (crates/ruscker-core, ruscker-proxy, ruscker-admin)
    - Core: ruscker-core, the replica, the registry, requests and reports.
    - Sessions: sessions.rs, the interface of a session store with its
      accounting laws, and the in-memory store.
    - RateLimit: ratelimit.rs and the limiters of auth.rs and mfa.rs.
    - Counters: access_counter.rs, alerts.rs, activity.rs.
    - Sticky: ruscker-proxy/sticky.rs, the signed cookie.
    - Headers, Routing, Gateway, Forward: routes/proxy.rs, and routes/mod.rs.
    - Spawn: the shared state; the spawn and stop paths of routes/proxy.rs
      and scaler.rs.
    - Liveness, Scaler: scaler.rs.
    - Runtime: any interleaving of the operations of these three.
    - Auth: auth.rs, scope.rs and the MFA decision of mfa.rs.
    - Caches: the spec and identity caches of lib.rs and routes/proxy.rs.

    Backends (crates/ruscker-docker)
    - Bollard: interfaces of the Docker client, the system and the parsers.
    - Docker: lib.rs, [LocalDockerBackend].
    - MultiHost: multihost.rs, [MultiHostDockerBackend].

    Persistence and background work (crates/ruscker-admin)
    - Leader: leader.rs, over an interface of Postgres advisory locks.
    - SpecStore, SpecCatalog: db/specs.rs, catalog.rs.
    - Schedules, Jobs: db/schedules.rs, jobs.rs.
    - SessionsPg: sessions_pg.rs, the session store shared by a cluster.
    - AdminSessionsPg: admin_sessions_pg.rs, the sign-in sessions of one.

    Accounts and sign-in (crates/ruscker-admin)
    - Accounts, Users: the tables of accounts, db/users.rs.
    - MfaStore: db/mfa.rs and db/mfa_grants.rs; AccountRuntime: any run of
      the writes of both.
    - SignIn, SignInSafety: routes/admin.rs, signing in and out, the first
      Admin and the own password.
    - MfaRoutes, MfaRoutesSafety: routes/admin/mfa.rs.

    Admin pages (crates/ruscker-admin/src/routes/admin)
    - UsersCsv, UserRoutes, UserAccess: users.rs, the CSV format, the
      handlers, and what they can do.
    - Groups: groups.rs.
    - Credentials: crypto.rs, db/credentials.rs and credentials.rs, and how a
      spawn and a pull resolve one.
    - SpecForm, SpecRoutes, Pulls: spec_form.rs, the form, the handlers, the
      image checks and pulls.

    ** Conventions

    A module [T] with a record or inductive [T.t] is the Rust type [T]; its
    fields and constructors, and functions, keep the source's names.  Stateful
    code is in [St S A := S -> A * S], with [do], [do?] (the question mark
    operator) and [do!].  Instants and times are nanoseconds in [Z]; u32, u64,
    i64 and usize are [Z] with their saturation, wrapping and casts written
    out; f64 is the binary64 [spec_float].  Strings are UTF-8 bytes.  Log
    statements are left out.  What a lock or a transaction makes atomic is
    one step; where tasks interleave inside a function, its atomic pieces are
    definitions of their own and the theorem is about all interleavings
    (Runtime, Caches, Counters, Leader, Jobs, Pulls, AdminSessionsPg).  A hash map is iterated in the
    order of [map_to_list]; theorems do not depend on it, or the order is an
    argument.

    ** What the theorems show

    - The request path: a refused request changes nothing; a session's seat
      is counted once and given back on every path, so [sessions_active] is
      the number of sessions of a replica; a sticky cookie is honoured when
      its tag verifies and its replica serves; containers see the portal's
      identity headers and nobody else's.
    - Capacity: spawning, scaling, re-adopting and any interleaving of them
      stay within max-replicas; scale-down keeps min-replicas; a busy replica
      is not reaped; placement respects host capacity.
    - Access: the access rule, MFA failing closed, Editors confined to their
      groups, the identity cache never reviving a revoked login, rate limits.
    - Backends: container accounting on every error path, only own containers
      removed, the readiness wait ends, a container found again is the
      replica that was spawned, hosts that do not answer are not taken for
      empty; the cluster meets the runtime's interface.
    - Configuration: a clean file is in effect as written; secrets stay
      references.
    - Persistence: writes keep the tables well formed or change nothing,
      import is idempotent, the cached catalogue is never stale, one leader
      at most, no occurrence of a schedule fired twice, a due one runs, a
      failure is reported.
    - Clusters: nodes over one session table answer as one in-memory store;
      over the table of sign-in sessions they do but for a session another
      node ended, accepted for less than one cache window more.
    - Accounts: the last Admin stays, listings are the caller's scope, a
      login verifies what was stored, trust of an old factor is never
      accepted again.
    - Signing in: a session is begun on a proof alone, trusting a browser
      takes a fresh code or a recovery code, a correct code opens the apps
      that ask for it.
    - Admin pages: Editors stay inside their groups on the pages of
      accounts, groups and apps; a change of credentials ends sessions;
      renaming a group keeps who opens what; passwords are stored sealed
      and reach the pull that needs them; a saved app reads back as it was
      and passes the validator; pulls are bounded and their progress reaches
      the follower.

    A theorem whose comment opens with C and a number is one of the
    library's properties; the other theorems are further results.

    ** Fuel

    Recursions on a string that drop at least one byte per step take its
    length plus one as fuel: [Text.str_replace], [Text.trim_start],
    [Docker.trim_start_str], [Schema.interpolate_line],
    [Interpolation.strip_tokens]; [Auth.chunks] takes the list's length.  The
    readiness loops poll every 250 ms, so the budget divided by that, plus
    two, is enough ([Docker.readiness_fuel_enough]; [poll_ends] and the
    property [readiness_wait_ends] show the loops end within it).

    ** Parameters

    Code of other crates and services is an argument, a class or a section
    hypothesis, with the documented behaviour the proofs use as laws: Docker
    and the operating system (Bollard), HMAC, base64 and serde_json (Sticky,
    SpecStore), the [http] crate's parsers (Headers), Postgres locks (Leader),
    the YAML parser, time zones and croner (Validate, Jobs), argon2, the
    Unicode case tables, the database's collation and lower-casing, and
    serde_json's printer (Accounts, Users), totp-rs and the QR code
    (MfaRoutes), chrono's printing of times and of today (UsersCsv,
    SpecForm), AES-GCM and base64 (Credentials), percent-encoding (SignIn),
    the backend's image calls (Pulls), the SQL engines
    (statements are functions on tables; uniqueness, foreign keys and
    ordering are written out).  Each class a property's law set appears in
    has an instance in an example module.

    ** Not modelled

    - Rendering: templates, the landing page, theme, i18n, markdown and most
      view models; they show rows the modelled modules produce.
    - The other admin pages (routes/admin/: dashboard, disk, logs, audit,
      images, landing, blocks, schedules_ui, system, user_activity, and the
      list of specs.rs): they call modelled operations or
      unmodelled repositories and render the answer.
    - The content repositories (db/landing.rs, landing_blocks.rs,
      showcase.rs, images.rs, builtin_logos.rs) and db/audit.rs reports,
      export, settings, spec_access, user_activity and user_favorites:
      single statements on rows that decide nothing modelled here.
    - Bytes in flight: the WebSocket pump (ruscker-proxy/ws.rs), the streaming
      HTML rewriter (routes/rewrite.rs), assets and image processing.
    - Process wiring: the command line, routers, background loops' timers, the
      Docker event stream, metrics and health endpoints, the log buffer. *)

From stdpp Require Import base tactics list gmap strings fin_maps numbers pretty.
From Corelib Require Import SpecFloat.
From Stdlib Require Import ZArith Lia.

Declare Scope ruscker_scope.
Delimit Scope ruscker_scope with ruscker.
Open Scope Z_scope.

Create HintDb ruscker.
Create HintDb ruscker_rw.
Create HintDb preserves.

(** ** Results

    Rust's [Result<T, E>], in the argument order the source writes it. *)

Inductive Result (T E : Type) : Type :=
| Ok (value : T)
| Err (error : E).

Arguments Ok {T E} value.
Arguments Err {T E} error.

Definition is_ok {T E} (r : Result T E) : bool :=
  match r with Ok _ => true | Err _ => false end.

Definition ok {T E} (r : Result T E) : option T :=
  match r with Ok v => Some v | Err _ => None end.

Definition result_map {T U E} (f : T -> U) (r : Result T E) : Result U E :=
  match r with Ok v => Ok (f v) | Err e => Err e end.

Definition result_map_err {T E F} (f : E -> F) (r : Result T E) : Result T F :=
  match r with Ok v => Ok v | Err e => Err (f e) end.

Definition result_bind {T U E} (r : Result T E) (f : T -> Result U E) : Result U E :=
  match r with Ok v => f v | Err e => Err e end.

Notation "'let?' x ':=' r 'in' k" := (result_bind r (fun x => k))
  (at level 10, x pattern, r at level 100, k at level 200)
  : ruscker_scope.

(** ** State passing

    An effectful Rust function over a state [S] is a function from the state
    it finds to its result and the state it leaves. *)

Definition St (S A : Type) : Type := S -> A * S.

Definition st_ret {S A} (a : A) : St S A := fun s => (a, s).

Definition st_bind {S A B} (m : St S A) (k : A -> St S B) : St S B :=
  fun s => let (a, s') := m s in k a s'.

Definition st_get {S A} (f : S -> A) : St S A := fun s => (f s, s).

Definition st_modify {S} (f : S -> S) : St S unit := fun s => (tt, f s).

Notation "'do' x '<-' m ';' k" := (st_bind m (fun x => k))
  (at level 10, x pattern, m at level 100, k at level 200)
  : ruscker_scope.

Notation "'do!' m ';' k" := (st_bind m (fun _ => k))
  (at level 10, m at level 100, k at level 200)
  : ruscker_scope.

(** [for x in l { body x }] with an effectful body. *)
Fixpoint st_for {S A} (l : list A) (body : A -> St S unit) : St S unit :=
  match l with
  | [] => st_ret tt
  | x :: l' => fun s => let (_, s') := body x s in st_for l' body s'
  end.

(** [m?] in a function that returns a [Result]: an error is the result. *)
Definition try_bind {S A B E} (m : St S (Result A E)) (k : A -> St S (Result B E)) : St S (Result B E) :=
  st_bind m (fun r => match r with Ok a => k a | Err e => st_ret (Err e) end).

Notation "'do?' x '<-' m ';' k" := (try_bind m (fun x => k))
  (at level 10, x pattern, m at level 100, k at level 200)
  : ruscker_scope.

(** [m.map_err(f)] *)
Definition st_map_err {S A E F} (f : E -> F) (m : St S (Result A E)) : St S (Result A F) :=
  st_bind m (fun r => st_ret (result_map_err f r)).

(** A loop that pushes what its body yields, in order. *)
Fixpoint st_filter_map {S A B} (body : A -> St S (option B)) (l : list A) : St S (list B) :=
  match l with
  | [] => st_ret []
  | x :: l' =>
    st_bind (body x) (fun o => st_bind (st_filter_map body l') (fun bs =>
      st_ret (match o with Some b => b :: bs | None => bs end)))
  end.

(** An [if let Some(x) = o { body x }] statement. *)
Definition st_when {S A} (o : option A) (body : A -> St S unit) : St S unit :=
  match o with Some x => body x | None => st_ret tt end.

(** Taking a run apart at a bind. *)
Lemma st_bind_inv {S A B} (m : St S A) (k : A -> St S B) s b s' :
  st_bind m k s = (b, s') -> exists a s1, m s = (a, s1) /\ k a s1 = (b, s').
Proof. unfold st_bind. destruct (m s) as [a s1]. eauto. Qed.

Lemma try_bind_inv {S A B E} (m : St S (Result A E)) (k : A -> St S (Result B E)) s r s' :
  try_bind m k s = (r, s') ->
  (exists a s1, m s = (Ok a, s1) /\ k a s1 = (r, s')) \/ (exists e, m s = (Err e, s') /\ r = Err e).
Proof. intros ([a|e] & s1 & Hm & Hk)%st_bind_inv; [eauto|]. injection Hk as <- <-. eauto. Qed.

Lemma try_bind_Ok {S A B E} (m : St S (Result A E)) (k : A -> St S (Result B E)) s b s' :
  try_bind m k s = (Ok b, s') -> exists a s1, m s = (Ok a, s1) /\ k a s1 = (Ok b, s').
Proof. intros [?|(e & _ & [=])]%try_bind_inv. done. Qed.

Lemma st_map_err_inv {S A E F} (f : E -> F) (m : St S (Result A E)) s r s' :
  st_map_err f m s = (r, s') -> exists r0, m s = (r0, s') /\ r = result_map_err f r0.
Proof. intros (r0 & s1 & Hm & Hk)%st_bind_inv. injection Hk as <- <-. eauto. Qed.

Lemma st_filter_map_elem {S A B} (body : A -> St S (option B)) l s bs s' x :
  st_filter_map body l s = (bs, s') -> x ∈ bs -> exists y s1 s2, y ∈ l /\ body y s1 = (Some x, s2).
Proof.
  revert s bs; induction l as [|y l IH]; intros s bs; cbn [st_filter_map]; [intros [= <- <-] ?%not_elem_of_nil; done|].
  intros (o & s1 & Ho & (bs' & s2 & Hl & [= <- <-])%st_bind_inv)%st_bind_inv Hx.
  assert (o = Some x \/ x ∈ bs') as [->|Hx'] by (destruct o; [apply elem_of_cons in Hx as [->|]; eauto|eauto]).
  - exists y, s, s1. split; [left|done].
  - destruct (IH _ _ Hl Hx') as (z & t1 & t2 & Hz & Ht). exists z, t1, t2. split; [by right|done].
Qed.

(** Every run of [m] is a preserving step. *)
Lemma run_of {S A} (R : S -> S -> Prop) (m : St S A) s a s' :
  (forall s, R s (m s).2) -> m s = (a, s') -> R s s'.
Proof. intros Hm E. specialize (Hm s). by rewrite E in Hm. Qed.

(** [preserves R m]: whatever the state, [m] leaves one related to it.  For a
    preorder [R] this composes along the program's structure. *)
Definition preserves {S A} (R : S -> S -> Prop) (m : St S A) : Prop := forall s, R s (m s).2.

Section Preserves.
Context {S : Type} (R : S -> S -> Prop) `{!PreOrder R}.

Lemma preserves_ret {A} (a : A) : preserves R (st_ret a).
Proof. intros s. cbn. reflexivity. Qed.

Lemma preserves_get {A} (f : S -> A) : preserves R (st_get f).
Proof. intros s. cbn. reflexivity. Qed.

Lemma preserves_modify f : (forall s, R s (f s)) -> preserves R (st_modify f).
Proof. intros Hf s. cbn. apply Hf. Qed.

Lemma preserves_bind {A A'} (m : St S A) (k : A -> St S A') :
  preserves R m -> (forall a, preserves R (k a)) -> preserves R (st_bind m k).
Proof.
  intros Hm Hk s. unfold st_bind. specialize (Hm s). destruct (m s) as [a s']. cbn [snd] in Hm.
  etransitivity; [exact Hm|]. apply Hk.
Qed.

(** As [preserves_bind], when the continuation needs a fact about the result. *)
Lemma preserves_bind_post {A A'} (P : A -> Prop) (m : St S A) (k : A -> St S A') :
  preserves R m -> (forall s, P (m s).1) -> (forall a, P a -> preserves R (k a)) -> preserves R (st_bind m k).
Proof.
  intros Hm HP Hk s. unfold st_bind. specialize (Hm s). specialize (HP s). destruct (m s) as [a s'].
  cbn [fst snd] in Hm, HP. etransitivity; [exact Hm|]. by apply Hk.
Qed.

(** As [preserves_bind], at one state. *)
Lemma preserves_bind_at {A A'} (m : St S A) (k : A -> St S A') s :
  R s (m s).2 -> (forall a, preserves R (k a)) -> R s (st_bind m k s).2.
Proof.
  intros Hm Hk. unfold st_bind. destruct (m s) as [a s']. cbn [snd] in Hm.
  etransitivity; [exact Hm|]. apply Hk.
Qed.

Lemma preserves_for {A} (l : list A) body :
  (forall x, x ∈ l -> preserves R (body x)) -> preserves R (st_for l body).
Proof.
  induction l as [|x l IH]; intros Hb; cbn [st_for]; [apply preserves_ret|].
  intros s. pose proof (Hb x (list_elem_of_here x l) s) as H1. destruct (body x s) as [u s']. cbn [snd] in H1.
  etransitivity; [exact H1|]. apply IH. intros y Hy. apply Hb. by right.
Qed.
End Preserves.

Lemma preserves_try {S} (R : S -> S -> Prop) `{!PreOrder R} {A B E} (m : St S (Result A E)) (k : A -> St S (Result B E)) :
  preserves R m -> (forall a, preserves R (k a)) -> preserves R (try_bind m k).
Proof. intros Hm Hk. apply preserves_bind; [done..|]. intros [a|e]; [apply Hk|by apply preserves_ret]. Qed.

Lemma preserves_map_err {S} (R : S -> S -> Prop) `{!PreOrder R} {A E F} (f : E -> F) (m : St S (Result A E)) :
  preserves R m -> preserves R (st_map_err f m).
Proof. intros Hm. apply preserves_bind; [done..|]. intros r. by apply preserves_ret. Qed.

Lemma preserves_filter_map {S} (R : S -> S -> Prop) `{!PreOrder R} {A B} (body : A -> St S (option B)) l :
  (forall x, x ∈ l -> preserves R (body x)) -> preserves R (st_filter_map body l).
Proof.
  induction l as [|x l IH]; intros Hb; cbn [st_filter_map]; [by apply preserves_ret|].
  apply preserves_bind; [done|apply Hb; left|]. intros o.
  apply preserves_bind; [done|apply IH; intros y Hy; apply Hb; by right|]. intros bs. by apply preserves_ret.
Qed.

(** Walk through a stateful program with [preserves]; leaves the basic steps
    the hint database does not know. *)
Ltac preserves_step :=
  match goal with
  | |- preserves _ (st_bind _ _) => apply preserves_bind; [apply _| |intros ?]
  | |- preserves _ (try_bind _ _) => apply preserves_try; [apply _| |intros ?]
  | |- preserves _ (st_map_err _ _) => apply preserves_map_err; [apply _|]
  | |- preserves _ (st_filter_map _ _) => apply preserves_filter_map; [apply _|intros ? ?]
  | |- preserves _ (st_ret _) => apply preserves_ret; apply _
  | |- preserves _ (st_get _) => apply preserves_get; apply _
  | |- preserves _ (st_for _ _) => apply preserves_for; [apply _|intros ? ?]
  | |- preserves _ (match ?x with _ => _ end) => destruct x eqn:?
  end.
Ltac preserves_auto := repeat (preserves_step || (progress eauto with preserves)).

(** ** Machine integers

    A [u32], [i64], ... is a [Z] in its range; the operations the source
    calls are written with their saturation or wrap-around. *)

Definition u32_max : Z := 2 ^ 32 - 1.
Definition u64_max : Z := 2 ^ 64 - 1.
Definition i64_max : Z := 2 ^ 63 - 1.
Definition i64_min : Z := - 2 ^ 63.

Definition u32_in (x : Z) : Prop := 0 <= x <= u32_max.
Definition u64_in (x : Z) : Prop := 0 <= x <= u64_max.
Definition i64_in (x : Z) : Prop := i64_min <= x <= i64_max.

Definition u32_saturating_add (x y : Z) : Z := Z.min u32_max (x + y).
(** [saturating_sub] of any unsigned width. *)
Definition saturating_sub (x y : Z) : Z := Z.max 0 (x - y).
Definition i64_saturating_add (x y : Z) : Z := Z.max i64_min (Z.min i64_max (x + y)).
Definition i64_saturating_mul (x y : Z) : Z := Z.max i64_min (Z.min i64_max (x * y)).
(** [x as i64] of a [u64]: the two's complement reading. *)
Definition u64_as_i64 (x : Z) : Z := if x <=? i64_max then x else x - 2 ^ 64.
(** [x as u64] of an [i64]. *)
Definition i64_as_u64 (x : Z) : Z := x mod 2 ^ 64.
(** [x as u32] of an unsigned integer. *)
Definition as_u32 (x : Z) : Z := x mod 2 ^ 32.
(** An [AtomicUsize::fetch_add] wraps. *)
Definition usize_wrapping_add (x y : Z) : Z := (x + y) mod 2 ^ 64.
(** [u64::div_ceil]. *)
Definition div_ceil (x y : Z) : Z := (x + y - 1) / y.

(** Instants, dates and durations are counts of nanoseconds. *)
Definition from_secs (n : Z) : Z := n * 1000000000.
Definition from_millis (n : Z) : Z := n * 1000000.
Definition as_secs (d : Z) : Z := d / 1000000000.
Definition as_millis (d : Z) : Z := d / 1000000.
(** [Instant::duration_since] saturates to zero. *)
Definition duration_since (later earlier : Z) : Z := saturating_sub later earlier.
(** [chrono::Duration::num_seconds] truncates toward zero. *)
Definition num_seconds (d : Z) : Z := Z.quot d 1000000000.

(** [f64]: IEEE 754 binary64 through the standard library's
    specification floats. *)
Abbreviation f64 := spec_float.
Definition f64_of_Z (x : Z) : f64 := binary_normalize 53 1024 x 0 false.
Definition f64_div (x y : f64) : f64 := SFdiv 53 1024 x y.
Definition f64_mul (x y : f64) : f64 := SFmul 53 1024 x y.
(** [x as i64]: truncated toward zero, saturated, and 0 for a NaN. *)
Definition f64_as_i64 (x : f64) : Z :=
  match x with
  | S754_zero _ | S754_nan => 0
  | S754_infinity neg => if neg then i64_min else i64_max
  | S754_finite neg m e =>
    let magnitude := Z.shiftl (Z.pos m) e in
    Z.max i64_min (Z.min i64_max (if neg then - magnitude else magnitude))
  end.
Definition f64_ltb (x y : f64) : bool := SFltb x y.
Definition f64_zero : f64 := S754_zero false.
Definition f64_is_finite (x : f64) : bool :=
  match x with S754_zero _ | S754_finite _ _ _ => true | _ => false end.

Lemma u32_saturating_add_in x y :
  u32_in x -> 0 <= y -> u32_in (u32_saturating_add x y).
Proof. unfold u32_in, u32_saturating_add. lia. Qed.

Lemma saturating_sub_in x y : u32_in x -> 0 <= y -> u32_in (saturating_sub x y).
Proof. unfold u32_in, saturating_sub. lia. Qed.

Lemma u32_saturating_add_1 x : x < u32_max -> u32_saturating_add x 1 = x + 1.
Proof. unfold u32_saturating_add. lia. Qed.

Lemma saturating_sub_1 x : 0 < x -> saturating_sub x 1 = x - 1.
Proof. unfold saturating_sub. lia. Qed.

Lemma saturating_sub_pos x y : 0 <= y -> 0 < saturating_sub x y <-> y < x.
Proof. unfold saturating_sub. lia. Qed.

#[export] Hint Resolve u32_saturating_add_in saturating_sub_in : ruscker.
#[export] Hint Rewrite u32_saturating_add_1 saturating_sub_1 using lia : ruscker_rw.
#[export] Hint Unfold u32_in u64_in i64_in : ruscker.

(** ** Lists *)

(** [Vec::remove] at the first position satisfying [p]. *)
Fixpoint remove_first {A} (p : A -> bool) (l : list A) : list A :=
  match l with
  | [] => []
  | x :: l' => if p x then l' else x :: remove_first p l'
  end.

(** [iter_mut().find(p)] followed by an update of the element found. *)
Fixpoint update_first {A} (p : A -> bool) (f : A -> A) (l : list A) : list A :=
  match l with
  | [] => []
  | x :: l' => if p x then f x :: l' else x :: update_first p f l'
  end.

(** [Iterator::max_by_key]: the LAST of the elements with the greatest key. *)
Fixpoint max_by_key_from {A} (key : A -> Z) (best : A) (l : list A) : A :=
  match l with
  | [] => best
  | x :: l' => max_by_key_from key (if key best <=? key x then x else best) l'
  end.

Definition max_by_key {A} (key : A -> Z) (l : list A) : option A :=
  match l with [] => None | x :: l' => Some (max_by_key_from key x l') end.

(** [Iterator::min_by_key]: the FIRST of the elements with the least key. *)
Fixpoint min_by_key_from {A} (key : A -> Z) (best : A) (l : list A) : A :=
  match l with
  | [] => best
  | x :: l' => min_by_key_from key (if key x <? key best then x else best) l'
  end.

Definition min_by_key {A} (key : A -> Z) (l : list A) : option A :=
  match l with [] => None | x :: l' => Some (min_by_key_from key x l') end.

(** [Iterator::sum] of a projection. *)
Definition sum_by {A} (f : A -> Z) (l : list A) : Z := foldr (fun x acc => f x + acc) 0 l.

(** [Vec::len] as the source compares it. *)
Definition zlen {A} (l : list A) : Z := Z.of_nat (length l).

Lemma existsb_elem {A} (p : A -> bool) l :
  existsb p l = true <-> exists x, x ∈ l /\ p x = true.
Proof.
  rewrite existsb_exists. by setoid_rewrite list_elem_of_In.
Qed.

Lemma find_elem {A} (p : A -> bool) l x :
  List.find p l = Some x -> x ∈ l /\ p x = true.
Proof. intros H%find_some. by rewrite list_elem_of_In. Qed.

Lemma find_none_elem {A} (p : A -> bool) l x :
  List.find p l = None -> x ∈ l -> p x = false.
Proof. intros H Hx. apply (find_none p l H). by apply list_elem_of_In. Qed.

Lemma filter_elem {A} (p : A -> bool) l x :
  x ∈ List.filter p l <-> x ∈ l /\ p x = true.
Proof. by rewrite !list_elem_of_In, filter_In. Qed.

Lemma list_filter_all {A} (p : A -> bool) l : (forall x, x ∈ l -> p x = true) -> List.filter p l = l.
Proof.
  induction l as [|x l IH]; intros Hp; [done|]. cbn [List.filter]. rewrite (Hp x) by set_solver. f_equal. apply IH. set_solver.
Qed.

#[export] Instance filter_permutation {A} (p : A -> bool) : Proper ((≡ₚ) ==> (≡ₚ)) (List.filter p).
Proof.
  induction 1 as [|x l l' _ IH|x y l|l1 l2 l3 _ IH1 _ IH2]; cbn; [done| | |by etransitivity].
  - destruct (p x); [by constructor|done].
  - destruct (p x), (p y); try done. constructor.
Qed.

Lemma max_by_key_from_elem {A} (key : A -> Z) l best :
  max_by_key_from key best l ∈ best :: l.
Proof.
  revert best; induction l as [|x l IH]; intros best; simpl; [set_solver|].
  specialize (IH (if key best <=? key x then x else best)).
  destruct (key best <=? key x); set_solver.
Qed.

Lemma max_by_key_from_max {A} (key : A -> Z) l best y :
  y ∈ best :: l -> key y <= key (max_by_key_from key best l).
Proof.
  revert best y; induction l as [|x l IH]; intros best y Hy; simpl.
  - by apply list_elem_of_singleton in Hy as ->.
  - destruct (Z.leb_spec (key best) (key x)) as [Hle|Hlt].
    + assert (key x <= key (max_by_key_from key x l)) by (apply IH; set_solver).
      apply elem_of_cons in Hy as [->|Hy]; [lia|]. by apply IH.
    + assert (key best <= key (max_by_key_from key best l)) by (apply IH; set_solver).
      apply elem_of_cons in Hy as [->|Hy]; [done|].
      apply elem_of_cons in Hy as [->|Hy]; [lia|]. apply IH; set_solver.
Qed.

Lemma max_by_key_Some {A} (key : A -> Z) l x :
  max_by_key key l = Some x -> x ∈ l /\ forall y, y ∈ l -> key y <= key x.
Proof.
  destruct l as [|a l]; simpl; [done|]. intros [= <-].
  split; [apply max_by_key_from_elem|]. intros y; apply max_by_key_from_max.
Qed.

Lemma max_by_key_is_Some {A} (key : A -> Z) l : l <> [] -> is_Some (max_by_key key l).
Proof. destruct l; [done|]. simpl. eauto. Qed.

Lemma min_by_key_from_elem {A} (key : A -> Z) l best :
  min_by_key_from key best l ∈ best :: l.
Proof.
  revert best; induction l as [|x l IH]; intros best; simpl; [set_solver|].
  specialize (IH (if key x <? key best then x else best)).
  destruct (key x <? key best); set_solver.
Qed.

Lemma min_by_key_from_min {A} (key : A -> Z) l best y :
  y ∈ best :: l -> key (min_by_key_from key best l) <= key y.
Proof.
  revert best y; induction l as [|x l IH]; intros best y Hy; simpl.
  - by apply list_elem_of_singleton in Hy as ->.
  - destruct (Z.ltb_spec (key x) (key best)) as [Hlt|Hle].
    + assert (key (min_by_key_from key x l) <= key x) by (apply IH; set_solver).
      apply elem_of_cons in Hy as [->|Hy]; [lia|]. by apply IH.
    + assert (key (min_by_key_from key best l) <= key best) by (apply IH; set_solver).
      apply elem_of_cons in Hy as [->|Hy]; [done|].
      apply elem_of_cons in Hy as [->|Hy]; [lia|]. apply IH; set_solver.
Qed.

Lemma min_by_key_Some {A} (key : A -> Z) l x :
  min_by_key key l = Some x -> x ∈ l /\ forall y, y ∈ l -> key x <= key y.
Proof.
  destruct l as [|a l]; simpl; [done|]. intros [= <-].
  split; [apply min_by_key_from_elem|]. intros y; apply min_by_key_from_min.
Qed.

Lemma min_by_key_is_Some {A} (key : A -> Z) l : l <> [] -> is_Some (min_by_key key l).
Proof. destruct l; [done|]. simpl. eauto. Qed.

(** ** Automation *)

(** Split every boolean test of the goal or the context. *)
Ltac bool_split :=
  repeat match goal with
  | H : (_ && _)%bool = true |- _ => apply andb_true_iff in H as [? ?]
  | H : (_ || _)%bool = false |- _ => apply orb_false_iff in H as [? ?]
  | H : negb _ = true |- _ => apply negb_true_iff in H
  | H : negb _ = false |- _ => apply negb_false_iff in H
  | H : (_ <=? _)%Z = true |- _ => apply Z.leb_le in H
  | H : (_ <=? _)%Z = false |- _ => apply Z.leb_gt in H
  | H : (_ <? _)%Z = true |- _ => apply Z.ltb_lt in H
  | H : (_ <? _)%Z = false |- _ => apply Z.ltb_ge in H
  | H : (_ =? _)%Z = true |- _ => apply Z.eqb_eq in H
  | H : (_ =? _)%Z = false |- _ => apply Z.eqb_neq in H
  end.

(** Destruct the scrutinee of the outermost [match] or [if] of a hypothesis
    or of the goal, keeping its equation. *)
Ltac split_match :=
  match goal with
  | |- context [match ?x with _ => _ end] => destruct x eqn:?
  | H : context [match ?x with _ => _ end] |- _ => destruct x eqn:?
  end.

Ltac inv H := inversion H; subst; clear H.
