(* ===== verification/Text.v ===== *)
(** * Text: the [str] operations the source calls

    A Rust [&str] is its UTF-8 byte sequence, one [ascii] per byte.  Each
    operation of the standard library the modelled code uses is written out
    on that representation: splitting, trimming (all of Unicode's
    [White_Space]), prefix tests, replacement, ASCII case folding, decimal
    parsing.  The lemmas are the ones the header filters and the path
    builders need. *)

From Stdlib Require Import Ascii String ZArith Lia.
From stdpp Require Import base tactics list strings sets numbers pretty.
From S2P Require Import Prelude.

(** ** Bytes *)

Definition byte_of (c : ascii) : Z := Z.of_N (N_of_ascii c).
Definition byte_in (lo hi : Z) (c : ascii) : bool := (lo <=? byte_of c) && (byte_of c <=? hi).
Definition is_ascii_digit (c : ascii) : bool := byte_in 48 57 c.
Definition is_ascii_upper (c : ascii) : bool := byte_in 65 90 c.
Definition is_ascii_lower (c : ascii) : bool := byte_in 97 122 c.
Definition is_ascii_hexdigit (c : ascii) : bool :=
  is_ascii_digit c || byte_in 65 70 c || byte_in 97 102 c.
Definition ascii_lower (c : ascii) : ascii :=
  if is_ascii_upper c then ascii_of_N (N_of_ascii c + 32) else c.
Definition ascii_upper (c : ascii) : ascii :=
  if is_ascii_lower c then ascii_of_N (N_of_ascii c - 32) else c.

Fixpoint str_forallb (p : ascii -> bool) (s : string) : bool :=
  match s with EmptyString => true | String c s' => p c && str_forallb p s' end.

Fixpoint str_map (f : ascii -> ascii) (s : string) : string :=
  match s with EmptyString => EmptyString | String c s' => String (f c) (str_map f s') end.

Definition str_is_empty (s : string) : bool :=
  match s with EmptyString => true | _ => false end.

Definition str_eqb (a b : string) : bool := String.eqb a b.

Definition to_ascii_lowercase (s : string) : string := str_map ascii_lower s.
Definition eq_ignore_ascii_case (a b : string) : bool :=
  str_eqb (to_ascii_lowercase a) (to_ascii_lowercase b).

Fixpoint str_rev_app (s acc : string) : string :=
  match s with EmptyString => acc | String c s' => str_rev_app s' (String c acc) end.
Definition str_rev (s : string) : string := str_rev_app s EmptyString.

(** ** Prefixes and search *)

Fixpoint strip_prefix (p s : string) : option string :=
  match p, s with
  | EmptyString, _ => Some s
  | String a p', String b s' => if Ascii.eqb a b then strip_prefix p' s' else None
  | String _ _, EmptyString => None
  end.

Definition starts_with (p s : string) : bool := bool_decide (is_Some (strip_prefix p s)).

Definition strip_suffix (p s : string) : option string :=
  str_rev <$> strip_prefix (str_rev p) (str_rev s).

(** [s.contains(p)] for a string pattern. *)
Fixpoint str_contains (p s : string) : bool :=
  starts_with p s ||
  match s with EmptyString => false | String _ s' => str_contains p s' end.

(** [s.contains(c)] for a character pattern. *)
Fixpoint str_contains_char (c : ascii) (s : string) : bool :=
  match s with EmptyString => false | String d s' => Ascii.eqb c d || str_contains_char c s' end.

(** [s.replace(p, r)]: left to right, non-overlapping; [n] bounds the
    remaining length and is large enough whenever [String.length s <= n]. *)
Fixpoint replace_fuel (n : nat) (p r s : string) : string :=
  match n with
  | O => s
  | S n' =>
    match strip_prefix p s with
    | Some rest => r +:+ replace_fuel n' p r rest
    | None =>
      match s with
      | EmptyString => EmptyString
      | String c s' => String c (replace_fuel n' p r s')
      end
    end
  end.

(** The source only replaces non-empty patterns. *)
Definition str_replace (p r s : string) : string := replace_fuel (S (String.length s)) p r s.

(** ** Splitting *)

(** [s.split(c)]: always at least one piece. *)
Fixpoint split_char (c : ascii) (s : string) : list string :=
  match s with
  | EmptyString => [EmptyString]
  | String d s' =>
    if Ascii.eqb c d then EmptyString :: split_char c s'
    else match split_char c s' with
         | [] => [String d EmptyString]
         | w :: ws => String d w :: ws
         end
  end.

(** [s.split_once(c)]. *)
Fixpoint split_once (c : ascii) (s : string) : option (string * string) :=
  match s with
  | EmptyString => None
  | String d s' =>
    if Ascii.eqb c d then Some (EmptyString, s')
    else (fun '(a, b) => (String d a, b)) <$> split_once c s'
  end.

(** [s.rsplit_once(c)]. *)
Definition rsplit_once (c : ascii) (s : string) : option (string * string) :=
  (fun '(a, b) => (str_rev b, str_rev a)) <$> split_once c (str_rev s).

(** [parts.join(sep)]. *)
Definition str_join (sep : string) (parts : list string) : string := String.concat sep parts.

(** ** Trimming

    The UTF-8 encodings of the code points with Unicode's [White_Space]
    property. *)

Definition byte_str (bs : list N) : string := foldr (fun b acc => String (ascii_of_N b) acc) EmptyString bs.

Definition whitespace_seqs : list string :=
  map (fun b => byte_str [b]) [9; 10; 11; 12; 13; 32]%N
  ++ [byte_str [194; 133]; byte_str [194; 160]; byte_str [225; 154; 128]]%N
  ++ map (fun b => byte_str [226; 128; b]%N)
       [128; 129; 130; 131; 132; 133; 134; 135; 136; 137; 138; 168; 169; 175]%N
  ++ [byte_str [226; 129; 159]; byte_str [227; 128; 128]]%N.

Fixpoint strip_any (ps : list string) (s : string) : option string :=
  match ps with
  | [] => None
  | p :: ps' => match strip_prefix p s with Some r => Some r | None => strip_any ps' s end
  end.

Fixpoint trim_start_fuel (n : nat) (ps : list string) (s : string) : string :=
  match n with
  | O => s
  | S n' => match strip_any ps s with Some r => trim_start_fuel n' ps r | None => s end
  end.

Definition trim_start (s : string) : string := trim_start_fuel (String.length s) whitespace_seqs s.
Definition trim_end (s : string) : string :=
  str_rev (trim_start_fuel (String.length s) (map str_rev whitespace_seqs) (str_rev s)).
Definition trim (s : string) : string := trim_end (trim_start s).

(** [s.trim_start_matches(c)] and [s.trim_matches(c)] for a character. *)
Fixpoint trim_start_char (c : ascii) (s : string) : string :=
  match s with
  | EmptyString => EmptyString
  | String d s' => if Ascii.eqb c d then trim_start_char c s' else s
  end.
Definition trim_end_char (c : ascii) (s : string) : string := str_rev (trim_start_char c (str_rev s)).
Definition trim_char (c : ascii) (s : string) : string := trim_end_char c (trim_start_char c s).

(** [<[u8]>::trim_ascii]: space, tab, LF, FF, CR. *)
Definition is_ascii_whitespace (c : ascii) : bool :=
  existsb (fun b => byte_of c =? b) [9; 10; 12; 13; 32].
Fixpoint trim_ascii_start (s : string) : string :=
  match s with
  | EmptyString => EmptyString
  | String c s' => if is_ascii_whitespace c then trim_ascii_start s' else s
  end.
Definition trim_ascii (s : string) : string :=
  str_rev (trim_ascii_start (str_rev (trim_ascii_start s))).

(** [&s[..n]] and [split_at]. *)
Definition str_take (n : nat) (s : string) : string := substring 0 n s.
Fixpoint str_drop (n : nat) (s : string) : string :=
  match n, s with
  | O, _ => s
  | S n', String _ s' => str_drop n' s'
  | S _, EmptyString => EmptyString
  end.

(** [split_inclusive]: every piece keeps its separator. *)
Fixpoint split_inclusive (c : ascii) (s : string) : list string :=
  match s with
  | EmptyString => []
  | String x rest =>
    if Ascii.eqb x c then String x EmptyString :: split_inclusive c rest
    else match split_inclusive c rest with
         | [] => [String x EmptyString]
         | piece :: pieces => String x piece :: pieces
         end
  end.

(** [s.lines()]: the pieces between line feeds, without their line ends; a
    carriage return goes with the line feed that follows it. *)
Definition strip_line_end (line : string) : string :=
  match strip_suffix (byte_str [10%N]) line with
  | None => line
  | Some body => default body (strip_suffix (byte_str [13%N]) body)
  end.
Definition str_lines (s : string) : list string := map strip_line_end (split_inclusive "010" s).

(** ** Numbers *)

Fixpoint parse_digits (acc : Z) (s : string) : option Z :=
  match s with
  | EmptyString => Some acc
  | String c s' =>
    if is_ascii_digit c then parse_digits (acc * 10 + (byte_of c - 48)) s' else None
  end.

(** [s.parse::<u32>()] (any unsigned width [max]): an optional [+], at least
    one digit, nothing else, no overflow. *)
Definition parse_unsigned (max : Z) (s : string) : option Z :=
  let digits := match s with String c s' => if Ascii.eqb c "+" then s' else s | _ => s end in
  match digits with
  | EmptyString => None
  | _ =>
    match parse_digits 0 digits with
    | Some v => if v <=? max then Some v else None
    | None => None
    end
  end.

(** [s.parse::<i64>()]. *)
Definition parse_i64 (s : string) : option Z :=
  let in_range v := if (i64_min <=? v) && (v <=? i64_max) then Some v else None in
  match s with
  | String c s' =>
    if Ascii.eqb c "-" then
      match s' with EmptyString => None | _ => parse_digits 0 s' ≫= fun v => in_range (- v) end
    else
      let digits := if Ascii.eqb c "+" then s' else s in
      match digits with EmptyString => None | _ => parse_digits 0 digits ≫= in_range end
  | EmptyString => None
  end.

(** [format!("{n}")]. *)
Definition show (n : Z) : string := pretty n.

(** ** Lemmas *)

Lemma str_eqb_spec a b : reflect (a = b) (str_eqb a b).
Proof. apply String.eqb_spec. Qed.

Lemma str_eqb_refl a : str_eqb a a = true.
Proof. apply String.eqb_refl. Qed.

Lemma str_eqb_eq a b : str_eqb a b = true <-> a = b.
Proof. apply String.eqb_eq. Qed.

Lemma str_eqb_neq a b : str_eqb a b = false <-> a <> b.
Proof. apply String.eqb_neq. Qed.

Lemma str_app_nil_r s : s +:+ EmptyString = s.
Proof. induction s as [|c s IH]; [done|]. change (String c (s +:+ EmptyString) = String c s). by rewrite IH. Qed.

Lemma str_app_assoc (a b c : string) : (a +:+ b) +:+ c = a +:+ (b +:+ c).
Proof.
  induction a as [|x a IH]; [done|].
  change (String x ((a +:+ b) +:+ c) = String x (a +:+ (b +:+ c))). by rewrite IH.
Qed.

Lemma str_length_app a b : String.length (a +:+ b) = (String.length a + String.length b)%nat.
Proof. induction a as [|c a IH]; simpl; [done|]. by rewrite <- IH. Qed.

Lemma strip_prefix_Some p s r : strip_prefix p s = Some r <-> s = p +:+ r.
Proof.
  revert s; induction p as [|a p IH]; intros s; simpl.
  - split; [by intros [= ->] | by intros ->].
  - destruct s as [|b s]; [by split|]. destruct (Ascii.eqb_spec a b) as [->|Hne].
    + rewrite IH. split; [by intros -> | by intros [= ->]].
    + split; [done|]. intros [= -> _]. done.
Qed.

Lemma starts_with_spec p s : starts_with p s = true <-> exists r, s = p +:+ r.
Proof.
  unfold starts_with. rewrite bool_decide_eq_true.
  split; intros [r Hr]; exists r; by apply strip_prefix_Some.
Qed.

Lemma starts_with_app p r : starts_with p (p +:+ r) = true.
Proof. apply starts_with_spec. eauto. Qed.

Lemma str_rev_app_spec s acc : str_rev_app s acc = str_rev s +:+ acc.
Proof.
  unfold str_rev. revert acc; induction s as [|c s IH]; intros acc; [done|].
  simpl. rewrite IH, (IH (String c EmptyString)), str_app_assoc. done.
Qed.

Lemma str_rev_cons c s : str_rev (String c s) = str_rev s +:+ String c EmptyString.
Proof. unfold str_rev at 1. simpl. by rewrite str_rev_app_spec. Qed.

Lemma str_rev_app_distr a b : str_rev (a +:+ b) = str_rev b +:+ str_rev a.
Proof.
  induction a as [|c a IH].
  - change (str_rev b = str_rev b +:+ EmptyString). by rewrite str_app_nil_r.
  - change (str_rev (String c (a +:+ b)) = str_rev b +:+ str_rev (String c a)).
    by rewrite !str_rev_cons, IH, str_app_assoc.
Qed.

Lemma str_rev_involutive s : str_rev (str_rev s) = s.
Proof.
  induction s as [|c s IH]; [done|]. by rewrite str_rev_cons, str_rev_app_distr, IH.
Qed.

Lemma split_char_nonempty c s : split_char c s <> [].
Proof. destruct s as [|d s]; simpl; [done|]. destruct (Ascii.eqb c d); [done|]. by destruct (split_char c s). Qed.

Lemma str_contains_char_app c a b :
  str_contains_char c (a +:+ b) = str_contains_char c a || str_contains_char c b.
Proof.
  induction a as [|d a IH]; [done|].
  change (Ascii.eqb c d || str_contains_char c (a +:+ b) = (Ascii.eqb c d || str_contains_char c a) || str_contains_char c b).
  by rewrite IH, orb_assoc.
Qed.

Lemma parse_digits_nonneg acc s v : 0 <= acc -> parse_digits acc s = Some v -> 0 <= v.
Proof.
  revert acc; induction s as [|c s IH]; intros acc Hacc; simpl; [congruence|].
  unfold is_ascii_digit, byte_in. destruct (_ && _) eqn:E; [|done]. bool_split.
  apply IH. lia.
Qed.

Lemma parse_unsigned_range max s v : parse_unsigned max s = Some v -> 0 <= v <= max.
Proof.
  unfold parse_unsigned. intros H.
  set (d := match s with String c s' => if Ascii.eqb c "+" then s' else s | _ => s end) in H.
  destruct d as [|c d]; [done|].
  destruct (parse_digits 0 (String c d)) as [w|] eqn:E; [|done].
  destruct (Z.leb_spec w max); simplify_eq. split; [|done].
  by eapply parse_digits_nonneg; [|exact E].
Qed.

#[export] Hint Rewrite str_eqb_refl : ruscker_rw.

(** ** UTF-8

    [std::str::from_utf8]: the well-formed sequences of the Unicode standard,
    table 3-7 (no overlong forms, no surrogates, nothing above U+10FFFF). *)

Definition utf8_cont (c : ascii) : bool := byte_in 128 191 c.

Fixpoint utf8_valid (s : string) : bool :=
  match s with
  | EmptyString => true
  | String a s1 =>
    if byte_in 0 127 a then utf8_valid s1
    else match s1 with
    | EmptyString => false
    | String b s2 =>
      if byte_in 194 223 a then utf8_cont b && utf8_valid s2
      else match s2 with
      | EmptyString => false
      | String c s3 =>
        let second lo hi first := Ascii.eqb a (ascii_of_N first) && byte_in lo hi b in
        let three := second 160 191 224%N || second 128 159 237%N
                     || ((byte_in 225 236 a || byte_in 238 239 a) && utf8_cont b) in
        if byte_in 224 239 a then three && utf8_cont c && utf8_valid s3
        else match s3 with
        | EmptyString => false
        | String d s4 =>
          let four := second 144 191 240%N || second 128 143 244%N || (byte_in 241 243 a && utf8_cont b) in
          four && utf8_cont c && utf8_cont d && utf8_valid s4
        end
      end
    end
  end.

(** ** Splitting and trimming *)

Definition split_first (c : ascii) (s : string) : string := List.hd EmptyString (split_char c s).

Lemma split_char_no_sep c s : str_contains_char c s = false -> split_char c s = [s].
Proof.
  induction s as [|d s IH]; simpl; [done|]. intros [Hd Hs]%orb_false_iff.
  by rewrite Hd, IH.
Qed.

Lemma split_char_app_sep c a b :
  str_contains_char c a = false -> split_char c (a +:+ String c b) = a :: split_char c b.
Proof.
  induction a as [|d a IH].
  - intros _. change (split_char c (String c b) = EmptyString :: split_char c b). simpl.
    by rewrite Ascii.eqb_refl.
  - intros [Hd Ha]%orb_false_iff.
    change (split_char c (String d (a +:+ String c b)) = String d a :: split_char c b). simpl.
    by rewrite Hd, IH.
Qed.

Lemma split_char_pieces c s p : p ∈ split_char c s -> str_contains_char c p = false.
Proof.
  revert p; induction s as [|d s IH]; intros p; simpl.
  - by intros ->%list_elem_of_singleton.
  - destruct (Ascii.eqb c d) eqn:E.
    + intros [->|Hp]%elem_of_cons; [done|by apply IH].
    + pose proof (split_char_nonempty c s) as Hne. destruct (split_char c s) as [|w ws]; [done|].
      intros [->|Hp]%elem_of_cons; simpl.
      * rewrite E. apply IH. set_solver.
      * apply IH. set_solver.
Qed.

Lemma split_char_app c a b : split_char c (a +:+ String c b) = split_char c a ++ split_char c b.
Proof.
  induction a as [|d a IH].
  - change (split_char c (String c b) = EmptyString :: split_char c b). simpl. by rewrite Ascii.eqb_refl.
  - change (split_char c (String d (a +:+ String c b)) = split_char c (String d a) ++ split_char c b).
    simpl. rewrite IH. destruct (Ascii.eqb c d); [done|].
    pose proof (split_char_nonempty c a). by destruct (split_char c a).
Qed.

Lemma str_forallb_app p a b : str_forallb p (a +:+ b) = str_forallb p a && str_forallb p b.
Proof.
  induction a as [|c a IH]; [done|].
  change (p c && str_forallb p (a +:+ b) = (p c && str_forallb p a) && str_forallb p b).
  by rewrite IH, andb_assoc.
Qed.

Lemma str_forallb_rev p s : str_forallb p (str_rev s) = str_forallb p s.
Proof.
  induction s as [|c s IH]; [done|]. rewrite str_rev_cons, str_forallb_app, IH. simpl.
  by rewrite andb_true_r, andb_comm.
Qed.

Lemma str_forallb_split p c s w : str_forallb p s = true -> w ∈ split_char c s -> str_forallb p w = true.
Proof.
  revert w; induction s as [|d s IH]; intros w; simpl.
  - by intros _ ->%list_elem_of_singleton.
  - intros [Hd Hs]%andb_true_iff. destruct (Ascii.eqb c d).
    + intros [->|Hw]%elem_of_cons; [done|by apply IH].
    + destruct (split_char c s) as [|v ws] eqn:E.
      * intros ->%list_elem_of_singleton. simpl. by rewrite Hd.
      * intros [->|Hw]%elem_of_cons; simpl; [rewrite Hd; apply IH; set_solver|apply IH; set_solver].
Qed.

Lemma str_forallb_join p sep l :
  str_forallb p sep = true -> (forall w, w ∈ l -> str_forallb p w = true) ->
  str_forallb p (str_join sep l) = true.
Proof.
  intros Hsep. induction l as [|w [|v l] IH]; intros Hl; [done|apply Hl; set_solver|].
  change (str_join sep (w :: v :: l)) with (w +:+ sep +:+ str_join sep (v :: l)).
  rewrite !str_forallb_app, Hsep, (Hl w) by set_solver. simpl. apply IH. set_solver.
Qed.

Lemma strip_any_Some ps s r : strip_any ps s = Some r -> exists p, p ∈ ps /\ s = p +:+ r.
Proof.
  induction ps as [|p ps IH]; simpl; [done|]. destruct (strip_prefix p s) eqn:E.
  - intros [= ->]. exists p. split; [set_solver|]. by apply strip_prefix_Some.
  - intros (q & Hq & Hs)%IH. exists q. split; [set_solver|done].
Qed.

Lemma trim_start_fuel_no_char n ps c s :
  str_contains_char c s = false -> str_contains_char c (trim_start_fuel n ps s) = false.
Proof.
  revert s; induction n as [|n IH]; intros s Hs; simpl; [done|].
  destruct (strip_any ps s) as [r|] eqn:E; [|done]. apply IH.
  apply strip_any_Some in E as (p & _ & ->). rewrite str_contains_char_app in Hs.
  by apply orb_false_iff in Hs as [_ ?].
Qed.

Lemma trim_start_fuel_forallb n ps p s :
  str_forallb p s = true -> str_forallb p (trim_start_fuel n ps s) = true.
Proof.
  revert s; induction n as [|n IH]; intros s Hs; simpl; [done|].
  destruct (strip_any ps s) as [r|] eqn:E; [|done]. apply IH.
  apply strip_any_Some in E as (q & _ & ->). rewrite str_forallb_app in Hs.
  by apply andb_true_iff in Hs as [_ ?].
Qed.

Lemma trim_forallb p s : str_forallb p s = true -> str_forallb p (trim s) = true.
Proof.
  intros Hs. unfold trim, trim_end. rewrite str_forallb_rev. apply trim_start_fuel_forallb.
  rewrite str_forallb_rev. by apply trim_start_fuel_forallb.
Qed.

Lemma str_contains_char_rev c s : str_contains_char c (str_rev s) = str_contains_char c s.
Proof.
  induction s as [|d s IH]; [done|]. rewrite str_rev_cons, str_contains_char_app, IH. simpl.
  by rewrite orb_false_r, orb_comm.
Qed.

Lemma trim_no_char c s : str_contains_char c s = false -> str_contains_char c (trim s) = false.
Proof.
  intros Hs. unfold trim, trim_end. rewrite str_contains_char_rev. apply trim_start_fuel_no_char.
  rewrite str_contains_char_rev. unfold trim_start. by apply trim_start_fuel_no_char.
Qed.

Lemma trim_space s : trim (String " " s) = trim s.
Proof. reflexivity. Qed.

(** The pieces of a [join] with a separator that starts with the split
    character. *)
Lemma split_join_cons c sep x xs :
  str_contains_char c x = false -> str_contains_char c sep = false ->
  split_char c (str_join (String c sep) (x :: xs))
  = match xs with [] => [x] | _ => x :: split_char c (sep +:+ str_join (String c sep) xs) end.
Proof.
  intros Hx Hsep. destruct xs as [|y ys]; [by apply split_char_no_sep|].
  change (str_join (String c sep) (x :: y :: ys)) with (x +:+ String c sep +:+ str_join (String c sep) (y :: ys)).
  by rewrite <- split_char_app_sep.
Qed.

(** *** Trimming twice, searching, joining *)

Lemma trim_start_fuel_suffix n ps s : exists q, s = q +:+ trim_start_fuel n ps s.
Proof.
  revert s; induction n as [|n IH]; intros s; simpl; [by exists ""|].
  destruct (strip_any ps s) as [r|] eqn:E; [|by exists ""].
  apply strip_any_Some in E as (p & _ & ->). destruct (IH r) as [q Hq]. exists (p +:+ q).
  by rewrite str_app_assoc, <- Hq.
Qed.

Lemma trim_start_fuel_done n ps s :
  (forall p, p ∈ ps -> p <> "") -> (String.length s <= n)%nat -> strip_any ps (trim_start_fuel n ps s) = None.
Proof.
  intros Hps. revert s; induction n as [|n IH]; intros s Hn; simpl.
  - destruct s; [|simpl in Hn; lia]. destruct (strip_any ps "") as [r|] eqn:E; [|done].
    apply strip_any_Some in E as (p & Hp%Hps & Hr). by destruct p.
  - destruct (strip_any ps s) as [r|] eqn:E; [|done]. apply IH.
    apply strip_any_Some in E as (p & Hp%Hps & ->). rewrite str_length_app in Hn. destruct p; [done|simpl in Hn; lia].
Qed.

Lemma trim_start_fuel_id n ps s : strip_any ps s = None -> trim_start_fuel n ps s = s.
Proof. destruct n; simpl; [done|]. by intros ->. Qed.

Lemma strip_any_None ps s : strip_any ps s = None <-> forall p, p ∈ ps -> strip_prefix p s = None.
Proof.
  induction ps as [|p ps IH]; simpl; [split; [intros _ p Hp; set_solver|done]|].
  destruct (strip_prefix p s) eqn:E.
  - split; [done|]. intros Hp. specialize (Hp p ltac:(set_solver)). congruence.
  - rewrite IH. split; intros Hp q; [|intros Hq; apply Hp; set_solver].
    intros [->|Hq]%elem_of_cons; [done|by apply Hp].
Qed.

(** A prefix of a string that does not start with whitespace does not either. *)
Lemma strip_any_prefix ps a b : strip_any ps (a +:+ b) = None -> strip_any ps a = None.
Proof.
  rewrite !strip_any_None. intros Hn p Hp. specialize (Hn p Hp).
  destruct (strip_prefix p a) as [r|] eqn:E; [|done]. apply strip_prefix_Some in E as ->.
  rewrite str_app_assoc in Hn. by rewrite (proj2 (strip_prefix_Some p _ (r +:+ b)) eq_refl) in Hn.
Qed.

Lemma trim_idem s : trim (trim s) = trim s.
Proof.
  assert (forall p, p ∈ whitespace_seqs -> p <> "") as Hws.
  { intros p Hp. assert (Forall (fun p => p <> "") whitespace_seqs) as Hall by (vm_compute; repeat constructor; done).
    rewrite list.Forall_forall in Hall. by apply Hall. }
  set (t := trim_start s).
  assert (strip_any whitespace_seqs t = None) as Ht by (by apply trim_start_fuel_done).
  destruct (trim_start_fuel_suffix (String.length t) (map str_rev whitespace_seqs) (str_rev t)) as [q Hq].
  assert (t = trim_end t +:+ str_rev q) as Hpre.
  { unfold trim_end. rewrite <- str_rev_app_distr, <- Hq. by rewrite str_rev_involutive. }
  unfold trim at 1. change (trim s) with (trim_end t).
  unfold trim_start. rewrite (trim_start_fuel_id _ whitespace_seqs (trim_end t)) by (rewrite Hpre in Ht; by eapply strip_any_prefix).
  unfold trim_end at 1 3. f_equal. unfold trim_end. rewrite str_rev_involutive. apply trim_start_fuel_id, trim_start_fuel_done.
  - intros p (w & -> & Hw%Hws)%list_elem_of_fmap. destruct w; [done|]. rewrite str_rev_cons. by destruct (str_rev w).
  - clear. induction t as [|c t IH]; [done|]. rewrite str_rev_cons, str_length_app. simpl. lia.
Qed.

Lemma str_contains_spec p s : str_contains p s = true <-> exists a b, s = a +:+ p +:+ b.
Proof.
  split.
  - induction s as [|c s IH]; simpl.
    + intros [(r & ->)%starts_with_spec|?]%orb_true_iff; [by exists "", r|done].
    + intros [(r & ->)%starts_with_spec|(a & b & ->)%IH]%orb_true_iff; [by exists "", r|by exists (String c a), b].
  - intros (a & b & ->). induction a as [|c a IH].
    + change ("" +:+ p +:+ b) with (p +:+ b). destruct (p +:+ b) eqn:E; simpl; rewrite <- E, starts_with_app; done.
    + change (String c a +:+ p +:+ b) with (String c (a +:+ p +:+ b)). simpl. rewrite IH. apply orb_true_r.
Qed.

Lemma split_join c l :
  l <> [] -> (forall x, x ∈ l -> str_contains_char c x = false) -> split_char c (str_join (String c "") l) = l.
Proof.
  induction l as [|x l IH]; intros Hne Hl; [done|]. rewrite split_join_cons; [|apply Hl; set_solver|done].
  destruct l as [|y l]; [done|]. f_equal. apply IH; [done|]. intros z Hz. apply Hl. set_solver.
Qed.

(** *** Numbers are read back *)

Lemma digit_char d : (d < 10)%N -> pretty_N_char d = ascii_of_N (48 + d).
Proof.
  intros Hd. assert (d = 0 \/ d = 1 \/ d = 2 \/ d = 3 \/ d = 4 \/ d = 5 \/ d = 6 \/ d = 7 \/ d = 8 \/ d = 9)%N as Hc by lia.
  by repeat destruct Hc as [->|Hc]; [..|subst].
Qed.

Lemma digit_value d : (d < 10)%N ->
  is_ascii_digit (pretty_N_char d) = true /\ byte_of (pretty_N_char d) - 48 = Z.of_N d.
Proof.
  intros Hd. rewrite digit_char by done. unfold is_ascii_digit, byte_in, byte_of.
  rewrite N_ascii_embedding by lia. split; [|lia]. apply andb_true_intro; split; apply Z.leb_le; lia.
Qed.

Lemma parse_digits_pretty_go x s : parse_digits 0 (pretty_N_go x s) = parse_digits (Z.of_N x) s.
Proof.
  revert s; induction (N.lt_wf_0 x) as [x _ IH]; intros s. destruct (decide (x = 0)%N) as [->|Hx]; [done|].
  rewrite pretty_N_go_step by lia. rewrite IH by (apply N.div_lt; lia).
  assert (x `mod` 10 < 10)%N as [Hdig Hval]%digit_value by (apply N.mod_lt; lia).
  cbn [parse_digits]. rewrite Hdig, Hval. f_equal. pose proof (N.div_mod' x 10). lia.
Qed.

Lemma pretty_N_go_ne_nil x s : x <> 0%N -> pretty_N_go x s <> "".
Proof.
  revert s; induction (N.lt_wf_0 x) as [x _ IH]; intros s Hx. rewrite pretty_N_go_step by lia.
  destruct (decide (x `div` 10 = 0)%N) as [->|Hd]; [done|]. apply IH; [apply N.div_lt; lia|done].
Qed.

Lemma show_nonneg n : 0 <= n -> show n = pretty (Z.to_N n).
Proof. intros Hn. unfold show. destruct n; [done|done|lia]. Qed.

Lemma parse_digits_show n : 0 <= n -> parse_digits 0 (show n) = Some n.
Proof.
  intros Hn. rewrite show_nonneg by lia. unfold pretty, pretty_N. destruct (decide _) as [Hz|Hz].
  - by assert (n = 0) as -> by lia.
  - rewrite parse_digits_pretty_go. cbn. by rewrite Z2N.id by lia.
Qed.

Lemma parse_show max n : 0 <= n <= max -> parse_unsigned max (show n) = Some n.
Proof.
  intros Hn. pose proof (parse_digits_show n ltac:(lia)) as Hp. unfold parse_unsigned.
  destruct (show n) as [|c s'] eqn:Es.
  - exfalso. rewrite show_nonneg in Es by lia. unfold pretty, pretty_N in Es. destruct (decide _) as [Hz|Hz]; [done|].
    apply (pretty_N_go_ne_nil _ _ Hz Es).
  - destruct (Ascii.eqb_spec c "+") as [->|Hc]; [done|]. rewrite Hp. by rewrite (proj2 (Z.leb_le n max)) by lia.
Qed.

(** ** Characters

    [str::chars] on well-formed UTF-8, as code points, and [collect]. *)

Definition cont_bits (c : ascii) : Z := byte_of c - 128.

Fixpoint chars (s : string) : list Z :=
  match s with
  | EmptyString => []
  | String a s1 =>
    let b := byte_of a in
    if b <? 128 then b :: chars s1
    else
      match s1 with
      | EmptyString => []
      | String c1 s2 =>
        if b <? 224 then (b - 192) * 64 + cont_bits c1 :: chars s2
        else
          match s2 with
          | EmptyString => []
          | String c2 s3 =>
            if b <? 240 then (b - 224) * 4096 + cont_bits c1 * 64 + cont_bits c2 :: chars s3
            else
              match s3 with
              | EmptyString => []
              | String c3 s4 => (b - 240) * 262144 + cont_bits c1 * 4096 + cont_bits c2 * 64 + cont_bits c3 :: chars s4
              end
          end
      end
  end.

Definition byte_char (b : Z) : ascii := ascii_of_N (Z.to_N b).

Definition encode_char (c : Z) : string :=
  if c <? 128 then String (byte_char c) EmptyString
  else if c <? 2048 then String (byte_char (192 + c / 64)) (String (byte_char (128 + c mod 64)) EmptyString)
  else if c <? 65536 then
    String (byte_char (224 + c / 4096)) (String (byte_char (128 + c / 64 mod 64)) (String (byte_char (128 + c mod 64)) EmptyString))
  else
    String (byte_char (240 + c / 262144)) (String (byte_char (128 + c / 4096 mod 64))
      (String (byte_char (128 + c / 64 mod 64)) (String (byte_char (128 + c mod 64)) EmptyString))).

Definition collect_chars (l : list Z) : string := String.concat EmptyString (map encode_char l).

(** *** Text around a separator *)

Definition whitespace_free (c : ascii) : bool := forallb (fun p => negb (str_contains_char c p)) whitespace_seqs.

Lemma whitespace_free_elem c p : whitespace_free c = true -> p ∈ whitespace_seqs -> str_contains_char c p = false.
Proof. unfold whitespace_free. rewrite forallb_forall. intros Hc Hp. apply negb_true_iff, Hc. by apply list_elem_of_In. Qed.

Lemma whitespace_nonempty p : p ∈ whitespace_seqs -> p <> "".
Proof.
  assert (Forall (fun p => p <> "") whitespace_seqs) as Hall by (vm_compute; repeat constructor; done).
  rewrite list.Forall_forall in Hall. apply Hall.
Qed.

(** No pattern reaches over a byte that none has. *)
Lemma strip_prefix_app_sep p c a b :
  str_contains_char c p = false -> strip_prefix p a = None -> strip_prefix p (a +:+ String c b) = None.
Proof.
  revert a; induction p as [|d p IH]; intros a Hp Ha; [by destruct a|]. cbn [str_contains_char] in Hp. apply orb_false_iff in Hp as [Hd Hp].
  destruct a as [|e a].
  - change (strip_prefix (String d p) (String c b) = None). cbn [strip_prefix]. by rewrite Ascii.eqb_sym, Hd.
  - change (strip_prefix (String d p) (String e (a +:+ String c b)) = None). cbn [strip_prefix] in *.
    destruct (Ascii.eqb d e); [|done]. by apply IH.
Qed.

Lemma strip_any_app_sep ps c a b :
  (forall p, p ∈ ps -> str_contains_char c p = false) -> strip_any ps a = None -> strip_any ps (a +:+ String c b) = None.
Proof. rewrite !strip_any_None. intros Hc Ha p Hp. apply strip_prefix_app_sep; auto. Qed.

Lemma trim_start_fuel_fixed n ps s :
  (forall p, p ∈ ps -> p <> "") -> (String.length s <= n)%nat -> trim_start_fuel n ps s = s -> strip_any ps s = None.
Proof. intros Hps Hn E. rewrite <- E. by apply trim_start_fuel_done. Qed.

Lemma str_rev_nonempty s : s <> "" -> str_rev s <> "".
Proof. intros Hs E. apply Hs. by rewrite <- (str_rev_involutive s), E. Qed.

Lemma str_length_rev s : String.length (str_rev s) = String.length s.
Proof. induction s as [|c s IH]; [done|]. rewrite str_rev_cons, str_length_app, IH. simpl. lia. Qed.

(** A string is trimmed when it neither starts nor ends with whitespace. *)
Lemma trim_fixed s :
  trim s = s <-> strip_any whitespace_seqs s = None /\ strip_any (map str_rev whitespace_seqs) (str_rev s) = None.
Proof.
  assert (forall p, p ∈ map str_rev whitespace_seqs -> p <> "") as Hrev.
  { intros p (w & -> & Hw%whitespace_nonempty)%list_elem_of_fmap. by apply str_rev_nonempty. }
  split.
  - intros E. destruct (trim_start_fuel_suffix (String.length s) whitespace_seqs s) as [q Hq]. fold (trim_start s) in Hq.
    destruct (trim_start_fuel_suffix (String.length (trim_start s)) (map str_rev whitespace_seqs) (str_rev (trim_start s))) as [q' Hq'].
    assert (trim_start s = trim s +:+ str_rev q') as Hpre.
    { unfold trim, trim_end. rewrite <- str_rev_app_distr, <- Hq'. by rewrite str_rev_involutive. }
    rewrite E in Hpre. assert (q = "") as ->.
    { apply (f_equal String.length) in Hq, Hpre. rewrite str_length_app in Hq, Hpre. destruct q; [done|simpl in Hq; lia]. }
    change (s = trim_start s) in Hq. split.
    + eapply (trim_start_fuel_fixed (String.length s)); [apply whitespace_nonempty|done|symmetry; exact Hq].
    + unfold trim, trim_end in E. rewrite <- Hq in E. eapply (trim_start_fuel_fixed (String.length s)); [done|by rewrite str_length_rev|].
      apply (f_equal str_rev) in E. by rewrite str_rev_involutive in E.
  - intros [Hs He]. unfold trim, trim_end, trim_start. rewrite (trim_start_fuel_id _ _ s) by done.
    rewrite (trim_start_fuel_id _ _ (str_rev s)) by done. apply str_rev_involutive.
Qed.

Lemma trim_empty : trim "" = "".
Proof. reflexivity. Qed.

Lemma trim_app_sep c a b : whitespace_free c = true -> trim a = a -> trim b = b -> trim (a +:+ String c b) = a +:+ String c b.
Proof.
  intros Hc [Ha _]%trim_fixed [_ Hb]%trim_fixed. apply trim_fixed. split.
  - apply strip_any_app_sep; [intros p; by apply whitespace_free_elem|done].
  - rewrite str_rev_app_distr, str_rev_cons, str_app_assoc. apply strip_any_app_sep; [|done].
    intros p (w & -> & Hw)%list_elem_of_fmap. rewrite str_contains_char_rev. by apply whitespace_free_elem.
Qed.

Lemma trim_join_sep c l :
  whitespace_free c = true -> (forall x, x ∈ l -> trim x = x) ->
  trim (str_join (String c "") l) = str_join (String c "") l.
Proof.
  intros Hc. induction l as [|x [|y l] IH]; intros Hl; [reflexivity|apply Hl; set_solver|].
  change (str_join (String c "") (x :: y :: l)) with (x +:+ String c (str_join (String c "") (y :: l))).
  apply trim_app_sep; [done|apply Hl; set_solver|apply IH; set_solver].
Qed.

(** What is left after trimming keeps the other characters. *)
Lemma trim_start_fuel_keeps n ps c s :
  (forall p, p ∈ ps -> str_contains_char c p = false) -> str_contains_char c (trim_start_fuel n ps s) = str_contains_char c s.
Proof.
  intros Hps. revert s; induction n as [|n IH]; intros s; simpl; [done|].
  destruct (strip_any ps s) as [r|] eqn:E; [|done]. apply strip_any_Some in E as (p & Hp & ->).
  by rewrite IH, str_contains_char_app, (Hps p Hp).
Qed.

Lemma trim_keeps_char c s : whitespace_free c = true -> str_contains_char c (trim s) = str_contains_char c s.
Proof.
  intros Hc. unfold trim, trim_end. rewrite str_contains_char_rev, trim_start_fuel_keeps, str_contains_char_rev.
  - unfold trim_start. apply trim_start_fuel_keeps. intros p. by apply whitespace_free_elem.
  - intros p (w & -> & Hw)%list_elem_of_fmap. rewrite str_contains_char_rev. by apply whitespace_free_elem.
Qed.

(** Printable ASCII is not whitespace. *)
Lemma strip_any_printable c s : byte_in 33 126 c = true -> strip_any whitespace_seqs (String c s) = None.
Proof. destruct c as [[] [] [] [] [] [] [] []]; intros Hc; solve [discriminate Hc|reflexivity]. Qed.

Lemma str_map_app f a b : str_map f (a +:+ b) = str_map f a +:+ str_map f b.
Proof. induction a as [|c a IH]; [done|]. change (String (f c) (str_map f (a +:+ b)) = String (f c) (str_map f a +:+ str_map f b)). by rewrite IH. Qed.

(** *** Lines *)

Lemma split_inclusive_app c a b :
  str_contains_char c a = false -> split_inclusive c (a +:+ String c b) = (a +:+ String c "") :: split_inclusive c b.
Proof.
  induction a as [|d a IH]; intros Ha.
  - change (split_inclusive c (String c b) = String c "" :: split_inclusive c b). cbn [split_inclusive]. by rewrite Ascii.eqb_refl.
  - cbn [str_contains_char] in Ha. apply orb_false_iff in Ha as [Hd Ha]. change (String d a +:+ String c b) with (String d (a +:+ String c b)).
    cbn [split_inclusive]. rewrite Ascii.eqb_sym, Hd, (IH Ha). reflexivity.
Qed.

Lemma strip_suffix_app s r : strip_suffix s (r +:+ s) = Some r.
Proof.
  unfold strip_suffix. rewrite str_rev_app_distr, (proj2 (strip_prefix_Some _ _ (str_rev r)) eq_refl). cbn.
  by rewrite str_rev_involutive.
Qed.

(** *** Printable text *)

Lemma whitespace_free_printable c : byte_in 33 126 c = true -> whitespace_free c = true.
Proof. destruct c as [[] [] [] [] [] [] [] []]; intros Hc; solve [discriminate Hc|reflexivity]. Qed.

Lemma trim_printable s : str_forallb (byte_in 33 126) s = true -> trim s = s.
Proof.
  intros Hs. assert (forall ps r, (forall p, p ∈ ps -> p <> "") ->
      (forall c p, byte_in 33 126 c = true -> p ∈ ps -> str_contains_char c p = false) ->
      str_forallb (byte_in 33 126) r = true -> strip_any ps r = None) as Hstrip.
  { intros ps r Hne Hno Hr. assert (strip_any ps "" = None) as Hempty.
    { apply strip_any_None. intros p Hp%Hne. by destruct p. }
    destruct r as [|c r]; [done|]. cbn [str_forallb] in Hr. apply andb_true_iff in Hr as [Hc _].
    apply (strip_any_app_sep ps c "" r); [|done]. intros p. by apply Hno. }
  apply trim_fixed. split; apply Hstrip; try done.
  - apply whitespace_nonempty.
  - intros c p Hc. by apply whitespace_free_elem, whitespace_free_printable.
  - intros p (w & -> & Hw%whitespace_nonempty)%list_elem_of_fmap. by apply str_rev_nonempty.
  - intros c p Hc (w & -> & Hw)%list_elem_of_fmap. rewrite str_contains_char_rev.
    by apply whitespace_free_elem; [apply whitespace_free_printable|].
  - by rewrite str_forallb_rev.
Qed.

Lemma forallb_no_char p c s : str_forallb p s = true -> p c = false -> str_contains_char c s = false.
Proof.
  induction s as [|d s IH]; [done|]. cbn [str_forallb str_contains_char]. intros [Hd Hs]%andb_true_iff Hc.
  rewrite IH by done. destruct (Ascii.eqb_spec c d) as [->|]; [congruence|done].
Qed.
