(* ===== verification/Schema.v ===== *)
(** * Schema: the configuration model (crates/ruscker-config)

    The data of [schema.rs] the runtime dispatches on, one record or
    inductive per Rust type, and every resolver the runtime calls to read a
    spec ([Spec::effective_*], the access rule, the parsers of sizes and rate
    limits), together with the [${VAR}] interpolation of [env.rs].

    The process environment and the time-zone database are not code of the
    repository: they are arguments of the definitions that read them. *)

From Stdlib Require Import Ascii String ZArith Lia.
From stdpp Require Import base tactics list gmap strings fin_maps numbers.
From Corelib Require Import SpecFloat.
From S2P Require Import Prelude Text.

Local Open Scope string_scope.
Local Open Scope list_scope.
Local Open Scope Z_scope.
Local Open Scope ruscker_scope.

(** ** Enumerations *)

Module SpecKindOverride.
Inductive t := Shiny | App | Streamlit | Dash | Voila | Api | External.
#[global] Instance eq_dec : EqDecision t.
Proof. solve_decision. Defined.
End SpecKindOverride.

Module SpecKind.
Inductive t := Shiny | InteractiveApp | Api | External.
#[global] Instance eq_dec : EqDecision t.
Proof. solve_decision. Defined.
End SpecKind.

Module RoutingStrategy.
Inductive t := LeastConnections | RoundRobin | WeightedRandom | ResourceAware.
#[global] Instance eq_dec : EqDecision t.
Proof. solve_decision. Defined.
End RoutingStrategy.

Module Placement.
Inductive t := Spread | BinPack.
#[global] Instance eq_dec : EqDecision t.
Proof. solve_decision. Defined.
End Placement.

Module IdentityClaim.
Inductive t := Email | Setor.
#[global] Instance eq_dec : EqDecision t.
Proof. solve_decision. Defined.
End IdentityClaim.

(** [ruscker_config::Error], the variants of reading a reference. *)
Module ConfigError.
Inductive t := MissingEnvVar (name : string) | InvalidEnvRef (literal : string).
Definition display (e : t) : string :=
  match e with
  | MissingEnvVar name => "environment variable " +:+ name +:+ " referenced in config but not set"
  | InvalidEnvRef literal => "invalid environment variable reference: " +:+ literal
  end.
End ConfigError.

(** ** Template properties

    The source only reads a property through [Value::as_str]. *)

Inductive YamlValue := YamlString (s : string) | YamlOther.

Definition as_str (v : YamlValue) : option string :=
  match v with YamlString s => Some s | YamlOther => None end.

Module TemplateProperties.
Definition get_str (props : gmap string YamlValue) (key : string) : option string :=
  props !! key ≫= as_str.
Definition set_str (props : gmap string YamlValue) (key value : string) : gmap string YamlValue :=
  <[key := YamlString value]> props.
Definition remove (props : gmap string YamlValue) (key : string) : gmap string YamlValue :=
  delete key props.
Definition type_field (props : gmap string YamlValue) : option string := get_str props "type".
Definition state (props : gmap string YamlValue) : string := default "active" (get_str props "state").
Definition is_active (props : gmap string YamlValue) : bool := str_eqb (state props) "active".
End TemplateProperties.

(** ** API block *)

(** A parsed rate limit; the window is a [Duration]. *)
Module RatePolicy.
Record t := mk { max : Z; window : Z }.
End RatePolicy.

Module ApiSpec.
Record t := mk {
  port : option Z;
  docs_path : option string;
  health_path : option string;
  rate_limit : option string;
  cors : bool }.
End ApiSpec.

Definition parse_rate_limit (raw : string) : option RatePolicy.t :=
  match split_once "/" raw with
  | None => None
  | Some (count, unit) =>
    match parse_unsigned u32_max (trim count) with
    | None => None
    | Some max =>
      if max =? 0 then None else
      let u := to_ascii_lowercase (trim unit) in
      let one_of := existsb (str_eqb u) in
      if one_of ["s"; "sec"; "secs"; "second"; "seconds"] then Some (RatePolicy.mk max (from_secs 1))
      else if one_of ["m"; "min"; "mins"; "minute"; "minutes"] then Some (RatePolicy.mk max (from_secs 60))
      else if one_of ["h"; "hr"; "hrs"; "hour"; "hours"] then Some (RatePolicy.mk max (from_secs 3600))
      else None
    end
  end.

Definition rate_policy (a : ApiSpec.t) : option RatePolicy.t :=
  ApiSpec.rate_limit a ≫= parse_rate_limit.

(** ** Sizes

    [str::parse::<f64>]: an optional sign, then [inf], [infinity], [nan] (any
    case) or a decimal number with an optional fraction and exponent, rounded
    to the nearest binary64. *)

Definition span_digits : string -> string * string :=
  fix go s :=
    match s with
    | String c s' =>
      if is_ascii_digit c then let (d, r) := go s' in (String c d, r) else (EmptyString, s)
    | EmptyString => (EmptyString, EmptyString)
    end.

Definition parse_sign (s : string) : bool * string :=
  match s with
  | String c s' =>
    if Ascii.eqb c "-" then (true, s') else if Ascii.eqb c "+" then (false, s') else (false, s)
  | EmptyString => (false, s)
  end.

Definition parse_exponent (s : string) : option Z :=
  match s with
  | EmptyString => Some 0
  | String c s' =>
    if Ascii.eqb (ascii_lower c) "e" then
      let (neg, digits) := parse_sign s' in
      if str_is_empty digits then None
      else (fun v => if neg : bool then - v else v) <$> parse_digits 0 digits
    else None
  end.

(** [m * 10^e], correctly rounded. *)
Definition f64_of_decimal (neg : bool) (m e : Z) : f64 :=
  match m with
  | Zpos p =>
    if 0 <=? e then binary_normalize 53 1024 (if neg then - (m * 10 ^ e) else m * 10 ^ e) 0 neg
    else SFdiv 53 1024 (S754_finite neg p 0) (S754_finite false (Z.to_pos (10 ^ (- e))) 0)
  | _ => S754_zero neg
  end.

Definition parse_f64 (s : string) : option f64 :=
  let (neg, body) := parse_sign s in
  let low := to_ascii_lowercase body in
  if str_eqb low "inf" || str_eqb low "infinity" then Some (S754_infinity neg)
  else if str_eqb low "nan" then Some S754_nan
  else
    let (ip, r) := span_digits body in
    let '(fp, r) := match r with
                    | String c r' => if Ascii.eqb c "." then span_digits r' else (EmptyString, r)
                    | EmptyString => (EmptyString, r)
                    end in
    if str_is_empty (ip +:+ fp) then None
    else
      match parse_digits 0 (ip +:+ fp), parse_exponent r with
      | Some m, Some e => Some (f64_of_decimal neg m (e - Z.of_nat (String.length fp)))
      | _, _ => None
      end.

(** [f64]'s [Display]: the shortest decimal that reads back as the number, the
    closest one when several are as short, without an exponent. *)

Definition ratio_of (m : positive) (e : Z) : Z * Z :=
  if 0 <=? e then (Zpos m * 2 ^ e, 1) else (Zpos m, 2 ^ (- e)).

(** The [k] with [10^(k-1) <= n/d < 10^k]. *)
Definition decimal_point (n d : Z) : Z :=
  let digits z := Z.of_nat (String.length (show z)) in
  let k := digits n - digits d + 1 in
  if (if 0 <=? k - 1 then d * 10 ^ (k - 1) <=? n else d <=? n * 10 ^ (1 - k)) then k else k - 1.

Fixpoint zeros (n : nat) : string := match n with O => "" | S n => String "0" (zeros n) end.

(** [0.ds * 10^k], written out. *)
Definition place_point (ds : string) (k : Z) : string :=
  let p := Z.of_nat (String.length ds) in
  if k <=? 0 then "0." +:+ zeros (Z.to_nat (- k)) +:+ ds
  else if k <? p then str_take (Z.to_nat k) ds +:+ "." +:+ str_drop (Z.to_nat k) ds
  else ds +:+ zeros (Z.to_nat (k - p)).

(** The decimals of [p] digits next to [n/d], the closer one first. *)
Definition decimals_near (n d k p : Z) : list string :=
  let '(num, den) := if k <=? p then (n * 10 ^ (p - k), d) else (n, d * 10 ^ (k - p)) in
  let low := num / den in
  let put m := let ds := show m in place_point ds (k + Z.of_nat (String.length ds) - p) in
  if 2 * (num mod den) <=? den then [put low; put (low + 1)] else [put (low + 1); put low].

#[global] Instance f64_eq_dec : EqDecision spec_float.
Proof. solve_decision. Defined.

Definition reads_as (x : f64) (s : string) : bool := bool_decide (parse_f64 s = Some x).

Definition f64_to_string (x : f64) : string :=
  match x with
  | S754_zero neg => if neg then "-0" else "0"
  | S754_infinity neg => if neg then "-inf" else "inf"
  | S754_nan => "NaN"
  | S754_finite neg m e =>
    let '(n, d) := ratio_of m e in
    let k := decimal_point n d in
    let signed s := if neg : bool then "-" +:+ s else s in
    default "" (List.find (reads_as x) (map signed (concat (map (decimals_near n d k) (Z.of_nat <$> seq 1 17)))))
  end.

Example f64_printed :
  map f64_to_string (omap parse_f64 ["0.5"; "1"; "1.50"; "0.1"; "100"; "0.007"; "1e21"; "-2.25"; "0.30000000000000004"])
  = ["0.5"; "1"; "1.5"; "0.1"; "100"; "0.007"; "1000000000000000000000"; "-2.25"; "0.30000000000000004"].
Proof. vm_compute. reflexivity. Qed.

Definition last_char (s : string) : option ascii :=
  match str_rev s with String c _ => Some c | EmptyString => None end.

Definition but_last (s : string) : string := substring 0 (String.length s - 1) s.

Definition parse_memory_string (s : string) : option Z :=
  let s := trim s in
  if str_is_empty s then None else
  match last_char s with
  | None => None
  | Some last =>
    let l := ascii_lower last in
    let scaled : option (string * Z) :=
      if Ascii.eqb l "b" then Some (but_last s, 1)
      else if Ascii.eqb l "k" then Some (but_last s, 1024)
      else if Ascii.eqb l "m" then Some (but_last s, 1024 * 1024)
      else if Ascii.eqb l "g" then Some (but_last s, 1024 * 1024 * 1024)
      else if is_ascii_lower l then None
      else Some (s, 1) in
    match scaled with
    | None => None
    | Some (num_part, multiplier) =>
      match parse_f64 (trim num_part) with
      | None => None
      | Some n =>
        if negb (f64_is_finite n) || f64_ltb n f64_zero then None
        else
          let bytes := f64_as_i64 (SFmul 53 1024 n (f64_of_Z multiplier)) in
          if 0 <=? bytes then Some bytes else None
      end
    end
  end.

Definition is_valid_memory_size (s : string) : bool := bool_decide (is_Some (parse_memory_string s)).

(** ** [${VAR}] interpolation (env.rs) *)

Inductive EnvVar := EnvPresent (v : string) | EnvNotPresent | EnvNotUnicode.

Definition is_name_start (c : ascii) : bool :=
  byte_in 65 90 c || byte_in 97 122 c || Ascii.eqb c "_".
Definition is_name_char (c : ascii) : bool := is_name_start c || is_ascii_digit c.

Fixpoint span (p : ascii -> bool) (s : string) : string * string :=
  match s with
  | String c s' => if p c then let (d, r) := span p s' in (String c d, r) else (EmptyString, s)
  | EmptyString => (EmptyString, EmptyString)
  end.

(** One match of [ENV_VAR_PATTERN] at the head of the text: a dollar and an
    open brace, a name, then either the closing brace or colon-dash, a default
    without closing brace, and the closing brace.  The result is the name, the
    default, and what follows the match. *)
Definition match_env_token (s : string) : option (string * option string * string) :=
  match strip_prefix "${" s with
  | None => None
  | Some r =>
    let (name, r) := span is_name_char r in
    match name with
    | EmptyString => None
    | String c _ =>
      if negb (is_name_start c) then None else
      match r with
      | EmptyString => None
      | String d r' =>
        if Ascii.eqb d "}" then Some (name, None, r') else
        match strip_prefix ":-" r with
        | None => None
        | Some r =>
          let (dflt, r) := span (fun c => negb (Ascii.eqb c "}")) r in
          match r with
          | String _ r' => Some (name, Some dflt, r')
          | EmptyString => None
          end
        end
      end
    end
  end.

(** [interpolate_line]; the fuel bounds the remaining length. *)
Fixpoint interpolate_fuel (env : string -> EnvVar) (n : nat) (s : string)
  : Result string ConfigError.t :=
  match n with
  | O => Ok s
  | S n' =>
    match match_env_token s with
    | Some (name, dflt, rest) =>
      let full := "${" +:+ name +:+ match dflt with Some d => ":-" +:+ d | None => EmptyString end +:+ "}" in
      if match dflt with Some d => str_contains "${" d | None => false end then
        Err (ConfigError.InvalidEnvRef
               (full +:+ "} — a nested reference in a `:-` default is not supported"))
      else
        let? value :=
          match env name with
          | EnvPresent v => Ok v
          | EnvNotPresent =>
            match dflt with Some d => Ok d | None => Err (ConfigError.MissingEnvVar name) end
          | EnvNotUnicode => Err (ConfigError.InvalidEnvRef name)
          end in
        let? tail := interpolate_fuel env n' rest in
        Ok (value +:+ tail)
    | None =>
      match s with
      | EmptyString => Ok EmptyString
      | String c s' => result_map (String c) (interpolate_fuel env n' s')
      end
    end
  end.

Definition interpolate_line (env : string -> EnvVar) (line : string) : Result string ConfigError.t :=
  interpolate_fuel env (S (String.length line)) line.

Definition interpolate_value (env : string -> EnvVar) (value : string) : Result string ConfigError.t :=
  interpolate_line env value.

(** ** Specs *)

Definition DEFAULT_MAX_REPLICAS : Z := 5.
Definition DEFAULT_SCALE_DOWN_COOLDOWN_SECS : Z := 60.
Definition DEFAULT_SEATS_PER_APP : Z := 10.
Definition DEFAULT_MFA_VALIDITY_DAYS : Z := 7.
Definition MAX_MFA_VALIDITY_DAYS : Z := 30.

Module Spec.
(** A [BTreeMap<String, String>] is its list of entries in key order. *)
Record t := mk {
  id : string;
  display_name : option string;
  description : option string;
  featured : option bool;
  container_image : option string;
  container_port : option Z;
  platform : option string;
  seats_per_container : option Z;
  max_lifetime : option Z;
  container_lifetime : option Z;
  heartbeat_timeout : option Z;
  container_wait_time : option Z;
  stop_on_logout : option bool;
  docker_registry_username : option string;
  docker_registry_password : option string;
  docker_registry_domain : option string;
  docker_registry_credential : option string;
  container_cpu_limit : option f64;
  container_cpu_request : option f64;
  container_memory_limit : option string;
  container_memory_request : option string;
  max_body_size : option string;
  volumes : option (list string);
  container_env : option (list (string * string));
  container_cmd : option (list string);
  container_network : option string;
  labels : option (list (string * string));
  access_groups : option (list string);
  access_users : option (list string);
  require_mfa : option bool;
  mfa_validity_days : option Z;
  add_default_http_headers : option bool;
  identity_claims : option (list string);
  template_properties : gmap string YamlValue;
  kind_override : option SpecKindOverride.t;
  api : option ApiSpec.t;
  min_replicas : option Z;
  max_replicas : option Z;
  scale_up_threshold : option f64;
  scale_down_threshold : option f64;
  scale_down_grace : option Z;
  scale_down_cooldown_secs : option Z;
  drain_timeout : option Z;
  routing_strategy : option RoutingStrategy.t;
  concurrent_requests_per_replica : option Z;
  placement : option Placement.t;
  anti_affinity : option bool;
  inject_base_href : option bool }.

(** *** Container parameters *)

Definition env_pairs (s : t) : list string :=
  match container_env s with
  | Some m => map (fun '(k, v) => k +:+ "=" +:+ v) m
  | None => []
  end.

Fixpoint resolve_pairs (env : string -> EnvVar) (pairs : list string)
  : Result (list string) ConfigError.t :=
  match pairs with
  | [] => Ok []
  | kv :: rest =>
    let? kv' :=
      match split_once "=" kv with
      | Some (k, v) => let? v' := interpolate_value env v in Ok (k +:+ "=" +:+ v')
      | None => Ok kv
      end in
    let? rest' := resolve_pairs env rest in
    Ok (kv' :: rest')
  end.

Definition resolved_env_pairs (env : string -> EnvVar) (s : t) : Result (list string) ConfigError.t :=
  resolve_pairs env (env_pairs s).

Definition kind (s : t) : SpecKind.t :=
  match kind_override s with
  | Some SpecKindOverride.Api => SpecKind.Api
  | Some SpecKindOverride.Shiny => SpecKind.Shiny
  | Some (SpecKindOverride.App | SpecKindOverride.Streamlit
          | SpecKindOverride.Dash | SpecKindOverride.Voila) => SpecKind.InteractiveApp
  | Some SpecKindOverride.External => SpecKind.External
  | None => match container_image s with Some _ => SpecKind.Shiny | None => SpecKind.External end
  end.

Definition effective_seats (s : t) : Z :=
  match seats_per_container s with
  | Some n => n
  | None =>
    match kind s with
    | SpecKind.Api => 100
    | SpecKind.Shiny | SpecKind.InteractiveApp => DEFAULT_SEATS_PER_APP
    | SpecKind.External => 0
    end
  end.

(** *** Access *)

Definition none_or_empty {A} (o : option (list A)) : bool :=
  match o with None | Some [] => true | Some (_ :: _) => false end.

Definition is_open (s : t) : bool := none_or_empty (access_groups s) && none_or_empty (access_users s).

Definition effective_require_mfa (s : t) : bool := default false (require_mfa s).

Definition effective_mfa_validity_days (s : t) : Z :=
  Z.min (default DEFAULT_MFA_VALIDITY_DAYS (mfa_validity_days s)) MAX_MFA_VALIDITY_DAYS.

Definition effective_add_default_http_headers (s : t) : bool :=
  default false (add_default_http_headers s).

Definition parse_identity_claim (name : string) : option IdentityClaim.t :=
  if str_eqb (trim name) "email" then Some IdentityClaim.Email
  else if str_eqb (trim name) "setor" then Some IdentityClaim.Setor
  else None.

Definition effective_identity_claims (s : t) : list IdentityClaim.t :=
  foldl (fun claims name =>
           match parse_identity_claim name with
           | None => claims
           | Some claim => if bool_decide (claim ∈ claims) then claims else claims ++ [claim]
           end) [] (default [] (identity_claims s)).

Definition shows_lock_badge (s : t) : bool :=
  match TemplateProperties.get_str (template_properties s) "locked" with
  | Some v => existsb (str_eqb v) ["true"; "on"; "1"; "yes"]
  | None => false
  end.

Definition access_allows (s : t) (is_admin : bool) (username : option string) (groups : list string) : bool :=
  if is_admin || is_open s then true
  else if match username with
          | Some name =>
            match access_users s with Some us => existsb (fun u => str_eqb u name) us | None => false end
          | None => false
          end then true
  else match access_groups s with
       | Some gs => existsb (fun g => existsb (fun h => str_eqb h g) groups) gs
       | None => false
       end.

Definition is_featured (s : t) : bool := default false (featured s).

(** *** Scaling *)

Definition effective_min_replicas (s : t) : Z := default 0 (min_replicas s).

Definition effective_max_replicas (s : t) : Z :=
  match max_replicas s with
  | Some n => n
  | None =>
    match kind s with
    | SpecKind.External => 0
    | _ => Z.max (effective_min_replicas s) DEFAULT_MAX_REPLICAS
    end
  end.

Definition effective_max_lifetime_secs (s : t) : option Z :=
  (fun m => i64_saturating_mul (u64_as_i64 m) 60) <$> max_lifetime s.

Definition effective_container_lifetime_secs (s : t) : option Z :=
  (fun m => i64_saturating_mul (u64_as_i64 m) 60) <$> container_lifetime s.

Definition effective_drain_timeout_secs (s : t) : Z :=
  match drain_timeout s with Some d => u64_as_i64 d | None => 60 end.

Definition effective_scale_up_threshold (s : t) : option f64 := scale_up_threshold s.
Definition effective_scale_down_threshold (s : t) : option f64 := scale_down_threshold s.

Definition effective_scale_down_cooldown_secs (s : t) : Z :=
  default DEFAULT_SCALE_DOWN_COOLDOWN_SECS (scale_down_cooldown_secs s).

Definition effective_stop_on_logout (s : t) : bool := default false (stop_on_logout s).

Definition effective_concurrent_requests_per_replica (s : t) : Z :=
  default 100 (concurrent_requests_per_replica s).

Definition effective_placement (s : t) : Placement.t := default Placement.Spread (placement s).
Definition effective_anti_affinity (s : t) : bool := default false (anti_affinity s).

Definition effective_container_network (s : t) : option string :=
  match container_network s with
  | Some n => let n := trim n in if str_is_empty n then None else Some n
  | None => None
  end.

Definition effective_labels (s : t) : list (string * string) :=
  match labels s with
  | Some m => omap (fun '(k, v) => let k := trim k in if str_is_empty k then None else Some (k, v)) m
  | None => []
  end.

Definition effective_routing (s : t) : RoutingStrategy.t :=
  match routing_strategy s with
  | Some r => r
  | None =>
    match kind s with SpecKind.Api => RoutingStrategy.RoundRobin | _ => RoutingStrategy.LeastConnections end
  end.

Definition needs_sticky_sessions (s : t) : bool :=
  match kind s with SpecKind.Shiny | SpecKind.InteractiveApp => true | _ => false end.

(** *** Limits and forwarding *)

Definition effective_memory_limit_bytes (s : t) : option Z :=
  container_memory_limit s ≫= parse_memory_string.

Definition effective_memory_request_bytes (s : t) : option Z :=
  container_memory_request s ≫= parse_memory_string.

Definition effective_max_body_bytes (s : t) (global : option Z) : option Z :=
  match max_body_size s ≫= parse_memory_string with Some b => Some b | None => global end.

Definition effective_inject_base_href (s : t) : bool := default true (inject_base_href s).

Definition effective_inner_port (s : t) : option Z :=
  match container_port s with
  | Some p => Some p
  | None =>
    match api s ≫= ApiSpec.port with
    | Some p => Some p
    | None =>
      match kind_override s with
      | Some SpecKindOverride.Streamlit => Some 8501
      | Some SpecKindOverride.Dash => Some 8050
      | Some SpecKindOverride.Voila => Some 8866
      | _ => match kind s with SpecKind.Api => Some 8080 | _ => None end
      end
    end
  end.

(** The concrete specs of the examples: what the YAML with these fields and
    nothing else parses to. *)
Definition sample (i : string) (image : option string) (k : option SpecKindOverride.t)
    (routing : option RoutingStrategy.t) (seats lo hi : option Z) : t := {|
  id := i; display_name := None; description := None; featured := None; container_image := image;
  container_port := None; platform := None; seats_per_container := seats; max_lifetime := None;
  container_lifetime := None; heartbeat_timeout := None; container_wait_time := None;
  stop_on_logout := None; docker_registry_username := None; docker_registry_password := None;
  docker_registry_domain := None; docker_registry_credential := None; container_cpu_limit := None;
  container_cpu_request := None; container_memory_limit := None; container_memory_request := None;
  max_body_size := None; volumes := None; container_env := None; container_cmd := None;
  container_network := None; labels := None; access_groups := None; access_users := None;
  require_mfa := None; mfa_validity_days := None; add_default_http_headers := None;
  identity_claims := None; template_properties := ∅; kind_override := k; api := None;
  min_replicas := lo; max_replicas := hi; scale_up_threshold := None;
  scale_down_threshold := None; scale_down_grace := None; scale_down_cooldown_secs := None;
  drain_timeout := None; routing_strategy := routing; concurrent_requests_per_replica := None;
  placement := None; anti_affinity := None; inject_base_href := None |}.
(** The same spec with a command. *)
Definition with_container_cmd (c : list string) (s : t) : t := {|
  id := id s; display_name := display_name s; description := description s;
  featured := featured s; container_image := container_image s; container_port := container_port s;
  platform := platform s; seats_per_container := seats_per_container s; max_lifetime := max_lifetime s;
  container_lifetime := container_lifetime s; heartbeat_timeout := heartbeat_timeout s; container_wait_time := container_wait_time s;
  stop_on_logout := stop_on_logout s; docker_registry_username := docker_registry_username s; docker_registry_password := docker_registry_password s;
  docker_registry_domain := docker_registry_domain s; docker_registry_credential := docker_registry_credential s; container_cpu_limit := container_cpu_limit s;
  container_cpu_request := container_cpu_request s; container_memory_limit := container_memory_limit s; container_memory_request := container_memory_request s;
  max_body_size := max_body_size s; volumes := volumes s; container_env := container_env s;
  container_cmd := Some c; container_network := container_network s; labels := labels s;
  access_groups := access_groups s; access_users := access_users s; require_mfa := require_mfa s;
  mfa_validity_days := mfa_validity_days s; add_default_http_headers := add_default_http_headers s; identity_claims := identity_claims s;
  template_properties := template_properties s; kind_override := kind_override s; api := api s;
  min_replicas := min_replicas s; max_replicas := max_replicas s; scale_up_threshold := scale_up_threshold s;
  scale_down_threshold := scale_down_threshold s; scale_down_grace := scale_down_grace s; scale_down_cooldown_secs := scale_down_cooldown_secs s;
  drain_timeout := drain_timeout s; routing_strategy := routing_strategy s; concurrent_requests_per_replica := concurrent_requests_per_replica s;
  placement := placement s; anti_affinity := anti_affinity s; inject_base_href := inject_base_href s |}.

(** The spec with its access groups, MFA requirement and API policy replaced. *)
Definition with_access (groups : option (list string)) (mfa : option bool) (policy : option ApiSpec.t) (s : t) : t := {|
  id := id s; display_name := display_name s; description := description s;
  featured := featured s; container_image := container_image s; container_port := container_port s;
  platform := platform s; seats_per_container := seats_per_container s; max_lifetime := max_lifetime s;
  container_lifetime := container_lifetime s; heartbeat_timeout := heartbeat_timeout s; container_wait_time := container_wait_time s;
  stop_on_logout := stop_on_logout s; docker_registry_username := docker_registry_username s; docker_registry_password := docker_registry_password s;
  docker_registry_domain := docker_registry_domain s; docker_registry_credential := docker_registry_credential s; container_cpu_limit := container_cpu_limit s;
  container_cpu_request := container_cpu_request s; container_memory_limit := container_memory_limit s; container_memory_request := container_memory_request s;
  max_body_size := max_body_size s; volumes := volumes s; container_env := container_env s;
  container_cmd := container_cmd s; container_network := container_network s; labels := labels s;
  access_groups := groups; access_users := access_users s; require_mfa := mfa;
  mfa_validity_days := mfa_validity_days s; add_default_http_headers := add_default_http_headers s; identity_claims := identity_claims s;
  template_properties := template_properties s; kind_override := kind_override s; api := policy;
  min_replicas := min_replicas s; max_replicas := max_replicas s; scale_up_threshold := scale_up_threshold s;
  scale_down_threshold := scale_down_threshold s; scale_down_grace := scale_down_grace s; scale_down_cooldown_secs := scale_down_cooldown_secs s;
  drain_timeout := drain_timeout s; routing_strategy := routing_strategy s; concurrent_requests_per_replica := concurrent_requests_per_replica s;
  placement := placement s; anti_affinity := anti_affinity s; inject_base_href := inject_base_href s |}.

(** The spec with what it asks to be told of its visitors replaced. *)
Definition with_identity (standard : option bool) (claims : option (list string)) (s : t) : t := {|
  id := id s; display_name := display_name s; description := description s;
  featured := featured s; container_image := container_image s; container_port := container_port s;
  platform := platform s; seats_per_container := seats_per_container s; max_lifetime := max_lifetime s;
  container_lifetime := container_lifetime s; heartbeat_timeout := heartbeat_timeout s; container_wait_time := container_wait_time s;
  stop_on_logout := stop_on_logout s; docker_registry_username := docker_registry_username s; docker_registry_password := docker_registry_password s;
  docker_registry_domain := docker_registry_domain s; docker_registry_credential := docker_registry_credential s; container_cpu_limit := container_cpu_limit s;
  container_cpu_request := container_cpu_request s; container_memory_limit := container_memory_limit s; container_memory_request := container_memory_request s;
  max_body_size := max_body_size s; volumes := volumes s; container_env := container_env s;
  container_cmd := container_cmd s; container_network := container_network s; labels := labels s;
  access_groups := access_groups s; access_users := access_users s; require_mfa := require_mfa s;
  mfa_validity_days := mfa_validity_days s; add_default_http_headers := standard; identity_claims := claims;
  template_properties := template_properties s; kind_override := kind_override s; api := api s;
  min_replicas := min_replicas s; max_replicas := max_replicas s; scale_up_threshold := scale_up_threshold s;
  scale_down_threshold := scale_down_threshold s; scale_down_grace := scale_down_grace s; scale_down_cooldown_secs := scale_down_cooldown_secs s;
  drain_timeout := drain_timeout s; routing_strategy := routing_strategy s; concurrent_requests_per_replica := concurrent_requests_per_replica s;
  placement := placement s; anti_affinity := anti_affinity s; inject_base_href := inject_base_href s |}.

Definition minimal (i : string) : t := sample i None None None None None None.
End Spec.

(** ** Server block *)

Module SessionConfig.
Record t := mk { timeout : option Z }.
End SessionConfig.

Module ServletConfig.
Record t := mk { session : option SessionConfig.t }.
End ServletConfig.

(** Normal form of an operator-supplied base path. *)
Definition normalize_base_path (raw : string) : string :=
  let t := trim_char "/" (trim raw) in
  if str_is_empty t then EmptyString else "/" +:+ t.

Module Server.
Record t := mk {
  use_forward_headers : bool;
  forward_headers_strategy : option string;
  secure_cookies : bool;
  servlet : option ServletConfig.t;
  flat_servlet_session_timeout : option Z;
  context_path : option string;
  flat_servlet_context_path : option string;
  timezone : option string }.

Definition effective_base_path (s : t) : string :=
  normalize_base_path
    (match context_path s with
     | Some p => p
     | None => default EmptyString (flat_servlet_context_path s)
     end).

(** [parse_tz] is chrono-tz's name table, [utc] its UTC zone. *)
Definition effective_timezone {Tz : Type} (parse_tz : string -> option Tz) (utc : Tz) (s : t) : Tz :=
  default utc
    (timezone s ≫= fun raw =>
       let name := trim raw in
       if str_is_empty name then None else parse_tz name).

Definition session_timeout_secs (s : t) : option Z :=
  match (servlet s ≫= ServletConfig.session) ≫= SessionConfig.timeout with
  | Some v => Some v
  | None => flat_servlet_session_timeout s
  end.
End Server.

(** The fields of [Proxy] the request path and the loops read. *)
Definition effective_metrics_interval_secs (metrics_interval_secs : Z) : Z :=
  if metrics_interval_secs =? 0 then 5 else metrics_interval_secs.

Definition max_body_bytes (max_body_size : option string) : option Z :=
  max_body_size ≫= parse_memory_string.

(** ** Lemmas shared with the runtime components *)

Lemma existsb_str_eqb_l g (l : list string) :
  existsb (fun h => str_eqb h g) l = true <-> g ∈ l.
Proof.
  rewrite existsb_elem. split.
  - intros (x & Hx & ->%str_eqb_eq). done.
  - intros Hg. exists g. by rewrite str_eqb_refl.
Qed.

Lemma existsb_str_eqb_r g (l : list string) : existsb (str_eqb g) l = true <-> g ∈ l.
Proof.
  rewrite existsb_elem. split.
  - intros (x & Hx & ->%str_eqb_eq). done.
  - intros Hg. exists g. by rewrite str_eqb_refl.
Qed.

Lemma none_or_empty_spec {A} (o : option (list A)) :
  Spec.none_or_empty o = true <-> default [] o = [].
Proof. destruct o as [[|]|]; simpl; split; congruence. Qed.

Lemma effective_max_unset_pos s :
  Spec.max_replicas s = None -> Spec.kind s <> SpecKind.External ->
  0 < Spec.effective_max_replicas s /\ Spec.effective_min_replicas s <= Spec.effective_max_replicas s.
Proof.
  unfold Spec.effective_max_replicas, DEFAULT_MAX_REPLICAS. intros -> Hk.
  destruct (Spec.kind s); try done; lia.
Qed.

Lemma match_env_token_prefix s x : match_env_token s = Some x -> starts_with "${" s = true.
Proof.
  unfold match_env_token. intros H. destruct (strip_prefix "${" s) eqn:E; [|done].
  unfold starts_with. apply bool_decide_eq_true. eauto.
Qed.

Lemma interpolate_fuel_no_token env n s :
  str_contains "${" s = false -> interpolate_fuel env n s = Ok s.
Proof.
  revert s; induction n as [|n IH]; intros s Hs; [done|]. simpl.
  destruct (match_env_token s) as [p|] eqn:E.
  - apply match_env_token_prefix in E. destruct s; cbn [str_contains] in Hs; by rewrite E in Hs.
  - destruct s as [|c s]; [done|]. cbn [str_contains] in Hs. apply orb_false_iff in Hs as [_ Hs].
    by rewrite IH.
Qed.

#[export] Hint Rewrite existsb_str_eqb_l existsb_str_eqb_r : ruscker_rw.

(** ** Properties *)

(** The per-app access rule.  A viewer reaches an app exactly when the
    viewer is an admin, the app has no access list at all, the viewer's
    username is listed in [access-users], or one of the viewer's groups is
    listed in [access-groups]; in particular an anonymous visitor without
    groups reaches open apps only. *)
Theorem access_allows_iff s is_admin username groups :
  Spec.access_allows s is_admin username groups = true <->
  is_admin = true
  \/ (default [] (Spec.access_groups s) = [] /\ default [] (Spec.access_users s) = [])
  \/ (exists name, username = Some name /\ name ∈ default [] (Spec.access_users s))
  \/ (exists g, g ∈ groups /\ g ∈ default [] (Spec.access_groups s)).
Proof.
  unfold Spec.access_allows, Spec.is_open. rewrite <- !none_or_empty_spec, <- andb_true_iff.
  destruct is_admin; simpl; [naive_solver|].
  destruct (_ && _) eqn:Hopen; [naive_solver|].
  assert (Hu : forall name, match Spec.access_users s with
      | Some us => existsb (fun u => str_eqb u name) us | None => false end = true
      <-> name ∈ default [] (Spec.access_users s)).
  { intros name. destruct (Spec.access_users s); simpl; [apply existsb_str_eqb_l|set_solver]. }
  assert (Hg : match Spec.access_groups s with
      | Some gs => existsb (fun g => existsb (fun h => str_eqb h g) groups) gs | None => false end = true
      <-> exists g, g ∈ groups /\ g ∈ default [] (Spec.access_groups s)).
  { destruct (Spec.access_groups s) as [gs|]; simpl; [|set_solver].
    rewrite existsb_elem. setoid_rewrite existsb_str_eqb_l. set_solver. }
  destruct username as [name|]; [specialize (Hu name)|]; repeat split_match; naive_solver.
Qed.

(** Secrets are resolved idempotently: a value that carries no
    dollar-brace reference comes back unchanged, whatever the environment
    holds. *)
Theorem interpolate_value_no_reference env v :
  str_contains "${" v = false -> interpolate_value env v = Ok v.
Proof. apply interpolate_fuel_no_token. Qed.

Lemma interpolate_value_no_reference_witness :
  str_contains "${" "p@ss$word}" = false
  /\ interpolate_value (fun _ => EnvNotPresent) "p@ss$word}" = Ok "p@ss$word}".
Proof. split; [reflexivity|]. apply interpolate_value_no_reference. reflexivity. Defined.
