(* ===== verification/References.v ===== *)
(** * References: the grammar of [${VAR}] and [${VAR:-default}]

    What a reference is, and what resolving one means, as relations on text:
    [token] is the shape of one reference, [resolves] and [fails] the two
    outcomes of resolving the references of a text, [taken_out] the text with
    its references removed.  Nothing here is taken from the code; the lemmas
    show that the scanner of [Schema] follows the grammar.  The theorems on
    the configuration text, on stored passwords and on the raw scan are
    stated with these relations. *)

From Stdlib Require Import Ascii String ZArith Lia.
From stdpp Require Import base tactics list strings sets numbers.
From S2P Require Import Prelude Text Schema.

Local Open Scope string_scope.
Local Open Scope list_scope.
Local Open Scope ruscker_scope.

(** ** The grammar *)

Definition letters : list ascii :=
  list_ascii_of_string "ABCDEFGHIJKLMNOPQRSTUVWXYZabcdefghijklmnopqrstuvwxyz_".
Definition digits : list ascii := list_ascii_of_string "0123456789".

(** A letter or underscore, then letters, digits and underscores. *)
Definition var_name (name : string) : Prop :=
  exists c rest, name = String c rest /\ c ∈ letters
    /\ forall d, d ∈ list_ascii_of_string rest -> d ∈ letters ++ digits.

(** One reference to [name], with the default it carries, and its text. *)
Inductive token (name : string) : option string -> string -> Prop :=
| token_plain : var_name name -> token name None ("${" +:+ name +:+ "}")
| token_default d :
    var_name name -> ~ "}"%char ∈ list_ascii_of_string d ->
    token name (Some d) ("${" +:+ name +:+ ":-" +:+ d +:+ "}").

Definition no_token (s : string) : Prop := forall name d tok rest, token name d tok -> s <> tok +:+ rest.

(** What a reference stands for. *)
Inductive value_of (env : string -> EnvVar) (name : string) : option string -> string -> Prop :=
| value_set d v : env name = EnvPresent v -> value_of env name d v
| value_default d : env name = EnvNotPresent -> value_of env name (Some d) d.

Definition nested (d : option string) : Prop := exists a b, d = Some (a +:+ "${" +:+ b).

(** Why a reference cannot be resolved: a reference inside its default, a
    variable that is not set, one that is not text. *)
Inductive invalid (env : string -> EnvVar) (name : string) : option string -> string -> ConfigError.t -> Prop :=
| invalid_nested d tok :
    nested d ->
    invalid env name d tok
      (ConfigError.InvalidEnvRef (tok +:+ "} — a nested reference in a `:-` default is not supported"))
| invalid_missing tok : env name = EnvNotPresent -> invalid env name None tok (ConfigError.MissingEnvVar name)
| invalid_bytes d tok : ~ nested d -> env name = EnvNotUnicode -> invalid env name d tok (ConfigError.InvalidEnvRef name).

(** The references of a text, from left to right. *)
Inductive resolves (env : string -> EnvVar) : string -> string -> Prop :=
| resolves_end : resolves env "" ""
| resolves_token name d tok value s out :
    token name d tok -> ~ nested d -> value_of env name d value -> resolves env s out ->
    resolves env (tok +:+ s) (value +:+ out)
| resolves_char c s out : no_token (String c s) -> resolves env s out -> resolves env (String c s) (String c out).

Inductive fails (env : string -> EnvVar) : string -> ConfigError.t -> Prop :=
| fails_here name d tok s e : token name d tok -> invalid env name d tok e -> fails env (tok +:+ s) e
| fails_token name d tok value s e :
    token name d tok -> ~ nested d -> value_of env name d value -> fails env s e -> fails env (tok +:+ s) e
| fails_char c s e : no_token (String c s) -> fails env s e -> fails env (String c s) e.

Inductive taken_out : string -> string -> Prop :=
| taken_end : taken_out "" ""
| taken_token name d tok s x : token name d tok -> taken_out s x -> taken_out (tok +:+ s) x
| taken_char c s x : no_token (String c s) -> taken_out s x -> taken_out (String c s) (String c x).

(** Nothing but references, apart from white space: no character of the text
    is a literal. *)
Definition references_only (s : string) : Prop :=
  trim s <> "" /\ exists x, taken_out (trim s) x /\ trim x = "".

(** ** The scanner finds the tokens *)

Lemma letters_spec c : is_name_start c = true <-> c ∈ letters.
Proof.
  transitivity (bool_decide (c ∈ letters) = true); [|apply bool_decide_eq_true].
  destruct c as [[] [] [] [] [] [] [] []]; vm_compute; done.
Qed.

Lemma name_chars_spec c : is_name_char c = true <-> c ∈ letters ++ digits.
Proof.
  transitivity (bool_decide (c ∈ letters ++ digits) = true); [|apply bool_decide_eq_true].
  destruct c as [[] [] [] [] [] [] [] []]; vm_compute; done.
Qed.

Lemma str_forallb_elem p s : str_forallb p s = true <-> forall c, c ∈ list_ascii_of_string s -> p c = true.
Proof.
  induction s as [|c s IH]; cbn [str_forallb list_ascii_of_string]; [set_solver|].
  rewrite andb_true_iff, IH. set_solver.
Qed.

Lemma span_app p s : (span p s).1 +:+ (span p s).2 = s.
Proof. induction s as [|c s IH]; cbn [span]; [done|]. destruct (p c); [|done]. destruct (span p s). cbn in *. by rewrite <- IH. Qed.

Lemma span_forallb p s : str_forallb p (span p s).1 = true.
Proof.
  induction s as [|c s IH]; cbn [span]; [done|]. destruct (p c) eqn:E; [|done].
  destruct (span p s). cbn in *. by rewrite E.
Qed.

Lemma span_stops p s c r : (span p s).2 = String c r -> p c = false.
Proof.
  induction s as [|d s IH]; cbn [span]; [done|]. destruct (p d) eqn:E; [|by intros [= <- _]].
  destruct (span p s). cbn in *. done.
Qed.

Lemma span_exact p a c r : str_forallb p a = true -> p c = false -> span p (a +:+ String c r) = (a, String c r).
Proof.
  intros Ha Hc. induction a as [|d a IH].
  - change (span p (String c r) = ("", String c r)). cbn [span]. by rewrite Hc.
  - cbn [str_forallb] in Ha. apply andb_true_iff in Ha as [Hd Ha]. change (String d a +:+ String c r) with (String d (a +:+ String c r)).
    cbn [span]. by rewrite Hd, (IH Ha).
Qed.

Lemma var_name_spec name :
  var_name name <-> exists c rest, name = String c rest /\ is_name_start c = true /\ str_forallb is_name_char name = true.
Proof.
  unfold var_name. split.
  - intros (c & rest & -> & Hc%letters_spec & Hr). exists c, rest. split; [done|]. split; [done|].
    cbn [str_forallb]. apply andb_true_iff. split; [unfold is_name_char; by rewrite Hc|].
    apply str_forallb_elem. intros d Hd. by apply name_chars_spec, Hr.
  - intros (c & rest & -> & Hc & [_ Hr]%andb_true_iff). exists c, rest. split; [done|]. split; [by apply letters_spec|].
    intros d Hd. apply name_chars_spec. rewrite str_forallb_elem in Hr. by apply Hr.
Qed.

Definition not_brace (c : ascii) : bool := negb (Ascii.eqb c "}").

Lemma not_brace_spec d : ~ "}"%char ∈ list_ascii_of_string d <-> str_forallb not_brace d = true.
Proof.
  rewrite str_forallb_elem. unfold not_brace. split.
  - intros Hd c Hc. destruct (Ascii.eqb_spec c "}"); [by subst|done].
  - intros Hd Hc. by specialize (Hd _ Hc).
Qed.

Lemma match_token_complete name d tok rest :
  token name d tok -> match_env_token (tok +:+ rest) = Some (name, d, rest).
Proof.
  unfold match_env_token. intros [Hn|e Hn He]; apply var_name_spec in Hn as (c & r & Hnc & Hc & Hn);
    rewrite !str_app_assoc, (proj2 (strip_prefix_Some "${" _ _) eq_refl).
  - change ("}" +:+ rest) with (String "}" rest). rewrite span_exact by done. subst name. by rewrite Hc.
  - change (":-" +:+ e +:+ "}" +:+ rest) with (String ":" ("-" +:+ e +:+ "}" +:+ rest)). rewrite span_exact by done.
    subst name. rewrite Hc. cbn [negb].
    change (strip_prefix ":-" (String ":" ("-" +:+ e +:+ "}" +:+ rest))) with (Some (e +:+ "}" +:+ rest)).
    change ("}" +:+ rest) with (String "}" rest). cbn -[span].
    rewrite span_exact; [done| |done]. by apply not_brace_spec.
Qed.

Lemma match_token_sound s name d rest :
  match_env_token s = Some (name, d, rest) -> exists tok, token name d tok /\ s = tok +:+ rest.
Proof.
  unfold match_env_token. destruct (strip_prefix "${" s) as [r|] eqn:Es; [|done]. apply strip_prefix_Some in Es as ->.
  pose proof (span_app is_name_char r) as Hr. pose proof (span_forallb is_name_char r) as Hall.
  destruct (span is_name_char r) as [n r1]. cbn [fst snd] in *. subst r.
  destruct n as [|c n']; [done|]. destruct (is_name_start c) eqn:Hc; cbn [negb]; [|done].
  assert (var_name (String c n')) as Hname by (apply var_name_spec; eauto).
  destruct r1 as [|e r2]; [done|]. destruct (Ascii.eqb_spec e "}") as [->|He].
  { intros [= <- <- <-]. exists ("${" +:+ String c n' +:+ "}"). split; [by apply token_plain|]. by rewrite !str_app_assoc. }
  destruct (strip_prefix ":-" (String e r2)) as [r3|] eqn:E3; [|done]. apply strip_prefix_Some in E3 as ->.
  pose proof (span_app not_brace r3) as Hr. pose proof (span_forallb not_brace r3) as Hd.
  pose proof (span_stops not_brace r3) as Hstop. change (span (fun c => negb (Ascii.eqb c "}")) r3) with (span not_brace r3).
  destruct (span not_brace r3) as [dflt r4]. cbn [fst snd] in *. subst r3.
  destruct r4 as [|b r5]; [done|]. intros [= <- <- <-].
  specialize (Hstop b r5 eq_refl). unfold not_brace in Hstop. destruct (Ascii.eqb_spec b "}") as [->|]; [|done].
  exists ("${" +:+ String c n' +:+ ":-" +:+ dflt +:+ "}"). split; [apply token_default; [done|by apply not_brace_spec]|].
  by rewrite !str_app_assoc.
Qed.

Lemma match_token_none s : match_env_token s = None <-> no_token s.
Proof.
  split.
  - intros E name d tok rest Ht ->. by rewrite (match_token_complete _ _ _ _ Ht) in E.
  - intros Hn. destruct (match_env_token s) as [[[name d] rest]|] eqn:E; [|done].
    apply match_token_sound in E as (tok & Ht & ->). by destruct (Hn name d tok rest Ht).
Qed.

Lemma token_text name d tok :
  token name d tok ->
  tok = "${" +:+ name +:+ match d with Some d => ":-" +:+ d | None => "" end +:+ "}".
Proof. by intros [|e ? ?]; rewrite ?str_app_assoc. Qed.

Lemma token_length name d tok : token name d tok -> (0 < String.length tok)%nat.
Proof. intros Ht%token_text. subst tok. rewrite str_length_app. cbn [String.length]. lia. Qed.

(** The token at the head of a text is determined by it. *)
Lemma token_unique name d tok rest name' d' tok' rest' :
  token name d tok -> token name' d' tok' -> tok +:+ rest = tok' +:+ rest' ->
  name = name' /\ d = d' /\ tok = tok' /\ rest = rest'.
Proof.
  intros Ht Ht' E. pose proof (match_token_complete _ _ _ rest Ht) as H. rewrite E, (match_token_complete _ _ _ _ Ht') in H.
  simplify_eq. split; [done|]. split; [done|]. split; [|done]. by rewrite (token_text _ _ _ Ht), (token_text _ _ _ Ht').
Qed.

Lemma nested_spec d : match d with Some d => str_contains "${" d | None => false end = true <-> nested d.
Proof.
  unfold nested. destruct d as [d|]; [|naive_solver]. rewrite str_contains_spec. naive_solver.
Qed.

(** ** Resolving follows the grammar *)

Section WithEnv.
Context (env : string -> EnvVar).

Definition value_at (name : string) (d : option string) : Result string ConfigError.t :=
  match env name with
  | EnvPresent v => Ok v
  | EnvNotPresent => match d with Some d => Ok d | None => Err (ConfigError.MissingEnvVar name) end
  | EnvNotUnicode => Err (ConfigError.InvalidEnvRef name)
  end.

(** The walk's equations, by the grammar's cases. *)
Lemma walk_token n name d tok rest :
  token name d tok ->
  interpolate_fuel env (S n) (tok +:+ rest)
  = if match d with Some d => str_contains "${" d | None => false end
    then Err (ConfigError.InvalidEnvRef (tok +:+ "} — a nested reference in a `:-` default is not supported"))
    else let? value := value_at name d in let? tail := interpolate_fuel env n rest in Ok (value +:+ tail).
Proof. intros Ht. cbn [interpolate_fuel]. rewrite (match_token_complete _ _ _ _ Ht). by rewrite <- (token_text _ _ _ Ht). Qed.

Lemma walk_char n c s :
  no_token (String c s) -> interpolate_fuel env (S n) (String c s) = result_map (String c) (interpolate_fuel env n s).
Proof. intros Hn%match_token_none. cbn [interpolate_fuel]. by rewrite Hn. Qed.

Lemma value_at_ok name d v : ~ nested d -> value_at name d = Ok v <-> value_of env name d v.
Proof.
  intros _. unfold value_at. split.
  - destruct (env name) eqn:E; [intros [= <-]; by apply value_set| |done]. destruct d; [intros [= <-]; by apply value_default|done].
  - intros [? ? E|? E]; by rewrite E.
Qed.

Lemma value_at_err name d tok e : ~ nested d -> value_at name d = Err e <-> invalid env name d tok e.
Proof.
  intros Hn. unfold value_at. split.
  - destruct (env name) eqn:E; [done| |intros [= <-]; by apply invalid_bytes].
    destruct d; [done|intros [= <-]; by apply invalid_missing].
  - intros H. inversion H as [| ? E|? ? ? E]; subst; [done|by rewrite E..].
Qed.

(** Every text starts with a token, with another character, or is empty. *)
Lemma text_cases s :
  s = "" \/ (exists name d tok rest, token name d tok /\ s = tok +:+ rest) \/ exists c rest, s = String c rest /\ no_token s.
Proof.
  destruct (match_env_token s) as [[[name d] rest]|] eqn:E.
  - apply match_token_sound in E as (tok & ? & ?). right; left. by exists name, d, tok, rest.
  - apply match_token_none in E. destruct s as [|c s]; [by left|]. right; right. eauto.
Qed.

Lemma no_token_head name d tok rest c s : token name d tok -> tok +:+ rest = String c s -> ~ no_token (String c s).
Proof. intros Ht E Hn. by apply (Hn name d tok rest Ht). Qed.

Lemma token_not_nil name d tok rest : token name d tok -> tok +:+ rest <> "".
Proof. intros Ht%token_length E%(f_equal String.length). rewrite str_length_app in E. cbn in E. lia. Qed.

(** Inversion at a known head. *)
Lemma resolves_at_token name d tok s out :
  token name d tok -> resolves env (tok +:+ s) out ->
  ~ nested d /\ exists value out', value_of env name d value /\ resolves env s out' /\ out = value +:+ out'.
Proof.
  intros Ht H. inversion H as [E|name' d' tok' value s' out' Ht' Hn Hv Hr E|c s' out' Hn Hr E].
  - exact (False_ind _ (token_not_nil _ _ _ _ Ht (eq_sym E))).
  - destruct (token_unique _ _ _ _ _ _ _ _ Ht' Ht E) as (-> & -> & -> & ->). eauto 6.
  - exact (False_ind _ (no_token_head _ _ _ _ _ _ Ht (eq_sym E) Hn)).
Qed.

Lemma resolves_at_char c s out :
  no_token (String c s) -> resolves env (String c s) out -> exists out', resolves env s out' /\ out = String c out'.
Proof.
  intros Hn H. inversion H as [|name d tok value s' out' Ht ? ? ? E|]; subst; [|eauto].
  exact (False_ind _ (no_token_head _ _ _ _ _ _ Ht E Hn)).
Qed.

Lemma fails_at_token name d tok s e :
  token name d tok -> fails env (tok +:+ s) e ->
  invalid env name d tok e \/ (~ nested d /\ exists value, value_of env name d value /\ fails env s e).
Proof.
  intros Ht H. inversion H as [name' d' tok' s' e' Ht' Hi E|name' d' tok' value s' e' Ht' Hn Hv Hf E|c s' e' Hn Hf E].
  - destruct (token_unique _ _ _ _ _ _ _ _ Ht' Ht E) as (-> & -> & -> & ->). by left.
  - destruct (token_unique _ _ _ _ _ _ _ _ Ht' Ht E) as (-> & -> & -> & ->). right. eauto.
  - exact (False_ind _ (no_token_head _ _ _ _ _ _ Ht (eq_sym E) Hn)).
Qed.

Lemma fails_at_char c s e : no_token (String c s) -> fails env (String c s) e -> fails env s e.
Proof.
  intros Hn H. inversion H as [name d tok s' e' Ht ? E|name d tok value s' e' Ht ? ? ? E|]; subst; [| |done].
  all: exact (False_ind _ (no_token_head _ _ _ _ _ _ Ht E Hn)).
Qed.

Lemma nested_dec d : nested d \/ ~ nested d.
Proof. rewrite <- nested_spec. destruct (match d with Some d => _ | None => _ end); auto. Qed.

Lemma value_of_not_invalid name d tok v e : ~ nested d -> value_of env name d v -> ~ invalid env name d tok e.
Proof. intros Hn Hv%value_at_ok He%value_at_err; [|done..]. congruence. Qed.

Lemma walk_spec n s :
  (String.length s < n)%nat ->
  (forall out, interpolate_fuel env n s = Ok out <-> resolves env s out)
  /\ (forall e, interpolate_fuel env n s = Err e <-> fails env s e).
Proof.
  revert s; induction n as [|n IH]; intros s Hlen; [lia|].
  destruct (text_cases s) as [->|[(name & d & tok & rest & Ht & ->)|(c & rest & -> & Hn)]].
  - split; [intros out|intros e].
    + change (interpolate_fuel env (S n) "") with (@Ok string ConfigError.t ""). split; [intros [= <-]; constructor|].
      intros H. inversion H as [|? ? ? ? ? ? Ht ? ? ? E|]; subst; [done|by destruct (token_not_nil _ _ _ _ Ht E)].
    + split; [done|]. intros H. inversion H as [? ? ? ? ? Ht ? E|? ? ? ? ? ? Ht ? ? ? E|]; subst; by destruct (token_not_nil _ _ _ _ Ht E).
  - pose proof (token_length _ _ _ Ht) as Hpos. rewrite str_length_app in Hlen. destruct (IH rest ltac:(lia)) as [IHo IHe].
    rewrite (walk_token _ _ _ _ _ Ht). destruct (nested_dec d) as [Hd|Hd].
    { rewrite (proj2 (nested_spec d) Hd). split; [intros out|intros e]; (split; [|intros H]).
      - done.
      - by destruct (resolves_at_token _ _ _ _ _ Ht H).
      - intros [= <-]. eapply fails_here; [done|by apply invalid_nested].
      - destruct (fails_at_token _ _ _ _ _ Ht H) as [Hi|[? _]]; [|done]. inversion Hi; subst; [done| |done].
        by destruct Hd as (? & ? & ?). }
    destruct (match d with Some d => _ | None => _ end) eqn:En; [by apply nested_spec in En|]. split; [intros out|intros e]; split.
    + destruct (value_at name d) as [v|] eqn:Ev; [|done]. cbn [result_bind]. apply value_at_ok in Ev; [|done].
      destruct (interpolate_fuel env n rest) as [o|] eqn:Er; [|done]. cbn [result_bind]. intros [= <-].
      eapply resolves_token; [done..|]. by apply IHo.
    + intros H. destruct (resolves_at_token _ _ _ _ _ Ht H) as (_ & v & o & Hv & Ho & ->).
      apply value_at_ok in Hv; [|done]. rewrite Hv. cbn [result_bind]. by rewrite (proj2 (IHo o) Ho).
    + destruct (value_at name d) as [v|e'] eqn:Ev; cbn [result_bind].
      * apply value_at_ok in Ev; [|done]. destruct (interpolate_fuel env n rest) as [o|e'] eqn:Er; [done|]. cbn [result_bind].
        intros [= ->]. eapply fails_token; [done..|]. by apply IHe.
      * intros [= ->]. eapply fails_here; [done|]. by eapply value_at_err.
    + intros H. destruct (fails_at_token _ _ _ _ _ Ht H) as [Hi|(_ & v & Hv & Hf)].
      * apply value_at_err in Hi; [|done]. by rewrite Hi.
      * apply value_at_ok in Hv; [|done]. rewrite Hv. cbn [result_bind]. by rewrite (proj2 (IHe e) Hf).
  - cbn [String.length] in Hlen. destruct (IH rest ltac:(lia)) as [IHo IHe]. rewrite (walk_char _ _ _ Hn).
    split; [intros out|intros e]; split.
    + destruct (interpolate_fuel env n rest) as [o|] eqn:Er; [|done]. intros [= <-]. apply resolves_char; [done|]. by apply IHo.
    + intros H. destruct (resolves_at_char _ _ _ Hn H) as (o & Ho & ->). by rewrite (proj2 (IHo o) Ho).
    + destruct (interpolate_fuel env n rest) as [o|e'] eqn:Er; [done|]. intros [= ->]. apply fails_char; [done|]. by apply IHe.
    + intros H%fails_at_char; [|done]. by rewrite (proj2 (IHe e) H).
Qed.

Lemma interpolate_line_ok s out : interpolate_line env s = Ok out <-> resolves env s out.
Proof. apply walk_spec. lia. Qed.

Lemma interpolate_line_err s e : interpolate_line env s = Err e <-> fails env s e.
Proof. apply walk_spec. lia. Qed.

End WithEnv.

(** ** White space *)

(** A text made of the given pieces; a blank one is made of white space. *)
Inductive pieces (ps : list string) : string -> Prop :=
| pieces_end : pieces ps ""
| pieces_more p s : p ∈ ps -> pieces ps s -> pieces ps (p +:+ s).

Definition blank : string -> Prop := pieces whitespace_seqs.

(** The text starts with something that is not white space. *)
Definition printed (s : string) : Prop := forall w, w ∈ whitespace_seqs -> forall r, s <> w +:+ r.

Lemma pieces_app ps a b : pieces ps a -> pieces ps b -> pieces ps (a +:+ b).
Proof. induction 1 as [|p s Hp _ IH]; intros Hb; [done|]. rewrite str_app_assoc. constructor; auto. Qed.

Lemma pieces_one ps p : p ∈ ps -> pieces ps p.
Proof. intros Hp. rewrite <- (str_app_nil_r p). by repeat constructor. Qed.

Lemma pieces_rev ps s : pieces (map str_rev ps) s -> pieces ps (str_rev s).
Proof.
  induction 1 as [|p s (w & -> & Hw)%list_elem_of_fmap _ IH]; [constructor|].
  rewrite str_rev_app_distr, str_rev_involutive. apply pieces_app; [done|by apply pieces_one].
Qed.

Lemma pieces_rev_inv ps s : pieces ps s -> pieces (map str_rev ps) (str_rev s).
Proof.
  induction 1 as [|p s Hp _ IH]; [constructor|]. rewrite str_rev_app_distr. apply pieces_app; [done|].
  apply pieces_one, list_elem_of_fmap. eauto.
Qed.

Lemma whitespace_head p r : p ∈ whitespace_seqs -> strip_any whitespace_seqs (p +:+ r) = Some r.
Proof.
  unfold whitespace_seqs. cbn [map app]. rewrite !elem_of_cons.
  intros H; repeat (destruct H as [->|H]); [reflexivity..|by apply elem_of_nil in H].
Qed.

Lemma whitespace_head_rev p r :
  p ∈ map str_rev whitespace_seqs -> strip_any (map str_rev whitespace_seqs) (p +:+ r) = Some r.
Proof.
  unfold whitespace_seqs. cbn [map app]. rewrite !elem_of_cons.
  intros H; repeat (destruct H as [->|H]); [reflexivity..|by apply elem_of_nil in H].
Qed.

Lemma printed_spec s : printed s <-> strip_any whitespace_seqs s = None.
Proof.
  rewrite strip_any_None. unfold printed. split; intros H p Hp.
  - destruct (strip_prefix p s) as [r|] eqn:E; [|done]. apply strip_prefix_Some in E. by destruct (H p Hp r).
  - intros r ->. specialize (H p Hp). by rewrite (proj2 (strip_prefix_Some p _ r) eq_refl) in H.
Qed.

Lemma trim_fuel_pieces n ps w r :
  (forall p, p ∈ ps -> p <> "") -> (forall p r, p ∈ ps -> strip_any ps (p +:+ r) = Some r) ->
  pieces ps w -> strip_any ps r = None -> (String.length (w +:+ r) <= n)%nat -> trim_start_fuel n ps (w +:+ r) = r.
Proof.
  intros Hne Hhead Hw Hr. revert n; induction Hw as [|p w Hp _ IH]; intros n Hn; [by apply trim_start_fuel_id|].
  rewrite str_app_assoc in *. rewrite str_length_app in Hn. specialize (Hne p Hp).
  destruct n as [|n]; [destruct p; [done|cbn in Hn; lia]|]. cbn [trim_start_fuel]. rewrite Hhead by done.
  apply IH. destruct p; [done|cbn in Hn; lia].
Qed.

Lemma trim_fuel_split n ps s : exists w, pieces ps w /\ s = w +:+ trim_start_fuel n ps s.
Proof.
  revert s; induction n as [|n IH]; intros s; cbn [trim_start_fuel]; [by exists ""; split; [constructor|]|].
  destruct (strip_any ps s) as [r|] eqn:E; [|by exists ""; split; [constructor|]].
  apply strip_any_Some in E as (p & Hp & ->). destruct (IH r) as (w & Hw & Hr). exists (p +:+ w).
  split; [by constructor|]. by rewrite str_app_assoc, <- Hr.
Qed.

Lemma trim_start_spec s r : trim_start s = r <-> exists w, blank w /\ s = w +:+ r /\ printed r.
Proof.
  split.
  - intros <-. destruct (trim_fuel_split (String.length s) whitespace_seqs s) as (w & Hw & Hs).
    exists w. split; [done|]. split; [done|]. apply printed_spec, trim_start_fuel_done; [apply whitespace_nonempty|done].
  - intros (w & Hw & -> & Hr%printed_spec). unfold trim_start.
    apply trim_fuel_pieces; [apply whitespace_nonempty|intros; by apply whitespace_head|done..].
Qed.

Lemma blank_start s : trim_start s = "" <-> blank s.
Proof.
  rewrite trim_start_spec. split.
  - intros (w & Hw & -> & _). by rewrite str_app_nil_r.
  - intros Hs. exists s. rewrite str_app_nil_r. split; [done|]. split; [done|]. intros w Hw r E. apply whitespace_nonempty in Hw. by destruct w.
Qed.

(** Trimming to a text that starts with a printable character. *)
Lemma trim_spec s c k :
  byte_in 33 126 c = true -> trim (String c k) = String c k ->
  trim s = String c k <-> exists w w', blank w /\ blank w' /\ s = w +:+ String c k +:+ w'.
Proof.
  intros Hc Hkey. split.
  - intros E. destruct (trim_fuel_split (String.length s) whitespace_seqs s) as (w & Hw & Hs). fold (trim_start s) in Hs.
    destruct (trim_fuel_split (String.length (trim_start s)) (map str_rev whitespace_seqs) (str_rev (trim_start s))) as (v & Hv & Ht).
    exists w, (str_rev v). split; [done|]. split; [by apply pieces_rev|]. rewrite Hs. f_equal. rewrite <- E.
    unfold trim, trim_end. apply (f_equal str_rev) in Ht. by rewrite str_rev_involutive, str_rev_app_distr in Ht.
  - intros (w & w' & Hw & Hw' & ->). apply trim_fixed in Hkey as [_ He]. unfold trim, trim_end.
    assert (trim_start (w +:+ String c k +:+ w') = String c k +:+ w') as ->.
    { apply trim_start_spec. exists w. split; [done|]. split; [done|]. apply printed_spec. by apply strip_any_printable. }
    rewrite str_rev_app_distr. rewrite trim_fuel_pieces; [apply str_rev_involutive| | | |done|].
    + intros p (q & -> & Hq%whitespace_nonempty)%list_elem_of_fmap. by apply str_rev_nonempty.
    + intros p r. apply whitespace_head_rev.
    + by apply pieces_rev_inv.
    + by rewrite !str_length_app, !str_length_rev, Nat.add_comm.
Qed.
