(* ===== verification/Core.v ===== *)
(** * Core: replicas and their registry (crates/ruscker-core)

    [Replica], [ReplicaRegistry] and the backend-neutral requests and reports
    of the container interface.  The registry is the map from a spec id to
    the [Vec] of its replicas, in the order they were added; the iteration
    order of the Rust [HashMap] is unspecified, the model uses stdpp's, and
    the theorems show that on well-formed registries no operation depends on
    it: every operation refines the corresponding operation of the abstract
    map from a replica id to its replica. *)

From Stdlib Require Import ZArith Lia.
From stdpp Require Import base tactics list gmap strings fin_maps numbers.
From Corelib Require Import SpecFloat.
From S2P Require Import Prelude Text Schema.

Local Open Scope string_scope.
Local Open Scope list_scope.
Local Open Scope Z_scope.

(** ** Replicas *)

(** A [Uuid] is its 128-bit value. *)
Abbreviation ReplicaId := N.
Abbreviation Uuid := N.

Module ReplicaState.
Inductive t := Starting | Ready | Draining | Stopped | Failed.
#[global] Instance eq_dec : EqDecision t.
Proof. solve_decision. Defined.
Definition eqb (a b : t) : bool := bool_decide (a = b).
End ReplicaState.

Module Replica.
Record t := mk {
  id : ReplicaId;
  spec_id : string;
  container_id : string;
  upstream : string;
  state : ReplicaState.t;
  started_at : Z;
  sessions_active : Z;
  sessions_max : Z;
  host : option string }.

Definition utilization (r : t) : f64 :=
  if sessions_max r =? 0 then f64_zero
  else f64_div (f64_of_Z (sessions_active r)) (f64_of_Z (sessions_max r)).

Definition available_seats (r : t) : Z := saturating_sub (sessions_max r) (sessions_active r).

Definition is_accepting (r : t) : bool :=
  ReplicaState.eqb (state r) ReplicaState.Ready && (0 <? available_seats r).

(** Field assignments. *)
Definition set_sessions_active (n : Z) (r : t) : t :=
  mk (id r) (spec_id r) (container_id r) (upstream r) (state r) (started_at r) n (sessions_max r) (host r).
Definition set_sessions_max (n : Z) (r : t) : t :=
  mk (id r) (spec_id r) (container_id r) (upstream r) (state r) (started_at r) (sessions_active r) n (host r).
Definition set_state (st : ReplicaState.t) (r : t) : t :=
  mk (id r) (spec_id r) (container_id r) (upstream r) st (started_at r) (sessions_active r) (sessions_max r) (host r).
Definition set_started_at (at_ : Z) (r : t) : t :=
  mk (id r) (spec_id r) (container_id r) (upstream r) (state r) at_ (sessions_active r) (sessions_max r) (host r).
Definition set_host (h : option string) (r : t) : t :=
  mk (id r) (spec_id r) (container_id r) (upstream r) (state r) (started_at r) (sessions_active r) (sessions_max r) h.
End Replica.

Definition has_id (i : ReplicaId) (r : Replica.t) : bool := bool_decide (Replica.id r = i).

(** ** Errors, requests and reports of the container interface *)

Module CoreError.
Inductive t :=
| SpecNotFound (spec : string)
| AtCapacity (spec : string)
| Backend (msg : string)
| SessionExpired (session : string).

Definition display (e : t) : string :=
  match e with
  | SpecNotFound s => "spec " +:+ s +:+ " not found in registry"
  | AtCapacity s => "no available replicas for spec " +:+ s +:+ " (at capacity)"
  | Backend s => "backend error: " +:+ s
  | SessionExpired s => "session " +:+ s +:+ " not found or expired"
  end.
End CoreError.

Abbreviation CoreResult T := (Result T CoreError.t).

Module RegistryCredentials.
Record t := mk {
  username : string;
  password : string;
  server_address : option string;
  credential_name : option string }.
End RegistryCredentials.

Module ResourceLimits.
Record t := mk {
  memory_bytes : option Z;
  memory_reservation_bytes : option Z;
  cpu_fraction : option f64 }.
Definition default_limits : t := mk None None None.
Definition is_none {A} (o : option A) : bool := match o with None => true | Some _ => false end.
Definition is_empty (l : t) : bool :=
  is_none (memory_bytes l) && is_none (memory_reservation_bytes l) && is_none (cpu_fraction l).
End ResourceLimits.

Module SpawnRequest.
Record t := mk {
  spec_id : string;
  image : string;
  inner_port : option Z;
  creds : option RegistryCredentials.t;
  limits : ResourceLimits.t;
  volumes : list string;
  placement : Placement.t;
  anti_affinity : bool;
  platform : option string;
  env : list string;
  cmd : option (list string);
  network : option string;
  labels : list (string * string);
  readiness_timeout_ms : option Z;
  job_timeout_secs : option Z }.

Definition new (spec_id image : string) : t :=
  mk spec_id image None None ResourceLimits.default_limits [] Placement.Spread false None [] None None [] None None.

Definition with_platform (p : string) (r : t) : t :=
  mk (spec_id r) (image r) (inner_port r) (creds r) (limits r) (volumes r) (placement r) (anti_affinity r)
     (Some p) (env r) (cmd r) (network r) (labels r) (readiness_timeout_ms r) (job_timeout_secs r).
Definition with_placement (p : Placement.t) (r : t) : t :=
  mk (spec_id r) (image r) (inner_port r) (creds r) (limits r) (volumes r) p (anti_affinity r)
     (platform r) (env r) (cmd r) (network r) (labels r) (readiness_timeout_ms r) (job_timeout_secs r).
Definition with_anti_affinity (a : bool) (r : t) : t :=
  mk (spec_id r) (image r) (inner_port r) (creds r) (limits r) (volumes r) (placement r) a
     (platform r) (env r) (cmd r) (network r) (labels r) (readiness_timeout_ms r) (job_timeout_secs r).
Definition with_port (p : Z) (r : t) : t :=
  mk (spec_id r) (image r) (Some p) (creds r) (limits r) (volumes r) (placement r) (anti_affinity r)
     (platform r) (env r) (cmd r) (network r) (labels r) (readiness_timeout_ms r) (job_timeout_secs r).
Definition with_creds (c : RegistryCredentials.t) (r : t) : t :=
  mk (spec_id r) (image r) (inner_port r) (Some c) (limits r) (volumes r) (placement r) (anti_affinity r)
     (platform r) (env r) (cmd r) (network r) (labels r) (readiness_timeout_ms r) (job_timeout_secs r).
Definition with_limits (l : ResourceLimits.t) (r : t) : t :=
  mk (spec_id r) (image r) (inner_port r) (creds r) l (volumes r) (placement r) (anti_affinity r)
     (platform r) (env r) (cmd r) (network r) (labels r) (readiness_timeout_ms r) (job_timeout_secs r).
Definition with_volumes (v : list string) (r : t) : t :=
  mk (spec_id r) (image r) (inner_port r) (creds r) (limits r) v (placement r) (anti_affinity r)
     (platform r) (env r) (cmd r) (network r) (labels r) (readiness_timeout_ms r) (job_timeout_secs r).
Definition with_env (e : list string) (r : t) : t :=
  mk (spec_id r) (image r) (inner_port r) (creds r) (limits r) (volumes r) (placement r) (anti_affinity r)
     (platform r) e (cmd r) (network r) (labels r) (readiness_timeout_ms r) (job_timeout_secs r).
Definition with_cmd (c : list string) (r : t) : t :=
  mk (spec_id r) (image r) (inner_port r) (creds r) (limits r) (volumes r) (placement r) (anti_affinity r)
     (platform r) (env r) (Some c) (network r) (labels r) (readiness_timeout_ms r) (job_timeout_secs r).
Definition with_network (n : string) (r : t) : t :=
  mk (spec_id r) (image r) (inner_port r) (creds r) (limits r) (volumes r) (placement r) (anti_affinity r)
     (platform r) (env r) (cmd r) (Some n) (labels r) (readiness_timeout_ms r) (job_timeout_secs r).
Definition with_labels (l : list (string * string)) (r : t) : t :=
  mk (spec_id r) (image r) (inner_port r) (creds r) (limits r) (volumes r) (placement r) (anti_affinity r)
     (platform r) (env r) (cmd r) (network r) l (readiness_timeout_ms r) (job_timeout_secs r).
Definition with_readiness_timeout_ms (millis : Z) (r : t) : t :=
  mk (spec_id r) (image r) (inner_port r) (creds r) (limits r) (volumes r) (placement r) (anti_affinity r)
     (platform r) (env r) (cmd r) (network r) (labels r)
     (if 0 <? millis then Some millis else None) (job_timeout_secs r).
Definition with_job_timeout (secs : Z) (r : t) : t :=
  mk (spec_id r) (image r) (inner_port r) (creds r) (limits r) (volumes r) (placement r) (anti_affinity r)
     (platform r) (env r) (cmd r) (network r) (labels r) (readiness_timeout_ms r) (Some secs).
End SpawnRequest.

Module ManagedContainer.
Record t := mk {
  id : string;
  name : string;
  image : string;
  spec_id : option string;
  status : string;
  running : bool;
  finished_at : option Z }.
End ManagedContainer.

Module ReplicaLiveness.
Inductive t := Running | Stopped | Missing | Unknown.
#[global] Instance eq_dec : EqDecision t.
Proof. solve_decision. Defined.
End ReplicaLiveness.

Module ReplicaLivenessQuery.
Record t := mk { replica_id : ReplicaId; container_id : string; host : option string }.
Definition from (r : Replica.t) : t := mk (Replica.id r) (Replica.container_id r) (Replica.host r).
End ReplicaLivenessQuery.

Module ReplicaLivenessReport.
(** [observations] pairs a replica id with its liveness. *)
Record t := mk {
  observations : list (ReplicaId * ReplicaLiveness.t);
  running : list Replica.t;
  managed : list ManagedContainer.t }.
Definition unknown (known : list ReplicaLivenessQuery.t) : t :=
  mk (map (fun q => (ReplicaLivenessQuery.replica_id q, ReplicaLiveness.Unknown)) known) [] [].
End ReplicaLivenessReport.

Module JobOutcome.
Record t := mk { exit_code : Z; log_tail : list string; duration_ms : Z }.
End JobOutcome.

Module ImageInfo.
Record t := mk { id : string; tags : list string; size_bytes : Z; containers : Z }.
End ImageInfo.

Definition image_tag_matches (tags : list string) (image : string) : bool :=
  let with_tag := if str_contains ":" image then image else image +:+ ":latest" in
  existsb (fun t => str_eqb t image || str_eqb t with_tag) tags.

(** ** The replica registry *)

Abbreviation ReplicaRegistry := (gmap string (list Replica.t)).

Module Registry.
Definition empty : ReplicaRegistry := ∅.

Definition replicas_of (reg : ReplicaRegistry) (spec_id : string) : list Replica.t :=
  default [] (reg !! spec_id).

Definition add (replica : Replica.t) (reg : ReplicaRegistry) : ReplicaRegistry :=
  <[Replica.spec_id replica := replicas_of reg (Replica.spec_id replica) ++ [replica]]> reg.

(** The pool a [values_mut] walk finds [i] in. *)
Definition holder (i : ReplicaId) (reg : ReplicaRegistry) : option string :=
  fst <$> List.find (fun '(_, rs) => existsb (has_id i) rs) (map_to_list reg).

Definition remove (i : ReplicaId) (reg : ReplicaRegistry) : option Replica.t * ReplicaRegistry :=
  match holder i reg with
  | Some k =>
    (List.find (has_id i) (replicas_of reg k), <[k := remove_first (has_id i) (replicas_of reg k)]> reg)
  | None => (None, reg)
  end.

(** [find_mut] followed by an assignment through the reference; the flag
    says whether the replica was found. *)
Definition update (i : ReplicaId) (f : Replica.t -> Replica.t) (reg : ReplicaRegistry)
  : bool * ReplicaRegistry :=
  match holder i reg with
  | Some k => (true, <[k := update_first (has_id i) f (replicas_of reg k)]> reg)
  | None => (false, reg)
  end.

Definition upsert (replica : Replica.t) (reg : ReplicaRegistry) : ReplicaRegistry :=
  add replica (remove (Replica.id replica) reg).2.

Definition restarting (observed_at : Z) (r : Replica.t) : Replica.t :=
  Replica.set_sessions_active 0 (Replica.set_started_at observed_at (Replica.set_state ReplicaState.Stopped r)).

Definition mark_restarting (i : ReplicaId) (observed_at : Z) (reg : ReplicaRegistry)
  : bool * ReplicaRegistry := update i (restarting observed_at) reg.

Definition reset (replicas : list Replica.t) (reg : ReplicaRegistry) : ReplicaRegistry :=
  foldl (fun acc r => add r acc) ∅ replicas.

Definition spec_count (reg : ReplicaRegistry) : nat := size reg.

Definition all (reg : ReplicaRegistry) : list Replica.t := concat (map snd (map_to_list reg)).

Definition total (reg : ReplicaRegistry) : nat := sum_list (map (fun p => length (snd p)) (map_to_list reg)).

Definition inc (r : Replica.t) : Replica.t :=
  Replica.set_sessions_active (u32_saturating_add (Replica.sessions_active r) 1) r.
Definition dec (r : Replica.t) : Replica.t :=
  Replica.set_sessions_active (saturating_sub (Replica.sessions_active r) 1) r.

Definition inc_sessions (i : ReplicaId) (reg : ReplicaRegistry) : ReplicaRegistry := (update i inc reg).2.
Definition dec_sessions (i : ReplicaId) (reg : ReplicaRegistry) : ReplicaRegistry := (update i dec reg).2.
Definition set_session_count (i : ReplicaId) (n : Z) (reg : ReplicaRegistry) : ReplicaRegistry :=
  (update i (Replica.set_sessions_active n) reg).2.

Definition set_session_counts (counts : gmap ReplicaId Z) (reg : ReplicaRegistry) : ReplicaRegistry :=
  (fun rs => map (fun r => Replica.set_sessions_active (default 0 (counts !! Replica.id r)) r) rs) <$> reg.

(** *** Well-formedness and the abstract view *)

(** Replica ids are unique and every replica sits in its own spec's pool. *)
Record wf (reg : ReplicaRegistry) : Prop := {
  wf_ids : NoDup (Replica.id <$> all reg);
  wf_spec : forall k rs r, reg !! k = Some rs -> r ∈ rs -> Replica.spec_id r = k }.

(** The abstract registry: a finite map from replica ids to replicas. *)
Definition by_id (reg : ReplicaRegistry) : gmap ReplicaId Replica.t :=
  list_to_map ((fun r => (Replica.id r, r)) <$> all reg).

Section Lemmas.
Implicit Types (reg : ReplicaRegistry) (r : Replica.t) (i : ReplicaId) (k : string).

Lemma has_id_spec i r : has_id i r = true <-> Replica.id r = i.
Proof. unfold has_id. apply bool_decide_eq_true. Qed.

Lemma has_id_false i r : has_id i r = false <-> Replica.id r <> i.
Proof. unfold has_id. apply bool_decide_eq_false. Qed.

Lemma elem_of_all r reg : r ∈ all reg <-> exists k rs, reg !! k = Some rs /\ r ∈ rs.
Proof.
  unfold all. rewrite list_elem_of_In, in_concat. split.
  - intros (rs & Hrs & Hr). apply in_map_iff in Hrs as ([k rs'] & <- & Hk).
    apply list_elem_of_In, elem_of_map_to_list in Hk. exists k, rs'.
    split; [done|]. by apply list_elem_of_In.
  - intros (k & rs & Hk & Hr). exists rs. split; [|by apply list_elem_of_In].
    apply in_map_iff. exists (k, rs). split; [done|].
    by apply list_elem_of_In, elem_of_map_to_list.
Qed.

Lemma elem_of_replicas_of_all r reg k : r ∈ replicas_of reg k -> r ∈ all reg.
Proof.
  unfold replicas_of. destruct (reg !! k) as [rs|] eqn:E; simpl; [|set_solver].
  intros Hr. apply elem_of_all. eauto.
Qed.

Lemma all_insert_fresh reg k rs : reg !! k = None -> all (<[k := rs]> reg) ≡ₚ rs ++ all reg.
Proof. intros Hk. unfold all. by rewrite (map_to_list_insert reg k rs Hk). Qed.

Lemma all_lookup reg k : all reg ≡ₚ replicas_of reg k ++ all (delete k reg).
Proof.
  unfold replicas_of. destruct (reg !! k) as [rs|] eqn:E; simpl.
  - rewrite <- (all_insert_fresh (delete k reg) k rs) by apply lookup_delete_eq.
    by rewrite insert_delete_id.
  - by rewrite delete_id.
Qed.

Lemma all_insert reg k rs : all (<[k := rs]> reg) ≡ₚ rs ++ all (delete k reg).
Proof.
  rewrite <- (insert_delete_eq reg k rs). apply all_insert_fresh, lookup_delete_eq.
Qed.

Lemma total_all reg : total reg = length (all reg).
Proof.
  unfold total, all. induction (map_to_list reg) as [|[k rs] l IH]; [done|].
  simpl. rewrite length_app. lia.
Qed.

Lemma holder_Some i reg k :
  holder i reg = Some k -> exists r, r ∈ replicas_of reg k /\ Replica.id r = i /\ reg !! k = Some (replicas_of reg k).
Proof.
  unfold holder. destruct (List.find _ _) as [[k' rs]|] eqn:E; [|done]. intros [= <-].
  apply find_elem in E as [Hin Hex]. apply elem_of_map_to_list in Hin.
  apply existsb_elem in Hex as (r & Hr & Hi%has_id_spec).
  exists r. unfold replicas_of. by rewrite Hin.
Qed.

Lemma holder_None i reg r : holder i reg = None -> r ∈ all reg -> Replica.id r <> i.
Proof.
  unfold holder. destruct (List.find _ _) as [|] eqn:E; [done|]. intros _ Hr Hi.
  apply elem_of_all in Hr as (k & rs & Hk & Hr).
  apply elem_of_map_to_list in Hk.
  pose proof (find_none_elem _ _ _ E Hk) as Hf. simpl in Hf.
  assert (existsb (has_id i) rs = true) as Ht; [|congruence].
  apply existsb_elem. exists r. by rewrite has_id_spec.
Qed.

Lemma remove_first_perm {A} (p : A -> bool) l x :
  List.find p l = Some x -> l ≡ₚ x :: remove_first p l.
Proof.
  induction l as [|y l IH]; [done|]. simpl. destruct (p y) eqn:Hy.
  - by intros [= <-].
  - intros H. rewrite (IH H) at 1. apply Permutation_swap.
Qed.

Lemma update_first_perm {A} (p : A -> bool) f l x :
  List.find p l = Some x -> update_first p f l ≡ₚ f x :: remove_first p l.
Proof.
  induction l as [|y l IH]; [done|]. simpl. destruct (p y) eqn:Hy.
  - by intros [= <-].
  - intros H. rewrite (IH H). apply Permutation_swap.
Qed.

Lemma find_has_id i l r : r ∈ l -> Replica.id r = i -> exists r', List.find (has_id i) l = Some r'.
Proof.
  intros Hr Hi. destruct (List.find (has_id i) l) as [r'|] eqn:E; [eauto|].
  pose proof (find_none_elem _ _ _ E Hr) as Hf. apply has_id_false in Hf. done.
Qed.

Lemma remove_first_not i l : (forall r, r ∈ l -> Replica.id r <> i) -> remove_first (has_id i) l = l.
Proof.
  induction l as [|r l IH]; intros H; [done|]. simpl.
  destruct (has_id i r) eqn:E; [apply has_id_spec in E; exfalso; apply (H r); set_solver|].
  rewrite IH; [done|]. intros r' Hr'. apply H. set_solver.
Qed.

Lemma update_first_not i f l : (forall r, r ∈ l -> Replica.id r <> i) -> update_first (has_id i) f l = l.
Proof.
  induction l as [|r l IH]; intros H; [done|]. simpl.
  destruct (has_id i r) eqn:E; [apply has_id_spec in E; exfalso; apply (H r); set_solver|].
  rewrite IH; [done|]. intros r' Hr'. apply H. set_solver.
Qed.

(** The removed or updated replica, and the permutation that exhibits it. *)
Lemma holder_find i reg k :
  holder i reg = Some k ->
  exists r L, List.find (has_id i) (replicas_of reg k) = Some r /\ Replica.id r = i
    /\ all reg ≡ₚ r :: L
    /\ all (<[k := remove_first (has_id i) (replicas_of reg k)]> reg) ≡ₚ L
    /\ forall f, all (<[k := update_first (has_id i) f (replicas_of reg k)]> reg) ≡ₚ f r :: L.
Proof.
  intros (r0 & Hr0 & Hi0 & Hk)%holder_Some.
  destruct (find_has_id i _ _ Hr0 Hi0) as [r Hf].
  exists r, (remove_first (has_id i) (replicas_of reg k) ++ all (delete k reg)).
  split; [done|]. split; [by apply has_id_spec; apply find_elem in Hf as [_ ?]|].
  split; [|split; [apply all_insert|]].
  - rewrite (all_lookup reg k). by rewrite (remove_first_perm _ _ _ Hf) at 1.
  - intros f. rewrite all_insert. by rewrite (update_first_perm _ f _ _ Hf).
Qed.

(** *** The abstract view under a permutation *)

Lemma keyed_fst l : ((fun r => (Replica.id r, r)) <$> l).*1 = Replica.id <$> l.
Proof. rewrite <- list_fmap_compose. done. Qed.

Lemma by_id_perm reg L : wf reg -> all reg ≡ₚ L ->
  by_id reg = list_to_map ((fun r => (Replica.id r, r)) <$> L).
Proof.
  intros [Hnd _] HL. unfold by_id. apply list_to_map_proper.
  - by rewrite keyed_fst.
  - by rewrite HL.
Qed.

Lemma by_id_lookup reg i r : wf reg -> by_id reg !! i = Some r <-> r ∈ all reg /\ Replica.id r = i.
Proof.
  intros [Hnd _]. unfold by_id. rewrite <- elem_of_list_to_map by (by rewrite keyed_fst).
  rewrite list_elem_of_fmap. split.
  - intros (r' & [= -> ->] & Hr). done.
  - intros [Hr <-]. eauto.
Qed.

Lemma by_id_None reg i : by_id reg !! i = None <-> i ∉ (Replica.id <$> all reg).
Proof. unfold by_id. by rewrite <- not_elem_of_list_to_map, keyed_fst. Qed.

Lemma wf_unique reg r r' : wf reg -> r ∈ all reg -> r' ∈ all reg -> Replica.id r = Replica.id r' -> r = r'.
Proof.
  intros Hwf Hr Hr' Heq.
  assert (by_id reg !! Replica.id r = Some r) as H1 by (by apply by_id_lookup).
  assert (by_id reg !! Replica.id r = Some r') as H2 by (by apply by_id_lookup).
  congruence.
Qed.

Lemma wf_spec_id reg r k : wf reg -> r ∈ replicas_of reg k -> Replica.spec_id r = k.
Proof.
  intros [_ Hs] Hr. unfold replicas_of in Hr. destruct (reg !! k) as [rs|] eqn:E; [|set_solver].
  by apply (Hs k rs).
Qed.

Lemma wf_replicas_of reg r : wf reg -> r ∈ all reg -> r ∈ replicas_of reg (Replica.spec_id r).
Proof.
  intros [_ Hs] (k & rs & Hk & Hr)%elem_of_all. rewrite (Hs k rs r Hk Hr).
  unfold replicas_of. by rewrite Hk.
Qed.

Lemma holder_unique reg i k r :
  wf reg -> r ∈ replicas_of reg k -> Replica.id r = i -> holder i reg = Some k.
Proof.
  intros Hwf Hr Hi. destruct (holder i reg) as [k'|] eqn:E.
  - apply holder_Some in E as (r' & Hr' & Hi' & _). f_equal.
    assert (r = r') as -> by (apply (wf_unique reg); eauto using elem_of_replicas_of_all; congruence).
    rewrite <- (wf_spec_id reg r' k' Hwf Hr'). by apply (wf_spec_id reg).
  - exfalso. eapply holder_None; eauto using elem_of_replicas_of_all.
Qed.

Lemma holder_None_iff reg i : holder i reg = None <-> by_id reg !! i = None.
Proof.
  rewrite by_id_None. split.
  - intros H Hin. apply list_elem_of_fmap in Hin as (r & Hi & Hr). eapply holder_None; eauto.
  - intros Hn. destruct (holder i reg) as [k|] eqn:E; [|done]. exfalso. apply Hn.
    apply holder_Some in E as (r & Hr & <- & _). apply list_elem_of_fmap.
    eauto using elem_of_replicas_of_all.
Qed.

(** *** Well-formedness is preserved *)

Lemma wf_empty : wf empty.
Proof.
  split.
  - unfold empty, all. rewrite map_to_list_empty. constructor.
  - intros k rs r H. unfold empty in H. by rewrite lookup_empty in H.
Qed.

Lemma all_add r reg : all (add r reg) ≡ₚ r :: all reg.
Proof.
  unfold add. rewrite all_insert, (all_lookup reg (Replica.spec_id r)), <- app_assoc. simpl.
  symmetry. apply Permutation_middle.
Qed.

Lemma wf_add r reg : wf reg -> by_id reg !! Replica.id r = None -> wf (add r reg).
Proof.
  intros [Hnd Hs] Hfresh. split.
  - rewrite all_add, fmap_cons. constructor; [by apply by_id_None|done].
  - intros k rs r' Hk Hr'. unfold add in Hk.
    apply lookup_insert_Some in Hk as [[<- <-]|[_ Hk]]; [|by eapply Hs].
    apply elem_of_app in Hr' as [Hr'|Hr'%list_elem_of_singleton]; [|by subst].
    unfold replicas_of in Hr'. destruct (reg !! _) as [rs|] eqn:E; [by eapply Hs|set_solver].
Qed.

Lemma remove_first_subset {A} (p : A -> bool) l x : x ∈ remove_first p l -> x ∈ l.
Proof.
  induction l as [|y l IH]; [done|]. simpl. destruct (p y); set_solver.
Qed.

Lemma wf_remove i reg : wf reg -> wf (remove i reg).2.
Proof.
  intros Hwf. unfold remove. destruct (holder i reg) as [k|] eqn:E; [|done]. simpl.
  destruct (holder_find i reg k E) as (r & L & _ & _ & Hall & Hall' & _).
  split.
  - rewrite Hall'. destruct Hwf as [Hnd _]. rewrite Hall, fmap_cons in Hnd. by inversion Hnd.
  - intros k' rs r' Hk Hr. apply lookup_insert_Some in Hk as [[<- <-]|[_ Hk]].
    + apply remove_first_subset in Hr. by apply (wf_spec_id reg).
    + by eapply Hwf.
Qed.

Lemma update_first_elem {A} (p : A -> bool) f l x :
  x ∈ update_first p f l -> x ∈ l \/ exists y, y ∈ l /\ p y = true /\ x = f y.
Proof.
  induction l as [|y l IH]; [set_solver|]. simpl. destruct (p y) eqn:Hp.
  - intros [->|Hx]%elem_of_cons; [right; exists y; set_solver|set_solver].
  - intros [->|Hx]%elem_of_cons; [set_solver|]. destruct (IH Hx) as [?|(z & ? & ? & ?)]; [set_solver|].
    right. exists z. set_solver.
Qed.

(** Updates that keep a replica's identity. *)
Definition keeps_identity (f : Replica.t -> Replica.t) : Prop :=
  forall r, Replica.id (f r) = Replica.id r /\ Replica.spec_id (f r) = Replica.spec_id r.

Lemma wf_update i f reg : keeps_identity f -> wf reg -> wf (update i f reg).2.
Proof.
  intros Hf Hwf. unfold update. destruct (holder i reg) as [k|] eqn:E; [|done]. simpl.
  destruct (holder_find i reg k E) as (r & L & _ & _ & Hall & _ & Hall').
  split.
  - rewrite Hall', fmap_cons. destruct Hwf as [Hnd _]. rewrite Hall, fmap_cons in Hnd.
    by rewrite (proj1 (Hf r)).
  - intros k' rs r' Hk Hr. apply lookup_insert_Some in Hk as [[<- <-]|[_ Hk]]; [|by eapply Hwf].
    apply update_first_elem in Hr as [Hr|(y & Hy & _ & ->)].
    + by apply (wf_spec_id reg).
    + rewrite (proj2 (Hf y)). by apply (wf_spec_id reg).
Qed.

(** *** Refinement of the abstract map *)

Lemma by_id_add r reg : wf reg -> by_id reg !! Replica.id r = None ->
  by_id (add r reg) = <[Replica.id r := r]> (by_id reg).
Proof.
  intros Hwf Hfresh. rewrite (by_id_perm _ _ (wf_add r reg Hwf Hfresh) (all_add r reg)). done.
Qed.

Lemma remove_spec i reg : wf reg ->
  (remove i reg).1 = by_id reg !! i /\ by_id (remove i reg).2 = delete i (by_id reg).
Proof.
  intros Hwf. pose proof (wf_remove i reg Hwf) as Hwf'. unfold remove in *.
  destruct (holder i reg) as [k|] eqn:E; simpl in *.
  - destruct (holder_find i reg k E) as (r & L & Hf & Hi & Hall & Hall' & _).
    rewrite Hf, (by_id_perm _ _ Hwf Hall), (by_id_perm _ _ Hwf' Hall'). simpl. subst i.
    rewrite lookup_insert_eq. split; [done|].
    rewrite delete_insert_id; [done|]. apply not_elem_of_list_to_map. rewrite keyed_fst.
    destruct Hwf as [Hnd _]. rewrite Hall, fmap_cons in Hnd. by inversion Hnd.
  - apply holder_None_iff in E. rewrite E. split; [done|]. by rewrite delete_id.
Qed.

Lemma update_spec i f reg : keeps_identity f -> wf reg ->
  (update i f reg).1 = bool_decide (is_Some (by_id reg !! i))
  /\ by_id (update i f reg).2 = alter f i (by_id reg).
Proof.
  intros Hfi Hwf. pose proof (wf_update i f reg Hfi Hwf) as Hwf'. unfold update in *.
  destruct (holder i reg) as [k|] eqn:E; simpl in *.
  - destruct (holder_find i reg k E) as (r & L & Hf & Hi & Hall & _ & Hall').
    rewrite (by_id_perm _ _ Hwf Hall), (by_id_perm _ _ Hwf' (Hall' f)). simpl.
    rewrite (proj1 (Hfi r)). subst i. rewrite lookup_insert_eq.
    split; [done|]. by rewrite alter_insert_eq.
  - apply holder_None_iff in E. rewrite E. split; [done|]. symmetry.
    apply map_eq. intros j. rewrite lookup_alter. case_decide; [subst; by rewrite E|done].
Qed.

(** *** The pools, in order *)

Lemma replicas_of_add r reg k :
  replicas_of (add r reg) k =
  if decide (Replica.spec_id r = k) then replicas_of reg k ++ [r] else replicas_of reg k.
Proof.
  unfold add, replicas_of at 1. rewrite lookup_insert. case_decide; by subst.
Qed.

Lemma replicas_of_remove i reg k :
  wf reg -> replicas_of (remove i reg).2 k = remove_first (has_id i) (replicas_of reg k).
Proof.
  intros Hwf. unfold remove. destruct (holder i reg) as [k'|] eqn:E; simpl.
  - unfold replicas_of at 1. rewrite lookup_insert. case_decide as Hk; [by subst|].
    change (default [] (reg !! k)) with (replicas_of reg k). symmetry. apply remove_first_not.
    intros r Hr Hi. apply Hk. rewrite (holder_unique reg i k r Hwf Hr Hi) in E. congruence.
  - symmetry. apply remove_first_not. intros r Hr. eapply holder_None; eauto using elem_of_replicas_of_all.
Qed.

Lemma replicas_of_update i f reg k :
  wf reg -> replicas_of (update i f reg).2 k = update_first (has_id i) f (replicas_of reg k).
Proof.
  intros Hwf. unfold update. destruct (holder i reg) as [k'|] eqn:E; simpl.
  - unfold replicas_of at 1. rewrite lookup_insert. case_decide as Hk; [by subst|].
    change (default [] (reg !! k)) with (replicas_of reg k). symmetry. apply update_first_not.
    intros r Hr Hi. apply Hk. rewrite (holder_unique reg i k r Hwf Hr Hi) in E. congruence.
  - symmetry. apply update_first_not. intros r Hr. eapply holder_None; eauto using elem_of_replicas_of_all.
Qed.

Lemma length_update_first {A} (p : A -> bool) f l : length (update_first p f l) = length l.
Proof. induction l as [|x l IH]; [done|]. simpl. destruct (p x); simpl; lia. Qed.

Lemma length_remove_first {A} (p : A -> bool) l : (length (remove_first p l) <= length l)%nat.
Proof. induction l as [|x l IH]; [done|]. simpl. destruct (p x); simpl; lia. Qed.

Lemma length_remove_first_exists {A} (p : A -> bool) l :
  existsb p l = true -> length l = S (length (remove_first p l)).
Proof. induction l as [|x l IH]; [done|]. simpl. destruct (p x); simpl; [done|]. intros. f_equal. by apply IH. Qed.

Lemma keeps_inc : keeps_identity inc.
Proof. done. Qed.
Lemma keeps_dec : keeps_identity dec.
Proof. done. Qed.
Lemma keeps_set n : keeps_identity (Replica.set_sessions_active n).
Proof. done. Qed.
Lemma keeps_restarting at_ : keeps_identity (restarting at_).
Proof. done. Qed.
End Lemmas.
End Registry.

#[export] Hint Resolve Registry.wf_empty Registry.wf_add Registry.wf_remove Registry.wf_update
  Registry.keeps_inc Registry.keeps_dec Registry.keeps_set Registry.keeps_restarting : ruscker.

Module RegistryOps.
Import Registry.

(** The registry's mutators as one type of operations. *)
Inductive op :=
| Add (r : Replica.t)
| Remove (i : ReplicaId)
| Upsert (r : Replica.t)
| MarkRestarting (i : ReplicaId) (observed_at : Z)
| Reset (rs : list Replica.t)
| IncSessions (i : ReplicaId)
| DecSessions (i : ReplicaId)
| SetSessionCount (i : ReplicaId) (n : Z)
| SetSessionCounts (counts : gmap ReplicaId Z).

Definition apply (o : op) (reg : ReplicaRegistry) : ReplicaRegistry :=
  match o with
  | Add r => add r reg
  | Remove i => (remove i reg).2
  | Upsert r => upsert r reg
  | MarkRestarting i at_ => (mark_restarting i at_ reg).2
  | Reset rs => reset rs reg
  | IncSessions i => inc_sessions i reg
  | DecSessions i => dec_sessions i reg
  | SetSessionCount i n => set_session_count i n reg
  | SetSessionCounts counts => set_session_counts counts reg
  end.

(** The same operations on the abstract map. *)
Definition abstract_apply (o : op) (m : gmap ReplicaId Replica.t) : gmap ReplicaId Replica.t :=
  match o with
  | Add r | Upsert r => <[Replica.id r := r]> m
  | Remove i => delete i m
  | MarkRestarting i at_ => alter (restarting at_) i m
  | Reset rs => list_to_map ((fun r => (Replica.id r, r)) <$> rs)
  | IncSessions i => alter inc i m
  | DecSessions i => alter dec i m
  | SetSessionCount i n => alter (Replica.set_sessions_active n) i m
  | SetSessionCounts counts =>
    (fun r => Replica.set_sessions_active (default 0 (counts !! Replica.id r)) r) <$> m
  end.

(** What the callers guarantee: a spawned replica's id is fresh, and a
    backend inventory lists no id twice. *)
Definition admissible (o : op) (reg : ReplicaRegistry) : Prop :=
  match o with
  | Add r => by_id reg !! Replica.id r = None
  | Reset rs => NoDup (Replica.id <$> rs)
  | _ => True
  end.

(** Registries reachable from the empty one. *)
Inductive reachable : ReplicaRegistry -> Prop :=
| reach_new : reachable Registry.empty
| reach_step reg o : reachable reg -> admissible o reg -> reachable (apply o reg).

Lemma all_set_session_counts counts reg :
  all (set_session_counts counts reg)
  = map (fun r => Replica.set_sessions_active (default 0 (counts !! Replica.id r)) r) (all reg).
Proof.
  unfold all, set_session_counts. rewrite map_to_list_fmap, concat_map.
  f_equal. change (@fmap list _) with (@map) at 1.
  induction (map_to_list reg) as [|[k rs] l IH]; [done|]. simpl. by f_equal.
Qed.

Lemma wf_upsert r reg : wf reg -> wf (upsert r reg).
Proof.
  intros Hwf. unfold upsert. apply wf_add; [by apply wf_remove|].
  rewrite (proj2 (remove_spec _ reg Hwf)). apply lookup_delete_eq.
Qed.

Lemma by_id_upsert r reg : wf reg -> by_id (upsert r reg) = <[Replica.id r := r]> (by_id reg).
Proof.
  intros Hwf. unfold upsert. destruct (remove_spec (Replica.id r) reg Hwf) as [_ Hd].
  rewrite by_id_add, Hd; [apply insert_delete_eq|by apply wf_remove|].
  rewrite Hd. apply lookup_delete_eq.
Qed.

Lemma reset_from acc rs : wf acc -> NoDup (Replica.id <$> rs) ->
  (forall i, i ∈ Replica.id <$> rs -> by_id acc !! i = None) ->
  let reg := foldl (fun acc r => add r acc) acc rs in
  wf reg /\ by_id reg = list_to_map ((fun r => (Replica.id r, r)) <$> rs) ∪ by_id acc.
Proof.
  revert acc; induction rs as [|r rs IH]; intros acc Hwf Hnd Hfresh; simpl in *.
  - split; [done|]. by rewrite map_empty_union.
  - inversion Hnd as [|? ? Hr Hnd']; subst.
    assert (by_id acc !! Replica.id r = None) as Hr0 by (apply Hfresh; set_solver).
    destruct (IH (add r acc)) as [Hwf' Heq]; [by apply wf_add|done| |].
    + intros i Hi. rewrite by_id_add, lookup_insert_ne; [|intros Heq; apply Hr; by rewrite Heq|done|by apply Hfresh; set_solver].
      apply Hfresh. set_solver.
    + split; [done|]. rewrite Heq, by_id_add by done.
      change (list_to_map ((fun r => (Replica.id r, r)) <$> r :: rs) : gmap ReplicaId Replica.t)
        with (<[Replica.id r := r]> (list_to_map ((fun r => (Replica.id r, r)) <$> rs) : gmap ReplicaId Replica.t)).
      rewrite <- insert_union_l, insert_union_r; [done|].
      apply not_elem_of_list_to_map. by rewrite keyed_fst.
Qed.

Lemma wf_set_session_counts counts reg : wf reg -> wf (set_session_counts counts reg).
Proof.
  intros [Hnd Hs]. split.
  - rewrite all_set_session_counts. change (@map) with (fun A B => @fmap list _ A B).
    by rewrite <- list_fmap_compose.
  - intros k rs r Hk Hr. unfold set_session_counts in Hk. rewrite lookup_fmap in Hk.
    destruct (reg !! k) as [rs'|] eqn:E; [|done]. simplify_eq/=.
    apply list_elem_of_In, in_map_iff in Hr as (r' & <- & Hr'). apply list_elem_of_In in Hr'.
    simpl. by eapply Hs.
Qed.

Lemma by_id_set_session_counts counts reg : wf reg ->
  by_id (set_session_counts counts reg)
  = (fun r => Replica.set_sessions_active (default 0 (counts !! Replica.id r)) r) <$> by_id reg.
Proof.
  intros Hwf. unfold by_id. rewrite all_set_session_counts, <- list_to_map_fmap.
  f_equal. change (@map) with (fun A B => @fmap list _ A B). by rewrite <- !list_fmap_compose.
Qed.

Lemma by_id_empty : by_id Registry.empty = ∅.
Proof. reflexivity. Qed.

Lemma wf_apply o reg : wf reg -> admissible o reg -> wf (apply o reg).
Proof.
  intros Hwf Ha. destruct o; simpl in *.
  - by apply wf_add.
  - by apply wf_remove.
  - by apply wf_upsert.
  - by apply wf_update.
  - apply (reset_from Registry.empty rs wf_empty Ha). intros i _. rewrite by_id_empty. apply lookup_empty.
  - by apply wf_update.
  - by apply wf_update.
  - by apply wf_update.
  - by apply wf_set_session_counts.
Qed.

Lemma apply_refines o reg : wf reg -> admissible o reg ->
  by_id (apply o reg) = abstract_apply o (by_id reg).
Proof.
  intros Hwf Ha. destruct o; simpl in *.
  - by apply by_id_add.
  - by apply remove_spec.
  - by apply by_id_upsert.
  - by apply update_spec.
  - destruct (reset_from Registry.empty rs wf_empty Ha) as [_ Heq].
    + intros i _. rewrite by_id_empty. apply lookup_empty.
    + unfold reset. change (∅ : ReplicaRegistry) with Registry.empty. rewrite Heq, by_id_empty. by rewrite map_union_empty.
  - by apply update_spec.
  - by apply update_spec.
  - by apply update_spec.
  - by apply by_id_set_session_counts.
Qed.

Lemma reachable_wf reg : reachable reg -> wf reg.
Proof. induction 1; eauto using wf_empty, wf_apply. Qed.
End RegistryOps.

(** ** Properties *)

Module RegistryProperties.
Import Registry RegistryOps.

(** A concrete replica for the examples. *)
Definition sample (i : ReplicaId) (spec : string) (st : ReplicaState.t) (active max : Z) : Replica.t :=
  Replica.mk i spec "c" "127.0.0.1:3838" st 0 active max None.

(** Well-formedness of the registry is an invariant: in every registry
    reachable from the empty one through the mutators, with fresh ids for
    spawned replicas, replica ids are unique and every replica is in the
    pool of its own spec. *)
Theorem registry_reachable_wf reg : reachable reg -> wf reg.
Proof. apply reachable_wf. Qed.

Lemma registry_reachable_wf_witness :
  let reg := apply (IncSessions 1) (apply (Add (sample 1 "a" ReplicaState.Ready 0 5)) Registry.empty) in
  reachable reg /\ wf reg.
Proof.
  intros reg.
  assert (reachable reg) as H.
  { apply reach_step; [|done]. apply reach_step; [constructor|]. vm_compute. reflexivity. }
  split; [exact H|exact (registry_reachable_wf reg H)].
Defined.

(** The registry refines a plain map from replica ids to replicas:
    on a well-formed registry every mutator acts on the abstract map as
    insertion, deletion or pointwise update, whatever the order in which
    the hash map of pools is walked. *)
Theorem registry_refines_map o reg :
  wf reg -> admissible o reg -> by_id (apply o reg) = abstract_apply o (by_id reg).
Proof. apply apply_refines. Qed.

Lemma registry_refines_map_witness :
  wf Registry.empty /\
  by_id (apply (Upsert (sample 7 "a" ReplicaState.Ready 0 5)) Registry.empty)
  = {[7%N := sample 7 "a" ReplicaState.Ready 0 5]}.
Proof.
  split; [apply wf_empty|].
  rewrite (registry_refines_map (Upsert (sample 7 "a" ReplicaState.Ready 0 5)) Registry.empty wf_empty I).
  vm_compute. reflexivity.
Defined.

(** [spec_count] never decreases by removals: the pool a removal
    empties keeps being counted, so the result is the number of specs that
    ever had a replica since the last reset, not the number of specs with
    at least one replica. *)
Theorem spec_count_ignores_removals i reg : spec_count (remove i reg).2 = spec_count reg.
Proof.
  unfold remove, spec_count. destruct (holder i reg) as [k|] eqn:E; [|done]. simpl.
  apply holder_Some in E as (_ & _ & _ & Hk). apply map_size_insert_Some. eauto.
Qed.
End RegistryProperties.
