(* ===== verification/Sessions.v ===== *)
(** * Sessions: the session store (ruscker-admin/src/sessions.rs)

    The [SessionStore] trait as an interface with its accounting laws, and
    the in-memory store of a single node as its implementation: one map from
    session ids to entries, next to the live counter
    [Replica::sessions_active] it maintains in the registry.  [Instant::now]
    is an argument.  A [DashMap] walk visits its entries in an unspecified
    order; the model takes stdpp's and the theorems show that the outcome
    does not depend on it. *)

From Stdlib Require Import ZArith Lia.
From stdpp Require Import base tactics list gmap strings fin_maps numbers.
From S2P Require Import Prelude Text Schema Core.

Local Open Scope string_scope.
Local Open Scope list_scope.
Local Open Scope Z_scope.

(** ** The interface *)

Module TouchOutcome.
Inductive t := Registered | Touched.
#[global] Instance eq_dec : EqDecision t.
Proof. solve_decision. Defined.
End TouchOutcome.

(** The operations of the trait.  The registry is passed and returned, as
    the store mutates its live counters. *)
Class SessionStore (S : Type) := {
  touch_or_register : Z -> Uuid -> string -> ReplicaId -> bool ->
    ReplicaRegistry -> S -> TouchOutcome.t * (ReplicaRegistry * S);
  sweep : Z -> Z -> gmap string Z -> bool -> ReplicaRegistry -> S -> nat * (ReplicaRegistry * S);
  drop_replica : ReplicaId -> S -> nat * S;
  end_session : Uuid -> ReplicaRegistry -> S -> bool * (ReplicaRegistry * S);
  len : S -> nat;
  (** Sessions that point at a replica. *)
  tracked : S -> ReplicaId -> nat
}.

(** A decrement of the live counter for each replica of a list. *)
Definition dec_each (rids : list ReplicaId) (reg : ReplicaRegistry) : ReplicaRegistry :=
  foldl (fun reg i => Registry.dec_sessions i reg) reg rids.

(** Occurrences of [i] in [l]. *)
Definition occurrences (i : ReplicaId) (l : list ReplicaId) : nat :=
  length (filter (fun j => j = i) l).

(** What a store with live counters promises: every session that appears
    raises one counter unless its seat was reserved, every session that
    disappears lowers the counter of the replica it pointed at. *)
Class SessionStoreLaws (S : Type) `{SessionStore S} := {
  touch_law now sid spec rid reserved reg s out reg' s' :
    touch_or_register now sid spec rid reserved reg s = (out, (reg', s')) ->
    match out with
    | TouchOutcome.Touched => reg' = reg /\ forall i, tracked s' i = tracked s i
    | TouchOutcome.Registered =>
      reg' = (if reserved then reg else Registry.inc_sessions rid reg)
      /\ forall i, tracked s' i = (tracked s i + if decide (i = rid) then 1 else 0)%nat
    end;
  sweep_law now global overrides leader reg s n reg' s' :
    sweep now global overrides leader reg s = (n, (reg', s')) ->
    exists rids, n = length rids /\ reg' = dec_each rids reg
      /\ forall i, (tracked s' i + occurrences i rids = tracked s i)%nat;
  drop_law rid s n s' :
    drop_replica rid s = (n, s') ->
    n = tracked s rid /\ forall i, tracked s' i = if decide (i = rid) then 0%nat else tracked s i;
  end_law sid reg s b reg' s' :
    end_session sid reg s = (b, (reg', s')) ->
    if b : bool then exists rid, reg' = Registry.dec_sessions rid reg /\ (0 < tracked s rid)%nat
      /\ forall i, (tracked s' i + (if decide (i = rid) then 1 else 0) = tracked s i)%nat
    else reg' = reg /\ s' = s
}.

(** ** The in-memory store *)

Module SessionEntry.
Record t := mk { spec_id : string; replica_id : ReplicaId; last_seen : Z }.
Definition set_last_seen (now : Z) (e : t) : t := mk (spec_id e) (replica_id e) now.
End SessionEntry.

Module InMemorySessionStore.
Abbreviation t := (gmap Uuid SessionEntry.t).

Definition new : t := ∅.

(** [get_mut] on the fast path, then the entry API: a vacant entry is
    filled, and its counter raised unless the seat was reserved. *)
Definition touch_or_register (now : Z) (session_id : Uuid) (spec_id : string) (replica_id : ReplicaId)
    (seat_reserved : bool) (reg : ReplicaRegistry) (sessions : t)
  : TouchOutcome.t * (ReplicaRegistry * t) :=
  match sessions !! session_id with
  | Some entry =>
    (TouchOutcome.Touched, (reg, <[session_id := SessionEntry.set_last_seen now entry]> sessions))
  | None =>
    (TouchOutcome.Registered,
     (if seat_reserved then reg else Registry.inc_sessions replica_id reg,
      <[session_id := SessionEntry.mk spec_id replica_id now]> sessions))
  end.

(** The per-spec timeout, in milliseconds; negative means never. *)
Definition effective_timeout (global_ms : Z) (overrides : gmap string Z) (e : SessionEntry.t) : Z :=
  default global_ms (overrides !! SessionEntry.spec_id e).

Definition expired (now global_ms : Z) (overrides : gmap string Z) (e : SessionEntry.t) : bool :=
  let eff_ms := effective_timeout global_ms overrides e in
  if eff_ms <? 0 then false
  else from_millis eff_ms <? duration_since now (SessionEntry.last_seen e).

(** The first phase of a sweep: the victims. *)
Definition sweep_victims (now global_ms : Z) (overrides : gmap string Z) (sessions : t)
  : list (Uuid * ReplicaId) :=
  omap (fun '(sid, e) =>
          if expired now global_ms overrides e then Some (sid, SessionEntry.replica_id e) else None)
       (map_to_list sessions).

(** The second phase, under the registry's write lock. *)
Fixpoint sweep_evict (victims : list (Uuid * ReplicaId)) (reg : ReplicaRegistry) (sessions : t)
  : nat * (ReplicaRegistry * t) :=
  match victims with
  | [] => (0%nat, (reg, sessions))
  | (sid, rid) :: rest =>
    match sessions !! sid with
    | Some _ =>
      let '(n, st) := sweep_evict rest (Registry.dec_sessions rid reg) (delete sid sessions) in
      (S n, st)
    | None => sweep_evict rest reg sessions
    end
  end.

Definition sweep (now global_ms : Z) (overrides : gmap string Z) (_is_leader : bool)
    (reg : ReplicaRegistry) (sessions : t) : nat * (ReplicaRegistry * t) :=
  match sweep_victims now global_ms overrides sessions with
  | [] => (0%nat, (reg, sessions))
  | victims => sweep_evict victims reg sessions
  end.

Definition points_at (replica_id : ReplicaId) (e : SessionEntry.t) : bool :=
  bool_decide (SessionEntry.replica_id e = replica_id).

Definition drop_replica (replica_id : ReplicaId) (sessions : t) : nat * t :=
  let victims := map fst (List.filter (fun kv => points_at replica_id (snd kv)) (map_to_list sessions)) in
  (length victims, foldl (fun m sid => delete sid m) sessions victims).

Definition end_session (session_id : Uuid) (reg : ReplicaRegistry) (sessions : t)
  : bool * (ReplicaRegistry * t) :=
  match sessions !! session_id with
  | Some entry =>
    (true, (Registry.dec_sessions (SessionEntry.replica_id entry) reg, delete session_id sessions))
  | None => (false, (reg, sessions))
  end.

Definition len (sessions : t) : nat := size sessions.

Definition tracked (sessions : t) (i : ReplicaId) : nat :=
  size (filter (fun kv => SessionEntry.replica_id kv.2 = i) sessions).

#[global] Instance in_memory : SessionStore t := {
  touch_or_register := touch_or_register;
  sweep := sweep;
  drop_replica := drop_replica;
  end_session := end_session;
  len := len;
  tracked := tracked
}.

Lemma tracked_insert_fresh sessions sid e i :
  sessions !! sid = None ->
  tracked (<[sid := e]> sessions) i
  = (tracked sessions i + if decide (i = SessionEntry.replica_id e) then 1 else 0)%nat.
Proof.
  intros Hn. unfold tracked. rewrite map_filter_insert. simpl. case_decide; case_decide; subst; try done.
  - rewrite map_size_insert_None; [lia|]. apply map_lookup_filter_None. by left.
  - rewrite map_filter_delete, delete_id; [lia|]. apply map_lookup_filter_None. by left.
Qed.

Lemma tracked_delete sessions sid e i :
  sessions !! sid = Some e ->
  (tracked (delete sid sessions) i + (if decide (i = SessionEntry.replica_id e) then 1 else 0)
   = tracked sessions i)%nat.
Proof.
  intros He. rewrite <- (insert_delete_id sessions sid e He) at 2.
  by rewrite tracked_insert_fresh by apply lookup_delete_eq.
Qed.

Lemma tracked_refresh sessions sid e now i :
  sessions !! sid = Some e ->
  tracked (<[sid := SessionEntry.set_last_seen now e]> sessions) i = tracked sessions i.
Proof.
  intros He. pose proof (tracked_delete sessions sid e i He) as Hd.
  rewrite <- insert_delete_eq, tracked_insert_fresh by apply lookup_delete_eq. done.
Qed.

Lemma occurrences_cons i j l :
  occurrences i (j :: l) = (occurrences i l + if decide (i = j) then 1 else 0)%nat.
Proof.
  unfold occurrences. rewrite filter_cons. repeat case_decide; subst; simpl; try done; lia.
Qed.

(** Victims whose replica is the one the entry still points at. *)
Definition victims_agree (victims : list (Uuid * ReplicaId)) (sessions : t) : Prop :=
  forall sid rid e, (sid, rid) ∈ victims -> sessions !! sid = Some e -> SessionEntry.replica_id e = rid.

Lemma sweep_evict_spec victims reg sessions n reg' s' :
  victims_agree victims sessions ->
  sweep_evict victims reg sessions = (n, (reg', s')) ->
  (exists rids, n = length rids /\ reg' = dec_each rids reg
     /\ forall i, (tracked s' i + occurrences i rids = tracked sessions i)%nat)
  /\ s' = filter (fun kv => kv.1 ∉ victims.*1) sessions.
Proof.
  revert reg sessions n reg' s'; induction victims as [|[sid rid] rest IH];
    intros reg sessions n reg' s' Hagree; simpl.
  - intros [= <- <- <-]. split; [exists []; unfold occurrences; simpl; auto with lia|].
    symmetry. apply map_filter_id. set_solver.
  - destruct (sessions !! sid) as [e|] eqn:He.
    + destruct (sweep_evict rest _ _) as [m [reg1 s1]] eqn:E. intros [= <- <- <-].
      assert (SessionEntry.replica_id e = rid) as Hrid by (eapply Hagree; [left|done]).
      destruct (IH _ _ _ _ _ (ltac:(intros sid' rid' e' Hin [_ Hl]%lookup_delete_Some;
        eapply Hagree; [right; exact Hin|exact Hl])) E) as [(rids & -> & -> & Ht) Hs].
      split.
      * exists (rid :: rids). split; [done|]. split; [done|]. intros i.
        rewrite occurrences_cons. pose proof (tracked_delete sessions sid e i He) as Hd.
        rewrite Hrid in Hd. specialize (Ht i). lia.
      * rewrite Hs, map_filter_delete. apply map_eq. intros k. apply option_eq. intros x.
        rewrite lookup_delete_Some, !map_lookup_filter_Some. set_solver.
    + intros E. destruct (IH _ _ _ _ _ (ltac:(intros sid' rid' e' Hin Hl;
        eapply Hagree; [right; exact Hin|exact Hl])) E) as [Hr Hs].
      split; [done|]. rewrite Hs. apply map_eq. intros k. apply option_eq. intros x.
      rewrite !map_lookup_filter_Some. simpl. split; [|set_solver].
      intros [Hk Hnin]. split; [done|]. intros [->|Hin]%elem_of_cons; [congruence|by apply Hnin].
Qed.

(** A sweep counts what it removes. *)
Lemma sweep_evict_size victims reg sessions n reg' kept :
  sweep_evict victims reg sessions = (n, (reg', kept)) -> (n + size kept = size sessions)%nat.
Proof.
  revert reg sessions n reg' kept; induction victims as [|[sid rid] vs IH]; intros reg sessions n reg' kept; simpl.
  - by intros [= <- <- <-].
  - destruct (sessions !! sid) as [e|] eqn:He; [|apply IH].
    destruct (sweep_evict vs _ _) as [m [reg1 s1]] eqn:E. intros [= <- <- <-].
    apply IH in E. rewrite map_size_delete_Some in E by eauto.
    assert (size sessions <> 0)%nat; [|lia]. intros Hz%map_size_empty_iff. by rewrite Hz, lookup_empty in He.
Qed.

Lemma elem_of_sweep_victims now global overrides sessions sid rid :
  (sid, rid) ∈ sweep_victims now global overrides sessions <->
  exists e, sessions !! sid = Some e /\ expired now global overrides e = true
    /\ SessionEntry.replica_id e = rid.
Proof.
  unfold sweep_victims. rewrite list_elem_of_omap. split.
  - intros ([sid' e] & Hin & Hx). apply elem_of_map_to_list in Hin.
    destruct (expired now global overrides e) eqn:E; [|done]. simplify_eq. eauto.
  - intros (e & Hl & He & <-). exists (sid, e). rewrite He. split; [|done].
    by apply elem_of_map_to_list.
Qed.

Lemma sweep_unfold now global overrides leader reg sessions :
  sweep now global overrides leader reg sessions
  = sweep_evict (sweep_victims now global overrides sessions) reg sessions.
Proof. unfold sweep. by destruct (sweep_victims _ _ _ _). Qed.

Lemma sweep_victims_agree now global overrides sessions :
  victims_agree (sweep_victims now global overrides sessions) sessions.
Proof. intros sid rid e (e' & Hl & _ & Hr)%elem_of_sweep_victims He. congruence. Qed.

(** The store a sweep leaves, whatever the walk order. *)
Lemma sweep_store now global overrides leader reg sessions :
  (sweep now global overrides leader reg sessions).2.2
  = filter (fun kv => expired now global overrides kv.2 = false) sessions.
Proof.
  rewrite sweep_unfold. destruct (sweep_evict _ _ _) as [n [reg' s']] eqn:E. simpl.
  apply sweep_evict_spec in E as [_ ->]; [|apply sweep_victims_agree].
  apply map_filter_ext. intros sid e He. simpl. rewrite list_elem_of_fmap. split.
  - intros Hn. destruct (expired now global overrides e) eqn:Hx; [|done]. exfalso. apply Hn.
    exists (sid, SessionEntry.replica_id e). split; [done|]. apply elem_of_sweep_victims. eauto.
  - intros Hx ([sid' rid] & Heq & (e' & Hl & Hx' & _)%elem_of_sweep_victims). simpl in Heq. subst. congruence.
Qed.

Lemma drop_replica_store rid sessions :
  drop_replica rid sessions
  = (tracked sessions rid, filter (fun kv => SessionEntry.replica_id kv.2 <> rid) sessions).
Proof.
  unfold drop_replica.
  set (vs := List.filter (fun kv => points_at rid (snd kv)) (map_to_list sessions)).
  assert (Hvs : forall sid e, (sid, e) ∈ vs <-> sessions !! sid = Some e /\ SessionEntry.replica_id e = rid).
  { intros sid e. unfold vs. rewrite filter_elem, elem_of_map_to_list. unfold points_at. simpl.
    by rewrite bool_decide_eq_true. }
  assert (Hfold : forall l m, foldl (fun m sid => delete sid m) m l = filter (fun kv => kv.1 ∉ l) (m : t)).
  { induction l as [|sid l IH]; intros m; simpl.
    - symmetry. apply map_filter_id. set_solver.
    - rewrite IH, map_filter_delete. apply map_eq. intros k. apply option_eq. intros x.
      rewrite lookup_delete_Some, !map_lookup_filter_Some. set_solver. }
  f_equal.
  - rewrite length_map. unfold tracked. rewrite <- length_map_to_list.
    apply Permutation_length, NoDup_Permutation.
    + unfold vs. apply NoDup_ListNoDup, NoDup_filter, NoDup_ListNoDup, NoDup_map_to_list.
    + apply NoDup_map_to_list.
    + intros [sid e]. rewrite Hvs, elem_of_map_to_list, map_lookup_filter_Some. done.
  - rewrite Hfold. apply map_filter_ext. intros sid e He. simpl. split.
    + intros Hn Hr. apply Hn. change sid with (fst (sid, e)). apply list_elem_of_fmap_2. by apply Hvs.
    + intros Hr ([sid' e'] & Heq & [Hl Hr']%Hvs)%list_elem_of_fmap. simpl in Heq. subst. congruence.
Qed.

#[global] Instance in_memory_laws : SessionStoreLaws t.
Proof.
  split; simpl.
  - intros now sid spec rid reserved reg s out reg' s'. unfold touch_or_register.
    destruct (s !! sid) as [e|] eqn:He; intros [= <- <- <-].
    + split; [done|]. intros i. by apply tracked_refresh.
    + split; [done|]. intros i. by rewrite tracked_insert_fresh.
  - intros now global overrides leader reg s n reg' s'. rewrite sweep_unfold. intros E.
    apply sweep_evict_spec in E as [Hr _]; [done|apply sweep_victims_agree].
  - intros rid s n s'. rewrite drop_replica_store. intros [= <- <-]. split; [done|]. intros i.
    unfold tracked. rewrite map_filter_filter. case_decide as Hi.
    + subst. apply map_size_empty_iff, map_empty. intros k. apply map_lookup_filter_None. right.
      intros x _ [??]. done.
    + f_equal. apply map_filter_ext. intros k x _. simpl. split; [by intros [??]|by intros <-].
  - intros sid reg s b reg' s'. unfold end_session. destruct (s !! sid) as [e|] eqn:He; intros [= <- <- <-].
    + exists (SessionEntry.replica_id e). split; [done|].
      pose proof (fun i => tracked_delete s sid e i He) as Hd. split; [|done].
      specialize (Hd (SessionEntry.replica_id e)). rewrite decide_True in Hd by done. lia.
    + done.
Qed.

End InMemorySessionStore.

(** ** Accounting

    The registry and a store, driven by every path of the program that
    touches both: the request path (touch, seat reservation at pick time and
    the claim of a reserved seat), the sweeper, logout, and replicas that
    appear, leave or restart.  [reserved] counts the seats reserved and not
    yet claimed. *)

Module Accounting.

Section Accounting.
Context {S : Type} `{store_laws : SessionStoreLaws S}.

Record t := mk { reg : ReplicaRegistry; store : S; reserved : ReplicaId -> nat }.

Inductive event :=
| Touch (now : Z) (sid : Uuid) (spec : string) (rid : ReplicaId)
| Reserve (rid : ReplicaId)
| Claim (now : Z) (sid : Uuid) (spec : string) (rid : ReplicaId)
| Sweep (now global : Z) (overrides : gmap string Z) (leader : bool)
| EndSession (sid : Uuid)
| AddReplica (r : Replica.t)
| RemoveReplica (i : ReplicaId)
| RestartReplica (i : ReplicaId) (observed_at : Z).

Definition bump (f : ReplicaId -> nat) (i : ReplicaId) (n : nat) : ReplicaId -> nat :=
  fun j => if decide (j = i) then n else f j.

Definition seats_used (st : t) (i : ReplicaId) : nat := (tracked (store st) i + reserved st i)%nat.

Definition step (e : event) (st : t) : t :=
  let 'mk reg s res := st in
  match e with
  | Touch now sid spec rid =>
    let '(_, (reg', s')) := touch_or_register now sid spec rid false reg s in mk reg' s' res
  | Reserve rid => mk (Registry.inc_sessions rid reg) s (bump res rid (Datatypes.S (res rid)))
  | Claim now sid spec rid =>
    let '(out, (reg', s')) := touch_or_register now sid spec rid true reg s in
    mk reg' s' (match out with
                | TouchOutcome.Registered => bump res rid (pred (res rid))
                | TouchOutcome.Touched => res
                end)
  | Sweep now global overrides leader =>
    let '(_, (reg', s')) := sweep now global overrides leader reg s in mk reg' s' res
  | EndSession sid => let '(_, (reg', s')) := end_session sid reg s in mk reg' s' res
  | AddReplica r => mk (Registry.add r reg) s res
  | RemoveReplica i => mk (Registry.remove i reg).2 (drop_replica i s).2 (bump res i 0%nat)
  | RestartReplica i at_ => mk (Registry.mark_restarting i at_ reg).2 (drop_replica i s).2 (bump res i 0%nat)
  end.

(** A claim follows a reservation, a new replica starts without sessions
    under an id nothing points at, and the counter is below its width. *)
Definition admissible (e : event) (st : t) : Prop :=
  match e with
  | Touch _ _ _ rid | Reserve rid => Z.of_nat (seats_used st rid) < u32_max
  | Claim _ _ _ rid => (0 < reserved st rid)%nat
  | AddReplica r =>
    Registry.by_id (reg st) !! Replica.id r = None /\ Replica.sessions_active r = 0
    /\ seats_used st (Replica.id r) = 0%nat
  | _ => True
  end.

(** Every replica's live counter is the number of sessions that point at it
    plus the seats reserved on it. *)
Record counts (f : ReplicaId -> nat) (reg : ReplicaRegistry) : Prop := {
  counts_wf : Registry.wf reg;
  counts_eq : forall i r, Registry.by_id reg !! i = Some r ->
    Replica.sessions_active r = Z.of_nat (f i) }.

Definition accounted (st : t) : Prop := counts (seats_used st) (reg st).

Inductive reachable (s0 : S) : t -> Prop :=
| reach_init : (forall i, tracked s0 i = 0%nat) ->
    reachable s0 (mk Registry.empty s0 (fun _ => 0%nat))
| reach_step st e : reachable s0 st -> admissible e st -> reachable s0 (step e st).

Fixpoint all_admissible (es : list event) (st : t) : Prop :=
  match es with
  | [] => True
  | e :: es' => admissible e st /\ all_admissible es' (step e st)
  end.

Lemma reachable_run s0 es st :
  reachable s0 st -> all_admissible es st -> reachable s0 (foldl (fun st e => step e st) st es).
Proof.
  revert st; induction es as [|e es IH]; intros st Hr; simpl; [done|].
  intros [Ha Has]. apply IH; [by apply reach_step|done].
Qed.

Lemma by_id_inc reg i j : Registry.wf reg ->
  Registry.by_id (Registry.inc_sessions j reg) !! i
  = (if decide (j = i) then Registry.inc <$> Registry.by_id reg !! i else Registry.by_id reg !! i).
Proof.
  intros Hwf. unfold Registry.inc_sessions. rewrite (proj2 (Registry.update_spec j _ reg Registry.keeps_inc Hwf)).
  rewrite lookup_alter. repeat case_decide; by subst.
Qed.

Lemma by_id_dec reg i j : Registry.wf reg ->
  Registry.by_id (Registry.dec_sessions j reg) !! i
  = (if decide (j = i) then Registry.dec <$> Registry.by_id reg !! i else Registry.by_id reg !! i).
Proof.
  intros Hwf. unfold Registry.dec_sessions. rewrite (proj2 (Registry.update_spec j _ reg Registry.keeps_dec Hwf)).
  rewrite lookup_alter. repeat case_decide; by subst.
Qed.

Lemma dec_each_spec rids reg i r' : Registry.wf reg ->
  Registry.wf (dec_each rids reg) /\
  (Registry.by_id (dec_each rids reg) !! i = Some r' ->
   exists r, Registry.by_id reg !! i = Some r
     /\ (0 <= Replica.sessions_active r ->
         Replica.sessions_active r'
         = saturating_sub (Replica.sessions_active r) (Z.of_nat (occurrences i rids)))).
Proof.
  revert reg; induction rids as [|j rids IH]; intros reg Hwf; simpl.
  - split; [done|]. intros Hr. exists r'. split; [done|]. unfold occurrences, saturating_sub. simpl. lia.
  - destruct (IH (Registry.dec_sessions j reg)) as [Hwf' Hl]; [unfold Registry.dec_sessions; eauto with ruscker|].
    split; [done|]. intros (r & Hr & Heq)%Hl. rewrite by_id_dec in Hr by done.
    rewrite InMemorySessionStore.occurrences_cons. case_decide as Hji.
    + apply fmap_Some in Hr as (r0 & Hr0 & ->). exists r0. split; [done|]. intros Hpos.
      rewrite decide_True by done. unfold saturating_sub in *. simpl in Heq.
      rewrite Heq by (unfold saturating_sub; lia). unfold saturating_sub. lia.
    + exists r. split; [done|]. intros Hpos. rewrite decide_False by done. rewrite Heq by done. f_equal. lia.
Qed.

Lemma counts_ext f g reg : (forall i, f i = g i) -> counts f reg -> counts g reg.
Proof. intros Hfg [Hwf Hc]. split; [done|]. intros i r Hr. rewrite <- Hfg. by apply Hc. Qed.

Lemma counts_inc f reg rid :
  Z.of_nat (f rid) < u32_max -> counts f reg ->
  counts (bump f rid (Datatypes.S (f rid))) (Registry.inc_sessions rid reg).
Proof.
  intros Hlt [Hwf Hc]. split; [unfold Registry.inc_sessions; eauto with ruscker|].
  intros i r. rewrite by_id_inc by done. unfold bump. case_decide; [|rewrite decide_False by done; apply Hc].
  subst. rewrite decide_True by done. intros (r0 & Hr0 & ->)%fmap_Some. simpl. rewrite (Hc _ _ Hr0).
  unfold u32_saturating_add. lia.
Qed.

Lemma counts_dec_each f g reg rids :
  (forall i, (g i + occurrences i rids = f i)%nat) -> counts f reg -> counts g (dec_each rids reg).
Proof.
  intros Hfg [Hwf Hc]. split; [exact (proj1 (dec_each_spec rids reg 0%N (Replica.mk 0 "" "" "" ReplicaState.Ready 0 0 0 None) Hwf))|].
  intros i r' Hr'. destruct (dec_each_spec rids reg i r' Hwf) as [_ Hd].
  destruct (Hd Hr') as (r & Hr & Heq). rewrite Heq by (rewrite (Hc _ _ Hr); lia).
  rewrite (Hc _ _ Hr). specialize (Hfg i). unfold saturating_sub. lia.
Qed.

Lemma counts_delete f g reg i :
  (forall j, j <> i -> g j = f j) -> counts f reg -> counts g (Registry.remove i reg).2.
Proof.
  intros Hfg [Hwf Hc]. split; [eauto with ruscker|]. intros j r.
  rewrite (proj2 (Registry.remove_spec i reg Hwf)). intros [Hne Hr]%lookup_delete_Some.
  rewrite Hfg by done. by apply Hc.
Qed.

Lemma counts_restart f g reg i at_ :
  g i = 0%nat -> (forall j, j <> i -> g j = f j) -> counts f reg ->
  counts g (Registry.mark_restarting i at_ reg).2.
Proof.
  intros Hg Hfg [Hwf Hc]. split; [unfold Registry.mark_restarting; eauto with ruscker|]. intros j r.
  unfold Registry.mark_restarting. rewrite (proj2 (Registry.update_spec i _ reg (Registry.keeps_restarting at_) Hwf)).
  intros Hl. apply lookup_alter_Some in Hl as [(-> & r0 & _ & ->)|[Hne Hr]].
  - by rewrite Hg.
  - rewrite Hfg by done. by apply Hc.
Qed.

Lemma counts_add f reg r :
  Registry.by_id reg !! Replica.id r = None -> Replica.sessions_active r = 0 -> f (Replica.id r) = 0%nat ->
  counts f reg -> counts f (Registry.add r reg).
Proof.
  intros Hfresh Hzero Hf [Hwf Hc]. split; [by apply Registry.wf_add|]. intros i r'.
  rewrite Registry.by_id_add by done. intros [[<- <-]|[_ Hr]]%lookup_insert_Some.
  - by rewrite Hf.
  - by apply Hc.
Qed.

Lemma step_accounted e st : accounted st -> admissible e st -> accounted (step e st).
Proof.
  destruct st as [reg s res]. unfold accounted, seats_used. intros Hacc Ha.
  destruct e as [now sid spec rid|rid|now sid spec rid|now g ov l|sid|r|i|i at_]; simpl in *.
  - destruct (touch_or_register now sid spec rid false reg s) as [out [reg' s']] eqn:E.
    apply touch_law in E. destruct out; destruct E as [-> Ht]; simpl.
    + eapply counts_ext; [|by apply counts_inc]. intros i. unfold bump, seats_used. simpl. rewrite Ht.
      repeat case_decide; subst; lia.
    + eapply counts_ext; [|exact Hacc]. intros i. simpl. by rewrite Ht.
  - eapply counts_ext; [|by apply counts_inc]. intros i. unfold bump, seats_used. simpl. case_decide; subst; lia.
  - destruct (touch_or_register now sid spec rid true reg s) as [out [reg' s']] eqn:E.
    apply touch_law in E. destruct out; destruct E as [-> Ht]; simpl;
      (eapply counts_ext; [|exact Hacc]); intros i; simpl; rewrite Ht; [|done].
    unfold bump. unfold reserved in Ha. case_decide; subst; lia.
  - destruct (sweep now g ov l reg s) as [n [reg' s']] eqn:E.
    apply sweep_law in E as (rids & _ & -> & Ht). simpl. eapply counts_dec_each; [|exact Hacc].
    intros i. simpl. specialize (Ht i). lia.
  - destruct (end_session sid reg s) as [b [reg' s']] eqn:E. apply end_law in E. destruct b; simpl.
    + destruct E as (rid & -> & Hpos & Ht). change (Registry.dec_sessions rid reg) with (dec_each [rid] reg).
      eapply counts_dec_each; [|exact Hacc]. intros i. simpl. specialize (Ht i).
      rewrite InMemorySessionStore.occurrences_cons. unfold occurrences. simpl. lia.
    + by destruct E as [-> ->].
  - destruct Ha as (Hfresh & Hzero & Hz). by apply counts_add.
  - destruct (drop_replica i s) as [n s'] eqn:E. apply drop_law in E as [_ Ht]. simpl.
    eapply counts_delete; [|exact Hacc]. intros j Hj. simpl. unfold bump. rewrite Ht.
    by rewrite !decide_False by done.
  - destruct (drop_replica i s) as [n s'] eqn:E. apply drop_law in E as [_ Ht]. simpl.
    eapply counts_restart; [| |exact Hacc].
    + simpl. unfold bump. rewrite Ht. by rewrite !decide_True by done.
    + intros j Hj. simpl. unfold bump. rewrite Ht. by rewrite !decide_False by done.
Qed.

Lemma reachable_accounted s0 st : reachable s0 st -> accounted st.
Proof.
  induction 1 as [Hz|]; [|by apply step_accounted].
  split; [apply Registry.wf_empty|]. intros i r Hr. change (Registry.by_id Registry.empty !! i = Some r) in Hr.
  by rewrite RegistryOps.by_id_empty, lookup_empty in Hr.
Qed.

End Accounting.
End Accounting.

(** ** Properties *)

Module SessionProperties.
Import Accounting.

(** C6. Session accounting.  Whatever sequence of touches, seat
    reservations, claims of reserved seats, sweeps, logouts and replica
    arrivals, departures and restarts the program performs, and whatever
    store implements the interface with its laws, every registered replica's
    [sessions_active] is exactly the number of tracked sessions that point at
    it plus the seats reserved on it and not yet claimed. *)
Theorem sessions_active_accounted {S : Type} `{SessionStoreLaws S} (s0 : S) (st : t) i r :
  reachable s0 st -> Registry.by_id (reg st) !! i = Some r ->
  Replica.sessions_active r = Z.of_nat (tracked (store st) i) + Z.of_nat (reserved st i).
Proof.
  intros Hr%reachable_accounted Hl. rewrite (counts_eq _ _ Hr i r Hl). unfold seats_used. lia.
Qed.

Definition example_replica : Replica.t :=
  Replica.mk 1 "a" "c" "127.0.0.1:3838" ReplicaState.Ready 0 0 5 None.

Definition example_events : list event :=
  [AddReplica example_replica; Reserve 1%N; Claim 10 7%N "a" 1%N; Touch 11 8%N "a" 1%N; EndSession 7%N].

Definition example_state : t :=
  foldl (fun st e => step e st) (mk Registry.empty InMemorySessionStore.new (fun _ => 0%nat)) example_events.

Lemma sessions_active_accounted_witness :
  reachable InMemorySessionStore.new example_state
  /\ Registry.by_id (reg example_state) !! 1%N = Some (Replica.set_sessions_active 1 example_replica)
  /\ Replica.sessions_active (Replica.set_sessions_active 1 example_replica)
     = Z.of_nat (tracked (store example_state) 1) + Z.of_nat (reserved example_state 1).
Proof.
  assert (reachable InMemorySessionStore.new example_state) as Hr.
  { apply reachable_run; [apply reach_init; reflexivity|]. vm_compute. repeat split; lia. }
  assert (Registry.by_id (reg example_state) !! 1%N = Some (Replica.set_sessions_active 1 example_replica)) as Hl
    by (vm_compute; reflexivity).
  split; [exact Hr|]. split; [exact Hl|].
  exact (sessions_active_accounted InMemorySessionStore.new example_state 1 _ Hr Hl).
Defined.

(** A sweep of the in-memory store evicts exactly the sessions that
    sat idle for longer than their app's timeout: the entries it leaves are
    the unexpired ones, unchanged, its result is the number of entries it
    removed, and a negative timeout keeps a session for ever.  The outcome
    does not depend on the order the map is walked in. *)
Theorem sweep_evicts_exactly_expired now global overrides leader reg (sessions : InMemorySessionStore.t) :
  let '(n, (_, kept)) := InMemorySessionStore.sweep now global overrides leader reg sessions in
  (forall sid e, kept !! sid = Some e <->
     sessions !! sid = Some e
     /\ (InMemorySessionStore.effective_timeout global overrides e < 0
         \/ duration_since now (SessionEntry.last_seen e)
            <= from_millis (InMemorySessionStore.effective_timeout global overrides e)))
  /\ (n + size kept = size sessions)%nat.
Proof.
  pose proof (InMemorySessionStore.sweep_store now global overrides leader reg sessions) as Hs.
  rewrite InMemorySessionStore.sweep_unfold in *.
  destruct (InMemorySessionStore.sweep_evict _ reg sessions) as [n [reg' kept]] eqn:E. simpl in Hs.
  split.
  - intros sid e. rewrite Hs, map_lookup_filter_Some. simpl. f_equiv.
    unfold InMemorySessionStore.expired.
    destruct (Z.ltb_spec (InMemorySessionStore.effective_timeout global overrides e) 0); [intuition lia|].
    rewrite Z.ltb_ge. intuition lia.
  - by eapply InMemorySessionStore.sweep_evict_size.
Qed.

(** No double decrement.  A logout that lands between the two phases
    of a sweep, after the victims were collected and before they are
    evicted, leaves the counters exact: a victim the logout already removed
    is not decremented a second time. *)
Theorem sweep_logout_race_accounted f now global overrides sid reg (sessions : InMemorySessionStore.t) :
  counts (fun i => InMemorySessionStore.tracked sessions i + f i)%nat reg ->
  let victims := InMemorySessionStore.sweep_victims now global overrides sessions in
  let '(_, (reg1, sessions1)) := InMemorySessionStore.end_session sid reg sessions in
  let '(_, (reg2, sessions2)) := InMemorySessionStore.sweep_evict victims reg1 sessions1 in
  counts (fun i => InMemorySessionStore.tracked sessions2 i + f i)%nat reg2.
Proof.
  intros Hc victims. unfold InMemorySessionStore.end_session.
  assert (Hgo : forall reg1 s1, (forall k e, s1 !! k = Some e -> sessions !! k = Some e) ->
    counts (fun i => InMemorySessionStore.tracked s1 i + f i)%nat reg1 ->
    let '(_, (reg2, s2)) := InMemorySessionStore.sweep_evict victims reg1 s1 in
    counts (fun i => InMemorySessionStore.tracked s2 i + f i)%nat reg2).
  { intros reg1 s1 Hsub Hc1. destruct (InMemorySessionStore.sweep_evict victims reg1 s1) as [n [reg2 s2]] eqn:E.
    apply InMemorySessionStore.sweep_evict_spec in E as [(rids & _ & -> & Ht) _].
    - eapply counts_dec_each; [|exact Hc1]. intros i. simpl. specialize (Ht i). lia.
    - intros k rid e Hin He. eapply InMemorySessionStore.sweep_victims_agree; [exact Hin|by apply Hsub]. }
  destruct (sessions !! sid) as [e|] eqn:He; [|by apply Hgo].
  apply Hgo; [by intros k x [_ ?]%lookup_delete_Some|].
  change (Registry.dec_sessions (SessionEntry.replica_id e) reg) with (dec_each [SessionEntry.replica_id e] reg).
  eapply counts_dec_each; [|exact Hc]. intros i. simpl.
  pose proof (InMemorySessionStore.tracked_delete sessions sid e i He).
  rewrite InMemorySessionStore.occurrences_cons. unfold occurrences. simpl. lia.
Qed.

Lemma sweep_logout_race_accounted_witness :
  let sessions : InMemorySessionStore.t := {[7%N := SessionEntry.mk "a" 1%N 0]} in
  let reg := Registry.add (Replica.set_sessions_active 1 example_replica) Registry.empty in
  counts (fun i => InMemorySessionStore.tracked sessions i + 0)%nat reg
  /\ let victims := InMemorySessionStore.sweep_victims (from_secs 2) 1000 ∅ sessions in
     let '(_, (reg1, sessions1)) := InMemorySessionStore.end_session 7%N reg sessions in
     let '(_, (reg2, sessions2)) := InMemorySessionStore.sweep_evict victims reg1 sessions1 in
     counts (fun i => InMemorySessionStore.tracked sessions2 i + 0)%nat reg2.
Proof.
  intros sessions reg.
  assert (counts (fun i => InMemorySessionStore.tracked sessions i + 0)%nat reg) as Hc.
  { split.
    - apply Registry.wf_add; [apply Registry.wf_empty|]. vm_compute. reflexivity.
    - intros i r Hr. unfold reg in Hr. rewrite Registry.by_id_add in Hr; [|apply Registry.wf_empty|vm_compute; reflexivity].
      apply lookup_insert_Some in Hr as [[<- <-]|[_ Hr]]; [vm_compute; reflexivity|].
      by rewrite RegistryOps.by_id_empty, lookup_empty in Hr. }
  split; [exact Hc|]. exact (sweep_logout_race_accounted (fun _ => 0%nat) (from_secs 2) 1000 ∅ 7%N reg sessions Hc).
Defined.
End SessionProperties.
