(* ===== verification/RateLimit.v ===== *)
(** * Rate limiting (ruscker-admin: ratelimit.rs, auth.rs, mfa.rs)

    The three limiters of the program, all sliding windows of instants: the
    per-client limiter of API specs, the global limiter of failed logins, and
    the per-user limiter of MFA and re-authentication attempts.
    [Instant::now] is an argument of every operation. *)

From Stdlib Require Import ZArith Lia Sorted.
From stdpp Require Import base tactics list gmap strings fin_maps numbers.
From S2P Require Import Prelude Text Schema.

Local Open Scope string_scope.
Local Open Scope list_scope.
Local Open Scope Z_scope.

(** ** The window *)

(** The [while front aged out { pop_front }] loop. *)
Fixpoint prune (now window : Z) (q : list Z) : list Z :=
  match q with
  | t :: q' => if window <? duration_since now t then prune now window q' else q
  | [] => []
  end.

(** ** The API limiter *)

Module RateDecision.
Inductive t := Allow | Deny (retry_after_secs : Z).
#[global] Instance eq_dec : EqDecision t.
Proof. solve_decision. Defined.
End RateDecision.

Definition SWEEP_EVERY : Z := 1024.

Module ApiRateLimiter.
Record t := mk {
  windows : gmap (string * string) (list Z);
  max_window_ms : Z;
  since_sweep : Z }.

Definition new : t := mk ∅ 0 0.

Definition sweep_idle (now : Z) (l : t) : t :=
  let horizon := from_millis (max_window_ms l) in
  let recent (q : list Z) := match list.last q with
                             | Some t => duration_since now t <=? horizon
                             | None => false
                             end in
  mk (filter (fun kv => recent kv.2 = true) (windows l))
     (max_window_ms l) (since_sweep l).

(** The bookkeeping at the head of [check]. *)
Definition note_window (now : Z) (policy : RatePolicy.t) (l : t) : t :=
  let l := mk (windows l) (Z.max (max_window_ms l) (as_millis (RatePolicy.window policy))) (since_sweep l) in
  if SWEEP_EVERY <=? since_sweep l + 1
  then sweep_idle now (mk (windows l) (max_window_ms l) 0)
  else mk (windows l) (max_window_ms l) (since_sweep l + 1).

Definition retry_after (now : Z) (policy : RatePolicy.t) (q : list Z) : Z :=
  match q with
  | oldest :: _ => as_secs (saturating_sub (RatePolicy.window policy) (duration_since now oldest)) + 1
  | [] => 1
  end.

Definition check (now : Z) (spec_id client : string) (policy : RatePolicy.t) (l : t)
  : RateDecision.t * t :=
  let l := note_window now policy l in
  let q := prune now (RatePolicy.window policy) (default [] (windows l !! (spec_id, client))) in
  let set q := mk (<[(spec_id, client) := q]> (windows l)) (max_window_ms l) (since_sweep l) in
  if as_u32 (zlen q) <? RatePolicy.max policy
  then (RateDecision.Allow, set (q ++ [now]))
  else (RateDecision.Deny (retry_after now policy q), set q).
End ApiRateLimiter.

(** ** The login limiter *)

Module LoginRateLimiter.
Record t := mk { failures : list Z; max : nat; window : Z }.
Definition new (max : nat) (window : Z) : t := mk [] max window.
Definition default_policy : t := new 10 (from_secs 60).

Definition allow (now : Z) (l : t) : bool * t :=
  let q := prune now (window l) (failures l) in
  ((length q <? max l)%nat, mk q (max l) (window l)).

Definition record_failure (now : Z) (l : t) : t := mk (failures l ++ [now]) (max l) (window l).
Definition record_success (l : t) : t := mk [] (max l) (window l).
End LoginRateLimiter.

(** ** The confirmation limiter *)

Module ConfirmRateLimiter.
Record t := mk { failures : gmap string (list Z); max : nat; window : Z }.
Definition new (max : nat) (window : Z) : t := mk ∅ max window.

Definition try_reserve (now : Z) (username : string) (l : t) : bool * t :=
  let attempts := prune now (window l) (default [] (failures l !! username)) in
  let set q := mk (<[username := q]> (failures l)) (max l) (window l) in
  if (max l <=? length attempts)%nat then (false, set attempts) else (true, set (attempts ++ [now])).

Definition record_success (username : string) (l : t) : t :=
  mk (delete username (failures l)) (max l) (window l).

Definition CONFIRM_LIMITER : t := new 5 (from_secs 60).
Definition REAUTH_LIMITER : t := new 5 (from_secs 60).
Definition CHALLENGE_LIMITER : t := new 5 (from_secs 60).
End ConfirmRateLimiter.

(** ** The window, as a suffix of the history

    [A] is everything that was ever admitted, oldest first; the queue is its
    suffix, and what was cut off is out of the window. *)

Section Window.
Context (window : Z).

(** Admissions inside the closed interval of one window's length from [x]. *)
Definition in_window (x : Z) (u : Z) : bool := (x <=? u) && (u <=? x + window).
Definition admitted_within (x : Z) (A : list Z) : nat := length (List.filter (in_window x) A).

Definition aged (now u : Z) : Prop := window < now - u.

Record covers (now : Z) (A q : list Z) : Prop := {
  covers_suffix : exists P, A = P ++ q /\ Forall (aged now) P;
  covers_sorted : StronglySorted Z.le A;
  covers_past : Forall (fun u => u <= now) A }.

Lemma duration_since_aged now u : u <= now -> (window <? duration_since now u) = true <-> aged now u.
Proof. unfold duration_since, saturating_sub, aged. rewrite Z.ltb_lt. lia. Qed.

Lemma prune_split now q :
  Forall (fun u => u <= now) q ->
  exists P, q = P ++ prune now window q /\ Forall (aged now) P.
Proof.
  induction q as [|u q IH]; intros Hq; simpl; [by exists []|].
  inversion Hq; subst. destruct (window <? duration_since now u) eqn:E; [|by exists []].
  apply duration_since_aged in E; [|done]. destruct IH as (P & HP & Haged); [done|].
  exists (u :: P). rewrite HP at 1. auto.
Qed.

Lemma prune_length now q : (length (prune now window q) <= length q)%nat.
Proof. induction q as [|u q IH]; simpl; [done|]. destruct (_ <? _); simpl; lia. Qed.

Lemma prune_aged now q : Forall (fun u => u <= now) q -> Forall (aged now) q -> prune now window q = [].
Proof.
  induction q as [|u q IH]; intros Hq Ha; [done|]. inversion Hq; inversion Ha; subst. simpl.
  rewrite (proj2 (duration_since_aged now u ltac:(done))) by done. by apply IH.
Qed.

Lemma covers_nil now : covers now [] [].
Proof. split; [by exists []|constructor|constructor]. Qed.

Lemma aged_mono now now' u : now <= now' -> aged now u -> aged now' u.
Proof. unfold aged. lia. Qed.

Lemma covers_later now now' A q : now <= now' -> covers now A q -> covers now' A q.
Proof.
  intros Hle [(P & -> & HP) Hs Hpast]. split; [|done|].
  - exists P. split; [done|]. eapply Forall_impl; [|exact HP]. intros u. by apply aged_mono.
  - eapply Forall_impl; [|exact Hpast]. simpl. lia.
Qed.

Lemma covers_prune now now' A q :
  now <= now' -> covers now A q -> covers now' A (prune now' window q).
Proof.
  intros Hle [(P & -> & HP) Hs Hp].
  assert (Forall (fun u => u <= now') (P ++ q)) as Hp' by (eapply Forall_impl; [|exact Hp]; simpl; lia).
  split; [|done|done]. apply Forall_app in Hp' as [_ Hq].
  destruct (prune_split now' q Hq) as (P' & Hq' & HP'). exists (P ++ P').
  split; [by rewrite <- app_assoc, <- Hq'|]. apply Forall_app. split; [|done].
  eapply Forall_impl; [|exact HP]. intros u. by apply aged_mono.
Qed.

Lemma covers_forget now A q :
  covers now A q -> Forall (aged now) q -> covers now A [].
Proof.
  intros [(P & -> & HP) Hs Hp] Hq. split; [|done|done]. exists (P ++ q).
  rewrite app_nil_r. split; [done|]. by apply Forall_app.
Qed.

Lemma covers_push now A q : covers now A q -> covers now (A ++ [now]) (q ++ [now]).
Proof.
  intros [(P & -> & HP) Hs Hp]. split.
  - exists P. by rewrite <- app_assoc.
  - clear HP. induction (P ++ q) as [|u l IH]; simpl; [repeat constructor|].
    inversion Hs; inversion Hp; subst. constructor; [by apply IH|].
    apply Forall_app. split; [done|]. by constructor.
  - apply Forall_app. split; [done|]. by constructor.
Qed.

Lemma filter_aged_nil now x P :
  x + window >= now -> x <= now -> Forall (aged now) P -> List.filter (in_window x) P = [].
Proof.
  intros Hx Hx' HP. induction HP as [|u P Hu HP IH]; [done|]. simpl.
  unfold in_window. unfold aged in Hu. destruct (Z.leb_spec x u); [lia|]. by apply IH.
Qed.

(** The admission step keeps every interval of one window's length within
    the maximum. *)
Lemma push_within now A q n :
  covers now A q -> (length q < n)%nat ->
  (forall x, (admitted_within x A <= n)%nat) -> forall x, (admitted_within x (A ++ [now]) <= n)%nat.
Proof.
  intros [(P & -> & HP) _ _] Hlen Hall x. specialize (Hall x). unfold admitted_within in *.
  rewrite filter_app, length_app. simpl. destruct (in_window x now) eqn:E; simpl; [|lia].
  unfold in_window in E. bool_split. rewrite filter_app, (filter_aged_nil now) by (done || lia). simpl.
  pose proof (filter_length_le (in_window x) q). lia.
Qed.

Lemma last_aged now q u :
  StronglySorted Z.le q -> list.last q = Some u -> aged now u -> Forall (aged now) q.
Proof.
  intros Hs Hl Hu. apply last_Some in Hl as [q' ->]. apply Forall_app. split; [|by constructor].
  induction q' as [|v q' IH]; [constructor|]. simpl in Hs. inversion Hs as [|? ? Hs' Hv]; subst.
  constructor; [|by apply IH]. apply Forall_app in Hv as [_ Hv]. inversion Hv; subst. unfold aged in *. lia.
Qed.
End Window.

(** ** Runs of the API limiter *)

Module ApiRuns.
Import ApiRateLimiter.

Record request := mk_request { at_ : Z; spec : string; client : string; policy : RatePolicy.t }.

Definition key (r : request) : string * string := (spec r, client r).
Definition queue (k : string * string) (l : t) : list Z := default [] (windows l !! k).

(** One request; the first component collects the instants admitted for [k]. *)
Definition step (k : string * string) (st : list Z * t) (r : request) : list Z * t :=
  let '(A, l) := st in
  let '(d, l') := check (at_ r) (spec r) (client r) (policy r) l in
  (match d with
   | RateDecision.Allow => if decide (key r = k) then A ++ [at_ r] else A
   | RateDecision.Deny _ => A
   end, l').

Definition run (k : string * string) (rs : list request) : list Z * t := foldl (step k) ([], new) rs.

(** The clock does not run backwards. *)
Fixpoint clocked (now : Z) (rs : list request) : Prop :=
  match rs with [] => True | r :: rs' => now <= at_ r /\ clocked (at_ r) rs' end.

Definition last_clock (now : Z) (rs : list request) : Z := foldl (fun _ r => at_ r) now rs.

Lemma clocked_snoc now rs r :
  clocked now (rs ++ [r]) <-> clocked now rs /\ last_clock now rs <= at_ r.
Proof.
  revert now; induction rs as [|r' rs IH]; intros now; simpl; [tauto|]. rewrite IH. simpl. tauto.
Qed.

(** A policy as [parse_rate_limit] yields it: the window is a whole number
    of milliseconds and the maximum a positive [u32]. *)
Definition policy_ok (p : RatePolicy.t) : Prop :=
  0 < RatePolicy.max p <= u32_max
  /\ RatePolicy.window p = from_millis (as_millis (RatePolicy.window p))
  /\ 0 <= as_millis (RatePolicy.window p).

Section Run.
Context (k : string * string) (p : RatePolicy.t) (Hp : policy_ok p).

Let w : Z := RatePolicy.window p.
Let n : nat := Z.to_nat (RatePolicy.max p).

Record inv (now : Z) (A : list Z) (l : t) : Prop := {
  inv_covers : covers w now A (queue k l);
  inv_horizon : A <> [] -> w <= from_millis (max_window_ms l);
  inv_length : (length (queue k l) <= n)%nat;
  inv_within : forall x, (admitted_within w x A <= n)%nat }.

(** The bookkeeping keeps a queue or, when it has aged out, forgets it. *)
Lemma queue_note_window now pol l :
  queue k (note_window now pol l) = queue k l
  \/ queue k (note_window now pol l) = []
     /\ exists u, list.last (queue k l) = Some u
        /\ from_millis (max_window_ms (note_window now pol l)) < duration_since now u.
Proof.
  unfold note_window. destruct (SWEEP_EVERY <=? _); [|by left].
  unfold queue, sweep_idle. simpl. rewrite map_lookup_filter.
  destruct (windows l !! k) as [q|] eqn:E; simpl; [|by left].
  case_guard as Hg; [by left|]. destruct (list.last q) as [u|] eqn:Hl.
  - right. simpl. split; [done|]. exists u. split; [done|]. apply not_true_is_false in Hg. bool_split. lia.
  - simpl. apply last_None in Hl as ->. by left.
Qed.

Lemma note_window_horizon now pol l :
  max_window_ms (note_window now pol l) = Z.max (max_window_ms l) (as_millis (RatePolicy.window pol)).
Proof. unfold note_window, sweep_idle. by destruct (SWEEP_EVERY <=? _). Qed.

Lemma inv_note_window now now' pol A l :
  now <= now' -> inv now A l -> inv now' A (note_window now' pol l).
Proof.
  intros Hle [Hc Hh Hlen Hw].
  assert (Hh' : A <> [] -> w <= from_millis (max_window_ms (note_window now' pol l))).
  { intros HA. specialize (Hh HA). rewrite note_window_horizon. unfold from_millis in *. lia. }
  destruct (queue_note_window now' pol l) as [Hq|(Hq & u & Hu & Hage)].
  - split; rewrite ?Hq; [by eapply covers_later|done|done|done].
  - split; rewrite ?Hq; simpl; [|done|lia|done].
    apply (covers_later w now now') in Hc; [|done]. eapply covers_forget; [exact Hc|].
    destruct Hc as [(P & HA & _) Hs Hpast].
    assert (A <> []) as Hne.
    { subst A. destruct (queue k l); [done|]. by destruct P. }
    specialize (Hh' Hne). subst A.
    eapply last_aged; [|exact Hu|].
    + clear -Hs. induction P as [|v P IH]; [done|]. inversion Hs; subst. by apply IH.
    + apply Forall_app in Hpast as [_ Hpast]. rewrite Forall_forall in Hpast.
      assert (u <= now') by (apply Hpast, list_elem_of_In; apply last_Some in Hu as [q' ->]; set_solver).
      unfold aged. unfold duration_since, saturating_sub in Hage. lia.
Qed.

Lemma inv_step now A l r :
  inv now A l -> now <= at_ r -> (key r = k -> policy r = p) ->
  inv (at_ r) (step k (A, l) r).1 (step k (A, l) r).2.
Proof.
  intros Hinv Hle Hpol. apply (inv_note_window now (at_ r) (policy r)) in Hinv; [|done].
  pose proof (note_window_horizon (at_ r) (policy r) l) as Hmax.
  unfold step, check. set (l1 := note_window (at_ r) (policy r) l) in *.
  change (default [] (windows l1 !! (spec r, client r))) with (queue (key r) l1). remember (prune _ _ _) as q eqn:Hq. clearbody l1.
  destruct Hinv as [Hc Hh Hlen Hw].
  destruct (decide (key r = k)) as [Hk|Hk].
  - rewrite (Hpol Hk) in *. rewrite Hk in Hq.
    assert (covers w (at_ r) A q) as Hcq by (rewrite Hq; eapply covers_prune; [reflexivity|exact Hc]).
    assert ((length q <= n)%nat) as Hlq by (pose proof (prune_length w (at_ r) (queue k l1)) as Hpl; fold w in Hq; rewrite <- Hq in Hpl; lia).
    destruct Hp as ([Hmax0 Hmax32] & Hwin & Hms).
    assert (as_u32 (zlen q) = zlen q) as Hu32.
    { unfold as_u32. apply Z.mod_small. unfold zlen, u32_max in *. lia. }
    rewrite Hu32. destruct (Z.ltb_spec (zlen q) (RatePolicy.max p)) as [Hlt|Hge]; simpl.
    + assert ((length q < n)%nat) as Hlt' by (unfold zlen in Hlt; unfold n; lia).
      split; unfold queue; simpl; change (spec r, client r) with (key r); rewrite ?Hk, ?lookup_insert_eq; simpl.
      * by apply covers_push.
      * intros _. rewrite Hmax. unfold w. rewrite Hwin at 1. unfold from_millis. lia.
      * rewrite length_app. simpl. lia.
      * by eapply push_within.
    + split; unfold queue; simpl; change (spec r, client r) with (key r); rewrite ?Hk, ?lookup_insert_eq; done.
  - assert (forall qs, default [] (<[(spec r, client r) := qs]> (windows l1) !! k) = queue k l1) as Hother.
    { intros qs. rewrite lookup_insert_ne by done. done. }
    destruct (_ <? _); simpl; (split; unfold queue; simpl; rewrite ?Hother; done).
Qed.

Lemma inv_run now A l rs :
  inv now A l -> clocked now rs -> (forall r, r ∈ rs -> key r = k -> policy r = p) ->
  inv (last_clock now rs) (foldl (step k) (A, l) rs).1 (foldl (step k) (A, l) rs).2.
Proof.
  revert now A l; induction rs as [|r rs IH]; intros now A l Hinv; cbn [foldl clocked]; [done|].
  intros [Hle Hclk] Hpol. rewrite (surjective_pairing (step k (A, l) r)).
  unfold last_clock. cbn [foldl]. apply (IH (at_ r)).
  - apply (inv_step now); [done|done|]. apply Hpol. set_solver.
  - done.
  - intros r' Hr'. apply Hpol. set_solver.
Qed.

Lemma inv_new now : inv now [] new.
Proof.
  split; unfold queue; simpl; rewrite ?lookup_empty; simpl; [apply covers_nil|done|lia|].
  intros x. unfold admitted_within. simpl. lia.
Qed.

End Run.
End ApiRuns.

(** ** Properties *)

Module RateLimitProperties.
Import ApiRateLimiter ApiRuns.

Definition nonempty_clock (rs : list request) : Z := match rs with [] => 0 | r :: _ => at_ r end.

Lemma run_inv k p rs :
  policy_ok p -> clocked (nonempty_clock rs) rs -> (forall r, r ∈ rs -> key r = k -> policy r = p) ->
  inv k p (last_clock (nonempty_clock rs) rs) (run k rs).1 (run k rs).2.
Proof. intros Hp Hc Hr. by apply inv_run; [|apply inv_new| |]. Qed.

(** A full queue has room again once its oldest entry has aged out. *)
Lemma prune_room now window q u :
  list.head q = Some u -> window < duration_since now u -> (length (prune now window q) < length q)%nat.
Proof.
  destruct q as [|v q]; simpl; [done|]. intros [= ->] Hlt%Z.ltb_lt. rewrite Hlt.
  pose proof (prune_length window now q). lia.
Qed.

Lemma retry_after_ages now later window u r :
  u <= now -> 0 <= window -> r = as_secs (saturating_sub window (duration_since now u)) + 1 ->
  now + from_secs r <= later ->
  1 <= r <= as_secs window + 1 /\ window < duration_since later u.
Proof.
  unfold as_secs, duration_since, saturating_sub, from_secs. intros Hu Hw -> Hl.
  assert (Hmono : Z.max 0 (window - Z.max 0 (now - u)) / 1000000000 <= window / 1000000000)
    by (apply Z.div_le_mono; lia).
  pose proof (Z.div_pos (Z.max 0 (window - Z.max 0 (now - u))) 1000000000).
  pose proof (Z.mod_pos_bound (Z.max 0 (window - Z.max 0 (now - u))) 1000000000).
  pose proof (Z.div_mod (Z.max 0 (window - Z.max 0 (now - u))) 1000000000). lia.
Qed.

(** The API rate limit holds.  In every run of the limiter over a
    clock that does not go backwards, requests of other clients and apps,
    other policies and idle sweeps interleaved at will, no closed interval
    of one window's length contains more than [max] admitted requests of one
    client to one app. *)
Theorem api_rate_limit_holds k p rs x :
  policy_ok p -> clocked (nonempty_clock rs) rs -> (forall r, r ∈ rs -> key r = k -> policy r = p) ->
  Z.of_nat (admitted_within (RatePolicy.window p) x (run k rs).1) <= RatePolicy.max p.
Proof.
  intros Hp Hc Hr. destruct (run_inv k p rs Hp Hc Hr) as [_ _ _ Hw].
  specialize (Hw x). destruct Hp as ([? _] & _). lia.
Qed.

Definition two_per_sec : RatePolicy.t := RatePolicy.mk 2 (from_secs 1).
Definition burst : list request :=
  map (fun ms => mk_request (from_millis ms) "a" "10.0.0.1" two_per_sec) [0; 100; 200; 1050; 1101].

Lemma api_rate_limit_holds_witness :
  policy_ok two_per_sec /\ (run ("a", "10.0.0.1") burst).1 = map from_millis [0; 100; 1050; 1101]
  /\ Z.of_nat (admitted_within (from_secs 1) (from_millis 100) (run ("a", "10.0.0.1") burst).1) <= 2.
Proof.
  assert (policy_ok two_per_sec) as Hp by (repeat split; vm_compute; congruence).
  split; [exact Hp|]. split; [vm_compute; reflexivity|].
  apply (api_rate_limit_holds ("a", "10.0.0.1") two_per_sec burst (from_millis 100) Hp).
  - vm_compute. repeat split; congruence.
  - intros r Hr _. unfold burst in Hr. apply list_elem_of_fmap in Hr as (ms & -> & _). reflexivity.
Defined.

(** [Retry-After] is honest.  Whenever the limiter denies a request,
    the number of seconds it reports is at least one and at most one more
    than the window, and the same client's next request is admitted if it
    waits that long. *)
Theorem api_retry_after_sufficient k p rs now later r l' :
  policy_ok p -> clocked (nonempty_clock rs) (rs ++ [mk_request now (fst k) (snd k) p]) ->
  (forall r, r ∈ rs -> key r = k -> policy r = p) ->
  check now (fst k) (snd k) p (run k rs).2 = (RateDecision.Deny r, l') ->
  now + from_secs r <= later ->
  1 <= r <= as_secs (RatePolicy.window p) + 1
  /\ (check later (fst k) (snd k) p l').1 = RateDecision.Allow.
Proof.
  intros Hp [Hc Hnow]%clocked_snoc Hr Hcheck Hlater. simpl in Hnow.
  pose proof (run_inv k p rs Hp Hc Hr) as Hinv.
  apply (inv_note_window k p Hp _ now p _ _ Hnow) in Hinv.
  unfold check in Hcheck. set (l1 := note_window now p _) in *.
  rewrite <- (surjective_pairing k) in Hcheck. fold (queue k l1) in Hcheck.
  destruct Hinv as [Hcov _ Hlen _]. destruct Hp as ([Hmax0 Hmax32] & Hwin & Hms).
  assert (0 <= RatePolicy.window p) as Hw0 by (rewrite Hwin; unfold from_millis; lia).
  apply (covers_prune _ now now) in Hcov; [|reflexivity].
  pose proof (prune_length (RatePolicy.window p) now (queue k l1)) as Hpl.
  remember (prune now (RatePolicy.window p) (queue k l1)) as q eqn:Hq.
  assert (Hu32 : forall m, (m <= Z.to_nat (RatePolicy.max p))%nat -> as_u32 (Z.of_nat m) = Z.of_nat m).
  { intros m Hm. unfold as_u32. apply Z.mod_small. unfold u32_max in *. lia. }
  unfold zlen in Hcheck. rewrite Hu32 in Hcheck by lia.
  destruct (Z.ltb_spec (Z.of_nat (length q)) (RatePolicy.max p)) as [|Hge]; [done|].
  injection Hcheck as Hretry Hl'. destruct q as [|u q]; [simpl in Hge; lia|].
  destruct Hcov as [(P & HA & _) _ Hpast]. rewrite HA in Hpast. apply Forall_app in Hpast as [_ Hpast].
  inversion Hpast as [|? ? Hu _]; subst x l.
  destruct (retry_after_ages now later (RatePolicy.window p) u r Hu Hw0 (eq_sym Hretry) Hlater) as [Hbounds Hage].
  split; [done|]. unfold check. set (l2 := note_window later p l').
  rewrite <- (surjective_pairing k). fold (queue k l2).
  assert (queue k l' = u :: q) as Hq' by (unfold queue; subst l'; simpl; by rewrite lookup_insert_eq).
  assert ((length (prune later (RatePolicy.window p) (queue k l2)) < Z.to_nat (RatePolicy.max p))%nat) as Hroom.
  { destruct (queue_note_window k p later p l') as [Hql|(Hql & _)]; fold l2 in Hql; rewrite Hql; [|simpl; lia].
    pose proof (prune_room later (RatePolicy.window p) (u :: q) u eq_refl Hage). rewrite Hq'. simpl in *. lia. }
  unfold zlen. rewrite Hu32 by lia.
  by rewrite (proj2 (Z.ltb_lt _ _)) by lia.
Qed.

Lemma api_retry_after_sufficient_witness :
  let l := (run ("a", "10.0.0.1") (firstn 2 burst)).2 in
  let d := check (from_millis 200) "a" "10.0.0.1" two_per_sec l in
  d.1 = RateDecision.Deny 1
  /\ (1 <= 1 <= 2 /\ (check (from_millis 1200) "a" "10.0.0.1" two_per_sec d.2).1 = RateDecision.Allow).
Proof.
  intros l d. assert (d.1 = RateDecision.Deny 1) as Hd by (vm_compute; reflexivity). split; [exact Hd|].
  apply (api_retry_after_sufficient ("a", "10.0.0.1") two_per_sec (firstn 2 burst) (from_millis 200) (from_millis 1200) 1 d.2).
  - repeat split; vm_compute; congruence.
  - vm_compute. repeat split; congruence.
  - intros r Hr _. vm_compute in Hr. apply list_elem_of_In in Hr. simpl in Hr.
    destruct Hr as [<-|[<-|[]]]; reflexivity.
  - unfold d. vm_compute. reflexivity.
  - vm_compute. congruence.
Defined.
End RateLimitProperties.

(** ** Runs of the confirmation limiter *)

Module ConfirmRuns.
Import ConfirmRateLimiter.

Inductive event := Try (now : Z) (username : string) | Success (username : string).

(** The attempts of [user] granted since that user's last success, with the
    limiter. *)
Definition step (user : string) (st : list Z * t) (e : event) : list Z * t :=
  let '(A, l) := st in
  match e with
  | Try now u =>
    let '(granted, l') := try_reserve now u l in
    (if granted && str_eqb u user then A ++ [now] else A, l')
  | Success u => (if str_eqb u user then [] else A, record_success u l)
  end.

Fixpoint clocked (now : Z) (es : list event) : Prop :=
  match es with
  | [] => True
  | Try t _ :: es' => now <= t /\ clocked t es'
  | Success _ :: es' => clocked now es'
  end.

Record inv (user : string) (max : nat) (window now : Z) (A : list Z) (l : t) : Prop := {
  inv_max : ConfirmRateLimiter.max l = max;
  inv_window : ConfirmRateLimiter.window l = window;
  inv_covers : covers window now A (default [] (failures l !! user));
  inv_within : forall x, (admitted_within window x A <= max)%nat }.

Lemma confirm_inv_step user max window now A l e now' :
  inv user max window now A l ->
  match e with Try t _ => now' = t /\ now <= t | Success _ => now' = now end ->
  inv user max window now' (step user (A, l) e).1 (step user (A, l) e).2.
Proof.
  intros [<- <- Hc Hw] He. destruct e as [t u|u]; simpl.
  - destruct He as [-> Hle]. unfold try_reserve.
    set (q := prune t (ConfirmRateLimiter.window l) (default [] (failures l !! u))).
    destruct (str_eqb_spec u user) as [->|Hne].
    + assert (covers (ConfirmRateLimiter.window l) t A q) as Hq by (eapply covers_prune; eauto).
      destruct (Nat.leb_spec (ConfirmRateLimiter.max l) (length q)); split; simpl;
        rewrite ?lookup_insert_eq; try done; [by apply covers_push|by eapply push_within].
    + assert (covers (ConfirmRateLimiter.window l) t A (default [] (failures l !! user))) as Hq by (by eapply covers_later).
      destruct (_ <=? _)%nat; split; simpl; rewrite ?lookup_insert_ne by done; done.
  - subst now'. destruct (str_eqb_spec u user) as [->|Hne]; split; simpl; try done.
    + rewrite lookup_delete_eq. apply covers_nil.
    + intros x. unfold admitted_within. simpl. lia.
    + by rewrite lookup_delete_ne.
Qed.

Lemma confirm_inv_run user max window now A l es :
  inv user max window now A l -> clocked now es ->
  exists now', inv user max window now' (foldl (step user) (A, l) es).1 (foldl (step user) (A, l) es).2.
Proof.
  revert now A l; induction es as [|e es IH]; intros now A l Hi Hc; cbn [foldl]; [eauto|].
  rewrite (surjective_pairing (step user (A, l) e)). destruct e as [t u|u]; cbn [clocked] in Hc.
  - apply (IH t); [|tauto]. apply (confirm_inv_step _ _ _ now); [done|]. tauto.
  - apply (IH now); [|done]. by apply (confirm_inv_step _ _ _ now).
Qed.

(** Guessing is bounded.  Whatever the other users do, one user's
    attempts at a password re-entry, an enrolment code or an MFA challenge
    that are let through to verification since that user's last success
    never exceed [max] within any closed window of time. *)
Theorem confirm_attempts_bounded user max window now es x :
  clocked now es ->
  (admitted_within window x (foldl (step user) ([], new max window) es).1 <= max)%nat.
Proof.
  intros Hc. destruct (confirm_inv_run user max window now [] (new max window) es) as [now' [_ _ _ Hw]]; [|done|apply Hw].
  split; simpl; [done|done|rewrite lookup_empty; apply covers_nil|].
  intros y. unfold admitted_within. simpl. lia.
Qed.

Lemma confirm_attempts_bounded_witness :
  let es := map (fun s => Try (from_secs s) "eve") [0; 1; 2; 3; 4; 5; 6; 61] in
  clocked 0 es
  /\ (foldl (step "eve") ([], CHALLENGE_LIMITER) es).1 = map from_secs [0; 1; 2; 3; 4; 61]
  /\ (admitted_within (from_secs 60) 0 (foldl (step "eve") ([], CHALLENGE_LIMITER) es).1 <= 5)%nat.
Proof.
  intros es. assert (clocked 0 es) as Hc by (vm_compute; repeat split; congruence).
  split; [exact Hc|]. split; [vm_compute; reflexivity|].
  exact (confirm_attempts_bounded "eve" 5 (from_secs 60) 0 es 0 Hc).
Defined.
End ConfirmRuns.
