(* ===== verification/Counters.v ===== *)
(** * Counters: buffered analytics and alerts
    (ruscker-admin: access_counter.rs, alerts.rs, activity.rs)

    The in-memory access counter and its drain task, the alert sink with its
    cooldown, and the activity sink.  The database write of one bucket and
    the clock are arguments.  A flush awaits the database between two of its
    own critical sections, so the flush is modelled by its atomic pieces
    (take the buffer, write one bucket, merge the rest back) as well as by
    their uninterrupted composition. *)

From Stdlib Require Import ZArith Lia.
From stdpp Require Import base tactics list gmap strings fin_maps numbers.
From S2P Require Import Prelude Text.

Local Open Scope string_scope.
Local Open Scope list_scope.
Local Open Scope Z_scope.

(** ** The access counter *)

Module AccessCounter.
Abbreviation bucket := (string * string)%type.

Record t := mk { pending : gmap bucket Z; dropped : Z; flush_failures : Z }.
Definition new : t := mk ∅ 0 0.

Definition MAX_PENDING_KEYS : nat := 4096.
Definition FLUSH_INTERVAL : Z := from_secs 2.
Definition MAX_BACKOFF : Z := from_secs 60.

(** [today] is the current day. *)
Definition bump (today spec_id : string) (c : t) : t :=
  let key := (spec_id, today) in
  if (MAX_PENDING_KEYS <=? size (pending c))%nat && bool_decide (pending c !! key = None)
  then mk (pending c) (dropped c + 1) (flush_failures c)
  else mk (<[key := default 0 (pending c !! key) + 1]> (pending c)) (dropped c) (flush_failures c).

(** [mem::take] of the buffer. *)
Definition take (c : t) : list (bucket * Z) * t :=
  (map_to_list (pending c), mk ∅ (dropped c) (flush_failures c)).

Definition merge_back (deltas : list (bucket * Z)) (c : t) : t :=
  mk (foldl (fun m '(key, delta) => <[key := default 0 (m !! key) + delta]> m) (pending c) deltas)
     (dropped c) (flush_failures c).

Definition flush_failed (rest : list (bucket * Z)) (c : t) : t :=
  let c := merge_back rest c in mk (pending c) (dropped c) (flush_failures c + 1).

(** [flush] without interleaving; the database is a state [Db] and
    [record_delta] its upsert, which fails or adds the delta. *)
Section Flush.
Context {Db E : Type} (record_delta : bucket -> Z -> Db -> Result Db E).

Fixpoint write_all (entries : list (bucket * Z)) (db : Db) : Db * option (E * list (bucket * Z)) :=
  match entries with
  | [] => (db, None)
  | (key, delta) :: rest =>
    match record_delta key delta db with
    | Err e => (db, Some (e, (key, delta) :: rest))
    | Ok db' => write_all rest db'
    end
  end.

Definition flush (c : t) (db : Db) : Result nat E * (t * Db) :=
  let '(entries, c) := take c in
  match entries with
  | [] => (Ok 0%nat, (c, db))
  | _ =>
    match write_all entries db with
    | (db', None) => (Ok (length entries), (c, db'))
    | (db', Some (e, rest)) => (Err e, (flush_failed rest c, db'))
    end
  end.

(** One turn of the drain task: the next pause, and the state. *)
Definition drain_turn (wait : Z) (c : t) (db : Db) : Z * (t * Db) :=
  match flush c db with
  | (Ok _, st) => (FLUSH_INTERVAL, st)
  | (Err _, st) => (Z.min (wait * 2) MAX_BACKOFF, st)
  end.
End Flush.

Definition backlog (c : t) : nat := size (pending c).

(** The process and the flush in flight, step by step.  [written] is what
    the database holds, [hits] what the proxy counted. *)
Record system := mk_system {
  counter : t;
  in_flight : option (list (bucket * Z));
  written : bucket -> Z;
  hits : bucket -> Z;
  hits_dropped : Z }.

Inductive event := Bump (today spec_id : string) | BeginFlush | Write (succeeds : bool).

Definition add_at (f : bucket -> Z) (key : bucket) (d : Z) : bucket -> Z :=
  fun k => if decide (k = key) then f k + d else f k.

Definition step (e : event) (s : system) : system :=
  let 'mk_system c fl w h hd := s in
  match e with
  | Bump today spec_id =>
    let c' := bump today spec_id c in
    if dropped c' =? dropped c
    then mk_system c' fl w (add_at h (spec_id, today) 1) hd
    else mk_system c' fl w h (hd + 1)
  | BeginFlush =>
    match fl with
    | Some _ => s
    | None => let '(entries, c') := take c in mk_system c' (Some entries) w h hd
    end
  | Write succeeds =>
    match fl with
    | None => s
    | Some [] => mk_system c None w h hd
    | Some ((key, delta) :: rest) =>
      if succeeds then mk_system c (Some rest) (add_at w key delta) h hd
      else mk_system (flush_failed ((key, delta) :: rest) c) None w h hd
    end
  end.

(** The deltas of one bucket in a list of entries. *)
Fixpoint delta_of (key : bucket) (l : list (bucket * Z)) : Z :=
  match l with
  | [] => 0
  | (k, d) :: l' => (if decide (k = key) then d else 0) + delta_of key l'
  end.

Lemma delta_of_map (m : gmap bucket Z) key : delta_of key (map_to_list m) = default 0 (m !! key).
Proof.
  assert (Hp : forall l l' : list (bucket * Z), l ≡ₚ l' -> delta_of key l = delta_of key l').
  { induction 1 as [|[k d] l l' _ IH|[k d] [k' d'] l|]; simpl; lia. }
  induction m as [|k d m Hk IH] using map_ind; [by rewrite map_to_list_empty, lookup_empty|].
  rewrite (Hp _ _ (map_to_list_insert m k d Hk)). simpl. rewrite IH, lookup_insert.
  case_decide; [|simpl; lia]. subst. rewrite Hk. simpl. lia.
Qed.

Lemma merge_back_lookup deltas c key :
  default 0 (pending (merge_back deltas c) !! key) = default 0 (pending c !! key) + delta_of key deltas.
Proof.
  unfold merge_back. simpl. generalize (pending c) as m.
  induction deltas as [|[k d] l IH]; intros m; simpl; [lia|]. rewrite IH, lookup_insert.
  case_decide; subst; simpl; lia.
Qed.

Definition in_flight_delta (s : system) (key : bucket) : Z :=
  match in_flight s with Some l => delta_of key l | None => 0 end.

Record conserved (s : system) : Prop := {
  conserved_hits : forall key,
    hits s key = written s key + in_flight_delta s key + default 0 (pending (counter s) !! key);
  conserved_dropped : dropped (counter s) = hits_dropped s }.

Lemma step_conserved e s : conserved s -> conserved (step e s).
Proof.
  destruct s as [c fl w h hd]. intros [Hh Hd]. simpl in *. unfold in_flight_delta in *. simpl in *.
  destruct e as [today spec_id| |succeeds]; simpl.
  - unfold bump. destruct (_ && _); simpl.
    + rewrite (proj2 (Z.eqb_neq _ _)) by lia. split; simpl; [exact Hh|lia].
    + rewrite Z.eqb_refl. split; simpl; [|done]. intros key. unfold add_at. rewrite lookup_insert.
      specialize (Hh key). unfold in_flight_delta. simpl. repeat case_decide; subst; simpl in *; try done; lia.
  - destruct fl as [l|]; [by split|]. split; simpl; [|done]. intros key. specialize (Hh key).
    unfold in_flight_delta. simpl. rewrite delta_of_map, lookup_empty. simpl. lia.
  - destruct fl as [[|[key delta] rest]|]; [| |by split].
    + by split.
    + destruct succeeds; split; simpl; try done; intros k; specialize (Hh k); unfold in_flight_delta; simpl.
      * unfold add_at. simpl in Hh. repeat case_decide; subst; try done; lia.
      * pose proof (merge_back_lookup ((key, delta) :: rest) c k) as Hm. simpl in Hm, Hh. rewrite Hm. lia.
Qed.
End AccessCounter.

(** ** Alerts *)

Module AlertKind.
Inductive t := SpawnFailed | ReplicaDown | Saturated | JobFailed | Test.
#[global] Instance eq_dec : EqDecision t.
Proof. solve_decision. Defined.
#[global] Instance countable : Countable t.
Proof.
  refine (inj_countable' (fun k => match k with
    | SpawnFailed => 0 | ReplicaDown => 1 | Saturated => 2 | JobFailed => 3 | Test => 4 end)%nat
    (fun n => match n with
    | 0 => SpawnFailed | 1 => ReplicaDown | 2 => Saturated | 3 => JobFailed | _ => Test end)%nat _).
  by intros [].
Defined.
Definition as_str (k : t) : string :=
  match k with
  | SpawnFailed => "spawn-failed"
  | ReplicaDown => "replica-down"
  | Saturated => "saturated"
  | JobFailed => "job-failed"
  | Test => "test"
  end.
End AlertKind.

Module AlertEvent.
Record t := mk { kind : AlertKind.t; spec : string; replica : option string; message : string }.
End AlertEvent.

Module AlertSink.
(** The bounded channel and the last-sent instants. *)
Record t := mk { queue : list AlertEvent.t; recent : gmap (AlertKind.t * string) Z }.
Definition new : t := mk [] ∅.

Definition ALERT_COOLDOWN : Z := from_secs (15 * 60).
Definition QUEUE_DEPTH : nat := 64.

Definition try_send (event : AlertEvent.t) (s : t) : bool * t :=
  if (length (queue s) <? QUEUE_DEPTH)%nat then (true, mk (queue s ++ [event]) (recent s)) else (false, s).

Definition cooling (now : Z) (last : option Z) : bool :=
  match last with Some t => duration_since now t <? ALERT_COOLDOWN | None => false end.

Definition notify (now : Z) (event : AlertEvent.t) (s : t) : bool * t :=
  if decide (AlertEvent.kind event = AlertKind.Test) then try_send event s
  else
    let key := (AlertEvent.kind event, AlertEvent.spec event) in
    if cooling now (recent s !! key) then (false, s)
    else
      let recent' := filter (fun kv => duration_since now kv.2 < ALERT_COOLDOWN) (<[key := now]> (recent s)) in
      try_send event (mk (queue s) recent').

(** The sender task takes the oldest event. *)
Definition recv (s : t) : option AlertEvent.t * t :=
  match queue s with [] => (None, s) | e :: q => (Some e, mk q (recent s)) end.

Inductive action := Notify (now : Z) (event : AlertEvent.t) | Recv.

(** The instants at which alerts of a key were queued, oldest first. *)
Definition step (key : AlertKind.t * string) (st : list Z * t) (a : action) : list Z * t :=
  let '(sent, s) := st in
  match a with
  | Notify now event =>
    let '(queued, s') := notify now event s in
    (if queued && bool_decide ((AlertEvent.kind event, AlertEvent.spec event) = key) then sent ++ [now] else sent, s')
  | Recv => (sent, (recv s).2)
  end.

Fixpoint clocked (now : Z) (l : list action) : Prop :=
  match l with
  | [] => True
  | Notify t _ :: l' => now <= t /\ clocked t l'
  | Recv :: l' => clocked now l'
  end.

(** Consecutive instants at least a cooldown apart. *)
Fixpoint spaced (l : list Z) : Prop :=
  match l with
  | a :: ((b :: _) as l') => ALERT_COOLDOWN <= b - a /\ spaced l'
  | _ => True
  end.

Lemma spaced_snoc l x :
  spaced l -> (forall y, list.last l = Some y -> ALERT_COOLDOWN <= x - y) -> spaced (l ++ [x]).
Proof.
  induction l as [|a [|b l] IH]; intros Hs Hx; simpl; [done| |].
  - split; [by apply Hx|done].
  - destruct Hs as [Hab Hs]. split; [done|]. apply IH; [done|]. intros y Hy. by apply Hx.
Qed.

(** The last queued instant of a key is remembered for as long as it cools. *)
Record inv (key : AlertKind.t * string) (now : Z) (sent : list Z) (s : t) : Prop := {
  inv_spaced : spaced sent;
  inv_last : forall y, list.last sent = Some y ->
    y <= now /\ (now - y < ALERT_COOLDOWN -> exists y', recent s !! key = Some y' /\ y <= y');
  inv_recent : forall k y, recent s !! k = Some y -> y <= now }.

Lemma try_send_recent event s : recent (try_send event s).2 = recent s.
Proof. unfold try_send. by destruct (_ <? _)%nat. Qed.

Lemma inv_later key now now' sent s : now <= now' -> inv key now sent s -> inv key now' sent s.
Proof.
  intros Hle [Hs Hl Hr]. split; [done| |].
  - intros y [Hy Hc]%Hl. split; [lia|]. intros Hlt. apply Hc. lia.
  - intros k y Hk%Hr. lia.
Qed.

Lemma inv_notify key now sent s event :
  fst key <> AlertKind.Test -> inv key now sent s ->
  inv key now (step key (sent, s) (Notify now event)).1 (step key (sent, s) (Notify now event)).2.
Proof.
  intros Htest [Hs Hl Hr]. cbn [step]. unfold notify.
  destruct (decide (AlertEvent.kind event = AlertKind.Test)) as [Ht|Ht].
  - rewrite (surjective_pairing (try_send event s)). simpl.
    rewrite (bool_decide_eq_false_2 (_ = key)) by (intros <-; done). rewrite andb_false_r.
    by split; rewrite ?try_send_recent.
  - set (ekey := (AlertEvent.kind event, AlertEvent.spec event)).
    destruct (cooling now (recent s !! ekey)) eqn:Hc; [by split|].
    set (r' := filter _ _). rewrite (surjective_pairing (try_send event _)). simpl.
    assert (Hnow : r' !! ekey = Some now).
    { apply map_lookup_filter_Some. split; [apply lookup_insert_eq|].
      cbn [snd]. unfold duration_since, saturating_sub, ALERT_COOLDOWN, from_secs. lia. }
    assert (Hrec : forall k y, r' !! k = Some y -> y <= now).
    { intros k y [[[<- <-]|[_ Hk]]%lookup_insert_Some _]%map_lookup_filter_Some; [lia|by eapply Hr]. }
    destruct (try_send event (mk (queue s) r')) as [queued s'] eqn:E. simpl.
    assert (recent s' = r') as Hs' by (change s' with (queued, s').2; rewrite <- E; apply try_send_recent).
    destruct (decide (ekey = key)) as [Hk|Hk].
    + rewrite (bool_decide_eq_true_2 _ Hk), andb_true_r.
      assert (Hsp : forall y, list.last sent = Some y -> ALERT_COOLDOWN <= now - y).
      { intros y [Hy Hcool]%Hl. destruct (Z.lt_ge_cases (now - y) ALERT_COOLDOWN) as [Hlt|]; [|done].
        destruct (Hcool Hlt) as (y' & Hy' & Hyy'). rewrite Hk, Hy' in Hc. simpl in Hc. bool_split.
        pose proof (Hr _ _ Hy'). unfold duration_since, saturating_sub in Hc. lia. }
      destruct queued; split; rewrite ?Hs'; try done.
      * by apply spaced_snoc.
      * intros y. rewrite last_snoc. intros [= <-]. split; [lia|]. intros _. exists now.
        rewrite <- Hk. split; [done|lia].
      * intros y Hy. destruct (Hl y Hy) as [Hyn _]. split; [done|]. specialize (Hsp y Hy). lia.
    + rewrite (bool_decide_eq_false_2 _ Hk), andb_false_r. split; rewrite ?Hs'; try done.
      intros y Hy. destruct (Hl y Hy) as [Hyn Hcool]. split; [done|]. intros Hlt.
      destruct (Hcool Hlt) as (y' & Hy' & Hyy'). exists y'. split; [|done].
      apply map_lookup_filter_Some. split; [by rewrite lookup_insert_ne|]. simpl.
      pose proof (Hr _ _ Hy'). unfold duration_since, saturating_sub. lia.
Qed.
End AlertSink.

(** ** User activity *)

Module ActivitySink.
Section Sink.
Context {Event : Type}.
Record t := mk { queue : list Event; dropped : Z }.
Definition QUEUE_DEPTH : nat := 1024.
Definition BATCH_MAX : nat := 256.

Definition record (event : Event) (s : t) : t :=
  if (length (queue s) <? QUEUE_DEPTH)%nat then mk (queue s ++ [event]) (dropped s)
  else mk (queue s) (dropped s + 1).

(** [recv_many]: up to a batch of the oldest events. *)
Definition recv_many (s : t) : list Event * t :=
  (firstn BATCH_MAX (queue s), mk (skipn BATCH_MAX (queue s)) (dropped s)).
End Sink.
Arguments t : clear implicits.
End ActivitySink.

(** ** Properties *)

Module CounterProperties.
Import AccessCounter.

Definition idle : system := mk_system AccessCounter.new None (fun _ => 0) (fun _ => 0) 0.

(** No access is lost.  However bumps interleave with a flush in
    flight, and at whatever bucket the database fails, every hit the proxy
    counted is, bucket by bucket, exactly what the database holds plus what
    is in flight plus what is pending; the hits discarded by the backstop
    are exactly the ones [dropped] reports. *)
Theorem access_counts_conserved es key :
  let s := foldl (fun s e => step e s) idle es in
  hits s key = written s key + in_flight_delta s key + default 0 (pending (counter s) !! key)
  /\ dropped (counter s) = hits_dropped s.
Proof.
  assert (Hgo : forall es s, conserved s -> conserved (foldl (fun s e => step e s) s es)).
  { induction es0 as [|e es0 IH]; intros s Hs; simpl; [done|]. by apply IH, step_conserved. }
  destruct (Hgo es idle) as [Hh Hd]; [|by split].
  split; [|done]. intros k. unfold in_flight_delta. simpl. rewrite lookup_empty. done.
Qed.

Import AlertSink.

(** Alert cooldown.  Over a clock that does not run backwards, two
    queued alerts of the same kind (other than the test alert) about the
    same app are at least the cooldown apart, whatever other alerts are
    raised, dropped by a full queue or delivered in between. *)
Theorem alert_cooldown_spacing key now actions :
  fst key <> AlertKind.Test -> clocked now actions ->
  spaced (foldl (AlertSink.step key) ([], AlertSink.new) actions).1.
Proof.
  intros Htest Hc.
  assert (Hgo : forall l now sent s, inv key now sent s -> clocked now l ->
    exists now', inv key now' (foldl (AlertSink.step key) (sent, s) l).1 (foldl (AlertSink.step key) (sent, s) l).2).
  { induction l as [|a l IH]; intros t sent s Hi Hl; cbn [foldl]; [by exists t|].
    rewrite (surjective_pairing (AlertSink.step key (sent, s) a)).
    destruct a as [t' ev|]; cbn [clocked] in Hl.
    - apply (IH t'); [|tauto]. apply inv_notify; [done|]. by apply (inv_later _ t); [tauto|].
    - apply (IH t); [|done]. unfold AlertSink.step, recv. simpl. destruct Hi as [? ? ?].
      destruct (queue s); by split. }
  destruct (Hgo actions now [] AlertSink.new) as [now' [Hs _ _]]; [|done|done].
  by split.
Qed.

Lemma alert_cooldown_spacing_witness :
  let saturated := AlertEvent.mk AlertKind.Saturated "a" None "full" in
  let actions := map (fun m => Notify (from_secs (60 * m)) saturated) [0; 5; 14; 15; 16; 31] in
  (foldl (AlertSink.step (AlertKind.Saturated, "a")) ([], AlertSink.new) actions).1
    = map (fun m => from_secs (60 * m)) [0; 15; 31]
  /\ spaced (foldl (AlertSink.step (AlertKind.Saturated, "a")) ([], AlertSink.new) actions).1.
Proof.
  intros saturated actions. split; [vm_compute; reflexivity|].
  apply (alert_cooldown_spacing (AlertKind.Saturated, "a") 0 actions); [discriminate|].
  vm_compute. repeat split; congruence.
Defined.
End CounterProperties.
