(* ===== verification/Sticky.v ===== *)
(** * Sticky: the signed sticky-session cookie (ruscker-proxy/src/sticky.rs)

    A cookie value is the base64url text of a JSON payload followed by the
    first 16 bytes of its HMAC.  The base64 codec, HMAC-SHA256 and serde_json
    are other crates: they are the operations of the class [CookieCodec],
    and what the code relies on of them is [CookieCodecLaws].  Byte strings
    are Rocq strings, one character per byte. *)

From Stdlib Require Import Ascii String ZArith Lia.
From stdpp Require Import base tactics list gmap strings fin_maps numbers countable.
From S2P Require Import Prelude Text Schema Core.

Local Open Scope string_scope.
Local Open Scope list_scope.
Local Open Scope Z_scope.
Local Open Scope ruscker_scope.

Definition COOKIE_NAME : string := "__ruscker_session".

Definition cookie_name (spec_id : string) : string := COOKIE_NAME +:+ "_" +:+ spec_id.

Definition TAG_LEN : nat := 16.

Module StickySession.
Record t := mk { session_id : Uuid; spec_id : string; replica_id : ReplicaId }.
(** [fresh] is the random session id. *)
Definition new (fresh : Uuid) (spec_id : string) (replica_id : ReplicaId) : t := mk fresh spec_id replica_id.
End StickySession.

(** A key is its 32 bytes. *)
Abbreviation CookieKey := string (only parsing).

Class CookieCodec := {
  b64url_encode : string -> string;
  b64url_decode : string -> option string;
  b64std_decode : string -> option string;
  b64std_nopad_decode : string -> option string;
  hmac_sign : CookieKey -> string -> string;
  json_to_vec : StickySession.t -> Result string string;
  json_from_slice : string -> option StickySession.t
}.

Class CookieCodecLaws `{CookieCodec} := {
  b64url_round_trip bytes : b64url_decode (b64url_encode bytes) = Some bytes;
  hmac_length key payload : String.length (hmac_sign key payload) = 32%nat;
  json_serializes s : exists p, json_to_vec s = Ok p;
  json_round_trip s p : json_to_vec s = Ok p -> json_from_slice p = Some s;
  json_length s p : json_to_vec s = Ok p -> (2 <= String.length p)%nat
}.

(** The accumulator of the comparison loop. *)
Fixpoint ct_diff (diff : N) (a b : string) : N :=
  match a, b with
  | String x a', String y b' => ct_diff (N.lor diff (N.lxor (N_of_ascii x) (N_of_ascii y))) a' b'
  | _, _ => diff
  end.

Definition ct_eq (a b : string) : bool :=
  if negb (String.length a =? String.length b)%nat then false
  else N.eqb (ct_diff 0 a b) 0.

(** [u8::from_str_radix(_, 16)] of a two-character string: a sign is
    accepted in front of at least one digit. *)
Definition hex_digit (c : ascii) : option Z :=
  let b := byte_of c in
  if is_ascii_digit c then Some (b - 48)
  else if byte_in 65 70 c then Some (b - 55)
  else if byte_in 97 102 c then Some (b - 87)
  else None.

Definition u8_from_hex2 (a b : ascii) : option Z :=
  if Ascii.eqb a "+" then hex_digit b
  else x ← hex_digit a; y ← hex_digit b; Some (16 * x + y).

Fixpoint decode_hex (s : string) : Result string string :=
  match s with
  | EmptyString => Ok EmptyString
  | String a (String b s') =>
    match u8_from_hex2 a b with
    | Some v => result_map (String (ascii_of_N (Z.to_N v))) (decode_hex s')
    | None => Err "hex parse"
    end
  | String _ EmptyString => Err "hex length must be even"
  end.

Section Codec.
Context `{CookieCodec}.

Definition to_key (msg bytes : string) : Result CookieKey string :=
  if (String.length bytes =? 32)%nat then Ok bytes else Err msg.

Definition parse_key (raw : string) : Result CookieKey string :=
  let raw := trim raw in
  if (String.length raw =? 64)%nat && str_forallb is_ascii_hexdigit raw then
    let? v := decode_hex raw in to_key "hex must decode to 32 bytes" v
  else
    match b64std_decode raw with
    | Some b => to_key "base64 must decode to 32 bytes" b
    | None =>
      match b64std_nopad_decode raw with
      | Some b => to_key "base64 must decode to 32 bytes" b
      | None => Err "RUSCKER_COOKIE_KEY must be 32 bytes encoded as hex (64ch) or base64 (44ch)"
      end
    end.

(** [env] is the variable [RUSCKER_COOKIE_KEY], [fresh] the random key. *)
Definition from_env_or_random (env : option string) (fresh : CookieKey) : Result CookieKey string :=
  match env with
  | Some raw => if str_is_empty raw then Ok fresh else parse_key raw
  | None => Ok fresh
  end.

Definition encode (key : CookieKey) (session : StickySession.t) : Result string string :=
  let? payload := json_to_vec session in
  let tag := hmac_sign key payload in
  let truncated := str_take TAG_LEN tag in
  Ok (b64url_encode (payload +:+ truncated)).

Definition decode (key : CookieKey) (cookie_value : string) : Result StickySession.t string :=
  match b64url_decode cookie_value with
  | None => Err "invalid cookie encoding"
  | Some raw =>
    if (String.length raw <? TAG_LEN + 2)%nat then Err "cookie too short"
    else
      let payload := str_take (String.length raw - TAG_LEN) raw in
      let tag := str_drop (String.length raw - TAG_LEN) raw in
      let expected := hmac_sign key payload in
      if negb (ct_eq (str_take TAG_LEN expected) tag) then Err "bad signature"
      else match json_from_slice payload with
           | Some s => Ok s
           | None => Err "malformed payload"
           end
  end.
End Codec.

(** ** Lemmas *)

Lemma ct_diff_spec diff a b :
  String.length a = String.length b -> ct_diff diff a b = 0%N <-> diff = 0%N /\ a = b.
Proof.
  revert diff b; induction a as [|x a IH]; intros diff [|y b]; simpl; try done; [naive_solver|].
  intros [= Hlen]. rewrite IH by done. rewrite N.lor_eq_0_iff, N.lxor_eq_0_iff. split.
  - intros [[-> Hxy] ->]. split; [done|]. f_equal.
    rewrite <- (ascii_N_embedding x), <- (ascii_N_embedding y). by rewrite Hxy.
  - by intros [-> [= -> ->]].
Qed.

Lemma ct_eq_spec a b : ct_eq a b = true <-> a = b.
Proof.
  unfold ct_eq. destruct (Nat.eqb_spec (String.length a) (String.length b)) as [Hl|Hl]; simpl.
  - rewrite N.eqb_eq, ct_diff_spec by done. naive_solver.
  - split; [done|]. intros ->. done.
Qed.

Lemma str_take_app a b : str_take (String.length a) (a +:+ b) = a.
Proof.
  unfold str_take. induction a as [|c a IH]; simpl; [by destruct b|].
  change (String c (substring 0 (String.length a) (a +:+ b)) = String c a). by rewrite IH.
Qed.

Lemma str_drop_app a b : str_drop (String.length a) (a +:+ b) = b.
Proof. induction a as [|c a IH]; simpl; [done|]. exact IH. Qed.

Lemma str_take_length n s : (n <= String.length s)%nat -> String.length (str_take n s) = n.
Proof.
  unfold str_take. revert n; induction s as [|c s IH]; intros [|n]; simpl; try lia.
  intros. rewrite IH; lia.
Qed.

Lemma str_take_drop n s : str_take n s +:+ str_drop n s = s.
Proof.
  unfold str_take. revert n; induction s as [|c s IH]; intros [|n]; simpl; try done.
  change (String c (substring 0 n s +:+ str_drop n s) = String c s). by rewrite IH.
Qed.

(** ** A codec for the examples: base64 is the identity, the tag the last
    bytes of the key and payload, the payload a prefix code. *)

Fixpoint bits (p : positive) : string :=
  match p with xH => "1" | xO q => "0" +:+ bits q | xI q => "2" +:+ bits q end.

Fixpoint unbits (s : string) : option positive :=
  match s with
  | EmptyString => None
  | String c s' =>
    if Ascii.eqb c "0" then xO <$> unbits s'
    else if Ascii.eqb c "2" then xI <$> unbits s'
    else if Ascii.eqb c "1" then (match s' with EmptyString => Some xH | _ => None end) else None
  end.

Lemma unbits_bits p : unbits (bits p) = Some p.
Proof.
  induction p as [p IH|p IH|]; [| |done].
  - change (unbits (bits p~1)) with (xI <$> unbits (bits p)). by rewrite IH.
  - change (unbits (bits p~0)) with (xO <$> unbits (bits p)). by rewrite IH.
Qed.

Definition zeros32 : string := "00000000000000000000000000000000".

Definition pack (s : StickySession.t) : string :=
  String "{" (bits (countable.encode (StickySession.session_id s, StickySession.spec_id s, StickySession.replica_id s))).

Definition unpack (p : string) : option StickySession.t :=
  match p with
  | String _ p' => n ← unbits p'; '(i, s, r) ← countable.decode n; Some (StickySession.mk i s r)
  | EmptyString => None
  end.

Lemma unpack_pack s : unpack (pack s) = Some s.
Proof. destruct s as [i s r]. unfold pack. cbn [unpack]. rewrite unbits_bits. cbn. by rewrite countable.decode_encode. Qed.

Definition example_codec : CookieCodec := {|
  b64url_encode := fun s => s;
  b64url_decode := fun s => Some s;
  b64std_decode := fun s => None;
  b64std_nopad_decode := fun s => None;
  hmac_sign := fun key payload => str_take 32 (key +:+ payload +:+ zeros32);
  json_to_vec := fun s => Ok (pack s);
  json_from_slice := unpack
|}.

Lemma example_codec_laws : @CookieCodecLaws example_codec.
Proof.
  split; simpl.
  - done.
  - intros key payload. apply str_take_length. rewrite !str_length_app. unfold zeros32. simpl. lia.
  - eauto.
  - intros s p [= <-]. apply unpack_pack.
  - intros s p [= <-]. unfold pack. cbn [String.length]. destruct (countable.encode _); simpl; lia.
Qed.

(** ** Properties *)

Module StickyProperties.

(** Cookie round trip: under any key, decoding the cookie that was
    issued for a session gives that session back. *)
Theorem sticky_round_trip `{CookieCodecLaws} key s :
  exists v, encode key s = Ok v /\ decode key v = Ok s.
Proof.
  destruct (json_serializes s) as [p Hp]. unfold encode. rewrite Hp. simpl.
  eexists. split; [done|]. unfold decode. rewrite b64url_round_trip.
  set (tag := str_take TAG_LEN (hmac_sign key p)).
  assert (String.length tag = 16%nat) as Ht by (apply str_take_length; rewrite hmac_length; unfold TAG_LEN; lia).
  pose proof (json_length s p Hp). rewrite str_length_app, Ht.
  unfold TAG_LEN at 1. rewrite (proj2 (Nat.ltb_ge _ _)) by lia.
  replace (String.length p + 16 - TAG_LEN)%nat with (String.length p) by (unfold TAG_LEN; lia).
  rewrite str_take_app, str_drop_app. fold tag.
  rewrite (proj2 (ct_eq_spec _ _) eq_refl). simpl. by rewrite (json_round_trip s p Hp).
Qed.

Lemma sticky_round_trip_witness :
  exists v, @encode example_codec zeros32 (StickySession.mk 7 "my-shiny" 3) = Ok v
    /\ @decode example_codec zeros32 v = Ok (StickySession.mk 7 "my-shiny" 3).
Proof. exact (@sticky_round_trip example_codec example_codec_laws zeros32 (StickySession.mk 7 "my-shiny" 3)). Defined.

(** C12. Cookie authenticity: a cookie value is accepted exactly when it
    decodes to a payload followed by the 16 leading bytes of that very
    payload's HMAC under the server's key, and the payload parses; every
    other value is rejected, whichever byte differs. *)
Theorem sticky_accepts_only_signed `{CookieCodecLaws} key v s :
  decode key v = Ok s <->
  exists payload, b64url_decode v = Some (payload +:+ str_take TAG_LEN (hmac_sign key payload))
    /\ (2 <= String.length payload)%nat /\ json_from_slice payload = Some s.
Proof.
  assert (Htag : forall p, String.length (str_take TAG_LEN (hmac_sign key p)) = 16%nat)
    by (intros p; apply str_take_length; rewrite hmac_length; unfold TAG_LEN; lia).
  unfold decode. destruct (b64url_decode v) as [raw|]; [|split; [done|by intros (? & ? & _)]].
  destruct (Nat.ltb_spec (String.length raw) (TAG_LEN + 2)) as [Hlt|Hge].
  - split; [done|]. intros (p & [= ->] & Hp & _). rewrite str_length_app, Htag in Hlt. unfold TAG_LEN in Hlt. lia.
  - set (n := (String.length raw - TAG_LEN)%nat).
    assert (String.length (str_take n raw) = n) as Hn by (apply str_take_length; unfold n; lia).
    destruct (ct_eq (str_take TAG_LEN (hmac_sign key (str_take n raw))) (str_drop n raw)) eqn:E; simpl.
    + apply ct_eq_spec in E. split.
      * destruct (json_from_slice _) eqn:J; [|done]. intros [= ->]. exists (str_take n raw).
        rewrite E, str_take_drop. split; [done|]. split; [unfold n in *; unfold TAG_LEN in *; lia|done].
      * intros (p & [= Hraw] & _ & J).
        assert (n = String.length p) as Hnp
          by (unfold n; rewrite Hraw, str_length_app, Htag; unfold TAG_LEN; lia).
        rewrite Hraw, Hnp, str_take_app, J. done.
    + split; [done|]. intros (p & [= Hraw] & _ & J).
      assert (n = String.length p) as Hnp
        by (unfold n; rewrite Hraw, str_length_app, Htag; unfold TAG_LEN; lia).
      rewrite Hraw, Hnp, str_take_app, str_drop_app in E.
      by rewrite (proj2 (ct_eq_spec _ _) eq_refl) in E.
Qed.

Lemma sticky_accepts_only_signed_witness :
  @decode example_codec zeros32 "{a tampered payload and its tag" = Err "bad signature"
  /\ (@decode example_codec zeros32 "{a tampered payload and its tag" = Ok (StickySession.mk 7 "a" 3) <->
      exists payload, @b64url_decode example_codec "{a tampered payload and its tag"
          = Some (payload +:+ str_take TAG_LEN (@hmac_sign example_codec zeros32 payload))
        /\ (2 <= String.length payload)%nat
        /\ @json_from_slice example_codec payload = Some (StickySession.mk 7 "a" 3)).
Proof.
  split; [vm_compute; reflexivity|].
  exact (@sticky_accepts_only_signed example_codec example_codec_laws zeros32 "{a tampered payload and its tag" (StickySession.mk 7 "a" 3)).
Defined.

(** One cookie per app: the sticky cookie's name determines the app,
    and every such name carries the prefix the upstream filters match on. *)
Theorem cookie_name_injective a b :
  (cookie_name a = cookie_name b <-> a = b) /\ starts_with COOKIE_NAME (cookie_name a) = true.
Proof.
  split; [|apply starts_with_app]. unfold cookie_name. split; [|by intros ->].
  intros E. assert (str_drop (String.length COOKIE_NAME) (COOKIE_NAME +:+ "_" +:+ a)
                    = str_drop (String.length COOKIE_NAME) (COOKIE_NAME +:+ "_" +:+ b)) as E' by (by rewrite E).
  rewrite !str_drop_app in E'. by injection E'.
Qed.
End StickyProperties.
