(* ===== verification/Headers.v ===== *)
(** * Headers: the header filters of the proxy
    (ruscker-admin: routes/proxy.rs, routes/mod.rs, auth.rs)

    What crosses the trust boundary between the portal and an app container:
    the hop-by-hop strip, the cookie filters of both directions, the reserved
    identity headers, the smart-routing headers, CORS, client identification
    and the redirect-target checks.

    A [HeaderMap] is the multimap from a normalised (lowercase) header name
    to the values appended under it, in order.  Which byte strings the [http]
    crate takes as names and values is not code of the repository: the
    conversions are the operations of the class [HttpCrate]. *)

From Stdlib Require Import Ascii String ZArith Lia.
From stdpp Require Import base tactics list gmap strings sets fin_maps numbers.
From S2P Require Import Prelude Text Schema Core Sticky.

Local Open Scope string_scope.
Local Open Scope list_scope.
Local Open Scope Z_scope.

(** ** Header maps *)

Class HttpCrate := {
  to_str : string -> option string;
  value_from_str : string -> option string;
  value_from_bytes : string -> option string;
  name_parse : string -> option string
}.

(** The bytes a value may hold to be read as text: visible ASCII and tab. *)
Definition visible_ascii (c : ascii) : bool := byte_in 32 126 c || (byte_of c =? 9).

(** Letters, digits and the hyphen: a part of the bytes of a header name. *)
Definition name_char (c : ascii) : bool := byte_in 48 57 c || byte_in 65 90 c || byte_in 97 122 c || Ascii.eqb c "-".

Class HttpCrateLaws `{HttpCrate} := {
  to_str_spec v : to_str v = if str_forallb visible_ascii v then Some v else None;
  value_from_str_text s : str_forallb visible_ascii s = true -> value_from_str s = Some s;
  value_from_str_same s v : value_from_str s = Some v -> v = s;
  value_from_bytes_same s v : value_from_bytes s = Some v -> v = s;
  name_parse_lower n m : name_parse n = Some m -> m = to_ascii_lowercase n;
  name_parse_token n : str_is_empty n = false -> str_forallb name_char n = true -> is_Some (name_parse n)
}.

Module HeaderMap.
Abbreviation t := (gmap string (list string)).
Definition get_all (name : string) (h : t) : list string := default [] (h !! name).
Definition get (name : string) (h : t) : option string := head (get_all name h).
Definition contains_key (name : string) (h : t) : bool := bool_decide (is_Some (get name h)).
Definition insert (name value : string) (h : t) : t := <[name := [value]]> h.
Definition append (name value : string) (h : t) : t := <[name := get_all name h ++ [value]]> h.
Definition remove (name : string) (h : t) : t := delete name h.
(** [entry(name).or_insert(value)] *)
Definition or_insert (name value : string) (h : t) : t :=
  match get name h with Some _ => h | None => insert name value h end.

Lemma get_all_remove n m h : get_all n (remove m h) = if decide (n = m) then [] else get_all n h.
Proof. unfold get_all, remove. rewrite lookup_delete. repeat case_decide; by subst. Qed.

Lemma get_all_insert n m v h : get_all n (insert m v h) = if decide (n = m) then [v] else get_all n h.
Proof. unfold get_all, insert. rewrite lookup_insert. repeat case_decide; by subst. Qed.

Lemma get_all_append n m v h :
  get_all n (append m v h) = if decide (n = m) then get_all n h ++ [v] else get_all n h.
Proof. unfold append, get_all at 1. rewrite lookup_insert. repeat case_decide; by subst. Qed.

Lemma get_all_or_insert_ne n m v h : n <> m -> get_all n (or_insert m v h) = get_all n h.
Proof. intros Hne. unfold or_insert. destruct (get m h); [done|]. by rewrite get_all_insert, decide_False. Qed.

Lemma get_all_foldl_remove n l h :
  get_all n (foldl (fun h m => remove m h) h l) = if decide (n ∈ l) then [] else get_all n h.
Proof.
  revert h; induction l as [|m l IH]; intros h; cbn [foldl].
  - by rewrite decide_False by set_solver.
  - rewrite IH, get_all_remove. repeat case_decide; set_solver.
Qed.

Lemma get_all_foldl_append n m vs h :
  get_all n (foldl (fun h v => append m v h) h vs) = if decide (n = m) then get_all n h ++ vs else get_all n h.
Proof.
  revert h; induction vs as [|v vs IH]; intros h; cbn [foldl].
  - case_decide; [by rewrite app_nil_r|done].
  - rewrite IH, get_all_append. case_decide; [|done]. by rewrite <- app_assoc.
Qed.
End HeaderMap.

Import HeaderMap(get_all, get_all_remove, get_all_insert, get_all_append, get_all_or_insert_ne,
  get_all_foldl_remove, get_all_foldl_append).

(** ** Trust in forwarded headers and client identity *)

Definition forward_headers_trusted (server : Server.t) : bool :=
  Server.use_forward_headers server ||
  match Server.forward_headers_strategy server with
  | Some s => negb (eq_ignore_ascii_case s "none")
  | None => false
  end.

Section Client.
Context `{HttpCrate} {IpAddr : Type} (parse_ip : string -> option IpAddr) (show_ip : IpAddr -> string).

Definition rightmost_forwarded_ip (xff : string) : option IpAddr :=
  match List.find (fun p => negb (str_is_empty p)) (map trim (rev (split_char "," xff))) with
  | Some p => parse_ip p
  | None => None
  end.

(** [peer] is the address of the TCP peer. *)
Definition client_key (server : Server.t) (headers : HeaderMap.t) (peer : option IpAddr) : string :=
  let fallback := match peer with Some a => show_ip a | None => "unknown" end in
  if forward_headers_trusted server then
    match (HeaderMap.get "x-forwarded-for" headers ≫= to_str) ≫= rightmost_forwarded_ip with
    | Some ip => show_ip ip
    | None => fallback
    end
  else fallback.

(** auth.rs: whether the client's own connection was HTTPS. *)
Definition request_is_https (headers : HeaderMap.t) (forwarded_trusted : bool) : bool :=
  if negb forwarded_trusted then false
  else match HeaderMap.get "x-forwarded-proto" headers ≫= to_str with
       | Some s => match head (rev (split_char "," s)) with
                   | Some p => eq_ignore_ascii_case (trim p) "https"
                   | None => false
                   end
       | None => false
       end.
End Client.

(** ** CORS *)

Module Response.
Record t := mk { status : Z; headers : HeaderMap.t; body : string }.
Definition map_headers (f : HeaderMap.t -> HeaderMap.t) (r : t) : t := mk (status r) (f (headers r)) (body r).
End Response.

Definition cors_defaults : list (string * string) :=
  [("access-control-allow-origin", "*");
   ("access-control-allow-methods", "GET, POST, PUT, PATCH, DELETE, OPTIONS, HEAD");
   ("access-control-allow-headers", "*");
   ("access-control-max-age", "86400")].

Definition apply_cors_headers (headers : HeaderMap.t) : HeaderMap.t :=
  foldl (fun h '(name, value) => HeaderMap.or_insert name value h) headers cors_defaults.

Definition with_cors (enabled : bool) (resp : Response.t) : Response.t :=
  if enabled then Response.map_headers apply_cors_headers resp else resp.

Definition cors_preflight_response : Response.t :=
  Response.map_headers apply_cors_headers (Response.mk 204 ∅ "").

(** ** Public paths *)

Definition APP_PREFIX : string := "/app/".
Definition API_PREFIX : string := "/api/".

Definition mount_prefix (base_path route_prefix spec_id : string) : string :=
  base_path +:+ route_prefix +:+ spec_id.

Definition PUBLIC_PATH_TOKEN : string := "#{publicPath}".

Definition public_path (base_path : string) (spec : Spec.t) : string :=
  let route_prefix := match Spec.kind spec with SpecKind.Api => API_PREFIX | _ => APP_PREFIX end in
  mount_prefix base_path route_prefix (Spec.id spec) +:+ "/".

Definition substitute_public_path (path e : string) : string :=
  if str_contains PUBLIC_PATH_TOKEN e then str_replace PUBLIC_PATH_TOKEN path e else e.

Definition apply_public_path (path : string) (env : list string) (cmd : option (list string))
  : list string * option (list string) :=
  (map (substitute_public_path path) env, map (substitute_public_path path) <$> cmd).

(** ** Upstream-bound headers *)

Section Http.
Context `{HttpCrate}.

Definition apply_smart_routing_headers (forwarded_prefix : string) (is_https : bool)
    (fwd_host : option string) (headers : HeaderMap.t) : HeaderMap.t :=
  let headers :=
    match value_from_str forwarded_prefix with
    | Some v =>
      HeaderMap.insert "x-rstudio-root-path" v
        (HeaderMap.insert "x-script-name" v (HeaderMap.insert "x-forwarded-prefix" v headers))
    | None => headers
    end in
  let headers := HeaderMap.insert "x-forwarded-proto" (if is_https then "https" else "http") headers in
  match fwd_host with
  | Some host => HeaderMap.insert "x-forwarded-host" host headers
  | None => headers
  end.

Definition HOP_BY_HOP : list string :=
  ["connection"; "keep-alive"; "proxy-authenticate"; "proxy-authorization"; "te"; "trailers";
   "transfer-encoding"; "upgrade"; "host"; "proxy-connection"].

(** The header names the first [Connection] value lists. *)
Definition connection_tokens (headers : HeaderMap.t) : list string :=
  match HeaderMap.get "connection" headers ≫= to_str with
  | Some s => map (fun t => to_ascii_lowercase (trim t)) (split_char "," s)
  | None => []
  end.

Definition strip_hop_headers (headers : HeaderMap.t) : HeaderMap.t :=
  let extra := connection_tokens headers in
  let headers := foldl (fun h name => HeaderMap.remove name h) headers (HOP_BY_HOP ++ extra) in
  let headers := HeaderMap.or_insert "via" "1.1 ruscker" headers in
  HeaderMap.remove "x-forwarded-port" (HeaderMap.remove "x-forwarded-proto" headers).

Definition ADMIN_COOKIE_NAME : string := "ruscker_admin_session".
Definition THEME_COOKIE_NAME : string := "ruscker_theme".
Definition LOCALE_COOKIE_NAME : string := "ruscker_locale".
Definition RUSCKER_COOKIE_NAMES : list string := [ADMIN_COOKIE_NAME; THEME_COOKIE_NAME; LOCALE_COOKIE_NAME].

Definition is_ruscker_cookie (name : string) : bool :=
  existsb (str_eqb name) RUSCKER_COOKIE_NAMES
  || starts_with Sticky.COOKIE_NAME name
  || starts_with "__ruscker_mfa_" name.

(** The name of one [name=value] pair of a [Cookie] header. *)
Definition cookie_pair_name (pair : string) : string := trim (split_first "=" pair).

Definition filter_ruscker_cookies (raw : string) : option string :=
  let kept :=
    List.filter (fun pair => negb (is_ruscker_cookie (cookie_pair_name pair)))
      (List.filter (fun pair => negb (str_is_empty pair)) (map trim (split_char ";" raw))) in
  match kept with [] => None | _ => Some (str_join "; " kept) end.

Definition strip_ruscker_cookies (headers : HeaderMap.t) : HeaderMap.t :=
  match HeaderMap.get "cookie" headers ≫= to_str with
  | None => headers
  | Some raw =>
    match filter_ruscker_cookies raw with
    | None => HeaderMap.remove "cookie" headers
    | Some kept =>
      match value_from_str kept with
      | Some v => HeaderMap.insert "cookie" v headers
      | None => headers
      end
    end
  end.

Definition is_reserved_identity (name : string) : bool :=
  starts_with "x-sp-" name || starts_with "x-ruscker-user-" name.

Definition strip_reserved_identity_headers (headers : HeaderMap.t) : HeaderMap.t :=
  let names := List.filter is_reserved_identity (map fst (map_to_list headers)) in
  foldl (fun h name => HeaderMap.remove name h) headers names.

Definition insert_identity_headers (identity_headers : list (string * string)) (headers : HeaderMap.t)
  : HeaderMap.t :=
  foldl (fun h '(name, value) =>
           match name_parse name, value_from_bytes value with
           | Some n, Some v => HeaderMap.insert n v h
           | _, _ => h
           end) headers identity_headers.

(** The header rewriting of [do_forward], in its order. *)
Definition upstream_headers (forwarded_prefix : string) (is_https : bool)
    (identity_headers : list (string * string)) (headers : HeaderMap.t) : HeaderMap.t :=
  let fwd_host := HeaderMap.get "host" headers in
  let headers := strip_hop_headers headers in
  let headers := strip_reserved_identity_headers headers in
  let headers := strip_ruscker_cookies headers in
  let headers := insert_identity_headers identity_headers headers in
  apply_smart_routing_headers forwarded_prefix is_https fwd_host headers.

(** ** Client-bound headers *)

Definition SAFE_SITE_DATA : list string := ["cache"; "storage"; "executionContexts"; "clientHints"].

(** The text between the quotes of a directive without backslash. *)
Definition directive_inner (entry : string) : option string :=
  match strip_prefix (String "034" EmptyString) entry ≫= strip_suffix (String "034" EmptyString) with
  | Some inner => if str_contains_char "\" inner then None else Some inner
  | None => None
  end.

Definition directive_safe (entry : string) : bool :=
  match directive_inner entry with
  | Some inner => existsb (fun d => eq_ignore_ascii_case d inner) SAFE_SITE_DATA
  | None => false
  end.

(** What is appended back for one [Clear-Site-Data] value. *)
Definition sanitized_site_data (value : string) : option string :=
  raw ← to_str value;
  match List.filter directive_safe (map trim (split_char "," raw)) with
  | [] => None
  | kept => value_from_str (str_join ", " kept)
  end.

Definition sanitize_clear_site_data (headers : HeaderMap.t) : HeaderMap.t :=
  match get_all "clear-site-data" headers with
  | [] => headers
  | values =>
    foldl (fun h value =>
             match sanitized_site_data value with
             | Some v => HeaderMap.append "clear-site-data" v h
             | None => h
             end) (HeaderMap.remove "clear-site-data" headers) values
  end.

(** The name bytes of a [Set-Cookie] value. *)
Definition set_cookie_name (value : string) : string :=
  trim_ascii (split_first "=" (split_first ";" value)).

Definition reserved_set_cookie (value : string) : bool :=
  let name := set_cookie_name value in utf8_valid name && is_ruscker_cookie name.

Definition strip_reserved_set_cookies (headers : HeaderMap.t) : HeaderMap.t :=
  match get_all "set-cookie" headers with
  | [] => headers
  | values =>
    foldl (fun h value => if reserved_set_cookie value then h else HeaderMap.append "set-cookie" value h)
      (HeaderMap.remove "set-cookie" headers) values
  end.

(** The response half of [do_forward]. *)
Definition client_headers (headers : HeaderMap.t) : HeaderMap.t :=
  sanitize_clear_site_data (strip_reserved_set_cookies (strip_hop_headers headers)).
End Http.

(** ** Redirect targets (routes/mod.rs) *)

(** [s.find(c)] and the tail from there. *)
Fixpoint tail_from (c : ascii) (s : string) : option string :=
  match s with
  | EmptyString => None
  | String d s' => if Ascii.eqb c d then Some s else tail_from c s'
  end.

(** [s.split_once("://")]: what follows the first separator. *)
Fixpoint after_scheme (s : string) : option string :=
  match strip_prefix "://" s with
  | Some rest => Some rest
  | None => match s with EmptyString => None | String _ s' => after_scheme s' end
  end.

Definition same_origin_check (fallback after_authority : string) : string :=
  let looks_cross_origin :=
    negb (starts_with "/" after_authority) || starts_with "//" after_authority
    || starts_with "/\" after_authority in
  if looks_cross_origin then fallback else after_authority.

Definition same_origin_path (referer : option string) (fallback : string) : string :=
  match referer with
  | None => fallback
  | Some referer =>
    match after_scheme referer with
    | Some rest =>
      match tail_from "/" rest with Some path => same_origin_check fallback path | None => fallback end
    | None => same_origin_check fallback referer
    end
  end.

Definition is_control (c : ascii) : bool := (byte_of c <? 32) || (byte_of c =? 127).

Definition local_next_path (value : option string) : option string :=
  value ← value;
  if starts_with "/" value && negb (starts_with "//" value) && negb (str_contains_char "\" value)
     && str_forallb (fun c => negb (is_control c)) value
  then Some value else None.

(** [byte_serialize] percent-encodes a byte string. *)
Definition with_next_query (byte_serialize : string -> string) (path next : string) : string :=
  let separator := if str_contains_char "?" path then "&" else "?" in
  path +:+ separator +:+ "next=" +:+ byte_serialize next.

(** ** Lemmas *)

Section Lemmas.
Context `{HttpCrateLaws}.

Lemma get_all_strip_hop n h :
  get_all n (strip_hop_headers h) =
  if decide (n = "x-forwarded-port" \/ n = "x-forwarded-proto") then []
  else if decide (n = "via") then
    (if decide ("via" ∈ connection_tokens h) then ["1.1 ruscker"]
     else match get_all "via" h with [] => ["1.1 ruscker"] | vs => vs end)
  else if decide (n ∈ HOP_BY_HOP ++ connection_tokens h) then [] else get_all n h.
Proof.
  unfold strip_hop_headers. rewrite !get_all_remove.
  destruct (decide (n = "x-forwarded-port")); [by rewrite decide_True by auto|].
  destruct (decide (n = "x-forwarded-proto")); [by rewrite decide_True by auto|].
  rewrite (decide_False (P := _ \/ _)) by tauto.
  destruct (decide (n = "via")) as [->|Hv].
  - unfold HeaderMap.or_insert, HeaderMap.get. rewrite get_all_foldl_remove.
    assert ("via" ∈ HOP_BY_HOP ++ connection_tokens h <-> "via" ∈ connection_tokens h) as Hiff.
    { rewrite elem_of_app. split; [intros [Hx|?]; [|done]|auto]. exfalso.
      apply list_elem_of_In in Hx. vm_compute in Hx. intuition congruence. }
    destruct (decide ("via" ∈ connection_tokens h)) as [Hin|Hin].
    + rewrite decide_True by tauto. simpl. by rewrite get_all_insert, decide_True.
    + rewrite decide_False by tauto. destruct (get_all "via" h) as [|v vs] eqn:E; cbn [head].
      * by rewrite get_all_insert, decide_True.
      * rewrite get_all_foldl_remove, decide_False by tauto. exact E.
  - rewrite get_all_or_insert_ne by done. by rewrite get_all_foldl_remove.
Qed.

Lemma get_all_strip_identity n h :
  get_all n (strip_reserved_identity_headers h) = if is_reserved_identity n then [] else get_all n h.
Proof.
  unfold strip_reserved_identity_headers. rewrite get_all_foldl_remove.
  destruct (is_reserved_identity n) eqn:E.
  - case_decide as Hn; [done|]. unfold get_all. destruct (h !! n) as [vs|] eqn:Hl; [|done].
    exfalso. apply Hn. apply filter_elem. split; [|done].
    change n with (fst (n, vs)). apply list_elem_of_fmap_2. by apply elem_of_map_to_list.
  - rewrite decide_False; [done|]. rewrite filter_elem. intros [_ ?]. congruence.
Qed.

Lemma get_all_strip_cookies n h : n <> "cookie" -> get_all n (strip_ruscker_cookies h) = get_all n h.
Proof.
  intros Hn. unfold strip_ruscker_cookies. repeat split_match; try done.
  - by rewrite get_all_insert, decide_False.
  - by rewrite get_all_remove, decide_False.
Qed.

Lemma get_all_insert_identity n ids h h' :
  get_all n h = get_all n h' ->
  get_all n (insert_identity_headers ids h) = get_all n (insert_identity_headers ids h').
Proof.
  unfold insert_identity_headers. revert h h'.
  induction ids as [|[name value] ids IH]; intros h h' Heq; cbn [foldl]; [done|].
  apply IH. destruct (name_parse name); [|done]. destruct (value_from_bytes value); [|done].
  rewrite !get_all_insert. by case_decide.
Qed.

Lemma get_all_insert_identity_other n ids h :
  (forall name value, (name, value) ∈ ids -> name_parse name <> Some n) ->
  get_all n (insert_identity_headers ids h) = get_all n h.
Proof.
  unfold insert_identity_headers. revert h. induction ids as [|[name value] ids IH]; intros h Hn; cbn [foldl]; [done|].
  rewrite IH by (intros m w Hm; apply (Hn m w); by right). assert (name_parse name <> Some n) as Hname by (apply (Hn name value); left).
  destruct (name_parse name); [|done]. destruct (value_from_bytes value); [|done].
  rewrite get_all_insert. case_decide; congruence.
Qed.

(** The names the smart-routing step writes. *)
Definition routing_names : list string :=
  ["x-forwarded-prefix"; "x-script-name"; "x-rstudio-root-path"; "x-forwarded-proto"; "x-forwarded-host"].

Lemma get_all_smart_routing n prefix https host h :
  n ∉ routing_names -> get_all n (apply_smart_routing_headers prefix https host h) = get_all n h.
Proof.
  intros Hn. unfold routing_names in Hn. rewrite !not_elem_of_cons in Hn.
  destruct Hn as (? & ? & ? & ? & ? & _). unfold apply_smart_routing_headers.
  destruct host; destruct (value_from_str prefix); rewrite !get_all_insert; by rewrite !decide_False.
Qed.

Lemma reserved_not_routing n : is_reserved_identity n = true -> n ∉ routing_names /\ n <> "cookie".
Proof.
  intros Hr. split; [|intros ->; vm_compute in Hr; congruence].
  intros Hin. apply list_elem_of_In in Hin. simpl in Hin.
  destruct Hin as [<-|[<-|[<-|[<-|[<-|[]]]]]]; vm_compute in Hr; congruence.
Qed.

Lemma get_all_upstream_reserved prefix https ids h n :
  is_reserved_identity n = true ->
  get_all n (upstream_headers prefix https ids h) = get_all n (insert_identity_headers ids ∅).
Proof.
  intros Hr. destruct (reserved_not_routing n Hr) as [Hrt Hc].
  unfold upstream_headers. rewrite get_all_smart_routing by done. apply get_all_insert_identity.
  by rewrite get_all_strip_cookies, get_all_strip_identity, Hr by done.
Qed.

Lemma elem_of_insert_identity n v ids h :
  v ∈ get_all n (insert_identity_headers ids h) ->
  v ∈ get_all n h \/ exists name, (name, v) ∈ ids /\ n = to_ascii_lowercase name.
Proof.
  unfold insert_identity_headers. revert h. induction ids as [|[name value] ids IH]; intros h; cbn [foldl]; [by left|].
  intros [Hh|(m & Hm & ->)]%IH; [|right; exists m; split; [by right|done]].
  destruct (name_parse name) as [m|] eqn:En; [|by left]. destruct (value_from_bytes value) as [x|] eqn:Ev; [|by left].
  rewrite get_all_insert in Hh. case_decide as Hn; [|by left]. apply list_elem_of_singleton in Hh as ->.
  right. exists name. apply value_from_bytes_same in Ev as ->. split; [left|]. subst. by apply name_parse_lower.
Qed.

(** *** Cookies *)

Lemma filter_ruscker_cookies_pairs raw kept pair :
  filter_ruscker_cookies raw = Some kept -> pair ∈ split_char ";" kept ->
  is_ruscker_cookie (cookie_pair_name pair) = false.
Proof.
  unfold filter_ruscker_cookies.
  set (l := List.filter _ _). intros Hk.
  assert (Hl : forall p, p ∈ l -> is_ruscker_cookie (cookie_pair_name p) = false /\ str_contains_char ";" p = false).
  { intros p Hp. apply filter_elem in Hp as [Hp Hr]. apply negb_true_iff in Hr. split; [done|].
    apply filter_elem in Hp as [Hp _]. apply list_elem_of_fmap in Hp as (q & -> & Hq).
    apply trim_no_char. by eapply split_char_pieces. }
  assert (kept = str_join "; " l) as -> by (destruct l; simplify_eq; done).
  assert (l <> []) as Hne by (by destruct l). clearbody l. clear Hk.
  assert (Hspace : forall p, cookie_pair_name (String " " p) = cookie_pair_name p).
  { intros p. unfold cookie_pair_name, split_first. simpl. pose proof (split_char_nonempty "=" p).
    destruct (split_char "=" p); [done|]. apply trim_space. }
  (* the pieces are the kept pairs, all but the first with a leading space *)
  assert (Hgo : forall l lead, (forall p, p ∈ l -> is_ruscker_cookie (cookie_pair_name p) = false
       /\ str_contains_char ";" p = false) -> l <> [] ->
     pair ∈ split_char ";" ((if lead : bool then " " else "") +:+ str_join "; " l) ->
     is_ruscker_cookie (cookie_pair_name pair) = false); [|by apply (Hgo l false)].
  clear dependent l. induction l as [|p [|q l] IH]; intros lead Hl Hne Hin; [done| |].
  - destruct (Hl p) as [Hr Hsc]; [set_solver|]. change (str_join "; " [p]) with p in Hin.
    rewrite split_char_no_sep in Hin by (by destruct lead). apply list_elem_of_singleton in Hin as ->.
    destruct lead; [by rewrite <- Hspace in Hr|done].
  - destruct (Hl p) as [Hr Hsc]; [set_solver|].
    assert (pair ∈ ((if lead : bool then " " else "") +:+ p)
              :: split_char ";" (" " +:+ str_join "; " (q :: l))) as Hin'.
    { rewrite <- split_char_app_sep; [|destruct lead; done].
      change (str_join "; " (p :: q :: l)) with (p +:+ String ";" (" " +:+ str_join "; " (q :: l))) in Hin.
      by rewrite str_app_assoc. }
    apply elem_of_cons in Hin' as [->|Hin'].
    + destruct lead; [by rewrite <- Hspace in Hr|done].
    + by apply (IH true); [set_solver|..].
Qed.

Lemma filter_ruscker_cookies_text raw kept :
  str_forallb visible_ascii raw = true -> filter_ruscker_cookies raw = Some kept ->
  str_forallb visible_ascii kept = true.
Proof.
  unfold filter_ruscker_cookies. set (l := List.filter _ _). intros Hraw Hk.
  assert (kept = str_join "; " l) as -> by (destruct l; simplify_eq; done).
  apply str_forallb_join; [done|]. intros w Hw. unfold l in Hw.
  apply filter_elem in Hw as [Hw _]. apply filter_elem in Hw as [Hw _].
  apply list_elem_of_fmap in Hw as (q & -> & Hq). apply trim_forallb. by eapply str_forallb_split.
Qed.
End Lemmas.

(** A codec for the examples. *)
Definition http_example : HttpCrate := {|
  to_str := fun v => if str_forallb visible_ascii v then Some v else None;
  value_from_str := fun s => if str_forallb visible_ascii s then Some s else None;
  value_from_bytes := fun s => if str_forallb (fun c => negb (is_control c)) s then Some s else None;
  name_parse := fun n => Some (to_ascii_lowercase n)
|}.

Lemma http_example_laws : @HttpCrateLaws http_example.
Proof.
  split; simpl.
  - done.
  - intros s E. by rewrite E.
  - intros s v. by destruct (str_forallb _ s); intros [= <-].
  - intros s v. by destruct (str_forallb _ s); intros [= <-].
  - by intros n m [= <-].
  - intros n _ _. by eexists.
Qed.

(** ** Properties *)

Module HeaderProperties.

(** Identity is authoritative.  Whatever headers a client sends, what
    the app container receives under any name of the reserved identity
    namespaces is exactly what the proxy itself put there for the
    authenticated user, and nothing when it put nothing. *)
Theorem upstream_identity_authoritative `{HttpCrateLaws} prefix https ids h n :
  is_reserved_identity n = true ->
  get_all n (upstream_headers prefix https ids h) = get_all n (insert_identity_headers ids ∅)
  /\ (ids = [] -> get_all n (upstream_headers prefix https ids h) = []).
Proof.
  intros Hr. split; [by apply get_all_upstream_reserved|]. intros ->. by rewrite get_all_upstream_reserved.
Qed.

Definition forged : HeaderMap.t :=
  <["x-sp-userid" := ["root"]]> (<["x-sp-useremail" := ["root@x"]]>
    (<["cookie" := ["theme=dark; ruscker_admin_session=SECRET; __ruscker_session_a=t"]]> ∅)).

Lemma upstream_identity_authoritative_witness :
  is_reserved_identity "x-sp-userid" = true
  /\ @get_all "x-sp-userid" (@upstream_headers http_example "/app/a" true [("X-SP-UserId", "maria")] forged) = ["maria"]
  /\ get_all "x-sp-useremail" (@upstream_headers http_example "/app/a" true [] forged) = [].
Proof.
  split; [reflexivity|]. split.
  - rewrite (proj1 (@upstream_identity_authoritative http_example http_example_laws "/app/a" true
      [("X-SP-UserId", "maria")] forged "x-sp-userid" eq_refl)). vm_compute. reflexivity.
  - exact (proj2 (@upstream_identity_authoritative http_example http_example_laws "/app/a" true
      [] forged "x-sp-useremail" eq_refl) eq_refl).
Defined.

(** The portal's cookies stay in the portal.  When the client's
    [Cookie] header reads as text, no pair of the [Cookie] header the app
    container receives is one of Ruscker's own: not the admin session, not a
    sticky session, not an MFA grant, not a preference. *)
Theorem upstream_cookies_filtered `{HttpCrateLaws} prefix https ids h v pair :
  (forall w, HeaderMap.get "cookie" h = Some w -> str_forallb visible_ascii w = true) ->
  (forall name value, (name, value) ∈ ids -> name_parse name <> Some "cookie") ->
  v ∈ get_all "cookie" (upstream_headers prefix https ids h) -> pair ∈ split_char ";" v ->
  is_ruscker_cookie (cookie_pair_name pair) = false.
Proof.
  intros Htext Hids. unfold upstream_headers.
  rewrite get_all_smart_routing
    by (intros Hin; apply list_elem_of_In in Hin; vm_compute in Hin; intuition congruence).
  rewrite get_all_insert_identity_other by done.
  set (h1 := strip_reserved_identity_headers (strip_hop_headers h)).
  assert (get_all "cookie" h1 = [] \/ get_all "cookie" h1 = get_all "cookie" h) as Hh1.
  { unfold h1. rewrite get_all_strip_identity, get_all_strip_hop.
    change (is_reserved_identity "cookie") with false. cbv iota.
    rewrite decide_False by (intros [?|?]; done). rewrite decide_False by done.
    case_decide; auto. }
  unfold strip_ruscker_cookies, HeaderMap.get. destruct Hh1 as [E|E]; rewrite E; simpl; [rewrite E; set_solver|].
  destruct (head (get_all "cookie" h)) as [w|] eqn:Hw; simpl.
  - specialize (Htext w Hw). rewrite to_str_spec, Htext.
    destruct (filter_ruscker_cookies w) as [kept|] eqn:Hk.
    + rewrite value_from_str_text by (by eapply filter_ruscker_cookies_text).
      rewrite get_all_insert, decide_True by done. intros ->%list_elem_of_singleton.
      by apply (filter_ruscker_cookies_pairs w).
    + rewrite get_all_remove, decide_True by done. set_solver.
  - rewrite E. destruct (get_all "cookie" h); [set_solver|done].
Qed.

Lemma upstream_cookies_filtered_witness :
  get_all "cookie" (@upstream_headers http_example "/app/a" true [] forged) = ["theme=dark"]
  /\ is_ruscker_cookie (cookie_pair_name "theme=dark") = false.
Proof.
  split; [vm_compute; reflexivity|].
  apply (@upstream_cookies_filtered http_example http_example_laws "/app/a" true [] forged "theme=dark").
  - intros w Hw. vm_compute in Hw. injection Hw as <-. vm_compute. reflexivity.
  - intros name value Hin. apply not_elem_of_nil in Hin. destruct Hin.
  - apply list_elem_of_In. vm_compute. left. reflexivity.
  - apply list_elem_of_In. vm_compute. left. reflexivity.
Defined.

(** The cookie filter fails open.  A [Cookie] header with a single
    byte outside visible ASCII is not filtered at all: the container receives
    it as the client sent it, with Ruscker's own cookies, the admin session
    included. *)
Theorem undecodable_cookie_forwarded `{HttpCrateLaws} prefix https ids h v :
  HeaderMap.get "cookie" h = Some v -> str_forallb visible_ascii v = false ->
  "cookie" ∉ connection_tokens h ->
  (forall name value, (name, value) ∈ ids -> name_parse name <> Some "cookie") ->
  get_all "cookie" (upstream_headers prefix https ids h) = get_all "cookie" h.
Proof.
  intros Hget Htext Hconn Hids. unfold upstream_headers.
  rewrite get_all_smart_routing
    by (intros Hin; apply list_elem_of_In in Hin; vm_compute in Hin; intuition congruence).
  rewrite get_all_insert_identity_other by done.
  assert (get_all "cookie" (strip_reserved_identity_headers (strip_hop_headers h)) = get_all "cookie" h) as E.
  { rewrite get_all_strip_identity, get_all_strip_hop.
    change (is_reserved_identity "cookie") with false. cbv iota.
    rewrite decide_False by (intros [?|?]; done). rewrite decide_False by done.
    rewrite decide_False; [done|]. rewrite elem_of_app. intros [Hin|?]; [|done].
    apply list_elem_of_In in Hin. vm_compute in Hin. intuition congruence. }
  unfold strip_ruscker_cookies, HeaderMap.get. rewrite E. unfold HeaderMap.get in Hget. rewrite Hget. simpl.
  by rewrite to_str_spec, Htext, E.
Qed.

Lemma undecodable_cookie_forwarded_witness :
  let v := "x=" +:+ byte_str [195; 169]%N +:+ "; ruscker_admin_session=SECRET" in
  let h : HeaderMap.t := <["cookie" := [v]]> ∅ in
  is_ruscker_cookie (cookie_pair_name " ruscker_admin_session=SECRET") = true
  /\ get_all "cookie" (@upstream_headers http_example "/app/a" true [] h) = [v].
Proof.
  intros v h. split; [reflexivity|].
  apply (@undecodable_cookie_forwarded http_example http_example_laws "/app/a" true [] h v).
  - reflexivity.
  - vm_compute. reflexivity.
  - intros Hin. apply list_elem_of_In in Hin. vm_compute in Hin. exact Hin.
  - intros name value Hin. apply not_elem_of_nil in Hin. destruct Hin.
Defined.
End HeaderProperties.

Section ResponseLemmas.
Context `{HttpCrateLaws}.

Lemma foldl_append_filter (p : string -> bool) name h vs :
  get_all name (foldl (fun h v => if p v then h else HeaderMap.append name v h) h vs)
  = get_all name h ++ List.filter (fun v => negb (p v)) vs.
Proof.
  revert h; induction vs as [|v vs IH]; intros h; cbn [foldl List.filter]; [by rewrite app_nil_r|].
  destruct (p v); simpl; rewrite IH; [done|]. by rewrite get_all_append, decide_True, <- app_assoc.
Qed.

Lemma get_all_strip_set_cookies h :
  get_all "set-cookie" (strip_reserved_set_cookies h)
  = List.filter (fun v => negb (reserved_set_cookie v)) (get_all "set-cookie" h).
Proof.
  unfold strip_reserved_set_cookies. destruct (get_all "set-cookie" h) as [|v vs] eqn:E; [by rewrite E|].
  rewrite foldl_append_filter, get_all_remove, decide_True by done. done.
Qed.

Lemma foldl_append_omap (f : string -> option string) name h vs n :
  get_all n (foldl (fun h v => match f v with Some w => HeaderMap.append name w h | None => h end) h vs)
  = get_all n h ++ (if decide (n = name) then omap f vs else []).
Proof.
  revert h; induction vs as [|v vs IH]; intros h; cbn [foldl].
  - case_decide; by rewrite app_nil_r.
  - rewrite IH. destruct (f v) as [w|] eqn:E; simpl.
    + rewrite get_all_append. case_decide; [|done]. by rewrite E, <- app_assoc.
    + case_decide; [by rewrite E|done].
Qed.

Lemma get_all_sanitize n h :
  get_all n (sanitize_clear_site_data h)
  = if decide (n = "clear-site-data") then omap sanitized_site_data (get_all n h) else get_all n h.
Proof.
  unfold sanitize_clear_site_data. destruct (get_all "clear-site-data" h) as [|v vs] eqn:E.
  - case_decide; [subst; by rewrite E|done].
  - rewrite foldl_append_omap, get_all_remove. case_decide; [subst; by rewrite E|]. by rewrite app_nil_r.
Qed.

Lemma get_all_strip_set_cookies_other n h :
  n <> "set-cookie" -> get_all n (strip_reserved_set_cookies h) = get_all n h.
Proof.
  intros Hn. unfold strip_reserved_set_cookies. destruct (get_all "set-cookie" h) as [|v vs]; [done|].
  assert (Hgo : forall vs h, get_all n (foldl (fun h value => if reserved_set_cookie value then h
       else HeaderMap.append "set-cookie" value h) h vs) = get_all n h).
  { clear -Hn. induction vs as [|w vs IH]; intros h; cbn [foldl]; [done|]. rewrite IH.
    destruct (reserved_set_cookie w); [done|]. by rewrite get_all_append, decide_False. }
  by rewrite Hgo, get_all_remove, decide_False.
Qed.

(** A safe directive has its quotes at both ends, so trimming keeps it. *)
Lemma directive_safe_quoted e :
  directive_safe e = true -> exists inner, e = String "034" (inner +:+ String "034" EmptyString).
Proof.
  unfold directive_safe, directive_inner.
  destruct (strip_prefix _ e) as [r|] eqn:E1; simpl; [|done].
  unfold strip_suffix. destruct (strip_prefix _ (str_rev r)) as [q|] eqn:E2; simpl; [|done].
  intros _. exists (str_rev q). apply strip_prefix_Some in E1 as ->. apply strip_prefix_Some in E2.
  change (String "034" r = String "034" (str_rev q +:+ String "034" EmptyString)). f_equal.
  rewrite <- (str_rev_involutive r), E2, str_rev_app_distr. done.
Qed.

Lemma trim_quoted inner :
  trim (String "034" (inner +:+ String "034" EmptyString)) = String "034" (inner +:+ String "034" EmptyString).
Proof.
  unfold trim. change (trim_start (String "034" (inner +:+ String "034" EmptyString)))
    with (String "034" (inner +:+ String "034" EmptyString)).
  unfold trim_end. set (e := String "034" _).
  assert (str_rev e = String "034" (str_rev inner +:+ String "034" EmptyString)) as Hrev.
  { unfold e. rewrite str_rev_cons, str_rev_app_distr. done. }
  rewrite Hrev. transitivity (str_rev (str_rev e)); [|apply str_rev_involutive].
  rewrite Hrev. destruct (String.length e); reflexivity.
Qed.

Lemma join_directives_safe l entry :
  (forall e, e ∈ l -> directive_safe e = true /\ str_contains_char "," e = false) -> l <> [] ->
  entry ∈ split_char "," (str_join ", " l) -> directive_safe (trim entry) = true.
Proof.
  intros Hl Hne Hin.
  assert (Htrim : forall e, directive_safe e = true -> directive_safe (trim e) = true).
  { intros e He. destruct (directive_safe_quoted e He) as [inner ->]. by rewrite trim_quoted. }
  assert (Hgo : forall l lead, (forall e, e ∈ l -> directive_safe e = true /\ str_contains_char "," e = false) ->
    l <> [] -> entry ∈ split_char "," ((if lead : bool then " " else "") +:+ str_join ", " l) ->
    directive_safe (trim entry) = true); [|by apply (Hgo l false)].
  clear -Htrim. intros l. induction l as [|e [|e' l] IH]; intros lead Hl Hne Hin; [done| |].
  - destruct (Hl e) as [Hs Hc]; [set_solver|]. change (str_join ", " [e]) with e in Hin.
    rewrite split_char_no_sep in Hin by (by destruct lead). apply list_elem_of_singleton in Hin as ->.
    destruct lead; [change (trim (" " +:+ e)) with (trim e)|]; by apply Htrim.
  - destruct (Hl e) as [Hs Hc]; [set_solver|].
    assert (entry ∈ ((if lead : bool then " " else "") +:+ e)
              :: split_char "," (" " +:+ str_join ", " (e' :: l))) as Hin'.
    { rewrite <- split_char_app_sep; [|destruct lead; done].
      change (str_join ", " (e :: e' :: l)) with (e +:+ String "," (" " +:+ str_join ", " (e' :: l))) in Hin.
      by rewrite str_app_assoc. }
    apply elem_of_cons in Hin' as [->|Hin'].
    + destruct lead; [change (trim (" " +:+ e)) with (trim e)|]; by apply Htrim.
    + by apply (IH true); [set_solver|..].
Qed.
End ResponseLemmas.

Module ResponseProperties.

(** An app cannot set the portal's cookies.  The [Set-Cookie] headers
    a client receives are the app's own, in the app's order and unchanged,
    without those whose name is one of Ruscker's. *)
Theorem reserved_set_cookies_dropped `{HttpCrate} h :
  "set-cookie" ∉ connection_tokens h ->
  get_all "set-cookie" (client_headers h)
  = List.filter (fun v => negb (reserved_set_cookie v)) (get_all "set-cookie" h).
Proof.
  intros Hconn. unfold client_headers. rewrite get_all_sanitize, decide_False by done.
  rewrite get_all_strip_set_cookies, get_all_strip_hop.
  rewrite decide_False by (intros [?|?]; done). rewrite decide_False by done.
  rewrite decide_False; [done|]. rewrite elem_of_app. intros [Hin|?]; [|done].
  apply list_elem_of_In in Hin. vm_compute in Hin. intuition congruence.
Qed.

Definition hostile : HeaderMap.t :=
  <["set-cookie" := ["ruscker_admin_session=evil; Path=/"; "app=1; Path=/app/a"; "__ruscker_mfa_x=1"]]>
    (<["clear-site-data" := [String "034" ("cookies" +:+ String "034" (", " +:+ String "034" ("cache" +:+ String "034" "")))]]> ∅).

Lemma reserved_set_cookies_dropped_witness :
  "set-cookie" ∉ @connection_tokens http_example hostile
  /\ get_all "set-cookie" (@client_headers http_example hostile) = ["app=1; Path=/app/a"].
Proof.
  assert ("set-cookie" ∉ @connection_tokens http_example hostile) as Hn
    by (intros Hin; apply list_elem_of_In in Hin; vm_compute in Hin; exact Hin).
  split; [exact Hn|]. rewrite (@reserved_set_cookies_dropped http_example hostile Hn). vm_compute. reflexivity.
Defined.

(** An app cannot clear the portal's cookies.  Every directive of
    every [Clear-Site-Data] header a client receives is, after trimming, one
    of the allowlisted non-cookie directives in plain quotes. *)
Theorem clear_site_data_sanitized `{HttpCrateLaws} h v entry :
  v ∈ get_all "clear-site-data" (client_headers h) -> entry ∈ split_char "," v ->
  directive_safe (trim entry) = true.
Proof.
  unfold client_headers. rewrite get_all_sanitize, decide_True by done.
  intros (w & _ & Hw)%list_elem_of_omap. unfold sanitized_site_data in Hw.
  destruct (to_str w) as [raw|]; simpl in Hw; [|done].
  set (l := List.filter _ _) in Hw.
  assert (Hl : forall e, e ∈ l -> directive_safe e = true /\ str_contains_char "," e = false).
  { intros e He. apply filter_elem in He as [He Hs]. split; [done|].
    apply list_elem_of_fmap in He as (q & -> & Hq). apply trim_no_char. by eapply split_char_pieces. }
  clearbody l. destruct l as [|e l']; [done|]. apply value_from_str_same in Hw as ->.
  by apply (join_directives_safe (e :: l')).
Qed.

Lemma clear_site_data_sanitized_witness :
  let cache := String "034" ("cache" +:+ String "034" "") in
  get_all "clear-site-data" (@client_headers http_example hostile) = [cache]
  /\ directive_safe (trim cache) = true.
Proof.
  intros cache. split; [vm_compute; reflexivity|].
  apply (@clear_site_data_sanitized http_example http_example_laws hostile cache);
    apply list_elem_of_In; vm_compute; left; reflexivity.
Defined.

(** Hop-by-hop headers stop at the proxy, in both directions: after
    the strip nothing is left under the hop-by-hop names, nor under the names
    the [Connection] header lists ([Via] apart, which the proxy adds back),
    nor of the client's own [X-Forwarded-Proto] and [X-Forwarded-Port]; every
    other header keeps its values. *)
Theorem hop_headers_stripped `{HttpCrate} h n :
  n <> "via" ->
  get_all n (strip_hop_headers h)
  = if decide (n ∈ ["x-forwarded-port"; "x-forwarded-proto"] ++ HOP_BY_HOP ++ connection_tokens h)
    then [] else get_all n h.
Proof.
  intros Hv. rewrite get_all_strip_hop, (decide_False (P := n = "via")) by done.
  set (rest := HOP_BY_HOP ++ connection_tokens h).
  assert (n ∈ ["x-forwarded-port"; "x-forwarded-proto"] ++ rest
          <-> (n = "x-forwarded-port" \/ n = "x-forwarded-proto") \/ n ∈ rest) as Hiff
    by (rewrite elem_of_app; set_solver).
  repeat case_decide; tauto.
Qed.

Lemma hop_headers_stripped_witness :
  let h : HeaderMap.t := <["connection" := ["close, X-Secret"]]> (<["x-secret" := ["1"]]> (<["accept" := ["*"]]> ∅)) in
  "x-secret" <> "via" /\ get_all "x-secret" (@strip_hop_headers http_example h) = [].
Proof.
  intros h. split; [discriminate|]. rewrite (@hop_headers_stripped http_example h "x-secret") by discriminate.
  vm_compute. reflexivity.
Defined.

(** The client key cannot be rotated.  Behind a trusted proxy, the
    address used for rate limiting is the one the proxy appended: entries a
    client puts in front of it in [X-Forwarded-For] do not change it. *)
Theorem forwarded_ip_unspoofable {IpAddr : Type} (parse_ip : string -> option IpAddr) spoofed appended :
  str_contains_char "," appended = false -> trim appended <> "" ->
  rightmost_forwarded_ip parse_ip (spoofed +:+ String "," appended) = parse_ip (trim appended).
Proof.
  intros Hc Ht. unfold rightmost_forwarded_ip. rewrite split_char_app, rev_app_distr, (split_char_no_sep "," appended Hc).
  simpl. by destruct (trim appended).
Qed.

Lemma forwarded_ip_unspoofable_witness :
  rightmost_forwarded_ip (fun s => Some s) "6.6.6.6, 7.7.7.7, 10.0.0.9" = Some "10.0.0.9".
Proof.
  exact (forwarded_ip_unspoofable (fun s => Some s) "6.6.6.6, 7.7.7.7" " 10.0.0.9" eq_refl (fun H => ltac:(discriminate H))).
Defined.

(** Post-login redirects stay on the origin.  An accepted [next] is
    the value itself, rooted, not protocol-relative, without backslash or
    control characters; a [Referer] is reduced to such a rooted path or to
    the fallback. *)
Theorem redirect_targets_local v r fallback referer :
  local_next_path v = Some r ->
  (v = Some r /\ exists tail, r = String "/" tail /\ starts_with "/" tail = false
     /\ str_contains_char "\" tail = false /\ str_forallb (fun c => negb (is_control c)) tail = true)
  /\ (same_origin_path referer fallback = fallback
      \/ exists tail, same_origin_path referer fallback = String "/" tail
         /\ starts_with "/" tail = false /\ starts_with "\" tail = false).
Proof.
  assert (Hcons : forall c (p t : string), starts_with (String c p) (String c t) = starts_with p t).
  { intros c p t. unfold starts_with. cbn [strip_prefix]. by rewrite Ascii.eqb_refl. }
  intros Hn. split.
  - unfold local_next_path in Hn. destruct v as [s|]; simpl in Hn; [|done].
    destruct (_ && _) eqn:E; [|done]. injection Hn as <-. split; [done|]. bool_split.
    apply starts_with_spec in H as [tail ->]. exists tail. change ("/" +:+ tail) with (String "/" tail) in *.
    rewrite (Hcons "/"%char "/" tail) in *. cbn [str_contains_char str_forallb append] in *.
    bool_split. split; [done|]. by repeat split.
  - unfold same_origin_path. destruct referer as [ref|]; [|by left].
    assert (Hcheck : forall a, same_origin_check fallback a = fallback \/ exists tail, same_origin_check fallback a = String "/" tail
       /\ starts_with "/" tail = false /\ starts_with "\" tail = false).
    { intros a. unfold same_origin_check. destruct (_ || _) eqn:E; [by left|]. right. bool_split.
      apply starts_with_spec in H as [tail ->]. exists tail. change ("/" +:+ tail) with (String "/" tail) in *.
      rewrite (Hcons "/"%char "/" tail) in *. rewrite (Hcons "/"%char "\" tail) in *. done. }
    destruct (after_scheme ref) as [rest|]; [destruct (tail_from "/" rest); [apply Hcheck|by left]|apply Hcheck].
Qed.

Lemma redirect_targets_local_witness :
  local_next_path (Some "/app/a?x=1") = Some "/app/a?x=1"
  /\ (same_origin_path (Some "https://evil.com//x") "/" = "/"
      \/ exists tail, same_origin_path (Some "https://evil.com//x") "/" = String "/" tail
         /\ starts_with "/" tail = false /\ starts_with "\" tail = false).
Proof.
  split; [reflexivity|].
  exact (proj2 (redirect_targets_local (Some "/app/a?x=1") "/app/a?x=1" "/" (Some "https://evil.com//x") eq_refl)).
Defined.
End ResponseProperties.
