(* ===== verification/Routing.v ===== *)
(** * Routing: choosing a replica (ruscker-admin/src/routes/proxy.rs)

    The selection functions of the request path over a pool of replicas, the
    in-flight gauge of API requests, and the sticky and capacity tests.  Two
    process-wide statics of the source are explicit: the round-robin counter
    of [pick_index] is threaded through every pick, and the in-flight map is
    an argument. *)

From Stdlib Require Import ZArith Lia.
From stdpp Require Import base tactics list gmap strings sets fin_maps numbers.
From S2P Require Import Prelude Text Schema Core Sticky.

Local Open Scope string_scope.
Local Open Scope list_scope.
Local Open Scope Z_scope.

(** ** In-flight requests *)

Module Inflight.
Abbreviation t := (gmap ReplicaId Z).

(** [InflightGuard::new] and its [Drop]. *)
Definition guard_new (i : ReplicaId) (m : t) : t := <[i := as_u32 (default 0 (m !! i) + 1)]> m.
Definition guard_drop (i : ReplicaId) (m : t) : t :=
  match m !! i with Some v => <[i := saturating_sub v 1]> m | None => m end.

Definition inflight_count (m : t) (i : ReplicaId) : Z := default 0 (m !! i).
Definition inflight_gc (alive : list ReplicaId) (m : t) : t := filter (fun kv => kv.1 ∈ alive) m.
Definition inflight_forget (i : ReplicaId) (m : t) : t := delete i m.
End Inflight.

(** ** Picking *)

(** The static counter: the index it yields, and its next value. *)
Definition pick_index (n : nat) (counter : Z) : nat * Z :=
  (Z.to_nat (counter mod Z.of_nat n), usize_wrapping_add counter 1).

Definition select (inflight : Inflight.t) (cands : list Replica.t) (routing : RoutingStrategy.t)
    (api : bool) (counter : Z) : option Replica.t * Z :=
  match cands with
  | [] => (None, counter)
  | _ =>
    match routing with
    | RoutingStrategy.RoundRobin =>
      let '(i, counter') := pick_index (length cands) counter in (cands !! i, counter')
    | RoutingStrategy.LeastConnections
    | RoutingStrategy.WeightedRandom
    | RoutingStrategy.ResourceAware =>
      if api then (min_by_key (fun r => Inflight.inflight_count inflight (Replica.id r)) cands, counter)
      else (max_by_key Replica.available_seats cands, counter)
    end
  end.

Definition pick_accepting (inflight : Inflight.t) (replicas : list Replica.t)
    (routing : RoutingStrategy.t) (api : bool) (counter : Z) : option Replica.t * Z :=
  select inflight (List.filter Replica.is_accepting replicas) routing api counter.

Definition is_ready (r : Replica.t) : bool := ReplicaState.eqb (Replica.state r) ReplicaState.Ready.

Definition pick_replica (inflight : Inflight.t) (replicas : list Replica.t)
    (routing : RoutingStrategy.t) (api : bool) (counter : Z) : option Replica.t * Z :=
  match pick_accepting inflight replicas routing api counter with
  | (Some r, counter) => (Some r, counter)
  | (None, counter) => select inflight (List.filter is_ready replicas) routing api counter
  end.

Definition is_api (spec : Spec.t) : bool := bool_decide (Spec.kind spec = SpecKind.Api).

(** ** Tests on the registry *)

Definition has_ready_replica (inflight : Inflight.t) (reg : ReplicaRegistry) (spec : Spec.t) (counter : Z)
  : bool * Z :=
  let '(r, counter) :=
    pick_accepting inflight (Registry.replicas_of reg (Spec.id spec)) (Spec.effective_routing spec)
      (is_api spec) counter in
  (bool_decide (is_Some r), counter).

(** [Ready], or [Draining] to let a session finish. *)
Definition serves_sessions (r : Replica.t) : bool :=
  ReplicaState.eqb (Replica.state r) ReplicaState.Ready
  || ReplicaState.eqb (Replica.state r) ReplicaState.Draining.

Definition sticky_replica_is_live (reg : ReplicaRegistry) (spec_id : string) (session : StickySession.t) : bool :=
  str_eqb (StickySession.spec_id session) spec_id
  && existsb (fun r => has_id (StickySession.replica_id session) r && serves_sessions r)
       (Registry.replicas_of reg spec_id).

(** [cookie] is the value of the spec's sticky cookie, if the visitor sent one. *)
Definition has_sticky_seat `{CookieCodec} (key : CookieKey) (reg : ReplicaRegistry) (spec : Spec.t)
    (cookie : option string) : bool :=
  match cookie with
  | None => false
  | Some raw =>
    match decode key raw with
    | Err _ => false
    | Ok session => sticky_replica_is_live reg (Spec.id spec) session
    end
  end.

(** The states [at_capacity] counts. *)
Definition competes (r : Replica.t) : bool :=
  ReplicaState.eqb (Replica.state r) ReplicaState.Starting
  || ReplicaState.eqb (Replica.state r) ReplicaState.Ready
  || ReplicaState.eqb (Replica.state r) ReplicaState.Draining.

Definition at_capacity (reg : ReplicaRegistry) (spec : Spec.t) : bool :=
  Spec.effective_max_replicas spec
  <=? zlen (List.filter competes (Registry.replicas_of reg (Spec.id spec))).

Definition spec_kind_needs_sticky (kind : SpecKind.t) : bool :=
  match kind with SpecKind.Shiny | SpecKind.InteractiveApp => true | _ => false end.

(** ** Lemmas *)

Section Lemmas.
Context (inflight : Inflight.t).

Lemma pick_index_lt n counter : (0 < n)%nat -> ((pick_index n counter).1 < n)%nat.
Proof. intros Hn. simpl. pose proof (Z.mod_pos_bound counter (Z.of_nat n)). lia. Qed.

Lemma select_elem cands routing api c r c' :
  select inflight cands routing api c = (Some r, c') -> r ∈ cands.
Proof.
  unfold select. destruct cands as [|a l]; [done|]. destruct routing.
  2: { simpl. intros [= Hl _]. by eapply list_elem_of_lookup_2. }
  all: destruct api; intros H%(f_equal fst); cbn [fst] in H;
    first [by apply min_by_key_Some in H as [? _] | by apply max_by_key_Some in H as [? _]].
Qed.

Lemma select_is_Some cands routing api c :
  cands <> [] -> is_Some (select inflight cands routing api c).1.
Proof.
  unfold select. destruct cands as [|a l]; [done|]. intros _. destruct routing.
  2: { cbn [fst]. apply lookup_lt_is_Some. apply pick_index_lt. simpl. lia. }
  all: destruct api; simpl; eauto.
Qed.

Lemma select_None cands routing api c : (select inflight cands routing api c).1 = None <-> cands = [].
Proof.
  split; [|by intros ->]. destruct cands as [|a l]; [done|]. intros H.
  destruct (select_is_Some (a :: l) routing api c) as [r Hr]; [done|]. congruence.
Qed.

Lemma pick_accepting_Some replicas routing api c r c' :
  pick_accepting inflight replicas routing api c = (Some r, c') ->
  r ∈ replicas /\ Replica.is_accepting r = true.
Proof. intros H%select_elem. by apply filter_elem. Qed.

Lemma filter_nil_iff {A} (p : A -> bool) l : List.filter p l = [] <-> forall x, x ∈ l -> p x = false.
Proof.
  split.
  - intros H x Hx. destruct (p x) eqn:E; [|done]. assert (x ∈ List.filter p l) as Hin by (by apply filter_elem).
    rewrite H in Hin. set_solver.
  - intros H. destruct (List.filter p l) as [|x l'] eqn:E; [done|].
    assert (x ∈ List.filter p l) as [Hx Hp]%filter_elem by (rewrite E; left). rewrite H in Hp; done.
Qed.

Lemma pick_accepting_None replicas routing api c :
  (pick_accepting inflight replicas routing api c).1 = None
  <-> forall r, r ∈ replicas -> Replica.is_accepting r = false.
Proof. unfold pick_accepting. rewrite select_None. apply filter_nil_iff. Qed.

Lemma is_accepting_spec r :
  Replica.is_accepting r = true <->
  Replica.state r = ReplicaState.Ready /\ Replica.sessions_active r < Replica.sessions_max r.
Proof.
  unfold Replica.is_accepting, Replica.available_seats, ReplicaState.eqb, saturating_sub.
  rewrite andb_true_iff, bool_decide_eq_true, Z.ltb_lt. split; intros [? ?]; split; try done; lia.
Qed.

Lemma is_ready_spec r : is_ready r = true <-> Replica.state r = ReplicaState.Ready.
Proof. unfold is_ready, ReplicaState.eqb. apply bool_decide_eq_true. Qed.

Lemma pick_replica_elem replicas routing api c r c' :
  pick_replica inflight replicas routing api c = (Some r, c') ->
  r ∈ replicas /\ Replica.state r = ReplicaState.Ready.
Proof.
  unfold pick_replica. destruct (pick_accepting inflight replicas routing api c) as [[a|] c1] eqn:E.
  - intros [= -> ->]. apply pick_accepting_Some in E as [Hin [Hst _]%is_accepting_spec]. done.
  - intros [Hin Hst%is_ready_spec]%select_elem%filter_elem. done.
Qed.

Lemma pick_replica_None replicas routing api c :
  (pick_replica inflight replicas routing api c).1 = None <->
  forall r, r ∈ replicas -> Replica.state r <> ReplicaState.Ready.
Proof.
  unfold pick_replica. destruct (pick_accepting inflight replicas routing api c) as [[a|] c1] eqn:E.
  - split; [done|]. intros H. apply pick_accepting_Some in E as [Hin [Hst _]%is_accepting_spec].
    by destruct (H a Hin).
  - rewrite select_None, filter_nil_iff. split; intros H r Hr.
    + intros Hst%is_ready_spec. rewrite H in Hst; done.
    + destruct (is_ready r) eqn:Er; [|done]. apply is_ready_spec in Er. by destruct (H r Hr).
Qed.

(** Repeated picks among the same candidates. *)
Fixpoint picks (k : nat) (cands : list Replica.t) (counter : Z) : list (option Replica.t) * Z :=
  match k with
  | O => ([], counter)
  | S k' =>
    let '(r, counter) := select inflight cands RoutingStrategy.RoundRobin false counter in
    let '(rs, counter) := picks k' cands counter in (r :: rs, counter)
  end.

Lemma select_round_robin cands api c :
  cands <> [] ->
  select inflight cands RoutingStrategy.RoundRobin api c
  = (cands !! Z.to_nat (c mod zlen cands), usize_wrapping_add c 1).
Proof. by destruct cands. Qed.

Lemma picks_lookup k cands c :
  cands <> [] -> 0 <= c -> c + Z.of_nat k <= 2 ^ 64 ->
  (picks k cands c).1 = map (fun j => cands !! Z.to_nat ((c + Z.of_nat j) mod zlen cands)) (seq 0 k).
Proof.
  intros Hne. revert c. induction k as [|k IH]; intros c Hc Hk; [done|].
  cbn [picks]. rewrite select_round_robin by done.
  destruct (picks k cands (usize_wrapping_add c 1)) as [rs c'] eqn:E. cbn [fst seq map].
  rewrite Z.add_0_r. f_equal. destruct (decide (k = 0%nat)) as [->|Hk0].
  { simpl in E. by injection E as <- <-. }
  assert (usize_wrapping_add c 1 = c + 1) as Hadd by (unfold usize_wrapping_add; apply Z.mod_small; lia).
  change rs with (rs, c').1. rewrite <- E, Hadd, IH by lia. rewrite <- seq_shift, map_map.
  apply map_ext. intros j. do 3 f_equal. lia.
Qed.
End Lemmas.

#[export] Hint Resolve pick_accepting_Some : ruscker.

(** ** Properties *)

Module RoutingProperties.

(** [pick_replica] is sound and complete: it returns a replica of the
    pool in state [Ready]; one with a free seat whenever there is one; and
    nothing exactly when no replica of the pool is [Ready]. *)
Theorem pick_replica_correct inflight replicas routing api c :
  (forall r, (pick_replica inflight replicas routing api c).1 = Some r ->
     r ∈ replicas /\ Replica.state r = ReplicaState.Ready
     /\ ((exists a, a ∈ replicas /\ Replica.is_accepting a = true) -> Replica.is_accepting r = true))
  /\ ((pick_replica inflight replicas routing api c).1 = None
      <-> forall r, r ∈ replicas -> Replica.state r <> ReplicaState.Ready).
Proof.
  split; [|apply pick_replica_None]. intros r Hr.
  destruct (pick_replica inflight replicas routing api c) as [o c'] eqn:E. cbn [fst] in Hr. subst o.
  pose proof (pick_replica_elem _ _ _ _ _ _ _ E) as [Hin Hst]. split; [done|]. split; [done|].
  intros (a & Ha & Hacc). unfold pick_replica in E.
  destruct (pick_accepting inflight replicas routing api c) as [[b|] c1] eqn:Ep.
  - injection E as -> _. by apply pick_accepting_Some in Ep as [_ ?].
  - rewrite (proj1 (pick_accepting_None inflight replicas routing api c) (f_equal fst Ep) a Ha) in Hacc. done.
Qed.

(** Least-connections routing is optimal: among the replicas with a
    free seat, a session-based app gets one with the most free seats, and an
    API one with the fewest requests in flight. *)
Theorem least_connections_optimal inflight replicas api c r :
  (pick_accepting inflight replicas RoutingStrategy.LeastConnections api c).1 = Some r ->
  forall a, a ∈ replicas -> Replica.is_accepting a = true ->
  if api : bool
  then Inflight.inflight_count inflight (Replica.id r) <= Inflight.inflight_count inflight (Replica.id a)
  else Replica.available_seats a <= Replica.available_seats r.
Proof.
  intros H a Ha Hacc. assert (a ∈ List.filter Replica.is_accepting replicas) as Hf by (by apply filter_elem).
  unfold pick_accepting, select in H. destruct (List.filter Replica.is_accepting replicas) as [|b l]; [done|].
  destruct api; cbn [fst] in H.
  - apply min_by_key_Some in H as [_ H]. by apply H.
  - apply max_by_key_Some in H as [_ H]. by apply H.
Qed.

Definition ready (i : ReplicaId) (active max : Z) : Replica.t :=
  Replica.mk i "a" "c" "127.0.0.1:1" ReplicaState.Ready 0 active max None.

Lemma least_connections_optimal_witness :
  (pick_accepting ∅ [ready 1 4 5; ready 2 1 5; ready 3 5 5] RoutingStrategy.LeastConnections false 0).1
    = Some (ready 2 1 5)
  /\ Replica.available_seats (ready 1 4 5) <= Replica.available_seats (ready 2 1 5).
Proof.
  assert ((pick_accepting ∅ [ready 1 4 5; ready 2 1 5; ready 3 5 5] RoutingStrategy.LeastConnections false 0).1
    = Some (ready 2 1 5)) as H by (vm_compute; reflexivity).
  split; [exact H|].
  apply (least_connections_optimal ∅ _ false 0 _ H); [left|reflexivity].
Defined.

Lemma max_by_key_from_last {A} (key : A -> Z) l1 best r l2 :
  (forall x, x ∈ best :: l1 -> key x <= key r) -> (forall x, x ∈ l2 -> key x < key r) ->
  max_by_key_from key best (l1 ++ r :: l2) = r.
Proof.
  revert best; induction l1 as [|y l1 IH]; intros best H1 H2; simpl.
  - rewrite (proj2 (Z.leb_le _ _)) by (apply H1; left). clear H1. induction l2 as [|z l2 IH2]; simpl; [done|].
    assert (key z < key r) by (apply H2; left). rewrite (proj2 (Z.leb_gt _ _)) by done.
    apply IH2. intros x Hx. apply H2. by right.
  - apply IH; [|done]. intros x [->|Hx]%elem_of_cons; [|apply H1; set_solver].
    destruct (key best <=? key y); apply H1; set_solver.
Qed.

(** Ties break on the LAST seen: among replicas with equally many
    free seats, least-connections routing picks the one latest in the pool. *)
Theorem seat_ties_pick_last inflight c l1 r l2 :
  (forall a, a ∈ l1 -> Replica.available_seats a <= Replica.available_seats r) ->
  (forall a, a ∈ l2 -> Replica.available_seats a < Replica.available_seats r) ->
  (select inflight (l1 ++ r :: l2) RoutingStrategy.LeastConnections false c).1 = Some r.
Proof.
  intros H1 H2. unfold select. destruct l1 as [|b l1]; simpl; f_equal.
  - clear H1. induction l2 as [|z l2 IH]; simpl; [done|].
    rewrite (proj2 (Z.leb_gt _ _)) by (apply H2; left). apply IH. intros x Hx. apply H2. by right.
  - by apply max_by_key_from_last.
Qed.

Lemma seat_ties_pick_last_witness :
  (select ∅ ([ready 1 2 5; ready 2 2 5] ++ [ready 3 2 5]) RoutingStrategy.LeastConnections false 0).1
    = Some (ready 3 2 5).
Proof.
  apply (seat_ties_pick_last ∅ 0 [ready 1 2 5; ready 2 2 5] (ready 3 2 5) []).
  - intros a Ha. apply list_elem_of_In in Ha. destruct Ha as [<-|[<-|[]]]; vm_compute; discriminate.
  - intros a Ha. apply not_elem_of_nil in Ha. destruct Ha.
Defined.

Lemma map_lookup_seq {A} (l : list A) : map (fun i => l !! i) (seq 0 (length l)) = map Some l.
Proof.
  induction l as [|x l IH]; [done|]. cbn [length seq map]. f_equal.
  rewrite <- seq_shift, map_map. exact IH.
Qed.

(** Round-robin is fair: over any [n] consecutive picks among the
    same [n] replicas, wherever the shared counter stands (short of its
    wrap-around), each replica is chosen exactly once. *)
Theorem round_robin_fair inflight cands c :
  cands <> [] -> 0 <= c -> c + zlen cands <= 2 ^ 64 ->
  (picks inflight (length cands) cands c).1 ≡ₚ map Some cands.
Proof.
  intros Hne Hc Hw. rewrite picks_lookup by done. set (n := length cands).
  assert (0 < n)%nat as Hn by (unfold n; destruct cands; [done|simpl; lia]).
  assert (map (fun j => Z.to_nat ((c + Z.of_nat j) mod zlen cands)) (seq 0 n) ≡ₚ seq 0 n) as Hperm.
  { unfold zlen. fold n. apply submseteq_length_Permutation; [|by rewrite length_map, !length_seq].
    apply NoDup_submseteq.
    - apply NoDup_ListNoDup, NoDup_map_NoDup_ForallPairs; [|apply seq_NoDup].
      intros j k Hj%in_seq Hk%in_seq Heq. apply Z2Nat.inj in Heq; [|apply Z.mod_pos_bound; lia..].
      assert (((c + Z.of_nat j) - (c + Z.of_nat k)) mod Z.of_nat n = 0) as Hm
        by (rewrite Zminus_mod, Heq, Z.sub_diag; apply Z.mod_0_l; lia).
      apply Z.mod_divide in Hm as [q Hq]; [|lia].
      assert (Z.of_nat j - Z.of_nat k = q * Z.of_nat n) as Hd by lia. clear Heq Hq. clearbody n.
      assert (q = 0) by nia. lia.
    - intros i Hi. apply list_elem_of_In, in_map_iff in Hi as (j & <- & _). apply list_elem_of_In, in_seq.
      pose proof (Z.mod_pos_bound (c + Z.of_nat j) (Z.of_nat n)). lia. }
  rewrite <- (map_map (fun j => Z.to_nat ((c + Z.of_nat j) mod zlen cands)) (fun i => cands !! i)).
  rewrite (Permutation_map (fun i => cands !! i) Hperm). unfold n. by rewrite map_lookup_seq.
Qed.

Lemma round_robin_fair_witness :
  (picks ∅ 3 [ready 1 0 5; ready 2 0 5; ready 3 0 5] 7).1 ≡ₚ map Some [ready 1 0 5; ready 2 0 5; ready 3 0 5].
Proof.
  apply (round_robin_fair ∅ [ready 1 0 5; ready 2 0 5; ready 3 0 5] 7); [discriminate|lia|].
  vm_compute. discriminate.
Defined.

(** A first visit to an app that is up: the splash gate tests readiness, then
    the visit picks. *)
Definition visit (inflight : Inflight.t) (reg : ReplicaRegistry) (spec : Spec.t) (c : Z) : option Replica.t * Z :=
  let '(_, c) := has_ready_replica inflight reg spec c in
  pick_accepting inflight (Registry.replicas_of reg (Spec.id spec)) (Spec.effective_routing spec) (is_api spec) c.

Fixpoint visits (inflight : Inflight.t) (reg : ReplicaRegistry) (spec : Spec.t) (k : nat) (c : Z)
  : list (option Replica.t) :=
  match k with
  | O => []
  | S k' => let '(r, c) := visit inflight reg spec c in r :: visits inflight reg spec k' c
  end.

(** The readiness gate defeats round-robin: with two replicas taking
    sessions, every one of any number of consecutive first visits is routed
    to the same replica, because the gate's own test advances the shared
    counter too. *)
Theorem gate_defeats_round_robin inflight reg spec a b k c :
  Spec.effective_routing spec = RoutingStrategy.RoundRobin ->
  List.filter Replica.is_accepting (Registry.replicas_of reg (Spec.id spec)) = [a; b] ->
  0 <= c -> forall r, r ∈ visits inflight reg spec k c -> r = Some (if Z.even c then b else a).
Proof.
  intros Hrr Hab. revert c. induction k as [|k IH]; intros c Hc r; [set_solver|].
  cbn [visits]. unfold visit, has_ready_replica, pick_accepting. rewrite Hrr, Hab.
  rewrite !select_round_robin by done. cbn [zlen length]. change (zlen [a; b]) with 2.
  assert (Heven : forall x, Z.even (usize_wrapping_add x 1) = negb (Z.even x)).
  { intros x. unfold usize_wrapping_add. rewrite <- Z.negb_odd, <- Z.odd_add_mul_2 with (m := 2 ^ 63 * ((x + 1) / 2 ^ 64)).
    replace ((x + 1) mod 2 ^ 64 + 2 * (2 ^ 63 * ((x + 1) / 2 ^ 64))) with (x + 1)
      by (pose proof (Z.div_mod (x + 1) (2 ^ 64)); lia).
    rewrite Z.negb_odd, Z.even_add. simpl. by destruct (Z.even x). }
  intros [->|Hr]%elem_of_cons.
  - specialize (Heven c). rewrite Zmod_even, Heven. by destruct (Z.even c).
  - apply IH in Hr; [|unfold usize_wrapping_add; apply Z.mod_pos_bound; lia].
    rewrite Hr, !Heven, negb_involutive. done.
Qed.

Definition rr_spec : Spec.t :=
  Spec.sample "a" (Some "img") None (Some RoutingStrategy.RoundRobin) None None None.

Lemma gate_defeats_round_robin_witness :
  let reg := Registry.reset [ready 1 0 5; ready 2 0 5] Registry.empty in
  visits ∅ reg rr_spec 3 0 = [Some (ready 2 0 5); Some (ready 2 0 5); Some (ready 2 0 5)]
  /\ forall r, r ∈ visits ∅ reg rr_spec 3 0 -> r = Some (ready 2 0 5).
Proof.
  intros reg. split; [vm_compute; reflexivity|].
  apply (gate_defeats_round_robin ∅ reg rr_spec (ready 1 0 5) (ready 2 0 5) 3 0); [reflexivity|vm_compute; reflexivity|lia].
Defined.
End RoutingProperties.
