(* ===== verification/Spawn.v ===== *)
(** * Spawn: the runtime state and the ways a replica appears and leaves
    (ruscker-admin: routes/proxy.rs, scaler.rs; ruscker-core: the
    [ContainerBackend] trait)

    [World] is the mutable part of the application state the request path and
    the scaler share.  The container backend is the interface
    [ContainerBackend] over a backend state; its laws say what the runtime
    relies on.  Every operation is a state function; an [.await] on a lock is
    the boundary of an atomic piece, and the pieces that other tasks can
    interleave with are definitions of their own. *)

From Stdlib Require Import Ascii String ZArith Lia.
From stdpp Require Import base tactics list gmap strings sets fin_maps numbers.
From Corelib Require Import SpecFloat.
From S2P Require Import Prelude Text Schema Core Sessions Counters Headers Routing.

Local Open Scope string_scope.
Local Open Scope list_scope.
Local Open Scope Z_scope.
Local Open Scope ruscker_scope.

(** ** The container interface *)

Class ContainerBackend (B : Type) := {
  spawn_request : SpawnRequest.t -> B -> CoreResult Replica.t * B;
  stop : ReplicaId -> B -> CoreResult unit * B;
  replica_liveness : list ReplicaLivenessQuery.t -> B -> CoreResult ReplicaLivenessReport.t * B;
  wait_until_ready_with_timeout : Replica.t -> option Z -> B -> CoreResult unit * B;
  remove_container : string -> B -> CoreResult unit * B
}.

(** What the runtime relies on: a spawned replica belongs to the requested
    spec, is ready or starting, has no session and carries a fresh id; a
    container keeps the replica and spec labels it was created with, so a
    replica an inventory finds carries an issued id and that id's spec. *)
Class ContainerBackendLaws (B : Type) `{ContainerBackend B} := {
  issued : B -> gmap ReplicaId string;
  spawn_ok req b r b' : spawn_request req b = (Ok r, b') ->
    Replica.spec_id r = SpawnRequest.spec_id req /\ Replica.sessions_active r = 0
    /\ (Replica.state r = ReplicaState.Ready \/ Replica.state r = ReplicaState.Starting)
    /\ issued b !! Replica.id r = None /\ issued b' !! Replica.id r = Some (Replica.spec_id r)
    /\ issued b ⊆ issued b';
  spawn_err req b e b' : spawn_request req b = (Err e, b') -> issued b ⊆ issued b';
  stop_issued i b : issued b ⊆ issued (stop i b).2;
  liveness_issued qs b : issued b ⊆ issued (replica_liveness qs b).2;
  liveness_running qs b rep b' r : replica_liveness qs b = (Ok rep, b') ->
    r ∈ ReplicaLivenessReport.running rep -> issued b' !! Replica.id r = Some (Replica.spec_id r);
  wait_issued r t b : issued b ⊆ issued (wait_until_ready_with_timeout r t b).2;
  remove_issued c b : issued b ⊆ issued (remove_container c b).2
}.

(** ** The runtime state *)

Module FailState.
Record t := mk { hash : Z; count : Z; next_warn : Z }.
End FailState.

(** The configuration and environment, constant for a process. *)
Module Env.
Record t := mk {
  base_path : string;
  vars : string -> EnvVar;
  (** the credential store when the database and the master key are there *)
  credential_store : option (string -> Result (option RegistryCredentials.t) string);
  (** [DefaultHasher] over an error message *)
  hash : string -> Z }.
End Env.

Module World.
Record t {B : Type} := mk {
  replicas : ReplicaRegistry;
  sessions : InMemorySessionStore.t;
  metrics : gset ReplicaId;
  inflight : Inflight.t;
  counter : Z;
  alerts : AlertSink.t;
  failures : gmap string FailState.t;
  spawn_locks : gset string;
  backend : option B }.
Arguments t : clear implicits.
Arguments mk {B}.

Section Setters.
Context {B : Type}.
Definition set_replicas (x : ReplicaRegistry) (w : t B) : t B :=
  mk x (sessions w) (metrics w) (inflight w) (counter w) (alerts w) (failures w) (spawn_locks w) (backend w).
Definition set_sessions (x : InMemorySessionStore.t) (w : t B) : t B :=
  mk (replicas w) x (metrics w) (inflight w) (counter w) (alerts w) (failures w) (spawn_locks w) (backend w).
Definition set_metrics (x : gset ReplicaId) (w : t B) : t B :=
  mk (replicas w) (sessions w) x (inflight w) (counter w) (alerts w) (failures w) (spawn_locks w) (backend w).
Definition set_inflight (x : Inflight.t) (w : t B) : t B :=
  mk (replicas w) (sessions w) (metrics w) x (counter w) (alerts w) (failures w) (spawn_locks w) (backend w).
Definition set_counter (x : Z) (w : t B) : t B :=
  mk (replicas w) (sessions w) (metrics w) (inflight w) x (alerts w) (failures w) (spawn_locks w) (backend w).
Definition set_alerts (x : AlertSink.t) (w : t B) : t B :=
  mk (replicas w) (sessions w) (metrics w) (inflight w) (counter w) x (failures w) (spawn_locks w) (backend w).
Definition set_failures (x : gmap string FailState.t) (w : t B) : t B :=
  mk (replicas w) (sessions w) (metrics w) (inflight w) (counter w) (alerts w) x (spawn_locks w) (backend w).
Definition set_spawn_locks (x : gset string) (w : t B) : t B :=
  mk (replicas w) (sessions w) (metrics w) (inflight w) (counter w) (alerts w) (failures w) x (backend w).
Definition set_backend (x : option B) (w : t B) : t B :=
  mk (replicas w) (sessions w) (metrics w) (inflight w) (counter w) (alerts w) (failures w) (spawn_locks w) x.

(** The pool of a spec. *)
Definition pool (w : t B) (spec_id : string) : list Replica.t := Registry.replicas_of (replicas w) spec_id.
End Setters.
End World.

(** ** Spawn requests *)

Definition positive_finite (c : f64) : bool := f64_is_finite c && f64_ltb f64_zero c.

Definition limits_from_spec (spec : Spec.t) : ResourceLimits.t :=
  ResourceLimits.mk (Spec.effective_memory_limit_bytes spec) (Spec.effective_memory_request_bytes spec)
    (c ← Spec.container_cpu_limit spec; if positive_finite c then Some c else None).

(** [filter(|s| !s.is_empty())] *)
Definition nonempty (o : option string) : option string :=
  s ← o; if str_is_empty s then None else Some s.

Definition creds_from_spec (env : string -> EnvVar) (spec : Spec.t)
  : Result (option RegistryCredentials.t) string :=
  match nonempty (Spec.docker_registry_username spec), nonempty (Spec.docker_registry_password spec) with
  | Some u, Some p =>
    let? password := result_map_err ConfigError.display (interpolate_value env p) in
    Ok (Some (RegistryCredentials.mk u password (nonempty (Spec.docker_registry_domain spec)) None))
  | _, _ => Ok None
  end.

Definition resolve_creds (env : Env.t) (spec : Spec.t) : Result (option RegistryCredentials.t) string :=
  let stored :=
    name ← nonempty (Spec.docker_registry_credential spec);
    store ← Env.credential_store env;
    match store name with Ok (Some c) => Some c | Ok None | Err _ => None end in
  match stored with
  | Some c => Ok (Some c)
  | None => creds_from_spec (Env.vars env) spec
  end.

(** The optional parts of a request, in the order both spawn paths add them. *)
Definition apply_opt {A} (o : option A) (f : A -> SpawnRequest.t -> SpawnRequest.t) (req : SpawnRequest.t)
  : SpawnRequest.t := match o with Some x => f x req | None => req end.

Definition request_options (spec : Spec.t) (cmd : option (list string)) (creds : option RegistryCredentials.t)
    (req : SpawnRequest.t) : SpawnRequest.t :=
  let labels := Spec.effective_labels spec in
  apply_opt creds SpawnRequest.with_creds
    (apply_opt (match labels with [] => None | _ => Some labels end) SpawnRequest.with_labels
      (apply_opt (Spec.effective_container_network spec) SpawnRequest.with_network
        (apply_opt cmd SpawnRequest.with_cmd
          (apply_opt (Spec.platform spec) SpawnRequest.with_platform
            (apply_opt (Spec.effective_inner_port spec) SpawnRequest.with_port
              (apply_opt (Spec.container_wait_time spec) SpawnRequest.with_readiness_timeout_ms req)))))).

Definition base_request (spec : Spec.t) (image : string) (limits : ResourceLimits.t) (env : list string)
  : SpawnRequest.t :=
  SpawnRequest.with_anti_affinity (Spec.effective_anti_affinity spec)
    (SpawnRequest.with_placement (Spec.effective_placement spec)
      (SpawnRequest.with_env env
        (SpawnRequest.with_volumes (default [] (Spec.volumes spec))
          (SpawnRequest.with_limits limits (SpawnRequest.new (Spec.id spec) image))))).

Definition resolved_env (env : Env.t) (spec : Spec.t) : Result (list string) string :=
  result_map_err (fun e => "spec " +:+ Spec.id spec +:+ " container-env: " +:+ ConfigError.display e)
    (Spec.resolved_env_pairs (Env.vars env) spec).

Definition image_of (spec : Spec.t) : Result string string :=
  match Spec.container_image spec with
  | Some image => Ok image
  | None => Err ("spec " +:+ Spec.id spec +:+ " has no container-image")
  end.

(** The request of an on-demand spawn (proxy.rs). *)
Definition on_demand_request (env : Env.t) (spec : Spec.t) : Result SpawnRequest.t string :=
  let? image := image_of spec in
  let? creds := resolve_creds env spec in
  let? pairs := resolved_env env spec in
  Ok (request_options spec (Spec.container_cmd spec) creds
        (base_request spec image (limits_from_spec spec) pairs)).

(** The request of a scaler, splash or dashboard spawn (scaler.rs). *)
Definition capacity_request (env : Env.t) (spec : Spec.t) : Result SpawnRequest.t string :=
  let? image := image_of spec in
  let? creds := resolve_creds env spec in
  let? pairs := resolved_env env spec in
  let '(pairs, cmd) :=
    apply_public_path (public_path (Env.base_path env) spec) pairs (Spec.container_cmd spec) in
  Ok (request_options spec cmd creds (base_request spec image (limits_from_spec spec) pairs)).

(** ** Operations *)

Section Operations.
Context {B : Type} `{ContainerBackend B}.
Abbreviation M A := (St (World.t B) A).

(** A call of the backend. *)
Definition call_backend {A} (op : B -> A * B) (none : A) : M A := fun w =>
  match World.backend w with
  | Some b => let '(a, b') := op b in (a, World.set_backend (Some b') w)
  | None => (none, w)
  end.

Definition lock_entry (spec_id : string) : M unit :=
  st_modify (fun w => World.set_spawn_locks ({[spec_id]} ∪ World.spawn_locks w) w).

(** [reg.inc_sessions] when the pick reserves a seat. *)
Definition reserve_seat (reserve : bool) (i : ReplicaId) : M unit :=
  st_modify (fun w =>
    if reserve then World.set_replicas (Registry.inc_sessions i (World.replicas w)) w else w).

(** Pick under the write lock with one of the selectors, and reserve. *)
Definition pick_and_reserve
    (pick : Inflight.t -> list Replica.t -> RoutingStrategy.t -> bool -> Z -> option Replica.t * Z)
    (spec : Spec.t) : M (option (Replica.t * bool)) := fun w =>
  let api := is_api spec in
  let reserve := negb api in
  let '(picked, counter) :=
    pick (World.inflight w) (World.pool w (Spec.id spec)) (Spec.effective_routing spec) api (World.counter w) in
  let w := World.set_counter counter w in
  match picked with
  | Some r => let '(_, w) := reserve_seat reserve (Replica.id r) w in (Some (r, reserve), w)
  | None => (None, w)
  end.

(** The critical section of the fast path. *)
Definition pick_fast (spec : Spec.t) : M (option (Replica.t * bool)) := pick_and_reserve pick_accepting spec.

Definition starting_with_seat (r : Replica.t) : bool :=
  ReplicaState.eqb (Replica.state r) ReplicaState.Starting && (0 <? Replica.available_seats r).

(** The double-check under the spec mutex; [None] falls through to a spawn. *)
Definition pick_checked (spec : Spec.t) : M (option (Replica.t * bool)) :=
  let reserve := negb (is_api spec) in
  do fast <- pick_fast spec;
  match fast with
  | Some x => st_ret (Some x)
  | None =>
    do replicas <- st_get (fun w => World.pool w (Spec.id spec));
    match List.find starting_with_seat replicas with
    | Some r => do! reserve_seat reserve (Replica.id r); st_ret (Some (r, reserve))
    | None =>
      if is_api spec || (Spec.effective_max_replicas spec <=? zlen replicas)
      then pick_and_reserve pick_replica spec
      else st_ret None
    end
  end.

(** The insert at the end of an on-demand spawn. *)
Definition insert_spawned (spec : Spec.t) (replica : Replica.t) : M (Replica.t * bool) :=
  let reserve := negb (is_api spec) in
  let replica := Replica.set_sessions_max (Spec.effective_seats spec) replica in
  do! st_modify (fun w => World.set_replicas (Registry.add replica (World.replicas w)) w);
  do! reserve_seat reserve (Replica.id replica);
  st_ret (replica, reserve).

Definition backend_error (prefix : string) (e : CoreError.t) : string := prefix +:+ CoreError.display e.

(** The spawn half, after the double-check. *)
Definition spawn_on_demand (env : Env.t) (spec : Spec.t) : M (Result (Replica.t * bool) string) :=
  do backend <- st_get (@World.backend B);
  match backend with
  | None => st_ret (Err "no backend")
  | Some _ =>
    match on_demand_request env spec with
    | Err e => st_ret (Err e)
    | Ok req =>
      do spawned <- call_backend (spawn_request req) (Err (CoreError.Backend ""));
      match spawned with
      | Err e => st_ret (Err (backend_error "backend spawn: " e))
      | Ok replica => do x <- insert_spawned spec replica; st_ret (Ok x)
      end
    end
  end.

Definition pick_or_spawn (env : Env.t) (spec : Spec.t) : M (Result (Replica.t * bool) string) :=
  do fast <- pick_fast spec;
  match fast with
  | Some x => st_ret (Ok x)
  | None =>
    do! lock_entry (Spec.id spec);
    do checked <- pick_checked spec;
    match checked with
    | Some x => st_ret (Ok x)
    | None => spawn_on_demand env spec
    end
  end.

(** *** Adding capacity (scaler.rs) *)

Inductive SpawnIntent := AddCapacity | EnsureAvailable.

Definition coming_or_accepting (r : Replica.t) : bool :=
  ReplicaState.eqb (Replica.state r) ReplicaState.Starting || Replica.is_accepting r.

(** Refused under the mutex: capacity is already there, or the cap is reached. *)
Definition spawn_refused (spec : Spec.t) (intent : SpawnIntent) (w : World.t B) : bool :=
  let replicas := World.pool w (Spec.id spec) in
  match intent with
  | EnsureAvailable => existsb coming_or_accepting replicas
  | AddCapacity => false
  end
  || (Spec.effective_max_replicas spec <=? zlen replicas).

Definition spawn_one (env : Env.t) (spec : Spec.t) (intent : SpawnIntent) : M (Result unit string) :=
  do! lock_entry (Spec.id spec);
  do refused <- st_get (spawn_refused spec intent);
  if refused then st_ret (Ok tt)
  else
    match capacity_request env spec with
    | Err e => st_ret (Err e)
    | Ok req =>
      do spawned <- call_backend (spawn_request req) (Err (CoreError.Backend ""));
      match spawned with
      | Err e => st_ret (Err (backend_error "backend spawn: " e))
      | Ok replica =>
        let replica := Replica.set_sessions_max (Spec.effective_seats spec) replica in
        do! st_modify (fun w => World.set_replicas (Registry.add replica (World.replicas w)) w);
        st_ret (Ok tt)
      end
    end.

Definition with_wired_backend (m : M (Result unit string)) : M (Result unit string) :=
  do backend <- st_get (@World.backend B);
  match backend with
  | None => st_ret (Err "no container backend wired")
  | Some _ => m
  end.

Definition spawn_replica (env : Env.t) (spec : Spec.t) : M (Result unit string) :=
  with_wired_backend (spawn_one env spec AddCapacity).

Definition ensure_replica_available (env : Env.t) (spec : Spec.t) : M (Result unit string) :=
  with_wired_backend (spawn_one env spec EnsureAvailable).

(** *** Removing a replica *)

(** [state.metrics.remove] and [inflight_forget] *)
Definition forget_gauges (i : ReplicaId) : M unit :=
  st_modify (fun w => World.set_inflight (Inflight.inflight_forget i (World.inflight w))
                        (World.set_metrics (World.metrics w ∖ {[i]}) w)).

Definition drop_sessions (i : ReplicaId) : M unit :=
  st_modify (fun w => World.set_sessions (InMemorySessionStore.drop_replica i (World.sessions w)).2 w).

Definition cleanup_replica_state (i : ReplicaId) : M (option Replica.t) :=
  do removed <- (fun w => let '(r, reg) := Registry.remove i (World.replicas w) in (r, World.set_replicas reg w));
  do! drop_sessions i;
  do! forget_gauges i;
  st_ret removed.

Definition stop_one (i : ReplicaId) : M (Result unit string) :=
  do stopped <- call_backend (stop i) (Ok tt);
  do! cleanup_replica_state i;
  st_ret (result_map_err (backend_error "backend stop: ") stopped).

Definition stop_spec (spec_id : string) : M nat :=
  do backend <- st_get (@World.backend B);
  match backend with
  | None => st_ret 0%nat
  | Some _ =>
    do ids <- st_get (fun w => map Replica.id (World.pool w spec_id));
    do! st_for ids (fun i => do! stop_one i; st_ret tt);
    st_ret (length ids)
  end.
End Operations.

(** ** A backend for the examples: it numbers its replicas *)

Module CountingBackend.
Definition spawned (b : N) (req : SpawnRequest.t) : Replica.t :=
  Replica.mk b (SpawnRequest.spec_id req) "c" "127.0.0.1:1" ReplicaState.Ready 0 0 1 None.

(** The next id, and the labels given. *)
Definition t : Type := N * gmap ReplicaId string.

Definition labels (b : t) : gmap ReplicaId string := filter (fun kv => (kv.1 < b.1)%N) b.2.

#[global] Instance counting_backend : ContainerBackend t := {
  spawn_request req b :=
    (Ok (spawned b.1 req), ((b.1 + 1)%N, <[b.1 := SpawnRequest.spec_id req]> (labels b)));
  stop i b := (Ok tt, b);
  replica_liveness qs b := (Ok (ReplicaLivenessReport.unknown qs), b);
  wait_until_ready_with_timeout r t b := (Ok tt, b);
  remove_container c b := (Ok tt, b)
}.

Lemma labels_next b : labels b !! b.1 = None.
Proof. apply map_lookup_filter_None. right. intros x _. cbn. lia. Qed.

#[global] Instance counting_backend_laws : ContainerBackendLaws t.
Proof.
  refine {| issued := labels |}; try done.
  - intros req b r b' [= <- <-]. cbn -[labels lookup insert]. split; [done|]. split; [done|]. split; [by left|].
    split; [apply labels_next|]. unfold labels at 1 3. cbn -[labels lookup insert]. split.
    + apply map_lookup_filter_Some. cbn. rewrite lookup_insert_eq. split; [done|lia].
    + apply map_subseteq_spec. intros i x Hi. apply map_lookup_filter_Some. cbn.
      assert (i <> b.1) as Hne by (intros ->; by rewrite labels_next in Hi).
      rewrite lookup_insert_ne by done. split; [done|]. apply map_lookup_filter_Some in Hi as [_ Hi]. cbn in Hi. lia.
  - intros qs b rep b' r [= <- <-]. cbn. intros Hr%not_elem_of_nil. done.
Defined.

Definition example_env : Env.t := Env.mk "" (fun _ => EnvNotPresent) None (fun _ => 0).

Definition world (rs : list Replica.t) (next : N) : World.t t :=
  World.mk (Registry.reset rs Registry.empty) ∅ ∅ ∅ 0 AlertSink.new ∅ ∅
    (Some (next, list_to_map (map (fun r => (Replica.id r, Replica.spec_id r)) rs))).
End CountingBackend.

(** ** Lemmas *)

Section Lemmas.
Context {B : Type} `{ContainerBackendLaws B}.
Implicit Types (w : World.t B) (spec : Spec.t).

(** Registered replicas carry issued ids, with their specs. *)
Record world_wf (w : World.t B) : Prop := {
  world_registry : Registry.wf (World.replicas w);
  world_issued : forall b i r, World.backend w = Some b ->
    Registry.by_id (World.replicas w) !! i = Some r -> issued b !! i = Some (Replica.spec_id r) }.

Lemma pool_elem w spec_id r :
  Registry.wf (World.replicas w) -> r ∈ World.pool w spec_id ->
  Registry.by_id (World.replicas w) !! Replica.id r = Some r /\ Replica.spec_id r = spec_id.
Proof.
  intros Hwf Hr. split; [|by eapply Registry.wf_spec_id].
  apply Registry.by_id_lookup; [done|]. split; [|done]. by eapply Registry.elem_of_replicas_of_all.
Qed.

(** What a pick does to the registry. *)
Definition seat_taken (reserve : bool) (i : ReplicaId) (reg : ReplicaRegistry) : ReplicaRegistry :=
  if reserve then Registry.inc_sessions i reg else reg.

Lemma seat_taken_wf reserve i reg : Registry.wf reg -> Registry.wf (seat_taken reserve i reg).
Proof. destruct reserve; simpl; [|done]. unfold Registry.inc_sessions. eauto with ruscker. Qed.

Lemma seat_taken_lookup reserve i reg j : Registry.wf reg ->
  Registry.by_id (seat_taken reserve i reg) !! j
  = if decide (j = i) then (if reserve then Registry.inc else id) <$> Registry.by_id reg !! j
    else Registry.by_id reg !! j.
Proof.
  intros Hwf. destruct reserve; simpl.
  - rewrite Accounting.by_id_inc by done. repeat case_decide; congruence.
  - case_decide; [|done]. by destruct (Registry.by_id reg !! j).
Qed.

Lemma seat_taken_length reserve i reg k : Registry.wf reg ->
  length (Registry.replicas_of (seat_taken reserve i reg) k) = length (Registry.replicas_of reg k).
Proof.
  intros Hwf. destruct reserve; simpl; [|done]. unfold Registry.inc_sessions.
  by rewrite Registry.replicas_of_update, Registry.length_update_first.
Qed.

Lemma pick_and_reserve_spec pick spec w o w' :
  pick_and_reserve pick spec w = (o, w') ->
  exists c, World.counter w' = c
    /\ pick (World.inflight w) (World.pool w (Spec.id spec)) (Spec.effective_routing spec) (is_api spec)
         (World.counter w) = (fst <$> o, c)
    /\ match o with
       | Some (r, reserve) => reserve = negb (is_api spec)
         /\ w' = World.set_replicas (seat_taken reserve (Replica.id r) (World.replicas w)) (World.set_counter c w)
       | None => w' = World.set_counter c w
       end.
Proof.
  unfold pick_and_reserve. destruct (pick _ _ _ _ _) as [[r|] c]; intros [= <- <-]; exists c.
  - unfold reserve_seat, st_modify. simpl. destruct (is_api spec); simpl; by destruct w.
  - by destruct w.
Qed.

(** The outcome of the two checked picks, as one relation: an existing
    replica of the pool whose seat was taken. *)
Definition picked (spec : Spec.t) (w : World.t B) (r : Replica.t) (reserve : bool) (w' : World.t B) : Prop :=
  r ∈ World.pool w (Spec.id spec) /\ reserve = negb (is_api spec)
  /\ World.replicas w' = seat_taken reserve (Replica.id r) (World.replicas w)
  /\ World.backend w' = World.backend w.

Lemma pick_fast_Some spec w r reserve w' :
  pick_fast spec w = (Some (r, reserve), w') ->
  picked spec w r reserve w' /\ Replica.is_accepting r = true.
Proof.
  intros (c & _ & Hp & -> & ->)%pick_and_reserve_spec. simpl in Hp.
  apply pick_accepting_Some in Hp as [Hin Hacc]. by repeat split.
Qed.

Lemma pick_fast_None spec w w' :
  pick_fast spec w = (None, w') ->
  World.replicas w' = World.replicas w /\ World.backend w' = World.backend w
  /\ forall r, r ∈ World.pool w (Spec.id spec) -> Replica.is_accepting r = false.
Proof.
  intros (c & _ & Hp & ->)%pick_and_reserve_spec. repeat split; try by destruct w.
  apply (pick_accepting_None (World.inflight w) _ (Spec.effective_routing spec) (is_api spec) (World.counter w)).
  by rewrite Hp.
Qed.

Lemma starting_with_seat_spec r :
  starting_with_seat r = true <->
  Replica.state r = ReplicaState.Starting /\ Replica.sessions_active r < Replica.sessions_max r.
Proof.
  unfold starting_with_seat, Replica.available_seats, ReplicaState.eqb, saturating_sub.
  rewrite andb_true_iff, bool_decide_eq_true, Z.ltb_lt. split; intros [? ?]; split; try done; lia.
Qed.

Definition has_free_seat (r : Replica.t) : bool := Replica.is_accepting r || starting_with_seat r.

(** The seat cap applies: a seat-based spec below its replica ceiling. *)
Definition seat_capped (spec : Spec.t) (w : World.t B) : Prop :=
  is_api spec = false /\ zlen (World.pool w (Spec.id spec)) < Spec.effective_max_replicas spec.

Lemma capped_iff spec w :
  (is_api spec || (Spec.effective_max_replicas spec <=? zlen (World.pool w (Spec.id spec)))) = false
  <-> seat_capped spec w.
Proof. unfold seat_capped. rewrite orb_false_iff, Z.leb_gt. done. Qed.

Lemma pick_checked_Some spec w r reserve w' :
  pick_checked spec w = (Some (r, reserve), w') ->
  picked spec w r reserve w'
  /\ (has_free_seat r = true \/ (~ seat_capped spec w /\ Replica.state r = ReplicaState.Ready)).
Proof.
  unfold pick_checked, st_bind. destruct (pick_fast spec w) as [[x|] w1] eqn:E.
  - intros [= -> ->]. apply pick_fast_Some in E as [Hp Ha]. split; [done|]. left. unfold has_free_seat. by rewrite Ha.
  - apply pick_fast_None in E as (Hr1 & Hb1 & _). unfold st_get.
    assert (World.pool w1 (Spec.id spec) = World.pool w (Spec.id spec)) as Hpool by (unfold World.pool; by rewrite Hr1).
    rewrite Hpool. destruct (List.find starting_with_seat _) as [q|] eqn:Ef.
    + apply find_elem in Ef as [Hin Hs]. unfold reserve_seat, st_modify, st_ret. intros [= <- <- <-].
      split; [|left; unfold has_free_seat; rewrite Hs; apply orb_true_r].
      split; [done|]. split; [done|]. rewrite <- Hr1. destruct (is_api spec); simpl; by destruct w1.
    + destruct (_ || _) eqn:Ec; [|done]. intros Hp.
      apply pick_and_reserve_spec in Hp as (c & _ & Hp & -> & ->). simpl in Hp.
      pose proof (pick_replica_elem (World.inflight w1) (World.pool w1 (Spec.id spec)) (Spec.effective_routing spec)
                    (is_api spec) (World.counter w1) r c Hp) as [Hin Hst].
      split.
      * rewrite Hpool in Hin. split; [done|]. split; [done|]. rewrite <- Hr1. by destruct w1.
      * right. split; [|done]. rewrite <- capped_iff. congruence.
Qed.

Lemma pick_checked_None spec w w' :
  pick_checked spec w = (None, w') ->
  World.replicas w' = World.replicas w /\ World.backend w' = World.backend w
  /\ (forall r, r ∈ World.pool w (Spec.id spec) -> has_free_seat r = false)
  /\ (seat_capped spec w \/ forall r, r ∈ World.pool w (Spec.id spec) -> Replica.state r <> ReplicaState.Ready).
Proof.
  unfold pick_checked, st_bind. destruct (pick_fast spec w) as [[x|] w1] eqn:E; [done|].
  apply pick_fast_None in E as (Hr1 & Hb1 & Hacc). unfold st_get.
  assert (World.pool w1 (Spec.id spec) = World.pool w (Spec.id spec)) as Hpool by (unfold World.pool; by rewrite Hr1).
  rewrite Hpool. destruct (List.find starting_with_seat _) as [q|] eqn:Ef; [done|].
  assert (forall r, r ∈ World.pool w (Spec.id spec) -> has_free_seat r = false) as Hfree.
  { intros r Hr. unfold has_free_seat. rewrite (Hacc r Hr). by apply (find_none_elem _ _ _ Ef). }
  destruct (_ || _) eqn:Ec.
  - intros Hp. apply pick_and_reserve_spec in Hp as (c & _ & Hp & ->). simpl in Hp.
    repeat split; try by destruct w1. right.
    apply (pick_replica_None (World.inflight w1) _ (Spec.effective_routing spec) (is_api spec) (World.counter w1)).
    rewrite <- Hpool. by rewrite Hp.
  - intros [= <-]. repeat split; try done. left. by apply capped_iff.
Qed.

Lemma request_options_spec_id spec cmd creds req :
  SpawnRequest.spec_id (request_options spec cmd creds req) = SpawnRequest.spec_id req.
Proof. unfold request_options, apply_opt. repeat split_match; reflexivity. Qed.

Lemma on_demand_request_spec_id env spec req :
  on_demand_request env spec = Ok req -> SpawnRequest.spec_id req = Spec.id spec.
Proof.
  unfold on_demand_request, result_bind. repeat (split_match; try done).
  intros [= <-]. by rewrite request_options_spec_id.
Qed.

Lemma capacity_request_spec_id env spec req :
  capacity_request env spec = Ok req -> SpawnRequest.spec_id req = Spec.id spec.
Proof.
  unfold capacity_request, result_bind. repeat (split_match; try done).
  intros [= <-]. by rewrite request_options_spec_id.
Qed.

(** A fresh replica of the spec's own, as a spawn registers it. *)
Record spawned (spec : Spec.t) (w : World.t B) (r : Replica.t) : Prop := {
  spawned_spec : Replica.spec_id r = Spec.id spec;
  spawned_idle : Replica.sessions_active r = 0;
  spawned_seats : Replica.sessions_max r = Spec.effective_seats spec;
  spawned_state : Replica.state r = ReplicaState.Ready \/ Replica.state r = ReplicaState.Starting;
  spawned_fresh : Registry.by_id (World.replicas w) !! Replica.id r = None }.

Lemma spawn_on_demand_Ok env spec w r reserve w' :
  world_wf w -> spawn_on_demand env spec w = (Ok (r, reserve), w') ->
  spawned spec w r /\ reserve = negb (is_api spec)
  /\ World.replicas w' = seat_taken reserve (Replica.id r) (Registry.add r (World.replicas w))
  /\ exists b b', World.backend w = Some b /\ World.backend w' = Some b'
     /\ issued b ⊆ issued b' /\ issued b' !! Replica.id r = Some (Replica.spec_id r).
Proof.
  intros [Hwf Hiss]. unfold spawn_on_demand, st_bind, st_get. destruct (World.backend w) as [b|] eqn:Eb; [|done].
  destruct (on_demand_request env spec) as [req|] eqn:Er; [|done].
  unfold call_backend. rewrite Eb. destruct (spawn_request req b) as [[r0|e] b'] eqn:Es; [|done].
  unfold insert_spawned, st_bind, st_modify, reserve_seat, st_ret. simpl. intros [= <- <- <-].
  apply spawn_ok in Es as (Hsp & Hidle & Hst & Hfr & Hin & Hsub). rewrite (on_demand_request_spec_id env spec req Er) in Hsp.
  split; [|split; [done|split]].
  - split; simpl; try done. destruct (Registry.by_id (World.replicas w) !! Replica.id r0) eqn:El; [|done].
    pose proof (Hiss _ _ _ eq_refl El). congruence.
  - destruct (is_api spec); by destruct w.
  - exists b, b'. destruct (is_api spec); destruct w; by repeat split.
Qed.

Lemma spawn_on_demand_Err env spec w e w' :
  spawn_on_demand env spec w = (Err e, w') -> World.replicas w' = World.replicas w.
Proof.
  unfold spawn_on_demand, st_bind, st_get. destruct (World.backend w) as [b|] eqn:Eb; [|by intros [= _ <-]].
  destruct (on_demand_request env spec) as [req|] eqn:Er; [|by intros [= _ <-]].
  unfold call_backend. rewrite Eb. destruct (spawn_request req b) as [[r0|e0] b'] eqn:Es; [done|].
  intros [= _ <-]. by destruct w.
Qed.

(** Either of the two ways [pick_or_spawn] succeeds. *)
Lemma pick_or_spawn_Ok env spec w r reserve w' :
  world_wf w -> pick_or_spawn env spec w = (Ok (r, reserve), w') ->
  reserve = negb (is_api spec) /\
  ((picked spec w r reserve w'
    /\ (has_free_seat r = true \/ (~ seat_capped spec w /\ Replica.state r = ReplicaState.Ready)))
   \/ (spawned spec w r
       /\ World.replicas w' = seat_taken reserve (Replica.id r) (Registry.add r (World.replicas w))
       /\ (forall q, q ∈ World.pool w (Spec.id spec) -> has_free_seat q = false)
       /\ (seat_capped spec w \/ forall q, q ∈ World.pool w (Spec.id spec) -> Replica.state q <> ReplicaState.Ready))).
Proof.
  intros Hw. unfold pick_or_spawn, st_bind. destruct (pick_fast spec w) as [[x|] w1] eqn:E.
  - intros [= -> ->]. apply pick_fast_Some in E as [Hp Ha]. split; [by destruct Hp as (_ & -> & _)|].
    left. split; [done|]. left. unfold has_free_seat. by rewrite Ha.
  - apply pick_fast_None in E as (Hr1 & Hb1 & _). unfold lock_entry, st_modify.
    set (w2 := World.set_spawn_locks _ w1).
    assert (World.replicas w2 = World.replicas w) as Hr2 by (rewrite <- Hr1; by destruct w1).
    assert (World.backend w2 = World.backend w) as Hb2 by (rewrite <- Hb1; by destruct w1).
    assert (World.pool w2 (Spec.id spec) = World.pool w (Spec.id spec)) as Hpool by (unfold World.pool; by rewrite Hr2).
    assert (seat_capped spec w2 <-> seat_capped spec w) as Hcap by (unfold seat_capped; by rewrite Hpool).
    destruct (pick_checked spec w2) as [[[q res]|] w3] eqn:E2.
    + intros [= -> -> ->]. apply pick_checked_Some in E2 as [(Hin & Hres & Hreg & Hb) Hseat].
      split; [done|]. left. rewrite Hpool in Hin. rewrite Hr2 in Hreg. rewrite Hb2 in Hb.
      split; [by repeat split|]. by rewrite <- Hcap.
    + apply pick_checked_None in E2 as (Hr3 & Hb3 & Hfree & Hmode). intros Hs.
      assert (world_wf w3) as Hw3.
      { destruct Hw as [Hwf Hiss]. split; [by rewrite Hr3, Hr2|]. rewrite Hb3, Hb2, Hr3, Hr2. done. }
      apply spawn_on_demand_Ok in Hs as (Hsp & Hres & Hreg & _); [|done].
      split; [done|]. right. rewrite Hr3, Hr2 in Hreg. rewrite Hpool in Hfree, Hmode. rewrite Hcap in Hmode.
      split; [|by repeat split]. destruct Hsp as [? ? ? ? Hfr]. split; try done. by rewrite Hr3, Hr2 in Hfr.
Qed.
End Lemmas.

(** ** Capacity and removal *)

Section Capacity.
Context {B : Type} `{ContainerBackendLaws B}.
Implicit Types (w : World.t B) (spec : Spec.t).

Lemma pool_add_own spec w r :
  Replica.spec_id r = Spec.id spec ->
  Registry.replicas_of (Registry.add r (World.replicas w)) (Spec.id spec) = World.pool w (Spec.id spec) ++ [r].
Proof. intros Hs. by rewrite Registry.replicas_of_add, decide_True. Qed.

(** [spawn_one] either leaves the registry alone or adds one fresh replica to
    the spec's pool, below its ceiling. *)
Lemma spawn_one_spec env spec intent w res w' :
  world_wf w -> spawn_one env spec intent w = (res, w') ->
  (World.replicas w' = World.replicas w
   \/ exists r, res = Ok tt /\ spawned spec w r
      /\ World.replicas w' = Registry.add r (World.replicas w)
      /\ spawn_refused spec intent w = false)
  /\ (spawn_refused spec intent w = true -> res = Ok tt /\ World.replicas w' = World.replicas w).
Proof.
  intros [Hwf Hiss]. unfold spawn_one, st_bind, lock_entry, st_modify, st_get.
  set (w1 := World.set_spawn_locks _ w).
  assert (World.replicas w1 = World.replicas w) as Hr1 by (by destruct w).
  assert (World.backend w1 = World.backend w) as Hb1 by (by destruct w).
  assert (spawn_refused spec intent w1 = spawn_refused spec intent w) as -> by (unfold spawn_refused, World.pool; by rewrite Hr1).
  destruct (spawn_refused spec intent w) eqn:Eref; [intros [= <- <-]; auto|].
  intros Hs. split; [|done]. revert Hs. destruct (capacity_request env spec) as [req|] eqn:Er; [|intros [= _ <-]; auto].
  unfold call_backend. rewrite Hb1. destruct (World.backend w) as [b|] eqn:Eb; [|intros [= _ <-]; auto].
  destruct (spawn_request req b) as [[r0|e] b'] eqn:Es; intros [= <- <-]; [|left; by destruct w].
  right. apply spawn_ok in Es as (Hsp & Hidle & Hst & Hfr & Hin & Hsub).
  rewrite (capacity_request_spec_id env spec req Er) in Hsp.
  eexists. split; [done|]. split; [|split; [by destruct w|done]].
  split; simpl; try done. destruct (Registry.by_id (World.replicas w) !! Replica.id r0) eqn:El; [|done].
  pose proof (Hiss _ _ _ eq_refl El). congruence.
Qed.

(** *** Removal *)

Definition forgotten (i : ReplicaId) (w : World.t B) : Prop :=
  Registry.by_id (World.replicas w) !! i = None
  /\ (forall sid e, World.sessions w !! sid = Some e -> SessionEntry.replica_id e <> i)
  /\ i ∉ World.metrics w /\ Inflight.inflight_count (World.inflight w) i = 0.

Lemma cleanup_spec i w :
  Registry.wf (World.replicas w) ->
  let '(removed, w') := cleanup_replica_state i w in
  removed = Registry.by_id (World.replicas w) !! i /\ forgotten i w' /\ Registry.wf (World.replicas w')
  /\ Registry.by_id (World.replicas w') = delete i (Registry.by_id (World.replicas w))
  /\ (forall k, World.pool w' k = remove_first (has_id i) (World.pool w k))
  /\ World.backend w' = World.backend w /\ World.alerts w' = World.alerts w
  /\ (forall j, j <> i -> forgotten j w -> forgotten j w').
Proof.
  intros Hwf. unfold cleanup_replica_state, st_bind, drop_sessions, forget_gauges, st_modify, st_ret.
  destruct (Registry.remove i (World.replicas w)) as [o reg] eqn:E.
  pose proof (Registry.remove_spec i _ Hwf) as [Ho Hd]. pose proof (Registry.wf_remove i _ Hwf) as Hwf'.
  pose proof (fun k => Registry.replicas_of_remove i _ k Hwf) as Hpool. rewrite E in Ho, Hd, Hwf', Hpool.
  simpl in Ho, Hd, Hwf', Hpool. cbn -[InMemorySessionStore.drop_replica].
  rewrite InMemorySessionStore.drop_replica_store. simpl.
  split; [done|]. unfold forgotten. simpl. split.
  - split; [rewrite Hd; apply lookup_delete_eq|]. split.
    + intros sid e [_ He]%map_lookup_filter_Some. done.
    + split; [set_solver|]. unfold Inflight.inflight_count, Inflight.inflight_forget. by rewrite lookup_delete_eq.
  - split; [done|]. split; [done|]. split; [done|]. split; [done|]. split; [done|].
    intros j Hj (H1 & H2 & H3 & H4). split; [|split; [|split]]; simpl.
    + rewrite Hd. rewrite lookup_delete_ne; done.
    + intros sid e [He _]%map_lookup_filter_Some. by apply (H2 sid).
    + set_solver.
    + unfold Inflight.inflight_count, Inflight.inflight_forget in *. by rewrite lookup_delete_ne.
Qed.

Lemma cleanup_sessions i w :
  let '(_, w') := cleanup_replica_state i w in
  World.sessions w' = filter (fun kv => SessionEntry.replica_id kv.2 <> i) (World.sessions w)
  /\ World.metrics w' = World.metrics w ∖ {[i]}
  /\ World.inflight w' = Inflight.inflight_forget i (World.inflight w).
Proof.
  unfold cleanup_replica_state, st_bind, drop_sessions, forget_gauges, st_modify, st_ret.
  destruct (Registry.remove i (World.replicas w)) as [o reg]. cbn -[InMemorySessionStore.drop_replica].
  by rewrite InMemorySessionStore.drop_replica_store.
Qed.

Lemma stop_one_spec i w :
  Registry.wf (World.replicas w) ->
  let '(_, w') := stop_one i w in
  forgotten i w' /\ Registry.wf (World.replicas w')
  /\ Registry.by_id (World.replicas w') = delete i (Registry.by_id (World.replicas w))
  /\ (forall k, World.pool w' k = remove_first (has_id i) (World.pool w k))
  /\ (forall j, j <> i -> forgotten j w -> forgotten j w').
Proof.
  intros Hwf. unfold stop_one, st_bind, st_ret.
  destruct (call_backend (stop i) (Ok tt) w) as [res w1] eqn:E.
  assert (exists b, w1 = World.set_backend b w) as [b ->].
  { unfold call_backend in E. destruct (World.backend w) as [b|] eqn:Eb.
    - destruct (stop i b) as [x b']. injection E as _ <-. eauto.
    - injection E as _ <-. exists None. destruct w. simpl in Eb. by subst. }
  pose proof (cleanup_spec i (World.set_backend b w) Hwf) as Hc.
  destruct (cleanup_replica_state i _) as [o w'].
  destruct Hc as (_ & Hf & Hwf' & Hd & Hp & _ & _ & Hother). 
  split; [exact Hf|]. split; [exact Hwf'|]. split; [exact Hd|]. split; [exact Hp|exact Hother].
Qed.

Lemma stop_each_spec ids w :
  Registry.wf (World.replicas w) ->
  let '(_, w') := st_for ids (fun i => st_bind (stop_one i) (fun _ => st_ret tt)) w in
  Registry.wf (World.replicas w')
  /\ (forall i, i ∈ ids -> forgotten i w')
  /\ (forall j, j ∉ ids -> Registry.by_id (World.replicas w') !! j = Registry.by_id (World.replicas w) !! j)
  /\ (forall j, j ∉ ids -> forgotten j w -> forgotten j w').
Proof.
  revert w; induction ids as [|i ids IH]; intros w Hwf; cbn [st_for].
  - unfold st_ret. split; [done|]. split; [set_solver|]. done.
  - unfold st_bind. pose proof (stop_one_spec i w Hwf) as Hs. destruct (stop_one i w) as [res w1].
    destruct Hs as (Hf & Hwf1 & Hd & _ & Hother). cbn [st_ret].
    specialize (IH w1 Hwf1). unfold st_bind in IH. destruct (st_for ids _ w1) as [u w'].
    destruct IH as (Hwf' & Hall & Hrest & Hkeep). split; [done|].
    split; [|split].
    + intros j [->|Hj]%elem_of_cons; [|by apply Hall].
      destruct (decide (i ∈ ids)); [by apply Hall|by apply Hkeep].
    + intros j [Hne Hj]%not_elem_of_cons. rewrite Hrest, Hd by done. by apply lookup_delete_ne.
    + intros j [Hne Hj]%not_elem_of_cons Hfj. apply Hkeep; [done|]. by apply Hother.
Qed.
End Capacity.

(** ** The world invariant

    Every operation keeps the registry well formed and its ids issued. *)

Section Soundness.
Context {B : Type} `{ContainerBackendLaws B}.
Implicit Types (w : World.t B) (spec : Spec.t).

Definition issued_in w : gmap ReplicaId string := match World.backend w with Some b => issued b | None => ∅ end.

Record kept w w' : Prop := {
  kept_wf : world_wf w';
  kept_issued : issued_in w ⊆ issued_in w';
  kept_wired : World.backend w' = None <-> World.backend w = None }.

Definition sound w w' : Prop := world_wf w -> kept w w'.

#[local] Instance sound_preorder : PreOrder sound.
Proof.
  split.
  - intros w Hw. by split.
  - intros w1 w2 w3 H12 H23 Hw. destruct (H12 Hw) as [Hw2 Hi2 Hb2]. destruct (H23 Hw2) as [Hw3 Hi3 Hb3].
    split; [done|by etransitivity|by rewrite Hb3].
Qed.

(** The new registry's replicas were there, for the same specs. *)
Lemma sound_registry w w' :
  (Registry.wf (World.replicas w) -> Registry.wf (World.replicas w')
     /\ forall i r, Registry.by_id (World.replicas w') !! i = Some r ->
          exists r0, Registry.by_id (World.replicas w) !! i = Some r0 /\ Replica.spec_id r0 = Replica.spec_id r) ->
  World.backend w' = World.backend w -> sound w w'.
Proof.
  intros Hreg Hb [Hwf Hiss]. destruct (Hreg Hwf) as [Hwf' Hdom]. split; [|unfold issued_in; by rewrite Hb|by rewrite Hb].
  split; [done|]. rewrite Hb. intros b i r Hbk Hr. destruct (Hdom i r Hr) as (r0 & Hr0 & <-).
  by apply (Hiss b i r0).
Qed.

Lemma sound_same w w' : World.replicas w' = World.replicas w -> World.backend w' = World.backend w -> sound w w'.
Proof. intros Hr. apply sound_registry. rewrite Hr. eauto. Qed.

Lemma sound_call {A} (op : B -> A * B) none :
  (forall b, issued b ⊆ issued (op b).2) -> preserves sound (call_backend op none).
Proof.
  intros Hop w [Hwf Hiss]. unfold call_backend. destruct (World.backend w) as [b|] eqn:Eb.
  - specialize (Hop b). destruct (op b) as [a b']. cbn [snd] in *. split.
    + split; [done|]. intros b0 i r [= <-] Hr. eapply lookup_weaken; [|exact Hop]. by apply (Hiss b i r).
    + unfold issued_in. by rewrite Eb.
    + by rewrite Eb.
  - split; [split; [done|]|done|done]. intros b i r Hb. cbn in Hb. congruence.
Qed.

Lemma sound_cleanup i : preserves sound (cleanup_replica_state (B := B) i).
Proof.
  intros w. pose proof (cleanup_spec i w) as Hc. destruct (cleanup_replica_state i w) as [o w'] eqn:E. cbn [snd].
  assert (World.backend w' = World.backend w) as Hb.
  { revert E. unfold cleanup_replica_state, st_bind, drop_sessions, forget_gauges, st_modify, st_ret.
    destruct (Registry.remove i (World.replicas w)). by intros [= _ <-]. }
  apply sound_registry; [|done]. intros Hwf. destruct (Hc Hwf) as (_ & _ & Hwf' & Hd & _). split; [done|].
  intros j r. rewrite Hd. intros [_ Hr]%lookup_delete_Some. eauto.
Qed.

Lemma sound_stop_one i : preserves sound (stop_one i).
Proof.
  unfold stop_one. apply preserves_bind; [apply _|apply sound_call, stop_issued|]. intros res.
  apply preserves_bind; [apply _|apply sound_cleanup|]. intros _. apply preserves_ret, _.
Qed.

Lemma sound_seat reserve i w w' :
  World.replicas w' = seat_taken reserve i (World.replicas w) -> World.backend w' = World.backend w -> sound w w'.
Proof.
  intros Hr. apply sound_registry. rewrite Hr. intros Hwf. split; [by apply seat_taken_wf|].
  intros j r. rewrite seat_taken_lookup by done. case_decide; [|by eauto].
  intros (r0 & Hr0 & ->)%fmap_Some. exists r0. split; [done|]. by destruct reserve.
Qed.

(** A replica the backend has just spawned may be registered. *)
Lemma sound_spawned req b b' r0 r w w' :
  World.backend w = Some b -> spawn_request req b = (Ok r0, b') -> Replica.id r = Replica.id r0 ->
  Replica.spec_id r = Replica.spec_id r0 ->
  World.replicas w' = Registry.add r (World.replicas w) -> World.backend w' = Some b' -> sound w w'.
Proof.
  intros Eb (_ & _ & _ & Hfr & Hin & Hsub)%spawn_ok Hid Hspec Hreg Hb' [Hwf Hiss].
  assert (Registry.by_id (World.replicas w) !! Replica.id r = None) as Hfresh.
  { rewrite Hid. destruct (Registry.by_id (World.replicas w) !! Replica.id r0) eqn:El; [|done].
    pose proof (Hiss b _ _ Eb El). congruence. }
  split; [|unfold issued_in; by rewrite Eb, Hb'|by rewrite Eb, Hb'].
  split; rewrite Hreg; [by apply Registry.wf_add|]. rewrite Hb'. intros b0 i q [= <-].
  rewrite Registry.by_id_add by done. rewrite lookup_insert_Some. intros [[<- <-]|[_ Hq]]; [by rewrite Hid, Hspec|].
  eapply lookup_weaken; [|exact Hsub]. by apply (Hiss b i q).
Qed.

Lemma sound_spawn_one env spec intent : preserves sound (spawn_one env spec intent).
Proof.
  unfold spawn_one. apply preserves_bind; [apply _| |intros _].
  { intros w. by apply sound_same. }
  apply preserves_bind; [apply _|apply preserves_get, _|]. intros [|]; [apply preserves_ret, _|].
  destruct (capacity_request env spec) as [req|e]; [|apply preserves_ret, _].
  intros w. unfold st_bind, call_backend, st_modify, st_ret. destruct (World.backend w) as [b|] eqn:Eb; [|reflexivity].
  destruct (spawn_request req b) as [[r|e] b'] eqn:Es; cbn [snd].
  - by apply (sound_spawned req b b' r (Replica.set_sessions_max (Spec.effective_seats spec) r)).
  - intros [Hwf Hiss]. apply spawn_err in Es. split; [|unfold issued_in; cbn; by rewrite Eb|cbn; by rewrite Eb].
    split; [done|]. intros b0 i q [= <-] Hq. eapply lookup_weaken; [|exact Es]. by apply (Hiss b i q).
Qed.

Lemma sound_pick_and_reserve pick spec : preserves sound (pick_and_reserve pick spec).
Proof.
  intros w. destruct (pick_and_reserve pick spec w) as [o w'] eqn:E. cbn [snd].
  apply pick_and_reserve_spec in E as (c & _ & _ & Ho). destruct o as [[r reserve]|].
  - destruct Ho as [_ ->]. eapply (sound_seat reserve (Replica.id r)); by destruct w.
  - subst. by apply sound_same.
Qed.

Lemma sound_spawn_on_demand env spec : preserves sound (spawn_on_demand env spec).
Proof.
  unfold spawn_on_demand. apply preserves_bind; [apply _|apply preserves_get, _|]. intros [_|]; [|apply preserves_ret, _].
  destruct (on_demand_request env spec) as [req|e]; [|apply preserves_ret, _].
  intros w. unfold st_bind, call_backend. destruct (World.backend w) as [b|] eqn:Eb; [|reflexivity].
  destruct (spawn_request req b) as [[r|e] b'] eqn:Es; cbn [snd].
  - transitivity (World.set_replicas (Registry.add (Replica.set_sessions_max (Spec.effective_seats spec) r)
                    (World.replicas w)) (World.set_backend (Some b') w)).
    + by apply (sound_spawned req b b' r (Replica.set_sessions_max (Spec.effective_seats spec) r)).
    + eapply (sound_seat (negb (is_api spec)) (Replica.id r)); unfold insert_spawned, st_bind, st_modify, reserve_seat, st_ret;
        cbn; by destruct (is_api spec).
  - intros [Hwf Hiss]. apply spawn_err in Es. split; [|unfold issued_in; cbn; by rewrite Eb|cbn; by rewrite Eb].
    split; [done|]. intros b0 i q [= <-] Hq. eapply lookup_weaken; [|exact Es]. by apply (Hiss b i q).
Qed.

Lemma sound_pick_or_spawn env spec : preserves sound (pick_or_spawn env spec).
Proof.
  unfold pick_or_spawn, pick_fast. apply preserves_bind; [apply _|apply sound_pick_and_reserve|].
  intros [x|]; [apply preserves_ret, _|].
  apply preserves_bind; [apply _|intros w; by apply sound_same|]. intros _.
  apply preserves_bind; [apply _| |intros [x|]; [apply preserves_ret, _|apply sound_spawn_on_demand]].
  unfold pick_checked, pick_fast. apply preserves_bind; [apply _|apply sound_pick_and_reserve|].
  intros [x|]; [apply preserves_ret, _|].
  apply preserves_bind; [apply _|apply preserves_get, _|]. intros rs. destruct (List.find _ rs) as [r|].
  - apply preserves_bind; [apply _| |intros _; apply preserves_ret, _]. intros w.
    apply (sound_seat (negb (is_api spec)) (Replica.id r)); by destruct (is_api spec), w.
  - destruct (_ || _); [apply sound_pick_and_reserve|apply preserves_ret, _].
Qed.
End Soundness.

#[export] Existing Instance sound_preorder.

(** ** Properties *)

Module SpawnProperties.

Section Properties.
Context {B : Type} `{ContainerBackendLaws B}.

(** A visitor's seat is counted exactly once.  When [pick_or_spawn]
    returns a replica it belongs to the app and is registered; for a
    seat-based app exactly its counter went up by one, for an API no counter
    moved, and every other registered replica is untouched. *)
Theorem pick_or_spawn_counts_one_seat env spec (w w' : World.t B) r reserve :
  world_wf w -> pick_or_spawn env spec w = (Ok (r, reserve), w') ->
  reserve = negb (is_api spec) /\ Replica.spec_id r = Spec.id spec
  /\ (exists r', Registry.by_id (World.replicas w') !! Replica.id r = Some r'
        /\ Replica.sessions_active r'
           = (if reserve then u32_saturating_add (Replica.sessions_active r) 1 else Replica.sessions_active r))
  /\ (forall j, j <> Replica.id r ->
        Registry.by_id (World.replicas w') !! j = Registry.by_id (World.replicas w) !! j).
Proof.
  intros Hw Hp. destruct (pick_or_spawn_Ok env spec w r reserve w' Hw Hp) as [Hres [[Hpk _]|[Hsp [Hreg _]]]].
  - destruct Hpk as (Hin & _ & Hreg & _). destruct Hw as [Hwf _].
    destruct (pool_elem w _ r Hwf Hin) as [Hl Hs]. split; [done|]. split; [done|]. rewrite Hreg. split.
    + rewrite seat_taken_lookup, decide_True, Hl by done. destruct reserve; eexists; by split.
    + intros j Hj. by rewrite seat_taken_lookup, decide_False.
  - destruct Hw as [Hwf _]. destruct Hsp as [Hs _ _ _ Hfr]. split; [done|]. split; [done|]. rewrite Hreg.
    assert (Registry.wf (Registry.add r (World.replicas w))) as Hwf' by (by apply Registry.wf_add).
    split.
    + rewrite seat_taken_lookup, decide_True, Registry.by_id_add, lookup_insert_eq by done.
      destruct reserve; eexists; by split.
    + intros j Hj. rewrite seat_taken_lookup, decide_False, Registry.by_id_add by done. by apply lookup_insert_ne.
Qed.

(** No seat is oversold below the ceiling.  While a seat-based app
    has fewer replicas than its maximum, the replica a new visitor is given
    had a free seat, or was spawned for the visitor: counted, it still holds
    no more sessions than seats. *)
Theorem no_overbooking_below_max env spec (w w' : World.t B) r reserve :
  world_wf w -> seat_capped spec w -> 0 < Spec.effective_seats spec ->
  pick_or_spawn env spec w = (Ok (r, reserve), w') ->
  Replica.sessions_active r + 1 <= Replica.sessions_max r
  /\ (~ (exists q, q ∈ World.pool w (Spec.id spec) /\ has_free_seat q = true) ->
      Registry.by_id (World.replicas w) !! Replica.id r = None).
Proof.
  intros Hw Hcap Hseats Hp.
  destruct (pick_or_spawn_Ok env spec w r reserve w' Hw Hp) as [_ [[Hpk Hf]|[Hsp _]]].
  - destruct Hf as [Hf|[Hn _]]; [|done]. split.
    + unfold has_free_seat in Hf. apply orb_true_iff in Hf as [[_ Hlt]%is_accepting_spec|[_ Hlt]%starting_with_seat_spec]; lia.
    + intros Hno. exfalso. apply Hno. exists r. by destruct Hpk.
  - destruct Hsp as [_ Hidle Hmax _ Hfr]. rewrite Hidle, Hmax. split; [lia|done].
Qed.

(** Serving never grows a pool past its ceiling while one replica of
    it is [Ready]: after [pick_or_spawn], whatever it returned, the pool is
    no larger than the app's maximum or than it was. *)
Theorem pool_within_max_when_ready env spec (w w' : World.t B) r reserve :
  world_wf w -> is_api spec = false ->
  (exists q, q ∈ World.pool w (Spec.id spec) /\ Replica.state q = ReplicaState.Ready) ->
  pick_or_spawn env spec w = (Ok (r, reserve), w') ->
  zlen (World.pool w' (Spec.id spec))
  <= Z.max (zlen (World.pool w (Spec.id spec))) (Spec.effective_max_replicas spec).
Proof.
  intros Hw Hapi (q & Hq & Hst) Hp.
  destruct (pick_or_spawn_Ok env spec w r reserve w' Hw Hp) as [_ [[(_ & _ & Hreg & _) _]|(Hsp & Hreg & _ & Hmode)]];
    destruct Hw as [Hwf _]; unfold zlen, World.pool; rewrite Hreg.
  - rewrite seat_taken_length by done. lia.
  - destruct Hmode as [[_ Hlt]|Hno]; [|by destruct (Hno q Hq)]. destruct Hsp as [Hs _ _ _ Hfr].
    rewrite seat_taken_length, pool_add_own, length_app by (done || by apply Registry.wf_add).
    unfold zlen, World.pool in *. simpl. lia.
Qed.

(** The ceiling is not a cap on demand.  When no replica of a
    seat-based app is [Ready] or starting with room, a successful
    [pick_or_spawn] adds a replica, however many there are: a pool already
    at its maximum grows past it. *)
Theorem demand_exceeds_max env spec (w w' : World.t B) r reserve :
  world_wf w ->
  (forall q, q ∈ World.pool w (Spec.id spec) ->
     Replica.state q <> ReplicaState.Ready /\ has_free_seat q = false) ->
  pick_or_spawn env spec w = (Ok (r, reserve), w') ->
  zlen (World.pool w' (Spec.id spec)) = zlen (World.pool w (Spec.id spec)) + 1.
Proof.
  intros Hw Hno Hp.
  destruct (pick_or_spawn_Ok env spec w r reserve w' Hw Hp) as [_ [[(Hin & _) Hf]|(Hsp & Hreg & _)]].
  - destruct (Hno r Hin) as [Hst Hfree]. destruct Hf as [Hf|[_ Hf]]; [congruence|done].
  - destruct Hw as [Hwf _]. unfold zlen, World.pool. rewrite Hreg. destruct Hsp as [Hs _ _ _ Hfr].
    rewrite seat_taken_length, pool_add_own, length_app by (done || by apply Registry.wf_add).
    unfold World.pool. simpl. lia.
Qed.

(** Adding capacity respects the ceiling: the scaler's, the splash's
    and the dashboard's spawn leave a pool at or above its maximum alone and
    report success, and otherwise add at most one replica. *)
Theorem spawn_one_within_max env spec intent (w w' : World.t B) res :
  world_wf w -> spawn_one env spec intent w = (res, w') ->
  (Spec.effective_max_replicas spec <= zlen (World.pool w (Spec.id spec)) ->
     res = Ok tt /\ World.replicas w' = World.replicas w)
  /\ zlen (World.pool w' (Spec.id spec)) <= zlen (World.pool w (Spec.id spec)) + 1
  /\ zlen (World.pool w' (Spec.id spec))
     <= Z.max (zlen (World.pool w (Spec.id spec))) (Spec.effective_max_replicas spec).
Proof.
  intros Hw Hs. destruct (spawn_one_spec env spec intent w res w' Hw Hs) as [Hcase Href].
  split.
  - intros Hmax. apply Href. unfold spawn_refused. rewrite (proj2 (Z.leb_le _ _) Hmax). apply orb_true_r.
  - destruct Hcase as [Heq|(r & _ & Hsp & Hreg & Hnot)]; unfold zlen, World.pool.
    + rewrite Heq. lia.
    + unfold spawn_refused in Hnot. bool_split. unfold zlen, World.pool in *.
      rewrite Hreg, pool_add_own by apply Hsp. rewrite length_app. simpl. unfold World.pool. lia.
Qed.

(** Cold starts coalesce.  Once [ensure_replica_available] has
    succeeded by spawning, any number of further calls leave the registry as
    it is: a burst of splash requests starts one container. *)
Theorem ensure_available_coalesces env spec (w w1 w2 : World.t B) res :
  world_wf w -> 0 < Spec.effective_seats spec ->
  ensure_replica_available env spec w = (Ok tt, w1) -> World.replicas w1 <> World.replicas w ->
  ensure_replica_available env spec w1 = (res, w2) ->
  World.replicas w2 = World.replicas w1.
Proof.
  intros Hw Hseats H1 Hne H2. unfold ensure_replica_available, with_wired_backend, st_bind, st_get in *.
  destruct (World.backend w) as [b|] eqn:Eb; [|done].
  destruct (spawn_one_spec env spec EnsureAvailable w (Ok tt) w1 Hw H1) as [[Heq|(r & _ & Hsp & Hreg & _)] _]; [done|].
  destruct (World.backend w1) as [b1|]; [|by injection H2 as _ <-].
  assert (spawn_refused spec EnsureAvailable w1 = true) as Href.
  { unfold spawn_refused. apply orb_true_iff. left. apply existsb_elem. exists r. split.
    - unfold World.pool. rewrite Hreg, pool_add_own by apply Hsp. set_solver.
    - destruct Hsp as [_ Hidle Hmax Hst _]. unfold coming_or_accepting. apply orb_true_iff.
      destruct Hst as [Hst|Hst]; [right; apply is_accepting_spec; split; [done|lia]|left].
      unfold ReplicaState.eqb. by apply bool_decide_eq_true. }
  unfold spawn_one, st_bind, lock_entry, st_modify, st_get in H2.
  assert (spawn_refused spec EnsureAvailable (World.set_spawn_locks ({[Spec.id spec]} ∪ World.spawn_locks w1) w1) = true) as Href'
    by (rewrite <- Href; unfold spawn_refused, World.pool; by destruct w1).
  rewrite Href' in H2. injection H2 as _ <-. by destruct w1.
Qed.

(** Deleting an app leaves nothing behind: after [stop_spec] every
    replica the app had is out of the registry, no session points at it and
    no gauge remembers it, even where the backend failed to stop its
    container, and no replica of another app is affected. *)
Theorem stop_spec_forgets spec_id (w : World.t B) :
  Registry.wf (World.replicas w) -> is_Some (World.backend w) ->
  let '(n, w') := stop_spec spec_id w in
  n = length (World.pool w spec_id)
  /\ World.pool w' spec_id = []
  /\ (forall r, r ∈ World.pool w spec_id -> forgotten (Replica.id r) w')
  /\ (forall j, j ∉ map Replica.id (World.pool w spec_id) ->
        Registry.by_id (World.replicas w') !! j = Registry.by_id (World.replicas w) !! j).
Proof.
  intros Hwf [b Hb]. unfold stop_spec, st_bind at 1, st_get. rewrite Hb. unfold st_bind at 1 2.
  set (ids := map Replica.id (World.pool w spec_id)).
  pose proof (stop_each_spec ids w Hwf) as Hs. destruct (st_for ids _ w) as [u w'].
  destruct Hs as (Hwf' & Hall & Hrest & _). unfold st_ret. split; [unfold ids; by rewrite length_map|].
  split; [|split; [|done]].
  - destruct (World.pool w' spec_id) as [|r l] eqn:E; [done|]. exfalso.
    assert (r ∈ World.pool w' spec_id) as Hin by (rewrite E; left).
    destruct (pool_elem w' spec_id r Hwf' Hin) as [Hl Hs].
    destruct (decide (Replica.id r ∈ ids)) as [Hi|Hi].
    + destruct (Hall _ Hi) as [Hn _]. congruence.
    + rewrite (Hrest _ Hi) in Hl. apply Hi. unfold ids. apply list_elem_of_fmap_2.
      apply Registry.by_id_lookup in Hl as [Hr _]; [|done]. rewrite <- Hs. by apply Registry.wf_replicas_of.
  - intros r Hr. apply Hall. unfold ids. apply list_elem_of_In, in_map. by apply list_elem_of_In.
Qed.

(** The two spawn paths ask for the same container, except that only
    the capacity path substitutes the public-path token: an app started by a
    visitor keeps the literal token in its environment and command, the same
    app started by the scaler does not. *)
Theorem spawn_paths_differ_in_public_path env spec r1 r2 :
  on_demand_request env spec = Ok r1 -> capacity_request env spec = Ok r2 ->
  let path := public_path (Env.base_path env) spec in
  SpawnRequest.cmd r1 = Spec.container_cmd spec
  /\ SpawnRequest.cmd r2 = map (substitute_public_path path) <$> SpawnRequest.cmd r1
  /\ SpawnRequest.env r2 = map (substitute_public_path path) (SpawnRequest.env r1)
  /\ (SpawnRequest.spec_id r1, SpawnRequest.image r1, SpawnRequest.inner_port r1, SpawnRequest.creds r1,
      SpawnRequest.limits r1, SpawnRequest.volumes r1, SpawnRequest.placement r1, SpawnRequest.anti_affinity r1,
      SpawnRequest.platform r1, SpawnRequest.network r1, SpawnRequest.labels r1,
      SpawnRequest.readiness_timeout_ms r1, SpawnRequest.job_timeout_secs r1)
     = (SpawnRequest.spec_id r2, SpawnRequest.image r2, SpawnRequest.inner_port r2, SpawnRequest.creds r2,
        SpawnRequest.limits r2, SpawnRequest.volumes r2, SpawnRequest.placement r2, SpawnRequest.anti_affinity r2,
        SpawnRequest.platform r2, SpawnRequest.network r2, SpawnRequest.labels r2,
        SpawnRequest.readiness_timeout_ms r2, SpawnRequest.job_timeout_secs r2).
Proof.
  intros H1 H2 path. revert H1 H2. unfold on_demand_request, capacity_request, result_bind, apply_public_path.
  destruct (image_of spec) as [image|]; [|done]. destruct (resolve_creds env spec) as [creds|]; [|done].
  destruct (resolved_env env spec) as [pairs|]; [|done]. intros [= <-] [= <-].
  unfold request_options, apply_opt.
  destruct creds; destruct (Spec.effective_labels spec); destruct (Spec.effective_container_network spec);
    destruct (Spec.container_cmd spec); destruct (Spec.platform spec); destruct (Spec.effective_inner_port spec);
    destruct (Spec.container_wait_time spec); by repeat split.
Qed.
End Properties.
End SpawnProperties.

(** ** Examples *)

Module SpawnExamples.
Import CountingBackend.

Lemma counting_world_wf rs n :
  NoDup (Replica.id <$> rs) -> (forall r, r ∈ rs -> (Replica.id r < n)%N) -> world_wf (world rs n).
Proof.
  intros Hnd Hlt. pose proof (RegistryOps.wf_apply (RegistryOps.Reset rs) Registry.empty Registry.wf_empty Hnd) as Hwf.
  pose proof (RegistryOps.apply_refines (RegistryOps.Reset rs) Registry.empty Registry.wf_empty Hnd) as Hby.
  split; [exact Hwf|]. intros b i r [= <-]. cbn [World.replicas world].
  change (Registry.by_id (Registry.reset rs Registry.empty))
    with (Registry.by_id (RegistryOps.apply (RegistryOps.Reset rs) Registry.empty)).
  rewrite Hby. intros Hl%elem_of_list_to_map_2. apply list_elem_of_fmap in Hl as (q & [= -> ->] & Hq).
  apply map_lookup_filter_Some. cbn. split; [|by apply Hlt].
  apply elem_of_list_to_map_1.
  - assert ((map (fun r => (Replica.id r, Replica.spec_id r)) rs).*1 = Replica.id <$> rs) as ->; [|done].
    clear. induction rs as [|r rs IH]; [done|]. cbn. by f_equal.
  - apply list_elem_of_In, in_map_iff. exists q. split; [done|]. by apply list_elem_of_In.
Qed.

(** A world of replicas numbered below [n], as a decidable condition. *)
Definition numbered (rs : list Replica.t) (n : N) : bool :=
  bool_decide (NoDup (Replica.id <$> rs)) && forallb (fun r => (Replica.id r <? n)%N) rs.

Lemma numbered_wf rs n : numbered rs n = true -> world_wf (world rs n).
Proof.
  intros [Hnd%bool_decide_eq_true Hall]%andb_true_iff. apply counting_world_wf; [done|].
  intros r Hr. apply N.ltb_lt. rewrite forallb_forall in Hall. apply Hall. by apply list_elem_of_In.
Qed.

(** An app of two seats per replica and at most two replicas. *)
Definition app : Spec.t := Spec.sample "a" (Some "img") None None (Some 2) None (Some 2).
Definition rep (i : ReplicaId) (st : ReplicaState.t) (active : Z) : Replica.t :=
  Replica.mk i "a" "c" "127.0.0.1:1" st 0 active 2 None.

Definition busy : World.t CountingBackend.t := world [rep 1 ReplicaState.Ready 2] 5.
Definition roomy : World.t CountingBackend.t := world [rep 1 ReplicaState.Ready 1] 5.
Definition draining : World.t CountingBackend.t := world [rep 1 ReplicaState.Draining 0; rep 2 ReplicaState.Failed 0] 5.
Definition cold : World.t CountingBackend.t := world [] 5.

Lemma pick_or_spawn_counts_one_seat_witness :
  let '(res, w') := pick_or_spawn example_env app roomy in
  res = Ok (rep 1 ReplicaState.Ready 1, true)
  /\ Registry.by_id (World.replicas w') !! 1%N = Some (rep 1 ReplicaState.Ready 2)
  /\ Replica.spec_id (rep 1 ReplicaState.Ready 1) = "a".
Proof.
  destruct (pick_or_spawn example_env app roomy) as [res w'] eqn:E.
  assert (res = Ok (rep 1 ReplicaState.Ready 1, true)) as ->
    by (change res with (res, w').1; rewrite <- E; vm_compute; reflexivity).
  split; [reflexivity|]. split.
  - change w' with (Ok (T := Replica.t * bool) (E := string) (rep 1 ReplicaState.Ready 1, true), w').2.
    rewrite <- E. vm_compute. reflexivity.
  - exact (proj1 (proj2 (SpawnProperties.pick_or_spawn_counts_one_seat example_env app roomy w' _ _
      (numbered_wf [rep 1 ReplicaState.Ready 1] 5 eq_refl) E))).
Defined.

Lemma no_overbooking_below_max_witness :
  let '(res, w') := pick_or_spawn example_env app busy in
  exists r, res = Ok (r, true) /\ Replica.sessions_active r + 1 <= Replica.sessions_max r
    /\ Registry.by_id (World.replicas busy) !! Replica.id r = None.
Proof.
  destruct (pick_or_spawn example_env app busy) as [res w'] eqn:E.
  set (r := Replica.set_sessions_max 2 (spawned 5 (SpawnRequest.new "a" "img"))).
  assert (res = Ok (r, true)) as -> by (change res with (res, w').1; rewrite <- E; vm_compute; reflexivity).
  exists r. split; [reflexivity|].
  destruct (SpawnProperties.no_overbooking_below_max example_env app busy w' r true) as [Hs Hf].
  - apply (numbered_wf [rep 1 ReplicaState.Ready 2] 5). reflexivity.
  - split; vm_compute; reflexivity.
  - vm_compute. reflexivity.
  - exact E.
  - split; [exact Hs|]. apply Hf. intros (q & Hq & Hfree). apply list_elem_of_In in Hq. vm_compute in Hq.
    destruct Hq as [<-|[]]. vm_compute in Hfree. discriminate.
Defined.

Lemma pool_within_max_when_ready_witness :
  let full := world [rep 1 ReplicaState.Ready 2; rep 2 ReplicaState.Draining 2] 5 in
  let '(res, w') := pick_or_spawn example_env app full in
  res = Ok (rep 1 ReplicaState.Ready 2, true) /\ zlen (World.pool w' "a") <= 2.
Proof.
  intros full. destruct (pick_or_spawn example_env app full) as [res w'] eqn:E.
  assert (res = Ok (rep 1 ReplicaState.Ready 2, true)) as ->
    by (change res with (res, w').1; rewrite <- E; vm_compute; reflexivity).
  split; [reflexivity|].
  apply (SpawnProperties.pool_within_max_when_ready example_env app full w' (rep 1 ReplicaState.Ready 2) true).
  - apply numbered_wf. reflexivity.
  - reflexivity.
  - exists (rep 1 ReplicaState.Ready 2). split; [|reflexivity]. apply list_elem_of_In. vm_compute. left. reflexivity.
  - exact E.
Defined.

Lemma demand_exceeds_max_witness :
  let '(res, w') := pick_or_spawn example_env app draining in
  is_ok res = true /\ Spec.effective_max_replicas app = 2 /\ zlen (World.pool w' "a") = 2 + 1.
Proof.
  destruct (pick_or_spawn example_env app draining) as [res w'] eqn:E.
  set (r := Replica.set_sessions_max 2 (spawned 5 (SpawnRequest.new "a" "img"))).
  assert (res = Ok (r, true)) as -> by (change res with (res, w').1; rewrite <- E; vm_compute; reflexivity).
  split; [reflexivity|]. split; [reflexivity|].
  apply (SpawnProperties.demand_exceeds_max example_env app draining w' r true); [|intros q Hq|exact E].
  - apply numbered_wf. reflexivity.
  - apply list_elem_of_In in Hq. vm_compute in Hq. destruct Hq as [<-|[<-|[]]]; (split; [discriminate|reflexivity]).
Defined.

Lemma spawn_one_within_max_witness :
  let full := world [rep 1 ReplicaState.Ready 2; rep 2 ReplicaState.Failed 0] 5 in
  let '(res, w') := spawn_one example_env app AddCapacity full in
  res = Ok tt /\ World.replicas w' = World.replicas full.
Proof.
  intros full. destruct (spawn_one example_env app AddCapacity full) as [res w'] eqn:E.
  apply (SpawnProperties.spawn_one_within_max example_env app AddCapacity full w' res).
  - apply numbered_wf. reflexivity.
  - exact E.
  - vm_compute. discriminate.
Defined.

Lemma ensure_available_coalesces_witness :
  let '(r1, w1) := ensure_replica_available example_env app cold in
  let '(r2, w2) := ensure_replica_available example_env app w1 in
  r1 = Ok tt /\ length (World.pool w1 "a") = 1%nat /\ World.replicas w2 = World.replicas w1.
Proof.
  destruct (ensure_replica_available example_env app cold) as [r1 w1] eqn:E1.
  assert (r1 = Ok tt) as -> by (change r1 with (r1, w1).1; rewrite <- E1; vm_compute; reflexivity).
  assert (length (World.pool w1 "a") = 1%nat) as Hlen
    by (change w1 with (Ok (E := string) tt, w1).2; rewrite <- E1; vm_compute; reflexivity).
  destruct (ensure_replica_available example_env app w1) as [r2 w2] eqn:E2.
  split; [reflexivity|]. split; [exact Hlen|].
  apply (SpawnProperties.ensure_available_coalesces example_env app cold w1 w2 r2).
  - apply numbered_wf. reflexivity.
  - vm_compute. reflexivity.
  - exact E1.
  - intros Heq. unfold World.pool in Hlen. rewrite Heq in Hlen. vm_compute in Hlen. discriminate.
  - exact E2.
Defined.

Lemma stop_spec_forgets_witness :
  let w := world [rep 1 ReplicaState.Ready 2; rep 2 ReplicaState.Failed 0] 5 in
  let '(n, w') := stop_spec "a" w in n = 2%nat /\ World.pool w' "a" = [].
Proof.
  intros w. pose proof (SpawnProperties.stop_spec_forgets "a" w) as H. destruct (stop_spec "a" w) as [n w'].
  destruct H as (Hn & Hp & _).
  - apply (world_registry w). apply numbered_wf. reflexivity.
  - eauto.
  - split; [exact Hn|exact Hp].
Defined.

(** An app that asks for its public path. *)
Definition pathful : Spec.t :=
  Spec.with_container_cmd ["serve"; "--base=#{publicPath}"] (Spec.sample "a" (Some "img") None None None None None).

Lemma spawn_paths_differ_in_public_path_witness :
  exists r1 r2, on_demand_request example_env pathful = Ok r1 /\ capacity_request example_env pathful = Ok r2
  /\ SpawnRequest.cmd r1 = Some ["serve"; "--base=#{publicPath}"]
  /\ SpawnRequest.cmd r2 = Some ["serve"; "--base=/app/a/"].
Proof.
  destruct (on_demand_request example_env pathful) as [r1|] eqn:E1; [|vm_compute in E1; discriminate].
  destruct (capacity_request example_env pathful) as [r2|] eqn:E2; [|vm_compute in E2; discriminate].
  exists r1, r2. split; [reflexivity|]. split; [reflexivity|].
  destruct (SpawnProperties.spawn_paths_differ_in_public_path example_env pathful r1 r2 E1 E2) as (H1 & H2 & _).
  split; [exact H1|]. rewrite H2, H1. vm_compute. reflexivity.
Defined.
End SpawnExamples.
