(* ===== verification/Bollard.v ===== *)
(** * The machine the Docker backend runs on

    The interfaces of the code ruscker-docker calls and this repository does
    not contain: the bollard client of a Docker daemon, the operating system
    (clock, sleep, sockets, name resolution, random uuids) and the parsers of
    uuids and dates.  They are classes over a machine state [D]; the records
    are the parts of bollard's types the source reads or fills in.  The laws
    are the documented behaviour the theorems of [Docker] rely on. *)

From Stdlib Require Import Ascii String ZArith Lia.
From stdpp Require Import base tactics list gmap strings sets fin_maps numbers.
From S2P Require Import Prelude Text Schema Core.

Local Open Scope string_scope.
Local Open Scope list_scope.
Local Open Scope Z_scope.

(** ** bollard's types *)

(** [status_code] of a response error; the [Display] of any error. *)
Module DockerError.
Record t := mk { status_code : option Z; message : string }.
End DockerError.

Abbreviation DockerResult A := (Result A DockerError.t).

Module SummaryState.
(** [Other] stands for the variants the source does not name. *)
Inductive t := CREATED | RUNNING | PAUSED | RESTARTING | EXITED | REMOVING | DEAD | Other.
End SummaryState.

Module Port.
Record t := mk { private_port : Z; public_port : option Z }.
End Port.

Module ContainerSummary.
(** [mounts]: the names of the mounts. *)
Record t := mk {
  id : option string;
  names : option (list string);
  image : option string;
  image_id : option string;
  labels : option (gmap string string);
  ports : option (list Port.t);
  state : option SummaryState.t;
  status : option string;
  created : option Z;
  mounts : option (list (option string)) }.
End ContainerSummary.

Module ContainerState.
(** [status]: the [Debug] rendering of the optional status. *)
Record t := mk {
  status : string;
  running : option bool;
  exit_code : option Z;
  finished_at : option string }.
End ContainerState.

Module ContainerInspect.
(** [ports]: [network_settings.ports], each port with the host ports of its
    bindings; [config_labels]: [config.labels]. *)
Record t := mk {
  state : option ContainerState.t;
  ports : option (gmap string (option (list (option string))));
  config_labels : option (gmap string string) }.
End ContainerInspect.

Module PortBinding.
Record t := mk { host_ip : option string; host_port : option string }.
End PortBinding.

Module HostConfig.
Record t := mk {
  port_bindings : option (gmap string (option (list PortBinding.t)));
  binds : option (list string);
  memory : option Z;
  memory_reservation : option Z;
  cpu_period : option Z;
  cpu_quota : option Z;
  network_mode : option string }.
Definition default : t := mk None None None None None None None.

Definition set_memory (x : option Z) (h : t) : t :=
  mk (port_bindings h) (binds h) x (memory_reservation h) (cpu_period h) (cpu_quota h) (network_mode h).
Definition set_memory_reservation (x : option Z) (h : t) : t :=
  mk (port_bindings h) (binds h) (memory h) x (cpu_period h) (cpu_quota h) (network_mode h).
Definition set_cpu (period quota : option Z) (h : t) : t :=
  mk (port_bindings h) (binds h) (memory h) (memory_reservation h) period quota (network_mode h).
Definition set_network_mode (x : option string) (h : t) : t :=
  mk (port_bindings h) (binds h) (memory h) (memory_reservation h) (cpu_period h) (cpu_quota h) x.
End HostConfig.

Module ContainerCreateBody.
Record t := mk {
  image : option string;
  exposed_ports : option (list string);
  labels : option (gmap string string);
  host_config : option HostConfig.t;
  env : option (list string);
  cmd : option (list string) }.
End ContainerCreateBody.

Module DockerCredentials.
Record t := mk { username : option string; password : option string; serveraddress : option string }.
End DockerCredentials.

Module CreateImageInfo.
(** [error_detail]: the optional message; [progress_detail]: current, total. *)
Record t := mk {
  id : option string;
  status : option string;
  error_detail : option (option string);
  progress_detail : option (option Z * option Z) }.
End CreateImageInfo.

Module CpuStats.
(** [percpu_usage]: the number of per-CPU entries. *)
Record t := mk {
  total_usage : option Z;
  percpu_usage : option Z;
  system_cpu_usage : option Z;
  online_cpus : option Z }.
End CpuStats.

Module ContainerStats.
(** [networks]: the received and sent bytes of each interface. *)
Record t := mk {
  cpu_stats : option CpuStats.t;
  memory_usage : option Z;
  networks : option (list (option Z * option Z)) }.
End ContainerStats.

Module ImageSummary.
Record t := mk { id : string; repo_tags : list string; size : Z; containers : Z }.
End ImageSummary.

Module Volume.
Record t := mk { name : string; driver : string; created_at : option string; labels : gmap string string }.
End Volume.

Module EventMessage.
(** [container]: whether [typ] is [CONTAINER]; [actor]: id and attributes. *)
Record t := mk {
  container : bool;
  action : option string;
  actor : option (option string * option (gmap string string)) }.
End EventMessage.

(** How [wait_container] fails: a non-zero exit is an error with its code. *)
Module WaitError.
Inductive t := DockerContainerWaitError (code : Z) | Other (e : DockerError.t).
End WaitError.

(** ** The interfaces *)

Class Docker (D : Type) := {
  create_container : string -> string -> ContainerCreateBody.t -> D -> DockerResult string * D;
  start_container : string -> D -> DockerResult unit * D;
  stop_container : string -> Z -> D -> DockerResult unit * D;
  (** [remove_container] with [force] *)
  force_remove : string -> D -> DockerResult unit * D;
  inspect_container : string -> D -> DockerResult ContainerInspect.t * D;
  (** [list_containers] with [all] and an optional [label] filter *)
  list_containers : option string -> D -> DockerResult (list ContainerSummary.t) * D;
  (** the first item of [wait_container] within a timeout *)
  wait_container : string -> Z -> D -> option (option (Result Z WaitError.t)) * D;
  (** the creation date of an image *)
  inspect_image : string -> D -> DockerResult (option string) * D;
  (** image, platform, credentials: the events of the pull *)
  create_image : string -> string -> option DockerCredentials.t -> D -> list (DockerResult CreateImageInfo.t) * D;
  docker_images : D -> DockerResult (list ImageSummary.t) * D;
  docker_remove_image : string -> D -> DockerResult unit * D;
  inspect_network : string -> D -> DockerResult unit * D;
  create_network : string -> string -> D -> DockerResult unit * D;
  (** the events of labelled containers until the connection drops *)
  docker_events : string -> list string -> D -> list (DockerResult EventMessage.t) * D;
  (** the frames of the last lines *)
  docker_logs : string -> Z -> D -> list (DockerResult string) * D;
  stats : string -> D -> option (DockerResult ContainerStats.t) * D;
  (** the bytes reclaimed *)
  prune_images : D -> DockerResult (option Z) * D;
  prune_build : D -> DockerResult (option Z) * D;
  docker_version : D -> DockerResult (option string) * D;
  docker_volumes : D -> DockerResult (option (list Volume.t)) * D;
  docker_create_volume : string -> gmap string string -> D -> DockerResult unit * D;
  docker_remove_volume : string -> D -> DockerResult unit * D
}.

Class System (D : Type) := {
  (** [Instant::now], [Utc::now] *)
  instant : D -> Z;
  utc : D -> Z;
  sleep : Z -> D -> unit * D;
  new_v4 : D -> Uuid * D;
  (** [TcpStream::connect]: an error message, or a connection *)
  tcp_connect : string -> D -> option string * D;
  (** connect, write the request, read up to 64 bytes, all within a timeout *)
  tcp_exchange : string -> string -> Z -> D -> option Z * D;
  (** [to_socket_addrs] *)
  to_socket_addrs : string -> D -> Result (list string) string * D
}.

Class Formats := {
  uuid_display : Uuid -> string;
  uuid_parse : string -> option Uuid;
  (** [DateTime::from_timestamp(secs, 0)] and [parse_from_rfc3339] *)
  from_timestamp : Z -> option Z;
  parse_from_rfc3339 : string -> option Z
}.

Class FormatsLaws `{Formats} := { uuid_round_trip u : uuid_parse (uuid_display u) = Some u }.

(** ** Laws *)

(** The calls that neither create nor remove a container. *)
Inductive quiet_call {D} `{Docker D, System D} : forall {A}, (D -> A * D) -> Prop :=
| quiet_start c : quiet_call (start_container c)
| quiet_stop c t : quiet_call (stop_container c t)
| quiet_inspect c : quiet_call (inspect_container c)
| quiet_list f : quiet_call (list_containers f)
| quiet_wait c t : quiet_call (wait_container c t)
| quiet_inspect_image i : quiet_call (inspect_image i)
| quiet_create_image i p c : quiet_call (create_image i p c)
| quiet_images : quiet_call docker_images
| quiet_remove_image i : quiet_call (docker_remove_image i)
| quiet_inspect_network n : quiet_call (inspect_network n)
| quiet_create_network n d : quiet_call (create_network n d)
| quiet_events l k : quiet_call (docker_events l k)
| quiet_logs c n : quiet_call (docker_logs c n)
| quiet_stats c : quiet_call (stats c)
| quiet_prune_images : quiet_call prune_images
| quiet_prune_build : quiet_call prune_build
| quiet_version : quiet_call docker_version
| quiet_volumes : quiet_call docker_volumes
| quiet_create_volume n l : quiet_call (docker_create_volume n l)
| quiet_remove_volume n : quiet_call (docker_remove_volume n)
| quiet_sleep n : quiet_call (sleep n)
| quiet_new_v4 : quiet_call new_v4
| quiet_connect a : quiet_call (tcp_connect a)
| quiet_exchange a r t : quiet_call (tcp_exchange a r t)
| quiet_resolve a : quiet_call (to_socket_addrs a).

Create HintDb quiet.
#[export] Hint Constructors quiet_call : quiet.

Definition LABEL_SPEC_ID : string := "ruscker.spec_id".
Definition LABEL_REPLICA_ID : string := "ruscker.replica_id".
Definition LABEL_JOB : string := "ruscker.job".
Definition LABEL_INNER_PORT : string := "ruscker.inner_port".

(** The replica and app a container's labels name. *)
Definition labelled `{Formats} (labels : gmap string string) : option (ReplicaId * string) :=
  spec_id ← labels !! LABEL_SPEC_ID;
  shown ← labels !! LABEL_REPLICA_ID;
  i ← uuid_parse shown;
  Some (i, spec_id).

(** A daemon keeps its containers and their labels: [existing] are the ids of
    its containers, [named] the replicas its containers' labels have named so
    far, each with its app.  A new container id is unused, a new uuid names
    no replica, and a listed container's labels are among the named.  The
    uuids a machine draws come from a region of its own: machines never draw
    the same uuid. *)
Class DockerLaws (D : Type) `{Docker D, System D, Formats} := {
  existing : D -> gset string;
  named : D -> gmap ReplicaId string;
  uuid_region : D -> ReplicaId -> Prop;
  quiet_existing {A} (op : D -> A * D) d : quiet_call op -> existing (op d).2 = existing d;
  quiet_region {A} (op : D -> A * D) d i : quiet_call op -> uuid_region (op d).2 i <-> uuid_region d i;
  create_region n p body d i : uuid_region (create_container n p body d).2 i <-> uuid_region d i;
  remove_region c d i : uuid_region (force_remove c d).2 i <-> uuid_region d i;
  named_region d i s : named d !! i = Some s -> uuid_region d i;
  quiet_named {A} (op : D -> A * D) d : quiet_call op -> named (op d).2 = named d;
  created_existing n p body d c d' : create_container n p body d = (Ok c, d') ->
    c ∉ existing d /\ existing d' = {[c]} ∪ existing d;
  refused_existing n p body d e d' : create_container n p body d = (Err e, d') -> existing d' = existing d;
  create_named n p body d : named d ⊆ named (create_container n p body d).2;
  created_named n p body d c d' labels i s : create_container n p body d = (Ok c, d') ->
    ContainerCreateBody.labels body = Some labels -> labelled labels = Some (i, s) ->
    uuid_region d i -> named d !! i = None -> named d' !! i = Some s;
  removed_existing c d d' : force_remove c d = (Ok tt, d') -> existing d' = existing d ∖ {[c]};
  unremoved_existing c d e d' : force_remove c d = (Err e, d') -> existing d' ⊆ existing d;
  remove_only c d : existing d ∖ {[c]} ⊆ existing (force_remove c d).2;
  remove_named c d : named (force_remove c d).2 = named d;
  listed_named f d l d' s labels i spec_id : list_containers f d = (Ok l, d') -> s ∈ l ->
    ContainerSummary.labels s = Some labels -> labelled labels = Some (i, spec_id) ->
    named d !! i = Some spec_id;
  fresh_uuid d : named d !! (new_v4 d).1 = None /\ uuid_region d (new_v4 d).1
}.

(** Time does not run backwards, and a sleep lasts at least its duration. *)
Class ClockLaws (D : Type) `{Docker D, System D} := {
  quiet_instant {A} (op : D -> A * D) d : quiet_call op -> instant d <= instant (op d).2;
  sleep_instant n d : instant d + n <= instant (sleep n d).2
}.

(** How long the calls of a readiness wait take: [slow] beyond the timeout of
    an exchange or the duration of a sleep.  An inspection, a log request and
    a plain connect have no timeout of their own: [slow] is the longest of
    them. *)
Class LatencyLaws (D : Type) `{Docker D, System D} (slow : Z) := {
  slow_nonnegative : 0 <= slow;
  inspect_takes c d : instant (inspect_container c d).2 <= instant d + slow;
  logs_take c n d : instant (docker_logs c n d).2 <= instant d + slow;
  connect_takes a d : instant (tcp_connect a d).2 <= instant d + slow;
  exchange_takes a r t d : 0 <= t -> instant (tcp_exchange a r t d).2 <= instant d + t + slow;
  sleep_takes n d : 0 <= n -> instant (sleep n d).2 <= instant d + n + slow
}.
