(* ===== verification/Docker.v ===== *)
(** * Docker: the local container backend (ruscker-docker: lib.rs)

    [LocalDockerBackend] over the machine of [Bollard]: creating, waiting
    for, listing, stopping and removing replica containers, run-to-completion
    jobs, the disk panel's calls, metrics and logs.  Log statements are left
    out.  A [LogStream] is the list of the lines it yields. *)

From Stdlib Require Import Ascii String ZArith Lia.
From stdpp Require Import base tactics list gmap strings sets fin_maps numbers.
From Corelib Require Import SpecFloat.
From S2P Require Import Prelude Text Schema Core Spawn Bollard.

Local Open Scope string_scope.
Local Open Scope list_scope.
Local Open Scope Z_scope.
Local Open Scope ruscker_scope.

(** ** Constants *)

Definition DEFAULT_INNER_PORT : Z := 3838.
Definition READINESS_TIMEOUT : Z := from_secs 60.
Definition READINESS_INTERVAL : Z := from_millis 250.
Definition READINESS_LOG_TAIL : Z := 40.
Definition STOP_TIMEOUT_SECS : Z := 10.
Definition MAX_TAIL : Z := 5000.
Definition JOB_TIMEOUT : Z := from_secs (60 * 60).
Definition CPU_PERIOD_US : Z := 100000.
Definition DOCKER_HUB_REGISTRY : string := "https://index.docker.io/v1/".
Definition readiness_probe : string :=
  let crlf := String "013" (String "010" EmptyString) in
  "HEAD / HTTP/1.1" +:+ crlf +:+ "Host: ruscker-readiness" +:+ crlf +:+ "Connection: close" +:+ crlf +:+ crlf.

(** ** Pure helpers *)

Definition backend_err (op : string) (e : DockerError.t) : CoreError.t :=
  CoreError.Backend (op +:+ ": " +:+ DockerError.message e).

(** [Debug] of a [Duration] in nanoseconds: the largest unit that gives a
    whole part, and the fraction without trailing zeros. *)
Fixpoint zeros (n : nat) : string := match n with O => EmptyString | S n => String "0" (zeros n) end.
Definition fmt_decimal (whole fraction : Z) (digits : nat) (suffix : string) : string :=
  let shown := Text.show fraction in
  let fraction := zeros (digits - String.length shown) +:+ shown in
  let fraction := trim_end_char "0" fraction in
  Text.show whole +:+ (if str_is_empty fraction then EmptyString else String "." fraction) +:+ suffix.
Definition duration_debug (d : Z) : string :=
  if 1000000000 <=? d then fmt_decimal (d / 1000000000) (d mod 1000000000) 9 "s"
  else if 1000000 <=? d then fmt_decimal (d / 1000000) (d mod 1000000) 6 "ms"
  else if 1000 <=? d then fmt_decimal (d / 1000) (d mod 1000) 3 (byte_str [194; 181; 115]%N)
  else fmt_decimal d 0 1 "ns".

Module ContainerEventKind.
Inductive t := Start | Die | Stop | Destroy | Other.
End ContainerEventKind.

Module ContainerEvent.
Record t := mk {
  kind : ContainerEventKind.t;
  container_id : string;
  spec_id : option string;
  replica_id : option string }.
End ContainerEvent.

Module ReplicaMetrics.
Record t := mk { cpu_percent : f64; memory_bytes : Z; network_rx_bytes : Z; network_tx_bytes : Z }.
End ReplicaMetrics.

Module VolumeInfo.
Record t := mk {
  name : string; driver : string; created_at : option string; refs : Z; ruscker_created : bool }.
End VolumeInfo.

Definition event_kind_from_action (action : option string) : ContainerEventKind.t :=
  match action with
  | Some a =>
    if str_eqb a "start" then ContainerEventKind.Start
    else if str_eqb a "die" || str_eqb a "oom" then ContainerEventKind.Die
    else if str_eqb a "stop" || str_eqb a "kill" then ContainerEventKind.Stop
    else if str_eqb a "destroy" then ContainerEventKind.Destroy
    else ContainerEventKind.Other
  | None => ContainerEventKind.Other
  end.

Definition container_event_from_message (msg : EventMessage.t) : option ContainerEvent.t :=
  if negb (EventMessage.container msg) then None
  else
    '(actor_id, attributes) ← EventMessage.actor msg;
    let attrs := default ∅ attributes in
    replica_id ← attrs !! LABEL_REPLICA_ID;
    Some (ContainerEvent.mk (event_kind_from_action (EventMessage.action msg)) (default "" actor_id)
            (attrs !! LABEL_SPEC_ID) (Some replica_id)).

(** What the events watcher sees of the daemon's stream: it ends at the first
    transport error. *)
Fixpoint event_stream (raw : list (DockerResult EventMessage.t)) : list ContainerEvent.t :=
  match raw with
  | Ok msg :: rest =>
    match container_event_from_message msg with
    | Some e => e :: event_stream rest
    | None => event_stream rest
    end
  | _ => []
  end.

Definition liveness_in (managed : list ManagedContainer.t) (container_id : string) : option ReplicaLiveness.t :=
  c ← List.find (fun c => str_eqb (ManagedContainer.id c) container_id) managed;
  Some (if ManagedContainer.running c then ReplicaLiveness.Running else ReplicaLiveness.Stopped).

Definition classify_local_liveness (known : list ReplicaLivenessQuery.t) (managed : list ManagedContainer.t)
    (running : list Replica.t) : ReplicaLivenessReport.t :=
  ReplicaLivenessReport.mk
    (map (fun q => (ReplicaLivenessQuery.replica_id q,
                    default ReplicaLiveness.Missing (liveness_in managed (ReplicaLivenessQuery.container_id q)))) known)
    running managed.

Definition state_from_enum (s : option SummaryState.t) : ReplicaState.t :=
  match s with
  | Some SummaryState.RUNNING => ReplicaState.Ready
  | Some (SummaryState.CREATED | SummaryState.RESTARTING) => ReplicaState.Starting
  | Some SummaryState.PAUSED => ReplicaState.Draining
  | Some (SummaryState.EXITED | SummaryState.DEAD | SummaryState.REMOVING) => ReplicaState.Stopped
  | _ => ReplicaState.Starting
  end.

Definition apply_limits (host_config : HostConfig.t) (limits : ResourceLimits.t) : HostConfig.t :=
  if ResourceLimits.is_empty limits then host_config
  else
    let h := match ResourceLimits.memory_bytes limits with
             | Some bytes => HostConfig.set_memory (Some bytes) host_config | None => host_config end in
    let h := match ResourceLimits.memory_reservation_bytes limits with
             | Some bytes => HostConfig.set_memory_reservation (Some bytes) h | None => h end in
    match ResourceLimits.cpu_fraction limits with
    | Some cpus =>
      HostConfig.set_cpu (Some CPU_PERIOD_US) (Some (f64_as_i64 (f64_mul cpus (f64_of_Z CPU_PERIOD_US)))) h
    | None => h
    end.

(** [trim_start_matches(p)] and [trim_end_matches(p)] of a string pattern. *)
Fixpoint trim_start_str_fuel (n : nat) (p s : string) : string :=
  match n, strip_prefix p s with S n, Some rest => trim_start_str_fuel n p rest | _, _ => s end.
Definition trim_start_str (p s : string) : string := trim_start_str_fuel (String.length s) p s.
Definition trim_end_str (p s : string) : string := str_rev (trim_start_str (str_rev p) (str_rev s)).

Definition hub_aliases : list string :=
  ["docker.io"; "index.docker.io"; "registry-1.docker.io"; "hub.docker.com"; "registry.hub.docker.com"].

Definition canonical_server_address (addr : option string) : option string :=
  match (a ← addr; let a := trim a in if str_is_empty a then None else Some a) with
  | None => Some DOCKER_HUB_REGISTRY
  | Some a =>
    let bare := trim_end_char "/" (trim_end_str "/v1" (trim_end_char "/"
                  (trim_start_str "http://" (trim_start_str "https://" a)))) in
    if existsb (str_eqb bare) hub_aliases then Some DOCKER_HUB_REGISTRY else Some a
  end.

Definition registry_from_image (image : string) : string :=
  let first := split_first "/" image in
  if str_contains_char "/" image
     && (str_eqb first "localhost" || str_contains_char "." first || str_contains_char ":" first)
  then default first (canonical_server_address (Some first))
  else DOCKER_HUB_REGISTRY.

Module PullLogContext.
Record t := mk { auth_mode : string; credential : string; registry : string; username : string }.
End PullLogContext.

Definition pull_log_context (image : string) (creds : option RegistryCredentials.t) : PullLogContext.t :=
  match creds with
  | Some c =>
    PullLogContext.mk "authenticated" (default "inline" (RegistryCredentials.credential_name c))
      (default DOCKER_HUB_REGISTRY (canonical_server_address (RegistryCredentials.server_address c)))
      (RegistryCredentials.username c)
  | None => PullLogContext.mk "anonymous" "none" (registry_from_image image) "none"
  end.

Definition auth_desc (context : PullLogContext.t) : string :=
  if str_eqb (PullLogContext.auth_mode context) "authenticated"
  then "authenticated as " +:+ PullLogContext.username context +:+ " @ " +:+ PullLogContext.registry context
  else "anonymous @ " +:+ PullLogContext.registry context.

Definition docker_credentials (c : RegistryCredentials.t) : DockerCredentials.t :=
  DockerCredentials.mk (Some (RegistryCredentials.username c)) (Some (RegistryCredentials.password c))
    (canonical_server_address (RegistryCredentials.server_address c)).

Definition unspecified_pull_error : string := "Docker reported an unspecified pull error".

(** The first failure of a pull, if any. *)
Fixpoint pull_failure (auth : string) (events : list (DockerResult CreateImageInfo.t)) : option CoreError.t :=
  match events with
  | [] => None
  | Err e :: _ => Some (backend_err ("pull image (" +:+ auth +:+ ")") e)
  | Ok info :: rest =>
    match CreateImageInfo.error_detail info with
    | Some message =>
      Some (CoreError.Backend ("pull image (" +:+ auth +:+ "): " +:+ default unspecified_pull_error message))
    | None => pull_failure auth rest
    end
  end.

(** One progress line of the editor's pull console. *)
Definition em_dash : string := byte_str [226; 128; 148]%N.
Definition pull_line (auth : string) (ev : DockerResult CreateImageInfo.t) : string :=
  match ev with
  | Err e => "error: " +:+ DockerError.message e +:+ " " +:+ em_dash +:+ " " +:+ auth
  | Ok info =>
    match CreateImageInfo.error_detail info with
    | Some message => "error: " +:+ default unspecified_pull_error message +:+ " " +:+ em_dash +:+ " " +:+ auth
    | None =>
      let id := default "" (CreateImageInfo.id info) in
      (if str_is_empty id then "" else id +:+ ": ") +:+ default "" (CreateImageInfo.status info)
      +:+ match CreateImageInfo.progress_detail info with
          | Some (Some cur, Some total) =>
            if 0 <? total then " " +:+ Text.show cur +:+ "/" +:+ Text.show total else ""
          | _ => ""
          end
    end
  end.

Fixpoint drop_line_end (s : string) : string :=
  match s with
  | String c rest => if Ascii.eqb c "010" || Ascii.eqb c "013" then drop_line_end rest else s
  | EmptyString => EmptyString
  end.

(** The lines of one frame of container output. *)
Definition frame_lines (text : string) : list string :=
  map (fun line => str_rev (drop_line_end (str_rev line))) (split_inclusive "010" text).

Fixpoint collect_lines (frames : list (DockerResult string)) : CoreResult (list string) :=
  match frames with
  | [] => Ok []
  | Err e :: _ => Err (backend_err "logs" e)
  | Ok text :: rest =>
    let? lines := collect_lines rest in
    Ok (frame_lines text ++ lines)
  end.

(** A read error ends a live follow. *)
Fixpoint follow_lines (frames : list (DockerResult string)) : list string :=
  match frames with
  | Ok text :: rest => frame_lines text ++ follow_lines rest
  | _ => []
  end.

Module PrevReading.
Record t := mk { cpu_total : Z; cpu_system : Z }.
End PrevReading.

Definition cpu_percent_from_delta (prev : PrevReading.t) (cpu_total cpu_system online_cpus : Z) : f64 :=
  let cpu_delta := f64_of_Z (saturating_sub cpu_total (PrevReading.cpu_total prev)) in
  let system_delta := f64_of_Z (saturating_sub cpu_system (PrevReading.cpu_system prev)) in
  if SFleb system_delta f64_zero then f64_zero
  else f64_mul (f64_mul (f64_div cpu_delta system_delta) (f64_of_Z online_cpus)) (f64_of_Z 100).

Definition sum_networks (nets : list (option Z * option Z)) : Z * Z :=
  foldl (fun acc n => ((acc.1 + default 0 n.1) mod 2 ^ 64, (acc.2 + default 0 n.2) mod 2 ^ 64)) (0, 0) nets.

(** [Display] of the [ParseIntError] of a string [parse_unsigned] refuses. *)
Fixpoint digits_error (max acc : Z) (s : string) : string :=
  match s with
  | EmptyString => EmptyString
  | String c rest =>
    if is_ascii_digit c then
      let v := acc * 10 + (byte_of c - 48) in
      if v <=? max then digits_error max v rest else "number too large to fit in target type"
    else "invalid digit found in string"
  end.
Definition parse_int_error (max : Z) (s : string) : string :=
  match s with
  | EmptyString => "cannot parse integer from empty string"
  | String c (String _ _ as rest) => digits_error max 0 (if Ascii.eqb c "+" then rest else s)
  | _ => digits_error max 0 s
  end.

(** Labels: the operator's first, so that the backend's overwrite them. *)
Definition operator_labels (req : SpawnRequest.t) : gmap string string :=
  foldl (fun labels kv => <[kv.1 := kv.2]> labels) ∅ (SpawnRequest.labels req).
Definition job_labels (req : SpawnRequest.t) : gmap string string :=
  <[LABEL_JOB := "true"]> (<[LABEL_SPEC_ID := SpawnRequest.spec_id req]> (operator_labels req)).

Definition unless_nil {A} (l : list A) : option (list A) := match l with [] => None | _ => Some l end.

(** ** The backend *)

Module LocalDockerBackend.
Record t {D : Type} := mk {
  docker : D;
  publish_ip : string;
  upstream_host : string;
  prev_stats : gmap string PrevReading.t;
  readiness_timeout : Z }.
Arguments t : clear implicits.
Arguments mk {D}.

Section Setters.
Context {D : Type}.
Definition set_docker (d : D) (b : t D) : t D :=
  mk d (publish_ip b) (upstream_host b) (prev_stats b) (readiness_timeout b).
Definition set_prev_stats (x : gmap string PrevReading.t) (b : t D) : t D :=
  mk (docker b) (publish_ip b) (upstream_host b) x (readiness_timeout b).

Definition from_docker_addressed (docker : D) (publish_ip upstream_host : string) : t D :=
  mk docker publish_ip upstream_host ∅ READINESS_TIMEOUT.
Definition from_docker (docker : D) : t D := from_docker_addressed docker "127.0.0.1" "127.0.0.1".

Definition with_readiness_timeout (timeout : Z) (b : t D) : t D :=
  if negb (timeout =? 0) then mk (docker b) (publish_ip b) (upstream_host b) (prev_stats b) timeout else b.

Definition effective_readiness_timeout (b : t D) (override_ms : option Z) : Z :=
  match override_ms with
  | Some millis => if 0 <? millis then from_millis millis else readiness_timeout b
  | None => readiness_timeout b
  end.
End Setters.
End LocalDockerBackend.

Section Operations.
Context {D : Type} `{Docker D, System D, Formats}.
Abbreviation M A := (St (LocalDockerBackend.t D) A).

(** A call of the daemon or of the system. *)
Definition on_docker {A} (op : D -> A * D) : M A := fun b =>
  let '(a, d) := op (LocalDockerBackend.docker b) in (a, LocalDockerBackend.set_docker d b).

Definition docker_call {A} (name : string) (op : D -> DockerResult A * D) : M (CoreResult A) :=
  st_map_err (backend_err name) (on_docker op).

Definition forget_metrics (container_id : string) : M unit :=
  st_modify (fun b => LocalDockerBackend.set_prev_stats (delete container_id (LocalDockerBackend.prev_stats b)) b).

(** *** Logs and readiness *)

Definition logs_for_container (container_id : string) (tail : Z) : M (CoreResult (list string)) :=
  do frames <- on_docker (docker_logs container_id (Z.min tail MAX_TAIL));
  st_ret (collect_lines frames).

Definition container_exit_code (container_id : string) : M (option Z) :=
  do info <- on_docker (inspect_container container_id);
  st_ret (state ← (i ← ok info; ContainerInspect.state i);
          let status := to_ascii_lowercase (ContainerState.status state) in
          if str_contains "exited" status || str_contains "dead" status
          then Some (default (-1) (ContainerState.exit_code state)) else None).

Definition readiness_failure (container_id headline : string) : M CoreError.t :=
  do lines <- logs_for_container container_id READINESS_LOG_TAIL;
  st_ret (match lines with
          | Ok ((_ :: _) as lines) =>
            CoreError.Backend (headline +:+ String "010" ("--- last " +:+ Text.show (zlen lines)
              +:+ " container log line(s) ---" +:+ String "010" (str_join (String "010" EmptyString) lines)))
          | _ => CoreError.Backend headline
          end).

Definition read_instant : M Z := st_get (fun b => instant (LocalDockerBackend.docker b)).

(** One of the two loops of [wait_for_ready]: try; on a failure stop if the
    container exited or the deadline passed, else sleep and try again.  The
    fuel bounds the tries; [None] is running out of it. *)
Fixpoint poll (fuel : nat) (container_id : string) (deadline : Z) (attempt : M (option string))
    (exited : Z -> string) (late : string -> string) : M (option (CoreResult unit)) :=
  match fuel with
  | O => st_ret None
  | S fuel =>
    do failure <- attempt;
    match failure with
    | None => st_ret (Some (Ok tt))
    | Some e =>
      do code <- container_exit_code container_id;
      match code with
      | Some code => do err <- readiness_failure container_id (exited code); st_ret (Some (Err err))
      | None =>
        do now <- read_instant;
        if now <? deadline
        then do! on_docker (sleep READINESS_INTERVAL); poll fuel container_id deadline attempt exited late
        else do err <- readiness_failure container_id (late e); st_ret (Some (Err err))
      end
    end
  end.

Definition try_connect (addr : string) : M (option string) := on_docker (tcp_connect addr).

(** Any byte of an answer within two seconds will do. *)
Definition try_http (addr : string) : M (option string) :=
  do n <- on_docker (tcp_exchange addr readiness_probe (from_secs 2));
  st_ret (match n with Some n => if 0 <? n then None else Some "" | None => Some "" end).

Definition readiness_fuel (budget : Z) : nat := Z.to_nat (budget / READINESS_INTERVAL + 2).

Definition wait_for_ready (container_id addr : string) (budget : Z) : M (option (CoreResult unit)) :=
  do start <- read_instant;
  let deadline := start + budget in
  let at_ := "container at " +:+ addr in
  let exited phase code :=
    at_ +:+ " exited (code " +:+ Text.show code +:+ ") during startup, before it " +:+ phase in
  do connected <- poll (readiness_fuel budget) container_id deadline (try_connect addr) (exited "accepted TCP")
    (fun e => at_ +:+ " never accepted TCP within " +:+ duration_debug budget +:+ ": " +:+ e);
  match connected with
  | Some (Ok _) =>
    poll (readiness_fuel budget) container_id deadline (try_http addr) (exited "answered HTTP")
      (fun _ => at_ +:+ " accepted TCP but never answered HTTP within " +:+ duration_debug budget)
  | other => st_ret other
  end.

(** The result of the loops, which never run out of fuel. *)
Definition ready_or_stuck (r : option (CoreResult unit)) : CoreResult unit :=
  default (Err (CoreError.Backend "readiness loop out of fuel")) r.

Definition bound_host_port (container_id port_key : string) : M (CoreResult Z) :=
  do? info <- docker_call "inspect container" (inspect_container container_id);
  match (ports ← ContainerInspect.ports info; ports !! port_key) with
  | None =>
    do code <- container_exit_code container_id;
    let headline :=
      match code with
      | Some code =>
        "container exited (code " +:+ Text.show code +:+ ") before publishing " +:+ port_key +:+ " " +:+ em_dash
        +:+ " likely a startup crash; see the log below"
      | None =>
        port_key +:+ " is not published on the container (is the app listening on that port inside the container?)"
      end in
    do err <- readiness_failure container_id headline;
    st_ret (Err err)
  | Some bindings =>
    match (v ← bindings; host_port ← head v; host_port) with
    | None => st_ret (Err (CoreError.Backend "port binding missing host_port"))
    | Some port_str =>
      match parse_unsigned (2 ^ 16 - 1) port_str with
      | Some port => st_ret (Ok port)
      | None => st_ret (Err (CoreError.Backend ("parse host_port `" +:+ port_str +:+ "`: " +:+ parse_int_error (2 ^ 16 - 1) port_str)))
      end
    end
  end.

(** *** Spawning *)

Definition image_is_present (image : string) : M (CoreResult bool) :=
  do r <- on_docker (inspect_image image);
  st_ret (match r with
          | Ok _ => Ok true
          | Err e =>
            if bool_decide (DockerError.status_code e = Some 404) then Ok false else Err (backend_err "inspect image" e)
          end).

Definition ensure_image_pulled (image : string) (creds : option RegistryCredentials.t) (platform : option string)
  : M (CoreResult unit) :=
  do present <- image_is_present image;
  match present with
  | Ok true => st_ret (Ok tt)
  | Ok false | Err _ =>
    do events <- on_docker (create_image image (default "" platform) (docker_credentials <$> creds));
    st_ret (match pull_failure (auth_desc (pull_log_context image creds)) events with
            | Some e => Err e | None => Ok tt end)
  end.

Definition ensure_network (name : string) : M (CoreResult unit) :=
  do found <- on_docker (inspect_network name);
  match found with
  | Ok _ => st_ret (Ok tt)
  | Err _ =>
    do created <- on_docker (create_network name "bridge");
    match created with
    | Ok _ => st_ret (Ok tt)
    | Err e =>
      do found <- on_docker (inspect_network name);
      st_ret (match found with Ok _ => Ok tt | Err _ => Err (backend_err "create network" e) end)
    end
  end.

(** [if let Some(network) = ... { ensure_network(network)?; ... }] *)
Definition attach_network (network : option string) (host_config : HostConfig.t) : M (CoreResult HostConfig.t) :=
  match network with
  | Some network =>
    do? u <- ensure_network network;
    st_ret (Ok (HostConfig.set_network_mode (Some network) host_config))
  | None => st_ret (Ok host_config)
  end.

Definition replica_labels (req : SpawnRequest.t) (replica_id : ReplicaId) (inner_port : Z) : gmap string string :=
  <[LABEL_INNER_PORT := Text.show inner_port]>
    (<[LABEL_REPLICA_ID := uuid_display replica_id]>
      (<[LABEL_SPEC_ID := SpawnRequest.spec_id req]> (operator_labels req))).

Definition port_key (inner_port : Z) : string := Text.show inner_port +:+ "/tcp".

Definition replica_host_config (publish_ip : string) (req : SpawnRequest.t) (inner_port : Z) : HostConfig.t :=
  let bindings := {[port_key inner_port := Some [PortBinding.mk (Some publish_ip) (Some "")]]} in
  apply_limits (HostConfig.mk (Some bindings) (unless_nil (SpawnRequest.volumes req)) None None None None None)
    (SpawnRequest.limits req).

Definition replica_body (req : SpawnRequest.t) (replica_id : ReplicaId) (inner_port : Z) (host_config : HostConfig.t)
  : ContainerCreateBody.t :=
  ContainerCreateBody.mk (Some (SpawnRequest.image req)) (Some [port_key inner_port])
    (Some (replica_labels req replica_id inner_port)) (Some host_config)
    (unless_nil (SpawnRequest.env req)) (SpawnRequest.cmd req).

Definition container_name (req : SpawnRequest.t) (replica_id : ReplicaId) : string :=
  "ruscker-" +:+ SpawnRequest.spec_id req +:+ "-" +:+ str_take 8 (uuid_display replica_id).

(** [format!("{host}:{port}").to_socket_addrs()] *)
Definition resolve_upstream (host : string) (port : Z) : M (Result (list string) string) :=
  on_docker (to_socket_addrs (host +:+ ":" +:+ Text.show port)).

(** Steps 3 to 5: start, learn the port, wait. *)
Definition bring_up (req : SpawnRequest.t) (container_id : string) (inner_port : Z) : M (CoreResult string) :=
  do? u <- docker_call "start container" (start_container container_id);
  do? bound <- bound_host_port container_id (port_key inner_port);
  do host <- st_get (@LocalDockerBackend.upstream_host D);
  do addrs <- resolve_upstream host bound;
  match addrs with
  | Err e => st_ret (Err (CoreError.Backend ("resolve upstream " +:+ host +:+ ": " +:+ e)))
  | Ok [] => st_ret (Err (CoreError.Backend ("no address for upstream " +:+ host)))
  | Ok (upstream :: _) =>
    do budget <- st_get (fun b =>
      LocalDockerBackend.effective_readiness_timeout b (SpawnRequest.readiness_timeout_ms req));
    do ready <- wait_for_ready container_id upstream budget;
    st_ret (result_map (fun _ => upstream) (ready_or_stuck ready))
  end.

Definition spawn_request (req : SpawnRequest.t) : M (CoreResult Replica.t) :=
  do replica_id <- on_docker new_v4;
  let inner_port := default DEFAULT_INNER_PORT (SpawnRequest.inner_port req) in
  do? u <- ensure_image_pulled (SpawnRequest.image req) (SpawnRequest.creds req) (SpawnRequest.platform req);
  do publish_ip <- st_get (@LocalDockerBackend.publish_ip D);
  do? host_config <- attach_network (SpawnRequest.network req) (replica_host_config publish_ip req inner_port);
  do? container_id <- docker_call "create container"
    (create_container (container_name req replica_id) (default "" (SpawnRequest.platform req))
      (replica_body req replica_id inner_port host_config));
  do ready <- bring_up req container_id inner_port;
  match ready with
  | Err err => do! on_docker (force_remove container_id); st_ret (Err err)
  | Ok upstream =>
    do now <- st_get (fun b => utc (LocalDockerBackend.docker b));
    st_ret (Ok (Replica.mk replica_id (SpawnRequest.spec_id req) container_id upstream ReplicaState.Ready now 0 0 None))
  end.

Definition spawn_with_port_and_creds (spec_id image : string) (inner_port : Z) (creds : option RegistryCredentials.t)
  : M (CoreResult Replica.t) :=
  let req := SpawnRequest.with_port inner_port (SpawnRequest.new spec_id image) in
  spawn_request (match creds with Some c => SpawnRequest.with_creds c req | None => req end).

Definition spawn_with_port (spec_id image : string) (inner_port : Z) : M (CoreResult Replica.t) :=
  spawn_with_port_and_creds spec_id image inner_port None.

Definition spawn (spec_id image : string) : M (CoreResult Replica.t) :=
  spawn_with_port spec_id image DEFAULT_INNER_PORT.

(** *** Listing *)

Definition find_container_id_for_replica (replica_id : ReplicaId) : M (CoreResult (option string)) :=
  do? l <- docker_call "list containers"
    (list_containers (Some (LABEL_REPLICA_ID +:+ "=" +:+ uuid_display replica_id)));
  st_ret (Ok (c ← head l; ContainerSummary.id c)).

Definition container_id_for_replica (replica_id : ReplicaId) : M (CoreResult string) :=
  do? found <- find_container_id_for_replica replica_id;
  st_ret (match found with
          | Some id => Ok id
          | None => Err (CoreError.Backend ("no container labeled with replica_id=" +:+ uuid_display replica_id))
          end).

Definition summary_inner_port (labels : gmap string string) : Z :=
  default DEFAULT_INNER_PORT (s ← labels !! LABEL_INNER_PORT; parse_unsigned (2 ^ 16 - 1) s).

Definition summary_host_port (c : ContainerSummary.t) (inner_port : Z) : option Z :=
  ports ← ContainerSummary.ports c;
  p ← List.find (fun p => Port.private_port p =? inner_port) ports;
  Port.public_port p.

(** One iteration of [list]: [None] is a [continue]. *)
Definition replica_of_summary (c : ContainerSummary.t) : M (option Replica.t) :=
  let labels := default ∅ (ContainerSummary.labels c) in
  match labelled labels with
  | None => st_ret None
  | Some (replica_id, spec_id) =>
    match summary_host_port c (summary_inner_port labels) with
    | None => st_ret None
    | Some p =>
      do host <- st_get (@LocalDockerBackend.upstream_host D);
      do addrs <- resolve_upstream host p;
      match addrs with
      | Err _ | Ok [] => st_ret None
      | Ok (upstream :: _) =>
        do now <- st_get (fun b => utc (LocalDockerBackend.docker b));
        let started_at := default now (ts ← ContainerSummary.created c; from_timestamp ts) in
        st_ret (Some (Replica.mk replica_id spec_id (default "" (ContainerSummary.id c)) upstream
                        (state_from_enum (ContainerSummary.state c)) started_at 0 0 None))
      end
    end
  end.

Definition list_replicas : M (CoreResult (list Replica.t)) :=
  do? l <- docker_call "list containers" (list_containers (Some LABEL_REPLICA_ID));
  do replicas <- st_filter_map replica_of_summary l;
  st_ret (Ok replicas).

Definition finished_at (id : string) : M (option Z) :=
  do info <- on_docker (inspect_container id);
  st_ret (state ← (i ← ok info; ContainerInspect.state i);
          if bool_decide (ContainerState.running state = Some false) then
            value ← ContainerState.finished_at state;
            t ← parse_from_rfc3339 value;
            if 0 <? as_secs t then Some t else None
          else None).

Definition is_running (c : ContainerSummary.t) : bool :=
  match ContainerSummary.state c with Some SummaryState.RUNNING => true | _ => false end.

Definition managed_of_summary (c : ContainerSummary.t) : M (option ManagedContainer.t) :=
  let id := default "" (ContainerSummary.id c) in
  let running := is_running c in
  do finished <- (if running || str_is_empty id then st_ret None else finished_at id);
  let name := default "" (n ← ContainerSummary.names c; s ← head n; Some (trim_start_char "/" s)) in
  st_ret (Some (ManagedContainer.mk id name (default "" (ContainerSummary.image c))
            (default ∅ (ContainerSummary.labels c) !! LABEL_SPEC_ID)
            (default "" (ContainerSummary.status c)) running finished)).

Definition list_managed_containers : M (CoreResult (list ManagedContainer.t)) :=
  do? l <- docker_call "list managed containers" (list_containers (Some LABEL_REPLICA_ID));
  do managed <- st_filter_map managed_of_summary l;
  st_ret (Ok managed).

(** The two calls [try_join!] runs, one after the other. *)
Definition replica_liveness (known : list ReplicaLivenessQuery.t) : M (CoreResult ReplicaLivenessReport.t) :=
  do? managed <- list_managed_containers;
  do? replicas <- list_replicas;
  let running := List.filter (fun r => ReplicaState.eqb (Replica.state r) ReplicaState.Ready) replicas in
  st_ret (Ok (classify_local_liveness known managed running)).

Definition wait_until_ready_with_timeout (replica : Replica.t) (readiness_timeout_ms : option Z) : M (CoreResult unit) :=
  do budget <- st_get (fun b => LocalDockerBackend.effective_readiness_timeout b readiness_timeout_ms);
  do ready <- wait_for_ready (Replica.container_id replica) (Replica.upstream replica) budget;
  st_ret (ready_or_stuck ready).

Definition wait_until_ready (replica : Replica.t) : M (CoreResult unit) :=
  do budget <- st_get (@LocalDockerBackend.readiness_timeout D);
  do ready <- wait_for_ready (Replica.container_id replica) (Replica.upstream replica) budget;
  st_ret (ready_or_stuck ready).

Definition container_events : M (CoreResult (list ContainerEvent.t)) :=
  do raw <- on_docker (docker_events LABEL_REPLICA_ID ["start"; "die"; "stop"; "kill"; "destroy"; "oom"]);
  st_ret (Ok (event_stream raw)).

(** *** Stopping and removing *)

Definition stop (replica_id : ReplicaId) : M (CoreResult unit) :=
  do? found <- find_container_id_for_replica replica_id;
  match found with
  | None => st_ret (Ok tt)
  | Some container_id =>
    do! on_docker (stop_container container_id STOP_TIMEOUT_SECS);
    do? u <- docker_call "remove container" (force_remove container_id);
    do! forget_metrics container_id;
    st_ret (Ok tt)
  end.

Definition remove_container (container_id : string) : M (CoreResult unit) :=
  do? info <- docker_call "inspect container" (inspect_container container_id);
  let is_ruscker :=
    match ContainerInspect.config_labels info with
    | Some l => bool_decide (is_Some (l !! LABEL_REPLICA_ID)) | None => false end in
  if negb is_ruscker
  then st_ret (Err (CoreError.Backend ("refusing to remove non-Ruscker container " +:+ container_id)))
  else
    do? u <- docker_call "remove container" (force_remove container_id);
    do! forget_metrics container_id;
    st_ret (Ok tt).

(** One iteration of [prune_stopped]'s loop; its value is what it counts. *)
Definition prune_one (c : ManagedContainer.t) : M (option unit) :=
  do removed <- on_docker (force_remove (ManagedContainer.id c));
  match removed with
  | Ok _ => do! forget_metrics (ManagedContainer.id c); st_ret (Some tt)
  | Err _ => st_ret None
  end.

Definition prune_stopped : M (CoreResult Z) :=
  do? managed <- list_managed_containers;
  do removed <- st_filter_map prune_one (List.filter (fun c => negb (ManagedContainer.running c)) managed);
  st_ret (Ok (zlen removed)).

(** *** The disk panel *)

Definition all_container_image_refs : M (CoreResult (list string)) :=
  do? l <- docker_call "list all containers" (list_containers None);
  st_ret (Ok (flat_map (fun c => option_list (ContainerSummary.image c) ++ option_list (ContainerSummary.image_id c)) l)).

Definition backend_version : M (CoreResult (option string)) :=
  do r <- on_docker docker_version;
  st_ret (Ok (v ← ok r; v)).

Definition reclaimed (r : DockerResult (option Z)) : Z := default 0 (o ← ok r; o).
Definition reclaim_space : M (CoreResult Z) :=
  do images <- on_docker prune_images;
  do build <- on_docker prune_build;
  st_ret (Ok (Z.max 0 (reclaimed images + reclaimed build))).

Definition list_images : M (CoreResult (list ImageInfo.t)) :=
  do? images <- docker_call "list images" docker_images;
  st_ret (Ok (map (fun i => ImageInfo.mk (ImageSummary.id i)
                (List.filter (fun t => negb (str_eqb t "<none>:<none>")) (ImageSummary.repo_tags i))
                (ImageSummary.size i) (ImageSummary.containers i)) images)).

Definition remove_image (image : string) : M (CoreResult unit) :=
  docker_call "remove image" (docker_remove_image image).

Definition image_present (image : string) : M (CoreResult bool) := image_is_present image.

Definition image_created (image : string) : M (option string) :=
  do r <- on_docker (inspect_image image);
  st_ret (created ← ok r; created).

Definition pull_image (image : string) (creds : option RegistryCredentials.t) (platform : option string)
  : M (CoreResult (list string)) :=
  do events <- on_docker (create_image image (default "" platform) (docker_credentials <$> creds));
  st_ret (Ok (map (pull_line (auth_desc (pull_log_context image creds))) events)).

Definition mount_names (c : ContainerSummary.t) : list string :=
  omap id (default [] (ContainerSummary.mounts c)).
Definition volume_refs (containers : list ContainerSummary.t) : gmap string Z :=
  foldl (fun refs name => <[name := default 0 (refs !! name) + 1]> refs) ∅ (flat_map mount_names containers).

Definition list_volumes : M (CoreResult (list VolumeInfo.t)) :=
  do? containers <- docker_call "list containers for volume refs" (list_containers None);
  do? listed <- docker_call "list volumes" docker_volumes;
  let refs := volume_refs containers in
  st_ret (Ok (map (fun v => VolumeInfo.mk (Volume.name v) (Volume.driver v) (Volume.created_at v)
                (default 0 (refs !! Volume.name v)) (bool_decide (is_Some (Volume.labels v !! "ruscker.created"))))
                (default [] listed))).

Definition create_volume (name : string) : M (CoreResult unit) :=
  docker_call "create volume" (docker_create_volume name {["ruscker.created" := "true"]}).

Definition remove_volume (name : string) : M (CoreResult unit) :=
  docker_call "remove volume" (docker_remove_volume name).

(** *** Run-to-completion jobs *)

Definition job_body (req : SpawnRequest.t) (host_config : HostConfig.t) : ContainerCreateBody.t :=
  ContainerCreateBody.mk (Some (SpawnRequest.image req)) None (Some (job_labels req)) (Some host_config)
    (unless_nil (SpawnRequest.env req)) (SpawnRequest.cmd req).

Definition job_host_config (req : SpawnRequest.t) : HostConfig.t :=
  apply_limits (HostConfig.mk None (unless_nil (SpawnRequest.volumes req)) None None None None None)
    (SpawnRequest.limits req).

Definition job_cap (req : SpawnRequest.t) : Z := default JOB_TIMEOUT (from_secs <$> SpawnRequest.job_timeout_secs req).

(** The outcome of the bounded wait: an exit code, or why there is none. *)
Definition job_exit (req : SpawnRequest.t) (waited : option (option (Result Z WaitError.t))) : CoreResult Z :=
  match waited with
  | None =>
    Err (CoreError.Backend ("job for `" +:+ SpawnRequest.spec_id req +:+ "` still running after "
      +:+ duration_debug (job_cap req) +:+ "; killed and removed"))
  | Some (Some (Ok status_code)) => Ok status_code
  | Some (Some (Err (WaitError.DockerContainerWaitError code))) => Ok code
  | Some (Some (Err (WaitError.Other e))) => Err (backend_err "wait for job container" e)
  | Some None => Err (CoreError.Backend "job wait stream ended without a status")
  end.

(** From a created container to its outcome, without the cleanup. *)
Definition finish_job (req : SpawnRequest.t) (container_id : string) : M (CoreResult (Z * list string)) :=
  do? u <- docker_call "start job container" (start_container container_id);
  do waited <- on_docker (wait_container container_id (job_cap req));
  match job_exit req waited with
  | Err e => st_ret (Err e)
  | Ok exit_code =>
    do lines <- logs_for_container container_id READINESS_LOG_TAIL;
    st_ret (Ok (exit_code, default [] (ok lines)))
  end.

Definition run_job (req : SpawnRequest.t) : M (CoreResult JobOutcome.t) :=
  do started <- read_instant;
  do? u <- ensure_image_pulled (SpawnRequest.image req) (SpawnRequest.creds req) (SpawnRequest.platform req);
  do? host_config <- attach_network (SpawnRequest.network req) (job_host_config req);
  do suffix <- on_docker new_v4;
  let name := "ruscker-job-" +:+ SpawnRequest.spec_id req +:+ "-" +:+ str_take 8 (uuid_display suffix) in
  do? container_id <- docker_call "create job container"
    (create_container name (default "" (SpawnRequest.platform req)) (job_body req host_config));
  do outcome <- finish_job req container_id;
  do! on_docker (force_remove container_id);
  do now <- read_instant;
  st_ret (result_map (fun x => JobOutcome.mk x.1 x.2 (as_millis (duration_since now started))) outcome).

(** *** Metrics and logs of a replica *)

Definition online_cpus (stat : ContainerStats.t) : Z :=
  let cpu := ContainerStats.cpu_stats stat in
  Z.max 1 (default (default 1 (c ← cpu; CpuStats.percpu_usage c)) (c ← cpu; CpuStats.online_cpus c)).

Definition metrics_for_container (container_id : string) : M (CoreResult ReplicaMetrics.t) :=
  do event <- on_docker (stats container_id);
  match event with
  | None => st_ret (Err (CoreError.Backend ("no stats event for container " +:+ container_id)))
  | Some (Err e) => st_ret (Err (backend_err "stats" e))
  | Some (Ok stat) =>
    let cpu_total := default 0 (c ← ContainerStats.cpu_stats stat; CpuStats.total_usage c) in
    let cpu_system := default 0 (c ← ContainerStats.cpu_stats stat; CpuStats.system_cpu_usage c) in
    do prev <- st_get (fun b => LocalDockerBackend.prev_stats b !! container_id);
    do! st_modify (fun b => LocalDockerBackend.set_prev_stats
          (<[container_id := PrevReading.mk cpu_total cpu_system]> (LocalDockerBackend.prev_stats b)) b);
    let cpu_percent := match prev with
                       | Some p => cpu_percent_from_delta p cpu_total cpu_system (online_cpus stat)
                       | None => f64_zero
                       end in
    let '(rx, tx) := match ContainerStats.networks stat with Some nets => sum_networks nets | None => (0, 0) end in
    st_ret (Ok (ReplicaMetrics.mk cpu_percent (default 0 (ContainerStats.memory_usage stat)) rx tx))
  end.

Definition metrics (replica_id : ReplicaId) : M (CoreResult ReplicaMetrics.t) :=
  do? container_id <- container_id_for_replica replica_id;
  metrics_for_container container_id.

Definition metrics_for (replica_id : ReplicaId) (container_id : string) : M (CoreResult ReplicaMetrics.t) :=
  if str_is_empty container_id then metrics replica_id else metrics_for_container container_id.

Definition logs (replica_id : ReplicaId) (tail : Z) : M (CoreResult (list string)) :=
  do? container_id <- container_id_for_replica replica_id;
  logs_for_container container_id tail.

(** The lines a live follow yields; the daemon ends the stream when the
    container exits. *)
Definition logs_follow (replica_id : ReplicaId) (tail : Z) : M (CoreResult (list string)) :=
  do? container_id <- container_id_for_replica replica_id;
  do frames <- on_docker (docker_logs container_id (Z.min tail MAX_TAIL));
  st_ret (Ok (follow_lines frames)).
End Operations.

#[global] Instance docker_backend {D} `{Docker D, System D, Formats} : ContainerBackend (LocalDockerBackend.t D) := {
  Spawn.spawn_request := spawn_request;
  Spawn.stop := stop;
  Spawn.replica_liveness := replica_liveness;
  Spawn.wait_until_ready_with_timeout := wait_until_ready_with_timeout;
  Spawn.remove_container := remove_container
}.

(** ** Lemmas *)

Section Lemmas.
Context {D : Type} `{DockerLaws D}.
Implicit Types (b : LocalDockerBackend.t D) (req : SpawnRequest.t).
Abbreviation containers b := (existing (LocalDockerBackend.docker b)).
Abbreviation names b := (named (LocalDockerBackend.docker b)).

(** The containers and their names stay. *)
Abbreviation draws b := (uuid_region (LocalDockerBackend.docker b)).
Definition untouched b b' : Prop :=
  containers b' = containers b /\ names b' = names b /\ forall i, draws b' i <-> draws b i.

#[global] Instance untouched_preorder : PreOrder untouched.
Proof.
  split; [done|]. intros b1 b2 b3 (E1 & E2 & R1) (E3 & E4 & R2). split; [congruence|]. split; [congruence|].
  intros i. by rewrite R2, R1.
Qed.

Lemma untouched_call {A} (op : D -> A * D) : quiet_call op -> preserves untouched (on_docker op).
Proof.
  intros Hq b. unfold on_docker. pose proof (quiet_existing op (LocalDockerBackend.docker b) Hq) as He.
  pose proof (quiet_named op (LocalDockerBackend.docker b) Hq) as Hn.
  pose proof (fun i => quiet_region op (LocalDockerBackend.docker b) i Hq) as Hr.
  destruct (op _) as [a d]. by split.
Qed.

Lemma untouched_docker_call {A} name (op : D -> DockerResult A * D) :
  quiet_call op -> preserves untouched (docker_call name op).
Proof. intros Hq. by apply preserves_map_err, untouched_call; [apply _|]. Qed.

Lemma untouched_forget c : preserves untouched (forget_metrics c).
Proof. by apply preserves_modify. Qed.

Lemma untouched_instant : preserves untouched read_instant.
Proof. apply preserves_get, _. Qed.

Hint Resolve untouched_forget untouched_instant : preserves.
Hint Resolve untouched_call untouched_docker_call : preserves.
Hint Extern 1 (quiet_call _) => constructor : preserves.

Ltac quiet := repeat (cbv zeta; preserves_step || (progress eauto with preserves)).

Lemma untouched_logs c n : preserves untouched (logs_for_container c n).
Proof. unfold logs_for_container. quiet. Qed.
Hint Resolve untouched_logs : preserves.

Lemma untouched_exit_code c : preserves untouched (container_exit_code c).
Proof. unfold container_exit_code. quiet. Qed.
Hint Resolve untouched_exit_code : preserves.

Lemma untouched_failure c h : preserves untouched (readiness_failure c h).
Proof. unfold readiness_failure. quiet. Qed.
Hint Resolve untouched_failure : preserves.

Lemma untouched_poll fuel c deadline attempt ex late :
  preserves untouched attempt -> preserves untouched (poll fuel c deadline attempt ex late).
Proof. intros Ha. induction fuel as [|fuel IH]; cbn [poll]; quiet. Qed.

Lemma untouched_ready c a budget : preserves untouched (wait_for_ready c a budget).
Proof.
  unfold wait_for_ready. quiet; try (apply untouched_poll; unfold try_connect, try_http; quiet).
Qed.
Hint Resolve untouched_ready : preserves.

Lemma untouched_port c k : preserves untouched (bound_host_port c k).
Proof. unfold bound_host_port. quiet. Qed.
Hint Resolve untouched_port : preserves.

Lemma untouched_pull i c p : preserves untouched (ensure_image_pulled i c p).
Proof. unfold ensure_image_pulled, image_is_present. quiet. Qed.

Lemma untouched_network n h : preserves untouched (attach_network n h).
Proof. unfold attach_network, ensure_network. quiet. Qed.
Hint Resolve untouched_pull untouched_network : preserves.

Lemma untouched_resolve h p : preserves untouched (resolve_upstream h p).
Proof. unfold resolve_upstream. quiet. Qed.
Hint Resolve untouched_resolve : preserves.

Lemma untouched_bring_up req c p : preserves untouched (bring_up req c p).
Proof. unfold bring_up. quiet. Qed.

Lemma untouched_find i : preserves untouched (find_container_id_for_replica i).
Proof. unfold find_container_id_for_replica. quiet. Qed.

Lemma untouched_list : preserves untouched list_replicas.
Proof. unfold list_replicas, replica_of_summary. quiet. Qed.

Lemma untouched_managed : preserves untouched list_managed_containers.
Proof. unfold list_managed_containers, managed_of_summary, finished_at. quiet. Qed.
Hint Resolve untouched_bring_up untouched_find untouched_list untouched_managed : preserves.

Lemma untouched_liveness qs : preserves untouched (replica_liveness qs).
Proof. unfold replica_liveness. quiet. Qed.

Lemma untouched_wait r t : preserves untouched (wait_until_ready_with_timeout r t).
Proof. unfold wait_until_ready_with_timeout. quiet. Qed.

Lemma untouched_finish_job req c : preserves untouched (finish_job req c).
Proof. unfold finish_job. quiet. Qed.
Hint Resolve untouched_liveness untouched_wait untouched_finish_job : preserves.

(** A creation, as the two maps see it. *)
Lemma create_inv name n p body b r b' :
  docker_call name (create_container n p body) b = (r, b') ->
  names b ⊆ names b'
  /\ match r with
     | Ok c => c ∉ containers b /\ containers b' = {[c]} ∪ containers b
       /\ forall labels i s, ContainerCreateBody.labels body = Some labels -> labelled labels = Some (i, s) ->
            draws b i -> names b !! i = None -> names b' !! i = Some s
     | Err _ => containers b' = containers b
     end.
Proof.
  intros (r0 & Hc & ->)%st_map_err_inv. unfold on_docker in Hc.
  pose proof (create_named n p body (LocalDockerBackend.docker b)) as Hn.
  destruct (create_container _ _ _ _) as [r1 d] eqn:E. injection Hc as <- <-. cbn. split; [done|].
  destruct r1 as [c|e]; cbn.
  - destruct (created_existing _ _ _ _ _ _ E) as [Hf He]. split; [done|]. split; [done|]. eauto using created_named.
  - by eapply refused_existing.
Qed.

(** A removal. *)
Lemma remove_inv c b r b' :
  on_docker (force_remove c) b = (r, b') ->
  names b' = names b /\ match r with
     | Ok _ => containers b' = containers b ∖ {[c]}
     | Err _ => containers b' ⊆ containers b
     end.
Proof.
  unfold on_docker. pose proof (remove_named c (LocalDockerBackend.docker b)) as Hn.
  destruct (force_remove _ _) as [r1 d] eqn:E. intros [= <- <-]. cbn. split; [done|].
  destruct r1 as [[]|e]; [by apply removed_existing|by eapply unremoved_existing].
Qed.

Lemma remove_shrinks c b r b' : on_docker (force_remove c) b = (r, b') -> containers b' ⊆ containers b.
Proof. intros [_ Hr]%remove_inv. destruct r; set_solver. Qed.

(** The daemon never refuses a removal. *)
Definition removals_succeed : Prop := forall c (d : D), is_ok (force_remove c d).1 = true.

Lemma remove_created c b0 b b' r : removals_succeed ->
  c ∉ containers b0 -> containers b = {[c]} ∪ containers b0 ->
  on_docker (force_remove c) b = (r, b') -> containers b' = containers b0.
Proof.
  intros Hrm Hf Hc E. pose proof (remove_inv _ _ _ _ E) as [_ Hr]. unfold on_docker in E.
  specialize (Hrm c (LocalDockerBackend.docker b)). destruct (force_remove _ _) as [r1 d]. injection E as <- <-.
  destruct r1 as [[]|]; [|done]. rewrite Hr, Hc. set_solver.
Qed.

Lemma replica_labels_spec req i port : replica_labels req i port !! LABEL_SPEC_ID = Some (SpawnRequest.spec_id req).
Proof. unfold replica_labels. by rewrite lookup_insert_ne, lookup_insert_ne, lookup_insert_eq by discriminate. Qed.

Lemma replica_labels_id req i port : replica_labels req i port !! LABEL_REPLICA_ID = Some (uuid_display i).
Proof. unfold replica_labels. by rewrite lookup_insert_ne, lookup_insert_eq by discriminate. Qed.

Lemma replica_labels_port req i port : replica_labels req i port !! LABEL_INNER_PORT = Some (Text.show port).
Proof. unfold replica_labels. by rewrite lookup_insert_eq. Qed.

Lemma labelled_replica `{!FormatsLaws} req i port :
  labelled (replica_labels req i port) = Some (i, SpawnRequest.spec_id req).
Proof.
  unfold labelled. rewrite replica_labels_spec, replica_labels_id. cbn. by rewrite uuid_round_trip.
Qed.

(** What a spawn leaves, whatever its result. *)
Lemma spawn_inv `{!FormatsLaws} req b r b' : spawn_request req b = (r, b') ->
  names b ⊆ names b'
  /\ match r with
     | Ok x => Replica.spec_id x = SpawnRequest.spec_id req /\ Replica.sessions_active x = 0
       /\ Replica.state x = ReplicaState.Ready
       /\ names b !! Replica.id x = None /\ names b' !! Replica.id x = Some (SpawnRequest.spec_id req)
       /\ Replica.container_id x ∉ containers b /\ containers b' = {[Replica.container_id x]} ∪ containers b
     | Err _ => removals_succeed -> containers b' = containers b
     end.
Proof.
  unfold spawn_request. intros (i & b1 & Hi & Hrun)%st_bind_inv.
  assert (untouched b b1) as (Ec1 & En1 & Er1) by (eapply run_of; [|exact Hi]; apply untouched_call; constructor).
  assert (names b !! i = None /\ draws b i) as [Hfresh Hreg].
  { unfold on_docker in Hi. pose proof (fresh_uuid (LocalDockerBackend.docker b)) as Hf.
    destruct (new_v4 _) as [u d]. by injection Hi as <- <-. }
  apply try_bind_inv in Hrun as [(u & b2 & Hp & Hrun)|(e & Hp & ->)].
  2: { apply (run_of untouched) in Hp as (Ec2 & En2 & Er2); [|apply untouched_pull]. split; [by rewrite En2, En1|congruence]. }
  apply (run_of untouched) in Hp as (Ec2 & En2 & Er2); [|apply untouched_pull].
  apply st_bind_inv in Hrun as (ip & b3 & [= <- <-] & Hrun).
  apply try_bind_inv in Hrun as [(hc & b4 & Hn & Hrun)|(e & Hn & ->)].
  2: { apply (run_of untouched) in Hn as (Ec3 & En3 & Er3); [|apply untouched_network]. split; [by rewrite En3, En2, En1|congruence]. }
  apply (run_of untouched) in Hn as (Ec3 & En3 & Er3); [|apply untouched_network].
  assert (containers b4 = containers b) as Ec by congruence. assert (names b4 = names b) as En by congruence.
  apply Er1, Er2, Er3 in Hreg. clear Ec1 Ec2 Ec3 En1 En2 En3 Er1 Er2 Er3 Hi.
  apply try_bind_inv in Hrun as [(c & b5 & Hc & Hrun)|(e & Hc & ->)].
  2: { apply create_inv in Hc as [Hs He]. rewrite En in Hs. split; [done|]. by intros _; rewrite He. }
  apply create_inv in Hc as (Hs & Hcf & He & Hnew). rewrite Ec in Hcf, He. rewrite En in Hs, Hnew.
  specialize (Hnew _ _ _ eq_refl (labelled_replica req i _) Hreg Hfresh).
  apply st_bind_inv in Hrun as (ready & b6 & Hb & Hrun).
  apply (run_of untouched) in Hb as (Ec6 & En6 & Er6); [|apply untouched_bring_up].
  destruct ready as [upstream|e].
  - apply st_bind_inv in Hrun as (now & b7 & [= <- <-] & [= <- <-]). cbn. rewrite Ec6, En6. eauto 10.
  - apply st_bind_inv in Hrun as (rr & b7 & Hr & [= <- <-]).
    destruct (remove_inv _ _ _ _ Hr) as [Hn7 _]. rewrite Hn7, En6. split; [done|]. intros Hrm.
    eapply remove_created; [done|exact Hcf| |exact Hr]. by rewrite Ec6.
Qed.

(** *** The interface's laws *)

Definition names_kept b b' : Prop := names b' = names b.

#[global] Instance names_kept_preorder : PreOrder names_kept.
Proof. split; [done|]. intros b1 b2 b3 E1 E2. unfold names_kept in *. congruence. Qed.

Lemma untouched_names {A} (m : St (LocalDockerBackend.t D) A) : preserves untouched m -> preserves names_kept m.
Proof. intros Hm b. apply (Hm b). Qed.

Lemma names_remove c : preserves names_kept (on_docker (force_remove c)).
Proof. intros b. destruct (on_docker (force_remove c) b) as [r b'] eqn:E. by apply remove_inv in E as [? _]. Qed.

Lemma names_remove_call n c : preserves names_kept (docker_call n (force_remove c)).
Proof. apply preserves_map_err, names_remove; apply _. Qed.
Hint Resolve names_remove names_remove_call : preserves.
Hint Extern 2 (preserves names_kept _) => apply untouched_names; solve [eauto with preserves] : preserves.

Lemma names_stop i : preserves names_kept (stop i).
Proof. unfold stop. quiet. Qed.

Lemma names_remove_container c : preserves names_kept (remove_container c).
Proof. unfold remove_container. quiet. Qed.

Lemma listed_replica l r s b b' f d' :
  list_containers f (LocalDockerBackend.docker b) = (Ok l, d') -> s ∈ l ->
  forall b1, replica_of_summary s b1 = (Some r, b') ->
  names b !! Replica.id r = Some (Replica.spec_id r).
Proof.
  intros Hl Hs b1. unfold replica_of_summary. destruct (labelled _) as [[i spec_id]|] eqn:El; [|by intros [=]].
  destruct (summary_host_port _ _) as [p|]; [|by intros [=]].
  intros (h & b2 & _ & (addrs & b3 & _ & Ha)%st_bind_inv)%st_bind_inv.
  destruct addrs as [[|a addrs]|e]; [by injection Ha..| |done].
  - apply st_bind_inv in Ha as (now & b4 & _ & Ha). injection Ha as <- _. cbn.
    destruct (ContainerSummary.labels s) as [labels|] eqn:E; [by eapply listed_named|].
    cbn in El. unfold labelled in El. by rewrite lookup_empty in El.
Qed.

Lemma list_replicas_named l b b' r :
  list_replicas b = (Ok l, b') -> r ∈ l -> names b' !! Replica.id r = Some (Replica.spec_id r).
Proof.
  intros E Hr. pose proof (run_of _ _ _ _ _ untouched_list E) as (_ & -> & _). revert E.
  intros (sums & b1 & (r0 & Hl & Hr0)%st_map_err_inv & (rs & b2 & Hm & [= -> ->])%st_bind_inv)%try_bind_Ok.
  unfold on_docker in Hl. destruct (list_containers _ _) as [r1 d] eqn:El. injection Hl as <- <-.
  destruct r1 as [sums'|]; [injection Hr0 as <-|done].
  destruct (st_filter_map_elem _ _ _ _ _ _ Hm Hr) as (s & b3 & b4 & Hs & Hrs). by eapply listed_replica.
Qed.

Lemma liveness_Ok qs b rep b' : replica_liveness qs b = (Ok rep, b') ->
  exists managed b1 rs, list_managed_containers b = (Ok managed, b1) /\ list_replicas b1 = (Ok rs, b')
    /\ rep = classify_local_liveness qs managed
               (List.filter (fun r => ReplicaState.eqb (Replica.state r) ReplicaState.Ready) rs).
Proof.
  intros (managed & b1 & Hm & (rs & b2 & Hl & [= <- ->])%try_bind_Ok)%try_bind_Ok. eauto 10.
Qed.

Lemma names_sub b b' : names_kept b b' -> names b ⊆ names b'.
Proof. intros E. by rewrite E. Qed.

#[export] Instance docker_backend_laws `{!FormatsLaws} : ContainerBackendLaws (LocalDockerBackend.t D).
Proof.
  refine {| issued := fun b => names b |}.
  - intros req b r b' E. destruct (spawn_inv _ _ _ _ E) as (Hs & Hid & Ha & Hst & Hf & Hn & _). rewrite Hid. auto 10.
  - intros req b e b' E. apply (spawn_inv _ _ _ _ E).
  - intros i b. apply names_sub, (names_stop i b).
  - intros qs b. apply names_sub, (untouched_liveness qs b).
  - intros qs b rep b' r E Hr. destruct (liveness_Ok _ _ _ _ E) as (m & b1 & rs & _ & Hl & ->).
    apply filter_elem in Hr as [Hr _]. by eapply list_replicas_named.
  - intros r t b. apply names_sub, (untouched_wait r t b).
  - intros c b. apply names_sub, (names_remove_container c b).
Defined.

(** *** The inventory *)

Lemma managed_rows sums ms b b' : st_filter_map managed_of_summary sums b = (ms, b') ->
  map (fun m => (ManagedContainer.id m, ManagedContainer.running m)) ms
  = map (fun c => (default "" (ContainerSummary.id c), is_running c)) sums.
Proof.
  revert b ms; induction sums as [|c sums IH]; intros b ms; cbn [st_filter_map]; [by intros [= <- _]|].
  intros (o & b1 & Ho & (ms' & b2 & Hl & [= <- <-])%st_bind_inv)%st_bind_inv.
  unfold managed_of_summary in Ho. apply st_bind_inv in Ho as (f & b3 & _ & [= <- _]). cbn. f_equal. by eapply IH.
Qed.

Lemma managed_Ok b ms b' : list_managed_containers b = (Ok ms, b') ->
  exists sums d, list_containers (Some LABEL_REPLICA_ID) (LocalDockerBackend.docker b) = (Ok sums, d)
    /\ map (fun m => (ManagedContainer.id m, ManagedContainer.running m)) ms
       = map (fun c => (default "" (ContainerSummary.id c), is_running c)) sums.
Proof.
  intros (sums & b1 & (r0 & Hl & Hr0)%st_map_err_inv & (ms' & b2 & Hm & [= -> ->])%st_bind_inv)%try_bind_Ok.
  unfold on_docker in Hl. destruct (list_containers _ _) as [r1 d] eqn:El. injection Hl as <- <-.
  destruct r1 as [sums'|]; [injection Hr0 as <-|done]. exists sums, d. split; [done|]. by eapply managed_rows.
Qed.

Definition summary_liveness (sums : list ContainerSummary.t) (container_id : string) : ReplicaLiveness.t :=
  match List.find (fun c => str_eqb (default "" (ContainerSummary.id c)) container_id) sums with
  | Some c => if is_running c then ReplicaLiveness.Running else ReplicaLiveness.Stopped
  | None => ReplicaLiveness.Missing
  end.

Lemma liveness_of_rows sums ms c :
  map (fun m => (ManagedContainer.id m, ManagedContainer.running m)) ms
  = map (fun c => (default "" (ContainerSummary.id c), is_running c)) sums ->
  default ReplicaLiveness.Missing (liveness_in ms c) = summary_liveness sums c.
Proof.
  revert sums; induction ms as [|m ms IH]; intros [|s sums] E; try done. injection E as Hi Hr E.
  unfold liveness_in, summary_liveness. cbn [List.find]. rewrite Hi.
  destruct (str_eqb _ c); [cbn; by rewrite Hr|]. by apply IH.
Qed.

(** *** Removals *)

(** A container that a step removed. *)
Definition removed b b' (c : string) : Prop := c ∈ containers b /\ c ∉ containers b'.

Lemma removed_untouched b b1 b' c : untouched b b1 -> removed b b' c -> removed b1 b' c.
Proof. intros [E _] [Hin Hout]. split; [by rewrite E|done]. Qed.

Lemma removed_one c c' b b1 b' r :
  on_docker (force_remove c) b = (r, b1) -> containers b' = containers b1 -> removed b b' c' -> c' = c.
Proof.
  unfold on_docker. pose proof (remove_only c (LocalDockerBackend.docker b)) as Hr.
  destruct (force_remove _ _) as [r1 d]. intros [= <- <-] E [Hin Hout]. cbn in E, Hr. rewrite E in Hout. unfold removed in *. destruct (decide (c' = c)); [done|]. exfalso. apply Hout, Hr. set_solver.
Qed.

Lemma removed_by_call n c c' b b1 b' r :
  docker_call n (force_remove c) b = (r, b1) -> containers b' = containers b1 -> removed b b' c' -> c' = c.
Proof. intros (r0 & Hr & _)%st_map_err_inv. by apply removed_one with r0. Qed.

Lemma removed_by_prune ms b r b' c :
  st_filter_map prune_one ms b = (r, b') -> removed b b' c -> exists m, m ∈ ms /\ ManagedContainer.id m = c.
Proof.
  revert b r; induction ms as [|m ms IH]; intros b r; cbn [st_filter_map]; [intros [= _ <-] []; done|].
  intros (o & b1 & Ho & (bs & b2 & Hl & [= _ <-])%st_bind_inv)%st_bind_inv [Hin Hout].
  destruct (decide (c ∈ containers b1)) as [Hc|Hc].
  - destruct (IH _ _ Hl (conj Hc Hout)) as (m' & Hm & Hid). exists m'. split; [by right|done].
  - exists m. split; [left|]. unfold prune_one in Ho. apply st_bind_inv in Ho as (rm & b3 & Hr & Ho).
    symmetry. apply (removed_one (ManagedContainer.id m) c b b3 b1 rm Hr); [|by split].
    destruct rm; [|by injection Ho as _ <-].
    apply st_bind_inv in Ho as (u & b4 & Hf & [= _ <-]). by apply (run_of _ _ _ _ _ (untouched_forget _)) in Hf as [E _].
Qed.

Lemma remove_container_removes target b r b' c :
  remove_container target b = (r, b') -> removed b b' c -> c = target
  /\ exists info labels d, inspect_container c (LocalDockerBackend.docker b) = (Ok info, d)
       /\ ContainerInspect.config_labels info = Some labels /\ is_Some (labels !! LABEL_REPLICA_ID).
Proof.
  intros Hrun Hrem. apply try_bind_inv in Hrun as [(info & b1 & Hi & Hrun)|(e & Hi & ->)].
  2: { apply (run_of untouched) in Hi as [E _]; [|apply untouched_docker_call; constructor]. destruct Hrem as [? []]. by rewrite E. }
  pose proof (run_of _ _ _ _ _ (untouched_docker_call _ _ (quiet_inspect target)) Hi) as Hu.
  pose proof (removed_untouched _ _ _ _ Hu Hrem) as Hrem1.
  destruct (ContainerInspect.config_labels info) as [labels|] eqn:Hl; [|injection Hrun as _ ->; by destruct Hrem1].
  destruct (bool_decide_reflect (is_Some (labels !! LABEL_REPLICA_ID))) as [Hlab|Hlab]; cbn [negb] in Hrun;
    [|injection Hrun as _ ->; by destruct Hrem1].
  assert (c = target) as ->.
  { apply try_bind_inv in Hrun as [(u & b2 & Hr & Hrun)|(e & Hr & _)]; [|by eapply removed_by_call].
    apply st_bind_inv in Hrun as (u' & b3 & Hf & [= _ <-]). apply (run_of _ _ _ _ _ (untouched_forget _)) in Hf as [E _].
    by eapply removed_by_call. }
  split; [done|]. apply st_map_err_inv in Hi as (r0 & Hi & Hr0). unfold on_docker in Hi.
  destruct (inspect_container _ _) as [r1 d] eqn:Ed. injection Hi as <- _. destruct r1; [injection Hr0 as <-|done].
  by exists info, labels, d.
Qed.

Lemma stop_removes i b r b' c : stop i b = (r, b') -> removed b b' c ->
  exists s l d, list_containers (Some (LABEL_REPLICA_ID +:+ "=" +:+ uuid_display i)) (LocalDockerBackend.docker b)
                = (Ok (s :: l), d) /\ ContainerSummary.id s = Some c.
Proof.
  intros Hrun Hrem. apply try_bind_inv in Hrun as [(found & b1 & Hi & Hrun)|(e & Hi & ->)].
  2: { apply (run_of untouched) in Hi as [E _]; [|apply untouched_find]. destruct Hrem as [? []]. by rewrite E. }
  pose proof (removed_untouched _ _ _ _ (run_of _ _ _ _ _ (untouched_find i) Hi) Hrem) as Hrem1.
  destruct found as [cid|]; [|injection Hrun as _ ->; by destruct Hrem1].
  assert (c = cid) as ->.
  { apply st_bind_inv in Hrun as (u & b2 & Hs & Hrun).
    pose proof (removed_untouched _ _ _ _ (run_of _ _ _ _ _ (untouched_call _ (quiet_stop _ _)) Hs) Hrem1) as Hrem2.
    apply try_bind_inv in Hrun as [(u' & b3 & Hr & Hrun)|(e & Hr & _)]; [|by eapply removed_by_call].
    apply st_bind_inv in Hrun as (u2 & b4 & Hf & [= _ <-]). apply (run_of _ _ _ _ _ (untouched_forget _)) in Hf as [E _].
    by eapply removed_by_call. }
  apply try_bind_Ok in Hi as (l & b2 & (r0 & Hl & Hr0)%st_map_err_inv & [= Hh _]). unfold on_docker in Hl.
  destruct (list_containers _ _) as [r1 d] eqn:Ed. injection Hl as <- _. destruct r1; [injection Hr0 as <-|done].
  destruct l as [|s l]; [done|]. by exists s, l, d.
Qed.

Lemma prune_removes b r b' c : prune_stopped b = (r, b') -> removed b b' c ->
  exists l d s, list_containers (Some LABEL_REPLICA_ID) (LocalDockerBackend.docker b) = (Ok l, d)
    /\ s ∈ l /\ default "" (ContainerSummary.id s) = c /\ is_running s = false.
Proof.
  intros Hrun Hrem. apply try_bind_inv in Hrun as [(ms & b1 & Hm & Hrun)|(e & Hi & ->)].
  2: { apply (run_of untouched) in Hi as [E _]; [|apply untouched_managed]. destruct Hrem as [? []]. by rewrite E. }
  pose proof (removed_untouched _ _ _ _ (run_of _ _ _ _ _ untouched_managed Hm) Hrem) as Hrem1.
  apply st_bind_inv in Hrun as (rs & b2 & Hp & [= _ <-]).
  destruct (removed_by_prune _ _ _ _ _ Hp Hrem1) as (m & [Hin Hrun]%filter_elem & <-).
  destruct (managed_Ok _ _ _ Hm) as (sums & d & Hs & Hrows). exists sums, d.
  assert ((ManagedContainer.id m, ManagedContainer.running m)
          ∈ map (fun c => (default "" (ContainerSummary.id c), is_running c)) sums) as Hrow.
  { rewrite <- Hrows. apply list_elem_of_fmap. by exists m. }
  apply list_elem_of_fmap in Hrow as (s & [= Hid Hr] & Hs'). exists s. rewrite <- Hid, <- Hr.
  bool_split. done.
Qed.

(** *** Jobs *)

Lemma job_labelled req : labelled (job_labels req)
  = (shown ← operator_labels req !! LABEL_REPLICA_ID; i ← uuid_parse shown; Some (i, SpawnRequest.spec_id req)).
Proof.
  assert (job_labels req !! LABEL_SPEC_ID = Some (SpawnRequest.spec_id req)) as Hs.
  { unfold job_labels. by rewrite lookup_insert_ne, lookup_insert_eq by discriminate. }
  assert (job_labels req !! LABEL_REPLICA_ID = operator_labels req !! LABEL_REPLICA_ID) as Hi.
  { unfold job_labels. by rewrite lookup_insert_ne, lookup_insert_ne by discriminate. }
  unfold labelled. by rewrite Hs, Hi.
Qed.

Lemma run_job_containers req b r b' :
  removals_succeed -> run_job req b = (r, b') -> containers b' = containers b.
Proof.
  intros Hrm. unfold run_job. intros (t & b1 & [= <- <-] & Hrun)%st_bind_inv.
  apply try_bind_inv in Hrun as [(u & b2 & Hp & Hrun)|(e & Hp & ->)]; apply (run_of untouched) in Hp as [Ec2 _];
    [|apply untouched_pull|done|apply untouched_pull].
  apply try_bind_inv in Hrun as [(hc & b3 & Hn & Hrun)|(e & Hn & ->)]; apply (run_of untouched) in Hn as [Ec3 _];
    [|apply untouched_network|congruence|apply untouched_network].
  apply st_bind_inv in Hrun as (sfx & b4 & Hu & Hrun). apply (run_of untouched) in Hu as [Ec4 _];
    [|apply untouched_call; constructor].
  apply try_bind_inv in Hrun as [(c & b5 & Hc & Hrun)|(e & Hc & ->)]; apply create_inv in Hc as [_ Hc]; [|congruence].
  destruct Hc as (Hf & Hc & _). apply st_bind_inv in Hrun as (o & b6 & Ho & Hrun).
  apply (run_of untouched) in Ho as [Ec6 _]; [|apply untouched_finish_job].
  apply st_bind_inv in Hrun as (rm & b7 & Hr & (now & b8 & [= <- <-] & [= <- <-])%st_bind_inv).
  transitivity (containers b4); [|congruence]. eapply remove_created; [done|exact Hf| |exact Hr]. congruence.
Qed.
End Lemmas.

(** *** Time *)

Section Time.
Context {D : Type} `{Formats, ClockLaws D}.
Implicit Types (b : LocalDockerBackend.t D).
Abbreviation clock b := (instant (LocalDockerBackend.docker b)).

Definition no_earlier b b' : Prop := clock b <= clock b'.

#[global] Instance no_earlier_preorder : PreOrder no_earlier.
Proof. split; [intros b; unfold no_earlier; lia|]. intros b1 b2 b3. unfold no_earlier. lia. Qed.

Lemma no_earlier_call {A} (op : D -> A * D) : quiet_call op -> preserves no_earlier (on_docker op).
Proof.
  intros Hq b. unfold on_docker, no_earlier. pose proof (quiet_instant op (LocalDockerBackend.docker b) Hq) as Hi.
  by destruct (op _) as [a d].
Qed.
Hint Resolve no_earlier_call : preserves.
Hint Extern 1 (quiet_call _) => constructor : preserves.

Lemma no_earlier_exit_code c : preserves no_earlier (container_exit_code c).
Proof. unfold container_exit_code. preserves_auto. Qed.

Lemma no_earlier_failure c h : preserves no_earlier (readiness_failure c h).
Proof. unfold readiness_failure, logs_for_container. preserves_auto. Qed.

Lemma no_earlier_instant : preserves no_earlier read_instant.
Proof. apply preserves_get, _. Qed.
Hint Resolve no_earlier_exit_code no_earlier_failure no_earlier_instant : preserves.

Lemma no_earlier_poll fuel c deadline attempt ex late :
  preserves no_earlier attempt -> preserves no_earlier (poll fuel c deadline attempt ex late).
Proof. intros Ha. induction fuel as [|fuel IH]; cbn [poll]; preserves_auto. Qed.

(** With enough fuel for the time left, a polling loop ends. *)
Lemma poll_ends c deadline attempt ex late fuel b :
  preserves no_earlier attempt -> (0 < fuel)%nat ->
  deadline - clock b <= (Z.of_nat fuel - 1) * READINESS_INTERVAL ->
  is_Some (poll fuel c deadline attempt ex late b).1.
Proof.
  intros Ha. revert b; induction fuel as [|fuel IH]; intros b Hpos Hleft; [lia|]. cbn [poll]. unfold st_bind at 1.
  pose proof (Ha b) as Hb1. destruct (attempt b) as [[e|] b1]; cbn in Hb1; [|by eexists].
  unfold st_bind at 1. pose proof (no_earlier_exit_code c b1) as Hb2.
  destruct (container_exit_code c b1) as [[code|] b2]; cbn in Hb2.
  { unfold st_bind. destruct (readiness_failure _ _ _). by eexists. }
  cbn. destruct (Z.ltb_spec (clock b2) deadline) as [Hlt|Hge].
  2: { unfold st_bind. destruct (readiness_failure _ _ _). by eexists. }
  unfold st_bind, on_docker. pose proof (sleep_instant READINESS_INTERVAL (LocalDockerBackend.docker b2)) as Hs.
  destruct (sleep _ _) as [u d]; cbn in Hs. unfold no_earlier in *.
  assert (0 < READINESS_INTERVAL) by done.
  apply IH; cbn -[Z.mul READINESS_INTERVAL]; nia.
Qed.

(** A loop that reports success saw an attempt succeed. *)
Lemma poll_Ok c deadline attempt ex late fuel b b' :
  poll fuel c deadline attempt ex late b = (Some (Ok tt), b') -> exists b0, (attempt b0).1 = None.
Proof.
  revert b; induction fuel as [|fuel IH]; intros b; [done|]. cbn [poll]. unfold st_bind at 1.
  destruct (attempt b) as [[e|] b1] eqn:Ea; [|intros _; exists b; by rewrite Ea].
  unfold st_bind at 1. destruct (container_exit_code c b1) as [[code|] b2].
  { unfold st_bind. by destruct (readiness_failure _ _ _). }
  cbn. destruct (Z.ltb_spec (clock b2) deadline); unfold st_bind.
  - destruct (on_docker _ b2). apply IH.
  - by destruct (readiness_failure _ _ _).
Qed.

(** A loop does not give a running container up before its deadline. *)
Lemma poll_patient c deadline attempt ex late fuel b e b' :
  (forall b0, (container_exit_code (D := D) c b0).1 = None) ->
  poll fuel c deadline attempt ex late b = (Some (Err e), b') -> deadline <= clock b'.
Proof.
  intros Hrun. revert b; induction fuel as [|fuel IH]; intros b; [done|]. cbn [poll]. unfold st_bind at 1.
  destruct (attempt b) as [[er|] b1]; [|done]. unfold st_bind at 1. pose proof (Hrun b1) as Hc.
  destruct (container_exit_code c b1) as [[code|] b2]; [done|]. cbn.
  destruct (Z.ltb_spec (clock b2) deadline) as [Hlt|Hge]; unfold st_bind.
  - destruct (on_docker _ b2). apply IH.
  - pose proof (no_earlier_failure c (late er) b2) as Hn. destruct (readiness_failure _ _ _) as [err b3].
    intros [= _ <-]. unfold no_earlier in Hn. cbn in Hn. lia.
Qed.

(** *** How long it takes *)

Context {slow : Z} `{!LatencyLaws D slow}.

Definition takes {A} (n : Z) (m : St (LocalDockerBackend.t D) A) : Prop := forall b, clock (m b).2 <= clock b + n.

Lemma takes_ret {A} (a : A) : takes 0 (st_ret a).
Proof. intros b. cbn. lia. Qed.

Lemma takes_bind {A A'} n n' (m : St (LocalDockerBackend.t D) A) (k : A -> St (LocalDockerBackend.t D) A') :
  takes n m -> (forall a, takes n' (k a)) -> takes (n + n') (st_bind m k).
Proof.
  intros Hm Hk b. unfold st_bind. specialize (Hm b). destruct (m b) as [a b1]. specialize (Hk a b1). cbn in Hm. lia.
Qed.

Lemma takes_map {A A'} n (m : St (LocalDockerBackend.t D) A) (f : A -> A') : takes n m -> takes n (st_bind m (fun a => st_ret (f a))).
Proof. intros Hm. replace n with (n + 0) by lia. apply takes_bind; [done|intros a; apply takes_ret]. Qed.

Lemma takes_call {A} n (op : D -> A * D) : (forall d, instant (op d).2 <= instant d + n) -> takes n (on_docker op).
Proof. intros Hop b. unfold on_docker. specialize (Hop (LocalDockerBackend.docker b)). by destruct (op _). Qed.

Lemma takes_exit_code c : takes slow (container_exit_code c).
Proof. apply takes_map, takes_call. intros d. apply inspect_takes. Qed.

Lemma takes_failure c h : takes slow (readiness_failure c h).
Proof. apply takes_map, takes_map, takes_call. intros d. apply logs_take. Qed.

Lemma takes_sleep n : 0 <= n -> takes (n + slow) (on_docker (sleep n)).
Proof. intros Hn. apply takes_call. intros d. pose proof (sleep_takes n d Hn). lia. Qed.

(** The last try of a loop starts at most one sleep after the deadline; then
    come the try itself, an inspection and the request for the logs. *)
Lemma poll_takes c deadline attempt ex late fuel cost latest b :
  takes cost attempt -> 0 <= cost -> deadline + READINESS_INTERVAL + slow <= latest -> clock b <= latest ->
  let '(r, b') := poll fuel c deadline attempt ex late b in
  clock b' <= latest + cost + (match r with Some (Ok _) => 0 | _ => 2 * slow end).
Proof.
  intros Ha Hcost Hlatest. pose proof (slow_nonnegative (D := D)) as Hslow.
  revert b; induction fuel as [|fuel IH]; intros b Hb; [cbn; lia|]. cbn [poll]. unfold st_bind at 1.
  specialize (Ha b) as Ht1. destruct (attempt b) as [[e|] b1]; cbn in Ht1; [|cbn; lia].
  unfold st_bind at 1. pose proof (takes_exit_code c b1) as Ht2.
  destruct (container_exit_code c b1) as [[code|] b2]; cbn in Ht2.
  { unfold st_bind. pose proof (takes_failure c (ex code) b2) as Ht3. destruct (readiness_failure _ _ _). cbn in *. lia. }
  cbn. destruct (Z.ltb_spec (clock b2) deadline) as [Hlt|Hge]; unfold st_bind.
  - pose proof (takes_sleep READINESS_INTERVAL ltac:(done) b2) as Ht3. destruct (on_docker _ b2) as [u b3]. apply IH. cbn in Ht3. lia.
  - pose proof (takes_failure c (late e) b2) as Ht3. destruct (readiness_failure _ _ _). cbn in *. lia.
Qed.

Lemma takes_connect addr : takes slow (try_connect addr).
Proof. apply takes_call. intros d. apply connect_takes. Qed.

Lemma takes_http addr : takes (from_secs 2 + slow) (try_http addr).
Proof.
  apply takes_map, takes_call. intros d. pose proof (exchange_takes addr readiness_probe (from_secs 2) d ltac:(done)). lia.
Qed.

Lemma readiness_fuel_enough budget :
  0 <= budget -> (0 < readiness_fuel budget)%nat /\ budget <= (Z.of_nat (readiness_fuel budget) - 1) * READINESS_INTERVAL.
Proof.
  intros Hb. unfold readiness_fuel. assert (0 < READINESS_INTERVAL) as Hi by done.
  pose proof (Z.div_pos budget _ Hb Hi). split; [lia|]. rewrite Z2Nat.id by lia.
  pose proof (Z.div_mod budget READINESS_INTERVAL). pose proof (Z.mod_pos_bound budget _ Hi). nia.
Qed.
End Time.

(** ** Properties *)

Module DockerProperties.
Section Properties.
Context {D : Type} `{DockerLaws D, !FormatsLaws}.
Implicit Types (b : LocalDockerBackend.t D) (req : SpawnRequest.t).
Abbreviation containers b := (existing (LocalDockerBackend.docker b)).

(** C13. A spawn accounts for its container: a replica comes back with
    exactly one new container, named after a fresh replica id with the
    requested app; an error, at whatever step, leaves no container behind,
    provided the daemon does not refuse removals. *)
Theorem spawn_accounts_for_its_container req b r b' : spawn_request req b = (r, b') ->
  match r with
  | Ok x => Replica.container_id x ∉ containers b
      /\ containers b' = {[Replica.container_id x]} ∪ containers b
      /\ named (LocalDockerBackend.docker b) !! Replica.id x = None
      /\ named (LocalDockerBackend.docker b') !! Replica.id x = Some (SpawnRequest.spec_id req)
  | Err _ => removals_succeed (D := D) -> containers b' = containers b
  end.
Proof.
  intros E. destruct (spawn_inv _ _ _ _ E) as [_ Hr]. destruct r; [|done].
  destruct Hr as (_ & _ & _ & Hf & Hn & Hc & He). auto.
Qed.

(** A run-to-completion job leaves no container behind, whether it
    could not be created or started, hung, failed or succeeded; and its
    labels name a replica exactly when the operator's own labels do, in which
    case the replica machinery would see it. *)
Theorem job_leaves_no_container req b r b' : removals_succeed (D := D) -> run_job req b = (r, b') ->
  containers b' = containers b
  /\ labelled (job_labels req)
     = (shown ← operator_labels req !! LABEL_REPLICA_ID; i ← uuid_parse shown; Some (i, SpawnRequest.spec_id req)).
Proof.
  intros Hrm E. split; [|by apply job_labelled]. by eapply run_job_containers.
Qed.

(** Only Ruscker's containers are ever removed from outside a spawn:
    [remove_container] removes at most the container it names, and only if
    the daemon shows a replica label on it; [stop] at most the first container
    the daemon lists under the replica's own label; [prune_stopped] only
    containers listed under a replica label and not running. *)
Theorem only_own_containers_removed b b' c :
  removed b b' c ->
  (forall target r, remove_container target b = (r, b') -> c = target
     /\ exists info labels d, inspect_container c (LocalDockerBackend.docker b) = (Ok info, d)
          /\ ContainerInspect.config_labels info = Some labels /\ is_Some (labels !! LABEL_REPLICA_ID))
  /\ (forall i r, stop i b = (r, b') ->
       exists s l d, list_containers (Some (LABEL_REPLICA_ID +:+ "=" +:+ uuid_display i)) (LocalDockerBackend.docker b)
                     = (Ok (s :: l), d) /\ ContainerSummary.id s = Some c)
  /\ (forall r, prune_stopped b = (r, b') ->
       exists l d s, list_containers (Some LABEL_REPLICA_ID) (LocalDockerBackend.docker b) = (Ok l, d)
         /\ s ∈ l /\ default "" (ContainerSummary.id s) = c /\ is_running s = false).
Proof.
  intros Hrem. split; [|split].
  - intros target r E. by eapply remove_container_removes.
  - intros i r E. by eapply stop_removes.
  - intros r E. by eapply prune_removes.
Qed.

(** A local liveness report is exactly the daemon's inventory: every
    known replica is [Running] or [Stopped] as the first listed container
    with its id is, [Missing] when none has it, and never [Unknown]; the
    containers offered for adoption are ready and carry issued labels. *)
Theorem local_liveness_exact qs b rep b' : replica_liveness qs b = (Ok rep, b') ->
  exists sums d, list_containers (Some LABEL_REPLICA_ID) (LocalDockerBackend.docker b) = (Ok sums, d)
  /\ ReplicaLivenessReport.observations rep
     = map (fun q => (ReplicaLivenessQuery.replica_id q, summary_liveness sums (ReplicaLivenessQuery.container_id q))) qs
  /\ forall r, r ∈ ReplicaLivenessReport.running rep -> Replica.state r = ReplicaState.Ready
       /\ named (LocalDockerBackend.docker b') !! Replica.id r = Some (Replica.spec_id r).
Proof.
  intros E. destruct (liveness_Ok _ _ _ _ E) as (ms & b1 & rs & Hm & Hl & ->).
  destruct (managed_Ok _ _ _ Hm) as (sums & d & Hs & Hrows). exists sums, d. split; [done|]. split.
  - cbn. apply map_ext. intros q. by rewrite (liveness_of_rows _ _ _ Hrows).
  - intros r [Hr Hst%bool_decide_eq_true]%filter_elem. split; [done|]. by eapply list_replicas_named.
Qed.

(** The labels round-trip: a container summary that carries the labels
    a spawn stamped is listed as the replica that was spawned, with its id,
    app and container, whatever labels the operator added. *)
Theorem relisted_replica req i port s b cid ports hp a rest :
  0 <= port < 2 ^ 16 ->
  ContainerSummary.labels s = Some (replica_labels req i port) -> ContainerSummary.id s = Some cid ->
  ContainerSummary.ports s = Some ports ->
  List.find (fun p => Port.private_port p =? port) ports = Some (Port.mk port (Some hp)) ->
  (to_socket_addrs (LocalDockerBackend.upstream_host b +:+ ":" +:+ Text.show hp) (LocalDockerBackend.docker b)).1
    = Ok (a :: rest) ->
  exists started_at, (replica_of_summary s b).1
    = Some (Replica.mk i (SpawnRequest.spec_id req) cid a (state_from_enum (ContainerSummary.state s)) started_at 0 0 None).
Proof.
  intros Hp Hl Hi Hps Hf Ha. unfold replica_of_summary. rewrite Hl. cbn [from_option id]. rewrite labelled_replica.
  unfold summary_host_port, summary_inner_port. rewrite replica_labels_port. cbn [mbind option_bind].
  rewrite parse_show by lia. rewrite Hps. cbn [default mbind option_bind]. cbn -[to_socket_addrs String.append]. rewrite Hf. cbn -[to_socket_addrs String.append].
  unfold st_bind, st_get, resolve_upstream, on_docker.
  destruct (to_socket_addrs _ _) as [r d]. cbn in Ha. subst r. cbn. rewrite Hi. by eexists.
Qed.
End Properties.

Section Readiness.
Context {D : Type} `{Formats, ClockLaws D}.
Abbreviation clock b := (instant (LocalDockerBackend.docker b)).

(** C14. Waiting for a container ends on time, and not early.  The two
    phases share one deadline: whatever the daemon and the container answer,
    the wait returns within the budget, one pause of 250 ms, one exchange of
    two seconds and five calls of the daemon, each as long as the slowest; a
    container that runs is not given up before the budget is spent; and it is
    called ready only after it sent something back. *)
Theorem readiness_wait_ends {slow : Z} `{!LatencyLaws D slow} (container_id addr : string) (budget : Z)
    (b : LocalDockerBackend.t D) (Hbudget : 0 <= budget) :
  let '(answer, b') := wait_for_ready container_id addr budget b in
  is_Some answer
  /\ clock b' <= clock b + budget + from_millis 250 + from_secs 2 + 5 * slow
  /\ (forall e, answer = Some (Err e) -> (forall b0, (container_exit_code (D := D) container_id b0).1 = None) ->
        clock b + budget <= clock b')
  /\ (answer = Some (Ok tt) -> exists d n, (tcp_exchange addr readiness_probe (from_secs 2) d).1 = Some n /\ 0 < n).
Proof.
  destruct (readiness_fuel_enough budget Hbudget) as [Hpos Hleft]. pose proof (slow_nonnegative (D := D)) as Hslow.
  assert (preserves no_earlier (try_connect (D := D) addr)) as Hc by (apply no_earlier_call; constructor).
  assert (preserves no_earlier (try_http (D := D) addr)) as Hh.
  { unfold try_http. apply preserves_bind; [apply _|apply no_earlier_call; constructor|intros n; apply preserves_ret, _]. }
  unfold wait_for_ready, st_bind at 1, read_instant, st_get. unfold st_bind at 1.
  set (latest := clock b + budget + READINESS_INTERVAL + slow).
  match goal with |- context [poll ?f ?c ?d ?a ?x ?l b] =>
    pose proof (poll_ends c d a x l f b Hc Hpos) as Hp; pose proof (no_earlier_poll f c d a x l Hc b) as Hn;
    assert (d + READINESS_INTERVAL + slow <= latest) as Hd by (apply Z.le_refl);
    assert (clock b <= latest) as Hb by (unfold latest; cbv [READINESS_INTERVAL from_millis]; lia);
    pose proof (poll_takes c d a x l f slow latest b (takes_connect addr) Hslow Hd Hb) as Ht;
    pose proof (fun e b' => poll_patient c d a x l f b e b') as Hw;
    destruct (poll f c d a x l b) as [r b1] end.
  cbn in Hp, Hn. destruct Hp as [r' ->]; [lia|]. cbv [READINESS_INTERVAL from_millis from_secs] in latest |- *.
  destruct r' as [[]|e]; cbn in Ht.
  2: { cbn. split; [by eexists|]. split; [lia|]. split; [|done]. intros e' [= <-] Hrun. by apply (Hw e b1). }
  assert (0 <= from_secs 2 + slow) as Hs2 by (unfold from_secs; lia). assert (clock b1 <= latest + slow) as Hb1 by lia.
  match goal with |- context [poll ?f ?c ?d ?a ?x ?l b1] =>
    pose proof (poll_ends c d a x l f b1 Hh Hpos) as Hp2;
    assert (d + READINESS_INTERVAL + slow <= latest + slow) as Hd2 by lia;
    pose proof (poll_takes c d a x l f (from_secs 2 + slow) (latest + slow) b1 (takes_http addr) Hs2 Hd2 Hb1) as Ht2;
    pose proof (fun e b' => poll_patient c d a x l f b1 e b') as Hw2;
    pose proof (fun b' => poll_Ok c d a x l f b1 b') as Hok;
    destruct (poll f c d a x l b1) as [r2 b2] end.
  cbn in Hp2. split; [apply Hp2; unfold no_earlier in Hn; lia|]. unfold from_secs in Ht2. split; [destruct r2 as [[]|]; lia|].
  split; [intros e' -> Hrun; by apply (Hw2 e' b2)|]. intros ->. destruct (Hok b2 eq_refl) as [b0 Hb0].
  exists (LocalDockerBackend.docker b0). revert Hb0. unfold try_http, st_bind, on_docker. cbv [from_secs].
  destruct (tcp_exchange _ _ _ _) as [[n|] d']; cbn; [|done]. destruct (Z.ltb_spec 0 n); [|done]. by exists n.
Qed.
End Readiness.
End DockerProperties.

(** ** Examples

    Machines with numbered uuids, even on one and odd on the other, whose
    containers start, listen on host port
    8000 and answer, unless the image is named broken. *)

Module ExampleMachine.
Record t := mk {
  odd : bool;
  next : N;
  names : gmap ReplicaId string;
  rows : gmap string (gmap string string * bool);
  time : Z }.

(** Whether an id is one the machine has drawn. *)
Definition own (o : bool) (n : N) (i : ReplicaId) : bool := (i <? 2 * n)%N && Bool.eqb (N.odd i) o.

Definition names_so_far (d : t) : gmap ReplicaId string := filter (fun kv => own (odd d) (next d) kv.1) (names d).

#[global] Instance formats : Formats := {
  uuid_display u := Text.show (Z.of_N u);
  uuid_parse s := Z.to_N <$> parse_digits 0 s;
  from_timestamp ts := Some (from_secs ts);
  parse_from_rfc3339 s := None
}.

Definition name_container (labels : gmap string string) (d : t) : t :=
  match labelled labels with
  | Some (i, s) =>
    match names_so_far d !! i with
    | Some _ => d
    | None =>
      if Bool.eqb (N.odd i) (odd d)
      then mk (odd d) (N.max (next d) (i + 1)) (<[i := s]> (names_so_far d)) (rows d) (time d)
      else d
    end
  | None => d
  end.

Definition set_rows (x : gmap string (gmap string string * bool)) (d : t) : t := mk (odd d) (next d) (names d) x (time d).

Definition summary (cid : string) (row : gmap string string * bool) : ContainerSummary.t :=
  ContainerSummary.mk (Some cid) None None None (Some row.1) (Some [Port.mk 3838 (Some 8000)])
    (Some (if row.2 then SummaryState.RUNNING else SummaryState.EXITED)) None None None.

(** Rows whose labels are consistent with the names given. *)
Definition honest (d : t) (row : gmap string string * bool) : bool :=
  match labelled row.1 with
  | Some (i, s) => bool_decide (names_so_far d !! i = Some s)
  | None => true
  end.

Definition matches (f : option string) (row : gmap string string * bool) : bool :=
  match f with
  | None => true
  | Some f =>
    match split_once "=" f with
    | Some (k, v) => bool_decide (row.1 !! k = Some v)
    | None => bool_decide (is_Some (row.1 !! f))
    end
  end.

Definition inspect (row : gmap string string * bool) : ContainerInspect.t :=
  ContainerInspect.mk (Some (ContainerState.mk (if row.2 then "Some(RUNNING)" else "Some(EXITED)") (Some row.2) (Some 1) None))
    (if row.2 then Some {["3838/tcp" := Some [Some "8000"]]} else None) (Some row.1).

Definition missing : DockerError.t := DockerError.mk (Some 404) "No such container".

#[global] Instance docker : Docker t := {
  create_container name platform body d :=
    let labels := default ∅ (ContainerCreateBody.labels body) in
    let cid := fresh (dom (rows d)) in
    let broken := bool_decide (ContainerCreateBody.image body = Some "broken") in
    let d' := name_container labels d in
    (Ok cid, set_rows (<[cid := (labels, negb broken)]> (rows d)) d');
  start_container c d := (Ok tt, d);
  stop_container c _ d := (Ok tt, d);
  force_remove c d := (Ok tt, set_rows (delete c (rows d)) d);
  inspect_container c d := (match rows d !! c with Some row => Ok (inspect row) | None => Err missing end, d);
  list_containers f d :=
    (Ok (map (fun kv => summary kv.1 kv.2)
          (List.filter (fun kv => honest d kv.2 && matches f kv.2) (map_to_list (rows d)))), d);
  wait_container c _ d := (Some (Some (Ok 0)), d);
  inspect_image i d := (Ok None, d);
  create_image i p c d := ([], d);
  docker_images d := (Ok [], d);
  docker_remove_image i d := (Ok tt, d);
  inspect_network n d := (Ok tt, d);
  create_network n _ d := (Ok tt, d);
  docker_events l k d := ([], d);
  docker_logs c n d := ([], d);
  stats c d := (None, d);
  prune_images d := (Ok None, d);
  prune_build d := (Ok None, d);
  docker_version d := (Ok None, d);
  docker_volumes d := (Ok None, d);
  docker_create_volume n l d := (Ok tt, d);
  docker_remove_volume n d := (Ok tt, d)
}.

#[global] Instance system : System t := {
  instant d := time d;
  utc d := time d;
  sleep n d := (tt, mk (odd d) (next d) (names d) (rows d) (time d + Z.max 0 n));
  new_v4 d := (2 * next d + N.b2n (odd d), mk (odd d) (next d + 1) (names_so_far d) (rows d) (time d))%N;
  tcp_connect a d := (None, d);
  tcp_exchange a _ _ d := (Some 17, d);
  to_socket_addrs a d := (Ok [a], d)
}.

#[global] Instance formats_laws : FormatsLaws.
Proof. constructor. intros u. cbn -[parse_digits Text.show]. rewrite parse_digits_show by lia. cbn. by rewrite N2Z.id. Qed.

Lemma own_spec o n i : own o n i = true <-> (i < 2 * n)%N /\ N.odd i = o.
Proof. unfold own. by rewrite andb_true_iff, N.ltb_lt, eqb_true_iff. Qed.

Lemma odd_draw n o : N.odd (2 * n + N.b2n o) = o.
Proof. rewrite N.odd_add, N.odd_mul. by destruct o. Qed.

Lemma names_so_far_Some d i s : names_so_far d !! i = Some s -> (i < 2 * next d)%N /\ N.odd i = odd d.
Proof. intros [_ Hi]%map_lookup_filter_Some. cbn in Hi. apply Is_true_true in Hi. by apply own_spec in Hi. Qed.

Lemma names_so_far_next d : names_so_far d !! (2 * next d + N.b2n (odd d))%N = None.
Proof. apply eq_None_not_Some. intros [s Hs]. apply names_so_far_Some in Hs as [Hlt _]. lia. Qed.

Lemma names_below o n (m : gmap ReplicaId string) k : (n <= k)%N ->
  filter (fun kv => own o k kv.1) (filter (fun kv => own o n kv.1) m) = filter (fun kv => own o n kv.1) m.
Proof.
  intros Hk. apply map_filter_id. intros i x [_ Hi]%map_lookup_filter_Some. cbn in *.
  apply Is_true_true. apply Is_true_true in Hi. apply own_spec in Hi as [Hi Ho]. apply own_spec. split; [lia|done].
Qed.

Lemma name_container_names labels d : names_so_far (name_container labels d)
  = match labelled labels with
    | Some (i, s) =>
      match names_so_far d !! i with
      | Some _ => names_so_far d
      | None => if Bool.eqb (N.odd i) (odd d) then <[i := s]> (names_so_far d) else names_so_far d
      end
    | None => names_so_far d
    end.
Proof.
  unfold name_container. destruct (labelled labels) as [[i s]|]; [|done].
  destruct (names_so_far d !! i) as [x|] eqn:E; [done|]. destruct (eqb_spec (N.odd i) (odd d)) as [Ho|]; [|done].
  unfold names_so_far at 1. cbn [names next odd]. rewrite map_filter_insert_True.
  - f_equal. unfold names_so_far. apply names_below. lia.
  - cbn. apply Is_true_true, own_spec. split; [lia|done].
Qed.

Lemma name_container_odd labels d : odd (name_container labels d) = odd d.
Proof. unfold name_container. by repeat case_match. Qed.

Lemma name_container_rows labels d : rows (name_container labels d) = rows d.
Proof. unfold name_container. by repeat case_match. Qed.

#[global] Instance laws : DockerLaws t.
Proof.
  refine {| existing := fun d => dom (rows d); named := names_so_far; uuid_region := fun d i => N.odd i = odd d |}.
  - intros A op d Hq. by inversion Hq; subst; cbn.
  - by intros A op d i [].
  - intros n p body d i. cbn. by rewrite name_container_odd.
  - done.
  - by intros d i s [_ ?]%names_so_far_Some.
  - intros A op d []; try done. cbn. unfold names_so_far at 1. cbn [names next odd]. unfold names_so_far.
    apply names_below. lia.
  - intros n p body d c d' [= <- <-]. cbn. rewrite dom_insert_L. split; [apply is_fresh|done].
  - by intros n p body d e d' [=].
  - intros n p body d. cbn. unfold names_so_far at 2, set_rows. cbn [names next odd]. fold (names_so_far (name_container (default ∅ (ContainerCreateBody.labels body)) d)).
    rewrite name_container_names. repeat case_match; try done. by apply insert_subseteq.
  - intros n p body d c d' labels i s [= <- <-] -> Hl Hreg Hn. cbn [from_option id].
    unfold names_so_far, set_rows. cbn [names next odd]. fold (names_so_far (name_container labels d)).
    rewrite name_container_names, Hl, Hn, Hreg, eqb_reflx. by apply lookup_insert_eq.
  - intros c d d' [= <-]. cbn. by rewrite dom_delete_L.
  - by intros c d e d' [=].
  - intros c d. cbn. by rewrite dom_delete_L.
  - done.
  - intros f d l d' s labels i spec_id [= <- _] Hs Hl Hlab. apply list_elem_of_fmap in Hs as ([c row] & -> & Hrow).
    apply filter_elem in Hrow as [_ [Hh _]%andb_true_iff]. injection Hl as <-.
    unfold honest in Hh. cbn in Hh, Hlab. rewrite Hlab in Hh. by apply bool_decide_eq_true in Hh.
  - intros d. split; [apply names_so_far_next|apply odd_draw].
Defined.

#[global] Instance clock_laws : ClockLaws t.
Proof.
  constructor; [|cbn; lia]. intros A op d []; cbn; try lia.
Qed.

Definition cold : LocalDockerBackend.t t := LocalDockerBackend.from_docker (mk false 5 ∅ ∅ 0).
End ExampleMachine.

Module DockerExamples.
Import ExampleMachine.

(** An app whose operator also labels its containers, once with a key that
    belongs to the backend. *)
Definition request (image : string) : SpawnRequest.t :=
  SpawnRequest.with_labels [("team", "data"); (LABEL_REPLICA_ID, "77")] (SpawnRequest.new "a" image).

Definition warm : LocalDockerBackend.t t := (spawn_request (request "app") cold).2.
Definition first_id : string := fresh (∅ : gset string).

Example spawned_and_listed :
  (exists x, (spawn_request (request "app") cold).1 = Ok x /\ Replica.id x = 10%N /\ Replica.upstream x = "127.0.0.1:8000")
  /\ (exists rs, (list_replicas warm).1 = Ok rs /\ map Replica.id rs = [10%N]).
Proof. split; eexists; vm_compute; auto. Qed.

Example durations : map duration_debug [from_secs 60; from_millis 300; from_millis 1500; 0] = ["60s"; "300ms"; "1.5s"; "0ns"].
Proof. vm_compute. reflexivity. Qed.

Example hub_alias : map (fun a => canonical_server_address (Some a)) ["docker.io"; " "; "https://index.docker.io/v1/"; "ghcr.io"]
  = [Some DOCKER_HUB_REGISTRY; Some DOCKER_HUB_REGISTRY; Some DOCKER_HUB_REGISTRY; Some "ghcr.io"].
Proof. vm_compute. reflexivity. Qed.

Example half_a_core : HostConfig.cpu_quota (apply_limits HostConfig.default
  (ResourceLimits.mk None None (Some (f64_div (f64_of_Z 1) (f64_of_Z 2))))) = Some 50000.
Proof. vm_compute. reflexivity. Qed.

Lemma removals : removals_succeed (D := t).
Proof. intros c d. reflexivity. Qed.

Lemma spawn_accounts_for_its_container_witness :
  is_ok (spawn_request (request "app") cold).1 = true
  /\ dom (rows (LocalDockerBackend.docker (spawn_request (request "broken") cold).2)) = ∅.
Proof.
  split; [vm_compute; reflexivity|].
  pose proof (DockerProperties.spawn_accounts_for_its_container (request "broken") cold _ _ (surjective_pairing _)) as Hs.
  destruct (spawn_request (request "broken") cold).1 eqn:E; [vm_compute in E; discriminate E|].
  transitivity (dom (rows (LocalDockerBackend.docker cold))); [exact (Hs removals)|apply dom_empty_L].
Defined.

Lemma job_leaves_no_container_witness :
  is_ok (run_job (request "etl") cold).1 = true
  /\ dom (rows (LocalDockerBackend.docker (run_job (request "etl") cold).2)) = ∅
  /\ labelled (job_labels (request "etl")) = Some (77%N, "a").
Proof.
  split; [vm_compute; reflexivity|].
  destruct (DockerProperties.job_leaves_no_container (request "etl") cold _ _ removals (surjective_pairing _)) as [Hc Hl].
  split; [transitivity (dom (rows (LocalDockerBackend.docker cold))); [exact Hc|apply dom_empty_L]|]. rewrite Hl. vm_compute. reflexivity.
Defined.

Lemma only_own_containers_removed_witness :
  exists s l d, list_containers (Some "ruscker.replica_id=10") (LocalDockerBackend.docker warm) = (Ok (s :: l), d)
    /\ ContainerSummary.id s = Some first_id.
Proof.
  assert (removed warm (stop 10%N warm).2 first_id) as Hrem.
  { split; [apply (bool_decide_unpack _); vm_compute; exact I|].
    intros Hin%(bool_decide_pack _). vm_compute in Hin. exact Hin. }
  destruct (DockerProperties.only_own_containers_removed warm (stop 10%N warm).2 first_id Hrem) as (_ & Hs & _).
  exact (Hs 10%N (stop 10%N warm).1 (surjective_pairing _)).
Defined.

Definition query : ReplicaLivenessQuery.t := ReplicaLivenessQuery.mk 10 first_id None.
Definition stranger : ReplicaLivenessQuery.t := ReplicaLivenessQuery.mk 6 "other" None.

Lemma local_liveness_exact_witness :
  exists rep, (replica_liveness [query; stranger] warm).1 = Ok rep
  /\ ReplicaLivenessReport.observations rep = [(10%N, ReplicaLiveness.Running); (6%N, ReplicaLiveness.Missing)].
Proof.
  destruct (replica_liveness [query; stranger] warm) as [[rep|e] b'] eqn:E.
  - exists rep. split; [reflexivity|].
    destruct (DockerProperties.local_liveness_exact _ _ _ _ E) as (sums & d & Hl & Ho & _). rewrite Ho.
    vm_compute in Hl. injection Hl as <- _. vm_compute. reflexivity.
  - assert (is_ok (replica_liveness [query; stranger] warm).1 = true) as Hok by (vm_compute; reflexivity).
    rewrite E in Hok. discriminate Hok.
Defined.

Definition row : ContainerSummary.t := summary "c9" (replica_labels (request "app") 5 3838, true).

Lemma relisted_replica_witness :
  exists t, (replica_of_summary row cold).1 = Some (Replica.mk 5 "a" "c9" "127.0.0.1:8000" ReplicaState.Ready t 0 0 None).
Proof.
  apply (DockerProperties.relisted_replica (request "app") 5 3838 row cold "c9" [Port.mk 3838 (Some 8000)] 8000 _ []);
    try reflexivity. lia.
Defined.

(** A machine whose containers accept connections four seconds late and never
    answer a request: an exchange lasts its whole timeout. *)
Definition later (n : Z) (d : t) : t := mk (odd d) (next d) (names d) (rows d) (time d + Z.max 0 n).

Definition mute : System t := {|
  instant d := time d;
  utc d := time d;
  sleep n d := (tt, later n d);
  new_v4 d := new_v4 (System := system) d;
  tcp_connect a d := (if time d <? from_secs 4 then Some "refused" else None, d);
  tcp_exchange a _ n d := (None, later n d);
  to_socket_addrs a d := (Ok [a], d)
|}.

Lemma mute_clock : ClockLaws t (H0 := mute).
Proof. constructor; [|cbn; lia]. intros A op d []; cbn; lia. Qed.

Lemma mute_latency : LatencyLaws t (H0 := mute) 0.
Proof. constructor; cbn; intros; unfold later; cbn; lia. Qed.

(** Five seconds of budget: connected after four, given up after one exchange
    of two. *)
Lemma readiness_wait_ends_witness :
  let '(answer, b') := wait_for_ready (H0 := mute) "c9" "127.0.0.1:8000" (from_secs 5) cold in
  (exists message, answer = Some (Err (CoreError.Backend message)))
  /\ time (LocalDockerBackend.docker b') = from_secs 6
  /\ time (LocalDockerBackend.docker b') <= 0 + from_secs 5 + from_millis 250 + from_secs 2 + 5 * 0.
Proof.
  pose proof (@DockerProperties.readiness_wait_ends t docker mute mute_clock 0 mute_latency "c9" "127.0.0.1:8000"
    (from_secs 5) cold ltac:(unfold from_secs; lia)) as Hends.
  destruct (wait_for_ready _ _ _ cold) as [answer b'] eqn:E. destruct Hends as (_ & Hlate & _). vm_compute in E.
  injection E as <- <-. split; [by eexists|]. split; [reflexivity|exact Hlate].
Defined.
End DockerExamples.
