(* ===== verification/Liveness.v ===== *)
(** * Liveness reconciliation (ruscker-admin/src/scaler.rs)

    One pass compares the registry with the backend's inventory: it prunes
    replicas whose container is gone, holds the ones that may be restarting,
    re-adopts running containers and removes stopped orphans.  The clocks are
    functions of the world, since the outside world the backend state stands
    for includes the time; the iteration order of a hash map is an argument. *)

From Stdlib Require Import ZArith Lia.
From stdpp Require Import base tactics list gmap strings sets fin_maps numbers.
From S2P Require Import Prelude Text Schema Core Sessions Counters Routing Spawn.

Local Open Scope string_scope.
Local Open Scope list_scope.
Local Open Scope Z_scope.
Local Open Scope ruscker_scope.

(** [chrono::Utc::now] and [Instant::now], in nanoseconds. *)
Module Clock.
Record t {B : Type} := mk { utc : World.t B -> Z; instant : World.t B -> Z }.
Arguments t : clear implicits.
Arguments mk {B}.
End Clock.

(** The order a [HashMap]'s values come in. *)
Module HashOrder.
Record t := mk {
  values : gmap ReplicaId Replica.t -> list Replica.t;
  values_perm : forall m, values m ≡ₚ (map_to_list m).*2 }.
Definition sorted : t := mk (fun m => (map_to_list m).*2) (fun m => reflexivity _).
End HashOrder.

Definition EXTERNAL_RESTART_GRACE_SECS : Z := 30.

Inductive ReplicaDownReason := DownMissing | RestartTimedOut.

Definition alert_text (reason : ReplicaDownReason) : string :=
  match reason with
  | DownMissing => "container is missing/removed"
  | RestartTimedOut => "container stayed stopped past the restart grace window"
  end.

(** [collect::<HashMap<_, _>>()]: a later entry replaces an earlier one. *)
Definition collect {V} (l : list (ReplicaId * V)) : gmap ReplicaId V :=
  foldl (fun m kv => <[kv.1 := kv.2]> m) ∅ l.

Definition spec_of (specs : list Spec.t) (replica : Replica.t) : option Spec.t :=
  List.find (fun spec => str_eqb (Spec.id spec) (Replica.spec_id replica)) specs.

(** ** Operations *)

Section Operations.
Context {B : Type} `{ContainerBackend B}.
Abbreviation M A := (St (World.t B) A).
Implicit Types (clk : Clock.t B).

Definition notify_alert clk (event : AlertEvent.t) : M unit :=
  st_modify (fun w => World.set_alerts (AlertSink.notify (Clock.instant clk w) event (World.alerts w)).2 w).

Definition down_event (show : ReplicaId -> string) (replica : Replica.t) (reason : ReplicaDownReason) : AlertEvent.t :=
  AlertEvent.mk AlertKind.ReplicaDown (Replica.spec_id replica) (Some (show (Replica.id replica)))
    ("replica " +:+ show (Replica.id replica) +:+ " of `" +:+ Replica.spec_id replica
     +:+ "` is gone — " +:+ alert_text reason).

(** [show] is the replica id's [Display]. *)
Context (show : ReplicaId -> string).

Definition prune_dead_replica clk (replica : Replica.t) (reason : ReplicaDownReason) : M unit :=
  do removed <- cleanup_replica_state (Replica.id replica);
  match removed with
  | None => st_ret tt
  | Some _ => notify_alert clk (down_event show replica reason)
  end.

Definition mark_restart_detected (replica : Replica.t) (observed_at : Z) : M unit :=
  do marked <- (fun w =>
    let '(marked, reg) := Registry.mark_restarting (Replica.id replica) observed_at (World.replicas w) in
    (marked, World.set_replicas reg w));
  if marked : bool then
    do! drop_sessions (Replica.id replica);
    forget_gauges (Replica.id replica)
  else st_ret tt.

Definition readopted (spec : Spec.t) (replica : Replica.t) : Replica.t :=
  Replica.set_sessions_max (Spec.effective_seats spec)
    (Replica.set_sessions_active 0 (Replica.set_state ReplicaState.Ready replica)).

Definition readopt_running_replica clk (spec : Spec.t) (replica : Replica.t) : M unit :=
  do! lock_entry (Spec.id spec);
  do replicas <- st_get (fun w => World.pool w (Spec.id spec));
  let already_ready := existsb (fun known => has_id (Replica.id replica) known && is_ready known) replicas in
  let same_id_present := existsb (has_id (Replica.id replica)) replicas in
  let live := zlen replicas in
  if already_ready then st_ret tt
  else if negb same_id_present && (Spec.effective_max_replicas spec <=? live) then
    do! call_backend (stop (Replica.id replica)) (Ok tt);
    st_ret tt
  else
    do waited <- call_backend (wait_until_ready_with_timeout replica (Spec.container_wait_time spec)) (Ok tt);
    match waited with
    | Err _ =>
      do! call_backend (stop (Replica.id replica)) (Ok tt);
      if same_id_present then prune_dead_replica clk replica RestartTimedOut else st_ret tt
    | Ok _ => st_modify (fun w => World.set_replicas (Registry.upsert (readopted spec replica) (World.replicas w)) w)
    end.

Definition restart_grace : Z := from_secs EXTERNAL_RESTART_GRACE_SECS.

Definition liveness_of (observations : gmap ReplicaId ReplicaLiveness.t) (running : gmap ReplicaId Replica.t)
    (i : ReplicaId) : ReplicaLiveness.t :=
  match running !! i with
  | Some _ => ReplicaLiveness.Running
  | None => default ReplicaLiveness.Unknown (observations !! i)
  end.

(** The body of the loop over the snapshot; the running map it may consume
    from is threaded. *)
Definition reconcile_known clk (specs : list Spec.t) (observations : gmap ReplicaId ReplicaLiveness.t)
    (now : Z) (replica : Replica.t) (running : gmap ReplicaId Replica.t) : M (gmap ReplicaId Replica.t) :=
  let was_stopped := bool_decide (Replica.state replica = ReplicaState.Stopped) in
  match liveness_of observations running (Replica.id replica), was_stopped with
  | ReplicaLiveness.Running, true =>
    let rest := delete (Replica.id replica) running in
    match spec_of specs replica, running !! Replica.id replica with
    | Some spec, Some discovered =>
      do! readopt_running_replica clk spec discovered;
      st_ret rest
    | _, _ => st_ret rest
    end
  | ReplicaLiveness.Running, false | ReplicaLiveness.Unknown, _ => st_ret running
  | ReplicaLiveness.Missing, _ =>
    do! prune_dead_replica clk replica DownMissing;
    st_ret running
  | ReplicaLiveness.Stopped, false =>
    do! mark_restart_detected replica now;
    st_ret running
  | ReplicaLiveness.Stopped, true =>
    if restart_grace <=? now - Replica.started_at replica then
      do! call_backend (stop (Replica.id replica)) (Ok tt);
      do! prune_dead_replica clk replica RestartTimedOut;
      st_ret running
    else st_ret running
  end.

Fixpoint reconcile_snapshot clk (specs : list Spec.t) (observations : gmap ReplicaId ReplicaLiveness.t)
    (now : Z) (snap : list Replica.t) (running : gmap ReplicaId Replica.t) : M (gmap ReplicaId Replica.t) :=
  match snap with
  | [] => st_ret running
  | replica :: snap' =>
    do running <- reconcile_known clk specs observations now replica running;
    reconcile_snapshot clk specs observations now snap' running
  end.

(** A container found running without a place in the snapshot. *)
Definition adopt_discovered clk (specs : list Spec.t) (discovered : Replica.t) : M unit :=
  match spec_of specs discovered with
  | None => st_ret tt
  | Some spec =>
    if bool_decide (Spec.kind spec = SpecKind.External) || bool_decide (Spec.container_image spec = None)
    then st_ret tt
    else readopt_running_replica clk spec discovered
  end.

Definition orphan_expired (now : Z) (registered : gset string) (container : ManagedContainer.t) : bool :=
  if ManagedContainer.running container || bool_decide (ManagedContainer.id container ∈ registered) then false
  else match ManagedContainer.finished_at container with
       | None => false
       | Some finished_at => negb (now - finished_at <? restart_grace)
       end.

Definition reap_orphan (now : Z) (registered : gset string) (container : ManagedContainer.t) : M unit :=
  if orphan_expired now registered container then
    do! call_backend (remove_container (ManagedContainer.id container)) (Ok tt);
    st_ret tt
  else st_ret tt.

Definition container_ids (rs : list Replica.t) : gset string := list_to_set (map Replica.container_id rs).

Definition reconcile_backend_liveness clk (order : HashOrder.t) (specs : list Spec.t) (registry_snap : list Replica.t)
    (report : ReplicaLivenessReport.t) (now : Z) : M unit :=
  let observations := collect (ReplicaLivenessReport.observations report) in
  let running := collect (map (fun r => (Replica.id r, r)) (ReplicaLivenessReport.running report)) in
  do running <- reconcile_snapshot clk specs observations now registry_snap running;
  do! st_for (HashOrder.values order running) (adopt_discovered clk specs);
  do registered <- st_get (fun w => container_ids registry_snap ∪ container_ids (Registry.all (World.replicas w)));
  st_for (ReplicaLivenessReport.managed report) (reap_orphan now registered).

(** The replicas of the catalogue's specs. *)
Definition snapshot (specs : list Spec.t) (w : World.t B) : list Replica.t :=
  concat (map (fun spec => World.pool w (Spec.id spec)) specs).

(** The pass as the tick and the events watcher run it: a backend error
    skips it. *)
Definition reconcile_pass clk (order : HashOrder.t) (specs : list Spec.t) (registry_snap : list Replica.t) : M unit :=
  do report <- call_backend (replica_liveness (map ReplicaLivenessQuery.from registry_snap)) (Err (CoreError.Backend ""));
  match report with
  | Err _ => st_ret tt
  | Ok report =>
    do now <- st_get (Clock.utc clk);
    reconcile_backend_liveness clk order specs registry_snap report now
  end.

Definition reconcile_liveness_once clk (order : HashOrder.t) (specs : list Spec.t) : M unit :=
  do backend <- st_get (@World.backend B);
  match backend with
  | None => st_ret tt
  | Some _ =>
    do registry_snap <- st_get (snapshot specs);
    reconcile_pass clk order specs registry_snap
  end.
End Operations.

(** ** What a step leaves alone *)

Section Quiet.
Context {B : Type} `{ContainerBackend B}.
Implicit Types (w : World.t B) (clk : Clock.t B).

(** Nothing recorded about replica [i] changes. *)
Record undisturbed (i : ReplicaId) (w w' : World.t B) : Prop := {
  und_replica : Registry.by_id (World.replicas w') !! i = Registry.by_id (World.replicas w) !! i;
  und_sessions : forall sid e, SessionEntry.replica_id e = i ->
    (World.sessions w' !! sid = Some e <-> World.sessions w !! sid = Some e);
  und_metrics : i ∈ World.metrics w' <-> i ∈ World.metrics w;
  und_inflight : Inflight.inflight_count (World.inflight w') i = Inflight.inflight_count (World.inflight w) i }.

Definition quiet (i : ReplicaId) (w w' : World.t B) : Prop :=
  Registry.wf (World.replicas w) -> Registry.wf (World.replicas w') /\ undisturbed i w w'.

#[local] Instance quiet_preorder i : PreOrder (quiet i).
Proof.
  split.
  - intros w Hwf. split; [done|]. by split.
  - intros w1 w2 w3 H12 H23 Hwf. destruct (H12 Hwf) as [Hwf2 [R1 S1 M1 F1]].
    destruct (H23 Hwf2) as [Hwf3 [R2 S2 M2 F2]]. split; [done|]. split.
    + congruence.
    + intros sid e He. rewrite (S2 sid e He). by apply S1.
    + by rewrite M2.
    + congruence.
Qed.

(** A step that keeps the registry, the sessions and the gauges. *)
Definition same_view (w w' : World.t B) : Prop :=
  World.replicas w' = World.replicas w /\ World.sessions w' = World.sessions w
  /\ World.metrics w' = World.metrics w /\ World.inflight w' = World.inflight w.

Lemma same_view_quiet i w w' : same_view w w' -> quiet i w w'.
Proof. intros (Hr & Hs & Hm & Hf) Hwf. rewrite Hr. split; [done|]. split; by rewrite ?Hr, ?Hs, ?Hm, ?Hf. Qed.

Lemma call_backend_view {A} (op : B -> A * B) none w : same_view w (call_backend op none w).2.
Proof. unfold call_backend. destruct (World.backend w) as [b|]; [|by repeat split]. by destruct (op b). Qed.

Lemma call_backend_quiet {A} i (op : B -> A * B) none : preserves (quiet i) (call_backend op none).
Proof. intros w. apply same_view_quiet, call_backend_view. Qed.

Lemma lock_entry_quiet i k : preserves (quiet i) (lock_entry (B := B) k).
Proof. intros w. by apply same_view_quiet. Qed.

Lemma notify_alert_quiet i clk event : preserves (quiet i) (notify_alert clk event).
Proof. intros w. by apply same_view_quiet. Qed.

Lemma cleanup_quiet i j : i <> j -> preserves (quiet i) (cleanup_replica_state (B := B) j).
Proof.
  intros Hij w Hwf. pose proof (cleanup_spec j w Hwf) as Hc. pose proof (cleanup_sessions j w) as Hs.
  destruct (cleanup_replica_state j w) as [o w'].
  destruct Hc as (_ & _ & Hwf' & Hd & _). destruct Hs as (Hs & Hm & Hf). split; [done|]. split.
  - cbn [snd]. rewrite Hd. by apply lookup_delete_ne.
  - intros sid e He. cbn [snd] in *. rewrite Hs, map_lookup_filter_Some. cbn. rewrite He. naive_solver.
  - cbn [snd] in *. rewrite Hm. set_solver.
  - cbn [snd] in *. rewrite Hf. unfold Inflight.inflight_count, Inflight.inflight_forget.
    by rewrite lookup_delete_ne.
Qed.

Lemma upsert_quiet i r : i <> Replica.id r ->
  preserves (quiet i) (st_modify (fun w => World.set_replicas (Registry.upsert r (World.replicas w)) w)).
Proof.
  intros Hi w Hwf. cbn. split; [by apply RegistryOps.wf_upsert|]. split; cbn; try done.
  rewrite RegistryOps.by_id_upsert by done. by apply lookup_insert_ne.
Qed.

Lemma mark_restart_quiet i r now : i <> Replica.id r -> preserves (quiet i) (mark_restart_detected (B := B) r now).
Proof.
  intros Hi w Hwf. unfold mark_restart_detected, st_bind, Registry.mark_restarting.
  pose proof (Registry.update_spec (Replica.id r) _ (World.replicas w) (Registry.keeps_restarting now) Hwf) as [_ Hd].
  pose proof (Registry.wf_update (Replica.id r) _ (World.replicas w) (Registry.keeps_restarting now) Hwf) as Hwf'.
  destruct (Registry.update _ _ _) as [marked reg]. cbn [snd] in *.
  assert (undisturbed i w (World.set_replicas reg w)) as Hu.
  { split; cbn; try done. rewrite Hd. by apply lookup_alter_ne. }
  destruct marked; [|done]. unfold drop_sessions, forget_gauges, st_modify.
  cbn -[InMemorySessionStore.drop_replica]. rewrite InMemorySessionStore.drop_replica_store. split; [done|].
  destruct Hu as [Hu _ _ _]. split; cbn in *; [done| | |].
  - intros sid e He. rewrite map_lookup_filter_Some. cbn. rewrite He. naive_solver.
  - set_solver.
  - unfold Inflight.inflight_count, Inflight.inflight_forget. by rewrite lookup_delete_ne.
Qed.
End Quiet.

#[export] Existing Instance quiet_preorder.
#[export] Hint Resolve call_backend_quiet lock_entry_quiet notify_alert_quiet cleanup_quiet upsert_quiet
  mark_restart_quiet : preserves.

(** The running map is keyed by the replicas' own ids. *)
Definition keyed (running : gmap ReplicaId Replica.t) : Prop :=
  forall j d, running !! j = Some d -> Replica.id d = j.

Lemma keyed_ids (l : list Replica.t) : (map (fun r => (Replica.id r, r)) l).*1 = Replica.id <$> l.
Proof. induction l as [|r l IH]; [done|]. cbn. by f_equal. Qed.

Lemma collect_keyed l : keyed (collect (map (fun r => (Replica.id r, r)) l)).
Proof.
  unfold collect. rewrite <- (rev_involutive l). generalize (rev l). clear l. intros l.
  induction l as [|r l IH]; simpl; [intros j d; by rewrite lookup_empty|].
  rewrite map_app, foldl_app. simpl. intros j d. rewrite lookup_insert_Some. intros [[<- <-]|[_ Hj]]; [done|].
  by apply IH.
Qed.

Lemma collect_None {V} (l : list (ReplicaId * V)) i : i ∉ l.*1 -> collect l !! i = None.
Proof.
  unfold collect. rewrite <- (rev_involutive l). generalize (rev l). clear l. intros l.
  induction l as [|[j v] l IH]; simpl; [by rewrite lookup_empty|].
  rewrite fmap_app, foldl_app. simpl. intros Hi. rewrite lookup_insert_ne; [apply IH|]; set_solver.
Qed.

Section Reconcile.
Context {B : Type} `{ContainerBackend B} (show : ReplicaId -> string).
Implicit Types (w : World.t B) (clk : Clock.t B).

Lemma prune_quiet i clk r reason : i <> Replica.id r -> preserves (quiet i) (prune_dead_replica show clk r reason).
Proof. intros Hi. unfold prune_dead_replica. preserves_auto. Qed.
#[local] Hint Resolve prune_quiet : preserves.

Lemma readopt_quiet i clk spec r : i <> Replica.id r -> preserves (quiet i) (readopt_running_replica show clk spec r).
Proof. intros Hi. unfold readopt_running_replica. preserves_auto. Qed.
#[local] Hint Resolve readopt_quiet : preserves.

Lemma reap_orphan_quiet i now registered c : preserves (quiet i) (reap_orphan (B := B) now registered c).
Proof. unfold reap_orphan. preserves_auto. Qed.

Lemma reconcile_known_quiet i clk specs obs now r running :
  keyed running -> i <> Replica.id r -> preserves (quiet i) (reconcile_known show clk specs obs now r running).
Proof.
  intros Hk Hi. unfold reconcile_known.
  preserves_auto; apply readopt_quiet; match goal with E : running !! _ = Some _ |- _ => by rewrite (Hk _ _ E) end.
Qed.

Lemma reconcile_known_running clk specs obs now r running w :
  (reconcile_known show clk specs obs now r running w).1 ⊆ running.
Proof.
  unfold reconcile_known, st_bind, st_ret. repeat split_match; cbn [fst];
    first [reflexivity | apply delete_subseteq].
Qed.

Lemma keyed_subseteq m1 m2 : m1 ⊆ m2 -> keyed m2 -> keyed m1.
Proof. intros Hs Hk j d Hj. apply Hk. by eapply lookup_weaken. Qed.

Lemma reconcile_snapshot_running clk specs obs now snap running w :
  (reconcile_snapshot show clk specs obs now snap running w).1 ⊆ running.
Proof.
  revert running w; induction snap as [|r snap IH]; intros running w; cbn [reconcile_snapshot]; [done|].
  unfold st_bind. pose proof (reconcile_known_running clk specs obs now r running w) as H1.
  destruct (reconcile_known _ _ _ _ _ _ _ _) as [m w1]. cbn [fst] in H1. etransitivity; [apply IH|done].
Qed.

Lemma reconcile_snapshot_quiet i clk specs obs now snap running :
  keyed running -> i ∉ (Replica.id <$> snap) ->
  preserves (quiet i) (reconcile_snapshot show clk specs obs now snap running).
Proof.
  revert running; induction snap as [|r snap IH]; intros running Hk Hi; cbn [reconcile_snapshot].
  { apply preserves_ret. apply _. }
  apply not_elem_of_cons in Hi as [Hne Hi].
  apply (preserves_bind_post (quiet i) (fun m => m ⊆ running)).
  - by apply reconcile_known_quiet.
  - intros w. apply reconcile_known_running.
  - intros m Hm. apply IH; [|done]. by eapply keyed_subseteq.
Qed.

Lemma adopt_quiet i clk specs r : i <> Replica.id r -> preserves (quiet i) (adopt_discovered show clk specs r).
Proof. intros Hi. unfold adopt_discovered. preserves_auto. Qed.

(** *** The fate of a known replica *)

Inductive Fate := Kept | Held | Pruned.

Definition fate (now : Z) (liveness : ReplicaLiveness.t) (r : Replica.t) : Fate :=
  match liveness with
  | ReplicaLiveness.Running | ReplicaLiveness.Unknown => Kept
  | ReplicaLiveness.Missing => Pruned
  | ReplicaLiveness.Stopped =>
    if decide (Replica.state r = ReplicaState.Stopped)
    then if restart_grace <=? now - Replica.started_at r then Pruned else Kept
    else Held
  end.

Definition unreferenced (i : ReplicaId) w : Prop :=
  (forall sid e, World.sessions w !! sid = Some e -> SessionEntry.replica_id e <> i)
  /\ i ∉ World.metrics w /\ Inflight.inflight_count (World.inflight w) i = 0.

Definition meets (f : Fate) (now : Z) (r : Replica.t) w w' : Prop :=
  match f with
  | Kept => undisturbed (Replica.id r) w w'
  | Held => Registry.by_id (World.replicas w') !! Replica.id r = Some (Registry.restarting now r)
            /\ unreferenced (Replica.id r) w'
  | Pruned => Registry.by_id (World.replicas w') !! Replica.id r = None /\ unreferenced (Replica.id r) w'
  end.

Lemma unreferenced_undisturbed i w w' : undisturbed i w w' -> unreferenced i w -> unreferenced i w'.
Proof.
  intros [Hr Hs Hm Hf] (Us & Um & Uf). split; [|split; [by rewrite Hm|congruence]].
  intros sid e He Hi. apply (Us sid e); [|done]. by apply Hs.
Qed.

Lemma undisturbed_trans i w1 w2 w3 : undisturbed i w1 w2 -> undisturbed i w2 w3 -> undisturbed i w1 w3.
Proof.
  intros [R1 S1 M1 F1] [R2 S2 M2 F2]. split; [congruence| |by rewrite M2|congruence].
  intros sid e He. rewrite (S2 sid e He). by apply S1.
Qed.

Lemma meets_undisturbed f now r w0 w w' w1 :
  undisturbed (Replica.id r) w0 w -> undisturbed (Replica.id r) w' w1 ->
  meets f now r w w' -> meets f now r w0 w1.
Proof.
  intros H0 H1. destruct f; cbn [meets].
  - intros Hu. eapply undisturbed_trans; [exact H0|]. eapply undisturbed_trans; [exact Hu|exact H1].
  - intros [Hr Hu]. split; [by rewrite (und_replica _ _ _ H1)|]. by eapply unreferenced_undisturbed.
  - intros [Hr Hu]. split; [by rewrite (und_replica _ _ _ H1)|]. by eapply unreferenced_undisturbed.
Qed.

Lemma prune_meets clk r reason now w : Registry.wf (World.replicas w) ->
  let w' := (prune_dead_replica show clk r reason w).2 in
  Registry.wf (World.replicas w') /\ meets Pruned now r w w'.
Proof.
  intros Hwf. unfold prune_dead_replica, st_bind. pose proof (cleanup_spec (Replica.id r) w Hwf) as Hc.
  destruct (cleanup_replica_state (Replica.id r) w) as [o w'].
  destruct Hc as (_ & (Hn & Hu) & Hwf' & _). destruct o; cbn; (split; [done|]); by split.
Qed.

Lemma mark_restart_meets r now w : Registry.wf (World.replicas w) ->
  Registry.by_id (World.replicas w) !! Replica.id r = Some r ->
  let w' := (mark_restart_detected r now w).2 in
  Registry.wf (World.replicas w') /\ meets Held now r w w'.
Proof.
  intros Hwf Hr. unfold mark_restart_detected, st_bind, Registry.mark_restarting.
  pose proof (Registry.update_spec (Replica.id r) _ (World.replicas w) (Registry.keeps_restarting now) Hwf) as [Hm Hd].
  pose proof (Registry.wf_update (Replica.id r) _ (World.replicas w) (Registry.keeps_restarting now) Hwf) as Hwf'.
  destruct (Registry.update _ _ _) as [marked reg]. cbn [fst snd] in *. rewrite Hr in Hm.
  rewrite bool_decide_eq_true_2 in Hm by eauto. subst marked.
  unfold drop_sessions, forget_gauges, st_modify. cbn -[InMemorySessionStore.drop_replica].
  rewrite InMemorySessionStore.drop_replica_store. split; [done|]. split; cbn.
  - by rewrite Hd, lookup_alter_eq, Hr.
  - split; [|split; [set_solver|]].
    + intros sid e [_ He]%map_lookup_filter_Some. done.
    + unfold Inflight.inflight_count, Inflight.inflight_forget. cbn. by rewrite lookup_delete_eq.
Qed.

Lemma reconcile_known_meets clk specs obs now r running w :
  Registry.wf (World.replicas w) -> Registry.by_id (World.replicas w) !! Replica.id r = Some r ->
  running !! Replica.id r = None ->
  let w' := (reconcile_known show clk specs obs now r running w).2 in
  Registry.wf (World.replicas w')
  /\ meets (fate now (default ReplicaLiveness.Unknown (obs !! Replica.id r)) r) now r w w'.
Proof.
  intros Hwf Hr Hrun. unfold reconcile_known, liveness_of. rewrite Hrun.
  assert (forall i, undisturbed i w w) as Hrefl by (intros i; by split).
  destruct (default _ _); cbn [fate]; unfold st_bind, st_ret.
  - destruct (bool_decide _); [|done]. destruct (spec_of specs r); cbn; done.
  - case_decide as Hst.
    + rewrite bool_decide_eq_true_2 by done. destruct (restart_grace <=? _); [|done].
      destruct (call_backend (stop (Replica.id r)) (Ok tt) w) as [res w1] eqn:Ec.
      assert (w1 = (call_backend (stop (Replica.id r)) (Ok tt) w).2) as Hw1 by by rewrite Ec.
      destruct (call_backend_quiet (Replica.id r) (stop (Replica.id r)) (Ok tt) w Hwf) as [Hwf1 Hu1].
      rewrite <- Hw1 in Hwf1, Hu1. pose proof (prune_meets clk r RestartTimedOut now w1 Hwf1) as [Hwf2 Hp].
      destruct (prune_dead_replica _ _ _ _ w1) as [u w2]. cbn [snd] in *. split; [done|].
      exact (meets_undisturbed Pruned now r w w1 w2 w2 Hu1 (ltac:(by split)) Hp).
    + rewrite bool_decide_eq_false_2 by done. pose proof (mark_restart_meets r now w Hwf Hr) as Hm.
      by destruct (mark_restart_detected r now w) as [u w1].
  - pose proof (prune_meets clk r DownMissing now w Hwf) as Hp. by destruct (prune_dead_replica _ _ _ _ w) as [u w1].
  - done.
Qed.

Lemma reconcile_snapshot_meets clk specs obs now snap running r w :
  keyed running -> NoDup (Replica.id <$> snap) -> r ∈ snap ->
  Registry.wf (World.replicas w) -> Registry.by_id (World.replicas w) !! Replica.id r = Some r ->
  running !! Replica.id r = None ->
  let w' := (reconcile_snapshot show clk specs obs now snap running w).2 in
  Registry.wf (World.replicas w')
  /\ meets (fate now (default ReplicaLiveness.Unknown (obs !! Replica.id r)) r) now r w w'.
Proof.
  revert running w; induction snap as [|q snap IH]; intros running w Hk Hnd Hin Hwf Hr Hrun.
  { by apply not_elem_of_nil in Hin. }
  rewrite fmap_cons in Hnd. inversion_clear Hnd as [|? ? Hq Hnd_tail]. rename Hnd_tail into Hnd. cbn [reconcile_snapshot]. unfold st_bind.
  pose proof (reconcile_known_running clk specs obs now q running w) as Hsub.
  assert (Replica.id q <> Replica.id r -> quiet (Replica.id r) w (reconcile_known show clk specs obs now q running w).2)
    as Hquiet by (intros Hne; apply reconcile_known_quiet; [done|congruence]).
  pose proof (fun Heq : r = q => reconcile_known_meets clk specs obs now r running w Hwf Hr Hrun) as Hmeets.
  apply elem_of_cons in Hin as [->|Hin].
  - specialize (Hmeets eq_refl). destruct (reconcile_known _ _ _ _ _ _ _ _) as [m w1]. cbn [fst snd] in *.
    destruct Hmeets as [Hwf1 Hm1].
    destruct (reconcile_snapshot_quiet (Replica.id q) clk specs obs now snap m (keyed_subseteq _ _ Hsub Hk) Hq w1 Hwf1)
      as [Hwf2 Hu2]. split; [done|]. refine (meets_undisturbed _ _ _ w w w1 _ _ Hu2 Hm1). by split.
  - assert (Replica.id q <> Replica.id r) as Hid by (intros Heq; apply Hq; rewrite Heq; by apply list_elem_of_fmap_2).
    specialize (Hquiet Hid Hwf). destruct (reconcile_known _ _ _ _ _ _ _ _) as [m w1]. cbn [fst snd] in *.
    destruct Hquiet as [Hwf1 Hu1].
    destruct (IH m w1) as [Hwf2 Hm2]; try done.
    + by eapply keyed_subseteq.
    + by rewrite (und_replica _ _ _ Hu1).
    + by eapply lookup_weaken_None.
    + split; [done|]. refine (meets_undisturbed _ _ _ w w1 _ _ Hu1 _ Hm2). by split.
Qed.

Lemma values_elem order (m : gmap ReplicaId Replica.t) d :
  keyed m -> d ∈ HashOrder.values order m -> m !! Replica.id d = Some d.
Proof.
  intros Hk. rewrite HashOrder.values_perm. intros ([i d'] & -> & Hl%elem_of_map_to_list)%list_elem_of_fmap.
  cbn in *. by rewrite (Hk _ _ Hl).
Qed.

Lemma adoption_quiet i order clk specs m : keyed m -> m !! i = None ->
  preserves (quiet i) (st_for (HashOrder.values order m) (adopt_discovered show clk specs)).
Proof.
  intros Hk Hi. apply preserves_for; [apply _|]. intros d Hd. apply adopt_quiet.
  pose proof (values_elem order m d Hk Hd). congruence.
Qed.

Lemma reap_quiet i now registered cs : preserves (quiet i) (st_for cs (reap_orphan (B := B) now registered)).
Proof. apply preserves_for; [apply _|]. intros c _. apply reap_orphan_quiet. Qed.
End Reconcile.

(** ** Pool sizes *)

Section Pools.
Context {B : Type} `{ContainerBackend B} (show : ReplicaId -> string).
Implicit Types (w : World.t B) (clk : Clock.t B).

(** The pool of [k] does not grow, or not beyond [m]. *)
Definition grows_to (m : Z) (k : string) (w w' : World.t B) : Prop :=
  Registry.wf (World.replicas w) ->
  Registry.wf (World.replicas w') /\ zlen (World.pool w' k) <= Z.max (zlen (World.pool w k)) m.

#[local] Instance grows_to_preorder m k : PreOrder (grows_to m k).
Proof.
  split.
  - intros w Hwf. split; [done|lia].
  - intros w1 w2 w3 H12 H23 Hwf. destruct (H12 Hwf) as [Hwf2 ?]. destruct (H23 Hwf2) as [Hwf3 ?]. split; [done|lia].
Qed.

Lemma same_replicas_grows m k w w' : World.replicas w' = World.replicas w -> grows_to m k w w'.
Proof. intros Hr Hwf. rewrite Hr. split; [done|]. unfold World.pool. rewrite Hr. lia. Qed.

Lemma call_backend_grows {A} m k (op : B -> A * B) none : preserves (grows_to m k) (call_backend op none).
Proof. intros w. apply same_replicas_grows, call_backend_view. Qed.

Lemma lock_entry_grows m k k' : preserves (grows_to m k) (lock_entry (B := B) k').
Proof. intros w. by apply same_replicas_grows. Qed.

Lemma cleanup_grows m k i : preserves (grows_to m k) (cleanup_replica_state (B := B) i).
Proof.
  intros w Hwf. pose proof (cleanup_spec i w Hwf) as Hc. destruct (cleanup_replica_state i w) as [o w'].
  destruct Hc as (_ & _ & Hwf' & _ & Hp & _). cbn [snd]. split; [done|]. rewrite Hp.
  pose proof (Registry.length_remove_first (has_id i) (World.pool w k)). unfold zlen. lia.
Qed.

Lemma prune_grows m k clk r reason : preserves (grows_to m k) (prune_dead_replica show clk r reason).
Proof.
  unfold prune_dead_replica. apply preserves_bind; [apply _|apply cleanup_grows|]. intros [q|].
  - intros w. by apply same_replicas_grows.
  - apply preserves_ret, _.
Qed.

Lemma mark_restart_grows m k r now : preserves (grows_to m k) (mark_restart_detected (B := B) r now).
Proof.
  intros w Hwf. unfold mark_restart_detected, st_bind, Registry.mark_restarting.
  pose proof (Registry.replicas_of_update (Replica.id r) (Registry.restarting now) (World.replicas w) k Hwf) as Hp.
  pose proof (Registry.wf_update (Replica.id r) _ (World.replicas w) (Registry.keeps_restarting now) Hwf) as Hwf'.
  destruct (Registry.update _ _ _) as [marked reg]. cbn [snd] in *.
  assert (zlen (Registry.replicas_of reg k) = zlen (World.pool w k)) as Hlen
    by (unfold zlen; by rewrite Hp, Registry.length_update_first).
  destruct marked; unfold drop_sessions, forget_gauges, st_modify, st_ret;
    cbn -[InMemorySessionStore.drop_replica Z.max]; (split; [done|]);
    unfold World.pool at 1; cbn -[Z.max]; lia.
Qed.

Lemma pool_upsert r w k : Registry.wf (World.replicas w) ->
  zlen (Registry.replicas_of (Registry.upsert r (World.replicas w)) k)
  <= if decide (Replica.spec_id r = k)
     then if existsb (has_id (Replica.id r)) (World.pool w k) then zlen (World.pool w k) else zlen (World.pool w k) + 1
     else zlen (World.pool w k).
Proof.
  intros Hwf. unfold Registry.upsert. rewrite Registry.replicas_of_add, Registry.replicas_of_remove by done.
  change (Registry.replicas_of (World.replicas w) k) with (World.pool w k).
  pose proof (Registry.length_remove_first (has_id (Replica.id r)) (World.pool w k)).
  unfold zlen. case_decide; [|lia]. rewrite length_app. cbn [length].
  destruct (existsb _ _) eqn:E; [|lia]. apply Registry.length_remove_first_exists in E. lia.
Qed.

(** Re-adoption respects the ceiling of the spec whose pool it fills. *)
Lemma readopt_grows m k clk spec r :
  Replica.spec_id r = Spec.id spec -> (Spec.id spec = k -> Spec.effective_max_replicas spec <= m) ->
  preserves (grows_to m k) (readopt_running_replica show clk spec r).
Proof.
  intros Hs Hm w. unfold readopt_running_replica. unfold st_bind at 1, lock_entry, st_modify at 1.
  set (w1 := World.set_spawn_locks _ w). unfold st_bind at 1, st_get.
  assert (World.replicas w1 = World.replicas w) as Hr1 by (by destruct w).
  assert (forall A (op : B -> A * B) none, World.replicas (call_backend op none w1).2 = World.replicas w) as Hcall
    by (intros A op none; rewrite <- Hr1; apply call_backend_view).
  assert (World.pool w1 (Spec.id spec) = World.pool w (Spec.id spec)) as -> by (unfold World.pool; by rewrite Hr1).
  destruct (existsb _ (World.pool w (Spec.id spec))) eqn:Eready.
  { by apply same_replicas_grows. }
  destruct (_ && _) eqn:Efull.
  { unfold st_bind. specialize (Hcall _ (stop (Replica.id r)) (Ok tt)).
    destruct (call_backend _ _ w1) as [a w2]. by apply same_replicas_grows. }
  unfold st_bind at 1. specialize (Hcall _ (wait_until_ready_with_timeout r (Spec.container_wait_time spec)) (Ok tt)).
  destruct (call_backend _ _ w1) as [[u|e] w2]; cbn [snd] in Hcall.
  - intros Hwf. cbn -[Z.max Registry.upsert]. rewrite Hcall. split; [by apply RegistryOps.wf_upsert|].
    unfold World.pool at 1. 
    pose proof (pool_upsert (readopted spec r) w k Hwf) as Hp. cbn -[Registry.upsert zlen] in Hp.
    etransitivity; [exact Hp|]. case_decide as Hk; [|lia]. rewrite <- Hs, Hk in Hm, Efull.
    specialize (Hm eq_refl). destruct (existsb (has_id _) _); [lia|]. cbn in Efull. bool_split. lia.
  - transitivity w2; [by apply same_replicas_grows|].
    apply (preserves_bind (grows_to m k)); [apply call_backend_grows|]. intros _.
    destruct (existsb (has_id (Replica.id r)) _); [apply prune_grows|apply preserves_ret, _].
Qed.

(** A running container carries the label of the spec it was started for. *)
Definition labelled (snap : list Replica.t) (running : gmap ReplicaId Replica.t) : Prop :=
  forall r d, r ∈ snap -> running !! Replica.id r = Some d -> Replica.spec_id d = Replica.spec_id r.

Context (specs : list Spec.t) (k : string) (ceiling : Spec.t).
Context (found : List.find (fun spec => str_eqb (Spec.id spec) k) specs = Some ceiling).
Abbreviation grows := (grows_to (Spec.effective_max_replicas ceiling) k).

Lemma spec_of_Some r spec : spec_of specs r = Some spec ->
  Spec.id spec = Replica.spec_id r /\ (Spec.id spec = k -> spec = ceiling).
Proof.
  unfold spec_of. intros Hf. destruct (find_elem _ _ _ Hf) as [_ Hid%str_eqb_eq]. split; [done|].
  intros Hk. rewrite <- Hid, Hk in Hf. congruence.
Qed.

Lemma readopt_known_grows clk r spec d :
  spec_of specs r = Some spec -> Replica.spec_id d = Replica.spec_id r ->
  preserves grows (readopt_running_replica show clk spec d).
Proof.
  intros [Hid Hceil]%spec_of_Some Hlab. apply readopt_grows; [congruence|]. intros Hk. by rewrite (Hceil Hk).
Qed.

Lemma reconcile_known_grows clk obs now r running :
  (forall d, running !! Replica.id r = Some d -> Replica.spec_id d = Replica.spec_id r) ->
  preserves grows (reconcile_known show clk specs obs now r running).
Proof.
  intros Hlab. unfold reconcile_known.
  pose proof (fun spec d H1 H2 => readopt_known_grows clk r spec d H1 (Hlab d H2)) as Hre.
  repeat preserves_step; eauto using prune_grows, mark_restart_grows, call_backend_grows.
Qed.

Lemma reconcile_snapshot_grows clk obs now snap running :
  labelled snap running -> preserves grows (reconcile_snapshot show clk specs obs now snap running).
Proof.
  revert running; induction snap as [|r snap IH]; intros running Hlab; cbn [reconcile_snapshot].
  { apply preserves_ret, _. }
  apply (preserves_bind_post grows (fun m => m ⊆ running)).
  - apply reconcile_known_grows. intros d. apply Hlab. left.
  - intros w. apply reconcile_known_running.
  - intros m Hm. apply IH. intros q d Hq Hd. apply (Hlab q); [by right|]. by eapply lookup_weaken.
Qed.

Lemma adopt_grows clk d : preserves grows (adopt_discovered show clk specs d).
Proof.
  unfold adopt_discovered. destruct (spec_of specs d) as [spec|] eqn:E; [|apply preserves_ret, _].
  destruct (_ || _); [apply preserves_ret, _|]. by apply (readopt_known_grows clk d).
Qed.

Lemma reap_orphan_grows now registered c : preserves grows (reap_orphan (B := B) now registered c).
Proof. unfold reap_orphan. repeat preserves_step. apply call_backend_grows. Qed.
End Pools.

(** ** The world invariant *)

Section Soundness.
Context {B : Type} `{ContainerBackendLaws B} (show : ReplicaId -> string).
Implicit Types (w : World.t B) (clk : Clock.t B).

(** [sound], for a pass that may register replicas labelled as in [X]. *)
Definition sound_for (X : gmap ReplicaId string) w w' : Prop := world_wf w -> X ⊆ issued_in w -> kept w w'.

#[local] Instance sound_for_preorder X : PreOrder (sound_for X).
Proof.
  split.
  - intros w Hw _. by apply (reflexivity (R := sound) w).
  - intros w1 w2 w3 H12 H23 Hw HX. pose proof (H12 Hw HX) as Hk. apply (transitivity (R := sound) (y := w2)); [by intros _| |done].
    intros Hw2. apply H23; [done|]. etransitivity; [exact HX|]. apply Hk.
Qed.

Lemma preserves_sound_for {A} X (m : St (World.t B) A) : preserves sound m -> preserves (sound_for X) m.
Proof. intros Hm w Hw _. by apply Hm. Qed.

Lemma sound_prune clk r reason : preserves sound (prune_dead_replica show clk r reason).
Proof.
  unfold prune_dead_replica. apply preserves_bind; [apply _|apply sound_cleanup|]. intros [q|].
  - intros w. by apply sound_same.
  - apply preserves_ret, _.
Qed.

Lemma sound_mark_restart r now : preserves sound (mark_restart_detected (B := B) r now).
Proof.
  intros w. apply sound_registry.
  - intros Hwf. unfold mark_restart_detected, st_bind, Registry.mark_restarting.
    pose proof (Registry.update_spec (Replica.id r) _ (World.replicas w) (Registry.keeps_restarting now) Hwf) as [_ Hd].
    pose proof (Registry.wf_update (Replica.id r) _ (World.replicas w) (Registry.keeps_restarting now) Hwf) as Hwf'.
    destruct (Registry.update _ _ _) as [marked reg]. cbn [snd] in *.
    assert (forall i q, Registry.by_id reg !! i = Some q ->
      exists q0, Registry.by_id (World.replicas w) !! i = Some q0 /\ Replica.spec_id q0 = Replica.spec_id q) as Hdom.
    { intros i q. rewrite Hd, lookup_alter. case_decide; [subst i|by eauto].
      intros (q0 & Hq0 & ->)%fmap_Some. by exists q0. }
    destruct marked; cbn -[InMemorySessionStore.drop_replica]; by split.
  - unfold mark_restart_detected, st_bind. destruct (Registry.mark_restarting _ _ _) as [[|] reg]; done.
Qed.

Lemma sound_upsert (X : gmap ReplicaId string) r : X !! Replica.id r = Some (Replica.spec_id r) ->
  preserves (sound_for X) (st_modify (fun w => World.set_replicas (Registry.upsert r (World.replicas w)) w)).
Proof.
  intros Hin w [Hwf Hiss] HX. split; [|done|done]. cbn. split; cbn; [by apply RegistryOps.wf_upsert|].
  intros b i q Hb. rewrite RegistryOps.by_id_upsert by done. rewrite lookup_insert_Some. intros [[<- <-]|[_ Hq]].
  - unfold issued_in in HX. rewrite Hb in HX. by eapply lookup_weaken.
  - by apply (Hiss b i q).
Qed.

Lemma sound_readopt X clk spec r : X !! Replica.id r = Some (Replica.spec_id r) ->
  preserves (sound_for X) (readopt_running_replica show clk spec r).
Proof.
  intros Hin. unfold readopt_running_replica.
  pose proof (fun A (op : B -> A * B) none Hop => preserves_sound_for X _ (sound_call op none Hop)) as Hcall.
  apply preserves_bind; [apply _|intros w Hw _; by apply sound_same|]. intros _.
  apply preserves_bind; [apply _|apply preserves_get, _|]. intros rs.
  destruct (existsb _ rs); [apply preserves_ret, _|]. destruct (_ && _).
  - apply preserves_bind; [apply _|apply Hcall, stop_issued|]. intros _. apply preserves_ret, _.
  - apply preserves_bind; [apply _|apply Hcall, wait_issued|]. intros [u|e]; [by apply sound_upsert|].
    apply preserves_bind; [apply _|apply Hcall, stop_issued|]. intros _.
    destruct (existsb _ rs); [apply preserves_sound_for, sound_prune|apply preserves_ret, _].
Qed.

Lemma sound_reconcile_known X clk specs obs now r running :
  (forall i d, running !! i = Some d -> X !! Replica.id d = Some (Replica.spec_id d)) ->
  preserves (sound_for X) (reconcile_known show clk specs obs now r running).
Proof.
  intros HX. unfold reconcile_known.
  repeat preserves_step; eauto using sound_readopt;
    apply preserves_sound_for; first [apply sound_prune|apply sound_mark_restart|apply sound_call, stop_issued].
Qed.

Lemma sound_reconcile_snapshot X clk specs obs now snap running :
  (forall i d, running !! i = Some d -> X !! Replica.id d = Some (Replica.spec_id d)) ->
  preserves (sound_for X) (reconcile_snapshot show clk specs obs now snap running).
Proof.
  revert running; induction snap as [|r snap IH]; intros running HX; cbn [reconcile_snapshot].
  { apply preserves_ret, _. }
  apply (preserves_bind_post (sound_for X) (fun m => m ⊆ running)); [by apply sound_reconcile_known| |].
  - intros w. apply reconcile_known_running.
  - intros m Hm. apply IH. intros i d Hd. apply (HX i). by eapply lookup_weaken.
Qed.

Lemma collect_elem (l : list Replica.t) i d :
  collect (map (fun r => (Replica.id r, r)) l) !! i = Some d -> d ∈ l.
Proof.
  unfold collect. rewrite <- (rev_involutive l). generalize (rev l). clear l. intros l.
  induction l as [|r l IH]; simpl; [by rewrite lookup_empty|].
  rewrite map_app, foldl_app. simpl. rewrite lookup_insert_Some. intros [[<- <-]|[_ Hj]].
  - apply elem_of_app. right. left.
  - apply elem_of_app. left. by apply IH.
Qed.

Lemma sound_reconcile clk order specs snap report now w :
  world_wf w ->
  (forall r, r ∈ ReplicaLivenessReport.running report -> issued_in w !! Replica.id r = Some (Replica.spec_id r)) ->
  kept w (reconcile_backend_liveness show clk order specs snap report now w).2.
Proof.
  intros Hw Hrun. set (X := issued_in w).
  assert (preserves (sound_for X) (reconcile_backend_liveness show clk order specs snap report now)) as Hp;
    [|by apply Hp].
  unfold reconcile_backend_liveness. set (running := collect (map _ _)).
  assert (forall i d, running !! i = Some d -> X !! Replica.id d = Some (Replica.spec_id d)) as HX
    by (intros i d Hd%collect_elem; by apply Hrun).
  apply (preserves_bind_post (sound_for X) (fun m => m ⊆ running));
    [by apply sound_reconcile_snapshot|intros w0; apply reconcile_snapshot_running|]. intros m Hm.
  apply preserves_bind; [apply _| |intros _].
  - apply preserves_for; [apply _|]. intros d Hd. unfold adopt_discovered.
    assert (X !! Replica.id d = Some (Replica.spec_id d)) as Hd'.
    { eapply HX. eapply lookup_weaken; [|exact Hm]. apply (values_elem order); [|exact Hd].
      eapply keyed_subseteq; [exact Hm|]. apply collect_keyed. }
    destruct (spec_of specs d); [|apply preserves_ret, _]. destruct (_ || _); [apply preserves_ret, _|].
    by apply sound_readopt.
  - apply preserves_bind; [apply _|apply preserves_get, _|]. intros reg.
    apply preserves_for; [apply _|]. intros c _. unfold reap_orphan. repeat preserves_step.
    apply preserves_sound_for, sound_call, remove_issued.
Qed.

Lemma sound_reconcile_pass clk order specs snap : preserves sound (reconcile_pass show clk order specs snap).
Proof.
  intros w Hw. unfold reconcile_pass. unfold st_bind at 1.
  pose proof (sound_call (B := B) (replica_liveness (map ReplicaLivenessQuery.from snap)) (Err (CoreError.Backend ""))
                (liveness_issued _) w Hw) as Hk.
  destruct (call_backend _ _ w) as [[report|e] w1] eqn:Ec; cbn [snd] in *; [|done].
  apply (transitivity (R := sound) (y := w1)); [by intros _| |done]. intros Hw1.
  unfold st_bind, st_get. apply sound_reconcile; [done|]. intros r Hr.
  unfold call_backend in Ec. destruct (World.backend w) as [b|] eqn:Eb; [|done].
  destruct (replica_liveness _ b) as [res b'] eqn:El. injection Ec as -> <-. unfold issued_in. cbn.
  by eapply liveness_running.
Qed.

Lemma sound_reconcile_once clk order specs : preserves sound (reconcile_liveness_once show clk order specs).
Proof.
  unfold reconcile_liveness_once. repeat preserves_step. apply sound_reconcile_pass.
Qed.
End Soundness.

(** ** Properties *)

Module LivenessProperties.
Section Properties.
Context {B : Type} `{ContainerBackend B} (show : ReplicaId -> string).
Implicit Types (w : World.t B) (clk : Clock.t B).

(** C8. What a pass does to a known replica that the inventory does not
    report running is decided by its observation alone: an unknown one (its
    host could not be asked) keeps its registry slot, its sessions and its
    gauges, a missing one is pruned with all of them, a newly stopped one is
    held out of routing, and a held one is pruned after the grace and not
    before, whatever happens to the others in the same pass. *)
Theorem reconcile_decides_each_replica clk order specs snap report now r w :
  Registry.wf (World.replicas w) -> NoDup (Replica.id <$> snap) -> r ∈ snap ->
  Registry.by_id (World.replicas w) !! Replica.id r = Some r ->
  Replica.id r ∉ (Replica.id <$> ReplicaLivenessReport.running report) ->
  let w' := (reconcile_backend_liveness show clk order specs snap report now w).2 in
  let liveness := default ReplicaLiveness.Unknown
    (collect (ReplicaLivenessReport.observations report) !! Replica.id r) in
  meets (fate now liveness r) now r w w'.
Proof.
  intros Hwf Hnd Hin Hr Hrun w' liveness. unfold w', reconcile_backend_liveness. unfold st_bind at 1.
  set (running := collect (map _ _)). assert (running !! Replica.id r = None) as Hnone.
  { apply collect_None. by rewrite keyed_ids. }
  pose proof (collect_keyed (ReplicaLivenessReport.running report)) as Hk.
  pose proof (reconcile_snapshot_meets show clk specs (collect (ReplicaLivenessReport.observations report)) now snap running r w Hk Hnd Hin Hwf Hr Hnone) as Hm.
  pose proof (reconcile_snapshot_running show clk specs (collect (ReplicaLivenessReport.observations report))
                now snap running w) as Hsub.
  destruct (reconcile_snapshot _ _ _ _ _ _ _ _) as [m w1]. cbn [fst snd] in *. destruct Hm as [Hwf1 Hm].
  match goal with |- context [snd (?tail w1)] => assert (preserves (quiet (Replica.id r)) tail) as Ht end.
  { apply preserves_bind; [apply _| |intros _; apply preserves_bind; [apply _|apply preserves_get, _|]].
    - apply adoption_quiet; [by eapply keyed_subseteq|by eapply lookup_weaken_None].
    - intros reg. apply reap_quiet. }
  refine (meets_undisturbed _ _ _ w w w1 _ _ (proj2 (Ht w1 Hwf1)) Hm). by split.
Qed.

(** Re-adoption never takes a pool beyond its ceiling: whatever the
    inventory reports running, a pass leaves each app's pool no larger than
    the app's effective maximum, or than it was before. *)
Theorem reconcile_within_max clk order specs snap report now k spec w :
  Registry.wf (World.replicas w) ->
  List.find (fun s => str_eqb (Spec.id s) k) specs = Some spec ->
  labelled snap (collect (map (fun r => (Replica.id r, r)) (ReplicaLivenessReport.running report))) ->
  let w' := (reconcile_backend_liveness show clk order specs snap report now w).2 in
  Registry.wf (World.replicas w')
  /\ zlen (World.pool w' k) <= Z.max (zlen (World.pool w k)) (Spec.effective_max_replicas spec).
Proof.
  intros Hwf Hfind Hlab w'.
  assert (preserves (grows_to (Spec.effective_max_replicas spec) k)
            (reconcile_backend_liveness show clk order specs snap report now)) as Hp; [|by apply Hp].
  unfold reconcile_backend_liveness. pose proof (grows_to_preorder (B := B) (Spec.effective_max_replicas spec) k).
  apply preserves_bind; [done|by apply reconcile_snapshot_grows|]. intros m.
  apply preserves_bind; [done|apply preserves_for; [done|]; intros d _; by apply adopt_grows|]. intros _.
  apply preserves_bind; [done|by apply preserves_get|]. intros reg.
  apply preserves_for; [done|]. intros c _. apply reap_orphan_grows.
Qed.
End Properties.
End LivenessProperties.

(** ** Examples *)

Module LivenessExamples.
Import CountingBackend SpawnExamples.

Definition clock : Clock.t CountingBackend.t := Clock.mk (fun _ => 0) (fun _ => 0).
Definition no_show (_ : ReplicaId) : string := "".

Definition pair_of_replicas : list Replica.t := [rep 1 ReplicaState.Ready 2; rep 2 ReplicaState.Ready 1].
Definition two_apart : World.t CountingBackend.t := world pair_of_replicas 5.

(** Replica 1 is gone, the host of replica 2 did not answer, and a third
    container of the app is running. *)
Definition inventory : ReplicaLivenessReport.t :=
  ReplicaLivenessReport.mk [(1%N, ReplicaLiveness.Missing); (2%N, ReplicaLiveness.Unknown)]
    [rep 3 ReplicaState.Ready 0] [].

Definition passed : World.t CountingBackend.t :=
  (reconcile_backend_liveness no_show clock HashOrder.sorted [app] pair_of_replicas inventory 0 two_apart).2.

Lemma pair_elem i r : pair_of_replicas !! i = Some r -> r ∈ pair_of_replicas.
Proof. apply list_elem_of_lookup_2. Qed.

Lemma reconcile_decides_each_replica_witness :
  Registry.by_id (World.replicas passed) !! 1%N = None
  /\ Registry.by_id (World.replicas passed) !! 2%N = Some (rep 2 ReplicaState.Ready 1)
  /\ Registry.by_id (World.replicas passed) !! 3%N = Some (Replica.set_sessions_max 2 (rep 3 ReplicaState.Ready 0)).
Proof.
  assert (Registry.wf (World.replicas two_apart)) as Hwf
    by (apply world_registry, (numbered_wf pair_of_replicas 5); reflexivity).
  split; [|split].
  - apply (LivenessProperties.reconcile_decides_each_replica no_show clock HashOrder.sorted [app] pair_of_replicas
             inventory 0 (rep 1 ReplicaState.Ready 2) two_apart).
    + exact Hwf.
    + apply (bool_decide_unpack _). vm_compute. exact I.
    + by apply (pair_elem 0).
    + vm_compute. reflexivity.
    + apply (bool_decide_unpack _). vm_compute. exact I.
  - destruct (LivenessProperties.reconcile_decides_each_replica no_show clock HashOrder.sorted [app] pair_of_replicas
             inventory 0 (rep 2 ReplicaState.Ready 1) two_apart) as [Hkept _ _ _].
    + exact Hwf.
    + apply (bool_decide_unpack _). vm_compute. exact I.
    + by apply (pair_elem 1).
    + vm_compute. reflexivity.
    + apply (bool_decide_unpack _). vm_compute. exact I.
    + exact Hkept.
  - vm_compute. reflexivity.
Defined.

(** With both known replicas there, the third container does not fit. *)
Definition full_house : ReplicaLivenessReport.t :=
  ReplicaLivenessReport.mk [(1%N, ReplicaLiveness.Running); (2%N, ReplicaLiveness.Unknown)]
    [rep 3 ReplicaState.Ready 0] [].

Lemma reconcile_within_max_witness :
  Spec.effective_max_replicas app = 2
  /\ zlen (World.pool (reconcile_backend_liveness no_show clock HashOrder.sorted [app] pair_of_replicas full_house 0
                         two_apart).2 "a") <= 2.
Proof.
  split; [reflexivity|].
  refine (proj2 (LivenessProperties.reconcile_within_max no_show clock HashOrder.sorted [app] pair_of_replicas
                   full_house 0 "a" app two_apart _ _ _)).
  - apply world_registry, (numbered_wf pair_of_replicas 5). reflexivity.
  - reflexivity.
  - intros r d Hr Hd. apply list_elem_of_In in Hr. vm_compute in Hr.
    destruct Hr as [<-|[<-|[]]]; vm_compute in Hd; discriminate.
Defined.
End LivenessExamples.
