(* ===== verification/Scaler.v ===== *)
(** * The auto-scaler (ruscker-admin/src/scaler.rs)

    One tick: the idle accounting, the liveness pass, the garbage collection
    of counters, and for every spec the lifetime reap, the two scale-up rules
    and the scale-down rule.  A tick acts on the world and on the three
    counters the scaler task keeps. *)

From Stdlib Require Import ZArith Lia.
From stdpp Require Import base tactics list gmap strings sets fin_maps numbers pretty.
From S2P Require Import Prelude Text Schema Core Sessions Counters Routing Spawn Liveness.

Local Open Scope string_scope.
Local Open Scope list_scope.
Local Open Scope Z_scope.
Local Open Scope ruscker_scope.

(** ** Constants *)

Definition DEFAULT_INTERVAL : Z := from_secs 10.
Definition DEFAULT_IDLE_GRACE_TICKS : Z := 3.
Definition DEFAULT_SATURATION_GRACE_TICKS : Z := 2.
Definition YOUNG_REPLICA_GRACE_SECS : Z := 60.
Definition FAILURE_WARN_WINDOW : Z := from_secs 300.

(** ** The spawn-failure log *)

Module FailureLog.
Inductive verdict := Warn (count : Z) | Quiet (count : Z).

(** [hash] is the message's [DefaultHasher] hash. *)
Definition observe (spec_id : string) (hash now : Z) (inner : gmap string FailState.t)
  : verdict * gmap string FailState.t :=
  let fresh := (Warn 1, <[spec_id := FailState.mk hash 1 (now + FAILURE_WARN_WINDOW)]> inner) in
  match inner !! spec_id with
  | Some st =>
    if FailState.hash st =? hash then
      let count := as_u32 (FailState.count st + 1) in
      if FailState.next_warn st <=? now
      then (Warn count, <[spec_id := FailState.mk (FailState.hash st) count (now + FAILURE_WARN_WINDOW)]> inner)
      else (Quiet count, <[spec_id := FailState.mk (FailState.hash st) count (FailState.next_warn st)]> inner)
    else fresh
  | None => fresh
  end.

Definition clear (spec_id : string) (inner : gmap string FailState.t) : gmap string FailState.t :=
  delete spec_id inner.
End FailureLog.

(** ** Pure helpers over a snapshot *)

(** The body of [update_idle_ticks]'s loop. *)
Definition count_idle (now : Z) (idle_ticks : gmap ReplicaId Z) (r : Replica.t) : gmap ReplicaId Z :=
  let young := now - Replica.started_at r <? from_secs YOUNG_REPLICA_GRACE_SECS in
  if (Replica.sessions_active r =? 0) && negb young
  then <[Replica.id r := as_u32 (default 0 (idle_ticks !! Replica.id r) + 1)]> idle_ticks
  else delete (Replica.id r) idle_ticks.

Definition update_idle_ticks (registry_snap : list Replica.t) (now : Z) (idle_ticks : gmap ReplicaId Z)
  : gmap ReplicaId Z :=
  foldl (count_idle now) (filter (fun kv => kv.1 ∈ map Replica.id registry_snap) idle_ticks) registry_snap.

Definition all_saturated (replicas : list Replica.t) : bool :=
  negb (bool_decide (replicas = [])) && forallb (fun r => Replica.available_seats r =? 0) replicas.

Definition pool_utilization (replicas : list Replica.t) : f64 :=
  let seats := sum_by Replica.sessions_max replicas in
  if seats =? 0 then f64_zero
  else f64_div (f64_of_Z (sum_by Replica.sessions_active replicas)) (f64_of_Z seats).

Definition scale_up_triggered (replicas : list Replica.t) (up_threshold : option f64) : bool :=
  match up_threshold with
  | Some t => negb (bool_decide (replicas = [])) && f64_ltb t (pool_utilization replicas)
  | None => all_saturated replicas
  end.

Definition grace_secs_to_ticks (secs interval : Z) : Z :=
  let iv := Z.max (as_secs interval) 1 in
  Z.min (Z.max (div_ceil secs iv) 1) u32_max.

Definition cooldown_secs_to_ticks (secs interval : Z) : Z :=
  if secs =? 0 then 0 else grace_secs_to_ticks secs interval.

Definition cooldown_ticks_for_spec (spec : Spec.t) (interval : Z) (default_cooldown_ticks : option Z) : Z :=
  match Spec.scale_down_cooldown_secs spec with
  | Some secs => cooldown_secs_to_ticks secs interval
  | None =>
    match default_cooldown_ticks with
    | Some ticks => ticks
    | None => cooldown_secs_to_ticks (Spec.effective_scale_down_cooldown_secs spec) interval
    end
  end.

(** The overlay of one replica. *)
Definition overlaid (inflight : Inflight.t) (spec : Spec.t) (r : Replica.t) : Replica.t :=
  if is_api spec then
    Replica.set_sessions_max (Spec.effective_concurrent_requests_per_replica spec)
      (Replica.set_sessions_active (Inflight.inflight_count inflight (Replica.id r)) r)
  else r.

Definition overlay_request_capacity (inflight : Inflight.t) (spec : Spec.t) (snap : list Replica.t) : list Replica.t :=
  map (overlaid inflight spec) snap.

Definition past_lifetime (now : Z) (hard_secs soft_secs : option Z) (drain_secs : Z) (r : Replica.t) : bool :=
  let age := num_seconds (now - Replica.started_at r) in
  let idle := Replica.sessions_active r =? 0 in
  let hard := match hard_secs with
              | Some cap => (if idle then cap else i64_saturating_add cap drain_secs) <=? age
              | None => false
              end in
  let soft := match soft_secs with Some cap => (cap <=? age) && idle | None => false end in
  hard || soft.

Definition lifetime_reap_candidates (replicas : list Replica.t) (now : Z) (hard_secs soft_secs : option Z)
    (drain_secs : Z) : list ReplicaId :=
  match hard_secs, soft_secs with
  | None, None => []
  | _, _ => map Replica.id (List.filter (past_lifetime now hard_secs soft_secs drain_secs) replicas)
  end.

(** ** The tick *)

Module Tick.
Record t {B : Type} := mk {
  world : World.t B;
  idle_ticks : gmap ReplicaId Z;
  saturation_ticks : gmap string Z;
  cooldown : gmap string Z }.
Arguments t : clear implicits.
Arguments mk {B}.

Section Setters.
Context {B : Type}.
Definition set_world (x : World.t B) (s : t B) : t B := mk x (idle_ticks s) (saturation_ticks s) (cooldown s).
Definition set_idle (x : gmap ReplicaId Z) (s : t B) : t B := mk (world s) x (saturation_ticks s) (cooldown s).
Definition set_saturation (x : gmap string Z) (s : t B) : t B := mk (world s) (idle_ticks s) x (cooldown s).
Definition set_cooldown (x : gmap string Z) (s : t B) : t B := mk (world s) (idle_ticks s) (saturation_ticks s) x.
End Setters.

(** The tuning arguments of [tick_with_interval]. *)
Record params := mkParams {
  drop_after_ticks : Z;
  spawn_after_saturated_ticks : Z;
  default_cooldown_ticks : option Z;
  interval : Z }.

(** What [spawn] passes. *)
Definition production (interval : Z) : params :=
  mkParams DEFAULT_IDLE_GRACE_TICKS DEFAULT_SATURATION_GRACE_TICKS None interval.
End Tick.

Section Operations.
Context {B : Type} `{ContainerBackend B}.
Abbreviation M A := (St (World.t B) A).
Abbreviation T A := (St (Tick.t B) A).
Implicit Types (clk : Clock.t B) (spec : Spec.t).

Definition lift {A} (m : M A) : T A := fun s =>
  let '(a, w) := m (Tick.world s) in (a, Tick.set_world w s).

Definition log_spawn_failure clk (hash : string -> Z) (spec_id phase err : string) : M unit := fun w =>
  let now := Clock.instant clk w in
  let '(verdict, inner) := FailureLog.observe spec_id (hash err) now (World.failures w) in
  let w := World.set_failures inner w in
  match verdict with
  | FailureLog.Warn count =>
    notify_alert clk (AlertEvent.mk AlertKind.SpawnFailed spec_id None
      (phase +:+ " spawn failed (" +:+ pretty count +:+ " failure(s)): " +:+ err)) w
  | FailureLog.Quiet _ => (tt, w)
  end.

Definition spawn_succeeded (spec_id : string) : M unit :=
  st_modify (fun w => World.set_failures (FailureLog.clear spec_id (World.failures w)) w).

(** The loop that brings a pool up to its minimum; the first failure ends it. *)
Fixpoint spawn_up clk (env : Env.t) (spec : Spec.t) (n : nat) : M unit :=
  match n with
  | O => st_ret tt
  | S n' =>
    do spawned <- spawn_one env spec AddCapacity;
    match spawned with
    | Err e => log_spawn_failure clk (Env.hash env) (Spec.id spec) "scale-up" e
    | Ok _ => do! spawn_succeeded (Spec.id spec); spawn_up clk env spec n'
    end
  end.

(** The spec's pool as the scale passes see it. *)
Definition read_pool (spec : Spec.t) : T (list Replica.t) := fun s =>
  (overlay_request_capacity (World.inflight (Tick.world s)) spec (World.pool (Tick.world s) (Spec.id spec)), s).

Definition forget_idle (i : ReplicaId) : T unit :=
  st_modify (fun s => Tick.set_idle (delete i (Tick.idle_ticks s)) s).

Definition clear_saturation (k : string) : T unit :=
  st_modify (fun s => Tick.set_saturation (delete k (Tick.saturation_ticks s)) s).

(** Whether the spec is cooling, before the countdown moves. *)
Definition take_cooldown (k : string) : T bool := fun s =>
  let cooling := 0 <? default 0 (Tick.cooldown s !! k) in
  let cooldown' :=
    match Tick.cooldown s !! k with
    | Some c => let c := saturating_sub c 1 in
                if c =? 0 then delete k (Tick.cooldown s) else <[k := c]> (Tick.cooldown s)
    | None => Tick.cooldown s
    end in
  (cooling, Tick.set_cooldown cooldown' s).

Definition reap_aged clk (spec : Spec.t) (snap : list Replica.t) : T (list Replica.t) :=
  do now <- st_get (fun s => Clock.utc clk (Tick.world s));
  match lifetime_reap_candidates snap now (Spec.effective_max_lifetime_secs spec)
          (Spec.effective_container_lifetime_secs spec) (Spec.effective_drain_timeout_secs spec) with
  | [] => st_ret snap
  | aged =>
    do! st_for aged (fun i => do! lift (stop_one i); forget_idle i);
    read_pool spec
  end.

(** Sustained saturation below the maximum. *)
Definition scale_up_saturated clk (env : Env.t) (p : Tick.params) (spec : Spec.t) (cooling : bool) : T unit :=
  if cooling then clear_saturation (Spec.id spec)
  else
    do n <- (fun s =>
      let n := match Tick.saturation_ticks s !! Spec.id spec with Some n => as_u32 (n + 1) | None => 1 end in
      (n, Tick.set_saturation (<[Spec.id spec := n]> (Tick.saturation_ticks s)) s));
    if Tick.spawn_after_saturated_ticks p <=? n then
      do! lift (do spawned <- spawn_one env spec AddCapacity;
                match spawned with
                | Err e => log_spawn_failure clk (Env.hash env) (Spec.id spec) "saturation" e
                | Ok _ => spawn_succeeded (Spec.id spec)
                end);
      clear_saturation (Spec.id spec)
    else st_ret tt.

Definition drop_after (p : Tick.params) (spec : Spec.t) : Z :=
  match Spec.scale_down_grace spec with
  | Some secs => grace_secs_to_ticks secs DEFAULT_INTERVAL
  | None => Tick.drop_after_ticks p
  end.

Definition underutilized (spec : Spec.t) (snap : list Replica.t) : bool :=
  match Spec.effective_scale_down_threshold spec with
  | Some t => f64_ltb (pool_utilization snap) t
  | None => true
  end.

Definition droppable (idle_ticks : gmap ReplicaId Z) (after : Z) (r : Replica.t) : bool :=
  (Replica.sessions_active r =? 0) && (after <=? default 0 (idle_ticks !! Replica.id r)).

Definition drop_candidates (p : Tick.params) (spec : Spec.t) (snap : list Replica.t) (idle_ticks : gmap ReplicaId Z)
  : list Replica.t :=
  if underutilized spec snap
  then take (Z.to_nat (zlen snap - Spec.effective_min_replicas spec))
         (List.filter (droppable idle_ticks (drop_after p spec)) snap)
  else [].

(** Stop each candidate; the flag says whether the backend stopped any. *)
Fixpoint drop_each (rs : list Replica.t) : T bool :=
  match rs with
  | [] => st_ret false
  | r :: rs' =>
    do stopped <- lift (stop_one (Replica.id r));
    do! forget_idle (Replica.id r);
    do rest <- drop_each rs';
    st_ret (is_ok stopped || rest)
  end.

Definition scale_down (p : Tick.params) (spec : Spec.t) (snap : list Replica.t) : T unit :=
  if Spec.effective_min_replicas spec <? zlen snap then
    do idle_ticks <- st_get (@Tick.idle_ticks B);
    do stopped_any <- drop_each (drop_candidates p spec snap idle_ticks);
    let ticks := cooldown_ticks_for_spec spec (Tick.interval p) (Tick.default_cooldown_ticks p) in
    if stopped_any && (0 <? ticks)
    then st_modify (fun s => Tick.set_cooldown (<[Spec.id spec := ticks]> (Tick.cooldown s)) s)
    else st_ret tt
  else st_ret tt.

Definition saturated_event (spec : Spec.t) : AlertEvent.t :=
  AlertEvent.mk AlertKind.Saturated (Spec.id spec) None
    ("`" +:+ Spec.id spec +:+ "` is saturated at max-replicas ("
     +:+ pretty (Spec.effective_max_replicas spec) +:+ ") — visitors may be turned away").

(** The passes after the reap. *)
Definition scale_pool clk (env : Env.t) (p : Tick.params) (spec : Spec.t) (cooling : bool) (snap : list Replica.t)
  : T unit :=
  let count := zlen snap in
  let min := Spec.effective_min_replicas spec in
  let max := Spec.effective_max_replicas spec in
  let triggered := scale_up_triggered snap (Spec.effective_scale_up_threshold spec) in
  if count <? min then
    do! lift (spawn_up clk env spec (Z.to_nat (min - count)));
    clear_saturation (Spec.id spec)
  else if (count <? max) && triggered then scale_up_saturated clk env p spec cooling
  else
    do! (if (max <=? count) && (0 <? count) && triggered
         then lift (notify_alert clk (saturated_event spec)) else st_ret tt);
    do! clear_saturation (Spec.id spec);
    scale_down p spec snap.

(** The body of the loop over the specs. *)
Definition scale_spec clk (env : Env.t) (p : Tick.params) (spec : Spec.t) : T unit :=
  if bool_decide (Spec.kind spec = SpecKind.External) || bool_decide (Spec.container_image spec = None)
  then st_ret tt
  else
    do cooling <- take_cooldown (Spec.id spec);
    do snap <- read_pool spec;
    do snap <- reap_aged clk spec snap;
    scale_pool clk env p spec cooling snap.

(** The garbage collection between the liveness pass and the specs. *)
Definition collect_counters (specs : list Spec.t) : T unit := st_modify (fun s =>
  let known := map Spec.id specs in
  let w := Tick.world s in
  let w := World.set_inflight
             (Inflight.inflight_gc (map Replica.id (Registry.all (World.replicas w))) (World.inflight w)) w in
  let w := World.set_spawn_locks (filter (fun k => k ∈ known) (World.spawn_locks w)) w in
  Tick.mk w (Tick.idle_ticks s) (filter (fun kv => kv.1 ∈ known) (Tick.saturation_ticks s))
    (filter (fun kv => kv.1 ∈ known) (Tick.cooldown s))).

Definition tick_with_interval (show : ReplicaId -> string) clk (order : HashOrder.t) (env : Env.t) (p : Tick.params)
    (specs : list Spec.t) : T unit :=
  do backend <- st_get (fun s => World.backend (Tick.world s));
  match backend with
  | None => st_ret tt
  | Some _ =>
    do registry_snap <- st_get (fun s => snapshot specs (Tick.world s));
    do! st_modify (fun s =>
      Tick.set_idle (update_idle_ticks registry_snap (Clock.utc clk (Tick.world s)) (Tick.idle_ticks s)) s);
    do! lift (reconcile_pass show clk order specs registry_snap);
    do! collect_counters specs;
    st_for specs (scale_spec clk env p)
  end.

(** One turn of the scaler task: only the leader ticks. *)
Definition scaler_turn (show : ReplicaId -> string) clk (order : HashOrder.t) (env : Env.t) (interval : Z)
    (specs : list Spec.t) (is_leader : bool) : T unit :=
  if is_leader then tick_with_interval show clk order env (Tick.production interval) specs else st_ret tt.
End Operations.

(** ** Pool bounds *)

Section Bounds.
Context {B : Type} `{ContainerBackendLaws B} (show : ReplicaId -> string).
Implicit Types (w : World.t B) (s : Tick.t B) (clk : Clock.t B) (spec : Spec.t).

(** The invariant is kept, and the pool of [k] does not grow beyond [m]. *)
Definition bounded (m : Z) (k : string) w w' : Prop :=
  world_wf w -> kept w w' /\ zlen (World.pool w' k) <= Z.max (zlen (World.pool w k)) m.

#[local] Instance bounded_preorder m k : PreOrder (bounded m k).
Proof.
  split.
  - intros w Hw. split; [by apply (reflexivity (R := sound))|lia].
  - intros w1 w2 w3 H12 H23 Hw. destruct (H12 Hw) as [Hk2 Hl2]. destruct (H23 (kept_wf _ _ Hk2)) as [Hk3 Hl3].
    split; [|lia]. apply (transitivity (R := sound) (y := w2)); by try intros _.
Qed.

Lemma bounded_of m k w w' : sound w w' -> grows_to m k w w' -> bounded m k w w'.
Proof. intros Hs Hg Hw. split; [by apply Hs|]. apply Hg, Hw. Qed.

Lemma preserves_bounded {A} m k (c : St (World.t B) A) :
  preserves sound c -> preserves (grows_to m k) c -> preserves (bounded m k) c.
Proof. intros Hs Hg w. apply bounded_of; [apply Hs|apply Hg]. Qed.

Lemma same_bounded m k w w' :
  World.replicas w' = World.replicas w -> World.backend w' = World.backend w -> bounded m k w w'.
Proof. intros Hr Hb. apply bounded_of; [by apply sound_same|by apply same_replicas_grows]. Qed.

Lemma stop_one_bounded m k i : preserves (bounded m k) (stop_one i).
Proof.
  apply preserves_bounded; [apply sound_stop_one|]. pose proof (grows_to_preorder (B := B) m k).
  unfold stop_one. apply preserves_bind; [done|apply call_backend_grows|]. intros res.
  apply preserves_bind; [done|apply cleanup_grows|]. intros _. by apply preserves_ret.
Qed.

Lemma spawn_one_bounded m k env spec intent :
  (Spec.id spec = k -> Spec.effective_max_replicas spec <= m) ->
  preserves (bounded m k) (spawn_one env spec intent).
Proof.
  intros Hm w Hw. pose proof (sound_spawn_one env spec intent w Hw) as Hk.
  destruct (spawn_one env spec intent w) as [res w'] eqn:E. cbn [snd] in *. split; [done|].
  apply spawn_one_spec in E as [[Hr|(r & _ & Hsp & Hr & Href)] _]; [| |done].
  - unfold World.pool. rewrite Hr. lia.
  - destruct Hsp as [Hid _ _ _ _]. unfold World.pool at 1. rewrite Hr, Registry.replicas_of_add.
    change (Registry.replicas_of (World.replicas w) k) with (World.pool w k). rewrite Hid.
    case_decide as Hk2; [|lia]. specialize (Hm Hk2). unfold spawn_refused in Href. bool_split. rewrite Hk2 in *.
    unfold zlen in *. rewrite length_app. cbn [length]. lia.
Qed.

Lemma notify_bounded m k clk event : preserves (bounded m k) (notify_alert clk event).
Proof. intros w. by apply same_bounded. Qed.

Lemma log_spawn_failure_bounded m k clk hash spec_id phase err :
  preserves (bounded m k) (log_spawn_failure clk hash spec_id phase err).
Proof.
  intros w. unfold log_spawn_failure. destruct (FailureLog.observe _ _ _ _) as [[c|c] inner]; by apply same_bounded.
Qed.

Lemma spawn_up_bounded m k clk env spec n :
  (Spec.id spec = k -> Spec.effective_max_replicas spec <= m) -> preserves (bounded m k) (spawn_up clk env spec n).
Proof.
  intros Hm. induction n as [|n IH]; cbn [spawn_up]; [apply preserves_ret, _|].
  apply preserves_bind; [apply _|by apply spawn_one_bounded|]. intros [u|e]; [|apply log_spawn_failure_bounded].
  apply preserves_bind; [apply _|intros w; by apply same_bounded|done].
Qed.

(** Relations between ticks' worlds. *)
Definition on_world (R : World.t B -> World.t B -> Prop) s s' : Prop := R (Tick.world s) (Tick.world s').

#[local] Instance on_world_preorder R `{!PreOrder R} : PreOrder (on_world R).
Proof.
  split.
  - intros s. unfold on_world. reflexivity.
  - intros s1 s2 s3. unfold on_world. intros. by etransitivity.
Qed.

Lemma preserves_lift {A} R (c : St (World.t B) A) : preserves R c -> preserves (on_world R) (lift c).
Proof. intros Hc s. unfold lift, on_world. specialize (Hc (Tick.world s)). by destruct (c (Tick.world s)). Qed.

(** A step on the counters alone. *)
Lemma preserves_local {A} R `{!PreOrder R} (c : St (Tick.t B) A) :
  (forall s, Tick.world (c s).2 = Tick.world s) -> preserves (on_world R) c.
Proof. intros Hc s. unfold on_world. by rewrite Hc. Qed.
End Bounds.

#[export] Existing Instance bounded_preorder.
#[export] Existing Instance on_world_preorder.

Section TickBounds.
Context {B : Type} `{ContainerBackendLaws B} (show : ReplicaId -> string).
Implicit Types (w : World.t B) (s : Tick.t B) (clk : Clock.t B) (spec : Spec.t).
Context (m : Z) (k : string).
Abbreviation ok c := (preserves (on_world (bounded m k)) c).

Lemma drop_each_bounded rs : ok (drop_each rs).
Proof.
  induction rs as [|r rs IH]; cbn [drop_each]; [apply preserves_ret, _|].
  apply preserves_bind; [apply _|apply preserves_lift, stop_one_bounded|]. intros res.
  apply preserves_bind; [apply _|by apply preserves_local; [apply _|]|]. intros _.
  apply preserves_bind; [apply _|done|]. intros b. apply preserves_ret, _.
Qed.

Lemma reap_aged_bounded clk spec snap : ok (reap_aged clk spec snap).
Proof.
  unfold reap_aged. apply preserves_bind; [apply _|apply preserves_get, _|]. intros now.
  destruct (lifetime_reap_candidates _ _ _ _ _) as [|i aged]; [apply preserves_ret, _|].
  apply preserves_bind; [apply _| |intros _; by apply preserves_local; [apply _|]].
  apply preserves_for; [apply _|]. intros j _.
  apply preserves_bind; [apply _|apply preserves_lift, stop_one_bounded|]. intros _.
  by apply preserves_local; [apply _|].
Qed.

Lemma scale_up_saturated_bounded clk env p spec cooling :
  (Spec.id spec = k -> Spec.effective_max_replicas spec <= m) -> ok (scale_up_saturated clk env p spec cooling).
Proof.
  intros Hm. unfold scale_up_saturated. destruct cooling; [by apply preserves_local; [apply _|]|].
  apply preserves_bind; [apply _|by apply preserves_local; [apply _|]|]. intros n.
  destruct (_ <=? n); [|apply preserves_ret, _].
  apply preserves_bind; [apply _| |intros _; by apply preserves_local; [apply _|]].
  apply preserves_lift, preserves_bind; [apply _|by apply spawn_one_bounded|].
  intros [u|e]; [intros w; by apply same_bounded|apply log_spawn_failure_bounded].
Qed.

Lemma scale_down_bounded p spec snap : ok (scale_down p spec snap).
Proof.
  unfold scale_down. destruct (_ <? _); [|apply preserves_ret, _].
  apply preserves_bind; [apply _|apply preserves_get, _|]. intros idle.
  apply preserves_bind; [apply _|apply drop_each_bounded|]. intros stopped.
  destruct (_ && _); [by apply preserves_local; [apply _|]|apply preserves_ret, _].
Qed.

Lemma scale_pool_bounded clk env p spec cooling snap :
  (Spec.id spec = k -> Spec.effective_max_replicas spec <= m) -> ok (scale_pool clk env p spec cooling snap).
Proof.
  intros Hm. unfold scale_pool. destruct (_ <? _).
  { apply preserves_bind; [apply _|by apply preserves_lift, spawn_up_bounded|]. intros _.
    by apply preserves_local; [apply _|]. }
  destruct (_ && _); [by apply scale_up_saturated_bounded|].
  apply preserves_bind; [apply _| |intros _].
  { destruct (_ && _); [apply preserves_lift, notify_bounded|apply preserves_ret, _]. }
  apply preserves_bind; [apply _|by apply preserves_local; [apply _|]|]. intros _. apply scale_down_bounded.
Qed.

Lemma scale_spec_bounded clk env p spec :
  (Spec.id spec = k -> Spec.effective_max_replicas spec <= m) -> ok (scale_spec clk env p spec).
Proof.
  intros Hm. unfold scale_spec. destruct (_ || _); [apply preserves_ret, _|].
  apply preserves_bind; [apply _|by apply preserves_local; [apply _|]|]. intros cooling.
  apply preserves_bind; [apply _|by apply preserves_local; [apply _|]|]. intros snap.
  apply preserves_bind; [apply _|apply reap_aged_bounded|]. intros snap'. by apply scale_pool_bounded.
Qed.
End TickBounds.

(** ** The whole tick *)

Section WholeTick.
Context {B : Type} `{ContainerBackendLaws B} (show : ReplicaId -> string).
Implicit Types (w : World.t B) (s : Tick.t B) (clk : Clock.t B) (spec : Spec.t).

Lemma NoDup_map_inj (specs : list Spec.t) a b :
  NoDup (map Spec.id specs) -> a ∈ specs -> b ∈ specs -> Spec.id a = Spec.id b -> a = b.
Proof.
  induction specs as [|x l IH]; cbn; intros Hnd Ha Hb Heq; [by apply not_elem_of_nil in Ha|].
  inversion_clear Hnd as [|? ? Hx Hl]. apply elem_of_cons in Ha as [->|Ha], Hb as [->|Hb]; [done| | |by apply IH].
  - destruct Hx. rewrite Heq. by apply list_elem_of_fmap_2.
  - destruct Hx. rewrite <- Heq. by apply list_elem_of_fmap_2.
Qed.

Lemma find_id (specs : list Spec.t) spec :
  NoDup (map Spec.id specs) -> spec ∈ specs ->
  List.find (fun x => str_eqb (Spec.id x) (Spec.id spec)) specs = Some spec.
Proof.
  intros Hnd Hin. destruct (List.find _ specs) as [x|] eqn:E.
  - apply find_elem in E as [Hx Hid%str_eqb_eq]. f_equal. by apply (NoDup_map_inj specs).
  - pose proof (find_none_elem _ _ spec E Hin) as Hf. cbn in Hf. by rewrite str_eqb_refl in Hf.
Qed.

Lemma snapshot_elem specs w r : world_wf w -> r ∈ snapshot specs w ->
  Registry.by_id (World.replicas w) !! Replica.id r = Some r.
Proof.
  intros Hw. unfold snapshot. intros Hr%list_elem_of_In%in_concat. destruct Hr as (rs & Hrs & Hr).
  apply in_map_iff in Hrs as (spec & <- & _). apply list_elem_of_In in Hr.
  by apply (pool_elem w (Spec.id spec) r (world_registry _ Hw)) in Hr as [? _].
Qed.

(** What the inventory reports running is labelled as the registry has it. *)
Lemma reported_labelled specs w b report b' :
  world_wf w -> World.backend w = Some b ->
  replica_liveness (map ReplicaLivenessQuery.from (snapshot specs w)) b = (Ok report, b') ->
  labelled (snapshot specs w) (collect (map (fun r => (Replica.id r, r)) (ReplicaLivenessReport.running report))).
Proof.
  intros Hw Hb Hq r d Hr Hd. pose proof (collect_keyed _ _ _ Hd) as Hid. apply collect_elem in Hd.
  pose proof (liveness_running _ _ _ _ _ Hq Hd) as Hnew. rewrite Hid in Hnew.
  pose proof (world_issued _ Hw b _ _ Hb (snapshot_elem specs w r Hw Hr)) as Hold.
  pose proof (liveness_issued (map ReplicaLivenessQuery.from (snapshot specs w)) b) as Hsub. rewrite Hq in Hsub.
  cbn [snd] in Hsub. pose proof (lookup_weaken _ _ _ _ Hold Hsub). congruence.
Qed.

Lemma reconcile_grows clk order specs snap report now k ceiling :
  List.find (fun spec => str_eqb (Spec.id spec) k) specs = Some ceiling ->
  labelled snap (collect (map (fun r => (Replica.id r, r)) (ReplicaLivenessReport.running report))) ->
  preserves (grows_to (B := B) (Spec.effective_max_replicas ceiling) k)
    (reconcile_backend_liveness show clk order specs snap report now).
Proof.
  intros Hfind Hlab. unfold reconcile_backend_liveness.
  pose proof (grows_to_preorder (B := B) (Spec.effective_max_replicas ceiling) k).
  apply preserves_bind; [done|by apply reconcile_snapshot_grows|]. intros m.
  apply preserves_bind; [done|apply preserves_for; [done|]; intros d _; by apply adopt_grows|]. intros _.
  apply preserves_bind; [done|by apply preserves_get|]. intros reg.
  apply preserves_for; [done|]. intros c _. apply reap_orphan_grows.
Qed.

Lemma reconcile_pass_bounded clk order specs w k ceiling :
  List.find (fun spec => str_eqb (Spec.id spec) k) specs = Some ceiling ->
  bounded (Spec.effective_max_replicas ceiling) k w (reconcile_pass show clk order specs (snapshot specs w) w).2.
Proof.
  intros Hfind Hw. split; [by apply sound_reconcile_pass|]. unfold reconcile_pass, st_bind, call_backend.
  destruct (World.backend w) as [b|] eqn:Eb; [|cbn; lia].
  destruct (replica_liveness _ b) as [[report|e] b'] eqn:Eq; [|cbn -[Z.max]; unfold World.pool; cbn -[Z.max]; lia].
  unfold st_get. set (w1 := World.set_backend (Some b') w).
  assert (Registry.wf (World.replicas w1)) as Hwf1 by apply Hw.
  refine (proj2 (reconcile_grows clk order specs (snapshot specs w) report _ k ceiling Hfind _ w1 Hwf1)).
  by eapply reported_labelled.
Qed.

Lemma tick_bounded clk order env p specs k ceiling :
  NoDup (map Spec.id specs) -> ceiling ∈ specs -> Spec.id ceiling = k ->
  preserves (on_world (bounded (Spec.effective_max_replicas ceiling) k))
    (tick_with_interval show clk order env p specs).
Proof.
  intros Hnd Hin Hk s. unfold tick_with_interval, st_bind at 1, st_get at 1.
  destruct (World.backend (Tick.world s)) as [b|]; [|cbn; reflexivity].
  unfold st_bind at 1, st_get at 1. unfold st_bind at 1, st_modify at 1. set (snap := snapshot specs (Tick.world s)).
  assert (forall spec, spec ∈ specs -> Spec.id spec = k -> spec = ceiling) as Huniq.
  { intros spec Hs Hid. apply (NoDup_map_inj specs); [done|done|done|congruence]. }
  transitivity (Tick.set_idle (update_idle_ticks snap (Clock.utc clk (Tick.world s)) (Tick.idle_ticks s)) s);
    [unfold on_world; reflexivity|].
  apply (preserves_bind_at (on_world (bounded (Spec.effective_max_replicas ceiling) k))).
  - unfold lift, on_world. cbn [Tick.world Tick.set_idle].
    pose proof (reconcile_pass_bounded clk order specs (Tick.world s) k ceiling) as Hr.
    unfold snap. destruct (reconcile_pass _ _ _ _ _ _) as [u w1]. cbn [snd Tick.world Tick.set_world] in *.
    apply Hr. rewrite <- Hk. by apply find_id.
  - intros u. apply preserves_bind; [apply _| |intros _].
    + intros s1. by apply same_bounded.
    + apply preserves_for; [apply _|]. intros spec Hs. apply scale_spec_bounded. intros Hid. by rewrite (Huniq spec Hs Hid).
Qed.
End WholeTick.

(** ** What the passes over one spec may drop *)

Section Drops.
Context {B : Type} `{ContainerBackendLaws B}.
Implicit Types (w : World.t B) (s : Tick.t B) (clk : Clock.t B) (spec : Spec.t) (r : Replica.t).

Lemma overlaid_id inflight spec r : Replica.id (overlaid inflight spec r) = Replica.id r.
Proof. unfold overlaid. by destruct (is_api spec). Qed.

Lemma overlaid_started inflight spec r : Replica.started_at (overlaid inflight spec r) = Replica.started_at r.
Proof. unfold overlaid. by destruct (is_api spec). Qed.

Lemma overlay_elem inflight spec snap q : q ∈ overlay_request_capacity inflight spec snap ->
  exists r, r ∈ snap /\ q = overlaid inflight spec r.
Proof. intros (r & -> & Hr)%list_elem_of_fmap. eauto. Qed.

(** Replica [r] stays registered, and its in-flight gauge is left alone. *)
Definition stays r w w' : Prop :=
  world_wf w -> kept w w'
    /\ (Registry.by_id (World.replicas w) !! Replica.id r = Some r ->
        Registry.by_id (World.replicas w') !! Replica.id r = Some r)
    /\ Inflight.inflight_count (World.inflight w') (Replica.id r) = Inflight.inflight_count (World.inflight w) (Replica.id r).

#[local] Instance stays_preorder r : PreOrder (stays r).
Proof.
  split.
  - intros w Hw. split; [by apply (reflexivity (R := sound))|done].
  - intros w1 w2 w3 H12 H23 Hw. destruct (H12 Hw) as (Hk2 & Hr2 & Hf2).
    destruct (H23 (kept_wf _ _ Hk2)) as (Hk3 & Hr3 & Hf3).
    split; [apply (transitivity (R := sound) (y := w2)); by try intros _|]. split; [auto|congruence].
Qed.

Lemma stays_same r w w' : World.replicas w' = World.replicas w -> World.backend w' = World.backend w ->
  World.inflight w' = World.inflight w -> stays r w w'.
Proof. intros Hr Hb Hf Hw. split; [by apply sound_same|]. by rewrite Hr, Hf. Qed.

Lemma stop_one_stays r i : i <> Replica.id r -> preserves (stays r) (stop_one i).
Proof.
  intros Hi w Hw. split; [by apply sound_stop_one|].
  assert (quiet (Replica.id r) w (stop_one i w).2) as Hq.
  { unfold stop_one. apply (preserves_bind (quiet (Replica.id r))); [apply call_backend_quiet|]. intros res.
    apply preserves_bind; [apply _|by apply cleanup_quiet|]. intros _. apply preserves_ret, _. }
  destruct (Hq (world_registry _ Hw)) as [_ [Hr _ _ Hf]]. split; [by rewrite Hr|done].
Qed.

Lemma spawn_one_inflight env spec intent w : World.inflight (spawn_one env spec intent w).2 = World.inflight w.
Proof.
  unfold spawn_one, st_bind, lock_entry, st_modify, st_get, st_ret.
  destruct (spawn_refused _ _ _); [by destruct w|]. destruct (capacity_request env spec) as [req|e]; [|by destruct w].
  unfold call_backend. cbn [World.backend World.set_spawn_locks].
  destruct (World.backend w) as [b|]; [|by destruct w]. by destruct (spawn_request req b) as [[q|e] b'].
Qed.

Lemma spawn_one_stays r env spec intent : preserves (stays r) (spawn_one env spec intent).
Proof.
  intros w Hw. split; [by apply sound_spawn_one|]. split; [|by rewrite spawn_one_inflight].
  destruct (spawn_one env spec intent w) as [res w'] eqn:E. cbn [snd].
  apply spawn_one_spec in E as [[Hr|(q & _ & Hsp & Hr & _)] _]; [by rewrite Hr| |done]. intros Hl.
  rewrite Hr, Registry.by_id_add; [|apply Hw|by destruct Hsp].
  rewrite lookup_insert_ne; [done|]. intros Heq. destruct Hsp as [_ _ _ _ Hfr]. congruence.
Qed.

Lemma notify_stays r clk event : preserves (stays r) (notify_alert clk event).
Proof. intros w. by apply stays_same. Qed.

Lemma log_spawn_failure_stays r clk hash spec_id phase err :
  preserves (stays r) (log_spawn_failure clk hash spec_id phase err).
Proof.
  intros w. unfold log_spawn_failure. destruct (FailureLog.observe _ _ _ _) as [[c|c] inner]; by apply stays_same.
Qed.

Lemma spawn_up_stays r clk env spec n : preserves (stays r) (spawn_up clk env spec n).
Proof.
  induction n as [|n IH]; cbn [spawn_up]; [apply preserves_ret, _|].
  apply preserves_bind; [apply _|by apply spawn_one_stays|]. intros [u|e]; [|apply log_spawn_failure_stays].
  apply preserves_bind; [apply _|intros w; by apply stays_same|done].
Qed.

Abbreviation ok r c := (preserves (on_world (stays r)) c).

Lemma drop_each_stays r rs : (forall q, q ∈ rs -> Replica.id q <> Replica.id r) -> ok r (drop_each rs).
Proof.
  induction rs as [|q rs IH]; intros Hrs; cbn [drop_each]; [apply preserves_ret, _|].
  apply preserves_bind; [apply _|apply preserves_lift, stop_one_stays, Hrs; left|]. intros res.
  apply preserves_bind; [apply _|by apply preserves_local; [apply _|]|]. intros _.
  apply preserves_bind; [apply _|apply IH; intros x Hx; apply Hrs; by right|]. intros b. apply preserves_ret, _.
Qed.

(** The passes cannot retire [r] on sight of [snap]. *)
Definition shielded (snap : list Replica.t) r : Prop :=
  forall q, q ∈ snap -> Replica.id q = Replica.id r -> Replica.sessions_active q <> 0.

Lemma scale_up_saturated_stays r clk env p spec cooling : ok r (scale_up_saturated clk env p spec cooling).
Proof.
  unfold scale_up_saturated. destruct cooling; [by apply preserves_local; [apply _|]|].
  apply preserves_bind; [apply _|by apply preserves_local; [apply _|]|]. intros n.
  destruct (_ <=? n); [|apply preserves_ret, _].
  apply preserves_bind; [apply _| |intros _; by apply preserves_local; [apply _|]].
  apply preserves_lift, preserves_bind; [apply _|apply spawn_one_stays|].
  intros [u|e]; [intros w; by apply stays_same|apply log_spawn_failure_stays].
Qed.

Lemma drop_candidates_shielded p spec snap idle r q : shielded snap r ->
  q ∈ drop_candidates p spec snap idle -> Replica.id q <> Replica.id r.
Proof.
  intros Hsh. unfold drop_candidates. destruct (underutilized _ _); [|by intros ?%not_elem_of_nil].
  intros Hq%subseteq_take. apply filter_elem in Hq as [Hq Hd]. intros Hid. apply (Hsh q Hq Hid).
  unfold droppable in Hd. bool_split. done.
Qed.

Lemma scale_down_stays r p spec snap : shielded snap r -> ok r (scale_down p spec snap).
Proof.
  intros Hsh. unfold scale_down. destruct (_ <? _); [|apply preserves_ret, _].
  apply preserves_bind; [apply _|apply preserves_get, _|]. intros idle.
  apply preserves_bind; [apply _|apply drop_each_stays; intros q Hq; by eapply drop_candidates_shielded|].
  intros stopped. destruct (_ && _); [by apply preserves_local; [apply _|]|apply preserves_ret, _].
Qed.

Lemma scale_pool_stays r clk env p spec cooling snap : shielded snap r -> ok r (scale_pool clk env p spec cooling snap).
Proof.
  intros Hsh. unfold scale_pool. destruct (_ <? _).
  { apply preserves_bind; [apply _|by apply preserves_lift, spawn_up_stays|]. intros _.
    by apply preserves_local; [apply _|]. }
  destruct (_ && _); [by apply scale_up_saturated_stays|].
  apply preserves_bind; [apply _| |intros _].
  { destruct (_ && _); [apply preserves_lift, notify_stays|apply preserves_ret, _]. }
  apply preserves_bind; [apply _|by apply preserves_local; [apply _|]|]. intros _. by apply scale_down_stays.
Qed.

(** A replica seen busy is past its lifetime only by the hard cap and the
    drain window. *)
Lemma past_lifetime_busy now hard soft drain r : Replica.sessions_active r <> 0 ->
  past_lifetime now hard soft drain r = true <->
  exists cap, hard = Some cap /\ i64_saturating_add cap drain <= num_seconds (now - Replica.started_at r).
Proof.
  intros Hb. unfold past_lifetime. rewrite (proj2 (Z.eqb_neq _ _) Hb).
  assert (match soft with Some cap => (cap <=? num_seconds (now - Replica.started_at r)) && false | None => false end
          = false) as -> by (destruct soft; [apply andb_false_r|done]).
  rewrite orb_false_r. destruct hard as [cap|].
  - rewrite Z.leb_le. split; [eauto|]. intros (c & [= <-] & Hc). done.
  - split; [done|]. by intros (c & ? & _).
Qed.

Lemma reap_candidates_elem snap now hard soft drain i :
  i ∈ lifetime_reap_candidates snap now hard soft drain ->
  exists q, q ∈ snap /\ Replica.id q = i /\ past_lifetime now hard soft drain q = true.
Proof.
  unfold lifetime_reap_candidates. intros Hi.
  assert (i ∈ map Replica.id (List.filter (past_lifetime now hard soft drain) snap)) as Hm
    by (destruct hard, soft; done || by apply not_elem_of_nil in Hi).
  apply list_elem_of_fmap in Hm as (q & -> & [Hq Hp]%filter_elem). eauto.
Qed.
End Drops.

#[export] Existing Instance stays_preorder.

Section SpecPass.
Context {B : Type} `{ContainerBackendLaws B}.
Implicit Types (w : World.t B) (s : Tick.t B) (clk : Clock.t B) (spec : Spec.t) (r : Replica.t).

(** A registered replica, as the scaler sees it: sessions for a seat-based
    app, requests in flight for an API. *)
Definition registered_busy spec r w : Prop :=
  world_wf w /\ Registry.by_id (World.replicas w) !! Replica.id r = Some r
  /\ Replica.sessions_active (overlaid (World.inflight w) spec r) <> 0.

Lemma registered_busy_stays spec r w w' : stays r w w' -> registered_busy spec r w -> registered_busy spec r w'.
Proof.
  intros Hs (Hw & Hr & Hb). destruct (Hs Hw) as (Hk & Hr' & Hf). split; [by destruct Hk|]. split; [auto|].
  unfold overlaid in *. by rewrite Hf.
Qed.

Lemma overlaid_pool_same spec r w q :
  world_wf w -> Registry.by_id (World.replicas w) !! Replica.id r = Some r ->
  q ∈ overlay_request_capacity (World.inflight w) spec (World.pool w (Spec.id spec)) ->
  Replica.id q = Replica.id r -> q = overlaid (World.inflight w) spec r.
Proof.
  intros Hw Hr (r0 & Hr0 & ->)%overlay_elem. rewrite overlaid_id. intros Hid.
  apply (pool_elem w _ _ (world_registry _ Hw)) in Hr0 as [Hr0 _]. congruence.
Qed.

Lemma read_pool_shielded spec r s : registered_busy spec r (Tick.world s) -> shielded (read_pool spec s).1 r.
Proof. intros (Hw & Hr & Hb) q Hq Hid. by rewrite (overlaid_pool_same spec r (Tick.world s) q). Qed.

Lemma reap_aged_stays clk spec r s :
  registered_busy spec r (Tick.world s) ->
  (forall cap, Spec.effective_max_lifetime_secs spec = Some cap ->
     num_seconds (Clock.utc clk (Tick.world s) - Replica.started_at r)
     < i64_saturating_add cap (Spec.effective_drain_timeout_secs spec)) ->
  let '(snap, s') := reap_aged clk spec (read_pool spec s).1 s in
  on_world (stays r) s s' /\ shielded snap r.
Proof.
  intros Hbusy Hcap. pose proof (read_pool_shielded spec r s Hbusy) as Hsh.
  unfold reap_aged, st_bind at 1, st_get. destruct (lifetime_reap_candidates _ _ _ _ _) as [|i0 aged0] eqn:Ea.
  { cbn. split; [reflexivity|done]. }
  set (aged := i0 :: aged0) in *.
  assert (forall i, i ∈ aged -> i <> Replica.id r) as Hne.
  { intros i. rewrite <- Ea. intros (q & Hq & <- & Hp)%reap_candidates_elem Hid.
    apply past_lifetime_busy in Hp as (cap & Hc & Hage); [|by apply Hsh].
    destruct Hbusy as (Hw & Hr & _). rewrite (overlaid_pool_same spec r (Tick.world s) q Hw Hr Hq Hid) in Hage.
    rewrite overlaid_started in Hage. specialize (Hcap cap Hc). lia. }
  match goal with |- context [st_bind ?loop _ s] => assert (preserves (on_world (stays r)) loop) as Hloop end.
  { apply preserves_for; [apply _|]. intros i Hi.
    apply preserves_bind; [apply _|apply preserves_lift, stop_one_stays; by apply Hne|]. intros _.
    by apply preserves_local; [apply _|]. }
  unfold st_bind. specialize (Hloop s). destruct (st_for aged _ s) as [u s1]. cbn [snd] in Hloop.
  pose proof (read_pool_shielded spec r s1 (registered_busy_stays spec r _ _ Hloop Hbusy)) as Hsh1.
  unfold read_pool in *. by split.
Qed.

Lemma scale_spec_stays clk env p spec r s :
  registered_busy spec r (Tick.world s) ->
  (forall cap, Spec.effective_max_lifetime_secs spec = Some cap ->
     num_seconds (Clock.utc clk (Tick.world (take_cooldown (Spec.id spec) s).2) - Replica.started_at r)
     < i64_saturating_add cap (Spec.effective_drain_timeout_secs spec)) ->
  on_world (stays r) s (scale_spec clk env p spec s).2.
Proof.
  intros Hbusy Hcap. unfold scale_spec. destruct (_ || _); [cbn; reflexivity|].
  unfold st_bind at 1. pose proof (eq_refl : Tick.world (take_cooldown (Spec.id spec) s).2 = Tick.world s) as Hsame.
  destruct (take_cooldown (Spec.id spec) s) as [cooling s1]. cbn [snd] in *.
  transitivity s1; [unfold on_world; by rewrite Hsame|]. rewrite <- Hsame in Hbusy.
  pose proof (reap_aged_stays clk spec r s1 Hbusy Hcap) as Hreap.
  unfold st_bind at 1. change (read_pool spec s1) with ((read_pool spec s1).1, s1). cbv beta iota.
  unfold st_bind. destruct (reap_aged clk spec _ s1) as [snap s2]. destruct Hreap as [H12 Hsh].
  etransitivity; [exact H12|]. by apply scale_pool_stays.
Qed.

(** *** The floor *)

(** The pool of [k] loses at most [n] replicas. *)
Definition loses (n : Z) (k : string) w w' : Prop :=
  world_wf w -> kept w w' /\ zlen (World.pool w k) - n <= zlen (World.pool w' k).

Lemma loses_trans n1 n2 k w1 w2 w3 : loses n1 k w1 w2 -> loses n2 k w2 w3 -> loses (n1 + n2) k w1 w3.
Proof.
  intros H12 H23 Hw. destruct (H12 Hw) as [Hk2 Hl2]. destruct (H23 (kept_wf _ _ Hk2)) as [Hk3 Hl3].
  split; [|lia]. apply (transitivity (R := sound) (y := w2)); by try intros _.
Qed.

#[local] Instance loses_none_preorder k : PreOrder (loses 0 k).
Proof.
  split.
  - intros w Hw. split; [by apply (reflexivity (R := sound))|lia].
  - intros w1 w2 w3 H12 H23. by apply (loses_trans 0 0 k w1 w2 w3).
Qed.

Lemma loses_same k w w' : World.replicas w' = World.replicas w -> World.backend w' = World.backend w -> loses 0 k w w'.
Proof. intros Hr Hb Hw. split; [by apply sound_same|]. unfold World.pool. rewrite Hr. lia. Qed.

Lemma stop_one_loses k i : preserves (loses 1 k) (stop_one i).
Proof.
  intros w Hw. split; [by apply sound_stop_one|].
  pose proof (stop_one_spec i w (world_registry _ Hw)) as Hs. destruct (stop_one i w) as [res w'].
  destruct Hs as (_ & _ & _ & Hp & _). cbn [snd]. rewrite Hp. unfold zlen.
  assert (length (World.pool w k) <= S (length (remove_first (has_id i) (World.pool w k))))%nat; [|lia].
  induction (World.pool w k) as [|x l IH]; cbn; [lia|]. destruct (has_id i x); cbn; lia.
Qed.

Lemma spawn_one_loses k env spec intent : preserves (loses 0 k) (spawn_one env spec intent).
Proof.
  intros w Hw. split; [by apply sound_spawn_one|].
  destruct (spawn_one env spec intent w) as [res w'] eqn:E. cbn [snd].
  apply spawn_one_spec in E as [[Hr|(r & _ & _ & Hr & _)] _]; [| |done]; unfold World.pool; rewrite Hr; [lia|].
  rewrite Registry.replicas_of_add. unfold zlen. case_decide; rewrite ?length_app; lia.
Qed.

Lemma log_spawn_failure_loses k clk hash spec_id phase err :
  preserves (loses 0 k) (log_spawn_failure clk hash spec_id phase err).
Proof.
  intros w. unfold log_spawn_failure. destruct (FailureLog.observe _ _ _ _) as [[c|c] inner]; by apply loses_same.
Qed.

Lemma spawn_up_loses k clk env spec n : preserves (loses 0 k) (spawn_up clk env spec n).
Proof.
  induction n as [|n IH]; cbn [spawn_up]; [apply preserves_ret, _|].
  apply preserves_bind; [apply _|by apply spawn_one_loses|]. intros [u|e]; [|apply log_spawn_failure_loses].
  apply preserves_bind; [apply _|intros w; by apply loses_same|done].
Qed.

Lemma drop_each_loses k rs s : on_world (loses (zlen rs) k) s (drop_each rs s).2.
Proof.
  revert s; induction rs as [|r rs IH]; intros s; cbn [drop_each]; [by apply loses_same|].
  unfold st_bind at 1. pose proof (preserves_lift (loses 1 k) (stop_one (Replica.id r)) (stop_one_loses k _) s) as H1.
  destruct (lift (stop_one (Replica.id r)) s) as [res s1]. cbn [snd] in H1.
  unfold st_bind at 1, forget_idle, st_modify. set (s2 := Tick.set_idle _ s1).
  specialize (IH s2). unfold st_bind. destruct (drop_each rs s2) as [b s3]. cbn [snd] in *.
  unfold on_world in *. replace (zlen (r :: rs)) with (1 + zlen rs) by (unfold zlen; cbn [length]; lia).
  eapply loses_trans; [exact H1|exact IH].
Qed.

Lemma drop_candidates_length p spec snap idle :
  Spec.effective_min_replicas spec <= zlen snap ->
  zlen (drop_candidates p spec snap idle) <= zlen snap - Spec.effective_min_replicas spec.
Proof.
  intros Hmin. unfold drop_candidates. destruct (underutilized _ _); [|unfold zlen in *; cbn; lia].
  unfold zlen in *. rewrite length_take. lia.
Qed.

Lemma scale_down_floor p spec snap s :
  zlen snap = zlen (World.pool (Tick.world s) (Spec.id spec)) -> world_wf (Tick.world s) ->
  Z.min (zlen snap) (Spec.effective_min_replicas spec)
  <= zlen (World.pool (Tick.world (scale_down p spec snap s).2) (Spec.id spec)).
Proof.
  intros Hlen Hw. unfold scale_down. destruct (_ <? _) eqn:Emin; [|cbn [snd st_ret]; lia]. bool_split.
  unfold st_bind at 1, st_get. unfold st_bind.
  pose proof (drop_each_loses (Spec.id spec) (drop_candidates p spec snap (Tick.idle_ticks s)) s Hw) as [_ Hl].
  pose proof (drop_candidates_length p spec snap (Tick.idle_ticks s)) as Hd.
  destruct (drop_each _ s) as [b s1]. cbn [snd] in Hl.
  assert (forall s2, Tick.world s2 = Tick.world s1 -> Z.min (zlen snap) (Spec.effective_min_replicas spec)
    <= zlen (World.pool (Tick.world s2) (Spec.id spec))) as Hdone by (intros s2 ->; lia).
  destruct (_ && _); apply Hdone; done.
Qed.
End SpecPass.

(** ** Properties *)

Module ScalerProperties.
Section Properties.
Context {B : Type} `{ContainerBackendLaws B}.
Implicit Types (w : World.t B) (s : Tick.t B) (clk : Clock.t B) (spec : Spec.t) (r : Replica.t).

(** A tick respects every ceiling: whatever the liveness pass re-adopts
    and the scale passes spawn, no app's pool ends larger than the app's
    effective maximum, or than it was; and the tick keeps the world's
    invariant. *)
Theorem tick_within_max show clk order env p specs spec s :
  world_wf (Tick.world s) -> NoDup (map Spec.id specs) -> spec ∈ specs ->
  let s' := (tick_with_interval show clk order env p specs s).2 in
  world_wf (Tick.world s')
  /\ zlen (World.pool (Tick.world s') (Spec.id spec))
     <= Z.max (zlen (World.pool (Tick.world s) (Spec.id spec))) (Spec.effective_max_replicas spec).
Proof.
  intros Hw Hnd Hin. destruct (tick_bounded show clk order env p specs (Spec.id spec) spec Hnd Hin eq_refl s Hw) as [Hk Hl].
  split; [apply Hk|exact Hl].
Qed.

(** C7. The scaler never retires a replica in use: a replica it sees with
    a session, or with a request in flight for an API, is still registered
    after the app's passes, unless it has outlived the hard lifetime cap and
    the drain window on top of it. *)
Theorem busy_replica_survives clk env p spec r s :
  registered_busy spec r (Tick.world s) ->
  (forall cap, Spec.effective_max_lifetime_secs spec = Some cap ->
     num_seconds (Clock.utc clk (Tick.world s) - Replica.started_at r)
     < i64_saturating_add cap (Spec.effective_drain_timeout_secs spec)) ->
  Registry.by_id (World.replicas (Tick.world (scale_spec clk env p spec s).2)) !! Replica.id r = Some r.
Proof.
  intros Hbusy Hcap. pose proof (scale_spec_stays clk env p spec r s Hbusy Hcap) as Hs.
  destruct Hbusy as (Hw & Hr & _). destruct (Hs Hw) as (_ & Hr' & _). auto.
Qed.

Lemma read_pool_length spec s : zlen (read_pool spec s).1 = zlen (World.pool (Tick.world s) (Spec.id spec)).
Proof. unfold read_pool, overlay_request_capacity, zlen. cbn [fst]. by rewrite length_map. Qed.

(** The passes of a spec without lifetime caps. *)
Lemma scale_spec_uncapped clk env p spec s :
  Spec.effective_max_lifetime_secs spec = None -> Spec.effective_container_lifetime_secs spec = None ->
  (scale_spec clk env p spec s).2 = s
  \/ let '(cooling, s1) := take_cooldown (Spec.id spec) s in
     scale_spec clk env p spec s = scale_pool clk env p spec cooling (read_pool spec s).1 s1.
Proof.
  intros Hh Hs. unfold scale_spec. destruct (_ || _); [by left|right].
  unfold st_bind at 1. destruct (take_cooldown (Spec.id spec) s) as [cooling s1] eqn:Et.
  assert (Tick.world s1 = Tick.world s) as Hw by (unfold take_cooldown in Et; by injection Et as _ <-).
  unfold st_bind, read_pool, reap_aged, st_bind, st_get, lifetime_reap_candidates. by rewrite Hh, Hs, Hw.
Qed.

Lemma scale_pool_floor clk env p spec cooling snap s :
  zlen snap = zlen (World.pool (Tick.world s) (Spec.id spec)) -> world_wf (Tick.world s) ->
  Z.min (zlen snap) (Spec.effective_min_replicas spec)
  <= zlen (World.pool (Tick.world (scale_pool clk env p spec cooling snap s).2) (Spec.id spec)).
Proof.
  intros Hlen Hw. set (k := Spec.id spec) in *.
  assert (forall A (c : St (Tick.t B) A), preserves (on_world (loses 0 k)) c ->
    Z.min (zlen snap) (Spec.effective_min_replicas spec) <= zlen (World.pool (Tick.world (c s).2) k)) as Hno.
  { intros A c Hc. destruct (Hc s Hw) as [_ Hl]. lia. }
  pose proof (loses_none_preorder (B := B) k) as Hpre.
  assert (forall A (c : St (Tick.t B) A), (forall s0, Tick.world (c s0).2 = Tick.world s0) ->
    preserves (on_world (loses 0 k)) c) as Hlocal by (intros A c; by apply preserves_local).
  unfold scale_pool. destruct (_ <? _).
  { apply Hno, preserves_bind; [apply _|apply preserves_lift, spawn_up_loses|]. intros _. by apply Hlocal. }
  destruct (_ && _).
  { apply Hno. unfold scale_up_saturated. destruct cooling; [by apply Hlocal|].
    apply preserves_bind; [apply _|by apply Hlocal|]. intros n. destruct (_ <=? n); [|by apply Hlocal].
    apply preserves_bind; [apply _| |intros _; by apply Hlocal].
    apply preserves_lift, preserves_bind; [apply _|apply spawn_one_loses|].
    intros [u|e]; [intros w; by apply loses_same|apply log_spawn_failure_loses]. }
  assert (forall A (c : St (Tick.t B) A) s0, (forall s1, World.replicas (Tick.world (c s1).2) = World.replicas (Tick.world s1)
    /\ World.backend (Tick.world (c s1).2) = World.backend (Tick.world s1)) ->
    zlen snap = zlen (World.pool (Tick.world s0) k) -> world_wf (Tick.world s0) ->
    zlen snap = zlen (World.pool (Tick.world (c s0).2) k) /\ world_wf (Tick.world (c s0).2)) as Hsame.
  { intros A c s0 Hc Hl Hw0. destruct (Hc s0) as [Hr Hb]. split; [unfold World.pool; by rewrite Hr|].
    by apply (sound_same _ _ Hr Hb). }
  unfold st_bind at 1. match goal with |- context [(if ?b then ?x else ?y) s] => set (alert := if b then x else y) end.
  destruct (Hsame _ alert s) as [Hl1 Hw1]; [|done|done|].
  { intros s1. unfold alert. destruct (_ && _); [|done]. unfold lift. cbn. by destruct (Tick.world s1). }
  destruct (alert s) as [u s1]. cbn [snd] in Hl1, Hw1. unfold st_bind, clear_saturation, st_modify.
  by apply scale_down_floor.
Qed.

(** Scaling down stops at the floor: for an app without lifetime caps,
    a tick never leaves the pool below the smaller of its size and the app's
    effective minimum. *)
Theorem scale_spec_keeps_min clk env p spec s :
  world_wf (Tick.world s) ->
  Spec.effective_max_lifetime_secs spec = None -> Spec.effective_container_lifetime_secs spec = None ->
  Z.min (zlen (World.pool (Tick.world s) (Spec.id spec))) (Spec.effective_min_replicas spec)
  <= zlen (World.pool (Tick.world (scale_spec clk env p spec s).2) (Spec.id spec)).
Proof.
  intros Hw Hh Hs. destruct (scale_spec_uncapped clk env p spec s Hh Hs) as [->|Heq]; [lia|].
  pose proof (eq_refl : Tick.world (take_cooldown (Spec.id spec) s).2 = Tick.world s) as Hsame.
  destruct (take_cooldown (Spec.id spec) s) as [cooling s1]. cbn [snd] in Hsame. rewrite Heq.
  pose proof (scale_pool_floor clk env p spec cooling (read_pool spec s).1 s1) as Hf.
  rewrite read_pool_length in Hf. rewrite Hsame in Hf. by apply Hf.
Qed.

(** The saturation streak a saturated tick reaches. *)
Definition streak spec s : Z :=
  match Tick.saturation_ticks s !! Spec.id spec with Some n => as_u32 (n + 1) | None => 1 end.

Lemma log_spawn_failure_replicas clk hash spec_id phase err w :
  World.replicas (log_spawn_failure clk hash spec_id phase err w).2 = World.replicas w.
Proof. unfold log_spawn_failure. by destruct (FailureLog.observe _ _ _ _) as [[c|c] inner]. Qed.

Lemma scale_up_grows clk env p spec cooling s u s' :
  let k := Spec.id spec in
  world_wf (Tick.world s) -> scale_up_saturated clk env p spec cooling s = (u, s') ->
  zlen (World.pool (Tick.world s) k) < zlen (World.pool (Tick.world s') k) ->
  cooling = false /\ Tick.spawn_after_saturated_ticks p <= streak spec s
  /\ zlen (World.pool (Tick.world s') k) = zlen (World.pool (Tick.world s) k) + 1
  /\ Tick.saturation_ticks s' !! k = None.
Proof.
  intros k Hw. unfold scale_up_saturated. destruct cooling; [intros [= _ <-]; cbn; lia|].
  unfold st_bind at 1. fold (streak spec s). set (s1 := Tick.set_saturation _ s).
  destruct (_ <=? streak spec s) eqn:Est; [|intros [= _ <-]; cbn; lia]. bool_split.
  unfold lift, clear_saturation, st_modify, st_bind. change (Tick.world s1) with (Tick.world s).
  destruct (spawn_one env spec AddCapacity (Tick.world s)) as [res w1] eqn:Es.
  assert (forall w2, World.replicas w2 = World.replicas w1 ->
    zlen (World.pool (Tick.world s) k) < zlen (World.pool w2 k) ->
    zlen (World.pool w2 k) = zlen (World.pool (Tick.world s) k) + 1) as Hone.
  { intros w2 Hr2. unfold World.pool. rewrite Hr2.
    apply spawn_one_spec in Es as [[Hr|(r & _ & Hsp & Hr & _)] _]; [| |done]; rewrite Hr; [lia|].
    destruct Hsp as [Hid _ _ _ _]. rewrite Registry.replicas_of_add, decide_True by done. unfold zlen.
    rewrite length_app. cbn [length]. lia. }
  destruct res as [v|e]; [|pose proof (log_spawn_failure_replicas clk (Env.hash env) (Spec.id spec) "saturation" e w1) as Hlog;
    destruct (log_spawn_failure _ _ _ _ _ w1) as [v w2]]; intros [= _ <-]; cbn [Tick.world Tick.set_world Tick.set_saturation];
    intros Hlt; (split; [done|]); (split; [done|]); (split; [|apply lookup_delete_eq]); by apply Hone.
Qed.

(** Spawning for load is damped on both sides: when a tick grows a
    pool that has its minimum (and no lifetime caps), the app was not cooling
    down after a drop, was below its maximum with its scale-up rule triggered,
    had been so for the full run of consecutive ticks, and gets exactly one
    replica, after which the run starts over. *)
Theorem load_spawn_needs_streak clk env p spec s :
  let k := Spec.id spec in let s' := (scale_spec clk env p spec s).2 in
  world_wf (Tick.world s) ->
  Spec.effective_max_lifetime_secs spec = None -> Spec.effective_container_lifetime_secs spec = None ->
  Spec.effective_min_replicas spec <= zlen (World.pool (Tick.world s) k) ->
  zlen (World.pool (Tick.world s) k) < zlen (World.pool (Tick.world s') k) ->
  default 0 (Tick.cooldown s !! k) <= 0
  /\ zlen (World.pool (Tick.world s) k) < Spec.effective_max_replicas spec
  /\ scale_up_triggered (read_pool spec s).1 (Spec.effective_scale_up_threshold spec) = true
  /\ Tick.spawn_after_saturated_ticks p <= streak spec s
  /\ zlen (World.pool (Tick.world s') k) = zlen (World.pool (Tick.world s) k) + 1
  /\ Tick.saturation_ticks s' !! k = None.
Proof.
  intros k s' Hw Hh Hsoft Hmin Hlt. unfold s' in *.
  destruct (scale_spec_uncapped clk env p spec s Hh Hsoft) as [Heq|Heq]; [rewrite Heq in Hlt; lia|].
  unfold take_cooldown in Heq. set (s1 := Tick.set_cooldown _ s) in Heq. rewrite Heq in *. clear Heq s'.
  change (Tick.world s) with (Tick.world s1) in Hlt, Hw, Hmin |- *.
  assert (zlen (read_pool spec s).1 = zlen (World.pool (Tick.world s1) k)) as Hlen
    by (rewrite read_pool_length; reflexivity).
  unfold scale_pool in *. rewrite Hlen in *. rewrite (proj2 (Z.ltb_ge _ _) Hmin) in *.
  destruct (_ && scale_up_triggered _ _) eqn:Eup.
  - bool_split. destruct (scale_up_saturated _ _ _ _ _ s1) as [u s2] eqn:Esat. cbn [snd] in *.
    destruct (scale_up_grows clk env p spec _ s1 u s2 Hw Esat Hlt) as (Hcool & Hst & Hone & Hclr).
    split; [by apply Z.ltb_ge|]. by repeat split.
  - exfalso. match type of Hlt with _ < zlen (World.pool (Tick.world (?prog s1).2) k) =>
      assert (preserves (on_world (bounded 0 k)) prog) as Hb end.
    { apply preserves_bind; [apply _| |intros _].
      - case_match; [apply preserves_lift, notify_bounded|apply preserves_ret, _].
      - apply preserves_bind; [apply _|by apply preserves_local; [apply _|]|]. intros _. apply scale_down_bounded. }
    destruct (Hb s1 Hw) as [_ Hle]. unfold zlen in *. lia.
Qed.

(** The flags of consecutive ticks of one spec. *)
Fixpoint cooling_flags (n : nat) (k : string) s : list bool :=
  match n with
  | O => []
  | S n' => let '(flag, s') := take_cooldown k s in flag :: cooling_flags n' k s'
  end.

Lemma cooling_flags_none n k s : Tick.cooldown s !! k = None -> cooling_flags n k s = repeat false n.
Proof.
  revert s; induction n as [|n IH]; intros s Hs; [done|]. cbn [cooling_flags]. unfold take_cooldown. rewrite Hs.
  cbn [repeat]. f_equal. by apply IH.
Qed.

(** A cooldown of [N] ticks suppresses exactly [N]: the flag that
    holds back saturation spawns reads true on the [N] ticks after a drop and
    false afterwards; and the ticks cover the configured seconds. *)
Theorem cooldown_lasts n extra k s :
  (0 < n)%nat -> Tick.cooldown s !! k = Some (Z.of_nat n) ->
  cooling_flags (n + extra) k s = repeat true n ++ repeat false extra.
Proof.
  intros Hn. revert s. induction n as [|n IH]; intros s Hs; [lia|].
  cbn [Nat.add cooling_flags]. unfold take_cooldown at 1. rewrite Hs. cbn [default].
  rewrite (proj2 (Z.ltb_lt _ _)) by (cbn; lia). cbn [repeat app]. f_equal.
  rewrite saturating_sub_1 by lia. replace (Z.of_nat (S n) - 1) with (Z.of_nat n) by lia.
  destruct n as [|n].
  - cbn [Nat.add repeat app]. apply cooling_flags_none. apply lookup_delete_eq.
  - rewrite (proj2 (Z.eqb_neq _ _)) by lia. apply IH; [lia|]. apply lookup_insert_eq.
Qed.

Lemma count_idle_other now idle r i : Replica.id r <> i -> count_idle now idle r !! i = idle !! i.
Proof.
  intros Hne. unfold count_idle. destruct (_ && _); [by apply lookup_insert_ne|by apply lookup_delete_ne].
Qed.

Lemma count_idle_fold_other now snap idle i :
  i ∉ (Replica.id <$> snap) -> foldl (count_idle now) idle snap !! i = idle !! i.
Proof.
  revert idle; induction snap as [|r snap IH]; intros idle Hi; [done|]. cbn [foldl].
  apply not_elem_of_cons in Hi as [Hne Hi]. rewrite IH by done. by apply count_idle_other.
Qed.

(** Idle for the scaler: without a session, and past its first minute. *)
Definition counts_as_idle now r : bool :=
  (Replica.sessions_active r =? 0) && negb (now - Replica.started_at r <? from_secs YOUNG_REPLICA_GRACE_SECS).

Lemma count_idle_fold now snap idle i :
  NoDup (Replica.id <$> snap) ->
  foldl (count_idle now) idle snap !! i
  = match List.find (has_id i) snap with
    | Some r => if counts_as_idle now r then Some (as_u32 (default 0 (idle !! i) + 1)) else None
    | None => idle !! i
    end.
Proof.
  revert idle; induction snap as [|r snap IH]; intros idle Hnd; [done|].
  inversion_clear Hnd as [|? ? Hr Hnd']. cbn [foldl List.find]. destruct (has_id i r) eqn:Ei.
  - apply Registry.has_id_spec in Ei. subst i. rewrite count_idle_fold_other by done.
    unfold count_idle. fold (counts_as_idle now r).
    destruct (counts_as_idle now r); [apply lookup_insert_eq|apply lookup_delete_eq].
  - apply Registry.has_id_false in Ei. by rewrite IH, count_idle_other.
Qed.

(** The idle counters are exact: after the accounting a replica's
    counter is one more than before when the registry shows it without a
    session past its first minute, it is gone when the replica is busy or
    young, and a replica that left the registry has none. *)
Theorem idle_ticks_exact snap now idle i :
  NoDup (Replica.id <$> snap) ->
  update_idle_ticks snap now idle !! i
  = match List.find (has_id i) snap with
    | Some r => if counts_as_idle now r then Some (as_u32 (default 0 (idle !! i) + 1)) else None
    | None => None
    end.
Proof.
  intros Hnd. unfold update_idle_ticks. rewrite count_idle_fold by done.
  destruct (List.find (has_id i) snap) as [r|] eqn:Ef.
  - apply find_elem in Ef as [Hr Hid%Registry.has_id_spec]. rewrite map_lookup_filter.
    destruct (idle !! i) as [n|]; [|done]. cbn. rewrite option_guard_True; [done|].
    rewrite <- Hid. by apply list_elem_of_fmap_2.
  - apply map_lookup_filter_None. right. intros x _. cbn. intros (r & -> & Hr)%list_elem_of_fmap.
    pose proof (find_none_elem _ _ r Ef Hr) as Hno. by apply Registry.has_id_false in Hno.
Qed.
End Properties.
End ScalerProperties.

(** ** The failure log *)

Module FailureProperties.
Import FailureLog.

(** Consecutive observations of one spec's failures: their verdicts. *)
Fixpoint verdicts (spec_id : string) (l : list (Z * Z)) (inner : gmap string FailState.t) : list (Z * verdict) :=
  match l with
  | [] => []
  | (hash, now) :: l' =>
    let '(v, inner') := observe spec_id hash now inner in (now, v) :: verdicts spec_id l' inner'
  end.

Definition is_warn (v : verdict) : bool := match v with Warn _ => true | Quiet _ => false end.

(** Consecutive warnings at least a window apart. *)
Fixpoint warnings_spaced (last : option Z) (l : list (Z * verdict)) : Prop :=
  match l with
  | [] => True
  | (now, v) :: l' =>
    if is_warn v
    then match last with Some t => t + FAILURE_WARN_WINDOW <= now | None => True end
         /\ warnings_spaced (Some now) l'
    else warnings_spaced last l'
  end.

Lemma verdicts_spaced spec_id hash nows last inner :
  (forall t, last = Some t -> exists c, inner !! spec_id = Some (FailState.mk hash c (t + FAILURE_WARN_WINDOW))) ->
  warnings_spaced last (verdicts spec_id (map (pair hash) nows) inner).
Proof.
  revert last inner; induction nows as [|now nows IH]; intros last inner Hinv; [done|].
  cbn [map verdicts]. unfold observe. destruct (inner !! spec_id) as [st|] eqn:Est.
  - destruct (FailState.hash st =? hash) eqn:Eh.
    + destruct (_ <=? now) eqn:En; bool_split; cbn [warnings_spaced is_warn].
      * split.
        -- destruct last as [t|]; [|done]. destruct (Hinv t eq_refl) as [c [= ->]]. cbn in En. done.
        -- apply IH. intros t [= <-]. eexists. rewrite lookup_insert_eq. by rewrite Eh.
      * apply IH. intros t Ht. destruct (Hinv t Ht) as [c [= ->]]. eexists. apply lookup_insert_eq.
    + cbn [warnings_spaced is_warn]. split.
      * destruct last as [t|]; [|done]. destruct (Hinv t eq_refl) as [c [= ->]]. cbn in Eh. bool_split. done.
      * apply IH. intros t [= <-]. eexists. apply lookup_insert_eq.
  - cbn [warnings_spaced is_warn]. split.
    + destruct last as [t|]; [|done]. by destruct (Hinv t eq_refl) as [c [=]].
    + apply IH. intros t [= <-]. eexists. apply lookup_insert_eq.
Qed.

(** A spec that keeps failing with the same error is reported at most once
    per window, however often it is retried. *)
Theorem same_failure_warns_once_per_window spec_id hash nows inner :
  warnings_spaced None (verdicts spec_id (map (pair hash) nows) inner).
Proof. by apply verdicts_spaced. Qed.
End FailureProperties.

(** ** Examples *)

Module ScalerExamples.
Import CountingBackend SpawnExamples LivenessExamples.

(** Two minutes after the replicas' start. *)
Definition later : Clock.t CountingBackend.t := Clock.mk (fun _ => from_secs 120) (fun _ => from_secs 120).
Definition prod : Tick.params := Tick.production DEFAULT_INTERVAL.
Definition at_rest (w : World.t CountingBackend.t) : Tick.t CountingBackend.t := Tick.mk w ∅ ∅ ∅.

Definition run_tick (specs : list Spec.t) (s : Tick.t CountingBackend.t) : Tick.t CountingBackend.t :=
  (tick_with_interval no_show later HashOrder.sorted example_env prod specs s).2.

(** One full replica, and a saturated tick already counted. *)
Definition saturated_once : Tick.t CountingBackend.t := Tick.mk busy ∅ {["a" := 1]} ∅.

Lemma tick_within_max_witness :
  length (World.pool (Tick.world (run_tick [app] saturated_once)) "a") = 2%nat
  /\ zlen (World.pool (Tick.world (run_tick [app] saturated_once)) "a") <= 2.
Proof.
  split; [vm_compute; reflexivity|].
  refine (proj2 (ScalerProperties.tick_within_max no_show later HashOrder.sorted example_env prod [app] app
                   saturated_once _ _ _)).
  - apply (numbered_wf [rep 1 ReplicaState.Ready 2] 5). reflexivity.
  - apply (bool_decide_unpack _). vm_compute. exact I.
  - left.
Defined.

Lemma busy_replica_survives_witness :
  Registry.by_id (World.replicas (Tick.world (scale_spec later example_env prod app (at_rest roomy)).2)) !! 1%N
  = Some (rep 1 ReplicaState.Ready 1).
Proof.
  apply (ScalerProperties.busy_replica_survives later example_env prod app (rep 1 ReplicaState.Ready 1) (at_rest roomy)).
  - split; [apply (numbered_wf [rep 1 ReplicaState.Ready 1] 5); reflexivity|]. split; [vm_compute; reflexivity|].
    vm_compute. discriminate.
  - intros cap Hcap. vm_compute in Hcap. discriminate.
Defined.

(** Two idle replicas, idle for long; the app keeps none. *)
Definition spare : Tick.t CountingBackend.t :=
  Tick.mk (world [rep 1 ReplicaState.Ready 0; rep 2 ReplicaState.Ready 0] 5) {[1%N := 9; 2%N := 9]} ∅ ∅.
Definition one_kept : Spec.t := Spec.sample "a" (Some "img") None None (Some 2) (Some 1) (Some 2).

Lemma scale_spec_keeps_min_witness :
  let pool := World.pool (Tick.world (scale_spec later example_env prod one_kept spare).2) "a" in
  pool = [rep 2 ReplicaState.Ready 0] /\ 1 <= zlen pool.
Proof.
  split; [vm_compute; reflexivity|].
  pose proof (ScalerProperties.scale_spec_keeps_min later example_env prod one_kept spare) as H.
  change (Z.min (zlen (World.pool (Tick.world spare) (Spec.id one_kept))) (Spec.effective_min_replicas one_kept)) with 1 in H.
  apply H; [|reflexivity|reflexivity].
  apply (numbered_wf [rep 1 ReplicaState.Ready 0; rep 2 ReplicaState.Ready 0] 5). reflexivity.
Defined.

Lemma load_spawn_needs_streak_witness :
  DEFAULT_SATURATION_GRACE_TICKS <= ScalerProperties.streak app saturated_once
  /\ zlen (World.pool (Tick.world (scale_spec later example_env prod app saturated_once).2) "a") = 1 + 1.
Proof.
  destruct (ScalerProperties.load_spawn_needs_streak later example_env prod app saturated_once)
    as (_ & _ & _ & Hstreak & Hone & _).
  - apply (numbered_wf [rep 1 ReplicaState.Ready 2] 5). reflexivity.
  - reflexivity.
  - reflexivity.
  - vm_compute. discriminate.
  - vm_compute. reflexivity.
  - split; [exact Hstreak|exact Hone].
Defined.

Lemma cooldown_lasts_witness :
  ScalerProperties.cooling_flags 5 "a" (Tick.mk busy ∅ ∅ {["a" := 3]}) = [true; true; true; false; false].
Proof. apply (ScalerProperties.cooldown_lasts 3 2 "a"); [lia|reflexivity]. Defined.

(** An API replica with three requests in flight. *)
Definition api_app : Spec.t := Spec.sample "a" (Some "img") (Some SpecKindOverride.Api) None None None (Some 2).
Definition serving : World.t CountingBackend.t :=
  World.set_inflight {[1%N := 3]} (world [rep 1 ReplicaState.Ready 0] 5).

Lemma idle_ticks_exact_witness :
  update_idle_ticks (World.pool serving "a") (from_secs 120) {[1%N := 2]} !! 1%N = Some 3.
Proof.
  refine (eq_trans (ScalerProperties.idle_ticks_exact _ (from_secs 120) {[1%N := 2]} 1%N _) _).
  - apply (bool_decide_unpack _). vm_compute. exact I.
  - reflexivity.
Defined.

(** The idle counters read the registry, where an API replica never has a
    session, not the overlaid requests: a replica serving requests on every
    tick is past its grace the first time a tick finds it free for a moment. *)
Lemma api_replica_dropped_when_first_idle :
  let s3 := run_tick [api_app] (run_tick [api_app] (run_tick [api_app] (at_rest serving))) in
  let paused := Tick.set_world (World.set_inflight ∅ (Tick.world s3)) s3 in
  Inflight.inflight_count (World.inflight (Tick.world s3)) 1%N = 3
  /\ World.pool (Tick.world s3) "a" = [rep 1 ReplicaState.Ready 0]
  /\ World.pool (Tick.world (run_tick [api_app] paused)) "a" = [].
Proof. vm_compute. repeat split. Qed.
End ScalerExamples.
