(* ===== verification/Runtime.v ===== *)
(** * The running system

    The operations of the spawn, liveness and scaling components as one step
    function over the world, and what holds of every run: any interleaving of
    visitors' picks, cold starts, stops, liveness passes and scaler ticks.
    Each operation runs under the per-app mutex or the registry lock in the
    source, so a run is a sequence of whole operations. *)

From Stdlib Require Import ZArith Lia.
From stdpp Require Import base tactics list gmap strings sets fin_maps numbers.
From S2P Require Import Prelude Text Schema Core Sessions Counters Routing Spawn Liveness Scaler.

Local Open Scope string_scope.
Local Open Scope list_scope.
Local Open Scope Z_scope.

Section Runtime.
Context {B : Type} `{ContainerBackendLaws B}.
Context (show : ReplicaId -> string) (clk : Clock.t B) (order : HashOrder.t) (env : Env.t) (p : Tick.params).
Implicit Types (w : World.t B) (spec : Spec.t).

(** The operations, with the component function each one runs. *)
Inductive op :=
  | Demand (spec : Spec.t)
  | SpawnReplica (spec : Spec.t)
  | EnsureAvailable (spec : Spec.t)
  | StopOne (i : ReplicaId)
  | StopSpec (spec_id : string)
  | Reconcile (specs : list Spec.t)
  | ScalerTick (specs : list Spec.t) (idle : gmap ReplicaId Z) (saturation cooldown : gmap string Z)
  | ReadinessGate (spec : Spec.t)
  | RequestStart (i : ReplicaId)
  | RequestEnd (i : ReplicaId)
  | SeatTaken (i : ReplicaId)
  | SeatLeft (i : ReplicaId).

Definition run_op (o : op) w : World.t B :=
  match o with
  | Demand spec => (pick_or_spawn env spec w).2
  | SpawnReplica spec => (spawn_replica env spec w).2
  | EnsureAvailable spec => (ensure_replica_available env spec w).2
  | StopOne i => (stop_one i w).2
  | StopSpec spec_id => (stop_spec spec_id w).2
  | Reconcile specs => (reconcile_liveness_once show clk order specs w).2
  | ScalerTick specs idle saturation cooldown =>
      Tick.world (tick_with_interval show clk order env p specs (Tick.mk w idle saturation cooldown)).2
  | ReadinessGate spec =>
      World.set_counter (has_ready_replica (World.inflight w) (World.replicas w) spec (World.counter w)).2 w
  | RequestStart i => World.set_inflight (Inflight.guard_new i (World.inflight w)) w
  | RequestEnd i => World.set_inflight (Inflight.guard_drop i (World.inflight w)) w
  | SeatTaken i => World.set_replicas (Registry.inc_sessions i (World.replicas w)) w
  | SeatLeft i => World.set_replicas (Registry.dec_sessions i (World.replicas w)) w
  end.

Definition run (ops : list op) w : World.t B := foldl (fun w o => run_op o w) w ops.

(** *** The remaining operations keep the invariant and the bounds *)

Lemma wired_bounded m k (c : St (World.t B) (Result unit string)) :
  preserves (bounded m k) c -> preserves (bounded m k) (with_wired_backend c).
Proof.
  intros Hc. unfold with_wired_backend. apply preserves_bind; [apply _|apply preserves_get, _|].
  intros [b|]; [done|apply preserves_ret, _].
Qed.

Lemma stop_spec_bounded m k spec_id : preserves (bounded (B := B) m k) (stop_spec spec_id).
Proof.
  unfold stop_spec. apply preserves_bind; [apply _|apply preserves_get, _|].
  intros [b|]; [|apply preserves_ret, _]. apply preserves_bind; [apply _|apply preserves_get, _|]. intros ids.
  apply preserves_bind; [apply _| |intros _; apply preserves_ret, _].
  apply preserves_for; [apply _|]. intros i _.
  apply preserves_bind; [apply _|apply stop_one_bounded|]. intros _. apply preserves_ret, _.
Qed.

Lemma update_bounded m k i f w : Registry.keeps_identity f ->
  bounded m k w (World.set_replicas (Registry.update i f (World.replicas w)).2 w).
Proof.
  intros Hf. apply bounded_of.
  - apply sound_registry; [|done]. intros Hwf. split; [by apply Registry.wf_update|]. intros j r.
    cbn. rewrite (proj2 (Registry.update_spec i f _ Hf Hwf)), lookup_alter. case_decide; [subst j|by eauto].
    intros (r0 & Hr0 & ->)%fmap_Some. exists r0. split; [done|]. by rewrite (proj2 (Hf r0)).
  - intros Hwf. split; [by apply Registry.wf_update|]. unfold World.pool at 1. cbn -[Z.max].
    rewrite Registry.replicas_of_update by done. unfold zlen. rewrite Registry.length_update_first.
    unfold World.pool. lia.
Qed.

Lemma bounded_sound k' m' w w' : bounded m' k' w w' -> sound w w'.
Proof. intros Hb Hw. by apply Hb. Qed.

Lemma tick_sound p' specs : preserves (on_world sound) (tick_with_interval show clk order env p' specs).
Proof.
  unfold tick_with_interval. apply preserves_bind; [apply _|apply preserves_get, _|].
  intros [b|]; [|apply preserves_ret, _]. apply preserves_bind; [apply _|apply preserves_get, _|]. intros snap.
  apply preserves_bind; [apply _|by apply preserves_local; [apply _|]|]. intros _.
  apply preserves_bind; [apply _|apply preserves_lift, sound_reconcile_pass|]. intros _.
  apply preserves_bind; [apply _|intros s; by apply sound_same|]. intros _.
  apply preserves_for; [apply _|]. intros spec _ s.
  eapply bounded_sound, (scale_spec_bounded (Spec.effective_max_replicas spec) (Spec.id spec)). lia.
Qed.

Lemma run_op_sound o w : sound w (run_op o w).
Proof.
  destruct o; cbn [run_op].
  - apply sound_pick_or_spawn.
  - apply (bounded_sound (Spec.id spec) (Spec.effective_max_replicas spec)).
    apply (wired_bounded _ _ (spawn_one env spec AddCapacity)), spawn_one_bounded. lia.
  - apply (bounded_sound (Spec.id spec) (Spec.effective_max_replicas spec)).
    apply (wired_bounded _ _ (spawn_one env spec Spawn.EnsureAvailable)), spawn_one_bounded. lia.
  - apply sound_stop_one.
  - apply (bounded_sound "" 0), stop_spec_bounded.
  - apply sound_reconcile_once.
  - apply (tick_sound p specs (Tick.mk w idle saturation cooldown)).
  - by apply sound_same.
  - by apply sound_same.
  - by apply sound_same.
  - apply (bounded_sound "" 0), update_bounded, Registry.keeps_inc.
  - apply (bounded_sound "" 0), update_bounded, Registry.keeps_dec.
Qed.

Lemma reconcile_once_bounded specs spec w :
  NoDup (map Spec.id specs) -> spec ∈ specs ->
  bounded (Spec.effective_max_replicas spec) (Spec.id spec) w (reconcile_liveness_once show clk order specs w).2.
Proof.
  intros Hnd Hin. unfold reconcile_liveness_once, st_bind at 1, st_get at 1.
  destruct (World.backend w); [|cbn; reflexivity]. unfold st_bind at 1, st_get at 1.
  apply reconcile_pass_bounded. by apply find_id.
Qed.

(** An operation other than a visitor's demand, on the apps of a catalogue. *)
Definition within_catalogue (catalogue : list Spec.t) (o : op) : Prop :=
  match o with
  | Demand _ => False
  | SpawnReplica spec | EnsureAvailable spec => spec ∈ catalogue
  | Reconcile specs | ScalerTick specs _ _ _ => specs = catalogue
  | _ => True
  end.

Lemma run_op_bounded catalogue spec o w :
  NoDup (map Spec.id catalogue) -> spec ∈ catalogue -> within_catalogue catalogue o ->
  bounded (Spec.effective_max_replicas spec) (Spec.id spec) w (run_op o w).
Proof.
  intros Hnd Hin Ho.
  assert (forall spec', spec' ∈ catalogue -> Spec.id spec' = Spec.id spec ->
    Spec.effective_max_replicas spec' <= Spec.effective_max_replicas spec) as Huniq.
  { intros spec' Hin' Hid. by rewrite (NoDup_map_inj catalogue spec' spec Hnd Hin' Hin Hid). }
  destruct o; cbn [run_op within_catalogue] in *; subst; try done.
  - apply (wired_bounded _ _ (spawn_one env spec0 AddCapacity)), spawn_one_bounded. by apply Huniq.
  - apply (wired_bounded _ _ (spawn_one env spec0 Spawn.EnsureAvailable)), spawn_one_bounded. by apply Huniq.
  - apply stop_one_bounded.
  - apply stop_spec_bounded.
  - by apply reconcile_once_bounded.
  - by apply (tick_bounded show clk order env p catalogue (Spec.id spec) spec Hnd Hin eq_refl
                (Tick.mk w idle saturation cooldown)).
  - by apply same_bounded.
  - by apply same_bounded.
  - by apply same_bounded.
  - apply update_bounded, Registry.keeps_inc.
  - apply update_bounded, Registry.keeps_dec.
Qed.
End Runtime.

(** ** Properties *)

Module RuntimeProperties.
Section Properties.
Context {B : Type} `{ContainerBackendLaws B}.
Context (show : ReplicaId -> string) (clk : Clock.t B) (order : HashOrder.t) (env : Env.t) (p : Tick.params).
Implicit Types (w : World.t B).

(** C1. The runtime invariant: after any run of picks, spawns, stops,
    liveness passes, ticks and seat or request accounting, replica ids are
    unique, every replica is in its own app's pool, and every registered
    replica is one the backend issued, labelled with that app. *)
Theorem runtime_invariant ops w : world_wf w -> world_wf (run show clk order env p ops w).
Proof.
  revert w; induction ops as [|o ops IH]; intros w Hw; [done|]. apply IH.
  by apply (run_op_sound show clk order env p o w).
Qed.

(** C5. Only visitors' demand can overfill an app: along any run of the
    other operations over a catalogue with distinct ids, the app's pool never
    exceeds its effective maximum, or its size at the start. *)
Theorem runtime_within_max catalogue spec ops w :
  world_wf w -> NoDup (map Spec.id catalogue) -> spec ∈ catalogue ->
  (forall o, o ∈ ops -> within_catalogue catalogue o) ->
  zlen (World.pool (run show clk order env p ops w) (Spec.id spec))
  <= Z.max (zlen (World.pool w (Spec.id spec))) (Spec.effective_max_replicas spec).
Proof.
  intros Hw Hnd Hin. revert w Hw; induction ops as [|o ops IH]; intros w Hw Hops; [cbn; lia|].
  assert (within_catalogue catalogue o) as Ho by (apply Hops; left).
  destruct (run_op_bounded show clk order env p catalogue spec o w Hnd Hin Ho Hw) as [Hk Hl].
  cbn [run foldl]. specialize (IH (run_op show clk order env p o w) (kept_wf _ _ Hk)).
  unfold run in IH. etransitivity; [apply IH; intros o' Ho'; apply Hops; by right|]. lia.
Qed.
End Properties.
End RuntimeProperties.

(** ** Examples *)

Module RuntimeExamples.
Import CountingBackend SpawnExamples LivenessExamples ScalerExamples.

(** A cold app: the splash ensures a replica, a visitor takes a seat, another
    arrives, a tick runs, the app is stopped and demanded again. *)
Definition story : list op :=
  [EnsureAvailable app; Demand app; ReadinessGate app; Demand app; ScalerTick [app] ∅ ∅ ∅; RequestStart 5;
   RequestEnd 5; SeatLeft 5; Reconcile [app]; StopSpec "a"; Demand app].

Definition told (ops : list op) : World.t CountingBackend.t :=
  run no_show later HashOrder.sorted example_env prod ops cold.

Lemma runtime_invariant_witness :
  map Replica.id (World.pool (told story) "a") = [6%N] /\ world_wf (told story).
Proof.
  split; [vm_compute; reflexivity|].
  apply (RuntimeProperties.runtime_invariant no_show later HashOrder.sorted example_env prod story cold).
  apply (numbered_wf [] 5). reflexivity.
Defined.

Definition operators : list op :=
  [SpawnReplica app; SpawnReplica app; SpawnReplica app; ScalerTick [app] ∅ ∅ ∅; EnsureAvailable app].

Lemma runtime_within_max_witness :
  zlen (World.pool (told operators) "a") = 2 /\ zlen (World.pool (told operators) "a") <= 2.
Proof.
  split; [vm_compute; reflexivity|].
  apply (RuntimeProperties.runtime_within_max no_show later HashOrder.sorted example_env prod [app] app operators cold).
  - apply (numbered_wf [] 5). reflexivity.
  - apply (bool_decide_unpack _). vm_compute. exact I.
  - left.
  - intros o Ho. apply list_elem_of_In in Ho. cbn in Ho.
    repeat (destruct Ho as [<-|Ho]; [first [reflexivity | left] | ]). destruct Ho.
Defined.
End RuntimeExamples.
