(* ===== verification/Auth.v ===== *)
(** * Authentication and authorization (ruscker-admin/src/auth.rs, scope.rs, mfa.rs)

    Roles and guards, the in-memory store of admin sessions, the group scope
    of Editors, and the decision whether a browser's proof satisfies an app's
    MFA requirement.  Database reads, the digest and hex crates and the
    Unicode tables of the standard library are parameters. *)

From Stdlib Require Import ZArith Lia Ascii String.
From stdpp Require Import base tactics list gmap strings sets fin_maps numbers.
From S2P Require Import Prelude Text Schema Headers Sticky.

Local Open Scope string_scope.
Local Open Scope list_scope.
Local Open Scope Z_scope.
Local Open Scope ruscker_scope.

(** ** Roles *)

Module Role.
Inductive t := Viewer | Editor | Admin.
#[global] Instance eq_dec : EqDecision t.
Proof. solve_decision. Defined.

(** The derived order, least privileged first. *)
Definition rank (r : t) : Z := match r with Viewer => 0 | Editor => 1 | Admin => 2 end.
Definition leb (a b : t) : bool := rank a <=? rank b.

Definition can_access_section (section : string) (r : t) : bool :=
  if existsb (str_eqb section) ["dashboard"; "specs"; "images"; "users"; "groups"]
  then leb Editor r else bool_decide (r = Admin).

Definition can_manage (r : t) : bool := leb Editor r.

Definition home (r : t) : string := match r with Viewer => "/" | _ => "/admin/specs" end.

Definition label_key (r : t) : string :=
  match r with Viewer => "role-viewer" | Editor => "role-editor" | Admin => "role-admin" end.

Definition as_str (r : t) : string := match r with Viewer => "viewer" | Editor => "editor" | Admin => "admin" end.

Definition parse (s : string) : option t :=
  if eq_ignore_ascii_case s "viewer" then Some Viewer
  else if eq_ignore_ascii_case s "editor" then Some Editor
  else if eq_ignore_ascii_case s "admin" then Some Admin
  else None.
End Role.

(** The break-glass token. *)
Module AdminAuth.
Record t := mk { admin : option string }.

(** The variable is read once at start; an empty one counts as unset. *)
Definition from_env (var : option string) : t :=
  mk (s ← var; if str_is_empty s then None else Some s).
Definition is_configured (a : t) : bool := bool_decide (is_Some (admin a)).
Definition matches_token (candidate : string) (a : t) : bool :=
  match admin a with Some token => ct_eq token candidate | None => false end.
End AdminAuth.

(** ** Admin sessions *)

Module SessionInfo.
Record t := mk { role : Role.t; actor : option string }.
End SessionInfo.

Module AdminSessions.
Record entry := mkEntry { expiry : Z; info : SessionInfo.t }.
Record t := mk { sessions : gmap string entry; ttl : Z }.

Definition new (ttl : Z) : t := mk ∅ ttl.
Definition default_policy : t := new (from_secs (24 * 60 * 60)).

(** [id] is the freshly minted session id. *)
Definition create (now : Z) (id : string) (role : Role.t) (actor : option string) (s : t) : t :=
  mk (<[id := mkEntry (now + ttl s) (SessionInfo.mk role actor)]> (sessions s)) (ttl s).

Definition validate (now : Z) (id : string) (s : t) : option SessionInfo.t * t :=
  match sessions s !! id with
  | Some e =>
    if now <? expiry e then (Some (info e), s) else (None, mk (delete id (sessions s)) (ttl s))
  | None => (None, s)
  end.

Definition remove (id : string) (s : t) : t := mk (delete id (sessions s)) (ttl s).

Definition belongs_to (actor : string) (e : entry) : bool := bool_decide (SessionInfo.actor (info e) = Some actor).

Definition revoke_by_actor (actor : string) (s : t) : t :=
  mk (filter (fun kv => belongs_to actor kv.2 = false) (sessions s)) (ttl s).
End AdminSessions.

(** ** Guards *)

Inductive Rejection := AdminDisabled | ToLogin | ForbiddenRole.

(** [AdminSession::from_request_parts]; [cookie] is the session cookie. *)
Definition admin_session (now : Z) (auth : AdminAuth.t) (cookie : option string) (store : AdminSessions.t)
  : Result SessionInfo.t Rejection * AdminSessions.t :=
  if negb (AdminAuth.is_configured auth) then (Err AdminDisabled, store)
  else match cookie with
       | Some c =>
         match AdminSessions.validate now c store with
         | (Some info, store) => (Ok info, store)
         | (None, store) => (Err ToLogin, store)
         end
       | None => (Err ToLogin, store)
       end.

Definition guarded (allowed : Role.t -> bool) (r : Result SessionInfo.t Rejection) : Result SessionInfo.t Rejection :=
  let? info := r in if allowed (SessionInfo.role info) then Ok info else Err ForbiddenRole.

Definition require_editor (now : Z) (auth : AdminAuth.t) (cookie : option string) (store : AdminSessions.t)
  : Result SessionInfo.t Rejection * AdminSessions.t :=
  let '(r, store) := admin_session now auth cookie store in (guarded (Role.leb Role.Editor) r, store).

Definition require_admin (now : Z) (auth : AdminAuth.t) (cookie : option string) (store : AdminSessions.t)
  : Result SessionInfo.t Rejection * AdminSessions.t :=
  let '(r, store) := admin_session now auth cookie store in
  (guarded (fun role => bool_decide (role = Role.Admin)) r, store).

(** [MaybeSession]: the whole session, or an anonymous visitor. *)
Definition maybe_session (now : Z) (auth : AdminAuth.t) (cookie : option string) (store : AdminSessions.t)
  : option SessionInfo.t * AdminSessions.t :=
  let '(r, store) := admin_session now auth cookie store in (ok r, store).

(** The actor string of the audit log. *)
Definition audit_actor (info : SessionInfo.t) : string := default "token" (SessionInfo.actor info).

(** ** Editor scope *)

(** A row of [users] without the password hash (db/users.rs). *)
Module UserRow.
Record t := mk {
  id : string;
  username : string;
  role : Role.t;
  must_change_password : bool;
  groups : list string;
  created_at : Z;
  created_by : option string;
  setor : option string;
  email : option string;
  celular : option string }.
End UserRow.

(** [BTreeSet] as a list: sorted by bytes, without duplicates. *)
Fixpoint btree_insert (x : string) (l : list string) : list string :=
  match l with
  | [] => [x]
  | y :: l' => match String.compare x y with
               | Lt => x :: l
               | Eq => l
               | Gt => y :: btree_insert x l'
               end
  end.
Definition btree_set (l : list string) : list string := foldr btree_insert [] l.

Module EditorScope.
Record t := mk { role : Role.t; actor : option string; groups : list string; unscoped : bool }.

(** [fetch] is the user lookup when a database is attached. *)
Definition from_editor (editor : SessionInfo.t) (fetch : option (string -> Result (option UserRow.t) string)) : t :=
  let role := SessionInfo.role editor in
  let actor := SessionInfo.actor editor in
  if bool_decide (role = Role.Admin) then mk role actor [] true
  else
    let groups :=
      match fetch, actor with
      | Some f, Some username => match f username with Ok (Some row) => UserRow.groups row | Ok None | Err _ => [] end
      | _, _ => []
      end in
    mk role actor groups false.

Definition has_group (s : t) (group : string) : bool := existsb (fun owned => str_eqb owned group) (groups s).
Definition may_touch_group (s : t) (group : string) : bool := unscoped s || has_group s group.
Definition may_touch_spec (s : t) (spec : Spec.t) : bool :=
  unscoped s || Spec.is_open spec
  || match Spec.access_groups spec with Some gs => existsb (has_group s) gs | None => false end.
Definition may_touch_user (s : t) (user : UserRow.t) : bool :=
  unscoped s || (negb (bool_decide (UserRow.role user = Role.Admin)) && existsb (has_group s) (UserRow.groups user)).
Definition may_assign_groups (s : t) (requested : list string) : bool := unscoped s || forallb (has_group s) requested.
Definition may_assign_role (s : t) (requested : Role.t) : bool :=
  unscoped s || match requested with Role.Viewer | Role.Editor => true | Role.Admin => false end.

Definition merge_preserving_out_of_scope (s : t) (existing requested : list string) : list string :=
  if unscoped s then btree_set requested
  else btree_set (List.filter (fun g => negb (has_group s g)) existing ++ List.filter (has_group s) requested).
End EditorScope.

(** ** MFA *)

(** The digest and hex crates; strings are bytes. *)
Class MfaCrates := {
  sha256 : string -> string;
  hex_encode : string -> string;
  hex_decode : string -> option string
}.

Class MfaCratesLaws `{MfaCrates} := {
  hex_round_trip s : hex_decode (hex_encode s) = Some s;
  hex_no_colon s : str_contains_char ":" (hex_encode s) = false;
  sha256_length s : String.length (sha256 s) = 32%nat
}.

(** A row of [user_mfa] (db/mfa.rs): the TOTP factor of one account. *)
Module MfaRow.
Record t := mk {
  username : string;
  secret_enc : string;
  secret_nonce : string;
  ceremony : string;
  confirmed_at : option Z;
  created_at : Z;
  updated_at : Z;
  last_used_step : option Z;
  security_epoch : Z }.
End MfaRow.

(** A row of [user_mfa_grants] (db/mfa_grants.rs): one trusted browser. *)
Module GrantRow.
Record t := mk {
  id : string;
  username : string;
  token_hash : string;
  session_binding : string;
  factor_confirmed_at : Z;
  security_epoch : Z;
  mfa_verified_at : Z;
  expires_at : Z;
  created_at : Z }.
End GrantRow.

Module MfaDecision.
Inductive t := Satisfied | ChallengeRequired | EnrollmentRequired.
#[global] Instance eq_dec : EqDecision t.
Proof. solve_decision. Defined.
End MfaDecision.

(** The two reads of the decision, and the time it is made at. *)
Module MfaDb.
Record t := mk {
  fetch : string -> Result (option MfaRow.t) string;
  fetch_valid : string -> Result (option GrantRow.t) string;
  normalize_username : string -> string }.
End MfaDb.

Section Mfa.
Context `{MfaCrates}.

Definition hash_with_salt (salt token : string) : string :=
  hex_encode salt +:+ ":" +:+ hex_encode (sha256 (salt +:+ token)).

(** [hash_device_token], the random salt given. *)
Definition hash_device_token (salt token : string) : string := hash_with_salt salt token.

Definition verify_device_token (token stored : string) : bool :=
  match split_once ":" stored with
  | None => false
  | Some (salt_hex, hash_hex) =>
    match hex_decode salt_hex, hex_decode hash_hex with
    | Some salt, Some expected =>
      if negb (String.length salt =? 16)%nat || negb (String.length expected =? 32)%nat then false
      else str_eqb (sha256 (salt +:+ token)) expected
    | _, _ => false
    end
  end.

Definition session_binding (session_id : string) : string := hex_encode (sha256 session_id).

Definition device_cookie_parts (value : string) : option (string * string) :=
  match split_once "." value with
  | None => None
  | Some (i, token) =>
    if str_is_empty i || negb (String.length token =? 64)%nat || negb (str_forallb is_ascii_hexdigit token)
    then None else Some (i, token)
  end.

(** The checks that bind a grant to the browser, the user and the factor. *)
Definition grant_accepted (now : Z) (normalize_username : string -> string) (username token : string)
    (grant : GrantRow.t) (factor : MfaRow.t) : bool :=
  negb (negb (verify_device_token token (GrantRow.token_hash grant))
        || negb (str_eqb (GrantRow.username grant) (normalize_username username))
        || (GrantRow.expires_at grant <=? now)
        || negb (bool_decide (Some (GrantRow.factor_confirmed_at grant) = MfaRow.confirmed_at factor))
        || negb (GrantRow.security_epoch grant =? MfaRow.security_epoch factor)).

Definition challenge_unless (b : bool) : MfaDecision.t :=
  if b then MfaDecision.Satisfied else MfaDecision.ChallengeRequired.

(** The age rule, or the binding to this session when the app allows no age. *)
Definition grant_fresh (now : Z) (session_id : string) (validity_days : Z) (grant : GrantRow.t) : bool :=
  if validity_days =? 0 then str_eqb (GrantRow.session_binding grant) (session_binding session_id)
  else
    let age := now - GrantRow.mfa_verified_at grant in
    negb ((age <? 0) || (from_secs (validity_days * 86400) <? age)).

Definition evaluate (now : Z) (db : option MfaDb.t) (username session_id : string) (device_cookie : option string)
    (spec : Spec.t) : MfaDecision.t :=
  if negb (Spec.effective_require_mfa spec) then MfaDecision.Satisfied
  else
    match db with
    | None => MfaDecision.ChallengeRequired
    | Some db =>
      let confirmed := fun row => bool_decide (is_Some (MfaRow.confirmed_at row)) in
      match (value ← device_cookie; device_cookie_parts value) with
      | None =>
        match MfaDb.fetch db username with
        | Ok (Some row) => if confirmed row then MfaDecision.ChallengeRequired else MfaDecision.EnrollmentRequired
        | Ok None => MfaDecision.EnrollmentRequired
        | Err _ => MfaDecision.ChallengeRequired
        end
      | Some (i, token) =>
        match MfaDb.fetch_valid db i with
        | Ok None | Err _ => MfaDecision.ChallengeRequired
        | Ok (Some grant) =>
          match MfaDb.fetch db username with
          | Err _ => MfaDecision.ChallengeRequired
          | Ok None => MfaDecision.EnrollmentRequired
          | Ok (Some factor) =>
            if negb (confirmed factor) then MfaDecision.EnrollmentRequired
            else if negb (grant_accepted now (MfaDb.normalize_username db) username token grant factor)
            then MfaDecision.ChallengeRequired
            else challenge_unless (grant_fresh now session_id (Spec.effective_mfa_validity_days spec) grant)
          end
        end
      end
    end.
End Mfa.

(** ** Recovery codes *)

(** A [char] as its code point; [char::is_whitespace]. *)
Definition char_is_whitespace (c : Z) : bool :=
  ((9 <=? c) && (c <=? 13)) || (c =? 32) || (c =? 133) || (c =? 160) || (c =? 5760)
  || ((8192 <=? c) && (c <=? 8202)) || (c =? 8232) || (c =? 8233) || (c =? 8239) || (c =? 8287) || (c =? 12288).
Definition char_to_ascii_uppercase (c : Z) : Z := if (97 <=? c) && (c <=? 122) then c - 32 else c.

Definition normalize_recovery_code (code : list Z) : list Z :=
  map char_to_ascii_uppercase (List.filter (fun c => negb (char_is_whitespace c) && negb (c =? 45)) code).

Definition RECOVERY_GROUP : nat := 5.

(** [chunks(n)], with fuel for the length. *)
Fixpoint chunks_fuel {A} (fuel n : nat) (l : list A) : list (list A) :=
  match fuel, l with
  | S fuel', _ :: _ => take n l :: chunks_fuel fuel' n (drop n l)
  | _, _ => []
  end.
Definition chunks {A} (n : nat) (l : list A) : list (list A) := chunks_fuel (length l) n l.

Fixpoint join_chars (sep : list Z) (parts : list (list Z)) : list Z :=
  match parts with
  | [] => []
  | [p] => p
  | p :: rest => p ++ sep ++ join_chars sep rest
  end.

Definition format_recovery_code (code : list Z) : list Z := join_chars [45] (chunks RECOVERY_GROUP code).

(** ABCDEFGHJKLMNPQRSTUVWXYZ23456789 *)
Definition RECOVERY_ALPHABET : list Z :=
  [65; 66; 67; 68; 69; 70; 71; 72; 74; 75; 76; 77; 78; 80; 81; 82; 83; 84; 85; 86; 87; 88; 89; 90; 50; 51; 52; 53; 54;
   55; 56; 57].
Definition RECOVERY_CODE_COUNT : nat := 10.
Definition RECOVERY_CODE_LEN : nat := 10.

(** The codes made of [random], one byte per character. *)
Definition recovery_codes (random : list Z) : list (list Z) :=
  map (map (fun b => default 0 (RECOVERY_ALPHABET !! Z.to_nat (Z.land b 31))))
    (List.filter (fun chunk => (length chunk =? RECOVERY_CODE_LEN)%nat) (chunks RECOVERY_CODE_LEN random)).

(** ** Lemmas *)

Module AdminSessionLog.
Import AdminSessions.

(** What can happen to the store, at which time. *)
Inductive event :=
  | Create (now : Z) (id : string) (role : Role.t) (actor : option string)
  | Validate (now : Z) (id : string)
  | Remove (id : string)
  | Revoke (actor : string).

Definition step (s : t) (e : event) : t :=
  match e with
  | Create now id role actor => create now id role actor s
  | Validate now id => (validate now id s).2
  | Remove id => remove id s
  | Revoke actor => revoke_by_actor actor s
  end.

(** The specification: the last creation of [id] that nothing undid. *)
Definition log_step (ttl : Z) (id : string) (o : option entry) (e : event) : option entry :=
  match e with
  | Create now id' role actor => if str_eqb id' id then Some (mkEntry (now + ttl) (SessionInfo.mk role actor)) else o
  | Validate _ _ => o
  | Remove id' => if str_eqb id' id then None else o
  | Revoke actor => match o with Some x => if belongs_to actor x then None else o | None => None end
  end.

Definition standing (ttl : Z) (id : string) (es : list event) : option entry := foldl (log_step ttl id) None es.

(** The clock never goes back, and has not passed [now]. *)
Definition event_time (e : event) : option Z :=
  match e with Create now _ _ _ | Validate now _ => Some now | _ => None end.
Definition before (now : Z) (es : list event) : Prop := forall e t, e ∈ es -> event_time e = Some t -> t <= now.

Lemma step_ttl s e : ttl (step s e) = ttl s.
Proof. destruct e as [now id role actor|now id| |]; try done. cbn. unfold validate. by repeat split_match. Qed.

(** The store holds the standing entry, or has pruned it as expired. *)
Definition agrees (now : Z) (o o' : option entry) : Prop :=
  o = o' \/ (o = None /\ exists e, o' = Some e /\ expiry e <= now).

Lemma step_agrees now id s e o :
  (forall t, event_time e = Some t -> t <= now) ->
  agrees now (sessions s !! id) o -> agrees now (sessions (step s e) !! id) (log_step (ttl s) id o e).
Proof.
  intros Ht Ha. destruct e as [t id' role actor|t id'|id'|actor]; cbn [step log_step].
  - unfold create. cbn [sessions]. destruct (str_eqb_spec id' id) as [->|Hne].
    + left. by rewrite lookup_insert_eq.
    + by rewrite lookup_insert_ne.
  - unfold validate. destruct (sessions s !! id') as [e|] eqn:El; [|done].
    destruct (t <? expiry e) eqn:Ee; [done|]. cbn [snd sessions]. bool_split. specialize (Ht t eq_refl).
    destruct (decide (id' = id)) as [->|Hne]; [|by rewrite lookup_delete_ne]. rewrite lookup_delete_eq.
    rewrite El in Ha. destruct Ha as [<-|[? _]]; [|done]. right. split; [done|]. exists e. split; [done|lia].
  - unfold remove. cbn [sessions]. destruct (str_eqb_spec id' id) as [->|Hne].
    + left. by rewrite lookup_delete_eq.
    + by rewrite lookup_delete_ne.
  - unfold revoke_by_actor. cbn [sessions]. rewrite map_lookup_filter.
    destruct Ha as [->|[-> (e & -> & He)]].
    + destruct o as [x|]; [|by left]. cbn. left. destruct (belongs_to actor x) eqn:Eb.
      * rewrite option_guard_False; [done|cbn; congruence].
      * by rewrite option_guard_True.
    + cbn. destruct (belongs_to actor e); [by left|]. right. split; [done|eauto].
Qed.

Lemma run_agrees now id s es o :
  before now es -> agrees now (sessions s !! id) o ->
  agrees now (sessions (foldl step s es) !! id) (foldl (log_step (ttl s) id) o es) /\ ttl (foldl step s es) = ttl s.
Proof.
  revert s o; induction es as [|e es IH]; intros s o Hb Ha; [done|]. cbn [foldl].
  rewrite <- (step_ttl s e). apply IH.
  - intros e' t He'. apply Hb. by right.
  - rewrite (step_ttl s e). apply step_agrees; [|done]. intros t. apply Hb. left.
Qed.
End AdminSessionLog.

Lemma btree_insert_elem x y l : y ∈ btree_insert x l <-> y = x \/ y ∈ l.
Proof.
  induction l as [|z l IH]; cbn; [set_solver|]. destruct (String.compare x z) eqn:E.
  - apply String.compare_eq_iff in E. subst. set_solver.
  - set_solver.
  - rewrite !elem_of_cons, IH. tauto.
Qed.

Lemma btree_set_elem y l : y ∈ btree_set l <-> y ∈ l.
Proof. induction l as [|x l IH]; [done|]. cbn. rewrite btree_insert_elem, IH. set_solver. Qed.

Lemma has_group_spec s g : EditorScope.has_group s g = true <-> g ∈ EditorScope.groups s.
Proof.
  unfold EditorScope.has_group. rewrite existsb_elem. split.
  - intros (x & Hx & ->%str_eqb_eq). done.
  - intros Hg. exists g. split; [done|apply str_eqb_refl].
Qed.

Lemma chunks_fuel_concat {A} fuel n (l : list A) : (0 < n)%nat -> (length l <= fuel)%nat -> concat (chunks_fuel fuel n l) = l.
Proof.
  intros Hn. revert l; induction fuel as [|fuel IH]; intros l Hl; [by destruct l; [|cbn in Hl; lia]|].
  destruct l as [|x l]; [done|]. cbn [chunks_fuel concat]. rewrite IH; [apply take_drop|].
  rewrite length_drop. cbn in *. lia.
Qed.

Lemma normalize_app a b : normalize_recovery_code (a ++ b) = normalize_recovery_code a ++ normalize_recovery_code b.
Proof. unfold normalize_recovery_code. by rewrite List.filter_app, map_app. Qed.

Lemma normalize_join parts :
  normalize_recovery_code (join_chars [45] parts) = normalize_recovery_code (concat parts).
Proof.
  induction parts as [|p parts IH]; [done|]. destruct parts as [|q parts].
  - cbn. by rewrite app_nil_r.
  - change (join_chars [45] (p :: q :: parts)) with (p ++ [45] ++ join_chars [45] (q :: parts)).
    change (concat (p :: q :: parts)) with (p ++ concat (q :: parts)). by rewrite !normalize_app, IH.
Qed.

Lemma normalize_alphabet code :
  (forall c, c ∈ code -> c ∈ RECOVERY_ALPHABET) -> normalize_recovery_code code = code.
Proof.
  induction code as [|c code IH]; intros Hc; [done|].
  assert (forallb (fun c => negb (char_is_whitespace c) && negb (c =? 45) && (char_to_ascii_uppercase c =? c))
            RECOVERY_ALPHABET = true) as Hall by (vm_compute; reflexivity).
  rewrite forallb_forall in Hall. specialize (Hall c). rewrite <- list_elem_of_In in Hall.
  specialize (Hall (Hc c (list_elem_of_here c code))). apply andb_true_iff in Hall as [Hkeep Hup%Z.eqb_eq].
  unfold normalize_recovery_code in *. cbn [List.filter]. rewrite Hkeep. cbn [map]. rewrite Hup. f_equal.
  apply IH. intros x Hx. apply Hc. by right.
Qed.

Section Tokens.
Context `{MfaCratesLaws}.

Lemma split_once_no_sep c a b : str_contains_char c a = false -> split_once c (a +:+ String c b) = Some (a, b).
Proof.
  induction a as [|x a IH]; intros Hn.
  - change ("" +:+ String c b) with (String c b). cbn [split_once]. by rewrite Ascii.eqb_refl.
  - change (String x a +:+ String c b) with (String x (a +:+ String c b)). cbn [split_once str_contains_char] in *.
    apply orb_false_iff in Hn as [Hx Hn]. rewrite Hx. by rewrite IH.
Qed.

Lemma verify_hashed salt token :
  String.length salt = 16%nat -> verify_device_token token (hash_device_token salt token) = true.
Proof.
  intros Hs. unfold verify_device_token, hash_device_token, hash_with_salt.
  change (":" +:+ hex_encode (sha256 (salt +:+ token))) with (String ":" (hex_encode (sha256 (salt +:+ token)))).
  rewrite split_once_no_sep by apply hex_no_colon. rewrite !hex_round_trip, Hs, sha256_length. cbn.
  apply str_eqb_refl.
Qed.
End Tokens.

(** ** Properties *)

Module AuthProperties.
Import AdminSessionLog.

(** The lazily pruned session store is exactly the log of what
    happened: an id validates with the role and actor of its last creation
    when that was less than the lifetime ago and neither a logout nor a
    revocation of its actor came after it, and not otherwise. *)
Theorem admin_sessions_follow_log ttl es now id :
  before now es ->
  (AdminSessions.validate now id (foldl step (AdminSessions.new ttl) es)).1
  = (e ← standing ttl id es; if now <? AdminSessions.expiry e then Some (AdminSessions.info e) else None).
Proof.
  intros Hb. destruct (run_agrees now id (AdminSessions.new ttl) es None Hb) as [Ha _]; [by left|].
  unfold standing. cbn [AdminSessions.ttl AdminSessions.new] in Ha. unfold AdminSessions.validate.
  destruct Ha as [Heq|[Hn (e & He & Hexp)]].
  - rewrite Heq. destruct (foldl (log_step ttl id) None es) as [e|]; [|done]. cbn. by destruct (now <? _).
  - rewrite Hn, He. cbn. by rewrite (proj2 (Z.ltb_ge _ _) Hexp).
Qed.

(** A login at 10, a revocation of the user at 20, and another login at 30. *)
Definition day : list event :=
  [Create 10 "s1" Role.Editor (Some "ana"); Validate 15 "s1"; Revoke "ana"; Create 30 "s2" Role.Viewer (Some "ana")].

Lemma admin_sessions_follow_log_witness :
  (AdminSessions.validate 40 "s1" (foldl step (AdminSessions.new 100) day)).1 = None
  /\ (AdminSessions.validate 40 "s2" (foldl step (AdminSessions.new 100) day)).1
     = Some (SessionInfo.mk Role.Viewer (Some "ana")).
Proof.
  assert (before 40 day) as Hb.
  { intros e t He. apply list_elem_of_In in He. cbn in He.
    repeat (destruct He as [<-|He]; [cbn; intros Ht; inversion Ht; lia|]). destruct He. }
  split; [exact (admin_sessions_follow_log 100 day 40 "s1" Hb)|exact (admin_sessions_follow_log 100 day 40 "s2" Hb)].
Defined.

(** Delegation cannot widen: whatever groups and role a scoped Editor
    may give a user, that user, acting as an Editor with them, reaches no
    group, app, account or assignment the first Editor could not; and saving
    a user's groups changes only memberships inside the Editor's scope. *)
Theorem scope_no_escalation s username row existing :
  let role := UserRow.role row in
  let requested := UserRow.groups row in
  EditorScope.unscoped s = false ->
  EditorScope.may_assign_role s role = true -> EditorScope.may_assign_groups s requested = true ->
  let s' := EditorScope.from_editor (SessionInfo.mk role (Some username))
              (Some (fun _ => Ok (Some row))) in
  (forall g, EditorScope.may_touch_group s' g = true -> EditorScope.may_touch_group s g = true)
  /\ (forall spec, EditorScope.may_touch_spec s' spec = true -> EditorScope.may_touch_spec s spec = true)
  /\ (forall u, EditorScope.may_touch_user s' u = true -> EditorScope.may_touch_user s u = true)
  /\ (forall gs, EditorScope.may_assign_groups s' gs = true -> EditorScope.may_assign_groups s gs = true)
  /\ (forall g, g ∈ EditorScope.merge_preserving_out_of_scope s existing requested
        <-> if EditorScope.has_group s g then g ∈ requested else g ∈ existing).
Proof.
  intros role requested Hs Hrole Hreq s'. unfold EditorScope.may_assign_role, EditorScope.may_assign_groups in *.
  rewrite Hs in Hrole, Hreq. cbn [orb] in Hrole, Hreq.
  assert (s' = EditorScope.mk role (Some username) requested false) as -> by (subst s'; unfold EditorScope.from_editor; cbn; destruct role; [reflexivity|reflexivity|discriminate]).
  assert (forall g, EditorScope.has_group (EditorScope.mk role (Some username) requested false) g = true ->
            EditorScope.has_group s g = true) as Hsub.
  { intros g Hg%has_group_spec. rewrite forallb_forall in Hreq. apply Hreq. by apply list_elem_of_In. }
  unfold EditorScope.may_touch_group, EditorScope.may_touch_spec, EditorScope.may_touch_user. rewrite Hs. cbn [orb].
  split; [exact Hsub|]. split; [|split; [|split]].
  - intros spec [Ho|Hg]%orb_true_iff; [cbn in Ho; by rewrite Ho|]. apply orb_true_iff. right.
    destruct (Spec.access_groups spec) as [gs|]; [|done]. apply existsb_elem in Hg as (g & Hin & Hg).
    apply existsb_elem. exists g. split; [done|by apply Hsub].
  - intros u [Hr Hg]%andb_true_iff. rewrite Hr. cbn [andb]. apply existsb_elem in Hg as (g & Hin & Hg).
    apply existsb_elem. exists g. split; [done|by apply Hsub].
  - intros gs. cbn [EditorScope.unscoped orb]. rewrite !forallb_forall. intros Hall g Hg. by apply Hsub, Hall.
  - intros g. unfold EditorScope.merge_preserving_out_of_scope. rewrite Hs, btree_set_elem, elem_of_app, !filter_elem.
    rewrite negb_true_iff. destruct (EditorScope.has_group s g); naive_solver.
Qed.

Lemma scope_no_escalation_witness :
  let s := EditorScope.mk Role.Editor (Some "ana") ["lab"; "ops"] false in
  EditorScope.merge_preserving_out_of_scope s ["hr"; "lab"] ["ops"] = ["hr"; "ops"]
  /\ forall g, g ∈ EditorScope.merge_preserving_out_of_scope s ["hr"; "lab"] ["ops"]
       <-> if EditorScope.has_group s g then g ∈ ["ops"] else g ∈ ["hr"; "lab"].
Proof.
  intros s. split; [vm_compute; reflexivity|].
  refine (proj2 (proj2 (proj2 (proj2 (scope_no_escalation s "bo"
    (UserRow.mk "u1" "bo" Role.Viewer false ["ops"] 0 None None None None) ["hr"; "lab"] _ _ _)))));
    vm_compute; reflexivity.
Defined.

(** What a satisfied decision has seen. *)
Lemma evaluate_satisfied `{MfaCrates} now db username session_id device_cookie spec :
  Spec.effective_require_mfa spec = true ->
  evaluate now db username session_id device_cookie spec = MfaDecision.Satisfied ->
  exists d value i token grant factor,
    db = Some d /\ device_cookie = Some value /\ device_cookie_parts value = Some (i, token)
    /\ MfaDb.fetch_valid d i = Ok (Some grant) /\ MfaDb.fetch d username = Ok (Some factor)
    /\ grant_accepted now (MfaDb.normalize_username d) username token grant factor = true
    /\ grant_fresh now session_id (Spec.effective_mfa_validity_days spec) grant = true.
Proof.
  intros Hreq. unfold evaluate. rewrite Hreq. cbn [negb]. destruct db as [d|]; [|done].
  destruct device_cookie as [value|]; cbn [mbind option_bind]; [|repeat (split_match; try done)].
  destruct (device_cookie_parts value) as [[i token]|] eqn:Ec; [|repeat (split_match; try done)].
  destruct (MfaDb.fetch_valid d i) as [[grant|]|] eqn:Eg; try done.
  destruct (MfaDb.fetch d username) as [[factor|]|] eqn:Ef; try done.
  destruct (negb (bool_decide _)); [done|]. destruct (negb (grant_accepted _ _ _ _ _ _)) eqn:Ea; [done|].
  destruct (grant_fresh _ _ _ _) eqn:Efresh; [|done]. intros _. apply negb_false_iff in Ea.
  exists d, value, i, token, grant, factor. by split_and!.
Qed.

(** C11. The MFA decision fails closed: an app that requires MFA is
    satisfied only with a database, a well-formed device cookie, a grant
    under its id whose stored digest is that of the cookie's own token, issued
    to this user and unexpired, for the factor as it stands now (same
    confirmation and security epoch), and either bound to this very session
    (when the app allows no age) or verified within the allowed days. *)
Theorem mfa_fails_closed `{MfaCrates} now db username session_id device_cookie spec :
  Spec.effective_require_mfa spec = true ->
  evaluate now db username session_id device_cookie spec = MfaDecision.Satisfied ->
  exists d value i token grant factor salt digest,
    db = Some d /\ device_cookie = Some value /\ device_cookie_parts value = Some (i, token)
    /\ MfaDb.fetch_valid d i = Ok (Some grant) /\ MfaDb.fetch d username = Ok (Some factor)
    /\ split_once ":" (GrantRow.token_hash grant) = Some (salt, digest)
    /\ (exists raw, hex_decode salt = Some raw /\ hex_decode digest = Some (sha256 (raw +:+ token)))
    /\ GrantRow.username grant = MfaDb.normalize_username d username /\ now < GrantRow.expires_at grant
    /\ MfaRow.confirmed_at factor = Some (GrantRow.factor_confirmed_at grant)
    /\ GrantRow.security_epoch grant = MfaRow.security_epoch factor
    /\ if Spec.effective_mfa_validity_days spec =? 0
       then GrantRow.session_binding grant = session_binding session_id
       else 0 <= now - GrantRow.mfa_verified_at grant <= from_secs (Spec.effective_mfa_validity_days spec * 86400).
Proof.
  intros Hreq Hs.
  destruct (evaluate_satisfied _ _ _ _ _ _ Hreq Hs) as (d & value & i & token & grant & factor & -> & -> & Hp & Hg & Hf & Ea & Efresh).
  unfold grant_accepted in Ea. bool_split.
  match goal with Hv : verify_device_token _ _ = true |- _ => unfold verify_device_token in Hv end.
  destruct (split_once ":" _) as [[salt digest]|] eqn:Es; [|done].
  destruct (hex_decode salt) as [raw|] eqn:Er; [|done]. destruct (hex_decode digest) as [expected|] eqn:Ed; [|done].
  destruct (_ || _); [done|]. exists d, value, i, token, grant, factor, salt, digest.
  repeat match goal with Hx : str_eqb _ _ = true |- _ => apply str_eqb_eq in Hx end.
  match goal with Hx : bool_decide _ = true |- _ => apply bool_decide_eq_true in Hx end.
  split; [done|]. split; [done|]. split; [done|]. split; [done|]. split; [done|]. split; [done|].
  split; [exists raw; split; [done|congruence]|]. split; [done|]. split; [done|]. split; [done|]. split; [done|].
  unfold grant_fresh in Efresh. destruct (_ =? 0); [by apply str_eqb_eq|]. bool_split. lia.
Qed.

(** Recovery codes survive their display: a code over the recovery
    alphabet, shown grouped and typed back as shown, normalizes to itself. *)
Theorem recovery_code_round_trip code :
  (forall c, c ∈ code -> c ∈ RECOVERY_ALPHABET) -> normalize_recovery_code (format_recovery_code code) = code.
Proof.
  intros Hc. unfold format_recovery_code. rewrite normalize_join. unfold chunks, RECOVERY_GROUP.
  rewrite chunks_fuel_concat by lia. by apply normalize_alphabet.
Qed.

Lemma recovery_code_round_trip_witness :
  format_recovery_code (take 10 RECOVERY_ALPHABET) = [65; 66; 67; 68; 69; 45; 70; 71; 72; 74; 75]
  /\ normalize_recovery_code (format_recovery_code (take 10 RECOVERY_ALPHABET)) = take 10 RECOVERY_ALPHABET.
Proof.
  split; [reflexivity|]. apply recovery_code_round_trip. intros c Hc. by apply subseteq_take in Hc.
Defined.
End AuthProperties.

(** ** Examples *)

Module AuthExamples.

(** Hexadecimal, and a digest of the right length, to instantiate the crates. *)
Definition nibble (n : Z) : ascii := ascii_of_N (Z.to_N (if n <? 10 then 48 + n else 87 + n)).
Fixpoint to_hex (s : string) : string :=
  match s with
  | EmptyString => EmptyString
  | String c s' => String (nibble (byte_of c / 16)) (String (nibble (byte_of c mod 16)) (to_hex s'))
  end.
Definition unnibble (c : ascii) : Z := if byte_of c <? 58 then byte_of c - 48 else byte_of c - 87.
Fixpoint of_hex (s : string) : option string :=
  match s with
  | EmptyString => Some EmptyString
  | String a (String b s') =>
    r ← of_hex s'; Some (String (ascii_of_N (Z.to_N (16 * unnibble a + unnibble b))) r)
  | String _ EmptyString => None
  end.

Fixpoint pad (n : nat) (s : string) : string :=
  match n, s with
  | O, _ => EmptyString
  | S n', EmptyString => String "." (pad n' EmptyString)
  | S n', String c s' => String c (pad n' s')
  end.

#[local] Instance example_crates : MfaCrates := { sha256 := pad 32; hex_encode := to_hex; hex_decode := of_hex }.

Lemma hex_char c : unnibble (nibble (byte_of c / 16)) = byte_of c / 16
  /\ unnibble (nibble (byte_of c mod 16)) = byte_of c mod 16
  /\ Ascii.eqb ":" (nibble (byte_of c / 16)) = false /\ Ascii.eqb ":" (nibble (byte_of c mod 16)) = false
  /\ ascii_of_N (Z.to_N (16 * (byte_of c / 16) + byte_of c mod 16)) = c.
Proof. destruct c as [[] [] [] [] [] [] [] []]; vm_compute; by repeat split. Qed.

#[local] Instance example_crates_laws : MfaCratesLaws.
Proof.
  split.
  - intros s. cbn [hex_decode hex_encode example_crates]. induction s as [|c s IH]; [done|].
    cbn [to_hex of_hex]. rewrite IH. cbn [mbind option_bind]. destruct (hex_char c) as (-> & -> & _ & _ & ->). done.
  - intros s. cbn [hex_encode example_crates]. induction s as [|c s IH]; [done|]. cbn [to_hex str_contains_char].
    destruct (hex_char c) as (_ & _ & -> & -> & _). done.
  - intros s. cbn [sha256 example_crates]. generalize 32%nat as n. intros n. revert s.
    induction n as [|n IH]; intros s; [done|]. destruct s; cbn; by rewrite IH.
Defined.

Definition token : string := "0123456789abcdef0123456789abcdef0123456789abcdef0123456789abcdef".
Definition grant : GrantRow.t :=
  GrantRow.mk "g1" "ana" (hash_device_token "sixteen-byte-slt" token) "" 5 7 100 (from_secs 1000) 100.
Definition database : MfaDb.t :=
  MfaDb.mk (fun _ => Ok (Some (MfaRow.mk "ana" "" "" "" (Some 5) 1 5 None 7))) (fun _ => Ok (Some grant)) (fun s => s).
Definition protected : Spec.t :=
  Spec.with_access None (Some true) None (Spec.sample "a" (Some "img") None None None None None).

Lemma mfa_fails_closed_witness :
  let decide cookie := evaluate 200 (Some database) "ana" "session" cookie protected in
  decide (Some ("g1." +:+ token)) = MfaDecision.Satisfied /\ decide None = MfaDecision.ChallengeRequired
  /\ exists d g, Some database = Some d /\ MfaDb.fetch_valid d "g1" = Ok (Some g) /\ 200 < GrantRow.expires_at g.
Proof.
  intros decide. assert (decide (Some ("g1." +:+ token)) = MfaDecision.Satisfied) as Hs by (vm_compute; reflexivity).
  split; [exact Hs|]. split; [vm_compute; reflexivity|].
  destruct (AuthProperties.mfa_fails_closed 200 (Some database) "ana" "session" (Some ("g1." +:+ token)) protected
              eq_refl Hs) as (d & value & i & tok & g & f & salt & digest & Hd & Hv & Hp & Hg & _ & _ & _ & _ & Hexp & _).
  exists d, g. split; [exact Hd|]. split; [|exact Hexp].
  injection Hv as <-. vm_compute in Hp. injection Hp as <- <-. exact Hg.
Defined.

(** A stored token verifies. *)
Example stored_token_verifies : verify_device_token token (hash_device_token "sixteen-byte-slt" token) = true.
Proof. apply verify_hashed. reflexivity. Qed.
End AuthExamples.
