(* ===== verification/Caches.v ===== *)
(** * Hot-path caches (ruscker-admin/src/lib.rs, routes/proxy.rs)

    The spec cache and the generation-tagged identity cache of the request
    path, and the deduplication of break-glass audit rows.  A request that
    fills the identity cache takes three steps other requests and admin
    writes may fall between; they are steps of a transition system here. *)

From Stdlib Require Import ZArith Lia Sorted.
From stdpp Require Import base tactics list gmap strings sets fin_maps numbers.
From S2P Require Import Prelude Text Schema.

Local Open Scope string_scope.
Local Open Scope list_scope.
Local Open Scope Z_scope.

(** ** The identity cache *)

Module CachedIdentity.
Record t := mk { groups : list string; email : option string; setor : option string }.
Definition anonymous : t := mk [] None None.
#[global] Instance eq_dec : EqDecision t.
Proof. solve_decision. Defined.
End CachedIdentity.

Module IdentityCache.
Record entry := mkEntry { generation_of : Z; filled_at : Z; identity : CachedIdentity.t }.
Record t := mk { map : gmap string entry; generation : Z }.

Definition empty : t := mk ∅ 0.

Definition get (now ttl : Z) (username : string) (c : t) : option CachedIdentity.t :=
  e ← map c !! username;
  if (generation_of e =? generation c) && (duration_since now (filled_at e) <? ttl) then Some (identity e) else None.

Definition store (now generation : Z) (username : string) (i : CachedIdentity.t) (c : t) : t :=
  mk (<[username := mkEntry generation now i]> (map c)) (IdentityCache.generation c).

(** [fetch_add] on an [AtomicU64], then the clear: two atomic steps. *)
Definition bump (c : t) : t := mk (map c) ((generation c + 1) mod 2 ^ 64).
Definition clear (c : t) : t := mk ∅ (generation c).
Definition invalidate (c : t) : t := clear (bump c).
End IdentityCache.

Definition IDENTITY_CACHE_TTL : Z := from_secs 30.
Definition SPEC_CACHE_TTL : Z := from_secs 1.

(** A user lookup: the row's attributes, no such user, or an error. *)
Definition UserLookup : Type := Result (option CachedIdentity.t) string.

(** The value a completed read resolves to, and whether it is cached. *)
Definition resolved (lookup : option UserLookup) : CachedIdentity.t * bool :=
  match lookup with
  | Some (Ok (Some i)) => (i, true)
  | Some (Ok None) => (CachedIdentity.anonymous, true)
  | Some (Err _) => (CachedIdentity.anonymous, false)
  | None => (CachedIdentity.anonymous, true)
  end.

(** [resolve_identity] run without interruption; [fetch] is the database. *)
Definition resolve_identity (now : Z) (fetch : option (string -> UserLookup)) (username : string) (c : IdentityCache.t)
  : CachedIdentity.t * IdentityCache.t :=
  match IdentityCache.get now IDENTITY_CACHE_TTL username c with
  | Some i => (i, c)
  | None =>
    let generation := IdentityCache.generation c in
    let '(i, cached) := resolved ((fun f => f username) <$> fetch) in
    (i, if cached : bool then IdentityCache.store now generation username i c else c)
  end.

(** ** The spec cache *)

Module Catalog.
(** The database, when attached, and the specs of the configuration file. *)
Record t := mk { fetch_one : option (string -> Result (option Spec.t) string); yaml : list Spec.t }.
End Catalog.

Definition load_spec (cat : Catalog.t) (i : string) : option Spec.t :=
  let from_yaml := List.find (fun s => str_eqb (Spec.id s) i) (Catalog.yaml cat) in
  match Catalog.fetch_one cat with
  | Some f => match f i with Ok (Some spec) => Some spec | Ok None | Err _ => from_yaml end
  | None => from_yaml
  end.

Abbreviation SpecCache := (gmap string (Spec.t * Z)).

Definition find_spec (now : Z) (cat : Catalog.t) (i : string) (cache : SpecCache) : option Spec.t * SpecCache :=
  let reload :=
    match load_spec cat i with
    | Some spec => (Some spec, <[i := (spec, now)]> cache)
    | None => (None, delete i cache)
    end in
  match cache !! i with
  | Some (spec, at_) => if duration_since now at_ <? SPEC_CACHE_TTL then (Some spec, cache) else reload
  | None => reload
  end.

(** The lookups of a run of requests, each against the catalog of its time. *)
Fixpoint lookups (cat : Z -> Catalog.t) (reqs : list (Z * string)) (cache : SpecCache) : SpecCache :=
  match reqs with
  | [] => cache
  | (now, i) :: reqs => lookups cat reqs (find_spec now (cat now) i cache).2
  end.

(** ** Break-glass audit rows *)

Module BypassAudits.
Abbreviation t := (gmap (string * string) Z).

Definition COOLDOWN : Z := from_secs (15 * 60).
Definition CAP : nat := 256.

(** The reservation: whether this request writes the row. *)
Definition reserve (now : Z) (key : string * string) (a : t) : bool * t :=
  match a !! key with
  | Some at_ => if duration_since now at_ <? COOLDOWN then (false, a) else (true, <[key := now]> a)
  | None => (true, <[key := now]> a)
  end.

Definition trim_expired (now : Z) (a : t) : t :=
  if (CAP <? size a)%nat then filter (fun kv => duration_since now kv.2 < COOLDOWN) a else a.

(** [write] is the outcome of the database write, [None] without a database;
    the flag says whether a row was written. *)
Definition audit (now : Z) (write : option (Result unit string)) (key : string * string) (a : t) : bool * t :=
  let '(should_record, a) := reserve now key a in
  if negb should_record then (false, a)
  else
    let a := trim_expired now a in
    match write with
    | Some (Ok _) => (true, a)
    | Some (Err _) | None => (false, delete key a)
    end.
End BypassAudits.

(** ** Requests and admin writes, interleaved *)

Module CacheRuns.
Import IdentityCache.

(** A request filling the cache: the generation it saw, and the value it
    read once it has. *)
Record fill := mkFill { seen : Z; user : string; read : option CachedIdentity.t }.

(** [dbs] are the contents the database had, oldest first, the last one
    current; [settled] is the index of the one at the last generation bump.
    [settled] and [invalidations] are history, not state of the program. *)
Record t := mk {
  cache : IdentityCache.t;
  fills : list fill;
  dbs : list (string -> CachedIdentity.t);
  settled : nat;
  invalidations : nat }.

Definition init (d : string -> CachedIdentity.t) : t := mk IdentityCache.empty [] [d] 0 0.

Inductive step : t -> t -> Prop :=
| step_begin s u :
    step s (mk (cache s) (mkFill (generation (cache s)) u None :: fills s) (dbs s) (settled s) (invalidations s))
| step_read s l1 f l2 d :
    fills s = l1 ++ f :: l2 -> read f = None -> dbs s !! pred (length (dbs s)) = Some d ->
    step s (mk (cache s) (l1 ++ mkFill (seen f) (user f) (Some (d (user f))) :: l2) (dbs s) (settled s) (invalidations s))
| step_failed s l1 f l2 :
    fills s = l1 ++ f :: l2 -> step s (mk (cache s) (l1 ++ l2) (dbs s) (settled s) (invalidations s))
| step_store s l1 f l2 now i :
    fills s = l1 ++ f :: l2 -> read f = Some i ->
    step s (mk (store now (seen f) (user f) i (cache s)) (l1 ++ l2) (dbs s) (settled s) (invalidations s))
| step_write s d :
    step s (mk (cache s) (fills s) (dbs s ++ [d]) (settled s) (invalidations s))
| step_bump s :
    step s (mk (bump (cache s)) (fills s) (dbs s) (pred (length (dbs s))) (S (invalidations s)))
| step_clear s :
    step s (mk (clear (cache s)) (fills s) (dbs s) (settled s) (invalidations s)).

Inductive reachable (d : string -> CachedIdentity.t) : t -> Prop :=
| reach_init : reachable d (init d)
| reach_step s s' : reachable d s -> step s s' -> reachable d s'.

(** The value is what the database held for the user at some point since the
    last generation bump. *)
Definition fresh (s : t) (u : string) (i : CachedIdentity.t) : Prop :=
  exists v d, (settled s <= v)%nat /\ dbs s !! v = Some d /\ i = d u.

(** The generation counts the bumps, and who holds the current one holds a
    fresh value, or has yet to read it. *)
Record counted (s : t) : Prop := {
  inv_generation : generation (cache s) = Z.of_nat (invalidations s);
  inv_fill : forall f, f ∈ fills s ->
    seen f <= generation (cache s)
    /\ forall i, read f = Some i -> seen f = generation (cache s) -> fresh s (user f) i;
  inv_entry : forall u e, map (cache s) !! u = Some e ->
    generation_of e <= generation (cache s)
    /\ (generation_of e = generation (cache s) -> fresh s u (identity e)) }.

Definition inv (s : t) : Prop :=
  (S (settled s) <= length (dbs s))%nat /\ (Z.of_nat (invalidations s) < 2 ^ 64 -> counted s).

Lemma fill_init_inv d : inv (init d).
Proof.
  split; [cbn; lia|]. intros _. split; cbn; [done| |done].
  intros f Hf. by apply not_elem_of_nil in Hf.
Qed.

Lemma counted_same_db s c fs :
  counted s -> generation c = generation (cache s) ->
  (forall f, f ∈ fs -> seen f <= generation c
     /\ forall i, read f = Some i -> seen f = generation c -> fresh s (user f) i) ->
  (forall u e, map c !! u = Some e -> generation_of e <= generation c
     /\ (generation_of e = generation c -> fresh s u (identity e))) ->
  counted (mk c fs (dbs s) (settled s) (invalidations s)).
Proof. intros [Hg _ _] Hc Hf He. split; cbn; [by rewrite Hc|exact Hf|exact He]. Qed.

Lemma fills_sub (l1 l2 : list fill) f f' : f' ∈ l1 ++ l2 -> f' ∈ l1 ++ f :: l2.
Proof. rewrite !elem_of_app, elem_of_cons. tauto. Qed.

Lemma fills_middle (l1 l2 : list fill) f : f ∈ l1 ++ f :: l2.
Proof. apply elem_of_app. right. left. Qed.

Lemma step_keeps_settled s s' : (S (settled s) <= length (dbs s))%nat -> step s s' -> (S (settled s') <= length (dbs s'))%nat.
Proof. intros H Hstep. destruct Hstep; cbn; rewrite ?length_app; cbn; lia. Qed.

Lemma read_is_fresh s d u : inv s -> dbs s !! pred (length (dbs s)) = Some d -> fresh s u (d u).
Proof.
  intros [Hs _] Hd. exists (pred (length (dbs s))), d. split; [lia|done].
Qed.

Lemma write_keeps_fresh s d u i :
  fresh s u i -> fresh (mk (cache s) (fills s) (dbs s ++ [d]) (settled s) (invalidations s)) u i.
Proof. intros (v & d0 & Hv & Hd & ->). exists v, d0. split; [done|]. split; [by apply lookup_app_l_Some|done]. Qed.

Lemma fill_step_inv s s' : inv s -> step s s' -> inv s'.
Proof.
  intros Hinv Hstep. split; [by eapply step_keeps_settled; [apply Hinv|]|]. intros Hlt.
  assert (counted s) as Hc by (apply Hinv; destruct Hstep; cbn in *; lia).
  pose proof Hc as [Hg Hf He].
  destruct Hstep as [s u|s l1 f l2 d Hfs Hr Hd|s l1 f l2 Hfs|s l1 f l2 now i Hfs Hr|s d|s|s].
  - apply counted_same_db; [done|done| |done].
    intros f' [->|Hf']%elem_of_cons; [|by apply Hf]. cbn. split; [lia|done].
  - rewrite Hfs in Hf. apply counted_same_db; [done|done| |done].
    intros f' [Hf'|[->|Hf']%elem_of_cons]%elem_of_app.
    + apply Hf, elem_of_app. by left.
    + cbn. split; [apply Hf, fills_middle|]. intros i [= <-] _. by apply read_is_fresh.
    + apply Hf, elem_of_app. right. by right.
  - apply counted_same_db; [done|done| |done]. intros f' Hf'. apply Hf. rewrite Hfs. by apply fills_sub.
  - rewrite Hfs in Hf. apply counted_same_db; [done|done| |].
    + intros f' Hf'. cbn. by apply Hf, fills_sub.
    + intros u e. cbn. rewrite lookup_insert_Some. intros [[<- <-]|[_ Hu]]; [|by apply He].
      destruct (Hf f (fills_middle _ _ _)) as [Hrange Hv]. split; [done|]. by apply Hv.
  - split; cbn; [done| |].
    + intros f' Hf'. destruct (Hf f' Hf') as [? Hv]. split; [done|]. intros i Hr Hs. by apply write_keeps_fresh, Hv.
    + intros u e Hu. destruct (He u e Hu) as [? Hv]. split; [done|]. intros Hs. by apply write_keeps_fresh, Hv.
  - assert (generation (bump (cache s)) = Z.of_nat (S (invalidations s))) as Hgen
      by (cbn in *; rewrite Hg, Z.mod_small by lia; lia).
    split; [done| |]; cbn [cache fills] in *; rewrite Hgen.
    + intros f Hin. destruct (Hf f Hin) as [Hrange _]. split; [lia|]. intros i _ Hs. lia.
    + intros u e Hu. destruct (He u e Hu) as [Hrange _]. split; [lia|]. intros Hs. lia.
  - apply counted_same_db; [done|done|done|]. intros u e Hu. cbn in Hu. by rewrite lookup_empty in Hu.
Qed.

Lemma reachable_inv d s : reachable d s -> inv s.
Proof. induction 1; [apply fill_init_inv|by eapply fill_step_inv]. Qed.
End CacheRuns.

(** ** Properties *)

Module CachesProperties.
Import CacheRuns.

Definition honest (cat : Z -> Catalog.t) (now : Z) (cache : SpecCache) : Prop :=
  forall i spec at_, cache !! i = Some (spec, at_) -> at_ <= now /\ load_spec (cat at_) i = Some spec.

Lemma honest_later cat now later cache : honest cat now cache -> now <= later -> honest cat later cache.
Proof. intros H Hle i spec at_ Hl. destruct (H i spec at_ Hl). split; [lia|done]. Qed.

Lemma find_spec_honest cat now i cache :
  honest cat now cache ->
  honest cat now (find_spec now (cat now) i cache).2
  /\ exists t, now - SPEC_CACHE_TTL < t <= now /\ (find_spec now (cat now) i cache).1 = load_spec (cat t) i.
Proof.
  intros H.
  assert (forall r, r = match load_spec (cat now) i with
                        | Some spec => (Some spec, <[i := (spec, now)]> cache)
                        | None => (None, delete i cache) end ->
    honest cat now r.2 /\ exists t, now - SPEC_CACHE_TTL < t <= now /\ r.1 = load_spec (cat t) i) as Hreload.
  { intros r ->. split; [|exists now; split; [unfold SPEC_CACHE_TTL, from_secs; lia|by destruct (load_spec (cat now) i)]].
    destruct (load_spec (cat now) i) as [spec|] eqn:Hl; cbn; intros j spec' at_.
    - intros [[<- [= <- <-]]|[_ Hj]]%lookup_insert_Some; [split; [lia|done]|by apply H].
    - intros [_ Hj]%lookup_delete_Some. by apply H. }
  unfold find_spec. destruct (cache !! i) as [[spec at_]|] eqn:Hi; [|by apply Hreload].
  destruct (duration_since now at_ <? SPEC_CACHE_TTL) eqn:Hfresh; [|by apply Hreload].
  split; [done|]. destruct (H _ _ _ Hi) as [Hle Hload]. exists at_. split; [|by rewrite Hload].
  apply Z.ltb_lt in Hfresh. unfold duration_since, saturating_sub in Hfresh. lia.
Qed.

Lemma lookups_honest cat reqs now cache before :
  honest cat before cache -> StronglySorted Z.le (before :: (reqs.*1 ++ [now])) ->
  honest cat now (lookups cat reqs cache).
Proof.
  revert cache before. induction reqs as [|[at_ i] reqs IH]; intros cache before H Hs.
  - inversion_clear Hs as [|?? _ Hall]. inversion_clear Hall. by eapply honest_later.
  - inversion_clear Hs as [|?? Hs' Hall]. inversion_clear Hall. cbn. eapply IH; [|exact Hs'].
    apply find_spec_honest. by eapply honest_later.
Qed.

(** Whatever requests came before, a request is answered from a spec
    the catalog resolved to less than one second earlier: an edit, an access
    rule or a deletion takes effect within that window. *)
Theorem find_spec_within_window (cat : Z -> Catalog.t) (reqs : list (Z * string)) (now : Z) (i : string)
    (Hclock : StronglySorted Z.le (reqs.*1 ++ [now])) :
  exists t, now - from_secs 1 < t <= now
    /\ (find_spec now (cat now) i (lookups cat reqs ∅)).1 = load_spec (cat t) i.
Proof.
  assert (honest cat now (lookups cat reqs ∅)) as H; [|by apply (find_spec_honest cat now i _ H)].
  destruct reqs as [|[at_ j] reqs]; [intros ??? H; cbn in H; by rewrite lookup_empty in H|].
  cbn. inversion_clear Hclock as [|?? Hs Hall]. eapply (lookups_honest cat reqs now _ at_); [|by constructor].
  apply find_spec_honest. intros ??? H; by rewrite lookup_empty in H.
Qed.

(** C10. However requests and admin writes interleave, the identity cache
    only serves a value the database held for that user at or after the
    write the last invalidation followed: a request that read the user
    before a revocation cannot make the old groups readable after it.  Fewer
    than 2^64 invalidations. *)
Theorem identity_cache_never_revives (d : string -> CachedIdentity.t) (s : CacheRuns.t) (now ttl : Z) (u : string)
    (i : CachedIdentity.t) (Hreach : reachable d s) (Hcount : Z.of_nat (invalidations s) < 2 ^ 64)
    (Hget : IdentityCache.get now ttl u (cache s) = Some i) :
  exists v db, (settled s <= v)%nat /\ dbs s !! v = Some db /\ i = db u.
Proof.
  destruct (reachable_inv d s Hreach) as [_ Hinv]. specialize (Hinv Hcount). unfold IdentityCache.get in Hget.
  destruct (IdentityCache.map (cache s) !! u) as [e|] eqn:He; [|done]. cbn in Hget. case_match eqn:Hg; [|done]. simplify_eq.
  apply andb_true_iff in Hg as [Hg%Z.eqb_eq _].
  by apply (inv_entry s Hinv u e He).
Qed.

(** A user whose lookup fails resolves to no groups and is not
    cached; a resolved user is served from the cache, whatever the database
    says, for less than thirty seconds and not a moment longer, and never
    past an invalidation. *)
Theorem identity_resolution (now later : Z) (u : string) (lookup : UserLookup) (fetch' : option (string -> UserLookup))
    (c : IdentityCache.t) (Hmiss : IdentityCache.get now IDENTITY_CACHE_TTL u c = None) (Hlater : now <= later) :
  let '(i, c') := resolve_identity now (Some (fun _ => lookup)) u c in
  match lookup with
  | Err _ => i = CachedIdentity.anonymous /\ c' = c
  | Ok row =>
    i = default CachedIdentity.anonymous row
    /\ (later < now + from_secs 30 -> resolve_identity later fetch' u c' = (i, c'))
    /\ (now + from_secs 30 <= later -> IdentityCache.get later IDENTITY_CACHE_TTL u c' = None)
    /\ IdentityCache.get later IDENTITY_CACHE_TTL u (IdentityCache.invalidate c') = None
  end.
Proof.
  unfold resolve_identity at 1. rewrite Hmiss. destruct lookup as [row|msg]; cbn; [|by destruct c].
  assert (forall i, IdentityCache.get later IDENTITY_CACHE_TTL u (IdentityCache.store now (IdentityCache.generation c) u i c)
                    = if later <? now + from_secs 30 then Some i else None) as Hget.
  { intros i. unfold IdentityCache.get. cbn. rewrite lookup_insert_eq. cbn. rewrite Z.eqb_refl. cbn.
    unfold duration_since, saturating_sub, IDENTITY_CACHE_TTL, from_secs.
    destruct (Z.ltb_spec (Z.max 0 (later - now)) (30 * 1000000000)), (Z.ltb_spec later (now + 30 * 1000000000)); done || lia. }
  destruct row as [i|]; cbn; (split; [done|]); (split; [|split]); intros; unfold resolve_identity; rewrite ?Hget;
    rewrite ?(proj2 (Z.ltb_lt _ _)), ?(proj2 (Z.ltb_ge _ _)) by done; done.
Qed.
End CachesProperties.

(** ** Concrete runs *)

Module CachesExamples.
Import IdentityCache CacheRuns.

Definition old_groups : CachedIdentity.t := CachedIdentity.mk ["staff"; "finance"] None None.
Definition new_groups : CachedIdentity.t := CachedIdentity.mk ["staff"] None None.

(** A fill begins and reads; an admin revokes a group and invalidates; the
    stale fill lands and is not served; the next one is. *)
Definition raced : CacheRuns.t :=
  mk (store 7 0 "ana" old_groups (IdentityCache.clear (bump IdentityCache.empty))) []
     [fun _ => old_groups; fun _ => new_groups] 1 1.

Definition started : CacheRuns.t := mk IdentityCache.empty [mkFill 0 "ana" None] [fun _ => old_groups] 0 0.
Definition fetched : CacheRuns.t := mk IdentityCache.empty [mkFill 0 "ana" (Some old_groups)] [fun _ => old_groups] 0 0.
Definition revoked : CacheRuns.t :=
  mk IdentityCache.empty (fills fetched) [fun _ => old_groups; fun _ => new_groups] 0 0.
Definition bumped : CacheRuns.t := mk (bump IdentityCache.empty) (fills fetched) (dbs revoked) 1 1.
Definition cleared : CacheRuns.t := mk (IdentityCache.clear (cache bumped)) (fills fetched) (dbs revoked) 1 1.

Lemma raced_reachable : reachable (fun _ => old_groups) raced.
Proof.
  apply (reach_step _ cleared); [|exact (step_store cleared [] (mkFill 0 "ana" (Some old_groups)) [] 7 old_groups eq_refl eq_refl)].
  apply (reach_step _ bumped); [|exact (step_clear bumped)].
  apply (reach_step _ revoked); [|exact (step_bump revoked)].
  apply (reach_step _ fetched); [|exact (step_write fetched (fun _ => new_groups))].
  apply (reach_step _ started); [|exact (step_read started [] (mkFill 0 "ana" None) [] (fun _ => old_groups) eq_refl eq_refl eq_refl)].
  eapply reach_step; [apply reach_init|exact (step_begin (init (fun _ => old_groups)) "ana")].
Qed.

Example raced_fill_unread : IdentityCache.get 8 IDENTITY_CACHE_TTL "ana" (cache raced) = None.
Proof. vm_compute. reflexivity. Qed.

Definition refilled : CacheRuns.t :=
  mk (store 9 1 "ana" new_groups (cache raced)) [] (dbs raced) (settled raced) (invalidations raced).

Definition filling (r : option CachedIdentity.t) : CacheRuns.t :=
  mk (cache raced) [mkFill 1 "ana" r] (dbs raced) (settled raced) (invalidations raced).

Lemma refilled_reachable : reachable (fun _ => old_groups) refilled.
Proof.
  apply (reach_step _ (filling (Some new_groups)));
    [|exact (step_store (filling (Some new_groups)) [] (mkFill 1 "ana" (Some new_groups)) [] 9 new_groups eq_refl eq_refl)].
  apply (reach_step _ (filling None));
    [|exact (step_read (filling None) [] (mkFill 1 "ana" None) [] (fun _ => new_groups) eq_refl eq_refl eq_refl)].
  exact (reach_step _ raced _ raced_reachable (step_begin raced "ana")).
Qed.

Lemma identity_cache_never_revives_witness :
  exists v db, (1 <= v)%nat /\ dbs refilled !! v = Some db /\ new_groups = db "ana".
Proof.
  refine (CachesProperties.identity_cache_never_revives (fun _ => old_groups) refilled 10 IDENTITY_CACHE_TTL "ana"
    new_groups refilled_reachable _ _); vm_compute; reflexivity.
Defined.

Lemma identity_resolution_witness :
  IdentityCache.get (5 + from_secs 30) IDENTITY_CACHE_TTL "ana"
    (resolve_identity 5 (Some (fun _ => Ok (Some new_groups))) "ana" IdentityCache.empty).2 = None.
Proof.
  refine (proj1 (proj2 (proj2 (CachesProperties.identity_resolution 5 (5 + from_secs 30) "ana" (Ok (Some new_groups)) None
    IdentityCache.empty _ _))) _); [reflexivity|by vm_compute|by vm_compute].
Defined.

Definition edited (t : Z) : Catalog.t :=
  Catalog.mk (Some (fun _ => Ok (if t <? 5 then Some (Spec.sample "app" (Some "img") None None None None None) else None))) [].

Lemma find_spec_within_window_witness :
  exists t, 6 - from_secs 1 < t <= 6
    /\ (find_spec 6 (edited 6) "app" (lookups edited [(2, "app"); (4, "other")] ∅)).1 = load_spec (edited t) "app".
Proof.
  apply (CachesProperties.find_spec_within_window edited [(2, "app"); (4, "other")] 6 "app").
  cbn. repeat constructor; lia.
Defined.
Example served_stale : is_Some (find_spec 6 (edited 6) "app" (lookups edited [(2, "app")] ∅)).1.
Proof. vm_compute. by eexists. Qed.
Example served_deleted : (find_spec (3 + from_secs 1) (edited (3 + from_secs 1)) "app" (lookups edited [(2, "app")] ∅)).1 = None.
Proof. vm_compute. reflexivity. Qed.

(** A second bypass within the quarter hour writes no row; after a failed
    write the next one does. *)
Example bypass_audited_once :
  let '(w1, a1) := BypassAudits.audit 0 (Some (Ok tt)) ("sid", "app") ∅ in
  let '(w2, _) := BypassAudits.audit (from_secs 60) (Some (Ok tt)) ("sid", "app") a1 in
  (w1, w2) = (true, false).
Proof. vm_compute. reflexivity. Qed.
Example bypass_retried_after_failure :
  let '(w1, a1) := BypassAudits.audit 0 (Some (Err "down")) ("sid", "app") ∅ in
  let '(w2, _) := BypassAudits.audit (from_secs 60) (Some (Ok tt)) ("sid", "app") a1 in
  (w1, w2) = (false, true).
Proof. vm_compute. reflexivity. Qed.
End CachesExamples.
