(* ===== verification/Gateway.v ===== *)
(** * The request gate (ruscker-admin/src/routes/proxy.rs, first half of [forward])

    The state a proxied request sees, requests and replies, and the stages
    that decide whether a request may reach a container: the spec lookup,
    external links, CORS and the rate limit of APIs, the body size, access
    control, the per-app MFA step-up and the presence of a backend.  A stage
    either continues with a value or replies. *)

From Stdlib Require Import ZArith Lia Ascii String.
From stdpp Require Import base tactics list gmap strings sets fin_maps numbers.
From S2P Require Import Prelude Text Schema Core Sessions RateLimit Counters Sticky Headers Routing Spawn Auth Caches.

Local Open Scope string_scope.
Local Open Scope list_scope.
Local Open Scope Z_scope.
Local Open Scope ruscker_scope.

(** ** Third-party crates the gate calls *)

(** IP addresses, percent-encoding, URIs, redirects and the 101 response. *)
Class WebCrates := {
  IpAddr : Type;
  parse_ip : string -> option IpAddr;
  show_ip : IpAddr -> string;
  byte_serialize : string -> string;
  parse_uri : string -> option string;
  redirect_to : string -> Response.t;
  switching_protocols : option string -> Response.t
}.

(** ** Configuration *)

(** The reads of the database, and the outcome of writing an audit row. *)
Module Db.
Record t := mk {
  fetch_spec : string -> Result (option Spec.t) string;
  fetch_user : string -> UserLookup;
  mfa : MfaDb.t;
  record_audit : Result unit string }.
End Db.

(** What does not change while a process runs; [splash_template] is the text
    of [SPLASH_TEMPLATE]. *)
Module Portal.
Record t := mk {
  server : Server.t;
  max_body_size : option string;
  specs : list Spec.t;
  db : option Db.t;
  cookie_key : string;
  env : Env.t;
  splash_template : string }.

Definition base_path (p : t) : string := Env.base_path (env p).
Definition catalog (p : t) : Catalog.t := Catalog.mk (Db.fetch_spec <$> db p) (specs p).
End Portal.

(** The clock readings of one request, the day and the random session id. *)
Module Moment.
Record t := mk {
  spec_at : Z;
  limit_at : Z;
  identity_at : Z;
  audit_at : Z;
  mfa_at : Z;
  touch_at : Z;
  today : string;
  fresh : Uuid }.
End Moment.

(** ** Requests and replies *)

Module Request.
Record t `{WebCrates} := mk {
  method : string;
  path_and_query : option string;
  path : string;
  query : option string;
  headers : HeaderMap.t;
  body : string;
  cookies : string -> option string;
  upgrade : bool;
  peer : option IpAddr;
  session : option SessionInfo.t }.

Definition set_headers `{WebCrates} (h : HeaderMap.t) (r : t) : t :=
  mk _ (method r) (path_and_query r) (path r) (query r) h (body r) (cookies r) (upgrade r) (peer r) (session r).
End Request.

Module Jar.
(** What a reply does to the browser's cookies. *)
Inductive op :=
| Add (name value path : string) (secure : bool) (max_age : Z)
| Remove (name path : string).
End Jar.

(** A response, its cookies, and the in-flight guard its body holds. *)
Module Reply.
Record t := mk { response : Response.t; jar : list Jar.op; guard : option ReplicaId }.
Definition bare (r : Response.t) : t := mk r [] None.
End Reply.

(** [(status, text).into_response()] *)
Definition plain (status : Z) (text : string) : Response.t :=
  Response.mk status (HeaderMap.insert "content-type" "text/plain; charset=utf-8" ∅) text.

Definition newline : string := String "010" EmptyString.

(** ** The state *)

(** What a container received. *)
Module HttpCall.
Record t := mk { uri : string; method : string; headers : HeaderMap.t; body : string; limit : option Z }.
End HttpCall.

Module WsCall.
Record t := mk { url : string; cookie : option string; subprotocols : option string; identity : list (string * string) }.
End WsCall.

Module Call.
Inductive t := Http (c : HttpCall.t) | Ws (c : WsCall.t).
End Call.

(** A spawned background task. *)
Module Task.
Inductive t := EnsureAvailable (spec : Spec.t) | ReplacementSpawn (spec : Spec.t).
End Task.

Inductive ActivityEventType := LoginSuccess | AppAccess.

(** [auth_method] as its text: password, or token. *)
Module ActivityEvent.
Record t := mk {
  event_type : ActivityEventType;
  username : option string;
  spec_id : option string;
  event_key : string;
  auth_method : option string;
  client_ip : option string;
  occurred_at : Z }.
Definition app_access (now : Z) (username : option string) (spec_id event_key : string)
    (auth_method client_ip : option string) : t :=
  mk AppAccess username (Some spec_id) event_key auth_method client_ip now.
Definition login_success (now : Z) (username auth_method event_key : string) (client_ip : option string) : t :=
  mk LoginSuccess (Some username) None event_key (Some auth_method) client_ip now.
End ActivityEvent.

(** [world] is the runtime's state; [calls] are the requests sent to
    containers, oldest first, a history the program does not keep. *)
Module Gateway.
Record t {B : Type} := mk {
  world : World.t B;
  limiter : ApiRateLimiter.t;
  access : AccessCounter.t;
  activity : ActivitySink.t ActivityEvent.t;
  logout_index : gmap string (gset Uuid);
  identities : IdentityCache.t;
  spec_cache : SpecCache;
  audits : BypassAudits.t;
  tasks : list Task.t;
  calls : list Call.t }.
Arguments t : clear implicits.
Arguments mk {B}.

Section Setters.
Context {B : Type}.
Implicit Types g : t B.
Definition set_world x g : t B := mk x (limiter g) (access g) (activity g) (logout_index g) (identities g) (spec_cache g) (audits g) (tasks g) (calls g).
Definition set_limiter x g : t B := mk (world g) x (access g) (activity g) (logout_index g) (identities g) (spec_cache g) (audits g) (tasks g) (calls g).
Definition set_access x g : t B := mk (world g) (limiter g) x (activity g) (logout_index g) (identities g) (spec_cache g) (audits g) (tasks g) (calls g).
Definition set_activity x g : t B := mk (world g) (limiter g) (access g) x (logout_index g) (identities g) (spec_cache g) (audits g) (tasks g) (calls g).
Definition set_logout_index x g : t B := mk (world g) (limiter g) (access g) (activity g) x (identities g) (spec_cache g) (audits g) (tasks g) (calls g).
Definition set_identities x g : t B := mk (world g) (limiter g) (access g) (activity g) (logout_index g) x (spec_cache g) (audits g) (tasks g) (calls g).
Definition set_spec_cache x g : t B := mk (world g) (limiter g) (access g) (activity g) (logout_index g) (identities g) x (audits g) (tasks g) (calls g).
Definition set_audits x g : t B := mk (world g) (limiter g) (access g) (activity g) (logout_index g) (identities g) (spec_cache g) x (tasks g) (calls g).
Definition spawn_task x g : t B := mk (world g) (limiter g) (access g) (activity g) (logout_index g) (identities g) (spec_cache g) (audits g) (tasks g ++ [x]) (calls g).
Definition log_call x g : t B := mk (world g) (limiter g) (access g) (activity g) (logout_index g) (identities g) (spec_cache g) (audits g) (tasks g) (calls g ++ [x]).
End Setters.
End Gateway.

(** ** Early returns *)

(** A stage continues with [Ok] or replies with [Err]. *)
Definition Stage (B A : Type) : Type := St (Gateway.t B) (Result A Response.t).

Definition stage_bind {B A A'} (m : Stage B A) (k : A -> Stage B A') : Stage B A' :=
  do r <- m; match r with Ok a => k a | Err resp => st_ret (Err resp) end.
Definition continue {B A} (a : A) : Stage B A := st_ret (Ok a).
Definition return_reply {B A} (r : Response.t) : Stage B A := st_ret (Err r).
(** An effect before the next stage. *)
Definition effect {B A} (m : St (Gateway.t B) A) : Stage B A := do a <- m; st_ret (Ok a).

Notation "'stage' x '<-' m ';' k" := (stage_bind m (fun x => k))
  (at level 10, x pattern, m at level 100, k at level 200) : ruscker_scope.
Notation "'stage!' m ';' k" := (stage_bind m (fun _ => k))
  (at level 10, m at level 100, k at level 200) : ruscker_scope.

(** ** Identity *)

Module Identity.
Record t := mk { username : string; groups : list string; email : option string; setor : option string }.

Definition claim_header (i : t) (claim : IdentityClaim.t) : option (string * string) :=
  let '(name, value) :=
    match claim with
    | IdentityClaim.Email => ("X-Ruscker-User-Email", email i)
    | IdentityClaim.Setor => ("X-Ruscker-User-Setor", setor i)
    end in
  value ← value;
  if str_is_empty (trim value) then None else Some (name, value).

Definition header_pairs (i : t) (add_default_http_headers : bool) (claims : list IdentityClaim.t)
  : list (string * string) :=
  (if add_default_http_headers
   then [("X-SP-UserId", username i); ("X-SP-UserGroups", str_join "," (groups i))] else [])
  ++ omap (claim_header i) claims.
End Identity.

(** ** Stages *)

Section Stages.
Context {B : Type} `{ContainerBackend B} `{HttpCrate} `{WebCrates} `{MfaCrates}.
Context (portal : Portal.t) (clk : Moment.t).
Implicit Types (req : Request.t) (spec : Spec.t).

Definition forwarded_trusted : bool := forward_headers_trusted (Portal.server portal).

(** Signed-in username, if any. *)
Definition acting_user req : option string := Request.session req ≫= SessionInfo.actor.

Definition record_access (spec_id : string) : St (Gateway.t B) unit := st_modify (fun g =>
  match Portal.db portal with
  | Some _ => Gateway.set_access (AccessCounter.bump (Moment.today clk) spec_id (Gateway.access g)) g
  | None => g
  end).

(** Step 1. *)
Definition find_spec_stage (spec_id : string) : Stage B Spec.t := fun g =>
  let '(found, cache) := find_spec (Moment.spec_at clk) (Portal.catalog portal) spec_id (Gateway.spec_cache g) in
  let g := Gateway.set_spec_cache cache g in
  match found with
  | Some spec => continue spec g
  | None => return_reply (plain 404 ("spec `" +:+ spec_id +:+ "` not found")) g
  end.

(** Step 2. *)
Definition external_stage spec : Stage B unit :=
  if bool_decide (Spec.kind spec = SpecKind.External) then
    match TemplateProperties.get_str (Spec.template_properties spec) "link" with
    | Some target => stage! effect (record_access (Spec.id spec)); return_reply (redirect_to target)
    | None => return_reply (plain 404 "external spec has no template-properties.link")
    end
  else continue tt.

(** Step 2b. *)
Definition api_policies (route_prefix : string) spec : option ApiSpec.t :=
  if str_eqb route_prefix API_PREFIX then Spec.api spec else None.
Definition cors_on (route_prefix : string) spec : bool :=
  match api_policies route_prefix spec with Some a => ApiSpec.cors a | None => false end.

Definition too_many_requests (retry_after_secs : Z) : Response.t :=
  let resp := plain 429 ("rate limit exceeded; retry after " +:+ show retry_after_secs +:+ "s" +:+ newline) in
  match value_from_str (show retry_after_secs) with
  | Some v => Response.map_headers (HeaderMap.insert "retry-after" v) resp
  | None => resp
  end.

Definition rate_limit_stage (cors : bool) req spec (policy : RatePolicy.t) : Stage B unit := fun g =>
  let client := client_key parse_ip show_ip (Portal.server portal) (Request.headers req) (Request.peer req) in
  let '(decision, limiter) := ApiRateLimiter.check (Moment.limit_at clk) (Spec.id spec) client policy (Gateway.limiter g) in
  let g := Gateway.set_limiter limiter g in
  match decision with
  | RateDecision.Allow => continue tt g
  | RateDecision.Deny secs => return_reply (with_cors cors (too_many_requests secs)) g
  end.

Definition api_stage (route_prefix : string) req spec : Stage B unit :=
  match api_policies route_prefix spec with
  | None => continue tt
  | Some api =>
    if ApiSpec.cors api && str_eqb (Request.method req) "OPTIONS" then return_reply cors_preflight_response
    else match rate_policy api with
         | Some policy => rate_limit_stage (ApiSpec.cors api) req spec policy
         | None => continue tt
         end
  end.

(** Step 2c: the declared length against the limit. *)
Definition declared_length (headers : HeaderMap.t) : option Z :=
  (HeaderMap.get "content-length" headers ≫= to_str) ≫= parse_i64.

Definition max_body spec : option Z :=
  Spec.effective_max_body_bytes spec (max_body_bytes (Portal.max_body_size portal)).

Definition body_too_large req spec : option Z :=
  limit ← max_body spec;
  len ← declared_length (Request.headers req);
  if limit <? len then Some limit else None.

Definition body_stage (cors : bool) req spec : Stage B unit :=
  match body_too_large req spec with
  | Some limit =>
    return_reply (with_cors cors (plain 413 ("request body exceeds " +:+ show limit +:+ " bytes" +:+ newline)))
  | None => continue tt
  end.

(** [usize::try_from], saturating. *)
Definition body_cap spec : option Z := (fun l => if (0 <=? l) && (l <=? u64_max) then l else u64_max) <$> max_body spec.

(** Step 2d. *)
Definition needs_identity spec : bool :=
  negb (Spec.is_open spec) || Spec.effective_add_default_http_headers spec
  || match Spec.effective_identity_claims spec with [] => false | _ => true end.

Definition identity_stage req spec : Stage B (option Identity.t) := fun g =>
  match acting_user req with
  | Some username =>
    if needs_identity spec then
      let '(i, cache) := resolve_identity (Moment.identity_at clk) (Db.fetch_user <$> Portal.db portal) username
                           (Gateway.identities g) in
      continue (Some (Identity.mk username (CachedIdentity.groups i) (CachedIdentity.email i) (CachedIdentity.setor i)))
        (Gateway.set_identities cache g)
    else continue None g
  | None => continue None g
  end.

Definition identity_headers spec (identity : option Identity.t) : list (string * string) :=
  match identity with
  | Some i => Identity.header_pairs i (Spec.effective_add_default_http_headers spec) (Spec.effective_identity_claims spec)
  | None => []
  end.

Definition is_admin req : bool :=
  match Request.session req with Some s => bool_decide (SessionInfo.role s = Role.Admin) | None => false end.

Definition access_granted req spec (identity : option Identity.t) : bool :=
  Spec.is_open spec
  || Spec.access_allows spec (is_admin req) (acting_user req)
       (match identity with Some i => Identity.groups i | None => [] end).

Definition is_app (route_prefix : string) : bool := str_eqb route_prefix APP_PREFIX.
Definition anonymous req : bool := bool_decide (Request.session req = None).

Definition login_redirect req : Response.t :=
  let next := default (Request.path req) (Request.path_and_query req) in
  redirect_to (with_next_query byte_serialize (Portal.base_path portal +:+ "/admin/login") next).

Definition access_stage (route_prefix : string) (cors : bool) req spec (identity : option Identity.t) : Stage B unit :=
  if access_granted req spec identity then continue tt
  else if is_app route_prefix && anonymous req then
    if Request.upgrade req
    then return_reply (plain 401 ("authentication required before WebSocket upgrade" +:+ newline))
    else return_reply (login_redirect req)
  else return_reply (with_cors cors (plain 403 ("access denied" +:+ newline))).

(** Step 2e. *)
Definition APP_NEXT_FALLBACK (spec_id upstream_path : string) req : string :=
  APP_PREFIX +:+ spec_id +:+ upstream_path
  +:+ match Request.query req with Some q => "?" +:+ q | None => EmptyString end.

Definition mfa_app_next (spec_id upstream_path : string) req : string :=
  match local_next_path (Some (default (Request.path req) (Request.path_and_query req))) with
  | Some next => next
  | None => default "/" (local_next_path (Some (APP_NEXT_FALLBACK spec_id upstream_path req)))
  end.

Inductive Destination := ToLoginPage | ToEnrollment | ToChallenge.

Definition mfa_app_redirect (spec_id upstream_path : string) req (destination : Destination) : Response.t :=
  let next := mfa_app_next spec_id upstream_path req in
  let path := Portal.base_path portal +:+
    match destination with
    | ToLoginPage => "/admin/login"
    | ToEnrollment => "/admin/account/mfa"
    | ToChallenge => "/admin/account/mfa/challenge"
    end in
  redirect_to (with_next_query byte_serialize path next).

(** The break-glass session: an Admin without an account. *)
Definition is_break_glass req : bool :=
  match Request.session req with
  | Some s => bool_decide (SessionInfo.role s = Role.Admin) && bool_decide (SessionInfo.actor s = None)
  | None => false
  end.

Definition session_cookie req : option string := Request.cookies req ADMIN_COOKIE_NAME.

Definition audit_mfa_break_glass_bypass (session_id spec_id : string) : St (Gateway.t B) unit := st_modify (fun g =>
  Gateway.set_audits
    (BypassAudits.audit (Moment.audit_at clk) (Db.record_audit <$> Portal.db portal) (session_id, spec_id)
       (Gateway.audits g)).2 g).

Definition mfa_decision req spec (username session_id : string) : MfaDecision.t :=
  evaluate (Moment.mfa_at clk) (Db.mfa <$> Portal.db portal) username session_id
    (Request.cookies req "__ruscker_mfa_device") spec.

(** The three replies to a request without its MFA proof. *)
Definition mfa_refused (route_prefix upstream_path : string) (cors : bool) req spec (api : Response.t)
    (destination : Destination) : Stage B unit :=
  if str_eqb route_prefix API_PREFIX then return_reply (with_cors cors api)
  else if Request.upgrade req
  then return_reply (plain 401 ("MFA proof required before WebSocket upgrade" +:+ newline))
  else return_reply (mfa_app_redirect (Spec.id spec) upstream_path req destination).

Definition mfa_stage (route_prefix upstream_path : string) (cors : bool) req spec : Stage B unit :=
  if negb (Spec.effective_require_mfa spec) then continue tt
  else if is_break_glass req
  then effect (audit_mfa_break_glass_bypass (default "missing-session-cookie" (session_cookie req)) (Spec.id spec))
  else
    let refused := mfa_refused route_prefix upstream_path cors req spec in
    match Request.session req with
    | None =>
      refused (plain 401 ("MFA-protected API requires an authenticated user session" +:+ newline)) ToLoginPage
    | Some session =>
      match SessionInfo.actor session, session_cookie req with
      | Some username, Some session_id =>
        let must_prove :=
          refused (plain 403 ("MFA proof required for this API; complete it in the web portal" +:+ newline)) in
        match mfa_decision req spec username session_id with
        | MfaDecision.Satisfied => continue tt
        | MfaDecision.EnrollmentRequired => must_prove ToEnrollment
        | MfaDecision.ChallengeRequired => must_prove ToChallenge
        end
      | _, _ => return_reply (with_cors cors (plain 403 ("MFA proof required for this protected app" +:+ newline)))
      end
    end.

(** Step 3. *)
Definition backend_stage (cors : bool) : Stage B unit := fun g =>
  match World.backend (Gateway.world g) with
  | Some _ => continue tt g
  | None => return_reply (with_cors cors (plain 503 "no container backend wired — start with --docker")) g
  end.

(** Steps 2b to 3: what the request's identity adds upstream, or a reply. *)
Definition gate (route_prefix upstream_path : string) req spec : Stage B (list (string * string)) :=
  let cors := cors_on route_prefix spec in
  stage! external_stage spec;
  stage! api_stage route_prefix req spec;
  stage! body_stage cors req spec;
  stage identity <- identity_stage req spec;
  stage! access_stage route_prefix cors req spec identity;
  stage! mfa_stage route_prefix upstream_path cors req spec;
  stage! backend_stage cors;
  continue (identity_headers spec identity).
End Stages.

(** ** Lemmas *)

Lemma stage_bind_Err {B A A'} (m : Stage B A) (k : A -> Stage B A') g reply g1 :
  m g = (Err reply, g1) -> stage_bind m k g = (Err reply, g1).
Proof. unfold stage_bind, st_bind. by intros ->. Qed.

Lemma stage_bind_Ok {B A A'} (m : Stage B A) (k : A -> Stage B A') g a g1 :
  m g = (Ok a, g1) -> stage_bind m k g = k a g1.
Proof. unfold stage_bind, st_bind. by intros ->. Qed.

Lemma stage_bind_effect {B A A'} (m : St (Gateway.t B) A) (k : A -> Stage B A') g :
  stage_bind (effect m) k g = k (m g).1 (m g).2.
Proof. unfold stage_bind, effect, st_bind. by destruct (m g). Qed.

Lemma stage_bind_inv {B A A'} (m : Stage B A) (k : A -> Stage B A') g a' g2 :
  stage_bind m k g = (Ok a', g2) -> exists a g1, m g = (Ok a, g1) /\ k a g1 = (Ok a', g2).
Proof. unfold stage_bind, st_bind. destruct (m g) as [[a|reply] g1]; [|done]. eauto. Qed.

(** What a reply of the gate leaves alone: replicas, sessions, gauges and the
    backend, background tasks, containers and the user activity. *)
Record undisturbed {B} (g g' : Gateway.t B) : Prop := {
  same_world : Gateway.world g' = Gateway.world g;
  same_tasks : Gateway.tasks g' = Gateway.tasks g;
  same_calls : Gateway.calls g' = Gateway.calls g;
  same_activity : Gateway.activity g' = Gateway.activity g;
  same_logout_index : Gateway.logout_index g' = Gateway.logout_index g }.

#[export] Instance undisturbed_preorder {B} : PreOrder (@undisturbed B).
Proof.
  split; [by split|]. intros g1 g2 g3 [? ? ? ? ?] [? ? ? ? ?]. split; congruence.
Qed.

Lemma preserves_stage_bind {B A A'} R `{!PreOrder R} (m : Stage B A) (k : A -> Stage B A') :
  preserves R m -> (forall a, preserves R (k a)) -> preserves R (stage_bind m k).
Proof.
  intros Hm Hk. apply preserves_bind; [apply _|done|]. intros [a|reply]; [apply Hk|apply preserves_ret, _].
Qed.

Section GateLemmas.
Context {B : Type} `{ContainerBackend B} `{HttpCrate} `{WebCrates} `{MfaCrates}.
Context (portal : Portal.t) (clk : Moment.t).
Implicit Types (req : Request.t) (spec : Spec.t) (g : Gateway.t B).

Lemma undisturbed_reply {A} r : preserves undisturbed (return_reply r : Stage B A).
Proof. apply preserves_ret, _. Qed.

Lemma undisturbed_continue {A} (a : A) : preserves undisturbed (continue a : Stage B A).
Proof. apply preserves_ret, _. Qed.

Lemma undisturbed_modify {A} (f : Gateway.t B -> Gateway.t B) (k : Stage B A) :
  (forall g, undisturbed g (f g)) -> preserves undisturbed k -> preserves undisturbed (stage! effect (st_modify f); k).
Proof.
  intros Hf Hk. apply preserves_stage_bind; [apply _| |done]. apply preserves_bind; [apply _|by apply preserves_modify|].
  intros ?. apply preserves_ret, _.
Qed.

Lemma undisturbed_record_access spec_id g : undisturbed g (record_access (B := B) portal clk spec_id g).2.
Proof. unfold record_access, st_modify. destruct (Portal.db portal); by split. Qed.

Lemma undisturbed_find spec_id : preserves undisturbed (find_spec_stage (B := B) portal clk spec_id).
Proof. intros g. unfold find_spec_stage. destruct (find_spec _ _ _ _) as [[spec|] cache]; by split. Qed.

Lemma undisturbed_external spec : preserves undisturbed (external_stage (B := B) portal clk spec).
Proof.
  unfold external_stage. repeat split_match; try (apply undisturbed_reply || apply undisturbed_continue).
  apply undisturbed_modify; [apply undisturbed_record_access|apply undisturbed_reply].
Qed.

Lemma undisturbed_api route req spec : preserves undisturbed (api_stage (B := B) portal clk route req spec).
Proof.
  unfold api_stage. repeat split_match; try (apply undisturbed_reply || apply undisturbed_continue).
  intros g. unfold rate_limit_stage. destruct (ApiRateLimiter.check _ _ _ _ _) as [[|secs] l]; by split.
Qed.

Lemma undisturbed_body cors req spec : preserves undisturbed (body_stage (B := B) portal cors req spec).
Proof. unfold body_stage. split_match; [apply undisturbed_reply|apply undisturbed_continue]. Qed.

Lemma undisturbed_identity req spec : preserves undisturbed (identity_stage (B := B) portal clk req spec).
Proof. intros g. unfold identity_stage. destruct (acting_user req); [|by split]. destruct (needs_identity spec); by repeat split_match. Qed.

Lemma undisturbed_access route cors req spec i : preserves undisturbed (access_stage (B := B) portal route cors req spec i).
Proof. unfold access_stage. repeat split_match; try (apply undisturbed_reply || apply undisturbed_continue). Qed.

Lemma undisturbed_mfa route path cors req spec :
  preserves undisturbed (mfa_stage (B := B) portal clk route path cors req spec).
Proof.
  unfold mfa_stage, mfa_refused. repeat split_match; try (apply undisturbed_reply || apply undisturbed_continue).
  intros g. by split.
Qed.

Lemma undisturbed_backend cors : preserves undisturbed (backend_stage (B := B) cors).
Proof. intros g. unfold backend_stage. split_match; by split. Qed.

(** The gate disturbs nothing, whatever it decides. *)
Lemma undisturbed_gate route path req spec : preserves undisturbed (gate (B := B) portal clk route path req spec).
Proof.
  unfold gate.
  repeat first [apply undisturbed_external|apply undisturbed_api|apply undisturbed_body|apply undisturbed_identity
    |apply undisturbed_access|apply undisturbed_mfa|apply undisturbed_backend|apply undisturbed_continue
    |apply preserves_stage_bind; [apply _| |intros ?]].
Qed.

(** The signed-in user, with what the identity cache and the database say of
    the account. *)
Definition session_identity req g : option (string * CachedIdentity.t) :=
  username ← acting_user req;
  Some (username, (resolve_identity (Moment.identity_at clk) (Db.fetch_user <$> Portal.db portal) username
                     (Gateway.identities g)).1).

(** The user's groups; none without a session. *)
Definition session_groups req g : list string :=
  match session_identity req g with Some (_, i) => CachedIdentity.groups i | None => [] end.

Definition proved_mfa req spec : Prop :=
  is_break_glass req = true
  \/ exists session username session_id,
       Request.session req = Some session /\ SessionInfo.actor session = Some username
       /\ session_cookie req = Some session_id
       /\ mfa_decision portal clk req spec username session_id = MfaDecision.Satisfied.

Definition client req : string :=
  client_key parse_ip show_ip (Portal.server portal) (Request.headers req) (Request.peer req).

(** What every request the gate lets through satisfies. *)
Record admitted (route : string) req spec g : Prop := {
  adm_kind : Spec.kind spec <> SpecKind.External;
  adm_rate : forall policy, api_policies route spec ≫= rate_policy = Some policy ->
    (ApiRateLimiter.check (Moment.limit_at clk) (Spec.id spec) (client req) policy (Gateway.limiter g)).1
    = RateDecision.Allow;
  adm_body : body_too_large portal req spec = None;
  adm_access : Spec.access_allows spec (is_admin req) (acting_user req) (session_groups req g) = true;
  adm_mfa : Spec.effective_require_mfa spec = true -> proved_mfa req spec;
  adm_backend : World.backend (Gateway.world g) <> None }.

Lemma access_open spec admin user groups : Spec.is_open spec = true -> Spec.access_allows spec admin user groups = true.
Proof. intros Ho. unfold Spec.access_allows. by rewrite Ho, orb_true_r. Qed.

(** The identity is resolved exactly when there is a user and the app needs
    it. *)
Definition identity_of req spec g (i : option Identity.t) : Prop :=
  i = '(username, c) ← session_identity req g;
      if needs_identity spec
      then Some (Identity.mk username (CachedIdentity.groups c) (CachedIdentity.email c) (CachedIdentity.setor c)) else None.

Lemma identity_Ok req spec g i g1 :
  identity_stage portal clk req spec g = (Ok i, g1) ->
  identity_of req spec g i
  /\ (Spec.is_open spec = true
      \/ (match i with Some i => Identity.groups i | None => [] end) = session_groups req g).
Proof.
  unfold identity_stage, identity_of, session_groups, session_identity.
  destruct (acting_user req) as [u|]; cbn [mbind option_bind]; [|intros [= <- _]; split; [done|by right]].
  destruct (needs_identity spec) eqn:En.
  - destruct (resolve_identity _ _ _ _) as [c cache]. intros [= <- _]. cbn. auto.
  - intros [= <- _]. split; [done|]. left. unfold needs_identity in En. apply orb_false_iff in En as [En _].
    apply orb_false_iff in En as [En _]. by apply negb_false_iff in En.
Qed.

Lemma mfa_Ok route path cors req spec g u g1 :
  mfa_stage portal clk route path cors req spec g = (Ok u, g1) ->
  Spec.effective_require_mfa spec = true -> proved_mfa req spec.
Proof.
  intros Hs Hr. unfold mfa_stage, mfa_refused in Hs. rewrite Hr in Hs. cbn [negb] in Hs.
  destruct (is_break_glass req) eqn:Eb; [by left|]. right.
  destruct (Request.session req) as [s|]; [|by repeat split_match].
  destruct (SessionInfo.actor s) as [name|] eqn:Ea; [|done]. destruct (session_cookie req) as [sid|] eqn:Es; [|done].
  exists s, name, sid. split; [done|]. split; [done|]. split; [done|].
  destruct (mfa_decision _ _ _ _ _ _); [done| |]; by repeat split_match.
Qed.

(** The stages before the identity is resolved leave its cache alone. *)
Definition same_identities g g' : Prop := Gateway.identities g' = Gateway.identities g.

#[local] Instance same_identities_preorder : PreOrder same_identities.
Proof. split; [by intros g|]. intros g1 g2 g3. unfold same_identities. congruence. Qed.

Lemma same_identities_api route req spec : preserves same_identities (api_stage portal clk route req spec).
Proof.
  unfold api_stage. repeat split_match; try (intros g; reflexivity).
  intros g. unfold rate_limit_stage. by destruct (ApiRateLimiter.check _ _ _ _ _) as [[|secs] l].
Qed.

Lemma external_Ok spec g u g1 :
  external_stage portal clk spec g = (Ok u, g1) -> Spec.kind spec <> SpecKind.External /\ g1 = g.
Proof.
  unfold external_stage. case_bool_decide as Ek; [|intros [= _ <-]; by split].
  destruct (TemplateProperties.get_str _ _); [|done]. unfold stage_bind, st_bind, effect, st_bind, record_access, st_modify.
  cbn. by destruct (Portal.db portal).
Qed.

Lemma api_Ok route req spec g u g1 policy :
  api_stage portal clk route req spec g = (Ok u, g1) -> api_policies route spec ≫= rate_policy = Some policy ->
  (ApiRateLimiter.check (Moment.limit_at clk) (Spec.id spec) (client req) policy (Gateway.limiter g)).1
  = RateDecision.Allow.
Proof.
  unfold api_stage. destruct (api_policies route spec) as [api|]; [|done]. cbn [mbind option_bind].
  destruct (_ && _); [done|]. intros E Hp. rewrite Hp in E. unfold rate_limit_stage in E. fold (client req) in E.
  by destruct (ApiRateLimiter.check _ _ _ _ _) as [[|secs] l].
Qed.

Lemma body_Ok cors req spec g u g1 :
  body_stage portal cors req spec g = (Ok u, g1) -> body_too_large portal req spec = None /\ g1 = g.
Proof. unfold body_stage. destruct (body_too_large portal req spec); [done|]. by intros [= _ <-]. Qed.

Lemma access_Ok route cors req spec i g u g1 :
  access_stage portal route cors req spec i g = (Ok u, g1) -> access_granted req spec i = true /\ g1 = g.
Proof.
  unfold access_stage. destruct (access_granted req spec i); [|by repeat split_match]. intros [= _ <-]. by split.
Qed.

Lemma gate_Ok route path req spec g ids g' :
  gate portal clk route path req spec g = (Ok ids, g') ->
  admitted route req spec g
  /\ exists i, ids = identity_headers spec i /\ identity_of req spec g i /\ undisturbed g g'.
Proof.
  intros E. pose proof (undisturbed_gate route path req spec g) as Hu. rewrite E in Hu. cbn [snd] in Hu.
  unfold gate in E.
  apply stage_bind_inv in E as (? & g1 & E1 & E). apply stage_bind_inv in E as (? & g2 & E2 & E).
  apply stage_bind_inv in E as (? & g3 & E3 & E). apply stage_bind_inv in E as (i & g4 & E4 & E).
  apply stage_bind_inv in E as (? & g5 & E5 & E). apply stage_bind_inv in E as (? & g6 & E6 & E).
  apply stage_bind_inv in E as (? & g7 & E7 & E). injection E as <- <-.
  apply external_Ok in E1 as [Hkind ->]. pose proof (same_identities_api route req spec g) as Hids. rewrite E2 in Hids.
  apply body_Ok in E3 as [Hbody ->]. apply access_Ok in E5 as [Haccess ->].
  apply identity_Ok in E4 as [Hid E4].
  assert (session_identity req g2 = session_identity req g) as Hwho
    by (unfold session_identity; cbn in Hids; unfold same_identities in Hids; by rewrite Hids).
  assert (session_groups req g2 = session_groups req g) as Hgroups by (unfold session_groups; by rewrite Hwho).
  split; [split|exists i; split; [done|]; split; [|done]]; try done.
  - intros policy. by eapply api_Ok.
  - unfold access_granted in Haccess. apply orb_true_iff in Haccess as [Ho|Ha]; [by apply access_open|].
    destruct E4 as [Ho|Hg]; [by apply access_open|]. by rewrite Hg, Hgroups in Ha.
  - by eapply mfa_Ok.
  - unfold backend_stage in E7. rewrite <- (same_world _ _ Hu).
    destruct (World.backend (Gateway.world g6)) eqn:Eb; [|done]. injection E7 as _ <-. cbn [st_ret snd]. by rewrite Eb.
  - unfold identity_of in *. by rewrite <- Hwho.
Qed.

(** *** The gate lets every admitted request through *)

Definition preflight (route : string) req spec : bool := cors_on route spec && str_eqb (Request.method req) "OPTIONS".

Lemma api_complete route req spec g :
  preflight route req spec = false ->
  (forall policy, api_policies route spec ≫= rate_policy = Some policy ->
     (ApiRateLimiter.check (Moment.limit_at clk) (Spec.id spec) (client req) policy (Gateway.limiter g)).1
     = RateDecision.Allow) ->
  exists g1, api_stage portal clk route req spec g = (Ok tt, g1).
Proof.
  unfold preflight, cors_on, api_stage. destruct (api_policies route spec) as [api|]; [|by eexists].
  intros -> Hallow. cbn [mbind option_bind] in Hallow. destruct (rate_policy api) as [policy|]; [|by eexists].
  specialize (Hallow policy eq_refl). unfold rate_limit_stage. fold (client req).
  destruct (ApiRateLimiter.check _ _ _ _ _) as [[|secs] l]; [by eexists|done].
Qed.

Lemma access_complete route cors req spec i g :
  Spec.access_allows spec (is_admin req) (acting_user req)
    (match i with Some i => Identity.groups i | None => [] end) = true ->
  access_stage portal route cors req spec i g = (Ok tt, g).
Proof. intros Ha. unfold access_stage, access_granted. by rewrite Ha, orb_true_r. Qed.

Lemma mfa_complete route path cors req spec g :
  (Spec.effective_require_mfa spec = true -> proved_mfa req spec) ->
  exists g1, mfa_stage portal clk route path cors req spec g = (Ok tt, g1).
Proof.
  intros Hm. unfold mfa_stage. destruct (Spec.effective_require_mfa spec); [|by eexists]. cbn [negb].
  destruct (Hm eq_refl) as [->|(s & u & sid & Hs & Hu & Hc & Hd)]; [by eexists|].
  destruct (is_break_glass req); [by eexists|]. rewrite Hs, Hu, Hc, Hd. by eexists.
Qed.

Lemma identity_complete req spec g :
  exists i g1, identity_stage portal clk req spec g = (Ok i, g1).
Proof.
  unfold identity_stage. destruct (acting_user req); [|by do 2 eexists]. destruct (needs_identity spec); [|by do 2 eexists].
  destruct (resolve_identity _ _ _ _). by do 2 eexists.
Qed.

Lemma gate_complete route path req spec g :
  admitted route req spec g -> preflight route req spec = false ->
  exists ids g1, gate portal clk route path req spec g = (Ok ids, g1).
Proof.
  intros [Hk Hr Hb Ha Hm Hbk] Hpre. unfold gate.
  assert (external_stage portal clk spec g = (Ok tt, g)) as E1 by (unfold external_stage; by rewrite bool_decide_false).
  rewrite (stage_bind_Ok _ _ _ _ _ E1). destruct (api_complete route req spec g Hpre Hr) as [g2 E2].
  pose proof (same_identities_api route req spec g) as Hids. pose proof (undisturbed_api route req spec g) as Hu2.
  rewrite E2 in Hids, Hu2. rewrite (stage_bind_Ok _ _ _ _ _ E2).
  assert (body_stage portal (cors_on route spec) req spec g2 = (Ok tt, g2)) as E3 by (unfold body_stage; by rewrite Hb).
  rewrite (stage_bind_Ok _ _ _ _ _ E3). destruct (identity_complete req spec g2) as (i & g4 & E4).
  pose proof (undisturbed_identity req spec g2) as Hu4. rewrite E4 in Hu4. rewrite (stage_bind_Ok _ _ _ _ _ E4).
  assert (session_groups req g2 = session_groups req g) as Hgroups
    by (unfold session_groups, session_identity; cbn in Hids; unfold same_identities in Hids; by rewrite Hids).
  apply identity_Ok in E4 as [_ E4].
  assert (access_stage portal route (cors_on route spec) req spec i g4 = (Ok tt, g4)) as E5.
  { apply access_complete. destruct E4 as [Ho| ->]; [by apply access_open|by rewrite Hgroups]. }
  rewrite (stage_bind_Ok _ _ _ _ _ E5). destruct (mfa_complete route path (cors_on route spec) req spec g4 Hm) as [g6 E6].
  pose proof (undisturbed_mfa route path (cors_on route spec) req spec g4) as Hu6. rewrite E6 in Hu6.
  rewrite (stage_bind_Ok _ _ _ _ _ E6).
  assert (backend_stage (cors_on route spec) g6 = (Ok tt, g6)) as E7.
  { unfold backend_stage. cbn [snd] in *.
    rewrite (same_world _ _ Hu6), (same_world _ _ Hu4), (same_world _ _ Hu2). by destruct (World.backend _). }
  rewrite (stage_bind_Ok _ _ _ _ _ E7). by do 2 eexists.
Qed.
End GateLemmas.
