(* ===== verification/Forward.v ===== *)
(** * The request path (ruscker-admin/src/routes/proxy.rs, [forward])

    The second half of [forward]: the readiness probe and the cold-start
    splash, sticky resolution, the session heartbeat, the WebSocket and HTTP
    branches with their recovery from a vanished container, and the sticky
    cookie; then the whole handler and the four routes. *)

From Stdlib Require Import ZArith Lia Ascii String.
From stdpp Require Import base tactics list gmap strings sets fin_maps numbers.
From S2P Require Import Prelude Text Schema Core Sessions RateLimit Counters Sticky Headers Routing Spawn.
From S2P Require Import Auth Caches Gateway.

Local Open Scope string_scope.
Local Open Scope list_scope.
Local Open Scope Z_scope.
Local Open Scope ruscker_scope.

(** The network and the modules of the program the model leaves abstract:
    an HTTP exchange (first or second attempt) with a container, a WebSocket
    connection to it ([ws.rs]) with the subprotocol it selected, the HTML
    rewriter ([rewrite.rs]), and the text of a session id. *)
Module Network.
Record t := mk {
  http : nat -> HttpCall.t -> Result Response.t string;
  ws : WsCall.t -> Result (option string) string;
  inject_base_href : Response.t -> string -> string -> Response.t;
  show_uuid : Uuid -> string }.
End Network.

(** What [resolve_replica] returns. *)
Module Resolved.
Record t := mk {
  replica : Replica.t;
  session_id : Uuid;
  cookie_used : bool;
  seat_reserved : bool;
  track_session : bool }.
End Resolved.

Definition COLD_PROBE_PATH : string := "/__ruscker_ready".

Definition html_escape (s : string) : string :=
  str_replace ">" "&gt;" (str_replace "<" "&lt;" (str_replace "&" "&amp;" s)).

(** A double quote. *)
Definition dq : string := String "034" EmptyString.

Definition splash_heading (name : string) (at_capacity : bool) : string :=
  let span := "<span class=" +:+ dq +:+ "app" +:+ dq +:+ ">" +:+ name +:+ "</span>" in
  if at_capacity then "<h1>" +:+ span +:+ " is full right now</h1>" else "<h1>Starting " +:+ span +:+ "…</h1>".

Definition splash_note (at_capacity : bool) : string :=
  if at_capacity
  then "<p>Every slot for this app is in use. This page opens automatically as soon as one frees up — you can keep it open.</p>"
  else "<p>The container is booting — this can take a few seconds the first time. This page opens it automatically when it's ready.</p>".

(** [([(CONTENT_TYPE, ..), (CACHE_CONTROL, "no-store")], body).into_response()] *)
Definition no_store (content_type body : string) : Response.t :=
  Response.mk 200 (HeaderMap.insert "cache-control" "no-store" (HeaderMap.insert "content-type" content_type ∅)) body.

Definition cold_start_splash (template : string) (spec : Spec.t) (base : string) (at_capacity : bool) : Response.t :=
  let name := html_escape (default (Spec.id spec) (Spec.display_name spec)) in
  no_store "text/html; charset=utf-8"
    (str_replace "{{PROBE}}" (base +:+ "/app/" +:+ Spec.id spec +:+ COLD_PROBE_PATH)
      (str_replace "{{NOTE}}" (splash_note at_capacity)
        (str_replace "{{HEADING}}" (splash_heading name at_capacity)
          (str_replace "{{LOGO}}" (base +:+ "/assets/brand/mark.svg") template)))).

Definition probe_body (ready : bool) : string :=
  "{" +:+ dq +:+ "ready" +:+ dq +:+ ":" +:+ (if ready then "true" else "false") +:+ "}".

Section Forward.
Context {B : Type} `{ContainerBackend B} `{HttpCrate} `{WebCrates} `{MfaCrates} `{CookieCodec}.
Context (portal : Portal.t) (net : Network.t) (clk : Moment.t).
Implicit Types (req : Request.t) (spec : Spec.t) (w : World.t B) (g : Gateway.t B).

Definition wants_html (headers : HeaderMap.t) : bool :=
  match HeaderMap.get "accept" headers ≫= to_str with Some a => str_contains "text/html" a | None => false end.

Definition on_world {A} (m : St (World.t B) A) : St (Gateway.t B) A := fun g =>
  let '(a, w) := m (Gateway.world g) in (a, Gateway.set_world w g).

Definition sticky_cookie req spec : option string := Request.cookies req (cookie_name (Spec.id spec)).

(** *** Step 3b: the probe and the splash *)

(** The readiness gate advances the round-robin counter. *)
Definition ready_now spec : St (Gateway.t B) bool := on_world (fun w =>
  let '(ready, c) := has_ready_replica (World.inflight w) (World.replicas w) spec (World.counter w) in
  (ready, World.set_counter c w)).

Definition seat_held req spec : St (Gateway.t B) bool := st_get (fun g =>
  has_sticky_seat (Portal.cookie_key portal) (World.replicas (Gateway.world g)) spec (sticky_cookie req spec)).

(** [a || b] on effectful conditions. *)
Definition or_else {S} (a b : St S bool) : St S bool := do x <- a; if x : bool then st_ret true else b.

Definition serveable req spec : St (Gateway.t B) bool := or_else (ready_now spec) (seat_held req spec).

Definition probe_stage req spec : Stage B unit :=
  stage ready <- effect (serveable req spec);
  return_reply (no_store "application/json" (probe_body ready)).

Definition splash_stage req spec : Stage B unit :=
  if str_eqb (Request.method req) "GET" && wants_html (Request.headers req) then
    stage ready <- effect (serveable req spec);
    if ready : bool then continue tt
    else fun g =>
      let full := at_capacity (World.replicas (Gateway.world g)) spec in
      let g := if full then g else Gateway.spawn_task (Task.EnsureAvailable spec) g in
      return_reply (cold_start_splash (Portal.splash_template portal) spec (Portal.base_path portal) full) g
  else continue tt.

Definition cold_start_stage (route_prefix upstream_path : string) req spec : Stage B unit :=
  if is_app route_prefix && negb (Request.upgrade req) then
    if str_eqb upstream_path COLD_PROBE_PATH then probe_stage req spec else splash_stage req spec
  else continue tt.

(** *** Step 4: the replica *)

(** The live replica a valid cookie of this spec is pinned to. *)
Definition sticky_replica req spec w : option (Replica.t * Uuid) :=
  raw ← sticky_cookie req spec;
  session ← ok (decode (Portal.cookie_key portal) raw);
  if str_eqb (StickySession.spec_id session) (Spec.id spec) then
    r ← List.find (has_id (StickySession.replica_id session)) (World.pool w (Spec.id spec));
    if serves_sessions r then Some (r, StickySession.session_id session) else None
  else None.

Definition pick_any spec : St (World.t B) (option Replica.t) := fun w =>
  let '(o, c) := pick_replica (World.inflight w) (World.pool w (Spec.id spec)) (Spec.effective_routing spec)
                   (is_api spec) (World.counter w) in
  (o, World.set_counter c w).

Definition new_visit spec : St (World.t B) (Result Resolved.t string) :=
  do r <- pick_or_spawn (Portal.env portal) spec;
  st_ret (result_map (fun '(r, reserved) => Resolved.mk r (Moment.fresh clk) false reserved true) r).

Definition resolve_replica req spec (is_visit : bool) : St (World.t B) (Result Resolved.t string) := fun w =>
  match sticky_replica req spec w with
  | Some (r, sid) => (Ok (Resolved.mk r sid true false true), w)
  | None =>
    if is_visit then new_visit spec w
    else
      let '(o, w) := pick_any spec w in
      match o with
      | Some r => (Ok (Resolved.mk r (Moment.fresh clk) true false false), w)
      | None => new_visit spec w
      end
  end.

Definition resolve_stage (cors : bool) req spec : Stage B Resolved.t :=
  do r <- on_world (resolve_replica req spec (wants_html (Request.headers req)));
  match r with
  | Ok x => continue x
  | Err _ => return_reply (with_cors cors (plain 502 "backend unavailable"))
  end.

(** *** Step 4b: the heartbeat *)

Definition touch spec (x : Resolved.t) : St (World.t B) TouchOutcome.t := fun w =>
  let '(outcome, (reg, sessions)) :=
    InMemorySessionStore.touch_or_register (Moment.touch_at clk) (Resolved.session_id x) (Spec.id spec)
      (Replica.id (Resolved.replica x)) (Resolved.seat_reserved x) (World.replicas w) (World.sessions w) in
  (outcome, World.set_sessions sessions (World.set_replicas reg w)).

(** The access event, and the index entry for stop-on-logout. *)
Definition note_registered req spec (sid : Uuid) : St (Gateway.t B) unit := st_modify (fun g =>
  let g := Gateway.set_activity
    (ActivitySink.record
       (ActivityEvent.app_access (Moment.touch_at clk) (acting_user req) (Spec.id spec) (Network.show_uuid net sid) None None)
       (Gateway.activity g)) g in
  match acting_user req with
  | Some user =>
    if Spec.effective_stop_on_logout spec
    then Gateway.set_logout_index
           (<[user := {[sid]} ∪ default ∅ (Gateway.logout_index g !! user)]> (Gateway.logout_index g)) g
    else g
  | None => g
  end).

Definition heartbeat req spec (x : Resolved.t) : St (Gateway.t B) unit :=
  if Resolved.track_session x && spec_kind_needs_sticky (Spec.kind spec) then
    do outcome <- on_world (touch spec x);
    match outcome with
    | TouchOutcome.Registered => note_registered req spec (Resolved.session_id x)
    | TouchOutcome.Touched => st_ret tt
    end
  else st_ret tt.

(** *** Recovery from a vanished container *)

Definition confirmed_missing (r : Replica.t) (report : ReplicaLivenessReport.t) : bool :=
  existsb (fun '(i, liveness) => bool_decide (i = Replica.id r) && bool_decide (liveness = ReplicaLiveness.Missing))
    (ReplicaLivenessReport.observations report).

Definition reap_if_confirmed_dead (r : Replica.t) : St (World.t B) bool :=
  do report <- call_backend (replica_liveness [ReplicaLivenessQuery.from r]) (Err (CoreError.Backend ""));
  match report with
  | Ok report =>
    if confirmed_missing r report then do! cleanup_replica_state (Replica.id r); st_ret true else st_ret false
  | Err _ => st_ret false
  end.

(** The reap and, when it happened, the replacement spawn. *)
Definition recover spec (r : Replica.t) : St (Gateway.t B) bool :=
  do reaped <- on_world (reap_if_confirmed_dead r);
  if reaped : bool then do! st_modify (Gateway.spawn_task (Task.ReplacementSpawn spec)); st_ret true else st_ret false.

(** *** Step 5: WebSockets *)

Definition query_suffix req : string := match Request.query req with Some q => "?" +:+ q | None => EmptyString end.

Definition ws_call (upstream_path : string) req (ids : list (string * string)) (r : Replica.t) : WsCall.t :=
  let headers := strip_reserved_identity_headers (Request.headers req) in
  WsCall.mk ("ws://" +:+ Replica.upstream r +:+ upstream_path +:+ query_suffix req)
    ((HeaderMap.get "cookie" headers ≫= to_str) ≫= filter_ruscker_cookies)
    (HeaderMap.get "sec-websocket-protocol" headers ≫= to_str) ids.

(** [ruscker_proxy::ws::connect_with_headers]: the headers of the handshake, on
    top of those of the WebSocket client. *)
Definition handshake_headers (client : HeaderMap.t) (call : WsCall.t) : HeaderMap.t :=
  let headers := match WsCall.cookie call ≫= value_from_str with
                 | Some v => HeaderMap.insert "cookie" v client | None => client end in
  match WsCall.subprotocols call ≫= value_from_str with
  | Some v => HeaderMap.insert "sec-websocket-protocol" v headers
  | None => headers
  end.
Definition connect_with_headers (client : HeaderMap.t) (call : WsCall.t) : HeaderMap.t :=
  insert_identity_headers (WsCall.identity call) (handshake_headers client call).

Definition ws_stage (upstream_path : string) (cors : bool) req spec (ids : list (string * string)) (x : Resolved.t)
  : Stage B unit :=
  if negb (Request.upgrade req) then continue tt
  else
    let call := ws_call upstream_path req ids (Resolved.replica x) in
    stage! effect (st_modify (Gateway.log_call (Call.Ws call)));
    match Network.ws net call with
    | Ok selected_protocol => return_reply (switching_protocols selected_protocol)
    | Err _ =>
      stage! effect (recover spec (Resolved.replica x));
      return_reply (with_cors cors (plain 502 "upstream unavailable"))
    end.

(** *** Step 6: HTTP *)

Definition forwarded_for req : option string :=
  let existing := HeaderMap.get "x-forwarded-for" (Request.headers req) ≫= to_str in
  let trusted := forwarded_trusted portal in
  match show_ip <$> Request.peer req, existing with
  | Some ip, Some chain => Some (if trusted then chain +:+ ", " +:+ ip else ip)
  | Some ip, None => Some ip
  | None, Some chain => if trusted then Some chain else None
  | None, None => None
  end.

Definition set_forwarded_for req (headers : HeaderMap.t) : HeaderMap.t :=
  match forwarded_for req ≫= value_from_str with
  | Some v => HeaderMap.insert "x-forwarded-for" v headers
  | None => HeaderMap.remove "x-forwarded-for" headers
  end.

Definition transform_html (route_prefix : string) spec : bool :=
  is_app route_prefix && Spec.effective_inject_base_href spec.

(** The request's headers when [do_forward] receives them. *)
Definition outgoing_headers (route_prefix : string) req spec : HeaderMap.t :=
  let headers := Request.headers req in
  set_forwarded_for req
    (if transform_html route_prefix spec then HeaderMap.insert "accept-encoding" "identity" headers else headers).

(** One attempt, or two for a method without a body. *)
Definition client_request (call : HttpCall.t) : St (Gateway.t B) (Result Response.t string) :=
  do! st_modify (Gateway.log_call (Call.Http call));
  match Network.http net 0 call with
  | Ok resp => st_ret (Ok resp)
  | Err first =>
    if existsb (str_eqb (HttpCall.method call)) ["GET"; "HEAD"] then
      let retry := HttpCall.mk (HttpCall.uri call) (HttpCall.method call) (HttpCall.headers call) EmptyString None in
      do! st_modify (Gateway.log_call (Call.Http retry));
      st_ret (Network.http net 1 retry)
    else st_ret (Err first)
  end.

Definition do_forward (r : Replica.t) (upstream_path forwarded_prefix : string) (is_https : bool) req
    (max_body : option Z) (ids : list (string * string)) : St (Gateway.t B) (Result Response.t string) :=
  match parse_uri ("http://" +:+ Replica.upstream r +:+ upstream_path +:+ query_suffix req) with
  | None => st_ret (Err "build upstream uri")
  | Some uri =>
    let headers := upstream_headers forwarded_prefix is_https ids (Request.headers req) in
    do resp <- client_request (HttpCall.mk uri (Request.method req) headers (Request.body req) max_body);
    st_ret (result_map (Response.map_headers client_headers) resp)
  end.

(** The in-flight guard of the API route family. *)
Definition acquire_guard (route_prefix : string) (r : Replica.t) : St (World.t B) (option ReplicaId) := fun w =>
  if str_eqb route_prefix API_PREFIX
  then (Some (Replica.id r), World.set_inflight (Inflight.guard_new (Replica.id r) (World.inflight w)) w)
  else (None, w).

Definition drop_guard (guard : option ReplicaId) : St (World.t B) unit := st_modify (fun w =>
  match guard with
  | Some i => World.set_inflight (Inflight.guard_drop i (World.inflight w)) w
  | None => w
  end).

(** An error reply gives the guard back as it returns. *)
Definition upstream_error (cors : bool) req spec (x : Resolved.t) (guard : option ReplicaId) : Stage B Response.t :=
  stage reaped <- effect (recover spec (Resolved.replica x));
  stage! effect (on_world (drop_guard guard));
  if reaped && str_eqb (Request.method req) "GET" && wants_html (Request.headers req)
  then return_reply (cold_start_splash (Portal.splash_template portal) spec (Portal.base_path portal) false)
  else return_reply (with_cors cors (plain 502 "upstream error")).

(** *** Step 7: cookies *)

Definition sticky_max_age : Z := from_secs (8 * 60 * 60).

Definition set_sticky_cookie (session : StickySession.t) (mount_path : string) (is_https : bool) : list Jar.op :=
  match encode (Portal.cookie_key portal) session with
  | Ok value => [Jar.Add (cookie_name (StickySession.spec_id session)) value mount_path is_https sticky_max_age]
  | Err _ => []
  end.

Definition binds_visitor spec (x : Resolved.t) : bool :=
  negb (Resolved.cookie_used x) && spec_kind_needs_sticky (Spec.kind spec).

Definition reply_jar (forwarded_prefix : string) (is_https : bool) req spec (x : Resolved.t) : list Jar.op :=
  (if binds_visitor spec x
   then set_sticky_cookie (StickySession.mk (Resolved.session_id x) (Spec.id spec) (Replica.id (Resolved.replica x)))
          forwarded_prefix is_https
   else [])
  ++ match Request.cookies req COOKIE_NAME with Some _ => [Jar.Remove COOKIE_NAME "/"] | None => [] end.

Definition count_access spec (x : Resolved.t) : St (Gateway.t B) unit :=
  do! (if binds_visitor spec x then record_access portal clk (Spec.id spec) else st_ret tt);
  if is_api spec then record_access portal clk (Spec.id spec) else st_ret tt.

Definition http_stage (route_prefix upstream_path : string) (cors : bool) req spec (ids : list (string * string))
    (x : Resolved.t) : Stage B Reply.t :=
  let replica := Resolved.replica x in
  let is_https := request_is_https (Request.headers req) (forwarded_trusted portal) in
  let forwarded_prefix := mount_prefix (Portal.base_path portal) route_prefix (Spec.id spec) in
  stage guard <- effect (on_world (acquire_guard route_prefix replica));
  let outgoing := Request.set_headers (outgoing_headers route_prefix req spec) req in
  stage resp <- (do r <- do_forward replica upstream_path forwarded_prefix is_https outgoing
                           (body_cap portal spec) ids;
                 match r with Ok resp => continue resp | Err _ => upstream_error cors req spec x guard end);
  let resp :=
    if transform_html route_prefix spec
    then Network.inject_base_href net resp (Portal.base_path portal +:+ route_prefix +:+ Spec.id spec +:+ "/")
           (Replica.upstream replica)
    else resp in
  stage! effect (count_access spec x);
  continue (Reply.mk (with_cors cors resp) (reply_jar forwarded_prefix is_https req spec x) guard).

(** *** The handler *)

(** Steps 3b to 7, for a request past the gate. *)
Definition serve (route_prefix upstream_path : string) req spec (ids : list (string * string)) : Stage B Reply.t :=
  let cors := cors_on route_prefix spec in
  stage! cold_start_stage route_prefix upstream_path req spec;
  stage x <- resolve_stage cors req spec;
  stage! effect (heartbeat req spec x);
  stage! ws_stage upstream_path cors req spec ids x;
  http_stage route_prefix upstream_path cors req spec ids x.

Definition forward (route_prefix spec_id upstream_path : string) req : St (Gateway.t B) Reply.t :=
  do r <- (stage spec <- find_spec_stage portal clk spec_id;
           stage ids <- gate portal clk route_prefix upstream_path req spec;
           serve route_prefix upstream_path req spec ids);
  st_ret (match r with Ok reply => reply | Err resp => Reply.bare resp end).

Definition forward_app (spec_id rest : string) req := forward APP_PREFIX spec_id ("/" +:+ rest) req.
Definition forward_app_root (spec_id : string) req := forward APP_PREFIX spec_id "/" req.
Definition forward_api (spec_id rest : string) req := forward API_PREFIX spec_id ("/" +:+ rest) req.
Definition forward_api_root (spec_id : string) req := forward API_PREFIX spec_id "/" req.


(** A spawned task, when it runs. *)
Definition kick_replacement_spawn spec : St (World.t B) unit := fun w =>
  if at_capacity (World.replicas w) spec then (tt, w)
  else (tt, (ensure_replica_available (Portal.env portal) spec w).2).

Definition run_task (t : Task.t) : St (Gateway.t B) unit :=
  match t with
  | Task.EnsureAvailable spec => on_world (do! ensure_replica_available (Portal.env portal) spec; st_ret tt)
  | Task.ReplacementSpawn spec => on_world (kick_replacement_spawn spec)
  end.
End Forward.

(** ** Lemmas *)

Section Frames.
Context {B : Type} `{ContainerBackend B} `{HttpCrateLaws} `{WebCrates} `{MfaCrates} `{CookieCodec}.
Context (portal : Portal.t) (net : Network.t) (clk : Moment.t).
Implicit Types (req : Request.t) (spec : Spec.t) (w : World.t B) (g : Gateway.t B).

(** The spec a request's id resolves to. *)
Definition looked_up (spec_id : string) g : option Spec.t :=
  (find_spec (Moment.spec_at clk) (Portal.catalog portal) spec_id (Gateway.spec_cache g)).1.

(** The handler replies from the lookup or the gate, or serves what the gate
    let through. *)
Lemma forward_cases route spec_id path req g :
  (undisturbed g (forward portal net clk route spec_id path req g).2
   /\ Reply.guard (forward portal net clk route spec_id path req g).1 = None)
  \/ exists spec g1 i,
       looked_up spec_id g = Some spec /\ admitted portal clk route req spec g /\ undisturbed g g1
       /\ identity_of portal clk req spec g i
       /\ forward portal net clk route spec_id path req g
          = (let '(r, g2) := serve portal net clk route path req spec (identity_headers spec i) g1 in
             (match r with Ok reply => reply | Err resp => Reply.bare resp end, g2)).
Proof.
  unfold forward. set (body := fun spec => stage_bind (gate portal clk route path req spec) _).
  assert (forall g, (st_bind (stage_bind (find_spec_stage portal clk spec_id) body)
    (fun r => st_ret match r with Ok reply => reply | Err resp => Reply.bare resp end)) g
    = (let '(r, g2) := stage_bind (find_spec_stage portal clk spec_id) body g in
       (match r with Ok reply => reply | Err resp => Reply.bare resp end, g2))) as Hrun.
  { intros g0. unfold st_bind, st_ret. by destruct (stage_bind _ _ g0). }
  rewrite Hrun. pose proof (undisturbed_find portal clk spec_id g) as Hu1.
  destruct (find_spec_stage portal clk spec_id g) as [[spec|reply] g0] eqn:E1;
    [rewrite (stage_bind_Ok _ _ _ _ _ E1)|rewrite (stage_bind_Err _ _ _ _ _ E1); by left].
  assert (looked_up spec_id g = Some spec /\ Gateway.identities g0 = Gateway.identities g
          /\ Gateway.limiter g0 = Gateway.limiter g) as (Hl & Hid & Hlim).
  { unfold find_spec_stage in E1. unfold looked_up. destruct (find_spec _ _ _ _) as [[s|] c]; [|discriminate].
    unfold continue, st_ret in E1. injection E1 as <- <-. by repeat split. }
  cbn [snd] in Hu1. unfold body. pose proof (undisturbed_gate portal clk route path req spec g0) as Hu2.
  destruct (gate portal clk route path req spec g0) as [[ids|reply] g1] eqn:E2;
    [rewrite (stage_bind_Ok _ _ _ _ _ E2)|rewrite (stage_bind_Err _ _ _ _ _ E2); left; split; [by etransitivity|done]].
  apply gate_Ok in E2 as ([Hk Hr Hb Ha Hm Hbk] & i & -> & Hi & _). right. exists spec, g1, i.
  assert (session_identity portal clk req g0 = session_identity portal clk req g) as Hwho by (unfold session_identity; by rewrite Hid).
  assert (session_groups portal clk req g0 = session_groups portal clk req g) as Hsg by (unfold session_groups; by rewrite Hwho).
  split; [done|]. split; [|split; [by etransitivity|split; [|done]]].
  - split; try done; [by rewrite <- Hlim|by rewrite <- Hsg|by rewrite <- (same_world _ _ Hu1)].
  - unfold identity_of in *. by rewrite <- Hwho.
Qed.

(** A call as the handler makes it for a request whose identity adds [ids]. *)
Definition authentic (ids : list (string * string)) (c : Call.t) : Prop :=
  match c with
  | Call.Http h => exists prefix https hs, HttpCall.headers h = upstream_headers prefix https ids hs
  | Call.Ws ws => WsCall.identity ws = ids
      /\ forall k pair, WsCall.cookie ws = Some k -> pair ∈ split_char ";" k ->
           is_ruscker_cookie (cookie_pair_name pair) = false
  end.

Definition calls_extend (P : Call.t -> Prop) g g' : Prop :=
  exists new, Gateway.calls g' = Gateway.calls g ++ new /\ Forall P new.

#[local] Instance calls_extend_preorder P : PreOrder (calls_extend P).
Proof.
  split; [intros g; exists []; by rewrite app_nil_r|].
  intros g1 g2 g3 (n1 & E1 & H1') (n2 & E2 & H2'). exists (n1 ++ n2). rewrite E2, E1, app_assoc.
  split; [done|by apply Forall_app].
Qed.

Lemma calls_same P g g' : Gateway.calls g' = Gateway.calls g -> calls_extend P g g'.
Proof. intros E. exists []. by rewrite app_nil_r. Qed.

Lemma calls_log (P : Call.t -> Prop) c : P c -> preserves (calls_extend P) (st_modify (Gateway.log_call c : Gateway.t B -> _)).
Proof. intros Hc g. exists [c]. split; [done|by constructor]. Qed.

Lemma calls_on_world P {A} (m : St (World.t B) A) : preserves (calls_extend P) (on_world m).
Proof. intros g. unfold on_world. destruct (m (Gateway.world g)). by apply calls_same. Qed.

Lemma calls_ret P {A} (a : A) : preserves (calls_extend P) (st_ret a : St (Gateway.t B) A).
Proof. apply preserves_ret, _. Qed.

Lemma calls_effect P {A} (m : St (Gateway.t B) A) : preserves (calls_extend P) m -> preserves (calls_extend P) (effect m).
Proof. intros Hm. apply preserves_bind; [apply _|done|intros a; apply calls_ret]. Qed.

Lemma calls_serveable P req spec : preserves (calls_extend P) (serveable portal req spec).
Proof.
  unfold serveable, or_else, ready_now. apply preserves_bind; [apply _|apply calls_on_world|].
  intros [|]; [apply calls_ret|apply preserves_get, _].
Qed.

Lemma calls_cold_start P route path req spec : preserves (calls_extend P) (cold_start_stage portal route path req spec).
Proof.
  unfold cold_start_stage, probe_stage, splash_stage. repeat split_match; try apply calls_ret;
    (apply preserves_stage_bind; [apply _|apply calls_effect, calls_serveable|]).
  - intros ?. apply calls_ret.
  - intros [|]; [apply calls_ret|]. intros g. apply calls_same. by destruct (at_capacity _ _).
Qed.

Lemma calls_resolve P cors req spec : preserves (calls_extend P) (resolve_stage portal clk cors req spec).
Proof.
  unfold resolve_stage. apply preserves_bind; [apply _|apply calls_on_world|]. intros [x|e]; apply calls_ret.
Qed.

Lemma calls_heartbeat P req spec x : preserves (calls_extend P) (heartbeat net clk req spec x).
Proof.
  unfold heartbeat. split_match; [|apply calls_ret]. apply preserves_bind; [apply _|apply calls_on_world|].
  intros [|]; [|apply calls_ret]. intros g. apply calls_same. unfold note_registered, st_modify. cbn.
  destruct (acting_user req); [|done]. by destruct (Spec.effective_stop_on_logout spec).
Qed.

Lemma calls_recover P spec r : preserves (calls_extend P) (recover spec r : St (Gateway.t B) bool).
Proof.
  unfold recover. apply preserves_bind; [apply _|apply calls_on_world|]. intros [|]; [|apply calls_ret].
  apply preserves_bind; [apply _| |intros ?; apply calls_ret]. intros g. by apply calls_same.
Qed.

Lemma calls_ws path cors req spec ids x : preserves (calls_extend (authentic ids)) (ws_stage net path cors req spec ids x).
Proof.
  unfold ws_stage. split_match; [apply calls_ret|].
  apply preserves_stage_bind; [apply _|apply calls_effect, calls_log|].
  - split; [done|]. unfold ws_call. cbn. intros k pair Hk. destruct (_ ≫= to_str) as [raw|]; [|done].
    exact (filter_ruscker_cookies_pairs raw k pair Hk).
  - intros _. split_match; [apply calls_ret|]. apply preserves_stage_bind; [apply _|apply calls_effect, calls_recover|].
    intros _. apply calls_ret.
Qed.

Lemma calls_client_request ids call :
  authentic ids (Call.Http call) -> preserves (calls_extend (authentic ids)) (client_request net call : St (Gateway.t B) _).
Proof.
  intros Hc. unfold client_request. apply preserves_bind; [apply _|by apply calls_log|]. intros _.
  split_match; [apply calls_ret|]. split_match; [|apply calls_ret].
  apply preserves_bind; [apply _|by apply calls_log|]. intros _. apply calls_ret.
Qed.

Lemma calls_record_access P spec_id : preserves (calls_extend P) (record_access (B := B) portal clk spec_id).
Proof. intros g. apply calls_same. unfold record_access, st_modify. by destruct (Portal.db portal). Qed.

Lemma calls_http route path cors req spec ids x :
  preserves (calls_extend (authentic ids)) (http_stage portal net clk route path cors req spec ids x).
Proof.
  unfold http_stage. apply preserves_stage_bind; [apply _|apply calls_effect, calls_on_world|]. intros guard.
  apply preserves_stage_bind; [apply _| |intros resp].
  - apply preserves_bind; [apply _| |].
    + unfold do_forward. split_match; [|apply calls_ret]. apply preserves_bind; [apply _| |intros ?; apply calls_ret].
      apply calls_client_request. cbn. eauto.
    + intros [resp|e]; [apply calls_ret|]. unfold upstream_error.
      apply preserves_stage_bind; [apply _|apply calls_effect, calls_recover|]. intros reaped.
      apply preserves_stage_bind; [apply _|apply calls_effect, calls_on_world|]. intros _. split_match; apply calls_ret.
  - apply preserves_stage_bind; [apply _|apply calls_effect|intros _; apply calls_ret].
    unfold count_access. apply preserves_bind; [apply _| |intros _]; split_match;
      (apply calls_record_access || apply calls_ret).
Qed.

Lemma calls_serve route path req spec ids :
  preserves (calls_extend (authentic ids)) (serve portal net clk route path req spec ids).
Proof.
  unfold serve. apply preserves_stage_bind; [apply _|apply calls_cold_start|]. intros _.
  apply preserves_stage_bind; [apply _|apply calls_resolve|]. intros x.
  apply preserves_stage_bind; [apply _|apply calls_effect, calls_heartbeat|]. intros _.
  apply preserves_stage_bind; [apply _|apply calls_ws|]. intros _. apply calls_http.
Qed.
End Frames.

(** *** Seats

    Every registered replica's counter is the number of sessions that point
    at it plus the seats [res] reserved and not yet claimed, and no session
    points elsewhere. *)

Section Seats.
Context {B : Type} `{ContainerBackendLaws B} `{HttpCrate} `{WebCrates} `{MfaCrates} `{CookieCodec}.
Context (portal : Portal.t) (net : Network.t) (clk : Moment.t).
Implicit Types (req : Request.t) (spec : Spec.t) (w : World.t B) (g : Gateway.t B).

Definition accounts w (res : ReplicaId -> nat) : Accounting.t :=
  Accounting.mk (World.replicas w) (World.sessions w) res.

Record seats_held w (res : ReplicaId -> nat) : Prop := {
  held_wf : world_wf w;
  held_accounted : Accounting.accounted (accounts w res);
  held_registered : forall i, Registry.by_id (World.replicas w) !! i = None ->
    Accounting.seats_used (accounts w res) i = 0%nat }.

Definition none_reserved : ReplicaId -> nat := fun _ => 0%nat.

(** No seat is held without a session that points at it. *)
Definition seats_match w : Prop := seats_held w none_reserved.

Lemma seats_ext w w' res res' :
  World.replicas w' = World.replicas w -> World.sessions w' = World.sessions w -> (forall i, res' i = res i) ->
  world_wf w' -> seats_held w res -> seats_held w' res'.
Proof.
  intros Hr Hs Hres Hwf [_ Ha Hn]. split; [done| |].
  - unfold Accounting.accounted, accounts in *. cbn in *. rewrite Hr, Hs.
    eapply Accounting.counts_ext; [|exact Ha]. intros i. unfold Accounting.seats_used. cbn. by rewrite Hres.
  - intros i Hi. rewrite Hr in Hi. specialize (Hn i Hi). unfold Accounting.seats_used in *. cbn in *. by rewrite Hs, Hres.
Qed.

Lemma tracked_size (sessions : InMemorySessionStore.t) i : (InMemorySessionStore.tracked sessions i <= size sessions)%nat.
Proof. unfold InMemorySessionStore.tracked. apply map_subseteq_size, map_filter_subseteq. Qed.

(** Reserving a seat on a registered replica. *)
Lemma seats_reserve w w' rid :
  seats_match w -> world_wf w' -> is_Some (Registry.by_id (World.replicas w) !! rid) ->
  Z.of_nat (size (World.sessions w)) < u32_max ->
  World.replicas w' = Registry.inc_sessions rid (World.replicas w) -> World.sessions w' = World.sessions w ->
  seats_held w' (Accounting.bump none_reserved rid 1%nat).
Proof.
  intros [_ Ha Hn] Hwf' Hrid Hsize Hr Hs. split; [done| |].
  - pose proof (Accounting.step_accounted (Accounting.Reserve rid) (accounts w none_reserved) Ha) as Hstep.
    unfold accounts. rewrite Hr, Hs. apply Hstep. cbn. unfold Accounting.seats_used. cbn.
    pose proof (tracked_size (World.sessions w) rid). unfold none_reserved. lia.
  - intros i. rewrite Hr, Accounting.by_id_inc by apply Ha. unfold Accounting.seats_used, accounts. cbn.
    rewrite Hs. unfold Accounting.bump. destruct (decide (rid = i)) as [->|Hne].
    + destruct Hrid as [r ->]. done.
    + rewrite decide_False by done. intros Hi. specialize (Hn i Hi). unfold Accounting.seats_used in Hn. cbn in Hn. lia.
Qed.

Lemma seats_add w w' r :
  seats_match w -> world_wf w' -> Registry.by_id (World.replicas w) !! Replica.id r = None ->
  Replica.sessions_active r = 0 ->
  World.replicas w' = Registry.add r (World.replicas w) -> World.sessions w' = World.sessions w -> seats_match w'.
Proof.
  intros [Hwf Ha Hn] Hwf' Hfresh Hzero Hr Hs. split; [done| |].
  - unfold accounts. rewrite Hr, Hs.
    apply (Accounting.step_accounted (Accounting.AddReplica r) (accounts w none_reserved) Ha).
    split; [done|]. split; [done|]. by apply Hn.
  - intros i. rewrite Hr, Registry.by_id_add by (done || apply Hwf).
    intros [Hi _]%lookup_insert_None. unfold accounts. rewrite Hr, Hs. by apply Hn.
Qed.

(** The heartbeat of a session whose seat is already counted, or of one
    that brings its reservation. *)
Lemma seats_touch spec x w :
  seats_match w -> is_Some (Registry.by_id (World.replicas w) !! Replica.id (Resolved.replica x)) ->
  Z.of_nat (size (World.sessions w)) < u32_max -> Resolved.seat_reserved x = false ->
  seats_match (touch clk spec x w).2.
Proof.
  intros [Hwf Ha Hn] Hrid Hsize Hres. unfold touch. set (rid := Replica.id (Resolved.replica x)) in *.
  pose proof (Accounting.step_accounted
    (Accounting.Touch (Moment.touch_at clk) (Resolved.session_id x) (Spec.id spec) rid) (accounts w none_reserved) Ha) as Hstep.
  unfold accounts in Hstep. cbn [Accounting.step] in Hstep. unfold touch_or_register, InMemorySessionStore.in_memory in Hstep.
  rewrite Hres.
  destruct (InMemorySessionStore.touch_or_register _ _ _ _ false _ _) as [out [reg s]] eqn:E. cbn [snd].
  pose proof (touch_law (S := InMemorySessionStore.t) _ _ _ _ _ _ _ _ _ _ E) as Hlaw. clear E. rename Hlaw into E.
  assert (reg = World.replicas w \/ reg = Registry.inc_sessions rid (World.replicas w)) as Hreg
    by (destruct out; destruct E as [-> _]; auto).
  assert (forall i, Registry.by_id reg !! i = None -> Registry.by_id (World.replicas w) !! i = None) as Hdom.
  { intros i. destruct Hreg as [->| ->]; [done|]. rewrite Accounting.by_id_inc by apply Ha.
    case_decide; [|done]. by intros ->%fmap_None. }
  split.
  - apply (sound_seat (bool_decide (out = TouchOutcome.Registered)) rid w); [|done|done].
    destruct out; destruct E as [-> _]; done.
  - apply Hstep. cbn. pose proof (tracked_size (World.sessions w) rid). unfold Accounting.seats_used. cbn.
    unfold none_reserved. lia.
  - intros i Hi. cbn in Hi. specialize (Hn i (Hdom i Hi)). unfold Accounting.seats_used, accounts in *. cbn in *.
    destruct out; destruct E as [_ Ht]; cbn in Ht; rewrite Ht; [|done].
    destruct (decide (i = rid)) as [->|]; [|lia]. apply Hdom in Hi. destruct Hrid as [r Hr]. congruence.
Qed.

Lemma seats_claim spec x w :
  seats_held w (Accounting.bump none_reserved (Replica.id (Resolved.replica x)) 1%nat) ->
  is_Some (Registry.by_id (World.replicas w) !! Replica.id (Resolved.replica x)) ->
  World.sessions w !! Resolved.session_id x = None -> Resolved.seat_reserved x = true ->
  seats_match (touch clk spec x w).2.
Proof.
  intros [Hwf Ha Hn] Hrid Hfresh Hres. unfold touch. set (rid := Replica.id (Resolved.replica x)) in *.
  pose proof (Accounting.step_accounted
    (Accounting.Claim (Moment.touch_at clk) (Resolved.session_id x) (Spec.id spec) rid) (accounts w _) Ha) as Hstep.
  unfold accounts in Hstep. cbn [Accounting.step] in Hstep. unfold touch_or_register, InMemorySessionStore.in_memory in Hstep.
  rewrite Hres. unfold InMemorySessionStore.touch_or_register in *. rewrite Hfresh in *. cbn [snd].
  assert (forall i, Accounting.bump (Accounting.bump none_reserved rid 1%nat) rid
                      (pred (Accounting.bump none_reserved rid 1%nat rid)) i = 0%nat) as Hzero.
  { intros i. unfold Accounting.bump. case_decide; [|done]. by rewrite decide_True. }
  split.
  - apply (sound_same w); done.
  - eapply Accounting.counts_ext; [|apply Hstep].
    + intros i. unfold Accounting.seats_used. cbn. rewrite Hzero. unfold none_reserved. lia.
    + cbn. unfold Accounting.bump. rewrite decide_True by done. lia.
  - intros i Hi. cbn in Hi. specialize (Hn i Hi). unfold Accounting.seats_used, accounts in *. cbn in *.
    assert (i <> rid) as Hne by (intros ->; destruct Hrid as [r Hr]; congruence).
    unfold tracked, InMemorySessionStore.in_memory in *.
    rewrite InMemorySessionStore.tracked_insert_fresh, decide_False by done. unfold none_reserved. lia.
Qed.

Lemma seats_cleanup i w : seats_match w -> seats_match (cleanup_replica_state i w).2.
Proof.
  intros [Hwf Ha Hn].
  pose proof (Accounting.step_accounted (Accounting.RemoveReplica i) (accounts w none_reserved) Ha I) as Hstep.
  pose proof (sound_cleanup i w Hwf) as [Hwf' _ _].
  assert (World.replicas (cleanup_replica_state i w).2 = (Registry.remove i (World.replicas w)).2
    /\ World.sessions (cleanup_replica_state i w).2 = (InMemorySessionStore.drop_replica i (World.sessions w)).2) as [Hr Hs].
  { unfold cleanup_replica_state, st_bind, drop_sessions, forget_gauges, st_modify, st_ret.
    by destruct (Registry.remove i (World.replicas w)). }
  destruct (InMemorySessionStore.drop_replica i (World.sessions w)) as [n s'] eqn:E. cbn [snd] in Hs.
  pose proof (drop_law (S := InMemorySessionStore.t) i _ n s' E) as [_ Ht]. cbn in Ht.
  split; [done| |].
  - unfold accounts. rewrite Hr, Hs. unfold accounts in Hstep. cbn [Accounting.step] in Hstep.
    unfold drop_replica, InMemorySessionStore.in_memory in Hstep. rewrite E in Hstep.
    eapply Accounting.counts_ext; [|exact Hstep]. intros j. unfold Accounting.seats_used. cbn.
    unfold Accounting.bump, none_reserved. by case_decide.
  - intros j. rewrite Hr. rewrite (proj2 (Registry.remove_spec i _ (world_registry _ Hwf))).
    unfold Accounting.seats_used, accounts. cbn. rewrite Hs, Ht. unfold none_reserved.
    intros Hj. apply lookup_delete_None in Hj as [->|Hj]; [by rewrite decide_True|].
    case_decide; [done|]. specialize (Hn j Hj). unfold Accounting.seats_used, none_reserved in Hn. cbn in Hn. lia.
Qed.

(** *** Picks *)

Definition same_sessions w w' : Prop :=
  World.sessions w' = World.sessions w /\ World.inflight w' = World.inflight w.

#[local] Instance same_sessions_preorder : PreOrder same_sessions.
Proof. split; [by intros w|]. intros w1 w2 w3 [? ?] [? ?]. split; congruence. Qed.

Lemma same_sessions_pick pick spec : preserves same_sessions (pick_and_reserve (B := B) pick spec).
Proof.
  intros w. destruct (pick_and_reserve pick spec w) as [o w'] eqn:E.
  apply pick_and_reserve_spec in E as (c & _ & _ & Ho). by destruct o as [[r reserve]|]; [destruct Ho as [_ ->]|subst].
Qed.

Lemma same_sessions_spawn env spec : preserves same_sessions (spawn_on_demand (B := B) env spec).
Proof.
  intros w. unfold spawn_on_demand, st_bind, st_get, call_backend. destruct (World.backend w) as [b|] eqn:Eb; [|done].
  destruct (on_demand_request env spec) as [req|e]; [|done]. cbn. rewrite Eb.
  destruct (spawn_request req b) as [[r|e] b']; [|done]. cbn. by destruct (is_api spec).
Qed.

Lemma same_sessions_pick_or_spawn env spec : preserves same_sessions (pick_or_spawn (B := B) env spec).
Proof.
  unfold pick_or_spawn, pick_fast. apply preserves_bind; [apply _|apply same_sessions_pick|].
  intros [x|]; [apply preserves_ret, _|]. apply preserves_bind; [apply _|by intros w|]. intros _.
  apply preserves_bind; [apply _| |intros [x|]; [apply preserves_ret, _|apply same_sessions_spawn]].
  unfold pick_checked, pick_fast. apply preserves_bind; [apply _|apply same_sessions_pick|].
  intros [x|]; [apply preserves_ret, _|]. apply preserves_bind; [apply _|apply preserves_get, _|]. intros rs.
  destruct (List.find _ rs) as [r|]; [|destruct (_ || _); [apply same_sessions_pick|apply preserves_ret, _]].
  apply preserves_bind; [apply _| |intros _; apply preserves_ret, _]. intros w.
  unfold reserve_seat, st_modify. by destruct (is_api spec).
Qed.

Lemma pick_or_spawn_Err env spec w e w' :
  pick_or_spawn env spec w = (Err e, w') -> World.replicas w' = World.replicas w.
Proof.
  unfold pick_or_spawn, st_bind. destruct (pick_fast spec w) as [[x|] w1] eqn:E1; [done|].
  apply pick_fast_None in E1 as (Hr1 & _). unfold lock_entry, st_modify.
  destruct (pick_checked spec _) as [[x|] w3] eqn:E2; [done|].
  apply pick_checked_None in E2 as (Hr3 & _). intros Hs%spawn_on_demand_Err. rewrite Hs, Hr3. exact Hr1.
Qed.

Lemma wf_before_seat w reserve i reg :
  Registry.wf reg -> World.replicas w = seat_taken reserve i reg -> world_wf w -> world_wf (World.set_replicas reg w).
Proof.
  intros Hreg Hr [_ Hiss]. split; [done|]. intros b j q Hb Hq. cbn in Hb, Hq.
  assert (exists q', Registry.by_id (World.replicas w) !! j = Some q' /\ Replica.spec_id q' = Replica.spec_id q) as (q' & Hq' & <-).
  { rewrite Hr, seat_taken_lookup, Hq by done. case_decide; [|eauto]. destruct reserve; cbn; eauto. }
  by apply (Hiss b j q').
Qed.

(** Reserving, or not, the seat of a registered replica. *)
Lemma seats_taken w w' reserve rid :
  seats_match w -> world_wf w' -> is_Some (Registry.by_id (World.replicas w) !! rid) ->
  Z.of_nat (size (World.sessions w)) < u32_max ->
  World.replicas w' = seat_taken reserve rid (World.replicas w) -> World.sessions w' = World.sessions w ->
  is_Some (Registry.by_id (World.replicas w') !! rid)
  /\ seats_held w' (if reserve then Accounting.bump none_reserved rid 1%nat else none_reserved).
Proof.
  intros Hm Hwf' Hrid Hsize Hr Hs. split.
  - rewrite Hr, seat_taken_lookup, decide_True by (done || apply (held_wf _ _ Hm)). by apply fmap_is_Some.
  - destruct reserve; [by apply (seats_reserve w)|by apply (seats_ext w w' none_reserved)].
Qed.

Lemma pick_or_spawn_seats env spec w res w' :
  seats_match w -> Z.of_nat (size (World.sessions w)) < u32_max -> pick_or_spawn env spec w = (res, w') ->
  World.sessions w' = World.sessions w
  /\ match res with
     | Err _ => seats_match w'
     | Ok (r, reserve) => reserve = negb (is_api spec)
         /\ is_Some (Registry.by_id (World.replicas w') !! Replica.id r)
         /\ seats_held w' (if reserve then Accounting.bump none_reserved (Replica.id r) 1%nat else none_reserved)
     end.
Proof.
  intros Hm Hsize E. pose proof (same_sessions_pick_or_spawn env spec w) as Hs. rewrite E in Hs. destruct Hs as [Hs _]. cbn [snd] in Hs.
  split; [done|].
  pose proof (held_wf _ _ Hm) as Hwf. pose proof (sound_pick_or_spawn env spec w Hwf) as [Hwf' _ _]. rewrite E in Hwf'.
  cbn [snd] in Hwf'. destruct res as [[r reserve]|e].
  - destruct (pick_or_spawn_Ok env spec w r reserve w' Hwf E) as [Hres [[Hpk _]|[Hsp [Hreg _]]]]; (split; [done|]).
    + destruct Hpk as (Hin & _ & Hreg & _). apply (seats_taken w); try done.
      destruct (pool_elem w _ r (world_registry _ Hwf) Hin) as [-> _]. done.
    + assert (Registry.wf (Registry.add r (World.replicas w))) as Hadd
        by (apply Registry.wf_add; [apply Hwf|apply Hsp]).
      apply (seats_taken (World.set_replicas (Registry.add r (World.replicas w)) w')); try done.
      * apply (seats_add w _ r); try done; try apply Hsp. by apply (wf_before_seat w' reserve (Replica.id r)).
      * cbn. rewrite Registry.by_id_add by (apply Hwf || apply Hsp). by rewrite lookup_insert_eq.
      * cbn. by rewrite Hs.
  - apply (seats_ext w w' none_reserved); try done. by eapply pick_or_spawn_Err.
Qed.
End Seats.

(** *** The handler keeps the seats *)

Section ServeSeats.
Context {B : Type} `{ContainerBackendLaws B} `{HttpCrate} `{WebCrates} `{MfaCrates} `{CookieCodec}.
Context (portal : Portal.t) (net : Network.t) (clk : Moment.t).
Implicit Types (req : Request.t) (spec : Spec.t) (w : World.t B) (g : Gateway.t B).

Lemma sticky_kind spec : Spec.kind spec <> SpecKind.External -> spec_kind_needs_sticky (Spec.kind spec) = negb (is_api spec).
Proof. unfold is_api. by destruct (Spec.kind spec). Qed.

Lemma sticky_replica_registered req spec w r sid :
  Registry.wf (World.replicas w) -> sticky_replica portal req spec w = Some (r, sid) ->
  r ∈ World.pool w (Spec.id spec) /\ serves_sessions r = true
  /\ Registry.by_id (World.replicas w) !! Replica.id r = Some r.
Proof.
  intros Hwf. unfold sticky_replica.
  destruct (sticky_cookie req spec) as [raw|]; [|done]. cbn [mbind option_bind].
  destruct (ok (decode _ raw)) as [s|]; [|done]. cbn [mbind option_bind].
  destruct (str_eqb _ _); [|done].
  destruct (List.find _ _) as [q|] eqn:Ef; [|done]. cbn [mbind option_bind].
  destruct (serves_sessions q) eqn:Es; [|done]. intros [= -> <-]. apply find_elem in Ef as [Hin _].
  split; [done|]. split; [done|]. by apply (pool_elem w _ r Hwf Hin).
Qed.

(** The visitor's session once the replica is resolved. *)
Definition after_heartbeat spec (x : Resolved.t) w : World.t B :=
  if Resolved.track_session x && spec_kind_needs_sticky (Spec.kind spec) then (touch clk spec x w).2 else w.

Definition room w : Prop :=
  Z.of_nat (size (World.sessions w)) < u32_max /\ World.sessions w !! Moment.fresh clk = None.

Lemma new_visit_seats spec w r w' :
  Spec.kind spec <> SpecKind.External -> seats_match w -> room w -> new_visit portal clk spec w = (r, w') ->
  match r with Ok x => seats_match (after_heartbeat spec x w') | Err _ => seats_match w' end.
Proof.
  intros Hk Hm [Hsize Hfresh]. unfold new_visit, st_bind.
  destruct (pick_or_spawn (Portal.env portal) spec w) as [res w1] eqn:E.
  destruct (pick_or_spawn_seats _ _ _ _ _ Hm Hsize E) as [Hs Hres].
  destruct res as [[r0 reserve]|e]; intros [= <- <-]; [|done]. destruct Hres as (-> & Hreg & Hheld).
  unfold after_heartbeat. cbn [Resolved.track_session]. rewrite sticky_kind by done. cbn [andb].
  destruct (is_api spec); cbn [negb] in *; [exact Hheld|].
  apply seats_claim; cbn; [done|done|by rewrite Hs|done].
Qed.

Lemma resolve_seats req spec visit w r w' :
  Spec.kind spec <> SpecKind.External -> seats_match w -> room w ->
  resolve_replica portal clk req spec visit w = (r, w') ->
  match r with Ok x => seats_match (after_heartbeat spec x w') | Err _ => seats_match w' end.
Proof.
  intros Hk Hm Hroom. unfold resolve_replica. destruct (sticky_replica portal req spec w) as [[q sid]|] eqn:Es.
  - intros [= <- <-]. unfold after_heartbeat. cbn [Resolved.track_session]. destruct (_ && _); [|done].
    apply sticky_replica_registered in Es as (_ & _ & Hq); [|apply (held_wf _ _ Hm)].
    apply seats_touch; [done|cbn; by rewrite Hq|apply Hroom|done].
  - destruct visit; [by apply new_visit_seats|]. unfold pick_any.
    destruct (pick_replica _ _ _ _ _) as [[q|] c].
    + intros [= <- <-]. unfold after_heartbeat. cbn [Resolved.track_session andb].
      apply (seats_ext w _ none_reserved); try done. by apply (sound_same w); [| |apply (held_wf _ _ Hm)].
    + apply new_visit_seats; [done| |done].
      apply (seats_ext w _ none_reserved); try done. by apply (sound_same w); [| |apply (held_wf _ _ Hm)].
Qed.

(** A step that keeps matching seats matching. *)
Definition keeps_seats g g' : Prop := seats_match (Gateway.world g) -> seats_match (Gateway.world g').

#[local] Instance keeps_seats_preorder : PreOrder keeps_seats.
Proof. split; [intros g Hm; exact Hm|]. intros g1 g2 g3 H12 H23 Hm. by apply H23, H12. Qed.

Lemma keeps_world g g' : Gateway.world g' = Gateway.world g -> keeps_seats g g'.
Proof. unfold keeps_seats. by intros ->. Qed.

Lemma keeps_on_world {A} (m : St (World.t B) A) :
  (forall w, seats_match w -> seats_match (m w).2) -> preserves keeps_seats (on_world m).
Proof. intros Hm g. unfold keeps_seats, on_world. specialize (Hm (Gateway.world g)). by destruct (m (Gateway.world g)). Qed.

Lemma keeps_same_seats w w' :
  World.replicas w' = World.replicas w -> World.sessions w' = World.sessions w -> World.backend w' = World.backend w ->
  seats_match w -> seats_match w'.
Proof.
  intros Hr Hs Hb Hm. apply (seats_ext w _ none_reserved); try done. by apply (sound_same w); [| |apply (held_wf _ _ Hm)].
Qed.

Lemma keeps_ret {A} (a : A) : preserves keeps_seats (st_ret a : St (Gateway.t B) A).
Proof. apply preserves_ret, _. Qed.

Lemma keeps_effect {A} (m : St (Gateway.t B) A) : preserves keeps_seats m -> preserves keeps_seats (effect m).
Proof. intros Hm. apply preserves_bind; [apply _|done|intros a; apply keeps_ret]. Qed.

Lemma keeps_serveable req spec : preserves keeps_seats (serveable portal req spec).
Proof.
  unfold serveable, or_else, ready_now. apply preserves_bind; [apply _| |intros [|]; [apply keeps_ret|apply preserves_get, _]].
  apply keeps_on_world. intros w. destruct (has_ready_replica _ _ _ _). by apply keeps_same_seats.
Qed.

Lemma keeps_cold_start route path req spec : preserves keeps_seats (cold_start_stage portal route path req spec).
Proof.
  unfold cold_start_stage, probe_stage, splash_stage. repeat split_match; try apply keeps_ret;
    (apply preserves_stage_bind; [apply _|apply keeps_effect, keeps_serveable|]).
  - intros ?. apply keeps_ret.
  - intros [|]; [apply keeps_ret|]. intros g. apply keeps_world. by destruct (at_capacity _ _).
Qed.

Lemma keeps_reap r w : seats_match w -> seats_match (reap_if_confirmed_dead r w).2.
Proof.
  intros Hm. unfold reap_if_confirmed_dead, st_bind.
  pose proof (sound_call (B := B) (replica_liveness [ReplicaLivenessQuery.from r]) (Err (CoreError.Backend ""))
    (liveness_issued _) w (held_wf _ _ Hm)) as [Hwf1 _ _].
  destruct (call_backend _ _ w) as [report w1] eqn:E. cbn [snd] in Hwf1.
  assert (seats_match w1) as Hm1.
  { apply (seats_ext w w1 none_reserved); try done; unfold call_backend in E;
      destruct (World.backend w); [destruct (replica_liveness _ _)| |destruct (replica_liveness _ _)|]; by simplify_eq/=. }
  destruct report as [report|e]; [|done]. destruct (confirmed_missing r report); [|done].
  pose proof (seats_cleanup (Replica.id r) w1 Hm1) as Hc. by destruct (cleanup_replica_state _ w1).
Qed.

Lemma keeps_recover spec r : preserves keeps_seats (recover spec r : St (Gateway.t B) bool).
Proof.
  unfold recover. apply preserves_bind; [apply _|apply keeps_on_world, keeps_reap|]. intros [|]; [|apply keeps_ret].
  apply preserves_bind; [apply _| |intros ?; apply keeps_ret]. intros g. by apply keeps_world.
Qed.

Lemma keeps_ws path cors req spec ids x : preserves keeps_seats (ws_stage (B := B) net path cors req spec ids x).
Proof.
  unfold ws_stage. split_match; [apply keeps_ret|]. apply preserves_stage_bind; [apply _|apply keeps_effect; intros g; by apply keeps_world|].
  intros _. split_match; [apply keeps_ret|]. apply preserves_stage_bind; [apply _|apply keeps_effect, keeps_recover|].
  intros _. apply keeps_ret.
Qed.

Lemma keeps_guard guard : preserves keeps_seats (on_world (drop_guard (B := B) guard)).
Proof. apply keeps_on_world. intros w. unfold drop_guard, st_modify. destruct guard; [by apply keeps_same_seats|done]. Qed.

Lemma keeps_record_access spec_id : preserves keeps_seats (record_access (B := B) portal clk spec_id).
Proof. intros g. apply keeps_world. unfold record_access, st_modify. by destruct (Portal.db portal). Qed.

Lemma keeps_client_request call : preserves keeps_seats (client_request (B := B) net call).
Proof.
  unfold client_request. apply preserves_bind; [apply _|intros g; by apply keeps_world|]. intros _.
  split_match; [apply keeps_ret|]. split_match; [|apply keeps_ret].
  apply preserves_bind; [apply _|intros g; by apply keeps_world|]. intros _. apply keeps_ret.
Qed.

Lemma keeps_http route path cors req spec ids x :
  preserves keeps_seats (http_stage (B := B) portal net clk route path cors req spec ids x).
Proof.
  unfold http_stage. apply preserves_stage_bind; [apply _|apply keeps_effect, keeps_on_world|intros guard].
  { intros w. unfold acquire_guard. destruct (str_eqb _ _); [by apply keeps_same_seats|done]. }
  apply preserves_stage_bind; [apply _| |intros resp].
  - apply preserves_bind; [apply _| |].
    + unfold do_forward. split_match; [|apply keeps_ret].
      apply preserves_bind; [apply _|apply keeps_client_request|intros ?; apply keeps_ret].
    + intros [resp|e]; [apply keeps_ret|]. unfold upstream_error.
      apply preserves_stage_bind; [apply _|apply keeps_effect, keeps_recover|]. intros reaped.
      apply preserves_stage_bind; [apply _|apply keeps_effect, keeps_guard|]. intros _. split_match; apply keeps_ret.
  - apply preserves_stage_bind; [apply _|apply keeps_effect|intros _; apply keeps_ret].
    unfold count_access. apply preserves_bind; [apply _| |intros _]; split_match;
      (apply keeps_record_access || apply keeps_ret).
Qed.

Lemma heartbeat_world req spec x g :
  Gateway.world (heartbeat net clk req spec x g).2 = after_heartbeat spec x (Gateway.world g).
Proof.
  unfold heartbeat, after_heartbeat. destruct (_ && _); [|done]. unfold st_bind, on_world.
  destruct (touch clk spec x (Gateway.world g)) as [[|] w]; [|done]. unfold note_registered, st_modify. cbn.
  destruct (acting_user req); [|done]. by destruct (Spec.effective_stop_on_logout spec).
Qed.

(** The cold-start stage moves the round-robin counter at most. *)
Definition calm g g' : Prop := exists c, Gateway.world g' = World.set_counter c (Gateway.world g).

#[local] Instance calm_preorder : PreOrder calm.
Proof.
  split; [intros g; exists (World.counter (Gateway.world g)); by destruct (Gateway.world g)|].
  intros g1 g2 g3 [c E] [c' E']. exists c'. by rewrite E', E.
Qed.

Lemma calm_world g g' : Gateway.world g' = Gateway.world g -> calm g g'.
Proof. intros E. exists (World.counter (Gateway.world g)). rewrite E. by destruct (Gateway.world g). Qed.

Lemma calm_serveable req spec : preserves calm (serveable portal req spec).
Proof.
  unfold serveable, or_else, ready_now, on_world.
  apply preserves_bind; [apply _| |intros [|]; [apply preserves_ret, _|apply preserves_get, _]].
  intros g. destruct (has_ready_replica _ _ _ _) as [ready c]. by exists c.
Qed.

Lemma calm_cold_start route path req spec : preserves calm (cold_start_stage portal route path req spec).
Proof.
  unfold cold_start_stage, probe_stage, splash_stage. repeat split_match; try (apply preserves_ret, _);
    (apply preserves_stage_bind; [apply _| |]);
    try (apply preserves_bind; [apply _|apply calm_serveable|intros ?; apply preserves_ret, _]).
  - intros ?. apply preserves_ret, _.
  - intros [|]; [apply preserves_ret, _|]. intros g. apply calm_world. by destruct (at_capacity _ _).
Qed.

Lemma serve_keeps_seats route path req spec ids g :
  Spec.kind spec <> SpecKind.External -> seats_match (Gateway.world g) -> room (Gateway.world g) ->
  seats_match (Gateway.world (serve portal net clk route path req spec ids g).2).
Proof.
  intros Hk Hm Hroom. unfold serve. pose proof (calm_cold_start route path req spec g) as [c Hc].
  destruct (cold_start_stage portal route path req spec g) as [[u|reply] g1] eqn:E1; cbn [snd] in Hc;
    [rewrite (stage_bind_Ok _ _ _ _ _ E1)|rewrite (stage_bind_Err _ _ _ _ _ E1); cbn; rewrite Hc; by apply (keeps_same_seats (Gateway.world g))].
  assert (seats_match (Gateway.world g1)) as Hm1 by (rewrite Hc; by apply (keeps_same_seats (Gateway.world g))).
  assert (room (Gateway.world g1)) as Hroom1 by (by rewrite Hc).
  destruct (resolve_replica portal clk req spec (wants_html (Request.headers req)) (Gateway.world g1)) as [[x|e] w] eqn:Er;
    pose proof (resolve_seats _ _ _ _ _ _ Hk Hm1 Hroom1 Er) as Hres.
  - assert (resolve_stage portal clk (cors_on route spec) req spec g1 = (Ok x, Gateway.set_world w g1)) as Es
      by (unfold resolve_stage, st_bind, on_world; by rewrite Er).
    rewrite (stage_bind_Ok _ _ _ _ _ Es).
    rewrite stage_bind_effect. set (g2 := (heartbeat _ _ _ _ _ _).2).
    assert (seats_match (Gateway.world g2)) as Hm2 by (unfold g2; by rewrite heartbeat_world).
    revert Hm2. generalize g2.
    change (preserves keeps_seats (stage_bind (ws_stage net path (cors_on route spec) req spec ids x)
      (fun _ => http_stage portal net clk route path (cors_on route spec) req spec ids x))).
    apply preserves_stage_bind; [apply _|apply keeps_ws|intros _; apply keeps_http].
  - assert (exists reply, resolve_stage portal clk (cors_on route spec) req spec g1 = (Err reply, Gateway.set_world w g1)) as [reply Es]
      by (unfold resolve_stage, st_bind, on_world; rewrite Er; by eexists).
    by rewrite (stage_bind_Err _ _ _ _ _ Es).
Qed.
End ServeSeats.

(** *** The in-flight gauge *)

Section Gauge.
Context {B : Type} `{ContainerBackendLaws B} `{HttpCrate} `{WebCrates} `{MfaCrates} `{CookieCodec}.
Context (portal : Portal.t) (net : Network.t) (clk : Moment.t) (i : ReplicaId).
Implicit Types (req : Request.t) (spec : Spec.t) (w : World.t B) (g : Gateway.t B).

Definition in_flight g : Z := Inflight.inflight_count (World.inflight (Gateway.world g)) i.

(** The registry no longer knows the replica. *)
Definition unregistered g : Prop := Registry.by_id (World.replicas (Gateway.world g)) !! i = None.

(** Unchanged, or forgotten with a reaped replica. *)
Definition even_or_reaped (n : Z) g : Prop := in_flight g = n \/ (in_flight g = 0 /\ unregistered g).

(** Past the routing: nothing is registered any more, and a gauge moves only
    by being forgotten with its replica. *)
Definition steady g g' : Prop :=
  Registry.wf (World.replicas (Gateway.world g)) ->
  Registry.wf (World.replicas (Gateway.world g')) /\ (unregistered g -> unregistered g') /\ even_or_reaped (in_flight g) g'.

#[local] Instance steady_preorder : PreOrder steady.
Proof.
  split; [intros g Hwf; split; [done|split; [done|by left]]|]. intros g1 g2 g3 H12 H23 Hwf.
  destruct (H12 Hwf) as (Hwf2 & Hu2 & He2). destruct (H23 Hwf2) as (Hwf3 & Hu3 & He3). split; [done|]. split; [auto|].
  unfold even_or_reaped in *. destruct He2 as [E2|[E2 Hu]]; rewrite E2 in He3; [done|]. right. split; [|auto].
  by destruct He3 as [|[? _]].
Qed.

Definition same_gauges g g' : Prop := World.inflight (Gateway.world g') = World.inflight (Gateway.world g).
Definition same_replicas g g' : Prop := World.replicas (Gateway.world g') = World.replicas (Gateway.world g).

(** Up to the routing: the gauges are untouched, the registry stays sound. *)
Definition untouched g g' : Prop := same_gauges g g' /\ sound (Gateway.world g) (Gateway.world g').

(** Past the routing, when nothing is reaped. *)
Definition quiet_gauges g g' : Prop := same_gauges g g' /\ same_replicas g g'.

#[local] Instance same_gauges_preorder : PreOrder same_gauges.
Proof. split; [by intros g|]. intros g1 g2 g3. unfold same_gauges. congruence. Qed.

#[local] Instance untouched_preorder : PreOrder untouched.
Proof.
  split; [intros g; split; done|]. intros g1 g2 g3 [H12 S12] [H23 S23]. split; [by etransitivity|].
  by etransitivity.
Qed.

#[local] Instance quiet_gauges_preorder : PreOrder quiet_gauges.
Proof. split; [by intros g|]. intros g1 g2 g3 [E R] [E' R']. split; [unfold same_gauges in *|unfold same_replicas in *]; congruence. Qed.
























End Gauge.

(** *** A session that is up is served by its replica *)

Section Served.
Context {B : Type} `{ContainerBackend B} `{HttpCrate} `{WebCrates} `{MfaCrates} `{CookieCodec}.
Context (portal : Portal.t) (net : Network.t) (clk : Moment.t).
Implicit Types (req : Request.t) (spec : Spec.t) (w : World.t B) (g : Gateway.t B).

Lemma sticky_has_seat req spec w r sid :
  sticky_replica portal req spec w = Some (r, sid) ->
  has_sticky_seat (Portal.cookie_key portal) (World.replicas w) spec (sticky_cookie req spec) = true.
Proof.
  unfold sticky_replica, has_sticky_seat. destruct (sticky_cookie req spec) as [raw|]; [|done]. cbn [mbind option_bind].
  destruct (decode _ raw) as [s|e]; [|done]. cbn [ok mbind option_bind]. unfold sticky_replica_is_live.
  destruct (str_eqb _ _); [|done]. destruct (List.find _ _) as [q|] eqn:Ef; [|done]. cbn [mbind option_bind].
  destruct (serves_sessions q) eqn:Es; [|done]. intros _. cbn. apply existsb_elem.
  apply find_elem in Ef as [Hin Hid]. exists q. split; [done|]. by rewrite Hid, Es.
Qed.

(** The counter of the readiness gate moved, nothing else. *)
Definition quiet g g' : Prop :=
  calm g g' /\ Gateway.tasks g' = Gateway.tasks g /\ Gateway.calls g' = Gateway.calls g.

Lemma sticky_passes_cold_start route path req spec g r sid :
  path <> COLD_PROBE_PATH -> sticky_replica portal req spec (Gateway.world g) = Some (r, sid) ->
  exists g1, cold_start_stage portal route path req spec g = (Ok tt, g1) /\ quiet g g1.
Proof.
  intros Hpath Hs. unfold cold_start_stage, splash_stage.
  assert (quiet g g) as Hrefl by (split; [by apply calm_world|done]).
  destruct (_ && negb _); [|by exists g]. destruct (str_eqb_spec path COLD_PROBE_PATH); [done|].
  destruct (_ && wants_html _); [|by exists g]. rewrite stage_bind_effect.
  pose proof (calm_serveable portal req spec g) as Hc.
  assert ((serveable portal req spec g).1 = true
          /\ Gateway.tasks (serveable portal req spec g).2 = Gateway.tasks g
          /\ Gateway.calls (serveable portal req spec g).2 = Gateway.calls g) as (-> & Ht & Hcl).
  { unfold serveable, or_else, ready_now, on_world, st_bind, seat_held, st_get, st_ret.
    destruct (has_ready_replica _ _ _ _) as [[|] c]; cbn; (split; [|done]); [done|]. by apply (sticky_has_seat req spec _ r sid). }
  eexists. split; [done|]. by split.
Qed.

Lemma sticky_replica_calm req spec g g' :
  calm g g' -> sticky_replica portal req spec (Gateway.world g') = sticky_replica portal req spec (Gateway.world g).
Proof. by intros [c ->]. Qed.

Definition upstream_uri (r : Replica.t) (path : string) req : option string :=
  parse_uri ("http://" +:+ Replica.upstream r +:+ path +:+ query_suffix req).

(** The response a visitor gets for the container's [resp]. *)
Definition relayed (route : string) spec (r : Replica.t) (resp : Response.t) : Response.t :=
  let resp := Response.map_headers client_headers resp in
  with_cors (cors_on route spec)
    (if transform_html route spec
     then Network.inject_base_href net resp (Portal.base_path portal +:+ route +:+ Spec.id spec +:+ "/") (Replica.upstream r)
     else resp).

Lemma http_served route path req spec ids x uri resp g :
  upstream_uri (Resolved.replica x) path req = Some uri ->
  (forall call, HttpCall.uri call = uri -> Network.http net 0 call = Ok resp) ->
  exists reply g' call,
    http_stage portal net clk route path (cors_on route spec) req spec ids x g = (Ok reply, g')
    /\ Reply.response reply = relayed route spec (Resolved.replica x) resp
    /\ (binds_visitor spec x = false -> forall op, op ∈ Reply.jar reply -> op = Jar.Remove COOKIE_NAME "/")
    /\ Gateway.calls g' = Gateway.calls g ++ [Call.Http call] /\ HttpCall.uri call = uri
    /\ HttpCall.method call = Request.method req /\ HttpCall.body call = Request.body req
    /\ Gateway.tasks g' = Gateway.tasks g
    /\ World.sessions (Gateway.world g') = World.sessions (Gateway.world g).
Proof.
  intros Huri Hnet. unfold http_stage. rewrite stage_bind_effect.
  destruct (on_world (acquire_guard route (Resolved.replica x)) g) as [guard g1] eqn:Ea.
  assert (Gateway.calls g1 = Gateway.calls g /\ Gateway.tasks g1 = Gateway.tasks g
          /\ World.sessions (Gateway.world g1) = World.sessions (Gateway.world g)) as (Hc1 & Ht1 & Hs1).
  { unfold on_world, acquire_guard in Ea. destruct (str_eqb _ _); by injection Ea as _ <-. }
  cbn [fst snd]. set (outgoing := Request.set_headers _ req). set (prefix := mount_prefix _ _ _). set (https := request_is_https _ _).
  set (call := HttpCall.mk uri (Request.method req) (upstream_headers prefix https ids (Request.headers outgoing))
                 (Request.body req) (body_cap portal spec)).
  assert (do_forward net (Resolved.replica x) path prefix https outgoing (body_cap portal spec) ids g1
          = (Ok (Response.map_headers client_headers resp), Gateway.log_call (Call.Http call) g1)) as E.
  { unfold do_forward. change (query_suffix outgoing) with (query_suffix req). unfold upstream_uri in Huri. rewrite Huri.
    change (HttpCall.mk uri _ _ _ _) with call. unfold client_request, st_bind, st_modify. by rewrite (Hnet call eq_refl). }
  unfold stage_bind at 1, st_bind at 1 2. rewrite E. unfold continue, st_ret. rewrite stage_bind_effect.
  eexists _, _, call. split; [reflexivity|]. split; [done|]. split.
  { intros Hb op. cbn. unfold reply_jar. rewrite Hb. cbn. destruct (Request.cookies req COOKIE_NAME);
      [by intros ->%list_elem_of_singleton|by intros ?%not_elem_of_nil]. }
  assert (forall b, Gateway.calls (count_access (B := B) portal clk spec x b).2 = Gateway.calls b
      /\ Gateway.tasks (count_access (B := B) portal clk spec x b).2 = Gateway.tasks b
      /\ Gateway.world (count_access (B := B) portal clk spec x b).2 = Gateway.world b) as Hcount.
  { intros b. unfold count_access, st_bind, record_access, st_modify, st_ret.
    destruct (binds_visitor spec x), (is_api spec), (Portal.db portal); by repeat split. }
  destruct (Hcount (Gateway.log_call (Call.Http call) g1)) as (-> & -> & ->). cbn. by rewrite Hc1, Ht1, Hs1.
Qed.

Lemma touch_heartbeat spec x w :
  exists e, World.sessions (touch clk spec x w).2 !! Resolved.session_id x = Some e
    /\ SessionEntry.last_seen e = Moment.touch_at clk.
Proof.
  unfold touch, InMemorySessionStore.touch_or_register. destruct (World.sessions w !! Resolved.session_id x) as [e|];
    cbn; rewrite lookup_insert_eq; by eexists.
Qed.

Lemma heartbeat_frame req spec x g :
  Gateway.calls (heartbeat net clk req spec x g).2 = Gateway.calls g
  /\ Gateway.tasks (heartbeat net clk req spec x g).2 = Gateway.tasks g.
Proof.
  unfold heartbeat. destruct (_ && _); [|done]. unfold st_bind, on_world.
  destruct (touch clk spec x (Gateway.world g)) as [[|] w]; [|done]. unfold note_registered, st_modify. cbn.
  destruct (acting_user req); [|done]. by destruct (Spec.effective_stop_on_logout spec).
Qed.

Lemma serve_sticky route path req spec ids g r sid uri resp :
  Request.upgrade req = false -> path <> COLD_PROBE_PATH ->
  sticky_replica portal req spec (Gateway.world g) = Some (r, sid) ->
  upstream_uri r path req = Some uri ->
  (forall call, HttpCall.uri call = uri -> Network.http net 0 call = Ok resp) ->
  exists reply g' call,
    serve portal net clk route path req spec ids g = (Ok reply, g')
    /\ Reply.response reply = relayed route spec r resp
    /\ (forall op, op ∈ Reply.jar reply -> op = Jar.Remove COOKIE_NAME "/")
    /\ Gateway.calls g' = Gateway.calls g ++ [Call.Http call] /\ HttpCall.uri call = uri
    /\ HttpCall.method call = Request.method req /\ HttpCall.body call = Request.body req
    /\ Gateway.tasks g' = Gateway.tasks g
    /\ (spec_kind_needs_sticky (Spec.kind spec) = true ->
        exists e, World.sessions (Gateway.world g') !! sid = Some e /\ SessionEntry.last_seen e = Moment.touch_at clk).
Proof.
  intros Hup Hpath Hs Huri Hnet. unfold serve.
  destruct (sticky_passes_cold_start route path req spec g r sid Hpath Hs) as (g1 & E1 & Hcalm & Ht1 & Hc1).
  rewrite (stage_bind_Ok _ _ _ _ _ E1).
  set (x := Resolved.mk r sid true false true).
  assert (resolve_stage portal clk (cors_on route spec) req spec g1 = (Ok x, g1)) as E2.
  { unfold resolve_stage, st_bind, on_world, resolve_replica. rewrite (sticky_replica_calm req spec g g1 Hcalm), Hs.
    unfold continue, st_ret. by destruct g1. }
  rewrite (stage_bind_Ok _ _ _ _ _ E2), stage_bind_effect.
  set (g2 := (heartbeat net clk req spec x g1).2). destruct (heartbeat_frame req spec x g1) as [Hc2 Ht2]. fold g2 in Hc2, Ht2.
  assert (ws_stage net path (cors_on route spec) req spec ids x g2 = (Ok tt, g2)) as E3 by (unfold ws_stage; by rewrite Hup).
  rewrite (stage_bind_Ok _ _ _ _ _ E3).
  destruct (http_served route path req spec ids x uri resp g2 Huri Hnet)
    as (reply & g' & call & E & Hresp & Hjar & Hcalls & Hu & Hmeth & Hbody & Htasks & Hsess).
  exists reply, g', call. split; [done|]. split; [done|]. split; [by apply Hjar|].
  split; [by rewrite Hcalls, Hc2, Hc1|]. split; [done|]. split; [done|]. split; [done|].
  split; [by rewrite Htasks, Ht2, Ht1|]. intros Hk. rewrite Hsess. unfold g2. rewrite heartbeat_world.
  unfold after_heartbeat. cbn [Resolved.track_session andb x]. rewrite Hk. apply (touch_heartbeat spec x).
Qed.
End Served.

(** *** Identity headers *)

(** What an app is told about its visitor under one header name: the app's
    own settings decide, and the account says what. *)
Definition told spec (who : option (string * CachedIdentity.t)) (name : string) : list string :=
  match who with
  | None => []
  | Some (user, account) =>
    let standard := match Spec.add_default_http_headers spec with Some b => b | None => false end in
    let asks claim := existsb (fun c => str_eqb (trim c) claim) (default [] (Spec.identity_claims spec)) in
    let shown v := match v with Some v => if str_is_empty (trim v) then [] else [v] | None => [] end in
    if str_eqb name "x-sp-userid" then if standard then [user] else []
    else if str_eqb name "x-sp-usergroups" then if standard then [str_join "," (CachedIdentity.groups account)] else []
    else if str_eqb name "x-ruscker-user-email" then if asks "email" then shown (CachedIdentity.email account) else []
    else if str_eqb name "x-ruscker-user-setor" then if asks "setor" then shown (CachedIdentity.setor account) else []
    else []
  end.

(** What a container received, on either transport. *)
Definition received `{HttpCrate} (client : string -> HeaderMap.t) (c : Call.t) : HeaderMap.t :=
  match c with Call.Http h => HttpCall.headers h | Call.Ws ws => connect_with_headers (client (WsCall.url ws)) ws end.

(** *** The WebSocket handshake *)

Definition upgrade_names : list string := ["host"; "connection"; "upgrade"; "sec-websocket-version"; "sec-websocket-key"].

Lemma handshake_reserved `{HttpCrate} client call n :
  (forall m, m ∉ upgrade_names -> HeaderMap.get_all m client = []) -> is_reserved_identity n = true ->
  HeaderMap.get_all n (handshake_headers client call) = [].
Proof.
  intros Hclient Hn. assert (forall m, is_reserved_identity m = false -> n <> m) as Hne by (intros m Hm ->; congruence).
  assert (HeaderMap.get_all n client = []) as Hc.
  { apply Hclient. unfold upgrade_names. rewrite !not_elem_of_cons. repeat split; try (apply Hne; vm_compute; reflexivity). set_solver. }
  unfold handshake_headers. destruct (WsCall.cookie call ≫= _), (WsCall.subprotocols call ≫= _);
    rewrite ?HeaderMap.get_all_insert, ?decide_False by (apply Hne; vm_compute; reflexivity); done.
Qed.

Lemma handshake_cookie `{HttpCrateLaws} client call v :
  (forall m, m ∉ upgrade_names -> HeaderMap.get_all m client = []) ->
  (forall name value, (name, value) ∈ WsCall.identity call -> name_parse name <> Some "cookie") ->
  v ∈ HeaderMap.get_all "cookie" (connect_with_headers client call) -> WsCall.cookie call = Some v.
Proof.
  intros Hclient Hids. unfold connect_with_headers. rewrite get_all_insert_identity_other by done.
  assert (HeaderMap.get_all "cookie" client = []) as Hc by (apply Hclient; apply (bool_decide_unpack _); exact I).
  unfold handshake_headers. destruct (WsCall.cookie call) as [k|]; cbn [mbind option_bind].
  - destruct (value_from_str k) as [x|] eqn:Ex; destruct (WsCall.subprotocols call ≫= _);
      rewrite ?HeaderMap.get_all_insert, ?(decide_False (P := "cookie" = "sec-websocket-protocol")), ?decide_True, ?Hc by done;
      rewrite ?list_elem_of_singleton; try (by intros ?%not_elem_of_nil); intros ->; f_equal; symmetry; by apply value_from_str_same.
  - destruct (WsCall.subprotocols call ≫= _); rewrite ?HeaderMap.get_all_insert, ?decide_False, ?Hc by done; by intros ?%not_elem_of_nil.
Qed.

Lemma portal_cookie pair :
  is_ruscker_cookie (cookie_pair_name pair) = false ->
  let name := trim (split_first "=" pair) in
  name ∉ ["ruscker_admin_session"; "ruscker_theme"; "ruscker_locale"]
  /\ starts_with "__ruscker_session" name = false /\ starts_with "__ruscker_mfa_" name = false.
Proof.
  unfold is_ruscker_cookie, cookie_pair_name. cbv zeta. intros [[Hn Hs]%orb_false_iff Hm]%orb_false_iff.
  split; [|by split]. cbn in Hn. rewrite !orb_false_iff in Hn. destruct Hn as (H1 & H2 & H3 & _).
  apply str_eqb_neq in H1, H2, H3. rewrite !not_elem_of_cons. repeat split; try done. set_solver.
Qed.

(** No header of an identity is a cookie. *)
Lemma identity_not_cookie `{HttpCrateLaws} spec i name value :
  (name, value) ∈ identity_headers spec i -> name_parse name <> Some "cookie".
Proof.
  intros Hin Hp. apply name_parse_lower in Hp. unfold identity_headers in Hin. destruct i as [j|]; [|by apply not_elem_of_nil in Hin].
  unfold Identity.header_pairs in Hin. apply elem_of_app in Hin as [Hin|Hin].
  - destruct (Spec.effective_add_default_http_headers spec); [|by apply not_elem_of_nil in Hin].
    rewrite !elem_of_cons in Hin. destruct Hin as [[= -> _]|[[= -> _]|?%not_elem_of_nil]]; done.
  - apply list_elem_of_omap in Hin as (claim & _ & Hc). unfold Identity.claim_header in Hc.
    destruct claim; [destruct (Identity.email j)|destruct (Identity.setor j)]; cbn in Hc; try done;
      destruct (str_is_empty _); simplify_eq.
Qed.

(** The claims of an app: those its list names, each once. *)
Lemma identity_claims_spec spec :
  let asks claim := existsb (fun c => str_eqb (trim c) claim) (default [] (Spec.identity_claims spec)) in
  let claims := Spec.effective_identity_claims spec in
  NoDup claims /\ bool_decide (IdentityClaim.Email ∈ claims) = asks "email"
  /\ bool_decide (IdentityClaim.Setor ∈ claims) = asks "setor".
Proof.
  cbv zeta. unfold Spec.effective_identity_claims. generalize (default [] (Spec.identity_claims spec)). intros names.
  assert (forall acc, NoDup acc ->
    let claims := foldl (fun claims name => match Spec.parse_identity_claim name with
                   | None => claims | Some claim => if bool_decide (claim ∈ claims) then claims else claims ++ [claim] end) acc names in
    NoDup claims
    /\ bool_decide (IdentityClaim.Email ∈ claims) = bool_decide (IdentityClaim.Email ∈ acc) || existsb (fun c => str_eqb (trim c) "email") names
    /\ bool_decide (IdentityClaim.Setor ∈ claims) = bool_decide (IdentityClaim.Setor ∈ acc) || existsb (fun c => str_eqb (trim c) "setor") names) as Hfold.
  { induction names as [|name names IH]; intros acc Hnd; cbn; [by rewrite !orb_false_r|].
    set (acc' := match Spec.parse_identity_claim name with None => acc | Some claim => if bool_decide (claim ∈ acc) then acc else acc ++ [claim] end).
    assert (NoDup acc' /\ bool_decide (IdentityClaim.Email ∈ acc') = bool_decide (IdentityClaim.Email ∈ acc) || str_eqb (trim name) "email"
      /\ bool_decide (IdentityClaim.Setor ∈ acc') = bool_decide (IdentityClaim.Setor ∈ acc) || str_eqb (trim name) "setor") as (Hnd' & He & Hs).
    { unfold acc', Spec.parse_identity_claim. destruct (str_eqb (trim name) "email") eqn:E1; [apply str_eqb_eq in E1; rewrite E1|
        destruct (str_eqb (trim name) "setor") eqn:E2]; cbn; [| |by rewrite !orb_false_r].
      - case_bool_decide as Hin; [rewrite !orb_true_r, orb_false_r; by rewrite (bool_decide_true _ Hin)|].
        split; [apply list.NoDup_app; split; [done|]; split; [set_solver|apply list.NoDup_singleton]|].
        split; [apply bool_decide_true; set_solver|].
        rewrite orb_false_r. apply bool_decide_ext. set_solver.
      - case_bool_decide as Hin; [rewrite !orb_true_r, orb_false_r; by rewrite (bool_decide_true _ Hin)|].
        split; [apply list.NoDup_app; split; [done|]; split; [set_solver|apply list.NoDup_singleton]|].
        split; [|apply bool_decide_true; set_solver].
        rewrite orb_false_r. apply bool_decide_ext. set_solver. }
    destruct (IH acc' Hnd') as (H1 & H2 & H3). split; [exact H1|]. rewrite H2, H3, He, Hs. by rewrite !orb_assoc. }
  destruct (Hfold [] (base.NoDup_nil_2)) as (H1 & H2 & H3). split; [exact H1|]. split; [exact H2|exact H3].
Qed.

(** One inserted pair, read back under a name. *)
Lemma get_all_insert_pair `{HttpCrateLaws} n name value ids h :
  str_is_empty name = false -> str_forallb name_char name = true ->
  HeaderMap.get_all n (insert_identity_headers ((name, value) :: ids) h)
  = HeaderMap.get_all n (insert_identity_headers ids
      (match value_from_bytes value with Some v => HeaderMap.insert (to_ascii_lowercase name) v h | None => h end)).
Proof.
  intros H1 H2. unfold insert_identity_headers. cbn [foldl]. destruct (name_parse_token name H1 H2) as [m Hm].
  rewrite Hm. apply name_parse_lower in Hm as ->. by destruct (value_from_bytes value).
Qed.

(** Pairs of different names, inserted where the name is free. *)
Lemma get_all_insert_pairs `{HttpCrateLaws} n ids h :
  HeaderMap.get_all n h = [] -> NoDup (map (fun kv => to_ascii_lowercase kv.1) ids) ->
  Forall (fun kv => str_is_empty kv.1 = false /\ str_forallb name_char kv.1 = true) ids ->
  HeaderMap.get_all n (insert_identity_headers ids h)
  = omap value_from_bytes (omap (fun kv => if str_eqb n (to_ascii_lowercase kv.1) then Some kv.2 else None) ids).
Proof.
  intros Hn Hnd Hok. revert h Hn. induction ids as [|[m v] ids IH]; intros h Hn; [exact Hn|].
  cbn [map fst] in Hnd. apply list.NoDup_cons in Hnd as [Hm Hnd]. apply list.Forall_cons in Hok as [[H1 H2] Hok].
  rewrite get_all_insert_pair by done. cbn [omap list_omap fst snd]. destruct (str_eqb n (to_ascii_lowercase m)) eqn:E.
  - apply str_eqb_eq in E as ->.
    assert (omap (fun kv : string * string => if str_eqb (to_ascii_lowercase m) (to_ascii_lowercase kv.1) then Some kv.2 else None) ids = []) as Hrest.
    { clear -Hm. induction ids as [|[k w] ids IH]; [done|]. cbn [omap list_omap map fst snd] in Hm |- *. apply not_elem_of_cons in Hm as [Hne Hm].
      rewrite (proj2 (str_eqb_neq _ _) Hne). by apply IH. }
    rewrite get_all_insert_identity_other.
    + rewrite Hrest. cbn. destruct (value_from_bytes v) as [x|]; [|exact Hn]. rewrite HeaderMap.get_all_insert. by case_decide.
    + intros k w Hk Hp. apply name_parse_lower in Hp. apply Hm. rewrite Hp. apply list_elem_of_fmap. by exists (k, w).
  - apply str_eqb_neq in E. apply IH; [done|done|]. destruct (value_from_bytes v); [|done].
    rewrite HeaderMap.get_all_insert. by case_decide.
Qed.

(** The claims an app may ask for. *)
Lemma claims_cases (claims : list IdentityClaim.t) : NoDup claims ->
  claims = [] \/ claims = [IdentityClaim.Email] \/ claims = [IdentityClaim.Setor]
  \/ claims = [IdentityClaim.Email; IdentityClaim.Setor] \/ claims = [IdentityClaim.Setor; IdentityClaim.Email].
Proof.
  intros Hnd. destruct claims as [|a [|b [|d l]]]; [auto|destruct a; auto|..]; rewrite ?list.NoDup_cons in Hnd.
  - destruct Hnd as [Hin _]. destruct a, b; auto; set_solver.
  - destruct Hnd as (H1 & H2 & _). destruct a, b, d; set_solver.
Qed.

(** The pairs of an identity say what the app is to be told. *)
Lemma insert_told `{HttpCrateLaws} spec who h n :
  HeaderMap.get_all n h = [] ->
  HeaderMap.get_all n (insert_identity_headers (identity_headers spec
    ('(user, c) ← who; if needs_identity spec
      then Some (Identity.mk user (CachedIdentity.groups c) (CachedIdentity.email c) (CachedIdentity.setor c)) else None)) h)
  = omap value_from_bytes (told spec who n).
Proof.
  intros Hn. destruct who as [[user c]|]; [|exact Hn]. cbn [mbind option_bind told].
  destruct (identity_claims_spec spec) as (Hnd & He & Hs). cbv zeta in *. rewrite <- He, <- Hs. clear He Hs.
  unfold identity_headers, needs_identity, Identity.header_pairs, Spec.effective_add_default_http_headers.
  set (standard := default false (Spec.add_default_http_headers spec)).
  change (match Spec.add_default_http_headers spec with Some b => b | None => false end) with standard.
  set (claims := Spec.effective_identity_claims spec) in *. clearbody standard claims.
  destruct (negb (Spec.is_open spec) || standard || match claims with [] => false | _ => true end) eqn:Hneeds.
  - assert (to_ascii_lowercase "X-SP-UserId" = "x-sp-userid" /\ to_ascii_lowercase "X-SP-UserGroups" = "x-sp-usergroups"
      /\ to_ascii_lowercase "X-Ruscker-User-Email" = "x-ruscker-user-email"
      /\ to_ascii_lowercase "X-Ruscker-User-Setor" = "x-ruscker-user-setor") as (L1 & L2 & L3 & L4) by (vm_compute; auto).
    rewrite get_all_insert_pairs; [f_equal|done|..].
    all: destruct (claims_cases claims Hnd) as [->|[->|[->|[->| ->]]]], standard, c as [groups [email|] [setor|]];
      cbn -[to_ascii_lowercase str_eqb trim]; try destruct (str_is_empty (trim email)); try destruct (str_is_empty (trim setor));
      cbn -[to_ascii_lowercase str_eqb trim]; rewrite ?L1, ?L2, ?L3, ?L4.
    all: try (apply (bool_decide_unpack _); vm_compute; exact I).
    all: try (repeat constructor; fail).
    all: repeat match goal with |- context [str_eqb ?m ?s] => is_var m; let E := fresh in destruct (str_eqb m s) eqn:E; [apply str_eqb_eq in E; subst m; reflexivity|] end.
    all: reflexivity.
  - apply orb_false_iff in Hneeds as [[_ ->]%orb_false_iff Hc]. destruct claims; [|done]. cbn. rewrite Hn.
    by repeat destruct (str_eqb n _).
Qed.

(** *** Readiness does not depend on the round-robin counter *)

Section Readiness.
Context {B : Type} `{ContainerBackend B} `{HttpCrate} `{WebCrates} `{MfaCrates} `{CookieCodec}.
Context (portal : Portal.t).
Implicit Types (req : Request.t) (spec : Spec.t) (g : Gateway.t B).

Lemma ready_counter inflight reg spec c c' :
  (has_ready_replica inflight reg spec c).1 = (has_ready_replica inflight reg spec c').1.
Proof.
  assert (forall o o' : option Replica.t, (o = None <-> o' = None) -> bool_decide (is_Some o) = bool_decide (is_Some o')) as Hiff.
  { intros o o' Ho. apply bool_decide_ext. rewrite <- !not_eq_None_Some. tauto. }
  unfold has_ready_replica.
  pose proof (pick_accepting_None inflight (Registry.replicas_of reg (Spec.id spec)) (Spec.effective_routing spec) (is_api spec)) as Hp.
  pose proof (Hp c) as H1'. pose proof (Hp c') as H2'.
  destruct (pick_accepting _ _ _ _ c) as [o c1], (pick_accepting _ _ _ _ c') as [o' c2]. cbn [fst] in *.
  apply Hiff. by rewrite H1', H2'.
Qed.

Lemma serveable_calm req req' spec g g' :
  calm g g' -> sticky_cookie req' spec = sticky_cookie req spec ->
  (serveable portal req' spec g').1 = (serveable portal req spec g).1.
Proof.
  intros [c Hw] Hcookie. unfold serveable, or_else, ready_now, seat_held, on_world, st_bind, st_get, st_ret.
  cbv beta. rewrite Hcookie, Hw. cbn.
  pose proof (ready_counter (World.inflight (Gateway.world g)) (World.replicas (Gateway.world g)) spec c
    (World.counter (Gateway.world g))) as Hr.
  destruct (has_ready_replica _ _ _ c) as [b c1], (has_ready_replica _ _ _ (World.counter _)) as [b' c2].
  cbn [fst] in Hr. subst b'. by destruct b.
Qed.
End Readiness.

(** ** Properties *)

Module ForwardProperties.

Section Properties.
Context {B : Type} `{ContainerBackend B} `{HttpCrate} `{WebCrates} `{MfaCrates} `{CookieCodec}.
Context (portal : Portal.t) (net : Network.t) (clk : Moment.t).

(** C3. A refused request wakes nothing.  When the visitor may not see
    the app, has not proved the second factor it requires, is over its API
    rate or declares too large a body, the handler leaves replicas, sessions,
    gauges and the backend as they were, spawns no task, calls no container
    and records no activity. *)
Theorem refused_request_inert (route spec_id path : string) (req : Request.t) (g : Gateway.t B) (spec : Spec.t)
    (Hspec : looked_up portal clk spec_id g = Some spec)
    (Hrefused :
      Spec.access_allows spec (is_admin req) (acting_user req) (session_groups portal clk req g) = false
      \/ (Spec.effective_require_mfa spec = true /\ ~ proved_mfa portal clk req spec)
      \/ (exists policy, api_policies route spec ≫= rate_policy = Some policy
          /\ (ApiRateLimiter.check (Moment.limit_at clk) (Spec.id spec) (client portal req) policy
                (Gateway.limiter g)).1 <> RateDecision.Allow)
      \/ body_too_large portal req spec <> None) :
  undisturbed g (forward portal net clk route spec_id path req g).2.
Proof.
  destruct (forward_cases portal net clk route spec_id path req g) as [[Hu _]|(s & g1 & i & Hs & [_ Hr Hb Ha Hm _] & _)]; [done|].
  exfalso. rewrite Hs in Hspec. injection Hspec as ->.
  destruct Hrefused as [Hn|[[Hn Hp]|[(p & Hp & Hn)|Hn]]]; [congruence|by apply Hp, Hm|by apply Hn, Hr|done].
Qed.

(** C4. Containers are told the truth about their visitor.  Every call the
    handler makes, on either transport, is for a request past the gate, and
    under each header name that starts with x-sp- or x-ruscker-user- it carries
    exactly what the app asked to be told of the session's user: the name and
    the groups when the app wants the default headers, the e-mail and the
    sector when it lists those claims and they are not blank, nothing
    otherwise and nothing without a session; values that are no header values
    are left out.  What the client sent under such a name is never passed on.
    And no pair of a WebSocket handshake's cookies is one of the portal's.
    The WebSocket client adds the headers of the upgrade alone. *)
Theorem containers_see_the_session_user `{!HttpCrateLaws} (client : string -> HeaderMap.t)
    (Hclient : forall url n, n ∉ ["host"; "connection"; "upgrade"; "sec-websocket-version"; "sec-websocket-key"] ->
       HeaderMap.get_all n (client url) = [])
    (route spec_id path : string) (req : Request.t) (g : Gateway.t B) :
  exists new, Gateway.calls (forward portal net clk route spec_id path req g).2 = Gateway.calls g ++ new
  /\ forall c, c ∈ new -> exists spec,
     looked_up portal clk spec_id g = Some spec /\ admitted portal clk route req spec g
     /\ (forall n, starts_with "x-sp-" n = true \/ starts_with "x-ruscker-user-" n = true ->
          HeaderMap.get_all n (received client c) = omap value_from_bytes (told spec (session_identity portal clk req g) n))
     /\ forall ws v pair, c = Call.Ws ws -> v ∈ HeaderMap.get_all "cookie" (received client c) -> pair ∈ split_char ";" v ->
          let name := trim (split_first "=" pair) in
          name ∉ ["ruscker_admin_session"; "ruscker_theme"; "ruscker_locale"]
          /\ starts_with "__ruscker_session" name = false /\ starts_with "__ruscker_mfa_" name = false.
Proof.
  destruct (forward_cases portal net clk route spec_id path req g) as [[Hu _]|(spec & g1 & i & Hs & Ha & Hu & Hi & ->)].
  { exists []. rewrite app_nil_r. split; [apply Hu|]. by intros c ?%not_elem_of_nil. }
  destruct (calls_serve portal net clk route path req spec (identity_headers spec i) g1) as (new & Hnew & Hall).
  exists new. split.
  { rewrite <- (same_calls _ _ Hu), <- Hnew. by destruct (serve _ _ _ _ _ _ _ _ _). }
  intros c Hc. exists spec. split; [done|]. split; [done|]. rewrite Forall_forall in Hall.
  specialize (Hall c (proj1 (list_elem_of_In _ _) Hc)). unfold identity_of in Hi. subst i. split.
  - intros n Hn%orb_true_iff. change (is_reserved_identity n = true) in Hn. destruct c as [h|ws]; cbn in Hall |- *.
    + destruct Hall as (prefix & https & hs & ->). rewrite get_all_upstream_reserved by done. by apply insert_told.
    + destruct Hall as [Hids _]. unfold connect_with_headers. rewrite Hids. apply insert_told. apply handshake_reserved; [apply Hclient|done].
  - intros ws v pair -> Hv Hp. destruct Hall as [Hids Hcookie]. cbn in Hv. apply handshake_cookie in Hv; [|apply Hclient|].
    + by apply portal_cookie, (Hcookie v).
    + intros name value. rewrite Hids. apply identity_not_cookie.
Qed.

(** C2. Serving a request neither leaks nor double-counts a seat.  If
    every replica's counter equals the number of sessions that point at it
    before a request, it does after it, whatever the request is, which
    replica it was sent to, spawned or found dead, and whatever went wrong. *)
Theorem forward_keeps_seats `{!ContainerBackendLaws B} (route spec_id path : string) (req : Request.t) (g : Gateway.t B)
    (Hseats : seats_match (Gateway.world g)) (Hroom : room clk (Gateway.world g)) :
  seats_match (Gateway.world (forward portal net clk route spec_id path req g).2).
Proof.
  destruct (forward_cases portal net clk route spec_id path req g) as [[Hu _]|(spec & g1 & i & Hs & Ha & Hu & _ & ->)].
  { by rewrite (same_world _ _ Hu). }
  pose proof (serve_keeps_seats portal net clk route path req spec (identity_headers spec i) g1 (adm_kind _ _ _ _ _ _ Ha)) as Hk.
  rewrite (same_world _ _ Hu) in Hk. specialize (Hk Hseats Hroom). by destruct (serve _ _ _ _ _ _ _ _ _).
Qed.


(** A session that is up reaches its own replica.  An admitted request
    whose sticky cookie is valid for a live replica of the app is sent to that
    replica, once, and the visitor gets the replica's answer with only its
    headers cleaned, its HTML rebased and CORS applied; no cookie is issued,
    no task spawned, and the session's idle clock restarts. *)
Theorem sticky_request_served (route spec_id path : string) (req : Request.t) (g : Gateway.t B) (spec : Spec.t)
    (r : Replica.t) (sid : Uuid) (uri : string) (resp : Response.t)
    (Hspec : looked_up portal clk spec_id g = Some spec) (Hadm : admitted portal clk route req spec g)
    (Hpre : preflight route req spec = false) (Hup : Request.upgrade req = false) (Hpath : path <> COLD_PROBE_PATH)
    (Hsticky : sticky_replica portal req spec (Gateway.world g) = Some (r, sid))
    (Huri : upstream_uri r path req = Some uri)
    (Hnet : forall call, HttpCall.uri call = uri -> Network.http net 0 call = Ok resp) :
  let '(reply, g') := forward portal net clk route spec_id path req g in
  Reply.response reply = relayed portal net route spec r resp
  /\ (forall op, op ∈ Reply.jar reply -> op = Jar.Remove COOKIE_NAME "/")
  /\ (exists call, Gateway.calls g' = Gateway.calls g ++ [Call.Http call] /\ HttpCall.uri call = uri
       /\ HttpCall.method call = Request.method req /\ HttpCall.body call = Request.body req)
  /\ Gateway.tasks g' = Gateway.tasks g
  /\ (spec_kind_needs_sticky (Spec.kind spec) = true ->
      exists e, World.sessions (Gateway.world g') !! sid = Some e /\ SessionEntry.last_seen e = Moment.touch_at clk).
Proof.
  pose proof (undisturbed_find portal clk spec_id g) as Hu1.
  assert (exists g0, find_spec_stage portal clk spec_id g = (Ok spec, g0) /\ Gateway.identities g0 = Gateway.identities g
            /\ Gateway.limiter g0 = Gateway.limiter g) as (g0 & E1 & Hid & Hlim).
  { unfold looked_up in Hspec. unfold find_spec_stage. destruct (find_spec _ _ _ _) as [[s|] c]; [|done].
    injection Hspec as ->. by eexists. }
  rewrite E1 in Hu1. cbn [snd] in Hu1.
  assert (admitted portal clk route req spec g0) as Hadm0.
  { destruct Hadm as [Hk Hr Hb Ha Hm Hbk]. split; try done; [by rewrite Hlim| |by rewrite (same_world _ _ Hu1)].
    unfold session_groups, session_identity in *. by rewrite Hid. }
  destruct (gate_complete portal clk route path req spec g0 Hadm0 Hpre) as (ids & g1 & E2).
  pose proof (undisturbed_gate portal clk route path req spec g0) as Hu2. rewrite E2 in Hu2. cbn [snd] in Hu2.
  assert (undisturbed g g1) as Hu by (by etransitivity).
  destruct (serve_sticky portal net clk route path req spec ids g1 r sid uri resp) as (reply & g' & call & E3 & Hrest);
    [done|done|by rewrite (same_world _ _ Hu)|done|done|].
  unfold forward, st_bind at 1. rewrite (stage_bind_Ok _ _ _ _ _ E1), (stage_bind_Ok _ _ _ _ _ E2), E3.
  cbn [st_ret]. unfold st_ret. rewrite <- (same_calls _ _ Hu), <- (same_tasks _ _ Hu).
  destruct Hrest as (? & ? & ? & ? & ? & ? & ? & ?). repeat split; try done. by exists call.
Qed.

(** The splash and its probe agree.  For one visitor and one state of
    the replicas, the probe answers "ready" exactly when a page load would be
    let past the splash, so the page it reloads is not the splash again; and
    a load that is held back reserves no seat and queues one background spawn
    when the app may grow, none at its ceiling. *)
Theorem probe_agrees_with_splash (req page : Request.t) (spec : Spec.t) (g g' : Gateway.t B)
    (Hstate : calm g g') (Hvisitor : sticky_cookie page spec = sticky_cookie req spec)
    (Hget : Request.method page = "GET") (Hhtml : wants_html (Request.headers page) = true) :
  let '(probe, _) := probe_stage portal req spec g in
  let '(load, g'') := splash_stage portal page spec g' in
  calm g' g''
  /\ ((probe = Err (no_store "application/json" (probe_body true)) /\ load = Ok tt /\ Gateway.tasks g'' = Gateway.tasks g')
      \/ (probe = Err (no_store "application/json" (probe_body false)) /\ load <> Ok tt
          /\ Gateway.tasks g'' = Gateway.tasks g'
               ++ (if at_capacity (World.replicas (Gateway.world g')) spec then [] else [Task.EnsureAvailable spec]))).
Proof.
  unfold probe_stage, splash_stage. rewrite Hget, Hhtml. cbn [andb str_eqb String.eqb Ascii.eqb Bool.eqb].
  rewrite !stage_bind_effect. pose proof (serveable_calm portal req page spec g g' Hstate Hvisitor) as Hsame.
  pose proof (calm_serveable portal page spec g') as Hcalm.
  assert (Gateway.tasks (serveable portal page spec g').2 = Gateway.tasks g'
          /\ World.replicas (Gateway.world (serveable portal page spec g').2) = World.replicas (Gateway.world g')) as [Ht Hr].
  { split; [|by destruct Hcalm as [c ->]]. unfold serveable, or_else, ready_now, on_world, st_bind.
    destruct (has_ready_replica _ _ _ _) as [b c]. cbn. by destruct b. }
  rewrite Hsame. destruct (serveable portal page spec g') as [ready g1] eqn:E. cbn [fst snd] in *. rewrite <- Hsame.
  cbn [return_reply st_ret]. destruct ready; cbn.
  - split; [done|]. left. done.
  - rewrite Hr. destruct (at_capacity _ spec); cbn; (split; [|right]); try done.
    + rewrite app_nil_r. done.
    + by rewrite Ht.
Qed.
End Properties.
End ForwardProperties.

(** ** Concrete requests *)

Module ForwardExamples.
Import CountingBackend SpawnExamples.

#[local] Existing Instance http_example.
#[local] Existing Instance http_example_laws.
#[local] Existing Instance AuthExamples.example_crates.
#[local] Existing Instance example_codec.

(** Addresses are their text, and percent-encoding is the identity. *)
#[local] Instance web_example : WebCrates := {
  IpAddr := string;
  parse_ip := Some;
  show_ip := fun a => a;
  byte_serialize := fun s => s;
  parse_uri := Some;
  redirect_to := fun path => Response.mk 303 (HeaderMap.insert "location" path ∅) EmptyString;
  switching_protocols := fun _ => Response.mk 101 ∅ EmptyString
}.

Definition server : Server.t := Server.mk false None false None None None None None.
Definition members_app : Spec.t := Spec.with_access (Some ["staff"]) None None app.
Definition guarded_app : Spec.t := Spec.with_access None (Some true) None app.
Definition limited_api : Spec.t :=
  Spec.with_access None None (Some (ApiSpec.mk None None None (Some "1/m") true))
    (Spec.sample "a" (Some "img") (Some SpecKindOverride.Api) None (Some 2) None (Some 2)).

(** A portal with one app and no database. *)
Definition portal_of (s : Spec.t) : Portal.t :=
  Portal.mk server None [s] None "0123456789abcdef0123456789abcdef" example_env "{{HEADING}}".
Definition net : Network.t :=
  Network.mk (fun _ _ => Ok (Response.mk 200 ∅ "hello")) (fun _ => Ok None) (fun r _ _ => r) (fun _ => "sid").
Definition moment : Moment.t := Moment.mk 10 10 10 10 10 10 "2026-01-01" 9.

Definition html : HeaderMap.t := <["accept" := ["text/html"]]> ∅.
Definition get (headers : HeaderMap.t) (cookies : string -> option string) : Request.t :=
  Request.mk _ "GET" (Some "/app/a/") "/app/a/" None headers EmptyString cookies false (Some "10.0.0.1") None.
Definition visit : Request.t := get html (fun _ => None).
Definition sticky_value : string :=
  default EmptyString (ok (encode "0123456789abcdef0123456789abcdef" (StickySession.mk 4 "a" 1))).
Definition returning : Request.t :=
  get html (fun name => if str_eqb name "__ruscker_session_a" then Some sticky_value else None).

Definition gateway (w : World.t CountingBackend.t) : Gateway.t CountingBackend.t :=
  Gateway.mk w ApiRateLimiter.new AccessCounter.new (ActivitySink.mk [] 0) ∅ IdentityCache.empty ∅ ∅ [] [].
Definition idle : World.t CountingBackend.t := world [rep 1 ReplicaState.Ready 0] 5.

Lemma idle_seats : seats_match idle.
Proof.
  split; [by apply numbered_wf| |done].
  split; [apply (world_registry idle); by apply numbered_wf|].
  assert (map_Forall (fun _ r => Replica.sessions_active r = 0) (Registry.by_id (World.replicas idle))) as Hall
    by (apply (bool_decide_unpack _); vm_compute; exact I).
  intros i r Hr. rewrite (Hall i r Hr). reflexivity.
Qed.

(** An anonymous visitor at a members-only app; one without a session at an
    app that requires a second factor. *)
Lemma refused_request_inert_witness :
  undisturbed (gateway idle) (forward (portal_of members_app) net moment APP_PREFIX "a" "/" visit (gateway idle)).2
  /\ Response.status (Reply.response (forward (portal_of members_app) net moment APP_PREFIX "a" "/" visit (gateway idle)).1) = 303.
Proof.
  split; [|vm_compute; reflexivity].
  apply (ForwardProperties.refused_request_inert (portal_of members_app) net moment APP_PREFIX "a" "/" visit (gateway idle) members_app).
  - reflexivity.
  - left. vm_compute. reflexivity.
Defined.

Example unproved_factor_refused :
  Response.status (Reply.response (forward (portal_of guarded_app) net moment API_PREFIX "a" "/" visit (gateway idle)).1) = 401.
Proof. vm_compute. reflexivity. Qed.

(** A new visit registers one session and counts its seat. *)
Lemma forward_keeps_seats_witness :
  let g' := (forward (portal_of app) net moment APP_PREFIX "a" "/" visit (gateway idle)).2 in
  seats_match (Gateway.world g')
  /\ map Replica.sessions_active (World.pool (Gateway.world g') "a") = [1]
  /\ size (World.sessions (Gateway.world g')) = 1%nat.
Proof.
  split; [|split; vm_compute; reflexivity].
  apply (ForwardProperties.forward_keeps_seats (portal_of app) net moment APP_PREFIX "a" "/" visit (gateway idle)).
  - exact idle_seats.
  - split; vm_compute; reflexivity.
Defined.



(** A full app: the probe says so, and the page is the splash. *)
Lemma probe_agrees_with_splash_witness :
  let '(probe, _) := probe_stage (portal_of app) visit app (gateway busy) in
  let '(load, g'') := splash_stage (portal_of app) visit app (gateway busy) in
  calm (gateway busy) g''
  /\ ((probe = Err (no_store "application/json" (probe_body true)) /\ load = Ok tt /\ Gateway.tasks g'' = Gateway.tasks (gateway busy))
      \/ (probe = Err (no_store "application/json" (probe_body false)) /\ load <> Ok tt
          /\ Gateway.tasks g'' = Gateway.tasks (gateway busy)
               ++ (if at_capacity (World.replicas (Gateway.world (gateway busy))) app then [] else [Task.EnsureAvailable app]))).
Proof.
  apply (ForwardProperties.probe_agrees_with_splash (portal_of app) visit visit app (gateway busy) (gateway busy));
    [by apply calm_world|reflexivity|reflexivity|vm_compute; reflexivity].
Defined.

Lemma returning_admitted : admitted (portal_of app) moment APP_PREFIX returning app (gateway idle).
Proof. by split. Qed.

Lemma sticky_request_served_witness :
  let '(reply, g') := forward (portal_of app) net moment APP_PREFIX "a" "/" returning (gateway idle) in
  Response.body (Reply.response reply) = "hello" /\ Reply.jar reply = []
  /\ exists e, World.sessions (Gateway.world g') !! 4%N = Some e /\ SessionEntry.last_seen e = 10.
Proof.
  pose proof (ForwardProperties.sticky_request_served (portal_of app) net moment APP_PREFIX "a" "/" returning (gateway idle)
    app (rep 1 ReplicaState.Ready 0) 4 "http://127.0.0.1:1/" (Response.mk 200 ∅ "hello") eq_refl returning_admitted eq_refl eq_refl
    ltac:(discriminate) ltac:(vm_compute; reflexivity) eq_refl ltac:(reflexivity)) as Hs.
  destruct (forward (portal_of app) net moment APP_PREFIX "a" "/" returning (gateway idle)) as [reply g'] eqn:E.
  destruct Hs as (Hresp & _ & _ & _ & Htouch). split; [rewrite Hresp; reflexivity|]. split; [|by apply Htouch].
  assert (reply = (forward (portal_of app) net moment APP_PREFIX "a" "/" returning (gateway idle)).1) as -> by (by rewrite E).
  vm_compute. reflexivity.
Defined.

(** Maria, of two groups, at an app that wants the default headers and the
    e-mail; her browser forges what it can, on both transports. *)
Definition telling_app : Spec.t := Spec.with_identity (Some true) (Some [" email "]) app.
Definition telling_portal : Portal.t :=
  Portal.mk server None [telling_app]
    (Some (Db.mk (fun _ => Ok None) (fun _ => Ok (Some (CachedIdentity.mk ["staff"; "dev"] (Some "m@x") (Some "ti"))))
       (MfaDb.mk (fun _ => Ok None) (fun _ => Ok None) (fun u => u)) (Ok tt)))
    "0123456789abcdef0123456789abcdef" example_env "{{HEADING}}".
Definition forging (upgrade : bool) : Request.t :=
  Request.mk _ "GET" (Some "/app/a/") "/app/a/" None
    (<["x-sp-userid" := ["root"]]> (<["x-sp-usergroups" := ["admin"]]> (<["x-ruscker-user-setor" := ["board"]]>
      (<["cookie" := ["a=1; ruscker_admin_session=SECRET"]]> html))))
    EmptyString (fun _ => None) upgrade (Some "10.0.0.1") (Some (SessionInfo.mk Role.Viewer (Some "maria"))).
Definition dialled : HeaderMap.t := <["host" := ["127.0.0.1:1"]]> (<["sec-websocket-key" := ["k"]]> ∅).
Definition calls_of (upgrade : bool) : list Call.t :=
  Gateway.calls (forward telling_portal net moment APP_PREFIX "a" "/" (forging upgrade) (gateway idle)).2.

Lemma dialled_names n :
  n ∉ ["host"; "connection"; "upgrade"; "sec-websocket-version"; "sec-websocket-key"] -> HeaderMap.get_all n dialled = [].
Proof.
  rewrite !not_elem_of_cons. intros (Hh & _ & _ & _ & Hk & _). unfold HeaderMap.get_all, dialled.
  by rewrite !lookup_insert_ne, lookup_empty by done.
Qed.

Lemma containers_see_the_session_user_witness :
  Forall (fun upgrade => exists c, calls_of upgrade = [c]
  /\ match c with Call.Http _ => upgrade = false | Call.Ws ws => upgrade = true /\ WsCall.cookie ws = Some "a=1" end
  /\ map (fun n => HeaderMap.get_all n (received (fun _ => dialled) c))
       ["x-sp-userid"; "x-sp-usergroups"; "x-ruscker-user-email"; "x-ruscker-user-setor"; "x-sp-other"]
     = [["maria"]; ["staff,dev"]; ["m@x"]; []; []]) [false; true].
Proof.
  apply list.Forall_forall. intros upgrade _.
  destruct (ForwardProperties.containers_see_the_session_user telling_portal net moment (fun _ => dialled) (fun _ => dialled_names)
    APP_PREFIX "a" "/" (forging upgrade) (gateway idle)) as (new & Hcalls & Hnew).
  cbn [gateway Gateway.calls app] in Hcalls. fold (calls_of upgrade) in Hcalls.
  assert (exists c, calls_of upgrade = [c]
    /\ match c with Call.Http _ => upgrade = false | Call.Ws ws => upgrade = true /\ WsCall.cookie ws = Some "a=1" end) as (c & Hc & Hkind)
    by (destruct upgrade; eexists; (split; [vm_compute; reflexivity|vm_compute; auto])).
  exists c. split; [exact Hc|]. split; [exact Hkind|].
  assert (looked_up telling_portal moment "a" (gateway idle) = Some telling_app) as Happ by (vm_compute; reflexivity).
  destruct (Hnew c) as (spec & Hspec & _ & Htold & _); [change (Gateway.calls (gateway idle)) with (@nil Call.t) in Hcalls; cbn in Hcalls; rewrite <- Hcalls, Hc; left|].
  rewrite Happ in Hspec. injection Hspec as <-. cbn [map]. rewrite !Htold by (vm_compute; auto).
  destruct upgrade; vm_compute; reflexivity.
Defined.

(** The rate limit and the in-flight count belong to the route family, not to
    the app: the same API asked twice in a minute is refused the second time
    under [/api/], and served uncounted, as often as one likes, under [/app/]. *)
Definition asked_twice (route : string) : Z * Z * option ReplicaId :=
  let ask := get ∅ (fun _ => None) in
  let '(r1, g1) := forward (portal_of limited_api) net moment route "a" "/" ask (gateway idle) in
  let '(r2, _) := forward (portal_of limited_api) net moment route "a" "/" ask g1 in
  (Response.status (Reply.response r1), Response.status (Reply.response r2), Reply.guard r1).

Example api_policy_skipped_on_app_route :
  asked_twice API_PREFIX = (200, 429, Some 1%N) /\ asked_twice APP_PREFIX = (200, 200, None).
Proof. split; vm_compute; reflexivity. Qed.
End ForwardExamples.
