(* ===== verification/MultiHost.v ===== *)
(** * MultiHost: several Docker hosts as one backend
    (ruscker-docker: multihost.rs)

    [MultiHostDockerBackend] over an interface [HostBackend] of what it calls
    on each host, which [LocalDockerBackend] implements.  Calls that the
    source runs concurrently on all hosts touch one host each, so they are
    run in order; a timeout of one host is [None].  Two merged streams are
    given as one list after the other. *)

From Stdlib Require Import Ascii String ZArith Lia.
From stdpp Require Import base tactics list gmap strings sets fin_maps numbers.
From S2P Require Import Prelude Text Schema Core Counters Spawn Bollard Docker Liveness Scaler Runtime.

Local Open Scope string_scope.
Local Open Scope list_scope.
Local Open Scope Z_scope.
Local Open Scope ruscker_scope.

(** ** Host configuration (schema.rs) *)

Module HostTls.
Record t := mk { ca : string; cert : string; key : string }.
End HostTls.

Module Host.
Record t := mk {
  id : string;
  address : string;
  tls : option HostTls.t;
  max_containers : option Z;
  weight : option Z }.
End Host.

Definition CONNECT_TIMEOUT : Z := 120.
Definition HOST_FANOUT_TIMEOUT : Z := from_secs 10.

(** ** Addresses *)

Definition host_part (authority : string) : string :=
  let no_user := match rsplit_once "@" authority with Some (_, h) => h | None => authority end in
  let unbracketed :=
    match rsplit_once ":" no_user with
    | Some (h, port) =>
      if negb (str_contains_char ":" h) && negb (str_is_empty port) && str_forallb is_ascii_digit port
      then h else no_user
    | None => no_user
    end in
  match strip_prefix "[" no_user with
  | Some rest => match split_once "]" rest with Some (inside, _) => inside | None => unbracketed end
  | None => unbracketed
  end.

Definition needs_tls (host : Host.t) : string := "host `" +:+ Host.id host +:+ "`: tcp:// needs `tls` (ca/cert/key)".
Definition bad_scheme (host : Host.t) : string :=
  "host `" +:+ Host.id host +:+ "`: address `" +:+ trim (Host.address host)
  +:+ "` must start with ssh:// , tcp:// , http:// or unix://".

Definition host_config_error (host : Host.t) : option string :=
  let addr := trim (Host.address host) in
  if starts_with "unix://" addr || starts_with "ssh://" addr || starts_with "http://" addr then None
  else if starts_with "tcp://" addr
  then match Host.tls host with None => Some (needs_tls host) | Some _ => None end
  else Some (bad_scheme host).

(** bollard's connectors: address, timeout and, for TLS, the file paths. *)
Class Connect (D : Type) := {
  connect_with_unix : string -> Z -> DockerResult D;
  connect_with_ssh : string -> Z -> DockerResult D;
  connect_with_ssl : string -> HostTls.t -> Z -> DockerResult D;
  connect_with_http : string -> Z -> DockerResult D
}.

Definition connect_host {D} `{Connect D} (host : Host.t) : CoreResult (LocalDockerBackend.t D) :=
  let addr := trim (Host.address host) in
  let map_err e := CoreError.Backend ("connect host `" +:+ Host.id host +:+ "` (" +:+ addr +:+ "): "
                     +:+ DockerError.message e) in
  let remote rest docker := LocalDockerBackend.from_docker_addressed docker "0.0.0.0" (host_part rest) in
  if starts_with "unix://" addr
  then let? docker := result_map_err map_err (connect_with_unix addr CONNECT_TIMEOUT) in
       Ok (LocalDockerBackend.from_docker docker)
  else match strip_prefix "ssh://" addr with
  | Some rest => let? docker := result_map_err map_err (connect_with_ssh addr CONNECT_TIMEOUT) in Ok (remote rest docker)
  | None =>
    match strip_prefix "tcp://" addr with
    | Some rest =>
      match Host.tls host with
      | None => Err (CoreError.Backend (needs_tls host))
      | Some tls =>
        let? docker := result_map_err map_err (connect_with_ssl addr tls CONNECT_TIMEOUT) in Ok (remote rest docker)
      end
    | None =>
      match strip_prefix "http://" addr with
      | Some rest => let? docker := result_map_err map_err (connect_with_http addr CONNECT_TIMEOUT) in Ok (remote rest docker)
      | None => Err (CoreError.Backend (bad_scheme host))
      end
    end
  end.

(** ** Placement *)

Module HostLoad.
Record t := mk { count : Z; max : option Z; weight : Z; runs_spec : bool }.
Definition has_room (l : t) : bool := match max l with None => true | Some m => count l <? m end.
End HostLoad.

(** [Iterator::min_by] keeps the first of equal elements, [max_by] the last. *)
Definition min_by {A} (cmp : A -> A -> comparison) (l : list A) : option A :=
  match l with
  | [] => None
  | x :: l => Some (foldl (fun best y => match cmp best y with Gt => y | _ => best end) x l)
  end.
Definition max_by {A} (cmp : A -> A -> comparison) (l : list A) : option A :=
  match l with
  | [] => None
  | x :: l => Some (foldl (fun best y => match cmp best y with Gt => best | _ => y end) x l)
  end.

(** [Ordering::then] *)
Definition then_cmp (c d : comparison) : comparison := match c with Eq => d | _ => c end.

Definition load_at (loads : list HostLoad.t) (i : nat) : HostLoad.t :=
  default (HostLoad.mk 0 None 1 false) (loads !! i).

Definition spread_cmp (loads : list HostLoad.t) (a b : nat) : comparison :=
  let left := HostLoad.count (load_at loads a) * Z.max 1 (HostLoad.weight (load_at loads b)) in
  let right := HostLoad.count (load_at loads b) * Z.max 1 (HostLoad.weight (load_at loads a)) in
  then_cmp (left ?= right) (Nat.compare a b).

Definition binpack_cmp (loads : list HostLoad.t) (a b : nat) : comparison :=
  then_cmp (HostLoad.count (load_at loads a) ?= HostLoad.count (load_at loads b)) (Nat.compare b a).

Definition eligible (loads : list HostLoad.t) : list nat :=
  List.filter (fun i => HostLoad.has_room (load_at loads i)) (seq 0 (length loads)).

Definition candidate_pool (loads : list HostLoad.t) (anti_affinity : bool) : list nat :=
  let eligible := eligible loads in
  if anti_affinity then
    match List.filter (fun i => negb (HostLoad.runs_spec (load_at loads i))) eligible with
    | [] => eligible
    | free => free
    end
  else eligible.

Definition choose_host (loads : list HostLoad.t) (placement : Placement.t) (anti_affinity : bool) : option nat :=
  match eligible loads with
  | [] => None
  | _ =>
    let pool := candidate_pool loads anti_affinity in
    match placement with
    | Placement.Spread => min_by (spread_cmp loads) pool
    | Placement.BinPack => max_by (binpack_cmp loads) pool
    end
  end.

(** ** Images across hosts *)

Definition add_containers (a b : Z) : Z := if (a =? -1) || (b =? -1) then -1 else a + b.

Definition union_tags (seen new : list string) : list string :=
  foldl (fun seen t => if bool_decide (t ∈ seen) then seen else seen ++ [t]) seen new.

Definition merge_image (by_id : gmap string ImageInfo.t) (img : ImageInfo.t) : gmap string ImageInfo.t :=
  match by_id !! ImageInfo.id img with
  | Some seen =>
    <[ImageInfo.id img :=
        ImageInfo.mk (ImageInfo.id seen) (union_tags (ImageInfo.tags seen) (ImageInfo.tags img))
          (ImageInfo.size_bytes seen) (add_containers (ImageInfo.containers seen) (ImageInfo.containers img))]> by_id
  | None => <[ImageInfo.id img := img]> by_id
  end.

(** ** The interface of one host *)

Class HostBackend (H : Type) := {
  #[global] host_container_backend :: ContainerBackend H;
  host_list : H -> CoreResult (list Replica.t) * H;
  host_managed : H -> CoreResult (list ManagedContainer.t) * H;
  host_wait_until_ready : Replica.t -> H -> CoreResult unit * H;
  host_metrics : ReplicaId -> H -> CoreResult ReplicaMetrics.t * H;
  host_logs : ReplicaId -> Z -> H -> CoreResult (list string) * H;
  host_logs_follow : ReplicaId -> Z -> H -> CoreResult (list string) * H;
  host_events : H -> CoreResult (list ContainerEvent.t) * H;
  host_image_refs : H -> CoreResult (list string) * H;
  host_prune : H -> CoreResult Z * H;
  host_images : H -> CoreResult (list ImageInfo.t) * H;
  host_remove_image : string -> H -> CoreResult unit * H;
  host_image_present : string -> H -> CoreResult bool * H;
  host_pull : string -> option RegistryCredentials.t -> option string -> H -> CoreResult (list string) * H;
  set_readiness_timeout : Z -> H -> H
}.

(** [tokio::time::timeout]: the call's result, or [None] when time is up. *)
Class Timeout (H : Type) := { timeout {A} : Z -> (H -> A * H) -> H -> option A * H }.

Module HostEntry.
Record t {H : Type} := mk { id : string; backend : H; max_containers : option Z; weight : Z }.
Arguments t : clear implicits.
Arguments mk {H}.
Definition set_backend {H} (h : H) (e : t H) : t H := mk (id e) h (max_containers e) (weight e).
End HostEntry.

Module MultiHostDockerBackend.
Record t {H : Type} := mk { hosts : list (HostEntry.t H); placement : gmap ReplicaId (string * string) }.
Arguments t : clear implicits.
Arguments mk {H}.
Definition set_hosts {H} (x : list (HostEntry.t H)) (c : t H) : t H := mk x (placement c).
Definition set_placement {H} (x : gmap ReplicaId (string * string)) (c : t H) : t H := mk (hosts c) x.
End MultiHostDockerBackend.

Module HostBatch.
Record t {A : Type} := mk { reported : list (string * A); failed_hosts : gset string }.
Arguments t : clear implicits.
Arguments mk {A}.
End HostBatch.

Module HostRuntimeInventory.
Record t := mk { managed : list ManagedContainer.t; replicas : list Replica.t }.
End HostRuntimeInventory.

(** One call's answer: [None] is a timeout. *)
Abbreviation Answer A := (option (CoreResult A)).

Definition answered {A} (r : string * Answer A) : option (string * A) :=
  match r.2 with Some (Ok a) => Some (r.1, a) | _ => None end.

Definition batch_of {A} (results : list (string * Answer A)) : CoreResult (HostBatch.t A) :=
  match omap answered results with
  | [] => Err (CoreError.Backend ("replica list failed on every docker host ("
            +:+ Text.show (zlen results) +:+ " configured)"))
  | reported =>
    Ok (HostBatch.mk reported (list_to_set (map fst (List.filter (fun r => negb (bool_decide (is_Some (answered r)))) results))))
  end.

Definition retain_confirmed_or_unknown_placements (live : gset ReplicaId) (failed_hosts : gset string)
    (placement : gmap ReplicaId (string * string)) : gmap ReplicaId (string * string) :=
  filter (fun kv => kv.1 ∈ live \/ kv.2.1 ∈ failed_hosts) placement.

Definition owner_of (placement : gmap ReplicaId (string * string)) (q : ReplicaLivenessQuery.t) : option string :=
  match ReplicaLivenessQuery.host q with
  | Some h => Some h
  | None => fst <$> placement !! ReplicaLivenessQuery.replica_id q
  end.

Definition classify_multihost_liveness (known : list ReplicaLivenessQuery.t)
    (reported : list (string * HostRuntimeInventory.t)) (failed_hosts : gset string)
    (placement : gmap ReplicaId (string * string)) : list (ReplicaId * ReplicaLiveness.t) :=
  map (fun q =>
    let liveness :=
      match owner_of placement q with
      | Some owner =>
        if bool_decide (owner ∈ failed_hosts) then ReplicaLiveness.Unknown
        else match List.find (fun r => str_eqb r.1 owner) reported with
             | Some (_, inventory) =>
               default ReplicaLiveness.Missing
                 (liveness_in (HostRuntimeInventory.managed inventory) (ReplicaLivenessQuery.container_id q))
             | None => ReplicaLiveness.Unknown
             end
      | None =>
        match liveness_in (flat_map (fun r => HostRuntimeInventory.managed r.2) reported) (ReplicaLivenessQuery.container_id q) with
        | Some l => l
        | None => if bool_decide (failed_hosts = ∅) then ReplicaLiveness.Missing else ReplicaLiveness.Unknown
        end
      end in
    (ReplicaLivenessQuery.replica_id q, liveness)) known.

(** ** The backend *)

Section Operations.
Context {H : Type} `{HostBackend H, Timeout H}.
Abbreviation M A := (St (MultiHostDockerBackend.t H) A).

Definition with_readiness_timeout (t : Z) (c : MultiHostDockerBackend.t H) : MultiHostDockerBackend.t H :=
  MultiHostDockerBackend.set_hosts
    (map (fun e => HostEntry.set_backend (set_readiness_timeout t (HostEntry.backend e)) e)
      (MultiHostDockerBackend.hosts c)) c.

Definition connected (connect_host : Host.t -> CoreResult H) (h : Host.t) : option (HostEntry.t H) :=
  match connect_host h with
  | Ok backend => Some (HostEntry.mk (Host.id h) backend (Host.max_containers h) (Z.max 1 (default 1 (Host.weight h))))
  | Err _ => None
  end.

Definition connect (connect_host : Host.t -> CoreResult H) (hosts : list Host.t)
  : CoreResult (MultiHostDockerBackend.t H) :=
  match hosts with
  | [] => Err (CoreError.Backend "no docker hosts configured")
  | _ =>
    match head (omap host_config_error hosts) with
    | Some msg => Err (CoreError.Backend msg)
    | None =>
      match omap (connected connect_host) hosts with
      | [] => Err (CoreError.Backend "no docker hosts reachable (all configured hosts failed to connect)")
      | built => Ok (MultiHostDockerBackend.mk built ∅)
      end
    end
  end.

(** *** Calls of hosts *)

(** A call of the backend of one host. *)
Definition on_host {A} (k : nat) (op : H -> A * H) (none : A) : M A := fun c =>
  match MultiHostDockerBackend.hosts c !! k with
  | Some e =>
    let '(a, h) := op (HostEntry.backend e) in
    (a, MultiHostDockerBackend.set_hosts
          (<[k := HostEntry.set_backend h e]> (MultiHostDockerBackend.hosts c)) c)
  | None => (none, c)
  end.

Definition call_entry {A} (op : H -> A * H) (e : HostEntry.t H) : (string * A) * HostEntry.t H :=
  let '(a, h) := op (HostEntry.backend e) in ((HostEntry.id e, a), HostEntry.set_backend h e).

(** The same call of every host, with the host's id. *)
Definition fan_out {A} (op : H -> A * H) : M (list (string * A)) := fun c =>
  let calls := map (call_entry op) (MultiHostDockerBackend.hosts c) in
  (map fst calls, MultiHostDockerBackend.set_hosts (map snd calls) c).

Definition fan_out_timed {A} (op : H -> CoreResult A * H) : M (list (string * Answer A)) :=
  fan_out (timeout HOST_FANOUT_TIMEOUT op).

(** Hosts in turn until one succeeds; the last error otherwise. *)
Fixpoint try_entries {A} (op : H -> CoreResult A * H) (last : option CoreError.t) (es : list (HostEntry.t H))
  : (option CoreError.t + A) * list (HostEntry.t H) :=
  match es with
  | [] => (inl last, [])
  | e :: es =>
    let '((_, r), e) := call_entry op e in
    match r with
    | Ok a => (inr a, e :: es)
    | Err err => let '(r, es) := try_entries op (Some err) es in (r, e :: es)
    end
  end.

Definition try_hosts {A} (op : H -> CoreResult A * H) : M (option CoreError.t + A) := fun c =>
  let '(r, es) := try_entries op None (MultiHostDockerBackend.hosts c) in
  (r, MultiHostDockerBackend.set_hosts es c).

(** *** Choosing a host *)

(** [idx_of]: the map from host id to index; a later host wins. *)
Definition add_index (m : gmap string nat) (ie : nat * HostEntry.t H) : gmap string nat :=
  <[HostEntry.id ie.2 := ie.1]> m.
Definition idx_of (hosts : list (HostEntry.t H)) : gmap string nat :=
  foldl add_index ∅ (imap (fun i e => (i, e)) hosts).

Definition placed_at (c : MultiHostDockerBackend.t H) (i : nat) : list (ReplicaId * (string * string)) :=
  List.filter (fun kv => bool_decide (idx_of (MultiHostDockerBackend.hosts c) !! kv.2.1 = Some i))
    (map_to_list (MultiHostDockerBackend.placement c)).

Definition load_of (c : MultiHostDockerBackend.t H) (spec_id : string) (i : nat) (e : HostEntry.t H) : HostLoad.t :=
  HostLoad.mk (zlen (placed_at c i)) (HostEntry.max_containers e) (HostEntry.weight e)
    (existsb (fun kv => str_eqb kv.2.2 spec_id) (placed_at c i)).

Definition loads_of (c : MultiHostDockerBackend.t H) (spec_id : string) : list HostLoad.t :=
  imap (load_of c spec_id) (MultiHostDockerBackend.hosts c).

Definition pick_host (req : SpawnRequest.t) (c : MultiHostDockerBackend.t H) : CoreResult nat :=
  match choose_host (loads_of c (SpawnRequest.spec_id req)) (SpawnRequest.placement req) (SpawnRequest.anti_affinity req) with
  | Some i => Ok i
  | None => Err (CoreError.Backend "all docker hosts at capacity")
  end.

(** The first host of an id. *)
Definition host_named (c : MultiHostDockerBackend.t H) (host : string) : option nat :=
  fst <$> list_find (fun e => HostEntry.id e = host) (MultiHostDockerBackend.hosts c).

Definition placed (i : ReplicaId) (c : MultiHostDockerBackend.t H) : option nat :=
  entry ← MultiHostDockerBackend.placement c !! i;
  host_named c entry.1.

Definition host_id (k : nat) (c : MultiHostDockerBackend.t H) : string :=
  default "" (HostEntry.id <$> MultiHostDockerBackend.hosts c !! k).

Definition insert_placement (i : ReplicaId) (host spec_id : string) : M unit :=
  st_modify (fun c => MultiHostDockerBackend.set_placement
    (<[i := (host, spec_id)]> (MultiHostDockerBackend.placement c)) c).
Definition remove_placement (i : ReplicaId) : M unit :=
  st_modify (fun c => MultiHostDockerBackend.set_placement (delete i (MultiHostDockerBackend.placement c)) c).

(** *** Replicas *)

Definition spawn_request (req : SpawnRequest.t) : M (CoreResult Replica.t) :=
  do picked <- st_get (pick_host req);
  match picked with
  | Err e => st_ret (Err e)
  | Ok k =>
    do host <- st_get (host_id k);
    do? replica <- on_host k (Spawn.spawn_request req) (Err (CoreError.Backend ""));
    do! insert_placement (Replica.id replica) host (SpawnRequest.spec_id req);
    st_ret (Ok (Replica.set_host (Some host) replica))
  end.

Definition spawn (spec_id image : string) : M (CoreResult Replica.t) := spawn_request (SpawnRequest.new spec_id image).

Definition stop (i : ReplicaId) : M (CoreResult unit) :=
  do owner <- st_get (placed i);
  match owner with
  | Some k =>
    do r <- on_host k (Spawn.stop i) (Ok tt);
    do! remove_placement i;
    st_ret r
  | None =>
    do! try_hosts (Spawn.stop i);
    do! remove_placement i;
    st_ret (Ok tt)
  end.

(** Record the replicas of one reporting host. *)
Definition tag_replica (host : string) (r : Replica.t) : M (option Replica.t) :=
  do! insert_placement (Replica.id r) host (Replica.spec_id r);
  st_ret (Some (Replica.set_host (Some host) r)).

Definition tag_reported (reported : list (string * list Replica.t)) : M (list Replica.t) :=
  st_filter_map (fun hr => tag_replica hr.1 hr.2) (flat_map (fun hr => map (pair hr.1) hr.2) reported).

Definition ids_of (rs : list Replica.t) : gset ReplicaId := list_to_set (map Replica.id rs).

Definition prune_placements (live : gset ReplicaId) (failed_hosts : gset string) : M unit :=
  st_modify (fun c => MultiHostDockerBackend.set_placement
    (retain_confirmed_or_unknown_placements live failed_hosts (MultiHostDockerBackend.placement c)) c).

Definition list_replicas : M (CoreResult (list Replica.t)) :=
  do results <- fan_out_timed host_list;
  match batch_of results with
  | Err e => st_ret (Err e)
  | Ok batch =>
    do all <- tag_reported (HostBatch.reported batch);
    do! prune_placements (ids_of all) (HostBatch.failed_hosts batch);
    st_ret (Ok all)
  end.

Definition inventory (h : H) : CoreResult HostRuntimeInventory.t * H :=
  (do? managed <- host_managed;
   do? replicas <- host_list;
   st_ret (Ok (HostRuntimeInventory.mk managed replicas))) h.

Definition replica_liveness (known : list ReplicaLivenessQuery.t) : M (CoreResult ReplicaLivenessReport.t) :=
  do results <- fan_out_timed inventory;
  match batch_of results with
  | Err e => st_ret (Err e)
  | Ok batch =>
    do placement <- st_get MultiHostDockerBackend.placement;
    let reported := HostBatch.reported batch in
    let observations := classify_multihost_liveness known reported (HostBatch.failed_hosts batch) placement in
    do tagged <- tag_reported (map (fun hr => (hr.1, HostRuntimeInventory.replicas hr.2)) reported);
    do! prune_placements (ids_of tagged) (HostBatch.failed_hosts batch);
    st_ret (Ok (ReplicaLivenessReport.mk observations
      (List.filter (fun r => ReplicaState.eqb (Replica.state r) ReplicaState.Ready) tagged)
      (flat_map (fun hr => HostRuntimeInventory.managed hr.2) reported)))
  end.

(** The host a replica names, else the recorded one. *)
Definition ready_host (r : Replica.t) (c : MultiHostDockerBackend.t H) : option nat :=
  match (h ← Replica.host r; host_named c h) with
  | Some k => Some k
  | None => placed (Replica.id r) c
  end.

Context (show : ReplicaId -> string).

Definition not_placed (r : Replica.t) : CoreError.t :=
  CoreError.Backend ("replica " +:+ show (Replica.id r) +:+ " is not placed on a reachable Docker host").

Definition wait_until_ready_with_timeout (r : Replica.t) (t : option Z) : M (CoreResult unit) :=
  do owner <- st_get (ready_host r);
  match owner with
  | Some k => on_host k (Spawn.wait_until_ready_with_timeout r t) (Err (not_placed r))
  | None => st_ret (Err (not_placed r))
  end.

Definition wait_until_ready (r : Replica.t) : M (CoreResult unit) :=
  do owner <- st_get (ready_host r);
  match owner with
  | Some k => on_host k (host_wait_until_ready r) (Err (not_placed r))
  | None => st_ret (Err (not_placed r))
  end.

(** A call that needs the recorded host. *)
Definition on_placed {A} (i : ReplicaId) (suffix : string) (op : H -> CoreResult A * H) : M (CoreResult A) :=
  let unknown := Err (CoreError.Backend ("replica " +:+ show i +:+ suffix)) in
  do owner <- st_get (placed i);
  match owner with
  | Some k => on_host k op unknown
  | None => st_ret unknown
  end.

Definition metrics (i : ReplicaId) : M (CoreResult ReplicaMetrics.t) :=
  on_placed i " not placed on any known host" (host_metrics i).
Definition logs (i : ReplicaId) (tail : Z) : M (CoreResult (list string)) :=
  on_placed i " not found on any host" (host_logs i tail).
Definition logs_follow (i : ReplicaId) (tail : Z) : M (CoreResult (list string)) :=
  on_placed i " not found on any host" (host_logs_follow i tail).

(** *** Containers and images across hosts *)

Definition list_managed_containers : M (CoreResult (list ManagedContainer.t)) :=
  do results <- fan_out_timed host_managed;
  st_ret (Ok (flat_map snd (omap answered results))).

(** The streams of the hosts that open one; [select_all] interleaves them. *)
Definition container_events : M (CoreResult (list ContainerEvent.t)) :=
  do results <- fan_out host_events;
  st_ret (Ok (flat_map (fun r => default [] (ok r.2)) results)).

Fixpoint collect_refs (results : list (string * Answer (list string))) : CoreResult (list string) :=
  match results with
  | [] => Ok []
  | (id, Some (Ok refs)) :: rest => let? all := collect_refs rest in Ok (refs ++ all)
  | (id, Some (Err e)) :: _ =>
    Err (CoreError.Backend ("host " +:+ id +:+ " container image refs failed: " +:+ CoreError.display e))
  | (id, None) :: _ => Err (CoreError.Backend ("host " +:+ id +:+ " container image refs timed out"))
  end.

Definition all_container_image_refs : M (CoreResult (list string)) :=
  do results <- fan_out_timed host_image_refs;
  st_ret (collect_refs results).

Definition no_hosts : CoreError.t := CoreError.Backend "no docker hosts configured".

Definition remove_container (container_id : string) : M (CoreResult unit) :=
  do r <- try_hosts (Spawn.remove_container container_id);
  st_ret (match r with inr _ => Ok tt | inl e => Err (default no_hosts e) end).

Definition prune_stopped : M (CoreResult Z) :=
  do results <- fan_out host_prune;
  st_ret (Ok (sum_by (fun r => default 0 (ok r.2)) results)).

Definition list_images : M (CoreResult (list ImageInfo.t)) :=
  do results <- fan_out_timed host_images;
  st_ret (Ok (map snd (map_to_list (foldl merge_image ∅ (flat_map snd (omap answered results)))))).

Definition errors {A} (results : list (string * CoreResult A)) : list CoreError.t :=
  omap (fun r => match r.2 with Err e => Some e | Ok _ => None end) results.

Definition remove_image (image : string) : M (CoreResult unit) :=
  do results <- fan_out (host_remove_image image);
  st_ret (if existsb (fun r => is_ok r.2) results then Ok tt else Err (default no_hosts (head (rev (errors results))))).

Definition image_present (image : string) : M (CoreResult bool) :=
  do results <- fan_out (host_image_present image);
  let answers := omap (fun r => ok r.2) results in
  st_ret (Ok (negb (bool_decide (answers = [])) && forallb id answers)).

Definition pull_lines (r : string * CoreResult (list string)) : list string :=
  let prefix := "[" +:+ r.1 +:+ "] " in
  match r.2 with
  | Ok lines => map (fun line => prefix +:+ line) lines
  | Err e => [prefix +:+ "pull failed to start: " +:+ CoreError.display e]
  end.

Definition pull_image (image : string) (creds : option RegistryCredentials.t) (platform : option string)
  : M (CoreResult (list string)) :=
  do results <- fan_out (host_pull image creds platform);
  st_ret (if existsb (fun r => is_ok r.2) results then Ok (flat_map pull_lines results)
          else Err (CoreError.Backend "image pull failed to start on every host")).
End Operations.

(** ** Laws of a host *)

(** The calls the cluster makes on one host. *)
Inductive host_call {H} `{HostBackend H, Timeout H} : forall {A}, (H -> A * H) -> Prop :=
| call_spawn req : host_call (Spawn.spawn_request req)
| call_stop i : host_call (Spawn.stop i)
| call_wait r t : host_call (Spawn.wait_until_ready_with_timeout r t)
| call_remove c : host_call (Spawn.remove_container c)
| call_list : host_call host_list
| call_managed : host_call host_managed
| call_inventory : host_call inventory
| call_ready r : host_call (host_wait_until_ready r)
| call_metrics i : host_call (host_metrics i)
| call_logs i n : host_call (host_logs i n)
| call_follow i n : host_call (host_logs_follow i n)
| call_events : host_call host_events
| call_refs : host_call host_image_refs
| call_prune : host_call host_prune
| call_images : host_call host_images
| call_remove_image i : host_call (host_remove_image i)
| call_present i : host_call (host_image_present i)
| call_pull i c p : host_call (host_pull i c p)
| call_timeout {A} n (op : H -> A * H) : host_call op -> host_call (timeout n op).

Create HintDb hosts.
#[export] Hint Constructors host_call : hosts.

(** What the cluster relies on beyond the container interface: a host's ids
    come from a region of its own that no call changes, its replicas carry
    issued labels, and a call that is not timed out ran. *)
Class HostLaws (H : Type) `{HostBackend H, Timeout H, !ContainerBackendLaws H} := {
  region : H -> ReplicaId -> Prop;
  region_issued h i s : issued h !! i = Some s -> region h i;
  call_region {A} (op : H -> A * H) h i : host_call op -> region (op h).2 i <-> region h i;
  call_issued {A} (op : H -> A * H) h : host_call op -> issued h ⊆ issued (op h).2;
  list_issued h l h' r : host_list h = (Ok l, h') -> r ∈ l -> issued h' !! Replica.id r = Some (Replica.spec_id r);
  timeout_ran {A} n (op : H -> A * H) h a h' : timeout n op h = (Some a, h') -> op h = (a, h')
}.

(** ** Lemmas *)

(** *** Choosing by a comparison *)

Section Compare.
Context {A : Type} (cmp : A -> A -> comparison).
Abbreviation le x y := (cmp x y <> Gt).
Context (le_refl : forall x, le x x) (le_trans : forall x y z, le x y -> le y z -> le x z).
Context (le_total : forall x y, cmp x y = Gt -> le y x).

Lemma min_by_foldl l x :
  let m := foldl (fun best y => match cmp best y with Gt => y | _ => best end) x l in
  m ∈ x :: l /\ forall y, y ∈ x :: l -> le m y.
Proof.
  revert x; induction l as [|z l IH]; intros x; cbn [foldl].
  - split; [left|]. intros y ->%list_elem_of_singleton. apply le_refl.
  - destruct (cmp x z) eqn:E; [destruct (IH x) as [Hin Hle]..|destruct (IH z) as [Hin Hle]].
    1, 2: split; [set_solver|]; intros y [->|[->|Hy]%elem_of_cons]%elem_of_cons;
      [apply Hle; left| |apply Hle; by right]; eapply le_trans; [apply Hle; left|by rewrite E].
    split; [set_solver|]. intros y [->|Hy]%elem_of_cons; [|by apply Hle].
    eapply le_trans; [apply Hle; left|by apply le_total].
Qed.

Lemma min_by_Some l m : min_by cmp l = Some m -> m ∈ l /\ forall y, y ∈ l -> le m y.
Proof. destruct l as [|x l]; [done|]. intros [= <-]. apply min_by_foldl. Qed.

Lemma max_by_foldl l x :
  let m := foldl (fun best y => match cmp best y with Gt => best | _ => y end) x l in
  m ∈ x :: l /\ forall y, y ∈ x :: l -> le y m.
Proof.
  revert x; induction l as [|z l IH]; intros x; cbn [foldl].
  - split; [left|]. intros y ->%list_elem_of_singleton. apply le_refl.
  - destruct (cmp x z) eqn:E; [destruct (IH z) as [Hin Hle]..|destruct (IH x) as [Hin Hle]].
    1, 2: split; [set_solver|]; intros y [->|Hy]%elem_of_cons; [|by apply Hle];
      eapply le_trans; [|apply Hle; left]; by rewrite E.
    split; [set_solver|]. intros y [->|[->|Hy]%elem_of_cons]%elem_of_cons; [apply Hle; left| |apply Hle; by right].
    eapply le_trans; [by apply le_total|apply Hle; left].
Qed.

Lemma max_by_Some l m : max_by cmp l = Some m -> m ∈ l /\ forall y, y ∈ l -> le y m.
Proof. destruct l as [|x l]; [done|]. intros [= <-]. apply max_by_foldl. Qed.
End Compare.

Lemma then_cmp_gt x y (a b : nat) :
  then_cmp (x ?= y) (Nat.compare a b) <> Gt <-> x < y \/ (x = y /\ (a <= b)%nat).
Proof.
  unfold then_cmp. destruct (Z.compare_spec x y); destruct (Nat.compare_spec a b); intuition (try done; try lia).
Qed.

Lemma spread_le loads a b : spread_cmp loads a b <> Gt <->
  let left := HostLoad.count (load_at loads a) * Z.max 1 (HostLoad.weight (load_at loads b)) in
  let right := HostLoad.count (load_at loads b) * Z.max 1 (HostLoad.weight (load_at loads a)) in
  left < right \/ (left = right /\ (a <= b)%nat).
Proof. apply then_cmp_gt. Qed.

Lemma binpack_le loads a b : binpack_cmp loads a b <> Gt <->
  HostLoad.count (load_at loads a) < HostLoad.count (load_at loads b)
  \/ (HostLoad.count (load_at loads a) = HostLoad.count (load_at loads b) /\ (b <= a)%nat).
Proof. apply then_cmp_gt. Qed.

Lemma spread_trans loads a b c :
  spread_cmp loads a b <> Gt -> spread_cmp loads b c <> Gt -> spread_cmp loads a c <> Gt.
Proof.
  rewrite !spread_le. cbv zeta.
  pose proof (Z.le_max_l 1 (HostLoad.weight (load_at loads a))).
  pose proof (Z.le_max_l 1 (HostLoad.weight (load_at loads b))).
  pose proof (Z.le_max_l 1 (HostLoad.weight (load_at loads c))).
  generalize dependent (Z.max 1 (HostLoad.weight (load_at loads a))); intros wa Ha.
  generalize dependent (Z.max 1 (HostLoad.weight (load_at loads b))); intros wb Hb.
  generalize dependent (Z.max 1 (HostLoad.weight (load_at loads c))); intros wc Hc.
  generalize (HostLoad.count (load_at loads a)) (HostLoad.count (load_at loads b)) (HostLoad.count (load_at loads c)).
  intros x y z H1 H2. assert (x * wb * wc <= y * wa * wc) by nia. assert (y * wc * wa <= z * wb * wa) by nia.
  assert (x * wc <= z * wa) by nia. destruct (Z.eq_dec (x * wc) (z * wa)) as [E|]; [right|left; lia].
  split; [done|]. assert (x * wb * wc = y * wa * wc) by nia. assert (x * wb = y * wa) by nia.
  assert (y * wc = z * wb) by nia. lia.
Qed.

Lemma spread_total loads a b : spread_cmp loads a b = Gt -> spread_cmp loads b a <> Gt.
Proof.
  intros E. apply spread_le. cbv zeta. assert (~ spread_cmp loads a b <> Gt) as Hn by (intros Hn; by apply Hn).
  rewrite spread_le in Hn. cbv zeta in Hn. lia.
Qed.

Lemma binpack_total loads a b : binpack_cmp loads a b = Gt -> binpack_cmp loads b a <> Gt.
Proof.
  intros E. apply binpack_le. assert (~ binpack_cmp loads a b <> Gt) as Hn by (intros Hn; by apply Hn).
  rewrite binpack_le in Hn. lia.
Qed.

Lemma elem_of_eligible loads i :
  i ∈ eligible loads <-> (i < length loads)%nat /\ HostLoad.has_room (load_at loads i) = true.
Proof. unfold eligible. rewrite filter_elem, list_elem_of_In, in_seq. split; intros [? ?]; split; try done; lia. Qed.

Lemma candidate_pool_nil loads aa : candidate_pool loads aa = [] -> eligible loads = [].
Proof. unfold candidate_pool. destruct aa; [|done]. by destruct (List.filter _ _). Qed.

Lemma candidate_pool_eligible loads aa i : i ∈ candidate_pool loads aa -> i ∈ eligible loads.
Proof.
  unfold candidate_pool. destruct aa; [|done]. destruct (List.filter _ _) eqn:E; [done|]. rewrite <- E.
  by intros [? _]%filter_elem.
Qed.

Lemma min_by_elem {A} (cmp : A -> A -> comparison) l m : min_by cmp l = Some m -> m ∈ l.
Proof.
  destruct l as [|x l]; [done|]. intros [= <-]. revert x; induction l as [|z l IH]; intros x; cbn [foldl]; [left|].
  destruct (cmp x z); specialize (IH x) as Hx; specialize (IH z) as Hz; set_solver.
Qed.

Lemma max_by_elem {A} (cmp : A -> A -> comparison) l m : max_by cmp l = Some m -> m ∈ l.
Proof.
  destruct l as [|x l]; [done|]. intros [= <-]. revert x; induction l as [|z l IH]; intros x; cbn [foldl]; [left|].
  destruct (cmp x z); specialize (IH x) as Hx; specialize (IH z) as Hz; set_solver.
Qed.

(** *** Images *)

(** The containers of an image over all hosts: -1 when one cannot tell. *)
Definition total_containers (id : string) (imgs : list ImageInfo.t) : Z :=
  let counts := map ImageInfo.containers (List.filter (fun img => str_eqb (ImageInfo.id img) id) imgs) in
  if existsb (Z.eqb (-1)) counts then -1 else sum_by (fun n => n) counts.

Lemma filter_none {A} (p : A -> bool) l : (forall x, x ∈ l -> p x = false) -> List.filter p l = [].
Proof.
  induction l as [|x l IH]; intros Hp; [done|]. cbn. rewrite (Hp x (list_elem_of_here _ _)). apply IH.
  intros y Hy. apply Hp. by right.
Qed.

Lemma elem_of_union_tags seen new t : t ∈ union_tags seen new <-> t ∈ seen \/ t ∈ new.
Proof.
  unfold union_tags. revert seen; induction new as [|x new IH]; intros seen; cbn; [set_solver|].
  rewrite IH. case_bool_decide; set_solver.
Qed.

Lemma sum_by_app {A} (f : A -> Z) l l' : sum_by f (l ++ l') = sum_by f l + sum_by f l'.
Proof.
  induction l as [|x l IH]; [done|]. change (f x + sum_by f (l ++ l') = f x + sum_by f l + sum_by f l'). rewrite IH. lia.
Qed.

Lemma total_containers_snoc id imgs img :
  (forall i, i ∈ imgs -> -1 <= ImageInfo.containers i) ->
  total_containers id (imgs ++ [img])
  = if str_eqb (ImageInfo.id img) id then add_containers (total_containers id imgs) (ImageInfo.containers img)
    else total_containers id imgs.
Proof.
  intros Hpos. unfold total_containers, add_containers. rewrite filter_app, map_app. cbn [List.filter].
  destruct (str_eqb (ImageInfo.id img) id); [|by rewrite app_nil_r]. cbn [map]. rewrite existsb_app, sum_by_app.
  set (counts := map _ _). assert (existsb (Z.eqb (-1)) counts = false -> 0 <= sum_by (fun n => n) counts) as Hsum.
  { assert (forall n, n ∈ counts -> -1 <= n) as Hn.
    { intros n (i & -> & [Hi _]%filter_elem)%list_elem_of_fmap. by apply Hpos. }
    clearbody counts. clear Hpos. induction counts as [|n counts IH]; [by intros _|]. cbn [existsb]. intros [Hne He]%orb_false_iff.
    bool_split. pose proof (Hn n (list_elem_of_here _ _)). assert (0 <= sum_by (fun n => n) counts);
      [|change (0 <= n + sum_by (fun n => n) counts); lia].
    apply IH; [|done]. intros k Hk. apply Hn. by right. }
  cbn [existsb]. rewrite orb_false_r. rewrite (Z.eqb_sym (-1) (ImageInfo.containers img)).
  destruct (existsb _ counts); cbn; [done|]. destruct (Z.eqb_spec (sum_by (fun n => n) counts) (-1)); cbn; [lia|].
  destruct (Z.eqb_spec (ImageInfo.containers img) (-1)); cbn; [done|lia].
Qed.

Lemma merge_images_spec imgs id :
  (forall img, img ∈ imgs -> -1 <= ImageInfo.containers img) ->
  match foldl merge_image ∅ imgs !! id with
  | Some m =>
    ImageInfo.containers m = total_containers id imgs
    /\ forall t, t ∈ ImageInfo.tags m <-> exists img, img ∈ imgs /\ ImageInfo.id img = id /\ t ∈ ImageInfo.tags img
  | None => forall img, img ∈ imgs -> ImageInfo.id img <> id
  end.
Proof.
  induction imgs as [|img imgs IH] using rev_ind; intros Hpos; [cbn; rewrite lookup_empty; by intros img ?%not_elem_of_nil|].
  assert (forall i, i ∈ imgs -> -1 <= ImageInfo.containers i) as Hpos' by (intros i Hi; apply Hpos; set_solver).
  specialize (IH Hpos'). rewrite foldl_app. cbn [foldl]. unfold merge_image at 1.
  set (acc := foldl merge_image ∅ imgs) in *.
  destruct (decide (ImageInfo.id img = id)) as [<-|Hne].
  - destruct (acc !! ImageInfo.id img) as [seen|] eqn:E; rewrite lookup_insert_eq.
    + destruct IH as [Hc Ht]. cbn. split; [by rewrite total_containers_snoc, str_eqb_refl, Hc|].
      intros t. rewrite elem_of_union_tags, Ht. set_solver.
    + rewrite total_containers_snoc, str_eqb_refl by done. split; [|set_solver].
      assert (total_containers (ImageInfo.id img) imgs = 0) as ->.
      { unfold total_containers. rewrite filter_none; [done|]. intros i Hi. by apply str_eqb_neq, IH. }
      unfold add_containers. cbn. by destruct (Z.eqb_spec (ImageInfo.containers img) (-1)).
  - assert (forall m, <[ImageInfo.id img := m]> acc !! id = acc !! id) as Hl by (intros m; by apply lookup_insert_ne).
    destruct (acc !! ImageInfo.id img); rewrite Hl; (destruct (acc !! id) as [m'|]; [|set_solver]);
      rewrite total_containers_snoc by done; rewrite (proj2 (str_eqb_neq _ _) Hne); split; set_solver.
Qed.

(** *** The cluster's invariant *)

Section Cluster.
Context {H : Type} `{HostLaws H}.
Implicit Types (c : MultiHostDockerBackend.t H) (e : HostEntry.t H).
Abbreviation M A := (St (MultiHostDockerBackend.t H) A).

(** A host after some of its calls. *)
Record entry_evolves e e' : Prop := {
  evolves_id : HostEntry.id e' = HostEntry.id e;
  evolves_max : HostEntry.max_containers e' = HostEntry.max_containers e;
  evolves_weight : HostEntry.weight e' = HostEntry.weight e;
  evolves_issued : issued (HostEntry.backend e) ⊆ issued (HostEntry.backend e');
  evolves_region i : region (HostEntry.backend e') i <-> region (HostEntry.backend e) i }.

#[global] Instance entry_evolves_preorder : PreOrder entry_evolves.
Proof.
  split; [done|]. intros e1 e2 e3 [I1 M1 W1 S1 R1] [I2 M2 W2 S2 R2]. split; [congruence..|by etransitivity|].
  intros i. by rewrite R2, R1.
Qed.

Definition hosts_evolve c c' : Prop :=
  Forall2 entry_evolves (MultiHostDockerBackend.hosts c) (MultiHostDockerBackend.hosts c').

#[global] Instance hosts_evolve_preorder : PreOrder hosts_evolve.
Proof.
  split; [intros c; unfold hosts_evolve; reflexivity|].
  intros c1 c2 c3. unfold hosts_evolve. apply transitivity.
Qed.

(** Hosts keep their ids apart, and a placement names a replica its host
    issued, with its app. *)
Record cluster_wf c : Prop := {
  hosts_apart j k e f i : MultiHostDockerBackend.hosts c !! j = Some e -> MultiHostDockerBackend.hosts c !! k = Some f ->
    region (HostEntry.backend e) i -> region (HostEntry.backend f) i -> j = k;
  placement_issued i h s : MultiHostDockerBackend.placement c !! i = Some (h, s) ->
    exists e, e ∈ MultiHostDockerBackend.hosts c /\ HostEntry.id e = h /\ issued (HostEntry.backend e) !! i = Some s }.

Definition cluster_issued c : gmap ReplicaId string :=
  foldr (fun e m => issued (HostEntry.backend e) ∪ m) ∅ (MultiHostDockerBackend.hosts c).

Lemma entries_issued_Some (es : list (HostEntry.t H)) i s :
  foldr (fun e m => issued (HostEntry.backend e) ∪ m) ∅ es !! i = Some s ->
  exists e, e ∈ es /\ issued (HostEntry.backend e) !! i = Some s.
Proof.
  induction es as [|e es IH]; cbn; [by rewrite lookup_empty|].
  intros [Hi|[_ Hi]]%lookup_union_Some_raw; [exists e; split; [left|done]|].
  destruct (IH Hi) as (f & Hf & Hs). exists f. split; [by right|done].
Qed.

Lemma entries_issued_is_Some (es : list (HostEntry.t H)) i e s :
  e ∈ es -> issued (HostEntry.backend e) !! i = Some s ->
  is_Some (foldr (fun e m => issued (HostEntry.backend e) ∪ m) ∅ es !! i).
Proof.
  induction es as [|f es IH]; intros He Hs; [by apply not_elem_of_nil in He|]. cbn.
  apply elem_of_cons in He as [->|He].
  - exists s. by apply lookup_union_Some_l.
  - destruct (issued (HostEntry.backend f) !! i) as [x|] eqn:E; [exists x; by apply lookup_union_Some_l|].
    rewrite lookup_union_r by done. by apply IH.
Qed.

Lemma cluster_issued_Some c i s : cluster_wf c ->
  cluster_issued c !! i = Some s
  <-> exists e, e ∈ MultiHostDockerBackend.hosts c /\ issued (HostEntry.backend e) !! i = Some s.
Proof.
  intros Hwf. split; [apply entries_issued_Some|]. intros (e & He & Hs).
  destruct (entries_issued_is_Some _ _ _ _ He Hs) as [x Hx]. unfold cluster_issued. rewrite Hx.
  destruct (entries_issued_Some _ _ _ Hx) as (f & Hf & Hfx).
  apply list_elem_of_lookup in He as [j Hj]. apply list_elem_of_lookup in Hf as [k Hk].
  assert (j = k) as -> by (eapply hosts_apart; eauto using region_issued). congruence.
Qed.

Lemma cluster_issued_subseteq c c' : cluster_wf c -> cluster_wf c' -> hosts_evolve c c' ->
  cluster_issued c ⊆ cluster_issued c'.
Proof.
  intros Hwf Hwf' Hev. apply map_subseteq_spec. intros i s (e & He & Hs)%cluster_issued_Some; [|done].
  apply cluster_issued_Some; [done|]. apply list_elem_of_lookup in He as [k Hk].
  destruct (Forall2_lookup_l _ _ _ _ _ Hev Hk) as (e' & Hk' & Ee). exists e'. split; [by eapply list_elem_of_lookup_2|].
  eapply map_subseteq_spec; [apply (evolves_issued _ _ Ee)|done].
Qed.

(** A step that keeps the invariant while the hosts evolve. *)
Definition cluster_step c c' : Prop := cluster_wf c -> cluster_wf c' /\ hosts_evolve c c'.

#[global] Instance cluster_step_preorder : PreOrder cluster_step.
Proof.
  split; [by intros c Hwf|]. intros c1 c2 c3 H12 H23 Hwf. destruct (H12 Hwf) as [Hwf2 He].
  destruct (H23 Hwf2) as [Hwf3 He']. split; [done|]. by etransitivity.
Qed.

(** Hosts evolve under a placement that only loses entries. *)
Lemma cluster_step_of c c' : hosts_evolve c c' ->
  MultiHostDockerBackend.placement c' ⊆ MultiHostDockerBackend.placement c -> cluster_step c c'.
Proof.
  intros Hev Hp Hwf. split; [|done]. split.
  - intros j k e' f' i Hj Hk Hr Hr'.
    destruct (Forall2_lookup_r _ _ _ _ _ Hev Hj) as (e & Hj0 & Ee). destruct (Forall2_lookup_r _ _ _ _ _ Hev Hk) as (f & Hk0 & Ef).
    apply (evolves_region _ _ Ee) in Hr. apply (evolves_region _ _ Ef) in Hr'. by eapply hosts_apart.
  - intros i h s Hi. eapply map_subseteq_spec in Hi; [|exact Hp]. destruct (placement_issued _ Hwf _ _ _ Hi) as (e & He & Hid & Hs).
    apply list_elem_of_lookup in He as [k Hk]. destruct (Forall2_lookup_l _ _ _ _ _ Hev Hk) as (e' & Hk' & Ee).
    exists e'. split; [by eapply list_elem_of_lookup_2|]. split; [by rewrite (evolves_id _ _ Ee)|].
    eapply map_subseteq_spec; [apply (evolves_issued _ _ Ee)|done].
Qed.

Lemma call_entry_evolves {A} (op : H -> A * H) e : host_call op -> entry_evolves e (call_entry op e).2.
Proof.
  intros Hc. unfold call_entry. pose proof (call_issued op (HostEntry.backend e) Hc) as Hi.
  pose proof (fun i => call_region op (HostEntry.backend e) i Hc) as Hr. destruct (op _) as [a h]. by split.
Qed.

Lemma step_on_host {A} k (op : H -> A * H) none : host_call op -> preserves cluster_step (on_host k op none).
Proof.
  intros Hc c. unfold on_host. destruct (_ !! k) as [e|] eqn:Hk; [|cbn; reflexivity].
  pose proof (call_entry_evolves op e Hc) as Ee. unfold call_entry in Ee. destruct (op _) as [a h]. cbn in *.
  apply cluster_step_of; [|done]. unfold hosts_evolve. cbn.
  rewrite <- (list_insert_id _ _ _ Hk) at 1. apply Forall2_insert; [reflexivity|done].
Qed.

Lemma step_fan_out {A} (op : H -> A * H) : host_call op -> preserves cluster_step (fan_out op).
Proof.
  intros Hc c. apply cluster_step_of; [|done]. unfold hosts_evolve, fan_out. cbn. rewrite map_map.
  apply Forall2_fmap_r, Forall_Forall2_diag, Forall_true. intros e. by apply call_entry_evolves.
Qed.

Lemma try_entries_evolve {A} (op : H -> CoreResult A * H) last es :
  host_call op -> Forall2 entry_evolves es (try_entries op last es).2.
Proof.
  intros Hc. revert last; induction es as [|e es IH]; intros last; [constructor|]. cbn [try_entries].
  pose proof (call_entry_evolves op e Hc) as Ee. destruct (call_entry op e) as [[i r] e'].
  destruct r as [a|err]; [by constructor|]. specialize (IH (Some err)). destruct (try_entries _ _ _). by constructor.
Qed.

Lemma step_try_hosts {A} (op : H -> CoreResult A * H) : host_call op -> preserves cluster_step (try_hosts op).
Proof.
  intros Hc c. unfold try_hosts. pose proof (try_entries_evolve op None (MultiHostDockerBackend.hosts c) Hc) as Hev.
  destruct (try_entries _ _ _) as [r es]. by apply cluster_step_of.
Qed.

Lemma step_remove_placement i : preserves cluster_step (remove_placement (H := H) i).
Proof. intros c. apply cluster_step_of; [unfold hosts_evolve; reflexivity|apply delete_subseteq]. Qed.

Lemma step_prune live failed : preserves cluster_step (prune_placements (H := H) live failed).
Proof. intros c. apply cluster_step_of; [unfold hosts_evolve; reflexivity|apply map_filter_subseteq]. Qed.

Lemma step_insert i host spec_id c e :
  e ∈ MultiHostDockerBackend.hosts c -> HostEntry.id e = host -> issued (HostEntry.backend e) !! i = Some spec_id ->
  cluster_step c (insert_placement i host spec_id c).2.
Proof.
  intros He Hid Hs Hwf. split; [|unfold hosts_evolve; reflexivity]. split; [apply (hosts_apart _ Hwf)|].
  cbn. intros j h s. rewrite lookup_insert_Some. intros [[<- [= <- <-]]|[_ Hj]]; [eauto|by apply (placement_issued _ Hwf)].
Qed.

(** What a host says its replicas are, it has issued. *)
Definition vouched c (host : string) (r : Replica.t) : Prop :=
  exists e, e ∈ MultiHostDockerBackend.hosts c /\ HostEntry.id e = host
    /\ issued (HostEntry.backend e) !! Replica.id r = Some (Replica.spec_id r).

Lemma tag_step (l : list (string * Replica.t)) c :
  (forall h r, (h, r) ∈ l -> vouched c h r) ->
  cluster_step c (st_filter_map (fun hr => tag_replica hr.1 hr.2) l c).2
  /\ (st_filter_map (fun hr => tag_replica (H := H) hr.1 hr.2) l c).1 = map (fun hr => Replica.set_host (Some hr.1) hr.2) l.
Proof.
  revert c; induction l as [|[h r] l IH]; intros c Hl; [by split|]. cbn -[insert_placement].
  destruct (Hl h r (list_elem_of_here _ _)) as (e & He & Hid & Hs).
  pose proof (step_insert _ _ _ _ _ He Hid Hs) as Hstep. unfold tag_replica, st_bind at 1 3. cbn [fst snd].
  set (c1 := (insert_placement (Replica.id r) h (Replica.spec_id r) c).2) in *.
  assert (forall h' r', (h', r') ∈ l -> vouched c1 h' r') as Hl1 by (intros h' r' Hr; by apply Hl; right).
  destruct (IH c1 Hl1) as [IH1 IH2].
  unfold st_bind, insert_placement, st_modify in *. fold c1. cbn -[cluster_step].
  change (MultiHostDockerBackend.set_placement _ c) with c1.
  destruct (st_filter_map _ l c1) as [bs c2]. cbn in *. split; [by etransitivity|]. by rewrite IH2.
Qed.

(** *** The operations *)

Lemma fan_out_result {A} (op : H -> A * H) c rs c' host a :
  fan_out op c = (rs, c') -> (host, a) ∈ rs ->
  exists e h', e ∈ MultiHostDockerBackend.hosts c /\ HostEntry.id e = host /\ op (HostEntry.backend e) = (a, h')
    /\ HostEntry.set_backend h' e ∈ MultiHostDockerBackend.hosts c'.
Proof.
  unfold fan_out. intros [= <- <-] (ce & Hce & (e & -> & He)%list_elem_of_fmap)%list_elem_of_fmap.
  exists e. pose proof (list_elem_of_fmap_2 (fun e => (call_entry op e).2) _ _ He) as He'. unfold call_entry in *.
  destruct (op _) as [a' h'] eqn:E. cbn in *. injection Hce as -> ->. exists h'. split; [done|]. split; [done|].
  split; [done|]. rewrite map_map. exact He'.
Qed.

Lemma answered_Some {A} (rs : list (string * Answer A)) host a :
  (host, a) ∈ omap answered rs -> (host, Some (Ok a)) ∈ rs.
Proof.
  intros ([h [[x|e]|]] & Hin & Hx)%list_elem_of_omap; cbn in Hx; [|done..]. by injection Hx as <- <-.
Qed.

Lemma batch_Ok {A} (rs : list (string * Answer A)) b :
  batch_of rs = Ok b -> HostBatch.reported b = omap answered rs.
Proof. unfold batch_of. destruct (omap answered rs); [done|]. by intros [= <-]. Qed.

Lemma fan_out_vouched {A} (op : H -> CoreResult A * H) (replicas : A -> list Replica.t) c rs c' b :
  (forall h a h' r, op h = (Ok a, h') -> r ∈ replicas a -> issued h' !! Replica.id r = Some (Replica.spec_id r)) ->
  fan_out_timed op c = (rs, c') -> batch_of rs = Ok b ->
  forall host r, (host, r) ∈ flat_map (fun hr => map (pair hr.1) (replicas hr.2)) (HostBatch.reported b) -> vouched c' host r.
Proof.
  intros Hop Hf Hb host r Hin. rewrite (batch_Ok _ _ Hb) in Hin.
  apply list_elem_of_In, in_flat_map in Hin as ([h a] & Ha%list_elem_of_In%answered_Some & Hr%list_elem_of_In).
  apply list_elem_of_fmap in Hr as (r' & [= <- <-] & Hr). cbn in *.
  destruct (fan_out_result _ _ _ _ _ _ Hf Ha) as (e & h' & He & Hid & Ht & He').
  apply timeout_ran in Ht. exists (HostEntry.set_backend h' e). split; [done|]. split; [done|]. cbn. by eapply Hop.
Qed.

Lemma inventory_issued h inv h' r : inventory h = (Ok inv, h') -> r ∈ HostRuntimeInventory.replicas inv ->
  issued h' !! Replica.id r = Some (Replica.spec_id r).
Proof.
  unfold inventory. intros (ms & h1 & Hm & (rs & h2 & Hl & [= <- ->])%try_bind_Ok)%try_bind_Ok Hr.
  by eapply list_issued.
Qed.

Lemma tag_reported_step reported c :
  (forall h r, (h, r) ∈ flat_map (fun hr => map (pair hr.1) hr.2) reported -> vouched c h r) ->
  cluster_step c (tag_reported reported c).2
  /\ (tag_reported (H := H) reported c).1
     = map (fun hr => Replica.set_host (Some hr.1) hr.2) (flat_map (fun hr => map (pair hr.1) hr.2) reported).
Proof. apply tag_step. Qed.

Lemma step_list : preserves cluster_step (list_replicas (H := H)).
Proof.
  intros c. unfold list_replicas, st_bind at 1.
  pose proof (step_fan_out (timeout HOST_FANOUT_TIMEOUT host_list) ltac:(auto with hosts) c) as Hs.
  destruct (fan_out_timed host_list c) as [rs c1] eqn:E. unfold fan_out_timed in E. rewrite E in Hs. cbn in Hs.
  destruct (batch_of rs) as [b|] eqn:Hb; [|done]. etransitivity; [exact Hs|].
  apply preserves_bind_at; [apply _| |].
  - apply (tag_reported_step (HostBatch.reported b)). intros h r Hr. eapply (fan_out_vouched host_list id); eauto.
    by apply list_issued.
  - intros rs'. apply preserves_bind; [apply _|apply step_prune|]. intros _. apply preserves_ret, _.
Qed.

Lemma liveness_reported_tagged {A} (f : A -> list Replica.t) (reported : list (string * A)) :
  flat_map (fun hr => map (pair hr.1) hr.2) (map (fun hr => (hr.1, f hr.2)) reported)
  = flat_map (fun hr => map (pair hr.1) (f hr.2)) reported.
Proof. induction reported as [|x l IH]; [done|]. cbn. by rewrite IH. Qed.

Lemma step_liveness known : preserves cluster_step (replica_liveness (H := H) known).
Proof.
  intros c. unfold replica_liveness, st_bind at 1.
  pose proof (step_fan_out (timeout HOST_FANOUT_TIMEOUT inventory) ltac:(auto with hosts) c) as Hs.
  destruct (fan_out_timed inventory c) as [rs c1] eqn:E. unfold fan_out_timed in E. rewrite E in Hs. cbn in Hs.
  destruct (batch_of rs) as [b|] eqn:Hb; [|done]. etransitivity; [exact Hs|].
  unfold st_bind at 1, st_get at 1. cbv zeta. apply preserves_bind_at; [apply _| |].
  - apply tag_reported_step. intros h r. rewrite liveness_reported_tagged. intros Hr.
    eapply (fan_out_vouched inventory HostRuntimeInventory.replicas); eauto. by apply inventory_issued.
  - intros rs'. apply preserves_bind; [apply _|apply step_prune|]. intros _. apply preserves_ret, _.
Qed.

Lemma step_stop i : preserves cluster_step (stop (H := H) i).
Proof.
  unfold stop. apply preserves_bind; [apply _|apply preserves_get, _|]. intros [k|].
  - apply preserves_bind; [apply _|apply step_on_host; constructor|]. intros r.
    apply preserves_bind; [apply _|apply step_remove_placement|]. intros _. apply preserves_ret, _.
  - apply preserves_bind; [apply _|apply step_try_hosts; constructor|]. intros r.
    apply preserves_bind; [apply _|apply step_remove_placement|]. intros _. apply preserves_ret, _.
Qed.

Lemma step_wait show r t : preserves cluster_step (wait_until_ready_with_timeout (H := H) show r t).
Proof.
  unfold wait_until_ready_with_timeout. apply preserves_bind; [apply _|apply preserves_get, _|].
  intros [k|]; [apply step_on_host; constructor|apply preserves_ret, _].
Qed.

Lemma step_remove_container cid : preserves cluster_step (remove_container (H := H) cid).
Proof.
  unfold remove_container. apply preserves_bind; [apply _|apply step_try_hosts; constructor|].
  intros r. apply preserves_ret, _.
Qed.

Lemma pick_host_eligible req c k : pick_host req c = Ok k -> k ∈ eligible (loads_of c (SpawnRequest.spec_id req)).
Proof.
  unfold pick_host. destruct (choose_host _ _ _) as [i|] eqn:E; [|done]. intros [= <-].
  unfold choose_host in E. destruct (eligible _) eqn:El; [done|]. rewrite <- El.
  apply candidate_pool_eligible with (SpawnRequest.anti_affinity req).
  destruct (SpawnRequest.placement req); [eapply min_by_elem|eapply max_by_elem]; exact E.
Qed.

Lemma pick_host_lookup req c k : pick_host req c = Ok k -> (k < length (MultiHostDockerBackend.hosts c))%nat.
Proof. intros [Hi _]%pick_host_eligible%elem_of_eligible. unfold loads_of in Hi. by rewrite length_imap in Hi. Qed.

(** A spawn: the host picked, and the placement recorded. *)
Lemma cluster_spawn_inv req c r c' : cluster_wf c -> spawn_request req c = (r, c') ->
  cluster_wf c' /\ hosts_evolve c c'
  /\ match r with
     | Ok x => exists k e h r0, pick_host req c = Ok k /\ MultiHostDockerBackend.hosts c !! k = Some e
         /\ Spawn.spawn_request req (HostEntry.backend e) = (Ok r0, h)
         /\ x = Replica.set_host (Some (HostEntry.id e)) r0
         /\ MultiHostDockerBackend.hosts c' = <[k := HostEntry.set_backend h e]> (MultiHostDockerBackend.hosts c)
         /\ MultiHostDockerBackend.placement c'
            = <[Replica.id x := (HostEntry.id e, SpawnRequest.spec_id req)]> (MultiHostDockerBackend.placement c)
     | Err _ => True
     end.
Proof.
  intros Hwf. unfold spawn_request. intros (picked & c1 & [= <- <-] & Hrun)%st_bind_inv.
  destruct (pick_host req c) as [k|e] eqn:Hp; [|by injection Hrun as <- <-].
  apply pick_host_lookup in Hp as Hk. apply lookup_lt_is_Some in Hk as [e Hk].
  apply st_bind_inv in Hrun as (host & c2 & [= <- <-] & Hrun). unfold host_id in Hrun. rewrite Hk in Hrun. cbn in Hrun.
  pose proof (step_on_host k (Spawn.spawn_request req) (Err (CoreError.Backend "")) (call_spawn req) c Hwf) as [Hwf1 He1].
  apply try_bind_inv in Hrun as [(r0 & c3 & Hs & Hrun)|(err & Hs & ->)]; rewrite Hs in Hwf1, He1; [|done].
  cbn [snd] in *. unfold on_host in Hs. rewrite Hk in Hs. destruct (Spawn.spawn_request _ _) as [res h] eqn:Es.
  injection Hs as -> <-. apply st_bind_inv in Hrun as (u & c4 & Hi & [= <- <-]).
  destruct (spawn_ok _ _ _ _ Es) as (Hspec & _ & _ & _ & Hnew & _).
  assert (cluster_step (MultiHostDockerBackend.set_hosts (<[k:=HostEntry.set_backend h e]> (MultiHostDockerBackend.hosts c)) c) c4) as Hstep.
  { apply (f_equal snd) in Hi. cbn [snd] in Hi. rewrite <- Hi. apply step_insert with (HostEntry.set_backend h e); [|done|cbn; congruence].
    cbn. eapply list_elem_of_lookup_2, list_lookup_insert_eq. by eapply lookup_lt_Some. }
  destruct (Hstep Hwf1) as [Hwf2 He2]. split; [done|]. split; [by etransitivity|].
  exists k, e, h, r0. injection Hi as _ <-. auto 10.
Qed.

Lemma step_spawn req : preserves cluster_step (spawn_request (H := H) req).
Proof. intros c Hwf. destruct (spawn_request req c) as [r c'] eqn:E. by apply cluster_spawn_inv in E as (? & ? & _). Qed.

Lemma spawn_fresh req c x c' : cluster_wf c -> spawn_request req c = (Ok x, c') ->
  cluster_issued c !! Replica.id x = None /\ MultiHostDockerBackend.placement c !! Replica.id x = None.
Proof.
  intros Hwf E. destruct (cluster_spawn_inv _ _ _ _ Hwf E) as (Hwf' & Hev & k & e & h & r0 & Hp & Hk & Hs & -> & Hh & _).
  destruct (spawn_ok _ _ _ _ Hs) as (_ & _ & _ & Hf & Hnew & _). cbn [Replica.set_host Replica.id].
  assert (cluster_issued c !! Replica.id r0 = None) as Hnone.
  { apply eq_None_not_Some. intros [s (f & Hf' & Hfs)%cluster_issued_Some]; [|done].
    apply list_elem_of_lookup in Hf' as [j Hj]. assert (j = k) as ->; [|congruence].
    eapply (hosts_apart c Hwf); [exact Hj|exact Hk|by eapply region_issued|].
    apply (call_region (Spawn.spawn_request req) (HostEntry.backend e) _ (call_spawn req)). rewrite Hs. by eapply region_issued. }
  split; [done|]. destruct (MultiHostDockerBackend.placement c !! Replica.id r0) as [[hn s]|] eqn:Ep; [|done].
  destruct (placement_issued _ Hwf _ _ _ Ep) as (f & Hin & _ & Hfs).
  assert (cluster_issued c !! Replica.id r0 = Some s) by (apply cluster_issued_Some; eauto). congruence.
Qed.

(** *** Answers *)

Lemma fan_out_timed_rows {A} (op : H -> CoreResult A * H) c :
  (fan_out_timed op c).1
  = map (fun e => (HostEntry.id e, (timeout HOST_FANOUT_TIMEOUT op (HostEntry.backend e)).1)) (MultiHostDockerBackend.hosts c).
Proof.
  unfold fan_out_timed, fan_out. cbn. rewrite map_map. apply map_ext. intros e. unfold call_entry. by destruct (timeout _ _ _).
Qed.

Lemma some_answer {A} (op : H -> CoreResult A * H) c :
  omap answered (fan_out_timed op c).1 <> []
  <-> exists e, e ∈ MultiHostDockerBackend.hosts c
      /\ exists a h, timeout HOST_FANOUT_TIMEOUT op (HostEntry.backend e) = (Some (Ok a), h).
Proof.
  rewrite fan_out_timed_rows. induction (MultiHostDockerBackend.hosts c) as [|e es IH]; cbn.
  - split; [done|]. by intros (e & ?%not_elem_of_nil & _).
  - unfold answered at 1. cbn [fst snd]. destruct (timeout _ _ _) as [[[a|err]|] h] eqn:E; cbn [fst].
    + split; [intros _|done]. exists e. split; [left|eauto].
    + rewrite IH. split; [intros (f & Hf & Ha); exists f; split; [by right|done]|].
      intros (f & [->|Hf]%elem_of_cons & a & h' & Ha); [congruence|eauto].
    + rewrite IH. split; [intros (f & Hf & Ha); exists f; split; [by right|done]|].
      intros (f & [->|Hf]%elem_of_cons & a & h' & Ha); [congruence|eauto].
Qed.

Definition all_answered {A} (rs : list (string * Answer A)) : Prop := Forall (fun r => is_Some (answered r)) rs.

Lemma all_answers {A} (op : H -> CoreResult A * H) c :
  all_answered (fan_out_timed op c).1
  <-> forall e, e ∈ MultiHostDockerBackend.hosts c ->
      exists a h, timeout HOST_FANOUT_TIMEOUT op (HostEntry.backend e) = (Some (Ok a), h).
Proof.
  rewrite fan_out_timed_rows. unfold all_answered. rewrite Forall_map, list.Forall_forall.
  assert (forall e, is_Some (answered (HostEntry.id e, (timeout HOST_FANOUT_TIMEOUT op (HostEntry.backend e)).1))
    <-> exists a h, timeout HOST_FANOUT_TIMEOUT op (HostEntry.backend e) = (Some (Ok a), h)) as Hone.
  { intros e. unfold answered. cbn. destruct (timeout _ _ _) as [[[a|err]|] h]; cbn; split;
      (try by intros [? [=]]); (try by intros (? & ? & [=])); eauto. }
  split; intros Hall e He; by apply Hone, Hall.
Qed.

Lemma collect_refs_Ok rs : is_ok (collect_refs rs) = true <-> all_answered rs.
Proof.
  unfold all_answered. induction rs as [|[i [[refs|e]|]] rs IH]; cbn.
  - split; [constructor|done].
  - rewrite Forall_cons_iff, <- IH. unfold answered at 1. cbn. destruct (collect_refs rs); cbn; split; try done; intuition eauto.
  - rewrite Forall_cons_iff. unfold answered at 1. cbn. split; [done|]. by intros [[? [=]] _].
  - rewrite Forall_cons_iff. unfold answered at 1. cbn. split; [done|]. by intros [[? [=]] _].
Qed.

Lemma batch_failed {A} (rs : list (string * Answer A)) b : batch_of rs = Ok b ->
  HostBatch.failed_hosts b = list_to_set (map fst (List.filter (fun r => negb (bool_decide (is_Some (answered r)))) rs)).
Proof. unfold batch_of. destruct (omap answered rs); [done|]. by intros [= <-]. Qed.

Lemma unlisted_of ms cid : liveness_in ms cid = None -> forall m, m ∈ ms -> ManagedContainer.id m <> cid.
Proof.
  unfold liveness_in. destruct (List.find _ ms) as [m|] eqn:E; [done|]. intros _ m Hm.
  apply (find_none_elem _ _ _ E) in Hm. by apply str_eqb_neq.
Qed.

Lemma missing_in ms cid : default ReplicaLiveness.Missing (liveness_in ms cid) = ReplicaLiveness.Missing -> liveness_in ms cid = None.
Proof. unfold liveness_in. destruct (List.find _ ms) as [m|]; [|done]. cbn. by destruct (ManagedContainer.running m). Qed.

Lemma missing_owned rs b c c1 q host :
  fan_out_timed inventory c = (rs, c1) -> batch_of rs = Ok b ->
  ReplicaLiveness.Missing
    = (if bool_decide (host ∈ HostBatch.failed_hosts b) then ReplicaLiveness.Unknown
       else match List.find (fun r => str_eqb r.1 host) (HostBatch.reported b) with
            | Some (_, inventory) =>
              default ReplicaLiveness.Missing
                (liveness_in (HostRuntimeInventory.managed inventory) (ReplicaLivenessQuery.container_id q))
            | None => ReplicaLiveness.Unknown
            end) ->
  exists e, e ∈ MultiHostDockerBackend.hosts c /\ HostEntry.id e = host
  /\ exists inv h, timeout HOST_FANOUT_TIMEOUT inventory (HostEntry.backend e) = (Some (Ok inv), h)
     /\ forall m, m ∈ HostRuntimeInventory.managed inv -> ManagedContainer.id m <> ReplicaLivenessQuery.container_id q.
Proof.
  intros Hf Hb. case_bool_decide; [done|]. destruct (List.find _ _) as [[h inv]|] eqn:E; [|done].
  intros Hm%eq_sym%missing_in. apply find_elem in E as [Hin Hh]. apply str_eqb_eq in Hh. cbn in Hh. subst h.
  rewrite (batch_Ok _ _ Hb) in Hin. apply answered_Some in Hin.
  destruct (fan_out_result _ _ _ _ _ _ Hf Hin) as (e & h' & He & Hid & Ht & _).
  exists e. split; [done|]. split; [done|]. exists inv, h'. split; [done|]. by apply unlisted_of.
Qed.

Lemma missing_unowned rs b c c1 q :
  fan_out_timed inventory c = (rs, c1) -> batch_of rs = Ok b ->
  ReplicaLiveness.Missing
    = match liveness_in (flat_map (fun r => HostRuntimeInventory.managed r.2) (HostBatch.reported b))
              (ReplicaLivenessQuery.container_id q) with
      | Some l => l
      | None => if bool_decide (HostBatch.failed_hosts b = ∅) then ReplicaLiveness.Missing else ReplicaLiveness.Unknown
      end ->
  forall e, e ∈ MultiHostDockerBackend.hosts c ->
  exists inv h, timeout HOST_FANOUT_TIMEOUT inventory (HostEntry.backend e) = (Some (Ok inv), h)
     /\ forall m, m ∈ HostRuntimeInventory.managed inv -> ManagedContainer.id m <> ReplicaLivenessQuery.container_id q.
Proof.
  intros Hf Hb Hm e He. destruct (liveness_in _ _) as [l|] eqn:El.
  { exfalso. subst l. unfold liveness_in in El. destruct (List.find _ _) as [m|]; [|done]. cbn in El. by destruct (ManagedContainer.running m). }
  case_bool_decide as Hno; [|done]. rewrite (batch_failed _ _ Hb) in Hno. rewrite (batch_Ok _ _ Hb) in El.
  assert (all_answered rs) as Hall.
  { apply list.Forall_forall. intros r Hr. destruct (decide (is_Some (answered r))) as [|Hn]; [done|exfalso].
    assert (r.1 ∈ (∅ : gset string)) as []%not_elem_of_empty. rewrite <- Hno. apply elem_of_list_to_set, list_elem_of_fmap.
    exists r. split; [done|]. apply filter_elem. split; [done|]. by rewrite bool_decide_eq_false_2. }
  pose proof (f_equal fst Hf) as Hrs. cbn [fst] in Hrs. subst rs.
  destruct (proj1 (all_answers inventory c) Hall e He) as (inv & h & Ht). exists inv, h. split; [done|].
  intros m Hin. apply (unlisted_of _ _ El). apply list_elem_of_In, in_flat_map.
  exists (HostEntry.id e, inv). split; [|by apply list_elem_of_In]. apply list_elem_of_In, list_elem_of_omap.
  exists (HostEntry.id e, Some (Ok inv)). split; [|done]. rewrite fan_out_timed_rows. apply list_elem_of_fmap.
  exists e. split; [by rewrite Ht|done].
Qed.

(** *** Loads *)

Lemma idx_of_insert_tail (es : list (nat * HostEntry.t H)) (m : gmap string nat) host :
  host ∉ map (fun ie => HostEntry.id ie.2) es ->
  foldl add_index m es !! host = m !! host.
Proof.
  revert m; induction es as [|[j e] es IH]; intros m Hn; [done|]. cbn in *. rewrite IH by set_solver.
  unfold add_index. apply lookup_insert_ne. set_solver.
Qed.

Lemma idx_of_pairs (es : list (nat * HostEntry.t H)) (m : gmap string nat) k e :
  NoDup (map (fun ie => HostEntry.id ie.2) es) -> (k, e) ∈ es ->
  foldl add_index m es !! HostEntry.id e = Some k.
Proof.
  revert m; induction es as [|[j f] es IH]; intros m Hnd Hin; [by apply not_elem_of_nil in Hin|]. cbn in *.
  inversion_clear Hnd as [|? ? Hf Hnd']. apply elem_of_cons in Hin as [[= <- <-]|Hin]; [|by apply IH].
  rewrite idx_of_insert_tail by done. unfold add_index. apply lookup_insert_eq.
Qed.

Lemma imap_ids (es : list (HostEntry.t H)) (f : nat -> nat) :
  map (fun ie => HostEntry.id ie.2) (imap (fun i e => (f i, e)) es) = map HostEntry.id es.
Proof. revert f; induction es as [|e es IH]; intros f; [done|]. cbn. f_equal. apply (IH (f ∘ S)). Qed.

(** With distinct ids, the index of a host's id is its own. *)
Lemma idx_of_own (es : list (HostEntry.t H)) k e :
  NoDup (map HostEntry.id es) -> es !! k = Some e -> idx_of es !! HostEntry.id e = Some k.
Proof.
  intros Hnd Hk. unfold idx_of. pose proof (imap_ids es (fun i => i)) as E. cbv beta in E. apply idx_of_pairs; [by rewrite E|].
  apply list_elem_of_lookup. exists k. by rewrite list_lookup_imap, Hk.
Qed.

Lemma add_index_ids (es es' : list (HostEntry.t H)) (f : nat -> nat) m : map HostEntry.id es = map HostEntry.id es' ->
  foldl add_index m (imap (fun i e => (f i, e)) es) = foldl add_index m (imap (fun i e => (f i, e)) es').
Proof.
  revert es' f m; induction es as [|e es IH]; intros [|e' es'] f m E; try done. injection E as Hid E. cbn.
  replace (add_index m (f 0%nat, e')) with (add_index m (f 0%nat, e)) by (unfold add_index; cbn; by rewrite Hid).
  by apply (IH es' (f ∘ S)).
Qed.

Lemma idx_of_ids (es es' : list (HostEntry.t H)) : map HostEntry.id es = map HostEntry.id es' -> idx_of es = idx_of es'.
Proof. apply (add_index_ids es es' (fun i => i)). Qed.

Lemma placed_insert c c' j k e h i s :
  NoDup (map HostEntry.id (MultiHostDockerBackend.hosts c)) -> MultiHostDockerBackend.hosts c !! k = Some e ->
  MultiHostDockerBackend.hosts c' = <[k := HostEntry.set_backend h e]> (MultiHostDockerBackend.hosts c) ->
  MultiHostDockerBackend.placement c' = <[i := (HostEntry.id e, s)]> (MultiHostDockerBackend.placement c) ->
  MultiHostDockerBackend.placement c !! i = None ->
  zlen (placed_at c' j) = zlen (placed_at c j) + (if decide (j = k) then 1 else 0).
Proof.
  intros Hnd Hk Hh Hp Hnone. unfold placed_at.
  assert (idx_of (MultiHostDockerBackend.hosts c') = idx_of (MultiHostDockerBackend.hosts c)) as ->.
  { apply idx_of_ids.
    change (HostEntry.id <$> MultiHostDockerBackend.hosts c' = HostEntry.id <$> MultiHostDockerBackend.hosts c).
    rewrite Hh, list_fmap_insert. apply list_insert_id. by rewrite list_lookup_fmap, Hk. }
  rewrite Hp. unfold zlen. rewrite (Permutation_length (filter_permutation _ _ _ (map_to_list_insert _ _ _ Hnone))).
  cbn [List.filter fst snd]. rewrite (idx_of_own _ _ _ Hnd Hk). case_decide as Hjk.
  - subst j. rewrite bool_decide_eq_true_2 by done. cbn. lia.
  - rewrite bool_decide_eq_false_2 by congruence. lia.
Qed.

Lemma pick_host_room req c k e m : pick_host req c = Ok k -> MultiHostDockerBackend.hosts c !! k = Some e ->
  HostEntry.max_containers e = Some m -> zlen (placed_at c k) < m.
Proof.
  intros Hp Hk Hm. apply pick_host_eligible in Hp as [_ Hroom]%elem_of_eligible.
  unfold load_at, loads_of in Hroom. rewrite list_lookup_imap, Hk in Hroom. cbn in Hroom.
  unfold HostLoad.has_room, load_of in Hroom. cbn in Hroom. rewrite Hm in Hroom. by bool_split.
Qed.
End Cluster.

(** ** The cluster as a container backend

    A well-formed cluster is a type of its own: every operation the runtime
    calls stays in it. *)

Module Cluster.
Record t {H : Type} `{HostLaws H} := mk { raw : MultiHostDockerBackend.t H; wf : cluster_wf raw }.
Arguments t H {_ _ _ _}.
Arguments mk {H _ _ _ _}.

Section Cluster.
Context {H : Type} `{HostLaws H} (show : ReplicaId -> string).

Definition lift {A} (m : St (MultiHostDockerBackend.t H) A) (Hm : preserves cluster_step m) : St (t H) A :=
  fun c => ((m (raw c)).1, mk (m (raw c)).2 (proj1 (Hm (raw c) (wf c)))).

Definition cluster_backend : ContainerBackend (t H) := {|
  Spawn.spawn_request req := lift (spawn_request req) (step_spawn req);
  Spawn.stop i := lift (stop i) (step_stop i);
  Spawn.replica_liveness qs := lift (replica_liveness qs) (step_liveness qs);
  Spawn.wait_until_ready_with_timeout r t := lift (wait_until_ready_with_timeout show r t) (step_wait show r t);
  Spawn.remove_container cid := lift (remove_container cid) (step_remove_container cid)
|}.

Lemma lift_run {A} (m : St (MultiHostDockerBackend.t H) A) Hm c r c' :
  lift m Hm c = (r, c') -> m (raw c) = (r, raw c').
Proof. unfold lift. intros [= <- <-]. cbn. apply surjective_pairing. Qed.

Lemma lift_issued {A} (m : St (MultiHostDockerBackend.t H) A) Hm c :
  cluster_issued (raw c) ⊆ cluster_issued (raw (lift m Hm c).2).
Proof.
  destruct (Hm (raw c) (wf c)) as [Hwf Hev]. cbn. by apply cluster_issued_subseteq; [apply wf|..].
Qed.

Lemma liveness_running_vouched qs (c c' : MultiHostDockerBackend.t H) rep r :
  cluster_wf c -> replica_liveness qs c = (Ok rep, c') -> r ∈ ReplicaLivenessReport.running rep ->
  cluster_issued c' !! Replica.id r = Some (Replica.spec_id r).
Proof.
  intros Hwf. unfold replica_liveness. intros (rs & c1 & Hf & Hrun)%st_bind_inv Hr.
  destruct (step_fan_out (timeout HOST_FANOUT_TIMEOUT inventory) ltac:(auto with hosts) c Hwf) as [Hwf1 _].
  pose proof Hf as Hf'. unfold fan_out_timed in Hf'. rewrite Hf' in Hwf1. cbn in Hwf1.
  destruct (batch_of rs) as [b|] eqn:Hb; [|by injection Hrun]. apply st_bind_inv in Hrun as (pl & c2 & [= <- <-] & Hrun).
  apply st_bind_inv in Hrun as (tagged & c3 & Ht & Hrun).
  apply st_bind_inv in Hrun as (u & c4 & Hp & [= <- <-]).
  assert (forall h r, (h, r) ∈ flat_map (fun hr => map (pair hr.1) (HostRuntimeInventory.replicas hr.2)) (HostBatch.reported b)
    -> vouched c1 h r) as Hv by (eapply fan_out_vouched; [by apply inventory_issued|done..]).
  rewrite <- liveness_reported_tagged in Hv.
  destruct (tag_reported_step _ _ Hv) as [Hstep Htag]. rewrite Ht in Hstep, Htag. cbn in Hstep, Htag.
  destruct (Hstep Hwf1) as [Hwf3 Hev3]. cbn in Hr. apply filter_elem in Hr as [Hr _]. rewrite Htag in Hr.
  apply list_elem_of_fmap in Hr as ([h r0] & -> & Hin). destruct (Hv h r0 Hin) as (e & He & _ & Hs). cbn.
  destruct (step_prune (ids_of tagged) (HostBatch.failed_hosts b) c3 Hwf3) as [Hwf4 Hev4]. rewrite Hp in Hwf4, Hev4. cbn in Hwf4, Hev4.
  assert (cluster_issued c1 !! Replica.id r0 = Some (Replica.spec_id r0)) as Hi by (apply cluster_issued_Some; eauto).
  eapply map_subseteq_spec; [|exact Hi]. apply cluster_issued_subseteq; [done..|]. by etransitivity.
Qed.

Definition cluster_laws : @ContainerBackendLaws (t H) cluster_backend.
Proof.
  refine {| issued := fun c => cluster_issued (raw c) |}.
  - intros req c x c' E%lift_run. destruct (spawn_fresh _ _ _ _ (wf c) E) as [Hf _].
    destruct (cluster_spawn_inv _ _ _ _ (wf c) E) as (Hwf' & Hev & k & e & h & r0 & _ & Hk & Hs & -> & Hh & _).
    destruct (spawn_ok _ _ _ _ Hs) as (Hspec & Hact & Hst & _ & Hnew & _).
    split; [done|]. split; [done|]. split; [done|]. split; [done|]. split; [|by apply cluster_issued_subseteq; [apply wf|..]].
    cbn. apply cluster_issued_Some; [done|]. exists (HostEntry.set_backend h e). split; [|done].
    rewrite Hh. eapply list_elem_of_lookup_2, list_lookup_insert_eq. by eapply lookup_lt_Some.
  - intros req c e c' E. by rewrite <- (f_equal snd E : _ = c'); apply lift_issued.
  - intros i c. apply lift_issued.
  - intros qs c. apply lift_issued.
  - intros qs c rep c' r E%lift_run Hr. by apply (liveness_running_vouched qs (raw c) (raw c') rep r (wf c)).
  - intros r t c. apply lift_issued.
  - intros cid c. apply lift_issued.
Defined.
End Cluster.
End Cluster.

(** ** Docker hosts *)

#[global] Instance docker_host {D} `{Docker D, System D, Formats} : HostBackend (LocalDockerBackend.t D) := {
  host_list := Docker.list_replicas;
  host_managed := Docker.list_managed_containers;
  host_wait_until_ready := Docker.wait_until_ready;
  host_metrics := Docker.metrics;
  host_logs := Docker.logs;
  host_logs_follow := Docker.logs_follow;
  host_events := Docker.container_events;
  host_image_refs := Docker.all_container_image_refs;
  host_prune := Docker.prune_stopped;
  host_images := Docker.list_images;
  host_remove_image := Docker.remove_image;
  host_image_present := Docker.image_present;
  host_pull := Docker.pull_image;
  set_readiness_timeout := LocalDockerBackend.with_readiness_timeout
}.

Section DockerHost.
Context {D : Type} `{DockerLaws D, !FormatsLaws, !Timeout (LocalDockerBackend.t D)}.
Implicit Types (b : LocalDockerBackend.t D).

(** What any call of a Docker host does to the names given. *)
Definition grows b b' : Prop :=
  named (LocalDockerBackend.docker b) ⊆ named (LocalDockerBackend.docker b')
  /\ forall i, uuid_region (LocalDockerBackend.docker b') i <-> uuid_region (LocalDockerBackend.docker b) i.

#[global] Instance grows_preorder : PreOrder grows.
Proof.
  split; [done|]. intros b1 b2 b3 [N1 R1] [N2 R2]. split; [by etransitivity|]. intros i. by rewrite R2, R1.
Qed.

(** An interrupted call leaves a state that calls of its kind lead to; one
    that answers in time ran. *)
Class TimeoutLaws : Prop := {
  timed_ran {A} n (op : LocalDockerBackend.t D -> A * LocalDockerBackend.t D) b a b' :
    timeout n op b = (Some a, b') -> op b = (a, b');
  timed_grows {A} n (op : LocalDockerBackend.t D -> A * LocalDockerBackend.t D) :
    preserves grows op -> preserves grows (timeout n op)
}.

Lemma grows_untouched {A} (m : St (LocalDockerBackend.t D) A) : preserves untouched m -> preserves grows m.
Proof. intros Hm b. destruct (Hm b) as (_ & E & R). split; [by rewrite E|done]. Qed.

Lemma grows_call {A} (op : D -> A * D) :
  (forall d, named d ⊆ named (op d).2 /\ forall i, uuid_region (op d).2 i <-> uuid_region d i) ->
  preserves grows (on_docker op).
Proof.
  intros Hop b. unfold on_docker. specialize (Hop (LocalDockerBackend.docker b)). by destruct (op _) as [a d].
Qed.

Lemma grows_remove c : preserves grows (on_docker (D := D) (force_remove c)).
Proof. apply grows_call. intros d. split; [by rewrite remove_named|apply remove_region]. Qed.

Lemma grows_create n p body : preserves grows (on_docker (D := D) (create_container n p body)).
Proof. apply grows_call. intros d. split; [apply create_named|apply create_region]. Qed.

Lemma grows_docker_call {A} name (op : D -> DockerResult A * D) :
  preserves grows (on_docker op) -> preserves grows (docker_call name op).
Proof. intros Hop. by apply preserves_map_err; [apply _|]. Qed.

Hint Resolve grows_remove grows_create grows_docker_call : preserves.
Hint Resolve untouched_call untouched_docker_call untouched_instant untouched_logs untouched_pull untouched_network
  untouched_bring_up untouched_find untouched_list untouched_managed untouched_liveness untouched_wait untouched_ready
  untouched_finish_job : preserves.
Hint Extern 1 (quiet_call _) => constructor : preserves.
Hint Extern 2 (preserves grows (forget_metrics _)) => apply preserves_modify : preserves.
Hint Extern 3 (preserves grows _) => apply grows_untouched; solve [eauto with preserves] : preserves.

Lemma grows_container_id i : preserves grows (container_id_for_replica (D := D) i).
Proof. unfold container_id_for_replica. preserves_auto. Qed.

Lemma grows_metrics i : preserves grows (Docker.metrics (D := D) i).
Proof. unfold Docker.metrics, container_id_for_replica, metrics_for_container. preserves_auto. Qed.

Lemma grows_inventory : preserves grows (inventory (H := LocalDockerBackend.t D)).
Proof.
  intros b. unfold inventory.
  match goal with |- grows b (?m b).2 => assert (preserves grows m) as Hm; [|apply Hm] end.
  cbn [host_managed host_list docker_host]. preserves_auto.
Qed.
Hint Resolve grows_container_id grows_metrics grows_inventory : preserves.

Lemma docker_call_grows {A} (op : LocalDockerBackend.t D -> A * LocalDockerBackend.t D) :
  TimeoutLaws -> host_call op -> preserves grows op.
Proof.
  intros HT. induction 1; cbn [Spawn.spawn_request Spawn.stop Spawn.wait_until_ready_with_timeout Spawn.remove_container
    host_container_backend docker_host docker_backend host_list host_managed host_wait_until_ready host_metrics host_logs
    host_logs_follow host_events host_image_refs host_prune host_images host_remove_image host_image_present host_pull];
    unfold Docker.spawn_request, Docker.stop, Docker.remove_container, Docker.wait_until_ready, Docker.logs,
      Docker.logs_follow, Docker.container_events, Docker.all_container_image_refs,
      Docker.prune_stopped, prune_one, Docker.list_images, Docker.remove_image, Docker.image_present, image_is_present,
      Docker.pull_image; try (by apply timed_grows); preserves_auto.
Qed.

#[export] Instance docker_host_laws : TimeoutLaws -> HostLaws (LocalDockerBackend.t D).
Proof.
  intros HT. refine {| region := fun b => uuid_region (LocalDockerBackend.docker b) |}.
  - intros b i s. apply named_region.
  - intros A op b i Hc. apply (docker_call_grows op HT Hc b).
  - intros A op b Hc. apply (docker_call_grows op HT Hc b).
  - intros b l b' r E Hr. exact (list_replicas_named l b b' r E Hr).
  - intros A. apply timed_ran.
Defined.
End DockerHost.

(** ** Properties *)

Module MultiHostProperties.

(** [choose_host] refuses exactly when no host has room, and otherwise
    picks a host with room: under anti-affinity one that runs the app only if
    all hosts with room do; for [Spread] one of least containers per weight,
    for [BinPack] the fullest, among those considered, the lowest index on a
    tie. *)
Theorem choose_host_correct loads placement anti_affinity :
  match choose_host loads placement anti_affinity with
  | None => forall i, (i < length loads)%nat -> HostLoad.has_room (load_at loads i) = false
  | Some i =>
    i ∈ eligible loads
    /\ (anti_affinity = true -> HostLoad.runs_spec (load_at loads i) = true ->
        forall j, j ∈ eligible loads -> HostLoad.runs_spec (load_at loads j) = true)
    /\ forall j, j ∈ candidate_pool loads anti_affinity ->
       let ci := HostLoad.count (load_at loads i) in
       let cj := HostLoad.count (load_at loads j) in
       match placement with
       | Placement.Spread =>
         let left := ci * Z.max 1 (HostLoad.weight (load_at loads j)) in
         let right := cj * Z.max 1 (HostLoad.weight (load_at loads i)) in
         left < right \/ (left = right /\ (i <= j)%nat)
       | Placement.BinPack => cj < ci \/ (cj = ci /\ (i <= j)%nat)
       end
  end.
Proof.
  destruct (choose_host loads placement anti_affinity) as [i|] eqn:E; unfold choose_host in E.
  - assert (i ∈ candidate_pool loads anti_affinity) as Hin.
    { destruct (eligible loads); [done|]. destruct placement; [by apply min_by_elem in E|by apply max_by_elem in E]. }
    split; [by eapply candidate_pool_eligible|]. split.
    + intros -> Hruns j Hj. destruct (HostLoad.runs_spec (load_at loads j)) eqn:Hr; [done|]. exfalso.
      unfold candidate_pool in Hin. destruct (List.filter _ _) as [|f fs] eqn:Hf.
      * assert (j ∈ ([] : list nat)) as []%not_elem_of_nil. rewrite <- Hf. apply filter_elem. by rewrite Hr.
      * rewrite <- Hf in Hin. apply filter_elem in Hin as [_ Hn]. by rewrite Hruns in Hn.
    + intros j Hj. destruct (eligible loads); [done|]. destruct placement; cbv zeta.
      * apply spread_le. refine (proj2 (min_by_Some (spread_cmp loads) _ (spread_trans loads) (spread_total loads) _ _ E) j Hj).
        intros x. apply spread_le. lia.
      * apply binpack_le. refine (proj2 (max_by_Some (binpack_cmp loads) _ _ (binpack_total loads) _ _ E) j Hj).
        -- intros x. apply binpack_le. lia.
        -- intros x y z. rewrite !binpack_le. lia.
  - intros i Hi. destruct (HostLoad.has_room (load_at loads i)) eqn:Hr; [exfalso|done].
    assert (i ∈ eligible loads) as He by (by apply elem_of_eligible).
    destruct (eligible loads) eqn:El; [by apply not_elem_of_nil in He|].
    assert (candidate_pool loads anti_affinity <> []) as Hp by (intros Hp%candidate_pool_nil; congruence).
    by destruct (candidate_pool _ _), placement.
Qed.

(** Merging the hosts' images does not depend on the order they
    answer in: an image is listed when some host has it, with the union of
    its tags, in use by the sum of the hosts' counts, or by an unknown number
    as soon as one host does not know. *)
Theorem merge_images_total imgs id :
  (forall img, img ∈ imgs -> -1 <= ImageInfo.containers img) ->
  match foldl merge_image ∅ imgs !! id with
  | Some m =>
    ImageInfo.containers m = total_containers id imgs
    /\ forall t, t ∈ ImageInfo.tags m <-> exists img, img ∈ imgs /\ ImageInfo.id img = id /\ t ∈ ImageInfo.tags img
  | None => forall img, img ∈ imgs -> ImageInfo.id img <> id
  end.
Proof. apply merge_images_spec. Qed.

Section Properties.
Context {H : Type} `{HostLaws H}.
Implicit Types (c : MultiHostDockerBackend.t H).

(** Every operation of the cluster keeps it well formed: the hosts stay
    the configured ones, in order, with their ids, caps and weights and with
    their replica ids apart, and the placement map names only replicas their
    recorded host issued, with the right app. *)
Theorem cluster_operations_typed show c req i qs r t cid : cluster_wf c ->
  let ok c' := cluster_wf c' /\ hosts_evolve c c' in
  ok (spawn_request req c).2 /\ ok (stop i c).2 /\ ok (list_replicas c).2 /\ ok (replica_liveness qs c).2
  /\ ok (wait_until_ready_with_timeout show r t c).2 /\ ok (remove_container cid c).2.
Proof.
  intros Hwf ok. repeat split; by (apply step_spawn || apply step_stop || apply step_list || apply step_liveness
    || apply step_wait || apply step_remove_container).
Qed.

(** A spawn respects the hosts' caps: when host ids are distinct, no
    host ends up with more recorded containers than its [max-containers], or
    than it had; the new one is recorded on the host the reply names. *)
Theorem spawn_within_capacity c c' req x : cluster_wf c ->
  NoDup (map HostEntry.id (MultiHostDockerBackend.hosts c)) -> spawn_request req c = (Ok x, c') ->
  (exists k e, MultiHostDockerBackend.hosts c !! k = Some e /\ Replica.host x = Some (HostEntry.id e)
     /\ zlen (placed_at c' k) = zlen (placed_at c k) + 1)
  /\ forall k e m, MultiHostDockerBackend.hosts c !! k = Some e -> HostEntry.max_containers e = Some m ->
     zlen (placed_at c' k) <= Z.max (zlen (placed_at c k)) m.
Proof.
  intros Hwf Hnd E. destruct (spawn_fresh _ _ _ _ Hwf E) as [_ Hnone].
  destruct (cluster_spawn_inv _ _ _ _ Hwf E) as (_ & Hev & k & e & h & r0 & Hp & Hk & _ & -> & Hh & Hpl).
  assert (forall j, zlen (placed_at c' j) = zlen (placed_at c j) + (if decide (j = k) then 1 else 0)) as Hcount.
  { intros j. by apply (placed_insert c c' j k e _ _ _ Hnd Hk Hh Hpl). }
  split.
  - exists k, e. split; [done|]. split; [done|]. rewrite Hcount. by case_decide.
  - intros j f m Hj Hm. rewrite Hcount. case_decide; [subst j|lia]. assert (f = e) as -> by congruence.
    pose proof (pick_host_room _ _ _ _ _ Hp Hk Hm). lia.
Qed.

(** A replica is reported [Missing] only on authority: the host known
    to own it answered in time and does not list its container, or, when no
    owner is known, every host answered and none lists it. *)
Theorem missing_is_authoritative qs c rep c' i :
  replica_liveness qs c = (Ok rep, c') -> (i, ReplicaLiveness.Missing) ∈ ReplicaLivenessReport.observations rep ->
  exists q, q ∈ qs /\ ReplicaLivenessQuery.replica_id q = i
  /\ let unlisted e := exists inv h, timeout HOST_FANOUT_TIMEOUT inventory (HostEntry.backend e) = (Some (Ok inv), h)
         /\ forall m, m ∈ HostRuntimeInventory.managed inv -> ManagedContainer.id m <> ReplicaLivenessQuery.container_id q in
     match owner_of (MultiHostDockerBackend.placement c) q with
     | Some host => exists e, e ∈ MultiHostDockerBackend.hosts c /\ HostEntry.id e = host /\ unlisted e
     | None => forall e, e ∈ MultiHostDockerBackend.hosts c -> unlisted e
     end.
Proof.
  unfold replica_liveness. intros (rs & c1 & Hf & Hrun)%st_bind_inv Hobs.
  destruct (batch_of rs) as [b|] eqn:Hb; [|by injection Hrun].
  apply st_bind_inv in Hrun as (pl & c2 & [= <- <-] & Hrun).
  apply st_bind_inv in Hrun as (tagged & c3 & _ & (u & c4 & _ & [= <- <-])%st_bind_inv). cbn in Hobs.
  assert (MultiHostDockerBackend.placement c1 = MultiHostDockerBackend.placement c) as Hpl by (by injection Hf as _ <-).
  rewrite Hpl in Hobs. apply list_elem_of_fmap in Hobs as (q & [= Hi Hm] & Hq). exists q. split; [done|]. split; [done|].
  destruct (owner_of _ q) as [host|].
  - by apply (missing_owned rs b c c1 q host Hf Hb).
  - by apply (missing_unowned rs b c c1 q Hf Hb).
Qed.

(** Each fan-out fails in its own direction: listing replicas fails
    only if no host answered in time; the image-usage inventory, which gates
    image removal, fails if any host did not; the container list never
    fails. *)
Theorem fan_out_failures c :
  let answers {A} (op : H -> CoreResult A * H) e :=
    exists a h, timeout HOST_FANOUT_TIMEOUT op (HostEntry.backend e) = (Some (Ok a), h) in
  (is_ok (list_replicas c).1 = true
     <-> exists e, e ∈ MultiHostDockerBackend.hosts c /\ answers host_list e)
  /\ (is_ok (all_container_image_refs c).1 = true
     <-> forall e, e ∈ MultiHostDockerBackend.hosts c -> answers host_image_refs e)
  /\ is_ok (list_managed_containers c).1 = true.
Proof.
  intros answers. subst answers. cbv beta. split; [|split].
  - unfold list_replicas, st_bind at 1. rewrite <- (some_answer host_list c).
    destruct (fan_out_timed host_list c) as [rs c1]. cbn [fst]. unfold batch_of.
    destruct (omap answered rs) as [|x l] eqn:E; [by split|].
    unfold st_bind, prune_placements, st_modify. destruct (tag_reported _ _). by split.
  - unfold all_container_image_refs, st_bind. rewrite <- (all_answers host_image_refs c).
    destruct (fan_out_timed host_image_refs c) as [rs c1]. cbn. apply collect_refs_Ok.
  - unfold list_managed_containers, st_bind. by destruct (fan_out_timed _ _).
Qed.
End Properties.

Section ClusterRuntime.
Context {H : Type} `{HostLaws H} (show_id : ReplicaId -> string).

#[local] Instance shown_backend : ContainerBackend (Cluster.t H) := Cluster.cluster_backend show_id.
#[local] Instance shown_laws : ContainerBackendLaws (Cluster.t H) := Cluster.cluster_laws show_id.

(** A cluster of hosts implements the container interface, so the
    runtime invariant holds of it: after any run of picks, spawns, stops,
    liveness passes and scaler ticks over a cluster whose hosts draw distinct
    ids, the registry is well formed and every registered replica is one some
    host of the cluster issued, labelled with its app. *)
Theorem cluster_runtime_invariant show (clk : Clock.t (Cluster.t H)) order env p ops (w : World.t (Cluster.t H)) :
  world_wf w ->
  Registry.wf (World.replicas (run show clk order env p ops w))
  /\ forall c i r, World.backend (run show clk order env p ops w) = Some c ->
     Registry.by_id (World.replicas (run show clk order env p ops w)) !! i = Some r ->
     exists e, e ∈ MultiHostDockerBackend.hosts (Cluster.raw c)
       /\ issued (HostEntry.backend e) !! i = Some (Replica.spec_id r).
Proof.
  intros Hw. assert (world_wf (run show clk order env p ops w)) as Hw'.
  { revert w Hw; induction ops as [|o ops IH]; intros w Hw; [done|]. apply IH.
    by apply (run_op_sound show clk order env p o w). }
  split; [apply Hw'|]. intros c i r Hc Hr. pose proof (world_issued _ Hw' c i r Hc Hr) as Hi.
  by apply cluster_issued_Some in Hi; [|apply Cluster.wf].
Qed.
End ClusterRuntime.
End MultiHostProperties.

(** ** Examples: a cluster of two Docker machines *)

Module MultiHostExamples.
Import ExampleMachine.

Abbreviation machine := (LocalDockerBackend.t ExampleMachine.t).

(** A host addressed as slow never answers in time. *)
#[global] Instance machine_timeout : Timeout machine := {
  timeout A n op b :=
    if str_eqb (LocalDockerBackend.upstream_host b) "slow" then (None, b)
    else let '(a, b') := op b in (Some a, b')
}.

Lemma machine_timeout_laws : TimeoutLaws (D := ExampleMachine.t).
Proof.
  split.
  - intros A n op b a b'. unfold timeout. cbn. destruct (str_eqb _ _); [done|]. destruct (op b). by intros [= -> ->].
  - intros A n op Hop b. unfold timeout. cbn. destruct (str_eqb _ _); [cbn; reflexivity|].
    specialize (Hop b). by destruct (op b).
Qed.

#[global] Instance machine_laws : HostLaws machine := docker_host_laws machine_timeout_laws.

Definition even_host (name : string) : HostEntry.t machine :=
  HostEntry.mk name (LocalDockerBackend.from_docker_addressed (ExampleMachine.mk false 5 ∅ ∅ 0) "0.0.0.0" name) (Some 1) 1.
Definition odd_host (name : string) : HostEntry.t machine :=
  HostEntry.mk name (LocalDockerBackend.from_docker_addressed (ExampleMachine.mk true 5 ∅ ∅ 0) "0.0.0.0" name) (Some 2) 3.

Definition two (a b : string) : MultiHostDockerBackend.t machine :=
  MultiHostDockerBackend.mk [even_host a; odd_host b] ∅.

Lemma two_wf a b : cluster_wf (two a b).
Proof.
  split; [|cbn; intros i h s; by rewrite lookup_empty].
  intros [|[|j]] [|[|k]] e f i; cbn; try done; intros [= <-] [= <-]; cbn; congruence.
Qed.

Definition request : SpawnRequest.t := SpawnRequest.with_anti_affinity true (SpawnRequest.new "a" "app").
Definition one_placed : MultiHostDockerBackend.t machine := (spawn_request request (two "m1" "m2")).2.
Definition two_placed : MultiHostDockerBackend.t machine := (spawn_request request one_placed).2.

Example spread_apart :
  map (fun kv => kv.2.1) (map_to_list (MultiHostDockerBackend.placement two_placed)) = ["m1"; "m2"]
  \/ map (fun kv => kv.2.1) (map_to_list (MultiHostDockerBackend.placement two_placed)) = ["m2"; "m1"].
Proof. vm_compute. auto. Qed.

Example host_parts :
  map host_part ["me@box:22"; "[2001:db8::1]:2376"; "2001:db8::1"; "box"] = ["box"; "2001:db8::1"; "2001:db8::1"; "box"].
Proof. vm_compute. reflexivity. Qed.

Lemma cluster_operations_typed_witness : cluster_wf (two "m1" "m2") /\ cluster_wf one_placed.
Proof.
  split; [apply two_wf|].
  apply (MultiHostProperties.cluster_operations_typed (fun _ => "") (two "m1" "m2") request 0%N []
    (Replica.mk 0 "" "" "" ReplicaState.Ready 0 0 0 None) None "" (two_wf _ _)).
Defined.

Lemma spawn_within_capacity_witness :
  exists x, (spawn_request request one_placed).1 = Ok x
  /\ zlen (placed_at two_placed 0) <= Z.max (zlen (placed_at one_placed 0)) 1.
Proof.
  assert (is_ok (spawn_request request one_placed).1 = true) as Hok by (vm_compute; reflexivity).
  destruct (spawn_request request one_placed) as [[x|e] c'] eqn:E; [|discriminate Hok]. exists x. split; [reflexivity|].
  assert (c' = two_placed) as -> by (unfold two_placed; by rewrite E).
  assert (cluster_wf one_placed) as Hwf by apply (step_spawn request (two "m1" "m2")), two_wf.
  assert (NoDup (map HostEntry.id (MultiHostDockerBackend.hosts one_placed))) as Hnd
    by (apply (bool_decide_unpack _); vm_compute; exact I).
  destruct (MultiHostDockerBackend.hosts one_placed !! 0%nat) as [e|] eqn:Ee; [|vm_compute in Ee; discriminate Ee].
  apply (proj2 (MultiHostProperties.spawn_within_capacity one_placed two_placed request x Hwf Hnd E) 0%nat e 1 Ee).
  vm_compute in Ee. injection Ee as <-. reflexivity.
Defined.

(** One host is slow: only the replica recorded on the other is missing. *)
Definition half_down : MultiHostDockerBackend.t machine := two "m1" "slow".
Definition lost (i : ReplicaId) (host : string) : ReplicaLivenessQuery.t := ReplicaLivenessQuery.mk i "gone" (Some host).

Example half_an_answer : exists rep, (replica_liveness [lost 1 "m1"; lost 2 "slow"; ReplicaLivenessQuery.mk 3 "gone" None] half_down).1 = Ok rep
  /\ ReplicaLivenessReport.observations rep
     = [(1%N, ReplicaLiveness.Missing); (2%N, ReplicaLiveness.Unknown); (3%N, ReplicaLiveness.Unknown)].
Proof. eexists. split; vm_compute; reflexivity. Qed.

Lemma missing_is_authoritative_witness :
  exists e inv h, e ∈ MultiHostDockerBackend.hosts half_down /\ HostEntry.id e = "m1"
    /\ timeout HOST_FANOUT_TIMEOUT inventory (HostEntry.backend e) = (Some (Ok inv), h).
Proof.
  destruct (replica_liveness [lost 1 "m1"] half_down) as [[rep|e] c'] eqn:E.
  - assert (rep = ReplicaLivenessReport.mk [(1%N, ReplicaLiveness.Missing)] [] []) as ->.
    { apply (f_equal fst) in E. vm_compute in E. by injection E as <-. }
    destruct (MultiHostProperties.missing_is_authoritative [lost 1 "m1"] half_down _ c' 1%N E) as (q & Hq & _ & Hw);
      [left|].
    apply list_elem_of_singleton in Hq as ->. cbn -[timeout] in Hw. destruct Hw as (e & He & Hid & inv & h & Ht & _).
    exists e, inv, h. split; [exact He|]. split; [exact Hid|exact Ht].
  - assert (is_ok (replica_liveness [lost 1 "m1"] half_down).1 = true) as Hok by (vm_compute; reflexivity).
    rewrite E in Hok. discriminate Hok.
Defined.

Definition shiny (tag : string) (containers : Z) : ImageInfo.t := ImageInfo.mk "sha" [tag] 10 containers.

Lemma merge_images_total_witness :
  exists m, foldl merge_image ∅ [shiny "a:1" 2; shiny "a:latest" 0; shiny "a:1" 3] !! "sha" = Some m
  /\ ImageInfo.containers m = total_containers "sha" [shiny "a:1" 2; shiny "a:latest" 0; shiny "a:1" 3].
Proof.
  pose proof (MultiHostProperties.merge_images_total [shiny "a:1" 2; shiny "a:latest" 0; shiny "a:1" 3] "sha") as Hm.
  destruct (foldl merge_image ∅ _ !! "sha") as [m|] eqn:E; [|vm_compute in E; discriminate E].
  exists m. split; [reflexivity|]. apply Hm. intros img Himg. apply list_elem_of_In in Himg.
  repeat (destruct Himg as [<-|Himg]; [cbn; lia|]). destruct Himg.
Defined.

Definition cluster : Cluster.t machine := Cluster.mk (two "m1" "m2") (two_wf "m1" "m2").
Definition empty_world : World.t (Cluster.t machine) :=
  World.mk Registry.empty ∅ ∅ ∅ 0 AlertSink.new ∅ ∅ (Some cluster).
Definition cluster_clock : Clock.t (Cluster.t machine) := Clock.mk (fun _ => from_secs 120) (fun _ => from_secs 120).

Definition demanded : World.t (Cluster.t machine) :=
  @run _ (Cluster.cluster_backend LivenessExamples.no_show) LivenessExamples.no_show cluster_clock HashOrder.sorted
    CountingBackend.example_env ScalerExamples.prod
    [Demand SpawnExamples.app; SpawnReplica SpawnExamples.app; Reconcile [SpawnExamples.app]] empty_world.

Lemma cluster_runtime_invariant_witness :
  map Replica.host (World.pool demanded "a") = [Some "m1"; Some "m2"] /\ Registry.wf (World.replicas demanded).
Proof.
  split; [vm_compute; reflexivity|].
  apply (MultiHostProperties.cluster_runtime_invariant LivenessExamples.no_show LivenessExamples.no_show cluster_clock
    HashOrder.sorted CountingBackend.example_env ScalerExamples.prod
    [Demand SpawnExamples.app; SpawnReplica SpawnExamples.app; Reconcile [SpawnExamples.app]] empty_world).
  split; [apply Registry.wf_empty|]. intros b i r _ Hr. cbn in Hr. exfalso. vm_compute in Hr. discriminate Hr.
Defined.
End MultiHostExamples.
