(* ===== verification/Interpolation.v ===== *)
(** * Interpolation: environment references in the configuration text
    (ruscker-config: env.rs)

    [interpolate] walks the lines of the file with one state, the column of
    an open [container-env] block.  References on ordinary lines are resolved;
    secrets are left as written and resolved where they are used.  The
    reference [renders] says which lines are kept, and what the others
    become, with a grammar of lines and the one of [References]: it uses
    neither that state nor the code's tests. *)

From Stdlib Require Import Ascii String ZArith Lia.
From stdpp Require Import base tactics list gmap strings sets numbers.
From S2P Require Import Prelude Text Schema References.

Local Open Scope string_scope.
Local Open Scope list_scope.
Local Open Scope Z_scope.
Local Open Scope ruscker_scope.

Definition SECRET_KEYS : list string := ["docker-registry-password"].

Definition len (s : string) : Z := Z.of_nat (String.length s).

(** ** Inline comments *)

Fixpoint split_comment_from (in_single in_double prev_ws : bool) (s : string) : string * string :=
  match s with
  | EmptyString => (EmptyString, EmptyString)
  | String b rest =>
    if Ascii.eqb b "#" && negb in_single && negb in_double && prev_ws then (EmptyString, s)
    else
      let in_single' := if Ascii.eqb b "'" && negb in_double then negb in_single else in_single in
      let in_double' := if Ascii.eqb b "034" && negb in_single then negb in_double else in_double in
      let (code, comment) :=
        split_comment_from in_single' in_double' (Ascii.eqb b " " || Ascii.eqb b "009") rest in
      (String b code, comment)
  end.

Definition split_inline_comment (line : string) : string * string :=
  split_comment_from false false true line.

(** ** Lines *)

Definition content (line : string) : string := default line (strip_suffix (byte_str [10%N]) line).
Definition indent (line : string) : Z := len (content line) - len (trim_start (content line)).

(** Neither blank nor a comment. *)
Definition significant (line : string) : bool :=
  let trimmed := trim_start (content line) in negb (str_is_empty trimmed || starts_with "#" trimmed).

Definition line_key (line : string) : string :=
  trim (trim_start_char "-" (split_first ":" (trim_start (content line)))).

Definition dash_prefix (line : string) : Z :=
  let trimmed := trim_start (content line) in len trimmed - len (trim_start (trim_start_char "-" trimmed)).

Definition key_column (line : string) : Z := indent line + dash_prefix line.

Definition is_secret_key (line : string) : bool := existsb (str_eqb (line_key line)) SECRET_KEYS.
Definition is_env_header (line : string) : bool := str_eqb (line_key line) "container-env".

Definition resolve_line (env : string -> EnvVar) (line : string) : Result string ConfigError.t :=
  let (code, comment) := split_inline_comment line in
  let? resolved := interpolate_line env code in
  Ok (resolved +:+ comment).

(** One turn of the loop: the block left open and the text to output. *)
Definition interpolate_step (env : string -> EnvVar) (env_block_indent : option Z) (line : string)
  : Result (option Z * string) ConfigError.t :=
  if negb (significant line) then Ok (env_block_indent, line)
  else
    let open := bi ← env_block_indent; if indent line <=? bi then None else Some bi in
    match open with
    | Some bi => Ok (Some bi, line)
    | None =>
      if is_env_header line then Ok (Some (key_column line), line)
      else if is_secret_key line then Ok (None, line)
      else let? text := resolve_line env line in Ok (None, text)
    end.

Fixpoint interpolate_lines (env : string -> EnvVar) (env_block_indent : option Z) (lines : list string)
  : Result string ConfigError.t :=
  match lines with
  | [] => Ok EmptyString
  | line :: rest =>
    let? (open, text) := interpolate_step env env_block_indent line in
    let? output := interpolate_lines env open rest in
    Ok (text +:+ output)
  end.

Definition interpolate (env : string -> EnvVar) (input : string) : Result string ConfigError.t :=
  interpolate_lines env None (split_inclusive "010" input).

(** ** Pure references *)

(** [ENV_VAR_PATTERN.replace_all(s, "")]; the fuel bounds the length. *)
Fixpoint strip_tokens_fuel (n : nat) (s : string) : string :=
  match n with
  | O => s
  | S n' =>
    match match_env_token s with
    | Some (_, rest) => strip_tokens_fuel n' rest
    | None => match s with EmptyString => EmptyString | String c rest => String c (strip_tokens_fuel n' rest) end
    end
  end.
Definition strip_tokens (s : string) : string := strip_tokens_fuel (S (String.length s)) s.

Definition is_pure_env_ref (value : string) : bool :=
  let t := trim value in
  negb (str_is_empty t) && str_is_empty (trim (strip_tokens t)).

(** ** The reference: a grammar of lines

    [content] is the line without its line feed. *)

(** Blank, or a comment. *)
Definition silent (line : string) : Prop :=
  blank (content line) \/ exists w t, blank w /\ content line = w +:+ "#" +:+ t.

(** The column of the first character that is not white space. *)
Definition margin (line : string) (c : Z) : Prop :=
  exists w r, blank w /\ printed r /\ content line = w +:+ r /\ c = len w.

(** The text has the key at the column: after white space, the dashes of a
    list item and more white space, and before the colon, if there is one. *)
Inductive keyed (key text : string) (column : Z) : Prop :=
| keyed_intro w dashes sp pad tail :
    blank w -> pieces ["-"] dashes -> blank sp -> blank pad -> (tail = "" \/ exists t, tail = ":" +:+ t) ->
    text = w +:+ dashes +:+ sp +:+ key +:+ pad +:+ tail -> column = len w + len dashes + len sp ->
    keyed key text column.

(** The quote a text leaves open. *)
Definition quote_step (open : option ascii) (c : ascii) : option ascii :=
  match open with
  | Some q => if decide (c = q) then None else open
  | None => if decide (c = "'"%char \/ c = "034"%char) then Some c else None
  end.
Definition open_quote (s : string) : option ascii := fold_left quote_step (list_ascii_of_string s) None.

(** A comment starts at a number sign outside quotes, at the start of the
    line or after a space or a tab. *)
Definition comment_at (code comment : string) : Prop :=
  (exists t, comment = "#" +:+ t) /\ open_quote code = None
  /\ (code = "" \/ exists a c, code = a +:+ String c "" /\ (c = " "%char \/ c = "009"%char)).

(** The line up to its first comment, if it has one. *)
Definition splits (line code comment : string) : Prop :=
  line = code +:+ comment /\ (comment_at code comment \/ comment = "")
  /\ forall a b, line = a +:+ b -> comment_at a b -> len code <= len a.

(** [before] is the file up to the line, last line first.  A block is open at
    column [c] when some [container-env] line has its key there and every
    line since that is not silent is indented deeper. *)
Inductive block_open : list string -> Z -> Prop :=
| block_header line before c :
    ~ silent line -> keyed "container-env" (content line) c -> block_open (line :: before) c
| block_child line before c :
    block_open before c -> silent line \/ (exists m, margin line m /\ c < m) -> block_open (line :: before) c.

Definition kept (before : list string) (line : string) : Prop :=
  silent line
  \/ (exists c, keyed "container-env" (content line) c)
  \/ (exists c, keyed "docker-registry-password" (content line) c)
  \/ exists c m, block_open before c /\ margin line m /\ c < m.

Inductive renders (env : string -> EnvVar) : list string -> list string -> string -> Prop :=
| renders_end before : renders env before [] EmptyString
| renders_kept before line rest out :
    kept before line -> renders env (line :: before) rest out ->
    renders env before (line :: rest) (line +:+ out)
| renders_resolved before line rest code comment text out :
    ~ kept before line -> splits line code comment -> resolves env code text ->
    renders env (line :: before) rest out ->
    renders env before (line :: rest) (text +:+ comment +:+ out).

(** The first reference of an ordinary line that fails. *)
Inductive breaks (env : string -> EnvVar) : list string -> list string -> ConfigError.t -> Prop :=
| breaks_here before line rest code comment e :
    ~ kept before line -> splits line code comment -> fails env code e -> breaks env before (line :: rest) e
| breaks_kept before line rest e :
    kept before line -> breaks env (line :: before) rest e -> breaks env before (line :: rest) e
| breaks_resolved before line rest code comment text e :
    ~ kept before line -> splits line code comment -> resolves env code text ->
    breaks env (line :: before) rest e -> breaks env before (line :: rest) e.

(** ** Lemmas *)

Lemma trim_start_fuel_length n ps s : (String.length (trim_start_fuel n ps s) <= String.length s)%nat.
Proof.
  revert s; induction n as [|n IH]; intros s; cbn [trim_start_fuel]; [lia|].
  destruct (strip_any ps s) as [r|] eqn:E; [|lia]. specialize (IH r).
  apply strip_any_Some in E as (p & _ & ->). rewrite str_length_app. lia.
Qed.

Lemma trim_start_length s : len (trim_start s) <= len s.
Proof. unfold len, trim_start. pose proof (trim_start_fuel_length (String.length s) whitespace_seqs s). lia. Qed.

Lemma trim_start_char_length c s : len (trim_start_char c s) <= len s.
Proof.
  induction s as [|d s IH]; cbn [trim_start_char]; [done|]. destruct (Ascii.eqb c d); [|done].
  unfold len in *. cbn [String.length]. lia.
Qed.

Lemma key_column_indent line : indent line <= key_column line.
Proof.
  unfold key_column, dash_prefix. set (t := trim_start (content line)).
  pose proof (trim_start_length (trim_start_char "-" t)). pose proof (trim_start_char_length "-" t). lia.
Qed.

Lemma split_comment_app q d w s :
  (split_comment_from q d w s).1 +:+ (split_comment_from q d w s).2 = s.
Proof.
  revert q d w; induction s as [|b s IH]; intros q d w; cbn [split_comment_from]; [done|].
  destruct (_ && _); [done|]. match goal with |- context [split_comment_from ?a ?b ?c s] => specialize (IH a b c) end.
  destruct (split_comment_from _ _ _ s) as [code comment]. cbn in *. by rewrite <- IH.
Qed.

Lemma split_inclusive_concat c s : foldr String.append "" (split_inclusive c s) = s.
Proof.
  induction s as [|x s IH]; cbn [split_inclusive]; [done|].
  destruct (Ascii.eqb x c); [cbn [foldr]; by rewrite IH|].
  destruct (split_inclusive c s) as [|p ps]; cbn [foldr] in *; by rewrite <- IH.
Qed.

(** *** Pure references *)

Lemma strip_tokens_fuel_spec n s : (String.length s < n)%nat -> taken_out s (strip_tokens_fuel n s).
Proof.
  revert s; induction n as [|n IH]; intros s Hn; [lia|]. cbn [strip_tokens_fuel].
  destruct (match_env_token s) as [[[name d] rest]|] eqn:E.
  - apply match_token_sound in E as (tok & Ht & ->). eapply taken_token; [done|]. apply IH.
    apply token_length in Ht. rewrite str_length_app in Hn. lia.
  - apply match_token_none in E. destruct s as [|c s]; [constructor|]. apply taken_char; [done|]. apply IH. cbn [String.length] in Hn. lia.
Qed.

Lemma taken_out_unique s x y : taken_out s x -> taken_out s y -> x = y.
Proof.
  intros H. revert y; induction H as [|name d tok s x Ht _ IH|c s x Hn _ IH]; intros y Hy.
  - inversion Hy as [|? ? ? ? ? Ht ? E|]; [done|]. by destruct (token_not_nil _ _ _ _ Ht E).
  - inversion Hy as [E|name' d' tok' s' y' Ht' Hy' E|c s' y' Hn ? E].
    + by destruct (token_not_nil _ _ _ _ Ht (eq_sym E)).
    + destruct (token_unique _ _ _ _ _ _ _ _ Ht' Ht E) as (_ & _ & _ & ->). by apply IH.
    + by destruct (no_token_head _ _ _ _ _ _ Ht (eq_sym E)).
  - inversion Hy as [|name d tok s' y' Ht ? E|c' s' y' ? Hy']; subst; [by destruct (no_token_head _ _ _ _ _ _ Ht E)|].
    f_equal. by apply IH.
Qed.

(** The detector accepts the texts that hold nothing but references. *)
Lemma is_pure_env_ref_spec v : is_pure_env_ref v = true <-> references_only v.
Proof.
  unfold is_pure_env_ref, references_only. rewrite andb_true_iff, negb_true_iff.
  assert (taken_out (trim v) (strip_tokens (trim v))) as Ht by (apply strip_tokens_fuel_spec; lia).
  assert (forall s, str_is_empty s = true <-> s = "") as He by (intros []; done).
  rewrite He. split.
  - intros [Hv Hs]. split; [by intros E; rewrite E in Hv|eauto].
  - intros [Hv (x & Hx & Hs)]. rewrite (taken_out_unique _ _ _ Ht Hx). split; [by destruct (trim v)|done].
Qed.

#[global] Instance references_only_dec v : Decision (references_only v).
Proof. refine (cast_if (decide (is_pure_env_ref v = true))); by rewrite <- is_pure_env_ref_spec. Defined.

Lemma references_only_decide {A} v (a b : A) : (if is_pure_env_ref v then a else b) = if decide (references_only v) then a else b.
Proof. case_decide as Hv; rewrite <- is_pure_env_ref_spec in Hv; by destruct (is_pure_env_ref v). Qed.

(** *** The code's tests decide the grammar *)

Lemma printed_head c s : byte_in 33 126 c = true -> printed (String c s).
Proof. intros Hc. by apply printed_spec, strip_any_printable. Qed.

Lemma len_app a b : len (a +:+ b) = len a + len b.
Proof. unfold len. rewrite str_length_app. lia. Qed.

Lemma silent_spec line : silent line <-> significant line = false.
Proof.
  unfold silent, significant. rewrite negb_false_iff, orb_true_iff, <- blank_start, starts_with_spec.
  assert ((exists r, trim_start (content line) = "#" +:+ r) <-> exists w t, blank w /\ content line = w +:+ "#" +:+ t) as ->.
  { split.
    - intros [r (w & ? & ? & _)%trim_start_spec]. eauto.
    - intros (w & t & Hw & E). exists t. apply trim_start_spec. exists w. split; [done|]. split; [done|]. by apply printed_head. }
  destruct (trim_start (content line)); cbn [str_is_empty]; naive_solver.
Qed.

Lemma margin_spec line c : margin line c <-> indent line = c.
Proof.
  unfold margin, indent. split.
  - intros (w & r & Hw & Hr & E & ->). assert (trim_start (content line) = r) as -> by (apply trim_start_spec; eauto).
    rewrite E, len_app. lia.
  - intros <-. destruct (proj1 (trim_start_spec (content line) _) eq_refl) as (w & Hw & E & Hr).
    exists w, (trim_start (content line)). split; [done|]. split; [done|]. split; [done|]. rewrite E at 1. rewrite len_app. lia.
Qed.

Lemma split_first_spec c s :
  str_contains_char c (split_first c s) = false
  /\ (s = split_first c s \/ exists t, s = split_first c s +:+ String c t).
Proof.
  unfold split_first. induction s as [|d s [IH1 IH2]]; cbn [split_char]; [split; [done|by left]|].
  destruct (Ascii.eqb_spec c d) as [->|Hd]; cbn [List.hd]; [split; [done|by right; exists s]|].
  destruct (split_char c s) as [|p ps] eqn:E; [by destruct (split_char_nonempty c s)|]. cbn [List.hd] in *. split.
  - cbn [str_contains_char]. rewrite IH1, orb_false_r. by apply Ascii.eqb_neq.
  - destruct IH2 as [->|[t ->]]; [by left|right; by exists t].
Qed.

Lemma split_first_exact c a tail :
  str_contains_char c a = false -> (tail = "" \/ exists t, tail = String c t) -> split_first c (a +:+ tail) = a.
Proof.
  unfold split_first. intros Ha [->|[t ->]]; [by rewrite str_app_nil_r, split_char_no_sep|by rewrite split_char_app_sep].
Qed.

Lemma trim_start_char_split c s : exists d, pieces [String c ""] d /\ s = d +:+ trim_start_char c s.
Proof.
  induction s as [|b s (d & Hd & IH)]; cbn [trim_start_char]; [by exists ""; split; [constructor|]|].
  destruct (Ascii.eqb_spec c b) as [->|]; [|by exists ""; split; [constructor|]].
  exists (String b "" +:+ d). split; [constructor; [set_solver|done]|]. by rewrite str_app_assoc, <- IH.
Qed.

Lemma trim_start_char_exact c d b s :
  pieces [String c ""] d -> c <> b -> trim_start_char c (d +:+ String b s) = String b s.
Proof.
  intros Hd Hb. induction Hd as [|p d ->%list_elem_of_singleton _ IH].
  - change (trim_start_char c (String b s) = String b s). cbn [trim_start_char]. by destruct (Ascii.eqb_spec c b).
  - rewrite str_app_assoc. change (String c "" +:+ ?x) with (String c x). cbn [trim_start_char]. by rewrite Ascii.eqb_refl.
Qed.

Lemma pieces_no_char c ps s :
  (forall p, p ∈ ps -> str_contains_char c p = false) -> pieces ps s -> str_contains_char c s = false.
Proof. intros Hps. induction 1 as [|p s Hp _ IH]; [done|]. by rewrite str_contains_char_app, (Hps p Hp). Qed.

Lemma blank_no_char c s : whitespace_free c = true -> blank s -> str_contains_char c s = false.
Proof. intros Hc. apply pieces_no_char. intros p. by apply whitespace_free_elem. Qed.

(** A key starts with a printable character other than a dash, has no colon
    and no white space at its ends. *)
Definition plain_key (c : ascii) (k : string) : Prop :=
  byte_in 33 126 c = true /\ c <> "-"%char /\ str_contains_char ":" (String c k) = false /\ trim (String c k) = String c k.

(** What the text looks like once its white space is off: dashes come first,
    or the key does. *)
Lemma keyed_trimmed c k text column :
  plain_key c k -> keyed (String c k) text column ->
  exists w dashes sp pad tail, blank w /\ pieces ["-"] dashes /\ blank sp /\ blank pad /\ (tail = "" \/ exists t, tail = String ":" t)
    /\ (dashes = "" -> sp = "") /\ text = w +:+ (dashes +:+ sp +:+ String c k +:+ pad +:+ tail)
    /\ column = len w + len dashes + len sp.
Proof.
  intros _ [w dashes sp pad tail Hw Hd Hs Hp Ht E Hc]. destruct dashes as [|d dashes].
  - exists (w +:+ sp), "", "", pad, tail. split; [by apply pieces_app|]. do 2 (split; [constructor|]). split; [done|].
    split; [done|]. split; [done|]. split; [by rewrite E, !str_app_assoc|]. rewrite Hc, len_app. change (len "") with 0. lia.
  - exists w, (String d dashes), sp, pad, tail. by rewrite E.
Qed.

Lemma after_dashes dashes sp c k r :
  plain_key c k -> pieces ["-"] dashes -> blank sp -> (dashes = "" -> sp = "") ->
  trim_start_char "-" (dashes +:+ sp +:+ String c k +:+ r) = sp +:+ String c k +:+ r.
Proof.
  intros (_ & Hc & _) Hd Hs Hz. destruct sp as [|b sp]; [by apply (trim_start_char_exact "-" dashes c (k +:+ r)); [|congruence]|].
  apply (trim_start_char_exact "-" dashes b (sp +:+ String c k +:+ r)); [done|]. intros <-.
  pose proof (blank_no_char "-" _ eq_refl Hs) as Hno. done.
Qed.

Lemma keyed_sound c k line column :
  plain_key c k -> keyed (String c k) (content line) column -> line_key line = String c k /\ key_column line = column.
Proof.
  intros Hk H. destruct (keyed_trimmed _ _ _ _ Hk H) as (w & dashes & sp & pad & tail & Hw & Hd & Hs & Hp & Ht & Hz & E & ->).
  pose proof Hk as (Hc & Hdash & Hcolon & Htrim). set (t := dashes +:+ sp +:+ String c k +:+ pad +:+ tail) in *.
  assert (trim_start (content line) = t) as Et.
  { apply trim_start_spec. exists w. split; [done|]. split; [done|]. unfold t. inversion Hd as [E0|p d Hpd _ E0].
    - rewrite (Hz (eq_sym E0)). by apply printed_head.
    - apply list_elem_of_singleton in Hpd as ->. rewrite str_app_assoc. by apply printed_head. }
  split.
  - unfold line_key. rewrite Et. unfold t. replace (dashes +:+ sp +:+ String c k +:+ pad +:+ tail)
      with ((dashes +:+ sp +:+ String c k +:+ pad) +:+ tail) by (by rewrite !str_app_assoc).
    rewrite split_first_exact; [|rewrite !str_contains_char_app, Hcolon|done].
    + rewrite after_dashes by done. apply trim_spec; [done..|]. by exists sp, pad.
    + rewrite (blank_no_char ":" sp), (blank_no_char ":" pad), (pieces_no_char ":" ["-"] dashes) by (done || set_solver). done.
  - unfold key_column, indent, dash_prefix. rewrite Et. assert (trim_start_char "-" t = sp +:+ String c k +:+ pad +:+ tail) as -> by (by apply after_dashes).
    assert (trim_start (sp +:+ String c k +:+ pad +:+ tail) = String c k +:+ pad +:+ tail) as ->.
    { apply trim_start_spec. exists sp. split; [done|]. split; [done|]. by apply printed_head. }
    rewrite E. unfold t. rewrite !len_app. lia.
Qed.

Lemma keyed_complete c k line : plain_key c k -> line_key line = String c k -> exists column, keyed (String c k) (content line) column.
Proof.
  intros (Hc & _ & _ & Htrim). unfold line_key. set (t := trim_start (content line)). intros E.
  destruct (proj1 (trim_start_spec (content line) t) eq_refl) as (w & Hw & Ew & _).
  destruct (split_first_spec ":" t) as [_ Ht]. destruct (trim_start_char_split "-" (split_first ":" t)) as (d & Hd & Ed).
  apply trim_spec in E as (sp & pad & Hs & Hp & E); [|done..]. rewrite E in Ed. eexists.
  destruct Ht as [Ht|[u Ht]]; rewrite Ed in Ht.
  - apply (keyed_intro _ _ _ w d sp pad ""); try done; [by left|]. rewrite Ew, Ht. by rewrite str_app_nil_r.
  - apply (keyed_intro _ _ _ w d sp pad (String ":" u)); try done; [by right; exists u|]. rewrite Ew, Ht. by rewrite !str_app_assoc.
Qed.

Lemma keyed_spec c k line : plain_key c k -> (exists column, keyed (String c k) (content line) column) <-> line_key line = String c k.
Proof. intros Hk. split; [intros [? H]; by apply (keyed_sound _ _ _ _ Hk) in H as [? _]|by apply keyed_complete]. Qed.

Lemma env_header_spec line : (exists c, keyed "container-env" (content line) c) <-> is_env_header line = true.
Proof. rewrite keyed_spec by (by vm_compute). unfold is_env_header. by rewrite str_eqb_eq. Qed.

Lemma secret_key_spec line : (exists c, keyed "docker-registry-password" (content line) c) <-> is_secret_key line = true.
Proof. rewrite keyed_spec by (by vm_compute). unfold is_secret_key. cbn [existsb SECRET_KEYS]. by rewrite orb_false_r, str_eqb_eq. Qed.

Lemma env_header_column line c : keyed "container-env" (content line) c -> key_column line = c.
Proof. intros H. by apply keyed_sound in H as [_ ?]. Qed.

(** *** Inline comments *)

(** The two flags are the quote left open. *)
Definition flags (open : option ascii) : bool * bool :=
  (bool_decide (open = Some "'"%char), bool_decide (open = Some "034"%char)).
Definition quoting (open : option ascii) : Prop := open = None \/ open = Some "'"%char \/ open = Some "034"%char.
Definition after_space (s : string) : bool :=
  match str_rev s with EmptyString => true | String c _ => Ascii.eqb c " " || Ascii.eqb c "009" end.

Lemma open_quote_snoc s c : open_quote (s +:+ String c "") = quote_step (open_quote s) c.
Proof.
  unfold open_quote. assert (list_ascii_of_string (s +:+ String c "") = list_ascii_of_string s ++ [c]) as ->.
  { induction s as [|d s IH]; [done|]. change (d :: list_ascii_of_string (s +:+ String c "") = d :: (list_ascii_of_string s ++ [c])). by rewrite IH. }
  by rewrite fold_left_app.
Qed.

Lemma quoting_step open c : quoting open -> quoting (quote_step open c).
Proof. unfold quoting, quote_step. intros [-> | [-> | ->]]; repeat case_decide; naive_solver. Qed.

Lemma open_quote_quoting s : quoting (open_quote s).
Proof.
  unfold open_quote. assert (quoting None) as H by (by left). revert H. generalize (@None ascii).
  induction (list_ascii_of_string s) as [|c l IH]; intros o Ho; cbn [fold_left]; [done|]. by apply IH, quoting_step.
Qed.

Lemma str_app_split a b a' b' : a +:+ b = a' +:+ b' -> len a = len a' -> a = a' /\ b = b'.
Proof.
  unfold len. revert a'; induction a as [|c a IH]; intros [|c' a'] E Hl; try (cbn in Hl; lia); [done|].
  change (String c (a +:+ b) = String c' (a' +:+ b')) in E. injection E as -> E. cbn [String.length] in Hl.
  destruct (IH a' E ltac:(lia)) as [-> ->]. done.
Qed.

Lemma flags_step open c :
  quoting open ->
  flags (quote_step open c)
  = (if Ascii.eqb c "'" && negb (flags open).2 then negb (flags open).1 else (flags open).1,
     if Ascii.eqb c "034" && negb (flags open).1 then negb (flags open).2 else (flags open).2).
Proof.
  intros [-> | [-> | ->]]; unfold quote_step, flags;
    destruct (Ascii.eqb_spec c "'") as [Ha|Ha], (Ascii.eqb_spec c "034") as [Hb|Hb]; subst; try reflexivity;
    repeat case_decide; subst; try reflexivity; naive_solver.
Qed.

Lemma after_space_snoc s c : after_space (s +:+ String c "") = Ascii.eqb c " " || Ascii.eqb c "009".
Proof. unfold after_space. by rewrite str_rev_app_distr. Qed.

Lemma after_space_spec s :
  after_space s = true <-> s = "" \/ exists a c, s = a +:+ String c "" /\ (c = " "%char \/ c = "009"%char).
Proof.
  unfold after_space. destruct (str_rev s) as [|c r] eqn:E; apply (f_equal str_rev) in E; rewrite str_rev_involutive in E.
  - split; [by left|done].
  - rewrite str_rev_cons in E. rewrite orb_true_iff, !Ascii.eqb_eq. split; [right; eauto|].
    intros [->|(a & d & -> & Hd)]; [by destruct (str_rev r)|]. apply (f_equal str_rev) in E. rewrite !str_rev_app_distr in E. cbn in E. by simplify_eq.
Qed.

Lemma comment_at_spec code comment :
  comment_at code comment
  <-> (exists t, comment = String "#" t) /\ (flags (open_quote code)) = (false, false) /\ after_space code = true.
Proof.
  unfold comment_at. rewrite <- after_space_spec. pose proof (open_quote_quoting code) as Hq.
  assert (open_quote code = None <-> flags (open_quote code) = (false, false)) as ->; [|done].
  by destruct Hq as [-> | [-> | ->]].
Qed.

Lemma split_comment_splits pre s code comment :
  split_comment_from (flags (open_quote pre)).1 (flags (open_quote pre)).2 (after_space pre) s = (code, comment) ->
  (forall a b, pre +:+ s = a +:+ b -> comment_at a b -> len pre <= len a) ->
  splits (pre +:+ s) (pre +:+ code) comment.
Proof.
  revert pre code comment; induction s as [|c s IH]; intros pre code comment.
  - cbn [split_comment_from]. intros [= <- <-] Hmin. rewrite str_app_nil_r in *. split; [by rewrite str_app_nil_r|]. split; [by right|].
    done.
  - cbn [split_comment_from]. destruct (Ascii.eqb c "#" && _ && _ && _) eqn:Ehash.
    { intros [= <- <-] Hmin. rewrite str_app_nil_r. split; [done|]. split; [|done]. left. apply comment_at_spec.
      rewrite !andb_true_iff, !negb_true_iff in Ehash. destruct Ehash as [[[->%Ascii.eqb_eq H1] H2] H3].
      split; [by eexists|]. split; [|done]. by rewrite (surjective_pairing (flags _)), H1, H2. }
    assert (pre +:+ String c s = (pre +:+ String c "") +:+ s) as Eps by (by rewrite str_app_assoc).
    intros Hsplit Hmin. destruct (split_comment_from _ _ _ s) as [code' comment'] eqn:E in Hsplit. simplify_eq.
    replace (pre +:+ String c code') with ((pre +:+ String c "") +:+ code') by (by rewrite str_app_assoc).
    rewrite Eps. apply IH.
    + by rewrite open_quote_snoc, after_space_snoc, flags_step by apply open_quote_quoting.
    + intros a b Eab Hat. rewrite <- Eps in Eab. specialize (Hmin a b Eab Hat). rewrite len_app. change (len (String c "")) with 1.
      destruct (decide (len a = len pre)) as [Hl|]; [|lia]. exfalso.
      assert (a = pre /\ b = String c s) as [-> ->] by (by apply str_app_split).
      apply comment_at_spec in Hat as ([t [= -> Est]] & Hf & Hsp). rewrite Hf, Hsp in Ehash. done.
Qed.
Lemma line_splits line : splits line (split_inline_comment line).1 (split_inline_comment line).2.
Proof.
  destruct (split_inline_comment line) as [code comment] eqn:E. apply (split_comment_splits "" line); [done|].
  intros a b _ _. change (len "") with 0. unfold len. lia.
Qed.

Lemma splits_unique line code comment : splits line code comment -> split_inline_comment line = (code, comment).
Proof.
  pose proof (line_splits line) as H. destruct (split_inline_comment line) as [code' comment']. cbn [fst snd] in H.
  destruct H as (E' & Hat' & Hmin'). intros (E & Hat & Hmin). assert (len code = len code') as Hl.
  { rewrite E in E'. pose proof (f_equal len E') as Hlen. rewrite !len_app in Hlen.
    assert (0 <= len comment /\ 0 <= len comment') as [? ?] by (unfold len; lia).
    destruct Hat as [Hat| ->], Hat' as [Hat'| ->].
    - specialize (Hmin _ _ (eq_trans E E') Hat'). specialize (Hmin' _ _ E Hat). lia.
    - specialize (Hmin' _ _ E Hat). change (len "") with 0 in *. lia.
    - specialize (Hmin _ _ (eq_trans E E') Hat'). change (len "") with 0 in *. lia.
    - change (len "") with 0 in *. lia. }
  rewrite E in E'. by destruct (str_app_split _ _ _ _ E' Hl) as [-> ->].
Qed.

Lemma resolve_line_ok env line out :
  resolve_line env line = Ok out
  <-> exists code comment text, splits line code comment /\ resolves env code text /\ out = text +:+ comment.
Proof.
  unfold resolve_line. split.
  - pose proof (line_splits line) as Hl. destruct (split_inline_comment line) as [code comment].
    destruct (interpolate_line env code) as [text|] eqn:E; [|done]. intros [= <-]. exists code, comment, text.
    by apply interpolate_line_ok in E.
  - intros (code & comment & text & Hl%splits_unique & Hr%interpolate_line_ok & ->). by rewrite Hl, Hr.
Qed.

Lemma resolve_line_err env line e :
  resolve_line env line = Err e <-> exists code comment, splits line code comment /\ fails env code e.
Proof.
  unfold resolve_line. split.
  - pose proof (line_splits line) as Hl. destruct (split_inline_comment line) as [code comment].
    destruct (interpolate_line env code) as [|e'] eqn:E; [done|]. intros [= ->]. exists code, comment.
    by apply interpolate_line_err in E.
  - intros (code & comment & Hl%splits_unique & Hr%interpolate_line_err). by rewrite Hl, Hr.
Qed.

(** *** Blocks, read with the code's tests *)

Lemma indented_spec line c : (exists m, margin line m /\ c < m) <-> c < indent line.
Proof. setoid_rewrite margin_spec. naive_solver. Qed.

Lemma kept_spec before line :
  kept before line
  <-> significant line = false \/ is_env_header line = true \/ is_secret_key line = true
      \/ exists c, block_open before c /\ c < indent line.
Proof. unfold kept. rewrite silent_spec, env_header_spec, secret_key_spec. setoid_rewrite <- indented_spec. naive_solver. Qed.

Lemma block_at_header line before :
  significant line = true -> is_env_header line = true -> block_open (line :: before) (key_column line).
Proof.
  intros Hs [c Hc]%env_header_spec. rewrite (env_header_column _ _ Hc). apply block_header; [|done].
  rewrite silent_spec. congruence.
Qed.

Lemma block_below line before c :
  block_open before c -> (significant line = true -> c < indent line) -> block_open (line :: before) c.
Proof.
  intros Hb Hi. apply block_child; [done|]. rewrite silent_spec, indented_spec. destruct (significant line); auto.
Qed.

Lemma block_open_inv line before c :
  block_open (line :: before) c ->
  (significant line = true /\ is_env_header line = true /\ c = key_column line)
  \/ (block_open before c /\ (significant line = true -> c < indent line)).
Proof.
  intros H. inversion H as [? ? ? Hs Hk|? ? ? Hb Hi]; subst.
  - left. rewrite silent_spec, not_false_iff_true in Hs. split; [done|]. split; [by apply env_header_spec; eauto|].
    symmetry. by apply env_header_column.
  - right. split; [done|]. rewrite silent_spec, indented_spec in Hi. intros Hs. destruct Hi; [congruence|done].
Qed.

(** What the walk knows: the column it holds is one of an open block, and no
    open block has its key further left. *)
Definition tracks (before : list string) (open : option Z) : Prop :=
  (forall c, open = Some c -> block_open before c)
  /\ (forall c, block_open before c -> exists bi, open = Some bi /\ bi <= c).

Lemma tracks_start : tracks [] None.
Proof. split; [done|]. intros c H. inversion H. Qed.

Lemma tracks_insignificant before open line :
  significant line = false -> tracks before open -> tracks (line :: before) open.
Proof.
  intros Hs [Hin Hout]. split.
  - intros c Hc. apply block_below; [auto|congruence].
  - intros c [(? & _ & _)|[? _]]%block_open_inv; [congruence|auto].
Qed.

Lemma tracks_inside before bi line :
  bi < indent line -> tracks before (Some bi) -> tracks (line :: before) (Some bi).
Proof.
  intros Hi [Hin Hout]. split.
  - intros c [= <-]. apply block_below; [auto|done].
  - intros c [(_ & _ & ->)|[? _]]%block_open_inv; [|auto].
    exists bi. split; [done|]. pose proof (key_column_indent line). lia.
Qed.

(** A significant line at or left of the column closes the block. *)
Lemma block_closed before open line c :
  tracks before open -> (bi ← open; if indent line <=? bi then None else Some bi) = None ->
  significant line = true -> block_open before c -> ~ c < indent line.
Proof.
  intros [_ Hout] Hclosed Hs Hb Hlt. destruct (Hout c Hb) as (bi & -> & Hle).
  cbn in Hclosed. destruct (Z.leb_spec (indent line) bi); [lia|done].
Qed.

Lemma tracks_outside before open line :
  tracks before open -> (bi ← open; if indent line <=? bi then None else Some bi) = None ->
  significant line = true ->
  tracks (line :: before) (if is_env_header line then Some (key_column line) else None).
Proof.
  intros Ht Hclosed Hs. split.
  - intros c. destruct (is_env_header line) eqn:Hh; [|done]. intros [= <-]. by apply block_at_header.
  - intros c [(_ & Hh & ->)|[Hb Hlt]]%block_open_inv.
    + rewrite Hh. exists (key_column line). split; [done|lia].
    + exact (False_ind _ (block_closed _ _ line _ Ht Hclosed Hs Hb (Hlt Hs))).
Qed.

(** One step of the walk is one step of the reference. *)
Lemma step_kept env before open line :
  tracks before open -> kept before line ->
  exists open', interpolate_step env open line = Ok (open', line) /\ tracks (line :: before) open'.
Proof.
  intros Ht Hk. rewrite kept_spec in Hk. unfold interpolate_step. destruct (significant line) eqn:Hs; cbn [negb];
    [|exists open; auto using tracks_insignificant].
  destruct (bi ← open; _) as [bi|] eqn:Ho.
  - apply bind_Some in Ho as (b & -> & Hb). destruct (Z.leb_spec (indent line) b); simplify_eq.
    exists (Some bi). auto using tracks_inside.
  - pose proof (tracks_outside _ _ _ Ht Ho Hs) as Ht'.
    destruct (is_env_header line) eqn:Hh; [eauto|]. destruct (is_secret_key line) eqn:Hk'; [eauto|].
    destruct Hk as [?|[?|[?|(c & Hc & Hlt)]]]; try congruence. exact (False_ind _ (block_closed _ _ line _ Ht Ho Hs Hc Hlt)).
Qed.

Lemma step_resolved env before open line :
  tracks before open -> ~ kept before line ->
  interpolate_step env open line = (let? text := resolve_line env line in Ok (None, text))
  /\ tracks (line :: before) None.
Proof.
  intros Ht Hk. rewrite kept_spec in Hk. unfold interpolate_step. destruct (significant line) eqn:Hs; cbn [negb];
    [|by destruct Hk; left].
  destruct (bi ← open; _) as [bi|] eqn:Ho.
  - apply bind_Some in Ho as (b & -> & Hb). destruct (Z.leb_spec (indent line) b); simplify_eq.
    destruct Hk. right; right; right. exists bi. split; [|done]. by apply Ht.
  - pose proof (tracks_outside _ _ _ Ht Ho Hs) as Ht'.
    destruct (is_env_header line) eqn:Hh; [destruct Hk; right; auto|].
    destruct (is_secret_key line) eqn:Hk'; [destruct Hk; right; auto|]. auto.
Qed.

Lemma kept_dec_open before open line :
  tracks before open -> kept before line \/ ~ kept before line.
Proof.
  intros Ht. rewrite kept_spec. destruct (significant line) eqn:Hs; [|by left; left].
  destruct (is_env_header line) eqn:Hh; [by left; right; left|].
  destruct (is_secret_key line) eqn:Hk; [by left; right; right; left|].
  destruct (bi ← open; if indent line <=? bi then None else Some bi) as [bi|] eqn:Ho.
  - apply bind_Some in Ho as (b & -> & Hb). destruct (Z.leb_spec (indent line) b); simplify_eq.
    left; right; right; right. exists bi. split; [by apply Ht|done].
  - right. intros [?|[?|[?|(c & Hc & Hlt)]]]; try congruence. exact (False_ind _ (block_closed _ _ line _ Ht Ho Hs Hc Hlt)).
Qed.

Lemma renders_at env before line rest out :
  renders env before (line :: rest) out ->
  (kept before line /\ exists o, renders env (line :: before) rest o /\ out = line +:+ o)
  \/ (~ kept before line /\ exists text o, resolve_line env line = Ok text /\ renders env (line :: before) rest o /\ out = text +:+ o).
Proof.
  intros H. inversion H as [|? ? ? o Hk Hr|? ? ? code comment text o Hk Hs Hv Hr]; subst; [eauto|].
  right. split; [done|]. exists (text +:+ comment), o. split; [apply resolve_line_ok; eauto 6|]. by rewrite str_app_assoc.
Qed.

Lemma renders_line env before line rest text out :
  ~ kept before line -> resolve_line env line = Ok text -> renders env (line :: before) rest out ->
  renders env before (line :: rest) (text +:+ out).
Proof.
  intros Hk (code & comment & t & Hs & Hv & ->)%resolve_line_ok Hr. rewrite str_app_assoc. by eapply renders_resolved.
Qed.

Lemma breaks_at env before line rest e :
  breaks env before (line :: rest) e ->
  (kept before line /\ breaks env (line :: before) rest e)
  \/ (~ kept before line /\ (resolve_line env line = Err e
        \/ exists text, resolve_line env line = Ok text /\ breaks env (line :: before) rest e)).
Proof.
  intros H. inversion H as [? ? ? code comment ? Hk Hs Hf|? ? ? ? Hk Hb|? ? ? code comment text ? Hk Hs Hv Hb]; subst; [|eauto|].
  - right. split; [done|]. left. apply resolve_line_err. eauto.
  - right. split; [done|]. right. exists (text +:+ comment). split; [apply resolve_line_ok; eauto 6|done].
Qed.

Lemma walk_renders env lines before open out :
  tracks before open ->
  (interpolate_lines env open lines = Ok out <-> renders env before lines out).
Proof.
  revert before open out; induction lines as [|line lines IH]; intros before open out Ht; cbn [interpolate_lines].
  { split; [intros [= <-]; constructor | intros H; by inversion H]. }
  destruct (kept_dec_open _ _ line Ht) as [Hk|Hk].
  - destruct (step_kept env _ _ _ Ht Hk) as (open' & -> & Ht'). cbn [result_bind]. split.
    + intros H. destruct (interpolate_lines env open' lines) as [o|] eqn:E; cbn in H; simplify_eq.
      apply renders_kept; [done|]. by eapply IH.
    + intros [(_ & o & Hr & ->)|[? _]]%renders_at; [|done]. by rewrite (proj2 (IH _ _ o Ht') Hr).
  - destruct (step_resolved env _ _ _ Ht Hk) as [-> Ht']. split.
    + destruct (resolve_line env line) as [text|e] eqn:Er; cbn [result_bind]; [|done]. intros H.
      destruct (interpolate_lines env None lines) as [o|] eqn:E; cbn in H; simplify_eq.
      apply renders_line; [done..|]. by eapply IH.
    + intros [[? _]|(_ & text & o & -> & Hr & ->)]%renders_at; [done|]. cbn [result_bind]. by rewrite (proj2 (IH _ _ o Ht') Hr).
Qed.

Lemma walk_breaks env lines before open e :
  tracks before open ->
  (interpolate_lines env open lines = Err e <-> breaks env before lines e).
Proof.
  revert before open; induction lines as [|line lines IH]; intros before open Ht; cbn [interpolate_lines].
  { split; [done | intros H; by inversion H]. }
  destruct (kept_dec_open _ _ line Ht) as [Hk|Hk].
  - destruct (step_kept env _ _ _ Ht Hk) as (open' & -> & Ht'). cbn [result_bind]. split.
    + intros H. destruct (interpolate_lines env open' lines) as [o|] eqn:E; cbn in H; simplify_eq.
      apply breaks_kept; [done|]. by eapply IH.
    + intros [(_ & Hr)|[? _]]%breaks_at; [|done]. by rewrite (proj2 (IH _ _ Ht') Hr).
  - destruct (step_resolved env _ _ _ Ht Hk) as [-> Ht']. split.
    + destruct (resolve_line env line) as [text|e'] eqn:Er; cbn [result_bind].
      * apply resolve_line_ok in Er as (code & comment & t & Hs & Hv & ->). intros H.
        destruct (interpolate_lines env None lines) as [o|] eqn:E; cbn in H; simplify_eq.
        eapply breaks_resolved; [done..|]. by eapply IH.
      * intros [= ->]. apply resolve_line_err in Er as (code & comment & Hs & Hf). by eapply breaks_here.
    + intros [[? _]|(_ & [-> |(text & -> & Hb)])]%breaks_at; [done|done|]. cbn [result_bind]. by rewrite (proj2 (IH _ _ Ht') Hb).
Qed.

(** ** Properties *)

(** C15. Interpolation resolves exactly the ordinary lines.  The one-pass
    walk gives the text the reference gives, and fails where it does: every
    blank or comment line, every line whose key is [docker-registry-password]
    or [container-env], and every line of a [container-env] block (the lines
    after it indented deeper than its key, whether or not the key follows the
    dash of a list item) comes out as written, whatever the environment
    holds.  On every other line the references before its first comment are
    resolved from left to right, and the comment is as written; the first
    reference there that is nested, missing or not text is the error.  The
    lines are those of the file, in order. *)
Theorem interpolate_keeps_secrets env input :
  let lines := split_inclusive "010" input in
  (forall out, interpolate env input = Ok out <-> renders env [] lines out)
  /\ (forall e, interpolate env input = Err e <-> breaks env [] lines e)
  /\ foldr String.append "" lines = input.
Proof.
  cbn zeta. split; [|split].
  - intros out. apply walk_renders, tracks_start.
  - intros e. apply walk_breaks, tracks_start.
  - apply split_inclusive_concat.
Qed.

Module InterpolationExamples.
Definition nl : string := byte_str [10%N].
Definition text (lines : list string) : string := foldr (fun l acc => l +:+ nl +:+ acc) "" lines.
Definition env (name : string) : EnvVar :=
  if str_eqb name "TAG" then EnvPresent "1.4" else if str_eqb name "PW" then EnvPresent "hunter2" else EnvNotPresent.

Example block_of_a_list_item :
  interpolate env (text ["specs:"; "  - container-env:"; "      TOKEN: ${NOT_SET}"; "    container-image: app:${TAG} # not ${THIS}";
                         "    docker-registry-password: ${PW}"])
  = Ok (text ["specs:"; "  - container-env:"; "      TOKEN: ${NOT_SET}"; "    container-image: app:1.4 # not ${THIS}";
              "    docker-registry-password: ${PW}"]).
Proof. vm_compute. reflexivity. Qed.

(** A quoted key is the same YAML key, but its line is an ordinary one. *)
Example quoted_key_is_resolved :
  interpolate env (String "034" ("docker-registry-password" +:+ String "034" ": ${PW}"))
  = Ok (String "034" ("docker-registry-password" +:+ String "034" ": hunter2")).
Proof. vm_compute. reflexivity. Qed.

Example unset_reference : interpolate env (text ["title: ${MISSING}"]) = Err (ConfigError.MissingEnvVar "MISSING").
Proof. vm_compute. reflexivity. Qed.

Example pure_references :
  map is_pure_env_ref ["${A}"; " ${A} ${B:-x} "; "${A}-secret"; ""; "abc${def"] = [true; true; false; false; false].
Proof. vm_compute. reflexivity. Qed.
End InterpolationExamples.
