(* ===== verification/Validate.v ===== *)
(** * Validate: configuration warnings (ruscker-config: validate.rs, lib.rs)

    [check_spec], [check_hosts], [run] and [scan_raw_text] are the source's
    checks, each giving the warnings it pushes in order; a [HashMap] that is
    iterated gives its entries in the order of [map_to_list].  What the
    warnings promise is stated against the code that uses the values: the
    limits a spawn applies (Docker), the labels it stamps, the hosts the
    cluster connects to (MultiHost).  Parameters: the YAML parser and its
    value type, the time-zone names, the printing of a float. *)

From Corelib Require Import SpecFloat.
From Stdlib Require Import Ascii String ZArith Lia.
From stdpp Require Import base tactics list gmap strings sets fin_maps numbers.
From S2P Require Import Prelude Text Schema Interpolation Core Headers Routing Spawn Bollard Docker Liveness Scaler Runtime MultiHost.

Local Open Scope string_scope.
Local Open Scope list_scope.
Local Open Scope Z_scope.
Local Open Scope ruscker_scope.

(** ** The configuration *)

Module AuthScheme.
Inductive t := None | OpenId | Ldap | Saml | Simple.
#[global] Instance eq_dec : EqDecision t.
Proof. solve_decision. Defined.
(** [format!("{:?}", scheme).to_lowercase()] *)
Definition lower_debug (a : t) : string :=
  match a with None => "none" | OpenId => "openid" | Ldap => "ldap" | Saml => "saml" | Simple => "simple" end.
End AuthScheme.

Module LoggingFile.
Record t := mk { name : option string }.
End LoggingFile.

Module Logging.
Record t := mk { file : option LoggingFile.t }.
End Logging.

(** All but [landing-customization], which only the landing page reads. *)
Module Proxy.
Record t := mk {
  title : string;
  landing_page : string;
  hide_navbar : bool;
  template_path : option string;
  heartbeat_rate : Z;
  heartbeat_timeout : Z;
  container_wait_time : Z;
  shutdown_grace_ms : Z;
  metrics_interval_secs : Z;
  max_body_size : option string;
  container_log_path : option string;
  port : Z;
  bind_address : string;
  authentication : AuthScheme.t;
  specs : list Spec.t;
  metrics_enabled : bool;
  hosts : list Host.t }.
Definition default_proxy : t :=
  mk "Ruscker" "/" false None 10000 3600000 60000 30000 0 None None 8080 "0.0.0.0" AuthScheme.None [] false [].
Definition with_specs (l : list Spec.t) (h : list Host.t) (p : t) : t :=
  mk (title p) (landing_page p) (hide_navbar p) (template_path p) (heartbeat_rate p) (heartbeat_timeout p)
    (container_wait_time p) (shutdown_grace_ms p) (metrics_interval_secs p) (max_body_size p) (container_log_path p)
    (port p) (bind_address p) (authentication p) l (metrics_enabled p) h.
End Proxy.

Module Warning.
Inductive t :=
| DuplicateSpecId (id : string)
| EmptyDisplayName (spec_id : string)
| EmptyDescription (spec_id : string)
| EmbeddedCredential (field : string) (line : Z)
| UnknownTypeProperty (spec_id value : string)
| InvalidReplicaRange (spec_id : string) (min max : Z)
| InvalidScaleThreshold (spec_id : string) (scale_up scale_down : f64)
| SpecLackingContainerHasContainerFields (spec_id : string)
| MfaValidityOutOfRange (spec : string) (days : Z)
| MfaValidityWithoutRequire (spec : string)
| MfaOnExternalSpec (spec : string)
| InvalidRateLimit (spec_id value : string)
| InvalidMaxBodySize (location value : string)
| UnknownTimezone (value : string)
| InvalidCpuLimit (spec_id field value : string)
| InvalidMemoryLimit (spec_id field value : string)
| ZeroSeats (spec_id : string)
| InvalidVolume (spec_id value : string)
| InvalidHost (host reason : string)
| ReplicaCeilingZero (spec_id : string)
| MissingContainerImage (spec_id : string)
| ExternalWithContainerImage (spec_id : string)
| IgnoredCompatField (field : string)
| InvalidLabelKey (spec_id key : string)
| ReservedLabelKey (spec_id key : string)
| InvalidContainerNetwork (spec_id value : string).
End Warning.

Module Config.
Record t := mk {
  server : Server.t;
  proxy : Proxy.t;
  logging : Logging.t;
  raw_warnings : list Warning.t }.
Definition set_raw_warnings (w : list Warning.t) (c : t) : t := mk (server c) (proxy c) (logging c) w.
End Config.

Module Stats.
Record t := mk {
  total_specs : Z;
  by_kind : gmap string Z;
  by_state : gmap string Z;
  by_access : gmap string Z }.
End Stats.

Module ValidationReport.
Record t := mk { warnings : list Warning.t; stats : Stats.t }.
Definition is_clean (r : t) : bool := match warnings r with [] => true | _ => false end.
End ValidationReport.

Definition KNOWN_TYPES : list string := ["app"; "package"; "talk"; "report"; "api"].

(** [if b { warnings.push(w) }] *)
Definition push_if (b : bool) (w : Warning.t) : list Warning.t := if b then [w] else [].

(** [*map.entry(k).or_insert(0) += 1] *)
Definition bump (k : string) (m : gmap string Z) : gmap string Z := <[k := default 0 (m !! k) + 1]> m.

(** ** The raw text *)

Definition SENSITIVE_FIELDS : list string := ["docker-registry-password"; "auth-token"; "api-key"; "secret"].

(** The captures of [SENSITIVE_LINE]: the field and the value, trimmed.  No
    field begins with another, so the first that fits is the only one. *)
Definition sensitive_capture (line : string) : option (string * string) :=
  let body := trim_start line in
  head (omap (fun field =>
    rest ← strip_prefix field body; value ← strip_prefix ":" (trim_start rest); Some (field, trim value))
    SENSITIVE_FIELDS).

(** [trim_matches(|c| c is a quote)] *)
Definition is_quote (c : ascii) : bool := Ascii.eqb c "034" || Ascii.eqb c "'".
Fixpoint trim_start_quotes (s : string) : string :=
  match s with String c rest => if is_quote c then trim_start_quotes rest else s | EmptyString => EmptyString end.
Definition trim_quotes (s : string) : string := str_rev (trim_start_quotes (str_rev (trim_start_quotes s))).

Definition scan_line (idx : Z) (line : string) : list Warning.t :=
  if starts_with "#" (trim_start line) then []
  else match sensitive_capture line with
  | None => []
  | Some (field, value) =>
    let unquoted := trim_quotes value in
    push_if (negb (str_is_empty unquoted || is_pure_env_ref unquoted)) (Warning.EmbeddedCredential field (idx + 1))
  end.

Definition scan_raw_text (raw : string) : list Warning.t :=
  concat (imap (fun i line => scan_line (Z.of_nat i) line) (str_lines raw)).

(** ** Names *)

Definition is_ascii_alphanumeric (c : ascii) : bool := is_ascii_digit c || is_ascii_upper c || is_ascii_lower c.
Definition name_char (c : ascii) : bool :=
  is_ascii_alphanumeric c || existsb (Ascii.eqb c) ["."; "_"; "-"]%char.

Definition is_valid_label_key (key : string) : bool := negb (str_is_empty key) && str_forallb name_char key.

Definition is_reserved_label_key (key : string) : bool := starts_with "ruscker." (to_ascii_lowercase key).

Definition is_valid_network_name (name : string) : bool :=
  match name with
  | String c rest => is_ascii_alphanumeric c && str_forallb name_char rest
  | EmptyString => false
  end.

Definition is_valid_volume_bind (v : string) : bool :=
  let body :=
    match rsplit_once ":" v with
    | Some (hd, mode) => if existsb (str_eqb (trim mode)) ["ro"; "rw"] then hd else v
    | None => v
    end in
  match rsplit_once ":" body with
  | None => false
  | Some (host, container) => negb (str_is_empty (trim host)) && starts_with "/" container
  end.

(** ** Specs *)

Definition blank (o : option string) : bool := match o with Some s => str_is_empty (trim s) | None => true end.
Definition is_external (s : Spec.t) : bool := match Spec.kind s with SpecKind.External => true | _ => false end.
Definition is_some {A} (o : option A) : bool := match o with Some _ => true | None => false end.

Definition f64_one : f64 := f64_of_Z 1.
Definition DEFAULT_SCALE_UP : f64 := f64_of_decimal false 8 (-1).
Definition DEFAULT_SCALE_DOWN : f64 := f64_of_decimal false 3 (-1).

Section Checks.
(** chrono-tz's name table. *)
Context (tz_known : string -> bool).

Definition check_texts (s : Spec.t) : list Warning.t :=
  push_if (blank (Spec.display_name s)) (Warning.EmptyDisplayName (Spec.id s))
  ++ push_if (blank (Spec.description s)) (Warning.EmptyDescription (Spec.id s)).

Definition check_mfa (s : Spec.t) : list Warning.t :=
  match Spec.mfa_validity_days s with
  | Some days =>
    push_if (MAX_MFA_VALIDITY_DAYS <? days) (Warning.MfaValidityOutOfRange (Spec.id s) days)
    ++ push_if (negb (Spec.effective_require_mfa s)) (Warning.MfaValidityWithoutRequire (Spec.id s))
  | None => []
  end
  ++ push_if (Spec.effective_require_mfa s && is_external s) (Warning.MfaOnExternalSpec (Spec.id s)).

Definition check_type (s : Spec.t) : list Warning.t :=
  match TemplateProperties.type_field (Spec.template_properties s) with
  | Some t => push_if (negb (existsb (str_eqb t) KNOWN_TYPES)) (Warning.UnknownTypeProperty (Spec.id s) t)
  | None => []
  end.

Definition check_replicas (s : Spec.t) : list Warning.t :=
  let min := Spec.effective_min_replicas s in
  let max := Spec.effective_max_replicas s in
  push_if (max <? min) (Warning.InvalidReplicaRange (Spec.id s) min max)
  ++ push_if (negb (is_external s) && (max =? 0) && (min <=? max)) (Warning.ReplicaCeilingZero (Spec.id s)).

Definition check_image (s : Spec.t) : list Warning.t :=
  push_if (negb (is_external s) && negb (is_some (Spec.container_image s))) (Warning.MissingContainerImage (Spec.id s))
  ++ push_if (is_external s && is_some (Spec.container_image s)) (Warning.ExternalWithContainerImage (Spec.id s))
  ++ push_if (negb (is_external s) && bool_decide (Spec.seats_per_container s = Some 0)) (Warning.ZeroSeats (Spec.id s)).

Definition check_thresholds (s : Spec.t) : list Warning.t :=
  let up := default DEFAULT_SCALE_UP (Spec.scale_up_threshold s) in
  let down := default DEFAULT_SCALE_DOWN (Spec.scale_down_threshold s) in
  push_if ((is_some (Spec.scale_up_threshold s) || is_some (Spec.scale_down_threshold s))
           && (SFleb up down || f64_ltb f64_one up || f64_ltb down f64_zero))
    (Warning.InvalidScaleThreshold (Spec.id s) up down).

Definition check_container_fields (s : Spec.t) : list Warning.t :=
  push_if (negb (is_some (Spec.container_image s))
           && (is_some (Spec.seats_per_container s) || is_some (Spec.docker_registry_password s)
               || is_some (Spec.max_lifetime s)))
    (Warning.SpecLackingContainerHasContainerFields (Spec.id s)).

Definition check_rate_limit (s : Spec.t) : list Warning.t :=
  match Spec.api s ≫= ApiSpec.rate_limit with
  | Some raw => push_if (negb (is_some (parse_rate_limit raw))) (Warning.InvalidRateLimit (Spec.id s) raw)
  | None => []
  end.

Definition check_body_size (s : Spec.t) : list Warning.t :=
  match Spec.max_body_size s with
  | Some raw => push_if (negb (is_some (Spec.effective_max_body_bytes s None))) (Warning.InvalidMaxBodySize (Spec.id s) raw)
  | None => []
  end.

Definition check_cpu (s : Spec.t) : list Warning.t :=
  concat (map (fun '(field, val) =>
    match val with
    | Some v => push_if (negb (f64_is_finite v && f64_ltb f64_zero v)) (Warning.InvalidCpuLimit (Spec.id s) field (f64_to_string v))
    | None => []
    end) [("limit", Spec.container_cpu_limit s); ("request", Spec.container_cpu_request s)]).

Definition check_memory (s : Spec.t) : list Warning.t :=
  concat (map (fun '(field, raw, parsed) =>
    match raw with
    | Some text => push_if (negb (is_some (parsed : option Z))) (Warning.InvalidMemoryLimit (Spec.id s) field text)
    | None => []
    end) [("limit", Spec.container_memory_limit s, Spec.effective_memory_limit_bytes s);
          ("request", Spec.container_memory_request s, Spec.effective_memory_request_bytes s)]).

Definition check_volumes (s : Spec.t) : list Warning.t :=
  concat (map (fun v => push_if (negb (is_valid_volume_bind v)) (Warning.InvalidVolume (Spec.id s) v))
    (default [] (Spec.volumes s))).

Definition check_label (spec_id key : string) : list Warning.t :=
  let key := trim key in
  if str_is_empty key then []
  else if is_reserved_label_key key then [Warning.ReservedLabelKey spec_id key]
  else push_if (negb (is_valid_label_key key)) (Warning.InvalidLabelKey spec_id key).

Definition check_labels (s : Spec.t) : list Warning.t :=
  concat (map (fun kv => check_label (Spec.id s) kv.1) (default [] (Spec.labels s))).

Definition check_network (s : Spec.t) : list Warning.t :=
  match Spec.effective_container_network s with
  | Some net => push_if (negb (is_valid_network_name net)) (Warning.InvalidContainerNetwork (Spec.id s) net)
  | None => []
  end.

Definition check_spec (s : Spec.t) : list Warning.t :=
  check_texts s ++ check_mfa s ++ check_type s ++ check_replicas s ++ check_image s ++ check_thresholds s
  ++ check_container_fields s ++ check_rate_limit s ++ check_body_size s ++ check_cpu s ++ check_memory s
  ++ check_volumes s ++ check_labels s ++ check_network s.

(** ** Hosts *)

(** [s.split(p).next()]: the text before the first [p]. *)
Fixpoint before_str (p s : string) : string :=
  if starts_with p s then EmptyString
  else match s with EmptyString => EmptyString | String c rest => String c (before_str p rest) end.

Definition host_scheme (addr : string) : option string :=
  let piece := before_str "://" addr in if str_eqb piece addr then None else Some piece.

Definition host_label (i : Z) (host : Host.t) : string :=
  if str_is_empty (trim (Host.id host)) then "#" +:+ show i else Host.id host.

Definition check_host (i : Z) (host : Host.t) : list Warning.t :=
  let label := host_label i host in
  let addr := trim (Host.address host) in
  push_if (str_is_empty (trim (Host.id host))) (Warning.InvalidHost label "empty `id`")
  ++ match host_scheme addr with
     | Some scheme =>
       if existsb (str_eqb scheme) ["ssh"; "http"; "unix"]
       then push_if (is_some (Host.tls host))
              (Warning.InvalidHost label ("`tls` is only used with `tcp://` (address is " +:+ addr +:+ ")"))
       else if str_eqb scheme "tcp"
       then push_if (negb (is_some (Host.tls host)))
              (Warning.InvalidHost label "`tcp://` host needs `tls` (ca/cert/key) for mutual TLS")
       else [Warning.InvalidHost label ("address `" +:+ addr +:+ "` must start with ssh:// , tcp:// , http:// or unix://")]
     | None => [Warning.InvalidHost label ("address `" +:+ addr +:+ "` must start with ssh:// , tcp:// , http:// or unix://")]
     end.

(** The ids counted by [seen], blank ones left out. *)
Definition host_ids (hosts : list Host.t) : list string :=
  List.filter (fun id => negb (str_is_empty (trim id))) (map Host.id hosts).

Definition count_ids (ids : list string) : gmap string Z := foldl (fun m id => bump id m) ∅ ids.

(** [for (id, count) in counts { if count > 1 { .. } }] *)
Definition repeated (counts : gmap string Z) : list string :=
  omap (fun '(id, count) => if 1 <? count then Some id else None) (map_to_list counts).

Definition check_hosts (hosts : list Host.t) : list Warning.t :=
  concat (imap (fun i h => check_host (Z.of_nat i) h) hosts)
  ++ map (fun id => Warning.InvalidHost id "duplicate host id") (repeated (count_ids (host_ids hosts))).

(** ** The whole configuration *)

Definition check_ignored_compat_fields (config : Config.t) : list Warning.t :=
  let ignored field set := push_if set (Warning.IgnoredCompatField field) in
  ignored "server.secure-cookies" (Server.secure_cookies (Config.server config))
  ++ ignored "server.servlet.session.timeout" (is_some (Server.session_timeout_secs (Config.server config)))
  ++ ignored "proxy.heartbeat-rate" (negb (Proxy.heartbeat_rate (Config.proxy config) =? 10000))
  ++ ignored "proxy.hide-navbar" (Proxy.hide_navbar (Config.proxy config))
  ++ ignored "proxy.landing-page" (negb (str_eqb (Proxy.landing_page (Config.proxy config)) "/"))
  ++ ignored "proxy.container-log-path" (is_some (Proxy.container_log_path (Config.proxy config)))
  ++ ignored "logging.file" (is_some (Logging.file (Config.logging config))).

Definition check_global_body_size (config : Config.t) : list Warning.t :=
  match Proxy.max_body_size (Config.proxy config) with
  | Some raw => push_if (negb (is_some (max_body_bytes (Some raw)))) (Warning.InvalidMaxBodySize "proxy" raw)
  | None => []
  end.

Definition check_timezone (config : Config.t) : list Warning.t :=
  match Server.timezone (Config.server config) with
  | Some raw =>
    let named := trim raw in
    push_if (negb (str_is_empty named) && negb (tz_known named)) (Warning.UnknownTimezone named)
  | None => []
  end.

Definition kind_label (k : SpecKind.t) : string :=
  match k with
  | SpecKind.Shiny => "shiny" | SpecKind.InteractiveApp => "interactive"
  | SpecKind.Api => "api" | SpecKind.External => "external"
  end.

Definition collect_stats (config : Config.t) : Stats.t :=
  let specs := Proxy.specs (Config.proxy config) in
  Stats.mk (Z.of_nat (length specs))
    (count_ids (map (fun s => kind_label (Spec.kind s)) specs))
    (count_ids (map (fun s => TemplateProperties.state (Spec.template_properties s)) specs))
    (count_ids (map (fun s => if Spec.is_open s then "open" else "restricted") specs)).

Definition run (config : Config.t) : ValidationReport.t :=
  let specs := Proxy.specs (Config.proxy config) in
  ValidationReport.mk
    (concat (map check_spec specs)
     ++ map Warning.DuplicateSpecId (repeated (count_ids (map Spec.id specs)))
     ++ check_global_body_size config ++ check_timezone config
     ++ check_hosts (Proxy.hosts (Config.proxy config)) ++ check_ignored_compat_fields config)
    (collect_stats config).

(** [Config::validate] *)
Definition validate (config : Config.t) : ValidationReport.t :=
  let report := run config in
  ValidationReport.mk (ValidationReport.warnings report ++ Config.raw_warnings config) (ValidationReport.stats report).
End Checks.

(** [Config::from_yaml]; [parse] is the YAML parser on the resolved text. *)
Inductive LoadError := Yaml (message : string) | Env (e : ConfigError.t).

Definition from_yaml (parse : string -> Result Config.t string) (env : string -> EnvVar) (raw : string)
  : Result Config.t LoadError :=
  let pre_warnings := scan_raw_text raw in
  let? interpolated := result_map_err Env (interpolate env raw) in
  let? config := result_map_err Yaml (parse interpolated) in
  Ok (Config.set_raw_warnings pre_warnings config).

(** ** ShinyProxy features that are not honoured *)

Module CompatWarning.
Inductive t :=
| UnsupportedAuth (scheme : string)
| UnsupportedSpecField (spec_id field note : string)
| UnsupportedProxyField (field note : string).
End CompatWarning.

Definition UNSUPPORTED_SPEC_FIELDS : list (string * string) :=
  [("minimum-seats-available", "pre-warm pool not implemented — use `min-replicas`");
   ("network-connections",
    "multi-network attach is not implemented — map it to the single `container-network` field (Ruscker creates + attaches that one)")].

Definition UNSUPPORTED_PROXY_FIELDS : list (string * string) :=
  [("docker", "global docker config is ignored — rely on daemon defaults or env vars")].

(** serde-yaml's untyped value. *)
Class YamlDocument (V : Type) := {
  yaml_from_str : string -> option V;
  yaml_null : V;
  yaml_is_null : V -> bool;
  yaml_get : V -> string -> option V;
  yaml_as_str : V -> option string;
  yaml_as_sequence : V -> option (list V);
  yaml_keys : V -> option (list V)
}.

Section Compat.
Context {V} `{YamlDocument V}.

(** [v.get(field).is_some_and(|v| !v.is_null())] *)
Definition set_to_value (v : V) (field : string) : bool :=
  match yaml_get v field with Some x => negb (yaml_is_null x) | None => false end.

Definition kubernetes_keys (spec : V) : list string :=
  List.filter (starts_with "kubernetes-") (omap yaml_as_str (default [] (yaml_keys spec))).

Definition compat_spec (spec : V) : list CompatWarning.t :=
  let spec_id := default "<unknown>" (yaml_get spec "id" ≫= yaml_as_str) in
  map (fun key => CompatWarning.UnsupportedSpecField spec_id key "Kubernetes backend is not implemented (phase 6)")
    (kubernetes_keys spec)
  ++ omap (fun '(field, note) => if set_to_value spec field
                                 then Some (CompatWarning.UnsupportedSpecField spec_id field note) else None)
       UNSUPPORTED_SPEC_FIELDS.

Definition compat_scan (config : Config.t) (raw : string) : list CompatWarning.t :=
  let auth := Proxy.authentication (Config.proxy config) in
  (if bool_decide (auth = AuthScheme.None) then [] else [CompatWarning.UnsupportedAuth (AuthScheme.lower_debug auth)])
  ++ match yaml_from_str raw with
     | None => []
     | Some root =>
       let proxy := default yaml_null (yaml_get root "proxy") in
       omap (fun '(field, note) => if set_to_value proxy field
                                   then Some (CompatWarning.UnsupportedProxyField field note) else None)
         UNSUPPORTED_PROXY_FIELDS
       ++ match yaml_get proxy "specs" ≫= yaml_as_sequence with
          | Some specs => concat (map compat_spec specs)
          | None => []
          end
     end.
End Compat.

(** ** Lemmas *)

Lemma push_if_nil b w : push_if b w = [] <-> b = false.
Proof. by destruct b. Qed.

Lemma concat_map_nil {A} (f : A -> list Warning.t) l : concat (map f l) = [] <-> forall x, x ∈ l -> f x = [].
Proof.
  induction l as [|x l IH]; cbn [concat map]; [set_solver|].
  rewrite app_nil, IH. set_solver.
Qed.

Lemma is_some_true {A} (o : option A) : is_some o = true <-> is_Some o.
Proof. destruct o; cbn; split; [eauto|done|done|by intros []]. Qed.

Lemma negb_is_some {A} (o : option A) : negb (is_some o) = false <-> is_Some o.
Proof. by rewrite negb_false_iff, is_some_true. Qed.

#[export] Hint Rewrite push_if_nil @negb_is_some : ruscker_rw.

(** *** A parsed limit *)

Lemma parse_memory_nonneg raw b : parse_memory_string raw = Some b -> 0 <= b.
Proof.
  unfold parse_memory_string. intros H.
  repeat match type of H with
  | (if ?c then _ else _) = _ => destruct c eqn:?; try done
  | match ?x with _ => _ end = _ => destruct x; try done
  end; simplify_eq; by apply Z.leb_le.
Qed.

Lemma parse_rate_limit_positive raw p : parse_rate_limit raw = Some p -> 0 < RatePolicy.max p /\ 0 < RatePolicy.window p.
Proof.
  unfold parse_rate_limit. destruct (split_once "/" raw) as [[count unit]|]; [|done].
  destruct (parse_unsigned u32_max (trim count)) as [max|] eqn:E; [|done]. apply parse_unsigned_range in E.
  destruct (Z.eqb_spec max 0); [done|]. cbn zeta. unfold from_secs.
  repeat (destruct (existsb _ _); [intros [= <-]; cbn; lia|]). done.
Qed.

(** *** What a request carries of its spec *)

Lemma request_options_fields s cmd creds r :
  SpawnRequest.limits (request_options s cmd creds r) = SpawnRequest.limits r
  /\ SpawnRequest.volumes (request_options s cmd creds r) = SpawnRequest.volumes r
  /\ SpawnRequest.labels (request_options s cmd creds r)
     = match Spec.effective_labels s with [] => SpawnRequest.labels r | l => l end.
Proof.
  unfold request_options, apply_opt.
  destruct creds, (Spec.effective_labels s), (Spec.effective_container_network s), cmd, (Spec.platform s),
    (Spec.effective_inner_port s), (Spec.container_wait_time s); auto.
Qed.

Definition request_of (env : Env.t) (s : Spec.t) (req : SpawnRequest.t) : Prop :=
  on_demand_request env s = Ok req \/ capacity_request env s = Ok req.

Lemma request_of_options env s req :
  request_of env s req ->
  exists cmd creds image pairs, req = request_options s cmd creds (base_request s image (limits_from_spec s) pairs).
Proof.
  unfold request_of, on_demand_request, capacity_request. intros Hr.
  destruct (image_of s) as [image|]; cbn [result_bind] in Hr; [|by destruct Hr].
  destruct (resolve_creds env s) as [creds|]; cbn [result_bind] in Hr; [|by destruct Hr].
  destruct (resolved_env env s) as [pairs|]; cbn [result_bind] in Hr; [|by destruct Hr].
  destruct (apply_public_path _ _ _) as [pairs' cmd']. destruct Hr as [[= <-]|[= <-]]; eauto.
Qed.

Lemma request_of_fields env s req :
  request_of env s req ->
  SpawnRequest.limits req = limits_from_spec s /\ SpawnRequest.volumes req = default [] (Spec.volumes s)
  /\ SpawnRequest.labels req = Spec.effective_labels s.
Proof.
  intros (cmd & creds & image & pairs & ->)%request_of_options.
  destruct (request_options_fields s cmd creds (base_request s image (limits_from_spec s) pairs)) as (-> & -> & ->).
  split; [done|]. split; [done|]. by destruct (Spec.effective_labels s).
Qed.

(** *** Labels *)

Definition insert_labels (l : list (string * string)) : gmap string string :=
  foldl (fun labels kv => <[kv.1 := kv.2]> labels) ∅ l.

Lemma insert_labels_snoc l k v : insert_labels (l ++ [(k, v)]) = <[k := v]> (insert_labels l).
Proof. unfold insert_labels. by rewrite foldl_app. Qed.

Lemma insert_labels_only l k v : insert_labels l !! k = Some v -> (k, v) ∈ l.
Proof.
  induction l as [|[k' v'] l IH] using rev_ind; [done|]. rewrite insert_labels_snoc.
  destruct (decide (k = k')) as [->|Hk].
  - rewrite lookup_insert_eq. intros [= ->]. set_solver.
  - rewrite lookup_insert_ne by done. set_solver.
Qed.

Lemma insert_labels_in l k v : NoDup l.*1 -> (k, v) ∈ l -> insert_labels l !! k = Some v.
Proof.
  induction l as [|[k' v'] l IH] using rev_ind; intros Hn Hin; [set_solver|]. rewrite insert_labels_snoc.
  rewrite fmap_app in Hn. apply list.NoDup_app in Hn as (Hn & Hd & _).
  apply elem_of_app in Hin as [Hin|Hin%list_elem_of_singleton]; [|simplify_eq; by rewrite lookup_insert_eq].
  rewrite lookup_insert_ne; [auto|]. intros ->. apply (Hd k); [|set_solver].
  apply list_elem_of_fmap. by exists (k, v).
Qed.

Lemma ruscker_labels_reserved :
  Forall (fun k => is_reserved_label_key k = true) [LABEL_SPEC_ID; LABEL_REPLICA_ID; LABEL_JOB; LABEL_INNER_PORT].
Proof. by repeat constructor. Qed.

Lemma check_label_clean spec_id key :
  check_label spec_id key = [] -> trim key <> "" -> is_reserved_label_key (trim key) = false /\ is_valid_label_key (trim key) = true.
Proof.
  unfold check_label. intros H Hne. destruct (str_is_empty (trim key)) eqn:E; [by destruct (trim key)|].
  destruct (is_reserved_label_key _); [done|]. split; [done|]. apply push_if_nil in H. by apply negb_false_iff.
Qed.

Lemma clean_labels s k v :
  check_labels s = [] -> (k, v) ∈ Spec.effective_labels s ->
  is_reserved_label_key k = false /\ is_valid_label_key k = true.
Proof.
  unfold check_labels, Spec.effective_labels. rewrite concat_map_nil. intros Hc Hin.
  destruct (Spec.labels s) as [m|]; [|set_solver]. cbn in Hc.
  apply list_elem_of_omap in Hin as ([k0 v0] & Hin & Hk). apply Hc in Hin.
  destruct (str_is_empty (trim k0)) eqn:E; simplify_eq. eapply check_label_clean; [done|].
  intros Hk. by rewrite Hk in E.
Qed.

(** A label that is not reserved is on the replica's container as given. *)
Lemma replica_labels_keep req i port k `{!Formats} :
  is_reserved_label_key k = false -> replica_labels req i port !! k = operator_labels req !! k.
Proof.
  intros Hk. unfold replica_labels.
  assert (forall l, is_reserved_label_key l = true -> l <> k) as Hne by congruence.
  by rewrite !lookup_insert_ne by (apply Hne; reflexivity).
Qed.

Lemma unreserved_not k l : is_reserved_label_key k = false -> is_reserved_label_key l = true -> k <> l.
Proof. congruence. Qed.

(** *** Limits on the container *)

Lemma apply_limits_fields h l :
  HostConfig.memory (apply_limits h l)
    = match ResourceLimits.memory_bytes l with Some b => Some b | None => HostConfig.memory h end
  /\ HostConfig.memory_reservation (apply_limits h l)
    = match ResourceLimits.memory_reservation_bytes l with Some b => Some b | None => HostConfig.memory_reservation h end
  /\ HostConfig.cpu_quota (apply_limits h l)
    = match ResourceLimits.cpu_fraction l with
      | Some c => Some (f64_as_i64 (f64_mul c (f64_of_Z CPU_PERIOD_US))) | None => HostConfig.cpu_quota h end.
Proof.
  unfold apply_limits, ResourceLimits.is_empty.
  destruct l as [[|] [|] [|]]; cbn; auto.
Qed.

Lemma replica_limits env s req ip port :
  request_of env s req ->
  HostConfig.memory (replica_host_config ip req port) = Spec.effective_memory_limit_bytes s
  /\ HostConfig.memory_reservation (replica_host_config ip req port) = Spec.effective_memory_request_bytes s
  /\ HostConfig.cpu_quota (replica_host_config ip req port)
     = (c ← Spec.container_cpu_limit s;
        if positive_finite c then Some (f64_as_i64 (f64_mul c (f64_of_Z CPU_PERIOD_US))) else None).
Proof.
  intros (Hl & _ & _)%request_of_fields. unfold replica_host_config. rewrite Hl.
  edestruct apply_limits_fields as (-> & -> & ->). unfold limits_from_spec. cbn.
  split; [by destruct (Spec.effective_memory_limit_bytes s)|].
  split; [by destruct (Spec.effective_memory_request_bytes s)|].
  destruct (Spec.container_cpu_limit s) as [c|]; [|done]. cbn. by destruct (positive_finite c).
Qed.

Lemma check_memory_clean s :
  check_memory s = [] ->
  (forall raw, Spec.container_memory_limit s = Some raw -> is_Some (parse_memory_string raw))
  /\ (forall raw, Spec.container_memory_request s = Some raw -> is_Some (parse_memory_string raw)).
Proof.
  unfold check_memory, Spec.effective_memory_limit_bytes, Spec.effective_memory_request_bytes.
  rewrite concat_map_nil. intros H.
  pose proof (H _ ltac:(left)) as H1. pose proof (H _ ltac:(right; left)) as H2.
  cbn in H1, H2. split; intros raw E; [rewrite E in H1; apply push_if_nil, negb_is_some in H1; done|].
  rewrite E in H2. apply push_if_nil, negb_is_some in H2. done.
Qed.

Lemma check_cpu_clean s c : check_cpu s = [] -> Spec.container_cpu_limit s = Some c -> positive_finite c = true.
Proof.
  unfold check_cpu. rewrite concat_map_nil. intros H E. specialize (H _ ltac:(left)).
  rewrite E in H. by apply push_if_nil, negb_false_iff in H.
Qed.

(** Two floats are ordered one way or the other, or one is not a number. *)
Lemma SFcompare_antisym x y : SFcompare y x = CompOpp <$> SFcompare x y.
Proof.
  destruct x as [b|b| |b m e], y as [b'|b'| |b' m' e']; try destruct b; try destruct b'; cbn; try done;
    rewrite (Z.compare_antisym e e'); destruct (e ?= e'); cbn; try done;
    by rewrite (Pos.compare_cont_antisym m m' Eq); destruct (Pos.compare_cont Eq m m').
Qed.

Lemma SFcompare_None x y : SFcompare x y = None -> x = S754_nan \/ y = S754_nan.
Proof.
  destruct x as [b|b| |b m e], y as [b'|b'| |b' m' e']; try (by left); try (by right);
    try destruct b; try destruct b'; cbn; try done; by destruct (e ?= e').
Qed.

Lemma SFleb_false x y : SFleb x y = false -> x = S754_nan \/ y = S754_nan \/ SFltb y x = true.
Proof.
  unfold SFleb, SFltb. rewrite (SFcompare_antisym x y). destruct (SFcompare x y) as [[]|] eqn:E; cbn; auto.
  intros _. apply SFcompare_None in E as [|]; auto.
Qed.

Lemma SFltb_false x y : SFltb x y = false -> x = S754_nan \/ y = S754_nan \/ SFleb y x = true.
Proof.
  unfold SFleb, SFltb. rewrite (SFcompare_antisym x y). destruct (SFcompare x y) as [[]|] eqn:E; cbn; auto.
  intros _. apply SFcompare_None in E as [|]; auto.
Qed.

(** ** What a clean spec promises *)

Record in_effect `{Formats} (env : Env.t) (s : Spec.t) : Prop := {
  memory_applied raw req ip port : Spec.container_memory_limit s = Some raw -> request_of env s req ->
    exists b, 0 <= b /\ parse_memory_string raw = Some b
      /\ HostConfig.memory (replica_host_config ip req port) = Some b;
  reservation_applied raw req ip port : Spec.container_memory_request s = Some raw -> request_of env s req ->
    exists b, 0 <= b /\ parse_memory_string raw = Some b
      /\ HostConfig.memory_reservation (replica_host_config ip req port) = Some b;
  cpu_applied c req ip port : Spec.container_cpu_limit s = Some c -> request_of env s req ->
    positive_finite c = true
    /\ HostConfig.cpu_quota (replica_host_config ip req port) = Some (f64_as_i64 (f64_mul c (f64_of_Z CPU_PERIOD_US)));
  rate_enforced a raw : Spec.api s = Some a -> ApiSpec.rate_limit a = Some raw ->
    exists p, rate_policy a = Some p /\ 0 < RatePolicy.max p /\ 0 < RatePolicy.window p;
  body_enforced raw global : Spec.max_body_size s = Some raw ->
    exists b, 0 <= b /\ Spec.effective_max_body_bytes s global = Some b;
  labels_stamped req i port k v : request_of env s req -> NoDup (Spec.effective_labels s).*1 ->
    (k, v) ∈ Spec.effective_labels s -> replica_labels req i port !! k = Some v;
  jobs_invisible req : request_of env s req -> Bollard.labelled (job_labels req) = None;
  replicas_ordered : Spec.effective_min_replicas s <= Spec.effective_max_replicas s;
  can_start : Spec.kind s <> SpecKind.External ->
    Spec.effective_max_replicas s <> 0 /\ is_Some (Spec.container_image s) /\ Spec.seats_per_container s <> Some 0;
  thresholds_ordered up down : Spec.scale_up_threshold s = Some up -> Spec.scale_down_threshold s = Some down ->
    up = S754_nan \/ down = S754_nan
    \/ (SFltb down up = true /\ SFleb up f64_one = true /\ SFleb f64_zero down = true)
}.

Lemma is_external_false s : Spec.kind s <> SpecKind.External -> is_external s = false.
Proof. unfold is_external. by destruct (Spec.kind s). Qed.

Lemma check_image_clean s :
  check_image s = [] -> Spec.kind s <> SpecKind.External ->
  is_Some (Spec.container_image s) /\ Spec.seats_per_container s <> Some 0.
Proof.
  unfold check_image. intros H Hk%is_external_false. rewrite Hk in H. cbn in H.
  apply app_nil in H as [H1 H2]. apply push_if_nil, negb_is_some in H1. apply push_if_nil, bool_decide_eq_false in H2. done.
Qed.

Lemma check_replicas_clean s :
  check_replicas s = [] ->
  Spec.effective_min_replicas s <= Spec.effective_max_replicas s
  /\ (Spec.kind s <> SpecKind.External -> Spec.effective_max_replicas s <> 0).
Proof.
  unfold check_replicas. intros [H1 H2]%app_nil. apply push_if_nil, Z.ltb_ge in H1. apply push_if_nil in H2.
  split; [done|]. intros Hk%is_external_false Hz. rewrite Hk, Hz in H2. cbn in H2. apply Z.leb_gt in H2. lia.
Qed.

Lemma job_labels_clean `{!Formats} env s req :
  check_labels s = [] -> request_of env s req -> Bollard.labelled (job_labels req) = None.
Proof.
  intros Hc (_ & _ & Hl)%request_of_fields. rewrite job_labelled.
  destruct (operator_labels req !! LABEL_REPLICA_ID) as [v|] eqn:E; [|done]. exfalso.
  change (operator_labels req) with (insert_labels (SpawnRequest.labels req)) in E. rewrite Hl in E.
  apply insert_labels_only in E. by apply (clean_labels _ _ _ Hc) in E as [E _].
Qed.

Lemma stamped_labels_clean `{!Formats} env s req i port k v :
  check_labels s = [] -> request_of env s req -> NoDup (Spec.effective_labels s).*1 ->
  (k, v) ∈ Spec.effective_labels s -> replica_labels req i port !! k = Some v.
Proof.
  intros Hc (_ & _ & Hl)%request_of_fields Hn Hin.
  rewrite replica_labels_keep by apply (clean_labels _ _ _ Hc Hin).
  change (operator_labels req) with (insert_labels (SpawnRequest.labels req)). rewrite Hl. by apply insert_labels_in.
Qed.

Lemma check_spec_clean s :
  check_spec s = [] ->
  check_replicas s = [] /\ check_image s = [] /\ check_thresholds s = [] /\ check_rate_limit s = []
  /\ check_body_size s = [] /\ check_cpu s = [] /\ check_memory s = [] /\ check_labels s = [].
Proof. unfold check_spec. rewrite !app_nil. tauto. Qed.

(** A spec that validates without a warning gets everything it asks
    for.  On the container of every replica spawned for it, on demand or by
    the scaler, its memory limit, memory reservation and CPU limit are set to
    the amounts written and every label is stamped with the value given; its
    jobs are never taken for replicas; its rate limit and body limit parse to
    caps that are enforced; its replica range is not empty, and a
    containerized app has an image, a seat and room for a replica; its scale
    thresholds are [0 <= down < up <= 1], unless one is not a number, which
    no check refuses. *)
Lemma spec_in_effect `{Formats} env s :
  check_spec s = [] -> in_effect env s.
Proof.
  intros (Hr & Hi & Ht & Hrl & Hb & Hc & Hm & Hl)%check_spec_clean.
  destruct (check_memory_clean _ Hm) as [Hlim Hreq]. destruct (check_replicas_clean _ Hr) as [Hmm Hpos].
  split; eauto using job_labels_clean, stamped_labels_clean.
  - intros raw req ip port E (-> & _ & _)%(replica_limits _ _ _ ip port). unfold Spec.effective_memory_limit_bytes.
    rewrite E. destruct (Hlim _ E) as [b Eb]. exists b. cbn. eauto using parse_memory_nonneg.
  - intros raw req ip port E (_ & -> & _)%(replica_limits _ _ _ ip port). unfold Spec.effective_memory_request_bytes.
    rewrite E. destruct (Hreq _ E) as [b Eb]. exists b. cbn. eauto using parse_memory_nonneg.
  - intros c req ip port E (_ & _ & ->)%(replica_limits _ _ _ ip port). rewrite E. cbn.
    pose proof (check_cpu_clean _ _ Hc E) as ->. done.
  - intros a raw Ea E. unfold check_rate_limit in Hrl. rewrite Ea in Hrl. cbn in Hrl. rewrite E in Hrl.
    apply push_if_nil, negb_is_some in Hrl as [p Hp]. exists p. unfold rate_policy. rewrite E.
    split; [done|]. by apply parse_rate_limit_positive in Hp.
  - intros raw g E. unfold check_body_size in Hb. rewrite E in Hb. apply push_if_nil, negb_is_some in Hb as [b Eb].
    unfold Spec.effective_max_body_bytes in *. rewrite E in *. cbn in *.
    destruct (parse_memory_string raw) as [b'|] eqn:Ep; [|done]. exists b'. eauto using parse_memory_nonneg.
  - intros Hk. split; [auto|]. by apply check_image_clean.
  - intros up down Eu Ed. unfold check_thresholds, f64_ltb in Ht. rewrite Eu, Ed in Ht. cbn in Ht.
    apply push_if_nil in Ht as [[Hud%SFleb_false Hu%SFltb_false]%orb_false_iff Hd%SFltb_false]%orb_false_iff.
    unfold f64_one, f64_zero in *. naive_solver congruence.
Qed.

(** *** Repeated names *)

Definition occurrences (id : string) (ids : list string) : Z := Z.of_nat (length (List.filter (str_eqb id) ids)).

Lemma occurrences_snoc id ids x :
  occurrences id (ids ++ [x]) = occurrences id ids + (if str_eqb id x then 1 else 0).
Proof.
  unfold occurrences. rewrite List.filter_app, length_app. cbn [List.filter].
  destruct (str_eqb id x); cbn [length]; lia.
Qed.

Lemma count_ids_lookup ids id :
  count_ids ids !! id = if 0 <? occurrences id ids then Some (occurrences id ids) else None.
Proof.
  induction ids as [|x ids IH] using rev_ind; [done|]. unfold count_ids in *.
  rewrite foldl_app. cbn [foldl]. unfold bump at 1. rewrite occurrences_snoc.
  assert (0 <= occurrences id ids) by (unfold occurrences; lia).
  destruct (str_eqb_spec id x) as [->|Hne].
  - rewrite lookup_insert_eq, IH. destruct (Z.ltb_spec 0 (occurrences x ids)), (Z.ltb_spec 0 (occurrences x ids + 1));
      cbn; first [f_equal; lia | lia].
  - rewrite lookup_insert_ne by congruence. by rewrite IH, Z.add_0_r.
Qed.

Lemma elem_of_repeated ids id : id ∈ repeated (count_ids ids) <-> 2 <= occurrences id ids.
Proof.
  unfold repeated. rewrite list_elem_of_omap. split.
  - intros ([id' n] & Hin & Hid). apply elem_of_map_to_list in Hin.
    rewrite count_ids_lookup in Hin. destruct (Z.ltb_spec 1 n); simplify_eq.
    destruct (_ <? _); simplify_eq. lia.
  - intros Hn. exists (id, occurrences id ids). rewrite elem_of_map_to_list, count_ids_lookup.
    destruct (Z.ltb_spec 0 (occurrences id ids)); [|lia]. split; [done|]. destruct (Z.ltb_spec 1 (occurrences id ids)); [done|lia].
Qed.

Lemma occurrences_pos id ids : 1 <= occurrences id ids <-> id ∈ ids.
Proof.
  unfold occurrences. induction ids as [|x ids IH]; cbn [List.filter length]; [set_solver by lia|].
  rewrite elem_of_cons. destruct (str_eqb_spec id x); cbn [length]; [|rewrite IH; naive_solver]. split; [auto|lia].
Qed.

Lemma NoDup_occurrences ids : NoDup ids <-> forall id, occurrences id ids <= 1.
Proof.
  induction ids as [|x ids IH].
  - split; [intros _ id; cbn; unfold occurrences; cbn; lia|constructor].
  - rewrite list.NoDup_cons, IH. unfold occurrences in *. cbn [List.filter]. split.
    + intros [Hx Hn] id. specialize (Hn id). destruct (str_eqb_spec id x) as [->|]; cbn [length]; [|done].
      rewrite <- occurrences_pos in Hx. unfold occurrences in Hx. lia.
    + intros Hn. split.
      * rewrite <- occurrences_pos. specialize (Hn x). rewrite str_eqb_refl in Hn. unfold occurrences. cbn [length] in Hn. lia.
      * intros id. specialize (Hn id). destruct (str_eqb id x); cbn [length] in Hn; lia.
Qed.

Lemma repeated_nil ids : repeated (count_ids ids) = [] <-> NoDup ids.
Proof.
  rewrite NoDup_occurrences. split.
  - intros H id. destruct (Z.le_gt_cases (occurrences id ids) 1) as [|Hgt]; [done|]. exfalso.
    assert (id ∈ repeated (count_ids ids)) as Hin by (apply elem_of_repeated; lia). rewrite H in Hin. set_solver.
  - intros H. destruct (repeated (count_ids ids)) as [|id l] eqn:E; [done|]. exfalso.
    assert (id ∈ repeated (count_ids ids)) as Hin%elem_of_repeated by (rewrite E; left). specialize (H id). lia.
Qed.

(** *** Addresses *)

Lemma before_str_rest p s : s = before_str p s +:+ "" \/ exists r, s = before_str p s +:+ p +:+ r.
Proof.
  induction s as [|c s IH]; cbn [before_str].
  - destruct (starts_with p "") eqn:E; [|by left]. right. apply starts_with_spec in E as [r E]. by exists r.
  - destruct (starts_with p (String c s)) eqn:E.
    + right. apply starts_with_spec in E as [r E]. by exists r.
    + destruct IH as [IH|[r IH]].
      * left. change (String c s = String c (before_str p s +:+ "")). by rewrite <- IH.
      * right. exists r. change (String c s = String c (before_str p s +:+ p +:+ r)). by rewrite <- IH.
Qed.

Lemma host_scheme_prefix addr scheme :
  host_scheme addr = Some scheme -> starts_with (scheme +:+ "://") addr = true.
Proof.
  unfold host_scheme. destruct (str_eqb_spec (before_str "://" addr) addr) as [|Hne]; [done|]. intros [= <-].
  apply starts_with_spec. destruct (before_str_rest "://" addr) as [E|[r E]].
  - rewrite str_app_nil_r in E. by destruct Hne.
  - exists r. by rewrite str_app_assoc.
Qed.

Lemma app_ne_self a c b : a +:+ String c b <> a.
Proof. intros H. apply (f_equal String.length) in H. rewrite str_length_app in H. cbn in H. lia. Qed.

(** The source's two readings of an address agree on the four schemes. *)
Lemma host_scheme_iff addr scheme :
  scheme ∈ ["ssh"; "http"; "unix"; "tcp"] ->
  host_scheme addr = Some scheme <-> starts_with (scheme +:+ "://") addr = true.
Proof.
  intros Hs. split; [apply host_scheme_prefix|]. intros [r ->]%starts_with_spec.
  unfold host_scheme.
  assert (before_str "://" ((scheme +:+ "://") +:+ r) = scheme) as E
    by (set_unfold in Hs; destruct Hs as [-> | [-> | [-> | [-> | []]]]]; reflexivity).
  rewrite E. destruct (str_eqb_spec scheme ((scheme +:+ "://") +:+ r)) as [Heq|]; [|done].
  rewrite str_app_assoc in Heq. by destruct (app_ne_self scheme ":" ("//" +:+ r)).
Qed.

(** *** Hosts *)

(** What the cluster needs of a host entry. *)
Definition host_ok (h : Host.t) : Prop :=
  trim (Host.id h) <> "" /\ host_config_error h = None
  /\ (is_Some (Host.tls h) <-> starts_with "tcp://" (trim (Host.address h)) = true).

Lemma str_is_empty_false s : str_is_empty s = false <-> s <> "".
Proof. by destruct s. Qed.

Lemma starts_with_scheme addr :
  starts_with "ssh://" addr = bool_decide (host_scheme addr = Some "ssh")
  /\ starts_with "http://" addr = bool_decide (host_scheme addr = Some "http")
  /\ starts_with "unix://" addr = bool_decide (host_scheme addr = Some "unix")
  /\ starts_with "tcp://" addr = bool_decide (host_scheme addr = Some "tcp").
Proof.
  assert (forall scheme, scheme ∈ ["ssh"; "http"; "unix"; "tcp"] ->
    starts_with (scheme +:+ "://") addr = bool_decide (host_scheme addr = Some scheme)) as Hs.
  { intros scheme Hin%(host_scheme_iff addr). case_bool_decide; [by apply Hin|]. apply not_true_iff_false. by rewrite <- Hin. }
  split; [apply (Hs "ssh")|split; [apply (Hs "http")|split; [apply (Hs "unix")|apply (Hs "tcp")]]]; set_solver.
Qed.

Lemma check_host_ok i h : check_host i h = [] <-> host_ok h.
Proof.
  unfold check_host, host_ok, host_config_error. rewrite app_nil, push_if_nil, str_is_empty_false.
  apply and_iff_compat_l. destruct (starts_with_scheme (trim (Host.address h))) as (-> & -> & -> & ->).
  destruct (host_scheme (trim (Host.address h))) as [scheme|]; [|cbn; naive_solver].
  cbn [existsb]. destruct (str_eqb_spec scheme "ssh"), (str_eqb_spec scheme "http"), (str_eqb_spec scheme "unix"),
    (str_eqb_spec scheme "tcp"); subst; try done; repeat case_bool_decide; simplify_eq;
    cbn; rewrite ?push_if_nil; destruct (Host.tls h); cbn; unfold is_Some; naive_solver.
Qed.

Lemma imap_checks_nil (hosts : list Host.t) j :
  concat (imap (fun i h => check_host (Z.of_nat (j + i)) h) hosts) = [] <-> forall h, h ∈ hosts -> host_ok h.
Proof.
  revert j; induction hosts as [|h hosts IH]; intros j; cbn [imap concat]; [set_solver|].
  rewrite app_nil, check_host_ok. specialize (IH (S j)).
  rewrite (imap_ext _ (fun i h => check_host (Z.of_nat (S j + i)) h)) by (intros; cbn; f_equal; lia).
  rewrite IH. set_solver.
Qed.

Lemma host_ids_all hosts : (forall h, h ∈ hosts -> host_ok h) -> host_ids hosts = map Host.id hosts.
Proof.
  unfold host_ids. induction hosts as [|h hosts IH]; intros Hok; [done|]. cbn [map List.filter].
  destruct (Hok h) as (Hne & _); [left|]. apply str_is_empty_false in Hne. rewrite Hne. cbn [negb].
  rewrite IH; [done|]. intros h' Hin. apply Hok. by right.
Qed.

Lemma check_hosts_iff hosts :
  check_hosts hosts = [] <-> (forall h, h ∈ hosts -> host_ok h) /\ NoDup (map Host.id hosts).
Proof.
  unfold check_hosts. rewrite app_nil, (imap_checks_nil hosts 0). split.
  - intros [Hok Hd]. split; [done|]. apply map_eq_nil in Hd. rewrite host_ids_all in Hd by done. by apply repeated_nil.
  - intros [Hok Hn]. split; [done|]. rewrite host_ids_all by done. apply repeated_nil in Hn. by rewrite Hn.
Qed.

Lemma host_ok_connects {H} (connect_host : Host.t -> CoreResult H) hosts h b :
  (forall h, h ∈ hosts -> host_ok h) -> h ∈ hosts -> connect_host h = Ok b ->
  exists c, connect connect_host hosts = Ok c /\ omap (connected connect_host) hosts = MultiHostDockerBackend.hosts c.
Proof.
  intros Hok Hin Hb. unfold connect. destruct hosts as [|h0 hosts]; [set_solver|].
  assert (omap host_config_error (h0 :: hosts) = []) as Hnil.
  { destruct (omap host_config_error (h0 :: hosts)) as [|m l] eqn:E; [done|]. exfalso.
    assert (m ∈ omap host_config_error (h0 :: hosts)) as Hm by (rewrite E; left).
    apply list_elem_of_omap in Hm as (x & Hx & Hm). destruct (Hok _ Hx) as (_ & Hx' & _). congruence. }
  rewrite Hnil. cbn [head].
  destruct (omap (connected connect_host) (h0 :: hosts)) as [|e l] eqn:E; [|eauto]. exfalso.
  assert (exists e, e ∈ omap (connected connect_host) (h0 :: hosts)) as [e He]; [|rewrite E in He; set_solver].
  eexists. apply list_elem_of_omap. exists h. split; [done|]. unfold connected. by rewrite Hb.
Qed.

(** *** The raw text *)

Lemma from_yaml_warnings parse vars raw config :
  from_yaml parse vars raw = Ok config -> Config.raw_warnings config = scan_raw_text raw.
Proof.
  unfold from_yaml. destruct (interpolate vars raw) as [text|]; cbn; [|done].
  destruct (parse text) as [c|]; cbn; [|done]. by intros [= <-].
Qed.

Lemma concat_imap_nil {A} (f : nat -> A -> list Warning.t) l x :
  concat (imap f l) = [] -> x ∈ l -> exists i, f i x = [].
Proof.
  revert f; induction l as [|y l IH]; intros f; cbn [imap concat]; [set_solver|].
  intros [Hy Hl]%app_nil [->|Hin]%elem_of_cons; [eauto|]. destruct (IH _ Hl Hin) as [i Hi]. by exists (S i).
Qed.

(** ** Properties *)

(** The host checks are exact: no warning is pushed exactly when the
    ids are distinct and not blank, every address is one the cluster connects
    to ([host_config_error] refuses none), and TLS material is given exactly
    for the [tcp://] addresses. *)
Theorem check_hosts_exact hosts :
  check_hosts hosts = [] <->
  NoDup (map Host.id hosts)
  /\ forall h, h ∈ hosts ->
       trim (Host.id h) <> "" /\ host_config_error h = None
       /\ (is_Some (Host.tls h) <-> starts_with "tcp://" (trim (Host.address h)) = true).
Proof. rewrite check_hosts_iff. unfold host_ok. tauto. Qed.

(** ** Concrete configurations *)

Module ValidateExamples.

(** The fields the examples set, over the spec of an app of that id. *)
Definition spec (i : string) (memory : option string) (cpu up down : option f64) (l : list (string * string)) : Spec.t := {|
  Spec.id := i; Spec.display_name := Some "App"; Spec.description := Some "An app"; Spec.featured := None;
  Spec.container_image := Some "acme/app:1"; Spec.container_port := None; Spec.platform := None;
  Spec.seats_per_container := None; Spec.max_lifetime := None; Spec.container_lifetime := None;
  Spec.heartbeat_timeout := None; Spec.container_wait_time := None; Spec.stop_on_logout := None;
  Spec.docker_registry_username := None; Spec.docker_registry_password := None; Spec.docker_registry_domain := None;
  Spec.docker_registry_credential := None; Spec.container_cpu_limit := cpu; Spec.container_cpu_request := None;
  Spec.container_memory_limit := memory; Spec.container_memory_request := None; Spec.max_body_size := Some "10m";
  Spec.volumes := Some ["/srv/a:b:/data:ro"]; Spec.container_env := None; Spec.container_cmd := None;
  Spec.container_network := Some "apps_net"; Spec.labels := Some l; Spec.access_groups := None;
  Spec.access_users := None; Spec.require_mfa := Some true; Spec.mfa_validity_days := Some 30;
  Spec.add_default_http_headers := None; Spec.identity_claims := None; Spec.template_properties := ∅;
  Spec.kind_override := None;
  Spec.api := Some (ApiSpec.mk None None None (Some "100/min") false);
  Spec.min_replicas := Some 1; Spec.max_replicas := Some 3; Spec.scale_up_threshold := up;
  Spec.scale_down_threshold := down; Spec.scale_down_grace := None; Spec.scale_down_cooldown_secs := None;
  Spec.drain_timeout := None; Spec.routing_strategy := None; Spec.concurrent_requests_per_replica := None;
  Spec.placement := None; Spec.anti_affinity := None; Spec.inject_base_href := None |}.

Definition half : f64 := f64_of_decimal false 5 (-1).
Definition tenth : f64 := f64_of_decimal false 1 (-1).
Definition app : Spec.t := spec "app" (Some "512m") (Some half) (Some half) (Some tenth) [("com.acme.team", "data")].

Definition tls : HostTls.t := HostTls.mk "ca.pem" "cert.pem" "key.pem".
Definition hosts : list Host.t :=
  [Host.mk "a" "ssh://ops@10.0.0.1" None None None; Host.mk "b" " tcp://10.0.0.2:2376 " (Some tls) None None].

Definition server (tz : option string) : Server.t := Server.mk false None false None None None None tz.
Definition config (specs : list Spec.t) (hosts : list Host.t) : Config.t :=
  Config.mk (server (Some "America/Recife")) (Proxy.with_specs specs hosts Proxy.default_proxy) (Logging.mk None) [].
Definition tz_known (name : string) : bool := str_eqb name "America/Recife".
Definition warnings (c : Config.t) : list Warning.t := ValidationReport.warnings (validate tz_known c).

(** A positive CPU limit below one hundred-thousandth of a CPU validates and
    gives a quota of 0. *)
Definition dust : f64 := f64_of_decimal false 1 (-6).
Example dust_cpu_limit :
  check_cpu (spec "app" None (Some dust) None None []) = []
  /\ f64_as_i64 (f64_mul dust (f64_of_Z CPU_PERIOD_US)) = 0.
Proof. vm_compute. auto. Qed.

(** Thresholds that are not numbers pass the check. *)
Example nan_thresholds : warnings (config [spec "app" None None (Some S754_nan) (Some S754_nan) []] []) = [].
Proof. vm_compute. reflexivity. Qed.

Example binds :
  map is_valid_volume_bind ["/srv/data:/data"; "/srv/a:b:/data:ro"; "not-a-bind"; "/host:relative"; ":/data"]
  = [true; true; false; false; false].
Proof. vm_compute. reflexivity. Qed.

Example reserved_and_invalid_labels :
  check_labels (spec "app" None None None None [("Ruscker.job", "x"); ("a b", "y"); (" ", "z")])
  = [Warning.ReservedLabelKey "app" "Ruscker.job"; Warning.InvalidLabelKey "app" "a b"].
Proof. vm_compute. reflexivity. Qed.

Example duplicates_and_hosts :
  warnings (config [app; app] [Host.mk "h" "tcp://1.2.3.4:1" None None None; Host.mk "h" "unix:///s" (Some tls) None None; Host.mk " " "ftp://x" None None None])
  = [Warning.DuplicateSpecId "app";
     Warning.InvalidHost "h" "`tcp://` host needs `tls` (ca/cert/key) for mutual TLS";
     Warning.InvalidHost "h" "`tls` is only used with `tcp://` (address is unix:///s)";
     Warning.InvalidHost "#2" "empty `id`";
     Warning.InvalidHost "#2" "address `ftp://x` must start with ssh:// , tcp:// , http:// or unix://";
     Warning.InvalidHost "h" "duplicate host id"].
Proof. vm_compute. reflexivity. Qed.

Example credentials_in_the_text :
  scan_raw_text (InterpolationExamples.text
    ["# api-key: not-flagged"; "  secret: hunter2"; "  docker-registry-password: ${PW}"; "api-key: '${A}-tail'"; "auth-token:  "])
  = [Warning.EmbeddedCredential "secret" 2; Warning.EmbeddedCredential "api-key" 4].
Proof. vm_compute. reflexivity. Qed.
End ValidateExamples.
