(* ===== verification/WellFormed.v ===== *)
(** * WellFormed: what a configuration without warnings is

    The conditions on a configuration, written out on its fields and on its
    text with the literal names, ranges and grammars, without the functions of
    [Validate]: [spec_ok] for one spec, [host_fits] for one host,
    [well_formed] for the whole, [no_literal_secret] for the text.  The lemmas
    show, check by check, that nothing is pushed exactly when the condition
    holds. *)

From Corelib Require Import SpecFloat.
From Stdlib Require Import Ascii String ZArith Lia.
From stdpp Require Import base tactics list gmap strings sets fin_maps numbers.
From S2P Require Import Prelude Text Schema References Interpolation Core Headers Routing Spawn Bollard Docker Liveness Scaler Runtime MultiHost Validate.

Local Open Scope string_scope.
Local Open Scope list_scope.
Local Open Scope Z_scope.
Local Open Scope ruscker_scope.

(** ** The conditions *)

Definition says_something (o : option string) : Prop := exists text, o = Some text /\ trim text <> "".

Definition name_characters : list ascii :=
  list_ascii_of_string "ABCDEFGHIJKLMNOPQRSTUVWXYZabcdefghijklmnopqrstuvwxyz0123456789".

(** [host:container] or [host:container:mode], the container path absolute. *)
Inductive bind : string -> Prop :=
| bind_plain host path :
    trim host <> "" -> str_contains_char ":" path = false -> bind (host +:+ ":/" +:+ path)
| bind_mode host path w mode w' :
    trim host <> "" -> str_contains_char ":" path = false ->
    References.blank w -> References.blank w' -> mode ∈ ["ro"; "rw"] ->
    bind (host +:+ ":/" +:+ path +:+ ":" +:+ w +:+ mode +:+ w').

(** A key that is left out, or one of letters, digits, dots, dashes and
    underscores outside the [ruscker.] name space, whatever the case. *)
Definition label_fits (key : string) : Prop :=
  trim key = ""
  \/ ((forall c, c ∈ list_ascii_of_string (trim key) -> c ∈ name_characters \/ c ∈ ["."; "_"; "-"]%char)
      /\ ~ exists p r, trim key = p +:+ r /\ to_ascii_lowercase p = "ruscker.").

(** A name Docker takes: a letter or digit first. *)
Definition network_fits (name : string) : Prop :=
  trim name = ""
  \/ exists c rest, trim name = String c rest /\ c ∈ name_characters
       /\ forall d, d ∈ list_ascii_of_string rest -> d ∈ name_characters \/ d ∈ ["."; "_"; "-"]%char.

(** 0.8, 0.3, 1 and 0. *)
Definition four_fifths : f64 := S754_finite false 7205759403792794 (-53).
Definition three_tenths : f64 := S754_finite false 5404319552844595 (-54).
Definition one : f64 := S754_finite false 4503599627370496 (-52).

Record spec_ok (s : Spec.t) : Prop := {
  has_name : says_something (Spec.display_name s);
  has_description : says_something (Spec.description s);
  mfa_window days : Spec.mfa_validity_days s = Some days -> days <= 30 /\ Spec.require_mfa s = Some true;
  mfa_guards_a_container : Spec.require_mfa s = Some true -> Spec.kind s <> SpecKind.External;
  known_type name : Spec.template_properties s !! "type" = Some (YamlString name) ->
    name ∈ ["app"; "package"; "talk"; "report"; "api"];
  replica_range max :
    Spec.max_replicas s = Some max \/ (Spec.max_replicas s = None /\ Spec.kind s = SpecKind.External /\ max = 0) ->
    default 0 (Spec.min_replicas s) <= max;
  replica_room : Spec.kind s <> SpecKind.External -> Spec.max_replicas s <> Some 0;
  container_runs : Spec.kind s <> SpecKind.External ->
    is_Some (Spec.container_image s) /\ Spec.seats_per_container s <> Some 0;
  external_runs_nothing : Spec.kind s = SpecKind.External -> Spec.container_image s = None;
  no_stray_fields : Spec.container_image s = None ->
    Spec.seats_per_container s = None /\ Spec.docker_registry_password s = None /\ Spec.max_lifetime s = None;
  threshold_range : is_Some (Spec.scale_up_threshold s) \/ is_Some (Spec.scale_down_threshold s) ->
    let up := default four_fifths (Spec.scale_up_threshold s) in
    let down := default three_tenths (Spec.scale_down_threshold s) in
    SFleb up down = false /\ SFltb one up = false /\ SFltb down (S754_zero false) = false;
  rate_reads a raw : Spec.api s = Some a -> ApiSpec.rate_limit a = Some raw -> is_Some (parse_rate_limit raw);
  body_reads raw : Spec.max_body_size s = Some raw -> is_Some (parse_memory_string raw);
  cpu_positive c : Spec.container_cpu_limit s = Some c \/ Spec.container_cpu_request s = Some c ->
    exists m e, c = S754_finite false m e;
  memory_reads raw : Spec.container_memory_limit s = Some raw \/ Spec.container_memory_request s = Some raw ->
    is_Some (parse_memory_string raw);
  binds_fit vs v : Spec.volumes s = Some vs -> v ∈ vs -> bind v;
  labels_fit l k v : Spec.labels s = Some l -> (k, v) ∈ l -> label_fits k;
  network_ok name : Spec.container_network s = Some name -> network_fits name
}.

(** A name of its own, and TLS files exactly for the addresses over TLS. *)
Definition host_fits (h : Host.t) : Prop :=
  trim (Host.id h) <> ""
  /\ exists scheme rest, trim (Host.address h) = scheme +:+ "://" +:+ rest
       /\ ((scheme = "tcp" /\ is_Some (Host.tls h)) \/ (scheme ∈ ["ssh"; "http"; "unix"] /\ Host.tls h = None)).

Record well_formed (tz_known : string -> bool) (c : Config.t) : Prop := {
  specs_ok s : s ∈ Proxy.specs (Config.proxy c) -> spec_ok s;
  spec_ids : NoDup (map Spec.id (Proxy.specs (Config.proxy c)));
  global_body raw : Proxy.max_body_size (Config.proxy c) = Some raw -> is_Some (parse_memory_string raw);
  zone_known raw : Server.timezone (Config.server c) = Some raw -> trim raw = "" \/ tz_known (trim raw) = true;
  hosts_fit h : h ∈ Proxy.hosts (Config.proxy c) -> host_fits h;
  host_names : NoDup (map Host.id (Proxy.hosts (Config.proxy c)));
  cookies_default : Server.secure_cookies (Config.server c) = false;
  timeout_default : Server.session_timeout_secs (Config.server c) = None;
  heartbeat_default : Proxy.heartbeat_rate (Config.proxy c) = 10000;
  navbar_default : Proxy.hide_navbar (Config.proxy c) = false;
  landing_default : Proxy.landing_page (Config.proxy c) = "/";
  log_path_default : Proxy.container_log_path (Config.proxy c) = None;
  log_file_default : Logging.file (Config.logging c) = None
}.

(** The line sets one of the secret keys to the text. *)
Definition sets (line field value : string) : Prop :=
  field ∈ ["docker-registry-password"; "auth-token"; "api-key"; "secret"]
  /\ exists w w', References.blank w /\ References.blank w' /\ line = w +:+ field +:+ w' +:+ ":" +:+ value.

Definition quotes : list string := ["'"; String "034" ""].

(** The value without white space and then without quotes at its ends. *)
Definition bare (value text : string) : Prop :=
  exists l r, pieces quotes l /\ pieces quotes r /\ trim value = l +:+ text +:+ r
    /\ (forall q rest, q ∈ quotes -> text <> q +:+ rest /\ text <> rest +:+ q).

(** Every secret of the text is empty or left to the environment. *)
Definition no_literal_secret (raw : string) : Prop :=
  forall line field value, line ∈ str_lines raw -> sets line field value ->
    exists text, bare value text /\ (text = "" \/ references_only text).

(** ** Small readings *)

Lemma is_some_false {A} (o : option A) : is_some o = false <-> o = None.
Proof. by destruct o. Qed.

Lemma if_some_nil {A} (o : option A) (f : A -> bool) (w : A -> Warning.t) :
  match o with Some x => push_if (f x) (w x) | None => [] end = [] <-> forall x, o = Some x -> f x = false.
Proof. destruct o as [x|]; [rewrite push_if_nil|]; naive_solver. Qed.

Lemma both_iff (A A' B B' : Prop) : (A <-> A') -> (B <-> B') -> A /\ B <-> A' /\ B'.
Proof. tauto. Qed.

Lemma says_something_spec o : says_something o <-> Validate.blank o = false.
Proof.
  unfold says_something, Validate.blank. destruct o as [t|]; [|naive_solver]. rewrite str_is_empty_false. naive_solver.
Qed.

Lemma alphanumeric_spec c : is_ascii_alphanumeric c = true <-> c ∈ name_characters.
Proof.
  transitivity (bool_decide (c ∈ name_characters) = true); [|apply bool_decide_eq_true].
  destruct c as [[] [] [] [] [] [] [] []]; vm_compute; done.
Qed.

Lemma name_char_spec c : Validate.name_char c = true <-> c ∈ name_characters \/ c ∈ ["."; "_"; "-"]%char.
Proof.
  unfold Validate.name_char. rewrite orb_true_iff, alphanumeric_spec, existsb_elem. apply or_iff_compat_l.
  setoid_rewrite Ascii.eqb_eq. naive_solver.
Qed.

Lemma names_only_spec s :
  str_forallb Validate.name_char s = true
  <-> forall c, c ∈ list_ascii_of_string s -> c ∈ name_characters \/ c ∈ ["."; "_"; "-"]%char.
Proof. rewrite str_forallb_elem. by setoid_rewrite name_char_spec. Qed.

Lemma external_spec s : is_external s = true <-> Spec.kind s = SpecKind.External.
Proof. unfold is_external. by destruct (Spec.kind s). Qed.

Lemma not_external_spec s : is_external s = false <-> Spec.kind s <> SpecKind.External.
Proof. unfold is_external. by destruct (Spec.kind s). Qed.

(** ** The checks of a spec *)

Lemma texts_exact s : check_texts s = [] <-> says_something (Spec.display_name s) /\ says_something (Spec.description s).
Proof. unfold check_texts. by rewrite app_nil, !push_if_nil, !says_something_spec. Qed.

Lemma mfa_exact s :
  check_mfa s = []
  <-> (forall days, Spec.mfa_validity_days s = Some days -> days <= 30 /\ Spec.require_mfa s = Some true)
      /\ (Spec.require_mfa s = Some true -> Spec.kind s <> SpecKind.External).
Proof.
  unfold check_mfa, Spec.effective_require_mfa, MAX_MFA_VALIDITY_DAYS.
  rewrite app_nil, push_if_nil, andb_false_iff, not_external_spec.
  assert (default false (Spec.require_mfa s) = true <-> Spec.require_mfa s = Some true) as Hr
    by (destruct (Spec.require_mfa s) as [[]|]; naive_solver).
  rewrite <- Hr, <- not_true_iff_false. apply both_iff; [|destruct (default false (Spec.require_mfa s)); naive_solver].
  destruct (Spec.mfa_validity_days s) as [days|]; [|naive_solver].
  rewrite app_nil, !push_if_nil, Z.ltb_ge, negb_false_iff. naive_solver.
Qed.

Lemma type_exact s :
  check_type s = []
  <-> forall name, Spec.template_properties s !! "type" = Some (YamlString name) -> name ∈ ["app"; "package"; "talk"; "report"; "api"].
Proof.
  unfold check_type. rewrite if_some_nil. unfold TemplateProperties.type_field, TemplateProperties.get_str.
  assert (forall n, negb (existsb (str_eqb n) KNOWN_TYPES) = false <-> n ∈ ["app"; "package"; "talk"; "report"; "api"]) as Hk.
  { intros n. rewrite negb_false_iff, existsb_elem. setoid_rewrite str_eqb_eq. unfold KNOWN_TYPES. naive_solver. }
  setoid_rewrite Hk. split; intros H n E; apply H.
  - by rewrite E.
  - destruct (_ !! _) as [[]|]; cbn in E; by simplify_eq.
Qed.

Lemma replicas_exact s :
  check_replicas s = []
  <-> (forall max, Spec.max_replicas s = Some max \/ (Spec.max_replicas s = None /\ Spec.kind s = SpecKind.External /\ max = 0) ->
        default 0 (Spec.min_replicas s) <= max)
      /\ (Spec.kind s <> SpecKind.External -> Spec.max_replicas s <> Some 0).
Proof.
  unfold check_replicas, Spec.effective_max_replicas, Spec.effective_min_replicas, DEFAULT_MAX_REPLICAS.
  rewrite app_nil, !push_if_nil, Z.ltb_ge, !andb_false_iff, negb_false_iff, external_spec, Z.eqb_neq, Z.leb_gt.
  set (min := default 0 (Spec.min_replicas s)).
  destruct (Spec.max_replicas s) as [n|].
  - split; [intros [H1 H2]; split; [naive_solver|intros Hk [= ->]; naive_solver lia]|].
    intros [H1 H2]. specialize (H1 n (or_introl eq_refl)). split; [done|].
    destruct (decide (n = 0)) as [->|]; [|by left; right]. destruct (Spec.kind s); naive_solver.
  - destruct (Spec.kind s) eqn:Ek; (split; [intros [H1 H2]; split; [naive_solver|done]|]);
      intros [H1 H2]; (split; [|first [left; right; lia|by left; left]]); try lia. apply (H1 0). by right.
Qed.

Lemma image_exact s :
  check_image s = []
  <-> (Spec.kind s <> SpecKind.External -> is_Some (Spec.container_image s) /\ Spec.seats_per_container s <> Some 0)
      /\ (Spec.kind s = SpecKind.External -> Spec.container_image s = None).
Proof.
  unfold check_image. rewrite !app_nil, !push_if_nil, !andb_false_iff, !negb_false_iff, bool_decide_eq_false,
    is_some_true, is_some_false, external_spec, not_external_spec. destruct (Spec.kind s); naive_solver.
Qed.

Lemma thresholds_exact s :
  check_thresholds s = []
  <-> (is_Some (Spec.scale_up_threshold s) \/ is_Some (Spec.scale_down_threshold s) ->
       let up := default four_fifths (Spec.scale_up_threshold s) in
       let down := default three_tenths (Spec.scale_down_threshold s) in
       SFleb up down = false /\ SFltb one up = false /\ SFltb down (S754_zero false) = false).
Proof.
  unfold check_thresholds. assert (DEFAULT_SCALE_UP = four_fifths) as -> by (vm_compute; done).
  assert (DEFAULT_SCALE_DOWN = three_tenths) as -> by (vm_compute; done). unfold f64_ltb, f64_zero.
  assert (f64_one = one) as -> by (vm_compute; done). cbn zeta.
  rewrite push_if_nil, andb_false_iff, !orb_false_iff, !is_some_false.
  rewrite <- !not_eq_None_Some. destruct (Spec.scale_up_threshold s), (Spec.scale_down_threshold s); naive_solver.
Qed.

Lemma container_fields_exact s :
  check_container_fields s = []
  <-> (Spec.container_image s = None ->
       Spec.seats_per_container s = None /\ Spec.docker_registry_password s = None /\ Spec.max_lifetime s = None).
Proof.
  unfold check_container_fields. rewrite push_if_nil, andb_false_iff, !orb_false_iff, negb_false_iff, is_some_true, !is_some_false.
  rewrite <- not_eq_None_Some. destruct (Spec.container_image s); naive_solver.
Qed.

Lemma rate_limit_exact s :
  check_rate_limit s = []
  <-> forall a raw, Spec.api s = Some a -> ApiSpec.rate_limit a = Some raw -> is_Some (parse_rate_limit raw).
Proof.
  unfold check_rate_limit. rewrite if_some_nil. setoid_rewrite negb_is_some. split.
  - intros H a raw Ea E. apply H. by rewrite Ea.
  - intros H raw [a [Ea E]]%bind_Some. eauto.
Qed.

Lemma body_size_exact s :
  check_body_size s = [] <-> forall raw, Spec.max_body_size s = Some raw -> is_Some (parse_memory_string raw).
Proof.
  unfold check_body_size. rewrite if_some_nil. setoid_rewrite negb_is_some. unfold Spec.effective_max_body_bytes.
  split; intros H raw E; specialize (H raw E); rewrite E in *; cbn in *; by destruct (parse_memory_string raw).
Qed.

Lemma positive_spec c : negb (f64_is_finite c && f64_ltb f64_zero c) = false <-> exists m e, c = S754_finite false m e.
Proof. rewrite negb_false_iff. destruct c as [[]|[]| |[] m e]; cbn; naive_solver. Qed.

Lemma cpu_exact s :
  check_cpu s = []
  <-> forall c, Spec.container_cpu_limit s = Some c \/ Spec.container_cpu_request s = Some c -> exists m e, c = S754_finite false m e.
Proof.
  unfold check_cpu. cbn [map concat]. rewrite !app_nil, !if_some_nil. setoid_rewrite positive_spec. naive_solver.
Qed.

Lemma memory_exact s :
  check_memory s = []
  <-> forall raw, Spec.container_memory_limit s = Some raw \/ Spec.container_memory_request s = Some raw ->
      is_Some (parse_memory_string raw).
Proof.
  unfold check_memory, Spec.effective_memory_limit_bytes, Spec.effective_memory_request_bytes. cbn [map concat].
  rewrite !app_nil. destruct (Spec.container_memory_limit s) as [l|], (Spec.container_memory_request s) as [r|]; cbn [mbind option_bind];
    rewrite ?push_if_nil, ?negb_is_some; naive_solver.
Qed.

(** *** Volumes *)

Lemma rsplit_once_exact c a b : str_contains_char c b = false -> rsplit_once c (a +:+ String c b) = Some (a, b).
Proof.
  intros Hb. unfold rsplit_once. rewrite str_rev_app_distr, str_rev_cons, str_app_assoc.
  assert (forall p q, str_contains_char c p = false -> split_once c (p +:+ String c q) = Some (p, q)) as Hs.
  { induction p as [|d p IH]; intros q Hp; [by change (split_once c (String c q) = Some ("", q)); cbn; rewrite Ascii.eqb_refl|].
    cbn [str_contains_char] in Hp. apply orb_false_iff in Hp as [Hd Hp].
    change (String d p +:+ String c q) with (String d (p +:+ String c q)). cbn [split_once]. by rewrite Hd, (IH q Hp). }
  change (String c "" +:+ str_rev a) with (String c (str_rev a)). rewrite Hs by (by rewrite str_contains_char_rev).
  cbn. by rewrite !str_rev_involutive.
Qed.

Lemma split_once_spec c s a b : split_once c s = Some (a, b) -> s = a +:+ String c b /\ str_contains_char c a = false.
Proof.
  revert a; induction s as [|d s IH]; intros a; cbn [split_once]; [done|]. destruct (Ascii.eqb_spec c d) as [->|Hd].
  - by intros [= <- <-].
  - destruct (split_once c s) as [[p q]|]; [|done]. cbn. intros [= <- <-]. destruct (IH p eq_refl) as [-> Hp].
    split; [done|]. cbn [str_contains_char]. rewrite Hp, orb_false_r. by apply Ascii.eqb_neq.
Qed.

Lemma rsplit_once_spec c s a b : rsplit_once c s = Some (a, b) -> s = a +:+ String c b /\ str_contains_char c b = false.
Proof.
  unfold rsplit_once. destruct (split_once c (str_rev s)) as [[p q]|] eqn:E; [|done]. cbn. intros [= <- <-].
  apply split_once_spec in E as [E Hp]. split; [|by rewrite str_contains_char_rev].
  apply (f_equal str_rev) in E. by rewrite str_rev_involutive, str_rev_app_distr, str_rev_cons, str_app_assoc in E.
Qed.

(** The part before the mode names a host path and an absolute one. *)
Lemma plain_bind_spec v :
  match rsplit_once ":" v with
  | None => false
  | Some (host, container) => negb (str_is_empty (trim host)) && starts_with "/" container
  end = true
  <-> exists host path, trim host <> "" /\ str_contains_char ":" path = false /\ v = host +:+ ":/" +:+ path.
Proof.
  split.
  - destruct (rsplit_once ":" v) as [[host container]|] eqn:E; [|done]. apply rsplit_once_spec in E as [-> Hc].
    rewrite andb_true_iff, negb_true_iff, str_is_empty_false, starts_with_spec. intros [Hh [path ->]]. exists host, path.
    split; [done|]. split; [|done]. rewrite str_contains_char_app in Hc. by apply orb_false_iff in Hc as [_ Hc].
  - intros (host & path & Hh & Hp & ->). change (":/" +:+ path) with (String ":" ("/" +:+ path)). rewrite rsplit_once_exact.
    + apply str_is_empty_false in Hh. by rewrite Hh, starts_with_app.
    + rewrite str_contains_char_app, Hp. done.
Qed.

Lemma mode_spec m :
  existsb (str_eqb (trim m)) ["ro"; "rw"] = true
  <-> exists w mode w', References.blank w /\ References.blank w' /\ mode ∈ ["ro"; "rw"] /\ m = w +:+ mode +:+ w'.
Proof.
  rewrite existsb_elem. setoid_rewrite str_eqb_eq.
  assert (forall mode, mode ∈ ["ro"; "rw"] -> trim m = mode <-> exists w w', References.blank w /\ References.blank w' /\ m = w +:+ mode +:+ w') as Hm.
  { intros mode Hin. set_unfold in Hin. destruct Hin as [-> | [-> | []]]; by apply trim_spec. }
  split.
  - intros (mode & Hin & E). apply (Hm mode Hin) in E as (w & w' & ? & ? & ?). eauto 8.
  - intros (w & mode & w' & ? & ? & Hin & ?). exists mode. split; [done|]. apply (Hm mode Hin). eauto.
Qed.

Lemma absolute_no_mode path : existsb (str_eqb (trim ("/" +:+ path))) ["ro"; "rw"] = false.
Proof.
  apply not_true_iff_false. intros (w & mode & w' & Hw & _ & Hin & E)%mode_spec. inversion Hw as [E0|p s Hp _ E0]; subst w.
  - set_unfold in Hin. destruct Hin as [-> | [-> | []]]; discriminate E.
  - rewrite str_app_assoc in E. by apply (printed_head "/" path eq_refl p Hp _ E).
Qed.

Lemma bind_spec v : is_valid_volume_bind v = true <-> bind v.
Proof.
  unfold is_valid_volume_bind. split.
  - destruct (rsplit_once ":" v) as [[hd m]|] eqn:E; [destruct (existsb _ _) eqn:Em|].
    + intros (host & path & Hh & Hp & ->)%plain_bind_spec. apply rsplit_once_spec in E as [-> _].
      apply mode_spec in Em as (w & mode & w' & Hw & Hw' & Hin & ->). rewrite !str_app_assoc. by apply bind_mode.
    + intros (host & path & Hh & Hp & ->)%plain_bind_spec. by apply bind_plain.
    + rewrite E. done.
  - intros [host path Hh Hp|host path w mode w' Hh Hp Hw Hw' Hin].
    + change (":/" +:+ path) with (String ":" ("/" +:+ path)).
      rewrite rsplit_once_exact by (by rewrite str_contains_char_app, Hp). rewrite absolute_no_mode.
      apply plain_bind_spec. by exists host, path.
    + assert (existsb (str_eqb (trim (w +:+ mode +:+ w'))) ["ro"; "rw"] = true) as Em by (apply mode_spec; eauto 8).
      replace (host +:+ ":/" +:+ path +:+ ":" +:+ w +:+ mode +:+ w')
        with ((host +:+ ":/" +:+ path) +:+ String ":" (w +:+ mode +:+ w')) by (by rewrite !str_app_assoc).
      rewrite rsplit_once_exact, Em.
      * apply plain_bind_spec. by exists host, path.
      * rewrite !str_contains_char_app, (blank_no_char ":" w), (blank_no_char ":" w') by done.
        set_unfold in Hin. by destruct Hin as [-> | [-> | []]].
Qed.

Lemma volumes_exact s : check_volumes s = [] <-> forall vs v, Spec.volumes s = Some vs -> v ∈ vs -> bind v.
Proof.
  unfold check_volumes. rewrite concat_map_nil. setoid_rewrite push_if_nil. setoid_rewrite negb_false_iff. setoid_rewrite bind_spec.
  destruct (Spec.volumes s) as [vs|]; cbn; [naive_solver|]. split; [done|]. intros _ v Hv. by apply elem_of_nil in Hv.
Qed.

(** *** Labels and networks *)

Lemma str_map_app_inv f s a b : str_map f s = a +:+ b -> exists p r, s = p +:+ r /\ str_map f p = a /\ str_map f r = b.
Proof.
  revert s; induction a as [|c a IH]; intros s E; [by exists "", s|]. destruct s as [|d s]; [done|].
  change (String (f d) (str_map f s) = String c (a +:+ b)) in E. injection E as <- E.
  destruct (IH s E) as (p & r & -> & <- & <-). by exists (String d p), r.
Qed.

Lemma reserved_spec key : is_reserved_label_key key = true <-> exists p r, key = p +:+ r /\ to_ascii_lowercase p = "ruscker.".
Proof.
  unfold is_reserved_label_key, to_ascii_lowercase. rewrite starts_with_spec. split.
  - intros [r E]. apply str_map_app_inv in E as (p & r' & -> & Hp & _). eauto.
  - intros (p & r & -> & Hp). exists (str_map ascii_lower r). by rewrite str_map_app, Hp.
Qed.

Lemma label_exact spec_id key : check_label spec_id key = [] <-> label_fits key.
Proof.
  unfold check_label, label_fits. rewrite <- reserved_spec, <- names_only_spec.
  destruct (str_is_empty (trim key)) eqn:E; [split; [left; by destruct (trim key)|done]|].
  destruct (is_reserved_label_key (trim key)).
  - split; [done|]. intros [H|[_ H]]; [by rewrite H in E|done].
  - rewrite push_if_nil, negb_false_iff. unfold is_valid_label_key. rewrite E. cbn. split; [by right|].
    intros [H|[H _]]; [by rewrite H in E|done].
Qed.

Lemma labels_exact s : check_labels s = [] <-> forall l k v, Spec.labels s = Some l -> (k, v) ∈ l -> label_fits k.
Proof.
  unfold check_labels. rewrite concat_map_nil. setoid_rewrite label_exact. split.
  - intros H l k v E Hin. rewrite E in H. exact (H (k, v) Hin).
  - intros H [k v] Hin. destruct (Spec.labels s) as [l|]; [by eapply H|by apply elem_of_nil in Hin].
Qed.

Lemma network_exact s : check_network s = [] <-> forall name, Spec.container_network s = Some name -> network_fits name.
Proof.
  unfold check_network. rewrite if_some_nil. unfold Spec.effective_container_network, network_fits.
  assert (forall n, negb (is_valid_network_name n) = false
    <-> exists c rest, n = String c rest /\ c ∈ name_characters
          /\ forall d, d ∈ list_ascii_of_string rest -> d ∈ name_characters \/ d ∈ ["."; "_"; "-"]%char) as Hn.
  { intros n. rewrite negb_false_iff. setoid_rewrite <- names_only_spec. setoid_rewrite <- alphanumeric_spec.
    destruct n as [|c r]; cbn [is_valid_network_name]; [naive_solver|]. rewrite andb_true_iff. naive_solver. }
  setoid_rewrite Hn. destruct (Spec.container_network s) as [name|]; [|naive_solver].
  destruct (str_is_empty (trim name)) eqn:E.
  - split; [|done]. intros _ ? [= <-]. left. by destruct (trim name).
  - apply str_is_empty_false in E. naive_solver.
Qed.

Lemma spec_exact s : check_spec s = [] <-> spec_ok s.
Proof.
  unfold check_spec. rewrite !app_nil, texts_exact, mfa_exact, type_exact, replicas_exact, image_exact, thresholds_exact,
    container_fields_exact, rate_limit_exact, body_size_exact, cpu_exact, memory_exact, volumes_exact, labels_exact, network_exact.
  split; [intros H; decompose [and] H; by split|intros []; tauto].
Qed.

(** ** Hosts and the file *)

Lemma host_exact h : host_ok h <-> host_fits h.
Proof.
  rewrite <- (check_host_ok 0). unfold check_host, host_fits. rewrite app_nil, push_if_nil, str_is_empty_false.
  apply and_iff_compat_l. set (addr := trim (Host.address h)).
  assert (forall scheme rest, addr = scheme +:+ "://" +:+ rest -> scheme ∈ ["ssh"; "http"; "unix"; "tcp"] -> host_scheme addr = Some scheme) as Hat.
  { intros scheme rest E Hin. apply host_scheme_iff; [done|]. rewrite E, <- str_app_assoc. apply starts_with_app. }
  split.
  - destruct (host_scheme addr) as [scheme|] eqn:E; [|done]. intros H.
    apply host_scheme_prefix, starts_with_spec in E as [rest E]. exists scheme, rest. rewrite E, str_app_assoc. split; [done|].
    destruct (existsb (str_eqb scheme) _) eqn:Es.
    + right. apply existsb_elem in Es as (x & Hx & ->%str_eqb_eq). split; [done|]. by apply push_if_nil, is_some_false in H.
    + destruct (str_eqb_spec scheme "tcp") as [->|]; [|done]. left. split; [done|]. by apply push_if_nil, negb_is_some in H.
  - intros (scheme & rest & E & [[-> Ht]|[Hs Ht]]).
    + rewrite (Hat _ _ E) by set_solver. cbn. apply push_if_nil. by apply negb_is_some.
    + rewrite (Hat _ _ E) by set_solver. assert (existsb (str_eqb scheme) ["ssh"; "http"; "unix"] = true) as -> by
        (apply existsb_elem; exists scheme; split; [done|apply str_eqb_refl]).
      apply push_if_nil. by rewrite Ht.
Qed.

Lemma compat_exact c :
  check_ignored_compat_fields c = []
  <-> Server.secure_cookies (Config.server c) = false /\ Server.session_timeout_secs (Config.server c) = None
      /\ Proxy.heartbeat_rate (Config.proxy c) = 10000 /\ Proxy.hide_navbar (Config.proxy c) = false
      /\ Proxy.landing_page (Config.proxy c) = "/" /\ Proxy.container_log_path (Config.proxy c) = None
      /\ Logging.file (Config.logging c) = None.
Proof.
  unfold check_ignored_compat_fields. cbn zeta.
  by rewrite !app_nil, !push_if_nil, !is_some_false, !negb_false_iff, Z.eqb_eq, str_eqb_eq.
Qed.

Lemma settings_exact tz_known c : ValidationReport.warnings (run tz_known c) = [] <-> well_formed tz_known c.
Proof.
  unfold run. cbn [ValidationReport.warnings]. rewrite !app_nil, concat_map_nil, compat_exact, check_hosts_iff.
  setoid_rewrite spec_exact. setoid_rewrite host_exact.
  assert (check_global_body_size c = [] <-> forall raw, Proxy.max_body_size (Config.proxy c) = Some raw -> is_Some (parse_memory_string raw)) as ->.
  { unfold check_global_body_size. rewrite if_some_nil. by setoid_rewrite negb_is_some. }
  assert (check_timezone tz_known c = []
    <-> forall raw, Server.timezone (Config.server c) = Some raw -> trim raw = "" \/ tz_known (trim raw) = true) as ->.
  { unfold check_timezone. rewrite if_some_nil. setoid_rewrite andb_false_iff. setoid_rewrite negb_false_iff.
    split; intros H raw E; (destruct (H raw E) as [Hr|]; [left|by right]); by destruct (trim raw). }
  assert (map Warning.DuplicateSpecId (repeated (count_ids (map Spec.id (Proxy.specs (Config.proxy c))))) = []
    <-> NoDup (map Spec.id (Proxy.specs (Config.proxy c)))) as ->.
  { rewrite <- repeated_nil. split; [apply map_eq_nil|by intros ->]. }
  split; [intros H; decompose [and] H; by split|intros []; tauto].
Qed.

(** ** The text *)

Lemma capture_sets line field value :
  sets line field value -> sensitive_capture line = Some (field, trim value) /\ starts_with "#" (trim_start line) = false.
Proof.
  intros (Hin & w & w' & Hw & Hw' & ->).
  assert (forall c f, String c f = field -> byte_in 33 126 c = true -> trim_start (w +:+ field +:+ w' +:+ ":" +:+ value) = field +:+ w' +:+ ":" +:+ value) as Ht.
  { intros c f <- Hc. apply trim_start_spec. exists w. split; [done|]. split; [done|]. by apply printed_head. }
  assert (trim_start (w' +:+ ":" +:+ value) = ":" +:+ value) as Hv.
  { apply trim_start_spec. exists w'. split; [done|]. split; [done|]. by apply printed_head. }
  unfold sensitive_capture. set_unfold in Hin. revert Ht Hv. generalize (w' +:+ ":" +:+ value) as rest. intros rest Ht Hv.
  destruct Hin as [-> | [-> | [-> | [-> | []]]]]; rewrite (Ht _ _ eq_refl eq_refl); split; try reflexivity;
    unfold SENSITIVE_FIELDS; lazy -[trim_start trim]; by rewrite Hv.
Qed.

Lemma sets_capture line field v : sensitive_capture line = Some (field, v) -> exists value, sets line field value /\ v = trim value.
Proof.
  unfold sensitive_capture. intros H%head_Some_elem_of. apply list_elem_of_omap in H as (f & Hf & H).
  apply bind_Some in H as (rest & Er & H). apply bind_Some in H as (value & Ev & [= <- <-]).
  apply strip_prefix_Some in Er, Ev. exists value. split; [|done]. split; [done|].
  destruct (proj1 (trim_start_spec line _) eq_refl) as (w & Hw & El & _).
  destruct (proj1 (trim_start_spec rest _) eq_refl) as (w' & Hw' & Ew' & _).
  exists w, w'. split; [done|]. split; [done|]. by rewrite El, Er, Ew', Ev.
Qed.

Lemma quote_spec c : is_quote c = true <-> String c "" ∈ quotes.
Proof.
  unfold is_quote, quotes. rewrite orb_true_iff, !Ascii.eqb_eq, !elem_of_cons. split; [intros [->| ->]; auto|].
  intros [[= ->]|[[= ->]|[]%elem_of_nil]]; auto.
Qed.

Lemma trim_start_quotes_split s : exists l, pieces quotes l /\ s = l +:+ trim_start_quotes s.
Proof.
  induction s as [|c s (l & Hl & IH)]; cbn [trim_start_quotes]; [by exists ""; split; [constructor|]|].
  destruct (is_quote c) eqn:E; [|by exists ""; split; [constructor|]]. apply quote_spec in E.
  exists (String c "" +:+ l). split; [by constructor|]. by rewrite str_app_assoc, <- IH.
Qed.

Lemma trim_start_quotes_stops s q rest : q ∈ quotes -> trim_start_quotes s <> q +:+ rest.
Proof.
  induction s as [|c s IH]; cbn [trim_start_quotes]; intros Hq.
  - unfold quotes in Hq. set_unfold in Hq. by destruct Hq as [-> | [-> | []]].
  - destruct (is_quote c) eqn:E; [auto|]. intros Es. apply not_true_iff_false in E. apply E, quote_spec.
    unfold quotes in *. set_unfold in Hq. destruct Hq as [-> | [-> | []]]; injection Es as -> _; set_solver.
Qed.

Lemma trim_start_quotes_exact l s :
  pieces quotes l -> (forall q rest, q ∈ quotes -> s <> q +:+ rest) -> trim_start_quotes (l +:+ s) = s.
Proof.
  intros Hl Hs. induction Hl as [|q l Hq _ IH].
  - change ("" +:+ s) with s. destruct s as [|c s]; [done|]. cbn [trim_start_quotes]. destruct (is_quote c) eqn:E; [|done].
    apply quote_spec in E. by destruct (Hs _ s E).
  - rewrite str_app_assoc. pose proof Hq as Hq'. unfold quotes in Hq'. set_unfold in Hq'.
    by destruct Hq' as [-> | [-> | []]].
Qed.

Lemma quotes_rev : map str_rev quotes = quotes.
Proof. reflexivity. Qed.

Lemma pieces_quotes_rev s : pieces quotes s -> pieces quotes (str_rev s).
Proof. intros H. apply pieces_rev. by rewrite quotes_rev. Qed.

Lemma bare_spec value : bare value (trim_quotes (trim value)).
Proof.
  unfold bare, trim_quotes. set (v := trim value). destruct (trim_start_quotes_split v) as (l & Hl & El).
  set (t := trim_start_quotes v) in *. destruct (trim_start_quotes_split (str_rev t)) as (r & Hr & Er).
  set (u := trim_start_quotes (str_rev t)) in *. apply (f_equal str_rev) in Er. rewrite str_rev_involutive, str_rev_app_distr in Er.
  exists l, (str_rev r). split; [done|]. split; [by apply pieces_quotes_rev|]. split; [by rewrite El, Er|].
  intros q rest Hq. split.
  - intros E. apply (trim_start_quotes_stops v q (rest +:+ str_rev r) Hq). fold t. by rewrite Er, E, str_app_assoc.
  - intros E. apply (f_equal str_rev) in E. rewrite str_rev_involutive, str_rev_app_distr in E.
    apply (trim_start_quotes_stops (str_rev t) (str_rev q) (str_rev rest)); [|done].
    rewrite <- quotes_rev. apply list_elem_of_fmap. eauto.
Qed.

Lemma bare_unique value text : bare value text -> trim_quotes (trim value) = text.
Proof.
  intros (l & r & Hl & Hr & E & Hends). unfold trim_quotes. rewrite E. destruct text as [|c text].
  - change ("" +:+ r) with r. assert (pieces quotes (l +:+ r)) as Hall by by apply pieces_app.
    rewrite <- (str_app_nil_r (l +:+ r)), trim_start_quotes_exact; [done|done|].
    intros q rest Hq. apply (Hends q rest Hq).
  - rewrite trim_start_quotes_exact; [|done|].
    + rewrite str_rev_app_distr, trim_start_quotes_exact; [apply str_rev_involutive|by apply pieces_quotes_rev|].
      intros q rest Hq Es. apply (f_equal str_rev) in Es. rewrite str_rev_involutive, str_rev_app_distr in Es.
      apply (Hends (str_rev q) (str_rev rest)); [|done]. rewrite <- quotes_rev. apply list_elem_of_fmap. eauto.
    + intros q rest Hq Es. pose proof Hq as Hq'. unfold quotes in Hq'. set_unfold in Hq'.
      destruct Hq' as [-> | [-> | []]]; injection Es as -> _; by apply (proj1 (Hends _ text Hq)).
Qed.

Lemma bare_iff value text : bare value text <-> trim_quotes (trim value) = text.
Proof. split; [apply bare_unique|intros <-; apply bare_spec]. Qed.

Lemma scan_line_exact i line :
  scan_line i line = []
  <-> forall field value, sets line field value -> exists text, bare value text /\ (text = "" \/ references_only text).
Proof.
  setoid_rewrite bare_iff. unfold scan_line. split.
  - intros H field value Hs. eexists. split; [done|]. destruct (capture_sets _ _ _ Hs) as [Hc Hh]. rewrite Hc, Hh in H.
    apply push_if_nil in H. rewrite negb_false_iff, orb_true_iff, is_pure_env_ref_spec in H.
    destruct H; [left|by right]. by destruct (trim_quotes _).
  - intros H. destruct (starts_with "#" _); [done|]. destruct (sensitive_capture line) as [[field v]|] eqn:E; [|done].
    apply sets_capture in E as (value & Hs & ->). destruct (H _ _ Hs) as (text & -> & Ht). apply push_if_nil.
    rewrite negb_false_iff, orb_true_iff, is_pure_env_ref_spec. destruct Ht as [-> |]; [by left|by right].
Qed.

Lemma scan_exact raw : scan_raw_text raw = [] <-> no_literal_secret raw.
Proof.
  unfold scan_raw_text, no_literal_secret. assert (forall k, concat (imap (fun i line => scan_line (Z.of_nat (k + i)) line) (str_lines raw)) = []
    <-> forall line, line ∈ str_lines raw -> scan_line 0 line = []) as H; [|rewrite (H 0%nat); setoid_rewrite scan_line_exact; naive_solver].
  induction (str_lines raw) as [|line lines IH]; intros k; cbn [imap concat]; [set_solver|].
  rewrite app_nil. specialize (IH (S k)). rewrite (imap_ext _ (fun i line => scan_line (Z.of_nat (S k + i)) line)) by (intros; cbn; f_equal; lia).
  rewrite IH, scan_line_exact, <- (scan_line_exact 0). set_solver.
Qed.

(** ** Properties *)

(** C16. The validator is exact.  A configuration read from a text has no
    warning exactly when the conditions above hold of it: every spec, every
    host and the settings are well formed, and no secret key of the text is set
    to a literal.  And then the values are the ones the program runs with:
    every spec's memory limits, CPU quota (its limit times the period, whole
    microseconds), rate limit, body limit and labels ([in_effect]); the time
    zone, when one is named, is the scheduler's; and the cluster connects to
    every host that answers, refusing none for its address or TLS. *)
Theorem clean_configuration `{Formats} tz_known parse vars raw config :
  from_yaml parse vars raw = Ok config ->
  (ValidationReport.is_clean (validate tz_known config) = true <-> well_formed tz_known config /\ no_literal_secret raw)
  /\ (ValidationReport.is_clean (validate tz_known config) = true ->
      (forall env s, s ∈ Proxy.specs (Config.proxy config) -> in_effect env s)
      /\ (forall Tz (parse_tz : string -> option Tz) utc name, (forall name, tz_known name = true <-> is_Some (parse_tz name)) ->
            Server.timezone (Config.server config) = Some name -> trim name <> "" ->
            parse_tz (trim name) = Some (Server.effective_timezone parse_tz utc (Config.server config)))
      /\ (forall B (connect_host : Host.t -> CoreResult B) h b,
            h ∈ Proxy.hosts (Config.proxy config) -> connect_host h = Ok b ->
            exists c, connect connect_host (Proxy.hosts (Config.proxy config)) = Ok c
              /\ omap (connected connect_host) (Proxy.hosts (Config.proxy config)) = MultiHostDockerBackend.hosts c)).
Proof.
  intros Hy. assert (ValidationReport.is_clean (validate tz_known config) = true <-> well_formed tz_known config /\ no_literal_secret raw) as Hiff.
  { rewrite <- settings_exact, <- scan_exact, <- (from_yaml_warnings _ _ _ _ Hy). unfold ValidationReport.is_clean, validate.
    cbn [ValidationReport.warnings]. rewrite <- app_nil. by destruct (_ ++ _). }
  split; [done|]. intros [Hw _]%Hiff. destruct Hw. split; [|split].
  - intros env s Hs. apply spec_in_effect, spec_exact; auto.
  - intros Tz parse_tz utc name Hknown E Hne. unfold Server.effective_timezone. rewrite E. cbn.
    destruct (zone_known0 _ E) as [|[tz Htz]%Hknown]; [done|]. apply str_is_empty_false in Hne. by rewrite Hne, Htz.
  - intros B connect_host h b Hh. apply host_ok_connects; [|done]. intros h' Hh'. apply host_exact. auto.
Qed.

(** ** A configuration and its text *)

Module WellFormedExamples.
Import ValidateExamples.

Definition vars (name : string) : EnvVar := if str_eqb name "PW" then EnvPresent "hunter2" else EnvNotPresent.
Definition reads (c : Config.t) (text : string) : Result Config.t string := Ok c.
Definition sealed_text : string := InterpolationExamples.text ["  docker-registry-password: '${PW}'"; "# secret: in a comment"].
Definition leaky_text : string := InterpolationExamples.text ["  api-key : '${PW}-tail'"].

(** Clean with its secret left to the environment; not with a literal one. *)
Lemma clean_configuration_witness :
  let c := config [app] hosts in
  from_yaml (reads c) vars sealed_text = Ok c
  /\ (well_formed tz_known c /\ no_literal_secret sealed_text) /\ (forall env, in_effect env app)
  /\ ~ no_literal_secret leaky_text.
Proof.
  cbv zeta. assert (from_yaml (reads (config [app] hosts)) vars sealed_text = Ok (config [app] hosts)) as Hy by (vm_compute; reflexivity).
  split; [exact Hy|]. assert (ValidationReport.is_clean (validate tz_known (config [app] hosts)) = true) as Hc by (vm_compute; reflexivity).
  destruct (clean_configuration tz_known _ vars sealed_text _ Hy) as [Hiff He]. split; [exact (proj1 Hiff Hc)|].
  destruct (He Hc) as (Hs & _). split; [intros env; apply Hs; left|]. intros Hleak.
  destruct (clean_configuration tz_known (reads (config [app] hosts)) vars leaky_text
    (Config.set_raw_warnings [Warning.EmbeddedCredential "api-key" 1] (config [app] hosts)) ltac:(vm_compute; reflexivity)) as [Hiff' _].
  assert (well_formed tz_known (Config.set_raw_warnings [Warning.EmbeddedCredential "api-key" 1] (config [app] hosts))) as Hw
    by (destruct (proj1 Hiff Hc) as [[] _]; split; assumption).
  assert (ValidationReport.is_clean (validate tz_known
    (Config.set_raw_warnings [Warning.EmbeddedCredential "api-key" 1] (config [app] hosts))) = false) as Hd by (vm_compute; reflexivity).
  rewrite (proj2 Hiff' (conj Hw Hleak)) in Hd. discriminate Hd.
Defined.

(** A ceiling of zero, a mode that is none, and a label of the program's. *)
Example refused :
  ~ bind "/srv/data:/data:rx" /\ ~ label_fits "Ruscker.job" /\ ~ network_fits "-net".
Proof.
  split; [|split].
  - rewrite <- bind_spec. by vm_compute.
  - rewrite <- (label_exact "app"). by vm_compute.
  - intros [H|(c & r & E & Hc & _)]; [done|]. injection E as <- _. by apply alphanumeric_spec in Hc.
Qed.
End WellFormedExamples.
