(* ===== verification/Leader.v ===== *)
(** * Leader: one scaler among several instances (leader.rs)

    [PgLeaderLock] over the interface [LockServer] of the Postgres calls it
    makes, and the system of all instances that compete for the lock.
    Sessions may end between any two calls. *)

From Stdlib Require Import Ascii String ZArith Lia.
From stdpp Require Import base tactics list gmap strings sets fin_maps numbers.
From S2P Require Import Prelude.

Local Open Scope list_scope.
Local Open Scope Z_scope.
Local Open Scope ruscker_scope.

(** ** Postgres *)

(** A call under [timeout]: [None] when the time ran out. *)
Definition Timed (A : Type) : Type := option (Result A string).

(** The calls on a connection; a connection is named by its session. *)
Class LockServer (S : Type) := {
  pg_connect : S -> Timed Z * S;
  pg_ping : Z -> S -> Timed unit * S;
  pg_try_advisory_lock : Z -> Z -> S -> Timed bool * S
}.

(** What Postgres documents of session-level advisory locks.  [issued] are
    the sessions so far, [live] those not ended, [holder key] the session
    that has the lock.  [later] is any passage of time at the server: a
    session that ended stays ended, and a holder keeps its lock until its
    session ends. *)
Class LockServerLaws (S : Type) `{LockServer S} := {
  issued : S -> gset Z;
  live : S -> Z -> Prop;
  holder : S -> Z -> option Z;
  later : S -> S -> Prop;
  later_refl s : later s s;
  later_trans s1 s2 s3 : later s1 s2 -> later s2 s3 -> later s1 s3;
  later_issued s s' : later s s' -> issued s ⊆ issued s';
  later_ended s s' c : later s s' -> c ∈ issued s -> ~ live s c -> ~ live s' c;
  later_holder s s' key c : later s s' -> holder s key = Some c -> live s' c -> holder s' key = Some c;
  connect_later s r s' : pg_connect s = (r, s') -> later s s';
  ping_later c s r s' : pg_ping c s = (r, s') -> later s s';
  lock_later key c s r s' : pg_try_advisory_lock key c s = (r, s') -> later s s';
  connect_new s c s' : pg_connect s = (Some (Ok c), s') -> c ∉ issued s /\ c ∈ issued s';
  ping_answers c s s' : pg_ping c s = (Some (Ok tt), s') -> live s c /\ live s' c;
  lock_granted key c s s' : pg_try_advisory_lock key c s = (Some (Ok true), s') -> holder s' key = Some c
}.

(** ** The elector *)

Definition SCALER_LOCK_KEY : Z := 0x00525553434b5201.

Module LockState.
Record t := mk { conn : option Z; holds : bool }.
Definition new : t := mk None false.
End LockState.

(** All instances and the server. *)
Module Instances.
Record t {S : Type} := mk { states : gmap nat LockState.t; server : S }.
Arguments t : clear implicits.
Arguments mk {S}.
End Instances.

Section Elector.
Context {S : Type} `{LockServer S}.

(** The part after a connection is there. *)
Definition check_lock (c : Z) (holds : bool) (s : S) : bool * LockState.t * S :=
  if holds then
    match pg_ping c s with
    | (Some (Ok _), s') => (true, LockState.mk (Some c) true, s')
    | (_, s') => (false, LockState.mk None false, s')
    end
  else
    match pg_try_advisory_lock SCALER_LOCK_KEY c s with
    | (Some (Ok got), s') => (got, LockState.mk (Some c) got, s')
    | (_, s') => (false, LockState.mk None false, s')
    end.

(** [PgLeaderLock::is_leader].  After a failed query the source leaves
    [holds], which is false there. *)
Definition is_leader (st : LockState.t) (s : S) : bool * LockState.t * S :=
  match LockState.conn st with
  | Some c => check_lock c (LockState.holds st) s
  | None =>
    match pg_connect s with
    | (Some (Ok c), s') => check_lock c false s'
    | (_, s') => (false, st, s')
    end
  end.

(** [AlwaysLeader::is_leader] *)
Definition always_leader : bool := true.

(** ** All instances *)

Definition state_of (k : nat) (sys : Instances.t S) : LockState.t := default LockState.new (Instances.states sys !! k).

(** One call of instance [k], with its answer. *)
Definition call (k : nat) (sys : Instances.t S) : bool * Instances.t S :=
  let '(b, st, s) := is_leader (state_of k sys) (Instances.server sys) in
  (b, Instances.mk (<[k := st]> (Instances.states sys)) s).

Context `{!LockServerLaws S}.

(** Instances call, restart with nothing, or time passes at the server. *)
Inductive step (sys : Instances.t S) : Instances.t S -> Prop :=
| step_call k : step sys (call k sys).2
| step_restart k : step sys (Instances.mk (<[k := LockState.new]> (Instances.states sys)) (Instances.server sys))
| step_server s : later (Instances.server sys) s -> step sys (Instances.mk (Instances.states sys) s).

Inductive reachable : Instances.t S -> Prop :=
| reachable_start s : reachable (Instances.mk ∅ s)
| reachable_step sys sys' : reachable sys -> step sys sys' -> reachable sys'.

(** ** Invariant *)

(** An instance that thinks it leads has the lock, unless its session ended. *)
Definition truthful (s : S) (st : LockState.t) : Prop :=
  (forall c, LockState.conn st = Some c -> c ∈ issued s)
  /\ (LockState.holds st = true -> exists c, LockState.conn st = Some c
        /\ (live s c -> holder s SCALER_LOCK_KEY = Some c)).

Definition inv (sys : Instances.t S) : Prop :=
  (forall k, truthful (Instances.server sys) (state_of k sys))
  /\ (forall j k c, LockState.conn (state_of j sys) = Some c -> LockState.conn (state_of k sys) = Some c -> j = k).

Lemma truthful_new s : truthful s LockState.new.
Proof. split; [done|]. intros [=]. Qed.

Lemma truthful_later s s' st : later s s' -> truthful s st -> truthful s' st.
Proof.
  intros Hl [Hc Hh]. split.
  - intros c E. apply (later_issued _ _ Hl), Hc, E.
  - intros E. destruct (Hh E) as (c & Ec & Hlock). exists c. split; [done|]. intros Hlive.
    destruct (holder s SCALER_LOCK_KEY) as [h|] eqn:Eh.
    + destruct (decide (h = c)) as [->|Hne]; [by eapply later_holder|]. exfalso.
      eapply (later_ended s s' c Hl); [by apply Hc| |done]. intros Hl'. apply Hlock in Hl'. congruence.
    + exfalso. eapply (later_ended s s' c Hl); [by apply Hc| |done]. intros Hl'. apply Hlock in Hl'. congruence.
Qed.

(** What one call does to the caller and to the server. *)
Lemma check_lock_spec c holds s b st s' :
  check_lock c holds s = (b, st, s') -> c ∈ issued s -> (holds = true -> live s c -> holder s SCALER_LOCK_KEY = Some c) ->
  later s s' /\ truthful s' st /\ (LockState.conn st = None \/ LockState.conn st = Some c)
  /\ (b = true -> holder s' SCALER_LOCK_KEY = Some c /\ LockState.conn st = Some c)
  /\ (b = true -> holds = true -> live s c).
Proof.
  unfold check_lock. intros Hcall Hc Hh. destruct holds.
  - destruct (pg_ping c s) as [r s1] eqn:E. pose proof (ping_later _ _ _ _ E) as Hl.
    destruct r as [[[]|]|]; simplify_eq;
      [|split; [done|]; split; [apply truthful_new|]; split; [by left|]; split; done ..].
    destruct (ping_answers _ _ _ E) as [Ha Ha']. specialize (Hh eq_refl Ha).
    assert (holder s' SCALER_LOCK_KEY = Some c) by (by eapply later_holder).
    split; [done|]. split; [|auto]. split; [intros ? [= <-]; by apply (later_issued _ _ Hl)|]. intros _. exists c. auto.
  - destruct (pg_try_advisory_lock SCALER_LOCK_KEY c s) as [r s1] eqn:E. pose proof (lock_later _ _ _ _ _ E) as Hl.
    destruct r as [[got|]|]; simplify_eq;
      [|split; [done|]; split; [apply truthful_new|]; split; [by left|]; split; done ..].
    split; [done|]. split; [|split; [by right|split; [|done]]].
    + split; [intros ? [= <-]; by apply (later_issued _ _ Hl)|]. intros [= ->]. exists c. eauto using lock_granted.
    + intros ->. eauto using lock_granted.
Qed.

Lemma is_leader_spec st s b st' s' :
  is_leader st s = (b, st', s') -> truthful s st ->
  later s s' /\ truthful s' st'
  /\ (forall c, LockState.conn st' = Some c -> LockState.conn st = Some c \/ c ∉ issued s)
  /\ (b = true -> exists c, LockState.conn st' = Some c /\ holder s' SCALER_LOCK_KEY = Some c)
  /\ (b = true -> LockState.holds st = true -> exists c, LockState.conn st = Some c /\ live s c).
Proof.
  unfold is_leader. intros Hcall [Hc Hh]. destruct (LockState.conn st) as [c|] eqn:Ec.
  - apply check_lock_spec in Hcall as (Hl & Ht & Hcn & Hb & Hlive); [|auto|].
    + split; [done|]. split; [done|]. split; [intros c' E; destruct Hcn; [congruence|left; congruence]|].
      split; [intros E; apply Hb in E as []; eauto|eauto].
    + intros Hholds. destruct (Hh Hholds) as (c' & [= <-] & Hlock). done.
  - destruct (pg_connect s) as [r s1] eqn:E. pose proof (connect_later _ _ _ E) as Hl1.
    destruct r as [[c|]|]; simplify_eq.
    + destruct (connect_new _ _ _ E) as [Hnew Hin].
      apply check_lock_spec in Hcall as (Hl & Ht & Hcn & Hb & _); [|done|done].
      split; [by eapply later_trans|]. split; [done|].
      split; [intros c' E'; right; destruct Hcn; congruence|].
      split; [intros E'; apply Hb in E' as []; eauto|].
      intros _ Hholds. destruct (Hh Hholds) as (? & [=] & _).
    + split; [done|]. split; [eapply truthful_later; [done|by split; rewrite Ec]|]. split; [intros ? ?; congruence|]. split; intros [=].
    + split; [done|]. split; [eapply truthful_later; [done|by split; rewrite Ec]|]. split; [intros ? ?; congruence|]. split; intros [=].
Qed.

Lemma state_of_insert j k st (m : gmap nat LockState.t) (s : S) :
  state_of j (Instances.mk (<[k := st]> m) s) = if decide (j = k) then st else state_of j (Instances.mk m s).
Proof.
  unfold state_of. cbn. case_decide; [subst; by rewrite lookup_insert_eq|by rewrite lookup_insert_ne].
Qed.

Lemma inv_update sys k st s' :
  inv sys -> later (Instances.server sys) s' -> truthful s' st ->
  (forall c, LockState.conn st = Some c -> LockState.conn (state_of k sys) = Some c \/ c ∉ issued (Instances.server sys)) ->
  inv (Instances.mk (<[k := st]> (Instances.states sys)) s').
Proof.
  intros [Ht Hd] Hl Hst Hc.
  assert (forall j, state_of j (Instances.mk (Instances.states sys) s') = state_of j sys) as Hsame by done.
  split.
  - intros j. cbn [Instances.server]. rewrite state_of_insert. case_decide; [done|]. rewrite Hsame. by eapply truthful_later.
  - assert (forall j c, j <> k -> LockState.conn (state_of j sys) = Some c -> LockState.conn st = Some c -> False) as Hne.
    { intros j c Hjk Hj Hk. destruct (Hc c Hk) as [Hk'|Hk']; [by destruct (Hjk (Hd _ _ _ Hj Hk'))|].
      apply Hk'. by apply (Ht j). }
    intros i j c. rewrite !state_of_insert, !Hsame. repeat case_decide; subst; try done; intros Hi Hj.
    + by destruct (Hne j c).
    + by destruct (Hne i c).
    + by eapply Hd.
Qed.

Lemma call_eq k sys : exists b st s,
  is_leader (state_of k sys) (Instances.server sys) = (b, st, s)
  /\ call k sys = (b, Instances.mk (<[k := st]> (Instances.states sys)) s).
Proof. unfold call. destruct (is_leader _ _) as [[b st] s]. eauto. Qed.

Lemma cluster_reachable_inv sys : reachable sys -> inv sys.
Proof.
  induction 1 as [s|sys sys' _ IH [k|k|s Hl]].
  - split; [intros k; apply truthful_new|]. intros j k c [=].
  - destruct (call_eq k sys) as (b & st & s & E & ->). cbn [snd].
    destruct (is_leader_spec _ _ _ _ _ E) as (Hl & Ht & Hc & _); [apply IH|]. by apply inv_update.
  - apply inv_update; [done|apply later_refl|apply truthful_new|]. intros c [=].
  - destruct IH as [Ht Hd]. split; [|done]. intros k. eapply truthful_later; [done|apply Ht].
Qed.

(** C17. At most one leader.  In any run of any number of instances that
    call, restart and lose their sessions, an instance that is told it leads
    has the lock at that moment; another instance that still takes itself
    for the leader has lost its session, and its own next call, whenever it
    comes, tells it so. *)
Theorem leader_is_unique sys k :
  reachable sys -> (call k sys).1 = true ->
  let sys' := (call k sys).2 in
  (exists c, LockState.conn (state_of k sys') = Some c /\ holder (Instances.server sys') SCALER_LOCK_KEY = Some c)
  /\ forall j, j <> k -> LockState.holds (state_of j sys') = true ->
       (exists c, LockState.conn (state_of j sys') = Some c /\ ~ live (Instances.server sys') c)
       /\ forall s, later (Instances.server sys') s ->
            (call j (Instances.mk (Instances.states sys') s)).1 = false
            /\ LockState.holds (state_of j (call j (Instances.mk (Instances.states sys') s)).2) = false.
Proof.
  intros Hr Hb. assert (inv (call k sys).2) as Hinv by (eapply cluster_reachable_inv, reachable_step, step_call; done).
  destruct (call_eq k sys) as (b & st & s & E & Hcall). rewrite Hcall in *. cbn [fst snd] in *. subst b.
  destruct (is_leader_spec _ _ _ _ _ E) as (_ & _ & _ & Hlead & _); [by apply cluster_reachable_inv|].
  destruct (Hlead eq_refl) as (c & Hc & Hlock). cbn zeta.
  assert (state_of k (Instances.mk (<[k := st]> (Instances.states sys)) s) = st) as Hk
    by (rewrite state_of_insert; by case_decide).
  split; [exists c; by rewrite Hk|]. intros j Hj Hholds. destruct Hinv as [Ht Hd].
  destruct (Ht j) as [Hiss Hj']. destruct (Hj' Hholds) as (cj & Hcj & Hlk). cbn [Instances.server] in *.
  assert (~ live s cj) as Hdead.
  { intros Hl. specialize (Hlk Hl). assert (c = cj) as -> by congruence. apply Hj. eapply Hd; [exact Hcj|]. by rewrite Hk. }
  split; [by exists cj|]. intros s' Hl.
  set (sys2 := Instances.mk (Instances.states (Instances.mk (<[k := st]> (Instances.states sys)) s)) s').
  assert (state_of j sys2 = state_of j (Instances.mk (<[k := st]> (Instances.states sys)) s)) as Hsj by done.
  pose proof (truthful_later _ _ _ Hl (Ht j)) as Ht2.
  unfold call, is_leader. rewrite Hsj, Hcj, Hholds. unfold check_lock.
  destruct (pg_ping cj (Instances.server sys2)) as [[[[]|]|] s2] eqn:Ep; cbn [fst snd].
  - destruct (ping_answers _ _ _ Ep) as [Ha _]. cbn in Ha. destruct (later_ended _ _ _ Hl (Hiss _ Hcj) Hdead Ha).
  - split; [done|]. rewrite state_of_insert. by case_decide.
  - split; [done|]. rewrite state_of_insert. by case_decide.
Qed.
End Elector.

(** ** A server that grants the lock to the first that asks *)

Module ExampleServer.
Record t := mk { next : nat; lock : option Z; ended : gset Z }.

Definition sessions (s : t) : gset Z := list_to_set (Z.of_nat <$> seq 0 (next s)).
Definition open (c : Z) (s : t) : bool := bool_decide (c ∈ sessions s) && negb (bool_decide (c ∈ ended s)).
Definition held (s : t) : option Z := c ← lock s; if open c s then Some c else None.
Definition terminate (c : Z) (s : t) : t := mk (next s) (lock s) ({[c]} ∪ ended s).

#[global] Instance server : LockServer t := {
  pg_connect s := (Some (Ok (Z.of_nat (next s))), mk (S (next s)) (lock s) (ended s ∖ {[Z.of_nat (next s)]}));
  pg_ping c s := (if open c s then Some (Ok tt) else Some (Err "closed"%string), s);
  pg_try_advisory_lock _ c s :=
    if open c s then
      match held s with
      | Some h => (Some (Ok (bool_decide (h = c))), s)
      | None => (Some (Ok true), mk (next s) (Some c) (ended s))
      end
    else (None, s) }.

Lemma elem_of_sessions s c : c ∈ sessions s <-> 0 <= c < Z.of_nat (next s).
Proof.
  unfold sessions. rewrite elem_of_list_to_set, list_elem_of_fmap. split.
  - intros (n & -> & Hn%elem_of_seq). lia.
  - intros Hc. exists (Z.to_nat c). rewrite elem_of_seq. split; lia.
Qed.

Definition elapsed (s s' : t) : Prop :=
  (next s <= next s')%nat /\ (forall c, c ∈ sessions s -> c ∈ ended s -> c ∈ ended s')
  /\ (forall c, held s = Some c -> open c s' = true -> held s' = Some c).

Lemma open_true c s : open c s = true <-> c ∈ sessions s /\ c ∉ ended s.
Proof. unfold open. rewrite andb_true_iff, negb_true_iff, bool_decide_eq_true, bool_decide_eq_false. done. Qed.
Lemma held_open s c : held s = Some c -> open c s = true.
Proof. unfold held. intros (c' & _ & H)%bind_Some. destruct (open c' s) eqn:E; by simplify_eq. Qed.

Lemma elapsed_refl s : elapsed s s.
Proof. by split. Qed.

Lemma elapsed_trans s1 s2 s3 : elapsed s1 s2 -> elapsed s2 s3 -> elapsed s1 s3.
Proof.
  intros (Hn & He & Hh) (Hn' & He' & Hh'). split; [lia|].
  assert (forall c, c ∈ sessions s1 -> c ∈ sessions s2) as Hs by (intros c; rewrite !elem_of_sessions; lia).
  split; [auto|]. intros c Hc Ho. apply Hh'; [|done]. apply Hh; [done|].
  apply held_open, open_true in Hc as [Hc _]. apply open_true in Ho as [_ Ho]. apply open_true.
  split; [auto|]. intros Hd. apply Ho. auto.
Qed.

Lemma elapsed_same s s' : next s' = next s -> ended s' = ended s ->
  (forall c, held s = Some c -> lock s' = Some c) -> elapsed s s'.
Proof.
  intros Hn He Hl. split; [lia|]. split; [by rewrite He|]. intros c Hc Ho. unfold held. rewrite (Hl c Hc). cbv [mbind option_bind]. by rewrite Ho.
Qed.

Lemma elapsed_connect s : elapsed s (mk (S (next s)) (lock s) (ended s ∖ {[Z.of_nat (next s)]})).
Proof.
  split; [cbn; lia|]. split.
  - intros c Hc He. cbn. apply elem_of_sessions in Hc. set_solver by lia.
  - intros c Hc Ho. unfold held in *. cbn [lock]. apply bind_Some in Hc as (c' & -> & Hc). cbv [mbind option_bind].
    destruct (open c' s); simplify_eq.
    match goal with |- (if ?b then _ else _) = _ => change b with (open c (mk (S (next s)) (lock s) (ended s ∖ {[Z.of_nat (next s)]}))) end.
    by rewrite Ho.
Qed.

#[global] Instance server_laws : LockServerLaws t.
Proof.
  refine {| issued := sessions; live s c := open c s = true; holder s _ := held s; later := elapsed |}.
  - apply elapsed_refl.
  - apply elapsed_trans.
  - intros s s' (Hn & _) c. rewrite !elem_of_sessions. lia.
  - intros s s' c (Hn & He & _) Hc Hno [_ Ho]%open_true. apply Hno, open_true. split; [done|]. intros Hd. auto.
  - intros s s' key c (_ & _ & Hh). auto.
  - intros s r s' [= <- <-]. apply elapsed_connect.
  - intros c s r s' [= <- <-]. apply elapsed_refl.
  - intros key c s r s'. cbn. destruct (open c s) eqn:Eo; [|intros [= <- <-]; apply elapsed_refl].
    destruct (held s) eqn:Eh; intros [= <- <-]; [apply elapsed_refl|]. apply elapsed_same; [done|done|intros; congruence].
  - intros s c s' [= <- <-]. rewrite !elem_of_sessions. cbn. lia.
  - intros c s s'. cbn. destruct (open c s) eqn:Eo; intros [= <-]. done.
  - intros key c s s'. cbn. destruct (open c s) eqn:Eo; [|done].
    destruct (held s) as [h|] eqn:Eh; [intros [= Hb <-]; case_bool_decide; congruence|]. intros [= <-].
    unfold held. cbn [lock]. cbv [mbind option_bind]. change (open c _) with (open c s). by rewrite Eo.
Defined.

Lemma elapsed_terminate c s : elapsed s (terminate c s).
Proof.
  split; [cbn; lia|]. split; [set_solver|]. intros c' Hc Ho. unfold held in *. cbn [lock terminate].
  apply bind_Some in Hc as (c0 & E & Hc). rewrite E. cbv [mbind option_bind].
  destruct (open c0 s); simplify_eq. by rewrite Ho.
Qed.

(** Instance 0 leads, its session ends, instance 1 takes over. *)
Definition started : Instances.t t := (call 0 (Instances.mk ∅ (mk 0 None ∅))).2.
Definition severed : Instances.t t := Instances.mk (Instances.states started) (terminate 0 (Instances.server started)).

Lemma severed_reachable : reachable severed.
Proof.
  eapply reachable_step; [eapply reachable_step; [apply (reachable_start (mk 0 None ∅))|apply (step_call _ 0)]|].
  apply step_server, elapsed_terminate.
Qed.

Lemma leader_is_unique_witness :
  (call 1 severed).1 = true /\ LockState.holds (state_of 0 (call 1 severed).2) = true
  /\ (call 0 (call 1 severed).2).1 = false.
Proof.
  assert ((call 1 severed).1 = true) as H1 by (vm_compute; reflexivity).
  assert (LockState.holds (state_of 0 (call 1 severed).2) = true) as H0 by (vm_compute; reflexivity).
  split; [exact H1|]. split; [exact H0|].
  destruct (leader_is_unique severed 1 severed_reachable H1) as [_ H].
  destruct (H 0%nat ltac:(discriminate) H0) as [_ Hnext].
  exact (proj1 (Hnext _ (elapsed_refl (Instances.server (call 1 severed).2)))).
Defined.
End ExampleServer.
