(* ===== verification/Database.v ===== *)
(** * Database: SQL statements, faults and transactions

    The database a repository module works on, for any tables [T].  Any
    statement may fail, as the list [faults] decides; a transaction that does
    not reach its commit leaves the tables as they were. *)

From Stdlib Require Import Ascii String ZArith Lia.
From stdpp Require Import base tactics list strings.
From S2P Require Import Prelude.

Local Open Scope string_scope.
Local Open Scope list_scope.
Local Open Scope ruscker_scope.

(** The database and which of the next statements fail; once the list is
    used up, none does. *)
Module ConfigDb.
Record t {T : Type} := mk { tables : T; faults : list bool }.
Arguments t : clear implicits.
Arguments mk {T}.
End ConfigDb.

(** An error carries its context; a violated primary key is told apart. *)
Inductive DbError := Failed (context : string) | UniqueViolation (context : string).
Abbreviation DbResult A := (Result A DbError).

Definition map_err_context {A} (context : string) (r : DbResult A) : DbResult A := result_map_err (fun _ => Failed context) r.

(** The end of a transaction's body: commit, or return with the transaction
    dropped. *)
Inductive TxEnd (A : Type) := Commit (a : A) | Dropped (a : A).
Arguments Commit {A} a.
Arguments Dropped {A} a.

Section Statements.
Context {T : Type}.
Abbreviation M A := (St (ConfigDb.t T) A).

(** One statement; [context] is what [with_context] adds to its error. *)
Definition statement {A} (context : string) (f : T -> A * T) : M (DbResult A) := fun db =>
  let run rest := (Ok (f (ConfigDb.tables db)).1, ConfigDb.mk (f (ConfigDb.tables db)).2 rest) in
  match ConfigDb.faults db with
  | [] => run []
  | true :: rest => (Err (Failed context), ConfigDb.mk (ConfigDb.tables db) rest)
  | false :: rest => run rest
  end.

Definition query {A} (context : string) (f : T -> A) : M (DbResult A) := statement context (fun s => (f s, s)).
Definition execute (context : string) (f : T -> T) : M (DbResult unit) := statement context (fun s => (tt, f s)).
Definition lift {A} (r : DbResult A) : M (DbResult A) := st_ret r.

(** A statement that a constraint of the schema may reject: [f] is [None]
    when it does. *)
Definition constrained {A} (context : string) (f : T -> option (A * T)) : M (DbResult A) :=
  do? r <- statement context (fun s => match f s with Some (a, s') => (Some a, s') | None => (None, s) end);
  lift (match r with Some a => Ok a | None => Err (Failed context) end).

(** [others] is what other connections commit while this one is open; a
    rollback undoes only what the body did. *)
Definition transaction_beside {A} (others : T -> T) (begin_context commit_context : string)
    (body : M (DbResult (TxEnd A))) : M (DbResult A) :=
  do? u <- query begin_context (fun _ => tt);
  fun db =>
    let rollback db' := ConfigDb.mk (others (ConfigDb.tables db)) (ConfigDb.faults db') in
    match body db with
    | (Ok (Commit a), db') =>
      match query commit_context (fun _ => tt) db' with
      | (Ok _, db'') => (Ok a, db'')
      | (Err e, db'') => (Err e, rollback db'')
      end
    | (Ok (Dropped a), db') => (Ok a, rollback db')
    | (Err e, db') => (Err e, rollback db')
    end.

Definition transaction {A} := @transaction_beside A (fun s => s).

(** ** What they do to the tables *)

Lemma statement_inv {A} context (f : T -> A * T) db r db' :
  statement context f db = (r, db') ->
  (r = Err (Failed context) /\ ConfigDb.tables db' = ConfigDb.tables db)
  \/ (r = Ok (f (ConfigDb.tables db)).1 /\ ConfigDb.tables db' = (f (ConfigDb.tables db)).2).
Proof. unfold statement. destruct (ConfigDb.faults db) as [|[] rest]; intros [= <- <-]; auto. Qed.

Lemma query_inv {A} context (f : T -> A) db r db' :
  query context f db = (r, db') ->
  ConfigDb.tables db' = ConfigDb.tables db /\ (r = Err (Failed context) \/ r = Ok (f (ConfigDb.tables db))).
Proof. intros [[-> ->]|[-> ->]]%statement_inv; auto. Qed.

Lemma execute_Ok context f db u db' :
  execute context f db = (Ok u, db') -> ConfigDb.tables db' = f (ConfigDb.tables db).
Proof. intros [[? ?]|[? ->]]%statement_inv; by simplify_eq. Qed.

Lemma lift_Ok {A} (r : DbResult A) db a db' : lift r db = (Ok a, db') -> r = Ok a /\ db' = db.
Proof. by intros [= -> ->]. Qed.

Lemma constrained_inv {A} context (f : T -> option (A * T)) db r db' :
  constrained context f db = (r, db') ->
  (r = Err (Failed context) /\ ConfigDb.tables db' = ConfigDb.tables db)
  \/ exists a, r = Ok a /\ f (ConfigDb.tables db) = Some (a, ConfigDb.tables db').
Proof.
  unfold constrained. intros [(x & db1 & Hs & Hl)|(e & Hs & ->)]%try_bind_inv; apply statement_inv in Hs.
  - destruct Hs as [[? ?]|[Hx Ht]]; [by simplify_eq|]. injection Hl as <- <-. injection Hx as ->. rewrite Ht.
    destruct (f (ConfigDb.tables db)) as [[a s']|]; [right; by exists a|by left].
  - destruct Hs as [[[= ->] ?]|[? ?]]; [by left|by simplify_eq].
Qed.

Lemma transaction_beside_inv {A} others b c (body : M (DbResult (TxEnd A))) db r db' :
  transaction_beside others b c body db = (r, db') ->
  ConfigDb.tables db' = ConfigDb.tables db \/ ConfigDb.tables db' = others (ConfigDb.tables db)
  \/ exists a db1 db2, r = Ok a /\ ConfigDb.tables db1 = ConfigDb.tables db
       /\ body db1 = (Ok (Commit a), db2) /\ ConfigDb.tables db' = ConfigDb.tables db2.
Proof.
  unfold transaction_beside. intros [(u & db1 & Hq & Hb)|(e & Hq & ->)]%try_bind_inv;
    apply query_inv in Hq as [Ht _]; [|by left].
  destruct (body db1) as [[[a|a]|e] db2] eqn:Eb.
  - destruct (query c _ db2) as [[v|e] db3] eqn:Ec; injection Hb as <- <-; cbn; rewrite ?Ht; [|by right; left].
    right; right. apply query_inv in Ec as [Et _]. exists a, db1, db2. auto.
  - injection Hb as <- <-. cbn. rewrite Ht. by right; left.
  - injection Hb as <- <-. cbn. rewrite Ht. by right; left.
Qed.

(** A transaction either commits its body or leaves the tables alone. *)
Lemma transaction_inv {A} b c (body : M (DbResult (TxEnd A))) db r db' :
  transaction b c body db = (r, db') ->
  ConfigDb.tables db' = ConfigDb.tables db
  \/ exists a db1 db2, r = Ok a /\ ConfigDb.tables db1 = ConfigDb.tables db
       /\ body db1 = (Ok (Commit a), db2) /\ ConfigDb.tables db' = ConfigDb.tables db2.
Proof. intros [?|[?|?]]%transaction_beside_inv; auto. Qed.

Lemma transaction_Err {A} b c (body : M (DbResult (TxEnd A))) db e db' :
  transaction b c body db = (Err e, db') -> ConfigDb.tables db' = ConfigDb.tables db.
Proof. intros [?|(a & db1 & db2 & [=] & _)]%transaction_inv; auto. Qed.

Lemma transaction_Ok {A} b c (body : M (DbResult (TxEnd A))) db a db' :
  transaction b c body db = (Ok a, db') ->
  exists db1 db2 x, ConfigDb.tables db1 = ConfigDb.tables db /\ body db1 = (Ok x, db2)
    /\ (x = Commit a \/ x = Dropped a) /\ (x = Commit a -> ConfigDb.tables db' = ConfigDb.tables db2).
Proof.
  unfold transaction, transaction_beside. intros (u & db1 & [Ht _]%query_inv & Hb)%try_bind_Ok.
  destruct (body db1) as [[[x|x]|e] db2] eqn:Eb; [|injection Hb as -> <-; exists db1, db2, (Dropped a); by split_and!; [| |right|]|done].
  destruct (query c _ db2) as [[v|e] db3] eqn:Ec; [|done]. injection Hb as -> <-.
  apply query_inv in Ec as [Et _]. exists db1, db2, (Commit a). by split_and!; [| |left|].
Qed.

(** The three ends of a transaction. *)
Lemma transaction_outcome {A} b c (body : M (DbResult (TxEnd A))) db r db' :
  transaction b c body db = (r, db') ->
  (exists e, r = Err e /\ ConfigDb.tables db' = ConfigDb.tables db)
  \/ exists a db1 db2, r = Ok a /\ ConfigDb.tables db1 = ConfigDb.tables db
       /\ ((body db1 = (Ok (Commit a), db2) /\ ConfigDb.tables db' = ConfigDb.tables db2)
           \/ (body db1 = (Ok (Dropped a), db2) /\ ConfigDb.tables db' = ConfigDb.tables db)).
Proof.
  unfold transaction, transaction_beside. intros [(u & db1 & [Ht _]%query_inv & Hb)|(e & [Ht _]%query_inv & ->)]%try_bind_inv; [|left; eauto].
  destruct (body db1) as [[[a|a]|e] db2] eqn:Eb.
  - destruct (query c _ db2) as [[v|e] db3] eqn:Ec; injection Hb as <- <-; [|left; cbn; eauto].
    right. apply query_inv in Ec as [Et _]. exists a, db1, db2. auto.
  - injection Hb as <- <-. right. exists a, db1, db2. cbn. auto.
  - injection Hb as <- <-. left. cbn. eauto.
Qed.

(** On a database whose statements succeed. *)
Lemma statement_no_faults {A} context (f : T -> A * T) s :
  statement context f (ConfigDb.mk s []) = (Ok (f s).1, ConfigDb.mk (f s).2 []).
Proof. reflexivity. Qed.

Lemma constrained_healthy {A} context (f : T -> option (A * T)) s :
  constrained context f (ConfigDb.mk s [])
  = match f s with Some (a, s') => (Ok a, ConfigDb.mk s' []) | None => (Err (Failed context), ConfigDb.mk s []) end.
Proof. unfold constrained, try_bind, st_bind. cbn. by destruct (f s) as [[a s']|]. Qed.

Lemma transaction_healthy {A} b c (body : M (DbResult (TxEnd A))) s r s' :
  body (ConfigDb.mk s []) = (r, ConfigDb.mk s' []) ->
  transaction b c body (ConfigDb.mk s [])
  = match r with
    | Ok (Commit a) => (Ok a, ConfigDb.mk s' [])
    | Ok (Dropped a) => (Ok a, ConfigDb.mk s [])
    | Err e => (Err e, ConfigDb.mk s [])
    end.
Proof. intros E. unfold transaction, transaction_beside, try_bind, st_bind. cbn. rewrite E. by destruct r as [[a|a]|e]. Qed.
End Statements.

(** ** What a program does to the tables, step by step

    A preorder on the tables holds across a program when it holds across each
    of its statements; a rollback leaves the tables as they were. *)

Definition on_tables {T} (R : T -> T -> Prop) (db db' : ConfigDb.t T) : Prop := R (ConfigDb.tables db) (ConfigDb.tables db').

#[export] Instance on_tables_preorder {T} (R : T -> T -> Prop) `{!PreOrder R} : PreOrder (on_tables R).
Proof.
  split; [intros db; unfold on_tables; reflexivity|].
  intros a b c Hab Hbc. unfold on_tables in *. by etransitivity.
Qed.

Section PreservesTables.
Context {T : Type} (R : T -> T -> Prop) `{!PreOrder R}.

Lemma preserves_statement {A} context (f : T -> A * T) :
  (forall s, R s (f s).2) -> preserves (on_tables R) (statement context f).
Proof.
  intros Hf db. destruct (statement context f db) as [r db'] eqn:E. unfold on_tables. cbn [snd].
  apply statement_inv in E as [[_ ->]|[_ ->]]; [reflexivity|apply Hf].
Qed.

Lemma preserves_query {A} context (f : T -> A) : preserves (on_tables R) (query context f).
Proof. apply preserves_statement. intros s. cbn. reflexivity. Qed.

Lemma preserves_execute context f : (forall s, R s (f s)) -> preserves (on_tables R) (execute context f).
Proof. intros Hf. by apply preserves_statement. Qed.

Lemma preserves_result {A} (r : DbResult A) : preserves (on_tables R) (lift r).
Proof. by apply preserves_ret, _. Qed.

Lemma preserves_constrained {A} context (f : T -> option (A * T)) :
  (forall s a s', f s = Some (a, s') -> R s s') -> preserves (on_tables R) (constrained context f).
Proof.
  intros Hf. apply preserves_try; [apply _| |intros ?; apply preserves_result].
  apply preserves_statement. intros s. destruct (f s) as [[a s']|] eqn:E; cbn; [by eapply Hf|reflexivity].
Qed.

Lemma preserves_transaction {A} b c (body : St (ConfigDb.t T) (DbResult (TxEnd A))) :
  preserves (on_tables R) body -> preserves (on_tables R) (transaction b c body).
Proof.
  intros Hb db. destruct (transaction b c body db) as [r db'] eqn:E. unfold on_tables. cbn [snd].
  apply transaction_inv in E as [->|(a & db1 & db2 & _ & <- & Hbody & ->)]; [reflexivity|].
  specialize (Hb db1). by rewrite Hbody in Hb.
Qed.
End PreservesTables.

#[export] Hint Extern 1 (preserves (on_tables _) (query _ _)) => apply preserves_query; apply _ : preserves.
#[export] Hint Extern 1 (preserves (on_tables _) (lift _)) => apply preserves_result; apply _ : preserves.

(** Walk through a program of statements; leaves the writing ones. *)
Ltac tables_step :=
  match goal with
  | |- preserves (on_tables _) (transaction _ _ _) => apply preserves_transaction; [apply _|]
  end.
Ltac tables_auto := repeat (tables_step || preserves_step || (progress eauto with preserves)).
