(* ===== verification/SessionsPg.v ===== *)
(** * SessionsPg: the shared session store (ruscker-admin/src/sessions_pg.rs)

    [PostgresSessionStore] over the table [proxy_sessions], as another
    implementation of the interface of Sessions, and the cluster of nodes
    that share the table, each with its own registry and its own count.  The
    reference is the store of one node: InMemorySessionStore.  A statement
    takes its time from the server; the statements of one sweep run at one
    time.  Timeouts are exact as doubles (below 2^53 milliseconds). *)

From Stdlib Require Import ZArith Lia.
From stdpp Require Import base tactics list gmap strings fin_maps numbers.
From S2P Require Import Prelude Text Schema Core Sessions Database.

Local Open Scope string_scope.
Local Open Scope list_scope.
Local Open Scope Z_scope.
Local Open Scope ruscker_scope.

(** ** The table and the store *)

Module SessionRow.
Record t := mk { spec_id : string; replica_id : ReplicaId; instance_id : Uuid; created_at : Z; last_seen : Z }.
Definition touched (now : Z) (me : Uuid) (r : t) : t := mk (spec_id r) (replica_id r) me (created_at r) now.
(** What another implementation of the interface keeps of it. *)
Definition entry (r : t) : SessionEntry.t := SessionEntry.mk (spec_id r) (replica_id r) (last_seen r).
End SessionRow.

Abbreviation SessionRows := (gmap Uuid SessionRow.t).
Abbreviation Pool := (ConfigDb.t SessionRows).

Module PostgresSessionStore.
Record t := mk { pool : Pool; instance_id : Uuid; local_len : Z }.
Definition set_pool (x : Pool) (s : t) : t := mk x (instance_id s) (local_len s).
Definition set_local_len (x : Z) (s : t) : t := mk (pool s) (instance_id s) x.

(** [from_pool]; the table is made if it is not there. *)
Definition from_pool (pool : Pool) (new_v4 : Uuid) : t := mk pool new_v4 0.
End PostgresSessionStore.

Module TouchRow.
Record t := mk { inserted : bool; took_over : bool }.
End TouchRow.

(** The registry and the store a call works on. *)
Abbreviation PgState := (ReplicaRegistry * PostgresSessionStore.t)%type.
Abbreviation PgM A := (St PgState A).

Definition on_pool {A} (m : St Pool A) : PgM A := fun '(reg, s) =>
  let (a, pool) := m (PostgresSessionStore.pool s) in (a, (reg, PostgresSessionStore.set_pool pool s)).

Definition on_registry (f : ReplicaRegistry -> ReplicaRegistry) : PgM unit := fun '(reg, s) => (tt, (f reg, s)).
Definition me : PgM Uuid := st_get (fun st => PostgresSessionStore.instance_id st.2).
Definition store_len (n : Z) : PgM unit := fun '(reg, s) => (tt, (reg, PostgresSessionStore.set_local_len (Z.max 0 n) s)).
Definition bump_len : PgM unit := fun '(reg, s) =>
  (tt, (reg, PostgresSessionStore.set_local_len (usize_wrapping_add (PostgresSessionStore.local_len s) 1) s)).

(** ** Statements *)

(** The upsert; [prev] is the owner the statement's snapshot has, the conflict
    is with the row there when it writes. *)
Definition touch_row (prev : option Uuid) (session_id : Uuid) (spec_id : string) (replica_id : ReplicaId) (me : Uuid) (now : Z)
    (rows : SessionRows) : TouchRow.t * SessionRows :=
  let row := match rows !! session_id with
             | Some r => SessionRow.touched now me r
             | None => SessionRow.mk spec_id replica_id me now now
             end in
  let inserted := SessionRow.created_at row =? SessionRow.last_seen row in
  (TouchRow.mk inserted (negb inserted && negb (bool_decide (prev = Some me))), <[session_id := row]> rows).

Definition try_touch (session_id : Uuid) (spec_id : string) (replica_id : ReplicaId) (me : Uuid) (now : Z)
  : St Pool (DbResult TouchRow.t) :=
  statement "touch" (fun rows =>
    touch_row (SessionRow.instance_id <$> rows !! session_id) session_id spec_id replica_id me now rows).

Definition rows_on (replica_id : ReplicaId) (rows : SessionRows) : SessionRows :=
  filter (fun kv => SessionRow.replica_id kv.2 = replica_id) rows.
Definition rows_of (me : Uuid) (rows : SessionRows) : SessionRows :=
  filter (fun kv => SessionRow.instance_id kv.2 = me) rows.

(** [n.max(0) as u32] *)
Definition count_u32 (n : Z) : Z := as_u32 (Z.max 0 n).

Definition count_for_replica (replica_id : ReplicaId) : St Pool (DbResult Z) :=
  query "count" (fun rows => count_u32 (Z.of_nat (size (rows_on replica_id rows)))).

Definition count_mine (me : Uuid) : St Pool (DbResult Z) :=
  query "mine" (fun rows => Z.of_nat (size (rows_of me rows))).

(** A [DELETE] and how many rows it took. *)
Definition delete_rows (p : SessionRow.t -> bool) : St Pool (DbResult nat) :=
  statement "delete" (fun rows =>
    (size (filter (fun kv => p kv.2 = true) rows), filter (fun kv => p kv.2 = false) rows)).

Definition idle (now ms : Z) (r : SessionRow.t) : bool := SessionRow.last_seen r <? now - from_millis ms.

(** [GROUP BY replica_id] *)
Definition group_counts (rows : SessionRows) : gmap ReplicaId Z :=
  map_fold (fun _ r acc => <[SessionRow.replica_id r := count_u32 (Z.of_nat (size (rows_on (SessionRow.replica_id r) rows)))]> acc) ∅ rows.

(** ** The store *)

Definition global_pass (now global_ms : Z) (overrides : gmap string Z) (is_leader : bool) : St Pool (DbResult nat) :=
  if is_leader && (0 <=? global_ms) then
    delete_rows (fun r => idle now global_ms r && negb (bool_decide (is_Some (overrides !! SessionRow.spec_id r))))
  else st_ret (Ok 0%nat).

Fixpoint override_passes (now : Z) (overrides : list (string * Z)) (is_leader : bool) (evicted : nat) : St Pool (DbResult nat) :=
  match overrides with
  | [] => st_ret (Ok evicted)
  | (spec_id, ms) :: rest =>
    if negb is_leader || (ms <? 0) then override_passes now rest is_leader evicted
    else
      do? n <- delete_rows (fun r => idle now ms r && str_eqb (SessionRow.spec_id r) spec_id);
      override_passes now rest is_leader (evicted + n)%nat
  end.

Definition try_sweep (now global_ms : Z) (overrides : gmap string Z) (is_leader : bool) : PgM (DbResult nat) :=
  do? evicted <- on_pool (global_pass now global_ms overrides is_leader);
  do? evicted <- on_pool (override_passes now (map_to_list overrides) is_leader evicted);
  do? counts <- on_pool (query "counts" group_counts);
  do! on_registry (Registry.set_session_counts counts);
  do i <- me;
  do? mine <- on_pool (count_mine i);
  do! store_len mine;
  st_ret (Ok evicted).

Definition touch_or_register (now : Z) (session_id : Uuid) (spec_id : string) (replica_id : ReplicaId) (seat_reserved : bool)
  : PgM TouchOutcome.t :=
  do i <- me;
  do touched <- on_pool (try_touch session_id spec_id replica_id i now);
  match touched with
  | Ok (TouchRow.mk true _) =>
    do counted <- on_pool (count_for_replica replica_id);
    do! match counted with
        | Ok n => on_registry (Registry.set_session_count replica_id n)
        | Err _ => if seat_reserved then st_ret tt else on_registry (Registry.inc_sessions replica_id)
        end;
    do! bump_len;
    st_ret TouchOutcome.Registered
  | Ok (TouchRow.mk false true) => do! bump_len; st_ret TouchOutcome.Touched
  | Ok (TouchRow.mk false false) | Err _ => st_ret TouchOutcome.Touched
  end.

Definition sweep (now global_ms : Z) (overrides : gmap string Z) (is_leader : bool) : PgM nat :=
  do r <- try_sweep now global_ms overrides is_leader;
  st_ret (match r with Ok n => n | Err _ => 0%nat end).

(** The refresh of the node's count after a definite removal. *)
Definition refresh_len : PgM unit :=
  do i <- me;
  do mine <- on_pool (count_mine i);
  match mine with Ok n => store_len n | Err _ => st_ret tt end.

Definition drop_rows (replica_id : ReplicaId) : PgM nat :=
  do removed <- on_pool (delete_rows (fun r => bool_decide (SessionRow.replica_id r = replica_id)));
  match removed with
  | Err _ => st_ret 0%nat
  | Ok n => do! refresh_len; st_ret n
  end.

(** [DELETE .. RETURNING replica_id] *)
Definition delete_session (session_id : Uuid) : St Pool (DbResult (option ReplicaId)) :=
  statement "end" (fun rows => (SessionRow.replica_id <$> rows !! session_id, delete session_id rows)).

Definition end_session (session_id : Uuid) : PgM bool :=
  do row <- on_pool (delete_session session_id);
  match row with
  | Ok (Some replica_id) =>
    do counted <- on_pool (count_for_replica replica_id);
    do! match counted with Ok n => on_registry (Registry.set_session_count replica_id n) | Err _ => st_ret tt end;
    do! refresh_len;
    st_ret true
  | Ok None | Err _ => st_ret false
  end.

(** [drop_replica] has no registry: it runs on an empty one. *)
Definition drop_replica (replica_id : ReplicaId) (s : PostgresSessionStore.t) : nat * PostgresSessionStore.t :=
  let '(n, (_, s')) := drop_rows replica_id (Registry.empty, s) in (n, s').

Definition tracked (rows : SessionRows) (i : ReplicaId) : nat := size (rows_on i rows).

#[global] Instance postgres : SessionStore PostgresSessionStore.t := {
  Sessions.touch_or_register now sid spec rid reserved reg s := touch_or_register now sid spec rid reserved (reg, s);
  Sessions.sweep now global overrides leader reg s := sweep now global overrides leader (reg, s);
  Sessions.drop_replica := drop_replica;
  Sessions.end_session sid reg s := end_session sid (reg, s);
  Sessions.len s := Z.to_nat (PostgresSessionStore.local_len s);
  Sessions.tracked s := tracked (ConfigDb.tables (PostgresSessionStore.pool s)) }.

(** ** What the operations do when no statement fails *)

Section Healthy.
Implicit Types (rows : SessionRows) (reg : ReplicaRegistry) (s : PostgresSessionStore.t).

Abbreviation rows_in s := (ConfigDb.tables (PostgresSessionStore.pool s)).
Definition healthy s : Prop := ConfigDb.faults (PostgresSessionStore.pool s) = [].

Lemma statement_healthy {T A} context (f : T -> A * T) (db : ConfigDb.t T) :
  ConfigDb.faults db = [] -> statement context f db = (Ok (f (ConfigDb.tables db)).1, ConfigDb.mk (f (ConfigDb.tables db)).2 []).
Proof. unfold statement. by intros ->. Qed.

Lemma on_pool_healthy {A} context (f : SessionRows -> A * SessionRows) reg s :
  healthy s -> on_pool (statement context f) (reg, s)
  = (Ok (f (rows_in s)).1, (reg, PostgresSessionStore.set_pool (ConfigDb.mk (f (rows_in s)).2 []) s)).
Proof. intros Hs. unfold on_pool. by rewrite statement_healthy. Qed.

(** [s'] is [s] on other rows, all statements still answered. *)
Definition becomes rows s s' : Prop :=
  healthy s' /\ rows_in s' = rows /\ PostgresSessionStore.instance_id s' = PostgresSessionStore.instance_id s.

Lemma touch_healthy now sid spec rid reserved reg s :
  healthy s ->
  let me := PostgresSessionStore.instance_id s in
  let '(row, rows) := touch_row (SessionRow.instance_id <$> rows_in s !! sid) sid spec rid me now (rows_in s) in
  exists s', becomes rows s s' /\
    touch_or_register now sid spec rid reserved (reg, s)
    = (if TouchRow.inserted row then TouchOutcome.Registered else TouchOutcome.Touched,
       (if TouchRow.inserted row then Registry.set_session_count rid (count_u32 (Z.of_nat (tracked rows rid))) reg else reg, s')).
Proof.
  intros Hs. cbn zeta. destruct (touch_row _ _ _ _ _ _ _) as [[inserted took] rows] eqn:E. cbn [TouchRow.inserted].
  unfold touch_or_register, st_bind, me, st_get, try_touch. cbn [snd]. rewrite on_pool_healthy by done. cbn beta. rewrite E. cbn [fst snd].
  destruct inserted; [|destruct took; eexists; (split; [|reflexivity]); by repeat split].
  unfold count_for_replica, query. rewrite on_pool_healthy by done. cbn. eexists. split; [|reflexivity]. by repeat split.
Qed.

(** *** Sweeps *)

Definition reaped (now : Z) (overrides : list (string * Z)) (r : SessionRow.t) : bool :=
  existsb (fun o => (0 <=? o.2) && idle now o.2 r && str_eqb (SessionRow.spec_id r) o.1) overrides.

Lemma size_filter_split (p : SessionRow.t -> bool) rows :
  (size (filter (fun kv => p kv.2 = true) rows) + size (filter (fun kv => p kv.2 = false) rows) = size rows)%nat.
Proof.
  induction rows as [|sid r rows Hn IH] using map_ind; [by rewrite !map_filter_empty, !map_size_empty|].
  rewrite !map_filter_insert. cbn. rewrite map_size_insert_None by done. destruct (p r).
  - rewrite decide_True, decide_False by done. rewrite map_size_insert_None by (apply map_lookup_filter_None; auto).
    rewrite map_filter_delete, delete_id by (apply map_lookup_filter_None; auto). lia.
  - rewrite decide_False, decide_True by done. rewrite map_size_insert_None by (apply map_lookup_filter_None; auto).
    rewrite map_filter_delete, delete_id by (apply map_lookup_filter_None; auto). lia.
Qed.

(** What a sequence of deletions leaves and reports. *)
Definition deletes (p : SessionRow.t -> bool) (m : St Pool (DbResult nat)) (n0 : nat) : Prop :=
  forall db, ConfigDb.faults db = [] -> exists n, 
    m db = (Ok (n0 + n)%nat, ConfigDb.mk (filter (fun kv => p kv.2 = false) (ConfigDb.tables db)) [])
    /\ (n + size (filter (fun kv => p kv.2 = false) (ConfigDb.tables db)) = size (ConfigDb.tables db))%nat.

Lemma delete_rows_deletes p : deletes p (delete_rows p) 0.
Proof.
  intros db Hf. unfold delete_rows. rewrite statement_healthy by done. cbn. eexists. split; [reflexivity|]. apply size_filter_split.
Qed.

Lemma deletes_none p n0 : (forall r, p r = false) -> deletes p (st_ret (Ok n0)) n0.
Proof.
  intros Hp [rows faults] Hf. cbn in Hf |- *. subst. exists 0%nat. rewrite Nat.add_0_r.
  rewrite map_filter_id by (intros; apply Hp). done.
Qed.

Lemma deletes_ext p q m n0 : (forall r, p r = q r) -> deletes p m n0 -> deletes q m n0.
Proof.
  intros Hpq Hm db Hf. destruct (Hm db Hf) as (n & E & Hn). exists n.
  assert (filter (fun kv => p kv.2 = false) (ConfigDb.tables db) = filter (fun kv => q kv.2 = false) (ConfigDb.tables db)) as <-; [|done].
  apply map_filter_ext. intros sid r _. cbn. by rewrite Hpq.
Qed.

(** One deletion after another. *)
Lemma deletes_then p q m k n0 :
  deletes p m 0 -> (forall n, deletes q (k n) (n0 + n)) -> deletes (fun r => p r || q r) (try_bind m k) n0.
Proof.
  intros Hm Hk db Hf. destruct (Hm db Hf) as (n & E & Hn). unfold try_bind, st_bind. rewrite E. cbn [plus].
  destruct (Hk n (ConfigDb.mk (filter (fun kv => p kv.2 = false) (ConfigDb.tables db)) []) eq_refl) as (n' & E' & Hn').
  cbn [ConfigDb.tables] in *. exists (n + n')%nat.
  assert (filter (fun kv => q kv.2 = false) (filter (fun kv => p kv.2 = false) (ConfigDb.tables db))
    = filter (fun kv => p kv.2 || q kv.2 = false) (ConfigDb.tables db)) as Hext.
  { rewrite map_filter_filter. apply map_filter_ext. intros sid r _. cbn. rewrite orb_false_iff. tauto. }
  rewrite Hext in E', Hn'. rewrite E'. split; [by rewrite Nat.add_assoc|lia].
Qed.

Lemma override_passes_deletes now l n0 : deletes (reaped now l) (override_passes now l true n0) n0.
Proof.
  revert n0; induction l as [|[spec ms] l IH]; intros n0; cbn [override_passes]; [by apply deletes_none|].
  cbn [negb orb]. destruct (ms <? 0) eqn:Hms.
  - eapply deletes_ext; [|apply IH]. intros r. cbn. by replace (0 <=? ms) with false by lia.
  - eapply deletes_ext; [|apply deletes_then; [apply delete_rows_deletes|intros n; apply IH]].
    intros r. cbn. by replace (0 <=? ms) with true by lia.
Qed.

(** The rows a healthy sweep of the leader leaves are those the single-node
    store keeps. *)
Definition stale (now global_ms : Z) (overrides : gmap string Z) (r : SessionRow.t) : bool :=
  InMemorySessionStore.expired now global_ms overrides (SessionRow.entry r).

Lemma idle_millis now ms r : 0 <= ms -> idle now ms r = (from_millis ms <? duration_since now (SessionRow.last_seen r)).
Proof. intros. unfold idle, duration_since, saturating_sub, from_millis. apply eq_true_iff_eq. rewrite !Z.ltb_lt. lia. Qed.

Lemma stale_spec now global_ms overrides r :
  stale now global_ms overrides r
  = (((0 <=? global_ms) && (idle now global_ms r && negb (bool_decide (is_Some (overrides !! SessionRow.spec_id r)))))
     || reaped now (map_to_list overrides) r)%bool.
Proof.
  unfold stale, InMemorySessionStore.expired, InMemorySessionStore.effective_timeout. cbn.
  assert (reaped now (map_to_list overrides) r = true <->
    exists ms, overrides !! SessionRow.spec_id r = Some ms /\ 0 <= ms /\ idle now ms r = true) as Hr.
  { unfold reaped. rewrite existsb_exists. split.
    - intros ([spec ms] & Hin%list_elem_of_In%elem_of_map_to_list & Hb). cbn in Hb.
      apply andb_true_iff in Hb as [[Hms Hi]%andb_true_iff Hs]. apply str_eqb_eq in Hs as <-. exists ms. apply Z.leb_le in Hms. auto.
    - intros (ms & Hl & Hms & Hi). exists (SessionRow.spec_id r, ms). split; [by apply list_elem_of_In, elem_of_map_to_list|].
      cbn. rewrite Hi, str_eqb_refl. apply Z.leb_le in Hms. by rewrite Hms. }
  destruct (overrides !! SessionRow.spec_id r) as [ms|] eqn:El.
  - change (default global_ms (Some ms)) with ms. rewrite bool_decide_eq_true_2 by eauto. rewrite andb_false_r, andb_false_r. cbn [orb]. destruct (Z.ltb_spec ms 0).
    + symmetry. apply not_true_iff_false. rewrite Hr. intros (ms' & [= <-] & ? & _). lia.
    + apply eq_true_iff_eq. rewrite Hr, <- idle_millis by lia. split; [intros Hi; by exists ms|]. by intros (ms' & [= <-] & _ & ?).
  - change (default global_ms None) with global_ms. rewrite bool_decide_eq_false_2 by (by intros [? [=]]). cbn [negb]. rewrite andb_true_r.
    assert (reaped now (map_to_list overrides) r = false) as -> by (apply not_true_iff_false; rewrite Hr; by intros (? & [=] & _)).
    rewrite orb_false_r. destruct (Z.ltb_spec global_ms 0); [by replace (0 <=? global_ms) with false by lia|].
    rewrite <- idle_millis by lia. by replace (0 <=? global_ms) with true by lia.
Qed.

Lemma on_pool_try {A C} (m : St Pool (DbResult A)) (k : A -> St Pool (DbResult C)) st :
  on_pool (try_bind m k) st = try_bind (on_pool m) (fun a => on_pool (k a)) st.
Proof.
  destruct st as [reg s]. unfold on_pool, try_bind, st_bind, st_ret. destruct (m _) as [[a|e] pool]; [|done].
  by destruct (k a _).
Qed.

Lemma on_pool_run {A} (m : St Pool A) a pool reg s :
  m (PostgresSessionStore.pool s) = (a, pool) -> on_pool m (reg, s) = (a, (reg, PostgresSessionStore.set_pool pool s)).
Proof. unfold on_pool. by intros ->. Qed.

(** The deletions of a sweep. *)
Lemma passes_deletes now global_ms overrides :
  deletes (stale now global_ms overrides)
    (do? n <- global_pass now global_ms overrides true; override_passes now (map_to_list overrides) true n) 0.
Proof.
  eapply deletes_ext; [intros r; symmetry; apply stale_spec|]. apply deletes_then; [|intros n; apply override_passes_deletes].
  unfold global_pass. cbn [andb]. destruct (0 <=? global_ms); [apply delete_rows_deletes|by apply deletes_none].
Qed.

Lemma follower_passes now global_ms overrides db :
  (do? n <- global_pass now global_ms overrides false; override_passes now (map_to_list overrides) false n) db = (Ok 0%nat, db).
Proof.
  unfold global_pass, try_bind, st_bind, st_ret. cbn.
  induction (map_to_list overrides) as [|[spec ms] l IH]; [done|]. exact IH.
Qed.

(** The single-node store with the same sessions. *)
Definition entries rows : InMemorySessionStore.t := SessionRow.entry <$> rows.

Lemma tracked_entries rows i : InMemorySessionStore.tracked (entries rows) i = tracked rows i.
Proof.
  unfold InMemorySessionStore.tracked, tracked, rows_on, entries. rewrite map_filter_fmap, map_size_fmap. done.
Qed.

Lemma group_counts_lookup rows i :
  default 0 (group_counts rows !! i) = count_u32 (Z.of_nat (tracked rows i)).
Proof.
  set (c := fun j => count_u32 (Z.of_nat (size (rows_on j rows)))).
  assert (forall m : SessionRows, map_fold (fun _ r acc => <[SessionRow.replica_id r := c (SessionRow.replica_id r)]> acc) (∅ : gmap ReplicaId Z) m !! i
    = if (tracked m i =? 0)%nat then None else Some (c i)) as Hfold.
  { intros m. apply (map_fold_weak_ind (fun (acc : gmap ReplicaId Z) (m : SessionRows) => acc !! i
      = if (tracked m i =? 0)%nat then None else Some (c i))); [done|].
    intros sid r m' acc Hn IH. rewrite <- !tracked_entries in *. unfold entries in *. rewrite fmap_insert.
    rewrite InMemorySessionStore.tracked_insert_fresh by (by rewrite lookup_fmap, Hn). cbn.
    destruct (decide (i = SessionRow.replica_id r)) as [->|Hne].
    - rewrite lookup_insert_eq. by destruct (Nat.eqb_spec (InMemorySessionStore.tracked (SessionRow.entry <$> m') (SessionRow.replica_id r) + 1) 0); [lia|].
    - rewrite lookup_insert_ne, IH, Nat.add_0_r by done. done. }
  unfold group_counts. rewrite Hfold. destruct (Nat.eqb_spec (tracked rows i) 0) as [E|_]; [by rewrite E|done].
Qed.

Lemma try_bind_assoc {S A C D E} (m : St S (Result A E)) (k : A -> St S (Result C E)) (f : C -> St S (Result D E)) st :
  try_bind m (fun a => try_bind (k a) f) st = try_bind (try_bind m k) f st.
Proof. unfold try_bind, st_bind, st_ret. by destruct (m st) as [[a|e] st']. Qed.

Definition swept (now global_ms : Z) (overrides : gmap string Z) (is_leader : bool) rows : SessionRows :=
  if is_leader then filter (fun kv => stale now global_ms overrides kv.2 = false) rows else rows.

Lemma sweep_healthy now global_ms overrides is_leader reg s :
  healthy s ->
  let rows := swept now global_ms overrides is_leader (rows_in s) in
  exists n s', becomes rows s s'
    /\ PostgresSessionStore.local_len s' = Z.of_nat (size (rows_of (PostgresSessionStore.instance_id s) rows))
    /\ sweep now global_ms overrides is_leader (reg, s) = (n, (Registry.set_session_counts (group_counts rows) reg, s'))
    /\ (n + size rows = size (rows_in s))%nat.
Proof.
  intros Hs rows.
  assert (exists n, (do? n <- global_pass now global_ms overrides is_leader;
    override_passes now (map_to_list overrides) is_leader n) (PostgresSessionStore.pool s) = (Ok n, ConfigDb.mk rows [])
    /\ (n + size rows = size (rows_in s))%nat) as (n & E & Hn).
  { destruct is_leader.
    - destruct (passes_deletes now global_ms overrides _ Hs) as (n & E & Hn). exists n. split; [exact E|exact Hn].
    - exists 0%nat. rewrite follower_passes. split; [|done]. destruct s as [[rows0 faults] i l]. unfold healthy in Hs. cbn in *. by subst. }
  unfold sweep, try_sweep, st_bind at 1. rewrite try_bind_assoc.
  unfold try_bind at 1, st_bind at 1. rewrite <- on_pool_try. erewrite on_pool_run by exact E.
  set (s1 := PostgresSessionStore.set_pool (ConfigDb.mk rows []) s). assert (healthy s1) as Hs1 by done.
  unfold query. unfold try_bind at 1, st_bind at 1. rewrite on_pool_healthy by done. cbn.
  eexists n, _. split; [|split; [|split; [reflexivity|done]]]; [by repeat split|]. cbn. lia.
Qed.

Lemma refresh_healthy reg s :
  healthy s -> exists s', becomes (rows_in s) s s' /\ refresh_len (reg, s) = (tt, (reg, s')).
Proof.
  intros Hs. unfold refresh_len, st_bind, me, st_get, count_mine, query. cbn [snd]. rewrite on_pool_healthy by done.
  eexists. split; [|reflexivity]. by repeat split.
Qed.

Lemma drop_healthy rid s :
  healthy s -> exists s',
    becomes (filter (fun kv => SessionRow.replica_id kv.2 <> rid) (rows_in s)) s s'
    /\ drop_replica rid s = (tracked (rows_in s) rid, s').
Proof.
  intros Hs. unfold drop_replica, drop_rows, st_bind, delete_rows. rewrite on_pool_healthy by done. cbn [fst snd].
  match goal with |- context [refresh_len (_, ?s1)] => set (s1' := s1); destruct (refresh_healthy Registry.empty s1') as (s' & Hb & E) end; [done|].
  rewrite E. cbn. exists s'. split.
  - destruct Hb as (Hh & Hr & Hi). split; [done|]. split; [|done]. rewrite Hr. cbn. apply map_filter_ext. intros sid r _. cbn.
    by rewrite bool_decide_eq_false.
  - f_equal. unfold tracked, rows_on. f_equal. apply map_filter_ext. intros sid r _. cbn. by rewrite bool_decide_eq_true.
Qed.

Lemma end_healthy sid reg s :
  healthy s -> exists s' reg', becomes (delete sid (rows_in s)) s s'
    /\ end_session sid (reg, s) = (bool_decide (is_Some (rows_in s !! sid)), (reg', s')).
Proof.
  intros Hs. unfold end_session, st_bind at 1, delete_session. rewrite on_pool_healthy by done. cbn [fst snd].
  destruct (rows_in s !! sid) as [r|] eqn:Er; cbn [fmap option_fmap option_map].
  - unfold st_bind at 1, count_for_replica, query. rewrite on_pool_healthy by done. cbn [fst snd].
    unfold st_bind at 1 2. unfold on_registry at 1. cbn.
    eexists _, _. split; [|reflexivity]. by repeat split.
  - eexists _, _. split; [|reflexivity]. by repeat split.
Qed.
End Healthy.

(** ** Several nodes on one table *)

Module PgNode.
Record t := mk { registry : ReplicaRegistry; instance_id : Uuid; local_len : Z }.
End PgNode.

Module PgCluster.
Record t := mk { table : Pool; nodes : nat -> PgNode.t }.
End PgCluster.

(** A call on one node. *)
Inductive call :=
| Touch (session_id : Uuid) (spec_id : string) (replica_id : ReplicaId) (seat_reserved : bool)
| Sweep (global_ms : Z) (overrides : gmap string Z) (is_leader : bool)
| Drop (replica_id : ReplicaId)
| End (session_id : Uuid).

Inductive answer := Outcome (o : TouchOutcome.t) | Count (n : nat) | Ended (b : bool).

(** A call through the interface, on any store. *)
Definition run_call {S : Type} `{SessionStore S} (now : Z) (c : call) (reg : ReplicaRegistry) (s : S)
  : answer * (ReplicaRegistry * S) :=
  match c with
  | Touch sid spec rid reserved =>
    let '(o, st) := Sessions.touch_or_register now sid spec rid reserved reg s in (Outcome o, st)
  | Sweep global overrides leader => let '(n, st) := Sessions.sweep now global overrides leader reg s in (Count n, st)
  | Drop rid => let '(n, s') := Sessions.drop_replica rid s in (Count n, (reg, s'))
  | End sid => let '(b, st) := Sessions.end_session sid reg s in (Ended b, st)
  end.

Definition node_call (k : nat) (now : Z) (c : call) (sys : PgCluster.t) : answer * PgCluster.t :=
  let node := PgCluster.nodes sys k in
  let '(a, (reg, s)) := run_call now c (PgNode.registry node)
    (PostgresSessionStore.mk (PgCluster.table sys) (PgNode.instance_id node) (PgNode.local_len node)) in
  (a, PgCluster.mk (PostgresSessionStore.pool s)
        (fun j => if decide (j = k) then PgNode.mk reg (PostgresSessionStore.instance_id s) (PostgresSessionStore.local_len s)
                  else PgCluster.nodes sys j)).

Fixpoint cluster_run (l : list (nat * Z * call)) (sys : PgCluster.t) : list answer * PgCluster.t :=
  match l with
  | [] => ([], sys)
  | (k, now, c) :: l =>
    let (a, sys) := node_call k now c sys in
    let (answers, sys) := cluster_run l sys in (a :: answers, sys)
  end.

(** The store of one node, given the same calls; its registry is left out,
    and a follower's sweep evicts nothing. *)
Definition reference_call (now : Z) (c : call) (m : InMemorySessionStore.t) : answer * InMemorySessionStore.t :=
  match c with
  | Sweep _ _ false => (Count 0, m)
  | _ => let '(a, (_, m')) := run_call now c Registry.empty m in (a, m')
  end.

Fixpoint reference_run (l : list (nat * Z * call)) (m : InMemorySessionStore.t) : list answer * InMemorySessionStore.t :=
  match l with
  | [] => ([], m)
  | (_, now, c) :: l =>
    let (a, m) := reference_call now c m in
    let (answers, m) := reference_run l m in (a :: answers, m)
  end.

(** The server's clock moves between two statements. *)
Fixpoint clocked (t : Z) (l : list (nat * Z * call)) : Prop :=
  match l with [] => True | (_, now, _) :: l => t < now /\ clocked now l end.

Definition rows_wf (t : Z) (rows : SessionRows) : Prop :=
  forall sid r, rows !! sid = Some r -> SessionRow.created_at r <= SessionRow.last_seen r <= t.

Lemma rows_wf_sub t now rows rows' : rows' ⊆ rows -> t < now -> rows_wf t rows -> rows_wf now rows'.
Proof. intros Hsub Ht Hwf sid r Hr. eapply lookup_weaken in Hr; [|done]. apply Hwf in Hr. lia. Qed.

Lemma touch_row_reference prev sid spec rid me t now rows :
  rows_wf t rows -> t < now ->
  let '(row, rows') := touch_row prev sid spec rid me now rows in
  rows_wf now rows'
  /\ InMemorySessionStore.touch_or_register now sid spec rid true Registry.empty (entries rows)
     = (if TouchRow.inserted row then TouchOutcome.Registered else TouchOutcome.Touched, (Registry.empty, entries rows')).
Proof.
  intros Hwf Ht. unfold touch_row, InMemorySessionStore.touch_or_register, entries. cbn. rewrite lookup_fmap.
  destruct (rows !! sid) as [r|] eqn:Er; cbn.
  - pose proof (Hwf _ _ Er) as Hr. replace (SessionRow.created_at r =? now) with false by lia. split.
    + intros i r' [[<- <-]|[_ Hi]]%lookup_insert_Some; [cbn; lia|]. apply Hwf in Hi. lia.
    + by rewrite fmap_insert.
  - rewrite Z.eqb_refl. split; [|by rewrite fmap_insert].
    intros i r' [[<- <-]|[_ Hi]]%lookup_insert_Some; [cbn; lia|]. apply Hwf in Hi. lia.
Qed.

Lemma entries_filter (p : SessionEntry.t -> Prop) `{!forall e, Decision (p e)} rows :
  entries (filter (fun kv => p (SessionRow.entry kv.2)) rows) = filter (fun kv => p kv.2) (entries rows).
Proof. unfold entries. by rewrite map_filter_fmap. Qed.

(** One call on a healthy table. *)
Lemma node_call_reference k now c sys t :
  ConfigDb.faults (PgCluster.table sys) = [] -> rows_wf t (ConfigDb.tables (PgCluster.table sys)) -> t < now ->
  let '(a, sys') := node_call k now c sys in
  ConfigDb.faults (PgCluster.table sys') = [] /\ rows_wf now (ConfigDb.tables (PgCluster.table sys'))
  /\ reference_call now c (entries (ConfigDb.tables (PgCluster.table sys)))
     = (a, entries (ConfigDb.tables (PgCluster.table sys'))).
Proof.
  intros Hf Hwf Ht. unfold node_call. destruct (PgCluster.nodes sys k) as [reg i n]. cbn [PgNode.registry PgNode.instance_id PgNode.local_len].
  set (s := PostgresSessionStore.mk (PgCluster.table sys) i n). assert (healthy s) as Hs by exact Hf.
  destruct c as [sid spec rid reserved|g ov leader|rid|sid];
    cbn -[InMemorySessionStore.sweep InMemorySessionStore.drop_replica touch_or_register sweep drop_replica end_session].
  - pose proof (touch_healthy now sid spec rid reserved reg s Hs) as Htouch. cbn zeta in Htouch.
    match type of Htouch with let '(_, _) := touch_row ?p _ _ _ ?m _ ?rs in _ =>
      pose proof (touch_row_reference p sid spec rid m t now rs Hwf Ht) as Href end.
    destruct (touch_row _ _ _ _ _ _ _) as [row rows]. destruct Href as [Hwf' Href].
    destruct Htouch as (s' & (Hh & Hr & _) & ->). cbn. rewrite Hr. split; [done|]. split; [done|].
    revert Href. unfold InMemorySessionStore.touch_or_register. cbn in *.
    destruct (entries (ConfigDb.tables (PgCluster.table sys)) !! sid); intros [= <- <-]; done.
  - destruct (sweep_healthy now g ov leader reg s Hs) as (m & s' & (Hh & Hr & _) & _ & E & Hn). cbn zeta in *. rewrite E. cbn -[InMemorySessionStore.sweep].
    rewrite Hr. split; [done|]. cbn in Hr, Hn. unfold swept in *. destruct leader; cbn -[InMemorySessionStore.sweep].
    + split; [eapply rows_wf_sub; [apply map_filter_subseteq|done|done]|].
      pose proof (InMemorySessionStore.sweep_store now g ov true Registry.empty (entries (ConfigDb.tables (PgCluster.table sys)))) as Hst.
      rewrite InMemorySessionStore.sweep_unfold in *. destruct (InMemorySessionStore.sweep_evict _ _ _) as [m' [reg' kept]] eqn:Ev. cbn in Hst |- *.
      apply InMemorySessionStore.sweep_evict_size in Ev. subst kept.
      pose proof (entries_filter (fun e => InMemorySessionStore.expired now g ov e = false) (ConfigDb.tables (PgCluster.table sys))) as He.
      unfold stale in *. rewrite <- He in *. unfold entries in Ev at 1 2. rewrite !map_size_fmap in Ev. do 2 f_equal. cbn in Hn. lia.
    + split; [eapply rows_wf_sub; done|]. do 2 f_equal. lia.
  - destruct (drop_healthy rid s Hs) as (s' & (Hh & Hr & _) & ->). cbn -[InMemorySessionStore.drop_replica]. rewrite Hr. split; [done|].
    split; [eapply rows_wf_sub; [apply map_filter_subseteq|done|done]|].
    rewrite InMemorySessionStore.drop_replica_store. rewrite tracked_entries. do 2 f_equal. cbn.
    unfold entries. rewrite map_filter_fmap. by f_equal.
  - destruct (end_healthy sid reg s Hs) as (s' & reg' & (Hh & Hr & _) & ->). cbn. rewrite Hr. split; [done|].
    split; [eapply rows_wf_sub; [apply delete_subseteq|done|done]|].
    unfold InMemorySessionStore.end_session, entries. cbn. rewrite lookup_fmap.
    destruct (ConfigDb.tables (PgCluster.table sys) !! sid) as [r|] eqn:Er; cbn.
    + by rewrite fmap_delete.
    + by rewrite delete_id.
Qed.

Lemma cluster_run_reference l t sys :
  ConfigDb.faults (PgCluster.table sys) = [] -> rows_wf t (ConfigDb.tables (PgCluster.table sys)) -> clocked t l ->
  let '(answers, sys') := cluster_run l sys in
  ConfigDb.faults (PgCluster.table sys') = []
  /\ reference_run l (entries (ConfigDb.tables (PgCluster.table sys)))
     = (answers, entries (ConfigDb.tables (PgCluster.table sys'))).
Proof.
  revert t sys; induction l as [|[[k now] c] l IH]; intros t sys Hf Hwf; cbn [cluster_run reference_run clocked]; [done|].
  intros [Ht Hl]. pose proof (node_call_reference k now c sys t Hf Hwf Ht) as Hc. destruct (node_call k now c sys) as [a sys1].
  destruct Hc as (Hf1 & Hwf1 & ->). specialize (IH now sys1 Hf1 Hwf1 Hl). destruct (cluster_run l sys1) as [answers sys'].
  destruct IH as [Hf' ->]. done.
Qed.

Module SharedStoreProperties.

(** C22. The shared store is one store.  Any number of nodes that start
    from an empty table and answer touches, sweeps, drops and logouts at
    increasing times, no statement failing, give the answers one in-memory
    store gives to the same calls, and the table is its contents; whoever
    sweeps next, leading or not, has for each of its replicas the number of
    sessions that store has on it, and counts the sessions it served last. *)
Theorem shared_store_refines l t sys :
  PgCluster.table sys = ConfigDb.mk ∅ [] -> clocked t l ->
  let '(answers, sys') := cluster_run l sys in
  let '(expected, m) := reference_run l InMemorySessionStore.new in
  answers = expected /\ entries (ConfigDb.tables (PgCluster.table sys')) = m
  /\ forall k now global_ms overrides,
       let '(_, sys2) := node_call k now (Sweep global_ms overrides false) sys' in
       let node := PgCluster.nodes sys2 k in
       (Registry.wf (PgNode.registry (PgCluster.nodes sys' k)) ->
        forall i r, Registry.by_id (PgNode.registry node) !! i = Some r ->
          Replica.sessions_active r = count_u32 (Z.of_nat (InMemorySessionStore.tracked m i)))
       /\ PgNode.local_len node
          = Z.of_nat (size (rows_of (PgNode.instance_id node) (ConfigDb.tables (PgCluster.table sys2)))).
Proof.
  intros Hsys Hl. pose proof (cluster_run_reference l t sys) as Hrun. rewrite Hsys in Hrun.
  specialize (Hrun eq_refl ltac:(intros i r Hi; cbn in Hi; by rewrite lookup_empty in Hi) Hl).
  destruct (cluster_run l sys) as [answers sys']. destruct Hrun as [Hf Hrun].
  change (entries (ConfigDb.tables (ConfigDb.mk ∅ []))) with (entries ∅) in Hrun.
  assert (entries ∅ = InMemorySessionStore.new) as Hempty by apply fmap_empty. rewrite Hempty in Hrun. rewrite Hrun.
  split; [done|]. split; [done|]. intros k now g ov. unfold node_call. destruct (PgCluster.nodes sys' k) as [reg i n] eqn:En.
  cbn [PgNode.registry PgNode.instance_id PgNode.local_len].
  set (s := PostgresSessionStore.mk (PgCluster.table sys') i n). assert (healthy s) as Hs by exact Hf.
  destruct (sweep_healthy now g ov false reg s Hs) as (m & s' & (Hh & Hr & Hi) & Hlen & E & _).
  cbn -[sweep] in *. rewrite E. cbn. rewrite decide_True by done. cbn. split.
  - intros Hwf j r. rewrite RegistryOps.by_id_set_session_counts by done. rewrite lookup_fmap. intros (r0 & Hr0 & ->)%fmap_Some. cbn.
    rewrite group_counts_lookup, tracked_entries. by apply Registry.by_id_lookup in Hr0 as [_ ->].
  - rewrite Hlen, Hi, Hr. done.
Qed.
End SharedStoreProperties.

(** ** Examples *)

Module SharedStoreExamples.
Definition replica (active : Z) : Replica.t := Replica.mk 1 "a" "c" "127.0.0.1:3838" ReplicaState.Ready 0 active 2 None.
Definition registry (active : Z) : ReplicaRegistry := Registry.add (replica active) Registry.empty.
Definition two_nodes : PgCluster.t :=
  PgCluster.mk (ConfigDb.mk ∅ []) (fun k => PgNode.mk (registry 0) (100 + N.of_nat k)%N 0).
Definition active_on (k : nat) (sys : PgCluster.t) : list Z :=
  map Replica.sessions_active (Registry.replicas_of (PgNode.registry (PgCluster.nodes sys k)) "a").

(** Node 0 registers two sessions, one fails over to node 1 and stays, the
    other expires. *)
Definition day : list (nat * Z * call) :=
  [(0%nat, 1, Touch 7 "a" 1 false); (0%nat, 2, Touch 8 "a" 1 false); (1%nat, from_secs 1, Touch 7 "a" 1 false);
   (1%nat, from_millis 1500, Sweep 1000 ∅ true)].

Lemma shared_store_refines_witness :
  clocked 0 day
  /\ (cluster_run day two_nodes).1
     = [Outcome TouchOutcome.Registered; Outcome TouchOutcome.Registered; Outcome TouchOutcome.Touched; Count 1]
  /\ (cluster_run day two_nodes).1 = (reference_run day InMemorySessionStore.new).1.
Proof.
  assert (clocked 0 day) as Hc by (vm_compute; auto).
  split; [exact Hc|]. split; [vm_compute; reflexivity|].
  pose proof (SharedStoreProperties.shared_store_refines day 0 two_nodes eq_refl Hc) as Hr.
  destruct (cluster_run day two_nodes) as [answers sys']. destruct (reference_run day InMemorySessionStore.new) as [expected m].
  exact (proj1 Hr).
Defined.

(** The follower learns of the sessions of its sibling at its own sweep. *)
Example follower_converges :
  let sys := (cluster_run day two_nodes).2 in
  active_on 0 sys = [2] /\ active_on 1 sys = [1]
  /\ active_on 0 (node_call 0 (from_secs 2) (Sweep 1000 ∅ false) sys).2 = [1].
Proof. vm_compute. auto. Qed.

(** Two requests have reserved the two seats of the replica at pick time.
    The first registers: the count becomes that of the table, and a third
    request is admitted. *)
Example reserved_seat_is_lost :
  let s := PostgresSessionStore.mk (ConfigDb.mk ∅ []) 100 0 in
  let reserved := Registry.inc_sessions 1 (Registry.inc_sessions 1 (registry 0)) in
  let '(_, (reg, s')) := touch_or_register 1 7 "a" 1 true (reserved, s) in
  map Replica.is_accepting (Registry.replicas_of reserved "a") = [false]
  /\ map Replica.sessions_active (Registry.replicas_of reg "a") = [1]
  /\ map Replica.is_accepting (Registry.replicas_of reg "a") = [true].
Proof. vm_compute. auto. Qed.

(** The in-memory store keeps both seats. *)
Example reserved_seat_is_kept_in_memory :
  let reserved := Registry.inc_sessions 1 (Registry.inc_sessions 1 (registry 0)) in
  let '(_, (reg, _)) := InMemorySessionStore.touch_or_register 1 7 "a" 1 true reserved InMemorySessionStore.new in
  map Replica.is_accepting (Registry.replicas_of reg "a") = [false].
Proof. vm_compute. auto. Qed.

(** Two first requests of one session on one node at once: the second
    statement began before the first committed, so its snapshot has no row.
    It waits, updates the row, takes itself for a new owner, and its time is
    the earlier one. *)
Example concurrent_first_touches :
  let '(first, rows) := touch_row None 7 "a" 1 100 5 ∅ in
  let '(second, rows) := touch_row None 7 "a" 1 100 4 rows in
  TouchRow.inserted first = true /\ TouchRow.inserted second = false /\ TouchRow.took_over second = true
  /\ map (fun kv => (SessionRow.created_at kv.2, SessionRow.last_seen kv.2)) (map_to_list rows) = [(5, 4)]
  /\ size (rows_of 100 rows) = 1%nat.
Proof. vm_compute. auto 6. Qed.
End SharedStoreExamples.
