(* ===== verification/SpecStore.v ===== *)
(** * SpecStore: the spec catalogue in the database (db/specs.rs)

    The tables the module writes, each function as the sequence of its SQL
    statements over Database's monad.  SQLite and Postgres run the same statements, so one definition
    stands for both arms.  Parameters: the JSON codec of a spec and of the
    settings blocks, the collation of ids, and the landing-page writes of an
    import. *)

From Corelib Require Import SpecFloat.
From Stdlib Require Import Ascii String ZArith Lia.
From stdpp Require Import base tactics list gmap strings sets fin_maps numbers sorting.
From S2P Require Import Prelude Text Schema Validate Database.

Local Open Scope string_scope.
Local Open Scope list_scope.
Local Open Scope Z_scope.
Local Open Scope ruscker_scope.

(** ** Tables *)

Module SpecRow.
Record t := mk {
  id : string;
  display_name : option string;
  description : option string;
  kind : string;
  container_image : option string;
  config_json : string;
  state : string;
  created_at : Z;
  updated_at : Z;
  version : Z;
  featured : bool }.
End SpecRow.

Module VersionRow.
Record t := mk { spec_id : string; version : Z; config_json : string; changed_at : Z; changed_by : option string }.
End VersionRow.

Module AuditRow.
Record t := mk {
  actor : option string; action : string; target : option string; diff_json : option string; occurred_at : Z }.
End AuditRow.

Module Tables.
Record t := mk {
  specs : gmap string SpecRow.t;
  spec_versions : list VersionRow.t;
  ruscker_images : gmap string Z;
  config_meta : gmap string (string * Z);
  audit_log : list AuditRow.t }.
Definition empty : t := mk ∅ [] ∅ ∅ [].
Definition set_specs (x : gmap string SpecRow.t) (s : t) : t :=
  mk x (spec_versions s) (ruscker_images s) (config_meta s) (audit_log s).
Definition set_spec_versions (x : list VersionRow.t) (s : t) : t :=
  mk (specs s) x (ruscker_images s) (config_meta s) (audit_log s).
Definition set_ruscker_images (x : gmap string Z) (s : t) : t :=
  mk (specs s) (spec_versions s) x (config_meta s) (audit_log s).
Definition set_config_meta (x : gmap string (string * Z)) (s : t) : t :=
  mk (specs s) (spec_versions s) (ruscker_images s) x (audit_log s).
Definition set_audit_log (x : list AuditRow.t) (s : t) : t :=
  mk (specs s) (spec_versions s) (ruscker_images s) (config_meta s) x.
End Tables.

Abbreviation Db := (ConfigDb.t Tables.t).
Abbreviation M A := (St Db A).

(** ** Codecs *)

Class SpecCodec := {
  (** serde_json on a [Spec], sorted keys *)
  to_json : Spec.t -> DbResult string;
  from_json : string -> DbResult Spec.t;
  proxy_json : Proxy.t -> DbResult string;
  server_json : Server.t -> DbResult string;
  logging_json : Logging.t -> DbResult string
}.

(** What is written is read back. *)
Class SpecCodecLaws `{SpecCodec} := { json_round_trip s j : to_json s = Ok j -> from_json j = Ok s }.

Inductive UpsertOutcome := Created | Updated | Unchanged.

Module ImportReport.
Record t := mk { created : Z; updated : Z; unchanged : Z }.
Definition default_report : t := mk 0 0 0.
End ImportReport.

Definition tally (report : ImportReport.t) (outcome : UpsertOutcome) : ImportReport.t :=
  match outcome with
  | Created => ImportReport.mk (ImportReport.created report + 1) (ImportReport.updated report) (ImportReport.unchanged report)
  | Updated => ImportReport.mk (ImportReport.created report) (ImportReport.updated report + 1) (ImportReport.unchanged report)
  | Unchanged => ImportReport.mk (ImportReport.created report) (ImportReport.updated report) (ImportReport.unchanged report + 1)
  end.

(** [json!({"created": .., "updated": .., "unchanged": ..})], keys sorted. *)
Definition import_diff (report : ImportReport.t) : string :=
  let key (k : string) (n : Z) := String "034" (k +:+ String "034" (":" +:+ show n)) in
  "{" +:+ key "created" (ImportReport.created report) +:+ "," +:+ key "unchanged" (ImportReport.unchanged report)
  +:+ "," +:+ key "updated" (ImportReport.updated report) +:+ "}".

Definition kind_str (spec : Spec.t) : string :=
  match Spec.kind spec with
  | SpecKind.Shiny => "shiny" | SpecKind.InteractiveApp => "interactive"
  | SpecKind.Api => "api" | SpecKind.External => "external"
  end.

Definition state_str (active : bool) : string := if active then "active" else "inactive".

Definition upsert_audit_action (outcome : UpsertOutcome) : option string :=
  match outcome with Created => Some "spec.create" | Updated => Some "spec.update" | Unchanged => None end.

Definition with_template_properties (props : gmap string YamlValue) (s : Spec.t) : Spec.t := {|
  Spec.id := Spec.id s; Spec.display_name := Spec.display_name s; Spec.description := Spec.description s;
  Spec.featured := Spec.featured s; Spec.container_image := Spec.container_image s;
  Spec.container_port := Spec.container_port s; Spec.platform := Spec.platform s;
  Spec.seats_per_container := Spec.seats_per_container s; Spec.max_lifetime := Spec.max_lifetime s;
  Spec.container_lifetime := Spec.container_lifetime s; Spec.heartbeat_timeout := Spec.heartbeat_timeout s;
  Spec.container_wait_time := Spec.container_wait_time s; Spec.stop_on_logout := Spec.stop_on_logout s;
  Spec.docker_registry_username := Spec.docker_registry_username s;
  Spec.docker_registry_password := Spec.docker_registry_password s;
  Spec.docker_registry_domain := Spec.docker_registry_domain s;
  Spec.docker_registry_credential := Spec.docker_registry_credential s;
  Spec.container_cpu_limit := Spec.container_cpu_limit s; Spec.container_cpu_request := Spec.container_cpu_request s;
  Spec.container_memory_limit := Spec.container_memory_limit s;
  Spec.container_memory_request := Spec.container_memory_request s; Spec.max_body_size := Spec.max_body_size s;
  Spec.volumes := Spec.volumes s; Spec.container_env := Spec.container_env s; Spec.container_cmd := Spec.container_cmd s;
  Spec.container_network := Spec.container_network s; Spec.labels := Spec.labels s;
  Spec.access_groups := Spec.access_groups s; Spec.access_users := Spec.access_users s;
  Spec.require_mfa := Spec.require_mfa s; Spec.mfa_validity_days := Spec.mfa_validity_days s;
  Spec.add_default_http_headers := Spec.add_default_http_headers s; Spec.identity_claims := Spec.identity_claims s;
  Spec.template_properties := props; Spec.kind_override := Spec.kind_override s; Spec.api := Spec.api s;
  Spec.min_replicas := Spec.min_replicas s; Spec.max_replicas := Spec.max_replicas s;
  Spec.scale_up_threshold := Spec.scale_up_threshold s; Spec.scale_down_threshold := Spec.scale_down_threshold s;
  Spec.scale_down_grace := Spec.scale_down_grace s; Spec.scale_down_cooldown_secs := Spec.scale_down_cooldown_secs s;
  Spec.drain_timeout := Spec.drain_timeout s; Spec.routing_strategy := Spec.routing_strategy s;
  Spec.concurrent_requests_per_replica := Spec.concurrent_requests_per_replica s;
  Spec.placement := Spec.placement s; Spec.anti_affinity := Spec.anti_affinity s;
  Spec.inject_base_href := Spec.inject_base_href s |}.

(** ** Functions *)

Section Store.
Context `{SpecCodec} (collate : string -> string -> bool).

Definition canonical_json (spec : Spec.t) : DbResult string := to_json spec.

(** The statements of an upsert. *)
Definition record_image (spec : Spec.t) (now : Z) : M (DbResult unit) :=
  let img := trim (default "" (Spec.container_image spec)) in
  if str_is_empty img then st_ret (Ok tt)
  else execute ("record ruscker image for " +:+ Spec.id spec) (fun s =>
    Tables.set_ruscker_images
      (match Tables.ruscker_images s !! img with
       | Some _ => Tables.ruscker_images s | None => <[img := now]> (Tables.ruscker_images s) end) s).

Definition lookup_spec (context id : string) : M (DbResult (option (string * Z))) :=
  query context (fun s => (fun r => (SpecRow.config_json r, SpecRow.version r)) <$> Tables.specs s !! id).

Definition insert_row (spec : Spec.t) (config_json : string) (now : Z) : SpecRow.t :=
  SpecRow.mk (Spec.id spec) (Spec.display_name spec) (Spec.description spec) (kind_str spec)
    (Spec.container_image spec) config_json (state_str (TemplateProperties.is_active (Spec.template_properties spec)))
    now now 1 (Spec.is_featured spec).

Definition update_row (spec : Spec.t) (config_json : string) (now next_version : Z) (r : SpecRow.t) : SpecRow.t :=
  SpecRow.mk (SpecRow.id r) (Spec.display_name spec) (Spec.description spec) (kind_str spec)
    (Spec.container_image spec) config_json (state_str (TemplateProperties.is_active (Spec.template_properties spec)))
    (SpecRow.created_at r) now next_version (Spec.is_featured spec).

(** An [INSERT] of a taken primary key fails. *)
Definition insert_spec (spec : Spec.t) (config_json : string) (now : Z) : M (DbResult unit) :=
  do? taken <- statement ("insert spec " +:+ Spec.id spec) (fun s =>
    match Tables.specs s !! Spec.id spec with
    | Some _ => (true, s)
    | None => (false, Tables.set_specs (<[Spec.id spec := insert_row spec config_json now]> (Tables.specs s)) s)
    end);
  lift (if taken : bool then Err (UniqueViolation ("insert spec " +:+ Spec.id spec)) else Ok tt).

Definition add_version (context : string) (v : VersionRow.t) : M (DbResult unit) :=
  execute context (fun s => Tables.set_spec_versions (Tables.spec_versions s ++ [v]) s).

Definition add_audit (context : string) (a : AuditRow.t) : M (DbResult unit) :=
  execute context (fun s => Tables.set_audit_log (Tables.audit_log s ++ [a]) s).

Definition upsert_in_tx (spec : Spec.t) (now : Z) : M (DbResult UpsertOutcome) :=
  do? config_json <- lift (map_err_context ("serialize spec " +:+ Spec.id spec) (canonical_json spec));
  do? u <- record_image spec now;
  do? existing <- lookup_spec ("lookup spec " +:+ Spec.id spec) (Spec.id spec);
  match existing with
  | None =>
    do? u <- insert_spec spec config_json now;
    do? u <- add_version ("insert v1 history for " +:+ Spec.id spec) (VersionRow.mk (Spec.id spec) 1 config_json now None);
    st_ret (Ok Created)
  | Some (existing_json, version) =>
    if str_eqb existing_json config_json then st_ret (Ok Unchanged)
    else
      let next_version := version + 1 in
      do? u <- execute ("update spec " +:+ Spec.id spec) (fun s =>
        Tables.set_specs (alter (update_row spec config_json now next_version) (Spec.id spec) (Tables.specs s)) s);
      do? u <- add_version ("history v" +:+ show next_version +:+ " for " +:+ Spec.id spec)
        (VersionRow.mk (Spec.id spec) next_version config_json now None);
      st_ret (Ok Updated)
  end.

(** The Postgres twin runs the same statements. *)
Definition upsert_in_tx_pg (spec : Spec.t) (now : Z) : M (DbResult UpsertOutcome) := upsert_in_tx spec now.

Definition upsert_one (spec : Spec.t) (actor : option string) (now : Z) : M (DbResult UpsertOutcome) :=
  transaction "begin upsert tx" "commit upsert_one tx"
    (do? outcome <- upsert_in_tx spec now;
     do? u <- match upsert_audit_action outcome with
              | Some action => add_audit "audit upsert_one" (AuditRow.mk actor action (Some ("spec:" +:+ Spec.id spec)) None now)
              | None => st_ret (Ok tt)
              end;
     st_ret (Ok (Commit outcome))).

(** [interleaved] are the transactions of other connections that commit
    between the existence check and the upsert: none on SQLite, any under
    Postgres's read-committed default. *)
Definition insert_new (interleaved : Tables.t -> Tables.t) (spec : Spec.t) (actor : option string) (now : Z)
  : M (DbResult bool) :=
  transaction_beside interleaved "begin insert_new tx" "commit insert_new tx"
    (do? exists_ <- query "insert_new existence check" (fun s => Tables.specs s !! Spec.id spec);
     match exists_ with
     | Some _ => st_ret (Ok (Dropped false))
     | None =>
       do! st_modify (fun db => ConfigDb.mk (interleaved (ConfigDb.tables db)) (ConfigDb.faults db));
       do outcome <- upsert_in_tx spec now;
       match outcome with
       | Err (UniqueViolation _) => st_ret (Ok (Dropped false))
       | Err e => st_ret (Err e)
       | Ok _ =>
         do? u <- add_audit "audit insert_new" (AuditRow.mk actor "spec.create" (Some ("spec:" +:+ Spec.id spec)) None now);
         st_ret (Ok (Commit true))
       end
     end).

Definition fetch_version (id : string) : M (DbResult (option Z)) :=
  query ("fetch version of " +:+ id) (fun s => SpecRow.version <$> Tables.specs s !! id).

Definition fetch_one (id : string) : M (DbResult (option Spec.t)) :=
  do? row <- query ("fetch spec " +:+ id) (fun s => SpecRow.config_json <$> Tables.specs s !! id);
  lift (match row with
        | None => Ok None
        | Some json => result_map Some (map_err_context ("deserialize spec " +:+ id) (from_json json))
        end).

(** [interleaved]: what others commit between the read and the write. *)
Definition set_updated_if_absent (interleaved : Tables.t -> Tables.t) (id date : string) (actor : option string) (now : Z)
  : M (DbResult bool) :=
  do? found <- fetch_one id;
  match found with
  | None => st_ret (Ok false)
  | Some spec =>
    let has_date := match TemplateProperties.get_str (Spec.template_properties spec) "updated" with
                    | Some s => negb (str_is_empty (trim s)) | None => false end in
    if has_date then st_ret (Ok false)
    else
      do! st_modify (fun db => ConfigDb.mk (interleaved (ConfigDb.tables db)) (ConfigDb.faults db));
      do? u <- upsert_one (with_template_properties
                 (TemplateProperties.set_str (Spec.template_properties spec) "updated" date) spec) actor now;
      st_ret (Ok true)
  end.

(** [ON DELETE CASCADE] clears the history. *)
Definition delete_spec (id : string) (s : Tables.t) : Tables.t :=
  Tables.set_spec_versions (List.filter (fun v => negb (str_eqb (VersionRow.spec_id v) id)) (Tables.spec_versions s))
    (Tables.set_specs (delete id (Tables.specs s)) s).

Definition delete_one (id : string) (actor : option string) (now : Z) : M (DbResult bool) :=
  transaction "begin delete tx" "commit delete tx"
    (do? removed <- statement ("delete spec " +:+ id) (fun s =>
       match Tables.specs s !! id with Some _ => (true, delete_spec id s) | None => (false, s) end);
     do? u <- (if removed : bool
               then add_audit "audit delete" (AuditRow.mk actor "spec.delete" (Some ("spec:" +:+ id)) None now)
               else st_ret (Ok tt));
     st_ret (Ok (Commit removed))).

(** The new JSON and whether the state was that already. *)
Definition patch_state (id : string) (active : bool) (json : string) : DbResult (string * bool) :=
  let? spec := map_err_context ("deserialize spec " +:+ id) (from_json json) in
  let already := Bool.eqb (TemplateProperties.is_active (Spec.template_properties spec)) active in
  let spec' := with_template_properties
    (TemplateProperties.set_str (Spec.template_properties spec) "state" (state_str active)) spec in
  let? out := map_err_context ("serialize spec " +:+ id) (canonical_json spec') in
  Ok (out, already).

Definition set_state_row (config_json state : string) (next_version : Z) (r : SpecRow.t) : SpecRow.t :=
  SpecRow.mk (SpecRow.id r) (SpecRow.display_name r) (SpecRow.description r) (SpecRow.kind r) (SpecRow.container_image r)
    config_json state (SpecRow.created_at r) (SpecRow.updated_at r) next_version (SpecRow.featured r).

Definition set_state (id : string) (active : bool) (actor : option string) (now : Z) : M (DbResult bool) :=
  transaction "begin set_state tx" "commit set_state tx"
    (do? row <- lookup_spec ("lookup spec " +:+ id) id;
     match row with
     | None => st_ret (Ok (Dropped false))
     | Some (json, version) =>
       do? patched <- lift (patch_state id active json);
       let '(config_json, already) := patched in
       if already : bool then st_ret (Ok (Dropped true))
       else
         let next_version := version + 1 in
         do? u <- execute ("set state of " +:+ id) (fun s =>
           Tables.set_specs (alter (set_state_row config_json (state_str active) next_version) id (Tables.specs s)) s);
         do? u <- add_version ("history v" +:+ show next_version +:+ " for " +:+ id)
           (VersionRow.mk id next_version config_json now actor);
         do? u <- add_audit "audit set_state"
           (AuditRow.mk actor (if active then "spec.unarchive" else "spec.archive") (Some ("spec:" +:+ id)) None now);
         st_ret (Ok (Commit true))
     end).

(** *** Import *)

Fixpoint import_specs (specs : list Spec.t) (now : Z) (report : ImportReport.t) : M (DbResult ImportReport.t) :=
  match specs with
  | [] => st_ret (Ok report)
  | spec :: rest =>
    do? outcome <- upsert_in_tx spec now;
    import_specs rest now (tally report outcome)
  end.

Definition upsert_meta (key json : string) (now : Z) : M (DbResult unit) :=
  execute ("upsert config_meta[" +:+ key +:+ "]") (fun s =>
    Tables.set_config_meta (<[key := (json, now)]> (Tables.config_meta s)) s).

Definition import_audit (report : ImportReport.t) (now : Z) : M (DbResult unit) :=
  add_audit "audit import" (AuditRow.mk None "spec.import" None (Some (import_diff report)) now).

(** [landing] are the writes to the landing-page tables. *)
Definition import_all (landing : M (DbResult unit)) (config : Config.t) (now : Z) : M (DbResult ImportReport.t) :=
  do? proxy_meta <- lift (proxy_json (Config.proxy config));
  do? server_meta <- lift (server_json (Config.server config));
  do? logging_meta <- lift (logging_json (Config.logging config));
  transaction "begin import tx" "commit import tx"
    (do? report <- import_specs (Proxy.specs (Config.proxy config)) now ImportReport.default_report;
     do? u <- landing;
     do? u <- upsert_meta "proxy" proxy_meta now;
     do? u <- upsert_meta "server" server_meta now;
     do? u <- upsert_meta "logging" logging_meta now;
     do? u <- import_audit report now;
     st_ret (Ok (Commit report))).

Definition import_selected (config : Config.t) (ids : list string) (now : Z) : M (DbResult ImportReport.t) :=
  transaction "begin import tx" "commit import tx"
    (do? report <- import_specs (List.filter (fun s => existsb (str_eqb (Spec.id s)) ids) (Proxy.specs (Config.proxy config)))
                     now ImportReport.default_report;
     do? u <- import_audit report now;
     st_ret (Ok (Commit report))).

(** *** Reads *)

(** [ORDER BY created_at, id] *)
Definition row_le (a b : SpecRow.t) : Prop :=
  SpecRow.created_at a < SpecRow.created_at b
  \/ (SpecRow.created_at a = SpecRow.created_at b /\ collate (SpecRow.id a) (SpecRow.id b) = true).
#[global] Instance row_le_dec a b : Decision (row_le a b).
Proof. unfold row_le. apply _. Defined.

Definition ordered_rows (s : Tables.t) : list SpecRow.t := merge_sort row_le (snd <$> map_to_list (Tables.specs s)).

Fixpoint parse_rows (rows : list SpecRow.t) : DbResult (list Spec.t) :=
  match rows with
  | [] => Ok []
  | r :: rest =>
    let? s := map_err_context "deserialize spec row" (from_json (SpecRow.config_json r)) in
    let? l := parse_rows rest in
    Ok (s :: l)
  end.

Definition list_all : M (DbResult (list Spec.t)) :=
  do? rows <- query "list all specs" ordered_rows;
  lift (parse_rows rows).

Definition CatalogSignature : Type := Z * Z * option Z.

(** [COUNT], [SUM(version)], [MAX(updated_at)] *)
Definition sum_versions (m : gmap string SpecRow.t) : Z := map_fold (fun _ r acc => SpecRow.version r + acc) 0 m.
Definition max_updated (m : gmap string SpecRow.t) : option Z :=
  map_fold (fun _ r acc => Some (match acc with Some t => Z.max t (SpecRow.updated_at r) | None => SpecRow.updated_at r end)) None m.
Definition signature_of (s : Tables.t) : CatalogSignature :=
  (Z.of_nat (size (Tables.specs s)), sum_versions (Tables.specs s), max_updated (Tables.specs s)).

Definition catalog_signature : M (DbResult CatalogSignature) := query "catalog signature" signature_of.
End Store.

(** ** What the functions do to the tables *)

Section Effects.
Context `{SpecCodec} (collate : string -> string -> bool).

(** An upsert, a deletion and a state flip as functions on the tables. *)
Definition upserted (spec : Spec.t) (json : string) (now : Z) (s : Tables.t) : Tables.t :=
  let i := Spec.id spec in
  match Tables.specs s !! i with
  | None =>
    Tables.set_spec_versions (Tables.spec_versions s ++ [VersionRow.mk i 1 json now None])
      (Tables.set_specs (<[i := insert_row spec json now]> (Tables.specs s)) s)
  | Some r =>
    if str_eqb (SpecRow.config_json r) json then s
    else
      Tables.set_spec_versions (Tables.spec_versions s ++ [VersionRow.mk i (SpecRow.version r + 1) json now None])
        (Tables.set_specs (<[i := update_row spec json now (SpecRow.version r + 1) r]> (Tables.specs s)) s)
  end.

Definition outcome_of (spec : Spec.t) (json : string) (s : Tables.t) : UpsertOutcome :=
  match Tables.specs s !! Spec.id spec with
  | None => Created
  | Some r => if str_eqb (SpecRow.config_json r) json then Unchanged else Updated
  end.

Definition flipped (id : string) (active : bool) (actor : option string) (json : string) (now : Z) (r : SpecRow.t)
    (s : Tables.t) : Tables.t :=
  Tables.set_spec_versions (Tables.spec_versions s ++ [VersionRow.mk id (SpecRow.version r + 1) json now actor])
    (Tables.set_specs (<[id := set_state_row json (state_str active) (SpecRow.version r + 1) r]> (Tables.specs s)) s).

(** The catalogue proper. *)
Definition core (s : Tables.t) : gmap string SpecRow.t * list VersionRow.t := (Tables.specs s, Tables.spec_versions s).

Inductive effect (now : Z) (s s' : Tables.t) : Prop :=
| effect_elsewhere : core s' = core s -> effect now s s'
| effect_upsert spec json : canonical_json spec = Ok json -> core s' = core (upserted spec json now s) -> effect now s s'
| effect_delete id : core s' = core (delete_spec id s) -> effect now s s'
| effect_flip id active actor json r :
    Tables.specs s !! id = Some r -> patch_state id active (SpecRow.config_json r) = Ok (json, false) ->
    core s' = core (flipped id active actor json now r s) -> effect now s s'.

Definition effects (now : Z) : Tables.t -> Tables.t -> Prop := rtc (effect now).

(** *** Upsert *)

Lemma record_image_Ok spec now db u db' :
  record_image spec now db = (Ok u, db') -> core (ConfigDb.tables db') = core (ConfigDb.tables db).
Proof.
  unfold record_image. destruct (str_is_empty _); [by intros [= _ ->]|]. by intros ->%execute_Ok.
Qed.

Lemma add_audit_Ok context a db u db' :
  add_audit context a db = (Ok u, db') -> core (ConfigDb.tables db') = core (ConfigDb.tables db).
Proof. by intros ->%execute_Ok. Qed.

Lemma core_upserted spec json now s s' : core s = core s' -> core (upserted spec json now s) = core (upserted spec json now s').
Proof.
  intros [= Hs Hv]. unfold upserted. rewrite Hs. destruct (Tables.specs s' !! Spec.id spec) as [r|].
  - destruct (str_eqb _ _); unfold core; cbn; congruence.
  - unfold core; cbn; congruence.
Qed.

Lemma upsert_in_tx_Ok spec now db o db' :
  upsert_in_tx spec now db = (Ok o, db') ->
  exists json, canonical_json spec = Ok json /\ o = outcome_of spec json (ConfigDb.tables db)
    /\ core (ConfigDb.tables db') = core (upserted spec json now (ConfigDb.tables db)).
Proof.
  unfold upsert_in_tx. intros (json & db1 & Hj & Hrest)%try_bind_Ok. apply lift_Ok in Hj as [Hj ->].
  destruct (canonical_json spec) as [j|] eqn:Ej; [|done]. injection Hj as ->. exists json. split; [done|].
  apply try_bind_Ok in Hrest as (u & db2 & Hi & Hrest). apply record_image_Ok in Hi.
  apply try_bind_Ok in Hrest as (existing & db3 & Hl & Hrest). apply query_inv in Hl as [Ht [[=]|[= ->]]].
  unfold outcome_of. rewrite <- (core_upserted spec json now _ _ Hi).
  assert (Tables.specs (ConfigDb.tables db2) = Tables.specs (ConfigDb.tables db)) as <- by (by injection Hi).
  unfold upserted. destruct (Tables.specs (ConfigDb.tables db2) !! Spec.id spec) as [r|] eqn:Er; cbn [fmap option_fmap option_map] in Hrest.
  - destruct (str_eqb (SpecRow.config_json r) json) eqn:Eq; [injection Hrest as <- <-; by rewrite Ht|].
    apply try_bind_Ok in Hrest as (u1 & db4 & Hx & Hrest). apply execute_Ok in Hx.
    apply try_bind_Ok in Hrest as (u2 & db5 & Hv & Hrest). apply execute_Ok in Hv. injection Hrest as <- <-.
    split; [done|]. rewrite Hv, Hx, Ht. unfold core; cbn. f_equal. apply map_eq. intros k.
    destruct (decide (k = Spec.id spec)) as [->|Hk].
    + by rewrite lookup_alter_eq, lookup_insert_eq, Er.
    + by rewrite lookup_alter_ne, lookup_insert_ne by done.
  - apply try_bind_Ok in Hrest as (u1 & db4 & Hx & Hrest). unfold insert_spec in Hx.
    apply try_bind_Ok in Hx as (taken & db4' & Hs & Hx). apply statement_inv in Hs as [[[=] _]|[Hs Hs']].
    rewrite Ht, Er in Hs, Hs'. cbn in Hs, Hs'. injection Hs as ->. apply lift_Ok in Hx as [_ ->].
    apply try_bind_Ok in Hrest as (u2 & db5 & Hv & Hrest). apply execute_Ok in Hv. injection Hrest as <- <-.
    split; [done|]. by rewrite Hv, Hs'.
Qed.
End Effects.

(** *** Every write *)

Section Writes.
Context `{SpecCodec} (collate : string -> string -> bool).
(** The landing-page writes touch other tables. *)
Context (landing : M (DbResult unit)) (landing_elsewhere : forall db, ConfigDb.tables (landing db).2 = ConfigDb.tables db).

Inductive write :=
| UpsertOne (spec : Spec.t) (actor : option string)
| InsertNew (spec : Spec.t) (actor : option string)
| SetUpdatedIfAbsent (id date : string) (actor : option string)
| DeleteOne (id : string) (actor : option string)
| SetState (id : string) (active : bool) (actor : option string)
| ImportAll (config : Config.t)
| ImportSelected (config : Config.t) (ids : list string).

Definition ignore {A} (m : M (DbResult A)) : M (DbResult unit) := do? a <- m; st_ret (Ok tt).

(** No other connection commits inside a write. *)
Definition run_write (now : Z) (w : write) : M (DbResult unit) :=
  match w with
  | UpsertOne spec actor => ignore (upsert_one spec actor now)
  | InsertNew spec actor => ignore (insert_new (fun s => s) spec actor now)
  | SetUpdatedIfAbsent id date actor => ignore (set_updated_if_absent (fun s => s) id date actor now)
  | DeleteOne id actor => ignore (delete_one id actor now)
  | SetState id active actor => ignore (set_state id active actor now)
  | ImportAll config => ignore (import_all landing config now)
  | ImportSelected config ids => ignore (import_selected config ids now)
  end.

Lemma effects_core now s s1 s2 : core s1 = core s2 -> effects now s s1 -> effects now s s2.
Proof.
  intros Hc He. eapply rtc_r; [exact He|]. by apply effect_elsewhere.
Qed.

Lemma effects_upsert now s s' spec json :
  canonical_json spec = Ok json -> core s' = core (upserted spec json now s) -> effects now s s'.
Proof. intros. eapply rtc_once, effect_upsert; eauto. Qed.

Lemma effects_same now s s' : s' = s -> effects now s s'.
Proof. intros ->. apply rtc_refl. Qed.

Lemma audit_option_Ok context (o : option string) f db u db' :
  match o with Some action => add_audit context (f action) | None => st_ret (Ok tt) end db = (Ok u, db') ->
  core (ConfigDb.tables db') = core (ConfigDb.tables db).
Proof. destruct o; [apply add_audit_Ok|by intros [= _ ->]]. Qed.

Lemma upsert_one_effects now spec actor db r db' :
  upsert_one spec actor now db = (r, db') -> effects now (ConfigDb.tables db) (ConfigDb.tables db').
Proof.
  intros [E|(o & db1 & db2 & -> & E1 & Hb & E2)]%transaction_inv; [by apply effects_same|].
  apply try_bind_Ok in Hb as (out & db3 & Hu & Hb). apply upsert_in_tx_Ok in Hu as (json & Hj & _ & Hc).
  apply try_bind_Ok in Hb as (u & db4 & Ha & Hb). apply audit_option_Ok in Ha. injection Hb as _ <-.
  eapply effects_upsert; [done|]. by rewrite E2, Ha, Hc, E1.
Qed.

Lemma insert_new_effects now spec actor db r db' :
  insert_new (fun s => s) spec actor now db = (r, db') -> effects now (ConfigDb.tables db) (ConfigDb.tables db').
Proof.
  intros [E|[E|(b & db1 & db2 & -> & E1 & Hb & E2)]]%transaction_beside_inv; [by apply effects_same..|].
  apply try_bind_Ok in Hb as (found & db3 & Hq & Hb). apply query_inv in Hq as [Ht [[=]|[= ->]]].
  destruct (Tables.specs _ !! _); [done|].
  apply st_bind_inv in Hb as (u & db4 & Hm & Hb). injection Hm as _ <-.
  apply st_bind_inv in Hb as (out & db5 & Hu & Hb). destruct out as [out|[]]; [|by injection Hb..].
  apply upsert_in_tx_Ok in Hu as (json & Hj & _ & Hc). cbn in Hc.
  apply try_bind_Ok in Hb as (u' & db6 & Ha & Hb). apply add_audit_Ok in Ha. injection Hb as _ <-.
  eapply effects_upsert; [done|]. by rewrite E2, Ha, Hc, Ht, E1.
Qed.

Lemma fetch_one_tables id db r db' : fetch_one id db = (r, db') -> ConfigDb.tables db' = ConfigDb.tables db.
Proof.
  unfold fetch_one. intros [(row & db1 & Hq & Hl)|(e & Hq & ->)]%try_bind_inv; apply query_inv in Hq as [Ht _]; [|done].
  by injection Hl as _ <-.
Qed.

Lemma set_updated_effects now id date actor db r db' :
  set_updated_if_absent (fun s => s) id date actor now db = (r, db') -> effects now (ConfigDb.tables db) (ConfigDb.tables db').
Proof.
  unfold set_updated_if_absent. intros [(found & db1 & Hf & Hb)|(e & Hf & ->)]%try_bind_inv;
    apply fetch_one_tables in Hf; [|by apply effects_same].
  destruct found as [spec|]; [|injection Hb as _ <-; by apply effects_same].
  cbn zeta in Hb. match type of Hb with (if ?b then _ else _) _ = _ => destruct b end; [injection Hb as _ <-; by apply effects_same|].
  apply st_bind_inv in Hb as (u & db2 & Hm & Hb). injection Hm as _ <-.
  rewrite <- Hf. apply try_bind_inv in Hb as [(o & db3 & Hu & Hb)|(e & Hu & ->)]; apply upsert_one_effects in Hu; [|done].
  by injection Hb as _ <-.
Qed.

Lemma delete_one_effects now id actor db r db' :
  delete_one id actor now db = (r, db') -> effects now (ConfigDb.tables db) (ConfigDb.tables db').
Proof.
  intros [E|(o & db1 & db2 & -> & E1 & Hb & E2)]%transaction_inv; [by apply effects_same|].
  apply try_bind_Ok in Hb as (removed & db3 & Hs & Hb). apply statement_inv in Hs as [[[=] _]|[[= ->] Hs]].
  apply try_bind_Ok in Hb as (u & db4 & Ha & Hb). injection Hb as _ <-. rewrite E2. rewrite E1 in *.
  destruct (Tables.specs (ConfigDb.tables db) !! id); cbn in Ha, Hs.
  - apply add_audit_Ok in Ha. apply rtc_once, (effect_delete _ _ _ id). by rewrite Ha, Hs.
  - injection Ha as _ <-. by apply effects_same.
Qed.

Lemma set_state_effects now id active actor db r db' :
  set_state id active actor now db = (r, db') -> effects now (ConfigDb.tables db) (ConfigDb.tables db').
Proof.
  intros [E|(o & db1 & db2 & -> & E1 & Hb & E2)]%transaction_inv; [by apply effects_same|].
  apply try_bind_Ok in Hb as (row & db3 & Hq & Hb). apply query_inv in Hq as [Ht [[=]|[= ->]]].
  rewrite E1 in *. destruct (Tables.specs (ConfigDb.tables db) !! id) as [r|] eqn:Er; [|done]. cbn in Hb.
  destruct (patch_state id active (SpecRow.config_json r)) as [[json []]|] eqn:Hp; [done| |done].
  apply try_bind_Ok in Hb as (u1 & db5 & Hx & Hb). apply execute_Ok in Hx.
  apply try_bind_Ok in Hb as (u2 & db6 & Hv & Hb). apply execute_Ok in Hv.
  apply try_bind_Ok in Hb as (u3 & db7 & Ha & Hb). apply add_audit_Ok in Ha. injection Hb as _ <-.
  apply rtc_once. eapply effect_flip; [done|exact Hp|]. rewrite E2, Ha, Hv, Hx, Ht. unfold core; cbn. f_equal.
  apply map_eq. intros k. destruct (decide (k = id)) as [->|Hk].
  - by rewrite lookup_alter_eq, lookup_insert_eq, Er.
  - by rewrite lookup_alter_ne, lookup_insert_ne by done.
Qed.

Lemma import_specs_effects now specs report db rep db' :
  import_specs specs now report db = (Ok rep, db') -> effects now (ConfigDb.tables db) (ConfigDb.tables db').
Proof.
  revert report db; induction specs as [|spec specs IH]; intros report db; cbn [import_specs].
  - intros [= _ ->]. apply rtc_refl.
  - intros (o & db1 & Hu & Hr)%try_bind_Ok. apply upsert_in_tx_Ok in Hu as (json & Hj & _ & Hc).
    etransitivity; [by eapply effects_upsert|]. by eapply IH.
Qed.

Lemma run_write_effects now w db r db' :
  run_write now w db = (r, db') -> effects now (ConfigDb.tables db) (ConfigDb.tables db').
Proof.
  assert (forall A (m : M (DbResult A)),
    (forall r0 db0, m db = (r0, db0) -> effects now (ConfigDb.tables db) (ConfigDb.tables db0)) ->
    ignore m db = (r, db') -> effects now (ConfigDb.tables db) (ConfigDb.tables db')) as Hignore.
  { intros A m Hm [(a & db1 & E & [= _ <-])|(e & E & _)]%try_bind_inv; by eapply Hm. }
  destruct w; cbn [run_write]; apply Hignore; clear Hignore; intros r0 db0.
  - apply upsert_one_effects.
  - apply insert_new_effects.
  - apply set_updated_effects.
  - apply delete_one_effects.
  - apply set_state_effects.
  - unfold import_all, lift. unfold try_bind at 1, st_bind, st_ret. destruct (proxy_json _); [|intros [= _ <-]; apply rtc_refl].
    unfold try_bind at 1, st_bind, st_ret. destruct (server_json _); [|intros [= _ <-]; apply rtc_refl].
    unfold try_bind at 1, st_bind, st_ret. destruct (logging_json _); [|intros [= _ <-]; apply rtc_refl].
    intros [E|(o & db1 & db2 & -> & E1 & Hb & E2)]%transaction_inv; [by apply effects_same|].
    apply try_bind_Ok in Hb as (rep & db3 & Hi & Hb). apply import_specs_effects in Hi. rewrite <- E1, E2.
    apply try_bind_Ok in Hb as (u1 & db4 & Hl & Hb). pose proof (landing_elsewhere db3) as El. rewrite Hl in El. cbn in El.
    apply try_bind_Ok in Hb as (u2 & db5 & Hm1 & Hb). apply execute_Ok in Hm1.
    apply try_bind_Ok in Hb as (u3 & db6 & Hm2 & Hb). apply execute_Ok in Hm2.
    apply try_bind_Ok in Hb as (u4 & db7 & Hm3 & Hb). apply execute_Ok in Hm3.
    apply try_bind_Ok in Hb as (u5 & db8 & Ha & Hb). apply add_audit_Ok in Ha. injection Hb as _ <-.
    eapply effects_core; [|exact Hi]. by rewrite Ha, Hm3, Hm2, Hm1, El.
  - intros [E|(o & db1 & db2 & -> & E1 & Hb & E2)]%transaction_inv; [by apply effects_same|].
    apply try_bind_Ok in Hb as (rep & db3 & Hi & Hb). apply import_specs_effects in Hi. rewrite <- E1, E2.
    apply try_bind_Ok in Hb as (u5 & db8 & Ha & Hb). apply add_audit_Ok in Ha. injection Hb as _ <-.
    eapply effects_core; [|exact Hi]. by rewrite Ha.
Qed.
End Writes.

(** ** The store is well formed *)

Section WellFormed.
Context `{SpecCodecLaws} (collate : string -> string -> bool).

Definition history (i : string) (s : Tables.t) : list VersionRow.t :=
  List.filter (fun v => str_eqb (VersionRow.spec_id v) i) (Tables.spec_versions s).

(** The columns repeat what the JSON says. *)
Definition columns_agree (r : SpecRow.t) (spec : Spec.t) : Prop :=
  SpecRow.display_name r = Spec.display_name spec /\ SpecRow.description r = Spec.description spec
  /\ SpecRow.kind r = kind_str spec /\ SpecRow.container_image r = Spec.container_image spec
  /\ SpecRow.state r = state_str (TemplateProperties.is_active (Spec.template_properties spec))
  /\ SpecRow.featured r = Spec.is_featured spec.

(** A row's history is its versions from 1, the last one as it stands. *)
Record row_wf (s : Tables.t) (i : string) (r : SpecRow.t) : Prop := {
  row_key : SpecRow.id r = i;
  row_spec : exists spec, from_json (SpecRow.config_json r) = Ok spec /\ Spec.id spec = i /\ columns_agree r spec;
  row_version : 1 <= SpecRow.version r;
  row_history : map VersionRow.version (history i s) = seqZ 1 (SpecRow.version r);
  row_current : exists before v, history i s = before ++ [v] /\ VersionRow.config_json v = SpecRow.config_json r
}.

Definition store_wf (s : Tables.t) : Prop :=
  (forall i r, Tables.specs s !! i = Some r -> row_wf s i r)
  /\ (forall v, v ∈ Tables.spec_versions s -> is_Some (Tables.specs s !! VersionRow.spec_id v)).

Lemma store_wf_empty : store_wf Tables.empty.
Proof. split; [intros i r Hi; cbn in Hi; by rewrite lookup_empty in Hi|]. intros v Hv. by apply not_elem_of_nil in Hv. Qed.

Lemma history_core i s s' : core s = core s' -> history i s = history i s'.
Proof. intros [= _ Hv]. unfold history. by rewrite Hv. Qed.

Lemma row_wf_core s s' i r : core s = core s' -> row_wf s i r -> row_wf s' i r.
Proof. intros Hc [? ? ? Hh Hl]. rewrite (history_core i _ _ Hc) in Hh, Hl. by split. Qed.

Lemma store_wf_core s s' : core s = core s' -> store_wf s -> store_wf s'.
Proof.
  intros Hc [Hr Hv]. pose proof Hc as [= Hs Hvs]. split.
  - intros i r Hi. apply (row_wf_core s); [done|]. apply Hr. by rewrite Hs.
  - intros v Hin. rewrite <- Hs. apply Hv. by rewrite Hvs.
Qed.

Lemma history_snoc i v s : history i (Tables.set_spec_versions (Tables.spec_versions s ++ [v]) s)
  = history i s ++ (if str_eqb (VersionRow.spec_id v) i then [v] else []).
Proof. unfold history; cbn. rewrite List.filter_app. cbn. by destruct (str_eqb _ _). Qed.

Lemma no_history s i : store_wf s -> Tables.specs s !! i = None -> history i s = [].
Proof.
  intros [_ Hv] Hi. unfold history. destruct (List.filter _ _) as [|v l] eqn:E; [done|]. exfalso.
  assert (v ∈ List.filter (fun v => str_eqb (VersionRow.spec_id v) i) (Tables.spec_versions s)) as Hin by (rewrite E; left).
  apply list_elem_of_In, filter_In in Hin as [Hin Heq]. apply str_eqb_eq in Heq. apply list_elem_of_In in Hin.
  apply Hv in Hin as [r Hr]. congruence.
Qed.

(** A new current version of one row, with its history row. *)
Lemma store_wf_write s i r json now by_ :
  store_wf s -> SpecRow.id r = i -> SpecRow.config_json r = json ->
  (exists spec, from_json json = Ok spec /\ Spec.id spec = i /\ columns_agree r spec) ->
  SpecRow.version r = default 0 (SpecRow.version <$> Tables.specs s !! i) + 1 ->
  store_wf (Tables.set_spec_versions (Tables.spec_versions s ++ [VersionRow.mk i (SpecRow.version r) json now by_])
             (Tables.set_specs (<[i := r]> (Tables.specs s)) s)).
Proof.
  intros Hwf Hi Hj Hs Hv. pose proof Hwf as [Hrows Hvers]. set (v := VersionRow.mk _ _ _ _ _).
  set (s' := Tables.set_spec_versions _ _).
  assert (forall k, history k s' = history k s ++ (if str_eqb i k then [v] else [])) as Hh.
  { intros k. change s' with (Tables.set_spec_versions (Tables.spec_versions (Tables.set_specs (<[i := r]> (Tables.specs s)) s) ++ [v])
      (Tables.set_specs (<[i := r]> (Tables.specs s)) s)). rewrite history_snoc. done. }
  split.
  - intros k rk Hk. cbn in Hk. apply lookup_insert_Some in Hk as [[<- <-]|[Hne Hk]].
    + destruct (Tables.specs s !! i) as [r0|] eqn:Er; cbn in Hv.
      * destruct (Hrows _ _ Er) as [_ _ Hv1 Hhist _]. split; [done|by rewrite Hj|lia| |].
        -- rewrite Hh, str_eqb_refl, map_app, Hhist. cbn [map VersionRow.version v]. rewrite Hv, seqZ_app by lia.
           f_equal. change (seqZ (1 + SpecRow.version r0) 1) with [0 + (1 + SpecRow.version r0)]. f_equal. lia.
        -- exists (history i s), v. by rewrite Hh, str_eqb_refl.
      * pose proof (no_history _ _ Hwf Er) as Hnil. split; [done|by rewrite Hj|lia| |].
        -- rewrite Hh, str_eqb_refl, Hnil. cbn. by rewrite Hv.
        -- exists [], v. by rewrite Hh, str_eqb_refl, Hnil.
    + destruct (Hrows _ _ Hk) as [? ? ? Hhist Hcur]. apply str_eqb_neq in Hne.
      split; [done..| |]; rewrite Hh, Hne, app_nil_r; done.
  - intros w. cbn. rewrite elem_of_app, list_elem_of_singleton. intros [Hin| ->]; cbn.
    + destruct (decide (VersionRow.spec_id w = i)) as [->|]; [rewrite lookup_insert_eq; eauto|].
      rewrite lookup_insert_ne by done. by apply Hvers.
    + rewrite lookup_insert_eq. eauto.
Qed.

Lemma set_state_active props active :
  TemplateProperties.is_active (TemplateProperties.set_str props "state" (state_str active)) = active.
Proof.
  unfold TemplateProperties.is_active, TemplateProperties.state, TemplateProperties.get_str, TemplateProperties.set_str.
  rewrite lookup_insert_eq. by destruct active.
Qed.

Lemma upserted_wf s spec json now :
  store_wf s -> canonical_json spec = Ok json -> store_wf (upserted spec json now s).
Proof.
  intros Hwf Hj%json_round_trip. unfold upserted.
  destruct (Tables.specs s !! Spec.id spec) as [r|] eqn:Er.
  - destruct (str_eqb _ _); [done|].
    apply (store_wf_write s (Spec.id spec) (update_row spec json now (SpecRow.version r + 1) r)); [done| |done| |].
    + by destruct Hwf as [Hr _]; destruct (Hr _ _ Er).
    + exists spec. by repeat split.
    + by rewrite Er.
  - apply (store_wf_write s (Spec.id spec) (insert_row spec json now)); [done..| |].
    + exists spec. by repeat split.
    + by rewrite Er.
Qed.

Lemma flipped_wf s id active actor json now r :
  store_wf s -> Tables.specs s !! id = Some r -> patch_state id active (SpecRow.config_json r) = Ok (json, false) ->
  store_wf (flipped id active actor json now r s).
Proof.
  intros Hwf Er Hp. destruct (proj1 Hwf _ _ Er) as [Hk (spec & Ej & Hi & Hc) _ _ _].
  unfold patch_state in Hp. rewrite Ej in Hp. cbn in Hp.
  destruct (canonical_json (with_template_properties _ spec)) as [out|] eqn:Eo; cbn in Hp; simplify_eq.
  apply json_round_trip in Eo.
  apply (store_wf_write s (SpecRow.id r) (set_state_row json (state_str active) (SpecRow.version r + 1) r)); [done..| |].
  - eexists. split; [exact Eo|]. split; [done|]. destruct Hc as (? & ? & ? & ? & _ & ?). repeat split; try done.
    cbn. by rewrite set_state_active.
  - by rewrite Er.
Qed.

Lemma delete_wf s id : store_wf s -> store_wf (delete_spec id s).
Proof.
  intros [Hr Hv]. split.
  - intros i r Hi. cbn in Hi. apply lookup_delete_Some in Hi as [Hne Hi]. destruct (Hr _ _ Hi) as [? ? ? Hh Hl].
    assert (history i (delete_spec id s) = history i s) as Hsame.
    { unfold history, delete_spec; cbn. generalize (Tables.spec_versions s). clear -Hne. intros l. induction l as [|v l IH]; [done|]. cbn.
      destruct (str_eqb_spec (VersionRow.spec_id v) id) as [Hv'|Hv']; cbn; [|by rewrite IH].
      rewrite (proj2 (str_eqb_neq (VersionRow.spec_id v) i)) by (rewrite Hv'; done). apply IH. }
    split; [done..| |]; by rewrite Hsame.
  - intros v Hin. cbn in Hin. apply list_elem_of_In, filter_In in Hin as [Hin Hne].
    apply negb_true_iff, str_eqb_neq in Hne. cbn. rewrite lookup_delete_ne by done. apply Hv. by apply list_elem_of_In.
Qed.

Lemma effect_wf now s s' : effect now s s' -> store_wf s -> store_wf s'.
Proof.
  intros [Hc|spec json Hj Hc|id Hc|id active actor json r Hr Hp Hc] Hwf; symmetry in Hc; (eapply store_wf_core; [exact Hc|]).
  - done.
  - by apply upserted_wf.
  - by apply delete_wf.
  - by apply flipped_wf.
Qed.

Lemma effects_wf now s s' : effects now s s' -> store_wf s -> store_wf s'.
Proof. induction 1 as [|s s1 s' He _ IH]; [done|]. intros Hwf. apply IH. by eapply effect_wf. Qed.
End WellFormed.

(** ** The catalogue signature *)

Section Signature.
Context `{SpecCodec}.
Implicit Types (m : gmap string SpecRow.t).

Lemma sum_versions_insert m i r : m !! i = None -> sum_versions (<[i := r]> m) = SpecRow.version r + sum_versions m.
Proof.
  intros Hi. unfold sum_versions. rewrite map_fold_insert_L; [done| |done]. intros. lia.
Qed.

(** Rows that only gain versions, and gain none in sum, are the same. *)
Lemma sum_versions_le m1 m2 :
  dom m1 = dom m2 ->
  (forall i r1 r2, m1 !! i = Some r1 -> m2 !! i = Some r2 -> SpecRow.version r1 <= SpecRow.version r2) ->
  sum_versions m1 <= sum_versions m2
  /\ (sum_versions m1 = sum_versions m2 ->
      forall i r1 r2, m1 !! i = Some r1 -> m2 !! i = Some r2 -> SpecRow.version r1 = SpecRow.version r2).
Proof.
  revert m2; induction m1 as [|i r m1 Hi IH] using map_ind; intros m2 Hd Hle.
  - rewrite dom_empty_L in Hd. symmetry in Hd. apply dom_empty_inv_L in Hd as ->. split; [done|].
    intros _ i r1 r2 Hx. by rewrite lookup_empty in Hx.
  - assert (exists r2, m2 !! i = Some r2) as [r2 Hr2].
    { apply elem_of_dom. rewrite <- Hd, dom_insert_L. set_solver. }
    rewrite <- (insert_delete_id m2 i r2 Hr2). rewrite !sum_versions_insert by (done || apply lookup_delete_eq).
    destruct (IH (delete i m2)) as [Hs Heq].
    + rewrite dom_insert_L in Hd. apply not_elem_of_dom in Hi. rewrite dom_delete_L, <- Hd. set_solver.
    + intros j q1 q2 Hj1 [Hne Hj2]%lookup_delete_Some. apply (Hle j); [by rewrite lookup_insert_ne|done].
    + pose proof (Hle i r r2 (lookup_insert_eq _ _ _) Hr2) as Hr. split; [lia|].
      intros E j q1 q2 [[<- <-]|[Hne Hj1]]%lookup_insert_Some Hj2.
      * rewrite lookup_insert_eq in Hj2. injection Hj2 as <-. lia.
      * rewrite lookup_insert_ne in Hj2 by done. apply (Heq ltac:(lia) j); done.
Qed.

Lemma max_updated_spec m :
  match max_updated m with
  | None => m = ∅
  | Some t => (exists i r, m !! i = Some r /\ SpecRow.updated_at r = t) /\ forall i r, m !! i = Some r -> SpecRow.updated_at r <= t
  end.
Proof.
  unfold max_updated. apply (map_fold_weak_ind (fun acc m => match acc with
    | None => m = ∅
    | Some t => (exists i r, m !! i = Some r /\ SpecRow.updated_at r = t) /\ forall i r, m !! i = Some r -> SpecRow.updated_at r <= t
    end)); [done|].
  intros i r m' [t|] Hi Hacc.
  - destruct Hacc as [(j & q & Hj & Ht) Hle]. split.
    + destruct (Z.max_spec t (SpecRow.updated_at r)) as [[? ->]|[? ->]].
      * exists i, r. by rewrite lookup_insert_eq.
      * exists j, q. rewrite lookup_insert_ne; [done|]. congruence.
    + intros k q' [[<- <-]|[_ Hk]]%lookup_insert_Some; [lia|]. specialize (Hle _ _ Hk). lia.
  - subst m'. split; [exists i, r; by rewrite lookup_insert_eq|].
    intros k q' [[<- <-]|[_ Hk]]%lookup_insert_Some; [lia|]. by rewrite lookup_empty in Hk.
Qed.

(** No row was written after [t]. *)
Definition written_by (t : Z) (s : Tables.t) : Prop :=
  forall i r, Tables.specs s !! i = Some r -> SpecRow.updated_at r <= t.

(** [s'] comes from [s] by writes after [t]: a row that does not show one is
    a row of [s], at its version or a later one. *)
Definition aged (t : Z) (s s' : Tables.t) : Prop :=
  forall i r', Tables.specs s' !! i = Some r' ->
    t < SpecRow.updated_at r'
    \/ exists r, Tables.specs s !! i = Some r /\ SpecRow.updated_at r = SpecRow.updated_at r'
         /\ SpecRow.version r <= SpecRow.version r' /\ (SpecRow.version r = SpecRow.version r' -> r = r').

Lemma aged_refl t s : aged t s s.
Proof. intros i r Hi. right. exists r. split; [done|]. split; [done|]. split; [lia|done]. Qed.

Lemma specs_core s s' : core s' = core s -> Tables.specs s' = Tables.specs s.
Proof. by intros [=]. Qed.

Lemma aged_effect t now s0 s s' : t < now -> effect now s s' -> aged t s0 s -> aged t s0 s'.
Proof.
  intros Ht He Ha i r'. destruct He as [Hc|spec json Hj Hc|id Hc|id active actor json r Hr Hp Hc];
    apply specs_core in Hc; rewrite Hc; [apply Ha|..].
  - unfold upserted. destruct (Tables.specs s !! Spec.id spec) as [r|] eqn:Er; [destruct (str_eqb _ _); [apply Ha|]|];
      cbn; intros [[<- <-]|[_ Hi]]%lookup_insert_Some; first [by left|by apply Ha].
  - cbn. intros [_ Hi]%lookup_delete_Some. by apply Ha.
  - cbn. intros [[<- <-]|[_ Hi]]%lookup_insert_Some; [|by apply Ha].
    destruct (Ha _ _ Hr) as [?|(r0 & H0 & Hu & Hv & _)]; [by left|]. right. exists r0. cbn.
    split; [done|]. split; [done|]. split; [lia|]. intros. lia.
Qed.

Lemma written_effect t now s s' : t <= now -> effect now s s' -> written_by t s -> written_by now s'.
Proof.
  intros Ht He Hw. assert (written_by now s) as Hn by (intros i r Hi; specialize (Hw _ _ Hi); lia).
  intros i r'. destruct He as [Hc|spec json Hj Hc|id Hc|id active actor json r Hr Hp Hc];
    apply specs_core in Hc; rewrite Hc; [apply Hn|..].
  - unfold upserted. destruct (Tables.specs s !! Spec.id spec) as [r|] eqn:Er; [destruct (str_eqb _ _); [apply Hn|]|];
      cbn; intros [[<- <-]|[_ Hi]]%lookup_insert_Some; first [cbn; lia|by eapply Hn].
  - cbn. intros [_ Hi]%lookup_delete_Some. by eapply Hn.
  - cbn. intros [[<- <-]|[_ Hi]]%lookup_insert_Some; [exact (Hn _ r Hr)|by apply (Hn i)].
Qed.

Lemma aged_effects t now s0 s s' : t < now -> effects now s s' -> aged t s0 s -> aged t s0 s'.
Proof. intros Ht. induction 1 as [|s s1 s' He _ IH]; [done|]. intros Ha. apply IH. by eapply aged_effect. Qed.

Lemma written_effects t now s s' : t <= now -> effects now s s' -> written_by t s -> written_by now s'.
Proof.
  intros Ht He. revert t Ht; induction He as [|s s1 s' He _ IH]; intros t Ht Hw.
  - intros i r Hi. specialize (Hw _ _ Hi). lia.
  - apply (IH now); [lia|]. by eapply written_effect.
Qed.

(** Equal signatures, equal catalogues. *)
Lemma signature_determines t s s' :
  written_by t s -> aged t s s' -> signature_of s = signature_of s' -> Tables.specs s' = Tables.specs s.
Proof.
  unfold signature_of. intros Hw Ha [= Hsize Hsum Hmax].
  assert (forall i r', Tables.specs s' !! i = Some r' -> exists r, Tables.specs s !! i = Some r
    /\ SpecRow.version r <= SpecRow.version r' /\ (SpecRow.version r = SpecRow.version r' -> r = r')) as Hold.
  { intros i r' Hi. destruct (Ha _ _ Hi) as [Hlt|(r & Hr & _ & Hv & He)]; [|eauto]. exfalso.
    pose proof (max_updated_spec (Tables.specs s')) as Hm'. pose proof (max_updated_spec (Tables.specs s)) as Hm.
    rewrite Hmax in Hm. destruct (max_updated (Tables.specs s')) as [m|].
    - destruct Hm as [(j & q & Hj & <-) _]. destruct Hm' as [_ Hle]. specialize (Hw _ _ Hj). specialize (Hle _ _ Hi). lia.
    - rewrite Hm', lookup_empty in Hi. done. }
  assert (dom (Tables.specs s') = dom (Tables.specs s)) as Hd.
  { apply set_subseteq_size_eq.
    - intros i [r' Hr']%elem_of_dom. apply elem_of_dom. destruct (Hold _ _ Hr') as (r & Hr & _). eauto.
    - rewrite !size_dom. lia. }
  destruct (sum_versions_le (Tables.specs s) (Tables.specs s') (eq_sym Hd)) as [_ Heq].
  { intros i r r' Hr Hr'. destruct (Hold _ _ Hr') as (r0 & Hr0 & Hv & _). congruence. }
  specialize (Heq Hsum). apply map_eq. intros i. destruct (Tables.specs s' !! i) as [r'|] eqn:Er'.
  - destruct (Hold _ _ Er') as (r & Hr & _ & He). rewrite Hr. f_equal. symmetry. apply He. by eapply Heq.
  - symmetry. apply not_elem_of_dom. rewrite <- Hd. by apply not_elem_of_dom.
Qed.
End Signature.

(** ** Properties *)

Section Properties.
Context `{SpecCodecLaws} (collate : string -> string -> bool).
Context (landing : M (DbResult unit)) (landing_elsewhere : forall db, ConfigDb.tables (landing db).2 = ConfigDb.tables db).

Lemma ignore_Err {A} (m : M (DbResult A)) db e db' :
  ignore m db = (Err e, db') -> m db = (Err e, db').
Proof. by intros [(a & db1 & E & [=])|(e' & E & [= ->])]%try_bind_inv. Qed.

(** A write that fails leaves every table as it was. *)
Lemma run_write_Err now w db e db' :
  run_write landing now w db = (Err e, db') -> ConfigDb.tables db' = ConfigDb.tables db.
Proof.
  destruct w; cbn [run_write]; intros Hw%ignore_Err.
  - by apply transaction_Err in Hw.
  - by apply transaction_beside_inv in Hw as [?|[?|(a & db1 & db2 & [=] & _)]].
  - unfold set_updated_if_absent in Hw. apply try_bind_inv in Hw as [(found & db1 & Hf & Hb)|(e' & Hf & _)];
      apply fetch_one_tables in Hf; [|done].
    destruct found as [spec|]; [|done]. cbn zeta in Hb.
    match type of Hb with (if ?b then _ else _) _ = _ => destruct b; [done|] end.
    apply st_bind_inv in Hb as (u & db2 & Hm & Hb). injection Hm as _ <-. rewrite <- Hf.
    apply try_bind_inv in Hb as [(o & db3 & Hu & [=])|(e' & Hu & _)]. by apply transaction_Err in Hu.
  - by apply transaction_Err in Hw.
  - by apply transaction_Err in Hw.
  - unfold import_all, lift in Hw. unfold try_bind at 1, st_bind, st_ret in Hw. destruct (proxy_json _); [|by injection Hw as _ <-].
    unfold try_bind at 1, st_bind, st_ret in Hw. destruct (server_json _); [|by injection Hw as _ <-].
    unfold try_bind at 1, st_bind, st_ret in Hw. destruct (logging_json _); [|by injection Hw as _ <-].
    by apply transaction_Err in Hw.
  - by apply transaction_Err in Hw.
Qed.

(** C18. Every write keeps the catalogue well formed, and one that fails at
    any statement, commit included, changes no table.  Well formed: each row
    decodes to a spec of its own id, its columns repeat that spec, its
    history holds every version from 1 to the current one, the last as the
    row stands, and no history outlives its row. *)
Theorem store_writes_typed now w db r db' :
  store_wf (ConfigDb.tables db) -> run_write landing now w db = (r, db') ->
  store_wf (ConfigDb.tables db') /\ forall e, r = Err e -> ConfigDb.tables db' = ConfigDb.tables db.
Proof.
  intros Hwf Hrun. split.
  - eapply effects_wf; [|done]. by eapply run_write_effects.
  - intros e ->. by eapply run_write_Err.
Qed.

(** *** Import *)

(** The row of a spec is what the spec serializes to. *)
Definition stored (s : Tables.t) (spec : Spec.t) : Prop :=
  exists json r, canonical_json spec = Ok json /\ Tables.specs s !! Spec.id spec = Some r /\ SpecRow.config_json r = json.

Lemma stored_core s s' spec : core s' = core s -> stored s spec -> stored s' spec.
Proof. intros [= Hs _] (json & r & Hj & Hr & Hc). exists json, r. by rewrite Hs. Qed.

Lemma upserted_stored spec json now s : canonical_json spec = Ok json -> stored (upserted spec json now s) spec.
Proof.
  intros Hj. exists json. unfold upserted. destruct (Tables.specs s !! Spec.id spec) as [r|] eqn:Er.
  - destruct (str_eqb_spec (SpecRow.config_json r) json); [by exists r|].
    eexists. split; [done|]. cbn. by rewrite lookup_insert_eq.
  - eexists. split; [done|]. cbn. by rewrite lookup_insert_eq.
Qed.

Lemma upserted_other spec json now s spec' :
  Spec.id spec' <> Spec.id spec -> stored s spec' -> stored (upserted spec json now s) spec'.
Proof.
  intros Hne (json' & r' & Hj & Hr & Hc). exists json', r'. unfold upserted.
  destruct (Tables.specs s !! Spec.id spec) as [r|]; [destruct (str_eqb _ _); [done|]|]; cbn; by rewrite lookup_insert_ne.
Qed.

Lemma stored_unchanged spec json now s :
  canonical_json spec = Ok json -> stored s spec -> outcome_of spec json s = Unchanged /\ upserted spec json now s = s.
Proof.
  intros Hj (json' & r & Hj' & Hr & Hc). assert (json' = json) as -> by congruence.
  unfold outcome_of, upserted. by rewrite Hr, Hc, str_eqb_refl.
Qed.

Lemma import_specs_keeps specs now report db rep db' spec :
  import_specs specs now report db = (Ok rep, db') -> Spec.id spec ∉ map Spec.id specs ->
  stored (ConfigDb.tables db) spec -> stored (ConfigDb.tables db') spec.
Proof.
  revert report db; induction specs as [|sp specs IH]; intros report db; cbn [import_specs map].
  - by intros [= _ ->].
  - intros (o & db1 & Hu & Hr)%try_bind_Ok [Hne Hni]%not_elem_of_cons Hst.
    apply upsert_in_tx_Ok in Hu as (json & Hj & _ & Hc). eapply IH; [done|done|].
    eapply stored_core; [exact Hc|]. by apply upserted_other.
Qed.

Lemma import_specs_stored specs now report db rep db' :
  import_specs specs now report db = (Ok rep, db') -> NoDup (map Spec.id specs) ->
  forall spec, spec ∈ specs -> stored (ConfigDb.tables db') spec.
Proof.
  revert report db; induction specs as [|sp specs IH]; intros report db; cbn [import_specs map].
  - intros _ _ spec Hin. by apply not_elem_of_nil in Hin.
  - intros (o & db1 & Hu & Hr)%try_bind_Ok [Hni Hnd]%list.NoDup_cons spec [->|Hin]%elem_of_cons; [|by eapply IH].
    apply upsert_in_tx_Ok in Hu as (json & Hj & _ & Hc). eapply import_specs_keeps; [done|done|].
    eapply stored_core; [exact Hc|]. by apply upserted_stored.
Qed.

Lemma import_stored_specs specs now report db rep db' :
  import_specs specs now report db = (Ok rep, db') -> (forall spec, spec ∈ specs -> stored (ConfigDb.tables db) spec) ->
  core (ConfigDb.tables db') = core (ConfigDb.tables db)
  /\ rep = ImportReport.mk (ImportReport.created report) (ImportReport.updated report)
             (ImportReport.unchanged report + Z.of_nat (length specs)).
Proof.
  revert report db; induction specs as [|sp specs IH]; intros report db; cbn [import_specs length].
  - intros [= <- ->] _. split; [done|]. destruct report; cbn. f_equal; lia.
  - intros (o & db1 & Hu & Hr)%try_bind_Ok Hst. apply upsert_in_tx_Ok in Hu as (json & Hj & -> & Hc).
    destruct (stored_unchanged sp json now (ConfigDb.tables db) Hj (Hst sp ltac:(left))) as [Ho Hup].
    rewrite Hup in Hc. rewrite Ho in Hr. apply IH in Hr as [Hc' ->].
    + split; [congruence|]. cbn. f_equal. lia.
    + intros spec Hin. eapply stored_core; [exact Hc|]. apply Hst. by right.
Qed.

(** What an import that succeeds did to the catalogue. *)
Lemma import_all_Ok config now db rep db' :
  import_all landing config now db = (Ok rep, db') ->
  exists db1 db2, ConfigDb.tables db1 = ConfigDb.tables db
    /\ import_specs (Proxy.specs (Config.proxy config)) now ImportReport.default_report db1 = (Ok rep, db2)
    /\ core (ConfigDb.tables db') = core (ConfigDb.tables db2).
Proof.
  unfold import_all. intros (j1 & d1 & [_ ->]%lift_Ok & (j2 & d2 & [_ ->]%lift_Ok & (j3 & d3 & [_ ->]%lift_Ok & Ht)%try_bind_Ok)%try_bind_Ok)%try_bind_Ok.
  apply transaction_Ok in Ht as (db1 & db2 & x & E1 & Hb & Hx & E2).
  apply try_bind_Ok in Hb as (rep' & db3 & Hi & Hb).
  apply try_bind_Ok in Hb as (u1 & db4 & Hl & Hb). pose proof (landing_elsewhere db3) as El. rewrite Hl in El. cbn in El.
  apply try_bind_Ok in Hb as (u2 & db5 & Hm1%execute_Ok & Hb). apply try_bind_Ok in Hb as (u3 & db6 & Hm2%execute_Ok & Hb).
  apply try_bind_Ok in Hb as (u4 & db7 & Hm3%execute_Ok & Hb). apply try_bind_Ok in Hb as (u5 & db8 & Ha%add_audit_Ok & Hb).
  injection Hb as <- <-. destruct Hx as [[= <-]|[= ]]. exists db1, db3. split; [done|]. split; [done|].
  by rewrite (E2 eq_refl), Ha, Hm3, Hm2, Hm1, El.
Qed.

(** Importing is idempotent.  After a configuration with distinct ids
    is imported, importing it again, at any later time and with any
    statement failing or not, if it succeeds reports every spec unchanged and
    leaves the specs and their history as they are: no phantom versions. *)
Theorem import_idempotent config now now' db rep db1 rep' db2 :
  NoDup (map Spec.id (Proxy.specs (Config.proxy config))) ->
  import_all landing config now db = (Ok rep, db1) -> import_all landing config now' db1 = (Ok rep', db2) ->
  rep' = ImportReport.mk 0 0 (Z.of_nat (length (Proxy.specs (Config.proxy config))))
  /\ Tables.specs (ConfigDb.tables db2) = Tables.specs (ConfigDb.tables db1)
  /\ Tables.spec_versions (ConfigDb.tables db2) = Tables.spec_versions (ConfigDb.tables db1).
Proof.
  intros Hnd (d1 & d2 & _ & Hi1 & Ec1)%import_all_Ok (d3 & d4 & E3 & Hi2 & Ec2)%import_all_Ok.
  apply import_stored_specs in Hi2 as [Hc ->].
  - rewrite Hc, E3 in Ec2. split; [done|]. by injection Ec2.
  - intros spec Hin. rewrite E3. eapply stored_core; [exact Ec1|]. by eapply import_specs_stored.
Qed.
End Properties.

(** ** A concrete database *)

#[global] Instance yaml_value_eq_dec : EqDecision YamlValue.
Proof. solve_decision. Defined.
#[global] Instance api_spec_eq_dec : EqDecision ApiSpec.t.
Proof. solve_decision. Defined.
#[global] Instance spec_eq_dec : EqDecision Spec.t.
Proof. solve_decision. Defined.

Module ExampleStore.
Definition app (i image : string) : Spec.t := Spec.sample i (Some image) None None None None None.
Definition archived (s : Spec.t) : Spec.t :=
  with_template_properties (TemplateProperties.set_str (Spec.template_properties s) "state" "inactive") s.
Definition dated (s : Spec.t) : Spec.t :=
  with_template_properties (TemplateProperties.set_str (Spec.template_properties s) "updated" "2026-01-01") s.

(** A codec of six specs. *)
Definition known : list (string * Spec.t) :=
  [("a1", app "a" "img:1"); ("a2", app "a" "img:2"); ("b1", app "b" "img:1"); ("c1", app "c" "img:9"); ("a1-archived", archived (app "a" "img:1"));
   ("a1-dated", dated (app "a" "img:1"))].

#[global] Instance codec : SpecCodec := {
  to_json s := match List.find (fun p => bool_decide (p.2 = s)) known with Some p => Ok p.1 | None => Err (Failed "encode") end;
  from_json j := match List.find (fun p => str_eqb p.1 j) known with Some p => Ok p.2 | None => Err (Failed "decode") end;
  proxy_json _ := Ok "{}"; server_json _ := Ok "{}"; logging_json _ := Ok "{}" }.

#[global] Instance codec_laws : SpecCodecLaws.
Proof.
  constructor. intros s j. cbn -[bool_decide known]. destruct (List.find _ known) as [p|] eqn:E; [|done]. intros [= <-].
  apply List.find_some in E as [Hin Hp]. apply bool_decide_eq_true in Hp. subst s. cbn in Hin.
  by repeat destruct Hin as [<-|Hin].
Defined.

Definition landing : M (DbResult unit) := st_ret (Ok tt).
Lemma landing_elsewhere db : ConfigDb.tables (landing db).2 = ConfigDb.tables db.
Proof. reflexivity. Defined.

Definition config (specs : list Spec.t) : Config.t :=
  Config.mk (Server.mk false None false None None None None None) (Proxy.with_specs specs [] Proxy.default_proxy) (Logging.mk None) [].
Definition two : Config.t := config [app "a" "img:1"; app "b" "img:1"].
Definition fresh : Db := ConfigDb.mk Tables.empty [].
Definition imported : Db := (import_all landing two 5 fresh).2.
Definition collate (a b : string) : bool := String.leb a b.

(** The import's commit fails after all its statements: nothing is left. *)
Example failed_import_leaves_nothing :
  let '(r, db) := import_all landing two 5 (ConfigDb.mk Tables.empty (replicate 13 false ++ [true])) in
  r = Err (Failed "commit import tx") /\ ConfigDb.tables db = Tables.empty.
Proof. vm_compute. auto. Qed.

Lemma store_writes_typed_witness :
  store_wf (ConfigDb.tables imported) /\ map SpecRow.id (ordered_rows collate (ConfigDb.tables imported)) = ["a"; "b"].
Proof.
  split; [|vm_compute; reflexivity].
  exact (proj1 (store_writes_typed landing landing_elsewhere 5 (ImportAll two) fresh (Ok tt) imported store_wf_empty eq_refl)).
Defined.

Lemma import_idempotent_witness :
  exists rep db2, import_all landing two 9 imported = (Ok rep, db2) /\ rep = ImportReport.mk 0 0 2
    /\ Tables.specs (ConfigDb.tables db2) = Tables.specs (ConfigDb.tables imported).
Proof.
  destruct (import_all landing two 9 imported) as [r db2] eqn:E.
  assert (r = Ok (ImportReport.mk 0 0 2)) as -> by (change r with (r, db2).1; rewrite <- E; vm_compute; reflexivity).
  exists (ImportReport.mk 0 0 2), db2. split; [reflexivity|]. split; [reflexivity|].
  assert (NoDup (map Spec.id (Proxy.specs (Config.proxy two)))) as Hnd by (apply (bool_decide_unpack _); vm_compute; exact I).
  exact (proj1 (proj2 (import_idempotent landing landing_elsewhere two 5 9 fresh (ImportReport.mk 2 0 0) imported _ _ Hnd eq_refl E))).
Defined.

(** Under read-committed isolation, an app created by another connection
    between the existence check and the upsert's own lookup is overwritten,
    and the caller is told its own is new. *)
Definition other_creates (s : Tables.t) : Tables.t :=
  ConfigDb.tables (upsert_one (app "a" "img:2") (Some "other") 6 (ConfigDb.mk s [])).2.
Example concurrent_create_is_overwritten :
  let '(r, db) := insert_new other_creates (app "a" "img:1") (Some "me") 7 fresh in
  r = Ok true /\ SpecRow.config_json <$> Tables.specs (ConfigDb.tables db) !! "a" = Some "a1"
  /\ SpecRow.config_json <$> Tables.specs (other_creates Tables.empty) !! "a" = Some "a2".
Proof. vm_compute. auto. Qed.

(** An edit saved between the read and the write of the date is undone. *)
Example concurrent_edit_is_undone :
  let edit s := ConfigDb.tables (upsert_one (app "a" "img:2") (Some "admin") 6 (ConfigDb.mk s [])).2 in
  let '(r, db) := set_updated_if_absent edit "a" "2026-01-01" None 7 imported in
  r = Ok true /\ SpecRow.container_image <$> Tables.specs (ConfigDb.tables db) !! "a" = Some (Some "img:1")
  /\ SpecRow.container_image <$> Tables.specs (edit (ConfigDb.tables imported)) !! "a" = Some (Some "img:2").
Proof. vm_compute. auto. Qed.

Example archive_keeps_the_update_time :
  let '(r, db) := set_state "a" false (Some "me") 9 imported in
  r = Ok true /\ signature_of (ConfigDb.tables db) = (2, 3, Some 5) /\ signature_of (ConfigDb.tables imported) = (2, 2, Some 5)
  /\ SpecRow.state <$> Tables.specs (ConfigDb.tables db) !! "a" = Some "inactive".
Proof. vm_compute. auto. Qed.
End ExampleStore.
