(* ===== verification/SpecCatalog.v ===== *)
(** * SpecCatalog: the effective catalogue and its cache (catalog.rs)

    The database's specs over those of the configuration file, as the loops
    and the admin pages see them, and the cache that the signature of the
    spec table validates.  The resolver of one app (Caches: [load_spec]) and
    this one agree. *)

From Stdlib Require Import Ascii String ZArith Lia.
From stdpp Require Import base tactics list gmap strings sets fin_maps numbers sorting.
From S2P Require Import Prelude Text Schema Caches Validate Database SpecStore.

Local Open Scope string_scope.
Local Open Scope list_scope.
Local Open Scope Z_scope.
Local Open Scope ruscker_scope.

(** The part of [AppState] involved. *)
Module CatalogState.
Record t := mk { db : option Db; catalog_cache : option (CatalogSignature * list Spec.t) }.
End CatalogState.

Section Catalogue.
Context `{SpecCodec} (collate : string -> string -> bool).

Definition union_specs (db_specs yaml : list Spec.t) : list Spec.t :=
  db_specs ++ List.filter (fun s => negb (existsb (fun d => str_eqb (Spec.id d) (Spec.id s)) db_specs)) yaml.

(** [effective_specs] with a database; it falls back to the file on an error. *)
Definition effective_specs_db (yaml : list Spec.t) : M (list Spec.t) :=
  do r <- list_all collate;
  st_ret (match r with Ok db_specs => union_specs db_specs yaml | Err _ => yaml end).

Definition effective_specs (yaml : list Spec.t) : St CatalogState.t (list Spec.t) := fun st =>
  match CatalogState.db st with
  | None => (yaml, st)
  | Some db => let (specs, db') := effective_specs_db yaml db in (specs, CatalogState.mk (Some db') (CatalogState.catalog_cache st))
  end.

Definition cached_under (sig : CatalogSignature) (cache : option (CatalogSignature * list Spec.t)) : option (list Spec.t) :=
  match cache with Some (cached_sig, specs) => if decide (cached_sig = sig) then Some specs else None | None => None end.

(** [between]: what others commit after the signature is read. *)
Definition effective_specs_cached (between : Db -> Db) (yaml : list Spec.t)
  : St CatalogState.t (list Spec.t) := fun st =>
  match CatalogState.db st with
  | None => effective_specs yaml st
  | Some db =>
    match catalog_signature db with
    | (Err _, db') => effective_specs yaml (CatalogState.mk (Some db') (CatalogState.catalog_cache st))
    | (Ok sig, db') =>
      match cached_under sig (CatalogState.catalog_cache st) with
      | Some specs => (specs, CatalogState.mk (Some db') (CatalogState.catalog_cache st))
      | None =>
        let (specs, db'') := effective_specs_db yaml (between db') in
        (specs, CatalogState.mk (Some db'') (Some (sig, specs)))
      end
    end
  end.

(** ** Reference: the catalogue of the tables *)

Definition catalogue (yaml : list Spec.t) (s : Tables.t) : list Spec.t :=
  match parse_rows (ordered_rows collate s) with Ok db_specs => union_specs db_specs yaml | Err _ => yaml end.

Lemma catalogue_specs yaml s s' : Tables.specs s = Tables.specs s' -> catalogue yaml s = catalogue yaml s'.
Proof. intros Hs. unfold catalogue, ordered_rows. by rewrite Hs. Qed.

Definition next_ok (db : Db) : Prop := head (ConfigDb.faults db) <> Some true.

Lemma effective_specs_db_ok yaml db :
  next_ok db -> (effective_specs_db yaml db).1 = catalogue yaml (ConfigDb.tables db)
    /\ ConfigDb.tables (effective_specs_db yaml db).2 = ConfigDb.tables db.
Proof.
  unfold next_ok, effective_specs_db, list_all, catalogue, try_bind, st_bind, query, statement, lift, st_ret. cbn.
  destruct (ConfigDb.faults db) as [|[] rest]; cbn; [split; reflexivity|done|split; reflexivity].
Qed.

(** ** Runs *)

(** The database, attached, under writes at increasing times and cached
    reads; no listing of a read fails, and no write falls inside one. *)
Context (landing : M (DbResult unit)) (landing_elsewhere : forall db, ConfigDb.tables (landing db).2 = ConfigDb.tables db).
Context (yaml : list Spec.t).

Definition listing_ok (db : Db) : Prop := ConfigDb.faults db !! 1%nat <> Some true.

Inductive reachable : Z -> Db -> option (CatalogSignature * list Spec.t) -> Prop :=
| reachable_start t db : written_by t (ConfigDb.tables db) -> reachable t db None
| reachable_write t db cache now w r db' :
    reachable t db cache -> t < now -> run_write landing now w db = (r, db') -> reachable now db' cache
| reachable_read t db cache specs db' cache' :
    reachable t db cache -> listing_ok db ->
    effective_specs_cached (fun d => d) yaml (CatalogState.mk (Some db) cache) = (specs, CatalogState.mk (Some db') cache') ->
    reachable t db' cache'
| reachable_faults t db cache faults :
    reachable t db cache -> reachable t (ConfigDb.mk (ConfigDb.tables db) faults) cache.

(** The cache holds the catalogue of some earlier tables, with their
    signature. *)
Definition cache_sound (t : Z) (s : Tables.t) (cache : option (CatalogSignature * list Spec.t)) : Prop :=
  forall sig specs, cache = Some (sig, specs) ->
    exists t0 s0, t0 <= t /\ written_by t0 s0 /\ aged t0 s0 s /\ sig = signature_of s0 /\ specs = catalogue yaml s0.

Lemma cache_sound_hit t s cache specs :
  cache_sound t s cache -> cached_under (signature_of s) cache = Some specs -> specs = catalogue yaml s.
Proof.
  intros Hc. unfold cached_under. destruct cache as [[sig l]|]; [|done]. case_decide as E; [|done]. intros [= <-].
  destruct (Hc _ _ eq_refl) as (t0 & s0 & _ & Hw & Ha & -> & ->). apply catalogue_specs. symmetry.
  by eapply signature_determines.
Qed.

(** One cached read. *)
Lemma cached_read db cache specs st t :
  effective_specs_cached (fun d => d) yaml (CatalogState.mk (Some db) cache) = (specs, st) ->
  listing_ok db -> written_by t (ConfigDb.tables db) -> cache_sound t (ConfigDb.tables db) cache ->
  specs = catalogue yaml (ConfigDb.tables db)
  /\ exists db', CatalogState.db st = Some db' /\ ConfigDb.tables db' = ConfigDb.tables db
       /\ cache_sound t (ConfigDb.tables db) (CatalogState.catalog_cache st).
Proof.
  unfold effective_specs_cached, effective_specs. cbn. intros Hread Hl Hw Hc.
  destruct (catalog_signature db) as [r db1] eqn:Es. unfold catalog_signature in Es.
  pose proof (query_inv _ _ _ _ _ Es) as [Ht Hr].
  assert (next_ok db1) as Hn.
  { unfold next_ok, listing_ok in *. unfold query, statement in Es.
    destruct (ConfigDb.faults db) as [|[] rest]; injection Es as <- <-; cbn; [done|by destruct rest..]. }
  destruct (effective_specs_db_ok yaml _ Hn) as [He Et].
  destruct (effective_specs_db yaml db1) as [l db2] eqn:El. cbn in He, Et. rewrite Ht in He, Et.
  destruct Hr as [-> | ->]; cbn in Hread.
  - injection Hread as <- <-. split; [done|]. exists db2. split; [done|]. by split.
  - destruct (cached_under (signature_of (ConfigDb.tables db)) cache) as [l'|] eqn:Eh.
    + injection Hread as <- <-. split; [by eapply cache_sound_hit|]. exists db1. by split.
    + injection Hread as <- <-. split; [done|]. exists db2. split; [done|]. split; [done|].
      cbn. intros sig l' [= <- <-]. exists t, (ConfigDb.tables db). split_and!; [lia|done|apply aged_refl|done|done].
Qed.

Lemma reachable_sound t db cache :
  reachable t db cache -> written_by t (ConfigDb.tables db) /\ cache_sound t (ConfigDb.tables db) cache.
Proof.
  induction 1 as [t db Hw|t db cache now w r db' _ [Hw Hc] Ht Hrun|t db cache specs db' cache' _ [Hw Hc] Hl Hread|t db cache f _ IH].
  - split; [done|]. intros sig l [=].
  - apply run_write_effects in Hrun; [|done]. split; [eapply written_effects; [|done|done]; lia|].
    intros sig l Hs. destruct (Hc _ _ Hs) as (t0 & s0 & Hle & Hw0 & Ha & Hsig & Hl).
    exists t0, s0. split_and!; [lia|done| |done|done]. eapply aged_effects; [|done|done]. lia.
  - destruct (cached_read _ _ _ _ _ Hread Hl Hw Hc) as (_ & db1 & [= <-] & -> & Hc'). by split.
  - by destruct IH.
Qed.
End Catalogue.

(** ** Agreement with the resolver of one app *)

Section Lookup.
Context `{SpecCodec} (collate : string -> string -> bool).

Lemma parse_rows_elem rows l :
  parse_rows rows = Ok l -> Forall2 (fun r s => from_json (SpecRow.config_json r) = Ok s) rows l.
Proof.
  revert l; induction rows as [|r rows IH]; intros l; cbn [parse_rows]; [intros [= <-]; constructor|].
  unfold map_err_context. destruct (from_json _) as [s|] eqn:Es; cbn; [|done].
  destruct (parse_rows rows) as [l'|]; cbn; [|done]. intros [= <-]. constructor; auto.
Qed.

Lemma parse_rows_total rows :
  (forall r, r ∈ rows -> exists s, from_json (SpecRow.config_json r) = Ok s) -> exists l, parse_rows rows = Ok l.
Proof.
  induction rows as [|r rows IH]; intros Hr; [by exists []|]. cbn [parse_rows].
  destruct (Hr r ltac:(left)) as [s ->]. cbn. destruct IH as [l ->]; [|by exists (s :: l)].
  intros r' Hin. apply Hr. by right.
Qed.

Lemma elem_of_rows (s : Tables.t) r :
  r ∈ ordered_rows collate s <-> exists i, Tables.specs s !! i = Some r.
Proof.
  unfold ordered_rows. rewrite merge_sort_Permutation, list_elem_of_fmap. split.
  - intros ([i r'] & -> & Hin%elem_of_map_to_list). by exists i.
  - intros [i Hi]. exists (i, r). by rewrite elem_of_map_to_list.
Qed.

Lemma find_app {A} (p : A -> bool) l1 l2 :
  List.find p (l1 ++ l2) = match List.find p l1 with Some x => Some x | None => List.find p l2 end.
Proof. induction l1 as [|x l1 IH]; cbn; [done|]. by destruct (p x). Qed.

Lemma find_filter_absent i (db_specs yaml : list Spec.t) :
  List.find (fun s => str_eqb (Spec.id s) i) db_specs = None ->
  List.find (fun s => str_eqb (Spec.id s) i)
    (List.filter (fun s => negb (existsb (fun d => str_eqb (Spec.id d) (Spec.id s)) db_specs)) yaml)
  = List.find (fun s => str_eqb (Spec.id s) i) yaml.
Proof.
  intros Hnone. induction yaml as [|s yaml IH]; [done|]. cbn [List.filter List.find].
  destruct (str_eqb_spec (Spec.id s) i) as [<-|Hne].
  - assert (existsb (fun d => str_eqb (Spec.id d) (Spec.id s)) db_specs = false) as Hf.
    { apply not_true_iff_false. rewrite existsb_exists. intros (d & Hd & Heq). by rewrite (List.find_none _ _ Hnone _ Hd) in Heq. }
    rewrite Hf. cbn. by rewrite str_eqb_refl.
  - destruct (negb _); cbn [List.find]; [|done]. by rewrite (proj2 (str_eqb_neq _ _) Hne).
Qed.

Lemma Forall2_elem_r {A B} (P : A -> B -> Prop) l1 l2 y : Forall2 P l1 l2 -> y ∈ l2 -> exists x, x ∈ l1 /\ P x y.
Proof.
  induction 1 as [|a b l1 l2 Hab _ IH]; [by intros ?%not_elem_of_nil|]. intros [->|Hin]%elem_of_cons.
  - exists a. split; [left|done].
  - destruct (IH Hin) as (x & Hx & Hp). exists x. split; [by right|done].
Qed.

Lemma Forall2_elem_l {A B} (P : A -> B -> Prop) l1 l2 x : Forall2 P l1 l2 -> x ∈ l1 -> exists y, y ∈ l2 /\ P x y.
Proof. intros Hf%Forall2_flip Hin. destruct (Forall2_elem_r _ _ _ _ Hf Hin) as (y & Hy & Hp). by exists y. Qed.

Lemma find_db_specs s l i :
  store_wf s -> parse_rows (ordered_rows collate s) = Ok l ->
  match Tables.specs s !! i with
  | Some r => exists spec, from_json (SpecRow.config_json r) = Ok spec /\ List.find (fun d => str_eqb (Spec.id d) i) l = Some spec
  | None => List.find (fun d => str_eqb (Spec.id d) i) l = None
  end.
Proof.
  intros [Hrows _] Hl%parse_rows_elem.
  assert (forall spec, spec ∈ l -> exists r, Tables.specs s !! Spec.id spec = Some r /\ from_json (SpecRow.config_json r) = Ok spec) as Hfrom.
  { intros spec Hin. destruct (Forall2_elem_r _ _ _ _ Hl Hin) as (r & [k Hk]%elem_of_rows & Hr).
    destruct (Hrows _ _ Hk) as [_ (sp & Hsp & Hid & _) _ _ _]. assert (sp = spec) as -> by congruence. exists r. by rewrite Hid. }
  destruct (Tables.specs s !! i) as [r|] eqn:Er.
  - destruct (Hrows _ _ Er) as [_ (spec & Hspec & Hid & _) _ _ _]. exists spec. split; [done|].
    destruct (List.find _ l) as [spec'|] eqn:Ef.
    + apply List.find_some in Ef as [Hin Heq]. apply str_eqb_eq in Heq. apply list_elem_of_In in Hin.
      destruct (Hfrom _ Hin) as (r' & Hr' & Hd). rewrite Heq, Er in Hr'. injection Hr' as <-. congruence.
    + exfalso. assert (r ∈ ordered_rows collate s) as Hr by (apply elem_of_rows; eauto).
      destruct (Forall2_elem_l _ _ _ _ Hl Hr) as (sp & Hin & Hsp). assert (sp = spec) as -> by congruence.
      apply list_elem_of_In in Hin. pose proof (List.find_none _ _ Ef _ Hin) as Hf. cbn in Hf. by rewrite Hid, str_eqb_refl in Hf.
  - destruct (List.find _ l) as [spec'|] eqn:Ef; [|done]. exfalso.
    apply List.find_some in Ef as [Hin Heq]. apply str_eqb_eq in Heq. apply list_elem_of_In in Hin.
    destruct (Hfrom _ Hin) as (r' & Hr' & _). congruence.
Qed.

Definition error_text (e : DbError) : string := match e with Failed c | UniqueViolation c => c end.

(** The database as the per-app resolver of Caches sees it. *)
Definition resolver (db : Db) (yaml : list Spec.t) : Catalog.t :=
  Catalog.mk (Some (fun i => result_map_err error_text (fetch_one i db).1)) yaml.

Lemma fetch_one_ok i db :
  next_ok db ->
  (fetch_one i db).1 = match Tables.specs (ConfigDb.tables db) !! i with
                       | None => Ok None
                       | Some r => result_map Some (map_err_context ("deserialize spec " +:+ i) (from_json (SpecRow.config_json r)))
                       end.
Proof.
  unfold next_ok, fetch_one, try_bind, st_bind, query, statement, lift, st_ret. cbn.
  destruct (ConfigDb.faults db) as [|[] rest]; cbn; [|done|]; by destruct (Tables.specs _ !! i).
Qed.
End Lookup.

(** ** Properties *)

Section Properties.
Context `{SpecCodecLaws} (collate : string -> string -> bool).
Context (landing : M (DbResult unit)) (landing_elsewhere : forall db, ConfigDb.tables (landing db).2 = ConfigDb.tables db).

(** C19. The cached catalogue is never stale.  In every run of writes at
    increasing times and cached reads, each of whose listings succeeds with
    no write inside it, what a read returns is the catalogue of the tables at
    that moment: rows in order over the configuration file's other specs,
    whether it came from the cache or not.  Equal signatures (row count,
    version sum, latest update) mean equal tables, although an archive toggle
    does not touch the update time. *)
Theorem catalog_cache_transparent yaml t db cache :
  reachable collate landing yaml t db cache -> listing_ok db ->
  (effective_specs_cached collate (fun d => d) yaml (CatalogState.mk (Some db) cache)).1
  = catalogue collate yaml (ConfigDb.tables db).
Proof.
  intros Hr Hl. destruct (reachable_sound _ _ landing_elsewhere _ _ _ _ Hr) as [Hw Hc].
  destruct (effective_specs_cached _ _ _ _) as [specs st] eqn:E. cbn.
  by destruct (cached_read _ _ _ _ _ _ _ E Hl Hw Hc) as [-> _].
Qed.

(** The two resolvers agree.  Over a well-formed store, looking an app
    up in the whole effective catalogue gives what the proxy's resolver of
    one app gives: the database row if there is one, else the configuration
    file's spec. *)
Theorem catalog_agrees_with_lookup yaml db i :
  store_wf (ConfigDb.tables db) -> next_ok db ->
  List.find (fun s => str_eqb (Spec.id s) i) (effective_specs_db collate yaml db).1 = load_spec (resolver db yaml) i.
Proof.
  intros Hwf Hn. destruct (effective_specs_db_ok collate yaml db Hn) as [-> _]. unfold catalogue, load_spec, resolver. cbn.
  rewrite (fetch_one_ok i db Hn).
  destruct (parse_rows_total (ordered_rows collate (ConfigDb.tables db))) as [l Hl].
  { intros r [k Hk]%elem_of_rows. destruct (proj1 Hwf _ _ Hk) as [_ (sp & Hsp & _) _ _ _]. eauto. }
  rewrite Hl. unfold union_specs. rewrite find_app. pose proof (find_db_specs collate _ _ i Hwf Hl) as Hf.
  destruct (Tables.specs (ConfigDb.tables db) !! i) as [r|].
  - destruct Hf as (spec & Hs & ->). rewrite Hs. done.
  - rewrite Hf. cbn. by apply find_filter_absent.
Qed.
End Properties.

(** ** Concrete runs *)

Module CatalogExamples.
Import ExampleStore.

Definition yaml : list Spec.t := [app "a" "old:0"; app "c" "img:9"].
Definition read (between : Db -> Db) (st : CatalogState.t) : list (string * option string) * CatalogState.t :=
  let (specs, st') := effective_specs_cached collate between yaml st in
  (map (fun s => (Spec.id s, Spec.container_image s)) specs, st').
Definition attached (db : Db) : CatalogState.t := CatalogState.mk (Some db) None.
Definition on_db (f : Db -> Db) (st : CatalogState.t) : CatalogState.t :=
  CatalogState.mk (f <$> CatalogState.db st) (CatalogState.catalog_cache st).
Definition write_at (now : Z) (w : write) (db : Db) : Db := (run_write landing now w db).2.

(** A read fills the cache; an archive toggle empties it of use. *)
Definition filled : CatalogState.t := (read (fun d => d) (attached imported)).2.
Definition toggled_db : Db := write_at 9 (SetState "a" false None) imported.

Lemma catalog_cache_transparent_witness :
  map Spec.id (effective_specs_cached collate (fun d => d) yaml (CatalogState.mk (Some toggled_db) (CatalogState.catalog_cache filled))).1
  = ["a"; "b"; "c"].
Proof.
  assert (reachable collate landing yaml 5 imported None) as H1.
  { eapply (reachable_write _ _ _ 0 fresh None 5 (ImportAll two)); [|reflexivity|apply surjective_pairing].
    apply reachable_start. intros i r Hi. cbn in Hi. by rewrite lookup_empty in Hi. }
  assert (reachable collate landing yaml 5 imported (CatalogState.catalog_cache filled)) as H2.
  { eapply (reachable_read _ _ _ 5 imported None (effective_specs_cached collate (fun d => d) yaml (attached imported)).1);
      [exact H1|discriminate|vm_compute; reflexivity]. }
  assert (reachable collate landing yaml 9 toggled_db (CatalogState.catalog_cache filled)) as H3.
  { eapply (reachable_write _ _ _ 5 imported _ 9 (SetState "a" false None)); [exact H2|reflexivity|apply surjective_pairing]. }
  assert (listing_ok toggled_db) as Hl by discriminate.
  pose proof (catalog_cache_transparent collate landing landing_elsewhere yaml 9 toggled_db _ H3 Hl) as ->.
  vm_compute. reflexivity.
Defined.

Lemma catalog_agrees_with_lookup_witness :
  Spec.container_image <$> load_spec (resolver imported yaml) "a" = Some (Some "img:1")
  /\ Spec.container_image <$> load_spec (resolver imported yaml) "c" = Some (Some "img:9").
Proof.
  assert (store_wf (ConfigDb.tables imported)) as Hwf
    by exact (effects_wf _ _ _ (run_write_effects landing landing_elsewhere 5 (ImportAll two) fresh (Ok tt) imported eq_refl) store_wf_empty).
  assert (next_ok imported) as Hn by discriminate.
  rewrite <- (catalog_agrees_with_lookup collate yaml imported "a" Hwf Hn), <- (catalog_agrees_with_lookup collate yaml imported "c" Hwf Hn).
  vm_compute. auto.
Defined.

(** The statement after the signature fails once: the fallback to the file is
    cached under the signature, and served after the database is back. *)
Example failed_listing_is_cached :
  let st := attached (ConfigDb.mk (ConfigDb.tables imported) [false; true]) in
  let '(first, st) := read (fun d => d) st in
  let '(second, st) := read (fun d => d) st in
  first = [("a", Some "old:0"); ("c", Some "img:9")] /\ second = first
  /\ (read (fun d => d) (attached imported)).1 = [("a", Some "img:1"); ("b", Some "img:1"); ("c", Some "img:9")].
Proof. vm_compute. auto. Qed.

(** A spec created after the signature is read and deleted later is served
    from the cache although it is gone. *)
Example deleted_spec_is_served :
  let base := write_at 5 (UpsertOne (app "a" "img:1") None) fresh in
  let '(_, st) := read (write_at 6 (UpsertOne (app "b" "img:1") None)) (attached base) in
  let st := on_db (write_at 7 (DeleteOne "b" None)) st in
  (read (fun d => d) st).1 = [("a", Some "img:1"); ("b", Some "img:1"); ("c", Some "img:9")]
  /\ (read (fun d => d) (CatalogState.mk (CatalogState.db st) None)).1 = [("a", Some "img:1"); ("c", Some "img:9")].
Proof. vm_compute. auto. Qed.

(** Two nodes whose clocks differ: one app replaced by another leaves the
    signature as it was. *)
Example skewed_clocks_hide_a_write :
  let base := write_at 3 (UpsertOne (app "b" "img:1") None) (write_at 5 (UpsertOne (app "a" "img:1") None) fresh) in
  let swap db := write_at 4 (UpsertOne (app "c" "img:9") None) (write_at 6 (DeleteOne "b" None) db) in
  signature_of (ConfigDb.tables base) = signature_of (ConfigDb.tables (swap base))
  /\ Tables.specs (ConfigDb.tables base) !! "b" <> None /\ Tables.specs (ConfigDb.tables (swap base)) !! "b" = None
  /\ let '(_, st) := read (fun d => d) (attached base) in
     (read (fun d => d) (on_db swap st)).1 = [("b", Some "img:1"); ("a", Some "img:1"); ("c", Some "img:9")].
Proof. vm_compute. split; [auto|]. split; [discriminate|]. auto. Qed.
End CatalogExamples.
