(* ===== verification/Schedules.v ===== *)
(** * Schedules: the schedule store (db/schedules.rs)

    The tables [schedules] and [schedule_runs] and the statements on them,
    over Database's monad; both database arms run the same statements.
    Parameters: the collation of spec ids and the JSON reader of a stored
    command.  Times are nanoseconds of the wall clock. *)

From Stdlib Require Import Ascii String ZArith Lia.
From stdpp Require Import base tactics list gmap strings fin_maps numbers sorting.
From S2P Require Import Prelude Text Database SpecStore.

Local Open Scope string_scope.
Local Open Scope list_scope.
Local Open Scope Z_scope.
Local Open Scope ruscker_scope.

(** ** Tables *)

Module Schedule.
Record t := mk {
  id : Z;
  spec_id : string;
  cron : string;
  cmd_json : option string;
  enabled : bool;
  timeout_secs : option Z;
  last_run_at : option Z;
  created_at : Z;
  updated_at : Z }.
Definition set_enabled (b : bool) (now : Z) (s : t) : t :=
  mk (id s) (spec_id s) (cron s) (cmd_json s) b (timeout_secs s) (last_run_at s) (created_at s) now.
Definition set_last_run_at (now : Z) (s : t) : t :=
  mk (id s) (spec_id s) (cron s) (cmd_json s) (enabled s) (timeout_secs s) (Some now) (created_at s) (updated_at s).

(** [parse] is serde_json into a list of strings. *)
Definition cmd_override (parse : string -> option (list string)) (s : t) : option (list string) :=
  cmd_json s ≫= parse.
End Schedule.

Module RunStatus.
Inductive t := Ok | Failed | Error.
Definition as_str (s : t) : string := match s with Ok => "ok" | Failed => "failed" | Error => "error" end.
#[global] Instance eq_dec : EqDecision t.
Proof. solve_decision. Defined.
End RunStatus.

(** A row of [schedule_runs]. *)
Module RunRecord.
Record t := mk {
  schedule_id : Z;
  started_at : Z;
  finished_at : Z;
  status : string;
  exit_code : option Z;
  log_tail : string;
  duration_ms : option Z }.
End RunRecord.

Module RunRow.
Record t := mk {
  schedule_id : Z;
  spec_id : string;
  started_at : Z;
  status : string;
  exit_code : option Z;
  log_tail : option string;
  duration_ms : option Z }.
End RunRow.

(** [next_id] is the next id the primary key generates; none comes twice. *)
Module JobTables.
Record t := mk {
  schedules : gmap Z Schedule.t;
  next_id : Z;
  schedule_runs : list RunRecord.t;
  audit_log : list AuditRow.t }.
Definition empty : t := mk ∅ 1 [] [].
Definition set_schedules (x : gmap Z Schedule.t) (s : t) : t := mk x (next_id s) (schedule_runs s) (audit_log s).
Definition set_schedule_runs (x : list RunRecord.t) (s : t) : t := mk (schedules s) (next_id s) x (audit_log s).
Definition set_audit_log (x : list AuditRow.t) (s : t) : t := mk (schedules s) (next_id s) (schedule_runs s) x.
End JobTables.

Abbreviation JobDb := (ConfigDb.t JobTables.t).
Abbreviation JM A := (St JobDb A).

(** ** Functions *)

Section Store.
Context (collate : string -> string -> bool).

(** [ORDER BY spec_id, id] *)
Definition schedule_le (a b : Schedule.t) : Prop :=
  if str_eqb (Schedule.spec_id a) (Schedule.spec_id b) then Schedule.id a <= Schedule.id b
  else collate (Schedule.spec_id a) (Schedule.spec_id b) = true.
#[global] Instance schedule_le_dec a b : Decision (schedule_le a b).
Proof. unfold schedule_le. destruct (str_eqb _ _); apply _. Defined.

Definition list_all : JM (DbResult (list Schedule.t)) :=
  query "list schedules" (fun s => merge_sort schedule_le (snd <$> map_to_list (JobTables.schedules s))).

(** [JOIN schedules s ON s.id = r.schedule_id] *)
Definition joined (s : JobTables.t) (r : RunRecord.t) : option RunRow.t :=
  sched ← JobTables.schedules s !! RunRecord.schedule_id r;
  Some (RunRow.mk (RunRecord.schedule_id r) (Schedule.spec_id sched) (RunRecord.started_at r) (RunRecord.status r)
          (RunRecord.exit_code r) (Some (RunRecord.log_tail r)) (RunRecord.duration_ms r)).

(** [ORDER BY r.started_at DESC]; of equal times, the earlier insertion first. *)
Definition newer (a b : RunRow.t) : Prop := RunRow.started_at b <= RunRow.started_at a.
#[global] Instance newer_dec a b : Decision (newer a b).
Proof. unfold newer. apply _. Defined.

(** [limit] is not negative: the one caller binds a constant. *)
Definition recent_runs (limit : Z) : JM (DbResult (list RunRow.t)) :=
  query "recent schedule runs" (fun s => take (Z.to_nat limit) (merge_sort newer (omap (joined s) (JobTables.schedule_runs s)))).
End Store.

Definition audit_row (context : string) (a : AuditRow.t) : JM (DbResult unit) :=
  execute context (fun s => JobTables.set_audit_log (JobTables.audit_log s ++ [a]) s).

(** [audit::record] *)
Definition record_audit (actor action target : string) (diff_json : option string) (now : Z) : JM (DbResult unit) :=
  audit_row "audit record" (AuditRow.mk (Some actor) action (Some target) diff_json now).

Definition insert_schedule (spec_id cron : string) (cmd_json : option string) (timeout_secs : option Z) (now : Z)
    (s : JobTables.t) : JobTables.t :=
  let i := JobTables.next_id s in
  JobTables.mk (<[i := Schedule.mk i spec_id cron cmd_json true timeout_secs None now now]> (JobTables.schedules s))
    (i + 1) (JobTables.schedule_runs s) (JobTables.audit_log s).

(** [cron_json] is [json!({ "cron": cron })]. *)
Definition insert (cron_json : string -> string) (spec_id cron : string) (cmd_json : option string) (timeout_secs : option Z)
    (actor : option string) (now : Z) : JM (DbResult unit) :=
  transaction "begin schedule insert" "commit schedule insert"
    (do? u <- execute "insert schedule" (insert_schedule spec_id cron cmd_json timeout_secs now);
     do? u <- audit_row "audit schedule insert"
                (AuditRow.mk actor "schedule.create" (Some ("schedule:" +:+ spec_id)) (Some (cron_json cron)) now);
     st_ret (Ok (Commit tt))).

Definition alter_schedule (f : Schedule.t -> Schedule.t) (id : Z) (s : JobTables.t) : JobTables.t :=
  JobTables.set_schedules (alter f id (JobTables.schedules s)) s.

Definition set_enabled (id : Z) (enabled : bool) (actor : option string) (now audited : Z) : JM (DbResult unit) :=
  do? u <- execute "set schedule enabled" (alter_schedule (Schedule.set_enabled enabled now) id);
  record_audit (default "system" actor) "schedule.update" ("schedule:" +:+ show id) None audited.

(** The runs of a schedule go with it. *)
Definition delete_schedule (id : Z) (s : JobTables.t) : JobTables.t :=
  JobTables.mk (base.delete id (JobTables.schedules s)) (JobTables.next_id s)
    (List.filter (fun r => negb (RunRecord.schedule_id r =? id)) (JobTables.schedule_runs s)) (JobTables.audit_log s).

Definition delete (id : Z) (actor : option string) (audited : Z) : JM (DbResult unit) :=
  do? u <- execute "delete schedule" (delete_schedule id);
  record_audit (default "system" actor) "schedule.delete" ("schedule:" +:+ show id) None audited.

(** The rows the [UPDATE] of a claim meets: [id = ? AND last_run_at IS ?]. *)
Definition claimable (id : Z) (previous : option Z) (s : JobTables.t) : bool :=
  match JobTables.schedules s !! id with
  | Some sched => bool_decide (Schedule.last_run_at sched = previous)
  | None => false
  end.

Definition mark_fired (id : Z) (previous : option Z) (now : Z) : JM (DbResult bool) :=
  statement "mark schedule fired" (fun s =>
    if claimable id previous s then (true, alter_schedule (Schedule.set_last_run_at now) id s) else (false, s)).

(** The schedule a run refers to must exist. *)
Definition record_run (schedule_id started_at : Z) (status : RunStatus.t) (exit_code : option Z) (log_tail : string)
    (duration_ms : option Z) (finished : Z) : JM (DbResult unit) :=
  do? known <- statement "record schedule run" (fun s =>
    match JobTables.schedules s !! schedule_id with
    | Some _ =>
      (true, JobTables.set_schedule_runs (JobTables.schedule_runs s
               ++ [RunRecord.mk schedule_id started_at finished (RunStatus.as_str status) exit_code log_tail duration_ms]) s)
    | None => (false, s)
    end);
  lift (if known : bool then Ok tt else Err (Failed "record schedule run")).
