(* ===== verification/Jobs.v ===== *)
(** * Jobs: the scheduled-jobs runner (jobs.rs)

    One pass of the scheduler over the schedule store, the claim that keeps
    several schedulers apart, the detached runs and their reports, and the
    system of schedulers that share a database.  Parameters: croner and the
    zones ([CronTable]), the backend's jobs ([JobRunner]) and the JSON reader
    of a stored command.  A fixed list of writes may fall inside the
    catalogue's read ([between]). *)

From Stdlib Require Import Ascii String ZArith Lia Sorted.
From stdpp Require Import base tactics list gmap strings fin_maps numbers sorting.
From S2P Require Import Prelude Text Schema Core Counters Spawn Bollard Docker MultiHost Database SpecStore SpecCatalog Schedules.

Local Open Scope string_scope.
Local Open Scope list_scope.
Local Open Scope Z_scope.
Local Open Scope ruscker_scope.

(** ** Interfaces *)

(** croner's expressions, and its search for the next time one meets the
    wall clock of a zone; the flag says whether the start itself counts. *)
Class CronTable (Cron Tz : Type) := {
  parse_cron : string -> option Cron;
  find_next_occurrence : Cron -> Z -> Tz -> bool -> option Z
}.

Class CronLaws (Cron Tz : Type) `{CronTable Cron Tz} := {
  occurrence_after (c : Cron) (start : Z) (tz : Tz) t : find_next_occurrence c start tz false = Some t -> start < t
}.

(** [ContainerBackend::run_job], and the trait's default for a backend
    without jobs. *)
Class JobRunner (B : Type) := { run_job : SpawnRequest.t -> St B (CoreResult JobOutcome.t) }.

Definition default_run_job {B} (req : SpawnRequest.t) : St B (CoreResult JobOutcome.t) :=
  st_ret (Err (CoreError.Backend "run-to-completion jobs are not supported by this backend")).

#[global] Instance local_job_runner {D : Type} `{Docker D, System D, Formats} : JobRunner (LocalDockerBackend.t D) :=
  {| run_job := Docker.run_job |}.
#[global] Instance cluster_job_runner {H : Type} : JobRunner (MultiHostDockerBackend.t H) := {| run_job := default_run_job |}.

(** ** State *)

(** What a detached run carries. *)
Module Task.
Record t := mk { req : SpawnRequest.t; schedule : Schedule.t; started : Z }.
End Task.

(** The part of [AppState] a scheduler works on.  Each reading of a clock
    takes the next of [readings], which need not be in order. *)
Module Scheduler.
Record t {B : Type} := mk {
  db : option JobDb;
  backend : option B;
  catalog : CatalogState.t;
  alerts : AlertSink.t;
  readings : nat -> Z;
  detached : list Task.t }.
Arguments t : clear implicits.
Arguments mk {B}.
Section Setters.
Context {B : Type}.
Definition set_db (x : option JobDb) (w : t B) : t B := mk x (backend w) (catalog w) (alerts w) (readings w) (detached w).
Definition set_backend (x : option B) (w : t B) : t B := mk (db w) x (catalog w) (alerts w) (readings w) (detached w).
Definition set_catalog (x : CatalogState.t) (w : t B) : t B := mk (db w) (backend w) x (alerts w) (readings w) (detached w).
Definition set_alerts (x : AlertSink.t) (w : t B) : t B := mk (db w) (backend w) (catalog w) x (readings w) (detached w).
Definition set_readings (x : nat -> Z) (w : t B) : t B := mk (db w) (backend w) (catalog w) (alerts w) x (detached w).
Definition set_detached (x : list Task.t) (w : t B) : t B := mk (db w) (backend w) (catalog w) (alerts w) (readings w) x.
End Setters.
End Scheduler.

Definition TICK : Z := from_secs 30.

(** ** When a schedule is due *)

Section Due.
Context {Cron Tz : Type} `{CronTable Cron Tz}.

Definition next_occurrence (cron : string) (after : Z) (tz : Tz) : option Z :=
  parsed ← parse_cron cron;
  find_next_occurrence parsed after tz false.

Definition anchor (schedule : Schedule.t) : Z := default (Schedule.created_at schedule) (Schedule.last_run_at schedule).

Definition is_due (schedule : Schedule.t) (now : Z) (tz : Tz) : bool :=
  match next_occurrence (Schedule.cron schedule) (anchor schedule) tz with
  | Some next => next <=? now
  | None => false
  end.

(** The part of a pass over one schedule up to its claim: whether this
    scheduler is to run it. *)
Definition claim (now : Z) (tz : Tz) (schedule : Schedule.t) : JM bool :=
  match next_occurrence (Schedule.cron schedule) now tz with
  | None => st_ret false
  | Some _ =>
    if is_due schedule now tz then
      do won <- mark_fired (Schedule.id schedule) (Schedule.last_run_at schedule) now;
      st_ret (match won with Ok b => b | Err _ => false end)
    else st_ret false
  end.
End Due.

(** ** One scheduler *)

Section Scheduler.
Context {B : Type} `{JobRunner B}.
Context `{SpecCodec} (collate : string -> string -> bool) (parse_argv : string -> option (list string)).
Context (env : Env.t) (between : Db -> Db) (yaml : list Spec.t).
Context {Cron Tz : Type} `{CronTable Cron Tz}.
Abbreviation JobM A := (St (Scheduler.t B) A).

(** [Utc::now()] and [Instant::now()] *)
Definition read_clock : JobM Z := fun w =>
  (Scheduler.readings w 0%nat, Scheduler.set_readings (fun n => Scheduler.readings w (S n)) w).

(** A call on the store; [none] when there is no database. *)
Definition on_store {A} (none : A) (m : JM A) : JobM A := fun w =>
  match Scheduler.db w with
  | Some db => let (a, db') := m db in (a, Scheduler.set_db (Some db') w)
  | None => (none, w)
  end.

Definition on_catalog {A} (m : St CatalogState.t A) : JobM A := fun w =>
  let (a, c) := m (Scheduler.catalog w) in (a, Scheduler.set_catalog c w).

Definition notify (event : AlertEvent.t) : JobM unit :=
  do now <- read_clock;
  st_modify (fun w => Scheduler.set_alerts (AlertSink.notify now event (Scheduler.alerts w)).2 w).

Definition job_request (spec : Spec.t) (schedule : Schedule.t) : Result SpawnRequest.t string :=
  let? image := image_of spec in
  let? creds := resolve_creds env spec in
  let? pairs := resolved_env env spec in
  let cmd := match Schedule.cmd_override parse_argv schedule with Some c => Some c | None => Spec.container_cmd spec end in
  let labels := Spec.effective_labels spec in
  let cap := t ← Schedule.timeout_secs schedule; if 0 <? t then Some t else None in
  Ok (apply_opt cap SpawnRequest.with_job_timeout
       (apply_opt creds SpawnRequest.with_creds
         (apply_opt (match labels with [] => None | _ => Some labels end) SpawnRequest.with_labels
           (apply_opt (Spec.effective_container_network spec) SpawnRequest.with_network
             (apply_opt cmd SpawnRequest.with_cmd
               (apply_opt (Spec.platform spec) SpawnRequest.with_platform
                 (SpawnRequest.with_env pairs
                   (SpawnRequest.with_volumes (default [] (Spec.volumes spec))
                     (SpawnRequest.with_limits (limits_from_spec spec)
                       (SpawnRequest.new (Spec.id spec) image)))))))))).

Definition job_failed_event (schedule : Schedule.t) (status : RunStatus.t) (exit_code : option Z) (log_tail : string)
  : AlertEvent.t :=
  let job := "scheduled job for `" +:+ Schedule.spec_id schedule +:+ "` (cron `" +:+ Schedule.cron schedule +:+ "`)" in
  AlertEvent.mk AlertKind.JobFailed (Schedule.spec_id schedule) None
    (match status, exit_code with
     | RunStatus.Failed, Some code => job +:+ " exited with code " +:+ Text.show code
     | _, _ => job +:+ " could not run: " +:+ log_tail
     end).

Definition report (schedule : Schedule.t) (started : Z) (status : RunStatus.t) (exit_code : option Z) (log_tail : string)
    (duration_ms : option Z) : JobM unit :=
  do! (do has_db <- st_get (fun w => bool_decide (is_Some (Scheduler.db w)));
       if has_db : bool then
         do finished <- read_clock;
         do! on_store (Ok tt) (record_run (Schedule.id schedule) started status exit_code log_tail duration_ms finished);
         st_ret tt
       else st_ret tt);
  match status with
  | RunStatus.Ok => st_ret tt
  | RunStatus.Failed | RunStatus.Error => notify (job_failed_event schedule status exit_code log_tail)
  end.

(** The body of the detached task. *)
Definition run_task (task : Task.t) : JobM unit := fun w =>
  match Scheduler.backend w with
  | None => (tt, w)
  | Some b =>
    let (r, b') := run_job (Task.req task) b in
    let w := Scheduler.set_backend (Some b') w in
    match r with
    | Ok out =>
      let status := if JobOutcome.exit_code out =? 0 then RunStatus.Ok else RunStatus.Failed in
      report (Task.schedule task) (Task.started task) status (Some (JobOutcome.exit_code out))
        (str_join (String "010" EmptyString) (JobOutcome.log_tail out)) (Some (u64_as_i64 (JobOutcome.duration_ms out))) w
    | Err e => report (Task.schedule task) (Task.started task) RunStatus.Error None (CoreError.display e) None w
    end
  end.

(** The part of a pass after a schedule is claimed. *)
Definition launch (now : Z) (schedule : Schedule.t) : JobM unit :=
  do specs <- on_catalog (effective_specs_cached collate between yaml);
  match List.find (fun s => str_eqb (Spec.id s) (Schedule.spec_id schedule)) specs with
  | None =>
    do finished <- read_clock;
    do! on_store (Ok tt) (record_run (Schedule.id schedule) now RunStatus.Error None "spec no longer exists in the catalog" None finished);
    st_ret tt
  | Some spec =>
    match job_request spec schedule with
    | Err e => report schedule now RunStatus.Error None e None
    | Ok req => st_modify (fun w => Scheduler.set_detached (Scheduler.detached w ++ [Task.mk req schedule now]) w)
    end
  end.

Definition visit (now : Z) (tz : Tz) (schedule : Schedule.t) : JobM unit :=
  do claimed <- on_store false (claim now tz schedule);
  if claimed : bool then launch now schedule else st_ret tt.

(** One pass; [leads] is what the elector answers. *)
Definition tick (leads : bool) (tz : Tz) : JobM unit := fun w =>
  match leads, Scheduler.db w, Scheduler.backend w with
  | true, Some _, Some _ =>
    (do listed <- on_store (Ok []) (Schedules.list_all collate);
     match listed with
     | Err _ => st_ret tt
     | Ok schedules =>
       do now <- read_clock;
       st_for (List.filter Schedule.enabled schedules) (visit now tz)
     end) w
  | _, _, _ => (tt, w)
  end.
End Scheduler.

(** ** Several schedulers on one database *)

(** A claim that was won. *)
Module Fire.
Record t {Tz : Type} := mk { schedule : Schedule.t; at_ : Z; tz : Tz }.
Arguments t : clear implicits.
Arguments mk {Tz}.
Definition id {Tz} (f : t Tz) : Z := Schedule.id (schedule f).
End Fire.

(** The store, what each scheduler still has to visit in its pass and the
    time of the pass, and the claims won, the latest first. *)
Module Cluster.
Record t {Tz : Type} := mk { store : JobDb; passes : gmap nat (Z * list Schedule.t); fires : list (Fire.t Tz) }.
Arguments t : clear implicits.
Arguments mk {Tz}.
End Cluster.

(** What the admin pages and the reports do to the store. *)
Inductive StoreCall :=
| Insert (spec_id cron : string) (cmd_json : option string) (timeout_secs : option Z) (actor : option string)
| SetEnabled (id : Z) (enabled : bool) (actor : option string)
| Delete (id : Z) (actor : option string)
| RecordRun (schedule_id started_at : Z) (status : RunStatus.t) (exit_code : option Z) (log_tail : string) (duration_ms : option Z).

Section Cluster.
Context {Cron Tz : Type} `{CronLaws Cron Tz} (collate : string -> string -> bool) (cron_json : string -> string).

Definition run_call (c : StoreCall) (now : Z) : JM (DbResult unit) :=
  match c with
  | Insert spec_id cron cmd_json timeout_secs actor => insert cron_json spec_id cron cmd_json timeout_secs actor now
  | SetEnabled id enabled actor => set_enabled id enabled actor now now
  | Delete id actor => Schedules.delete id actor now
  | RecordRun schedule_id started_at status exit_code log_tail duration_ms =>
    record_run schedule_id started_at status exit_code log_tail duration_ms now
  end.

(** Each statement of each scheduler falls anywhere among the others'. *)
Inductive step (sys : Cluster.t Tz) : Cluster.t Tz -> Prop :=
| step_list k now l db' :
    Schedules.list_all collate (Cluster.store sys) = (Ok l, db') ->
    step sys (Cluster.mk db' (<[k := (now, List.filter Schedule.enabled l)]> (Cluster.passes sys)) (Cluster.fires sys))
| step_claim k now tz s rest won db' :
    Cluster.passes sys !! k = Some (now, s :: rest) -> claim now tz s (Cluster.store sys) = (won, db') ->
    step sys (Cluster.mk db' (<[k := (now, rest)]> (Cluster.passes sys))
                (if won then Fire.mk s now tz :: Cluster.fires sys else Cluster.fires sys))
| step_crash k : step sys (Cluster.mk (Cluster.store sys) (base.delete k (Cluster.passes sys)) (Cluster.fires sys))
| step_call c now r db' :
    run_call c now (Cluster.store sys) = (r, db') -> step sys (Cluster.mk db' (Cluster.passes sys) (Cluster.fires sys))
| step_faults faults :
    step sys (Cluster.mk (ConfigDb.mk (ConfigDb.tables (Cluster.store sys)) faults) (Cluster.passes sys) (Cluster.fires sys)).

Definition tables_wf (s : JobTables.t) : Prop :=
  forall i r, JobTables.schedules s !! i = Some r -> Schedule.id r = i /\ i < JobTables.next_id s.

Inductive reachable : Cluster.t Tz -> Prop :=
| reachable_start db : tables_wf (ConfigDb.tables db) -> reachable (Cluster.mk db ∅ [])
| reachable_step sys sys' : reachable sys -> step sys sys' -> reachable sys'.

(** *** Invariant *)

(** A row of [s'] is one of [s] with the same creation and marker, or new. *)
Record edited (s s' : JobTables.t) : Prop := {
  edited_next : JobTables.next_id s <= JobTables.next_id s';
  edited_row i r : JobTables.schedules s' !! i = Some r ->
    (exists r0, JobTables.schedules s !! i = Some r0 /\ Schedule.id r = Schedule.id r0
       /\ Schedule.created_at r = Schedule.created_at r0 /\ Schedule.last_run_at r = Schedule.last_run_at r0)
    \/ (JobTables.next_id s <= i /\ i < JobTables.next_id s' /\ Schedule.id r = i) }.

Lemma edited_same s s' : JobTables.schedules s' = JobTables.schedules s -> JobTables.next_id s' = JobTables.next_id s -> edited s s'.
Proof. intros Hs Hn. split; [lia|]. intros i r. rewrite Hs. left. eauto 6. Qed.

Lemma edited_refl s : edited s s.
Proof. by apply edited_same. Qed.

Lemma list_all_Ok db l db' :
  Schedules.list_all collate db = (Ok l, db') ->
  ConfigDb.tables db' = ConfigDb.tables db
  /\ forall s, s ∈ l <-> exists i, JobTables.schedules (ConfigDb.tables db) !! i = Some s.
Proof.
  intros [Ht [[=]|[= ->]]]%query_inv. split; [done|]. intros s.
  rewrite merge_sort_Permutation, list_elem_of_fmap. split.
  - intros ([i r] & -> & Hi%elem_of_map_to_list). eauto.
  - intros [i Hi]. exists (i, s). split; [done|]. by apply elem_of_map_to_list.
Qed.

Lemma record_audit_same actor action target diff now db r db' :
  record_audit actor action target diff now db = (r, db') ->
  edited (ConfigDb.tables db) (ConfigDb.tables db').
Proof. intros [[_ ->]|[_ ->]]%statement_inv; [apply edited_refl|by apply edited_same]. Qed.

Lemma edited_then_audit s actor action target diff now db r db' :
  edited s (ConfigDb.tables db) -> record_audit actor action target diff now db = (r, db') -> edited s (ConfigDb.tables db').
Proof.
  intros He [[_ ->]|[_ ->]]%statement_inv; [done|]. destruct He as [Hn Hr]. split; [done|exact Hr].
Qed.

Lemma edited_alter f id s :
  (forall r, Schedule.id (f r) = Schedule.id r /\ Schedule.created_at (f r) = Schedule.created_at r
     /\ Schedule.last_run_at (f r) = Schedule.last_run_at r) ->
  edited s (alter_schedule f id s).
Proof.
  intros Hf. split; [cbn; lia|]. intros i r. cbn. intros Hi. left. destruct (decide (i = id)) as [->|Hne].
  - rewrite lookup_alter_eq in Hi. apply fmap_Some in Hi as (r0 & E & ->). specialize (Hf r0). exists r0. naive_solver.
  - rewrite lookup_alter_ne in Hi by done. eauto 6.
Qed.

Lemma edited_delete id s : edited s (delete_schedule id s).
Proof. split; [cbn; lia|]. intros i r Hi. cbn in Hi. apply lookup_delete_Some in Hi as [_ Hi]. left. eauto 6. Qed.

Lemma edited_insert spec_id cron cmd timeout now s : edited s (insert_schedule spec_id cron cmd timeout now s).
Proof.
  split; [cbn; lia|]. intros i r. cbn. intros [[<- <-]|[Hne Hi]]%lookup_insert_Some; [right; cbn; lia|left; eauto 6].
Qed.

Lemma run_call_edited c now db r db' :
  run_call c now db = (r, db') -> edited (ConfigDb.tables db) (ConfigDb.tables db').
Proof.
  destruct c; cbn [run_call].
  - intros [->|(a & db1 & db2 & _ & E1 & Hb & E2)]%transaction_inv; [apply edited_refl|].
    apply try_bind_Ok in Hb as (u1 & db3 & Hi%execute_Ok & Hb). apply try_bind_Ok in Hb as (u2 & db4 & Ha%execute_Ok & [= _ <-]).
    rewrite E2, Ha, Hi, E1. destruct (edited_insert spec_id cron cmd_json timeout_secs now (ConfigDb.tables db)) as [Hn Hr].
    split; [exact Hn|exact Hr].
  - intros [(u & db1 & Hu%execute_Ok & Ha)|(e & Hu & ->)]%try_bind_inv.
    + eapply edited_then_audit; [|exact Ha]. rewrite Hu. by apply edited_alter.
    + apply statement_inv in Hu as [[_ ->]|[? ?]]; [apply edited_refl|done].
  - intros [(u & db1 & Hu%execute_Ok & Ha)|(e & Hu & ->)]%try_bind_inv.
    + eapply edited_then_audit; [|exact Ha]. rewrite Hu. apply edited_delete.
    + apply statement_inv in Hu as [[_ ->]|[? ?]]; [apply edited_refl|done].
  - intros [(u & db1 & Hu & [= <- <-])|(e & Hu & ->)]%try_bind_inv; apply statement_inv in Hu as [[_ ->]|[_ ->]];
      try apply edited_refl; destruct (JobTables.schedules _ !! schedule_id); by apply edited_same.
Qed.

(** What a claim does. *)
Lemma claim_inv now tz s db won db' :
  claim now tz s db = (won, db') ->
  (won = false /\ ConfigDb.tables db' = ConfigDb.tables db)
  \/ (won = true /\ is_due s now tz = true
      /\ (exists r, JobTables.schedules (ConfigDb.tables db) !! Schedule.id s = Some r
            /\ Schedule.last_run_at r = Schedule.last_run_at s)
      /\ ConfigDb.tables db' = alter_schedule (Schedule.set_last_run_at now) (Schedule.id s) (ConfigDb.tables db)).
Proof.
  unfold claim. destruct (next_occurrence _ now tz); [|intros [= <- <-]; auto].
  destruct (is_due s now tz) eqn:Hd; [|intros [= <- <-]; auto].
  intros (won' & db1 & Hm & [= <- <-])%st_bind_inv. apply statement_inv in Hm as [[-> ->]|[-> ->]]; [auto|].
  unfold claimable. destruct (JobTables.schedules _ !! _) as [r|] eqn:Er; cbn; [|auto].
  case_bool_decide; cbn; [right; split_and!; eauto|auto].
Qed.

Definition newest (i : Z) (fires : list (Fire.t Tz)) : option (Fire.t Tz) := List.find (fun f => Fire.id f =? i) fires.

(** A later fire of a schedule starts where an earlier one ended. *)
Definition follows (g f : Fire.t Tz) : Prop := Fire.id g = Fire.id f -> Fire.at_ f <= anchor (Fire.schedule g).

Record inv (sys : Cluster.t Tz) : Prop := {
  inv_wf : tables_wf (ConfigDb.tables (Cluster.store sys));
  inv_passes k now l s : Cluster.passes sys !! k = Some (now, l) -> s ∈ l ->
    Schedule.id s < JobTables.next_id (ConfigDb.tables (Cluster.store sys))
    /\ forall r, JobTables.schedules (ConfigDb.tables (Cluster.store sys)) !! Schedule.id s = Some r ->
         Schedule.created_at r = Schedule.created_at s;
  inv_fires : Forall (fun f => Fire.id f < JobTables.next_id (ConfigDb.tables (Cluster.store sys))
    /\ is_due (Fire.schedule f) (Fire.at_ f) (Fire.tz f) = true) (Cluster.fires sys);
  inv_marker i r f : JobTables.schedules (ConfigDb.tables (Cluster.store sys)) !! i = Some r ->
    newest i (Cluster.fires sys) = Some f -> Schedule.last_run_at r = Some (Fire.at_ f);
  inv_chain : StronglySorted follows (Cluster.fires sys) }.

Lemma newest_elem i fires f : newest i fires = Some f -> f ∈ fires /\ Fire.id f = i.
Proof. intros [Hin Hi]%List.find_some. split; [by apply list_elem_of_In|lia]. Qed.

Lemma tables_wf_edited s s' : edited s s' -> tables_wf s -> tables_wf s'.
Proof.
  intros [Hn Hr] Hwf i r Hi. destruct (Hr _ _ Hi) as [(r0 & E & Hid & _)|(_ & Hlt & Hid)]; [|done].
  destruct (Hwf _ _ E). split; [congruence|lia].
Qed.

Lemma inv_edited sys db' :
  inv sys -> edited (ConfigDb.tables (Cluster.store sys)) (ConfigDb.tables db') ->
  inv (Cluster.mk db' (Cluster.passes sys) (Cluster.fires sys)).
Proof.
  intros [Hwf Hp Hf Hm Hc] He. pose proof (edited_next _ _ He) as Hn. split; cbn [Cluster.store Cluster.passes Cluster.fires].
  - by eapply tables_wf_edited.
  - intros k now l s Hk Hs. destruct (Hp _ _ _ _ Hk Hs) as [Hlt Hcr]. split; [lia|].
    intros r Hi. destruct (edited_row _ _ He _ _ Hi) as [(r0 & E & _ & -> & _)|(Hge & _)]; [by apply Hcr|lia].
  - eapply Forall_impl; [exact Hf|]. cbn. intros f [? ?]. split; [lia|done].
  - intros i r f Hi Hnew. destruct (edited_row _ _ He _ _ Hi) as [(r0 & E & _ & _ & ->)|(Hge & _)]; [by eapply Hm|].
    apply newest_elem in Hnew as [Hin <-]. rewrite list.Forall_forall in Hf. apply Hf in Hin as [? _]. lia.
  - done.
Qed.

Lemma inv_pass sys k now l :
  inv sys ->
  (forall s, s ∈ l -> Schedule.id s < JobTables.next_id (ConfigDb.tables (Cluster.store sys))
    /\ forall r, JobTables.schedules (ConfigDb.tables (Cluster.store sys)) !! Schedule.id s = Some r ->
         Schedule.created_at r = Schedule.created_at s) ->
  inv (Cluster.mk (Cluster.store sys) (<[k := (now, l)]> (Cluster.passes sys)) (Cluster.fires sys)).
Proof.
  intros [Hwf Hp Hf Hm Hc] Hl. split; cbn [Cluster.store Cluster.passes Cluster.fires]; [done| |done|done|done].
  intros k' now' l' s [[<- [= <- <-]]|[Hne Hk]]%lookup_insert_Some Hs; [by apply Hl|by eapply Hp].
Qed.

Lemma inv_won sys now tz s :
  inv sys -> is_due s now tz = true ->
  (forall r, JobTables.schedules (ConfigDb.tables (Cluster.store sys)) !! Schedule.id s = Some r ->
     Schedule.created_at r = Schedule.created_at s) ->
  (exists r, JobTables.schedules (ConfigDb.tables (Cluster.store sys)) !! Schedule.id s = Some r
     /\ Schedule.last_run_at r = Schedule.last_run_at s) ->
  forall db', ConfigDb.tables db' = alter_schedule (Schedule.set_last_run_at now) (Schedule.id s) (ConfigDb.tables (Cluster.store sys)) ->
  inv (Cluster.mk db' (Cluster.passes sys) (Fire.mk s now tz :: Cluster.fires sys)).
Proof.
  intros [Hwf Hp Hf Hm Hc] Hdue Hcr (r & Er & Elast) db' Edb.
  assert (forall i r', JobTables.schedules (ConfigDb.tables db') !! i = Some r' ->
    exists r0, JobTables.schedules (ConfigDb.tables (Cluster.store sys)) !! i = Some r0
      /\ Schedule.id r' = Schedule.id r0 /\ Schedule.created_at r' = Schedule.created_at r0
      /\ Schedule.last_run_at r' = if decide (i = Schedule.id s) then Some now else Schedule.last_run_at r0) as Hrow.
  { intros i r'. rewrite Edb. cbn. intros Hi. destruct (decide (i = Schedule.id s)) as [->|Hne].
    - rewrite lookup_alter_eq in Hi. apply fmap_Some in Hi as (r0 & E & ->). eauto 6.
    - rewrite lookup_alter_ne in Hi by done. eauto 6. }
  assert (JobTables.next_id (ConfigDb.tables db') = JobTables.next_id (ConfigDb.tables (Cluster.store sys))) as Hn by (by rewrite Edb).
  assert (forall f, f ∈ Cluster.fires sys -> Fire.id f = Schedule.id s ->
    exists f0, newest (Schedule.id s) (Cluster.fires sys) = Some f0 /\ Fire.at_ f <= Fire.at_ f0) as Hnewest.
  { clear -Hc Hf H0. induction (Cluster.fires sys) as [|g l IH]; intros f Hin Hid; [by apply not_elem_of_nil in Hin|].
    apply StronglySorted_inv in Hc as [Hc Hg]. apply Forall_cons in Hf as [[_ Hd] Hf]. cbn.
    destruct (Fire.id g =? Schedule.id s) eqn:E.
    - exists g. split; [done|]. apply elem_of_cons in Hin as [->|Hin]; [done|].
      rewrite list.Forall_forall in Hg. specialize (Hg _ Hin). unfold follows in Hg.
      unfold is_due in Hd. destruct (next_occurrence _ _ _) as [o|] eqn:Eo; [|done].
      unfold next_occurrence in Eo. apply bind_Some in Eo as (c & _ & Eo). apply occurrence_after in Eo. lia.
    - apply elem_of_cons in Hin as [->|Hin]; [lia|]. by apply IH. }
  split; cbn [Cluster.store Cluster.passes Cluster.fires].
  - intros i r' (r0 & E & -> & _)%Hrow. rewrite Hn. by apply Hwf.
  - intros k now' l s' Hk Hs. rewrite Hn. destruct (Hp _ _ _ _ Hk Hs) as [? Hcr']. split; [done|].
    intros r' (r0 & E & _ & -> & _)%Hrow. by apply Hcr'.
  - rewrite Hn. constructor; [split; [apply (Hwf _ _ Er)|done]|done].
  - intros i r' f (r0 & E & _ & _ & ->)%Hrow. cbn. unfold Fire.id at 1. cbn.
    case_decide as Hi; [subst i; rewrite Z.eqb_refl; by intros [= <-]|].
    destruct (Schedule.id s =? i) eqn:Ei; [lia|]. by apply Hm.
  - constructor; [done|]. apply list.Forall_forall. intros f Hin Hid. symmetry in Hid.
    destruct (Hnewest f Hin Hid) as (f0 & Hf0 & Hle). cbn. unfold anchor. rewrite <- Elast, (Hm _ _ _ Er Hf0). cbn. lia.
Qed.

Lemma cluster_inv sys : reachable sys -> inv sys.
Proof.
  induction 1 as [db Hwf|sys sys' _ IH Hstep].
  { split; cbn; [done|intros k now l s Hk; by rewrite lookup_empty in Hk|by constructor|done|by constructor]. }
  destruct Hstep as [k now l db' Hl|k now tz s rest won db' Hk Hc|k|c now r db' Hc|faults].
  - apply list_all_Ok in Hl as [Ht Hl].
    apply (inv_pass (Cluster.mk db' (Cluster.passes sys) (Cluster.fires sys))); cbn [Cluster.store].
    + apply inv_edited; [done|]. rewrite Ht. apply edited_refl.
    + rewrite Ht. intros s Hs. apply list_elem_of_In, List.filter_In in Hs as [Hs _]. apply list_elem_of_In, Hl in Hs as [i Hi].
      destruct (inv_wf _ IH _ _ Hi) as [<- Hlt]. split; [done|]. intros r Hr. congruence.
  - assert (forall s', s' ∈ s :: rest -> Schedule.id s' < JobTables.next_id (ConfigDb.tables (Cluster.store sys))
      /\ forall r, JobTables.schedules (ConfigDb.tables (Cluster.store sys)) !! Schedule.id s' = Some r ->
           Schedule.created_at r = Schedule.created_at s') as Hpass by (intros s' Hs'; by eapply inv_passes).
    assert (inv (Cluster.mk (Cluster.store sys) (<[k := (now, rest)]> (Cluster.passes sys)) (Cluster.fires sys))) as Hinv.
    { apply inv_pass; [done|]. intros s' Hs'. apply Hpass. by right. }
    apply claim_inv in Hc as [[-> Ht]|(-> & Hdue & Hr & Ht)].
    + apply (inv_edited _ _ Hinv). cbn. rewrite Ht. apply edited_refl.
    + eapply (inv_won _ _ _ _ Hinv); [done| |done|done]. apply Hpass. by left.
  - destruct IH as [Hwf Hp Hf Hm Hch]. split; cbn; try done. intros k' now l s Hk. apply lookup_delete_Some in Hk as [_ Hk]. by eapply Hp.
  - apply inv_edited; [done|]. by eapply run_call_edited.
  - apply inv_edited; [done|]. apply edited_refl.
Qed.

(** C20. No occurrence is fired twice.  However the statements of any
    number of schedulers interleave with each other, with edits, crashes and
    failures, and whatever their clocks say, two claims of one schedule that
    are won, [f] before [g], stand for different occurrences: the one of [f]
    is in the interval that ends when [f] was claimed, and the one of [g]
    lies strictly after that time. *)
Theorem no_occurrence_fired_twice sys i j f g :
  reachable sys -> Cluster.fires sys !! j = Some f -> Cluster.fires sys !! i = Some g -> (i < j)%nat -> Fire.id f = Fire.id g ->
  exists o o',
    next_occurrence (Schedule.cron (Fire.schedule f)) (anchor (Fire.schedule f)) (Fire.tz f) = Some o
    /\ next_occurrence (Schedule.cron (Fire.schedule g)) (anchor (Fire.schedule g)) (Fire.tz g) = Some o'
    /\ anchor (Fire.schedule f) < o <= Fire.at_ f
    /\ Fire.at_ f <= anchor (Fire.schedule g) < o'
    /\ o' <= Fire.at_ g.
Proof.
  intros Hr%cluster_inv Hj Hi Hlt Hid. destruct Hr as [_ _ Hf _ Hc].
  assert (forall f i, Cluster.fires sys !! i = Some f -> exists o,
    next_occurrence (Schedule.cron (Fire.schedule f)) (anchor (Fire.schedule f)) (Fire.tz f) = Some o
    /\ anchor (Fire.schedule f) < o <= Fire.at_ f) as Hocc.
  { intros f' i' Hin%list_elem_of_lookup_2. rewrite list.Forall_forall in Hf. apply Hf in Hin as [_ Hd].
    unfold is_due in Hd. destruct (next_occurrence _ _ _) as [o|] eqn:Eo; [|done]. exists o. split; [done|].
    unfold next_occurrence in Eo. apply bind_Some in Eo as (c & _ & Eo). apply occurrence_after in Eo. lia. }
  destruct (Hocc _ _ Hj) as (o & Eo & Ho). destruct (Hocc _ _ Hi) as (o' & Eo' & Ho').
  assert (follows g f) as Hfol.
  { apply (StronglySorted_app_1_elem_of follows (take j (Cluster.fires sys)) (drop j (Cluster.fires sys))).
    - by rewrite take_drop.
    - apply (list_elem_of_lookup_2 _ i). by rewrite lookup_take_lt.
    - apply (list_elem_of_lookup_2 _ 0). rewrite lookup_drop. by rewrite Nat.add_0_r. }
  exists o, o'. split; [done|]. split; [done|]. specialize (Hfol (eq_sym Hid)). lia.
Qed.
End Cluster.

(** ** A pass on a healthy database *)

Section Pass.
Context {B : Type} `{JobRunner B}.
Context `{SpecCodec} (collate : string -> string -> bool) (parse_argv : string -> option (list string)).
Context (env : Env.t) (between : Db -> Db) (yaml : list Spec.t).
Context {Cron Tz : Type} `{CronTable Cron Tz}.
Abbreviation JobM A := (St (Scheduler.t B) A).
Abbreviation visit := (visit collate parse_argv env between yaml).
Abbreviation launch := (launch collate parse_argv env between yaml).

(** The store is there, and from here on no statement fails. *)
Definition healthy (db : JobDb) (w : Scheduler.t B) : Prop := Scheduler.db w = Some db /\ ConfigDb.faults db = [].

Definition on_file (i : Z) (db : JobDb) : Prop := is_Some (JobTables.schedules (ConfigDb.tables db) !! i).
Definition runs (db : JobDb) : list RunRecord.t := JobTables.schedule_runs (ConfigDb.tables db).

(** The detached runs and the recorded rows of one schedule. *)
Definition tasks_of (i : Z) (w : Scheduler.t B) : list Task.t :=
  filter (fun t => Schedule.id (Task.schedule t) = i) (Scheduler.detached w).
Definition rows_of (i : Z) (db : JobDb) : list RunRecord.t := filter (fun r => RunRecord.schedule_id r = i) (runs db).

(** The catalogue after [n] reads, and a catalogue that answers each read of
    a pass with the same apps. *)
Definition reads (n : nat) (c : CatalogState.t) : CatalogState.t :=
  Nat.iter n (fun c => (effective_specs_cached collate between yaml c).2) c.
Definition answers (specs : list Spec.t) (c : CatalogState.t) : Prop :=
  forall n, (effective_specs_cached collate between yaml (reads n c)).1 = specs.

Lemma answers_reads specs n c : answers specs c -> answers specs (reads n c).
Proof. intros Hc m. unfold reads. rewrite <- Nat.iter_add. apply Hc. Qed.

(** What the work on the schedule [i] leaves of a healthy scheduler. *)
Definition kept (i : Z) (w w' : Scheduler.t B) : Prop :=
  (forall j, j <> i -> tasks_of j w' = tasks_of j w)
  /\ (exists n, Scheduler.catalog w' = reads n (Scheduler.catalog w))
  /\ forall db, healthy db w -> exists db', healthy db' w'
       /\ forall j, j <> i -> JobTables.schedules (ConfigDb.tables db') !! j = JobTables.schedules (ConfigDb.tables db) !! j
            /\ rows_of j db' = rows_of j db.

Lemma kept_refl i w : kept i w w.
Proof. split; [done|]. split; [by exists 0%nat|]. intros db Hdb. exists db. auto. Qed.

Lemma kept_trans i w1 w2 w3 : kept i w1 w2 -> kept i w2 w3 -> kept i w1 w3.
Proof.
  intros (Ht & [n Hn] & Hk) (Ht' & [n' Hn'] & Hk'). split; [intros j Hj; rewrite Ht', Ht; done|].
  split; [exists (n' + n)%nat; rewrite Hn', Hn; unfold reads; by rewrite Nat.iter_add|]. intros db Hdb.
  destruct (Hk _ Hdb) as (db1 & Hdb1 & Hs). destruct (Hk' _ Hdb1) as (db2 & Hdb2 & Hs').
  exists db2. split; [done|]. intros j Hj. destruct (Hs j Hj), (Hs' j Hj). split; congruence.
Qed.

(** A step that leaves the store, the catalogue and the tasks alone. *)
Lemma kept_aside i w w' :
  Scheduler.db w' = Scheduler.db w -> Scheduler.catalog w' = Scheduler.catalog w -> Scheduler.detached w' = Scheduler.detached w ->
  kept i w w'.
Proof.
  intros Hd Hc Ht. split; [unfold tasks_of; by rewrite Ht|]. split; [by exists 0%nat|]. intros db [Hdb Hf]. exists db.
  split; [by split; rewrite ?Hd|]. auto.
Qed.

Definition with_run (r : RunRecord.t) (db : JobDb) : JobDb :=
  ConfigDb.mk (JobTables.set_schedule_runs (runs db ++ [r]) (ConfigDb.tables db)) [].

Lemma record_run_healthy i started status exit_code log_tail duration_ms finished db :
  ConfigDb.faults db = [] -> on_file i db ->
  record_run i started status exit_code log_tail duration_ms finished db
  = (Ok tt, with_run (RunRecord.mk i started finished (RunStatus.as_str status) exit_code log_tail duration_ms) db).
Proof. unfold record_run, try_bind, st_bind, statement, on_file. intros -> [r Hr]. cbn. by rewrite Hr. Qed.

#[local] Instance kept_preorder i : PreOrder (kept i).
Proof. split; [intros w; apply kept_refl|intros w1 w2 w3; apply kept_trans]. Qed.

(** A call on the store that keeps what [kept] asks of it. *)
Lemma on_store_kept {A} i (none : A) (m : JM A) :
  (forall db, ConfigDb.faults db = [] ->
     ConfigDb.faults (m db).2 = []
     /\ forall j, j <> i -> JobTables.schedules (ConfigDb.tables (m db).2) !! j = JobTables.schedules (ConfigDb.tables db) !! j
          /\ rows_of j (m db).2 = rows_of j db) ->
  preserves (kept i) (on_store none m).
Proof.
  intros Hm w. unfold on_store. destruct (Scheduler.db w) as [db|] eqn:Hdb; [|apply kept_refl].
  destruct (m db) as [a db'] eqn:E. split; [done|]. split; [by exists 0%nat|]. intros db0 [Hdb0 Hf].
  assert (db0 = db) as -> by congruence. exists db'. destruct (Hm db Hf) as [? ?]. rewrite E in *. split; [by split|done].
Qed.

Lemma record_run_kept none i started status exit_code log_tail duration_ms finished :
  preserves (kept i) (on_store none (record_run i started status exit_code log_tail duration_ms finished)).
Proof.
  apply on_store_kept. intros db Hf. unfold record_run, try_bind, st_bind, statement. rewrite Hf.
  destruct (JobTables.schedules _ !! i) eqn:Ei; cbn; (split; [done|]); intros j Hj; (split; [done|]); unfold rows_of, runs; cbn; [|done].
  rewrite filter_app, filter_cons_False by (cbn; congruence). apply app_nil_r.
Qed.

Lemma claim_kept none now tz s : preserves (kept (Schedule.id s)) (on_store none (claim now tz s)).
Proof.
  apply on_store_kept. intros db Hf. unfold claim. destruct (next_occurrence _ _ _); [|done].
  destruct (is_due _ _ _); [|done]. unfold mark_fired, st_bind, statement. rewrite Hf.
  destruct (claimable _ _ _); [|done]. cbn. split; [done|]. intros j Hj. split; [by rewrite lookup_alter_ne|done].
Qed.

Lemma read_clock_kept i : preserves (kept i) read_clock.
Proof. intros w. by apply kept_aside. Qed.

Lemma notify_kept i event : preserves (kept i) (notify event).
Proof. intros w. by apply kept_aside. Qed.

Lemma catalog_kept i : preserves (kept i) (on_catalog (effective_specs_cached collate between yaml)).
Proof.
  intros w. unfold on_catalog. destruct (effective_specs_cached _ _ _ _) as [specs c] eqn:E. split; [done|].
  split; [exists 1%nat; cbn; by rewrite E|]. intros db Hdb. exists db. auto.
Qed.

Lemma detach_kept req s now :
  preserves (kept (Schedule.id s)) (st_modify (fun w => Scheduler.set_detached (Scheduler.detached w ++ [Task.mk req s now]) w)).
Proof.
  intros w. split; [|split; [by exists 0%nat|intros db Hdb; exists db; auto]]. intros j Hj. unfold tasks_of. cbn.
  rewrite filter_app, filter_cons_False by (cbn; congruence). apply app_nil_r.
Qed.

#[local] Hint Resolve record_run_kept claim_kept read_clock_kept notify_kept catalog_kept detach_kept : preserves.

Lemma report_kept s started status exit_code log_tail duration_ms :
  preserves (kept (Schedule.id s)) (report s started status exit_code log_tail duration_ms).
Proof. unfold report. preserves_auto. Qed.
#[local] Hint Resolve report_kept : preserves.

Lemma launch_kept now s : preserves (kept (Schedule.id s)) (launch now s).
Proof. unfold launch. preserves_auto. Qed.
#[local] Hint Resolve launch_kept : preserves.

Lemma visit_kept now tz s : preserves (kept (Schedule.id s)) (visit now tz s).
Proof. unfold visit. preserves_auto. Qed.

(** A report on a healthy scheduler: the row is there, and a bad outcome
    goes to the alert sink. *)
Lemma report_healthy s started status exit_code log_tail duration_ms w db :
  healthy db w -> on_file (Schedule.id s) db ->
  let w' := (report s started status exit_code log_tail duration_ms w).2 in
  healthy (with_run (RunRecord.mk (Schedule.id s) started (Scheduler.readings w 0) (RunStatus.as_str status)
                       exit_code log_tail duration_ms) db) w'
  /\ Scheduler.detached w' = Scheduler.detached w /\ Scheduler.backend w' = Scheduler.backend w
  /\ Scheduler.alerts w' = if decide (status = RunStatus.Ok) then Scheduler.alerts w
       else (AlertSink.notify (Scheduler.readings w 1) (job_failed_event s status exit_code log_tail) (Scheduler.alerts w)).2.
Proof.
  intros [Hdb Hf] Hk. unfold report, st_bind, st_get, read_clock, on_store. cbn. rewrite Hdb. cbn. rewrite Hdb.
  rewrite record_run_healthy by done. destruct status; cbn; by repeat split.
Qed.

(** The request of one run of an app for a schedule. *)
Record runs_app (spec : Spec.t) (s : Schedule.t) (req : SpawnRequest.t) : Prop := {
  run_app : SpawnRequest.spec_id req = Spec.id spec;
  run_image : Spec.container_image spec = Some (SpawnRequest.image req);
  run_command : SpawnRequest.cmd req
    = match Schedule.cmd_json s ≫= parse_argv with Some argv => Some argv | None => Spec.container_cmd spec end;
  run_env : resolved_env env spec = Ok (SpawnRequest.env req);
  run_creds : resolve_creds env spec = Ok (SpawnRequest.creds req);
  run_volumes : SpawnRequest.volumes req = default [] (Spec.volumes spec);
  run_limits : SpawnRequest.limits req = limits_from_spec spec;
  run_network : SpawnRequest.network req = Spec.effective_container_network spec;
  run_platform : SpawnRequest.platform req = Spec.platform spec;
  run_labels : SpawnRequest.labels req = Spec.effective_labels spec;
  run_timeout secs : SpawnRequest.job_timeout_secs req = Some secs <-> Schedule.timeout_secs s = Some secs /\ 0 < secs }.

(** Why no request can be made for an app. *)
Inductive unstartable (spec : Spec.t) : string -> Prop :=
| no_image : Spec.container_image spec = None -> unstartable spec ("spec " +:+ Spec.id spec +:+ " has no container-image")
| bad_creds reason : resolve_creds env spec = Err reason -> unstartable spec reason
| bad_env reason : resolved_env env spec = Err reason -> unstartable spec reason.

Lemma job_request_spec spec s :
  match job_request parse_argv env spec s with Ok req => runs_app spec s req | Err reason => unstartable spec reason end.
Proof.
  unfold job_request, image_of. destruct (Spec.container_image spec) as [image|] eqn:Ei; cbn [result_bind]; [|by constructor].
  destruct (resolve_creds env spec) as [creds|e] eqn:Ec; cbn [result_bind]; [|by apply bad_creds].
  destruct (resolved_env env spec) as [pairs|e] eqn:Ee; cbn [result_bind]; [|by apply bad_env].
  assert (forall o, (forall secs, o = Some secs <-> Schedule.timeout_secs s = Some secs /\ 0 < secs)
    <-> o = (t ← Schedule.timeout_secs s; if 0 <? t then Some t else None)) as Hcap.
  { intros o. destruct (Schedule.timeout_secs s) as [t|]; cbn; [destruct (Z.ltb_spec 0 t)|]; (split; [intros Ho|intros -> secs]);
      try (split; [intros [=]; subst; by split|intros [[= ->] ?]; done || lia]).
    - by apply Ho.
    - destruct o as [t'|]; [|done]. destruct (proj1 (Ho t') eq_refl) as [[= ->] ?]. lia.
    - destruct o as [t'|]; [|done]. by destruct (proj1 (Ho t') eq_refl). }
  destruct (t ← Schedule.timeout_secs s; if 0 <? t then Some t else None) as [cap|] eqn:Et;
  destruct creds as [c|]; destruct (Spec.effective_labels spec) as [|x labels] eqn:El; destruct (Spec.effective_container_network spec) eqn:En;
    destruct (Spec.platform spec) eqn:Ep; unfold Schedule.cmd_override;
    destruct (match Schedule.cmd_json s ≫= parse_argv with Some c => Some c | None => Spec.container_cmd spec end) eqn:Ecmd;
    split; cbn; rewrite ?Ei, ?Ec, ?Ee, ?El, ?En, ?Ep, ?Ecmd; try done; by apply Hcap.
Qed.

(** The row of a run that could not start. *)
Definition error_row (s : Schedule.t) (now finished : Z) (reason : string) : RunRecord.t :=
  RunRecord.mk (Schedule.id s) now finished "error" None reason None.

(** What a pass made of the schedule [s]: it is marked as run at [now], and
    either one run of its app was detached, or one row says why not. *)
Record accounted (specs : list Spec.t) (now : Z) (s : Schedule.t) (tasks : list Task.t) (rows : list RunRecord.t)
    (w : Scheduler.t B) (db : JobDb) : Prop := {
  acc_healthy : healthy db w;
  acc_claimed : Schedule.last_run_at <$> JobTables.schedules (ConfigDb.tables db) !! Schedule.id s = Some (Some now);
  acc_app before spec after :
    specs = before ++ spec :: after -> Spec.id spec = Schedule.spec_id s -> Schedule.spec_id s ∉ map Spec.id before ->
    (exists req, runs_app spec s req /\ tasks_of (Schedule.id s) w = tasks ++ [Task.mk req s now] /\ rows_of (Schedule.id s) db = rows)
    \/ (exists reason finished, unstartable spec reason /\ tasks_of (Schedule.id s) w = tasks
          /\ rows_of (Schedule.id s) db = rows ++ [error_row s now finished reason]);
  acc_gone : Schedule.spec_id s ∉ map Spec.id specs ->
    exists finished, tasks_of (Schedule.id s) w = tasks
      /\ rows_of (Schedule.id s) db = rows ++ [error_row s now finished "spec no longer exists in the catalog"] }.

Lemma accounted_kept specs i now s tasks rows w w' db :
  kept i w w' -> i <> Schedule.id s -> accounted specs now s tasks rows w db ->
  exists db', accounted specs now s tasks rows w' db'.
Proof.
  intros (Ht & _ & Hk) Hi [Hdb Hc Ha Hg]. destruct (Hk _ Hdb) as (db' & Hdb' & Hs). destruct (Hs (Schedule.id s)) as [Hsame Hrows]; [done|].
  rewrite <- Ht, <- Hrows in Ha by done. rewrite <- Ht, <- Hrows in Hg by done. exists db'. split; [done|by rewrite Hsame|done|done].
Qed.

Lemma find_first {A} (f : A -> bool) (l : list A) :
  match List.find f l with
  | Some x => exists before after, l = before ++ x :: after /\ f x = true /\ Forall (fun y => f y = false) before
  | None => Forall (fun y => f y = false) l
  end.
Proof.
  induction l as [|y l IH]; cbn; [by constructor|]. destruct (f y) eqn:Ey; [exists [], l; by repeat split|].
  destruct (List.find f l); [|by constructor]. destruct IH as (before & after & -> & Hx & Hb). exists (y :: before), after.
  split; [done|]. split; [done|by constructor].
Qed.

(** The first app with an id is the one [find] takes. *)
Lemma find_between specs name before spec after :
  specs = before ++ spec :: after -> Spec.id spec = name -> name ∉ map Spec.id before ->
  List.find (fun s => str_eqb (Spec.id s) name) specs = Some spec.
Proof.
  intros -> Hid Hb. induction before as [|x before IH]; cbn.
  - by rewrite (proj2 (str_eqb_eq _ _) Hid).
  - cbn in Hb. apply not_elem_of_cons in Hb as [Hx Hb]. destruct (str_eqb _ _) eqn:E; [apply str_eqb_eq in E; congruence|]. by apply IH.
Qed.

Lemma find_gone specs name :
  name ∉ map Spec.id specs -> List.find (fun s => str_eqb (Spec.id s) name) specs = None.
Proof.
  induction specs as [|x specs IH]; cbn; [done|]. intros [Hx Hs]%not_elem_of_cons.
  destruct (str_eqb _ _) eqn:E; [apply str_eqb_eq in E; congruence|]. by apply IH.
Qed.

Lemma rows_of_with_run r db : rows_of (RunRecord.schedule_id r) (with_run r db) = rows_of (RunRecord.schedule_id r) db ++ [r].
Proof. unfold rows_of, runs. cbn. by rewrite filter_app, filter_cons_True. Qed.

Lemma launch_accounted specs now s w db r :
  healthy db w -> JobTables.schedules (ConfigDb.tables db) !! Schedule.id s = Some r -> Schedule.last_run_at r = Some now ->
  answers specs (Scheduler.catalog w) ->
  exists db', accounted specs now s (tasks_of (Schedule.id s) w) (rows_of (Schedule.id s) db) (launch now s w).2 db'.
Proof.
  intros Hdb Hr Hl Hspecs. assert (on_file (Schedule.id s) db) as Hk by (unfold on_file; eauto).
  unfold launch, st_bind, on_catalog. specialize (Hspecs 0%nat). cbn in Hspecs.
  destruct (effective_specs_cached _ _ _ _) as [specs' c]. cbn in Hspecs. subst specs'. set (w1 := Scheduler.set_catalog c w).
  assert (healthy db w1) as Hdb1 by exact Hdb.
  assert (Schedule.last_run_at <$> JobTables.schedules (ConfigDb.tables db) !! Schedule.id s = Some (Some now)) as Hc by (rewrite Hr; cbn; congruence).
  destruct (List.find _ specs) as [spec|] eqn:Ef.
  - assert (forall before spec' after, specs = before ++ spec' :: after -> Spec.id spec' = Schedule.spec_id s ->
      Schedule.spec_id s ∉ map Spec.id before -> spec' = spec) as Happ by (intros; by apply (inj Some); rewrite <- Ef; symmetry; eapply find_between).
    assert (Schedule.spec_id s ∉ map Spec.id specs -> False) as Hgone by (intros Hg%find_gone; congruence).
    pose proof (job_request_spec spec s) as Hq. destruct (job_request _ _ spec s) as [req|reason].
    + exists db. split; [done|done| |done]. intros before spec' after E1 E2 E3. rewrite (Happ _ _ _ E1 E2 E3). left. exists req.
      split; [done|]. split; [|done]. unfold tasks_of. cbn. by rewrite filter_app, filter_cons_True.
    + destruct (report_healthy s now RunStatus.Error None reason None w1 db Hdb1 Hk) as (Hh & Ht & _). eexists.
      split; [exact Hh|exact Hc| |done]. intros before spec' after E1 E2 E3. rewrite (Happ _ _ _ E1 E2 E3). right.
      exists reason, (Scheduler.readings w1 0). split; [done|]. split; [unfold tasks_of; by rewrite Ht|].
      exact (rows_of_with_run (error_row s now _ reason) db).
  - cbn. unfold on_store. cbn. rewrite (proj1 Hdb). rewrite record_run_healthy by (done || apply Hdb). eexists.
    split; [by split|exact Hc| |].
    + intros before spec' after E1 E2 E3. pose proof (find_between _ _ _ _ _ E1 E2 E3). congruence.
    + intros _. exists (Scheduler.readings w 0). split; [done|]. exact (rows_of_with_run (error_row s now _ _) db).
Qed.

Lemma visit_accounted specs now tz s w db :
  healthy db w -> JobTables.schedules (ConfigDb.tables db) !! Schedule.id s = Some s ->
  is_due s now tz = true -> is_Some (next_occurrence (Schedule.cron s) now tz) -> answers specs (Scheduler.catalog w) ->
  exists db', accounted specs now s (tasks_of (Schedule.id s) w) (rows_of (Schedule.id s) db) (visit now tz s w).2 db'.
Proof.
  intros [Hdb Hf] Hr Hdue [o Ho] Hspecs. unfold visit, st_bind, on_store. rewrite Hdb. unfold claim. rewrite Ho, Hdue.
  unfold st_bind, mark_fired, statement, claimable. rewrite Hf, Hr, bool_decide_eq_true_2 by done. cbn.
  set (db1 := ConfigDb.mk (alter_schedule (Schedule.set_last_run_at now) (Schedule.id s) (ConfigDb.tables db)) []).
  apply (launch_accounted specs now s (Scheduler.set_db (Some db1) w) db1 (Schedule.set_last_run_at now s)); [by split| |done|done].
  cbn. by rewrite lookup_alter_eq, Hr.
Qed.

Lemma pass_keeps specs now tz s l tasks rows w db :
  Schedule.id s ∉ map Schedule.id l -> accounted specs now s tasks rows w db ->
  exists db', accounted specs now s tasks rows (st_for l (visit now tz) w).2 db'.
Proof.
  revert w db. induction l as [|y l IH]; intros w db Hx Hacc; [by exists db|]. cbn [st_for]. cbn in Hx.
  apply not_elem_of_cons in Hx as [Hne Hx]. pose proof (visit_kept now tz y w) as Hk.
  unfold st_bind. destruct (visit now tz y w) as [v w2]. destruct (accounted_kept _ _ _ _ _ _ _ _ _ Hk (not_eq_sym Hne) Hacc) as [db2 Hacc2].
  by eapply IH.
Qed.

Lemma pass_accounted specs now tz s l w db :
  NoDup (map Schedule.id l) -> s ∈ l ->
  healthy db w -> JobTables.schedules (ConfigDb.tables db) !! Schedule.id s = Some s ->
  is_due s now tz = true -> is_Some (next_occurrence (Schedule.cron s) now tz) -> answers specs (Scheduler.catalog w) ->
  exists db', accounted specs now s (tasks_of (Schedule.id s) w) (rows_of (Schedule.id s) db) (st_for l (visit now tz) w).2 db'.
Proof.
  intros Hnd Hs Hdb Hr Hdue Ho. revert w db Hdb Hr. induction l as [|x l IH]; intros w db Hdb Hr Hspecs; [by apply not_elem_of_nil in Hs|].
  cbn [st_for]. apply list.NoDup_cons in Hnd as [Hx Hnd]. pose proof (visit_kept now tz x w) as Hk.
  apply elem_of_cons in Hs as [<-|Hs].
  - destruct (visit_accounted specs now tz s w db Hdb Hr Hdue Ho Hspecs) as [db1 Hacc]. unfold st_bind.
    destruct (visit now tz s w) as [u w1]. by eapply pass_keeps.
  - assert (Schedule.id s <> Schedule.id x) as Hne.
    { intros E. apply Hx. rewrite <- E. apply list_elem_of_fmap. eauto. }
    unfold st_bind. destruct (visit now tz x w) as [u w1]. cbn [snd] in *. destruct Hk as (Ht & [n Hn] & Hk).
    destruct (Hk db Hdb) as (db1 & Hdb1 & Hsame). destruct (Hsame _ Hne) as [Hs1 Hr1]. rewrite <- Ht, <- Hr1 by done.
    apply IH; [done|done|exact Hdb1|by rewrite Hs1|]. rewrite Hn. by apply answers_reads.
Qed.

Lemma list_all_healthy w db :
  healthy db w -> tables_wf (ConfigDb.tables db) ->
  exists l db', Schedules.list_all collate db = (Ok l, db') /\ ConfigDb.tables db' = ConfigDb.tables db
    /\ ConfigDb.faults db' = [] /\ NoDup (map Schedule.id l)
    /\ forall s, JobTables.schedules (ConfigDb.tables db) !! Schedule.id s = Some s -> s ∈ l.
Proof.
  intros [_ Hf] Hwf. unfold Schedules.list_all, query, statement. rewrite Hf.
  eexists _, _. split; [reflexivity|]. cbn. split; [done|]. split; [done|]. split.
  - rewrite merge_sort_Permutation. rewrite <- list_fmap_compose.
    erewrite list_fmap_ext; [apply NoDup_fst_map_to_list|]. intros k [i r] Hi%list_elem_of_lookup_2%elem_of_map_to_list.
    by apply Hwf in Hi as [? _].
  - intros s Hs. rewrite merge_sort_Permutation. apply list_elem_of_fmap. exists (Schedule.id s, s).
    split; [done|]. by apply elem_of_map_to_list.
Qed.

(** What a detached run amounts to. *)
Definition outcome_status (r : CoreResult JobOutcome.t) : RunStatus.t :=
  match r with Ok out => if JobOutcome.exit_code out =? 0 then RunStatus.Ok else RunStatus.Failed | Err _ => RunStatus.Error end.
Definition outcome_code (r : CoreResult JobOutcome.t) : option Z :=
  match r with Ok out => Some (JobOutcome.exit_code out) | Err _ => None end.

Lemma run_task_healthy task w db b :
  healthy db w -> on_file (Schedule.id (Task.schedule task)) db -> Scheduler.backend w = Some b ->
  let r := (run_job (Task.req task) b).1 in
  exists tail millis,
    let row := RunRecord.mk (Schedule.id (Task.schedule task)) (Task.started task) (Scheduler.readings w 0)
                 (RunStatus.as_str (outcome_status r)) (outcome_code r) tail millis in
    let event := job_failed_event (Task.schedule task) (outcome_status r) (outcome_code r) tail in
    let w' := (run_task task w).2 in
    healthy (with_run row db) w'
    /\ Scheduler.alerts w' = if decide (outcome_status r = RunStatus.Ok) then Scheduler.alerts w
         else (AlertSink.notify (Scheduler.readings w 1) event (Scheduler.alerts w)).2.
Proof.
  intros Hdb Hk Hb. unfold run_task. rewrite Hb. destruct (run_job (Task.req task) b) as [r b']. cbn zeta. cbn [fst].
  set (w1 := Scheduler.set_backend (Some b') w). assert (healthy db w1) as Hdb1 by exact Hdb.
  destruct r as [out|e]; eexists _, _.
  - destruct (report_healthy (Task.schedule task) (Task.started task) (outcome_status (Ok out)) (Some (JobOutcome.exit_code out))
      (str_join (String "010" EmptyString) (JobOutcome.log_tail out)) (Some (u64_as_i64 (JobOutcome.duration_ms out))) w1 db Hdb1 Hk)
      as (Hh & _ & _ & Ha). split; [exact Hh|exact Ha].
  - destruct (report_healthy (Task.schedule task) (Task.started task) RunStatus.Error None (CoreError.display e) None w1 db Hdb1 Hk)
      as (Hh & _ & _ & Ha). split; [exact Hh|exact Ha].
Qed.

(** C21. A due schedule runs.  In one pass of a leader with a backend, a
    database none of whose statements fails and a catalogue that answers the
    reads of the pass with [specs], every enabled schedule that is due is
    marked as run at the time of the pass.  If its app, the first of that id,
    is in the catalogue, exactly one run is detached, of that app's image with
    that app's environment, credentials, volumes, limits, network, platform and
    labels, the command of the schedule before the app's and the schedule's
    timeout; unless there is no image, or the credentials or the environment
    do not resolve, or the app is gone: then no run is detached, and one row
    says why.  And that run, whenever it ends, records one row with its start,
    its outcome and its exit code as long as the schedule is still there. *)
Theorem due_schedule_runs w tz db s specs :
  healthy db w -> is_Some (Scheduler.backend w) -> tables_wf (ConfigDb.tables db) ->
  JobTables.schedules (ConfigDb.tables db) !! Schedule.id s = Some s -> Schedule.enabled s = true ->
  answers specs (Scheduler.catalog w) ->
  let now := Scheduler.readings w 0 in
  is_due s now tz = true -> is_Some (next_occurrence (Schedule.cron s) now tz) ->
  let w' := (tick collate parse_argv env between yaml true tz w).2 in
  (exists db', accounted specs now s (tasks_of (Schedule.id s) w) (rows_of (Schedule.id s) db) w' db')
  /\ forall req w2 db2 b, Task.mk req s now ∈ Scheduler.detached w' ->
       healthy db2 w2 -> on_file (Schedule.id s) db2 -> Scheduler.backend w2 = Some b ->
       exists row db3, healthy db3 (run_task (Task.mk req s now) w2).2 /\ runs db3 = runs db2 ++ [row]
         /\ RunRecord.schedule_id row = Schedule.id s /\ RunRecord.started_at row = now
         /\ match (run_job req b).1 with
            | Ok out => RunRecord.exit_code row = Some (JobOutcome.exit_code out)
                /\ RunRecord.status row = if JobOutcome.exit_code out =? 0 then "ok" else "failed"
            | Err _ => RunRecord.exit_code row = None /\ RunRecord.status row = "error"
            end.
Proof.
  intros Hdb [b Hb] Hwf Hs Hen Hspecs now Hdue Ho w'. split.
  - subst w'. unfold tick. rewrite Hb. destruct (list_all_healthy w db Hdb Hwf) as (l & db' & Hl & Ht & Hf & Hnd & Hin).
    destruct Hdb as [Hdb Hf0]. rewrite Hdb. unfold st_bind, on_store. rewrite Hdb, Hl. cbn [read_clock Scheduler.set_db Scheduler.readings].
    assert (rows_of (Schedule.id s) db = rows_of (Schedule.id s) db') as -> by (unfold rows_of, runs; by rewrite Ht).
    apply (pass_accounted specs now tz s _ (Scheduler.set_readings _ (Scheduler.set_db (Some db') w)) db').
    + eapply sublist_NoDup; [exact Hnd|]. apply fmap_sublist. clear. induction l as [|x l IH]; cbn; [done|].
      destruct (Schedule.enabled x); by constructor.
    + apply list_elem_of_In, List.filter_In. split; [|done]. by apply list_elem_of_In, Hin.
    + by split.
    + by rewrite Ht.
    + done.
    + done.
    + done.
  - intros req w2 db2 b2 _ Hdb2 Hk Hb2. destruct (run_task_healthy (Task.mk req s now) w2 db2 b2 Hdb2 Hk Hb2) as (tail & millis & Hh & _).
    eexists _, _. split; [exact Hh|]. split; [reflexivity|]. split; [done|]. split; [done|]. cbn [Task.req] in *.
    destruct (run_job req b2).1 as [out|e]; cbn; [|done]. by destruct (JobOutcome.exit_code out =? 0).
Qed.

(** Every run that does not end well is reported: the row says [error]
    when the job could not run, [failed] with the exit code when that is not
    0, and [ok] otherwise; in the first two cases the job-failed alert is
    queued, unless one for the same app was raised within the cooldown or the
    queue is full, and in the last the alerts stay as they were. *)
Theorem failed_job_alerts task w db b :
  healthy db w -> on_file (Schedule.id (Task.schedule task)) db -> Scheduler.backend w = Some b ->
  let r := (run_job (Task.req task) b).1 in
  let w' := (run_task task w).2 in
  let now := Scheduler.readings w 1 in
  exists db' row, healthy db' w' /\ runs db' = runs db ++ [row]
    /\ RunRecord.schedule_id row = Schedule.id (Task.schedule task)
    /\ match r with
       | Ok out => RunRecord.exit_code row = Some (JobOutcome.exit_code out)
           /\ RunRecord.status row = if JobOutcome.exit_code out =? 0 then "ok" else "failed"
       | Err _ => RunRecord.exit_code row = None /\ RunRecord.status row = "error"
       end
    /\ if decide (outcome_status r = RunStatus.Ok) then Scheduler.alerts w' = Scheduler.alerts w
       else
         AlertSink.cooling now (AlertSink.recent (Scheduler.alerts w) !! (AlertKind.JobFailed, Schedule.spec_id (Task.schedule task))) = false ->
         (length (AlertSink.queue (Scheduler.alerts w)) < AlertSink.QUEUE_DEPTH)%nat ->
         exists event, AlertSink.queue (Scheduler.alerts w') = AlertSink.queue (Scheduler.alerts w) ++ [event]
           /\ AlertEvent.kind event = AlertKind.JobFailed /\ AlertEvent.spec event = Schedule.spec_id (Task.schedule task).
Proof.
  intros Hdb Hk Hb r w' now. destruct (run_task_healthy task w db b Hdb Hk Hb) as (tail & millis & Hh & Ha).
  eexists _, _. split; [exact Hh|]. split; [reflexivity|]. split; [done|]. split.
  - fold r. destruct r as [out|e]; cbn; [|done]. by destruct (JobOutcome.exit_code out =? 0).
  - fold r in Ha. fold w' in Ha. destruct (decide (outcome_status r = RunStatus.Ok)); [done|]. intros Hcool Hroom. rewrite Ha.
    unfold AlertSink.notify. fold now. cbn. rewrite Hcool. unfold AlertSink.try_send. cbn [AlertSink.queue].
    apply Nat.ltb_lt in Hroom. rewrite Hroom. eexists. split; [reflexivity|done].
Qed.
End Pass.

(** ** Examples *)

Module JobExamples.
Import ExampleStore.

(** An expression is a period; it meets the multiples of it. *)
#[global] Instance periods : CronTable positive unit := {
  parse_cron s := if str_eqb s "every 10" then Some 10%positive else if str_eqb s "every 60" then Some 60%positive else None;
  find_next_occurrence c start _ inclusive :=
    Some (if (inclusive && (start mod Zpos c =? 0))%bool then start else (start / Zpos c + 1) * Zpos c) }.
#[global] Instance periods_laws : CronLaws positive unit.
Proof.
  constructor. intros c start tz t. cbn. intros [= <-].
  pose proof (Z.mul_succ_div_gt start (Zpos c) ltac:(lia)). lia.
Defined.

Definition parse_argv (s : string) : option (list string) := if str_eqb s "[]" then Some [] else None.

(** Moves of the cluster. *)
Abbreviation sys := (Cluster.t unit).
Definition encode (s : string) : string := "{}".
Definition called (c : StoreCall) (now : Z) (x : sys) : sys :=
  Cluster.mk (run_call encode c now (Cluster.store x)).2 (Cluster.passes x) (Cluster.fires x).
Definition listed (k : nat) (now : Z) (x : sys) : sys :=
  match Schedules.list_all collate (Cluster.store x) with
  | (Ok l, db) => Cluster.mk db (<[k := (now, List.filter Schedule.enabled l)]> (Cluster.passes x)) (Cluster.fires x)
  | (Err _, _) => x
  end.
Definition claims (k : nat) (x : sys) : sys :=
  match Cluster.passes x !! k with
  | Some (now, s :: rest) =>
    let (won, db) := claim now tt s (Cluster.store x) in
    Cluster.mk db (<[k := (now, rest)]> (Cluster.passes x)) (if won then Fire.mk s now tt :: Cluster.fires x else Cluster.fires x)
  | _ => x
  end.

Lemma called_reachable c now x : reachable collate encode x -> reachable collate encode (called c now x).
Proof. intros R. eapply reachable_step; [exact R|]. eapply step_call, surjective_pairing. Defined.
Lemma listed_reachable k now x : reachable collate encode x -> reachable collate encode (listed k now x).
Proof.
  intros R. unfold listed. destruct (Schedules.list_all _ _) as [[l|e] db] eqn:E; [|exact R].
  eapply reachable_step; [exact R|]. by apply step_list.
Defined.
Lemma claims_reachable k x : reachable collate encode x -> reachable collate encode (claims k x).
Proof.
  intros R. unfold claims. destruct (Cluster.passes x !! k) as [[now [|s rest]]|] eqn:E; [exact R| |exact R].
  destruct (claim now tt s (Cluster.store x)) as [won db] eqn:Ec. eapply reachable_step; [exact R|]. by eapply step_claim.
Defined.

(** A schedule made at 1; two schedulers list it and both try to claim it;
    the second tries again one period later. *)
Definition nightly : StoreCall := Insert "a" "every 10" None None None.
Definition start : sys := Cluster.mk (ConfigDb.mk JobTables.empty []) ∅ [].
Definition race : sys := claims 1 (claims 0 (listed 1 13 (listed 0 12 (called nightly 1 start)))).
Definition race_later : sys := claims 1 (listed 1 25 race).

Lemma race_later_reachable : reachable collate encode race_later.
Proof.
  apply claims_reachable, listed_reachable, claims_reachable, claims_reachable, listed_reachable, listed_reachable, called_reachable.
  apply reachable_start. intros i r Hi. cbn in Hi. by rewrite lookup_empty in Hi.
Defined.

Example second_claim_loses : map Fire.at_ (Cluster.fires race) = [12].
Proof. vm_compute. reflexivity. Qed.

Lemma no_occurrence_fired_twice_witness :
  match Cluster.fires race_later with
  | [g; f] => Fire.at_ f = 12 /\ Fire.at_ g = 25 /\ Fire.at_ f <= anchor (Fire.schedule g)
  | _ => False
  end.
Proof.
  destruct (Cluster.fires race_later) as [|g [|f [|]]] eqn:E; try (vm_compute in E; discriminate E).
  assert (Cluster.fires race_later !! 1%nat = Some f) as Hf by (rewrite E; reflexivity).
  assert (Cluster.fires race_later !! 0%nat = Some g) as Hg by (rewrite E; reflexivity).
  vm_compute in E. injection E as <- <-.
  destruct (no_occurrence_fired_twice collate encode race_later 0 1 _ _ race_later_reachable Hf Hg ltac:(lia) eq_refl)
    as (o & o' & _ & _ & _ & [Hle _] & _).
  split; [reflexivity|]. split; [reflexivity|exact Hle].
Defined.

(** A runner that ends with the code it is. *)
#[global] Instance code_runner : JobRunner Z := { run_job req b := (Ok (JobOutcome.mk b ["boom"] 1200), b) }.

Definition example_env : Env.t := Env.mk "" (fun _ => EnvNotPresent) None (fun _ => 0).
Definition scheduler (code : Z) (db : JobDb) : Scheduler.t Z :=
  Scheduler.mk (Some db) (Some code) (CatalogState.mk None None) AlertSink.new (fun n => 12 + Z.of_nat n) [].
Definition two_schedules : JobDb :=
  Cluster.store (called (Insert "gone" "every 10" None None None) 1 (called nightly 1 start)).
Definition passed (code : Z) : Scheduler.t Z :=
  (tick collate parse_argv example_env (fun d => d) [app "b" "img:0"; app "a" "img:1"] true tt (scheduler code two_schedules)).2.
Definition row (r : RunRecord.t) : Z * Z * string * option Z :=
  (RunRecord.schedule_id r, RunRecord.started_at r, RunRecord.status r, RunRecord.exit_code r).
Definition rows (w : Scheduler.t Z) : list (Z * Z * string * option Z) :=
  match Scheduler.db w with Some db => map row (runs db) | None => [] end.
Definition task_of (w : Scheduler.t Z) : option Task.t := head (Scheduler.detached w).

(** The app of the second schedule is gone: a row, and no alert. *)
Example vanished_app_is_silent :
  rows (passed 3) = [(2, 12, "error", None)] /\ AlertSink.queue (Scheduler.alerts (passed 3)) = [].
Proof. vm_compute. auto. Qed.

Definition first : Schedule.t := Schedule.mk 1 "a" "every 10" None true None None 1 1.
Definition done_ (code : Z) : Scheduler.t Z :=
  match task_of (passed code) with Some t => (run_task t (passed code)).2 | None => passed code end.

Lemma healthy_schedules : healthy two_schedules (scheduler 3 two_schedules) /\ tables_wf (ConfigDb.tables two_schedules).
Proof.
  split; [by split|]. intros i r Hi.
  assert (JobTables.schedules (ConfigDb.tables two_schedules) = {[1 := first; 2 := Schedule.mk 2 "gone" "every 10" None true None None 1 1]}) as E
    by (vm_compute; reflexivity).
  rewrite E in Hi. apply lookup_insert_Some in Hi as [[<- <-]|[_ Hi]]; [vm_compute; auto|].
  apply lookup_singleton_Some in Hi as [<- <-]. vm_compute. auto.
Defined.

(** The catalogue of the example is its file. *)
Definition apps : list Spec.t := [app "b" "img:0"; app "a" "img:1"].

Lemma apps_answered : answers collate (fun d => d) apps apps (CatalogState.mk None None).
Proof.
  unfold answers. intros n.
  match goal with |- (effective_specs_cached _ _ _ ?c).1 = _ =>
    assert (c = CatalogState.mk None None) as -> by (unfold reads; induction n as [|n IH]; [|rewrite Nat.iter_succ, IH]; reflexivity) end.
  reflexivity.
Defined.

(** The run of the first schedule is of its app; it fails with code 3. *)
Lemma due_schedule_runs_witness :
  (exists req, runs_app parse_argv example_env (app "a" "img:1") first req /\ tasks_of 1 (passed 3) = [Task.mk req first 12])
  /\ rows (done_ 3) = [(2, 12, "error", None); (1, 12, "failed", Some 3)].
Proof.
  split; [|vm_compute; reflexivity]. destruct healthy_schedules as [Hh Hwf].
  destruct (due_schedule_runs (Cron := positive) collate parse_argv example_env (fun d => d) apps (scheduler 3 two_schedules) tt
    two_schedules first apps Hh (mk_is_Some _ 3 eq_refl) Hwf ltac:(vm_compute; reflexivity) eq_refl apps_answered
    ltac:(vm_compute; reflexivity) ltac:(eexists; vm_compute; reflexivity)) as [[db' [_ _ Happ _]] _].
  destruct (Happ [app "b" "img:0"] (app "a" "img:1") [] eq_refl eq_refl ltac:(by apply (bool_decide_unpack _)))
    as [(req & Hreq & Ht & _)|(reason & finished & _ & Ht & _)].
  - exists req. split; [exact Hreq|exact Ht].
  - vm_compute in Ht. discriminate Ht.
Defined.

Lemma failed_job_alerts_witness :
  map AlertEvent.kind (AlertSink.queue (Scheduler.alerts (done_ 3))) = [AlertKind.JobFailed]
  /\ Scheduler.alerts (done_ 0) = AlertSink.new.
Proof.
  split; [|vm_compute; reflexivity].
  destruct (Scheduler.db (passed 3)) as [db|] eqn:Edb; [|vm_compute in Edb; discriminate Edb].
  destruct (task_of (passed 3)) as [t|] eqn:Et; [|vm_compute in Et; discriminate Et].
  assert (healthy db (passed 3)) as Hh by (split; [exact Edb|vm_compute in Edb; injection Edb as <-; reflexivity]).
  assert (on_file (Schedule.id (Task.schedule t)) db) as Hk.
  { vm_compute in Edb, Et. injection Edb as <-. injection Et as <-. eexists. vm_compute. reflexivity. }
  destruct (failed_job_alerts t (passed 3) db 3 Hh Hk eq_refl) as (db' & row & _ & _ & _ & _ & Halert).
  unfold done_. rewrite Et. destruct Halert as (event & Hq & Hkind & _).
  - vm_compute in Et |- *. injection Et as <-. reflexivity.
  - vm_compute. lia.
  - rewrite Hq. vm_compute. f_equal. exact Hkind.
Defined.
End JobExamples.
