(* ===== verification/Accounts.v ===== *)
(** * Accounts: the tables of accounts and factors

    [users], [user_mfa], [user_mfa_recovery], [user_mfa_grants] and the audit
    log, as the migrations 0006, 0007, 0024, 0029 and 0030 declare them, and
    the statements that db/users.rs, db/mfa.rs and db/mfa_grants.rs share.
    Foreign keys to [users] cascade.  Both database arms run the same
    statements; where one has a statement more, the dialect decides.  Times
    are nanoseconds of the wall clock, byte strings are strings. *)

From Stdlib Require Import Ascii String ZArith Lia.
From stdpp Require Import base tactics list gmap strings fin_maps numbers sorting.
From S2P Require Import Prelude Text Auth Database SpecStore.

Local Open Scope string_scope.
Local Open Scope list_scope.
Local Open Scope Z_scope.
Local Open Scope ruscker_scope.

(** ** Rows *)

(** A row of [users], the password hash included. *)
Module Account.
Record t := mk {
  id : string;
  username : string;
  password_hash : string;
  role : string;
  must_change_password : bool;
  groups : string;
  created_at : Z;
  updated_at : Z;
  created_by : option string;
  setor : option string;
  email : option string;
  celular : option string }.

Definition set_password (hash : string) (must_change : bool) (now : Z) (a : t) : t :=
  mk (id a) (username a) hash (role a) must_change (groups a) (created_at a) now (created_by a) (setor a) (email a) (celular a).
Definition set_account (r g : string) (s e c : option string) (now : Z) (a : t) : t :=
  mk (id a) (username a) (password_hash a) r (must_change_password a) g (created_at a) now (created_by a) s e c.
Definition set_role (r : string) (now : Z) (a : t) : t :=
  set_account r (groups a) (setor a) (email a) (celular a) now a.
Definition set_groups (g : string) (now : Z) (a : t) : t :=
  set_account (role a) g (setor a) (email a) (celular a) now a.
Definition set_profile (s e c : option string) (now : Z) (a : t) : t :=
  set_account (role a) (groups a) s e c now a.
Definition clear_must_change (a : t) : t :=
  mk (id a) (username a) (password_hash a) (role a) false (groups a) (created_at a) (updated_at a) (created_by a)
     (setor a) (email a) (celular a).

Definition is_admin (a : t) : bool := str_eqb (role a) "admin".
End Account.

Module RecoveryRow.
Record t := mk { id : string; username : string; code_hash : string; used_at : option Z; created_at : Z }.
Definition use (now : Z) (r : t) : t := mk (id r) (username r) (code_hash r) (Some now) (created_at r).
Definition unused (r : t) : bool := bool_decide (used_at r = None).
End RecoveryRow.

(** [users] and [user_mfa] by username, the others by id. *)
Module AccountTables.
Record t := mk {
  users : gmap string Account.t;
  user_mfa : gmap string MfaRow.t;
  user_mfa_recovery : gmap string RecoveryRow.t;
  user_mfa_grants : gmap string GrantRow.t;
  audit_log : list AuditRow.t }.
Definition empty : t := mk ∅ ∅ ∅ ∅ [].
Definition set_users (x : gmap string Account.t) (s : t) : t :=
  mk x (user_mfa s) (user_mfa_recovery s) (user_mfa_grants s) (audit_log s).
Definition set_user_mfa (x : gmap string MfaRow.t) (s : t) : t :=
  mk (users s) x (user_mfa_recovery s) (user_mfa_grants s) (audit_log s).
Definition set_user_mfa_recovery (x : gmap string RecoveryRow.t) (s : t) : t :=
  mk (users s) (user_mfa s) x (user_mfa_grants s) (audit_log s).
Definition set_user_mfa_grants (x : gmap string GrantRow.t) (s : t) : t :=
  mk (users s) (user_mfa s) (user_mfa_recovery s) x (audit_log s).
Definition set_audit_log (x : list AuditRow.t) (s : t) : t :=
  mk (users s) (user_mfa s) (user_mfa_recovery s) (user_mfa_grants s) x.
End AccountTables.

Abbreviation AccountDb := (ConfigDb.t AccountTables.t).
Abbreviation AM A := (St AccountDb A).

(** Which of the two databases is attached. *)
Inductive Dialect := Sqlite | Postgres.
#[global] Instance dialect_eq_dec : EqDecision Dialect.
Proof. solve_decision. Defined.

(** ** The standard library's and serde_json's part *)

(** [str::to_lowercase], [str::to_uppercase]: the Unicode tables. *)
Class UnicodeCase := { to_lowercase : string -> string; to_uppercase : string -> string }.

Class UnicodeCaseLaws `{UnicodeCase} := {
  to_lowercase_idem s : to_lowercase (to_lowercase s) = to_lowercase s;
  to_lowercase_ascii s : str_forallb (byte_in 0 127) s = true -> to_lowercase s = to_ascii_lowercase s
}.

(** [serde_json::json!] of an object with string or null values, printed. *)
Class JsonObject := { to_json : list (string * option string) -> string }.

Definition normalize_username `{UnicodeCase} (raw : string) : string := to_lowercase (trim raw).

(** ** Statements *)

Definition audit_row (context : string) (actor : option string) (action target : string) (diff_json : option string) (now : Z)
    : AM (DbResult unit) :=
  execute context (fun s =>
    AccountTables.set_audit_log (AccountTables.audit_log s ++ [AuditRow.mk actor action (Some target) diff_json now]) s).

(** [UPDATE users SET .. WHERE username = ? AND guard]; the rows affected. *)
Definition alter_user (username : string) (guard : AccountTables.t -> Account.t -> bool) (f : Account.t -> Account.t)
    (s : AccountTables.t) : Z * AccountTables.t :=
  match AccountTables.users s !! username with
  | Some a =>
    if guard s a then (1, AccountTables.set_users (<[username := f a]> (AccountTables.users s)) s) else (0, s)
  | None => (0, s)
  end.

Definition alter_factor (username : string) (guard : MfaRow.t -> bool) (f : MfaRow.t -> MfaRow.t)
    (s : AccountTables.t) : Z * AccountTables.t :=
  match AccountTables.user_mfa s !! username with
  | Some row =>
    if guard row then (1, AccountTables.set_user_mfa (<[username := f row]> (AccountTables.user_mfa s)) s) else (0, s)
  | None => (0, s)
  end.

Definition bump_epoch (r : MfaRow.t) : MfaRow.t :=
  MfaRow.mk (MfaRow.username r) (MfaRow.secret_enc r) (MfaRow.secret_nonce r) (MfaRow.ceremony r) (MfaRow.confirmed_at r)
    (MfaRow.created_at r) (MfaRow.updated_at r) (MfaRow.last_used_step r) (MfaRow.security_epoch r + 1).

(** [UPDATE user_mfa SET security_epoch = security_epoch + 1 WHERE username = ?] *)
Definition bump_security_epoch (username : string) (s : AccountTables.t) : AccountTables.t :=
  (alter_factor username (fun _ => true) bump_epoch s).2.

(** [DELETE FROM user_mfa_grants WHERE ..]; the rows affected. *)
Definition delete_grants (which : GrantRow.t -> bool) (s : AccountTables.t) : Z * AccountTables.t :=
  (Z.of_nat (size (filter (fun kv => which kv.2 = true) (AccountTables.user_mfa_grants s))),
   AccountTables.set_user_mfa_grants (filter (fun kv => which kv.2 = false) (AccountTables.user_mfa_grants s)) s).

Definition grant_of (username : string) (g : GrantRow.t) : bool := str_eqb (GrantRow.username g) username.

(** [DELETE FROM user_mfa_recovery WHERE username = ?] *)
Definition delete_recovery (username : string) (s : AccountTables.t) : AccountTables.t :=
  AccountTables.set_user_mfa_recovery
    (filter (fun kv => str_eqb (RecoveryRow.username kv.2) username = false) (AccountTables.user_mfa_recovery s)) s.

(** [delete_all_sqlite] and [delete_all_postgres]. *)
Definition delete_all (username : string) : AM (DbResult unit) :=
  do? u <- execute "bump MFA security epoch" (bump_security_epoch username);
  do? n <- statement "silently revoke MFA grants" (delete_grants (grant_of username));
  lift (Ok tt).

(** The row of the account and everything that refers to it. *)
Definition delete_user (username : string) (s : AccountTables.t) : AccountTables.t :=
  let s := (delete_grants (grant_of username) (delete_recovery username s)).2 in
  AccountTables.set_users (base.delete username (AccountTables.users s))
    (AccountTables.set_user_mfa (base.delete username (AccountTables.user_mfa s)) s).

(** ** What the statements do *)

Lemma alter_user_inv u guard f s :
  (alter_user u guard f s).2 = s
  \/ exists a, AccountTables.users s !! u = Some a /\ guard s a = true
       /\ (alter_user u guard f s).2 = AccountTables.set_users (<[u := f a]> (AccountTables.users s)) s.
Proof.
  unfold alter_user. destruct (AccountTables.users s !! u) as [a|]; [|by left].
  destruct (guard s a) eqn:Eg; [right; by exists a|by left].
Qed.

Lemma alter_factor_inv u guard f s :
  (alter_factor u guard f s).2 = s
  \/ exists row, AccountTables.user_mfa s !! u = Some row /\ guard row = true
       /\ (alter_factor u guard f s).2 = AccountTables.set_user_mfa (<[u := f row]> (AccountTables.user_mfa s)) s.
Proof.
  unfold alter_factor. destruct (AccountTables.user_mfa s !! u) as [row|]; [|by left].
  destruct (guard row) eqn:Eg; [right; by exists row|by left].
Qed.

(** The tables but the factors. *)
Lemma alter_factor_others u guard f s :
  let s' := (alter_factor u guard f s).2 in
  AccountTables.users s' = AccountTables.users s /\ AccountTables.user_mfa_recovery s' = AccountTables.user_mfa_recovery s
  /\ AccountTables.user_mfa_grants s' = AccountTables.user_mfa_grants s.
Proof. cbv zeta. by destruct (alter_factor_inv u guard f s) as [->|(row & _ & _ & ->)]. Qed.

(** ** Example instances *)

Module AccountExamples.
#[export] Instance ascii_case : UnicodeCase := { to_lowercase := to_ascii_lowercase; to_uppercase := str_map ascii_upper }.
#[export] Instance json : JsonObject :=
  { to_json l := str_join "," (map (fun kv => kv.1 +:+ "=" +:+ default "null" kv.2) l) }.
End AccountExamples.
