(* ===== verification/Users.v ===== *)
(** * Users: the repository of accounts (db/users.rs)

    Every function of db/users.rs over the tables of Accounts, and the SQL
    filter of an Editor's scope (scope.rs).  Parameters: argon2, the case
    tables, the collation of text columns and Postgres' [lower]. *)

From Stdlib Require Import Ascii String ZArith Lia.
From stdpp Require Import base tactics list gmap strings fin_maps numbers sorting.
From S2P Require Import Prelude Text Auth Database SpecStore Accounts.

Local Open Scope string_scope.
Local Open Scope list_scope.
Local Open Scope Z_scope.
Local Open Scope ruscker_scope.

(** ** Names and groups *)

Definition is_username_char (c : ascii) : bool :=
  is_ascii_digit c || is_ascii_lower c || is_ascii_upper c || existsb (Ascii.eqb c) ["_"; "."; "@"; "-"]%char.
Definition is_valid_username (name : string) : bool := negb (str_is_empty name) && str_forallb is_username_char name.

(** The loop of [parse_groups] over the comma-separated tokens. *)
Fixpoint collect_groups (out : list string) (toks : list string) : list string :=
  match toks with
  | [] => out
  | tok :: toks =>
    let t := trim tok in
    collect_groups (if negb (str_is_empty t) && negb (existsb (str_eqb t) out) then out ++ [t] else out) toks
  end.
Definition parse_groups (stored : string) : list string := collect_groups [] (split_char "," stored).
Definition join_groups (groups : list string) : string := str_join "," (parse_groups (str_join "," groups)).

(** ** Rows and filters *)

Module UserCounts.
Record t := mk { total : Z; admins : Z; editors : Z; viewers : Z; must_change_password : Z }.
End UserCounts.

Module UserFilter.
Record t := mk { search : string; visible_groups : option (list string) }.
End UserFilter.

(** [EditorScope::user_filter] *)
Definition user_filter (scope : EditorScope.t) (search : string) : UserFilter.t :=
  UserFilter.mk search (if EditorScope.unscoped scope then None else Some (EditorScope.groups scope)).

Module UserOrder.
Inductive t := CreatedDesc | CreatedAsc | UsernameAsc | UsernameDesc | RoleAsc | RoleDesc.
#[global] Instance eq_dec : EqDecision t.
Proof. solve_decision. Defined.

Definition parse (sort dir : string) : t :=
  let desc := eq_ignore_ascii_case dir "desc" in
  let sort := to_ascii_lowercase sort in
  if str_eqb sort "username" then (if desc then UsernameDesc else UsernameAsc)
  else if str_eqb sort "role" then (if desc then RoleDesc else RoleAsc)
  else if str_eqb sort "created" && eq_ignore_ascii_case dir "asc" then CreatedAsc
  else CreatedDesc.

Definition as_query (o : t) : string * string :=
  match o with
  | CreatedDesc => ("created", "desc")
  | CreatedAsc => ("created", "asc")
  | UsernameAsc => ("username", "asc")
  | UsernameDesc => ("username", "desc")
  | RoleAsc => ("role", "asc")
  | RoleDesc => ("role", "desc")
  end.
End UserOrder.

(** [clean] of [row_from], [norm] of the writers. *)
Definition clean (s : option string) : option string :=
  v ← s; let v := trim v in if str_is_empty v then None else Some v.

Definition row_from (a : Account.t) : UserRow.t :=
  UserRow.mk (Account.id a) (Account.username a) (default Role.Viewer (Role.parse (Account.role a)))
    (Account.must_change_password a) (parse_groups (Account.groups a)) (Account.created_at a) (Account.created_by a)
    (clean (Account.setor a)) (clean (Account.email a)) (clean (Account.celular a)).

Module AccountUpdate.
Record t := mk {
  role : Role.t; groups : list string; setor : option string; email : option string; celular : option string }.
End AccountUpdate.

(** ** LIKE *)

(** [%], [_] and the backslash match themselves. *)
Fixpoint like_escape (term : string) : string :=
  match term with
  | EmptyString => EmptyString
  | String c rest =>
    if existsb (Ascii.eqb c) ["%"; "_"; "\"]%char then String "\" (String c (like_escape rest))
    else String c (like_escape rest)
  end.
Definition like_pattern (term : string) : string := String "%" (like_escape term +:+ "%").

Fixpoint drop_utf8_cont (s : string) : string :=
  match s with String c s' => if utf8_cont c then drop_utf8_cont s' else s | EmptyString => s end.

(** SQL's case-sensitive LIKE with the backslash as escape character. *)
Fixpoint like (p s : string) : bool :=
  match p with
  | EmptyString => str_is_empty s
  | String c p' =>
    if Ascii.eqb c "%" then
      (fix any (s : string) : bool := like p' s || match s with String _ s' => any s' | EmptyString => false end) s
    else if Ascii.eqb c "_" then match s with String _ s' => like p' (drop_utf8_cont s') | EmptyString => false end
    else if Ascii.eqb c "\" then
      match p', s with String e p'', String b s' => Ascii.eqb e b && like p'' s' | _, _ => false end
    else match s with String b s' => Ascii.eqb c b && like p' s' | EmptyString => false end
  end.

(** argon2; [None] of [hash_password] is its error, [verify_password] is
    false on a hash that does not parse. *)
Class Argon2 := {
  hash_password : string -> string -> option string;
  verify_password : string -> string -> bool;
  dummy_hash : string
}.

Class Argon2Laws `{Argon2} := {
  verify_hashed salt plain phc : hash_password salt plain = Some phc -> verify_password plain phc = true
}.

Section Users.
Context `{UnicodeCase} `{JsonObject} `{Argon2} (dialect : Dialect) (collate : string -> string -> bool) (pg_lower : string -> string).

Definition like_patterns_sqlite (term : string) : string * string :=
  (like_pattern (to_lowercase term), like_pattern (to_uppercase term)).

Definition search_columns (a : Account.t) : list string :=
  [Account.username a; Account.groups a; default "" (Account.setor a); default "" (Account.email a);
   default "" (Account.celular a)].

(** SQLite's LIKE folds ASCII only; Postgres' ILIKE folds as its [lower]. *)
Definition sqlite_like (p s : string) : bool := like (to_ascii_lowercase p) (to_ascii_lowercase s).
Definition pg_ilike (p s : string) : bool := like (pg_lower p) (pg_lower s).

Definition push_search_sqlite (search : string) (a : Account.t) : bool :=
  if str_is_empty search then true
  else
    let '(lo, up) := like_patterns_sqlite search in
    existsb (fun column => sqlite_like lo column || sqlite_like up column) (search_columns a).

Definition push_search_postgres (search : string) (a : Account.t) : bool :=
  if str_is_empty search then true
  else existsb (pg_ilike (like_pattern search)) (search_columns a).

Definition push_search (search : string) (a : Account.t) : bool :=
  match dialect with Sqlite => push_search_sqlite search a | Postgres => push_search_postgres search a end.

(** SQL's [lower] on a role. *)
Definition sql_lower (s : string) : string :=
  match dialect with Sqlite => to_ascii_lowercase s | Postgres => pg_lower s end.

(** [push_visibility_sqlite] and [push_visibility_postgres]. *)
Definition push_visibility (visible_groups : option (list string)) (a : Account.t) : bool :=
  match visible_groups with
  | None => true
  | Some groups =>
    negb (str_eqb (sql_lower (Account.role a)) "admin")
    && match groups with
       | [] => false
       | _ => existsb (fun group => str_contains ("," +:+ group +:+ ",") ("," +:+ Account.groups a +:+ ",")) groups
       end
  end.

(** ** Reads *)

Definition accounts (s : AccountTables.t) : list Account.t := snd <$> map_to_list (AccountTables.users s).
Definition count_where (p : Account.t -> bool) (s : AccountTables.t) : Z := zlen (List.filter p (accounts s)).

Definition count_admins : AM (DbResult Z) := query "count admins" (count_where Account.is_admin).

Definition counts (visible_groups : option (list string)) : AM (DbResult UserCounts.t) :=
  query "count users by role" (fun s =>
    let n p := count_where (fun a => push_visibility visible_groups a && p a) s in
    UserCounts.mk (n (fun _ => true)) (n Account.is_admin) (n (fun a => str_eqb (Account.role a) "editor"))
      (n (fun a => str_eqb (Account.role a) "viewer")) (n Account.must_change_password)).

Definition any_admin_exists : AM (DbResult bool) := do? n <- count_admins; lift (Ok (0 <? n)).
Definition any_user_exists : AM (DbResult bool) := do? n <- query "count users" (count_where (fun _ => true)); lift (Ok (0 <? n)).

(** The [ORDER BY] of [UserOrder::sql]. *)
Definition by_username (a b : Account.t) : bool := collate (Account.username a) (Account.username b).
Definition sql (o : UserOrder.t) (a b : Account.t) : bool :=
  match o with
  | UserOrder.CreatedDesc =>
    if Account.created_at a =? Account.created_at b then by_username a b else Account.created_at b <? Account.created_at a
  | UserOrder.CreatedAsc =>
    if Account.created_at a =? Account.created_at b then by_username a b else Account.created_at a <? Account.created_at b
  | UserOrder.UsernameAsc => by_username a b
  | UserOrder.UsernameDesc => by_username b a
  | UserOrder.RoleAsc =>
    if str_eqb (Account.role a) (Account.role b) then by_username a b else collate (Account.role a) (Account.role b)
  | UserOrder.RoleDesc =>
    if str_eqb (Account.role a) (Account.role b) then by_username a b else collate (Account.role b) (Account.role a)
  end.
Definition sql_le (o : UserOrder.t) (a b : Account.t) : Prop := sql o a b = true.
#[global] Instance sql_le_dec o a b : Decision (sql_le o a b).
Proof. unfold sql_le. apply _. Defined.
Definition sorted_by (o : UserOrder.t) (l : list Account.t) : list Account.t := merge_sort (sql_le o) l.

Definition list_all : AM (DbResult (list UserRow.t)) :=
  query "list users" (fun s => row_from <$> sorted_by UserOrder.CreatedDesc (accounts s)).

Definition editors_without_groups : AM (DbResult (list string)) :=
  do? rows <- query "list Editor accounts without groups" (fun s =>
    sorted_by UserOrder.UsernameAsc (List.filter (fun a => str_eqb (sql_lower (Account.role a)) "editor") (accounts s)));
  lift (Ok (omap (fun a => match parse_groups (Account.groups a) with [] => Some (Account.username a) | _ => None end) rows)).

Definition matches (filter : UserFilter.t) (a : Account.t) : bool :=
  push_search (trim (UserFilter.search filter)) a && push_visibility (UserFilter.visible_groups filter) a.

Definition count_filtered (filter : UserFilter.t) : AM (DbResult Z) :=
  query "count users (filtered)" (count_where (matches filter)).

(** [LIMIT] and [OFFSET]; no caller passes a negative one. *)
Definition page_of {A} (page : option (Z * Z)) (l : list A) : list A :=
  match page with Some (limit, offset) => take (Z.to_nat limit) (drop (Z.to_nat offset) l) | None => l end.

Definition list_with (filter : UserFilter.t) (order : UserOrder.t) (page : option (Z * Z)) : AM (DbResult (list UserRow.t)) :=
  query "list users" (fun s => row_from <$> page_of page (sorted_by order (List.filter (matches filter) (accounts s)))).

Definition list_page_ordered (filter : UserFilter.t) (order : UserOrder.t) (limit offset : Z) : AM (DbResult (list UserRow.t)) :=
  list_with filter order (Some (limit, offset)).
Definition list_page (filter : UserFilter.t) (limit offset : Z) : AM (DbResult (list UserRow.t)) :=
  list_page_ordered filter UserOrder.CreatedDesc limit offset.
Definition list_filtered (filter : UserFilter.t) : AM (DbResult (list UserRow.t)) :=
  list_with filter UserOrder.CreatedDesc None.

Definition fetch (username : string) : AM (DbResult (option UserRow.t)) :=
  let username := normalize_username username in
  query ("fetch user " +:+ username) (fun s => row_from <$> AccountTables.users s !! username).

Definition verify_login (username password : string) : AM (DbResult (option UserRow.t)) :=
  let username := normalize_username username in
  do? row <- query ("login lookup " +:+ username) (fun s => AccountTables.users s !! username);
  let '(hash_to_check, found) := match row with Some a => (Account.password_hash a, true) | None => (dummy_hash, false) end in
  let verified := verify_password password hash_to_check in
  lift (Ok (match row with Some a => if found && verified then Some (row_from a) else None | None => None end)).

(** ** Writes *)

(** The hash of a new password; [salt] is fresh. *)
Definition hashed (salt password : string) : AM (DbResult string) :=
  lift (match hash_password salt password with Some h => Ok h | None => Err (Failed "hash password") end).

Definition bail {A} (message : string) : AM (DbResult A) := lift (Err (Failed message)).

Definition role_json (role : Role.t) : string := to_json [("role", Some (Role.as_str role))].

Definition audit (actor : option string) (action username : string) (role : Role.t) (now : Z) : AM (DbResult unit) :=
  audit_row "audit user op" actor action ("user:" +:+ username) (Some (role_json role)) now.

(** The primary key and the unique username. *)
Definition insert_user (a : Account.t) (s : AccountTables.t) : option (unit * AccountTables.t) :=
  if bool_decide (is_Some (AccountTables.users s !! Account.username a))
     || existsb (fun b => str_eqb (Account.id b) (Account.id a)) (accounts s)
  then None
  else Some (tt, AccountTables.set_users (<[Account.username a := a]> (AccountTables.users s)) s).

Definition create (salt id : string) (now : Z) (username password : string) (role : Role.t) (must_change : bool)
    (groups : list string) (actor : option string) : AM (DbResult unit) :=
  let username := normalize_username username in
  do? hash <- hashed salt password;
  let groups := join_groups groups in
  transaction "begin user tx" "commit user create"
    (do? u <- constrained ("insert user " +:+ username)
                (insert_user (Account.mk id username hash (Role.as_str role) must_change groups now now actor None None None));
     do? u <- audit actor "user.create" username role now;
     lift (Ok (Commit tt))).

(** A write of one account: no row affected is an error. *)
Definition update_user (context : string) (username : string) (guard : AccountTables.t -> Account.t -> bool)
    (f : Account.t -> Account.t) (no_op : string) : AM (DbResult unit) :=
  do? n <- statement context (alter_user username guard f);
  if n =? 0 then bail no_op else lift (Ok tt).

Definition not_found (username : string) : string := "user " +:+ username +:+ " not found".

Definition set_password (salt : string) (now : Z) (username new_password : string) (must_change : bool) (actor : option string)
    : AM (DbResult unit) :=
  let username := normalize_username username in
  do? hash <- hashed salt new_password;
  transaction "begin password tx" "commit password change"
    (do? u <- update_user ("set password for " +:+ username) username (fun _ _ => true) (Account.set_password hash must_change now)
                (not_found username);
     do? u <- delete_all username;
     do? u <- audit_row "audit password change" actor "user.password" ("user:" +:+ username) None now;
     lift (Ok (Commit tt))).

(** [pg_advisory_xact_lock] on the Postgres arm; SQLite has one writer. *)
Definition admin_mutation_lock : AM (DbResult unit) :=
  match dialect with Postgres => query "acquire admin-mutation lock" (fun _ => tt) | Sqlite => lift (Ok tt) end.

(** [role <> 'admin' OR ? = 'admin' OR (SELECT count(...)) > 1]; deletion has
    no new role. *)
Definition keeps_an_admin (new_role : option Role.t) (s : AccountTables.t) (a : Account.t) : bool :=
  negb (Account.is_admin a) || match new_role with Some r => str_eqb (Role.as_str r) "admin" | None => false end
  || (1 <? count_where Account.is_admin s).

Definition strip_message (what username : string) : string :=
  what +:+ " " +:+ username +:+ ": no-op (not found, or would strip the last admin)".

Definition account_json (update : AccountUpdate.t) (groups : string) : string :=
  to_json [("role", Some (Role.as_str (AccountUpdate.role update))); ("groups", Some groups);
           ("setor", clean (AccountUpdate.setor update)); ("email", clean (AccountUpdate.email update));
           ("celular", clean (AccountUpdate.celular update))].

Definition update_account (now : Z) (username : string) (update : AccountUpdate.t) (actor : option string) : AM (DbResult unit) :=
  let username := normalize_username username in
  let groups := join_groups (AccountUpdate.groups update) in
  transaction "begin account update" "commit account update"
    (do? u <- admin_mutation_lock;
     do? u <- update_user ("update account " +:+ username) username (keeps_an_admin (Some (AccountUpdate.role update)))
                (Account.set_account (Role.as_str (AccountUpdate.role update)) groups (clean (AccountUpdate.setor update))
                   (clean (AccountUpdate.email update)) (clean (AccountUpdate.celular update)) now)
                (strip_message "update account" username);
     do? u <- audit_row "audit account update" actor "user.update" ("user:" +:+ username) (Some (account_json update groups)) now;
     lift (Ok (Commit tt))).

Definition set_role (now : Z) (username : string) (role : Role.t) (actor : option string) : AM (DbResult unit) :=
  let username := normalize_username username in
  transaction "begin role tx" "commit role change"
    (do? u <- admin_mutation_lock;
     do? u <- update_user ("set role for " +:+ username) username (keeps_an_admin (Some role)) (Account.set_role (Role.as_str role) now)
                (strip_message "set role for" username);
     do? u <- audit actor "user.role" username role now;
     lift (Ok (Commit tt))).

Definition set_groups (now : Z) (username : string) (groups : list string) (actor : option string) : AM (DbResult unit) :=
  let username := normalize_username username in
  let groups := join_groups groups in
  transaction "begin groups tx" "commit groups change"
    (do? u <- update_user ("set groups for " +:+ username) username (fun _ _ => true) (Account.set_groups groups now) (not_found username);
     do? u <- audit_row "audit groups change" actor "user.groups" ("user:" +:+ username) (Some (to_json [("groups", Some groups)])) now;
     lift (Ok (Commit tt))).

Definition update_profile (now : Z) (username : string) (setor email celular : option string) (actor : option string)
    : AM (DbResult unit) :=
  let setor := clean setor in
  let email := clean email in
  let celular := clean celular in
  let username := normalize_username username in
  transaction "begin profile tx" "commit profile change"
    (do? u <- update_user ("set profile for " +:+ username) username (fun _ _ => true) (Account.set_profile setor email celular now)
                (not_found username);
     do? u <- audit_row "audit profile change" actor "user.profile" ("user:" +:+ username)
                (Some (to_json [("setor", setor); ("email", email); ("celular", celular)])) now;
     lift (Ok (Commit tt))).

Definition clear_must_change (username : string) : AM (DbResult unit) :=
  let username := normalize_username username in
  do? n <- statement ("clear must-change for " +:+ username) (alter_user username (fun _ _ => true) Account.clear_must_change);
  lift (Ok tt).

Definition delete_where (username : string) (guard : AccountTables.t -> Account.t -> bool) (s : AccountTables.t)
    : Z * AccountTables.t :=
  match AccountTables.users s !! username with
  | Some a => if guard s a then (1, delete_user username s) else (0, s)
  | None => (0, s)
  end.

Definition delete (now : Z) (username : string) (actor : option string) : AM (DbResult unit) :=
  let username := normalize_username username in
  transaction "begin user delete" "commit user delete"
    (do? u <- admin_mutation_lock;
     do? n <- statement ("delete user " +:+ username) (delete_where username (keeps_an_admin None));
     do? u <- (if n =? 0 then bail (strip_message "delete user" username) else lift (Ok tt));
     do? u <- audit_row "audit user delete" actor "user.delete" ("user:" +:+ username) None now;
     lift (Ok (Commit tt))).
End Users.

(** ** Groups as lists *)

(** A list as [parse_groups] returns it. *)
Definition clean_groups (l : list string) : Prop :=
  NoDup l /\ forall g, g ∈ l -> g <> "" /\ trim g = g /\ str_contains_char "," g = false.

Lemma str_is_empty_true s : str_is_empty s = true <-> s = "".
Proof. by destruct s. Qed.

Lemma existsb_str_eqb x l : existsb (str_eqb x) l = true <-> x ∈ l.
Proof.
  rewrite existsb_elem. split; [|by exists x; rewrite str_eqb_refl]. by intros (y & Hy & ->%str_eqb_eq).
Qed.

Lemma collect_groups_clean out toks :
  clean_groups out -> (forall t, t ∈ toks -> str_contains_char "," t = false) -> clean_groups (collect_groups out toks).
Proof.
  revert out; induction toks as [|tok toks IH]; intros out Ho Ht; cbn [collect_groups]; [done|].
  apply IH; [|intros t Hin; apply Ht; by right].
  destruct (negb (str_is_empty (trim tok)) && negb (existsb (str_eqb (trim tok)) out)) eqn:E; [|done].
  bool_split. destruct Ho as [Hnd Hall]. split.
  - apply list.NoDup_app. split; [done|]. split; [|apply NoDup_singleton].
    intros x Hx ->%list_elem_of_singleton. by rewrite (proj2 (existsb_str_eqb _ _) Hx) in *.
  - intros g [Hg| ->%list_elem_of_singleton]%elem_of_app; [by apply Hall|].
    split; [by destruct (trim tok)|]. split; [apply trim_idem|]. apply trim_no_char, Ht. by left.
Qed.

Lemma parse_groups_clean s : clean_groups (parse_groups s).
Proof.
  apply collect_groups_clean; [split; [constructor|]; intros g Hg; set_solver|].
  intros t Ht. by eapply split_char_pieces.
Qed.

Lemma collect_groups_id out toks :
  clean_groups (out ++ toks) -> collect_groups out toks = out ++ toks.
Proof.
  revert out; induction toks as [|tok toks IH]; intros out [Hnd Hall]; cbn [collect_groups]; [by rewrite app_nil_r|].
  destruct (Hall tok ltac:(set_solver)) as (Hne & Htrim & _). rewrite Htrim.
  destruct (str_is_empty tok) eqn:Ee; [by apply str_is_empty_true in Ee|].
  destruct (existsb (str_eqb tok) out) eqn:Ex.
  { apply existsb_str_eqb in Ex. apply list.NoDup_app in Hnd as (_ & Hd & _). exfalso. apply (Hd tok); set_solver. }
  cbn [negb andb]. rewrite IH by (by rewrite <- app_assoc). by rewrite <- app_assoc.
Qed.

Lemma parse_join l : clean_groups l -> parse_groups (str_join "," l) = l.
Proof.
  intros Hl. unfold parse_groups. destruct l as [|x l]; [reflexivity|].
  rewrite (split_join "," (x :: l)); [by apply (collect_groups_id [])|done|]. intros g Hg. by apply Hl.
Qed.

(** What the writers store is what the readers parse. *)
Lemma parse_join_groups gs : parse_groups (join_groups gs) = parse_groups (str_join "," gs).
Proof. apply parse_join, parse_groups_clean. Qed.

Definition canonical_groups (stored : string) : Prop := exists l, clean_groups l /\ stored = str_join "," l.

Lemma join_groups_canonical gs : canonical_groups (join_groups gs).
Proof. eexists. split; [apply parse_groups_clean|reflexivity]. Qed.

(** On a canonical column, looking for [,group,] is membership. *)
Lemma contains_group stored g :
  canonical_groups stored -> g <> "" -> str_contains_char "," g = false ->
  str_contains ("," +:+ g +:+ ",") ("," +:+ stored +:+ ",") = existsb (str_eqb g) (parse_groups stored).
Proof.
  intros (l & Hl & ->) Hne Hg. rewrite parse_join by done. apply eq_bool_prop_intro. rewrite !Is_true_true.
  rewrite str_contains_spec, existsb_str_eqb. split.
  - intros (a & b & E). apply (f_equal (split_char ",")) in E.
    change (a +:+ ("," +:+ g +:+ ",") +:+ b) with (a +:+ String "," ((g +:+ ",") +:+ b)) in E.
    change ("," +:+ str_join "," l +:+ ",") with ("" +:+ String "," (str_join "," l +:+ String "," "")) in E.
    rewrite str_app_assoc in E. change ("," +:+ b) with (String "," b) in E.
    rewrite !split_char_app, (split_char_no_sep "," g Hg) in E.
    assert (g ∈ split_char "," "" ++ split_char "," (str_join "," l) ++ split_char "," "") as Hin by (rewrite E; set_solver).
    destruct l as [|x l].
    + cbn in Hin. set_solver.
    + rewrite (split_join "," (x :: l)) in Hin by (done || (intros z Hz; by apply Hl)). cbn in Hin. set_solver.
  - clear Hl. induction l as [|x l IH]; intros Hin; [by apply elem_of_nil in Hin|]. destruct (decide (g = x)) as [->|Hx].
    + destruct l as [|y l]; [exists "", ""; cbn; by rewrite ?str_app_nil_r|]. exists "", (str_join "," (y :: l) +:+ ",").
      change (str_join "," (x :: y :: l)) with (x +:+ "," +:+ str_join "," (y :: l)). by rewrite !str_app_assoc.
    + apply elem_of_cons in Hin as [|Hin]; [done|]. destruct l as [|y l]; [by apply elem_of_nil in Hin|].
      destruct (IH Hin) as (a & b & E). exists ("," +:+ x +:+ a), b.
      change (str_join "," (x :: y :: l)) with (x +:+ "," +:+ str_join "," (y :: l)).
      replace ("," +:+ (x +:+ "," +:+ str_join "," (y :: l)) +:+ ",") with ("," +:+ x +:+ ("," +:+ str_join "," (y :: l) +:+ ","))
        by (by rewrite !str_app_assoc). by rewrite E, !str_app_assoc.
Qed.

(** ** Searching *)

Lemma like_any s : like "%" s = true.
Proof. induction s as [|c s IH]; [done|]. exact IH. Qed.

(** An escaped character matches itself. *)
Lemma like_escape_cons c t p s :
  like (like_escape (String c t) +:+ p) s
  = match s with String b s' => Ascii.eqb c b && like (like_escape t +:+ p) s' | EmptyString => false end.
Proof.
  cbn [like_escape]. destruct (existsb (Ascii.eqb c) ["%"; "_"; "\"]%char) eqn:E.
  - change (String "\" (String c (like_escape t)) +:+ p) with (String "\" (String c (like_escape t +:+ p))). by destruct s.
  - change (String c (like_escape t) +:+ p) with (String c (like_escape t +:+ p)). cbn in E. bool_split. cbn.
    by repeat match goal with Hc : Ascii.eqb c _ = false |- _ => rewrite Hc; clear Hc end.
Qed.

Lemma like_escape_app t p s : like (like_escape t +:+ p) s = true <-> exists r, s = t +:+ r /\ like p r = true.
Proof.
  revert s; induction t as [|c t IH]; intros s.
  - split; [intros Hs; by exists s|by intros (r & -> & Hr)].
  - rewrite like_escape_cons. split.
    + destruct s as [|b s]; [done|]. intros [->%Ascii.eqb_eq (r & -> & Hr)%IH]%andb_true_iff. by exists r.
    + intros (r & -> & Hr). change (String c t +:+ r) with (String c (t +:+ r)). cbn [Ascii.eqb].
      rewrite Ascii.eqb_refl. apply IH. by exists r.
Qed.

(** The pattern of a term matches exactly the strings that contain it. *)
Lemma like_pattern_spec t s : like (like_pattern t) s = str_contains t s.
Proof.
  unfold like_pattern. induction s as [|c s IH]; cbn - [starts_with] in *.
  - apply eq_bool_prop_intro. rewrite !Is_true_true, !orb_true_iff, like_escape_app, starts_with_spec.
    split; [intros [(r & Hr & _)|]; [left; by exists r|done]|intros [(r & Hr)|]; [left; exists r; by rewrite like_any|done]].
  - rewrite IH. f_equal. apply eq_bool_prop_intro. rewrite !Is_true_true, like_escape_app, starts_with_spec.
    split; [intros (r & Hr & _); by exists r|intros (r & Hr); exists r; by rewrite like_any].
Qed.

Lemma special_lower c :
  existsb (Ascii.eqb (ascii_lower c)) ["%"; "_"; "\"]%char = existsb (Ascii.eqb c) ["%"; "_"; "\"]%char.
Proof. by destruct c as [[] [] [] [] [] [] [] []]. Qed.

Lemma like_escape_lower t : to_ascii_lowercase (like_escape t) = like_escape (to_ascii_lowercase t).
Proof.
  induction t as [|c t IH]; [done|]. cbn [like_escape to_ascii_lowercase str_map] in *.
  change (str_map ascii_lower ?x) with (to_ascii_lowercase x). rewrite special_lower.
  destruct (existsb _ _); cbn [to_ascii_lowercase str_map]; change (str_map ascii_lower ?x) with (to_ascii_lowercase x); by rewrite IH.
Qed.

Lemma like_pattern_lower t : to_ascii_lowercase (like_pattern t) = like_pattern (to_ascii_lowercase t).
Proof.
  unfold like_pattern. cbn. f_equal. rewrite str_map_app. change (str_map ascii_lower ?x) with (to_ascii_lowercase x).
  by rewrite like_escape_lower.
Qed.

Lemma sqlite_like_pattern t s : sqlite_like (like_pattern t) s = str_contains (to_ascii_lowercase t) (to_ascii_lowercase s).
Proof. unfold sqlite_like. by rewrite like_pattern_lower, like_pattern_spec. Qed.

(** ** Counting *)

Lemma accounts_elem s a : a ∈ accounts s <-> exists u, AccountTables.users s !! u = Some a.
Proof.
  unfold accounts. rewrite list_elem_of_fmap. split.
  - intros ([u b] & -> & Hin%elem_of_map_to_list). by exists u.
  - intros (u & Hu). exists (u, a). by rewrite elem_of_map_to_list.
Qed.

Definition selected (p : Account.t -> bool) (m : gmap string Account.t) : gmap string Account.t :=
  filter (fun kv => p kv.2 = true) m.

Lemma count_where_size p s : count_where p s = Z.of_nat (size (selected p (AccountTables.users s))).
Proof.
  unfold count_where, accounts, selected, zlen. generalize (AccountTables.users s) as m. intros m.
  f_equal. induction m as [|u a m Hu IH] using map_ind.
  - by rewrite map_filter_empty, map_to_list_empty, map_size_empty.
  - rewrite map_to_list_insert by done. cbn [fmap list_fmap snd List.filter].
    change (list_fmap _ _ snd ?l) with (snd <$> l).
    destruct (p a) eqn:Ep.
    + rewrite map_filter_insert_True by done. cbn [length]. rewrite IH, map_size_insert_None; [done|].
      apply map_lookup_filter_None. left. done.
    + rewrite map_filter_insert_False by (cbn; congruence). by rewrite delete_id by done.
Qed.

Definition has_admin (s : AccountTables.t) : Prop :=
  exists u a, AccountTables.users s !! u = Some a /\ Account.is_admin a = true.

Lemma count_admins_pos s : 0 < count_where Account.is_admin s <-> has_admin s.
Proof.
  rewrite count_where_size. unfold selected. split.
  - intros Hp. destruct (map_choose (selected Account.is_admin (AccountTables.users s))) as (u & a & Hu).
    { intros He. unfold selected in He. rewrite He, map_size_empty in Hp. lia. }
    apply map_lookup_filter_Some in Hu as [Hu Ha]. by exists u, a.
  - intros (u & a & Hu & Ha). destruct (size _) eqn:E; [|lia]. apply map_size_empty_inv in E.
    exfalso. eapply (map_filter_empty_not_lookup _ _ u a E); done.
Qed.

(** With two admins there is one besides any account. *)
Lemma count_admins_other s u :
  1 < count_where Account.is_admin s ->
  exists v a, v <> u /\ AccountTables.users s !! v = Some a /\ Account.is_admin a = true.
Proof.
  rewrite count_where_size. intros Hp.
  destruct (map_choose (base.delete u (selected Account.is_admin (AccountTables.users s)))) as (v & a & Hv).
  { intros He. apply (f_equal size) in He. rewrite map_size_empty in He.
    destruct (selected Account.is_admin (AccountTables.users s) !! u) eqn:Eu.
    - rewrite map_size_delete_Some in He by done. lia.
    - rewrite map_size_delete_None in He by done. lia. }
  apply lookup_delete_Some in Hv as [Hne Hv]. apply map_lookup_filter_Some in Hv as [Hv Ha].
  exists v, a. by split_and!; [congruence| |].
Qed.

(** ** What the statements do *)

Lemma insert_user_inv a s s' :
  insert_user a s = Some (tt, s') ->
  AccountTables.users s !! Account.username a = None /\ (forall b, b ∈ accounts s -> Account.id b <> Account.id a)
  /\ s' = AccountTables.set_users (<[Account.username a := a]> (AccountTables.users s)) s.
Proof.
  unfold insert_user. destruct (_ || _) eqn:E; [done|]. intros [= <-]. apply orb_false_iff in E as [Hu Hi].
  apply bool_decide_eq_false in Hu. split; [by apply eq_None_not_Some|]. split; [|done].
  intros b Hb Hid. assert (existsb (fun b => str_eqb (Account.id b) (Account.id a)) (accounts s) = true) as Ht; [|congruence].
  apply existsb_elem. exists b. split; [done|]. by apply str_eqb_eq.
Qed.

Lemma delete_where_inv u guard s :
  (delete_where u guard s).2 = s
  \/ exists a, AccountTables.users s !! u = Some a /\ guard s a = true /\ (delete_where u guard s).2 = delete_user u s.
Proof.
  unfold delete_where. destruct (AccountTables.users s !! u) as [a|]; [|by left].
  destruct (guard s a) eqn:Eg; [right; by exists a|by left].
Qed.

Lemma keeps_an_admin_true r s a :
  keeps_an_admin r s a = true <->
  Account.is_admin a = false \/ (exists r', r = Some r' /\ Role.as_str r' = "admin") \/ 1 < count_where Account.is_admin s.
Proof.
  unfold keeps_an_admin. rewrite !orb_true_iff, negb_true_iff, Z.ltb_lt. destruct r as [r|].
  - rewrite str_eqb_eq. naive_solver.
  - naive_solver.
Qed.

(** ** What the listing shows *)

(** Roles and groups as every writer stores them. *)
Definition account_typed (a : Account.t) : Prop :=
  (exists r, Account.role a = Role.as_str r) /\ canonical_groups (Account.groups a).

Lemma parse_as_str r : Role.parse (Role.as_str r) = Some r.
Proof. by destruct r. Qed.

(** The groups of a scope are a parsed list. *)
Lemma scope_groups_clean info f :
  (forall u row, f u = Ok (Some row) -> clean_groups (UserRow.groups row)) ->
  clean_groups (EditorScope.groups (EditorScope.from_editor info (Some f))).
Proof.
  intros Hf. unfold EditorScope.from_editor.
  assert (clean_groups []) as Hnil by (split; [constructor|]; intros g Hg; set_solver).
  destruct (bool_decide _); [done|]. cbn. destruct (SessionInfo.actor info) as [u|]; [|done].
  destruct (f u) as [[row|]|] eqn:E; [by eapply Hf|done|done].
Qed.

Lemma accounts_filter_elem p s a : a ∈ List.filter p (accounts s) <-> (exists u, AccountTables.users s !! u = Some a) /\ p a = true.
Proof. rewrite filter_elem, accounts_elem. done. Qed.

Lemma sorted_by_elem collate o l a : a ∈ sorted_by collate o l <-> a ∈ l.
Proof. unfold sorted_by. by rewrite merge_sort_Permutation. Qed.

Lemma pages_concat {A} (n : nat) (l : list A) m :
  concat (map (fun k => take n (drop (k * n) l)) (seq 0 m)) = take (m * n) l.
Proof.
  induction m as [|m IH]; [done|]. rewrite seq_S, map_app, concat_app, IH. cbn [map concat]. rewrite app_nil_r, Nat.add_0_l.
  rewrite (Nat.mul_succ_l m n). by rewrite <- take_take_drop.
Qed.
Section Listing.
Context `{UnicodeCase} `{JsonObject} `{Argon2} (dialect : Dialect) (collate : string -> string -> bool) (pg_lower : string -> string).

(** Postgres' [lower] leaves the stored roles alone, the collation orders
    text totally. *)
Context (pg_lower_roles : forall r, pg_lower (Role.as_str r) = Role.as_str r).
Context (collate_total : forall a b, collate a b = true \/ collate b a = true)
        (collate_trans : forall a b c, collate a b = true -> collate b c = true -> collate a c = true)
        (collate_antisym : forall a b, collate a b = true -> collate b a = true -> a = b).

Lemma sql_lower_role r : sql_lower dialect pg_lower (Role.as_str r) = Role.as_str r.
Proof using pg_lower_roles. unfold sql_lower. destruct dialect; [by destruct r|apply pg_lower_roles]. Qed.

(** The SQL predicate is the policy's. *)
Lemma visibility_is_scope scope a :
  account_typed a -> clean_groups (EditorScope.groups scope) ->
  push_visibility dialect pg_lower (UserFilter.visible_groups (user_filter scope "")) a = EditorScope.may_touch_user scope (row_from a).
Proof using pg_lower_roles.
  intros [[r Hr] Hc] [_ Hg]. unfold user_filter, EditorScope.may_touch_user. cbn [UserFilter.visible_groups].
  destruct (EditorScope.unscoped scope); [done|]. cbn [orb push_visibility]. rewrite Hr, sql_lower_role.
  unfold row_from. cbn [UserRow.role UserRow.groups]. rewrite Hr, parse_as_str. cbn [default].
  assert (str_eqb (Role.as_str r) "admin" = bool_decide (r = Role.Admin)) as -> by (by destruct r). f_equal.
  assert (existsb (fun group => str_contains ("," +:+ group +:+ ",") ("," +:+ Account.groups a +:+ ",")) (EditorScope.groups scope)
          = existsb (EditorScope.has_group scope) (parse_groups (Account.groups a))) as <-; [|by destruct (EditorScope.groups scope)].
  apply eq_bool_prop_intro. rewrite !Is_true_true, !existsb_elem. unfold EditorScope.has_group. split.
  - intros (g & Hin & Hx). destruct (Hg g Hin) as (Hne & _ & Hcomma). rewrite contains_group in Hx by done.
    apply existsb_str_eqb in Hx. exists g. split; [done|]. apply existsb_elem. exists g. by rewrite str_eqb_refl.
  - intros (g & Hin & (g' & Hin' & ->%str_eqb_eq)%existsb_elem). exists g. split; [done|].
    destruct (Hg g Hin') as (Hne & _ & Hcomma). rewrite contains_group by done. by apply existsb_str_eqb.
Qed.

(** An Editor's listing is the policy's answer: over accounts as the
    writers store them, the rows the SQL filter returns are exactly those
    that match the search and that [may_touch_user] allows the Editor, and
    the count behind the pager is their number. *)
Theorem listed_iff_in_scope info db0 db search rows db1 n db2 :
  let scope := EditorScope.from_editor info (Some (fun u => result_map_err (fun _ => "db error") (fetch u db0).1)) in
  (forall u a, AccountTables.users (ConfigDb.tables db) !! u = Some a -> account_typed a) ->
  list_filtered dialect collate pg_lower (user_filter scope search) db = (Ok rows, db1) ->
  count_filtered dialect pg_lower (user_filter scope search) db1 = (Ok n, db2) ->
  (forall row, row ∈ rows <-> exists u a, AccountTables.users (ConfigDb.tables db) !! u = Some a /\ row = row_from a
                  /\ push_search dialect pg_lower (trim search) a = true /\ EditorScope.may_touch_user scope row = true)
  /\ n = zlen rows.
Proof using pg_lower_roles.
  intros scope Hty Hl Hn. apply query_inv in Hl as [Ht [?|[= ->]]]; [done|]. apply query_inv in Hn as [_ [?|[= ->]]]; [done|].
  assert (clean_groups (EditorScope.groups scope)) as Hclean.
  { apply scope_groups_clean. intros u row. destruct (fetch u db0) as [[x|e] db3] eqn:Ef; [|done]. cbn. intros [= ->].
    apply query_inv in Ef as [_ [?|[= Ef]]]; [done|]. destruct (_ !! _) as [a|]; [|done]. injection Ef as ->. apply parse_groups_clean. }
  split.
  - intros row. cbn [page_of]. rewrite list_elem_of_fmap. setoid_rewrite sorted_by_elem. setoid_rewrite accounts_filter_elem.
    split.
    + intros (a & -> & [u Hu] & [Hs Hv]%andb_true_iff). exists u, a. split; [done|]. split; [done|]. split; [done|].
      rewrite <- (visibility_is_scope scope a (Hty u a Hu) Hclean). done.
    + intros (u & a & Hu & -> & Hs & Hv). exists a. split; [done|]. split; [by exists u|]. unfold matches. rewrite andb_true_iff.
      split; [done|]. rewrite <- (visibility_is_scope scope a (Hty u a Hu) Hclean) in Hv. done.
  - rewrite Ht. unfold count_where, zlen. cbn [page_of]. rewrite length_fmap. unfold sorted_by. by rewrite merge_sort_Permutation.
Qed.

(** *** Pages *)

Lemma sql_le_total o a b : sql_le collate o a b \/ sql_le collate o b a.
Proof using collate_total.
  unfold sql_le. destruct o; cbn; unfold by_username; try apply collate_total.
  - rewrite (Z.eqb_sym (Account.created_at b)). destruct (Account.created_at a =? Account.created_at b) eqn:E; [apply collate_total|]. lia.
  - rewrite (Z.eqb_sym (Account.created_at b)). destruct (Account.created_at a =? Account.created_at b) eqn:E; [apply collate_total|]. lia.
  - destruct (str_eqb_spec (Account.role a) (Account.role b)) as [->|Hne]; [rewrite str_eqb_refl; apply collate_total|].
    rewrite (proj2 (str_eqb_neq _ _)) by congruence. apply collate_total.
  - destruct (str_eqb_spec (Account.role a) (Account.role b)) as [->|Hne]; [rewrite str_eqb_refl; apply collate_total|].
    rewrite (proj2 (str_eqb_neq _ _)) by congruence. apply collate_total.
Qed.

Lemma sql_le_trans o : Transitive (sql_le collate o).
Proof using collate_trans collate_antisym.
  intros a b c. unfold sql_le. destruct o; cbn; unfold by_username; try (intros; by eapply collate_trans).
  - repeat case_match; bool_split; try (intros; lia); intros; eauto; lia.
  - repeat case_match; bool_split; try (intros; lia); intros; eauto; lia.
  - destruct (str_eqb_spec (Account.role a) (Account.role b)) as [Eab|Nab], (str_eqb_spec (Account.role b) (Account.role c)) as [Ebc|Nbc],
      (str_eqb_spec (Account.role a) (Account.role c)) as [Eac|Nac]; try congruence; intros Hab Hbc.
    + by eapply collate_trans.
    + exfalso. apply Nab, collate_antisym; [done|]. by rewrite Eac.
    + by eapply collate_trans.
  - destruct (str_eqb_spec (Account.role a) (Account.role b)) as [Eab|Nab], (str_eqb_spec (Account.role b) (Account.role c)) as [Ebc|Nbc],
      (str_eqb_spec (Account.role a) (Account.role c)) as [Eac|Nac]; try congruence; intros Hab Hbc.
    + by eapply collate_trans.
    + exfalso. apply Nab, collate_antisym; [|done]. by rewrite Eac.
    + by eapply collate_trans.
Qed.

(** The username breaks every tie. *)
Lemma sql_le_names o a b : sql_le collate o a b -> sql_le collate o b a -> Account.username a = Account.username b.
Proof using collate_antisym.
  unfold sql_le. destruct o; cbn; unfold by_username; intros Hab Hba.
  - rewrite (Z.eqb_sym (Account.created_at b)) in Hba. destruct (Account.created_at a =? Account.created_at b); [by apply collate_antisym|lia].
  - rewrite (Z.eqb_sym (Account.created_at b)) in Hba. destruct (Account.created_at a =? Account.created_at b); [by apply collate_antisym|lia].
  - by apply collate_antisym.
  - by apply collate_antisym.
  - destruct (str_eqb_spec (Account.role a) (Account.role b)) as [E|Hne]; [rewrite E, str_eqb_refl in Hba; by apply collate_antisym|].
    rewrite (proj2 (str_eqb_neq _ _)) in Hba by congruence. by destruct Hne; apply collate_antisym.
  - destruct (str_eqb_spec (Account.role a) (Account.role b)) as [E|Hne]; [rewrite E, str_eqb_refl in Hba; by apply collate_antisym|].
    rewrite (proj2 (str_eqb_neq _ _)) in Hba by congruence. by destruct Hne; apply collate_antisym.
Qed.

(** Whatever order a database computes its answer in, there is one. *)
Lemma listing_determined o s p l :
  (forall u a, AccountTables.users s !! u = Some a -> Account.username a = u) ->
  l ≡ₚ List.filter p (accounts s) -> StronglySorted (sql_le collate o) l -> l = sorted_by collate o (List.filter p (accounts s)).
Proof using collate_total collate_trans collate_antisym.
  intros Hk Hp Hs. apply (StronglySorted_unique_strong (sql_le collate o)).
  - intros a b Ha Hb Hab Hba. rewrite Hp in Ha. apply accounts_filter_elem in Ha as [[u Hu] _].
    apply sorted_by_elem, accounts_filter_elem in Hb as [[v Hv] _]. pose proof (sql_le_names o a b Hab Hba) as En.
    rewrite (Hk u a Hu), (Hk v b Hv) in En. congruence.
  - done.
  - apply StronglySorted_merge_sort; [apply sql_le_trans|intros a b; apply sql_le_total].
  - rewrite Hp. unfold sorted_by. by rewrite merge_sort_Permutation.
Qed.


(** Pages tile the listing: whatever order the database finds the
    matching accounts in, and although each page is a query of its own, the
    pages one after the other are the whole sorted listing, no row twice and
    none skipped. *)
Theorem pages_tile o filter s (n m : nat) (answers : nat -> list Account.t) :
  (forall u a, AccountTables.users s !! u = Some a -> Account.username a = u) ->
  (forall k, answers k ≡ₚ List.filter (matches dialect pg_lower filter) (accounts s)
             /\ StronglySorted (sql_le collate o) (answers k)) ->
  count_where (matches dialect pg_lower filter) s <= Z.of_nat (m * n) ->
  concat (map (fun k => page_of (Some (Z.of_nat n, Z.of_nat (k * n))) (answers k)) (seq 0 m))
  = sorted_by collate o (List.filter (matches dialect pg_lower filter) (accounts s)).
Proof using collate_total collate_trans collate_antisym.
  intros Hk Ha Hm. set (l := sorted_by collate o (List.filter (matches dialect pg_lower filter) (accounts s))).
  rewrite (map_ext _ (fun k => take n (drop (k * n) l))).
  - rewrite pages_concat. apply take_ge. unfold count_where, zlen in Hm. unfold l, sorted_by. rewrite merge_sort_Permutation. lia.
  - intros k. cbn [page_of]. rewrite !Nat2Z.id. destruct (Ha k) as [Hp Hs]. by rewrite (listing_determined o s _ (answers k) Hk Hp Hs).
Qed.
End Listing.

(** ** Logging in *)

(** Creating an account inserts its row and an audit row, or nothing. *)
Lemma create_account_inv `{UnicodeCase} `{JsonObject} `{Argon2} salt id now u pw r m gs actor db res db' :
  create salt id now u pw r m gs actor db = (res, db') ->
  (exists e, res = Err e /\ ConfigDb.tables db' = ConfigDb.tables db)
  \/ exists hash l, res = Ok tt /\ hash_password salt pw = Some hash
       /\ AccountTables.users (ConfigDb.tables db) !! normalize_username u = None
       /\ ConfigDb.tables db' = AccountTables.set_audit_log l (AccountTables.set_users
            (<[normalize_username u :=
                Account.mk id (normalize_username u) hash (Role.as_str r) m (join_groups gs) now now actor None None None]>
               (AccountTables.users (ConfigDb.tables db))) (ConfigDb.tables db)).
Proof.
  unfold create. intros [(hash & db1 & [Hh ->]%lift_Ok & Ht)|(e & Hh & ->)]%try_bind_inv; [|left; injection Hh as _ <-; eauto].
  destruct (hash_password salt pw) as [h|] eqn:Eh; [|done]. injection Hh as <-.
  apply transaction_outcome in Ht as [(e & -> & Ht)|([] & db2 & db3 & -> & Ht & Hb)]; [left; eauto|]. right. exists h.
  assert (forall x, (do? u0 <- constrained ("insert user " +:+ normalize_username u)
             (insert_user (Account.mk id (normalize_username u) h (Role.as_str r) m (join_groups gs) now now actor None None None));
           do? u0 <- audit actor "user.create" (normalize_username u) r now; lift (Ok (Commit tt))) db2 = (Ok x, db3) ->
         x = Commit tt /\ AccountTables.users (ConfigDb.tables db2) !! normalize_username u = None
         /\ exists l, ConfigDb.tables db3 = AccountTables.set_audit_log l (AccountTables.set_users
            (<[normalize_username u := Account.mk id (normalize_username u) h (Role.as_str r) m (join_groups gs) now now actor None None None]>
               (AccountTables.users (ConfigDb.tables db2))) (ConfigDb.tables db2))) as Hbody.
  { intros x (w & d1 & [[? ?]|(w' & _ & Hi)]%constrained_inv & Hb')%try_bind_Ok; [done|]. destruct w'.
    apply insert_user_inv in Hi as (Hnone & _ & E).
    apply try_bind_Ok in Hb' as (w' & d2 & Ha%execute_Ok & [[= <-] ->]%lift_Ok). split; [done|]. split; [done|].
    rewrite Ha, E. by eexists. }
  destruct Hb as [[Hb ->]|[Hb _]]; apply Hbody in Hb as (? & Hnone & l & Hl); [|done]. rewrite Ht in *. exists l. done.
Qed.

(** A created account logs in: after [create] has answered, a login
    with the password it was given, under any spelling of the name that
    normalizes to the same, finds the account with the role and groups it was
    given. *)
Theorem login_round_trip `{UnicodeCase} `{JsonObject} `{!Argon2} `{!Argon2Laws} salt id now u pw r m gs actor db db1 u' res db2 :
  create salt id now u pw r m gs actor db = (Ok tt, db1) -> normalize_username u' = normalize_username u ->
  verify_login u' pw db1 = (Ok res, db2) ->
  exists row, res = Some row /\ UserRow.username row = normalize_username u /\ UserRow.role row = r
    /\ UserRow.groups row = parse_groups (str_join "," gs) /\ UserRow.must_change_password row = m.
Proof.
  intros [(e & ? & _)|(hash & l & _ & Hh & _ & Ht)]%create_account_inv Hn; [done|].
  assert (AccountTables.users (ConfigDb.tables db1) !! normalize_username u
    = Some (Account.mk id (normalize_username u) hash (Role.as_str r) m (join_groups gs) now now actor None None None)) as Hu
    by (rewrite Ht; apply lookup_insert_eq).
  unfold verify_login. rewrite Hn.
  intros (found & db3 & [_ [?|[= ->]]]%query_inv & Hl)%try_bind_Ok; [done|]. rewrite Hu in Hl. cbn in Hl.
  rewrite (verify_hashed _ _ _ Hh) in Hl. apply lift_Ok in Hl as [[= <-] _]. eexists. split; [reflexivity|]. unfold row_from.
  cbn [UserRow.username UserRow.role UserRow.groups UserRow.must_change_password Account.username Account.role Account.groups
       Account.must_change_password]. by rewrite parse_as_str, parse_join_groups.
Qed.

(** ** Examples *)

Module UserExamples.
Import AccountExamples.
#[export] Instance argon2 : Argon2 :=
  { hash_password salt plain := if str_contains_char "$" salt then None else Some (salt +:+ String "$" plain);
    verify_password plain phc := match split_once "$" phc with Some (_, p) => str_eqb p plain | None => false end;
    dummy_hash := "salt$ruscker-timing-decoy" }.

Lemma argon2_laws : Argon2Laws.
Proof.
  split. intros salt plain phc. cbn. destruct (str_contains_char "$" salt) eqn:E; [done|]. intros [= <-].
  rewrite split_once_no_sep by done. apply str_eqb_refl.
Defined.
Definition collate (a b : string) : bool := match String.compare a b with Gt => false | _ => true end.

Definition account (name role groups : string) : Account.t :=
  Account.mk ("id-" +:+ name) name "s$pw" role false groups 1 1 None None None None.
Definition db : AccountDb :=
  ConfigDb.mk (AccountTables.set_users
    (<["ana" := account "ana" "editor" "lab,ops"]> (<["bo" := account "bo" "viewer" "ops"]>
       (<["root" := account "root" "admin" "lab"]> (<["zoe" := account "zoe" "viewer" "labs"]> ∅)))) AccountTables.empty) [].
Definition ana : SessionInfo.t := SessionInfo.mk Role.Editor (Some "ana").

Example ana_lists : (list_filtered Sqlite collate (fun s => s)
    (user_filter (EditorScope.from_editor ana (Some (fun u => result_map_err (fun _ => "db error") (fetch u db).1))) "") db).1
  = Ok (row_from <$> [account "ana" "editor" "lab,ops"; account "bo" "viewer" "ops"]).
Proof. vm_compute. reflexivity. Qed.
Lemma db_typed u a : AccountTables.users (ConfigDb.tables db) !! u = Some a -> account_typed a.
Proof.
  assert (forall n r g, join_groups (parse_groups g) = g -> account_typed (account n (Role.as_str r) g)) as Hty.
  { intros n r g Hg. split; [by exists r|]. cbn. rewrite <- Hg. apply join_groups_canonical. }
  revert u a. change (map_Forall (fun _ a => account_typed a) (AccountTables.users (ConfigDb.tables db))).
  repeat apply map_Forall_insert_2; [| | | |apply map_Forall_empty];
    [apply (Hty "ana" Role.Editor)|apply (Hty "bo" Role.Viewer)|apply (Hty "root" Role.Admin)|apply (Hty "zoe" Role.Viewer)];
    vm_compute; reflexivity.
Qed.

Definition ana_scope : EditorScope.t :=
  EditorScope.from_editor ana (Some (fun u => result_map_err (fun _ => "db error") (fetch u db).1)).
Definition ana_listing : list UserRow.t := row_from <$> [account "ana" "editor" "lab,ops"; account "bo" "viewer" "ops"].

Lemma listed_iff_in_scope_witness :
  (forall row, row ∈ ana_listing
     <-> exists u a, AccountTables.users (ConfigDb.tables db) !! u = Some a /\ row = row_from a
           /\ push_search Sqlite (fun s => s) (trim "") a = true /\ EditorScope.may_touch_user ana_scope row = true)
  /\ 2 = zlen ana_listing.
Proof.
  apply (listed_iff_in_scope Sqlite collate (fun s => s) (fun r => eq_refl) ana db db "" ana_listing db 2 db db_typed);
    vm_compute; reflexivity.
Defined.

Definition with_zoe2 : AccountDb := (create "salt" "id" 5 "Zoe2" "pw" Role.Editor true ["lab"; "ops"] None db).2.
Definition zoe2 : UserRow.t := row_from (Account.mk "id" "zoe2" "salt$pw" "editor" true "lab,ops" 5 5 None None None None).
Lemma login_round_trip_witness :
  verify_login " ZOE2 " "pw" with_zoe2 = (Ok (Some zoe2), with_zoe2)
  /\ exists row, Some zoe2 = Some row /\ UserRow.username row = normalize_username "Zoe2" /\ UserRow.role row = Role.Editor
       /\ UserRow.groups row = parse_groups (str_join "," ["lab"; "ops"]) /\ UserRow.must_change_password row = true.
Proof.
  split; [vm_compute; reflexivity|].
  apply (login_round_trip (H2 := argon2_laws) "salt" "id" 5 "Zoe2" "pw" Role.Editor true ["lab"; "ops"] None db with_zoe2 " ZOE2 "
           (Some zoe2) with_zoe2); vm_compute; reflexivity.
Defined.
End UserExamples.
