(* ===== verification/MfaStore.v ===== *)
(** * MfaStore: factors, recovery codes and trusted browsers

    db/mfa.rs and db/mfa_grants.rs over the tables of Accounts, with the codes
    they check (mfa.rs: TOTP steps and recovery codes).  Parameters: the
    digest and hex crates (Auth), totp_rs, the case tables and JSON printer. *)

From Stdlib Require Import Ascii String ZArith Lia.
From stdpp Require Import base tactics list gmap strings fin_maps numbers sorting.
From S2P Require Import Prelude Text Auth Database SpecStore Accounts.

Local Open Scope string_scope.
Local Open Scope list_scope.
Local Open Scope Z_scope.
Local Open Scope ruscker_scope.

(** ** Codes *)

(** totp_rs: the profile of a base32 secret for a user, and the six digits at
    a time; building it may fail. *)
Class TotpCrate := { totp : string -> string -> option (Z -> string) }.

Section Totp.
Context `{TotpCrate}.

(** [now] is the wall clock in nanoseconds. *)
Definition totp_candidates (now : Z) : list Z :=
  let current := as_secs now / 30 in
  List.filter (fun step => (i64_min <=? step) && (step <=? i64_max) && (0 <=? i64_saturating_mul step 30))
    (map (Z.add current) [0; -1; 1]).

Definition verify_totp_step (now : Z) (secret_base32 username code : string) : Result (option Z) string :=
  if negb (String.length code =? 6)%nat || negb (str_forallb is_ascii_digit code) then Ok None
  else if now <? 0 then Err "read system time for TOTP"
  else match totp secret_base32 username with
       | None => Err "build TOTP profile"
       | Some generate =>
         Ok (List.find (fun step => str_eqb code (generate (i64_saturating_mul step 30))) (totp_candidates now))
       end.
End Totp.

Section RecoveryCodes.
Context `{MfaCrates}.

Definition normalized_code (code : string) : string := collect_chars (normalize_recovery_code (chars code)).

(** [salt] is the fresh random salt. *)
Definition hash_recovery_code (salt code : string) : string := hash_with_salt salt (normalized_code code).
Definition verify_recovery_code (code stored : string) : bool := verify_device_token (normalized_code code) stored.
End RecoveryCodes.

(** ** Factors *)

Module Factor.
Import MfaRow.
Definition pending (r : MfaRow.t) : bool := bool_decide (confirmed_at r = None).

(** What a conflicting [begin_enrollment] writes over a pending row. *)
Definition restart (enc nonce ceremony : string) (now : Z) (r : MfaRow.t) : MfaRow.t :=
  mk (username r) enc nonce ceremony None now now None (security_epoch r).
Definition confirm (now : Z) (r : MfaRow.t) : MfaRow.t :=
  mk (username r) (secret_enc r) (secret_nonce r) (ceremony r) (Some now) (created_at r) now (last_used_step r) (security_epoch r).
Definition set_updated_at (now : Z) (r : MfaRow.t) : MfaRow.t :=
  mk (username r) (secret_enc r) (secret_nonce r) (ceremony r) (confirmed_at r) (created_at r) now (last_used_step r) (security_epoch r).
Definition set_last_used_step (step : Z) (r : MfaRow.t) : MfaRow.t :=
  mk (username r) (secret_enc r) (secret_nonce r) (ceremony r) (confirmed_at r) (created_at r) (updated_at r) (Some step)
     (security_epoch r).
Definition step_is_new (step : Z) (r : MfaRow.t) : bool :=
  match last_used_step r with None => true | Some last => last <? step end.
End Factor.

Module RecoveryCodeCounts.
Record t := mk { unused : Z; total : Z }.
End RecoveryCodeCounts.

Inductive RegenerateOutcome := Done | NotEnrolled | Stale.

(** ** Trusted browsers *)

Inductive IssueRefusal := StaleEpoch | RecoverySpent | Replayed.

Section MfaStore.
Context `{UnicodeCase} `{JsonObject} `{MfaCrates} (dialect : Dialect).

(** The insert, or the update of a pending row; the rows affected.  The
    account must exist. *)
Definition upsert_factor (username enc nonce ceremony : string) (now : Z) (s : AccountTables.t) : option (Z * AccountTables.t) :=
  match AccountTables.user_mfa s !! username with
  | Some row => Some (alter_factor username Factor.pending (Factor.restart enc nonce ceremony now) s)
  | None =>
    match AccountTables.users s !! username with
    | Some _ =>
      Some (1, AccountTables.set_user_mfa
                 (<[username := MfaRow.mk username enc nonce ceremony None now now None 0]> (AccountTables.user_mfa s)) s)
    | None => None
    end
  end.

Definition begin_enrollment (now : Z) (username secret_enc nonce ceremony : string) : AM (DbResult unit) :=
  let username := normalize_username username in
  do? affected <- constrained ("begin MFA enrollment for " +:+ username) (upsert_factor username secret_enc nonce ceremony now);
  if affected =? 0 then lift (Err (Failed ("MFA is already confirmed for " +:+ username +:+ "; reset it before re-enrolling")))
  else lift (Ok tt).

Definition insert_recovery (id username hash : string) (now : Z) (s : AccountTables.t) : option (unit * AccountTables.t) :=
  match AccountTables.user_mfa_recovery s !! id, AccountTables.users s !! username with
  | None, Some _ =>
    Some (tt, AccountTables.set_user_mfa_recovery
                (<[id := RecoveryRow.mk id username hash None now]> (AccountTables.user_mfa_recovery s)) s)
  | _, _ => None
  end.

(** The loop over the new hashes; each pair is a minted id and a hash. *)
Fixpoint insert_codes (context username : string) (now : Z) (hashes : list (string * string)) : AM (DbResult unit) :=
  match hashes with
  | [] => lift (Ok tt)
  | (id, hash) :: rest =>
    do? u <- constrained context (insert_recovery id username hash now); insert_codes context username now rest
  end.

(** The old codes out, the new ones in. *)
Definition replace_codes (delete_context insert_context username : string) (now : Z) (hashes : list (string * string))
    : AM (DbResult unit) :=
  do? u <- execute delete_context (delete_recovery username);
  insert_codes insert_context username now hashes.

Definition user_target (username : string) : string := "user:" +:+ username.

Definition confirm_with_recovery_codes (now : Z) (username actor : string) (recovery_hashes : option (list (string * string)))
    (ceremony : string) : AM (DbResult unit) :=
  let username := normalize_username username in
  transaction "begin MFA confirm" "commit MFA confirm"
    (do? n <- statement "confirm MFA enrollment" (alter_factor username
                (fun r => Factor.pending r && str_eqb (MfaRow.ceremony r) ceremony) (Factor.confirm now));
     do? u <- (if n =? 0 then lift (Err (Failed ("pending MFA enrollment not found for " +:+ username))) else lift (Ok tt));
     do? u <- match recovery_hashes with
              | Some hashes =>
                replace_codes "delete old recovery codes during confirm" "insert recovery code during confirm" username now hashes
              | None => lift (Ok tt)
              end;
     do? u <- audit_row "audit MFA enrollment" (Some actor) "mfa.enroll" (user_target username) None now;
     lift (Ok (Commit tt))).

Definition confirm_enrollment (now : Z) (username actor ceremony : string) : AM (DbResult unit) :=
  confirm_with_recovery_codes now username actor None ceremony.

Definition fetch_factor (username : string) : AM (DbResult (option MfaRow.t)) :=
  let username := normalize_username username in
  query ("fetch MFA state for " +:+ username) (fun s => AccountTables.user_mfa s !! username).

Definition replace_recovery_codes (now : Z) (username : string) (hashes : list (string * string)) : AM (DbResult unit) :=
  let username := normalize_username username in
  transaction "begin recovery replacement" "commit recovery replacement"
    (do? u <- replace_codes "delete old recovery codes" "insert recovery code" username now hashes;
     lift (Ok (Commit tt))).

Definition codes_of (username : string) (s : AccountTables.t) : list RecoveryRow.t :=
  List.filter (fun r => str_eqb (RecoveryRow.username r) username) (snd <$> map_to_list (AccountTables.user_mfa_recovery s)).

Definition recovery_code_counts (username : string) : AM (DbResult RecoveryCodeCounts.t) :=
  let username := normalize_username username in
  query ("count recovery codes for " +:+ username) (fun s =>
    let l := codes_of username s in RecoveryCodeCounts.mk (zlen (List.filter RecoveryRow.unused l)) (zlen l)).

(** [timestamp_micros] *)
Definition recovery_generation (row : MfaRow.t) : Z := MfaRow.updated_at row / 1000.

Definition regenerate_recovery_codes (now : Z) (username actor : string) (hashes : list (string * string)) (expected_generation : Z)
    : AM (DbResult RegenerateOutcome) :=
  let username := normalize_username username in
  transaction "begin recovery regeneration" "commit recovery regeneration"
    (do? current <- query "read MFA factor before regeneration" (fun s => AccountTables.user_mfa s !! username);
     match current with
     | Some row =>
       if Factor.pending row then lift (Ok (Dropped NotEnrolled))
       else if negb (recovery_generation row =? expected_generation) then lift (Ok (Dropped Stale))
       else
         do? bumped <- statement "bump MFA generation" (alter_factor username
                         (fun r => negb (Factor.pending r) && (MfaRow.updated_at r =? MfaRow.updated_at row)) (Factor.set_updated_at now));
         if bumped =? 0 then lift (Ok (Dropped Stale))
         else
           do? u <- replace_codes "delete old recovery codes" "insert recovery code" username now hashes;
           do? u <- audit_row "audit recovery regeneration" (Some actor) "mfa.recovery_regenerated" (user_target username) None now;
           lift (Ok (Commit Done))
     | None => lift (Ok (Dropped NotEnrolled))
     end).

Definition candidates (username : string) (s : AccountTables.t) : list (string * string) :=
  map (fun r => (RecoveryRow.id r, RecoveryRow.code_hash r)) (List.filter RecoveryRow.unused (codes_of username s)).
Definition matching_id (code : string) (rows : list (string * string)) : option string :=
  fst <$> List.find (fun row => verify_recovery_code code row.2) rows.

Definition find_recovery_candidate (username code : string) : AM (DbResult (option string)) :=
  let username := normalize_username username in
  do? rows <- query "fetch recovery candidates" (candidates username);
  lift (Ok (matching_id code rows)).

(** [UPDATE user_mfa_recovery SET used_at = ? WHERE id = ? AND ..]; the rows
    affected. *)
Definition use_recovery (id : string) (guard : RecoveryRow.t -> bool) (now : Z) (s : AccountTables.t) : Z * AccountTables.t :=
  match AccountTables.user_mfa_recovery s !! id with
  | Some r =>
    if guard r && RecoveryRow.unused r
    then (1, AccountTables.set_user_mfa_recovery (<[id := RecoveryRow.use now r]> (AccountTables.user_mfa_recovery s)) s)
    else (0, s)
  | None => (0, s)
  end.

Definition consume_recovery_code (now : Z) (username code : string) : AM (DbResult bool) :=
  let username := normalize_username username in
  transaction "begin recovery consumption" "commit recovery consumption"
    (do? rows <- query "fetch recovery hashes" (candidates username);
     match matching_id code rows with
     | None => lift (Ok (Dropped false))
     | Some id =>
       do? changed <- statement "consume recovery code" (use_recovery id (fun _ => true) now);
       lift (Ok (Commit (changed =? 1)))
     end).

Definition is_enrolled (username : string) : AM (DbResult bool) :=
  let username := normalize_username username in
  query ("read MFA status for " +:+ username) (fun s =>
    match AccountTables.user_mfa s !! username with Some row => negb (Factor.pending row) | None => false end).

Definition use_step (username : string) (step : Z) : AccountTables.t -> Z * AccountTables.t :=
  alter_factor username (Factor.step_is_new step) (Factor.set_last_used_step step).

Definition record_used_step (username : string) (step : Z) : AM (DbResult bool) :=
  let username := normalize_username username in
  do? changed <- statement ("record MFA TOTP step for " +:+ username) (use_step username step);
  lift (Ok (changed =? 1)).

Definition delete_factor (username : string) (s : AccountTables.t) : AccountTables.t :=
  AccountTables.set_user_mfa (base.delete username (AccountTables.user_mfa s)) s.

Definition reset (now : Z) (username actor : string) : AM (DbResult unit) :=
  let username := normalize_username username in
  transaction "begin MFA reset" "commit MFA reset"
    (do? u <- delete_all username;
     do? u <- execute "delete recovery codes" (delete_recovery username);
     do? u <- execute "delete MFA factor" (delete_factor username);
     do? u <- audit_row "audit MFA reset" (Some actor) "mfa.reset" (user_target username) None now;
     lift (Ok (Commit tt))).

(** [WHERE username = ? AND security_epoch = ?] over [user_mfa]. *)
Definition epoch_stands (username : string) (expected_epoch : Z) (s : AccountTables.t) : bool :=
  match AccountTables.user_mfa s !! username with
  | Some row => MfaRow.security_epoch row =? expected_epoch
  | None => false
  end.

Definition same_browser (username binding : string) (g : GrantRow.t) : bool :=
  str_eqb (GrantRow.username g) username && str_eqb (GrantRow.session_binding g) binding.

Definition put_grant (g : GrantRow.t) (s : AccountTables.t) : AccountTables.t :=
  AccountTables.set_user_mfa_grants (<[GrantRow.id g := g]> (AccountTables.user_mfa_grants s)) s.

(** [INSERT .. SELECT]: no row when the epoch moved on, and an error when the
    id or the browser has a grant. *)
Definition insert_grant (g : GrantRow.t) (s : AccountTables.t) : option (Z * AccountTables.t) :=
  if negb (epoch_stands (GrantRow.username g) (GrantRow.security_epoch g) s) then Some (0, s)
  else if bool_decide (is_Some (AccountTables.user_mfa_grants s !! GrantRow.id g))
          || existsb (same_browser (GrantRow.username g) (GrantRow.session_binding g))
               (snd <$> map_to_list (AccountTables.user_mfa_grants s))
  then None
  else Some (1, put_grant g s).

(** With [ON CONFLICT(username, session_binding) DO UPDATE]: the grant of the
    browser is replaced, its id included. *)
Definition upsert_grant (g : GrantRow.t) (s : AccountTables.t) : option (Z * AccountTables.t) :=
  if negb (epoch_stands (GrantRow.username g) (GrantRow.security_epoch g) s) then Some (0, s)
  else
    let s' := (delete_grants (same_browser (GrantRow.username g) (GrantRow.session_binding g)) s).2 in
    if bool_decide (is_Some (AccountTables.user_mfa_grants s' !! GrantRow.id g)) then None else Some (1, put_grant g s').

Definition create_grant (id username token_hash binding : string) (factor_confirmed_at verified_at expires_at expected_epoch : Z)
    : AM (DbResult (option string)) :=
  let username := normalize_username username in
  do? inserted <- constrained ("create MFA device grant for " +:+ username)
    (insert_grant (GrantRow.mk id username token_hash binding factor_confirmed_at expected_epoch verified_at expires_at verified_at));
  lift (Ok (if inserted =? 1 then Some id else None)).

Definition fetch_valid (now : Z) (id : string) : AM (DbResult (option GrantRow.t)) :=
  query "fetch valid MFA device grant" (fun s =>
    g ← AccountTables.user_mfa_grants s !! id; if now <? GrantRow.expires_at g then Some g else None).

Definition revoke_all (now : Z) (username actor cause : string) : AM (DbResult Z) :=
  let username := normalize_username username in
  transaction "begin MFA grant revocation" "commit MFA grant revocation"
    (do? u <- execute "bump MFA security epoch" (bump_security_epoch username);
     do? changed <- statement "revoke all MFA device grants" (delete_grants (grant_of username));
     do? u <- (if 0 <? changed
               then audit_row "audit MFA device revocation" (Some actor) "mfa.trusted_device.revoke" (user_target username)
                      (Some (to_json [("cause", Some cause)])) now
               else lift (Ok tt));
     lift (Ok (Commit changed))).

Definition revoke_one (now : Z) (id username actor : string) : AM (DbResult bool) :=
  let username := normalize_username username in
  transaction "begin MFA grant revocation" "commit MFA grant revocation"
    (do? n <- statement "revoke one MFA device grant"
                (delete_grants (fun g => str_eqb (GrantRow.id g) id && str_eqb (GrantRow.username g) username));
     let changed := n =? 1 in
     do? u <- (if changed
               then audit_row "audit one MFA device revocation" (Some actor) "mfa.trusted_device.revoke" (user_target username)
                      (Some (to_json [("cause", Some "forget-device"); ("grant_id", Some id)])) now
               else lift (Ok tt));
     lift (Ok (Commit changed))).

(** The first statements of [issue]: is the epoch, locked, the expected one?
    SQLite takes the lock by an update that changes nothing. *)
Definition lock_epoch (username : string) (expected_epoch : Z) : AM (DbResult bool) :=
  match dialect with
  | Sqlite => query "lock+validate MFA epoch during issue" (epoch_stands username expected_epoch)
  | Postgres =>
    do? u <- query "lock parent user row during issue" (fun _ => tt);
    do? live_epoch <- query "lock MFA row during issue" (fun s => MfaRow.security_epoch <$> AccountTables.user_mfa s !! username);
    lift (Ok (bool_decide (live_epoch = Some expected_epoch)))
  end.

(** The body of [issue]'s transaction, for a normalized name. *)
Definition issue_tx (now : Z) (id username token_hash binding : string) (factor_confirmed_at verified_at expires_at expected_epoch : Z)
    (consume_recovery_id : option string) (consume_totp_step : option Z) (audit_action actor : string)
    : AM (DbResult (TxEnd (Result string IssueRefusal))) :=
  let refuse why : AM (DbResult (TxEnd (Result string IssueRefusal))) := lift (Ok (Dropped (Err why))) in
  do? epoch_ok <- lock_epoch username expected_epoch;
  if negb epoch_ok then refuse StaleEpoch
  else
    do? fresh <- match consume_totp_step with
                 | Some step => statement "consume TOTP step during issue" (use_step username step)
                 | None => lift (Ok 1)
                 end;
    if negb (fresh =? 1) then refuse Replayed
    else
      do? inserted <- constrained "issue MFA device grant"
        (upsert_grant (GrantRow.mk id username token_hash binding factor_confirmed_at expected_epoch verified_at expires_at verified_at));
      if negb (inserted =? 1) then refuse StaleEpoch
      else
        do? spent <- match consume_recovery_id with
                     | Some rid => statement "consume recovery code during issue"
                                     (use_recovery rid (fun r => str_eqb (RecoveryRow.username r) username) now)
                     | None => lift (Ok 1)
                     end;
        if negb (spent =? 1) then refuse RecoverySpent
        else
          do? n <- statement "sweep expired MFA grants"
                     (delete_grants (fun g => grant_of username g && (GrantRow.expires_at g <? now)));
          do? u <- audit_row "audit MFA proof" (Some actor) audit_action (user_target username) None now;
          lift (Ok (Commit (Ok id))).

Definition issue (now : Z) (id username token_hash binding : string) (factor_confirmed_at verified_at expires_at expected_epoch : Z)
    (consume_recovery_id : option string) (consume_totp_step : option Z) (audit_action actor : string)
    : AM (DbResult (Result string IssueRefusal)) :=
  let username := normalize_username username in
  transaction "begin MFA grant issue" "commit MFA grant issue"
    (issue_tx now id username token_hash binding factor_confirmed_at verified_at expires_at expected_epoch
       consume_recovery_id consume_totp_step audit_action actor).

(** ** What [issue] promises

    In one step: the proof is checked against the factor as it stands, spent,
    and paid with the one grant of this browser; or nothing happens. *)

Definition recovery_usable (username rid : string) (s : AccountTables.t) : bool :=
  match AccountTables.user_mfa_recovery s !! rid with
  | Some r => str_eqb (RecoveryRow.username r) username && RecoveryRow.unused r
  | None => false
  end.
Definition step_usable (username : string) (step : Z) (s : AccountTables.t) : bool :=
  match AccountTables.user_mfa s !! username with Some row => Factor.step_is_new step row | None => false end.

Definition spend_step (username : string) (step : option Z) (s : AccountTables.t) : AccountTables.t :=
  match step with Some k => (use_step username k s).2 | None => s end.
Definition spend_recovery (username : string) (rid : option string) (now : Z) (s : AccountTables.t) : AccountTables.t :=
  match rid with Some i => (use_recovery i (fun r => str_eqb (RecoveryRow.username r) username) now s).2 | None => s end.

Definition issue_spec (now : Z) (g : GrantRow.t) (rid : option string) (step : option Z) (audit : AuditRow.t) (s : AccountTables.t)
    : Result string IssueRefusal * AccountTables.t :=
  let u := GrantRow.username g in
  if negb (epoch_stands u (GrantRow.security_epoch g) s) then (Err StaleEpoch, s)
  else if negb (match step with Some k => step_usable u k s | None => true end) then (Err Replayed, s)
  else if negb (match rid with Some i => recovery_usable u i s | None => true end) then (Err RecoverySpent, s)
  else
    let s1 := spend_step u step s in
    let s2 := put_grant g (delete_grants (same_browser u (GrantRow.session_binding g)) s1).2 in
    let s3 := spend_recovery u rid now s2 in
    let s4 := (delete_grants (fun h => grant_of u h && (GrantRow.expires_at h <? now)) s3).2 in
    (Ok (GrantRow.id g), AccountTables.set_audit_log (AccountTables.audit_log s4 ++ [audit]) s4).

Lemma lock_epoch_inv u e db r db' :
  lock_epoch u e db = (r, db') ->
  ConfigDb.tables db' = ConfigDb.tables db /\ ((exists err, r = Err err) \/ r = Ok (epoch_stands u e (ConfigDb.tables db))).
Proof.
  unfold lock_epoch. destruct dialect.
  - intros [Ht [->| ->]]%query_inv; split; eauto.
  - intros [(x & db1 & [T1 _]%query_inv & [(l & db2 & Hq & [= <- <-])|(err & Hq & ->)]%try_bind_inv)|(err & Hq & ->)]%try_bind_inv;
      apply query_inv in Hq as [T2 Hr].
    + destruct Hr as [?|[= ->]]; [done|]. rewrite T2, T1. split; [done|]. right. f_equal. unfold epoch_stands.
      destruct (AccountTables.user_mfa (ConfigDb.tables db) !! u) as [row|]; cbn; [|done].
      destruct (Z.eqb_spec (MfaRow.security_epoch row) e) as [->|Hne]; [by apply bool_decide_eq_true|].
      apply bool_decide_eq_false. congruence.
    + rewrite T2, T1. split; [done|]. left. by eexists.
    + rewrite T2. split; [done|]. left. by eexists.
Qed.

Lemma use_step_count u k s : (use_step u k s).1 = if step_usable u k s then 1 else 0.
Proof.
  unfold use_step, step_usable, alter_factor. destruct (AccountTables.user_mfa s !! u) as [row|]; [|done].
  by destruct (Factor.step_is_new k row).
Qed.

Lemma use_recovery_count u i now s :
  (use_recovery i (fun r => str_eqb (RecoveryRow.username r) u) now s).1 = if recovery_usable u i s then 1 else 0.
Proof.
  unfold use_recovery, recovery_usable. destruct (AccountTables.user_mfa_recovery s !! i) as [r|]; [|done]. by destruct (_ && _).
Qed.

Lemma epoch_stands_use_step u e k s : epoch_stands u e (use_step u k s).2 = epoch_stands u e s.
Proof.
  unfold epoch_stands, use_step. destruct (alter_factor_inv u (Factor.step_is_new k) (Factor.set_last_used_step k) s)
    as [->|(row & Hr & _ & ->)]; [done|]. cbn. by rewrite lookup_insert_eq, Hr.
Qed.

Definition issued_grant (id username token_hash binding : string) (factor_confirmed_at verified_at expires_at expected_epoch : Z) : GrantRow.t :=
  GrantRow.mk id (normalize_username username) token_hash binding factor_confirmed_at expected_epoch verified_at expires_at verified_at.
Definition issue_audit (now : Z) (username audit_action actor : string) : AuditRow.t :=
  AuditRow.mk (Some actor) audit_action (Some (user_target (normalize_username username))) None now.

Definition ends_as (spec : Result string IssueRefusal * AccountTables.t) (x : TxEnd (Result string IssueRefusal)) (s : AccountTables.t) : Prop :=
  match spec.1 with Ok i => x = Commit (Ok i) /\ s = spec.2 | Err why => x = Dropped (Err why) end.

Lemma upsert_grant_count g s n s' :
  epoch_stands (GrantRow.username g) (GrantRow.security_epoch g) s = true -> upsert_grant g s = Some (n, s') ->
  n = 1 /\ s' = put_grant g (delete_grants (same_browser (GrantRow.username g) (GrantRow.session_binding g)) s).2.
Proof. unfold upsert_grant. intros ->. cbn [negb]. destruct (bool_decide _); [done|]. by intros [= <- <-]. Qed.

Lemma recovery_usable_put_grant u i g s : recovery_usable u i (put_grant g s) = recovery_usable u i s.
Proof. done. Qed.

Lemma issue_tx_inv now id u th b fc v e ep rid k aa actor db x db' :
  let g := GrantRow.mk id u th b fc ep v e v in
  let spec := issue_spec now g rid k (AuditRow.mk (Some actor) aa (Some (user_target u)) None now) (ConfigDb.tables db) in
  issue_tx now id u th b fc v e ep rid k aa actor db = (Ok x, db') -> ends_as spec x (ConfigDb.tables db').
Proof.
  intros g spec (ok & d1 & [T1 [[? ?]|[= ->]]]%lock_epoch_inv & Hb)%try_bind_Ok; [done|]. subst spec. unfold issue_spec. rewrite <- T1 in *.
  cbn [g GrantRow.username GrantRow.security_epoch GrantRow.session_binding GrantRow.id].
  destruct (epoch_stands u ep (ConfigDb.tables d1)) eqn:He; cbn [negb] in *; [|by apply lift_Ok in Hb as [[= <-] _]].
  apply try_bind_Ok in Hb as (fresh & d2 & Hk & Hb).
  assert (fresh = (if match k with Some k => step_usable u k (ConfigDb.tables d1) | None => true end then 1 else 0)
          /\ ConfigDb.tables d2 = spend_step u k (ConfigDb.tables d1)) as [-> T2].
  { destruct k as [k|]; [apply statement_inv in Hk as [[? ?]|[[= ->] ?]]; [done|]; by rewrite use_step_count|].
    by apply lift_Ok in Hk as [[= <-] ->]. }
  destruct (match k with Some k => _ | None => true end); cbn [negb Z.eqb Pos.eqb] in *; [|by apply lift_Ok in Hb as [[= <-] _]].
  apply try_bind_Ok in Hb as (inserted & d3 & [[? ?]|(n & [= <-] & Hg)]%constrained_inv & Hb); [done|].
  apply upsert_grant_count in Hg as [-> T3];
    [|cbn; rewrite T2; destruct k as [k|]; cbn [spend_step]; by rewrite ?epoch_stands_use_step].
  cbn [negb Z.eqb Pos.eqb] in Hb. apply try_bind_Ok in Hb as (spent & d4 & Hr & Hb). rewrite T2 in T3.
  assert (forall i, recovery_usable u i (ConfigDb.tables d3) = recovery_usable u i (ConfigDb.tables d1)) as Hsame.
  { intros i. rewrite T3. unfold recovery_usable. destruct k as [k|]; cbn [spend_step]; [|done]. cbn.
    unfold use_step. by destruct (alter_factor_others u (Factor.step_is_new k) (Factor.set_last_used_step k) (ConfigDb.tables d1)) as (_ & -> & _). }
  assert (spent = (if match rid with Some i => recovery_usable u i (ConfigDb.tables d1) | None => true end then 1 else 0)
          /\ ConfigDb.tables d4 = spend_recovery u rid now (ConfigDb.tables d3)) as [-> T4].
  { destruct rid as [i|]; [apply statement_inv in Hr as [[? ?]|[[= ->] ?]]; [done|]; by rewrite use_recovery_count, Hsame|].
    by apply lift_Ok in Hr as [[= <-] ->]. }
  destruct (match rid with Some i => _ | None => true end); cbn [negb Z.eqb Pos.eqb] in *; [|by apply lift_Ok in Hb as [[= <-] _]].
  apply try_bind_Ok in Hb as (n & d5 & [[? ?]|[_ T5]]%statement_inv & Hb); [done|].
  apply try_bind_Ok in Hb as (w & d6 & T6%execute_Ok & [[= <-] ->]%lift_Ok).
  split; [done|]. cbn [fst snd]. rewrite T6, T5, T4, T3. done.
Qed.

(** Whatever statement fails, [issue] does all of [issue_spec] or nothing. *)
Lemma issue_inv now id u th b fc v e ep rid k aa actor db r db' :
  let g := issued_grant id u th b fc v e ep in
  let spec := issue_spec now g rid k (issue_audit now u aa actor) (ConfigDb.tables db) in
  issue now id u th b fc v e ep rid k aa actor db = (r, db') ->
  (exists err, r = Err err /\ ConfigDb.tables db' = ConfigDb.tables db) \/ (r = Ok spec.1 /\ ConfigDb.tables db' = spec.2).
Proof.
  intros g spec [He|(a & db1 & db2 & -> & Ht & Hb)]%transaction_outcome; [by left|]. right.
  assert (forall why s, spec = (Err why, s) -> s = ConfigDb.tables db) as Hrefused.
  { subst spec. unfold issue_spec. intros why s. repeat case_match; by intros [= _ <-]. }
  destruct Hb as [[Hb ->]|[Hb ->]]; apply issue_tx_inv in Hb; rewrite Ht in Hb.
  - change (ends_as spec (Commit a) (ConfigDb.tables db2)) in Hb. destruct spec as [[i|why] s']; [|done].
    by destruct Hb as [[= ->] ->].
  - change (ends_as spec (Dropped a) (ConfigDb.tables db2)) in Hb. destruct spec as [[i|why] s'] eqn:Es; [by destruct Hb|].
    injection Hb as ->. by rewrite (Hrefused why s').
Qed.

Lemma try_healthy {A B} (m : AM (DbResult A)) (k : A -> AM (DbResult B)) db a db' :
  m db = (Ok a, db') -> try_bind m k db = k a db'.
Proof. unfold try_bind, st_bind. by intros ->. Qed.

Lemma lock_epoch_healthy u e s : lock_epoch u e (ConfigDb.mk s []) = (Ok (epoch_stands u e s), ConfigDb.mk s []).
Proof.
  destruct (lock_epoch u e (ConfigDb.mk s [])) as [r db'] eqn:E. pose proof E as E'. apply lock_epoch_inv in E as [Ht Hr].
  unfold lock_epoch in E'. destruct dialect; [by injection E' as <- <-|].
  unfold try_bind, st_bind in E'. cbn in E'. injection E' as <- <-. cbn in *. destruct Hr as [[? ?]|Hr]; [done|].
  by rewrite Hr.
Qed.

(** On a database whose statements succeed, and with a fresh id, it does. *)
Lemma issue_healthy now id u th b fc v e ep rid k aa actor s :
  AccountTables.user_mfa_grants s !! id = None ->
  let spec := issue_spec now (issued_grant id u th b fc v e ep) rid k (issue_audit now u aa actor) s in
  issue now id u th b fc v e ep rid k aa actor (ConfigDb.mk s []) = (Ok spec.1, ConfigDb.mk spec.2 []).
Proof.
  intros Hid spec. unfold issue.
  enough (exists x s', issue_tx now id (normalize_username u) th b fc v e ep rid k aa actor (ConfigDb.mk s []) = (Ok x, ConfigDb.mk s' [])
            /\ (forall y, x = Dropped y -> spec.2 = s)) as (x & s' & E & Hd).
  { rewrite (transaction_healthy _ _ _ _ _ _ E). apply issue_tx_inv in E. change (ends_as spec x s') in E. unfold ends_as in E.
    destruct spec as [[i|why] s'']; [by destruct E as [-> ->]|]. cbn in E. subst x. by rewrite <- (Hd _ eq_refl). }
  unfold issue_tx. rewrite (try_healthy _ _ _ _ _ (lock_epoch_healthy _ _ _)). subst spec. unfold issue_spec, issued_grant.
  cbn [GrantRow.username GrantRow.security_epoch GrantRow.session_binding GrantRow.id].
  destruct (epoch_stands (normalize_username u) ep s) eqn:He; cbn [negb]; [|by eexists _, s].
  set (s1 := spend_step (normalize_username u) k s).
  assert ((match k with
           | Some step => statement "consume TOTP step during issue" (use_step (normalize_username u) step)
           | None => lift (Ok 1) end) (ConfigDb.mk s [])
          = (Ok (if match k with Some k => step_usable (normalize_username u) k s | None => true end then 1 else 0), ConfigDb.mk s1 [])) as Ek.
  { subst s1. destruct k as [k|]; [|done]. rewrite statement_no_faults, use_step_count. done. }
  rewrite (try_healthy _ _ _ _ _ Ek). destruct (match k with Some k => _ | None => true end); cbn [negb Z.eqb Pos.eqb]; [|by eexists _, _].
  set (g := GrantRow.mk id (normalize_username u) th b fc ep v e v).
  assert (epoch_stands (normalize_username u) ep s1 = true) as He1.
  { subst s1. destruct k as [k|]; cbn [spend_step]; by rewrite ?epoch_stands_use_step. }
  assert (AccountTables.user_mfa_grants s1 = AccountTables.user_mfa_grants s
          /\ AccountTables.user_mfa_recovery s1 = AccountTables.user_mfa_recovery s) as [Hg Hrec].
  { subst s1. destruct k as [k|]; cbn [spend_step]; [|done]. unfold use_step.
    by destruct (alter_factor_others (normalize_username u) (Factor.step_is_new k) (Factor.set_last_used_step k) s) as (_ & -> & ->). }
  set (s2 := put_grant g (delete_grants (same_browser (normalize_username u) b) s1).2).
  assert (upsert_grant g s1 = Some (1, s2)) as Eg.
  { unfold upsert_grant. cbn [g GrantRow.username GrantRow.security_epoch GrantRow.session_binding GrantRow.id]. rewrite He1. cbn [negb].
    rewrite bool_decide_false; [done|]. apply eq_None_not_Some, map_lookup_filter_None. left. by rewrite Hg. }
  assert (constrained "issue MFA device grant" (upsert_grant g) (ConfigDb.mk s1 []) = (Ok 1, ConfigDb.mk s2 [])) as Eg'.
  { by rewrite constrained_healthy, Eg. }
  rewrite (try_healthy _ _ _ _ _ Eg'). cbn [negb Z.eqb Pos.eqb].
  assert (forall i, recovery_usable (normalize_username u) i s2 = recovery_usable (normalize_username u) i s) as Hsame.
  { intros i. unfold recovery_usable. cbn. by rewrite Hrec. }
  set (s3 := spend_recovery (normalize_username u) rid now s2).
  assert ((match rid with
           | Some i => statement "consume recovery code during issue"
                         (use_recovery i (fun r => str_eqb (RecoveryRow.username r) (normalize_username u)) now)
           | None => lift (Ok 1) end) (ConfigDb.mk s2 [])
          = (Ok (if match rid with Some i => recovery_usable (normalize_username u) i s | None => true end then 1 else 0),
             ConfigDb.mk s3 [])) as Er.
  { subst s3. destruct rid as [i|]; [|done]. rewrite statement_no_faults, use_recovery_count, Hsame. done. }
  rewrite (try_healthy _ _ _ _ _ Er). destruct (match rid with Some i => _ | None => true end); cbn [negb Z.eqb Pos.eqb]; [|by eexists _, _].
  eexists _, _. by split.
Qed.

(** Issuing a grant is all or nothing: whichever statement fails, the
    call either fails and changes nothing, or does exactly what [issue_spec]
    says in one step, which includes changing nothing when it refuses; on a
    database that answers, and with a fresh id, it does the latter. *)
Theorem issue_all_or_nothing now id u th b fc v e ep rid k aa actor db r db' :
  let spec := issue_spec now (issued_grant id u th b fc v e ep) rid k (issue_audit now u aa actor) (ConfigDb.tables db) in
  issue now id u th b fc v e ep rid k aa actor db = (r, db') ->
  ((exists err, r = Err err /\ ConfigDb.tables db' = ConfigDb.tables db) \/ (r = Ok spec.1 /\ ConfigDb.tables db' = spec.2))
  /\ (ConfigDb.faults db = [] -> AccountTables.user_mfa_grants (ConfigDb.tables db) !! id = None ->
      r = Ok spec.1 /\ ConfigDb.tables db' = spec.2).
Proof.
  intros spec E. split; [by apply (issue_inv _ _ _ _ _ _ _ _ _ _ _ _ _ _ _ _ E)|].
  intros Hf Hid. destruct db as [s faults]. cbn in Hf. subst faults. rewrite (issue_healthy _ _ _ _ _ _ _ _ _ _ _ _ _ _ Hid) in E.
  by injection E as <- <-.
Qed.
End MfaStore.

(** ** Examples *)

Module MfaExamples.
Import AccountExamples.

Definition ana : Account.t := Account.mk "u1" "ana" "hash" "editor" false "lab" 1 1 None None None None.
Definition factor : MfaRow.t := MfaRow.mk "ana" "enc" "nonce" "ceremony" (Some 5) 1 5 (Some 40) 7.
Definition tables : AccountTables.t :=
  AccountTables.mk (<["ana" := ana]> ∅) (<["ana" := factor]> ∅) (<["c1" := RecoveryRow.mk "c1" "ana" "hash" None 5]> ∅) ∅ [].
Definition db (faults : list bool) : AccountDb := ConfigDb.mk tables faults.

(** A challenge of [ana] with a TOTP step or a recovery code. *)
Definition challenge (rid : option string) (step : option Z) (epoch : Z) (db : AccountDb) :=
  issue Sqlite 100 "g1" "Ana" "th" "browser" 5 100 1000 epoch rid step "mfa.verify" "ana" db.

Example challenges :
  ((challenge None (Some 41) 7 (db [])).1, (challenge None (Some 40) 7 (db [])).1, (challenge (Some "c1") None 7 (db [])).1,
   (challenge (Some "c1") None 6 (db [])).1, (challenge (Some "c2") None 7 (db [])).1)
  = (Ok (Ok "g1"), Ok (Err Replayed), Ok (Ok "g1"), Ok (Err StaleEpoch), Ok (Err RecoverySpent)).
Proof. vm_compute. reflexivity. Qed.

Lemma issue_all_or_nothing_witness :
  let failing := db [false; false; false; false; true] in
  AccountTables.user_mfa_recovery (ConfigDb.tables (challenge (Some "c1") None 7 failing).2) = AccountTables.user_mfa_recovery tables
  /\ (challenge (Some "c1") None 7 (db [])).1 = Ok (Ok "g1").
Proof.
  intros failing. split.
  - destruct (challenge (Some "c1") None 7 failing) as [r db'] eqn:E. pose proof E as E'. vm_compute in E'. injection E' as Er _.
    destruct (issue_all_or_nothing Sqlite 100 "g1" "Ana" "th" "browser" 5 100 1000 7 (Some "c1") None "mfa.verify" "ana" failing r db' E)
      as [[(err & _ & Ht)|[Hr _]] _]; cbn [snd].
    + rewrite Ht. reflexivity.
    + rewrite <- Er in Hr. discriminate.
  - destruct (challenge (Some "c1") None 7 (db [])) as [r db'] eqn:E.
    destruct (issue_all_or_nothing Sqlite 100 "g1" "Ana" "th" "browser" 5 100 1000 7 (Some "c1") None "mfa.verify" "ana" (db []) r db' E)
      as [_ Hok]. cbn [fst]. destruct (Hok eq_refl eq_refl) as [-> _]. vm_compute. reflexivity.
Defined.
End MfaExamples.
