(* ===== verification/AccountRuntime.v ===== *)
(** * AccountRuntime: every sequence of account and factor writes

    The writes of Users and MfaStore as operations on one database whose
    statements may fail, and what holds whatever sequence of them runs: an
    admin remains, the tables stay well formed, revoked trust stays revoked,
    codes are spent once.  A relation that every statement respects is
    respected by every operation ([Respects], [step_respects]). *)

From Stdlib Require Import Ascii String ZArith Lia.
From stdpp Require Import base tactics list gmap strings fin_maps numbers sorting.
From S2P Require Import Prelude Text Schema Auth Database SpecStore Accounts Users MfaStore.

Local Open Scope string_scope.
Local Open Scope list_scope.
Local Open Scope Z_scope.
Local Open Scope ruscker_scope.

(** The writes, with the time they read and the ids and salts they mint. *)
Inductive Op :=
  | Create (salt id : string) (now : Z) (username password : string) (role : Role.t) (must_change : bool) (groups : list string)
      (actor : option string)
  | SetPassword (salt : string) (now : Z) (username password : string) (must_change : bool) (actor : option string)
  | UpdateAccount (now : Z) (username : string) (update : AccountUpdate.t) (actor : option string)
  | SetRole (now : Z) (username : string) (role : Role.t) (actor : option string)
  | SetGroups (now : Z) (username : string) (groups : list string) (actor : option string)
  | UpdateProfile (now : Z) (username : string) (setor email celular actor : option string)
  | ClearMustChange (username : string)
  | DeleteUser (now : Z) (username : string) (actor : option string)
  | BeginEnrollment (now : Z) (username secret_enc nonce ceremony : string)
  | Confirm (now : Z) (username actor : string) (hashes : option (list (string * string))) (ceremony : string)
  | ReplaceCodes (now : Z) (username : string) (hashes : list (string * string))
  | Regenerate (now : Z) (username actor : string) (hashes : list (string * string)) (expected_generation : Z)
  | ConsumeCode (now : Z) (username code : string)
  | RecordStep (username : string) (step : Z)
  | Reset (now : Z) (username actor : string)
  | CreateGrant (id username token_hash binding : string) (factor_confirmed_at verified_at expires_at expected_epoch : Z)
  | RevokeAll (now : Z) (username actor cause : string)
  | RevokeOne (now : Z) (id username actor : string)
  | Issue (now : Z) (id username token_hash binding : string) (factor_confirmed_at verified_at expires_at expected_epoch : Z)
      (consume_recovery_id : option string) (consume_totp_step : option Z) (audit_action actor : string).

(** The time at which an operation confirms a factor, and the recovery-code
    ids it mints. *)
Definition confirm_time (o : Op) : option Z := match o with Confirm now _ _ _ _ => Some now | _ => None end.
Definition minted_codes (o : Op) : list string :=
  match o with
  | Confirm _ _ _ (Some hashes) _ | ReplaceCodes _ _ hashes | Regenerate _ _ _ hashes _ => hashes.*1
  | _ => []
  end.

Section AccountRuntime.
Context `{UnicodeCase} `{JsonObject} `{Argon2} `{MfaCrates} (dialect : Dialect).

Definition step (db : AccountDb) (o : Op) : AccountDb :=
  match o with
  | Create salt id now u p r m gs a => (create salt id now u p r m gs a db).2
  | SetPassword salt now u p m a => (set_password salt now u p m a db).2
  | UpdateAccount now u upd a => (update_account dialect now u upd a db).2
  | SetRole now u r a => (set_role dialect now u r a db).2
  | SetGroups now u gs a => (set_groups now u gs a db).2
  | UpdateProfile now u s e c a => (update_profile now u s e c a db).2
  | ClearMustChange u => (clear_must_change u db).2
  | DeleteUser now u a => (delete dialect now u a db).2
  | BeginEnrollment now u enc nonce ceremony => (begin_enrollment now u enc nonce ceremony db).2
  | Confirm now u a hs c => (confirm_with_recovery_codes now u a hs c db).2
  | ReplaceCodes now u hs => (replace_recovery_codes now u hs db).2
  | Regenerate now u a hs g => (regenerate_recovery_codes now u a hs g db).2
  | ConsumeCode now u c => (consume_recovery_code now u c db).2
  | RecordStep u k => (record_used_step u k db).2
  | Reset now u a => (reset now u a db).2
  | CreateGrant id u th b fc v e ep => (create_grant id u th b fc v e ep db).2
  | RevokeAll now u a c => (revoke_all now u a c db).2
  | RevokeOne now id u a => (revoke_one now id u a db).2
  | Issue now id u th b fc v e ep rid k aa a => (issue dialect now id u th b fc v e ep rid k aa a db).2
  end.

Definition run (db : AccountDb) (ops : list Op) : AccountDb := foldl step db ops.

(** ** Relations that every statement respects *)

(** A write of an account that leaves its name and role alone. *)
Definition harmless (f : Account.t -> Account.t) : Prop :=
  forall a, Account.username (f a) = Account.username a /\ Account.id (f a) = Account.id a /\ Account.role (f a) = Account.role a
    /\ (canonical_groups (Account.groups a) -> canonical_groups (Account.groups (f a))).
Definition gives_role (r : Role.t) (f : Account.t -> Account.t) : Prop :=
  forall a, Account.username (f a) = Account.username a /\ Account.id (f a) = Account.id a /\ Account.role (f a) = Role.as_str r
    /\ (canonical_groups (Account.groups a) -> canonical_groups (Account.groups (f a))).

(** [T]: the times at which factors are confirmed; [F]: the ids minted. *)
Record Respects (R : AccountTables.t -> AccountTables.t -> Prop) (T : Z -> Prop) (F : string -> Prop) : Prop := {
  rs_order : PreOrder R;
  rs_audit l s : R s (AccountTables.set_audit_log l s);
  rs_insert_user a r s s' : insert_user a s = Some (tt, s') -> Account.role a = Role.as_str r ->
    canonical_groups (Account.groups a) -> R s s';
  rs_alter u f s : harmless f -> R s (alter_user u (fun _ _ => true) f s).2;
  rs_role u r f s : gives_role r f -> R s (alter_user u (keeps_an_admin (Some r)) f s).2;
  rs_delete u s : R s (delete_where u (keeps_an_admin None) s).2;
  rs_bump u s : R s (bump_security_epoch u s);
  rs_delete_grants p s : R s (delete_grants p s).2;
  rs_delete_recovery u s : R s (delete_recovery u s);
  rs_delete_factor u s : R s (delete_factor u s);
  rs_upsert_factor u enc nonce ceremony now s n s' : upsert_factor u enc nonce ceremony now s = Some (n, s') -> R s s';
  rs_confirm u g now s : T now -> (forall row, g row = true -> Factor.pending row = true) ->
    R s (alter_factor u g (Factor.confirm now) s).2;
  rs_updated_at u g now s : R s (alter_factor u g (Factor.set_updated_at now) s).2;
  rs_use_step u k s : R s (use_step u k s).2;
  rs_insert_recovery id u h now s s' : F id -> insert_recovery id u h now s = Some (tt, s') -> R s s';
  rs_use_recovery id g now s : R s (use_recovery id g now s).2;
  rs_insert_grant g s n s' : insert_grant g s = Some (n, s') -> R s s';
  rs_upsert_grant g s n s' : upsert_grant g s = Some (n, s') -> R s s'
}.

Section Steps.
Context {R : AccountTables.t -> AccountTables.t -> Prop} {T : Z -> Prop} {F : string -> Prop} (HR : Respects R T F).
#[local] Instance respects_preorder : PreOrder R := rs_order _ _ _ HR.

Lemma respects_audit c actor action target diff now : preserves (on_tables R) (audit_row c actor action target diff now).
Proof using HR. apply preserves_execute; [apply _|]. intros s. apply HR. Qed.
#[local] Hint Resolve respects_audit : preserves.

Lemma respects_update c u guard f msg :
  (forall s, R s (alter_user u guard f s).2) -> preserves (on_tables R) (update_user c u guard f msg).
Proof using HR.
  intros Hf. unfold update_user, bail. preserves_auto. by apply preserves_statement; [apply _|].
Qed.

Lemma respects_delete_all u : preserves (on_tables R) (delete_all u).
Proof using HR.
  unfold delete_all. preserves_auto; [apply preserves_execute; [apply _|]|apply preserves_statement; [apply _|]]; intros s; apply HR.
Qed.

Lemma respects_hashed salt p : preserves (on_tables R) (hashed salt p).
Proof using HR. apply preserves_result. apply _. Qed.

Lemma respects_lock : preserves (on_tables R) (admin_mutation_lock dialect).
Proof using HR. unfold admin_mutation_lock. preserves_auto. Qed.
#[local] Hint Resolve respects_delete_all respects_hashed respects_lock : preserves.

Lemma respects_replace_codes dc ic u now hs :
  (forall id, id ∈ hs.*1 -> F id) -> preserves (on_tables R) (replace_codes dc ic u now hs).
Proof using HR.
  intros Hf. unfold replace_codes. preserves_auto.
  - apply preserves_execute; [apply _|]. intros s. apply HR.
  - induction hs as [|[id h] hs IH]; cbn [insert_codes]; preserves_auto.
    + apply preserves_constrained; [apply _|]. intros s [] s' E. eapply (rs_insert_recovery _ _ _ HR); [|exact E].
      apply Hf. cbn. set_solver.
    + apply IH. intros i Hi. apply Hf. cbn. set_solver.
Qed.
#[local] Ltac statements :=
  first [ apply preserves_execute; [apply _|] | apply preserves_statement; [apply _|] | apply preserves_constrained; [apply _|] ].
#[local] Ltac respects :=
  cbv zeta; tables_auto;
  try (first [apply respects_update | statements]; intros; first [by apply HR | by eapply HR]).

Lemma harmless_groups gs now : canonical_groups gs -> harmless (Account.set_groups gs now).
Proof. by intros ? a. Qed.
Lemma gives_set_role r now : gives_role r (Account.set_role (Role.as_str r) now).
Proof. done. Qed.

Lemma respects_create salt id now u p r m gs a : preserves (on_tables R) (create salt id now u p r m gs a).
Proof using HR.
  unfold create. cbv zeta. tables_auto.
  - apply preserves_constrained; [apply _|]. intros s [] s' E. eapply (rs_insert_user _ _ _ HR); [exact E|done|apply join_groups_canonical].
Qed.

Definition op_ok (o : Op) : Prop :=
  (forall t, confirm_time o = Some t -> T t) /\ (forall id, id ∈ minted_codes o -> F id).

Lemma step_respects o db : op_ok o -> on_tables R db (step db o).
Proof using HR.
  intros [Ht Hf].
  destruct o; cbn [step];
    match goal with |- on_tables _ _ (?m _).2 => enough (preserves (on_tables R) m) as Hp by apply Hp end;
    [apply respects_create|..];
    unfold set_password, update_account, set_role, set_groups, update_profile, clear_must_change, delete, begin_enrollment,
      confirm_with_recovery_codes, replace_recovery_codes, regenerate_recovery_codes, consume_recovery_code, record_used_step,
      reset, create_grant, revoke_all, revoke_one, issue, issue_tx, lock_epoch; respects.
  - apply respects_update. intros s. apply (rs_role _ _ _ HR). intros a0. split_and!; try done. intros _. apply join_groups_canonical.
  - apply respects_update. intros s. apply (rs_alter _ _ _ HR), harmless_groups, join_groups_canonical.
  - apply preserves_result, _.
  - statements. intros s x s' E. by eapply (rs_upsert_factor _ _ _ HR).
  - statements. intros s. apply (rs_confirm _ _ _ HR); [by apply Ht|]. intros row Hg. by bool_split.
  - by apply respects_replace_codes.
  - by apply respects_replace_codes.
  - by apply respects_replace_codes.
  - statements. intros s x s' E. by eapply (rs_insert_grant _ _ _ HR).
  - statements. intros s x s' E. by eapply (rs_upsert_grant _ _ _ HR).
Qed.

Lemma run_respects ops db : Forall op_ok ops -> on_tables R db (run db ops).
Proof using HR.
  revert db; induction ops as [|o ops IH]; intros db Hok; cbn; [reflexivity|]. inv Hok.
  etransitivity; [by apply step_respects|by apply IH].
Qed.
End Steps.

(** ** An admin remains *)

#[local] Ltac by_cases :=
  unfold bump_security_epoch, delete_grants, delete_recovery, delete_factor, use_step, use_recovery, alter_factor, upsert_factor,
    insert_recovery, insert_grant, upsert_grant, put_grant, alter_factor, delete_user in *;
  repeat case_match; simplify_eq/=; try done.

Definition keeps_admin (s s' : AccountTables.t) : Prop := has_admin s -> has_admin s'.

Lemma keeps_admin_same s s' : AccountTables.users s' = AccountTables.users s -> keeps_admin s s'.
Proof. unfold keeps_admin, has_admin. by intros ->. Qed.

(** The accounts other than [u] keep an admin there. *)
Lemma keeps_admin_other u s s' :
  (forall v, v <> u -> AccountTables.users s' !! v = AccountTables.users s !! v) ->
  (exists v a, v <> u /\ AccountTables.users s !! v = Some a /\ Account.is_admin a = true) -> has_admin s'.
Proof. intros Hs (v & a & Hne & Hv & Ha). exists v, a. by rewrite Hs. Qed.

Lemma keeps_admin_alter u f s s' a :
  AccountTables.users s !! u = Some a -> AccountTables.users s' = <[u := f a]> (AccountTables.users s) ->
  (Account.is_admin a = true -> Account.is_admin (f a) = true \/ 1 < count_where Account.is_admin s) -> keeps_admin s s'.
Proof.
  intros Hu Hs' Hg (v & b & Hv & Hb). destruct (decide (v = u)) as [->|Hne].
  - rewrite Hu in Hv. injection Hv as <-. destruct (Hg Hb) as [Hf|Hc].
    + exists u, (f a). by rewrite Hs', lookup_insert_eq.
    + apply (keeps_admin_other u s s'); [|by apply count_admins_other]. intros w Hw. by rewrite Hs', lookup_insert_ne.
  - exists v, b. by rewrite Hs', lookup_insert_ne.
Qed.

Lemma respects_admin : Respects keeps_admin (fun _ => True) (fun _ => True).
Proof.
  split; intros; try (apply keeps_admin_same; by_cases; fail).
  - split; unfold keeps_admin; [by intros s|by intros s1 s2 s3; auto].
  - match goal with Hi : insert_user _ _ = _ |- _ => apply insert_user_inv in Hi as (Hnone & _ & ->) end.
    intros (v & b & Hv & Hb). exists v, b. cbn. rewrite lookup_insert_ne; [done|congruence].
  - destruct (alter_user_inv u (fun _ _ => true) f s) as [->|(a & Hu & _ & ->)]; [by apply keeps_admin_same|].
    eapply keeps_admin_alter; [done|reflexivity|]. intros Ha. left. unfold Account.is_admin in *.
    match goal with Hf : harmless f |- _ => by destruct (Hf a) as (_ & _ & -> & _) end.
  - destruct (alter_user_inv u (keeps_an_admin (Some r)) f s) as [->|(a & Hu & Hg & ->)]; [by apply keeps_admin_same|].
    eapply keeps_admin_alter; [done|reflexivity|]. intros Ha.
    apply keeps_an_admin_true in Hg as [Hg|[(r' & [= <-] & Hr)|Hg]]; [congruence| |by right].
    left. unfold Account.is_admin. match goal with Hf : gives_role r f |- _ => destruct (Hf a) as (_ & _ & -> & _) end. by rewrite Hr.
  - destruct (delete_where_inv u (keeps_an_admin None) s) as [->|(a & Hu & Hg & ->)]; [by apply keeps_admin_same|].
    intros (v & b & Hv & Hb). destruct (decide (v = u)) as [->|Hne].
    + rewrite Hu in Hv. injection Hv as <-. apply keeps_an_admin_true in Hg as [Hg|[(r' & [=] & _)|Hg]]; [congruence|].
      apply (keeps_admin_other u s); [|by apply count_admins_other]. intros w Hw. cbn. by rewrite lookup_delete_ne.
    + exists v, b. cbn. by rewrite lookup_delete_ne.
Qed.

(** ** The tables stay well formed *)

Definition keyed {A} (key : A -> string) (m : gmap string A) : Prop := map_Forall (fun k x => key x = k) m.
Definition refers {A B} (owner : A -> string) (m : gmap string A) (parents : gmap string B) : Prop :=
  map_Forall (fun _ x => is_Some (parents !! owner x)) m.

Definition unique_ids (m : gmap string Account.t) : Prop :=
  forall u v a b, m !! u = Some a -> m !! v = Some b -> Account.id a = Account.id b -> u = v.
Definition one_per_browser (m : gmap string GrantRow.t) : Prop :=
  forall i j g h, m !! i = Some g -> m !! j = Some h -> GrantRow.username g = GrantRow.username h ->
    GrantRow.session_binding g = GrantRow.session_binding h -> i = j.

(** Names are keys, ids are unique, roles and groups are as the code writes
    them, every row refers to an account, a browser has one grant. *)
Record tables_typed (s : AccountTables.t) : Prop := {
  ty_names : keyed Account.username (AccountTables.users s);
  ty_ids : unique_ids (AccountTables.users s);
  ty_accounts : map_Forall (fun _ a => account_typed a) (AccountTables.users s);
  ty_factors : keyed MfaRow.username (AccountTables.user_mfa s);
  ty_factor_users : refers MfaRow.username (AccountTables.user_mfa s) (AccountTables.users s);
  ty_codes : keyed RecoveryRow.id (AccountTables.user_mfa_recovery s);
  ty_code_users : refers RecoveryRow.username (AccountTables.user_mfa_recovery s) (AccountTables.users s);
  ty_grants : keyed GrantRow.id (AccountTables.user_mfa_grants s);
  ty_grant_users : refers GrantRow.username (AccountTables.user_mfa_grants s) (AccountTables.users s);
  ty_browsers : one_per_browser (AccountTables.user_mfa_grants s)
}.

Lemma tables_typed_empty : tables_typed AccountTables.empty.
Proof. split; cbn; try (apply map_Forall_empty); by intros ?. Qed.

Lemma refers_mono {A B} (owner : A -> string) m (p p' : gmap string B) :
  (forall k, is_Some (p !! k) -> is_Some (p' !! k)) -> refers owner m p -> refers owner m p'.
Proof. intros Hp Hm k x Hk. apply Hp. by apply (Hm k). Qed.

Lemma map_Forall_sub {A} (P : string -> A -> Prop) (m m' : gmap string A) :
  (forall k x, m' !! k = Some x -> m !! k = Some x) -> map_Forall P m -> map_Forall P m'.
Proof. intros Hs Hm k x Hk. by apply Hm, Hs. Qed.

Lemma one_per_browser_sub m m' :
  (forall k x, m' !! k = Some x -> m !! k = Some x) -> one_per_browser m -> one_per_browser m'.
Proof. intros Hs Hm i j g h Hi Hj. by apply Hm; apply Hs. Qed.

Lemma filter_sub {A} (P : string * A -> Prop) `{!forall x, Decision (P x)} (m : gmap string A) k x :
  filter P m !! k = Some x -> m !! k = Some x.
Proof. by intros [? _]%map_lookup_filter_Some. Qed.

Lemma delete_sub {A} (u : string) (m : gmap string A) k x : base.delete u m !! k = Some x -> m !! k = Some x.
Proof. by intros [_ ?]%lookup_delete_Some. Qed.

(** Replacing an account that stays typed. *)
Lemma typed_alter_user u a a' s :
  AccountTables.users s !! u = Some a -> Account.username a' = Account.username a -> Account.id a' = Account.id a ->
  (account_typed a -> account_typed a') -> tables_typed s ->
  tables_typed (AccountTables.set_users (<[u := a']> (AccountTables.users s)) s).
Proof.
  intros Hu Hn Hi Ht []. assert (forall k, is_Some (AccountTables.users s !! k) -> is_Some (<[u := a']> (AccountTables.users s) !! k)).
  { intros k Hk. destruct (decide (k = u)) as [->|]; [by rewrite lookup_insert_eq|by rewrite lookup_insert_ne]. }
  split; cbn; try done; try (eapply refers_mono; done).
  - apply map_Forall_insert_2; [|done]. rewrite Hn. by apply ty_names0.
  - assert (forall v b, <[u := a']> (AccountTables.users s) !! v = Some b ->
              exists c, AccountTables.users s !! v = Some c /\ Account.id c = Account.id b) as Hold.
    { intros v b. destruct (decide (v = u)) as [->|]; [rewrite lookup_insert_eq; intros [= <-]; by exists a|].
      rewrite lookup_insert_ne by done. by exists b. }
    intros v w b c (b' & Hb & Eb)%Hold (c' & Hc & Ec)%Hold E. eapply ty_ids0; [done..|congruence].
  - apply map_Forall_insert_2; [|done]. apply Ht. by apply (ty_accounts0 u).
Qed.

Lemma typed_factor u row s :
  MfaRow.username row = u -> is_Some (AccountTables.users s !! u) -> tables_typed s ->
  tables_typed (AccountTables.set_user_mfa (<[u := row]> (AccountTables.user_mfa s)) s).
Proof.
  intros Hn Hu []. split; cbn; try done.
  - by apply map_Forall_insert_2.
  - apply map_Forall_insert_2; [by rewrite Hn|done].
Qed.

Lemma typed_alter_factor u g f s :
  (forall row, MfaRow.username (f row) = MfaRow.username row) -> tables_typed s -> tables_typed (alter_factor u g f s).2.
Proof.
  intros Hf Ht. destruct (alter_factor_inv u g f s) as [->|(row & Hr & _ & ->)]; [done|].
  pose proof (ty_factors _ Ht u row Hr) as Hn. cbn in Hn.
  apply typed_factor; [by rewrite Hf| |done]. rewrite <- Hn at 1. by apply (ty_factor_users _ Ht u).
Qed.

Lemma typed_delete_grants p s : tables_typed s -> tables_typed (delete_grants p s).2.
Proof.
  intros []. split; cbn; try done; [..|by eapply one_per_browser_sub; [apply filter_sub|]];
    (eapply map_Forall_sub; [apply filter_sub|done]).
Qed.

Lemma typed_delete_recovery u s : tables_typed s -> tables_typed (delete_recovery u s).
Proof. intros []. split; cbn; try done; (eapply map_Forall_sub; [apply filter_sub|done]). Qed.

Lemma typed_delete_user u s : tables_typed s -> tables_typed (delete_user u s).
Proof.
  intros []. split; cbn.
  - by eapply map_Forall_sub; [apply delete_sub|].
  - intros v w a b Hv%delete_sub Hw%delete_sub. by eapply ty_ids0.
  - by eapply map_Forall_sub; [apply delete_sub|].
  - by eapply map_Forall_sub; [apply delete_sub|].
  - intros k row [Hne Hk]%lookup_delete_Some. pose proof (ty_factors0 k row Hk) as E. cbn in E.
    rewrite lookup_delete_ne by congruence. by apply (ty_factor_users0 k).
  - by eapply map_Forall_sub; [apply filter_sub|].
  - intros k r [Hk Hn]%map_lookup_filter_Some. cbn in Hn. apply str_eqb_neq in Hn.
    rewrite lookup_delete_ne by congruence. by apply (ty_code_users0 k).
  - by eapply map_Forall_sub; [apply filter_sub|].
  - intros k g [Hk Hn]%map_lookup_filter_Some. cbn in Hn. apply str_eqb_neq in Hn.
    rewrite lookup_delete_ne by congruence. by apply (ty_grant_users0 k).
  - by eapply one_per_browser_sub; [apply filter_sub|].
Qed.

(** A grant for a factor that stands, in a browser that has none. *)
Lemma typed_put_grant g s :
  epoch_stands (GrantRow.username g) (GrantRow.security_epoch g) s = true ->
  (forall i h, AccountTables.user_mfa_grants s !! i = Some h -> same_browser (GrantRow.username g) (GrantRow.session_binding g) h = false) ->
  tables_typed s -> tables_typed (put_grant g s).
Proof.
  intros He Hb Ht. unfold epoch_stands in He. destruct (AccountTables.user_mfa s !! GrantRow.username g) as [row|] eqn:Er; [|done].
  assert (is_Some (AccountTables.users s !! GrantRow.username g)) as Hu.
  { pose proof (ty_factors _ Ht _ _ Er) as E. cbn in E. rewrite <- E. by apply (ty_factor_users _ Ht _ _ Er). }
  destruct Ht. split; cbn; try done; [by apply map_Forall_insert_2..|].
  assert (forall i h, AccountTables.user_mfa_grants s !! i = Some h -> GrantRow.username h = GrantRow.username g ->
            GrantRow.session_binding h = GrantRow.session_binding g -> False) as Hno.
  { intros i h Hi Hn Hs. specialize (Hb i h Hi). unfold same_browser in Hb. by rewrite Hn, Hs, !str_eqb_refl in Hb. }
  intros i j h k Hi Hj Hn Hs. destruct (decide (i = GrantRow.id g)) as [->|Hi'], (decide (j = GrantRow.id g)) as [->|Hj']; [done|..].
  - rewrite lookup_insert_eq in Hi. rewrite lookup_insert_ne in Hj by done. injection Hi as <-. by exfalso; eapply Hno.
  - rewrite lookup_insert_eq in Hj. rewrite lookup_insert_ne in Hi by done. injection Hj as <-. by exfalso; eapply Hno.
  - rewrite lookup_insert_ne in Hi, Hj by done. by eapply ty_browsers0.
Qed.

Lemma same_browser_gone u b s i h :
  AccountTables.user_mfa_grants (delete_grants (same_browser u b) s).2 !! i = Some h -> same_browser u b h = false.
Proof. by intros [_ ?]%map_lookup_filter_Some. Qed.

Lemma insert_grant_inv g s n s' :
  insert_grant g s = Some (n, s') ->
  (s' = s /\ n = 0)
  \/ (n = 1 /\ epoch_stands (GrantRow.username g) (GrantRow.security_epoch g) s = true /\ s' = put_grant g s
      /\ forall i h, AccountTables.user_mfa_grants s !! i = Some h -> same_browser (GrantRow.username g) (GrantRow.session_binding g) h = false).
Proof.
  unfold insert_grant. destruct (epoch_stands _ _ s) eqn:Ee; cbn [negb]; [|intros [= <- <-]; by left].
  destruct (_ || _) eqn:E; [done|]. intros [= <- <-]. right. split_and!; try done. intros i h Hi.
  apply orb_false_iff in E as [_ E]. destruct (same_browser _ _ h) eqn:Es; [|done].
  assert (existsb (same_browser (GrantRow.username g) (GrantRow.session_binding g))
            (snd <$> map_to_list (AccountTables.user_mfa_grants s)) = true) as Ht; [|congruence].
  apply existsb_elem. exists h. split; [|done]. apply list_elem_of_fmap. exists (i, h). by rewrite elem_of_map_to_list.
Qed.

Lemma upsert_grant_inv g s n s' :
  upsert_grant g s = Some (n, s') ->
  (s' = s /\ n = 0)
  \/ (n = 1 /\ epoch_stands (GrantRow.username g) (GrantRow.security_epoch g) s = true
      /\ s' = put_grant g (delete_grants (same_browser (GrantRow.username g) (GrantRow.session_binding g)) s).2).
Proof.
  unfold upsert_grant. destruct (epoch_stands _ _ s) eqn:Ee; cbn [negb]; [|intros [= <- <-]; by left].
  destruct (bool_decide _); [done|]. intros [= <- <-]. by right.
Qed.

Lemma upsert_factor_inv u enc nonce ceremony now s n s' :
  upsert_factor u enc nonce ceremony now s = Some (n, s') ->
  s' = (alter_factor u Factor.pending (Factor.restart enc nonce ceremony now) s).2
  \/ (AccountTables.user_mfa s !! u = None /\ is_Some (AccountTables.users s !! u)
      /\ s' = AccountTables.set_user_mfa
                 (<[u := MfaRow.mk u enc nonce ceremony None now now None 0]> (AccountTables.user_mfa s)) s).
Proof.
  unfold upsert_factor. destruct (AccountTables.user_mfa s !! u); [intros [= E]; left; by rewrite E|].
  destruct (AccountTables.users s !! u) eqn:Eu; [|done]. intros [= <- <-]. right. by split_and!; [|eexists|].
Qed.

Lemma insert_recovery_inv id u h now s s' :
  insert_recovery id u h now s = Some (tt, s') ->
  AccountTables.user_mfa_recovery s !! id = None /\ is_Some (AccountTables.users s !! u)
  /\ s' = AccountTables.set_user_mfa_recovery (<[id := RecoveryRow.mk id u h None now]> (AccountTables.user_mfa_recovery s)) s.
Proof.
  unfold insert_recovery. destruct (AccountTables.user_mfa_recovery s !! id) eqn:Er; [done|].
  destruct (AccountTables.users s !! u) eqn:Eu; [|done]. intros [= <-]. by split_and!; [|eexists|].
Qed.

Lemma use_recovery_inv id g now s :
  (use_recovery id g now s).2 = s
  \/ exists r, AccountTables.user_mfa_recovery s !! id = Some r
       /\ (use_recovery id g now s).2
          = AccountTables.set_user_mfa_recovery (<[id := RecoveryRow.use now r]> (AccountTables.user_mfa_recovery s)) s.
Proof.
  unfold use_recovery. destruct (AccountTables.user_mfa_recovery s !! id) as [r|]; [|by left].
  destruct (_ && _); [right; by exists r|by left].
Qed.

Definition keeps_typed (s s' : AccountTables.t) : Prop := tables_typed s -> tables_typed s'.

Lemma respects_typed : Respects keeps_typed (fun _ => True) (fun _ => True).
Proof.
  split; intros.
  - split; unfold keeps_typed; [by intros s|by intros s1 s2 s3; auto].
  - by intros [].
  - match goal with Hi : insert_user _ _ = _ |- _ => apply insert_user_inv in Hi as (Hnone & Hids & ->) end.
    intros []. split; cbn; try done.
    + by apply map_Forall_insert_2.
    + assert (forall v b, AccountTables.users s !! v = Some b -> Account.id b <> Account.id a) as Hold.
      { intros v b Hv. apply Hids, accounts_elem. by exists v. }
      intros u v b c. destruct (decide (u = Account.username a)) as [->|], (decide (v = Account.username a)) as [->|]; [done|..];
        rewrite ?lookup_insert_eq; repeat (rewrite lookup_insert_ne by done).
      * intros [= <-] Hc E. by destruct (Hold v c Hc).
      * intros Hb [= <-] E. by destruct (Hold u b Hb).
      * apply ty_ids0.
    + apply map_Forall_insert_2; [by split; [exists r|]|done].
    + eapply refers_mono; [|exact ty_factor_users0]. intros k Hk. apply lookup_insert_is_Some'. by right.
    + eapply refers_mono; [|exact ty_code_users0]. intros k Hk. apply lookup_insert_is_Some'. by right.
    + eapply refers_mono; [|exact ty_grant_users0]. intros k Hk. apply lookup_insert_is_Some'. by right.
  - destruct (alter_user_inv u (fun _ _ => true) f s) as [->|(a & Hu & _ & ->)]; [by intros ?|].
    match goal with Hf : harmless f |- _ => destruct (Hf a) as (Hn & Hi & Hr & Hc) end.
    intros Ht. apply (typed_alter_user u a); try done. unfold account_typed. rewrite Hr. naive_solver.
  - destruct (alter_user_inv u (keeps_an_admin (Some r)) f s) as [->|(a & Hu & _ & ->)]; [by intros ?|].
    match goal with Hf : gives_role r f |- _ => destruct (Hf a) as (Hn & Hi & Hr & Hc) end.
    intros Ht. apply (typed_alter_user u a); try done. unfold account_typed. rewrite Hr. naive_solver.
  - destruct (delete_where_inv u (keeps_an_admin None) s) as [->|(a & _ & _ & ->)]; [by intros ?|]. intros Ht. by apply typed_delete_user.
  - intros Ht. by apply typed_alter_factor.
  - intros Ht. by apply typed_delete_grants.
  - intros Ht. by apply typed_delete_recovery.
  - intros []. split; cbn; try done; by eapply map_Forall_sub; [apply delete_sub|].
  - match goal with Hi : upsert_factor _ _ _ _ _ _ = _ |- _ => apply upsert_factor_inv in Hi as [->|(_ & Hu & ->)] end; intros Ht.
    + by apply typed_alter_factor.
    + by apply typed_factor.
  - intros Ht. by apply typed_alter_factor.
  - intros Ht. by apply typed_alter_factor.
  - intros Ht. by apply typed_alter_factor.
  - match goal with Hi : insert_recovery _ _ _ _ _ = _ |- _ => apply insert_recovery_inv in Hi as (_ & Hu & ->) end.
    intros []. split; cbn; try done; by apply map_Forall_insert_2.
  - destruct (use_recovery_inv id g now s) as [->|(r & Hr & ->)]; [by intros ?|].
    intros []. split; cbn; try done; (apply map_Forall_insert_2; [|done]); [by apply (ty_codes0 id r)|by apply (ty_code_users0 id r)].
  - match goal with Hi : insert_grant _ _ = _ |- _ => apply insert_grant_inv in Hi as [[-> _]|(_ & He & -> & Hb)] end; [by intros ?|].
    intros Ht. by apply typed_put_grant.
  - match goal with Hi : upsert_grant _ _ = _ |- _ => apply upsert_grant_inv in Hi as [[-> _]|(_ & He & ->)] end; [by intros ?|].
    intros Ht. apply typed_put_grant; [done| |by apply typed_delete_grants]. intros i h. apply same_browser_gone.
Qed.

(** ** Revoked trust stays revoked *)

(** The factor of [u], if confirmed, is past the generation
    ([c0], [e0]): confirmed later, or at epoch [e0] or beyond. *)
Definition past (u : string) (c0 e0 : Z) (s : AccountTables.t) : Prop :=
  forall row c, AccountTables.user_mfa s !! u = Some row -> MfaRow.confirmed_at row = Some c ->
    c0 < c \/ (c = c0 /\ e0 <= MfaRow.security_epoch row).
Definition keeps_past (u : string) (c0 e0 : Z) (s s' : AccountTables.t) : Prop := past u c0 e0 s -> past u c0 e0 s'.

Lemma past_same u c0 e0 s s' : AccountTables.user_mfa s' = AccountTables.user_mfa s -> keeps_past u c0 e0 s s'.
Proof. unfold keeps_past, past. by intros ->. Qed.

Lemma past_sub u c0 e0 s s' :
  (forall row, AccountTables.user_mfa s' !! u = Some row -> AccountTables.user_mfa s !! u = Some row) -> keeps_past u c0 e0 s s'.
Proof. intros Hs Hp row c Hr%Hs Hc. by eapply Hp. Qed.

Lemma past_alter u c0 e0 v g f s :
  (forall row c, g row = true -> MfaRow.confirmed_at (f row) = Some c ->
     c0 < c \/ (MfaRow.confirmed_at row = Some c /\ MfaRow.security_epoch row <= MfaRow.security_epoch (f row))) ->
  keeps_past u c0 e0 s (alter_factor v g f s).2.
Proof.
  intros Hf Hp. destruct (alter_factor_inv v g f s) as [->|(row & Hr & Hg & ->)]; [done|].
  intros row' c. cbn. destruct (decide (u = v)) as [->|Hne]; [|rewrite lookup_insert_ne by done; apply Hp].
  rewrite lookup_insert_eq. intros [= <-] Hc. destruct (Hf row c Hg Hc) as [?|[Hc' He]]; [by left|].
  destruct (Hp row c Hr Hc') as [?|[-> ?]]; [by left|right; split; [done|lia]].
Qed.

(** The bump moves the factor one generation further. *)
Lemma past_bump u c0 e0 s : past u c0 e0 s -> past u c0 (e0 + 1) (bump_security_epoch u s).
Proof.
  intros Hp. unfold bump_security_epoch.
  destruct (alter_factor_inv u (fun _ => true) bump_epoch s) as [E|(row & Hr & _ & ->)].
  - rewrite E. intros row c Hr. unfold alter_factor in E. rewrite Hr in E. cbn in E. apply (f_equal AccountTables.user_mfa) in E.
    cbn in E. rewrite <- E, lookup_insert_eq in Hr. injection Hr as Hr. apply (f_equal MfaRow.security_epoch) in Hr. cbn in Hr. lia.
  - intros row' c. cbn. rewrite lookup_insert_eq. intros [= <-] Hc. cbn in Hc.
    destruct (Hp row c Hr Hc) as [?|[-> ?]]; [by left|right; cbn; lia].
Qed.

Lemma respects_past u c0 e0 : Respects (keeps_past u c0 e0) (fun t => c0 < t) (fun _ => True).
Proof.
  split; intros; try (apply past_same; by_cases; fail).
  - split; unfold keeps_past; [by intros s|by intros s1 s2 s3; auto].
  - match goal with Hi : insert_user _ _ = _ |- _ => apply insert_user_inv in Hi as (_ & _ & ->) end. by apply past_same.
  - destruct (alter_user_inv u0 (fun _ _ => true) f s) as [->|(a & _ & _ & ->)]; by apply past_same.
  - destruct (alter_user_inv u0 (keeps_an_admin (Some r)) f s) as [->|(a & _ & _ & ->)]; by apply past_same.
  - destruct (delete_where_inv u0 (keeps_an_admin None) s) as [->|(a & _ & _ & ->)]; [by apply past_same|].
    apply past_sub. intros row. cbn. by intros [_ ?]%lookup_delete_Some.
  - apply past_alter. intros row c _ Hc. right. cbn in *. split; [done|lia].
  - apply past_sub. intros row. cbn. by intros [_ ?]%lookup_delete_Some.
  - match goal with Hi : upsert_factor _ _ _ _ _ _ = _ |- _ => apply upsert_factor_inv in Hi as [->|(Hn & _ & ->)] end.
    + by apply past_alter.
    + intros Hp row c. cbn. destruct (decide (u = u0)) as [->|Hne]; [|rewrite lookup_insert_ne by done; apply Hp].
      rewrite lookup_insert_eq. by intros [= <-].
  - apply past_alter. intros row c _ [= <-]. by left.
  - apply past_alter. intros row c _ Hc. right. cbn in *. split; [done|lia].
  - apply past_alter. intros row c _ Hc. right. cbn in *. split; [done|lia].
Qed.

(** An operation that revokes the trust given to [u], and succeeds. *)
Definition revocation (u : string) (db : AccountDb) (o : Op) : Prop :=
  match o with
  | SetPassword salt now v p m a => normalize_username v = u /\ (set_password salt now v p m a db).1 = Ok tt
  | RevokeAll now v a c => normalize_username v = u /\ exists n, (revoke_all now v a c db).1 = Ok n
  | Reset now v a => normalize_username v = u /\ (reset now v a db).1 = Ok tt
  | DeleteUser now v a => normalize_username v = u /\ (delete dialect now v a db).1 = Ok tt
  | _ => False
  end.

(** A program that succeeded after a step that moved the factor on. *)
Lemma after_step {A B} (P : AccountTables.t -> Prop) (m : AM (DbResult A)) (k : A -> AM (DbResult B)) db b db' :
  (forall a db1, m db = (Ok a, db1) -> P (ConfigDb.tables db1)) ->
  (forall a, preserves (on_tables (fun s s' => P s -> P s')) (k a)) ->
  try_bind m k db = (Ok b, db') -> P (ConfigDb.tables db').
Proof.
  intros Hm Hk (a & db1 & Ha & Hb)%try_bind_Ok. specialize (Hk a db1). rewrite Hb in Hk. by apply Hk, (Hm a db1).
Qed.

(** A program that succeeded, after a step that keeps [P]. *)
Lemma before_step {A B} (P Q : AccountTables.t -> Prop) (m : AM (DbResult A)) (k : A -> AM (DbResult B)) db b db' :
  preserves (on_tables (fun s s' => P s -> P s')) m -> P (ConfigDb.tables db) ->
  (forall a db1, P (ConfigDb.tables db1) -> k a db1 = (Ok b, db') -> Q (ConfigDb.tables db')) ->
  try_bind m k db = (Ok b, db') -> Q (ConfigDb.tables db').
Proof.
  intros Hm Hp Hk (a & db1 & Ha & Hb)%try_bind_Ok. apply (Hk a db1); [|done]. specialize (Hm db). rewrite Ha in Hm. by apply Hm.
Qed.

Lemma delete_all_past u c0 e0 db a db' :
  past u c0 e0 (ConfigDb.tables db) -> delete_all u db = (Ok a, db') -> past u c0 (e0 + 1) (ConfigDb.tables db').
Proof.
  intros Hp. unfold delete_all. apply after_step.
  - intros x db1 ->%execute_Ok. by apply past_bump.
  - intros _. pose proof (respects_past u c0 (e0 + 1)) as HR.
    change (fun s s' => past u c0 (e0 + 1) s -> past u c0 (e0 + 1) s') with (keeps_past u c0 (e0 + 1)).
    pose proof (rs_order _ _ _ HR). tables_auto. apply preserves_statement; [done|]. apply HR.
Qed.

Lemma transaction_reaches {A} (P Q : AccountTables.t -> Prop) b c (body : AM (DbResult (TxEnd A))) db a db' :
  (forall db1 x db2, P (ConfigDb.tables db1) -> body db1 = (Ok x, db2) -> x = Commit a -> Q (ConfigDb.tables db2)) ->
  (forall db1 x db2, body db1 = (Ok x, db2) -> x <> Dropped a) ->
  P (ConfigDb.tables db) -> transaction b c body db = (Ok a, db') -> Q (ConfigDb.tables db').
Proof.
  intros Hb Hd Hp (db1 & db2 & x & Ht & Ex & [->|Hx] & Hc)%transaction_Ok; [|by apply Hd in Ex].
  rewrite Hc by done. apply (Hb db1 _ _ ltac:(by rewrite Ht) Ex eq_refl).
Qed.

#[local] Ltac no_drop :=
  intros ? ? ? Hend; repeat (apply try_bind_Ok in Hend as (? & ? & _ & Hend)); by apply lift_Ok in Hend as [[= <-] _].

Lemma revocation_past u c0 e0 db o :
  past u c0 e0 (ConfigDb.tables db) -> revocation u db o -> past u c0 (e0 + 1) (ConfigDb.tables (step db o)).
Proof.
  intros Hp Ho. pose proof (respects_past u c0 e0) as HR. pose proof (respects_past u c0 (e0 + 1)) as HR'.
  pose proof (rs_order _ _ _ HR) as Ho1. pose proof (rs_order _ _ _ HR') as Ho2.
  destruct o; try done; cbn [revocation step] in *.
  - destruct Ho as [Hu Hok]. unfold set_password in *. rewrite Hu in *.
    destruct (try_bind _ _ db) as [r db'] eqn:E. cbn in Hok |- *. subst r.
    apply try_bind_Ok in E as (h & db1 & [_ ->]%lift_Ok & E). revert E.
    apply (transaction_reaches (past u c0 e0)); [|no_drop|done].
    intros db2 x db3 Hp2 E _. revert E.
    apply (before_step (past u c0 e0)); [by apply (respects_update HR); intros s; apply HR|done|].
    intros _ db4 Hp4. apply after_step; [intros a db5; by apply delete_all_past|].
    intros _. change (fun s s' => past u c0 (e0 + 1) s -> past u c0 (e0 + 1) s') with (keeps_past u c0 (e0 + 1)).
    tables_auto. by apply (respects_audit HR').
  - destruct Ho as [Hu Hok]. unfold delete in *. rewrite Hu in *. cbv zeta in *.
    destruct (transaction _ _ _ db) as [r db'] eqn:E. cbn in Hok |- *. subst r. revert E.
    apply (transaction_reaches (past u c0 e0)); [|no_drop|done].
    intros db2 x db3 Hp2 E _. revert E.
    apply (before_step (past u c0 e0)); [by apply (respects_lock HR)|done|].
    intros _ db4 Hp4 (n & db5 & [[? ?]|[Hn Ht]]%statement_inv & E)%try_bind_Ok; [done|].
    assert (past u c0 (e0 + 1) (ConfigDb.tables db5)) as Hp5.
    { rewrite Ht. unfold delete_where in *. destruct (AccountTables.users (ConfigDb.tables db4) !! u) as [a|];
        [destruct (keeps_an_admin None (ConfigDb.tables db4) a)|];
        [intros row c; cbn; by rewrite lookup_delete_eq|..]; injection Hn as ->;
        apply try_bind_Ok in E as (? & ? & [? _]%lift_Ok & _); done. }
    revert E. apply (before_step (past u c0 (e0 + 1))).
    + change (fun s s' => past u c0 (e0 + 1) s -> past u c0 (e0 + 1) s') with (keeps_past u c0 (e0 + 1)).
      unfold bail. tables_auto.
    + done.
    + intros _ db6 Hp6. apply (before_step (past u c0 (e0 + 1))); [by apply (respects_audit HR')|done|].
      by intros _ db7 Hp7 [_ <-]%lift_Ok.
  - destruct Ho as [Hu Hok]. unfold reset in *. rewrite Hu in *. cbv zeta in *.
    destruct (transaction _ _ _ db) as [r db'] eqn:E. cbn in Hok |- *. subst r. revert E.
    apply (transaction_reaches (past u c0 e0)); [|no_drop|done].
    intros db2 x db3 Hp2 E _. revert E. apply after_step; [intros a db5; by apply delete_all_past|].
    intros _. change (fun s s' => past u c0 (e0 + 1) s -> past u c0 (e0 + 1) s') with (keeps_past u c0 (e0 + 1)).
    tables_auto; [..|by apply (respects_audit HR')]; (apply preserves_execute; [done|]); intros s; apply HR'.
  - destruct Ho as [Hu [n Hok]]. unfold revoke_all in *. rewrite Hu in *. cbv zeta in *.
    destruct (transaction _ _ _ db) as [r db'] eqn:E. cbn in Hok |- *. subst r. revert E.
    apply (transaction_reaches (past u c0 e0)); [|no_drop|done].
    intros db2 x db3 Hp2 E _. revert E.
    apply after_step; [intros a db5 ->%execute_Ok; by apply past_bump|].
    intros _. change (fun s s' => past u c0 (e0 + 1) s -> past u c0 (e0 + 1) s') with (keeps_past u c0 (e0 + 1)).
    tables_auto; [apply preserves_statement; [done|]; intros s; apply HR'|by apply (respects_audit HR')].
Qed.

(** ** Codes are spent once *)

(** While [u] has the factor confirmed at [c0], its last step is at least
    [k]. *)
Definition step_spent (u : string) (c0 k : Z) (s : AccountTables.t) : Prop :=
  forall row, AccountTables.user_mfa s !! u = Some row -> MfaRow.confirmed_at row = Some c0 ->
    exists last, MfaRow.last_used_step row = Some last /\ k <= last.
Definition code_spent (rid : string) (s : AccountTables.t) : Prop :=
  forall r, AccountTables.user_mfa_recovery s !! rid = Some r -> RecoveryRow.used_at r <> None.

Lemma step_spent_same u c0 k s s' :
  AccountTables.user_mfa s' = AccountTables.user_mfa s -> step_spent u c0 k s -> step_spent u c0 k s'.
Proof. unfold step_spent. by intros ->. Qed.

Lemma step_spent_sub u c0 k s s' :
  (forall row, AccountTables.user_mfa s' !! u = Some row -> AccountTables.user_mfa s !! u = Some row) ->
  step_spent u c0 k s -> step_spent u c0 k s'.
Proof. intros Hs Hp row Hr%Hs Hc. by eapply Hp. Qed.

Lemma step_spent_alter u c0 k v g f s :
  (forall row, g row = true -> MfaRow.confirmed_at (f row) = Some c0 ->
     MfaRow.confirmed_at row = Some c0
     /\ forall last, MfaRow.last_used_step row = Some last -> exists last', MfaRow.last_used_step (f row) = Some last' /\ last <= last') ->
  step_spent u c0 k s -> step_spent u c0 k (alter_factor v g f s).2.
Proof.
  intros Hf Hp. destruct (alter_factor_inv v g f s) as [->|(row & Hr & Hg & ->)]; [done|].
  intros row'. cbn. destruct (decide (u = v)) as [->|Hne]; [|rewrite lookup_insert_ne by done; apply Hp].
  rewrite lookup_insert_eq. intros [= <-] Hc. destruct (Hf row Hg Hc) as [Hc' Hl].
  destruct (Hp row Hr Hc') as (last & Hlast & ?). destruct (Hl last Hlast) as (last' & Hlast' & ?). exists last'. split; [done|lia].
Qed.

Lemma respects_step_spent u c0 k :
  Respects (fun s s' => step_spent u c0 k s -> step_spent u c0 k s') (fun t => c0 < t) (fun _ => True).
Proof.
  split; intros *; try (intros; refine (step_spent_same _ _ _ _ _ _ _); [|eassumption]; by_cases; fail).
  - split; [by intros s|by intros s1 s2 s3; auto].
  - intros (_ & _ & ->)%insert_user_inv _ _. by apply step_spent_same.
  - intros _. destruct (alter_user_inv u0 (fun _ _ => true) f s) as [->|(a & _ & _ & ->)]; by apply step_spent_same.
  - intros _. destruct (alter_user_inv u0 (keeps_an_admin (Some r)) f s) as [->|(a & _ & _ & ->)]; by apply step_spent_same.
  - destruct (delete_where_inv u0 (keeps_an_admin None) s) as [->|(a & _ & _ & ->)]; [by apply step_spent_same|].
    apply step_spent_sub. intros row. cbn. by intros [_ ?]%lookup_delete_Some.
  - apply step_spent_alter. intros row _ Hc. split; [done|]. intros last Hl. exists last. by split.
  - apply step_spent_sub. intros row. cbn. by intros [_ ?]%lookup_delete_Some.
  - intros [->|(Hn & _ & ->)]%upsert_factor_inv; [by apply step_spent_alter|].
    intros Hp row. cbn. destruct (decide (u = u0)) as [->|Hne]; [|rewrite lookup_insert_ne by done; apply Hp].
    rewrite lookup_insert_eq. by intros [= <-].
  - intros Hnow _. apply step_spent_alter. intros row _ [= ->]. lia.
  - apply step_spent_alter. intros row _ Hc. split; [done|]. intros last Hl. exists last. by split.
  - apply step_spent_alter. intros row Hg Hc. split; [done|]. intros last Hl. exists k0. split; [done|].
    unfold Factor.step_is_new in Hg. rewrite Hl in Hg. lia.
Qed.

Lemma code_spent_sub rid s s' :
  (forall r, AccountTables.user_mfa_recovery s' !! rid = Some r -> AccountTables.user_mfa_recovery s !! rid = Some r) ->
  code_spent rid s -> code_spent rid s'.
Proof. intros Hs Hp r Hr%Hs. by apply Hp. Qed.

Lemma respects_code_spent rid :
  Respects (fun s s' => code_spent rid s -> code_spent rid s') (fun _ => True) (fun id => id <> rid).
Proof.
  split; intros *; try (intros; refine (code_spent_sub _ _ _ _ _); [|eassumption]; by_cases; fail).
  - split; [by intros s|by intros s1 s2 s3; auto].
  - intros (_ & _ & ->)%insert_user_inv _ _. by apply code_spent_sub.
  - intros _. destruct (alter_user_inv u (fun _ _ => true) f s) as [->|(a & _ & _ & ->)]; by apply code_spent_sub.
  - intros _. destruct (alter_user_inv u (keeps_an_admin (Some r)) f s) as [->|(a & _ & _ & ->)]; by apply code_spent_sub.
  - destruct (delete_where_inv u (keeps_an_admin None) s) as [->|(a & _ & _ & ->)]; [by apply code_spent_sub|].
    apply code_spent_sub. intros r. by apply filter_sub.
  - apply code_spent_sub. intros r. by apply filter_sub.
  - intros Hne (_ & _ & ->)%insert_recovery_inv. apply code_spent_sub. intros r. cbn. by rewrite lookup_insert_ne.
  - destruct (use_recovery_inv id g now s) as [->|(r & Hr & ->)]; [done|]. intros Hp r'. cbn.
    destruct (decide (rid = id)) as [->|Hne]; [|rewrite lookup_insert_ne by done; apply Hp].
    rewrite lookup_insert_eq. by intros [= <-].
Qed.

(** What an issued grant has spent. *)
Lemma issued_spends now id u th b fc v e ep rid k aa actor db i :
  (issue dialect now id u th b fc v e ep rid k aa actor db).1 = Ok (Ok i) ->
  (forall c, rid = Some c ->
     recovery_usable (normalize_username u) c (ConfigDb.tables db) = true
     /\ code_spent c (ConfigDb.tables (issue dialect now id u th b fc v e ep rid k aa actor db).2))
  /\ (forall c0 n row, k = Some n -> AccountTables.user_mfa (ConfigDb.tables db) !! normalize_username u = Some row ->
       MfaRow.confirmed_at row = Some c0 ->
       Factor.step_is_new n row = true
       /\ step_spent (normalize_username u) c0 n (ConfigDb.tables (issue dialect now id u th b fc v e ep rid k aa actor db).2)).
Proof.
  destruct (issue dialect now id u th b fc v e ep rid k aa actor db) as [r db'] eqn:E. cbn. intros ->.
  apply issue_inv in E as [(err & ? & _)|[Hr Ht]]; [done|]. rewrite Ht. clear Ht.
  unfold issue_spec, issued_grant in *. cbn [GrantRow.username GrantRow.security_epoch GrantRow.session_binding GrantRow.id] in *.
  set (s := ConfigDb.tables db) in *. set (un := normalize_username u) in *.
  destruct (negb (epoch_stands un ep s)); [done|].
  destruct (negb (match k with Some _ => _ | None => true end)) eqn:Hk; [done|].
  destruct (negb (match rid with Some _ => _ | None => true end)) eqn:Hrid; [done|]. clear Hr. cbn [snd]. split.
  - intros c ->. split; [by apply negb_false_iff in Hrid|]. intros r. cbn. unfold use_recovery.
    apply negb_false_iff in Hrid. unfold recovery_usable in Hrid.
    assert (AccountTables.user_mfa_recovery (spend_step un k s) = AccountTables.user_mfa_recovery s) as Hsame.
    { destruct k as [k|]; [|done]. cbn [spend_step]. unfold use_step. by destruct (alter_factor_others un (Factor.step_is_new k) (Factor.set_last_used_step k) s) as (_ & -> & _). }
    cbn. rewrite Hsame. destruct (AccountTables.user_mfa_recovery s !! c) as [r0|]; [|done]. rewrite Hrid.
    cbn. rewrite lookup_insert_eq. by intros [= <-].
  - intros c0 n row -> Hrow Hc. apply negb_false_iff in Hk. unfold step_usable in Hk. rewrite Hrow in Hk. split; [done|].
    assert (forall x, AccountTables.user_mfa (spend_recovery un rid now x) = AccountTables.user_mfa x) as Hsame.
    { intros x. destruct rid as [c|]; [|done]. cbn. by destruct (use_recovery_inv c (fun r => str_eqb (RecoveryRow.username r) un) now x)
        as [->|(r & _ & ->)]. }
    intros row'. cbn. rewrite Hsame. cbn. unfold use_step, alter_factor. rewrite Hrow, Hk. cbn. rewrite lookup_insert_eq.
    intros [= <-] _. by exists n.
Qed.

(** The reads of the MFA decision on this database. *)
Definition reads (now : Z) (db : AccountDb) : MfaDb.t :=
  MfaDb.mk (fun u => result_map_err (fun _ => "fetch MFA state") (fetch_factor u db).1)
    (fun i => result_map_err (fun _ => "fetch valid MFA device grant") (fetch_valid now i db).1) normalize_username.

(** ** Properties *)

(** C23. The portal never loses its last admin: whatever sequence of
    account, factor and grant writes runs, whichever statements fail, an
    account with the role admin remains. *)
Theorem last_admin_kept db ops :
  0 < count_where Account.is_admin (ConfigDb.tables db) ->
  0 < count_where Account.is_admin (ConfigDb.tables (run db ops)).
Proof.
  rewrite !count_admins_pos. apply (run_respects respects_admin). apply list.Forall_forall. by split.
Qed.

(** The account tables stay well formed under every sequence of
    writes with failing statements: names are the keys, ids unique, roles and
    group lists canonical, factors, codes and grants belong to existing
    accounts, and a browser has one grant. *)
Theorem accounts_stay_typed db ops : tables_typed (ConfigDb.tables db) -> tables_typed (ConfigDb.tables (run db ops)).
Proof. apply (run_respects respects_typed). apply list.Forall_forall. by split. Qed.

(** C24. Revoked trust stays revoked: once a password change, a revocation,
    a reset or a deletion of the account has succeeded, no grant of the
    generation (confirmation time and epoch) that the factor had before is
    accepted again, not even one whose challenge was in flight, and whatever
    writes follow; factors being confirmed at later times. *)
Theorem trust_revoked db u row c0 e0 ops o ops' now username session cookie spec :
  AccountTables.user_mfa (ConfigDb.tables db) !! u = Some row -> MfaRow.confirmed_at row = Some c0 ->
  MfaRow.security_epoch row = e0 ->
  Forall (fun o => forall t, confirm_time o = Some t -> c0 < t) (ops ++ o :: ops') ->
  revocation u (run db ops) o -> normalize_username username = u -> Spec.effective_require_mfa spec = true ->
  let db' := run db (ops ++ o :: ops') in
  evaluate now (Some (reads now db')) username session cookie spec = MfaDecision.Satisfied ->
  exists value i token g, cookie = Some value /\ device_cookie_parts value = Some (i, token)
    /\ AccountTables.user_mfa_grants (ConfigDb.tables db') !! i = Some g
    /\ ~ (GrantRow.factor_confirmed_at g = c0 /\ GrantRow.security_epoch g <= e0).
Proof.
  intros Hrow Hc He [Hops [Ho Hops']%Forall_cons]%Forall_app Hrev Hu Hreq db' Hs.
  assert (past u c0 (e0 + 1) (ConfigDb.tables db')) as Hp.
  { subst db'. unfold run. rewrite foldl_app. cbn [foldl].
    assert (past u c0 e0 (ConfigDb.tables (run db ops))) as H1'.
    { apply (run_respects (respects_past u c0 e0) ops db); [by eapply Forall_impl|].
      intros row' c Hr' Hc'. rewrite Hrow in Hr'. injection Hr' as <-. right. split; [congruence|lia]. }
    apply (run_respects (respects_past u c0 (e0 + 1)) ops' (step (run db ops) o)); [by eapply Forall_impl|].
    by apply revocation_past. }
  apply AuthProperties.evaluate_satisfied in Hs as (d & value & i & token & g & f & [= <-] & -> & Hparts & Hg & Hf & Ha & _); [|done].
  cbn [MfaDb.fetch MfaDb.fetch_valid reads] in Hg, Hf.
  destruct (fetch_valid now i db') as [[g'|err] db1] eqn:Eg; [|done]. injection Hg as ->.
  destruct (fetch_factor username db') as [[f'|err] db2] eqn:Ef; [|done]. injection Hf as ->.
  apply query_inv in Eg as [_ [?|[= Eg]]]; [done|]. apply query_inv in Ef as [_ [?|[= Ef]]]; [done|].
  exists value, i, token, g. split; [done|]. split; [done|]. split.
  { destruct (AccountTables.user_mfa_grants (ConfigDb.tables db') !! i) as [g0|]; [|done]. cbn in Eg. by destruct (now <? _). }
  intros [Hgc Hge]. unfold grant_accepted in Ha. bool_split.
  repeat match goal with Hx : bool_decide _ = true |- _ => apply bool_decide_eq_true in Hx end.
  rewrite Hu in Ef. destruct (Hp f c0 ltac:(done) ltac:(congruence)) as [?|[_ ?]]; lia.
Qed.

(** A proof is spent once: after a grant was issued for a recovery
    code, no grant is issued for that code again, and after one for a TOTP
    step none is issued for that step or an older one while the same factor
    stands, whatever writes run in between (code ids being fresh). *)
Theorem proof_spent_once db now id u th b fc v e ep rid k aa actor row c0 ops
    now' id' u' th' b' fc' v' e' ep' rid' k' aa' actor' i :
  (issue dialect now id u th b fc v e ep rid k aa actor db).1 = Ok (Ok id) ->
  AccountTables.user_mfa (ConfigDb.tables db) !! normalize_username u = Some row -> MfaRow.confirmed_at row = Some c0 ->
  Forall (fun o => forall t, confirm_time o = Some t -> c0 < t) ops ->
  (forall c, rid = Some c -> Forall (fun o => c ∉ minted_codes o) ops) ->
  let db' := run (issue dialect now id u th b fc v e ep rid k aa actor db).2 ops in
  (exists c, rid = Some c /\ rid' = Some c)
  \/ (exists n n', k = Some n /\ k' = Some n' /\ n' <= n /\ normalize_username u' = normalize_username u
       /\ exists row', AccountTables.user_mfa (ConfigDb.tables db') !! normalize_username u = Some row'
                        /\ MfaRow.confirmed_at row' = Some c0) ->
  (issue dialect now' id' u' th' b' fc' v' e' ep' rid' k' aa' actor' db').1 <> Ok (Ok i).
Proof.
  intros Hi Hrow Hc Ht Hfresh db' Hagain Hi'. destruct (issued_spends _ _ _ _ _ _ _ _ _ _ _ _ _ _ _ Hi) as [Hcode Hstep].
  destruct (issued_spends _ _ _ _ _ _ _ _ _ _ _ _ _ _ _ Hi') as [Hcode' Hstep'].
  destruct Hagain as [(c & -> & ->)|(n & n' & -> & -> & Hn & Hu & row' & Hrow' & Hc')].
  - destruct (Hcode c eq_refl) as [_ Hs]. destruct (Hcode' c eq_refl) as [Husable _].
    assert (code_spent c (ConfigDb.tables db')) as Hs'.
    { apply (run_respects (respects_code_spent c) ops _); [|done]. eapply Forall_impl; [exact (Hfresh c eq_refl)|].
      intros o Ho. split; [done|]. intros j Hj ->. by apply Ho. }
    unfold recovery_usable in Husable. destruct (AccountTables.user_mfa_recovery (ConfigDb.tables db') !! c) as [r|] eqn:Er; [|done].
    apply andb_true_iff in Husable as [_ Hun]. unfold RecoveryRow.unused in Hun. apply bool_decide_eq_true in Hun. by apply (Hs' r).
  - destruct (Hstep c0 n row eq_refl Hrow Hc) as [_ Hs]. rewrite Hu in Hstep'.
    destruct (Hstep' c0 n' row' eq_refl Hrow' Hc') as [Hnew _].
    assert (step_spent (normalize_username u) c0 n (ConfigDb.tables db')) as Hs'.
    { apply (run_respects (respects_step_spent _ c0 n) ops _); [|done]. eapply Forall_impl; [exact Ht|]. by split. }
    destruct (Hs' row' Hrow' Hc') as (last & Hlast & ?). unfold Factor.step_is_new in Hnew. rewrite Hlast in Hnew. lia.
Qed.
End AccountRuntime.

(** ** Examples *)

Module AccountRuntimeExamples.
Import AccountExamples UserExamples.
#[local] Existing Instance AuthExamples.example_crates.

Definition names (db : AccountDb) : list (string * string) :=
  (fun a => (Account.username a, Account.role a)) <$> accounts (ConfigDb.tables db).

(** [root] is the one admin. *)
Definition purge : list Op := [SetRole 10 "root" Role.Viewer None; DeleteUser 11 "Root" None; DeleteUser 12 "bo" None].

Lemma last_admin_kept_witness :
  let after := run Sqlite UserExamples.db purge in
  AccountTables.users (ConfigDb.tables after) !! "bo" = None /\ 0 < count_where Account.is_admin (ConfigDb.tables after).
Proof. intros after. split; [vm_compute; reflexivity|]. apply last_admin_kept. vm_compute. reflexivity. Defined.

Definition start : AccountDb := ConfigDb.mk AccountTables.empty [].
Definition enrolled_ops : list Op :=
  [Create "s1" "u1" 1 "root" "pw" Role.Admin false [] None; Create "s2" "u2" 2 " Ana" "pw" Role.Editor false ["lab"; "ops"] (Some "root");
   BeginEnrollment 3 "ana" "enc" "nonce" "cer"; Confirm 5 "ana" "ana" (Some [("c1", "h1"); ("c2", "h2")]) "cer"].
Definition enrolled : AccountDb := run Sqlite start enrolled_ops.

Lemma accounts_stay_typed_witness :
  AccountTables.user_mfa_recovery (ConfigDb.tables enrolled) !! "c2" = Some (RecoveryRow.mk "c2" "ana" "h2" None 5)
  /\ tables_typed (ConfigDb.tables enrolled).
Proof. split; [vm_compute; reflexivity|]. apply accounts_stay_typed, tables_typed_empty. Defined.

Definition issue_op (now : Z) (id : string) (epoch : Z) (rid : option string) (step : option Z) : Op :=
  Issue now id "ana" (hash_device_token "sixteen-byte-slt" AuthExamples.token) "browser" 5 now (now + from_secs 1000) epoch rid step "mfa.verify" "ana".

(** The password changes while a challenge of the old generation is in
    flight; a challenge after it is accepted. *)
Definition after_change : list Op := [issue_op 30 "g2" 0 None (Some 8); issue_op 40 "g3" 1 None (Some 9)].

Lemma trust_revoked_witness :
  let db' := run Sqlite enrolled ([issue_op 10 "g1" 0 None (Some 7)] ++ SetPassword "s3" 20 "ana" "new" false None :: after_change) in
  let decide id := evaluate 100 (Some (reads 100 db')) "ana" "session" (Some (id +:+ "." +:+ AuthExamples.token)) AuthExamples.protected in
  decide "g1" = MfaDecision.ChallengeRequired /\ decide "g2" = MfaDecision.ChallengeRequired /\ decide "g3" = MfaDecision.Satisfied
  /\ exists g, AccountTables.user_mfa_grants (ConfigDb.tables db') !! "g3" = Some g
       /\ ~ (GrantRow.factor_confirmed_at g = 5 /\ GrantRow.security_epoch g <= 0).
Proof.
  intros db' decide. split; [vm_compute; reflexivity|]. split; [vm_compute; reflexivity|].
  assert (decide "g3" = MfaDecision.Satisfied) as Hs by (vm_compute; reflexivity). split; [exact Hs|].
  destruct (trust_revoked Sqlite enrolled "ana" (MfaRow.mk "ana" "enc" "nonce" "cer" (Some 5) 3 5 None 0) 5 0
              [issue_op 10 "g1" 0 None (Some 7)] (SetPassword "s3" 20 "ana" "new" false None) after_change 100 "ana" "session"
              (Some ("g3." +:+ AuthExamples.token)) AuthExamples.protected) as (value & i & token & g & Hv & Hp & Hg & Hgen).
  - vm_compute. reflexivity.
  - reflexivity.
  - reflexivity.
  - repeat constructor; by intros t.
  - split; vm_compute; reflexivity.
  - vm_compute. reflexivity.
  - vm_compute. reflexivity.
  - exact Hs.
  - exists g. split; [|exact Hgen]. injection Hv as <-. vm_compute in Hp. injection Hp as <- _. exact Hg.
Defined.

Lemma proof_spent_once_witness :
  let first := issue_op 10 "g1" 0 (Some "c1") None in
  AccountTables.user_mfa_grants (ConfigDb.tables (step Sqlite enrolled first)) !! "g1" <> None
  /\ forall i, (issue Sqlite 50 "g9" "ana" "th" "other" 5 50 1000 0 (Some "c1") None "mfa.verify" "ana"
                  (run Sqlite (step Sqlite enrolled first) [SetGroups 20 "ana" ["lab"] None])).1 <> Ok (Ok i).
Proof.
  intros first. split; [vm_compute; discriminate|]. intros i.
  apply (proof_spent_once Sqlite enrolled 10 "g1" "ana" (hash_device_token "sixteen-byte-slt" AuthExamples.token) "browser" 5 10
           (10 + from_secs 1000) 0 (Some "c1") None "mfa.verify" "ana"
           (MfaRow.mk "ana" "enc" "nonce" "cer" (Some 5) 3 5 None 0) 5 [SetGroups 20 "ana" ["lab"] None]).
  - vm_compute. reflexivity.
  - vm_compute. reflexivity.
  - reflexivity.
  - repeat constructor. by intros t.
  - intros c _. repeat constructor. cbn. apply not_elem_of_nil.
  - left. exists "c1". by split.
Defined.
End AccountRuntimeExamples.
