(* ===== verification/UsersCsv.v ===== *)
(** * UsersCsv: the CSV of accounts (routes/admin/users.rs)

    The export of the users table and the parser of the bulk import, which
    must agree: fields that a spreadsheet would evaluate are guarded on the
    way out and unguarded on the way in, groups travel [;]-joined, and the
    password column is empty until an operator fills it in. *)

From Stdlib Require Import Ascii String ZArith Lia.
From stdpp Require Import base tactics list strings sets.
From S2P Require Import Prelude Text Auth Accounts Users.

Local Open Scope string_scope.
Local Open Scope list_scope.
Local Open Scope Z_scope.
Local Open Scope ruscker_scope.

(** ** Parameters *)

(** [char::is_uppercase] and the others: the Unicode tables. *)
Class CharClass := { is_uppercase : Z -> bool; is_lowercase : Z -> bool; is_alphanumeric : Z -> bool }.

(** chrono's [%Y-%m-%dT%H:%M:%SZ]. *)
Class Timestamps := { format_timestamp : Z -> string }.

Definition is_timestamp_char (c : ascii) : bool :=
  is_ascii_digit c || existsb (Ascii.eqb c) ["-"; ":"; "T"; "Z"; "+"]%char.
Class TimestampsLaws `{Timestamps} := {
  timestamp_chars t : str_forallb is_timestamp_char (format_timestamp t) = true
}.

(** [password_meets_policy] of auth.rs. *)
Definition password_meets_policy `{CharClass} (password : string) : bool :=
  let cs := chars password in
  (8 <=? zlen cs) && existsb is_uppercase cs && existsb is_lowercase cs
  && existsb (fun c => (48 <=? c) && (c <=? 57)) cs && existsb (fun c => negb (is_alphanumeric c)) cs.

(** ** Fields *)

Definition quote : ascii := "034".
Definition lf : ascii := "010".
Definition cr : ascii := "013".

(** [s.replace(c, r)] for a character pattern. *)
Fixpoint str_replace_char (c : ascii) (r s : string) : string :=
  match s with
  | EmptyString => EmptyString
  | String d s' => if Ascii.eqb c d then r +:+ str_replace_char c r s' else String d (str_replace_char c r s')
  end.

Definition csv_needs_guard (value : string) : bool :=
  match value with String c _ => existsb (Ascii.eqb c) ["="; "+"; "-"; "@"; "009"; "013"; "'"]%char | EmptyString => false end.

Definition csv_unguard (value : string) : string :=
  match strip_prefix "'" value with Some rest => if csv_needs_guard rest then rest else value | None => value end.

Definition csv_needs_quotes (s : string) : bool :=
  existsb (fun c => str_contains_char c s) [","%char; quote; lf; cr].

Definition csv_guard (value : string) (guard_formula : bool) : string :=
  if guard_formula && csv_needs_guard value then "'" +:+ value else value.

Definition csv_field (value : string) (guard_formula : bool) : string :=
  let guarded := csv_guard value guard_formula in
  if csv_needs_quotes guarded
  then String quote (str_replace_char quote (String quote (String quote EmptyString)) guarded +:+ String quote EmptyString)
  else guarded.

(** ** Export *)

Definition EXPORT_COLUMNS : list string :=
  ["username"; "role"; "password"; "groups"; "setor"; "email"; "celular"; "created_at"].

Definition row_fields `{Timestamps} (u : UserRow.t) : list string :=
  [csv_field (UserRow.username u) false; csv_field (Role.as_str (UserRow.role u)) false; "";
   csv_field (str_join ";" (UserRow.groups u)) true; csv_field (default "" (UserRow.setor u)) true;
   csv_field (default "" (UserRow.email u)) true; csv_field (default "" (UserRow.celular u)) true;
   csv_field (format_timestamp (UserRow.created_at u)) false].

(** The [push_str]s: each line and its end. *)
Definition csv_of (lines : list string) : string := foldr (fun l out => l +:+ String lf out) EmptyString lines.

Definition users_csv `{Timestamps} (rows : list UserRow.t) : string :=
  csv_of (str_join "," EXPORT_COLUMNS :: map (fun u => str_join "," (row_fields u)) rows).

(** ** Import *)

Module CsvRow.
Record t := mk {
  line_no : Z;
  username : string;
  role : Role.t;
  password : string;
  groups : list string;
  setor : string;
  email : string;
  celular : string;
  error : option string;
  exists_ : bool }.

Definition importable (r : t) : bool := bool_decide (error r = None) && negb (exists_ r).

Definition status_key (r : t) : string :=
  match error r, exists_ r with
  | Some e, _ =>
    if str_eqb e "bad-username" then "admin-users-import-status-bad-username"
    else if str_eqb e "bad-password" then "admin-users-import-status-bad-password"
    else "admin-users-import-status-bad-role"
  | None, true => "admin-users-import-status-exists"
  | None, false => "admin-users-import-status-ok"
  end.

Definition set_exists (b : bool) (r : t) : t :=
  mk (line_no r) (username r) (role r) (password r) (groups r) (setor r) (email r) (celular r) (error r) b.
End CsvRow.

(** The loop of [split_csv_line]: inside quotes or not, and the field so far.
    The bytes it looks for are ASCII, so bytes do for characters. *)
Fixpoint csv_fields (in_q : bool) (cur line : string) : list string :=
  match line with
  | EmptyString => [cur]
  | String c rest =>
    if in_q then
      if Ascii.eqb c quote then
        match rest with
        | String d rest' =>
          if Ascii.eqb d quote then csv_fields true (cur +:+ String quote EmptyString) rest' else csv_fields false cur rest
        | EmptyString => csv_fields false cur rest
        end
      else csv_fields true (cur +:+ String c EmptyString) rest
    else if Ascii.eqb c quote then csv_fields true cur rest
    else if Ascii.eqb c "," then cur :: csv_fields false EmptyString rest
    else csv_fields false (cur +:+ String c EmptyString) rest
  end.

Definition split_csv_line (line : string) : list string := map trim (csv_fields false EmptyString line).

(** [lines().enumerate()] without blank lines and comments. *)
Definition csv_lines (body : string) : list (Z * string) :=
  List.filter (fun il => negb (str_is_empty (trim il.2)) && negb (starts_with "#" (trim_start il.2)))
    (imap (fun i l => (Z.of_nat i, l)) (str_lines body)).

(** [iter().position(..)]. *)
Fixpoint position (p : string -> bool) (l : list string) : option nat :=
  match l with [] => None | x :: l' => if p x then Some O else S <$> position p l' end.

Section Parsing.
Context `{UnicodeCase} `{CharClass}.

Definition col (header : list string) (name : string) : option nat := position (fun h => str_eqb h name) header.
Definition get (f : list string) (idx : option nat) : string := default "" (i ← idx; f !! i).

Definition csv_row (header : list string) (i_user : nat) (il : Z * string) : CsvRow.t :=
  let f := split_csv_line il.2 in
  let username := normalize_username (get f (Some i_user)) in
  let password := get f (col header "password") in
  let role_raw := get f (col header "role") in
  let role := default Role.Viewer (Role.parse (to_lowercase role_raw)) in
  let groups := parse_groups (str_replace_char ";" "," (csv_unguard (get f (col header "groups")))) in
  let error :=
    if negb (is_valid_username username) then Some "bad-username"
    else if negb (password_meets_policy password) then Some "bad-password"
    else if negb (str_is_empty role_raw) && bool_decide (Role.parse (to_lowercase role_raw) = None) then Some "bad-role"
    else None in
  CsvRow.mk (il.1 + 1) username role password groups (csv_unguard (get f (col header "setor")))
    (csv_unguard (get f (col header "email"))) (csv_unguard (get f (col header "celular"))) error false.

Definition parse_csv_users (body : string) : Result (list CsvRow.t) string :=
  match csv_lines body with
  | [] => Err "empty-csv"
  | header_line :: lines =>
    let header := map to_lowercase (split_csv_line header_line.2) in
    match col header "username" with
    | None => Err "no-username-column"
    | Some i_user => Ok (map (csv_row header i_user) lines)
    end
  end.
End Parsing.

(** ** Fields and back *)

Lemma contains_replace c d r s :
  str_contains_char c r = false -> c <> d -> str_contains_char c (str_replace_char d r s) = str_contains_char c s.
Proof.
  intros Hr Hne. induction s as [|e s IH]; [done|]. cbn [str_replace_char str_contains_char].
  destruct (Ascii.eqb_spec d e) as [<-|]; [|by cbn [str_contains_char]; rewrite IH].
  rewrite str_contains_char_app, Hr, IH. by rewrite (proj2 (Ascii.eqb_neq c d) Hne).
Qed.

Lemma needs_quotes_false s :
  csv_needs_quotes s = false ->
  str_contains_char "," s = false /\ str_contains_char quote s = false /\ str_contains_char lf s = false.
Proof. unfold csv_needs_quotes. cbn [existsb]. intros H. bool_split. done. Qed.

Lemma fields_plain cur v rest :
  str_contains_char "," v = false -> str_contains_char quote v = false ->
  csv_fields false cur (v +:+ rest) = csv_fields false (cur +:+ v) rest.
Proof.
  revert cur; induction v as [|c v IH]; intros cur Hc Hq; [by rewrite str_app_nil_r|].
  cbn [str_contains_char] in Hc, Hq. apply orb_false_iff in Hc as [Hc Hc'], Hq as [Hq Hq'].
  change (String c v +:+ rest) with (String c (v +:+ rest)). cbn [csv_fields].
  rewrite (Ascii.eqb_sym c quote), Hq, (Ascii.eqb_sym c ","), Hc, IH by done. by rewrite str_app_assoc.
Qed.

Definition two_quotes : string := String quote (String quote EmptyString).

Lemma fields_quoted cur v rest :
  starts_with (String quote EmptyString) rest = false ->
  csv_fields true cur (str_replace_char quote two_quotes v +:+ String quote rest) = csv_fields false (cur +:+ v) rest.
Proof.
  intros Hr. revert cur; induction v as [|c v IH]; intros cur.
  - rewrite str_app_nil_r. change (str_replace_char quote two_quotes "" +:+ String quote rest) with (String quote rest).
    cbn [csv_fields]. rewrite Ascii.eqb_refl. destruct rest as [|d rest]; [done|].
    unfold starts_with in Hr. cbn [strip_prefix] in Hr. rewrite Ascii.eqb_sym in Hr.
    destruct (Ascii.eqb d quote) eqn:Ed; [|done]. apply Ascii.eqb_eq in Ed as ->. by vm_compute in Hr.
  - cbn [str_replace_char]. destruct (Ascii.eqb_spec quote c) as [<-|Hne].
    + change ((two_quotes +:+ str_replace_char quote two_quotes v) +:+ String quote rest)
        with (String quote (String quote (str_replace_char quote two_quotes v +:+ String quote rest))).
      cbn [csv_fields]. rewrite !Ascii.eqb_refl, IH. by rewrite str_app_assoc.
    + change (String c (str_replace_char quote two_quotes v) +:+ String quote rest)
        with (String c (str_replace_char quote two_quotes v +:+ String quote rest)).
      cbn [csv_fields]. rewrite (proj2 (Ascii.eqb_neq c quote) (not_eq_sym Hne)), IH. by rewrite str_app_assoc.
Qed.

(** A printed field reads back as what was guarded. *)
Lemma fields_field v g rest :
  starts_with (String quote EmptyString) rest = false ->
  csv_fields false "" (csv_field v g +:+ rest) = csv_fields false (csv_guard v g) rest.
Proof.
  intros Hr. unfold csv_field. cbv zeta. destruct (csv_needs_quotes (csv_guard v g)) eqn:E.
  - fold two_quotes.
    change (String quote (str_replace_char quote two_quotes (csv_guard v g) +:+ String quote "") +:+ rest)
      with (String quote ((str_replace_char quote two_quotes (csv_guard v g) +:+ String quote "") +:+ rest)).
    rewrite str_app_assoc. change (String quote "" +:+ rest) with (String quote rest).
    cbn [csv_fields]. rewrite Ascii.eqb_refl. by apply fields_quoted.
  - apply needs_quotes_false in E as (Hc & Hq & _). by rewrite fields_plain.
Qed.

Lemma fields_join vs :
  vs <> [] -> csv_fields false "" (str_join "," (map (fun vg => csv_field vg.1 vg.2) vs)) = map (fun vg => csv_guard vg.1 vg.2) vs.
Proof.
  induction vs as [|[v g] [|w vs] IH]; intros Hne; [done|..].
  - change (str_join "," (map (fun vg => csv_field vg.1 vg.2) [(v, g)])) with (csv_field v g).
    rewrite <- (str_app_nil_r (csv_field v g)). by rewrite fields_field.
  - change (str_join "," (map (fun vg => csv_field vg.1 vg.2) ((v, g) :: w :: vs)))
      with (csv_field v g +:+ String "," (str_join "," (map (fun vg => csv_field vg.1 vg.2) (w :: vs)))).
    rewrite fields_field by reflexivity. cbn [csv_fields]. by rewrite IH.
Qed.

(** The guard comes off again. *)
Lemma unguard_guard v : csv_unguard (csv_guard v true) = v.
Proof.
  unfold csv_guard. cbn [andb]. destruct (csv_needs_guard v) eqn:E.
  - change ("'" +:+ v) with (String "'" v). unfold csv_unguard. cbn [strip_prefix]. by rewrite Ascii.eqb_refl, E.
  - unfold csv_unguard. destruct (strip_prefix "'" v) as [rest|] eqn:Ep; [|done]. apply strip_prefix_Some in Ep as ->.
    by vm_compute in E.
Qed.

Lemma trim_guard v g : trim v = v -> trim (csv_guard v g) = csv_guard v g.
Proof.
  intros Hv. unfold csv_guard. destruct (g && csv_needs_guard v); [|done]. by apply (trim_app_sep "'" "" v).
Qed.

Lemma field_no_lf v g : str_contains_char lf v = false -> str_contains_char lf (csv_field v g) = false.
Proof.
  intros Hv. assert (str_contains_char lf (csv_guard v g) = false) as Hg.
  { unfold csv_guard. destruct (g && csv_needs_guard v); [|done]. by rewrite str_contains_char_app, Hv. }
  unfold csv_field. cbv zeta. destruct (csv_needs_quotes _); [|done]. cbn [str_contains_char].
  by rewrite str_contains_char_app, contains_replace, Hg.
Qed.

Lemma username_char_printable c : is_username_char c = true -> byte_in 33 126 c = true.
Proof. destruct c as [[] [] [] [] [] [] [] []]; intros Hc; solve [discriminate Hc|reflexivity]. Qed.

Lemma timestamp_char_printable c : is_timestamp_char c = true -> byte_in 33 126 c = true.
Proof. destruct c as [[] [] [] [] [] [] [] []]; intros Hc; solve [discriminate Hc|reflexivity]. Qed.

(** ** Lines and back *)

Lemma str_lines_csv ls :
  (forall l, l ∈ ls -> str_contains_char lf l = false /\ strip_suffix (byte_str [13%N]) l = None) -> str_lines (csv_of ls) = ls.
Proof.
  unfold str_lines. induction ls as [|l ls IH]; intros Hls; [done|]. cbn [csv_of foldr].
  destruct (Hls l ltac:(set_solver)) as [Hlf Hcr]. rewrite (split_inclusive_app "010") by done. cbn [map].
  fold (csv_of ls). rewrite IH by set_solver. f_equal. unfold strip_line_end.
  change (String lf "") with (byte_str [10%N]). by rewrite strip_suffix_app, Hcr.
Qed.

(** A line that ends with a timestamp has no carriage return at its end. *)
Lemma timestamp_line_end a t :
  str_forallb is_timestamp_char t = true -> strip_suffix (byte_str [13%N]) (a +:+ String "," t) = None.
Proof.
  intros Ht. unfold strip_suffix. rewrite str_rev_app_distr, str_rev_cons. rewrite <- str_forallb_rev in Ht.
  destruct (str_rev t) as [|c r]; [done|]. cbn [str_forallb] in Ht. apply andb_true_iff in Ht as [Hc _].
  change ((String c r +:+ ",") +:+ str_rev a) with (String c ((r +:+ ",") +:+ str_rev a)).
  change (str_rev (byte_str [13%N])) with (String cr ""). cbn [strip_prefix].
  destruct (Ascii.eqb_spec cr c) as [<-|]; [done|reflexivity].
Qed.

Lemma str_forallb_mono (p q : ascii -> bool) s : (forall c, p c = true -> q c = true) -> str_forallb p s = true -> str_forallb q s = true.
Proof.
  intros Hpq. induction s as [|d s IH]; [done|]. cbn [str_forallb]. intros [Hd Hs]%andb_true_iff. by rewrite (Hpq d Hd), IH.
Qed.

Lemma timestamp_plain t : str_forallb is_timestamp_char t = true -> csv_field t false = t.
Proof.
  intros Ht. unfold csv_field, csv_guard, csv_needs_quotes. cbn [andb existsb].
  by rewrite !(forallb_no_char is_timestamp_char) by done.
Qed.

Lemma csv_lines_csv ls :
  (forall l, l ∈ ls -> str_contains_char lf l = false /\ strip_suffix (byte_str [13%N]) l = None
             /\ str_contains_char "," l = true /\ starts_with "#" (trim_start l) = false) ->
  csv_lines (csv_of ls) = imap (fun i l => (Z.of_nat i, l)) ls.
Proof.
  intros Hls. unfold csv_lines. rewrite str_lines_csv by naive_solver. apply list_filter_all.
  intros [i l] (j & y & E & Hl)%elem_of_lookup_imap. injection E as -> ->. apply list_elem_of_lookup_2 in Hl.
  destruct (Hls y Hl) as (_ & _ & Hc & Hh). cbn [snd]. rewrite Hh, andb_true_r.
  rewrite <- (trim_keeps_char ",") in Hc by reflexivity. by destruct (trim y).
Qed.

Lemma contains_join_false c sep l :
  str_contains_char c sep = false -> (forall x, x ∈ l -> str_contains_char c x = false) -> str_contains_char c (str_join sep l) = false.
Proof.
  intros Hsep. induction l as [|x [|y l] IH]; intros Hl; [done|apply Hl; set_solver|].
  change (str_join sep (x :: y :: l)) with (x +:+ sep +:+ str_join sep (y :: l)).
  rewrite !str_contains_char_app, Hsep, (Hl x) by set_solver. apply IH. set_solver.
Qed.

Lemma replace_app c r a b : str_replace_char c r (a +:+ b) = str_replace_char c r a +:+ str_replace_char c r b.
Proof.
  induction a as [|d a IH]; [done|]. change (String d a +:+ b) with (String d (a +:+ b)). cbn [str_replace_char]. rewrite IH.
  by destruct (Ascii.eqb c d); [rewrite str_app_assoc|].
Qed.

Lemma replace_none c r s : str_contains_char c s = false -> str_replace_char c r s = s.
Proof.
  induction s as [|d s IH]; [done|]. cbn [str_contains_char str_replace_char]. intros [-> Hs]%orb_false_iff. by rewrite IH.
Qed.

(** Replacing a separator no part has joins with the other. *)
Lemma replace_join c r l :
  (forall x, x ∈ l -> str_contains_char c x = false) -> str_replace_char c r (str_join (String c "") l) = str_join r l.
Proof.
  induction l as [|x [|y l] IH]; intros Hl; [done|apply replace_none, Hl; set_solver|].
  change (str_join (String c "") (x :: y :: l)) with (x +:+ String c (str_join (String c "") (y :: l))).
  change (str_join r (x :: y :: l)) with (x +:+ r +:+ str_join r (y :: l)).
  rewrite replace_app, (replace_none c r x) by (apply Hl; set_solver). cbn [str_replace_char]. rewrite Ascii.eqb_refl, IH by set_solver. done.
Qed.

Lemma join_last sep x l : l <> [] -> exists a, str_join sep (l ++ [x]) = a +:+ sep +:+ x.
Proof.
  induction l as [|y [|z l] IH]; intros Hne; [done|by exists y|]. destruct IH as [a Ha]; [done|]. exists (y +:+ sep +:+ a).
  change (str_join sep ((y :: z :: l) ++ [x])) with (y +:+ sep +:+ str_join sep ((z :: l) ++ [x])). by rewrite Ha, !str_app_assoc.
Qed.

(** ** The round trip *)

Section RoundTrip.
Context `{UnicodeCase} `{!UnicodeCaseLaws} `{CharClass} `{Timestamps} `{!TimestampsLaws}.

Definition one_line (s : string) : Prop := trim s = s /\ str_contains_char lf s = false.

(** An account as the repository stores it, whose groups have no [;] and
    whose fields are one line each. *)
Record exportable (u : UserRow.t) : Prop := {
  ex_valid : is_valid_username (UserRow.username u) = true;
  ex_normal : normalize_username (UserRow.username u) = UserRow.username u;
  ex_groups : clean_groups (UserRow.groups u);
  ex_group g : g ∈ UserRow.groups u -> str_contains_char ";" g = false /\ str_contains_char lf g = false;
  ex_setor : one_line (default "" (UserRow.setor u));
  ex_email : one_line (default "" (UserRow.email u));
  ex_celular : one_line (default "" (UserRow.celular u))
}.

(** The file with the password column filled in. *)
Definition filled_values (pw : UserRow.t -> string) (u : UserRow.t) : list (string * bool) :=
  [(UserRow.username u, false); (Role.as_str (UserRow.role u), false); (pw u, false);
   (str_join ";" (UserRow.groups u), true); (default "" (UserRow.setor u), true);
   (default "" (UserRow.email u), true); (default "" (UserRow.celular u), true); (format_timestamp (UserRow.created_at u), false)].
Definition filled_line (pw : UserRow.t -> string) (u : UserRow.t) : string :=
  str_join "," (map (fun vg => csv_field vg.1 vg.2) (filled_values pw u)).
Definition filled_csv (pw : UserRow.t -> string) (rows : list UserRow.t) : string :=
  csv_of (str_join "," EXPORT_COLUMNS :: map (filled_line pw) rows).

(** What the importer makes of the row of [u] at index [i]. *)
Definition reimported (pw : UserRow.t -> string) (i : nat) (u : UserRow.t) : CsvRow.t :=
  CsvRow.mk (Z.of_nat i + 2) (UserRow.username u) (UserRow.role u) (pw u) (UserRow.groups u)
    (default "" (UserRow.setor u)) (default "" (UserRow.email u)) (default "" (UserRow.celular u))
    (if password_meets_policy (pw u) then None else Some "bad-password") false.

Lemma groups_one_line u : exportable u -> one_line (str_join ";" (UserRow.groups u)).
Proof.
  intros [_ _ [_ Hg] Hs _ _ _]. split.
  - apply (trim_join_sep ";"); [reflexivity|]. intros g Hin. by apply Hg.
  - induction (UserRow.groups u) as [|g [|g' gs] IH]; [done|apply Hs; set_solver|].
    change (str_join ";" (g :: g' :: gs)) with (g +:+ String ";" (str_join ";" (g' :: gs))).
    rewrite str_contains_char_app. destruct (Hs g) as [_ ->]; [set_solver|]. apply IH; set_solver.
Qed.

Lemma filled_one_line pw u v g :
  exportable u -> one_line (pw u) -> (v, g) ∈ filled_values pw u -> one_line v.
Proof.
  intros Hu Hpw. pose proof (groups_one_line u Hu) as Hg. destruct Hu as [Hv Hn _ _ Hs He Hc].
  assert (one_line (UserRow.username u)) as Hun.
  { apply andb_true_iff in Hv as [_ Hv]. split; [apply trim_printable|]; revert Hv; generalize (UserRow.username u); clear.
    - intros s. apply str_forallb_mono, username_char_printable.
    - intros s Hs. eapply forallb_no_char; [exact Hs|reflexivity]. }
  assert (one_line (Role.as_str (UserRow.role u))) as Hr by (by destruct (UserRow.role u)).
  assert (one_line (format_timestamp (UserRow.created_at u))) as Ht.
  { pose proof (timestamp_chars (UserRow.created_at u)) as Ht. split; [apply trim_printable|]; revert Ht; generalize (format_timestamp (UserRow.created_at u)); clear.
    - intros s. apply str_forallb_mono, timestamp_char_printable.
    - intros s Hs. eapply forallb_no_char; [exact Hs|reflexivity]. }
  unfold filled_values. rewrite !elem_of_cons. set_solver.
Qed.

(** Every line survives the filters of the importer. *)
Lemma filled_line_kept pw u :
  exportable u -> one_line (pw u) ->
  str_contains_char lf (filled_line pw u) = false /\ strip_suffix (byte_str [13%N]) (filled_line pw u) = None
  /\ str_contains_char "," (filled_line pw u) = true /\ starts_with "#" (trim_start (filled_line pw u)) = false.
Proof.
  intros Hu Hpw. pose proof (ex_valid u Hu) as [Hne Hv]%andb_true_iff. split; [|split; [|split]].
  - unfold filled_line. apply contains_join_false; [reflexivity|]. intros f ([v g] & -> & Hin)%list_elem_of_fmap.
    apply field_no_lf. by apply (filled_one_line pw u v g).
  - assert (exists a, filled_line pw u = a +:+ String "," (format_timestamp (UserRow.created_at u))) as [a ->].
    { unfold filled_line, filled_values. cbn [map fst snd]. rewrite (timestamp_plain (format_timestamp _)) by apply timestamp_chars.
      match goal with |- context [str_join "," [?a; ?b; ?c; ?d; ?e; ?f; ?g; ?x]] =>
        apply (join_last "," x [a; b; c; d; e; f; g]) end. done. }
    apply timestamp_line_end, timestamp_chars.
  - change (filled_line pw u) with (csv_field (UserRow.username u) false +:+ String "," (str_join ","
      (map (fun vg => csv_field vg.1 vg.2) (tail (filled_values pw u))))).
    rewrite str_contains_char_app. apply orb_true_r.
  - assert (csv_field (UserRow.username u) false = UserRow.username u) as Hf.
    { unfold csv_field, csv_guard, csv_needs_quotes. cbn [andb existsb]. by rewrite !(forallb_no_char is_username_char) by done. }
    change (filled_line pw u) with (csv_field (UserRow.username u) false +:+ String "," (str_join ","
      (map (fun vg => csv_field vg.1 vg.2) (tail (filled_values pw u))))). rewrite Hf.
    destruct (UserRow.username u) as [|c s]; [done|]. cbn [str_forallb] in Hv. apply andb_true_iff in Hv as [Hc _].
    unfold trim_start. change (String c s +:+ String "," ?r) with (String c (s +:+ String "," r)).
    rewrite trim_start_fuel_id by (by apply strip_any_printable, username_char_printable).
    unfold starts_with. cbn [strip_prefix]. destruct (Ascii.eqb_spec "#" c) as [<-|]; done.
Qed.

Lemma csv_row_filled pw i u :
  exportable u -> one_line (pw u) ->
  csv_row EXPORT_COLUMNS 0 (Z.of_nat (S i), filled_line pw u) = reimported pw i u.
Proof.
  intros Hu Hpw. pose proof Hu as [Hv Hn Hg Hsep _ _ _].
  assert (split_csv_line (filled_line pw u) = map (fun vg => csv_guard vg.1 vg.2) (filled_values pw u)) as Hsplit.
  { unfold split_csv_line, filled_line. rewrite fields_join by done. rewrite map_map. apply map_ext_in.
    intros [v g] Hin%list_elem_of_In. apply trim_guard. by apply (filled_one_line pw u v g). }
  unfold csv_row. cbn [fst snd]. rewrite Hsplit. unfold filled_values, get, col. cbn -[csv_guard csv_unguard is_valid_username password_meets_policy parse_groups normalize_username Role.parse str_replace_char str_join Z.of_nat str_is_empty Role.as_str].
  rewrite !unguard_guard, !(fun v => eq_refl : csv_guard v false = v), Hn, Hv. cbn [negb].
  assert (to_lowercase (Role.as_str (UserRow.role u)) = Role.as_str (UserRow.role u)) as ->.
  { rewrite to_lowercase_ascii; by destruct (UserRow.role u). }
  assert (Role.parse (Role.as_str (UserRow.role u)) = Some (UserRow.role u)) as -> by (by destruct (UserRow.role u)).
  rewrite replace_join, parse_join; [|done|by intros g Hin; apply Hsep].
  unfold reimported. f_equal; [lia|]. destruct (password_meets_policy (pw u)); cbn; [|done].
  by rewrite andb_false_r.
Qed.

Lemma parse_filled pw rows :
  (forall u, u ∈ rows -> exportable u /\ one_line (pw u)) -> parse_csv_users (filled_csv pw rows) = Ok (imap (reimported pw) rows).
Proof.
  intros Hrows. unfold parse_csv_users, filled_csv. rewrite csv_lines_csv.
  2: { intros l [->|(u & -> & Hu)%list_elem_of_fmap]%elem_of_cons; [vm_compute; done|].
       destruct (Hrows u Hu). by apply filled_line_kept. }
  cbn [imap]. cbv zeta. cbn [snd].
  assert (map to_lowercase (split_csv_line (str_join "," EXPORT_COLUMNS)) = EXPORT_COLUMNS) as ->.
  { replace (split_csv_line (str_join "," EXPORT_COLUMNS)) with EXPORT_COLUMNS by (vm_compute; reflexivity).
    unfold EXPORT_COLUMNS. cbn [map]. by rewrite !to_lowercase_ascii. }
  change (col EXPORT_COLUMNS "username") with (Some O). cbv iota. f_equal.
  change (csv_row EXPORT_COLUMNS 0 <$> imap ((fun i l => (Z.of_nat i, l)) ∘ S) (filled_line pw <$> rows) = imap (reimported pw) rows).
  rewrite imap_fmap, fmap_imap. apply imap_ext. intros i u Hu. cbn [compose]. apply list_elem_of_lookup_2, Hrows in Hu as [Hu Hpw].
  unfold compose. by apply csv_row_filled.
Qed.

(** The export re-imports: of accounts whose groups have no [;] and
    whose fields are one line each, the importer reads back every name, role,
    group and profile field, whatever quoting and formula guards the file
    needed; as exported each row is refused for its missing password only,
    and with the password column filled in exactly the rows whose password
    meets the policy are imported. *)
Theorem users_csv_reimports pw rows :
  (forall u, u ∈ rows -> exportable u) -> (forall u, u ∈ rows -> one_line (pw u)) ->
  parse_csv_users (users_csv rows) = Ok (imap (reimported (fun _ => "")) rows)
  /\ parse_csv_users (filled_csv pw rows) = Ok (imap (reimported pw) rows)
  /\ (forall i u, CsvRow.importable (reimported (fun _ => "") i u) = false
                  /\ CsvRow.importable (reimported pw i u) = password_meets_policy (pw u)).
Proof.
  intros Hrows Hpw. split; [|split].
  - change (users_csv rows) with (filled_csv (fun _ => "") rows). apply parse_filled. intros u Hu. split; [by apply Hrows|done].
  - apply parse_filled. auto.
  - intros i u. unfold CsvRow.importable, reimported. cbn [CsvRow.error CsvRow.exists_]. split; [done|].
    by destruct (password_meets_policy (pw u)).
Qed.
End RoundTrip.

(** ** Examples *)

Module UsersCsvExamples.
Import AccountExamples.
#[export] Instance ascii_classes : CharClass :=
  { is_uppercase c := (65 <=? c) && (c <=? 90); is_lowercase c := (97 <=? c) && (c <=? 122);
    is_alphanumeric c := (48 <=? c) && (c <=? 57) || (65 <=? c) && (c <=? 90) || (97 <=? c) && (c <=? 122) }.
(** Every example account is of one instant. *)
#[export] Instance one_instant : Timestamps := { format_timestamp _ := "2026-09-18T12:00:00Z" }.

Lemma one_instant_laws : TimestampsLaws.
Proof. by split. Defined.

Lemma ascii_case_laws : UnicodeCaseLaws.
Proof.
  split; [|done]. intros s. cbn [to_lowercase ascii_case]. unfold to_ascii_lowercase. induction s as [|c s IH]; [done|].
  cbn [str_map]. rewrite IH. f_equal. by destruct c as [[] [] [] [] [] [] [] []].
Defined.

Definition ana : UserRow.t :=
  UserRow.mk "1" "ana@x.gov" Role.Editor false ["saude"; "ops"] 9 None (Some "Dados, Estatistica") (Some "ana@x.gov") (Some "+55 81 9").
Definition bob : UserRow.t :=
  UserRow.mk "2" "bob" Role.Viewer true ["=cmd"] 9 (Some "ana") (Some ("=HYPERLINK(" +:+ String quote "x" +:+ String quote ")")) None None.
Definition passwords (u : UserRow.t) : string := if str_eqb (UserRow.username u) "bob" then "Strong#Pass2" else "short".

Lemma users_csv_reimports_witness :
  parse_csv_users (filled_csv passwords [ana; bob])
  = Ok [CsvRow.mk 2 "ana@x.gov" Role.Editor "short" ["saude"; "ops"] "Dados, Estatistica" "ana@x.gov" "+55 81 9" (Some "bad-password") false;
        CsvRow.mk 3 "bob" Role.Viewer "Strong#Pass2" ["=cmd"] ("=HYPERLINK(" +:+ String quote "x" +:+ String quote ")") "" "" None false]
  /\ parse_csv_users (users_csv [ana; bob]) = Ok (imap (reimported (fun _ => "")) [ana; bob]).
Proof.
  assert (forall u, u ∈ [ana; bob] -> exportable u) as Hrows.
  { intros u Hu. assert (forall g, g ∈ UserRow.groups u -> g ∈ ["saude"; "ops"; "=cmd"]) as Hg by
      (intros g; repeat (apply elem_of_cons in Hu as [->|Hu]; [cbn; set_solver|]); by apply elem_of_nil in Hu).
    assert (Forall (fun g => g <> "" /\ trim g = g /\ str_contains_char "," g = false /\ str_contains_char ";" g = false
                            /\ str_contains_char lf g = false) ["saude"; "ops"; "=cmd"]) as Hall by (vm_compute; repeat constructor; done).
    rewrite list.Forall_forall in Hall.
    assert (NoDup (UserRow.groups u)) as Hnd by
      (repeat (apply elem_of_cons in Hu as [->|Hu]; [cbn; apply (bool_decide_unpack _); vm_compute; exact I|]); by apply elem_of_nil in Hu).
    split; try (repeat (apply elem_of_cons in Hu as [->|Hu]; [vm_compute; done|]); by apply elem_of_nil in Hu).
    - split; [done|]. intros g Hin%Hg%Hall. naive_solver.
    - intros g Hin%Hg%Hall. naive_solver. }
  assert (forall u, u ∈ [ana; bob] -> one_line (passwords u)) as Hpw.
  { intros u Hu. repeat (apply elem_of_cons in Hu as [->|Hu]; [vm_compute; done|]). by apply elem_of_nil in Hu. }
  destruct (users_csv_reimports (H0 := ascii_case_laws) (H3 := one_instant_laws) passwords [ana; bob] Hrows Hpw)
    as (E & E' & _).
  split; [rewrite E'; vm_compute; reflexivity|exact E].
Defined.

(** The importer reads line by line: a line feed inside a field ends the row
    there, and what follows is a row of its own, an importable one here. *)
Definition eve : UserRow.t :=
  UserRow.mk "3" "eve" Role.Viewer false ["ops"] 9 None (Some ("x" +:+ String lf "mallory,admin,Str0ng!pass,")) None None.
Example line_feed_smuggles_a_row :
  result_map (map (fun r => (CsvRow.username r, CsvRow.role r, CsvRow.importable r))) (parse_csv_users (users_csv [eve]))
  = Ok [("eve", Role.Viewer, false); ("mallory", Role.Admin, true)].
Proof. vm_compute. reflexivity. Qed.

(** A [;] in a group's name splits it. *)
Example semicolon_splits_a_group :
  result_map (map CsvRow.groups) (parse_csv_users (users_csv [UserRow.mk "4" "dan" Role.Viewer false ["r;d"] 9 None None None None]))
  = Ok [["r"; "d"]].
Proof. vm_compute. reflexivity. Qed.
End UsersCsvExamples.
