(* ===== verification/UserRoutes.v ===== *)
(** * UserRoutes: the pages that manage accounts (routes/admin/users.rs)

    Every handler of routes/admin/users.rs behind its extractor, on the
    database, the admin sessions and the identity cache it changes.  What a
    handler reads from outside (clock, salts, ids, the parts of an upload) is
    an argument; a page is the record its template renders.  A form whose
    fields do not decode is answered by axum before the handler. *)

From Stdlib Require Import Ascii String ZArith Lia.
From stdpp Require Import base tactics list gmap strings fin_maps numbers sorting.
From S2P Require Import Prelude Text Auth Caches Database SpecStore Accounts Users MfaStore UsersCsv.

Local Open Scope string_scope.
Local Open Scope list_scope.
Local Open Scope Z_scope.
Local Open Scope ruscker_scope.

(** ** State, requests, answers *)

(** What the handlers reach of [AppState]. *)
Module Portal.
Record t := mk { db : option AccountDb; admin_sessions : AdminSessions.t; identities : IdentityCache.t }.
Definition set_db (d : AccountDb) (p : t) : t := mk (Some d) (admin_sessions p) (identities p).
Definition set_admin_sessions (s : AdminSessions.t) (p : t) : t := mk (db p) s (identities p).
Definition invalidate_identity_cache (p : t) : t := mk (db p) (admin_sessions p) (IdentityCache.invalidate (identities p)).
End Portal.

Abbreviation RM A := (St Portal.t A).

Module CreateForm.
Record t := mk { username : string; password : string; role : string; groups : string; setor : string; email : string; celular : string }.
End CreateForm.
Module EditForm.
Record t := mk { role : string; groups : string; setor : string; email : string; celular : string }.
End EditForm.
Module ProfileForm.
Record t := mk { setor : string; email : string; celular : string }.
End ProfileForm.
Module UsersQuery.
Record t := mk {
  flash : option string; n : option Z; skipped : option Z; page : option Z; q : option string; sort : option string; dir : option string }.
End UsersQuery.
Inductive ExportScope := All | Filtered.

(** A part of an upload: a field with its body, or a broken stream. *)
Inductive Part := Field (name : option string) (bytes : Result string unit) | Broken.

Module UsersPage.
Record t := mk {
  role : Role.t;
  users : list UserRow.t;
  page : Z;
  pages : Z;
  total : Z;
  kpis : UserCounts.t;
  q : string;
  sort : string;
  dir : string;
  me : string;
  unscoped : bool;
  flash : string;
  import_summary : option (Z * Z) }.
Definition can_edit_user (p : t) (user : UserRow.t) : bool := unscoped p || negb (str_eqb (UserRow.username user) (me p)).
Definition aria_sort (p : t) (col : string) : string :=
  if negb (str_eqb (sort p) col) then "" else if str_eqb (dir p) "asc" then "ascending" else "descending".
(** [encode] is [urlencoding::encode]. *)
Definition query_suffix (encode : string -> string) (p : t) : string :=
  (if str_is_empty (q p) then "" else "&q=" +:+ encode (q p))
  +:+ (if str_eqb (sort p) "created" && str_eqb (dir p) "desc" then "" else "&sort=" +:+ sort p +:+ "&dir=" +:+ dir p).
End UsersPage.

Definition assignable_roles (unscoped : bool) : list Role.t :=
  if unscoped then [Role.Viewer; Role.Editor; Role.Admin] else [Role.Viewer; Role.Editor].

Module UserEditPage.
Record t := mk {
  role : Role.t;
  user : UserRow.t;
  me : string;
  editable_groups : list string;
  readonly_groups : list string;
  unscoped : bool;
  mfa_enrolled_at : option Z;
  flash : string }.
End UserEditPage.

Inductive Response :=
  | Rejected (r : Rejection)
  | ServiceUnavailable (message : string)
  | NotFound
  | ServerError (message : string)
  | RedirectFlash (flash : string)
  | RedirectEditFlash (username flash : string)
  | Imported (imported skipped : Z)
  | Users (page : UsersPage.t)
  | UserEdit (page : UserEditPage.t)
  | ImportPreview (rows : list CsvRow.t) (raw_csv : string) (importable : Z)
  | CsvDownload (body : string) (filtered : bool).

(** [location] of the redirects. *)
Definition location (r : Response) : option string :=
  match r with
  | RedirectFlash flash => Some ("/admin/users?flash=" +:+ flash)
  | RedirectEditFlash username flash => Some ("/admin/users/" +:+ username +:+ "/edit?flash=" +:+ flash)
  | Imported n k => Some ("/admin/users?flash=imported&n=" +:+ show n +:+ "&skipped=" +:+ show k)
  | _ => None
  end.

Definition USERS_PER_PAGE : Z := 50.

(** What one request draws from outside: the time, a salt, an id. *)
Module Draw.
Record t := mk { now : Z; salt : string; id : string }.
End Draw.

(** ** The database behind the state *)

(** The handlers call it where a pool is attached. *)
Definition on_db {A} (m : AM (DbResult A)) : RM (DbResult A) := fun p =>
  match Portal.db p with
  | Some d => let '(r, d') := m d in (r, Portal.set_db d' p)
  | None => (Err (Failed "no db"), p)
  end.

Definition with_pool (message : string) (k : RM Response) : RM Response := fun p =>
  match Portal.db p with Some _ => k p | None => (ServiceUnavailable message, p) end.

Definition revoke_by_actor (actor : string) : RM unit :=
  st_modify (fun p => Portal.set_admin_sessions (AdminSessions.revoke_by_actor actor (Portal.admin_sessions p)) p).
Definition invalidate_identity_cache : RM unit := st_modify Portal.invalidate_identity_cache.

Section UserRoutes.
Context `{UnicodeCase} `{JsonObject} `{Argon2} `{CharClass} `{Timestamps}.
Context (dialect : Dialect) (collate : string -> string -> bool) (pg_lower : string -> string).

(** *** Extractors *)

(** [EditorScope::from_editor]: the scope, and the lookup it costs. *)
Definition editor_scope (info : SessionInfo.t) : RM EditorScope.t := fun p =>
  match Portal.db p with
  | None => (EditorScope.from_editor info None, p)
  | Some d =>
    (EditorScope.from_editor info (Some (fun u => result_map_err (fun _ => "db error") (fetch u d).1)),
     match SessionInfo.role info, SessionInfo.actor info with
     | Role.Admin, _ | _, None => p
     | _, Some u => Portal.set_db (fetch u d).2 p
     end)
  end.

Definition guarded_by (guard : Z -> AdminAuth.t -> option string -> AdminSessions.t -> Result SessionInfo.t Rejection * AdminSessions.t)
    (now : Z) (auth : AdminAuth.t) (cookie : option string) (k : SessionInfo.t -> RM Response) : RM Response := fun p =>
  let '(r, sessions) := guard now auth cookie (Portal.admin_sessions p) in
  let p := Portal.set_admin_sessions sessions p in
  match r with Ok info => k info p | Err e => (Rejected e, p) end.

Definition as_admin := guarded_by require_admin.
Definition as_editor (now : Z) (auth : AdminAuth.t) (cookie : option string) (k : EditorScope.t -> RM Response) : RM Response :=
  guarded_by require_editor now auth cookie (fun info => do scope <- editor_scope info; k scope).

Definition actor (s : EditorScope.t) : string := default "token" (EditorScope.actor s).

Definition scoped_target (scope : EditorScope.t) (raw_username : string) : RM (Result UserRow.t Response) :=
  let username := normalize_username raw_username in
  if negb (is_valid_username username) then st_ret (Err NotFound)
  else
    do r <- on_db (fetch username);
    st_ret (match r with
            | Ok (Some user) => if EditorScope.may_touch_user scope user then Ok user else Err NotFound
            | Ok None => Err NotFound
            | Err _ => Err (ServerError "db error")
            end).

Definition is_scoped_self_edit (scope : EditorScope.t) (username : string) : bool :=
  negb (EditorScope.unscoped scope) && bool_decide (EditorScope.actor scope = Some username).

Definition would_strip_last_admin (username : string) (new_role : option Role.t) : RM bool :=
  do target <- on_db (fetch username);
  match target with
  | Ok (Some u) =>
    if negb (bool_decide (UserRow.role u = Role.Admin)) then st_ret false
    else if bool_decide (new_role = Some Role.Admin) then st_ret false
    else do n <- on_db count_admins; st_ret (match n with Ok n => n | Err _ => 0 end <=? 1)
  | _ => st_ret false
  end.

(** *** Pages *)

Definition known_flash (known : list string) (flash : option string) : string :=
  match flash with Some f => if existsb (str_eqb f) known then f else "" | None => "" end.
Definition users_flashes : list string :=
  ["saved"; "created"; "deleted"; "last-admin"; "bad-input"; "weak-password"; "exists"; "imported"; "scope-role"; "scope-groups";
   "group-required"; "self-edit"].
Definition edit_flashes : list string :=
  ["saved"; "mfa-reset"; "last-admin"; "bad-input"; "weak-password"; "scope-role"; "scope-groups"; "self-edit"].

Definition index (scope : EditorScope.t) (q : UsersQuery.t) : RM Response :=
  with_pool "database not attached — start with --db <path>" (
  let search := trim (default "" (UsersQuery.q q)) in
  let filter := user_filter scope search in
  do total <- on_db (count_filtered dialect pg_lower filter);
  match total with
  | Err _ => st_ret (ServerError "db error")
  | Ok total =>
    do counts <- on_db (counts dialect pg_lower (UserFilter.visible_groups filter));
    match counts with
    | Err _ => st_ret (ServerError "db error")
    | Ok counts =>
      let pages := Z.max 1 ((total + USERS_PER_PAGE - 1) / USERS_PER_PAGE) in
      let page := Z.min pages (Z.max 1 (default 1 (UsersQuery.page q))) in
      let order := UserOrder.parse (default "" (UsersQuery.sort q)) (default "" (UsersQuery.dir q)) in
      do users <- on_db (list_page_ordered dialect collate pg_lower filter order USERS_PER_PAGE ((page - 1) * USERS_PER_PAGE));
      match users with
      | Err _ => st_ret (ServerError "db error")
      | Ok users =>
        if negb (forallb (EditorScope.may_touch_user scope) users) then st_ret (ServerError "db error")
        else
          let flash := known_flash users_flashes (UsersQuery.flash q) in
          let import_summary :=
            if str_eqb flash "imported" then Some (default 0 (UsersQuery.n q), default 0 (UsersQuery.skipped q)) else None in
          st_ret (Users (UsersPage.mk (EditorScope.role scope) users page pages total counts search
            (UserOrder.as_query order).1 (UserOrder.as_query order).2 (actor scope) (EditorScope.unscoped scope) flash import_summary))
      end
    end
  end).

Definition edit (scope : EditorScope.t) (username : string) (flash : option string) : RM Response :=
  with_pool "no db" (
  do target <- scoped_target scope username;
  match target with
  | Err response => st_ret response
  | Ok user =>
    let username := UserRow.username user in
    let flash := known_flash edit_flashes flash in
    do mfa <- (if EditorScope.unscoped scope
               then do row <- on_db (fetch_factor username); st_ret (result_map (fun row => row ← row; MfaRow.confirmed_at row) row)
               else st_ret (Ok None));
    match mfa with
    | Err _ => st_ret (ServerError "db error")
    | Ok mfa_enrolled_at =>
      st_ret (UserEdit (UserEditPage.mk (EditorScope.role scope) user (actor scope)
        (EditorScope.merge_preserving_out_of_scope scope [] (UserRow.groups user))
        (EditorScope.merge_preserving_out_of_scope scope (UserRow.groups user) [])
        (EditorScope.unscoped scope) mfa_enrolled_at flash))
    end
  end).

(** *** Changes *)

Definition create_handler (scope : EditorScope.t) (form : CreateForm.t) (d : Draw.t) : RM Response :=
  with_pool "no db" (
  let username := normalize_username (CreateForm.username form) in
  let role := default Role.Viewer (Role.parse (CreateForm.role form)) in
  if negb (is_valid_username username) then st_ret (RedirectFlash "bad-input")
  else if negb (password_meets_policy (CreateForm.password form)) then st_ret (RedirectFlash "weak-password")
  else
    let groups := parse_groups (CreateForm.groups form) in
    if negb (EditorScope.may_assign_role scope role) then st_ret (RedirectFlash "scope-role")
    else if negb (EditorScope.may_assign_groups scope groups) then st_ret (RedirectFlash "scope-groups")
    else if negb (EditorScope.unscoped scope) && bool_decide (groups = []) then st_ret (RedirectFlash "group-required")
    else
      do r <- on_db (create (Draw.salt d) (Draw.id d) (Draw.now d) username (CreateForm.password form) role true groups
                       (Some (actor scope)));
      match r with
      | Ok _ =>
        if existsb (fun s => negb (str_is_empty (trim s))) [CreateForm.setor form; CreateForm.email form; CreateForm.celular form]
        then
          do ignored <- on_db (update_profile (Draw.now d) username (Some (CreateForm.setor form)) (Some (CreateForm.email form))
                                 (Some (CreateForm.celular form)) (Some (actor scope)));
          st_ret (RedirectFlash "created")
        else st_ret (RedirectFlash "created")
      | Err _ => st_ret (RedirectFlash "exists")
      end).

Definition save_edit (scope : EditorScope.t) (username : string) (form : EditForm.t) (d : Draw.t) : RM Response :=
  with_pool "no db" (
  do target <- scoped_target scope username;
  match target with
  | Err response => st_ret response
  | Ok current =>
    let username := UserRow.username current in
    if is_scoped_self_edit scope username then st_ret (RedirectEditFlash username "self-edit")
    else
      match Role.parse (EditForm.role form) with
      | None => st_ret (RedirectEditFlash username "bad-input")
      | Some role =>
        if negb (EditorScope.may_assign_role scope role) then st_ret (RedirectEditFlash username "scope-role")
        else
          do strips <- would_strip_last_admin username (Some role);
          if strips : bool then st_ret (RedirectEditFlash username "last-admin")
          else
            let requested_groups := parse_groups (EditForm.groups form) in
            if negb (EditorScope.may_assign_groups scope requested_groups) then st_ret (RedirectEditFlash username "scope-groups")
            else
              let groups := EditorScope.merge_preserving_out_of_scope scope (UserRow.groups current) requested_groups in
              do r <- on_db (update_account dialect (Draw.now d) username
                        (AccountUpdate.mk role groups (Some (EditForm.setor form)) (Some (EditForm.email form))
                           (Some (EditForm.celular form))) (Some (actor scope)));
              match r with
              | Ok _ =>
                do u <- (if bool_decide (UserRow.role current = role) then st_ret tt else revoke_by_actor username);
                do u <- invalidate_identity_cache;
                st_ret (RedirectFlash "saved")
              | Err _ =>
                do strips <- would_strip_last_admin username (Some role);
                st_ret (RedirectEditFlash username (if strips : bool then "last-admin" else "bad-input"))
              end
      end
  end).

Definition set_profile (scope : EditorScope.t) (username : string) (form : ProfileForm.t) (d : Draw.t) : RM Response :=
  with_pool "no db" (
  do target <- scoped_target scope username;
  match target with
  | Err response => st_ret response
  | Ok target =>
    do r <- on_db (update_profile (Draw.now d) (UserRow.username target) (Some (ProfileForm.setor form)) (Some (ProfileForm.email form))
                     (Some (ProfileForm.celular form)) (Some (actor scope)));
    match r with
    | Ok _ => do u <- invalidate_identity_cache; st_ret (RedirectFlash "saved")
    | Err _ => st_ret (RedirectFlash "bad-input")
    end
  end).

Definition set_groups_handler (scope : EditorScope.t) (username groups : string) (d : Draw.t) : RM Response :=
  with_pool "no db" (
  do target <- scoped_target scope username;
  match target with
  | Err response => st_ret response
  | Ok target =>
    if is_scoped_self_edit scope (UserRow.username target) then st_ret (RedirectEditFlash (UserRow.username target) "self-edit")
    else
      let requested := parse_groups groups in
      if negb (EditorScope.may_assign_groups scope requested) then st_ret (RedirectEditFlash (UserRow.username target) "scope-groups")
      else
        let groups := EditorScope.merge_preserving_out_of_scope scope (UserRow.groups target) requested in
        do r <- on_db (set_groups (Draw.now d) (UserRow.username target) groups (Some (actor scope)));
        match r with
        | Ok _ => do u <- invalidate_identity_cache; st_ret (RedirectFlash "saved")
        | Err _ => st_ret (RedirectFlash "bad-input")
        end
  end).

Definition set_role_handler (scope : EditorScope.t) (username role : string) (d : Draw.t) : RM Response :=
  with_pool "no db" (
  do target <- scoped_target scope username;
  match target with
  | Err response => st_ret response
  | Ok target =>
    if is_scoped_self_edit scope (UserRow.username target) then st_ret (RedirectEditFlash (UserRow.username target) "self-edit")
    else
      let new_role := default Role.Viewer (Role.parse role) in
      if negb (EditorScope.may_assign_role scope new_role) then st_ret (RedirectEditFlash (UserRow.username target) "scope-role")
      else
        do strips <- would_strip_last_admin (UserRow.username target) (Some new_role);
        if strips : bool then st_ret (RedirectFlash "last-admin")
        else
          do r <- on_db (set_role dialect (Draw.now d) (UserRow.username target) new_role (Some (actor scope)));
          match r with
          | Ok _ => do u <- revoke_by_actor (UserRow.username target); st_ret (RedirectFlash "saved")
          | Err _ => st_ret (RedirectFlash "bad-input")
          end
  end).

Definition reset_password (scope : EditorScope.t) (username password : string) (d : Draw.t) : RM Response :=
  with_pool "no db" (
  do target <- scoped_target scope username;
  match target with
  | Err response => st_ret response
  | Ok target =>
    if is_scoped_self_edit scope (UserRow.username target) then st_ret (RedirectEditFlash (UserRow.username target) "self-edit")
    else if negb (password_meets_policy password) then st_ret (RedirectEditFlash (UserRow.username target) "weak-password")
    else
      do r <- on_db (set_password (Draw.salt d) (Draw.now d) (UserRow.username target) password true (Some (actor scope)));
      match r with
      | Ok _ => do u <- revoke_by_actor (UserRow.username target); st_ret (RedirectFlash "saved")
      | Err _ => st_ret (RedirectFlash "bad-input")
      end
  end).

(** The check that [reset_mfa] and [delete] share. *)
Definition existing_user (username : string) (k : RM Response) : RM Response :=
  if negb (is_valid_username username) then st_ret NotFound
  else
    do r <- on_db (fetch username);
    match r with
    | Ok (Some _) => k
    | Ok None => st_ret NotFound
    | Err _ => st_ret (ServerError "db error")
    end.

Definition reset_mfa (info : SessionInfo.t) (username : string) (d : Draw.t) : RM Response :=
  with_pool "no db" (
  let username := normalize_username username in
  existing_user username (
    do r <- on_db (MfaStore.reset (Draw.now d) username (audit_actor info));
    st_ret (RedirectEditFlash username (match r with Ok _ => "mfa-reset" | Err _ => "bad-input" end)))).

Definition delete_handler (info : SessionInfo.t) (username : string) (d : Draw.t) : RM Response :=
  with_pool "no db" (
  let username := normalize_username username in
  existing_user username (
    do strips <- would_strip_last_admin username None;
    if strips : bool then st_ret (RedirectFlash "last-admin")
    else
      do r <- on_db (delete dialect (Draw.now d) username (Some (audit_actor info)));
      match r with
      | Ok _ => do u <- revoke_by_actor username; do u <- invalidate_identity_cache; st_ret (RedirectFlash "deleted")
      | Err _ => st_ret (RedirectFlash "bad-input")
      end)).

(** *** Files *)

(** [export_json] prints the audited summary; the file's name carries the
    date and whether it is filtered. *)
Definition export_csv (export_json : bool -> string -> Z -> string) (info : SessionInfo.t) (scope : ExportScope) (q : option string)
    (d : Draw.t) : RM Response :=
  with_pool "database not attached — start with --db <path>" (
  let search := match scope with Filtered => trim (default "" q) | All => "" end in
  let filtered := negb (str_is_empty search) in
  do users <- on_db (list_filtered dialect collate pg_lower (UserFilter.mk search None));
  match users with
  | Err _ => st_ret (ServerError "db error")
  | Ok users =>
    do r <- on_db (audit_row "insert audit row" (Some (audit_actor info)) "users.export" "users"
                     (Some (export_json filtered search (zlen users))) (Draw.now d));
    match r with
    | Err _ => st_ret (ServerError "audit error")
    | Ok _ => st_ret (CsvDownload (users_csv users) filtered)
    end
  end).

(** The multipart loop; [lossy] is [String::from_utf8_lossy].  [None] is a
    broken upload. *)
Fixpoint read_upload (lossy : string -> string) (raw : option string) (parts : list Part) : option (option string) :=
  match parts with
  | [] => Some raw
  | Broken :: _ => None
  | Field name bytes :: parts =>
    if negb (bool_decide (name = Some "file")) then read_upload lossy raw parts
    else match bytes with
         | Ok b => read_upload lossy (if str_is_empty b then raw else Some (lossy b)) parts
         | Err _ => None
         end
  end.

Fixpoint flag_existing (rows : list CsvRow.t) : RM (list CsvRow.t) :=
  match rows with
  | [] => st_ret []
  | r :: rows =>
    do found <- (if bool_decide (CsvRow.error r = None) then
                   do u <- on_db (fetch (CsvRow.username r)); st_ret (match u with Ok (Some _) => true | _ => false end)
                 else st_ret false);
    do rows <- flag_existing rows;
    st_ret ((if found : bool then CsvRow.set_exists true r else r) :: rows)
  end.

Definition import (lossy : string -> string) (parts : list Part) : RM Response :=
  with_pool "no db" (
  match read_upload lossy None parts with
  | None | Some None => st_ret (RedirectFlash "bad-input")
  | Some (Some raw) =>
    match parse_csv_users raw with
    | Err _ => st_ret (RedirectFlash "bad-input")
    | Ok rows =>
      do rows <- flag_existing rows;
      st_ret (ImportPreview rows raw (zlen (List.filter CsvRow.importable rows)))
    end
  end).

(** One row of the confirmed import: imported, or skipped. *)
Definition import_row (actor : option string) (r : CsvRow.t) (d : Draw.t) : RM bool :=
  if negb (bool_decide (CsvRow.error r = None)) then st_ret false
  else
    do c <- on_db (create (Draw.salt d) (Draw.id d) (Draw.now d) (CsvRow.username r) (CsvRow.password r) (CsvRow.role r) true
                     (CsvRow.groups r) actor);
    match c with
    | Err _ => st_ret false
    | Ok _ =>
      if str_is_empty (CsvRow.setor r) && str_is_empty (CsvRow.email r) && str_is_empty (CsvRow.celular r) then st_ret true
      else
        do w <- on_db (update_profile (Draw.now d) (CsvRow.username r) (Some (CsvRow.setor r)) (Some (CsvRow.email r))
                         (Some (CsvRow.celular r)) actor);
        match w with
        | Ok _ => st_ret true
        | Err _ => do ignored <- on_db (delete dialect (Draw.now d) (CsvRow.username r) actor); st_ret false
        end
    end.

(** [draws] gives each row its salt and id, by line number. *)
Fixpoint import_rows (actor : option string) (draws : Z -> Draw.t) (rows : list CsvRow.t) (imported skipped : Z) : RM (Z * Z) :=
  match rows with
  | [] => st_ret (imported, skipped)
  | r :: rows =>
    do ok <- import_row actor r (draws (CsvRow.line_no r));
    if ok : bool then import_rows actor draws rows (imported + 1) skipped
    else import_rows actor draws rows imported (skipped + 1)
  end.

Definition import_confirm (info : SessionInfo.t) (raw_csv : string) (draws : Z -> Draw.t) : RM Response :=
  with_pool "no db" (
  match parse_csv_users raw_csv with
  | Err _ => st_ret (RedirectFlash "bad-input")
  | Ok rows =>
    do counts <- import_rows (Some (audit_actor info)) draws rows 0 0;
    do u <- invalidate_identity_cache;
    st_ret (Imported counts.1 counts.2)
  end).

(** *** The routes *)

Inductive Request :=
  | GetUsers (q : UsersQuery.t)
  | PostUsers (form : CreateForm.t)
  | GetExport (scope : ExportScope) (q : option string)
  | PostImport (parts : list Part)
  | PostImportConfirm (raw_csv : string)
  | GetEdit (username : string) (flash : option string)
  | PostEdit (username : string) (form : EditForm.t)
  | PostRole (username role : string)
  | PostGroups (username groups : string)
  | PostProfile (username : string) (form : ProfileForm.t)
  | PostPassword (username password : string)
  | PostMfaReset (username : string)
  | PostDelete (username : string).

Definition routes (export_json : bool -> string -> Z -> string) (lossy : string -> string) (now : Z) (auth : AdminAuth.t)
    (cookie : option string) (draws : Z -> Draw.t) (r : Request) : RM Response :=
  let editor := as_editor now auth cookie in
  let admin := as_admin now auth cookie in
  let d := draws 0 in
  match r with
  | GetUsers q => editor (fun scope => index scope q)
  | PostUsers form => editor (fun scope => create_handler scope form d)
  | GetExport scope q => admin (fun info => export_csv export_json info scope q d)
  | PostImport parts => admin (fun _ => import lossy parts)
  | PostImportConfirm raw => admin (fun info => import_confirm info raw draws)
  | GetEdit u flash => editor (fun scope => edit scope u flash)
  | PostEdit u form => editor (fun scope => save_edit scope u form d)
  | PostRole u role => editor (fun scope => set_role_handler scope u role d)
  | PostGroups u groups => editor (fun scope => set_groups_handler scope u groups d)
  | PostProfile u form => editor (fun scope => set_profile scope u form d)
  | PostPassword u password => editor (fun scope => reset_password scope u password d)
  | PostMfaReset u => admin (fun info => reset_mfa info u d)
  | PostDelete u => admin (fun info => delete_handler info u d)
  end.
End UserRoutes.
