(* ===== verification/UserAccess.v ===== *)
(** * UserAccess: what the account pages can do (routes/admin/users.rs)

    Who may change what through the handlers of UserRoutes: an Editor stays
    inside the groups of the scope, an import overwrites nothing, a change of
    credentials ends sessions.  Every handler is summed up in one effect
    ([Effect]): nothing, one account edited as the scope allows, or one
    account created. *)

From Stdlib Require Import Ascii String ZArith Lia.
From stdpp Require Import base tactics list gmap strings fin_maps numbers sorting.
From S2P Require Import Prelude Text Auth Caches Database SpecStore Accounts Users MfaStore UsersCsv UserRoutes.

Local Open Scope string_scope.
Local Open Scope list_scope.
Local Open Scope Z_scope.
Local Open Scope ruscker_scope.

(** ** What one write does to the accounts *)

(** The fields of an account a write may set, and to what. *)
Module Change.
Record t := mk { role : option string; groups : option string; password : bool }.
Definition none : t := mk None None false.
End Change.

Definition changes (c : Change.t) (a a' : Account.t) : Prop :=
  Account.id a' = Account.id a /\ Account.username a' = Account.username a
  /\ (Account.role a' = Account.role a \/ Change.role c = Some (Account.role a'))
  /\ (Account.groups a' = Account.groups a \/ Change.groups c = Some (Account.groups a'))
  /\ (Account.password_hash a' = Account.password_hash a \/ Change.password c = true).

#[global] Instance changes_preorder c : PreOrder (changes c).
Proof.
  split; [intros a; unfold changes; naive_solver|].
  intros a1 a2 a3 (?&?&Hr&Hg&Hp) (?&?&Hr'&Hg'&Hp'). unfold changes. split_and!; try congruence.
  - destruct Hr' as [->|]; [|by right]. destruct Hr as [->|]; [by left|by right].
  - destruct Hg' as [->|]; [|by right]. destruct Hg as [->|]; [by left|by right].
  - destruct Hp' as [->|]; [|by right]. destruct Hp as [->|]; [by left|by right].
Qed.

(** Only [u]'s account, factor state and grants may differ. *)
Record edits (u : string) (c : Change.t) (s s' : AccountTables.t) : Prop := {
  ed_others v : v <> u -> AccountTables.users s' !! v = AccountTables.users s !! v;
  ed_account : option_Forall2 (changes c) (AccountTables.users s !! u) (AccountTables.users s' !! u);
  ed_factors v : v <> u -> AccountTables.user_mfa s' !! v = AccountTables.user_mfa s !! v;
  ed_recovery : AccountTables.user_mfa_recovery s' = AccountTables.user_mfa_recovery s;
  ed_grants i g : GrantRow.username g <> u ->
    AccountTables.user_mfa_grants s' !! i = Some g <-> AccountTables.user_mfa_grants s !! i = Some g
}.

#[global] Instance edits_preorder u c : PreOrder (edits u c).
Proof.
  split.
  - intros s. by split; [|reflexivity|..].
  - intros s1 s2 s3 [O1 A1 F1 R1 G1] [O2 A2 F2 R2 G2]. split.
    + intros v Hv. by rewrite O2, O1.
    + by etransitivity.
    + intros v Hv. by rewrite F2, F1.
    + congruence.
    + intros i g Hg. by rewrite G2, G1.
Qed.

(** Nothing but the audit log. *)
Definition audits (s s' : AccountTables.t) : Prop := exists l, s' = AccountTables.set_audit_log l s.
#[global] Instance audits_preorder : PreOrder audits.
Proof. split; [intros []; by eexists|]. intros s1 s2 s3 [l ->] [l' ->]. by eexists. Qed.

Lemma audits_edits u c s s' : audits s s' -> edits u c s s'.
Proof. intros [l ->]. by split; [|reflexivity|..]. Qed.

Lemma edits_alter u c guard f s : (forall a, changes c a (f a)) -> edits u c s (alter_user u guard f s).2.
Proof.
  intros Hf. destruct (alter_user_inv u guard f s) as [->|(a & Hu & _ & ->)]; [reflexivity|]. split; try done.
  - intros v Hv. cbn. by rewrite lookup_insert_ne.
  - cbn. rewrite lookup_insert_eq, Hu. by constructor.
Qed.

Lemma edits_bump u c s : edits u c s (bump_security_epoch u s).
Proof.
  unfold bump_security_epoch. pose proof (alter_factor_others u (fun _ => true) bump_epoch s) as (Hu & Hr & Hg).
  split; try by rewrite ?Hu, ?Hr, ?Hg. 
  intros v Hv. destruct (alter_factor_inv u (fun _ => true) bump_epoch s) as [->|(row & _ & _ & ->)]; [done|]. cbn. by rewrite lookup_insert_ne.
Qed.

Lemma edits_delete_grants u c s : edits u c s (delete_grants (grant_of u) s).2.
Proof.
  split; try done. intros i g Hg. cbn. rewrite map_lookup_filter_Some. cbn. split; [by intros [? _]|]. intros Hi. split; [done|].
  unfold grant_of. by apply str_eqb_neq.
Qed.

Section Writes.
Context `{UnicodeCase} `{JsonObject} `{Argon2} (dialect : Dialect).

Lemma edits_audit u c ctx actor action target diff now : preserves (on_tables (edits u c)) (audit_row ctx actor action target diff now).
Proof. apply preserves_execute; [apply _|]. intros s. apply audits_edits. by eexists. Qed.

Lemma edits_update u c ctx guard f msg :
  (forall a, changes c a (f a)) -> preserves (on_tables (edits u c)) (update_user ctx u guard f msg).
Proof. intros Hf. unfold update_user, bail. preserves_auto. apply preserves_statement; [apply _|]. intros s. by apply edits_alter. Qed.

Lemma edits_delete_all u c : preserves (on_tables (edits u c)) (delete_all u).
Proof.
  unfold delete_all. preserves_auto.
  - apply preserves_execute; [apply _|]. intros s. apply edits_bump.
  - apply preserves_statement; [apply _|]. intros s. apply edits_delete_grants.
Qed.

Lemma edits_lock u c : preserves (on_tables (edits u c)) (admin_mutation_lock dialect).
Proof. unfold admin_mutation_lock. preserves_auto. Qed.

#[local] Hint Resolve edits_audit edits_delete_all edits_lock : preserves.
#[local] Ltac edits := cbv zeta; unfold hashed, audit; tables_auto; apply edits_update; intros ?; unfold changes; cbn; by auto 10.

Lemma update_profile_edits now u setor email celular actor :
  preserves (on_tables (edits (normalize_username u) Change.none)) (update_profile now u setor email celular actor).
Proof. unfold update_profile. edits. Qed.

Lemma set_groups_edits now u gs actor :
  preserves (on_tables (edits (normalize_username u) (Change.mk None (Some (join_groups gs)) false))) (set_groups now u gs actor).
Proof. unfold set_groups. edits. Qed.

Lemma set_role_edits now u r actor :
  preserves (on_tables (edits (normalize_username u) (Change.mk (Some (Role.as_str r)) None false))) (set_role dialect now u r actor).
Proof. unfold set_role. edits. Qed.

Lemma set_password_edits salt now u pw must actor :
  preserves (on_tables (edits (normalize_username u) (Change.mk None None true))) (set_password salt now u pw must actor).
Proof. unfold set_password. edits. Qed.

Lemma update_account_edits now u upd actor :
  preserves (on_tables (edits (normalize_username u)
      (Change.mk (Some (Role.as_str (AccountUpdate.role upd))) (Some (join_groups (AccountUpdate.groups upd))) false)))
    (update_account dialect now u upd actor).
Proof. unfold update_account. edits. Qed.
End Writes.

(** ** What one request does *)

Definition tables_of (p : Portal.t) : option AccountTables.t := ConfigDb.tables <$> Portal.db p.

(** The tables move by [R], the sessions stay. *)
Definition moves (R : AccountTables.t -> AccountTables.t -> Prop) (p p' : Portal.t) : Prop :=
  option_Forall2 R (tables_of p) (tables_of p') /\ Portal.admin_sessions p' = Portal.admin_sessions p.

#[global] Instance moves_preorder R `{!PreOrder R} : PreOrder (moves R).
Proof.
  split; [by intros p|]. intros p1 p2 p3 [H1 E1] [H2 E2]. split; [by etransitivity|congruence].
Qed.

Lemma moves_mono (R R' : AccountTables.t -> AccountTables.t -> Prop) p p' :
  (forall s s', R s s' -> R' s s') -> moves R p p' -> moves R' p p'.
Proof. intros Hr [Ht Hs]. split; [|done]. inversion Ht as [x y Hxy E E'|E E']; constructor. by apply Hr. Qed.

Lemma moves_eq p p' : moves eq p p' <-> tables_of p' = tables_of p /\ Portal.admin_sessions p' = Portal.admin_sessions p.
Proof.
  unfold moves. split; intros [Ht Hs]; (split; [|done]).
  - inversion Ht as [x y Hxy E E'|E E']; congruence.
  - rewrite Ht. by destruct (tables_of p); constructor.
Qed.

Lemma on_db_moves {A} R `{!PreOrder R} (m : AM (DbResult A)) : preserves (on_tables R) m -> preserves (moves R) (on_db m).
Proof.
  intros Hm p. unfold on_db, moves, tables_of. destruct (Portal.db p) as [d|] eqn:Ed; [|cbn; rewrite Ed; by split; [constructor|]].
  specialize (Hm d). destruct (m d) as [r d']. cbn in *. by split; [constructor|].
Qed.

(** A write that answers with an error has changed nothing. *)
Definition atomic {A} (m : AM (DbResult A)) : Prop :=
  forall db e db', m db = (Err e, db') -> ConfigDb.tables db' = ConfigDb.tables db.

Lemma on_db_atomic {A} (m : AM (DbResult A)) p e p' : atomic m -> on_db m p = (Err e, p') -> moves eq p p'.
Proof.
  intros Hm. unfold on_db. destruct (Portal.db p) as [d|] eqn:Ed; [|intros [= _ <-]; reflexivity].
  destruct (m d) as [r d'] eqn:Em. intros [= -> <-]. apply moves_eq. split; [|done]. unfold tables_of. rewrite Ed. cbn.
  by rewrite (Hm d e d' Em).
Qed.

#[global] Instance eq_preorder {A} : PreOrder (@eq A).
Proof. split; [by intros ?|by intros ? ? ? -> ->]. Qed.

Lemma with_pool_inv message k p r p' :
  with_pool message k p = (r, p') -> p' = p \/ exists s, tables_of p = Some s /\ k p = (r, p').
Proof.
  unfold with_pool, tables_of. destruct (Portal.db p) as [d|]; [right; by eexists|]. intros [= _ <-]. by left.
Qed.

(** What an Editor's scope allows a write of [a] to set. *)
Definition allowed (scope : EditorScope.t) (u : string) (a : Account.t) (c : Change.t) : Prop :=
  (is_scoped_self_edit scope u = true -> c = Change.none)
  /\ (forall r, Change.role c = Some r -> exists role, r = Role.as_str role /\ EditorScope.may_assign_role scope role = true)
  /\ (forall g, Change.groups c = Some g -> exists requested, EditorScope.may_assign_groups scope requested = true
        /\ g = join_groups (EditorScope.merge_preserving_out_of_scope scope (parse_groups (Account.groups a)) requested)).

(** A change of what an account may do. *)
Definition quiet (a : Account.t) (c : Change.t) : Prop :=
  Change.password c = false /\ (forall r, Change.role c = Some r -> r = Account.role a).

Inductive Effect (scope : EditorScope.t) (p p' : Portal.t) : Prop :=
  | eff_none : moves audits p p' -> Effect scope p p'
  | eff_edit s s' u a c :
      tables_of p = Some s -> tables_of p' = Some s' -> AccountTables.users s !! u = Some a ->
      EditorScope.may_touch_user scope (row_from a) = true -> edits u c s s' -> allowed scope u a c ->
      (Portal.admin_sessions p' = Portal.admin_sessions p /\ quiet a c
       \/ Portal.admin_sessions p' = AdminSessions.revoke_by_actor u (Portal.admin_sessions p)) ->
      Effect scope p p'
  | eff_create s s1 s' u a role gs :
      tables_of p = Some s -> tables_of p' = Some s' -> AccountTables.users s !! u = None -> Account.role a = Role.as_str role ->
      Account.groups a = join_groups gs ->
      EditorScope.may_assign_role scope role = true -> EditorScope.may_assign_groups scope gs = true ->
      s1 = AccountTables.set_users (<[u := a]> (AccountTables.users s)) s -> edits u Change.none s1 s' ->
      Portal.admin_sessions p' = Portal.admin_sessions p -> Effect scope p p'.

(** The accounts as the repository keeps them. *)
Definition accounts_typed (s : AccountTables.t) : Prop :=
  map_Forall (fun u a => Account.username a = u /\ account_typed a) (AccountTables.users s).

(** Taking a handler's run apart. *)
Ltac handler_step :=
  match goal with
  | H : st_bind _ _ _ = _ |- _ =>
    let Hm := fresh "Hm" in let q := fresh "q" in let x := fresh "x" in apply st_bind_inv in H as (x & q & Hm & H)
  | H : st_ret _ _ = _ |- _ => injection H as <- <-
  | H : st_modify _ _ = _ |- _ => injection H as <- <-
  | H : invalidate_identity_cache _ = _ |- _ => injection H as <- <-
  | H : revoke_by_actor _ _ = _ |- _ => injection H as <- <-
  | H : with_pool _ _ _ = _ |- _ => apply with_pool_inv in H as [->|(? & _ & H)]
  | H : (match ?x with Ok _ => _ | Err _ => _ end) _ = _ |- _ => let y := fresh "y" in let e := fresh "e" in destruct x as [y|e]
  | H : (match ?x with Some _ => _ | None => _ end) _ = _ |- _ =>
    let y := fresh "y" in let E := fresh "E" in destruct x as [y|] eqn:E
  | H : (if ?b then _ else _) _ = _ |- _ => let E := fresh "E" in destruct b eqn:E
  end.

Section Handlers.
Context `{UnicodeCase} `{!UnicodeCaseLaws} `{JsonObject} `{Argon2} `{CharClass} `{Timestamps}.
Context (dialect : Dialect) (collate : string -> string -> bool) (pg_lower : string -> string).

(** *** Reads *)

Lemma reads_query {A B} ctx (f : AccountTables.t -> A) (k : DbResult A -> B) :
  preserves (moves eq) (do r <- on_db (query ctx f); st_ret (k r)).
Proof.
  apply preserves_bind; [apply _| |intros r; apply preserves_ret; apply _].
  apply on_db_moves; [apply _|]. apply preserves_query. apply _.
Qed.

Lemma reads_fetch u : preserves (moves eq) (on_db (fetch u)).
Proof. apply on_db_moves; [apply _|]. apply preserves_query. apply _. Qed.

Lemma reads_strip u r : preserves (moves eq) (would_strip_last_admin u r).
Proof.
  unfold would_strip_last_admin. apply preserves_bind; [apply _|apply reads_fetch|]. intros [[user|]|e]; try (apply preserves_ret; apply _).
  destruct (negb _); [apply preserves_ret, _|]. destruct (bool_decide _); [apply preserves_ret, _|]. apply reads_query.
Qed.

Lemma normalize_valid raw :
  is_valid_username (normalize_username raw) = true -> normalize_username (normalize_username raw) = normalize_username raw.
Proof.
  intros [_ Hv]%andb_true_iff. unfold normalize_username at 1. rewrite trim_printable.
  - unfold normalize_username. apply to_lowercase_idem.
  - eapply str_forallb_mono; [apply username_char_printable|done].
Qed.

Lemma fetch_Some u p user p' :
  on_db (fetch u) p = (Ok (Some user), p') ->
  exists s a, tables_of p = Some s /\ AccountTables.users s !! normalize_username u = Some a /\ user = row_from a.
Proof.
  unfold on_db, tables_of. destruct (Portal.db p) as [d|]; [|done]. destruct (fetch u d) as [r d'] eqn:Ef. intros [= -> _].
  apply query_inv in Ef as [_ [?|[= E]]]; [done|]. cbn. destruct (_ !! _) as [a|] eqn:Ea; [|done]. injection E as ->. eauto.
Qed.

(** The account an Editor-accessible route works on. *)
Lemma scoped_target_inv scope raw p r p' :
  scoped_target scope raw p = (r, p') ->
  moves eq p p' /\ forall user, r = Ok user ->
    exists s a, let u := normalize_username raw in
      tables_of p = Some s /\ normalize_username u = u /\ AccountTables.users s !! u = Some a /\ user = row_from a
      /\ EditorScope.may_touch_user scope user = true.
Proof.
  unfold scoped_target. cbv zeta. destruct (negb _) eqn:Ev; [by intros [= <- <-]; split; [reflexivity|]|]. apply negb_false_iff in Ev.
  intros (f & p1 & Hf & [= <- <-])%st_bind_inv. split; [eapply run_of; [apply reads_fetch|exact Hf]|].
  intros user. destruct f as [[row|]|e]; [|done|done]. destruct (EditorScope.may_touch_user scope row) eqn:Et; [|done]. intros [= <-].
  apply fetch_Some in Hf as (s & a & Ht & Ha & ->). rewrite (normalize_valid raw Ev) in Ha. exists s, a. cbv zeta.
  split_and!; auto using normalize_valid.
Qed.

(** *** Writes *)

Lemma set_role_atomic now u r actor : atomic (set_role dialect now u r actor).
Proof. intros db e db'. apply transaction_Err. Qed.
Lemma update_account_atomic now u upd actor : atomic (update_account dialect now u upd actor).
Proof. intros db e db'. apply transaction_Err. Qed.
Lemma delete_atomic now u actor : atomic (delete dialect now u actor).
Proof. intros db e db'. apply transaction_Err. Qed.
Lemma set_password_atomic salt now u pw must actor : atomic (set_password salt now u pw must actor).
Proof.
  intros db e db'. unfold set_password. cbv zeta. intros [(h & db1 & [_ ->]%lift_Ok & Ht)|(e' & Hh & _)]%try_bind_inv.
  - by apply transaction_Err in Ht.
  - by injection Hh as _ <-.
Qed.

(** A write on a known account, seen from the request. *)
Lemma write_edits {A} (m : AM (DbResult A)) u c p s r p' :
  preserves (on_tables (edits u c)) m -> tables_of p = Some s -> on_db m p = (r, p') ->
  exists s', tables_of p' = Some s' /\ edits u c s s' /\ Portal.admin_sessions p' = Portal.admin_sessions p.
Proof.
  intros Hm Hp Ho. pose proof (on_db_moves (edits u c) m Hm p) as [Ht Hs]. rewrite Ho in *. cbn [snd] in *.
  rewrite Hp in Ht. inversion Ht as [x y Hxy E E'|]. eauto.
Qed.

Lemma moves_audits p p' : moves eq p p' -> moves audits p p'.
Proof. apply moves_mono. intros s s' ->. reflexivity. Qed.

(** The row of a typed account says what the table says. *)
Lemma row_role a r : account_typed a -> UserRow.role (row_from a) = r -> Account.role a = Role.as_str r.
Proof. intros [[r' Hr] _]. unfold row_from. cbn. rewrite Hr, parse_as_str. cbn. by intros ->. Qed.

(** *** The handlers of an Editor *)

Lemma none_allowed scope u a : allowed scope u a Change.none.
Proof. by repeat split. Qed.
Lemma none_quiet a : quiet a Change.none.
Proof. by split. Qed.

Lemma eff_moves_eq scope p p' : moves eq p p' -> Effect scope p p'.
Proof. intros Hm. by apply eff_none, moves_audits. Qed.

(** A write on the target of the request, at a state [q] reached by reads. *)
Lemma target_write {A} scope raw p q q' user c (m : AM (DbResult A)) r :
  (forall s, tables_of p = Some s -> accounts_typed s) ->
  moves eq p q -> scoped_target scope raw p = (Ok user, q) ->
  forall q1, moves eq q q1 -> on_db m q1 = (r, q') ->
  preserves (on_tables (edits (normalize_username (UserRow.username user)) c)) m ->
  exists s s' a, let u := UserRow.username user in
    tables_of p = Some s /\ tables_of q' = Some s' /\ AccountTables.users s !! u = Some a /\ user = row_from a
    /\ account_typed a /\ EditorScope.may_touch_user scope (row_from a) = true /\ edits u c s s'
    /\ Portal.admin_sessions q' = Portal.admin_sessions p.
Proof.
  intros Hty Hq Ht q1 Hq1 Hm Hp. apply scoped_target_inv in Ht as [_ Ht]. destruct (Ht user eq_refl) as (s & a & Hs & Hn & Ha & -> & Hmay).
  destruct (Hty s Hs _ a Ha) as [Hu Hta]. cbv zeta. change (UserRow.username (row_from a)) with (Account.username a) in *.
  rewrite Hu in *. rewrite Hn in Hp. assert (moves eq p q1) as Hpq by (by etransitivity). apply moves_eq in Hpq as [Htq Hsq].
  destruct (write_edits m _ c q1 s r q' Hp ltac:(congruence) Hm) as (s' & Hs' & He & Hss). exists s, s', a. split_and!; auto. congruence.
Qed.

(** Where nothing was written. *)
Lemma stops_effect scope raw p r q : scoped_target scope raw p = (r, q) -> forall q', moves eq q q' -> Effect scope p q'.
Proof. intros [Hm _]%scoped_target_inv q' Hq. apply eff_moves_eq. by etransitivity. Qed.

Lemma strip_moves u r p b p' : would_strip_last_admin u r p = (b, p') -> moves eq p p'.
Proof. apply run_of, reads_strip. Qed.

#[local] Ltac stops := first [by apply eff_moves_eq | eapply stops_effect; [eassumption|by eauto using strip_moves]].
#[local] Ltac target_write_with Hty c m :=
  match goal with
  | Ht : scoped_target ?scope ?raw ?p = (Ok ?user, ?q), Hw : on_db _ ?q1 = (_, ?q') |- _ =>
    destruct (target_write scope raw p q q' user c _ _ Hty ltac:(by apply scoped_target_inv in Ht as [? _]) Ht q1
                ltac:(first [reflexivity|by eauto using strip_moves]) Hw ltac:(apply m)) as (s & s' & a & Hs & Hs' & Ha & -> & Hta & Hmay & He & Hss)
  end.

Lemma set_profile_effect scope raw form d p r p' :
  (forall s, tables_of p = Some s -> accounts_typed s) -> set_profile scope raw form d p = (r, p') -> Effect scope p p'.
Proof.
  intros Hty Hrun. unfold set_profile in Hrun. repeat handler_step; try stops; target_write_with Hty Change.none update_profile_edits;
    eapply (eff_edit scope p _ s s' _ a Change.none); eauto using none_allowed, none_quiet.
Qed.

Lemma set_groups_effect scope raw groups d p r p' :
  (forall s, tables_of p = Some s -> accounts_typed s) -> set_groups_handler scope raw groups d p = (r, p') -> Effect scope p p'.
Proof.
  intros Hty Hrun. unfold set_groups_handler in Hrun. cbv zeta in Hrun. repeat handler_step; try stops.
  all: target_write_with Hty
    (Change.mk None (Some (join_groups (EditorScope.merge_preserving_out_of_scope scope (UserRow.groups y) (parse_groups groups)))) false)
    set_groups_edits; eapply (eff_edit scope p _ s s' _ a _); eauto; [|by left; repeat split].
  all: split_and!; [intros; congruence|cbn..]; [done|]; intros g [= <-]; apply negb_false_iff in E0; eauto.
Qed.

Lemma set_role_effect scope raw role d p r p' :
  (forall s, tables_of p = Some s -> accounts_typed s) -> set_role_handler dialect scope raw role d p = (r, p') -> Effect scope p p'.
Proof.
  intros Hty Hrun. unfold set_role_handler in Hrun. cbv zeta in Hrun. repeat handler_step; try stops.
  - target_write_with Hty (Change.mk (Some (Role.as_str (default Role.Viewer (Role.parse role)))) None false) set_role_edits.
    eapply (eff_edit scope p _ s s' _ a _); eauto; [|right; cbn; by rewrite Hss].
    split_and!; [intros; congruence|cbn..]; [ |done]. intros g [= <-]. apply negb_false_iff in E0. eauto.
  - eapply stops_effect; [eassumption|]. etransitivity; [by eapply strip_moves|]. eapply on_db_atomic; [apply set_role_atomic|eassumption].
Qed.

Lemma reset_password_effect scope raw password d p r p' :
  (forall s, tables_of p = Some s -> accounts_typed s) -> reset_password scope raw password d p = (r, p') -> Effect scope p p'.
Proof.
  intros Hty Hrun. unfold reset_password in Hrun. repeat handler_step; try stops.
  - target_write_with Hty (Change.mk None None true) set_password_edits.
    eapply (eff_edit scope p _ s s' _ a _); eauto; [|right; cbn; by rewrite Hss]. split_and!; [intros; congruence|cbn..]; [done|done].
  - eapply stops_effect; [eassumption|]. eapply on_db_atomic; [apply set_password_atomic|eassumption].
Qed.

Lemma save_edit_effect scope raw form d p r p' :
  (forall s, tables_of p = Some s -> accounts_typed s) -> save_edit dialect scope raw form d p = (r, p') -> Effect scope p p'.
Proof.
  intros Hty Hrun. unfold save_edit in Hrun. cbv zeta in Hrun. repeat handler_step; try stops.
  3: { eapply stops_effect; [eassumption|]. etransitivity; [by eapply strip_moves|].
       etransitivity; [eapply on_db_atomic; [apply update_account_atomic|eassumption]|by eapply strip_moves]. }
  all: match goal with Hw : on_db (update_account _ _ _ ?upd _) _ = _ |- _ =>
         target_write_with Hty (Change.mk (Some (Role.as_str (AccountUpdate.role upd))) (Some (join_groups (AccountUpdate.groups upd))) false)
           update_account_edits end.
  all: eapply (eff_edit scope p _ s s' _ a _); eauto.
  all: try (split_and!; [intros; congruence|cbn..]; intros g [= <-];
            repeat match goal with E : negb _ = false |- _ => apply negb_false_iff in E end; eauto).
  - left. split; [exact Hss|]. split; [done|]. cbn. intros r [= <-].
    match goal with E : bool_decide _ = true |- _ => apply bool_decide_eq_true in E; symmetry; by apply row_role end.
  - right. cbn. by rewrite Hss.
Qed.

Lemma create_effect scope form d p r p' : create_handler scope form d p = (r, p') -> Effect scope p p'.
Proof.
  intros Hrun. unfold create_handler in Hrun. cbv zeta in Hrun. repeat handler_step; try (apply eff_moves_eq; reflexivity).
  3: { apply eff_moves_eq. eapply on_db_atomic; [|eassumption]. intros db e0 db'.
       intros [(? & _ & ?)|(h & l & ? & _)]%create_account_inv; done. }
  all: repeat match goal with E : negb _ = false |- _ => apply negb_false_iff in E end.
  all: match goal with Hm : on_db (create ?salt ?id ?now ?u ?pw ?role ?must ?gs ?act) ?p0 = _, Hv : is_valid_username ?u = true |- _ =>
    unfold on_db in Hm; destruct (Portal.db p0) as [db|] eqn:Edb; [|done];
    destruct (create salt id now u pw role must gs act db) as [res db'] eqn:Ec; injection Hm as -> <-;
    apply create_account_inv in Ec as [(? & ? & _)|(h & l & _ & _ & Hnone & Ht)]; [done|]; rewrite (normalize_valid _ Hv) in Hnone, Ht end.
  - match goal with Hw : on_db (update_profile _ ?u _ _ _ _) ?q = (_, ?q') |- _ =>
      destruct (write_edits _ (normalize_username u) Change.none q _ _ _ ltac:(apply update_profile_edits) eq_refl Hw) as (s' & Hs' & He & Hss) end.
    rewrite normalize_valid in He by done.
    eapply (eff_create scope p _ (ConfigDb.tables db) _ _ (normalize_username (CreateForm.username form))
             (Account.mk _ _ h _ _ _ _ _ _ _ _ _) (default Role.Viewer (Role.parse (CreateForm.role form)))
             (parse_groups (CreateForm.groups form)));
      [by unfold tables_of; rewrite Edb|exact Hs'|exact Hnone|reflexivity|reflexivity|done|done|reflexivity| |exact Hss].
    etransitivity; [|exact He]. rewrite Ht. apply audits_edits. by eexists.
  - eapply (eff_create scope p _ (ConfigDb.tables db) _ _ (normalize_username (CreateForm.username form))
             (Account.mk _ _ h _ _ _ _ _ _ _ _ _) (default Role.Viewer (Role.parse (CreateForm.role form)))
             (parse_groups (CreateForm.groups form)));
      [by unfold tables_of; rewrite Edb|reflexivity|exact Hnone|reflexivity|reflexivity|done|done|reflexivity| |done].
    rewrite Ht. apply audits_edits. by eexists.
Qed.
End Handlers.

(** ** What an Editor's requests can change *)

Lemma collect_groups_elem g out toks :
  g ∈ collect_groups out toks <-> g ∈ out \/ (g <> "" /\ exists t, t ∈ toks /\ trim t = g).
Proof.
  revert out; induction toks as [|tok toks IH]; intros out; cbn [collect_groups].
  - split; [by left|]. intros [Hg|(_ & t & Ht%elem_of_nil & _)]; done.
  - rewrite IH. setoid_rewrite elem_of_cons. destruct (str_is_empty (trim tok)) eqn:Ee; cbn [negb andb].
    + apply str_is_empty_true in Ee. naive_solver.
    + assert (trim tok <> "") as Hne by (by intros Et; rewrite Et in Ee).
      destruct (existsb (str_eqb (trim tok)) out) eqn:Ex; cbn [negb].
      * apply existsb_str_eqb in Ex. naive_solver.
      * rewrite elem_of_app, list_elem_of_singleton. naive_solver.
Qed.

(** Groups without commas and surrounding blanks survive storage. *)
Lemma parse_join_elem g l :
  (forall x, x ∈ l -> x <> "" /\ trim x = x /\ str_contains_char "," x = false) -> g ∈ parse_groups (str_join "," l) <-> g ∈ l.
Proof.
  intros Hl. destruct l as [|x l]; [by change (parse_groups (str_join "," [])) with ([] : list string)|]. unfold parse_groups.
  rewrite (split_join "," (x :: l)); [|done|intros y Hy; by apply Hl]. rewrite collect_groups_elem. split.
  - intros [Hin|(Hne & t & Hin & <-)]; [by apply elem_of_nil in Hin|]. by destruct (Hl t Hin) as (_ & -> & _).
  - intros Hin. right. destruct (Hl g Hin) as (Hne & Ht & _). eauto.
Qed.

(** All there is about account [v]. *)
Definition untouched (v : string) (s s' : AccountTables.t) : Prop :=
  AccountTables.users s' !! v = AccountTables.users s !! v /\ AccountTables.user_mfa s' !! v = AccountTables.user_mfa s !! v
  /\ (forall i r, RecoveryRow.username r = v ->
        AccountTables.user_mfa_recovery s' !! i = Some r <-> AccountTables.user_mfa_recovery s !! i = Some r)
  /\ (forall i g, GrantRow.username g = v ->
        AccountTables.user_mfa_grants s' !! i = Some g <-> AccountTables.user_mfa_grants s !! i = Some g).

Lemma edits_untouched u c s s' v : edits u c s s' -> v <> u -> untouched v s s'.
Proof. intros [Ho _ Hf Hr Hg] Hv. split_and!; auto; [by rewrite Hr|]. intros i g Hgv. apply Hg. congruence. Qed.

#[global] Instance untouched_preorder v : PreOrder (untouched v).
Proof.
  split; [by intros s|]. intros s1 s2 s3 (U1 & F1 & R1 & G1) (U2 & F2 & R2 & G2).
  split_and!; [congruence|congruence|intros i r Hr; by rewrite R2, R1|intros i g Hg; by rewrite G2, G1].
Qed.

(** Every account but [u]. *)
Definition others (u : string) (s s' : AccountTables.t) : Prop := forall v, v <> u -> untouched v s s'.
#[global] Instance others_preorder u : PreOrder (others u).
Proof. split; [intros s v _; reflexivity|]. intros s1 s2 s3 H1 H2 v Hv. etransitivity; [by apply H1|by apply H2]. Qed.

Lemma edits_others u c s s' : edits u c s s' -> others u s s'.
Proof. intros He v. by eapply edits_untouched. Qed.

Lemma delete_user_others u s : others u s (delete_user u s).
Proof.
  intros v Hv. unfold delete_user. split_and!; cbn.
  - by rewrite lookup_delete_ne.
  - by rewrite lookup_delete_ne.
  - intros i r Hr. rewrite map_lookup_filter_Some. cbn. split; [by intros [? _]|]. intros Hi. split; [done|]. apply str_eqb_neq. congruence.
  - intros i g Hg. rewrite map_lookup_filter_Some. cbn. split; [by intros [? _]|]. intros Hi. split; [done|].
    unfold grant_of. apply str_eqb_neq. congruence.
Qed.

(** Every account there is. *)
Definition keeps (s s' : AccountTables.t) : Prop := forall v a, AccountTables.users s !! v = Some a -> untouched v s s'.
#[global] Instance keeps_preorder : PreOrder keeps.
Proof.
  split; [intros s v a _; reflexivity|]. intros s1 s2 s3 H1 H2 v a Hv. pose proof (H1 v a Hv) as Hu.
  etransitivity; [exact Hu|]. apply (H2 v a). by rewrite (proj1 Hu).
Qed.

(** An account that exists stays, keeps whether it is an admin, and keeps
    its memberships outside the scope. *)
Definition kept_within (scope : EditorScope.t) (v : string) (a a' : Account.t) : Prop :=
  Account.is_admin a' = Account.is_admin a
  /\ (forall g, EditorScope.has_group scope g = false -> g ∈ parse_groups (Account.groups a') <-> g ∈ parse_groups (Account.groups a))
  /\ (EditorScope.actor scope = Some v ->
       Account.role a' = Account.role a /\ Account.groups a' = Account.groups a /\ Account.password_hash a' = Account.password_hash a).

Definition confined (scope : EditorScope.t) (s s' : AccountTables.t) : Prop :=
  (forall v a, AccountTables.users s !! v = Some a -> EditorScope.may_touch_user scope (row_from a) = false -> untouched v s s')
  /\ (forall v a, AccountTables.users s !! v = Some a -> exists a', AccountTables.users s' !! v = Some a' /\ kept_within scope v a a')
  /\ (forall v a', AccountTables.users s !! v = None -> AccountTables.users s' !! v = Some a' ->
        Account.is_admin a' = false /\ forall g, g ∈ parse_groups (Account.groups a') -> EditorScope.has_group scope g = true).

Section Confinement.
Context (scope : EditorScope.t) (Hscoped : EditorScope.unscoped scope = false) (Hclean : clean_groups (EditorScope.groups scope)).

Lemma owned_clean g : EditorScope.has_group scope g = true -> g <> "" /\ trim g = g /\ str_contains_char "," g = false.
Proof. intros Hg%has_group_spec. by apply Hclean. Qed.

Lemma assigned_not_admin r : EditorScope.may_assign_role scope r = true -> str_eqb (Role.as_str r) "admin" = false.
Proof. unfold EditorScope.may_assign_role. rewrite Hscoped. by destruct r. Qed.

Lemma assigned_owned gs g : EditorScope.may_assign_groups scope gs = true -> g ∈ gs -> EditorScope.has_group scope g = true.
Proof. unfold EditorScope.may_assign_groups. rewrite Hscoped. cbn. rewrite forallb_forall. intros Hgs Hg. by apply Hgs, list_elem_of_In. Qed.

Lemma touchable_not_admin a : account_typed a -> EditorScope.may_touch_user scope (row_from a) = true -> Account.is_admin a = false.
Proof.
  intros [[r Hr] _]. unfold EditorScope.may_touch_user, row_from, Account.is_admin. rewrite Hscoped, Hr, parse_as_str. cbn.
  by destruct r.
Qed.

Lemma kept_within_refl v a : kept_within scope v a a.
Proof. by repeat split. Qed.

Lemma edit_kept u c a a' :
  account_typed a -> EditorScope.may_touch_user scope (row_from a) = true -> allowed scope u a c -> changes c a a' -> kept_within scope u a a'.
Proof.
  intros Hta Hmay (Hself & Hrole & Hgroups) (_ & _ & Hr & Hg & Hp). split; [|split].
  - rewrite (touchable_not_admin a Hta Hmay). destruct Hr as [Hr|Hr].
    + unfold Account.is_admin. rewrite Hr. by apply touchable_not_admin.
    + apply Hrole in Hr as (role & Hr & Ha). unfold Account.is_admin. rewrite Hr. by apply assigned_not_admin.
  - intros g Hno. destruct Hg as [->|Hg]; [done|]. apply Hgroups in Hg as (req & Hreq & ->).
    rewrite parse_join_groups. unfold EditorScope.merge_preserving_out_of_scope. rewrite Hscoped. rewrite parse_join_elem.
    + rewrite btree_set_elem, elem_of_app, !filter_elem, negb_true_iff, Hno. split; [by intros [[? _]|[_ ?]]|by left].
    + intros x. rewrite btree_set_elem, elem_of_app, !filter_elem. intros [[Hx _]|[_ Hx]]; [by apply parse_groups_clean in Hx|by apply owned_clean].
  - intros Hact. assert (c = Change.none) as ->.
    { apply Hself. unfold is_scoped_self_edit. rewrite Hscoped. by apply bool_decide_eq_true. }
    destruct Hr as [?|[=]], Hg as [?|[=]], Hp as [?|[=]]; done.
Qed.

Lemma effect_confined p p' s :
  tables_of p = Some s -> accounts_typed s -> Effect scope p p' -> exists s', tables_of p' = Some s' /\ confined scope s s'.
Proof.
  intros Hs Hty [[Ht _]|s1 s2 u a c Hs1 Hs2 Ha Hmay He Hal _|s1 s2 s3 u a role gs Hs1 Hs3 Hnone Hr Hg Har Hag -> He _].
  - rewrite Hs in Ht. inversion Ht as [x y [l ->] E E'|]. exists (AccountTables.set_audit_log l s). split; [done|].
    split_and!; [done| |naive_solver]. intros v a Ha. exists a. split; [done|apply kept_within_refl].
  - assert (s1 = s) as -> by congruence. exists s2. split; [done|]. split_and!.
    + intros v b Hb Hno. eapply edits_untouched; [done|]. intros ->. congruence.
    + intros v b Hb. destruct (decide (v = u)) as [->|Hne].
      * assert (b = a) as -> by congruence. pose proof (ed_account _ _ _ _ He) as Hac. rewrite Ha in Hac.
        inversion Hac as [x y Hxy E E'|]. exists y. split; [done|]. eapply edit_kept; [by apply (Hty u)|done..].
      * exists b. rewrite (ed_others _ _ _ _ He) by done. split; [done|apply kept_within_refl].
    + intros v b Hb Hb'. destruct (decide (v = u)) as [->|Hne]; [congruence|]. rewrite (ed_others _ _ _ _ He) in Hb' by done. congruence.
  - assert (s1 = s) as -> by congruence. exists s3. split; [done|].
    assert (forall v b, AccountTables.users s !! v = Some b -> v <> u) as Hne by (intros v b Hb ->; congruence). split_and!.
    + intros v b Hb _. destruct (edits_untouched _ _ _ _ v He (Hne v b Hb)) as (Hu & Hrest). split; [|done].
      rewrite Hu. cbn. by rewrite lookup_insert_ne by (specialize (Hne v b Hb); congruence).
    + intros v b Hb. exists b. rewrite (ed_others _ _ _ _ He) by (by eapply Hne). cbn.
      rewrite lookup_insert_ne by (specialize (Hne v b Hb); congruence). split; [done|apply kept_within_refl].
    + intros v b Hb Hb'. destruct (decide (v = u)) as [->|Hv].
      * pose proof (ed_account _ _ _ _ He) as Hac. cbn in Hac. rewrite lookup_insert_eq, Hb' in Hac.
        inversion Hac as [x y (_ & _ & [Hr'|[=]] & [Hg'|[=]] & _) E E'|]; subst. split.
        -- unfold Account.is_admin. rewrite Hr', Hr. by apply assigned_not_admin.
        -- intros g. rewrite Hg', Hg, parse_join_groups, parse_join_elem; [by apply assigned_owned|].
           intros x Hx. by apply owned_clean, (assigned_owned gs).
      * rewrite (ed_others _ _ _ _ He) in Hb' by done. cbn in Hb'. rewrite lookup_insert_ne in Hb' by congruence. congruence.
Qed.
End Confinement.

(** ** The routes *)

Section Routes.
Context `{UnicodeCase} `{!UnicodeCaseLaws} `{JsonObject} `{Argon2} `{CharClass} `{Timestamps}.
Context (dialect : Dialect) (collate : string -> string -> bool) (pg_lower : string -> string).

Lemma with_pool_preserves {R} `{!PreOrder R} message k : preserves R k -> preserves R (with_pool message k).
Proof. intros Hk p. unfold with_pool. destruct (Portal.db p); [apply Hk|cbn; reflexivity]. Qed.

Lemma on_db_reads {A} ctx (f : AccountTables.t -> A) : preserves (moves eq) (on_db (query ctx f)).
Proof. apply on_db_moves; [apply _|]. apply preserves_query. apply _. Qed.

Lemma scoped_target_reads scope raw : preserves (moves eq) (scoped_target scope raw).
Proof. intros p. destruct (scoped_target scope raw p) as [r q] eqn:E. by apply scoped_target_inv in E as [? _]. Qed.

#[local] Ltac reads :=
  repeat first [ apply preserves_ret; apply _ | apply on_db_reads | apply scoped_target_reads | apply reads_strip
               | apply preserves_bind; [apply _| |intros ?]
               | match goal with |- preserves _ (match ?x with _ => _ end) => destruct x end ].

Lemma index_reads scope q : preserves (moves eq) (index dialect collate pg_lower scope q).
Proof.
  unfold index. apply with_pool_preserves. cbv zeta.
  unfold count_filtered, counts, list_page_ordered, list_with. reads.
Qed.

Lemma edit_reads scope u flash : preserves (moves eq) (edit scope u flash).
Proof. unfold edit. apply with_pool_preserves. cbv zeta. unfold fetch_factor. reads. Qed.

(** A guard changes no table; expired sessions go. *)
Lemma guarded_by_inv guard now auth cookie k p r p' :
  guarded_by guard now auth cookie k p = (r, p') ->
  exists res q, (res, Portal.admin_sessions q) = guard now auth cookie (Portal.admin_sessions p) /\ tables_of q = tables_of p
    /\ Portal.db q = Portal.db p
    /\ match res with Ok info => k info q = (r, p') | Err e => r = Rejected e /\ p' = q end.
Proof.
  unfold guarded_by. destruct (guard now auth cookie (Portal.admin_sessions p)) as [res sessions]. intros Hk.
  exists res, (Portal.set_admin_sessions sessions p). split; [done|]. split; [done|]. split; [done|]. destruct res; [done|]. by injection Hk as <- <-.
Qed.

Lemma editor_scope_moves info p scope q : editor_scope info p = (scope, q) -> moves eq p q /\ scope = (editor_scope info p).1.
Proof.
  intros E. split; [|by rewrite E]. unfold editor_scope in E. destruct (Portal.db p) as [d|] eqn:Ed; [|injection E as _ <-; reflexivity].
  injection E as _ <-. apply moves_eq. unfold tables_of.
  destruct (SessionInfo.role info), (SessionInfo.actor info) as [u|]; cbn; try (by rewrite Ed);
    (split; [|done]; rewrite Ed; cbn; f_equal; destruct (fetch u d) as [x d'] eqn:Ef; apply query_inv in Ef as [Ht _]; exact Ht).
Qed.

(** The scope depends on the database alone. *)
Lemma editor_scope_db info p q : Portal.db q = Portal.db p -> (editor_scope info q).1 = (editor_scope info p).1.
Proof. unfold editor_scope. intros ->. by destruct (Portal.db p). Qed.

Lemma as_editor_inv now auth cookie k p r p' :
  as_editor now auth cookie k p = (r, p') ->
  exists res q, res = (require_editor now auth cookie (Portal.admin_sessions p)).1 /\ tables_of q = tables_of p
    /\ match res with Ok info => k (editor_scope info p).1 q = (r, p') | Err e => p' = q end.
Proof.
  intros (res & q & Eg & Ht & Hdb & Hk)%guarded_by_inv. exists res. rewrite <- Eg. destruct res as [info|e].
  - apply st_bind_inv in Hk as (scope & q' & Es & Hk). pose proof (editor_scope_moves _ _ _ _ Es) as [[Hm _]%moves_eq ->].
    exists q'. split; [done|]. split; [congruence|]. by rewrite (editor_scope_db info p q Hdb) in Hk.
  - exists q. destruct Hk as [_ ->]. done.
Qed.

Definition for_editors (req : Request) : bool :=
  match req with
  | GetUsers _ | PostUsers _ | GetEdit _ _ | PostEdit _ _ | PostRole _ _ | PostGroups _ _ | PostProfile _ _ | PostPassword _ _ => true
  | GetExport _ _ | PostImport _ | PostImportConfirm _ | PostMfaReset _ | PostDelete _ => false
  end.

(** Whoever asks, an Editor's route has an effect within the scope. *)
Lemma editor_route_effect export_json lossy now auth cookie draws req p r p' :
  (forall s, tables_of p = Some s -> accounts_typed s) -> for_editors req = true ->
  routes dialect collate pg_lower export_json lossy now auth cookie draws req p = (r, p') ->
  exists q, tables_of q = tables_of p
    /\ match (require_editor now auth cookie (Portal.admin_sessions p)).1 with
       | Ok info => Effect (editor_scope info p).1 q p'
       | Err _ => p' = q
       end.
Proof.
  intros Hty Hf Hrun. destruct req; try discriminate Hf; cbn [routes] in Hrun;
    apply as_editor_inv in Hrun as (res & q1 & -> & Ht & Hk); exists q1; (split; [done|]);
    destruct (require_editor now auth cookie (Portal.admin_sessions p)).1 as [info|e]; try done; rewrite <- Ht in Hty.
  - apply eff_moves_eq. eapply run_of; [apply index_reads|exact Hk].
  - by eapply create_effect.
  - apply eff_moves_eq. eapply run_of; [apply edit_reads|exact Hk].
  - by eapply save_edit_effect.
  - by eapply set_role_effect.
  - by eapply set_groups_effect.
  - by eapply set_profile_effect.
  - by eapply reset_password_effect.
Qed.

(** An Editor does not get past the other routes. *)
Lemma admin_route_rejects export_json lossy now auth cookie draws req p info :
  for_editors req = false -> (require_editor now auth cookie (Portal.admin_sessions p)).1 = Ok info -> SessionInfo.role info = Role.Editor ->
  tables_of (routes dialect collate pg_lower export_json lossy now auth cookie draws req p).2 = tables_of p.
Proof.
  intros Hf Hi Hr. assert (exists e, (require_admin now auth cookie (Portal.admin_sessions p)).1 = Err e) as [e He].
  { revert Hi. unfold require_editor, require_admin. destruct (admin_session now auth cookie (Portal.admin_sessions p)) as [[i|e] st]; [|done].
    cbn. destruct (Role.leb Role.Editor (SessionInfo.role i)); [|done]. intros [= ->]. rewrite Hr. by eexists. }
  destruct (routes dialect collate pg_lower export_json lossy now auth cookie draws req p) as [r p'] eqn:E. cbn [snd].
  destruct req; try discriminate Hf; cbn [routes] in E; unfold as_admin in E;
    apply guarded_by_inv in E as (res & q1 & Eg & Ht & _ & Hk); rewrite <- Eg in He; cbn in He; subst res; destruct Hk as [_ ->]; exact Ht.
Qed.

(** C25. Editors are confined: whatever an Editor requests of these pages,
    with whatever form and whichever statements fail, an account outside the
    Editor's groups and every admin account is untouched with its factor and
    grants, no account disappears or becomes an admin, memberships outside
    the scope stay as they are, the Editor's own role, groups and password
    stay, and a new account is no admin and has the Editor's groups only. *)
Theorem editor_requests_confined export_json lossy now auth cookie draws req p s info :
  (require_editor now auth cookie (Portal.admin_sessions p)).1 = Ok info -> SessionInfo.role info = Role.Editor ->
  tables_of p = Some s -> accounts_typed s ->
  exists s', tables_of (routes dialect collate pg_lower export_json lossy now auth cookie draws req p).2 = Some s'
    /\ confined (editor_scope info p).1 s s'.
Proof.
  intros Hi Hr Hs Hty. destruct (for_editors req) eqn:Ef.
  - destruct (routes dialect collate pg_lower export_json lossy now auth cookie draws req p) as [r p'] eqn:E.
    apply editor_route_effect in E as (q & Hq & He); [|by intros s0; rewrite Hs; intros [= <-]|done]. rewrite Hi in He.
    apply (effect_confined (editor_scope info p).1) with (p := q); [..|congruence|done|exact He].
    + unfold editor_scope, EditorScope.from_editor. destruct (Portal.db p); cbn; by rewrite Hr.
    + unfold editor_scope, tables_of in *. destruct (Portal.db p) as [d|]; [|done]. cbn. apply scope_groups_clean. intros u row.
      destruct (fetch u d) as [[x|e] d'] eqn:Ef'; [|done]. cbn. intros [= ->].
      apply query_inv in Ef' as [_ [?|[= Ex]]]; [done|]. destruct (_ !! _) as [a|]; [|done]. injection Ex as ->. apply parse_groups_clean.
  - exists s. rewrite (admin_route_rejects export_json lossy now auth cookie draws req p info) by done. split; [done|].
    split_and!; [done| |naive_solver]. intros v a Ha. exists a. split; [done|apply kept_within_refl].
Qed.

(** *** The routes of an Admin *)

Lemma create_others salt id now u pw r m gs actor : preserves (on_tables (others (normalize_username u))) (create salt id now u pw r m gs actor).
Proof.
  intros db. destruct (create salt id now u pw r m gs actor db) as [res db'] eqn:E. unfold on_tables. cbn [snd].
  apply create_account_inv in E as [(e & _ & ->)|(h & l & _ & _ & _ & ->)]; [reflexivity|]. intros v Hv. split_and!; try done.
  cbn. by rewrite lookup_insert_ne.
Qed.

Lemma create_atomic salt id now u pw r m gs actor : atomic (create salt id now u pw r m gs actor).
Proof. intros db e db' [(? & _ & ?)|(h & l & ? & _)]%create_account_inv; done. Qed.

Lemma delete_others now u actor : preserves (on_tables (others (normalize_username u))) (delete dialect now u actor).
Proof.
  unfold delete, bail. cbv zeta. tables_auto.
  - unfold admin_mutation_lock. preserves_auto.
  - apply preserves_statement; [apply _|]. intros s. destruct (delete_where_inv (normalize_username u) (keeps_an_admin None) s) as [->|(b & _ & _ & ->)];
      [reflexivity|apply delete_user_others].
  - apply preserves_execute; [apply _|]. intros s v _. by split_and!.
Qed.

Lemma update_profile_others now u setor email celular actor :
  preserves (on_tables (others (normalize_username u))) (update_profile now u setor email celular actor).
Proof. intros db. eapply edits_others, update_profile_edits. Qed.

(** A name already taken stops the row before it writes. *)
Lemma import_row_taken actor r d p s a :
  tables_of p = Some s -> AccountTables.users s !! normalize_username (CsvRow.username r) = Some a ->
  (import_row dialect actor r d p).1 = false /\ moves eq p (import_row dialect actor r d p).2.
Proof.
  intros Hs Ha. destruct (import_row dialect actor r d p) as [b p'] eqn:E. unfold import_row in E. cbn [fst snd].
  destruct (negb _); [injection E as <- <-; split; [done|reflexivity]|].
  apply st_bind_inv in E as (c & q & Hc & E). destruct c as [[]|e].
  - exfalso. unfold on_db, tables_of in *. destruct (Portal.db p) as [db|]; [|done]. injection Hs as Hs.
    destruct (create _ _ _ _ _ _ _ _ _ db) as [res db'] eqn:Ec. injection Hc as -> _.
    apply create_account_inv in Ec as [(? & ? & _)|(h & l & _ & _ & Hnone & _)]; [done|]. rewrite Hs in Hnone. congruence.
  - injection E as <- <-. split; [done|]. eapply on_db_atomic; [apply create_atomic|exact Hc].
Qed.

Lemma import_row_others actor r d : preserves (moves (others (normalize_username (CsvRow.username r)))) (import_row dialect actor r d).
Proof.
  unfold import_row. destruct (negb _); [apply preserves_ret, _|].
  apply preserves_bind; [apply _|apply on_db_moves; [apply _|apply create_others]|]. intros [[]|e]; [|apply preserves_ret, _].
  destruct (_ && _); [apply preserves_ret, _|].
  apply preserves_bind; [apply _|apply on_db_moves; [apply _|apply update_profile_others]|]. intros [[]|e]; [apply preserves_ret, _|].
  apply preserves_bind; [apply _|apply on_db_moves; [apply _|apply delete_others]|]. intros x. apply preserves_ret, _.
Qed.

Lemma import_row_keeps actor r d : preserves (moves keeps) (import_row dialect actor r d).
Proof.
  intros p. destruct (tables_of p) as [s|] eqn:Hs.
  - destruct (AccountTables.users s !! normalize_username (CsvRow.username r)) as [a|] eqn:Ha.
    + eapply moves_mono; [|eapply import_row_taken; done]. intros ? ? ->. reflexivity.
    + pose proof (import_row_others actor r d p) as [Ht Hss]. split; [|done]. rewrite Hs in *.
      inversion Ht as [x y Hxy E E'|]; constructor. intros v b Hv. apply Hxy. intros ->. congruence.
  - pose proof (import_row_others actor r d p) as [Ht Hss]. split; [|done]. rewrite Hs in *. inversion Ht as [|E E']. constructor.
Qed.

Lemma import_rows_keeps actor draws rows n k : preserves (moves keeps) (import_rows dialect actor draws rows n k).
Proof.
  revert n k; induction rows as [|r rows IH]; intros n k; cbn [import_rows]; [apply preserves_ret, _|].
  apply preserves_bind; [apply _|apply import_row_keeps|]. intros b. destruct b; apply IH.
Qed.

Lemma import_rows_count actor draws rows n k p :
  (import_rows dialect actor draws rows n k p).1.1 + (import_rows dialect actor draws rows n k p).1.2 = n + k + zlen rows.
Proof.
  revert n k p; induction rows as [|r rows IH]; intros n k p; cbn [import_rows]; [unfold zlen; cbn; lia|].
  unfold st_bind. destruct (import_row dialect actor r (draws (CsvRow.line_no r)) p) as [b q].
  assert (zlen (r :: rows) = 1 + zlen rows) as -> by (unfold zlen; cbn [length]; lia). destruct b; rewrite IH; lia.
Qed.

(** An import overwrites nothing: whatever file is confirmed and
    whichever statements fail, every account that existed keeps its row, its
    factor, recovery codes and grants, the roll-back of a half-made account
    included, and every line of the file is counted as imported or skipped. *)
Theorem import_keeps_accounts info raw draws p s n k :
  tables_of p = Some s -> (import_confirm dialect info raw draws p).1 = Imported n k ->
  (exists s', tables_of (import_confirm dialect info raw draws p).2 = Some s' /\ keeps s s')
  /\ exists rows, parse_csv_users raw = Ok rows /\ n + k = zlen rows.
Proof.
  intros Hs. destruct (import_confirm dialect info raw draws p) as [r p'] eqn:E. unfold import_confirm in E. cbn [fst snd]. intros ->.
  unfold with_pool in E. destruct (Portal.db p) as [db|]; [|done]. destruct (parse_csv_users raw) as [rows|e]; [|done].
  apply st_bind_inv in E as ([n' k'] & q & Hr & E). injection E as -> -> <-. split.
  - pose proof (import_rows_keeps (Some (audit_actor info)) draws rows 0 0 p) as [Ht _]. rewrite Hr, Hs in Ht. cbn [snd] in Ht.
    inversion Ht as [x y Hxy E E'|]. exists y. done.
  - exists rows. split; [done|]. pose proof (import_rows_count (Some (audit_actor info)) draws rows 0 0 p) as Hc. by rewrite Hr in Hc.
Qed.

(** *** Sessions *)

Definition ended (u : string) (p : Portal.t) : Prop :=
  forall id e, AdminSessions.sessions (Portal.admin_sessions p) !! id = Some e -> AdminSessions.belongs_to u e = false.

Definition same_credentials (a : Account.t) (o : option Account.t) : Prop :=
  exists a', o = Some a' /\ Account.role a' = Account.role a /\ Account.password_hash a' = Account.password_hash a.

Lemma revoked_ended u st p : Portal.admin_sessions p = AdminSessions.revoke_by_actor u st -> ended u p.
Proof. intros E id e. rewrite E. cbn. by intros [_ ?]%map_lookup_filter_Some. Qed.

(** Either the credentials of [u] are as before, or [u]'s sessions are over. *)
Definition sessions_follow (u : string) (a : Account.t) (p' : Portal.t) : Prop :=
  exists s', tables_of p' = Some s' /\ (same_credentials a (AccountTables.users s' !! u) \/ ended u p').

Lemma follow_moves R p p' s u a :
  (forall s s' v b, R s s' -> AccountTables.users s !! v = Some b -> AccountTables.users s' !! v = Some b) ->
  tables_of p = Some s -> AccountTables.users s !! u = Some a -> moves R p p' -> sessions_follow u a p'.
Proof.
  intros HR Hs Ha [Ht _]. rewrite Hs in Ht. inversion Ht as [x y Hxy E E'|]. exists y. split; [done|]. left. exists a.
  by rewrite (HR _ _ u a Hxy Ha).
Qed.

Lemma follow_same p s u a : tables_of p = Some s -> AccountTables.users s !! u = Some a -> sessions_follow u a p.
Proof. intros Hs Ha. exists s. split; [done|]. left. by exists a. Qed.

Lemma effect_follows scope p p' s u a :
  tables_of p = Some s -> AccountTables.users s !! u = Some a -> Effect scope p p' -> sessions_follow u a p'.
Proof.
  intros Hs Ha [Hm|s1 s2 v b c Hs1 Hs2 Hb _ He _ Hss|s1 s2 s3 v b role gs Hs1 Hs3 Hnone _ _ _ _ -> He _].
  - eapply follow_moves; [|done..]. by intros s0 s1 v b [l ->].
  - assert (s1 = s) as -> by congruence. exists s2. split; [done|]. destruct (decide (u = v)) as [->|Hne].
    + assert (b = a) as -> by congruence. destruct Hss as [[_ [Hp Hr]]|Hss]; [|right; by eapply revoked_ended].
      left. pose proof (ed_account _ _ _ _ He) as Hac. rewrite Ha in Hac. inversion Hac as [x y (_ & _ & Hr' & _ & Hp') E E'|].
      exists y. split; [done|]. split; [destruct Hr' as [|Hr'%Hr]; done|]. destruct Hp'; [done|congruence].
    + left. exists a. by rewrite (ed_others _ _ _ _ He).
  - assert (s1 = s) as -> by congruence. exists s3. split; [done|]. left. exists a.
    assert (u <> v) as Hne by (intros ->; congruence). rewrite (ed_others _ _ _ _ He) by done. cbn. by rewrite lookup_insert_ne.
Qed.

Definition same_users (s s' : AccountTables.t) : Prop := AccountTables.users s' = AccountTables.users s.
#[local] Instance same_users_preorder : PreOrder same_users.
Proof. split; [done|]. intros s1 s2 s3. unfold same_users. congruence. Qed.

Lemma reset_same_users now u actor : preserves (on_tables same_users) (MfaStore.reset now u actor).
Proof.
  unfold MfaStore.reset, delete_all. cbv zeta. tables_auto; try (apply preserves_execute; [apply _|]; intros s; try done).
  - apply alter_factor_others.
  - by apply preserves_statement; [apply _|].
Qed.

Lemma existing_user_inv u k p r p' :
  existing_user u k p = (r, p') -> moves eq p p' \/ exists q, moves eq p q /\ is_valid_username u = true /\ k q = (r, p').
Proof.
  unfold existing_user. destruct (negb _) eqn:E; [intros [= _ <-]; left; reflexivity|]. apply negb_false_iff in E.
  intros (x & q & Hf & Hk)%st_bind_inv. assert (moves eq p q) as Hq by (eapply run_of; [apply reads_fetch|exact Hf]).
  destruct x as [[row|]|e]; [right; by exists q|injection Hk as _ <-; by left|injection Hk as _ <-; by left].
Qed.

Lemma moves_eq_tables p q : moves eq p q -> tables_of q = tables_of p.
Proof. by intros [? _]%moves_eq. Qed.

Lemma reset_mfa_follows info u0 d p r p' s u a :
  tables_of p = Some s -> AccountTables.users s !! u = Some a -> reset_mfa info u0 d p = (r, p') -> sessions_follow u a p'.
Proof.
  intros Hs Ha E. unfold reset_mfa in E. apply with_pool_inv in E as [->|(_ & _ & E)]; [by eapply follow_same|].
  apply existing_user_inv in E as [Hm|(q & Hq & _ & E)].
  - eapply follow_same; [|exact Ha]. by rewrite (moves_eq_tables _ _ Hm).
  - apply st_bind_inv in E as (x & q' & Hw & E). injection E as _ <-.
    eapply (follow_moves same_users q); [|by rewrite (moves_eq_tables _ _ Hq)|done|].
    + intros s0 s1 v b E. unfold same_users in E. by rewrite E.
    + eapply run_of; [|exact Hw]. apply on_db_moves; [apply _|apply reset_same_users].
Qed.

Lemma delete_follows info u0 d p r p' s u a :
  tables_of p = Some s -> AccountTables.users s !! u = Some a -> delete_handler dialect info u0 d p = (r, p') -> sessions_follow u a p'.
Proof.
  intros Hs Ha E. unfold delete_handler in E. apply with_pool_inv in E as [->|(_ & _ & E)]; [by eapply follow_same|].
  apply existing_user_inv in E as [Hm|(q & Hq & Hv & E)].
  { eapply follow_same; [|exact Ha]. by rewrite (moves_eq_tables _ _ Hm). }
  apply st_bind_inv in E as (b & q1 & Hb & E). apply strip_moves in Hb.
  assert (tables_of q1 = Some s) as Hs1 by (rewrite (moves_eq_tables _ _ Hb), (moves_eq_tables _ _ Hq); done).
  destruct b; [injection E as _ <-; by eapply follow_same|].
  apply st_bind_inv in E as (x & q2 & Hw & E). destruct x as [[]|e].
  - repeat handler_step. pose proof (on_db_moves _ _ (delete_others (Draw.now d) (normalize_username u0) (Some (audit_actor info))) q1) as [Ht Hss].
    rewrite Hw in *. cbn [snd] in *. rewrite Hs1 in Ht. inversion Ht as [x y Hxy E E'|]. exists y. split; [done|].
    destruct (decide (u = normalize_username u0)) as [->|Hne].
    + right. by eapply revoked_ended.
    + left. exists a. rewrite normalize_valid in Hxy by done. split; [|done]. rewrite <- Ha. apply (Hxy u Hne).
  - injection E as _ <-. eapply follow_same; [|exact Ha]. apply on_db_atomic in Hw; [|apply delete_atomic]. by rewrite (moves_eq_tables _ _ Hw).
Qed.

Lemma export_audits export_json info scope q d :
  preserves (moves audits) (export_csv dialect collate pg_lower export_json info scope q d).
Proof.
  unfold export_csv. apply with_pool_preserves. cbv zeta. apply preserves_bind; [apply _| |intros x].
  - apply on_db_moves; [apply _|]. apply preserves_query. apply _.
  - destruct x as [users|e]; [|apply preserves_ret, _]. apply preserves_bind; [apply _| |intros x; destruct x; apply preserves_ret, _].
    apply on_db_moves; [apply _|]. apply preserves_execute; [apply _|]. intros s. by eexists.
Qed.

Lemma flag_existing_reads rows : preserves (moves eq) (flag_existing rows).
Proof.
  induction rows as [|r rows IH]; cbn [flag_existing]; [apply preserves_ret, _|].
  apply preserves_bind; [apply _| |intros b; apply preserves_bind; [apply _|exact IH|intros rs; apply preserves_ret, _]].
  destruct (bool_decide _); [apply reads_query|apply preserves_ret, _].
Qed.

Lemma import_reads lossy parts : preserves (moves eq) (import lossy parts).
Proof.
  unfold import. apply with_pool_preserves. destruct (read_upload lossy None parts) as [[raw|]|]; try apply preserves_ret, _.
  destruct (parse_csv_users raw) as [rows|e]; [|apply preserves_ret, _].
  apply preserves_bind; [apply _|apply flag_existing_reads|]. intros rs. apply preserves_ret, _.
Qed.

Lemma import_confirm_keeps info raw draws : preserves (moves keeps) (import_confirm dialect info raw draws).
Proof.
  unfold import_confirm. apply with_pool_preserves. destruct (parse_csv_users raw) as [rows|e]; [|apply preserves_ret, _].
  apply preserves_bind; [apply _|apply import_rows_keeps|]. intros x. apply preserves_bind; [apply _| |intros u; apply preserves_ret, _].
  intros p. split; [|done]. cbn. reflexivity.
Qed.

(** C26. A change of credentials ends sessions: after any request to these
    pages, by an Editor or an Admin and with any statement failing, an account
    either has the role and the password hash it had, or it has no admin
    session left; deletion included. *)
Theorem credential_changes_end_sessions export_json lossy now auth cookie draws req p s u a :
  tables_of p = Some s -> accounts_typed s -> AccountTables.users s !! u = Some a ->
  sessions_follow u a (routes dialect collate pg_lower export_json lossy now auth cookie draws req p).2.
Proof.
  intros Hs Hty Ha. destruct (routes dialect collate pg_lower export_json lossy now auth cookie draws req p) as [r p'] eqn:E. cbn [snd].
  destruct (for_editors req) eqn:Ef.
  - apply editor_route_effect in E as (q & Hq & He); [|by intros s0; rewrite Hs; intros [= <-]|done]. rewrite Hs in Hq.
    destruct (require_editor _ _ _ _).1; [by eapply effect_follows|subst p'; by eapply follow_same].
  - destruct req; try discriminate Ef; cbn [routes] in E; unfold as_admin in E;
      apply guarded_by_inv in E as (res & q1 & _ & Ht & _ & Hk); rewrite Hs in Ht;
      (destruct res as [info|e]; [|destruct Hk as [_ ->]; by eapply follow_same]).
    + eapply follow_moves; [|exact Ht|exact Ha|eapply run_of; [apply export_audits|exact Hk]]. by intros s0 s1 v b [l ->].
    + eapply follow_moves; [|exact Ht|exact Ha|eapply run_of; [apply import_reads|exact Hk]]. by intros s0 s1 v b ->.
    + eapply follow_moves; [|exact Ht|exact Ha|eapply run_of; [apply import_confirm_keeps|exact Hk]].
      intros s0 s1 v b Hkeep Hv. by rewrite (proj1 (Hkeep v b Hv)).
    + by eapply reset_mfa_follows.
    + by eapply delete_follows.
Qed.
End Routes.

(** ** Examples *)

Module UserAccessExamples.
Import AccountExamples UserExamples UsersCsvExamples.

Definition auth : AdminAuth.t := AdminAuth.mk (Some "token").
Definition sessions : AdminSessions.t :=
  AdminSessions.create 0 "c-ana" Role.Editor (Some "ana")
    (AdminSessions.create 0 "c-root" Role.Admin (Some "root") AdminSessions.default_policy).
Definition portal : Portal.t := Portal.mk (Some db) sessions IdentityCache.empty.
Definition draws (line : Z) : Draw.t := Draw.mk 9 "salt" ("id-" +:+ show line).
Definition after (cookie : string) (req : Request) : Portal.t :=
  (routes Sqlite collate (fun s => s) (fun _ _ _ => "") (fun s => s) 7 auth (Some cookie) draws req portal).2.
Definition role_and_groups (u : string) (p : Portal.t) : option (string * string) :=
  s ← tables_of p; a ← AccountTables.users s !! u; Some (Account.role a, Account.groups a).

Lemma example_typed : accounts_typed (ConfigDb.tables db).
Proof.
  intros u a Hu. split; [|by eapply db_typed]. revert u a Hu.
  change (map_Forall (fun u a => Account.username a = u) (AccountTables.users (ConfigDb.tables db))).
  repeat apply map_Forall_insert_2; [reflexivity..|apply map_Forall_empty].
Qed.

(** Ana, of lab and ops, moves bo from ops to lab, and cannot reach zoe. *)
Lemma editor_requests_confined_witness :
  role_and_groups "bo" (after "c-ana" (PostGroups "Bo" "lab")) = Some ("viewer", "lab")
  /\ role_and_groups "zoe" (after "c-ana" (PostGroups "zoe" "lab")) = Some ("viewer", "labs")
  /\ exists s', tables_of (after "c-ana" (PostGroups "Bo" "lab")) = Some s'
       /\ confined (editor_scope UserExamples.ana portal).1 (ConfigDb.tables db) s'.
Proof.
  split; [vm_compute; reflexivity|]. split; [vm_compute; reflexivity|].
  apply (editor_requests_confined (H0 := ascii_case_laws) Sqlite collate (fun s => s) (fun _ _ _ => "") (fun s => s) 7 auth (Some "c-ana") draws
           (PostGroups "Bo" "lab") portal (ConfigDb.tables db) UserExamples.ana);
    [vm_compute; reflexivity|reflexivity|reflexivity|apply example_typed].
Defined.

(** Root demotes ana. *)
Lemma credential_changes_end_sessions_witness :
  role_and_groups "ana" (after "c-root" (PostRole "ana" "viewer")) = Some ("viewer", "lab,ops")
  /\ AdminSessions.sessions (Portal.admin_sessions (after "c-root" (PostRole "ana" "viewer"))) !! "c-ana" = None
  /\ sessions_follow "ana" (account "ana" "editor" "lab,ops") (after "c-root" (PostRole "ana" "viewer")).
Proof.
  split; [vm_compute; reflexivity|]. split; [vm_compute; reflexivity|].
  apply (credential_changes_end_sessions (H0 := ascii_case_laws) Sqlite collate (fun s => s) (fun _ _ _ => "") (fun s => s) 7 auth (Some "c-root")
           draws (PostRole "ana" "viewer") portal (ConfigDb.tables db));
    [reflexivity|apply example_typed|reflexivity].
Defined.

Definition lines (ls : list string) : string := csv_of ls.
Definition token_session : SessionInfo.t := SessionInfo.mk Role.Admin None.

(** One new account, one name already taken. *)
Definition two_rows : string := lines ["username,role,password,groups"; "new,editor,Str0ng!pass,ops;lab"; "bo,admin,Str0ng!pass,"].
Lemma import_keeps_accounts_witness :
  role_and_groups "new" (import_confirm Sqlite token_session two_rows draws portal).2 = Some ("editor", "ops,lab")
  /\ (exists s', tables_of (import_confirm Sqlite token_session two_rows draws portal).2 = Some s' /\ keeps (ConfigDb.tables db) s')
  /\ exists rows, parse_csv_users two_rows = Ok rows /\ 1 + 1 = zlen rows.
Proof.
  split; [vm_compute; reflexivity|].
  apply (import_keeps_accounts Sqlite token_session two_rows draws portal (ConfigDb.tables db) 1 1); vm_compute; reflexivity.
Defined.

(** The roll-back of a half-made account is not all or nothing: with no
    admin account yet (the operator holds the token), an admin row whose
    profile write fails cannot be deleted again, and stays although it is
    counted as skipped. *)
Definition first_admin : string := lines ["username,role,password,setor"; "boss,admin,Str0ng!pass,HQ"].
Definition bare : Portal.t :=
  Portal.mk (Some (ConfigDb.mk AccountTables.empty [false; false; false; false; true])) sessions IdentityCache.empty.
Example half_made_admin_stays :
  let '(r, p) := import_confirm Sqlite token_session first_admin draws bare in
  r = Imported 0 1 /\ role_and_groups "boss" p = Some ("admin", "").
Proof. vm_compute. split; reflexivity. Qed.
End UserAccessExamples.
