(* ===== verification/Credentials.v ===== *)
(** * Credentials: registry passwords at rest

    The master key (crypto.rs), the store of registry credentials
    (db/credentials.rs) and its admin page (routes/admin/credentials.rs).  A
    literal password is stored as an AES-256-GCM ciphertext with its nonce; a
    password that is an environment reference is stored as it is, with an
    empty nonce, and resolved when an image is pulled.  Parameters: aes-gcm,
    base64 and hex, the JSON printer, the collation of names. *)

From Stdlib Require Import Ascii String ZArith Lia.
From stdpp Require Import base tactics list gmap strings fin_maps numbers sorting pretty.
From S2P Require Import Prelude Text Schema Core Spawn Auth References Interpolation Database SpecStore Accounts.

Local Open Scope string_scope.
Local Open Scope list_scope.
Local Open Scope Z_scope.
Local Open Scope ruscker_scope.

(** ** The master key *)

(** aes-gcm: [None] is its error.  Arguments: key, nonce, text. *)
Class AesGcm := {
  gcm_encrypt : string -> string -> string -> option string;
  gcm_decrypt : string -> string -> string -> option string
}.
Class AesGcmLaws `{AesGcm} := {
  gcm_round_trip key nonce plaintext ciphertext :
    gcm_encrypt key nonce plaintext = Some ciphertext -> gcm_decrypt key nonce ciphertext = Some plaintext
}.

(** The base64 crate's engines. *)
Inductive Base64Engine := STANDARD | STANDARD_NO_PAD | URL_SAFE | URL_SAFE_NO_PAD.
Class Base64Crate := { base64_decode : Base64Engine -> string -> option string }.

Module MasterKey.
Record t := mk { inner : option string }.
Definition default : t := mk None.
Definition is_configured (k : t) : bool := bool_decide (is_Some (inner k)).
Definition cipher_key (k : t) : Result string string :=
  match inner k with Some key => Ok key | None => Err "master key not configured (RUSCKER_MASTER_KEY)" end.

Section MasterKey.
Context `{AesGcm} `{Base64Crate} `{MfaCrates}.

(** The attempts at a base64 key, in order. *)
Definition try_decode (e : Base64Engine) (raw : string) : option string :=
  v ← base64_decode e raw; if (String.length v =? 32)%nat then Some v else None.

Fixpoint first_decoded (es : list Base64Engine) (raw : string) : option string :=
  match es with [] => None | e :: es => match try_decode e raw with Some b => Some b | None => first_decoded es raw end end.

Definition decode_key_material (raw : string) : Result string string :=
  let raw := trim raw in
  if (String.length raw =? 64)%nat && str_forallb is_ascii_hexdigit raw then
    match hex_decode raw with
    | None => Err "decode master key as hex"
    | Some v => if (String.length v =? 32)%nat then Ok v else Err "hex key must decode to 32 bytes"
    end
  else
    match first_decoded [STANDARD; STANDARD_NO_PAD; URL_SAFE; URL_SAFE_NO_PAD] raw with
    | Some b => Ok b
    | None => Err "RUSCKER_MASTER_KEY must be 32 bytes encoded as 64-hex or 44-base64 (try `openssl rand -hex 32`)"
    end.

Definition parse (raw : string) : Result t string := result_map (fun b => mk (Some b)) (decode_key_material raw).

Definition from_env (var : EnvVar) : Result t string :=
  match var with
  | EnvPresent raw => if str_is_empty raw then Ok default else parse raw
  | _ => Ok default
  end.

(** [nonce] is the fresh one. *)
Definition encrypt (nonce plaintext : string) (k : t) : Result (string * string) string :=
  let? key := cipher_key k in
  match gcm_encrypt key nonce plaintext with Some ciphertext => Ok (ciphertext, nonce) | None => Err "AES-GCM encrypt failed: aead::Error" end.

Definition decrypt (ciphertext nonce : string) (k : t) : Result string string :=
  if negb (String.length nonce =? 12)%nat then Err ("AES-GCM nonce must be 12 bytes, got " +:+ pretty (String.length nonce))
  else
    let? key := cipher_key k in
    match gcm_decrypt key nonce ciphertext with Some plaintext => Ok plaintext | None => Err "AES-GCM decrypt failed: aead::Error" end.
End MasterKey.
End MasterKey.

(** ** The store *)

Module CredentialRow.
Record t := mk { name : string; registry : string; username : string; password_enc : string; nonce : string; created_at : Z }.
End CredentialRow.

Module CredentialMeta.
Record t := mk { name : string; registry : string; username : string; created_at : Z }.
Definition of_row (r : CredentialRow.t) : t :=
  mk (CredentialRow.name r) (CredentialRow.registry r) (CredentialRow.username r) (CredentialRow.created_at r).
End CredentialMeta.

Module CredentialTables.
Record t := mk { credentials : gmap string CredentialRow.t; audit_log : list AuditRow.t }.
Definition empty : t := mk ∅ [].
Definition set_credentials (x : gmap string CredentialRow.t) (s : t) : t := mk x (audit_log s).
Definition set_audit_log (x : list AuditRow.t) (s : t) : t := mk (credentials s) x.
End CredentialTables.

Abbreviation CM A := (St (ConfigDb.t CredentialTables.t) A).

Section Credentials.
Context `{AesGcm} `{JsonObject} (collate : string -> string -> bool).

(** An error of the crypto and of the text layer, as one of this function. *)
Definition of_result {A} (r : Result A string) : CM (DbResult A) := lift (result_map_err Failed r).

Definition audit_credential (context action : string) (actor : option string) (name diff : string) (now : Z) : CM (DbResult unit) :=
  execute context (fun s =>
    CredentialTables.set_audit_log
      (CredentialTables.audit_log s ++ [AuditRow.mk actor action (Some ("credential:" +:+ name)) (Some diff) now]) s).

(** [INSERT .. ON CONFLICT(name) DO UPDATE]: the creation time stays. *)
Definition put_credential (r : CredentialRow.t) (s : CredentialTables.t) : CredentialTables.t :=
  let created := match CredentialTables.credentials s !! CredentialRow.name r with
                 | Some old => CredentialRow.created_at old
                 | None => CredentialRow.created_at r
                 end in
  CredentialTables.set_credentials
    (<[CredentialRow.name r := CredentialRow.mk (CredentialRow.name r) (CredentialRow.registry r) (CredentialRow.username r)
         (CredentialRow.password_enc r) (CredentialRow.nonce r) created]> (CredentialTables.credentials s)) s.

(** What is stored of a password; [nonce] is the fresh one. *)
Definition sealed (key : MasterKey.t) (nonce password : string) : Result (string * string) string :=
  if is_pure_env_ref password then Ok (password, "") else MasterKey.encrypt nonce password key.

Definition upsert (key : MasterKey.t) (nonce : string) (now : Z) (name registry username password : string) (actor : option string)
    : CM (DbResult bool) :=
  do? stored <- of_result (sealed key nonce password);
  let diff := to_json [("registry", Some registry); ("username", Some username)] in
  transaction "begin credential tx" "commit credential tx"
    (do? existing <- query ("lookup credential " +:+ name) (fun s => CredentialRow.name <$> CredentialTables.credentials s !! name);
     let replaced := bool_decide (is_Some existing) in
     do? u <- execute ("insert credential " +:+ name)
                (put_credential (CredentialRow.mk name registry username stored.1 stored.2 now));
     do? u <- audit_credential "audit credential upsert" (if replaced then "credential.update" else "credential.create") actor name diff now;
     lift (Ok (Commit replaced))).

(** [ORDER BY name] *)
Definition by_name (a b : CredentialRow.t) : Prop := collate (CredentialRow.name a) (CredentialRow.name b) = true.
#[global] Instance by_name_dec a b : Decision (by_name a b).
Proof. unfold by_name. apply _. Defined.

Definition list_all : CM (DbResult (list CredentialMeta.t)) :=
  query "list credentials" (fun s =>
    CredentialMeta.of_row <$>
      merge_sort by_name (snd <$> map_to_list (CredentialTables.credentials s))).

(** The password of a row: a reference is resolved, a ciphertext decrypted. *)
Definition revealed (env : string -> EnvVar) (key : MasterKey.t) (name enc nonce : string) : Result string string :=
  if str_is_empty nonce then
    if negb (utf8_valid enc) then Err "stored credential reference is not valid UTF-8"
    else result_map_err (fun _ => "resolve ${VAR} in credential " +:+ name) (interpolate_value env enc)
  else
    let? pt := MasterKey.decrypt enc nonce key in
    if utf8_valid pt then Ok pt else Err "decrypted password is not valid UTF-8".

Definition resolve (env : string -> EnvVar) (key : MasterKey.t) (name : string) : CM (DbResult (option RegistryCredentials.t)) :=
  do? row <- query ("resolve credential " +:+ name) (fun s => CredentialTables.credentials s !! name);
  match row with
  | None => lift (Ok None)
  | Some r =>
    do? password <- of_result (revealed env key name (CredentialRow.password_enc r) (CredentialRow.nonce r));
    let server_address := if str_is_empty (trim (CredentialRow.registry r)) then None else Some (CredentialRow.registry r) in
    lift (Ok (Some (RegistryCredentials.mk (CredentialRow.username r) password server_address (Some name))))
  end.

Definition fetch_password (env : string -> EnvVar) (key : MasterKey.t) (name : string) : CM (DbResult (option string)) :=
  do? row <- query ("fetch credential " +:+ name) (fun s => CredentialTables.credentials s !! name);
  match row with
  | None => lift (Ok None)
  | Some r =>
    do? s <- of_result (revealed env key name (CredentialRow.password_enc r) (CredentialRow.nonce r));
    lift (Ok (Some s))
  end.

Definition delete_one (now : Z) (name : string) (actor : option string) : CM (DbResult bool) :=
  transaction "begin credential delete tx" "commit credential delete"
    (do? removed <- statement ("delete credential " +:+ name) (fun s =>
       (bool_decide (is_Some (CredentialTables.credentials s !! name)),
        CredentialTables.set_credentials (base.delete name (CredentialTables.credentials s)) s));
     do? u <- (if removed : bool then audit_credential "audit credential.delete" "credential.delete" actor name "{}" now else lift (Ok tt));
     lift (Ok (Commit removed))).
End Credentials.

(** ** The admin page *)

Module CredentialForm.
Record t := mk { name : string; registry : string; username : string; password : string }.
End CredentialForm.

Module CredentialsPage.
Record t := mk {
  credentials : list CredentialMeta.t;
  kpi_total : Z;
  kpi_in_use : Z;
  key_missing : bool;
  flash_saved : option string;
  flash_error : option string }.
End CredentialsPage.

Inductive PageResponse :=
  | PageUnavailable
  | PageError (message : string)
  | ShowCredentials (page : CredentialsPage.t)
  | ToCredentials.

Section CredentialsAdmin.
Context `{AesGcm} `{JsonObject} (collate : string -> string -> bool).

(** The state of the handlers: the pool, when one is attached. *)
Abbreviation HM A := (St (option (ConfigDb.t CredentialTables.t)) A).

Definition on_pool {A} (m : CM (DbResult A)) (k : DbResult A -> HM PageResponse) : HM PageResponse := fun pool =>
  match pool with
  | Some db => let '(r, db') := m db in k r (Some db')
  | None => (PageUnavailable, pool)
  end.

Definition error_text (e : DbError) : string := match e with Failed c | UniqueViolation c => c end.

(** [specs] is the cached effective catalogue. *)
Definition render_index (key : MasterKey.t) (specs : list Spec.t) (flash_saved flash_error : option string) : HM PageResponse :=
  on_pool (list_all collate) (fun r =>
    match r with
    | Err _ => st_ret (PageError "db error")
    | Ok credentials =>
      let referenced := omap Spec.docker_registry_credential specs in
      st_ret (ShowCredentials (CredentialsPage.mk credentials (zlen credentials)
        (zlen (List.filter (fun c => existsb (str_eqb (CredentialMeta.name c)) referenced) credentials))
        (negb (MasterKey.is_configured key)) flash_saved flash_error))
    end).

Definition is_credential_name_char (c : ascii) : bool :=
  is_ascii_digit c || is_ascii_lower c || is_ascii_upper c || existsb (Ascii.eqb c) ["_"; "."; "-"]%char.
Definition is_valid_credential_name (name : string) : bool :=
  let t := trim name in negb (str_is_empty t) && str_forallb is_credential_name_char t.

Definition create_or_update (key : MasterKey.t) (specs : list Spec.t) (nonce : string) (now : Z) (admin : SessionInfo.t)
    (form : CredentialForm.t) : HM PageResponse := fun pool =>
  match pool with
  | None => (PageUnavailable, pool)
  | Some _ =>
    (if negb (MasterKey.is_configured key) then render_index key specs None (Some "RUSCKER_MASTER_KEY is not set")
     else if str_is_empty (trim (CredentialForm.name form)) || str_is_empty (trim (CredentialForm.username form))
             || str_is_empty (CredentialForm.password form)
     then render_index key specs None (Some "name, username and password are required")
     else if negb (is_valid_credential_name (CredentialForm.name form))
     then render_index key specs None (Some "name may only contain letters, digits, '_', '.' and '-'")
     else
       let registry := if str_is_empty (trim (CredentialForm.registry form)) then "docker.io" else trim (CredentialForm.registry form) in
       on_pool (upsert key nonce now (trim (CredentialForm.name form)) registry (trim (CredentialForm.username form))
                  (CredentialForm.password form) (Some (audit_actor admin)))
         (fun r => match r with
                   | Ok _ => render_index key specs (Some (trim (CredentialForm.name form))) None
                   | Err e => render_index key specs None (Some (error_text e))
                   end)) pool
  end.

Definition delete_credential (now : Z) (admin : SessionInfo.t) (name : string) : HM PageResponse :=
  on_pool (delete_one now name (Some (audit_actor admin)))
    (fun r => st_ret (match r with Ok _ => ToCredentials | Err _ => PageError "delete failed" end)).
End CredentialsAdmin.

(** ** Passwords at rest *)

(** The sealed columns of a row: the AES-256-GCM ciphertext, under the
    master key and a 12-byte nonce, of a password that is not just references;
    or a text of references with nothing around them. *)
Definition at_rest `{AesGcm} (key : MasterKey.t) (r : CredentialRow.t) : Prop :=
  (CredentialRow.nonce r = "" /\ references_only (CredentialRow.password_enc r))
  \/ exists k password, MasterKey.inner key = Some k /\ String.length (CredentialRow.nonce r) = 12%nat
       /\ ~ references_only password
       /\ gcm_encrypt k (CredentialRow.nonce r) password = Some (CredentialRow.password_enc r).

Definition sealed_tables `{AesGcm} (key : MasterKey.t) (s : CredentialTables.t) : Prop :=
  map_Forall (fun _ r => at_rest key r) (CredentialTables.credentials s).

Inductive CredentialOp :=
  | UpsertCredential (nonce : string) (now : Z) (name registry username password : string) (actor : option string)
  | DeleteCredential (now : Z) (name : string) (actor : option string).

(** Two operations but for the password and its nonce. *)
Definition same_but_password (o o' : CredentialOp) : Prop :=
  match o, o' with
  | UpsertCredential _ now name registry username _ actor, UpsertCredential _ now' name' registry' username' _ actor' =>
    now = now' /\ name = name' /\ registry = registry' /\ username = username' /\ actor = actor'
  | DeleteCredential now name actor, DeleteCredential now' name' actor' => now = now' /\ name = name' /\ actor = actor'
  | _, _ => False
  end.

(** What is left of the tables without the sealed columns. *)
Definition unsealed (s : CredentialTables.t) : gmap string CredentialMeta.t * list AuditRow.t :=
  (CredentialMeta.of_row <$> CredentialTables.credentials s, CredentialTables.audit_log s).

Section AtRest.
Context `{AesGcm} `{JsonObject} (key : MasterKey.t).

Definition credential_step (db : ConfigDb.t CredentialTables.t) (o : CredentialOp) : ConfigDb.t CredentialTables.t :=
  match o with
  | UpsertCredential nonce now name registry username password actor =>
    (upsert key nonce now name registry username password actor db).2
  | DeleteCredential now name actor => (delete_one now name actor db).2
  end.
Definition credential_run (db : ConfigDb.t CredentialTables.t) (os : list CredentialOp) : ConfigDb.t CredentialTables.t :=
  foldl credential_step db os.

(** The nonces aes-gcm draws. *)
Definition nonce_ok (o : CredentialOp) : Prop :=
  match o with UpsertCredential nonce _ _ _ _ _ _ => String.length nonce = 12%nat | DeleteCredential _ _ _ => True end.

Lemma sealed_at_rest nonce password name registry username now st :
  String.length nonce = 12%nat -> sealed key nonce password = Ok st ->
  at_rest key (CredentialRow.mk name registry username st.1 st.2 now).
Proof.
  intros Hn. unfold sealed, MasterKey.encrypt, MasterKey.cipher_key. rewrite references_only_decide.
  case_decide as Hp; [intros [= <-]; by left|].
  destruct (MasterKey.inner key) as [k|] eqn:Ek; cbn; [|done]. destruct (gcm_encrypt k nonce password) as [c|] eqn:Ec; [|done].
  intros [= <-]. right. exists k, password. done.
Qed.

Definition stays_sealed (s s' : CredentialTables.t) : Prop := sealed_tables key s -> sealed_tables key s'.
#[local] Instance stays_sealed_preorder : PreOrder stays_sealed.
Proof. split; unfold stays_sealed; [by intros s|by intros s1 s2 s3; auto]. Qed.

Lemma upsert_stays_sealed nonce now name registry username password actor :
  String.length nonce = 12%nat -> preserves (on_tables stays_sealed) (upsert key nonce now name registry username password actor).
Proof.
  intros Hn db. unfold upsert, of_result, try_bind, st_bind. cbn [lift st_ret].
  destruct (sealed key nonce password) as [st|e] eqn:Es; cbn [result_map_err]; [|by unfold on_tables, stays_sealed].
  enough (preserves (on_tables stays_sealed) (transaction "begin credential tx" "commit credential tx"
    (do? existing <- query ("lookup credential " +:+ name) (fun s => CredentialRow.name <$> CredentialTables.credentials s !! name);
     do? u <- execute ("insert credential " +:+ name) (put_credential (CredentialRow.mk name registry username st.1 st.2 now));
     do? u <- audit_credential "audit credential upsert" (if bool_decide (is_Some existing) then "credential.update" else "credential.create")
                actor name (to_json [("registry", Some registry); ("username", Some username)]) now;
     lift (Ok (Commit (bool_decide (is_Some existing))))))) as Hp by apply Hp.
  tables_auto.
  - apply preserves_execute; [apply _|]. intros s Hs. unfold put_credential, sealed_tables. cbn.
    apply map_Forall_insert_2; [|exact Hs]. apply (sealed_at_rest nonce password _ _ _ _ st Hn Es).
  - apply preserves_execute; [apply _|]. intros s Hs. exact Hs.
Qed.

Lemma delete_stays_sealed now name actor : preserves (on_tables stays_sealed) (delete_one now name actor).
Proof.
  unfold delete_one. tables_auto.
  - apply preserves_statement; [apply _|]. intros s Hs k r. cbn. intros [_ Hk]%lookup_delete_Some. by apply (Hs k).
  - apply preserves_execute; [apply _|]. intros s Hs. exact Hs.
Qed.

(** Two runs whose passwords differ. *)
Definition alike (db db' : ConfigDb.t CredentialTables.t) : Prop :=
  unsealed (ConfigDb.tables db) = unsealed (ConfigDb.tables db') /\ ConfigDb.faults db = ConfigDb.faults db'.

(** A program of statements that answers alike and leaves alike. *)
Definition alike_m {A} (m m' : CM A) : Prop := forall db db', alike db db' -> (m db).1 = (m' db').1 /\ alike (m db).2 (m' db').2.

Lemma alike_ret {A} (a : A) : alike_m (st_ret a) (st_ret a).
Proof. by intros db db'. Qed.

Lemma alike_try {A B} (m m' : CM (DbResult A)) (k k' : A -> CM (DbResult B)) :
  alike_m m m' -> (forall a, alike_m (k a) (k' a)) -> alike_m (try_bind m k) (try_bind m' k').
Proof.
  intros Hm Hk db db' Hdb. destruct (Hm db db' Hdb) as [Hr Hd]. unfold try_bind, st_bind.
  destruct (m db) as [r d], (m' db') as [r' d']. cbn in *. subst r'. destruct r as [a|e]; [by apply Hk|done].
Qed.

Lemma alike_of_result {A B} (a a' : A) (k k' : A -> CM (DbResult B)) :
  alike_m (k a) (k' a') -> alike_m (try_bind (of_result (Ok a)) k) (try_bind (of_result (Ok a')) k').
Proof. done. Qed.

Lemma alike_statement {A} c (f f' : CredentialTables.t -> A * CredentialTables.t) :
  (forall s s', unsealed s = unsealed s' -> (f s).1 = (f' s').1 /\ unsealed (f s).2 = unsealed (f' s').2) ->
  alike_m (statement c f) (statement c f').
Proof.
  intros Hf db db' [Hu Hfl]. unfold statement. rewrite <- Hfl. destruct (Hf _ _ Hu) as [H1 H2].
  destruct (ConfigDb.faults db) as [|[] rest]; cbn; (split; [congruence|split; done]).
Qed.

Lemma alike_transaction {A} b c (m m' : CM (DbResult (TxEnd A))) : alike_m m m' -> alike_m (transaction b c m) (transaction b c m').
Proof.
  intros Hm. unfold transaction, transaction_beside. apply alike_try; [by apply alike_statement|]. intros _ db db' Hdb.
  destruct (Hm db db' Hdb) as [Hr Hd]. destruct (m db) as [r d], (m' db') as [r' d']. cbn in *. subst r'. destruct Hdb as [Hu Hfl], Hd as [Hu' Hfl'].
  destruct r as [[a|a]|e]; [|split; [done|split; done]..].
  unfold query, statement. rewrite <- Hfl'. destruct (ConfigDb.faults d) as [|[] rest]; cbn; (split; [done|split; done]).
Qed.

Lemma unsealed_lookup s s' name :
  unsealed s = unsealed s' ->
  CredentialRow.name <$> CredentialTables.credentials s !! name = CredentialRow.name <$> CredentialTables.credentials s' !! name.
Proof.
  intros [= Hc _]. apply (f_equal (lookup name)) in Hc. rewrite !lookup_fmap in Hc.
  destruct (CredentialTables.credentials s !! name), (CredentialTables.credentials s' !! name); try done. injection Hc. cbn. congruence.
Qed.

Lemma unsealed_put name registry username enc nonce enc' nonce' now s s' :
  unsealed s = unsealed s' ->
  unsealed (put_credential (CredentialRow.mk name registry username enc nonce now) s)
  = unsealed (put_credential (CredentialRow.mk name registry username enc' nonce' now) s').
Proof.
  intros [= Hc Ha]. unfold unsealed, put_credential. cbn. rewrite Ha. f_equal. rewrite !fmap_insert, Hc. f_equal. unfold CredentialMeta.of_row. cbn. f_equal.
  apply (f_equal (lookup name)) in Hc. rewrite !lookup_fmap in Hc.
  destruct (CredentialTables.credentials s !! name), (CredentialTables.credentials s' !! name); try done. injection Hc. congruence.
Qed.

Lemma alike_audit c action actor name diff now : alike_m (audit_credential c action actor name diff now) (audit_credential c action actor name diff now).
Proof. apply alike_statement. intros s s' [= Hc Ha]. split; [done|]. unfold unsealed. cbn. congruence. Qed.

(** The cipher does not fail on these texts. *)
Definition encrypts (o : CredentialOp) : Prop :=
  match o with UpsertCredential nonce _ _ _ _ password _ => is_ok (sealed key nonce password) = true | DeleteCredential _ _ _ => True end.

Lemma upsert_alike n n' pw pw' t nm rg us ac :
  is_ok (sealed key n pw) = true -> is_ok (sealed key n' pw') = true ->
  alike_m (upsert key n t nm rg us pw ac) (upsert key n' t nm rg us pw' ac).
Proof.
  unfold upsert. destruct (sealed key n pw) as [st|]; [|done]. destruct (sealed key n' pw') as [st'|]; [|done]. intros _ _.
  apply alike_of_result, alike_transaction, alike_try.
  - apply alike_statement. intros s s' Hs. split; [by apply unsealed_lookup|exact Hs].
  - intros existing. apply alike_try; [|intros u; apply alike_try; [apply alike_audit|intros u'; apply alike_ret]].
    apply alike_statement. intros s s' Hs. split; [done|]. by apply unsealed_put.
Qed.

Lemma delete_alike t nm ac : alike_m (delete_one t nm ac) (delete_one t nm ac).
Proof.
  unfold delete_one. apply alike_transaction, alike_try.
  - apply alike_statement. intros s s' Hs. split.
    + cbn. apply unsealed_lookup with (name := nm) in Hs.
      destruct (CredentialTables.credentials s !! nm), (CredentialTables.credentials s' !! nm); done.
    + injection Hs as Hc Ha. unfold unsealed. cbn. by rewrite !fmap_delete, Hc, Ha.
  - intros removed. apply alike_try; [destruct removed; [apply alike_audit|apply alike_ret]|]. intros u. apply alike_ret.
Qed.

Lemma step_alike o o' db db' :
  same_but_password o o' -> encrypts o -> encrypts o' -> alike db db' -> alike (credential_step db o) (credential_step db' o').
Proof.
  intros Ho He He' Hdb. destruct o as [n t nm rg us pw ac|t nm ac], o' as [n' t' nm' rg' us' pw' ac'|t' nm' ac']; try done; cbn in Ho, He, He' |- *.
  - destruct Ho as (<- & <- & <- & <- & <-). by apply upsert_alike.
  - destruct Ho as (<- & <- & <-). by apply delete_alike.
Qed.

End AtRest.

(** ** The theorems *)

Section CredentialTheorems.
Context `{AesGcm} `{JsonObject}.

Lemma run_stays_sealed key os db :
  Forall nonce_ok os -> sealed_tables key (ConfigDb.tables db) -> sealed_tables key (ConfigDb.tables (credential_run key db os)).
Proof.
  unfold credential_run. intros Hos. revert db. induction Hos as [|o os Ho _ IH]; intros db Hs; [done|]. apply IH.
  destruct o as [n t nm rg us pw ac|t nm ac]; [by apply upsert_stays_sealed|by apply delete_stays_sealed].
Qed.

Lemma run_alike key os os' : Forall2 same_but_password os os' -> Forall (encrypts key) os -> Forall (encrypts key) os' ->
  forall db db', alike db db' -> alike (credential_run key db os) (credential_run key db' os').
Proof.
  unfold credential_run. induction 1 as [|o o' os os' Ho _ IH]; intros He He'; [done|]. inversion He; inversion He'; subst.
  intros db db' Hdb. apply IH; [done..|]. by apply step_alike.
Qed.

(** C27. Registry passwords stay sealed, whatever is saved and deleted and
    whatever statement fails.  Every row of the table holds the AES-256-GCM
    ciphertext, under the master key and a 12-byte nonce, of a password with a
    character outside references, or a text of [${VAR}] and [${VAR:-default}]
    references with white space at most around them: a character of a saved
    password is legible in the table only inside a reference (where a default
    is stored as typed).  Nothing else in the database, the audit log included,
    depends on the passwords: two histories that differ in their passwords and
    nonces only leave the same names, registries, usernames, times and audit
    rows. *)
Theorem passwords_stay_sealed key db os os' :
  Forall nonce_ok os -> sealed_tables key (ConfigDb.tables db) ->
  Forall2 same_but_password os os' -> Forall (encrypts key) os -> Forall (encrypts key) os' ->
  sealed_tables key (ConfigDb.tables (credential_run key db os))
  /\ unsealed (ConfigDb.tables (credential_run key db os)) = unsealed (ConfigDb.tables (credential_run key db os')).
Proof. intros Hn Hs Ho He He'. split; [by apply run_stays_sealed|]. by apply run_alike. Qed.

(** What a saved password stands for when an image is pulled. *)
Definition meant (env : string -> EnvVar) (password : string) : Result string ConfigError.t :=
  if decide (references_only password) then interpolate_value env password else Ok password.

Lemma revealed_sealed `{!AesGcmLaws} env key nonce password name st :
  String.length nonce = 12%nat -> utf8_valid password = true -> sealed key nonce password = Ok st ->
  revealed env key name st.1 st.2 = result_map_err (fun _ => "resolve ${VAR} in credential " +:+ name) (meant env password).
Proof.
  intros Hn Hu. unfold sealed, revealed, meant, MasterKey.encrypt, MasterKey.decrypt. rewrite references_only_decide. case_decide.
  - intros [= <-]. cbn [fst snd str_is_empty]. by rewrite Hu.
  - destruct (MasterKey.cipher_key key) as [k|]; cbn; [|done]. destruct (gcm_encrypt k nonce password) as [c|] eqn:Ec; [|done].
    intros [= <-]. cbn. destruct nonce as [|a nonce]; [done|]. cbn [str_is_empty]. rewrite Hn. cbn.
    rewrite (gcm_round_trip _ _ _ _ Ec). cbn [result_bind]. by rewrite Hu.
Qed.

Lemma upsert_healthy key nonce now name registry username password actor s st :
  sealed key nonce password = Ok st ->
  exists log,
  upsert key nonce now name registry username password actor (ConfigDb.mk s [])
  = (Ok (bool_decide (is_Some (CredentialRow.name <$> CredentialTables.credentials s !! name))),
     ConfigDb.mk (CredentialTables.mk
       (CredentialTables.credentials (put_credential (CredentialRow.mk name registry username st.1 st.2 now) s)) log) []).
Proof.
  intros Es. unfold upsert, of_result, try_bind, st_bind. cbn [lift st_ret]. rewrite Es. cbn [result_map_err].
  eexists. erewrite transaction_healthy by reflexivity. reflexivity.
Qed.

(** The store the spawn path consults, over a database. *)
Definition store_of (env : string -> EnvVar) (key : MasterKey.t) (db : ConfigDb.t CredentialTables.t)
    (name : string) : Result (option RegistryCredentials.t) string :=
  result_map_err error_text (resolve env key name db).1.

Definition pulled_as (username name registry password : string) : RegistryCredentials.t :=
  RegistryCredentials.mk username password (if str_is_empty (trim registry) then None else Some registry) (Some name).

(** C28. A credential saved in the store is the one an image is pulled with:
    once it is saved, a spec that names it resolves, at any later pull under the
    same master key, to its username, its registry and its password as it was
    typed -- or, when it was typed as environment references, what they stand
    for at the time of the pull; whatever the spec says inline; and saving it
    changes what no other name resolves to.  When a reference does not resolve
    the pull falls back on the spec's inline credentials. *)
Theorem credential_reaches_the_pull `{!AesGcmLaws} key nonce now name registry username password actor s env spec :
  String.length nonce = 12%nat -> utf8_valid password = true -> is_ok (sealed key nonce password) = true ->
  Spec.docker_registry_credential spec = Some name -> name <> "" ->
  let '(r, db') := upsert key nonce now name registry username password actor (ConfigDb.mk s []) in
  is_ok r = true
  /\ (Env.credential_store env = Some (store_of (Env.vars env) key db') ->
      resolve_creds env spec
      = match meant (Env.vars env) password with
        | Ok p => Ok (Some (pulled_as username name registry p))
        | Err _ => creds_from_spec (Env.vars env) spec
        end)
  /\ forall other, other <> name -> store_of (Env.vars env) key db' other = store_of (Env.vars env) key (ConfigDb.mk s []) other.
Proof.
  intros Hn Hu He Hspec Hname. destruct (sealed key nonce password) as [st|] eqn:Es; [|done].
  destruct (upsert_healthy key nonce now name registry username password actor s st Es) as [log ->]. split; [done|split].
  - intros Hstore. unfold resolve_creds. rewrite Hspec, Hstore. destruct name as [|c0 nm] eqn:En; [done|]. rewrite <- En in *.
    replace (nonempty (Some name)) with (Some name) by (by rewrite En). cbn. unfold store_of, resolve, try_bind, st_bind, query.
    rewrite statement_no_faults. unfold put_credential. cbn. rewrite lookup_insert_eq. cbn. unfold of_result.
    rewrite (revealed_sealed _ _ nonce password _ st Hn Hu Es). by destruct (meant (Env.vars env) password).
  - intros other Ho. unfold store_of, resolve, try_bind, st_bind, query. rewrite !statement_no_faults. cbn [fst snd].
    unfold put_credential. cbn. rewrite lookup_insert_ne by done.
    destruct (CredentialTables.credentials s !! other) as [r|]; [|done]. cbn.
    by destruct (revealed (Env.vars env) key other (CredentialRow.password_enc r) (CredentialRow.nonce r)).
Qed.
End CredentialTheorems.

(** ** Examples *)

Module CredentialExamples.
Import AccountExamples.

(** A cipher that prepends its nonce. *)
#[local] Instance prepending : AesGcm :=
  { gcm_encrypt _ nonce text := Some (nonce +:+ text); gcm_decrypt _ nonce text := strip_prefix nonce text }.
#[local] Instance prepending_laws : AesGcmLaws.
Proof. split. intros key nonce pt ct [= <-]. by apply strip_prefix_Some. Qed.

Definition with_registry (username password credential : option string) (s : Spec.t) : Spec.t := {|
  Spec.id := Spec.id s; Spec.display_name := Spec.display_name s; Spec.description := Spec.description s;
  Spec.featured := Spec.featured s; Spec.container_image := Spec.container_image s;
  Spec.container_port := Spec.container_port s; Spec.platform := Spec.platform s;
  Spec.seats_per_container := Spec.seats_per_container s; Spec.max_lifetime := Spec.max_lifetime s;
  Spec.container_lifetime := Spec.container_lifetime s; Spec.heartbeat_timeout := Spec.heartbeat_timeout s;
  Spec.container_wait_time := Spec.container_wait_time s; Spec.stop_on_logout := Spec.stop_on_logout s;
  Spec.docker_registry_username := username;
  Spec.docker_registry_password := password;
  Spec.docker_registry_domain := Spec.docker_registry_domain s;
  Spec.docker_registry_credential := credential;
  Spec.container_cpu_limit := Spec.container_cpu_limit s; Spec.container_cpu_request := Spec.container_cpu_request s;
  Spec.container_memory_limit := Spec.container_memory_limit s;
  Spec.container_memory_request := Spec.container_memory_request s; Spec.max_body_size := Spec.max_body_size s;
  Spec.volumes := Spec.volumes s; Spec.container_env := Spec.container_env s; Spec.container_cmd := Spec.container_cmd s;
  Spec.container_network := Spec.container_network s; Spec.labels := Spec.labels s;
  Spec.access_groups := Spec.access_groups s; Spec.access_users := Spec.access_users s;
  Spec.require_mfa := Spec.require_mfa s; Spec.mfa_validity_days := Spec.mfa_validity_days s;
  Spec.add_default_http_headers := Spec.add_default_http_headers s; Spec.identity_claims := Spec.identity_claims s;
  Spec.template_properties := Spec.template_properties s; Spec.kind_override := Spec.kind_override s; Spec.api := Spec.api s;
  Spec.min_replicas := Spec.min_replicas s; Spec.max_replicas := Spec.max_replicas s;
  Spec.scale_up_threshold := Spec.scale_up_threshold s; Spec.scale_down_threshold := Spec.scale_down_threshold s;
  Spec.scale_down_grace := Spec.scale_down_grace s; Spec.scale_down_cooldown_secs := Spec.scale_down_cooldown_secs s;
  Spec.drain_timeout := Spec.drain_timeout s; Spec.routing_strategy := Spec.routing_strategy s;
  Spec.concurrent_requests_per_replica := Spec.concurrent_requests_per_replica s;
  Spec.placement := Spec.placement s; Spec.anti_affinity := Spec.anti_affinity s;
  Spec.inject_base_href := Spec.inject_base_href s |}.

Definition key : MasterKey.t := MasterKey.mk (Some "0123456789abcdef0123456789abcdef").
Definition nonce : string := "nonce-12byte".
Definition save (name password : string) : CredentialOp :=
  UpsertCredential nonce 0 name "ghcr.io" "bot" password (Some "admin:root").

Lemma passwords_stay_sealed_witness :
  let start := ConfigDb.mk CredentialTables.empty [] in
  let os := [save "ghcr" "hunter2"; save "env" "${TOKEN}"; DeleteCredential 1 "env" None] in
  let os' := [save "ghcr" "correct horse"; save "env" "x"; DeleteCredential 1 "env" None] in
  sealed_tables key (ConfigDb.tables (credential_run key start os))
  /\ unsealed (ConfigDb.tables (credential_run key start os)) = unsealed (ConfigDb.tables (credential_run key start os'))
  /\ size (CredentialTables.credentials (ConfigDb.tables (credential_run key start os))) = 1%nat.
Proof.
  pose proof (passwords_stay_sealed key (ConfigDb.mk CredentialTables.empty [])
    [save "ghcr" "hunter2"; save "env" "${TOKEN}"; DeleteCredential 1 "env" None]
    [save "ghcr" "correct horse"; save "env" "x"; DeleteCredential 1 "env" None]
    ltac:(repeat constructor) (map_Forall_empty _) ltac:(repeat constructor) ltac:(repeat constructor) ltac:(repeat constructor)) as [Hs Ha].
  cbv zeta. split; [exact Hs|]. split; [exact Ha|reflexivity].
Defined.

(** An environment in which TOKEN is set, its store over [db], and a spec with
    inline credentials that names a stored one too. *)
Definition vars (name : string) : EnvVar := if str_eqb name "TOKEN" then EnvPresent "s3cret" else EnvNotPresent.
Definition env_over (db : ConfigDb.t CredentialTables.t) : Env.t := Env.mk "" vars (Some (store_of vars key db)) (fun _ => 0).
Definition named (name : string) : Spec.t :=
  with_registry (Some "inline") (Some "inline-password") (Some name) (Spec.sample "a" (Some "img") None None None None None).

Lemma credential_reaches_the_pull_witness :
  let db' := (upsert key nonce 0 "ghcr" "ghcr.io" "bot" "${TOKEN}" None (ConfigDb.mk CredentialTables.empty [])).2 in
  resolve_creds (env_over db') (named "ghcr") = Ok (Some (pulled_as "bot" "ghcr" "ghcr.io" "s3cret"))
  /\ store_of vars key db' "other" = Ok None.
Proof.
  pose proof (credential_reaches_the_pull key nonce 0 "ghcr" "ghcr.io" "bot" "${TOKEN}" None CredentialTables.empty
    (env_over (upsert key nonce 0 "ghcr" "ghcr.io" "bot" "${TOKEN}" None (ConfigDb.mk CredentialTables.empty [])).2) (named "ghcr")
    eq_refl eq_refl eq_refl eq_refl ltac:(done)) as (_ & Hp & Ho).
  cbv zeta. split.
  - etransitivity; [exact (Hp eq_refl)|reflexivity].
  - etransitivity; [exact (Ho "other" ltac:(done))|reflexivity].
Defined.

(** A literal password is not legible in the table; a default inside a
    reference is. *)
Example default_in_the_clear :
  sealed key nonce "hunter2" = Ok (nonce +:+ "hunter2", nonce)
  /\ sealed key nonce "${X:-hunter2}" = Ok ("${X:-hunter2}", "").
Proof. split; reflexivity. Qed.

(** Without a master key only references can be saved. *)
Example no_key :
  sealed MasterKey.default nonce "hunter2" = Err "master key not configured (RUSCKER_MASTER_KEY)"
  /\ sealed MasterKey.default nonce "${X}" = Ok ("${X}", "").
Proof. split; reflexivity. Qed.
End CredentialExamples.
