(* ===== verification/SignIn.v ===== *)
(** * SignIn: login, setup, password change, logout (routes/admin.rs)

    The handlers by which sessions begin and end: the login with a password,
    the break-glass token, the setup of the first admin, the change of the own
    password, the logout.  The templates are values that hold what they
    render.  Parameters: argon2, the Unicode tables, the JSON printer,
    percent-encoding. *)

From Stdlib Require Import Ascii String ZArith Lia.
From stdpp Require Import base tactics list gmap strings sets fin_maps numbers.
From S2P Require Import Prelude Text Schema Core Sessions RateLimit Counters Headers Auth Gateway Database SpecStore Accounts Users MfaStore UsersCsv.

Local Open Scope string_scope.
Local Open Scope list_scope.
Local Open Scope Z_scope.
Local Open Scope ruscker_scope.

(** ** Paths *)

(** [base] is normalized: empty, or a leading slash and no trailing one. *)
Definition strip_base_prefix (path base : string) : string :=
  if str_is_empty base then path
  else
    match strip_prefix base path with
    | Some rest => if str_is_empty rest then "/" else if starts_with "/" rest then rest else path
    | None => path
    end.

Fixpoint str_take_while (p : ascii -> bool) (s : string) : string :=
  match s with EmptyString => EmptyString | String c s' => if p c then String c (str_take_while p s') else EmptyString end.

(** The text before the first [?] or [#]. *)
Definition path_only (path : string) : string := str_take_while (fun c => negb (existsb (Ascii.eqb c) ["?"; "#"]%char)) path.

Definition app_next_path (next : option string) (base : string) : option string :=
  path ← local_next_path next;
  let path := strip_base_prefix path base in
  if starts_with "/app/" (path_only path) then Some path else None.

(** The prefixes in the order they are tried. *)
Definition admin_sections : list (string * string) :=
  [("/admin/dashboard", "dashboard"); ("/admin/disk", "disk"); ("/admin/specs", "specs"); ("/admin/media", "images");
   ("/admin/credentials", "credentials"); ("/admin/landing", "landing"); ("/admin/blocks", "blocks");
   ("/admin/audit", "audit"); ("/admin/logs", "logs"); ("/admin/schedules", "schedules"); ("/admin/users", "users");
   ("/admin/groups", "groups")].
Definition section_for_admin_path (path : string) : string :=
  match List.find (fun ps => starts_with ps.1 path) admin_sections with Some ps => ps.2 | None => "dashboard" end.

(** ** State and answers *)

(** What the process was started with. *)
Module Site.
Record t := mk { base_path : string; server : Server.t; admin_auth : AdminAuth.t }.
End Site.

(** One request: the session cookie it carries, its headers, and what its
    handling draws from outside: the time, a salt, an id, a session id. *)
Module Visit.
Record t := mk { cookie : option string; headers : HeaderMap.t; now : Z; salt : string; id : string; session_id : string }.
End Visit.

Module Door.
Record t := mk {
  db : option AccountDb;
  admin_sessions : AdminSessions.t;
  login_limiter : LoginRateLimiter.t;
  activity : ActivitySink.t ActivityEvent.t;
  logout_index : gmap string (gset Uuid);
  sessions : InMemorySessionStore.t;
  replicas : ReplicaRegistry }.
Definition set_db x d : t := mk (Some x) (admin_sessions d) (login_limiter d) (activity d) (logout_index d) (sessions d) (replicas d).
Definition set_admin_sessions x d : t := mk (db d) x (login_limiter d) (activity d) (logout_index d) (sessions d) (replicas d).
Definition set_login_limiter x d : t := mk (db d) (admin_sessions d) x (activity d) (logout_index d) (sessions d) (replicas d).
Definition set_activity x d : t := mk (db d) (admin_sessions d) (login_limiter d) x (logout_index d) (sessions d) (replicas d).
Definition set_logout_index x d : t := mk (db d) (admin_sessions d) (login_limiter d) (activity d) x (sessions d) (replicas d).
Definition set_app_sessions reg ss d : t := mk (db d) (admin_sessions d) (login_limiter d) (activity d) (logout_index d) ss reg.
End Door.

Abbreviation DM A := (St Door.t A).

Module LoginPage.
Record t := mk { error : string; bootstrap : bool; next : string; next_encoded : string }.
End LoginPage.
Module AccountPasswordPage.
Record t := mk { role : Role.t; first : bool; error : string; next : string }.
End AccountPasswordPage.

Inductive Page :=
  | Rejected (why : Rejection)
  | Unavailable (message : string)
  | TooManyAttempts
  | LoginShown (page : LoginPage.t)
  | LoginFailed (page : LoginPage.t)
  | Broken (message : string)
  | SetupShown (error : string)
  | PasswordShown (page : AccountPasswordPage.t)
  | RedirectTo (target : string).

Module Answer.
Record t := mk { page : Page; jar : list Jar.op }.
Definition bare (p : Page) : t := mk p [].
End Answer.

Definition no_database : Page := Unavailable "no database — start with --db".
Definition admin_disabled : Page := Unavailable "RUSCKER_ADMIN_TOKEN is not set — admin disabled".

(** A query of the pool; the handlers call it where one is attached. *)
Definition on_pool {A} (m : AM (DbResult A)) : DM (DbResult A) := fun d =>
  match Door.db d with
  | Some db => let '(r, db') := m db in (r, Door.set_db db' d)
  | None => (Err (Failed "no db"), d)
  end.
Definition has_pool : DM bool := fun d => (bool_decide (is_Some (Door.db d)), d).

(** [unwrap_or(false)], [.ok().flatten()] *)
Definition unwrap_or_false (r : DbResult bool) : bool := match r with Ok b => b | Err _ => false end.
Definition flattened {A} (r : DbResult (option A)) : option A := match r with Ok o => o | Err _ => None end.

Definition with_sessions {A} (f : AdminSessions.t -> A * AdminSessions.t) : DM A := fun d =>
  let '(a, s) := f (Door.admin_sessions d) in (a, Door.set_admin_sessions s d).
Definition create_session (v : Visit.t) (role : Role.t) (actor : option string) : DM string :=
  with_sessions (fun s => (Visit.session_id v, AdminSessions.create (Visit.now v) (Visit.session_id v) role actor s)).
Definition limiter_allow (now : Z) : DM bool := fun d =>
  let '(b, l) := LoginRateLimiter.allow now (Door.login_limiter d) in (b, Door.set_login_limiter l d).
Definition record_failure (now : Z) : DM unit :=
  st_modify (fun d => Door.set_login_limiter (LoginRateLimiter.record_failure now (Door.login_limiter d)) d).
Definition record_success : DM unit :=
  st_modify (fun d => Door.set_login_limiter (LoginRateLimiter.record_success (Door.login_limiter d)) d).

(** ** Handlers *)

Section SignIn.
Context `{UnicodeCase} `{JsonObject} `{Argon2} `{CharClass} `{HttpCrate}.
Context (byte_serialize : string -> string) (site : Site.t).

Definition issue_session_cookie (v : Visit.t) (session_id : string) : Jar.op :=
  Jar.Add ADMIN_COOKIE_NAME session_id "/" (request_is_https (Visit.headers v) (forward_headers_trusted (Site.server site)))
    (from_secs (24 * 60 * 60)).

Definition redirect_to_dashboard (info : SessionInfo.t) : DM Answer.t :=
  st_ret (Answer.bare (RedirectTo (Role.home (SessionInfo.role info)))).

Definition show_token_form (force_token : bool) : DM bool :=
  if force_token then st_ret true
  else
    do pool <- has_pool;
    if pool : bool then do r <- on_pool any_user_exists; st_ret (negb (unwrap_or_false r)) else st_ret true.

Definition login_page (error : string) (bootstrap : bool) (next : string) : LoginPage.t :=
  LoginPage.mk error bootstrap next (byte_serialize next).

Definition login_form (token next : option string) : DM Answer.t :=
  do bootstrap <- show_token_form (bool_decide (is_Some token));
  st_ret (Answer.bare (LoginShown (login_page "" bootstrap (default "" (app_next_path next (Site.base_path site)))))).

Definition login_error (error : string) (bootstrap : bool) (next : string) : Page := LoginFailed (login_page error bootstrap next).

(** Where a login without a destination leads. *)
Definition login_target (role : Role.t) (referer : option string) : string :=
  let path := strip_base_prefix (same_origin_path referer (Role.home role)) (Site.base_path site) in
  if str_eqb path "/" then path
  else if starts_with "/admin/" path && negb (starts_with "/admin/login" path)
          && Role.can_access_section (section_for_admin_path path) role
  then path
  else Role.home role.

Definition login_submit (v : Visit.t) (username password : string) (raw_next : option string) : DM Answer.t :=
  if negb (AdminAuth.is_configured (Site.admin_auth site)) then st_ret (Answer.bare admin_disabled)
  else
    do allowed <- limiter_allow (Visit.now v);
    if negb allowed then st_ret (Answer.bare TooManyAttempts)
    else
      let next := app_next_path raw_next (Site.base_path site) in
      let refused := Answer.bare (login_error "wrong-login" false (default "" next)) in
      do pool <- has_pool;
      if negb pool then do u <- record_failure (Visit.now v); st_ret refused
      else
        do r <- on_pool (verify_login username password);
        match r with
        | Err _ => st_ret (Answer.bare (Broken "login error"))
        | Ok None => do u <- record_failure (Visit.now v); st_ret refused
        | Ok (Some user) =>
          do u <- record_success;
          do session_id <- create_session v (UserRow.role user) (Some (UserRow.username user));
          do u <- st_modify (fun d => Door.set_activity
                    (ActivitySink.record (ActivityEvent.login_success (Visit.now v) (UserRow.username user) "password" session_id None)
                       (Door.activity d)) d);
          let jar := [issue_session_cookie v session_id] in
          if UserRow.must_change_password user then
            st_ret (Answer.mk (RedirectTo (match next with
                                           | Some n => with_next_query byte_serialize "/admin/account/password" n
                                           | None => "/admin/account/password"
                                           end)) jar)
          else
            st_ret (Answer.mk (RedirectTo (match next with
                                           | Some target => target
                                           | None => login_target (UserRow.role user) (HeaderMap.get "referer" (Visit.headers v) ≫= to_str)
                                           end)) jar)
        end.

(** The removal after a wrong token names no path. *)
Definition token_login (v : Visit.t) (token : string) (raw_next : option string) : DM Answer.t :=
  if negb (AdminAuth.is_configured (Site.admin_auth site)) then st_ret (Answer.bare admin_disabled)
  else
    do allowed <- limiter_allow (Visit.now v);
    if negb allowed then st_ret (Answer.bare TooManyAttempts)
    else
      let next := app_next_path raw_next (Site.base_path site) in
      if negb (AdminAuth.matches_token token (Site.admin_auth site)) then
        do u <- record_failure (Visit.now v);
        st_ret (Answer.mk (login_error "wrong-token" true (default "" next)) [Jar.Remove ADMIN_COOKIE_NAME ""])
      else
        do u <- record_success;
        do session_id <- create_session v Role.Admin None;
        let jar := [issue_session_cookie v session_id] in
        do pool <- has_pool;
        do need_setup <- (if pool : bool then do r <- on_pool any_admin_exists; st_ret (negb (unwrap_or_false r)) else st_ret false);
        st_ret (Answer.mk (RedirectTo (if need_setup : bool then "/admin/setup" else default "/admin/dashboard" next)) jar).

Definition setup_form : DM Answer.t :=
  do pool <- has_pool;
  if negb pool then st_ret (Answer.bare no_database)
  else
    do r <- on_pool any_admin_exists;
    st_ret (Answer.bare (if unwrap_or_false r then RedirectTo "/admin/dashboard" else SetupShown "")).

Definition setup_submit (v : Visit.t) (raw_username password confirm : string) : DM Answer.t :=
  do pool <- has_pool;
  if negb pool then st_ret (Answer.bare no_database)
  else
    do r <- on_pool any_admin_exists;
    if unwrap_or_false r then st_ret (Answer.bare (RedirectTo "/admin/dashboard"))
    else
      let username := normalize_username raw_username in
      if str_is_empty username then st_ret (Answer.bare (SetupShown "exists"))
      else if negb (password_meets_policy password) then st_ret (Answer.bare (SetupShown "short"))
      else if negb (str_eqb password confirm) then st_ret (Answer.bare (SetupShown "mismatch"))
      else
        do c <- on_pool (create (Visit.salt v) (Visit.id v) (Visit.now v) username password Role.Admin false [] (Some "token"));
        match c with
        | Err _ => st_ret (Answer.bare (SetupShown "exists"))
        | Ok _ =>
          do u <- (match Visit.cookie v with
                   | Some c => with_sessions (fun s => (tt, AdminSessions.remove c s))
                   | None => st_ret tt
                   end);
          do session_id <- create_session v Role.Admin (Some username);
          st_ret (Answer.mk (RedirectTo "/admin/dashboard") [issue_session_cookie v session_id])
        end.

(** Is the account still on the password it was given? *)
Definition must_change (actor : string) : DM bool :=
  do r <- on_pool (fetch actor);
  st_ret (match flattened r with Some u => UserRow.must_change_password u | None => false end).

Definition password_form (info : SessionInfo.t) (next : option string) : DM Answer.t :=
  match SessionInfo.actor info with
  | None => st_ret (Answer.bare (RedirectTo "/admin/dashboard"))
  | Some actor =>
    do pool <- has_pool;
    do first <- (if pool : bool then must_change actor else st_ret false);
    st_ret (Answer.bare (PasswordShown (AccountPasswordPage.mk (SessionInfo.role info) first ""
      (default "" (app_next_path next (Site.base_path site))))))
  end.

Definition password_submit (v : Visit.t) (info : SessionInfo.t) (current new_password confirm : string) (raw_next : option string)
    : DM Answer.t :=
  match SessionInfo.actor info with
  | None => st_ret (Answer.bare (RedirectTo "/admin/dashboard"))
  | Some actor =>
    do pool <- has_pool;
    if negb pool then st_ret (Answer.bare no_database)
    else
      let next := app_next_path raw_next (Site.base_path site) in
      do first <- must_change actor;
      let pw_err error := Answer.bare (PasswordShown (AccountPasswordPage.mk (SessionInfo.role info) first error (default "" next))) in
      if negb (password_meets_policy new_password) then st_ret (pw_err "short")
      else if negb (str_eqb new_password confirm) then st_ret (pw_err "mismatch")
      else
        do r <- on_pool (verify_login actor current);
        match flattened r with
        | None => st_ret (pw_err "wrong-current")
        | Some _ =>
          do s <- on_pool (set_password (Visit.salt v) (Visit.now v) actor new_password false (Some actor));
          match s with
          | Err _ => st_ret (Answer.bare (Broken "save failed"))
          | Ok _ =>
            do u <- with_sessions (fun ss => (tt, AdminSessions.revoke_by_actor actor ss));
            do session_id <- create_session v (SessionInfo.role info) (Some actor);
            st_ret (Answer.mk (RedirectTo (default (Role.home (SessionInfo.role info)) next)) [issue_session_cookie v session_id])
          end
        end
  end.

(** Ends the app sessions of a user who asked for it. *)
Definition end_sessions (sids : list Uuid) : DM unit := st_modify (fun d =>
  foldl (fun d sid => let '(_, (reg, ss)) := InMemorySessionStore.end_session sid (Door.replicas d) (Door.sessions d) in
                      Door.set_app_sessions reg ss d) d sids).

Definition stop_on_logout (info : SessionInfo.t) : DM unit := fun d =>
  match SessionInfo.actor info with
  | None => (tt, d)
  | Some user =>
    match Door.logout_index d !! user with
    | None => (tt, d)
    | Some session_ids => end_sessions (elements session_ids) (Door.set_logout_index (base.delete user (Door.logout_index d)) d)
    end
  end.

Definition logout (v : Visit.t) : DM Answer.t :=
  do u <- (match Visit.cookie v with
           | None => st_ret tt
           | Some sid =>
             do info <- with_sessions (AdminSessions.validate (Visit.now v) sid);
             do u <- (match info with Some info => stop_on_logout info | None => st_ret tt end);
             with_sessions (fun s => (tt, AdminSessions.remove sid s))
           end);
  st_ret (Answer.mk (RedirectTo "/admin/login") [Jar.Remove ADMIN_COOKIE_NAME "/"]).

(** ** The routes *)

Inductive Request :=
  | AdminRoot
  | LoginForm (token next : option string)
  | LoginSubmit (username password : string) (next : option string)
  | TokenLogin (token : string) (next : option string)
  | Logout
  | SetupForm
  | SetupSubmit (username password confirm : string)
  | PasswordForm (next : option string)
  | PasswordSubmit (current new_password confirm : string) (next : option string).

(** A handler behind an extractor. *)
Definition behind (guard : Z -> AdminAuth.t -> option string -> AdminSessions.t -> Result SessionInfo.t Rejection * AdminSessions.t)
    (v : Visit.t) (k : SessionInfo.t -> DM Answer.t) : DM Answer.t :=
  do r <- with_sessions (guard (Visit.now v) (Site.admin_auth site) (Visit.cookie v));
  match r with Ok info => k info | Err why => st_ret (Answer.bare (Rejected why)) end.

Definition routes (v : Visit.t) (req : Request) : DM Answer.t :=
  match req with
  | AdminRoot => behind admin_session v redirect_to_dashboard
  | LoginForm token next => login_form token next
  | LoginSubmit username password next => login_submit v username password next
  | TokenLogin token next => token_login v token next
  | Logout =>
    do m <- with_sessions (maybe_session (Visit.now v) (Site.admin_auth site) (Visit.cookie v)); logout v
  | SetupForm => behind require_admin v (fun _ => setup_form)
  | SetupSubmit username password confirm => behind require_admin v (fun _ => setup_submit v username password confirm)
  | PasswordForm next => behind admin_session v (fun info => password_form info next)
  | PasswordSubmit current new_password confirm next =>
    behind admin_session v (fun info => password_submit v info current new_password confirm next)
  end.
End SignIn.
