(* ===== verification/SignInSafety.v ===== *)
(** * SignInSafety: what signing in and out guarantees (routes/admin.rs)

    Sessions are issued against a proof only; a changed password ends the
    other sessions of its account; a logout ends the session and the app
    sessions tied to it; no handler redirects off the site; failed attempts
    are bounded. *)

From Stdlib Require Import Ascii String ZArith Lia.
From stdpp Require Import base tactics list gmap strings sets fin_maps numbers.
From S2P Require Import Prelude Text Schema Core Sessions RateLimit Counters Sticky Headers Auth Gateway Database SpecStore Accounts Users MfaStore UsersCsv SignIn UserAccess.

Local Open Scope string_scope.
Local Open Scope list_scope.
Local Open Scope Z_scope.
Local Open Scope ruscker_scope.

(** ** Steps that leave tables and sessions alone *)

Definition door_tables (d : Door.t) : option AccountTables.t := ConfigDb.tables <$> Door.db d.
Definition quiet (d d' : Door.t) : Prop :=
  door_tables d' = door_tables d /\ Door.admin_sessions d' = Door.admin_sessions d.
#[global] Instance quiet_preorder : PreOrder quiet.
Proof. split; [by intros d|]. intros d1 d2 d3 [T1 S1] [T2 S2]. split; congruence. Qed.

Lemma on_pool_inv {A} (m : AM (DbResult A)) d r d' :
  on_pool m d = (r, d') ->
  (exists db db', Door.db d = Some db /\ m db = (r, db') /\ d' = Door.set_db db' d) \/ (exists e, Door.db d = None /\ r = Err e /\ d' = d).
Proof.
  unfold on_pool. destruct (Door.db d) as [db|]; [destruct (m db) as [r0 db'] eqn:Em|]; intros [= <- <-]; [left|right]; eauto 8.
Qed.

Lemma on_pool_quiet {A} (m : AM (DbResult A)) : preserves (on_tables eq) m -> preserves quiet (on_pool m).
Proof.
  intros Hm d. unfold on_pool. destruct (Door.db d) as [db|] eqn:Ed; [|done]. specialize (Hm db). destruct (m db) as [r db'].
  unfold on_tables in Hm. cbn in *. split; [|done]. unfold door_tables. cbn. rewrite Ed. cbn. by rewrite Hm.
Qed.

Lemma has_pool_quiet : preserves quiet has_pool.
Proof. by intros d. Qed.
Lemma limiter_allow_quiet now : preserves quiet (limiter_allow now).
Proof. intros d. unfold limiter_allow. by destruct (LoginRateLimiter.allow now (Door.login_limiter d)). Qed.
Lemma record_failure_quiet now : preserves quiet (record_failure now).
Proof. by intros d. Qed.
Lemma record_success_quiet : preserves quiet record_success.
Proof. by intros d. Qed.

Section Reads.
Context `{UnicodeCase} `{JsonObject} `{Argon2}.
Lemma fetch_reads u : preserves (on_tables eq) (fetch u).
Proof. unfold fetch. tables_auto. Qed.
Lemma verify_login_reads u pw : preserves (on_tables eq) (verify_login u pw).
Proof. unfold verify_login. tables_auto; by repeat case_match. Qed.
Lemma any_admin_exists_reads : preserves (on_tables eq) any_admin_exists.
Proof. unfold any_admin_exists, count_admins. tables_auto. Qed.
Lemma any_user_exists_reads : preserves (on_tables eq) any_user_exists.
Proof. unfold any_user_exists. tables_auto. Qed.

(** A login that succeeds found the account and its password. *)
Lemma verify_login_Some u pw db row db' :
  verify_login u pw db = (Ok (Some row), db') ->
  exists a, AccountTables.users (ConfigDb.tables db) !! normalize_username u = Some a
    /\ verify_password pw (Account.password_hash a) = true /\ row = row_from a.
Proof.
  unfold verify_login. intros (found & db1 & [_ [?|[= ->]]]%query_inv & Hl)%try_bind_Ok; [done|].
  destruct (AccountTables.users (ConfigDb.tables db) !! normalize_username u) as [a|]; [|by apply lift_Ok in Hl as [? _]].
  apply lift_Ok in Hl as [Hl _]. cbn in Hl. destruct (verify_password pw (Account.password_hash a)) eqn:Ev; [|done].
  exists a. split; [done|]. split; [done|]. congruence.
Qed.

Lemma any_admin_exists_false db db' :
  any_admin_exists db = (Ok false, db') -> ~ has_admin (ConfigDb.tables db).
Proof.
  unfold any_admin_exists. intros (n & db1 & [_ [?|[= ->]]]%query_inv & [Hn _]%lift_Ok)%try_bind_Ok; [done|].
  injection Hn as Hn. apply Z.ltb_ge in Hn. rewrite <- count_admins_pos. lia.
Qed.
End Reads.
#[export] Hint Resolve on_pool_quiet has_pool_quiet limiter_allow_quiet record_failure_quiet record_success_quiet
  fetch_reads verify_login_reads any_admin_exists_reads any_user_exists_reads : quiet.
#[export] Hint Extern 5 (preserves quiet (if ?c then _ else _)) => destruct c : quiet.
#[export] Hint Extern 5 (preserves quiet (match ?x with Some _ => _ | None => _ end)) => destruct x : quiet.
#[export] Hint Extern 5 (preserves quiet (st_bind _ _)) => apply preserves_bind; [apply _| |intros] : quiet.
#[export] Hint Extern 5 (preserves quiet (st_ret _)) => apply preserves_ret, _ : quiet.

Lemma bind_quiet {A B} (m : DM A) (k : A -> DM B) d b d' :
  st_bind m k d = (b, d') -> preserves quiet m -> exists a d1, quiet d d1 /\ m d = (a, d1) /\ k a d1 = (b, d').
Proof. intros (a & d1 & Hm & Hk)%st_bind_inv Hq. exists a, d1. split; [|done]. specialize (Hq d). by rewrite Hm in Hq. Qed.

(** Takes the run of a handler apart, one quiet step at a time. *)
Ltac door_step :=
  match goal with
  | H : st_ret _ _ = _ |- _ => injection H as <- <-
  | H : st_bind _ _ _ = _ |- _ => apply bind_quiet in H as (? & ? & ? & ? & H); [|solve [eauto with quiet]]
  | H : (if ?c then _ else _) _ = _ |- _ => destruct c eqn:?
  | H : (match ?x with Ok _ => _ | Err _ => _ end) _ = _ |- _ => destruct x eqn:?
  | H : (match ?x with Some _ => _ | None => _ end) _ = _ |- _ => destruct x eqn:?
  end.

(** Everything ran quietly so far. *)
Ltac quietly := repeat (first [eassumption | reflexivity | etransitivity; [eassumption|]]).

(** ** What each handler does to tables and sessions *)

(** A session begun at this request. *)
Definition begun (v : Visit.t) (info : SessionInfo.t) (s : AdminSessions.t) : AdminSessions.t :=
  AdminSessions.create (Visit.now v) (Visit.session_id v) (SessionInfo.role info) (SessionInfo.actor info) s.

Section Handlers.
Context `{UnicodeCase} `{JsonObject} `{Argon2} `{CharClass} `{HttpCrate}.
Context (byte_serialize : string -> string) (site : Site.t).

Definition account_of (d : Door.t) (u : string) : option Account.t := s ← door_tables d; AccountTables.users s !! normalize_username u.

Lemma quiet_account d d' u : quiet d d' -> account_of d' u = account_of d u.
Proof. intros [Ht _]. unfold account_of. by rewrite Ht. Qed.

Lemma create_session_bind {B} v role actor (k : string -> DM B) d b d' :
  st_bind (create_session v role actor) k d = (b, d') ->
  k (Visit.session_id v) (Door.set_admin_sessions (begun v (SessionInfo.mk role actor) (Door.admin_sessions d)) d) = (b, d').
Proof. done. Qed.

(** The account a password proves. *)
Definition proves (d : Door.t) (username password : string) (a : Account.t) : Prop :=
  account_of d username = Some a /\ verify_password password (Account.password_hash a) = true.

Lemma on_pool_login u pw d row d' :
  on_pool (verify_login u pw) d = (Ok (Some row), d') -> exists a, proves d u pw a /\ row = row_from a.
Proof.
  intros [(db & db' & Hd & Hm & ->)|(e & _ & ? & _)]%on_pool_inv; [|done]. apply verify_login_Some in Hm as (a & Ha & Hv & ->).
  exists a. split; [|done]. split; [|done]. unfold account_of, door_tables. by rewrite Hd.
Qed.

Lemma login_submit_inv v u pw next d ans d' :
  login_submit byte_serialize site v u pw next d = (ans, d') ->
  quiet d d'
  \/ exists a, proves d u pw a /\ door_tables d' = door_tables d
       /\ (LoginRateLimiter.allow (Visit.now v) (Door.login_limiter d)).1 = true
       /\ Door.admin_sessions d'
          = begun v (SessionInfo.mk (UserRow.role (row_from a)) (Some (Account.username a))) (Door.admin_sessions d).
Proof.
  unfold login_submit. cbv zeta. intros E. repeat door_step; try solve [left; quietly]. right.
  match goal with Hl : on_pool (verify_login u pw) _ = _ |- _ => apply on_pool_login in Hl as (a & [Ha Hv] & ->) end.
  match type of E with st_bind _ _ ?d1 = _ => assert (quiet d d1) as [Ht Hs] by quietly end.
  apply create_session_bind in E. rewrite Hs in E. exists a. split.
  - split; [|done]. rewrite <- Ha. symmetry. apply quiet_account. quietly.
  - match goal with Hl : limiter_allow _ d = (?x, _), Hx : negb ?x = false |- _ =>
      apply negb_false_iff in Hx; subst; unfold limiter_allow in Hl end.
    destruct (LoginRateLimiter.allow (Visit.now v) (Door.login_limiter d)) as [b l]. simplify_eq.
    apply st_bind_inv in E as ([] & d1 & [= <-] & E). by destruct (UserRow.must_change_password (row_from a)); injection E as _ <-.
Qed.

Lemma limiter_allow_true now d d1 x : limiter_allow now d = (x, d1) -> negb x = false -> (LoginRateLimiter.allow now (Door.login_limiter d)).1 = true.
Proof. unfold limiter_allow. destruct (LoginRateLimiter.allow now (Door.login_limiter d)) as [b l]. intros [= -> _] ?%negb_false_iff. done. Qed.

Lemma token_login_inv v token next d ans d' :
  token_login byte_serialize site v token next d = (ans, d') ->
  quiet d d'
  \/ AdminAuth.matches_token token (Site.admin_auth site) = true /\ door_tables d' = door_tables d
     /\ (LoginRateLimiter.allow (Visit.now v) (Door.login_limiter d)).1 = true
     /\ Door.admin_sessions d' = begun v (SessionInfo.mk Role.Admin None) (Door.admin_sessions d).
Proof.
  unfold token_login. cbv zeta. intros E. repeat door_step; try solve [left; quietly]. right.
  match type of E with st_bind _ _ ?d1 = _ => assert (quiet d d1) as [Ht Hs] by quietly end.
  apply create_session_bind in E. rewrite Hs in E. split; [by apply negb_false_iff|].
  repeat door_step; match type of Hs with Door.admin_sessions ?d1 = _ =>
    match goal with |- Door.admin_sessions ?d2 = _ => idtac | |- door_tables ?d2 = _ /\ _ =>
      assert (quiet (Door.set_admin_sessions (begun v (SessionInfo.mk Role.Admin None) (Door.admin_sessions d)) d1) d2) as [Ht' Hs'] by quietly end end.
  all: split; [by rewrite Ht'|split; [by eapply limiter_allow_true|by rewrite Hs']].
Qed.

(** The caller of a guarded route. *)
Lemma behind_inv guard v (k : SessionInfo.t -> DM Answer.t) d ans d' :
  behind site guard v k d = (ans, d') ->
  let '(r, s) := guard (Visit.now v) (Site.admin_auth site) (Visit.cookie v) (Door.admin_sessions d) in
  match r with Ok info => k info (Door.set_admin_sessions s d) = (ans, d') | Err why => ans = Answer.bare (Rejected why) /\ d' = Door.set_admin_sessions s d end.
Proof.
  unfold behind, with_sessions, st_bind. destruct (guard _ _ _ (Door.admin_sessions d)) as [[info|why] s]; [done|]. by intros [= <- <-].
Qed.
(** The count of admins did not report one. *)
Definition no_admin_reported (d : Door.t) : Prop :=
  exists db, Door.db d = Some db /\ (any_admin_exists db).1 <> Ok true.

Lemma on_pool_none d {A} (m : AM (DbResult A)) x d1 : has_pool d = (x, d1) -> negb x = false -> exists db, Door.db d = Some db.
Proof. unfold has_pool. intros [= <- _] Hx%negb_false_iff. by apply bool_decide_eq_true in Hx. Qed.

Lemma setup_submit_inv v raw pw confirm d ans d' :
  setup_submit site v raw pw confirm d = (ans, d') ->
  quiet d d'
  \/ exists a, let name := normalize_username raw in
       no_admin_reported d /\ account_of d name = None /\ account_of d' name = Some a /\ Account.role a = Role.as_str Role.Admin
       /\ hash_password (Visit.salt v) pw = Some (Account.password_hash a)
       /\ (forall s s' u b, door_tables d = Some s -> door_tables d' = Some s' -> AccountTables.users s !! u = Some b -> AccountTables.users s' !! u = Some b)
       /\ Door.admin_sessions d' = begun v (SessionInfo.mk Role.Admin (Some name))
            (match Visit.cookie v with Some c => AdminSessions.remove c (Door.admin_sessions d) | None => Door.admin_sessions d end).
Proof.
  unfold setup_submit. cbv zeta. intros E. repeat door_step; try solve [left; quietly].
  apply st_bind_inv in E as (c & d2 & Hc & E).
  match type of Hc with on_pool _ ?d1 = _ => assert (quiet d d1) as [Ht Hs] by quietly end.
  apply on_pool_inv in Hc as [(db & db' & Hdb & Hc & ->)|(e & Hn & -> & ->)]; [|injection E as _ <-; left; quietly].
  assert (door_tables d = Some (ConfigDb.tables db)) as Hd by (rewrite <- Ht; unfold door_tables; by rewrite Hdb).
  apply create_account_inv in Hc as [(e & -> & Hsame)|(hash & l & -> & Hh & Hnone & Htab)].
  - injection E as _ <-. left. split; [|done]. rewrite Hd. unfold door_tables. cbn. by rewrite Hsame.
  - right. match goal with Hp : has_pool d = _ |- _ => injection Hp as <- <- end.
    match goal with Hq : on_pool any_admin_exists d = _ |- _ => apply on_pool_inv in Hq as [(db0 & db1 & Hdb0 & Hrep & _)|(e & Hn0 & _)] end;
      [|by rewrite Hn0 in *].
    assert (forall u, account_of d u = AccountTables.users (ConfigDb.tables db) !! normalize_username u) as Hacc
      by (intros u; unfold account_of; by rewrite Hd).
    match type of E with st_bind _ _ ?d1 = _ => assert (exists d3, (match Visit.cookie v with
              | Some c => with_sessions (fun s0 => (tt, AdminSessions.remove c s0)) | None => st_ret tt end) d1 = (tt, d3)
            /\ Door.db d3 = Some db' /\ Door.admin_sessions d3
              = match Visit.cookie v with Some c => AdminSessions.remove c (Door.admin_sessions d) | None => Door.admin_sessions d end)
      as (d3 & Hrun & Hdb3 & Hs3) end. { rewrite <- Hs. destruct (Visit.cookie v); eexists; repeat split. }
    apply st_bind_inv in E as ([] & d4 & Hrun' & E). rewrite Hrun in Hrun'. injection Hrun' as <-.
    apply create_session_bind in E. injection E as _ <-. eexists. split; [exists db0; split; [done|]|].
    + rewrite Hrep. cbn. match goal with Hf : unwrap_or_false ?r = false |- _ => by destruct r as [[]|] end.
    + rewrite Hacc. split; [exact Hnone|]. unfold account_of, door_tables. cbn [Door.set_admin_sessions Door.db]. rewrite Hdb3. cbn.
      rewrite Htab. cbn. rewrite lookup_insert_eq. split; [reflexivity|]. split; [done|]. split; [exact Hh|].
      split; [|cbn; by rewrite Hs3]. intros s s' u b Hs0 [= <-] Hb. change (door_tables d = Some s) in Hs0. rewrite Hd in Hs0. injection Hs0 as <-. cbn.
      rewrite lookup_insert_ne; [done|]. congruence.
Qed.
Lemma must_change_quiet actor : preserves quiet (must_change actor).
Proof. unfold must_change. eauto with quiet. Qed.
#[local] Hint Resolve must_change_quiet : quiet.

Lemma show_token_form_quiet force : preserves quiet (show_token_form force).
Proof. unfold show_token_form. eauto 6 with quiet. Qed.
#[local] Hint Resolve show_token_form_quiet : quiet.

Lemma password_submit_inv v role actor cur new confirm next d ans d' :
  let info := SessionInfo.mk role (Some actor) in
  password_submit site v info cur new confirm next d = (ans, d') ->
  quiet d d'
  \/ exists s s' a, door_tables d = Some s /\ door_tables d' = Some s' /\ proves d actor cur a
       /\ edits (normalize_username actor) (Change.mk None None true) s s'
       /\ Door.admin_sessions d' = begun v info (AdminSessions.revoke_by_actor actor (Door.admin_sessions d)).
Proof.
  unfold password_submit. cbv zeta. cbn [SessionInfo.actor SessionInfo.role]. intros E. repeat door_step; try solve [left; quietly].
  match goal with Hl : on_pool (verify_login actor cur) ?d0 = (?r, _), Hf : flattened ?r = Some _ |- _ =>
    destruct r as [[]|]; [|done|done]; assert (quiet d d0) as Hq by quietly;
    apply on_pool_login in Hl as (a & [Ha Hv] & _) end.
  apply st_bind_inv in E as (r & d2 & Hc & E).
  match type of Hc with on_pool _ ?d1 = _ => assert (quiet d d1) as [Ht Hs] by quietly end.
  apply on_pool_inv in Hc as [(db & db' & Hdb & Hc & ->)|(e & Hn & -> & ->)]; [|injection E as _ <-; left; quietly].
  assert (door_tables d = Some (ConfigDb.tables db)) as Hd by (rewrite <- Ht; unfold door_tables; by rewrite Hdb).
  destruct r as [[]|e].
  - right. apply st_bind_inv in E as ([] & d3 & Hr & E). injection Hr as <-. apply create_session_bind in E. injection E as _ <-.
    exists (ConfigDb.tables db), (ConfigDb.tables db'), a. split; [done|]. split; [done|]. split; [split; [|done]|split].
    + rewrite <- Ha. symmetry. by apply quiet_account.
    + pose proof (set_password_edits (Visit.salt v) (Visit.now v) actor new false (Some actor) db) as He. by rewrite Hc in He.
    + cbn. by rewrite Hs.
  - injection E as _ <-. left. apply set_password_atomic in Hc. split; [|done]. rewrite Hd. unfold door_tables. cbn. by rewrite Hc.
Qed.

(** [stop_on_logout] keeps out of the database and the sessions of the panel. *)
Lemma end_sessions_quiet sids : preserves quiet (end_sessions sids).
Proof.
  intros d. unfold end_sessions, st_modify. cbn [snd]. revert d. induction sids as [|sid sids IH]; intros d; cbn; [done|].
  destruct (InMemorySessionStore.end_session sid (Door.replicas d) (Door.sessions d)) as [b [reg ss]].
  etransitivity; [|apply IH]. done.
Qed.

Lemma stop_on_logout_quiet info : preserves quiet (stop_on_logout info).
Proof.
  intros d. unfold stop_on_logout. destruct (SessionInfo.actor info) as [user|]; [|done]. destruct (Door.logout_index d !! user) as [sids|]; [|done].
  etransitivity; [|apply end_sessions_quiet]. done.
Qed.

Lemma logout_inv v d ans d' :
  logout v d = (ans, d') ->
  door_tables d' = door_tables d
  /\ Door.admin_sessions d'
    = match Visit.cookie v with
      | Some c => AdminSessions.remove c (AdminSessions.validate (Visit.now v) c (Door.admin_sessions d)).2
      | None => Door.admin_sessions d
      end.
Proof.
  unfold logout. intros ([] & d1 & Hm & [= _ <-])%st_bind_inv. destruct (Visit.cookie v) as [c|]; [|by injection Hm as <-].
  apply st_bind_inv in Hm as (info & d2 & Hv & ([] & d3 & Hs & Hr)%st_bind_inv). unfold with_sessions in Hv, Hr.
  destruct (AdminSessions.validate (Visit.now v) c (Door.admin_sessions d)) as [i s]. injection Hv as <- <-. injection Hr as <-.
  assert (quiet (Door.set_admin_sessions s d) d3) as [Ht Hss].
  { destruct i as [i|]; [|by injection Hs as <-]. pose proof (stop_on_logout_quiet i (Door.set_admin_sessions s d)) as Hq. by rewrite Hs in Hq. }
  split; [exact Ht|]. cbn. by rewrite Hss.
Qed.
(** ** Sessions are issued against a proof *)

(** The session the request comes with. *)
Definition caller (v : Visit.t) (d : Door.t) : option SessionInfo.t :=
  ok (admin_session (Visit.now v) (Site.admin_auth site) (Visit.cookie v) (Door.admin_sessions d)).1.

(** What a request must prove for a session as [info]. *)
Definition proof_of (v : Visit.t) (req : Request) (d d' : Door.t) (info : SessionInfo.t) : Prop :=
  match req with
  | LoginSubmit username password _ =>
    exists a, proves d username password a /\ info = SessionInfo.mk (UserRow.role (row_from a)) (Some (Account.username a))
  | TokenLogin token _ => AdminAuth.admin (Site.admin_auth site) = Some token /\ info = SessionInfo.mk Role.Admin None
  | SetupSubmit username password _ =>
    let name := normalize_username username in
    (exists actor, caller v d = Some (SessionInfo.mk Role.Admin actor)) /\ no_admin_reported d /\ account_of d name = None
    /\ (exists a, account_of d' name = Some a /\ hash_password (Visit.salt v) password = Some (Account.password_hash a))
    /\ info = SessionInfo.mk Role.Admin (Some name)
  | PasswordSubmit current _ _ _ =>
    caller v d = Some info /\ exists actor a, SessionInfo.actor info = Some actor /\ proves d actor current a
  | _ => False
  end.

(** Every session was there, or is the one begun now and proven. *)
Definition sessions_from (P : SessionInfo.t -> Prop) (v : Visit.t) (s s' : AdminSessions.t) : Prop :=
  forall id e, AdminSessions.sessions s' !! id = Some e ->
    AdminSessions.sessions s !! id = Some e
    \/ (id = Visit.session_id v /\ AdminSessions.expiry e = Visit.now v + AdminSessions.ttl s /\ P (AdminSessions.info e)).

Lemma sessions_from_begun (P : SessionInfo.t -> Prop) v info s s' :
  AdminSessions.ttl s' = AdminSessions.ttl s -> (forall id e, AdminSessions.sessions s' !! id = Some e -> AdminSessions.sessions s !! id = Some e) ->
  P info -> sessions_from P v s (begun v info s').
Proof.
  intros Ht Hs Hp id e. cbn. intros [[<- <-]|[_ Hl]]%lookup_insert_Some; [|left; by apply Hs]. right. cbn. rewrite Ht. by destruct info.
Qed.

Lemma admin_session_shrinks now auth cookie s id e :
  AdminSessions.sessions (admin_session now auth cookie s).2 !! id = Some e -> AdminSessions.sessions s !! id = Some e.
Proof.
  unfold admin_session. destruct (negb (AdminAuth.is_configured auth)); [done|]. destruct cookie as [c|]; [|done].
  unfold AdminSessions.validate. destruct (AdminSessions.sessions s !! c) as [x|]; [|done]. destruct (now <? AdminSessions.expiry x); [done|].
  cbn. by intros [_ ?]%lookup_delete_Some.
Qed.

Lemma admin_session_ttl now auth cookie s : AdminSessions.ttl (admin_session now auth cookie s).2 = AdminSessions.ttl s.
Proof.
  unfold admin_session. destruct (negb (AdminAuth.is_configured auth)); [done|]. destruct cookie as [c|]; [|done].
  unfold AdminSessions.validate. destruct (AdminSessions.sessions s !! c) as [x|]; [|done]. by destruct (now <? AdminSessions.expiry x).
Qed.

(** A guarded route, its caller known. *)
Lemma guarded_route (admin : bool) v (k : SessionInfo.t -> DM Answer.t) d ans d' :
  behind site (if admin then require_admin else admin_session) v k d = (ans, d') ->
  exists s, (forall id e, AdminSessions.sessions s !! id = Some e -> AdminSessions.sessions (Door.admin_sessions d) !! id = Some e)
    /\ AdminSessions.ttl s = AdminSessions.ttl (Door.admin_sessions d)
    /\ (d' = Door.set_admin_sessions s d
        \/ exists info, caller v d = Some info /\ (admin = true -> SessionInfo.role info = Role.Admin)
             /\ k info (Door.set_admin_sessions s d) = (ans, d')).
Proof.
  intros E%behind_inv. exists (admin_session (Visit.now v) (Site.admin_auth site) (Visit.cookie v) (Door.admin_sessions d)).2.
  split; [apply admin_session_shrinks|]. split; [apply admin_session_ttl|]. unfold caller.
  destruct admin; [unfold require_admin in E|]; destruct (admin_session _ _ _ _) as [[info|why] s]; cbn in E |- *; try (left; apply E).
  - destruct (bool_decide (SessionInfo.role info = Role.Admin)) eqn:Eb; [|left; apply E]. right. exists info. split; [done|].
    split; [intros _; by apply bool_decide_eq_true in Eb|done].
  - right. by exists info.
Qed.

Lemma validate_in now c s id e :
  AdminSessions.sessions (AdminSessions.validate now c s).2 !! id = Some e -> AdminSessions.sessions s !! id = Some e.
Proof.
  unfold AdminSessions.validate. destruct (AdminSessions.sessions s !! c) as [x|]; [|done]. destruct (now <? AdminSessions.expiry x); [done|].
  cbn. by intros [_ ?]%lookup_delete_Some.
Qed.

Lemma quiet_from P v d d' : quiet d d' -> sessions_from P v (Door.admin_sessions d) (Door.admin_sessions d').
Proof. intros [_ ->] id e Hl. by left. Qed.

Lemma remove_in c s id e : AdminSessions.sessions (AdminSessions.remove c s) !! id = Some e -> AdminSessions.sessions s !! id = Some e.
Proof. cbn. by intros [_ ?]%lookup_delete_Some. Qed.

Lemma revoke_in a s id e : AdminSessions.sessions (AdminSessions.revoke_by_actor a s) !! id = Some e -> AdminSessions.sessions s !! id = Some e.
Proof. cbn. by intros [? _]%map_lookup_filter_Some. Qed.

(** The tables do not see the sessions. *)
Lemma account_set_sessions s d u : account_of (Door.set_admin_sessions s d) u = account_of d u.
Proof. done. Qed.

(** C29. A session of the panel is issued against a proof: after any request
    to these routes, whatever statement of the database fails, every session is
    one that stood before or the one begun by this request, living as long as
    the policy says and for a role and a user the request proved -- the
    password of that account, the break-glass token, the setup of a first admin
    by an Admin where no admin was found, or the current password of the
    caller, who then keeps the role of the session. *)
Theorem sessions_issued_on_proof v req d ans d' id e :
  routes byte_serialize site v req d = (ans, d') ->
  AdminSessions.sessions (Door.admin_sessions d') !! id = Some e ->
  AdminSessions.sessions (Door.admin_sessions d) !! id = Some e
  \/ (id = Visit.session_id v /\ AdminSessions.expiry e = Visit.now v + AdminSessions.ttl (Door.admin_sessions d)
      /\ proof_of v req d d' (AdminSessions.info e)).
Proof.
  enough (routes byte_serialize site v req d = (ans, d') ->
    sessions_from (proof_of v req d d') v (Door.admin_sessions d) (Door.admin_sessions d')) as Henough by (intros E Hl; by apply Henough).
  destruct req as [|token next|u pw next|token next| | |u pw confirm|next|cur new confirm next]; cbn [routes]; intros E.
  - apply (guarded_route false) in E as (s & Hs & _ & [->|(info & _ & _ & Hk)]); [intros i x Hl; left; by apply Hs|].
    injection Hk as _ <-. intros i x Hl. left. by apply Hs.
  - apply quiet_from. unfold login_form in E. repeat door_step. quietly.
  - apply login_submit_inv in E as [E|(a & Hp & _ & _ & ->)]; [by apply quiet_from|]. apply sessions_from_begun; [done..|]. exists a. done.
  - apply token_login_inv in E as [E|(Hm & _ & _ & ->)]; [by apply quiet_from|]. apply sessions_from_begun; [done..|]. split; [|done].
    unfold AdminAuth.matches_token in Hm. destruct (AdminAuth.admin (Site.admin_auth site)) as [t|]; [|done]. by apply ct_eq_spec in Hm as ->.
  - apply st_bind_inv in E as (m & d1 & Hm & E). apply logout_inv in E as [_ ->]. intros i x Hl. left.
    unfold with_sessions, maybe_session in Hm.
    pose proof (admin_session_shrinks (Visit.now v) (Site.admin_auth site) (Visit.cookie v) (Door.admin_sessions d) i x) as Hshrink.
    destruct (admin_session _ _ _ (Door.admin_sessions d)) as [r s]. injection Hm as <- <-. apply Hshrink. cbn in Hl |- *.
    destruct (Visit.cookie v) as [c|]; [|done]. by apply remove_in, validate_in in Hl.
  - apply (guarded_route true) in E as (s & Hs & _ & [->|(info & _ & _ & Hk)]); [intros i x Hl; left; by apply Hs|].
    assert (quiet (Door.set_admin_sessions s d) d') as [_ ->]; [|intros i x Hl; left; by apply Hs].
    unfold setup_form in Hk. repeat door_step; quietly.
  - apply (guarded_route true) in E as (s & Hs & Ht & [->|([role actor] & Hc & Hadmin & Hk)]); [intros i x Hl; left; by apply Hs|].
    cbn in Hadmin. rewrite (Hadmin eq_refl) in Hc.
    apply setup_submit_inv in Hk as [[_ ->]|(a & Hn & Hnone & Ha & _ & Hh & _ & ->)]; [intros i x Hl; left; by apply Hs|].
    apply sessions_from_begun.
    + by destruct (Visit.cookie v).
    + intros i x Hl. apply Hs. destruct (Visit.cookie v); [|done]. by apply remove_in in Hl.
    + split; [by exists actor|]. split; [exact Hn|]. split; [exact Hnone|]. split; [by exists a|done].
  - apply (guarded_route false) in E as (s & Hs & _ & [->|(info & _ & _ & Hk)]); [intros i x Hl; left; by apply Hs|].
    assert (quiet (Door.set_admin_sessions s d) d') as [_ ->]; [|intros i x Hl; left; by apply Hs].
    unfold password_form in Hk. repeat door_step; quietly.
  - apply (guarded_route false) in E as (s & Hs & Ht & [->|([role [actor|]] & Hc & _ & Hk)]);
      [intros i x Hl; left; by apply Hs| |injection Hk as _ <-; intros i x Hl; left; by apply Hs].
    apply password_submit_inv in Hk as [[_ ->]|(s1 & s2 & a & _ & _ & Hp & _ & ->)]; [intros i x Hl; left; by apply Hs|].
    apply sessions_from_begun; [done| |split; [exact Hc|by exists actor, a]]. intros i x Hl. by apply Hs, (revoke_in actor).
Qed.
(** What the requests do to the accounts. *)
Lemma routes_tables v req d ans d' :
  routes byte_serialize site v req d = (ans, d') ->
  door_tables d' = door_tables d
  \/ (forall s s' u b, door_tables d = Some s -> door_tables d' = Some s' -> AccountTables.users s !! u = Some b -> AccountTables.users s' !! u = Some b)
  \/ exists s s' a role actor cur new confirm next ss, let info := SessionInfo.mk role (Some actor) in
       req = PasswordSubmit cur new confirm next /\ caller v d = Some info
       /\ door_tables d = Some s /\ door_tables d' = Some s' /\ proves d actor cur a
       /\ edits (normalize_username actor) (Change.mk None None true) s s'
       /\ Door.admin_sessions d' = begun v info (AdminSessions.revoke_by_actor actor ss).
Proof.
  destruct req as [|token next|u pw next|token next| | |u pw confirm|next|cur new confirm next]; cbn [routes]; intros E.
  - left. apply (guarded_route false) in E as (s & _ & _ & [->|(info & _ & _ & Hk)]); [done|]. by injection Hk as _ <-.
  - left. enough (quiet d d') as [? _] by done. unfold login_form in E. repeat door_step. quietly.
  - left. apply login_submit_inv in E as [[E _]|(a & _ & E & _)]; exact E.
  - left. apply token_login_inv in E as [[E _]|(_ & E & _)]; exact E.
  - left. apply st_bind_inv in E as (m & d1 & Hm & E). apply logout_inv in E as [-> _]. unfold with_sessions in Hm.
    destruct (maybe_session _ _ _ _). by injection Hm as _ <-.
  - left. apply (guarded_route true) in E as (s & _ & _ & [->|(info & _ & _ & Hk)]); [done|].
    enough (quiet (Door.set_admin_sessions s d) d') as [? _] by done. unfold setup_form in Hk. repeat door_step; quietly.
  - apply (guarded_route true) in E as (s & _ & _ & [->|(info & _ & _ & Hk)]); [by left|].
    apply setup_submit_inv in Hk as [[Hk _]|(a & _ & _ & _ & _ & _ & Hk & _)]; [by left|by right; left].
  - left. apply (guarded_route false) in E as (s & _ & _ & [->|(info & _ & _ & Hk)]); [done|].
    enough (quiet (Door.set_admin_sessions s d) d') as [? _] by done. unfold password_form in Hk. repeat door_step; quietly.
  - apply (guarded_route false) in E as (s & Hs & Ht & [->|([role [actor|]] & Hc & _ & Hk)]); [by left| |injection Hk as _ <-; by left].
    apply password_submit_inv in Hk as [[Hk _]|(s1 & s2 & a & H1' & H2' & Hp & He & Hss)]; [by left|].
    right; right. exists s1, s2, a, role, actor, cur, new, confirm, next, s. done.
Qed.

Lemma begun_revoked v role actor s id e :
  AdminSessions.sessions (begun v (SessionInfo.mk role (Some actor)) (AdminSessions.revoke_by_actor actor s)) !! id = Some e ->
  SessionInfo.actor (AdminSessions.info e) = Some actor -> id = Visit.session_id v.
Proof.
  cbn. intros [[<- _]|[_ Hl]]%lookup_insert_Some Ha; [done|]. exfalso. apply map_lookup_filter_Some in Hl as [_ Hb].
  cbn in Hb. unfold AdminSessions.belongs_to in Hb. by apply bool_decide_eq_false in Hb.
Qed.

(** An account's password changes at these routes only by its owner, and
    the change ends the account's other sessions: if an account has another
    password hash after a request, then the request came with a session of that
    account and gave the current password, no other account was touched, the
    role and groups are as before, and of the sessions of the account only the
    one begun by the request is left. *)
Theorem own_password_change v req d ans d' s s' u a a' :
  routes byte_serialize site v req d = (ans, d') ->
  door_tables d = Some s -> door_tables d' = Some s' ->
  AccountTables.users s !! u = Some a -> AccountTables.users s' !! u = Some a' ->
  Account.password_hash a' <> Account.password_hash a ->
  exists info actor current,
    caller v d = Some info /\ SessionInfo.actor info = Some actor /\ normalize_username actor = u
    /\ verify_password current (Account.password_hash a) = true
    /\ (exists new confirm next, req = PasswordSubmit current new confirm next)
    /\ Account.role a' = Account.role a /\ Account.groups a' = Account.groups a
    /\ (forall w, w <> u -> AccountTables.users s' !! w = AccountTables.users s !! w)
    /\ (forall id e, AdminSessions.sessions (Door.admin_sessions d') !! id = Some e ->
          SessionInfo.actor (AdminSessions.info e) = Some actor -> id = Visit.session_id v).
Proof.
  intros E Hs Hs' Ha Ha' Hne. apply routes_tables in E as [E|[E|(s1 & s2 & b & role & actor & cur & new & confirm & next & ss & -> & Hc & H1' & H2' & [Hb Hv] & He & Hss)]].
  - congruence.
  - pose proof (E s s' u a Hs Hs' Ha). congruence.
  - rewrite Hs in H1'. rewrite Hs' in H2'. injection H1' as <-. injection H2' as <-.
    assert (normalize_username actor = u) as Hu.
    { destruct (decide (normalize_username actor = u)) as [|Hn]; [done|]. destruct Hne. pose proof (ed_others _ _ _ _ He u ltac:(done)). congruence. }
    rewrite Hu in He. unfold account_of in Hb. rewrite Hs, Hu in Hb. cbn in Hb. rewrite Ha in Hb. injection Hb as <-.
    pose proof (ed_account _ _ _ _ He) as Hch. rewrite Ha, Ha' in Hch. inversion Hch as [x y (_ & _ & Hr & Hg & _) E1 E2|]. subst x y.
    exists (SessionInfo.mk role (Some actor)), actor, cur. split; [done|]. split; [done|]. split; [done|]. split; [done|]. split; [eauto|].
    split; [by destruct Hr|]. split; [by destruct Hg|]. split; [apply (ed_others _ _ _ _ He)|]. rewrite Hss. intros id e. apply begun_revoked.
Qed.
End Handlers.

(** ** Redirects stay on the site *)

(** A path of this origin: no scheme, no authority, and nothing a browser
    reads as one. *)
Definition local_target (t : string) : bool := starts_with "/" t && negb (starts_with "//" t) && negb (starts_with "/\" t).

Lemma str_take_while_prefix f s : exists r, s = str_take_while f s +:+ r.
Proof.
  induction s as [|c s [r IH]]; cbn [str_take_while]; [by exists EmptyString|]. destruct (f c).
  - exists r. cbn. by rewrite IH at 1.
  - by exists (String c s).
Qed.

(** Every path the handlers build begins like this one, or is the root. *)
Lemma local_prefixed t : starts_with "/a" t = true -> local_target t = true.
Proof. by intros [r ->]%starts_with_spec. Qed.

Lemma starts_with_shorter p q t : starts_with (p +:+ q) t = true -> starts_with p t = true.
Proof. intros [r ->]%starts_with_spec. apply starts_with_spec. exists (q +:+ r). by rewrite str_app_assoc. Qed.

Lemma app_next_path_local next base t : app_next_path next base = Some t -> local_target t = true.
Proof.
  unfold app_next_path. destruct (local_next_path next) as [path|]; [|done]. cbn.
  destruct (starts_with "/app/" (path_only (strip_base_prefix path base))) eqn:E; [|done]. intros [= <-].
  apply local_prefixed. destruct (str_take_while_prefix (fun c => negb (existsb (Ascii.eqb c) ["?"; "#"]%char)) (strip_base_prefix path base)) as [r Hr].
  apply starts_with_spec in E as [r' Hr']. unfold path_only in Hr'. rewrite Hr, Hr', str_app_assoc.
  apply starts_with_spec. by exists ("pp/" +:+ (r' +:+ r)).
Qed.

Lemma home_local role : local_target (Role.home role) = true.
Proof. by destruct role. Qed.

Lemma login_target_local site role referer : local_target (login_target site role referer) = true.
Proof.
  unfold login_target. destruct (str_eqb_spec (strip_base_prefix (same_origin_path referer (Role.home role)) (Site.base_path site)) "/") as [->|_]; [done|].
  destruct (starts_with "/admin/" _) eqn:E; cbn [andb]; [|apply home_local]. destruct (_ && _); [|apply home_local].
  apply local_prefixed, (starts_with_shorter "/a" "dmin/"), E.
Qed.

Definition answers {S A} (P : A -> Prop) (m : St S A) : Prop := forall s, P (m s).1.
Lemma answers_bind {S A B} (P : B -> Prop) (m : St S A) (k : A -> St S B) : (forall a, answers P (k a)) -> answers P (st_bind m k).
Proof. intros Hk s. unfold st_bind. destruct (m s) as [a s']. apply Hk. Qed.
Lemma answers_ret {S A} (P : A -> Prop) (a : A) : P a -> answers (S := S) P (st_ret a).
Proof. by intros Ha s. Qed.

Definition redirects_locally (ans : Answer.t) : Prop := forall t, Answer.page ans = RedirectTo t -> local_target t = true.

Ltac answers_step :=
  match goal with
  | |- answers _ (st_bind _ _) => apply answers_bind; intros
  | |- answers _ (st_ret _) => apply answers_ret
  | |- answers _ (if ?c then _ else _) => destruct c eqn:?
  | |- answers _ (match ?x with Ok _ => _ | Err _ => _ end) => destruct x
  | |- answers _ (match ?x with Some _ => _ | None => _ end) => destruct x
  end.

Section Redirects.
Context `{UnicodeCase} `{JsonObject} `{Argon2} `{CharClass} `{HttpCrate}.
Context (byte_serialize : string -> string) (site : Site.t).

(** No open redirect: whatever destination a form or a query carries and
    whatever referer the browser sends, every redirect of these routes leads to
    a path of this site -- it begins with one slash, and not with two, nor with
    a slash and a backslash. *)
Theorem sign_in_redirects_local v req d t :
  Answer.page (routes byte_serialize site v req d).1 = RedirectTo t -> local_target t = true.
Proof.
  enough (answers redirects_locally (routes byte_serialize site v req)) as Ha by apply Ha. unfold routes, behind.
  destruct req; unfold redirect_to_dashboard, login_form, login_submit, token_login, logout, setup_form, setup_submit, password_form, password_submit; cbv zeta;
    repeat answers_step; intros t' E; cbn in E; repeat case_match; simplify_eq;
    try apply home_local; try apply login_target_local; try done.
  all: try (by eapply app_next_path_local).
  all: destruct (app_next_path next (Site.base_path site)) eqn:En; [by eapply app_next_path_local|]; try apply home_local; done.
Qed.
End Redirects.

(** ** Logging out *)

Section LoggingOut.
Context `{UnicodeCase} `{JsonObject} `{Argon2} `{CharClass} `{HttpCrate}.
Context (byte_serialize : string -> string) (site : Site.t).

(** The counters of the replicas are exact: the tracked sessions and [f]. *)
Definition seats_exact (f : ReplicaId -> nat) (d : Door.t) : Prop :=
  Accounting.counts (fun i => InMemorySessionStore.tracked (Door.sessions d) i + f i)%nat (Door.replicas d).

Lemma end_session_counts f sid d :
  seats_exact f d ->
  let '(_, (reg, ss)) := InMemorySessionStore.end_session sid (Door.replicas d) (Door.sessions d) in
  seats_exact f (Door.set_app_sessions reg ss d).
Proof.
  unfold seats_exact, InMemorySessionStore.end_session. intros Hc. destruct (Door.sessions d !! sid) as [e|] eqn:He; [|done]. cbn.
  change (Registry.dec_sessions (SessionEntry.replica_id e) (Door.replicas d)) with (dec_each [SessionEntry.replica_id e] (Door.replicas d)).
  eapply Accounting.counts_dec_each; [|exact Hc]. intros i. cbn beta. pose proof (InMemorySessionStore.tracked_delete (Door.sessions d) sid e i He).
  rewrite InMemorySessionStore.occurrences_cons. unfold occurrences. simpl. lia.
Qed.

Lemma end_sessions_spec f sids d :
  let d' := (end_sessions sids d).2 in
  seats_exact f d ->
  (forall sid, Door.sessions d' !! sid = if bool_decide (sid ∈ sids) then None else Door.sessions d !! sid)
  /\ seats_exact f d' /\ Door.logout_index d' = Door.logout_index d.
Proof.
  cbv zeta. unfold end_sessions, st_modify. cbn [snd]. revert d. induction sids as [|x sids IH]; intros d Hc; cbn [foldl].
  - split; [|done]. intros sid. by rewrite bool_decide_eq_false_2 by (by intros ?%not_elem_of_nil).
  - pose proof (end_session_counts f x d Hc) as Hc'. unfold InMemorySessionStore.end_session in *. destruct (Door.sessions d !! x) as [e|] eqn:He.
    + destruct (IH _ Hc') as (Hl & Hs & Hi). split; [|done]. intros sid. rewrite Hl. cbn.
      destruct (decide (sid = x)) as [->|Hne].
      * rewrite lookup_delete_eq. rewrite (bool_decide_eq_true_2 (x ∈ x :: sids)) by left. by case_bool_decide.
      * rewrite lookup_delete_ne by done. by rewrite (bool_decide_ext (sid ∈ x :: sids) (sid ∈ sids)) by (rewrite elem_of_cons; naive_solver).
    + destruct (IH _ Hc') as (Hl & Hs & Hi). split; [|done]. intros sid. rewrite Hl. cbn. destruct (decide (sid = x)) as [->|Hne].
      * rewrite He. by repeat case_bool_decide.
      * by rewrite (bool_decide_ext (sid ∈ x :: sids) (sid ∈ sids)) by (rewrite elem_of_cons; naive_solver).
Qed.

(** The app sessions tied to a user's logout. *)
Definition tied (info : option SessionInfo.t) (d : Door.t) : gset Uuid :=
  default ∅ (i ← info; user ← SessionInfo.actor i; Door.logout_index d !! user).

Lemma stop_on_logout_spec f i d :
  seats_exact f d ->
  let d' := (stop_on_logout i d).2 in
  (forall sid, Door.sessions d' !! sid = if bool_decide (sid ∈ tied (Some i) d) then None else Door.sessions d !! sid)
  /\ seats_exact f d' /\ (forall user, SessionInfo.actor i = Some user -> Door.logout_index d' !! user = None).
Proof.
  intros Hc. cbv zeta. unfold stop_on_logout, tied. cbn. destruct (SessionInfo.actor i) as [user|]; cbn.
  2: { split; [|done]. intros sid. by rewrite bool_decide_eq_false_2 by set_solver. }
  destruct (Door.logout_index d !! user) as [sids|] eqn:Eu; cbn.
  2: { split; [|split; [done|by intros ? [= <-]]]. intros sid. by rewrite bool_decide_eq_false_2 by set_solver. }
  destruct (end_sessions_spec f (elements sids) (Door.set_logout_index (base.delete user (Door.logout_index d)) d) Hc) as (Hl & Hs & Hi).
  split; [|split; [exact Hs|]].
  - intros sid. rewrite Hl. cbn. by rewrite (bool_decide_ext (sid ∈ elements sids) (sid ∈ sids)) by apply elem_of_elements.
  - intros ? [= <-]. etransitivity; [exact (f_equal (lookup user) Hi)|]. cbn. apply lookup_delete_eq.
Qed.

(** The extractor in front of the logout prunes at most this session. *)
Lemma prepared_logout v d :
  let s := (maybe_session (Visit.now v) (Site.admin_auth site) (Visit.cookie v) (Door.admin_sessions d)).2 in
  forall c, Visit.cookie v = Some c ->
  (AdminSessions.validate (Visit.now v) c s).1 = (AdminSessions.validate (Visit.now v) c (Door.admin_sessions d)).1
  /\ (forall id, id <> c -> AdminSessions.sessions s !! id = AdminSessions.sessions (Door.admin_sessions d) !! id).
Proof.
  cbv zeta. intros c Hc. unfold maybe_session, admin_session. rewrite Hc. destruct (negb (AdminAuth.is_configured _)); [done|].
  unfold AdminSessions.validate. destruct (AdminSessions.sessions (Door.admin_sessions d) !! c) as [e|] eqn:He; cbn; [|by rewrite He].
  destruct (Visit.now v <? AdminSessions.expiry e) eqn:Ex; cbn; [by rewrite He, Ex|].
  split; [by rewrite lookup_delete_eq|]. intros id Hid. by rewrite lookup_delete_ne.
Qed.

(** A logout is complete: the session of the request is gone, no other
    session of the panel is touched, the app sessions tied to the user's logout
    are gone and no others, the index forgets the user, and the session counters
    of the replicas stay exact. *)
Theorem logout_complete v d ans d' c f :
  routes byte_serialize site v Logout d = (ans, d') -> Visit.cookie v = Some c -> seats_exact f d ->
  let who := (AdminSessions.validate (Visit.now v) c (Door.admin_sessions d)).1 in
  AdminSessions.sessions (Door.admin_sessions d') !! c = None
  /\ (forall id, id <> c -> AdminSessions.sessions (Door.admin_sessions d') !! id = AdminSessions.sessions (Door.admin_sessions d) !! id)
  /\ (forall sid, Door.sessions d' !! sid = if bool_decide (sid ∈ tied who d) then None else Door.sessions d !! sid)
  /\ (forall user, (i ← who; SessionInfo.actor i) = Some user -> Door.logout_index d' !! user = None)
  /\ seats_exact f d'.
Proof.
  cbn [routes]. intros (m & d1 & Hm & E)%st_bind_inv Hc Hf. cbv zeta. destruct (prepared_logout v d c Hc) as [Hval Hothers].
  unfold with_sessions in Hm. destruct (maybe_session _ _ _ _) as [m' s]. injection Hm as <- <-. cbn [snd] in *. rewrite <- Hval. clear Hval.
  unfold logout in E. rewrite Hc in E. apply st_bind_inv in E as ([] & d2 & E & [= _ <-]).
  apply st_bind_inv in E as (info & d3 & Hv & ([] & d4 & Hstop & Hr)%st_bind_inv). unfold with_sessions in Hv, Hr.
  cbn [Door.admin_sessions Door.set_admin_sessions] in Hv.
  destruct (AdminSessions.validate (Visit.now v) c s) as [i s'] eqn:Ev. injection Hv as <- <-. injection Hr as <-. cbn [fst].
  assert (forall id, id <> c -> AdminSessions.sessions s' !! id = AdminSessions.sessions s !! id) as Hs'.
  { intros id Hid. unfold AdminSessions.validate in Ev. destruct (AdminSessions.sessions s !! c) as [e|]; [|by injection Ev as _ <-].
    destruct (Visit.now v <? AdminSessions.expiry e); injection Ev as _ <-; [done|]. cbn. by rewrite lookup_delete_ne. }
  assert (quiet (Door.set_admin_sessions s' (Door.set_admin_sessions s d)) d4) as [_ Hss].
  { destruct i as [i|]; [|by injection Hstop as <-]. apply (run_of _ _ _ _ _ (stop_on_logout_quiet i) Hstop). }
  split; [cbn; apply lookup_delete_eq|]. split.
  { intros id Hid. cbn. rewrite lookup_delete_ne, Hss by done. cbn. by rewrite Hs', Hothers. }
  destruct i as [i|].
  - destruct (stop_on_logout_spec f i (Door.set_admin_sessions s' (Door.set_admin_sessions s d)) Hf) as (Hl & Hx & Hu).
    rewrite Hstop in *. done.
  - injection Hstop as <-. split; [|done]. intros sid. by rewrite bool_decide_eq_false_2 by set_solver.
Qed.
End LoggingOut.

(** ** Guessing *)

Section Guessing.
Context `{UnicodeCase} `{JsonObject} `{Argon2} `{CharClass} `{HttpCrate}.
Context (byte_serialize : string -> string) (site : Site.t).
Import LoginRateLimiter.

(** What a request does to the limiter: nothing, or it asks it and is refused,
    fails, gets in, or breaks off on an error of the database. *)
Definition is_failed (p : Page) : bool := match p with LoginFailed _ => true | _ => false end.
Definition gets_in (req : Request) (p : Page) : bool :=
  match req, p with (LoginSubmit _ _ _ | TokenLogin _ _), RedirectTo _ => true | _, _ => false end.

Inductive limiter_step (now : Z) (l : t) : bool -> bool -> t -> Prop :=
  | step_idle : limiter_step now l false false l
  | step_asked : limiter_step now l false false (allow now l).2
  | step_failed : (allow now l).1 = true -> limiter_step now l true false (record_failure now (allow now l).2)
  | step_in : limiter_step now l false true (record_success (allow now l).2).

(** Steps that leave the limiter alone. *)
Definition unlimited (d d' : Door.t) : Prop := Door.login_limiter d' = Door.login_limiter d.
#[local] Instance unlimited_preorder : PreOrder unlimited.
Proof. split; [by intros d|]. intros d1 d2 d3 E1 E2. unfold unlimited in *. congruence. Qed.

Lemma on_pool_unlimited {A} (m : AM (DbResult A)) : preserves unlimited (on_pool m).
Proof. intros d. unfold on_pool. destruct (Door.db d) as [db|]; [|done]. by destruct (m db). Qed.
Lemma has_pool_unlimited : preserves unlimited has_pool.
Proof. by intros d. Qed.
Lemma with_sessions_unlimited {A} (f : AdminSessions.t -> A * AdminSessions.t) : preserves unlimited (with_sessions f).
Proof. intros d. unfold with_sessions. by destruct (f (Door.admin_sessions d)). Qed.
Lemma end_sessions_unlimited sids : preserves unlimited (end_sessions sids).
Proof.
  intros d. unfold end_sessions, st_modify. cbn [snd]. revert d. induction sids as [|sid sids IH]; intros d; cbn; [done|].
  destruct (InMemorySessionStore.end_session sid (Door.replicas d) (Door.sessions d)) as [b [reg ss]].
  etransitivity; [|apply IH]. done.
Qed.
Lemma stop_on_logout_unlimited info : preserves unlimited (stop_on_logout info).
Proof.
  intros d. unfold stop_on_logout. destruct (SessionInfo.actor info) as [user|]; [|done]. destruct (Door.logout_index d !! user) as [sids|]; [|done].
  etransitivity; [|apply end_sessions_unlimited]. done.
Qed.

Ltac unlimited :=
  repeat first
    [ apply on_pool_unlimited | apply has_pool_unlimited | apply with_sessions_unlimited | apply stop_on_logout_unlimited
    | apply preserves_ret, _ | apply preserves_bind; [apply _| |intros]
    | match goal with
      | |- preserves _ (if ?c then _ else _) => destruct c
      | |- preserves _ (match ?x with Ok _ => _ | Err _ => _ end) => destruct x
      | |- preserves _ (match ?x with Some _ => _ | None => _ end) => destruct x
      end ].

Lemma others_unlimited v req : gets_in req (RedirectTo "") = false -> preserves unlimited (routes byte_serialize site v req).
Proof.
  destruct req; try done; intros _; unfold routes, behind, redirect_to_dashboard, login_form, show_token_form, logout, setup_form, setup_submit,
    password_form, password_submit, must_change, create_session; cbv zeta; unlimited.
Qed.
Lemma others_not_failed v req : gets_in req (RedirectTo "") = false ->
  answers (fun ans => is_failed (Answer.page ans) = false) (routes byte_serialize site v req).
Proof.
  destruct req; try done; intros _; unfold routes, behind, redirect_to_dashboard, login_form, logout, setup_form, setup_submit,
    password_form, password_submit; cbv zeta; repeat answers_step; cbn; by repeat case_match.
Qed.

Lemma login_limiter_step v u pw next d ans d' :
  login_submit byte_serialize site v u pw next d = (ans, d') ->
  limiter_step (Visit.now v) (Door.login_limiter d) (is_failed (Answer.page ans)) (gets_in (LoginSubmit u pw next) (Answer.page ans)) (Door.login_limiter d').
Proof.
  unfold login_submit. cbv zeta. destruct (negb _); [intros [= <- <-]; apply step_idle|]. intros (b & d1 & Ha & E)%st_bind_inv.
  unfold limiter_allow in Ha. destruct (allow (Visit.now v) (Door.login_limiter d)) as [b' l1] eqn:Eal. injection Ha as <- <-.
  assert (l1 = (allow (Visit.now v) (Door.login_limiter d)).2) as -> by (by rewrite Eal).
  destruct b'; cbn [negb] in E; [|injection E as <- <-; apply step_asked].
  assert ((allow (Visit.now v) (Door.login_limiter d)).1 = true) as Hal by (by rewrite Eal).
  apply st_bind_inv in E as (pool & d2 & [= _ <-] & E). destruct (negb pool).
  { apply st_bind_inv in E as ([] & d3 & [= <-] & E). injection E as <- <-. by apply step_failed. }
  apply st_bind_inv in E as (r & d3 & Hr & E). apply (run_of _ _ _ _ _ (on_pool_unlimited _)) in Hr. cbn in Hr.
  destruct r as [[user|]|e].
  - apply st_bind_inv in E as ([] & d4 & [= <-] & E). apply st_bind_inv in E as (sid & d5 & [= <- <-] & E).
    apply st_bind_inv in E as ([] & d6 & [= <-] & E).
    assert (Door.login_limiter d' = record_success (allow (Visit.now v) (Door.login_limiter d)).2 /\ exists t, Answer.page ans = RedirectTo t) as [-> [t ->]]
      by (destruct (UserRow.must_change_password user); injection E as <- <-; cbn; rewrite Hr; eauto). apply step_in.
  - apply st_bind_inv in E as ([] & d4 & [= <-] & E). injection E as <- <-. cbn. rewrite Hr. by apply step_failed.
  - injection E as <- <-. cbn. rewrite Hr. apply step_asked.
Qed.

Lemma token_limiter_step v token next d ans d' :
  token_login byte_serialize site v token next d = (ans, d') ->
  limiter_step (Visit.now v) (Door.login_limiter d) (is_failed (Answer.page ans)) (gets_in (TokenLogin token next) (Answer.page ans)) (Door.login_limiter d').
Proof.
  unfold token_login. cbv zeta. destruct (negb _); [intros [= <- <-]; apply step_idle|]. intros (b & d1 & Ha & E)%st_bind_inv.
  unfold limiter_allow in Ha. destruct (allow (Visit.now v) (Door.login_limiter d)) as [b' l1] eqn:Eal. injection Ha as <- <-.
  assert (l1 = (allow (Visit.now v) (Door.login_limiter d)).2) as -> by (by rewrite Eal).
  destruct b'; cbn [negb] in E; [|injection E as <- <-; apply step_asked].
  assert ((allow (Visit.now v) (Door.login_limiter d)).1 = true) as Hal by (by rewrite Eal).
  destruct (negb _).
  { apply st_bind_inv in E as ([] & d3 & [= <-] & E). injection E as <- <-. by apply step_failed. }
  apply st_bind_inv in E as ([] & d2 & [= <-] & E). apply st_bind_inv in E as (sid & d3 & [= <- <-] & E).
  apply st_bind_inv in E as (pool & d4 & [= _ <-] & E). apply st_bind_inv in E as (need & d5 & Hn & [= <- <-]).
  assert (Door.login_limiter d5 = record_success (allow (Visit.now v) (Door.login_limiter d)).2) as ->; [|apply step_in].
  destruct pool; [|by injection Hn as _ <-]. apply st_bind_inv in Hn as (r & d6 & Hr & [= _ <-]).
  apply (run_of _ _ _ _ _ (on_pool_unlimited _)) in Hr. exact Hr.
Qed.

Lemma routes_limiter_step v req d ans d' :
  routes byte_serialize site v req d = (ans, d') ->
  limiter_step (Visit.now v) (Door.login_limiter d) (is_failed (Answer.page ans)) (gets_in req (Answer.page ans)) (Door.login_limiter d').
Proof.
  intros E. destruct (gets_in req (RedirectTo "")) eqn:Eg.
  - destruct req; try done; [by eapply login_limiter_step|by eapply token_limiter_step].
  - pose proof (run_of _ _ _ _ _ (others_unlimited v req Eg) E) as ->. pose proof (others_not_failed v req Eg d) as Hf. rewrite E in Hf. cbn in Hf.
    rewrite Hf. replace (gets_in req (Answer.page ans)) with false by (by destruct req). apply step_idle.
Qed.

(** The times of the failed attempts since somebody last got in. *)
Definition guess (st : list Z * Door.t) (x : Visit.t * Request) : list Z * Door.t :=
  let '(ans, d') := routes byte_serialize site x.1 x.2 st.2 in
  (if gets_in x.2 (Answer.page ans) then [] else if is_failed (Answer.page ans) then st.1 ++ [Visit.now x.1] else st.1, d').

Fixpoint visits_in_order (now : Z) (xs : list (Visit.t * Request)) : Prop :=
  match xs with [] => True | x :: xs => now <= Visit.now x.1 /\ visits_in_order (Visit.now x.1) xs end.

Record guesses_inv (max : nat) (w now : Z) (st : list Z * Door.t) : Prop := {
  gi_max : LoginRateLimiter.max (Door.login_limiter st.2) = max;
  gi_window : LoginRateLimiter.window (Door.login_limiter st.2) = w;
  gi_covers : covers w now st.1 (LoginRateLimiter.failures (Door.login_limiter st.2));
  gi_within x : (admitted_within w x st.1 <= max)%nat }.

Lemma guess_inv max w now st x : guesses_inv max w now st -> now <= Visit.now x.1 -> guesses_inv max w (Visit.now x.1) (guess st x).
Proof.
  intros [<- <- Hc Hw] Hle. unfold guess. destruct (routes byte_serialize site x.1 x.2 st.2) as [ans d'] eqn:E. apply routes_limiter_step in E.
  assert (forall A, (admitted_within (window (Door.login_limiter st.2)) A [] <= LoginRateLimiter.max (Door.login_limiter st.2))%nat) as Hnil
    by (intros A; unfold admitted_within; cbn; lia).
  pose proof (covers_prune _ _ _ _ _ Hle Hc) as Hpr.
  inversion E as [Ef Eg El|Ef Eg El|Hal Ef Eg El|Ef Eg El]; split; cbn; rewrite <- ?El; cbn; try done.
  - by eapply covers_later.
  - by apply covers_push.
  - unfold allow in Hal. cbn in Hal. apply Nat.ltb_lt in Hal. by eapply push_within.
  - apply covers_nil.
Qed.

Lemma guesses_inv_run max w now st xs :
  guesses_inv max w now st -> visits_in_order now xs -> exists now', guesses_inv max w now' (foldl guess st xs).
Proof.
  revert now st. induction xs as [|x xs IH]; intros now st Hi Hx; cbn [foldl]; [eauto|]. destruct Hx as [Hle Hx].
  apply (IH (Visit.now x.1)); [|done]. by apply (guess_inv _ _ now).
Qed.

(** Guessing is bounded between logins: in every run of these routes over
    a clock that does not go back, starting with no failure on record, no closed
    minute holds more than ten attempts, at passwords and at the token together,
    that were checked and found wrong since somebody last got in. *)
Theorem guesses_bounded d now xs x :
  Door.login_limiter d = default_policy -> visits_in_order now xs ->
  (admitted_within (from_secs 60) x (foldl guess ([], d) xs).1 <= 10)%nat.
Proof.
  intros Hd Hx. destruct (guesses_inv_run 10 (from_secs 60) now ([], d) xs) as [now' [_ _ _ Hw]]; [|done|apply Hw].
  split; cbn; rewrite ?Hd; try done; [apply covers_nil|]. intros y. unfold admitted_within. cbn. lia.
Qed.
End Guessing.

(** ** Examples *)

Module SignInExamples.
Import AccountExamples UserExamples UsersCsvExamples.
#[local] Existing Instance http_example.

Definition site : Site.t := Site.mk "/box" (Server.mk false None false None None None None None) (AdminAuth.mk (Some "token")).
Definition sessions : AdminSessions.t := AdminSessions.create 0 "c-bo" Role.Viewer (Some "bo")
  (AdminSessions.create 0 "c-bo2" Role.Viewer (Some "bo") AdminSessions.default_policy).
(** Two app sessions on one replica; the first is tied to bo's logout. *)
Definition replica : Replica.t := Replica.set_sessions_active 2 SessionProperties.example_replica.
Definition door : Door.t :=
  Door.mk (Some UserExamples.db) sessions LoginRateLimiter.default_policy (ActivitySink.mk [] 0) {["bo" := {[7%N]}]}
    {[7%N := SessionEntry.mk "a" 1%N 0; 8%N := SessionEntry.mk "a" 1%N 0]} (Registry.add replica Registry.empty).
Definition visit (cookie : option string) (now : Z) (sid : string) : Visit.t := Visit.mk cookie ∅ now "salt" "new-id" sid.
Definition go (v : Visit.t) (req : Request) (d : Door.t) : Answer.t * Door.t := routes (fun s => s) site v req d.

(** Zoe logs in with her password. *)
Lemma sessions_issued_on_proof_witness :
  let r := go (visit None 5 "fresh") (LoginSubmit "Zoe" "pw" (Some "/box/app/x")) door in
  Answer.page r.1 = RedirectTo "/app/x"
  /\ proof_of site (visit None 5 "fresh") (LoginSubmit "Zoe" "pw" (Some "/box/app/x")) door r.2 (SessionInfo.mk Role.Viewer (Some "zoe")).
Proof.
  cbv zeta. set (v := visit None 5 "fresh"). set (req := LoginSubmit "Zoe" "pw" (Some "/box/app/x")).
  split; [vm_compute; reflexivity|].
  assert (AdminSessions.sessions (Door.admin_sessions (go v req door).2) !! "fresh"
    = Some (AdminSessions.mkEntry (5 + from_secs 86400) (SessionInfo.mk Role.Viewer (Some "zoe")))) as Hl by (vm_compute; reflexivity).
  destruct (sessions_issued_on_proof (fun s => s) site v req door (go v req door).1 _ "fresh" _ (surjective_pairing _) Hl) as [Hs|(_ & _ & Hp)];
    [vm_compute in Hs; discriminate Hs|exact Hp].
Defined.

(** Bo, signed in twice, changes the password. *)
Definition change : Request := PasswordSubmit "pw" "Str0ng#Pass" "Str0ng#Pass" None.
Lemma own_password_change_witness :
  let r := go (visit (Some "c-bo") 5 "fresh") change door in
  Answer.page r.1 = RedirectTo "/"
  /\ (forall id e, AdminSessions.sessions (Door.admin_sessions r.2) !! id = Some e ->
        SessionInfo.actor (AdminSessions.info e) = Some "bo" -> id = "fresh").
Proof.
  cbv zeta. set (v := visit (Some "c-bo") 5 "fresh"). split; [vm_compute; reflexivity|].
  set (s' := default AccountTables.empty (door_tables (go v change door).2)).
  assert (door_tables (go v change door).2 = Some s') as Hs' by (vm_compute; reflexivity).
  assert (AccountTables.users s' !! "bo" = Some (Account.set_password "salt$Str0ng#Pass" false 5 (account "bo" "viewer" "ops"))) as Ha'
    by (vm_compute; reflexivity).
  destruct (own_password_change (fun s => s) site v change door (go v change door).1 _ (ConfigDb.tables UserExamples.db) s' "bo"
    (account "bo" "viewer" "ops") _ (surjective_pairing _) eq_refl Hs' eq_refl Ha' ltac:(done))
    as (info & actor & cur & Hc & Ha & _ & _ & _ & _ & _ & _ & Hl).
  assert (info = SessionInfo.mk Role.Viewer (Some "bo")) as -> by (vm_compute in Hc; congruence). injection Ha as <-. exact Hl.
Defined.

Lemma sign_in_redirects_local_witness :
  let referred := Visit.mk None {["referer" := ["https://evil.example//evil.example/admin/specs"]]} 5 "salt" "id" "fresh" in
  Answer.page (go referred (LoginSubmit "ana" "pw" (Some "//evil.example")) door).1 = RedirectTo "/admin/specs"
  /\ local_target "/admin/specs" = true.
Proof.
  cbv zeta. set (referred := Visit.mk _ _ _ _ _ _). assert (Answer.page (go referred (LoginSubmit "ana" "pw" (Some "//evil.example")) door).1 = RedirectTo "/admin/specs") as Hp
    by (vm_compute; reflexivity).
  split; [exact Hp|]. exact (sign_in_redirects_local (fun s => s) site referred _ door _ Hp).
Defined.

Lemma logout_complete_witness :
  let r := go (visit (Some "c-bo") 5 "unused") Logout door in
  (forall sid, Door.sessions r.2 !! sid = if bool_decide (sid ∈ ({[7%N]} : gset Uuid)) then None else Door.sessions door !! sid)
  /\ AdminSessions.sessions (Door.admin_sessions r.2) !! "c-bo" = None.
Proof.
  assert (seats_exact (fun _ => 0%nat) door) as Hf.
  { split; [apply Registry.wf_add; [apply Registry.wf_empty|vm_compute; reflexivity]|]. intros i r Hr. unfold door in Hr. cbn [Door.replicas] in Hr.
    rewrite Registry.by_id_add in Hr; [|apply Registry.wf_empty|vm_compute; reflexivity].
    apply lookup_insert_Some in Hr as [[<- <-]|[_ Hr]]; [vm_compute; reflexivity|]. by rewrite RegistryOps.by_id_empty, lookup_empty in Hr. }
  destruct (logout_complete (fun s => s) site (visit (Some "c-bo") 5 "unused") door _ _ "c-bo" _ (surjective_pairing _) eq_refl Hf) as (Hc & _ & Hl & _).
  split; [|exact Hc]. intros sid. etransitivity; [exact (Hl sid)|reflexivity].
Defined.

Definition wrong (n : Z) : Visit.t * Request := (visit None n "unused", TokenLogin "guess" None).
Definition own (n : Z) : Visit.t * Request := (visit None n "bo's", LoginSubmit "bo" "pw" None).
Definition guessing : list (Visit.t * Request) := map wrong [0; 1; 2; 3; 4; 5; 6; 7; 8; 9; 10; 11].

Lemma guesses_bounded_witness :
  (foldl (guess (fun s => s) site) ([], door) guessing).1 = [0; 1; 2; 3; 4; 5; 6; 7; 8; 9]
  /\ (admitted_within (from_secs 60) 0 (foldl (guess (fun s => s) site) ([], door) guessing).1 <= 10)%nat.
Proof.
  split; [vm_compute; reflexivity|]. apply (guesses_bounded (fun s => s) site door 0 guessing 0 eq_refl). vm_compute. repeat split; congruence.
Defined.

(** The cap is cleared by whoever gets in: with an account of any role, the
    token is guessed at without end, all within a second. *)
Example cap_cleared_by_any_login :
  let xs := concat (replicate 3 (map wrong [0; 0; 0; 0; 0; 0; 0; 0; 0] ++ [own 0])) in
  length (List.filter (fun p => is_failed p)
    (foldl (fun st x => let '(ans, d) := go x.1 x.2 st.2 in (Answer.page ans :: st.1, d)) ([], door) xs).1) = 27%nat.
Proof. vm_compute. reflexivity. Qed.

(** A wrong token is to cost the session its cookie; the removal names no path,
    and the cookie was set for the root. *)
Example wrong_token_cookie :
  Answer.jar (go (visit (Some "c-bo") 5 "unused") (TokenLogin "guess" None) door).1 = [Jar.Remove ADMIN_COOKIE_NAME ""]
  /\ Answer.jar (go (visit None 5 "fresh") (TokenLogin "token" None) door).1 = [Jar.Add ADMIN_COOKIE_NAME "fresh" "/" false (from_secs 86400)].
Proof. split; vm_compute; reflexivity. Qed.
End SignInExamples.
