(* ===== verification/MfaRoutes.v ===== *)
(** * MfaRoutes: the pages of the second factor (routes/admin/mfa.rs)

    Enrolling a TOTP factor, confirming it, answering a challenge, new recovery
    codes, forgetting trusted browsers: every handler of the account's MFA
    pages, with the three attempt limiters and the cookies.  The templates are
    values that hold what they render.  Parameters: argon2, the Unicode tables,
    totp_rs, the QR code, aes-gcm, the digest and hex crates, the JSON
    printer, percent-encoding. *)

From Stdlib Require Import Ascii String ZArith Lia.
From stdpp Require Import base tactics list gmap strings fin_maps numbers.
From S2P Require Import Prelude Text Schema RateLimit Sticky Headers Auth Gateway Database SpecStore Accounts Users MfaStore Credentials SignIn.

Local Open Scope string_scope.
Local Open Scope list_scope.
Local Open Scope Z_scope.
Local Open Scope ruscker_scope.

(** ** State, requests, answers *)

(** What the process was started with. *)
Module MfaSite.
Record t := mk { base_path : string; server : Server.t; admin_auth : AdminAuth.t; master_key : MasterKey.t }.
End MfaSite.

(** One request: its cookies and headers, and what its handling draws from
    outside.  A draw from the system's generator may fail. *)
Module MfaVisit.
Record t := mk {
  session_cookie : option string;
  ceremony_cookie : option string;
  device_cookie : option string;
  headers : HeaderMap.t;
  now : Z;
  secret_base32 : string;
  gcm_nonce : string;
  ceremony : string;
  code_bytes : option (list Z);
  code_salts : nat -> option string;
  code_ids : nat -> string;
  device_token : option string;
  token_salt : option string;
  grant_id : string }.
End MfaVisit.

Module MfaDoor.
Record t := mk {
  db : option AccountDb;
  admin_sessions : AdminSessions.t;
  reauth : ConfirmRateLimiter.t;
  confirm : ConfirmRateLimiter.t;
  challenge : ConfirmRateLimiter.t }.
Definition set_db x d : t := mk (Some x) (admin_sessions d) (reauth d) (confirm d) (challenge d).
Definition set_admin_sessions x d : t := mk (db d) x (reauth d) (confirm d) (challenge d).
Definition set_reauth x d : t := mk (db d) (admin_sessions d) x (confirm d) (challenge d).
Definition set_confirm x d : t := mk (db d) (admin_sessions d) (reauth d) x (challenge d).
Definition set_challenge x d : t := mk (db d) (admin_sessions d) (reauth d) (confirm d) x.
End MfaDoor.

Module AccountMfaPage.
Record t := mk {
  role : Role.t;
  enrolled_at : option Z;
  pending : bool;
  break_glass : bool;
  error : string;
  next : string;
  recovery : RecoveryCodeCounts.t;
  recovery_generation : Z }.
Definition RECOVERY_LOW_WATER : Z := 2.
Definition recovery_low (p : t) : bool :=
  (0 <? RecoveryCodeCounts.total (recovery p)) && (RecoveryCodeCounts.unused (recovery p) <=? RECOVERY_LOW_WATER).
End AccountMfaPage.

Module Enrollment.
Record t := mk { secret_base32 : string; qr_svg : string }.
End Enrollment.

(** totp_rs and qrcode: the picture of the URL of a secret's profile. *)
Class EnrollmentQr := { qr_svg_of : string -> string -> option string }.

Inductive MfaPage :=
  | MfaRejected (why : Rejection)
  | Plain (status : Z) (text : string)
  | KeyMissing
  | StatusShown (status : Z) (page : AccountMfaPage.t)
  | SetupShown (status : Z) (role : Role.t) (enrollment : Enrollment.t) (error next : string)
  | ChallengeShown (status : Z) (role : Role.t) (break_glass : bool) (error next : string)
  | RecoveryShown (role : Role.t) (codes : list string) (next username : string) (regenerated : bool)
  | GoTo (target : string).

Module MfaAnswer.
Record t := mk { page : MfaPage; retry_after : option Z; jar : list Jar.op }.
Definition bare (p : MfaPage) : t := mk p None [].
Definition later (p : MfaPage) : t := mk p (Some 60) [].
End MfaAnswer.

Definition no_db : MfaPage := Plain 503 "no database — start with --db".

(** A handler stops with an answer, or goes on with a value. *)
Abbreviation HM A := (St MfaDoor.t (Result A MfaAnswer.t)).
Definition stop {A} (p : MfaPage) : HM A := st_ret (Err (MfaAnswer.bare p)).
Definition go_on {A} (a : A) : HM A := st_ret (Ok a).
Definition finish (m : HM MfaAnswer.t) : St MfaDoor.t MfaAnswer.t :=
  do r <- m; st_ret (match r with Ok a => a | Err a => a end).

(** The pool, and a query of it whose failure stops the handler. *)
Definition require_db (p : MfaPage) : HM unit := fun d =>
  (if MfaDoor.db d then Ok tt else Err (MfaAnswer.bare p), d).
Definition ask {A} (m : AM (DbResult A)) : St MfaDoor.t (DbResult A) := fun d =>
  match MfaDoor.db d with
  | Some db => let '(r, db') := m db in (r, MfaDoor.set_db db' d)
  | None => (Err (Failed "no db"), d)
  end.
Definition ask_or {A} (m : AM (DbResult A)) (p : MfaPage) : HM A :=
  st_map_err (fun _ => MfaAnswer.bare p) (ask m).

(** The three limiters of the process. *)
Definition reserve_reauth (now : Z) (username : string) : St MfaDoor.t bool := fun d =>
  let '(b, l) := ConfirmRateLimiter.try_reserve now username (MfaDoor.reauth d) in (b, MfaDoor.set_reauth l d).
Definition reserve_confirm (now : Z) (username : string) : St MfaDoor.t bool := fun d =>
  let '(b, l) := ConfirmRateLimiter.try_reserve now username (MfaDoor.confirm d) in (b, MfaDoor.set_confirm l d).
Definition reserve_challenge (now : Z) (username : string) : St MfaDoor.t bool := fun d =>
  let '(b, l) := ConfirmRateLimiter.try_reserve now username (MfaDoor.challenge d) in (b, MfaDoor.set_challenge l d).
Definition reauth_succeeded (username : string) : St MfaDoor.t unit :=
  st_modify (fun d => MfaDoor.set_reauth (ConfirmRateLimiter.record_success username (MfaDoor.reauth d)) d).
Definition confirm_succeeded (username : string) : St MfaDoor.t unit :=
  st_modify (fun d => MfaDoor.set_confirm (ConfirmRateLimiter.record_success username (MfaDoor.confirm d)) d).
Definition challenge_succeeded (username : string) : St MfaDoor.t unit :=
  st_modify (fun d => MfaDoor.set_challenge (ConfirmRateLimiter.record_success username (MfaDoor.challenge d)) d).

Definition CEREMONY_COOKIE : string := "__ruscker_mfa_ceremony".
Definition DEVICE_COOKIE : string := "__ruscker_mfa_device".

Definition safe_next (raw : option string) (base : string) : string :=
  match local_next_path raw with Some path => strip_base_prefix path base | None => "" end.

Definition ceremony_cookie_path (base : string) : string := base +:+ "/admin/account/mfa".
Definition device_cookie_path (base : string) : string := if str_is_empty base then "/" else base +:+ "/".

(** Compares in constant time: same length and no differing byte. *)
Definition ceremony_matches (cookie : option string) (row : MfaRow.t) : bool :=
  match cookie with Some got => ct_eq got (MfaRow.ceremony row) | None => false end.

(** ** Enrollment material *)

Section Material.
Context `{TotpCrate} `{EnrollmentQr} `{MfaCrates}.

Definition render_enrollment (secret username : string) : Result Enrollment.t string :=
  match totp secret username with
  | None => Err "build TOTP profile"
  | Some _ => match qr_svg_of secret username with Some svg => Ok (Enrollment.mk secret svg) | None => Err "encode TOTP QR" end
  end.

Definition generate_recovery_codes (random : option (list Z)) : Result (list string) string :=
  match random with Some bytes => Ok (map collect_chars (recovery_codes bytes)) | None => Err "generate recovery codes" end.

(** The loop over the codes, each with a fresh salt; the [i]-th also gets the
    id its row is stored under. *)
Fixpoint hash_codes (v : MfaVisit.t) (i : nat) (codes : list string) : Result (list (string * string)) string :=
  match codes with
  | [] => Ok []
  | code :: rest =>
    match MfaVisit.code_salts v i with
    | None => Err "generate recovery-code salt"
    | Some salt =>
      let? hashes := hash_codes v (S i) rest in
      Ok ((MfaVisit.code_ids v i, hash_recovery_code salt code) :: hashes)
    end
  end.

(** A bearer token for a browser, and its salted hash. *)
Definition new_device_token (v : MfaVisit.t) : Result (string * string) string :=
  match MfaVisit.device_token v with
  | None => Err "generate MFA device token"
  | Some token =>
    match MfaVisit.token_salt v with
    | None => Err "generate MFA device-token salt"
    | Some salt => Ok (token, hash_device_token salt token)
    end
  end.
End Material.

(** A fallible step whose error stops the handler. *)
Definition or_stop {A E} (r : Result A E) (p : MfaPage) : HM A := st_ret (result_map_err (fun _ => MfaAnswer.bare p) r).

Section MfaRoutes.
Context `{UnicodeCase} `{JsonObject} `{Argon2} `{TotpCrate} `{EnrollmentQr} `{MfaCrates} `{AesGcm} `{HttpCrate}.
Context (dialect : Dialect) (byte_serialize : string -> string) (site : MfaSite.t).

Definition is_https (v : MfaVisit.t) : bool :=
  request_is_https (MfaVisit.headers v) (forward_headers_trusted (MfaSite.server site)).

Definition issue_ceremony_cookie (v : MfaVisit.t) (value : string) : Jar.op :=
  Jar.Add CEREMONY_COOKIE value (ceremony_cookie_path (MfaSite.base_path site)) (is_https v) (from_secs (15 * 60)).
Definition clear_ceremony_cookie : Jar.op := Jar.Remove CEREMONY_COOKIE (ceremony_cookie_path (MfaSite.base_path site)).
Definition issue_device_cookie (v : MfaVisit.t) (id token : string) : Jar.op :=
  Jar.Add DEVICE_COOKIE (id +:+ "." +:+ token) (device_cookie_path (MfaSite.base_path site)) (is_https v)
    (from_secs (MAX_MFA_VALIDITY_DAYS * 86400)).
Definition clear_device_cookie : Jar.op := Jar.Remove DEVICE_COOKIE (device_cookie_path (MfaSite.base_path site)).

Definition render_status (info : SessionInfo.t) (error next : string) (status : Z) : HM MfaAnswer.t :=
  do? u <- require_db no_db;
  do? row <- match SessionInfo.actor info with
             | Some username => ask_or (fetch_factor username) (Plain 500 "db error")
             | None => go_on None
             end;
  let enrolled_at := row ≫= MfaRow.confirmed_at in
  let generation := match row with Some row => recovery_generation row | None => 0 end in
  let pending := match row with Some row => Factor.pending row | None => false end in
  do? recovery <- match enrolled_at, SessionInfo.actor info with
                  | Some _, Some username => ask_or (recovery_code_counts username) (Plain 500 "db error")
                  | _, _ => go_on (RecoveryCodeCounts.mk 0 0)
                  end;
  go_on (MfaAnswer.bare (StatusShown status (AccountMfaPage.mk (SessionInfo.role info) enrolled_at pending
    (bool_decide (SessionInfo.actor info = None)) error next recovery generation))).

(** The handler ends with the status page. *)
Definition stop_status {A} (info : SessionInfo.t) (error next : string) (status : Z) : HM A :=
  do? a <- render_status info error next status; st_ret (Err a).
Definition stop_rate_limited {A} (info : SessionInfo.t) (next : string) : HM A :=
  do r <- render_status info "rate-limited" next 429;
  let a := match r with Ok a | Err a => a end in
  st_ret (Err (MfaAnswer.mk (MfaAnswer.page a) (Some 60) (MfaAnswer.jar a))).

Definition status (info : SessionInfo.t) (raw_next : option string) : HM MfaAnswer.t :=
  render_status info "" (safe_next raw_next (MfaSite.base_path site)) 200.

(** The password is asked for again, at most so often a minute. *)
Definition reauthenticate (v : MfaVisit.t) (info : SessionInfo.t) (username password next : string) : HM unit :=
  do allowed <- reserve_reauth (MfaVisit.now v) username;
  if negb allowed then stop_rate_limited info next
  else
    do? user <- ask_or (verify_login username password) (Plain 500 "login error");
    match user with
    | Some _ => do u <- reauth_succeeded username; go_on tt
    | None => stop_status info "wrong-password" next 401
    end.

Definition start (v : MfaVisit.t) (info : SessionInfo.t) (current_password : string) (raw_next : option string) : HM MfaAnswer.t :=
  let next := safe_next raw_next (MfaSite.base_path site) in
  match SessionInfo.actor info with
  | None => render_status info "break-glass" next 403
  | Some username =>
    if negb (MasterKey.is_configured (MfaSite.master_key site)) then stop KeyMissing
    else
      do? u <- require_db no_db;
      do? u <- reauthenticate v info username current_password next;
      do? row <- ask_or (fetch_factor username) (Plain 500 "db error");
      if bool_decide (is_Some (row ≫= MfaRow.confirmed_at)) then render_status info "already-enrolled" next 409
      else
        do? enrollment <- or_stop (render_enrollment (MfaVisit.secret_base32 v) username) (Plain 500 "MFA setup error");
        do? sealed <- or_stop (MasterKey.encrypt (MfaVisit.gcm_nonce v) (Enrollment.secret_base32 enrollment) (MfaSite.master_key site)) KeyMissing;
        do begun <- ask (begin_enrollment (MfaVisit.now v) username sealed.1 sealed.2 (MfaVisit.ceremony v));
        match begun with
        | Err _ => render_status info "already-enrolled" next 409
        | Ok _ =>
          do u <- confirm_succeeded username;
          go_on (MfaAnswer.mk (SetupShown 200 (SessionInfo.role info) enrollment "" next) None [issue_ceremony_cookie v (MfaVisit.ceremony v)])
        end
  end.

(** The secret of a pending enrollment, for the browser that began it. *)
Definition pending_secret (v : MfaVisit.t) (username : string) : HM (MfaRow.t * string * Enrollment.t) :=
  do? found <- ask_or (fetch_factor username) (Plain 500 "db error");
  match found with
  | Some row =>
    if negb (Factor.pending row) then stop (Plain 409 "no pending MFA enrollment")
    else if negb (ceremony_matches (MfaVisit.ceremony_cookie v) row)
    then stop (Plain 409 "this browser did not start the pending enrollment — restart it")
    else
      do? secret <- or_stop (MasterKey.decrypt (MfaRow.secret_enc row) (MfaRow.secret_nonce row) (MfaSite.master_key site))
                      (Plain 503 "MFA secret cannot be decrypted with RUSCKER_MASTER_KEY");
      if negb (utf8_valid secret) then stop (Plain 500 "invalid MFA state")
      else
        do? enrollment <- or_stop (render_enrollment secret username) (Plain 500 "invalid MFA state");
        go_on (row, secret, enrollment)
  | None => stop (Plain 409 "no pending MFA enrollment")
  end.

(** The grant a confirmed enrollment comes with; whatever fails, the handler
    goes on. *)
Definition initial_grant (v : MfaVisit.t) (username : string) : St MfaDoor.t (list Jar.op) :=
  match MfaVisit.session_cookie v with
  | None => st_ret []
  | Some session_id =>
    do found <- ask (fetch_factor username);
    match (match found with Ok o => o | Err _ => None end) with
    | None => st_ret []
    | Some confirmed =>
      match MfaRow.confirmed_at confirmed, new_device_token v with
      | Some factor_confirmed_at, Ok (token, token_hash) =>
        let expires_at := MfaVisit.now v + from_secs (MAX_MFA_VALIDITY_DAYS * 86400) in
        do issued <- ask (issue dialect (MfaVisit.now v) (MfaVisit.grant_id v) username token_hash (session_binding session_id)
                            factor_confirmed_at (MfaVisit.now v) expires_at (MfaRow.security_epoch confirmed) None None "mfa.verify" username);
        st_ret (match issued with Ok (Ok id) => [issue_device_cookie v id token] | _ => [] end)
      | _, _ => st_ret []
      end
    end
  end.

Definition new_codes (v : MfaVisit.t) : HM (list string * list (string * string)) :=
  do? codes <- or_stop (generate_recovery_codes (MfaVisit.code_bytes v)) (Plain 500 "recovery-code error");
  do? hashes <- or_stop (hash_codes v 0 codes) (Plain 500 "recovery-code error");
  go_on (codes, hashes).

Definition confirm (v : MfaVisit.t) (info : SessionInfo.t) (code : string) (raw_next : option string) : HM MfaAnswer.t :=
  let next := safe_next raw_next (MfaSite.base_path site) in
  let role := SessionInfo.role info in
  match SessionInfo.actor info with
  | None => stop (Plain 403 "break-glass sessions cannot enroll MFA")
  | Some username =>
    if negb (MasterKey.is_configured (MfaSite.master_key site)) then stop KeyMissing
    else
      do? u <- require_db no_db;
      do? (row, secret, enrollment) <- pending_secret v username;
      do allowed <- reserve_confirm (MfaVisit.now v) username;
      if negb allowed then st_ret (Err (MfaAnswer.later (SetupShown 429 role enrollment "rate-limited" next)))
      else
        let wrong := SetupShown 401 role enrollment "wrong-code" next in
        do? accepted <- or_stop (verify_totp_step (MfaVisit.now v) secret username (trim code)) (Plain 500 "MFA verification error");
        match accepted with
        | None => stop wrong
        | Some step =>
          do? fresh <- ask_or (record_used_step username step) (Plain 500 "MFA verification error");
          if negb fresh then stop wrong
          else
            do? (codes, hashes) <- new_codes v;
            do? u <- ask_or (confirm_with_recovery_codes (MfaVisit.now v) username username (Some hashes) (MfaRow.ceremony row))
                       (Plain 409 "MFA enrollment was already confirmed");
            do u <- confirm_succeeded username;
            do granted <- initial_grant v username;
            go_on (MfaAnswer.mk (RecoveryShown role codes next username false) None (clear_ceremony_cookie :: granted))
        end
  end.

Definition regenerate_recovery (v : MfaVisit.t) (info : SessionInfo.t) (current_password : string) (raw_next : option string)
    (generation : option Z) : HM MfaAnswer.t :=
  let next := safe_next raw_next (MfaSite.base_path site) in
  match SessionInfo.actor info with
  | None => render_status info "break-glass" next 403
  | Some username =>
    do? u <- require_db no_db;
    do? u <- reauthenticate v info username current_password next;
    do? (codes, hashes) <- new_codes v;
    do? outcome <- ask_or (regenerate_recovery_codes (MfaVisit.now v) username username hashes (default 0 generation)) (Plain 500 "db error");
    match outcome with
    | Done => go_on (MfaAnswer.bare (RecoveryShown (SessionInfo.role info) codes next username true))
    | Stale => render_status info "stale" next 409
    | NotEnrolled => render_status info "not-enrolled" next 409
    end
  end.

(** To the status page, the destination kept. *)
Definition to_status (next : string) : MfaPage :=
  GoTo (with_next_query byte_serialize (MfaSite.base_path site +:+ "/admin/account/mfa") next).

Definition challenge (info : SessionInfo.t) (raw_next : option string) : HM MfaAnswer.t :=
  let next := safe_next raw_next (MfaSite.base_path site) in
  match SessionInfo.actor info with
  | None => stop (ChallengeShown 200 (SessionInfo.role info) true "" next)
  | Some username =>
    do? u <- require_db no_db;
    do? enrolled <- ask_or (is_enrolled username) (Plain 500 "db error");
    stop (if enrolled : bool then ChallengeShown 200 (SessionInfo.role info) false "" next else to_status next)
  end.

(** What a challenge proved: the audited action, a recovery code, or a step. *)
Definition proof_given (v : MfaVisit.t) (info : SessionInfo.t) (username : string) (row : MfaRow.t) (code kind next : string)
    : HM (string * option string * option Z) :=
  let wrong := ChallengeShown 401 (SessionInfo.role info) false "wrong-code" next in
  if str_eqb kind "totp" then
    if negb (MasterKey.is_configured (MfaSite.master_key site)) then stop KeyMissing
    else
      do? secret <- or_stop (MasterKey.decrypt (MfaRow.secret_enc row) (MfaRow.secret_nonce row) (MfaSite.master_key site)) KeyMissing;
      if negb (utf8_valid secret) then stop (Plain 500 "invalid MFA state")
      else
        do? step <- or_stop (verify_totp_step (MfaVisit.now v) secret username (trim code)) (Plain 500 "MFA verification error");
        match step with Some step => go_on ("mfa.verify", None, Some step) | None => stop wrong end
  else if str_eqb kind "recovery" then
    do? found <- ask_or (find_recovery_candidate username (trim code)) (Plain 500 "MFA verification error");
    match found with Some id => go_on ("mfa.recovery_used", Some id, None) | None => stop wrong end
  else stop wrong.

Definition challenge_submit (v : MfaVisit.t) (info : SessionInfo.t) (code kind : string) (raw_next : option string) : HM MfaAnswer.t :=
  let next := safe_next raw_next (MfaSite.base_path site) in
  let shown st error := ChallengeShown st (SessionInfo.role info) false error next in
  match SessionInfo.actor info with
  | None => stop (ChallengeShown 403 (SessionInfo.role info) true "" next)
  | Some username =>
    do? u <- require_db no_db;
    do? found <- ask_or (fetch_factor username) (Plain 500 "db error");
    match found with
    | None => stop (to_status next)
    | Some row =>
      match MfaRow.confirmed_at row with
      | None => stop (to_status next)
      | Some factor_confirmed_at =>
        do allowed <- reserve_challenge (MfaVisit.now v) username;
        if negb allowed then st_ret (Err (MfaAnswer.later (shown 429 "rate-limited")))
        else
          do? (audit_action, recovery_id, totp_step) <- proof_given v info username row code kind next;
          match MfaVisit.session_cookie v with
          | None => stop (Plain 401 "admin session cookie missing")
          | Some session_id =>
            do? (token, token_hash) <- or_stop (new_device_token v) (Plain 500 "MFA grant error");
            let expires_at := MfaVisit.now v + from_secs (MAX_MFA_VALIDITY_DAYS * 86400) in
            do? issued <- ask_or (issue dialect (MfaVisit.now v) (MfaVisit.grant_id v) username token_hash (session_binding session_id)
                                    factor_confirmed_at (MfaVisit.now v) expires_at (MfaRow.security_epoch row) recovery_id totp_step
                                    audit_action username) (Plain 500 "MFA grant error");
            match issued with
            | Err StaleEpoch => stop (Plain 409 "device trust was revoked during this verification — try again")
            | Err Replayed => stop (shown 401 "replayed")
            | Err RecoverySpent => stop (shown 401 "wrong-code")
            | Ok id =>
              do u <- challenge_succeeded username;
              let base := MfaSite.base_path site in
              go_on (MfaAnswer.mk (GoTo (if str_is_empty next then base +:+ "/admin/account/mfa" else base +:+ next)) None
                       [issue_device_cookie v id token])
            end
          end
      end
    end
  end.

Definition forget_device (v : MfaVisit.t) (info : SessionInfo.t) : HM MfaAnswer.t :=
  match SessionInfo.actor info with
  | None => stop (Plain 403 "break-glass session has no MFA device")
  | Some username =>
    do? u <- require_db (Plain 503 "no database");
    do? u <- match (value ← MfaVisit.device_cookie v; device_cookie_parts value) with
             | Some (id, _) => do? b <- ask_or (revoke_one (MfaVisit.now v) id username username) (Plain 500 "db error"); go_on tt
             | None => go_on tt
             end;
    go_on (MfaAnswer.mk (GoTo (MfaSite.base_path site +:+ "/admin/account/mfa")) None [clear_device_cookie])
  end.

Definition revoke_devices (v : MfaVisit.t) (info : SessionInfo.t) : HM MfaAnswer.t :=
  match SessionInfo.actor info with
  | None => stop (Plain 403 "break-glass session has no MFA devices")
  | Some username =>
    do? u <- require_db (Plain 503 "no database");
    do? n <- ask_or (revoke_all (MfaVisit.now v) username username "all-devices") (Plain 500 "db error");
    go_on (MfaAnswer.mk (GoTo (MfaSite.base_path site +:+ "/admin/account/mfa")) None [clear_device_cookie])
  end.

(** ** The routes *)

Inductive MfaRequest :=
  | MfaStatus (next : option string)
  | MfaStart (current_password : string) (next : option string)
  | MfaConfirm (code : string) (next : option string)
  | MfaChallenge (next : option string)
  | MfaChallengeSubmit (code kind : string) (next : option string)
  | MfaRegenerate (current_password : string) (next : option string) (generation : option Z)
  | MfaForget
  | MfaRevoke.

Definition handle (v : MfaVisit.t) (info : SessionInfo.t) (req : MfaRequest) : HM MfaAnswer.t :=
  match req with
  | MfaStatus next => status info next
  | MfaStart password next => start v info password next
  | MfaConfirm code next => confirm v info code next
  | MfaChallenge next => challenge info next
  | MfaChallengeSubmit code kind next => challenge_submit v info code kind next
  | MfaRegenerate password next generation => regenerate_recovery v info password next generation
  | MfaForget => forget_device v info
  | MfaRevoke => revoke_devices v info
  end.

(** Every route is behind [AdminSession]. *)
Definition mfa_routes (v : MfaVisit.t) (req : MfaRequest) : St MfaDoor.t MfaAnswer.t := fun d =>
  let '(r, s) := admin_session (MfaVisit.now v) (MfaSite.admin_auth site) (MfaVisit.session_cookie v) (MfaDoor.admin_sessions d) in
  let d := MfaDoor.set_admin_sessions s d in
  match r with Ok info => finish (handle v info req) d | Err why => (MfaAnswer.bare (MfaRejected why), d) end.
End MfaRoutes.
