(* ===== verification/MfaRoutesSafety.v ===== *)
(** * MfaRoutesSafety: what the pages of the second factor guarantee

    Over the handlers of MfaRoutes: a request touches the caller's own factor,
    codes and browsers only; a browser is trusted against a proof only; the
    secret of an enrollment is shown to the browser that began it only; and a
    correct code opens the protected apps. *)

From Stdlib Require Import Ascii String ZArith Lia.
From stdpp Require Import base tactics list gmap strings fin_maps numbers.
From S2P Require Import Prelude Text Schema RateLimit Sticky Headers Auth Gateway Database SpecStore Accounts Users MfaStore AccountRuntime Credentials SignIn MfaRoutes.

Local Open Scope string_scope.
Local Open Scope list_scope.
Local Open Scope Z_scope.
Local Open Scope ruscker_scope.

(** ** Steps seen through the tables *)

Definition mfa_tables (d : MfaDoor.t) : option AccountTables.t := ConfigDb.tables <$> MfaDoor.db d.

(** [R] holds across the tables, when a pool is attached. *)
Definition across (R : AccountTables.t -> AccountTables.t -> Prop) (d d' : MfaDoor.t) : Prop :=
  option_Forall2 R (mfa_tables d) (mfa_tables d').
#[global] Instance across_preorder R `{!PreOrder R} : PreOrder (across R).
Proof.
  split; unfold across; [intros d; destruct (mfa_tables d); by constructor|].
  intros d1 d2 d3 H12 H23. destruct H12 as [s1 s2 H12|]; inversion H23 as [x s3 H23' E1 E2|E1 E2]; constructor. subst. by etransitivity.
Qed.

Section Steps.
Context (R : AccountTables.t -> AccountTables.t -> Prop) `{!PreOrder R}.

Lemma ask_across {A} (m : AM (DbResult A)) : preserves (on_tables R) m -> preserves (across R) (ask m).
Proof.
  intros Hm d. unfold ask, across, mfa_tables. destruct (MfaDoor.db d) as [db|] eqn:Ed; [|cbn; rewrite Ed; constructor].
  specialize (Hm db). destruct (m db) as [r db']. cbn. by constructor.
Qed.
Lemma ask_or_across {A} (m : AM (DbResult A)) p : preserves (on_tables R) m -> preserves (across R) (ask_or m p).
Proof. intros Hm. apply preserves_map_err; [apply _|]. by apply ask_across. Qed.

Lemma same_db d d' : MfaDoor.db d' = MfaDoor.db d -> across R d d'.
Proof. intros E. unfold across, mfa_tables. rewrite E. destruct (ConfigDb.tables <$> MfaDoor.db d); by constructor. Qed.
Lemma require_db_across p : preserves (across R) (require_db p).
Proof. intros d. by apply same_db. Qed.
Lemma reserve_reauth_across now u : preserves (across R) (reserve_reauth now u).
Proof. intros d. unfold reserve_reauth. destruct (ConfirmRateLimiter.try_reserve now u (MfaDoor.reauth d)). by apply same_db. Qed.
Lemma reserve_confirm_across now u : preserves (across R) (reserve_confirm now u).
Proof. intros d. unfold reserve_confirm. destruct (ConfirmRateLimiter.try_reserve now u (MfaDoor.confirm d)). by apply same_db. Qed.
Lemma reserve_challenge_across now u : preserves (across R) (reserve_challenge now u).
Proof. intros d. unfold reserve_challenge. destruct (ConfirmRateLimiter.try_reserve now u (MfaDoor.challenge d)). by apply same_db. Qed.
Lemma succeeded_across u : preserves (across R) (reauth_succeeded u) /\ preserves (across R) (confirm_succeeded u) /\ preserves (across R) (challenge_succeeded u).
Proof. repeat split; intros d; by apply same_db. Qed.
Lemma stop_across {A} p : preserves (across R) (stop (A := A) p).
Proof. apply preserves_ret, _. Qed.
Lemma go_on_across {A} (a : A) : preserves (across R) (go_on a).
Proof. apply preserves_ret, _. Qed.
Lemma or_stop_across {A E} (r : Result A E) p : preserves (across R) (or_stop r p).
Proof. apply preserves_ret, _. Qed.
End Steps.
#[export] Hint Extern 1 (preserves (across _) (stop _)) => apply stop_across; apply _ : mfa.
#[export] Hint Extern 1 (preserves (across _) (go_on _)) => apply go_on_across; apply _ : mfa.
#[export] Hint Extern 1 (preserves (across _) (or_stop _ _)) => apply or_stop_across; apply _ : mfa.
#[export] Hint Extern 1 (preserves (across _) (require_db _)) => apply require_db_across; apply _ : mfa.
#[export] Hint Extern 1 (preserves (across _) (reserve_reauth _ _)) => apply reserve_reauth_across; apply _ : mfa.
#[export] Hint Extern 1 (preserves (across _) (reserve_confirm _ _)) => apply reserve_confirm_across; apply _ : mfa.
#[export] Hint Extern 1 (preserves (across _) (reserve_challenge _ _)) => apply reserve_challenge_across; apply _ : mfa.
#[export] Hint Extern 1 (preserves (across _) (reauth_succeeded _)) => apply succeeded_across; apply _ : mfa.
#[export] Hint Extern 1 (preserves (across _) (confirm_succeeded _)) => apply succeeded_across; apply _ : mfa.
#[export] Hint Extern 1 (preserves (across _) (challenge_succeeded _)) => apply succeeded_across; apply _ : mfa.
#[export] Hint Extern 2 (preserves (across _) (ask _)) => apply ask_across : mfa.
#[export] Hint Extern 2 (preserves (across _) (ask_or _ _)) => apply ask_or_across; [apply _|] : mfa.

(** Walks through a handler; leaves the writes. *)
Ltac mfa_auto := repeat (preserves_step || (progress eauto with mfa preserves)).

(** ** Own rows only *)

Record owned (u : string) (s s' : AccountTables.t) : Prop := {
  ow_users : AccountTables.users s' = AccountTables.users s;
  ow_factors v : v <> u -> AccountTables.user_mfa s' !! v = AccountTables.user_mfa s !! v;
  ow_recovery i r : RecoveryRow.username r <> u ->
    AccountTables.user_mfa_recovery s' !! i = Some r <-> AccountTables.user_mfa_recovery s !! i = Some r;
  ow_grants i g : GrantRow.username g <> u ->
    AccountTables.user_mfa_grants s' !! i = Some g <-> AccountTables.user_mfa_grants s !! i = Some g }.

#[global] Instance owned_preorder u : PreOrder (owned u).
Proof.
  split; [by intros s; split|]. intros s1 s2 s3 [U1 F1 R1 G1] [U2 F2 R2 G2]. split; [congruence|..].
  - intros v Hv. by rewrite F2, F1.
  - intros i r Hr. by rewrite R2, R1.
  - intros i g Hg. by rewrite G2, G1.
Qed.

Lemma owned_alter_factor u guard f s : owned u s (alter_factor u guard f s).2.
Proof.
  pose proof (alter_factor_others u guard f s) as (Hu & Hr & Hg). split; [done| |by rewrite Hr|by rewrite Hg].
  intros v Hv. destruct (alter_factor_inv u guard f s) as [->|(row & _ & _ & ->)]; [done|]. cbn. by rewrite lookup_insert_ne.
Qed.

Lemma owned_delete_grants u p s : (forall g, p g = true -> GrantRow.username g = u) -> owned u s (delete_grants p s).2.
Proof.
  intros Hp. split; try done. intros i g Hg. cbn. rewrite map_lookup_filter_Some. cbn. split; [by intros [? _]|]. intros Hi. split; [done|].
  destruct (p g) eqn:E; [|done]. by apply Hp in E.
Qed.

Lemma owned_put_grant u g s :
  GrantRow.username g = u -> (forall h, AccountTables.user_mfa_grants s !! GrantRow.id g = Some h -> GrantRow.username h = u) -> owned u s (put_grant g s).
Proof.
  intros Hu Hfree. split; try done. intros i h Hh. cbn. destruct (decide (i = GrantRow.id g)) as [->|Hne]; [|by rewrite lookup_insert_ne].
  rewrite lookup_insert_eq. split; [intros [= ->]; done|]. by intros Hl%Hfree.
Qed.

Lemma owned_upsert_factor u enc nonce ceremony now s n s' : upsert_factor u enc nonce ceremony now s = Some (n, s') -> owned u s s'.
Proof.
  intros [->|(_ & _ & ->)]%upsert_factor_inv; [apply owned_alter_factor|]. split; try done.
  intros v Hv. cbn. by rewrite lookup_insert_ne.
Qed.

Lemma owned_insert_recovery id u h now s x s' : insert_recovery id u h now s = Some (x, s') -> owned u s s'.
Proof.
  destruct x. intros (Hnone & _ & ->)%insert_recovery_inv. split; try done. intros i r Hr. cbn. destruct (decide (i = id)) as [->|Hne].
  - rewrite lookup_insert_eq, Hnone. split; [intros [= <-]; done|done].
  - by rewrite lookup_insert_ne.
Qed.

Lemma owned_delete_recovery u s : owned u s (delete_recovery u s).
Proof.
  split; try done. intros i r Hr. cbn. rewrite map_lookup_filter_Some. cbn. split; [by intros [? _]|]. intros Hi. split; [done|]. by apply str_eqb_neq.
Qed.

Lemma owned_use_recovery u id now s : owned u s (use_recovery id (fun r => str_eqb (RecoveryRow.username r) u) now s).2.
Proof.
  unfold use_recovery. destruct (AccountTables.user_mfa_recovery s !! id) as [r|] eqn:Er; [|done].
  destruct (str_eqb_spec (RecoveryRow.username r) u) as [Hu|]; cbn [andb]; [|done]. destruct (RecoveryRow.unused r); [|done].
  split; try done. intros i r' Hr'. cbn. destruct (decide (i = id)) as [->|Hne]; [|by rewrite lookup_insert_ne].
  rewrite lookup_insert_eq, Er. split; intros [= <-]; done.
Qed.

Lemma owned_upsert_grant g s n s' : upsert_grant g s = Some (n, s') -> owned (GrantRow.username g) s s'.
Proof.
  unfold upsert_grant. destruct (negb _); [by intros [= _ <-]|]. destruct (bool_decide _) eqn:Eb; [done|]. intros [= _ <-].
  apply bool_decide_eq_false in Eb. etransitivity.
  - apply (owned_delete_grants _ (same_browser (GrantRow.username g) (GrantRow.session_binding g))).
    unfold same_browser. intros h [Hh _]%andb_true_iff. by apply str_eqb_eq in Hh.
  - apply owned_put_grant; [done|]. intros h Hh. destruct Eb. by eexists.
Qed.

Lemma owned_audit u l s : owned u s (AccountTables.set_audit_log l s).
Proof. by split. Qed.

Section Owned.
Context `{UnicodeCase} `{JsonObject} `{Argon2} `{MfaCrates} (dialect : Dialect).

Lemma owned_bump u s : owned u s (bump_security_epoch u s).
Proof. apply owned_alter_factor. Qed.

Lemma audit_row_owned u c actor action target diff now : preserves (on_tables (owned u)) (audit_row c actor action target diff now).
Proof. apply preserves_execute; [apply _|]. intros s. apply owned_audit. Qed.

Lemma grant_of_true u g : grant_of u g = true -> GrantRow.username g = u.
Proof. unfold grant_of. by intros ?%str_eqb_eq. Qed.

#[local] Hint Resolve audit_row_owned : preserves.
#[local] Hint Extern 2 (preserves (on_tables (owned _)) (statement _ (alter_factor _ _ _))) =>
  apply preserves_statement; [apply _|intros ?; apply owned_alter_factor] : preserves.
#[local] Hint Extern 2 (preserves (on_tables (owned _)) (execute _ (delete_recovery _))) =>
  apply preserves_execute; [apply _|intros ?; apply owned_delete_recovery] : preserves.
#[local] Hint Extern 2 (preserves (on_tables (owned _)) (execute _ (bump_security_epoch _))) =>
  apply preserves_execute; [apply _|intros ?; apply owned_bump] : preserves.
#[local] Hint Extern 2 (preserves (on_tables (owned _)) (constrained _ (upsert_factor _ _ _ _ _))) =>
  apply preserves_constrained; [apply _|intros ? ? ?; apply owned_upsert_factor] : preserves.
#[local] Hint Extern 2 (preserves (on_tables (owned _)) (constrained _ (insert_recovery _ _ _ _))) =>
  apply preserves_constrained; [apply _|intros ? ? ?; apply owned_insert_recovery] : preserves.
#[local] Hint Extern 2 (preserves (on_tables (owned _)) (constrained _ (upsert_grant _))) =>
  apply preserves_constrained; [apply _|intros ? ? ?; apply owned_upsert_grant] : preserves.
#[local] Ltac drops_grants := apply preserves_statement; [apply _|]; intros ?; apply owned_delete_grants; intros ? Hg.
#[local] Hint Extern 2 (preserves (on_tables (owned _)) (statement _ (use_recovery _ _ _))) =>
  apply preserves_statement; [apply _|intros ?; apply owned_use_recovery] : preserves.

Lemma begin_enrollment_owned now u enc nonce ceremony :
  preserves (on_tables (owned (normalize_username u))) (begin_enrollment now u enc nonce ceremony).
Proof. unfold begin_enrollment. cbv zeta. tables_auto. Qed.

Lemma insert_codes_owned c u now hashes : preserves (on_tables (owned u)) (insert_codes c u now hashes).
Proof. induction hashes as [|[id h] hashes IH]; cbn [insert_codes]; tables_auto. Qed.
#[local] Hint Resolve insert_codes_owned : preserves.

Lemma replace_codes_owned c c' u now hashes : preserves (on_tables (owned u)) (replace_codes c c' u now hashes).
Proof. unfold replace_codes. tables_auto. Qed.
#[local] Hint Resolve replace_codes_owned : preserves.

Lemma confirm_owned now u actor hashes ceremony :
  preserves (on_tables (owned (normalize_username u))) (confirm_with_recovery_codes now u actor hashes ceremony).
Proof. unfold confirm_with_recovery_codes. cbv zeta. tables_auto. Qed.

Lemma regenerate_owned now u actor hashes generation :
  preserves (on_tables (owned (normalize_username u))) (regenerate_recovery_codes now u actor hashes generation).
Proof. unfold regenerate_recovery_codes. cbv zeta. tables_auto. Qed.

Lemma record_used_step_owned u step : preserves (on_tables (owned (normalize_username u))) (record_used_step u step).
Proof. unfold record_used_step, use_step. cbv zeta. tables_auto. Qed.

Lemma revoke_all_owned now u actor cause : preserves (on_tables (owned (normalize_username u))) (revoke_all now u actor cause).
Proof. unfold revoke_all. cbv zeta. tables_auto. drops_grants. by apply grant_of_true. Qed.

Lemma revoke_one_owned now id u actor : preserves (on_tables (owned (normalize_username u))) (revoke_one now id u actor).
Proof.
  unfold revoke_one. cbv zeta. tables_auto. drops_grants. apply andb_true_iff in Hg as [_ Hg]. by apply str_eqb_eq.
Qed.

Lemma lock_epoch_owned u e : preserves (on_tables (owned u)) (lock_epoch dialect u e).
Proof. unfold lock_epoch. destruct dialect; tables_auto. Qed.
#[local] Hint Resolve lock_epoch_owned : preserves.

Lemma issue_owned now id u th b fc v e ep rid k aa actor :
  preserves (on_tables (owned (normalize_username u))) (issue dialect now id u th b fc v e ep rid k aa actor).
Proof.
  unfold issue, issue_tx, use_step. cbv zeta. tables_auto.
  drops_grants. apply andb_true_iff in Hg as [Hg _]. by apply grant_of_true.
Qed.
End Owned.

#[export] Hint Resolve begin_enrollment_owned confirm_owned regenerate_owned record_used_step_owned revoke_all_owned revoke_one_owned
  issue_owned : mfa.

Lemma mfa_reads {A} R `{!PreOrder R} c (f : AccountTables.t -> A) : preserves (on_tables R) (query c f).
Proof. apply preserves_query, _. Qed.

Section Confined.
Context `{UnicodeCase} `{JsonObject} `{Argon2} `{TotpCrate} `{EnrollmentQr} `{MfaCrates} `{AesGcm} `{HttpCrate}.
Context (dialect : Dialect) (byte_serialize : string -> string) (site : MfaSite.t).

Lemma login_across R `{!PreOrder R} u pw : preserves (on_tables R) (verify_login u pw).
Proof. unfold verify_login. tables_auto; by repeat case_match. Qed.
Lemma find_candidate_across R `{!PreOrder R} u code : preserves (on_tables R) (find_recovery_candidate u code).
Proof. unfold find_recovery_candidate. tables_auto. Qed.
#[local] Hint Extern 1 (preserves (on_tables _) (verify_login _ _)) => apply login_across; apply _ : mfa.
#[local] Hint Extern 1 (preserves (on_tables _) (find_recovery_candidate _ _)) => apply find_candidate_across; apply _ : mfa.
#[local] Hint Extern 1 (preserves (on_tables _) (fetch_factor _)) => unfold fetch_factor; apply preserves_query; apply _ : mfa.
#[local] Hint Extern 1 (preserves (on_tables _) (recovery_code_counts _)) => unfold recovery_code_counts; apply preserves_query; apply _ : mfa.
#[local] Hint Extern 1 (preserves (on_tables _) (is_enrolled _)) => unfold is_enrolled; apply preserves_query; apply _ : mfa.

Lemma render_status_across R `{!PreOrder R} info error next st : preserves (across R) (render_status info error next st).
Proof. unfold render_status. cbv zeta. mfa_auto. Qed.
#[local] Hint Extern 1 (preserves (across _) (render_status _ _ _ _)) => apply render_status_across; apply _ : mfa.

Lemma reauthenticate_across R `{!PreOrder R} v info u pw next : preserves (across R) (reauthenticate v info u pw next).
Proof. unfold reauthenticate, stop_rate_limited, stop_status. mfa_auto. Qed.
#[local] Hint Extern 1 (preserves (across _) (reauthenticate _ _ _ _ _)) => apply reauthenticate_across; apply _ : mfa.

Lemma new_codes_across R `{!PreOrder R} v : preserves (across R) (new_codes v).
Proof. unfold new_codes. mfa_auto. Qed.
#[local] Hint Extern 1 (preserves (across _) (new_codes _)) => apply new_codes_across; apply _ : mfa.

Lemma pending_secret_across R `{!PreOrder R} v u : preserves (across R) (pending_secret site v u).
Proof. unfold pending_secret. mfa_auto. Qed.
#[local] Hint Extern 1 (preserves (across _) (pending_secret _ _ _)) => apply pending_secret_across; apply _ : mfa.

Lemma proof_given_across R `{!PreOrder R} v info u row code kind next : preserves (across R) (proof_given site v info u row code kind next).
Proof. unfold proof_given. cbv zeta. mfa_auto. Qed.
#[local] Hint Extern 1 (preserves (across _) (proof_given _ _ _ _ _ _ _ _)) => apply proof_given_across; apply _ : mfa.

Lemma initial_grant_owned v u : preserves (across (owned (normalize_username u))) (initial_grant dialect site v u).
Proof. unfold initial_grant. cbv zeta. mfa_auto. Qed.
#[local] Hint Resolve initial_grant_owned : mfa.

(** The user a session acts for. *)
Definition owner (info : SessionInfo.t) : option string := normalize_username <$> SessionInfo.actor info.

Lemma handle_owned v info req u :
  owner info = Some u -> preserves (across (owned u)) (handle dialect byte_serialize site v info req).
Proof.
  unfold owner. destruct info as [role [actor|]]; [|done]. intros [= <-].
  destruct req; cbn [handle]; unfold status, start, confirm, challenge, challenge_submit, regenerate_recovery, forget_device, revoke_devices;
    cbv zeta; cbn [SessionInfo.actor SessionInfo.role]; mfa_auto.
Qed.

Lemma handle_token v info req : owner info = None -> preserves (across eq) (handle dialect byte_serialize site v info req).
Proof.
  unfold owner. destruct info as [role [actor|]]; [done|]. intros _.
  destruct req; cbn [handle]; unfold status, start, confirm, challenge, challenge_submit, regenerate_recovery, forget_device, revoke_devices;
    cbv zeta; cbn [SessionInfo.actor SessionInfo.role]; mfa_auto.
Qed.
(** The session the request comes with, and its answer. *)
Definition mfa_caller (v : MfaVisit.t) (d : MfaDoor.t) : option SessionInfo.t :=
  ok (admin_session (MfaVisit.now v) (MfaSite.admin_auth site) (MfaVisit.session_cookie v) (MfaDoor.admin_sessions d)).1.
Definition answer_of (r : Result MfaAnswer.t MfaAnswer.t) : MfaAnswer.t := match r with Ok a | Err a => a end.

Lemma mfa_routes_inv v req d ans d' :
  mfa_routes dialect byte_serialize site v req d = (ans, d') ->
  exists d0, MfaDoor.db d0 = MfaDoor.db d /\ MfaDoor.challenge d0 = MfaDoor.challenge d
    /\ match mfa_caller v d with
       | Some info => exists r, handle dialect byte_serialize site v info req d0 = (r, d') /\ ans = answer_of r
       | None => d' = d0 /\ exists why, ans = MfaAnswer.bare (MfaRejected why)
       end.
Proof.
  unfold mfa_routes, mfa_caller. destruct (admin_session _ _ _ _) as [[info|why] s]; cbn.
  - intros (r & d1 & Hr & [= <- <-])%st_bind_inv. exists (MfaDoor.set_admin_sessions s d). split; [done|]. split; [done|]. exists r. by destruct r.
  - intros [= <- <-]. exists (MfaDoor.set_admin_sessions s d). eauto.
Qed.

(** A request to the pages of the second factor touches the caller's own
    rows only: no account changes, and the factors, recovery codes and trusted
    browsers of every other user are as they were, whatever the form carries and
    whichever statement fails; a break-glass session and a visitor without one
    change nothing at all. *)
Theorem mfa_requests_own_rows v req d ans d' s s' :
  mfa_routes dialect byte_serialize site v req d = (ans, d') -> mfa_tables d = Some s -> mfa_tables d' = Some s' ->
  match mfa_caller v d ≫= owner with Some u => owned u s s' | None => s' = s end.
Proof.
  intros (d0 & Hdb & _ & E)%mfa_routes_inv Hs Hs'. assert (mfa_tables d0 = Some s) as H0' by (unfold mfa_tables in *; by rewrite Hdb).
  destruct (mfa_caller v d) as [info|]; cbn; [|destruct E as [-> _]; congruence]. destruct E as (r & E & _).
  destruct (owner info) as [u|] eqn:Eo.
  - pose proof (run_of _ _ _ _ _ (handle_owned v info req u Eo) E) as Ha. unfold across in Ha. rewrite H0', Hs' in Ha. by inversion Ha.
  - pose proof (run_of _ _ _ _ _ (handle_token v info req Eo) E) as Ha. unfold across in Ha. rewrite H0', Hs' in Ha. by inversion Ha.
Qed.
End Confined.

(** ** Trust against a proof *)

(** What a query of the pool that answered did. *)
Lemma ask_Ok {A} (m : AM (DbResult A)) d a d' :
  ask m d = (Ok a, d') -> exists db db', MfaDoor.db d = Some db /\ m db = (Ok a, db') /\ d' = MfaDoor.set_db db' d.
Proof. unfold ask. destruct (MfaDoor.db d) as [db|]; [|done]. destruct (m db) as [r db'] eqn:E. intros [= -> <-]. eauto. Qed.

Lemma ask_or_Ok {A} (m : AM (DbResult A)) p d a d' :
  ask_or m p d = (Ok a, d') -> exists db db', MfaDoor.db d = Some db /\ m db = (Ok a, db') /\ d' = MfaDoor.set_db db' d.
Proof. intros (r & E & Hr)%st_map_err_inv. destruct r as [x|e]; [|done]. injection Hr as <-. by apply ask_Ok. Qed.

Lemma fetch_factor_Ok `{UnicodeCase} u db o db' :
  fetch_factor u db = (Ok o, db') -> ConfigDb.tables db' = ConfigDb.tables db /\ o = AccountTables.user_mfa (ConfigDb.tables db) !! normalize_username u.
Proof. intros [Ht [?|[= ->]]]%query_inv; done. Qed.

Lemma record_used_step_true `{UnicodeCase} u k db db' :
  record_used_step u k db = (Ok true, db') -> step_usable (normalize_username u) k (ConfigDb.tables db) = true.
Proof.
  unfold record_used_step. intros (n & db1 & [[? ?]|[[= ->] _]]%statement_inv & [Hn _]%lift_Ok)%try_bind_Ok; [done|].
  rewrite use_step_count in Hn. by destruct (step_usable _ _ _).
Qed.

Lemma matching_id_elem `{MfaCrates} code rows i : matching_id code rows = Some i -> exists h, (i, h) ∈ rows /\ verify_recovery_code code h = true.
Proof.
  unfold matching_id. destruct (List.find (fun row => verify_recovery_code code row.2) rows) as [[j h]|] eqn:E; cbn; [|done]. intros [= <-].
  apply find_some in E as [Hin Hv]. exists h. split; [by apply list_elem_of_In|done].
Qed.

Lemma find_candidate_Some `{UnicodeCase} `{MfaCrates} u code db i db' :
  find_recovery_candidate u code db = (Ok (Some i), db') ->
  exists h, (i, h) ∈ candidates (normalize_username u) (ConfigDb.tables db) /\ verify_recovery_code code h = true.
Proof.
  unfold find_recovery_candidate. intros (rows & db1 & [_ [?|[= ->]]]%query_inv & [Hl _]%lift_Ok)%try_bind_Ok; [done|].
  injection Hl as Hl. by apply matching_id_elem in Hl.
Qed.

(** No grant is added. *)
Definition no_new (s s' : AccountTables.t) : Prop :=
  forall i g, AccountTables.user_mfa_grants s' !! i = Some g -> AccountTables.user_mfa_grants s !! i = Some g.
#[global] Instance no_new_preorder : PreOrder no_new.
Proof. split; [by intros s i g|]. intros s1 s2 s3 H12 H23 i g Hg. by apply H12, H23. Qed.

Lemma no_new_same s s' : AccountTables.user_mfa_grants s' = AccountTables.user_mfa_grants s -> no_new s s'.
Proof. intros E i g. by rewrite E. Qed.
Lemma no_new_alter_factor u guard f s : no_new s (alter_factor u guard f s).2.
Proof. apply no_new_same. apply alter_factor_others. Qed.
Lemma no_new_delete_grants p s : no_new s (delete_grants p s).2.
Proof. intros i g. cbn. by intros [? _]%map_lookup_filter_Some. Qed.

Section NoNew.
Context `{UnicodeCase} `{JsonObject} `{Argon2} `{MfaCrates} (dialect : Dialect).

Lemma audit_row_no_new c actor action target diff now : preserves (on_tables no_new) (audit_row c actor action target diff now).
Proof. apply preserves_execute; [apply _|]. intros s. by apply no_new_same. Qed.
#[local] Hint Resolve audit_row_no_new : preserves.
#[local] Hint Extern 2 (preserves (on_tables no_new) (statement _ (alter_factor _ _ _))) =>
  apply preserves_statement; [apply _|intros ?; apply no_new_alter_factor] : preserves.
#[local] Hint Extern 2 (preserves (on_tables no_new) (statement _ (delete_grants _))) =>
  apply preserves_statement; [apply _|intros ?; apply no_new_delete_grants] : preserves.
#[local] Hint Extern 2 (preserves (on_tables no_new) (execute _ (delete_recovery _))) =>
  apply preserves_execute; [apply _|intros ?; by apply no_new_same] : preserves.
#[local] Hint Extern 2 (preserves (on_tables no_new) (execute _ (bump_security_epoch _))) =>
  apply preserves_execute; [apply _|intros ?; apply no_new_alter_factor] : preserves.

Lemma begin_enrollment_no_new now u enc nonce ceremony : preserves (on_tables no_new) (begin_enrollment now u enc nonce ceremony).
Proof.
  unfold begin_enrollment. cbv zeta. tables_auto. apply preserves_constrained; [apply _|].
  intros s n s' [->|(_ & _ & ->)]%upsert_factor_inv; [apply no_new_alter_factor|by apply no_new_same].
Qed.
Lemma insert_codes_no_new c u now hashes : preserves (on_tables no_new) (insert_codes c u now hashes).
Proof.
  induction hashes as [|[id h] hashes IH]; cbn [insert_codes]; tables_auto. apply preserves_constrained; [apply _|].
  intros s [] s' (_ & _ & ->)%insert_recovery_inv. by apply no_new_same.
Qed.
#[local] Hint Resolve insert_codes_no_new : preserves.
Lemma confirm_no_new now u actor hashes ceremony : preserves (on_tables no_new) (confirm_with_recovery_codes now u actor hashes ceremony).
Proof. unfold confirm_with_recovery_codes, replace_codes. cbv zeta. tables_auto. Qed.
Lemma regenerate_no_new now u actor hashes generation : preserves (on_tables no_new) (regenerate_recovery_codes now u actor hashes generation).
Proof. unfold regenerate_recovery_codes, replace_codes. cbv zeta. tables_auto. Qed.
Lemma record_used_step_no_new u step : preserves (on_tables no_new) (record_used_step u step).
Proof. unfold record_used_step, use_step. cbv zeta. tables_auto. Qed.
Lemma revoke_all_no_new now u actor cause : preserves (on_tables no_new) (revoke_all now u actor cause).
Proof. unfold revoke_all. cbv zeta. tables_auto. Qed.
Lemma revoke_one_no_new now id u actor : preserves (on_tables no_new) (revoke_one now id u actor).
Proof. unfold revoke_one. cbv zeta. tables_auto. Qed.
End NoNew.
#[export] Hint Resolve begin_enrollment_no_new confirm_no_new regenerate_no_new record_used_step_no_new revoke_all_no_new revoke_one_no_new : mfa.

(** The browser [i] is trusted by the row [g]. *)
Definition trusts (d : MfaDoor.t) (i : string) (g : GrantRow.t) : Prop :=
  mfa_tables d ≫= (fun s => AccountTables.user_mfa_grants s !! i) = Some g.

Lemma no_new_trusts d d' i g : across no_new d d' -> trusts d' i g -> trusts d i g.
Proof. unfold across, trusts. intros Ha. destruct Ha as [s s' Hs|]; cbn; [apply Hs|done]. Qed.
Lemma same_trusts d d' i g : across eq d d' -> trusts d' i g -> trusts d i g.
Proof. unfold across, trusts. intros Ha. destruct Ha as [s s' <-|]; done. Qed.
Lemma across_eq_tables d d' : across eq d d' -> mfa_tables d' = mfa_tables d.
Proof. unfold across. intros Ha. by destruct Ha as [s s' <-|]. Qed.

(** What the proof of an [issue] that adds a row was. *)
Definition paid (u : string) (rid : option string) (step : option Z) (s : AccountTables.t) : Prop :=
  match step with Some k => step_usable u k s = true | None => True end
  /\ match rid with Some i => recovery_usable u i s = true | None => True end.

Lemma put_grant_new g s i h :
  AccountTables.user_mfa_grants (put_grant g s) !! i = Some h -> h = g \/ AccountTables.user_mfa_grants s !! i = Some h.
Proof.
  cbn. destruct (decide (i = GrantRow.id g)) as [->|Hne]; [rewrite lookup_insert_eq; intros [= <-]; by left|].
  rewrite lookup_insert_ne by done. by right.
Qed.

Lemma issue_spec_new now g rid k audit s i h :
  let s' := (issue_spec now g rid k audit s).2 in
  AccountTables.user_mfa_grants s' !! i = Some h -> AccountTables.user_mfa_grants s !! i = Some h \/ (h = g /\ paid (GrantRow.username g) rid k s).
Proof.
  unfold issue_spec, paid. destruct (negb (epoch_stands _ _ _)); [by left|].
  destruct (match k with Some k => _ | None => true end) eqn:Ek; cbn [negb]; [|by left].
  destruct (match rid with Some i => _ | None => true end) eqn:Er; cbn [negb]; [|by left].
  set (s2 := put_grant g (delete_grants (same_browser (GrantRow.username g) (GrantRow.session_binding g)) (spend_step (GrantRow.username g) k s)).2).
  intros Hi. apply (no_new_delete_grants (fun h => grant_of (GrantRow.username g) h && (GrantRow.expires_at h <? now))
    (spend_recovery (GrantRow.username g) rid now s2)) in Hi.
  assert (AccountTables.user_mfa_grants (spend_recovery (GrantRow.username g) rid now s2) = AccountTables.user_mfa_grants s2) as Hs2.
  { destruct rid as [j|]; cbn [spend_recovery]; [|done]. unfold use_recovery. by repeat case_match. }
  rewrite Hs2 in Hi. subst s2. apply put_grant_new in Hi as [->|Hi].
  - right. split; [done|]. by destruct k, rid.
  - left. apply no_new_delete_grants in Hi. destruct k as [k|]; cbn [spend_step] in Hi; [|done].
    by apply no_new_alter_factor in Hi.
Qed.

Lemma ask_issue_new `{UnicodeCase} `{JsonObject} dialect now id u th b fc ver e ep rid k aa actor d r d' i g :
  ask (issue dialect now id u th b fc ver e ep rid k aa actor) d = (r, d') -> trusts d' i g ->
  trusts d i g \/ exists s, mfa_tables d = Some s /\ g = issued_grant id u th b fc ver e ep /\ paid (normalize_username u) rid k s.
Proof.
  unfold ask. destruct (MfaDoor.db d) as [db|] eqn:Ed; [|by intros [= _ <-] ?; left].
  destruct (issue _ _ _ _ _ _ _ _ _ _ _ _ _ _ db) as [r0 db'] eqn:E. intros [= _ <-]. unfold trusts, mfa_tables. rewrite Ed. cbn. intros Hi.
  apply issue_inv in E as [(err & _ & Ht)|[_ Ht]]; rewrite Ht in Hi; [by left|].
  apply issue_spec_new in Hi as [Hi|[-> Hp]]; [by left|]. right. by exists (ConfigDb.tables db).
Qed.

(** What proves the caller [u] to a request, against the tables [s]: a code of
    the confirmed factor whose step was not used, an unused recovery code, or a
    code of the pending factor from the browser that began it. *)
Section Trust.
Context `{UnicodeCase} `{JsonObject} `{Argon2} `{TotpCrate} `{EnrollmentQr} `{MfaCrates} `{AesGcm} `{HttpCrate}.
Context (dialect : Dialect) (byte_serialize : string -> string) (site : MfaSite.t).

Definition code_of_factor (v : MfaVisit.t) (username code : string) (row : MfaRow.t) (s : AccountTables.t) : Prop :=
  exists secret step,
    MasterKey.decrypt (MfaRow.secret_enc row) (MfaRow.secret_nonce row) (MfaSite.master_key site) = Ok secret
    /\ verify_totp_step (MfaVisit.now v) secret username (trim code) = Ok (Some step)
    /\ step_usable (normalize_username username) step s = true.

Inductive mfa_proof (v : MfaVisit.t) (username : string) (s : AccountTables.t) : MfaRequest -> Prop :=
  | ByCode code next row :
      AccountTables.user_mfa s !! normalize_username username = Some row -> is_Some (MfaRow.confirmed_at row) ->
      code_of_factor v username code row s -> mfa_proof v username s (MfaChallengeSubmit code "totp" next)
  | ByRecovery code next row id hash :
      AccountTables.user_mfa s !! normalize_username username = Some row -> is_Some (MfaRow.confirmed_at row) ->
      (id, hash) ∈ candidates (normalize_username username) s -> verify_recovery_code (trim code) hash = true ->
      recovery_usable (normalize_username username) id s = true -> mfa_proof v username s (MfaChallengeSubmit code "recovery" next)
  | ByEnrollment code next row :
      AccountTables.user_mfa s !! normalize_username username = Some row -> MfaRow.confirmed_at row = None ->
      MfaVisit.ceremony_cookie v = Some (MfaRow.ceremony row) ->
      code_of_factor v username code row s -> mfa_proof v username s (MfaConfirm code next).

#[local] Hint Extern 1 (preserves (on_tables _) (find_recovery_candidate _ _)) => apply find_candidate_across; apply _ : mfa.
#[local] Hint Extern 1 (preserves (on_tables _) (fetch_factor _)) => unfold fetch_factor; apply preserves_query; apply _ : mfa.

Lemma ceremony_matches_true cookie row : ceremony_matches cookie row = true -> cookie = Some (MfaRow.ceremony row).
Proof. destruct cookie as [c|]; cbn; [|done]. by intros ->%ct_eq_spec. Qed.

Lemma ask_fetch_Ok u p d o d' s :
  mfa_tables d = Some s -> ask_or (fetch_factor u) p d = (Ok o, d') -> o = AccountTables.user_mfa s !! normalize_username u /\ mfa_tables d' = Some s.
Proof.
  intros Hs (db & db' & Hd & E & ->)%ask_or_Ok. apply fetch_factor_Ok in E as [Ht ->]. unfold mfa_tables in *. rewrite Hd in Hs.
  injection Hs as <-. cbn. by rewrite Ht.
Qed.

Lemma or_stop_Ok {A E} (r : Result A E) p d a d' : or_stop r p d = (Ok a, d') -> r = Ok a /\ d' = d.
Proof. unfold or_stop. destruct r; intros [= <- <-]; done. Qed.
Lemma go_on_Ok {A} (x : A) d a d' : go_on x d = (Ok a, d') -> a = x /\ d' = d.
Proof. by intros [= <- <-]. Qed.

Lemma pending_secret_Ok v username d row secret enrollment d' s :
  mfa_tables d = Some s -> pending_secret site v username d = (Ok (row, secret, enrollment), d') ->
  mfa_tables d' = Some s /\ AccountTables.user_mfa s !! normalize_username username = Some row /\ MfaRow.confirmed_at row = None
  /\ MfaVisit.ceremony_cookie v = Some (MfaRow.ceremony row)
  /\ MasterKey.decrypt (MfaRow.secret_enc row) (MfaRow.secret_nonce row) (MfaSite.master_key site) = Ok secret.
Proof.
  unfold pending_secret. intros Hs (found & d1 & Hf & Hb)%try_bind_Ok. apply (ask_fetch_Ok _ _ _ _ _ _ Hs) in Hf as [-> Hs1].
  destruct (_ !! _) as [row'|]; [|done]. destruct (Factor.pending row') eqn:Hp; cbn [negb] in Hb; [|done].
  destruct (ceremony_matches _ row') eqn:Hc; cbn [negb] in Hb; [|done].
  apply try_bind_Ok in Hb as (sec & d2 & [Hd ->]%or_stop_Ok & Hb). destruct (negb (utf8_valid sec)); [done|].
  apply try_bind_Ok in Hb as (e & d3 & [_ ->]%or_stop_Ok & [[= -> -> ->] ->]%go_on_Ok).
  apply bool_decide_eq_true in Hp. apply ceremony_matches_true in Hc. done.
Qed.

Lemma proof_given_Ok v info username row code kind next d aa rid step d' s :
  mfa_tables d = Some s -> proof_given site v info username row code kind next d = (Ok (aa, rid, step), d') ->
  mfa_tables d' = Some s
  /\ ((kind = "totp" /\ rid = None /\ exists secret k,
        MasterKey.decrypt (MfaRow.secret_enc row) (MfaRow.secret_nonce row) (MfaSite.master_key site) = Ok secret
        /\ verify_totp_step (MfaVisit.now v) secret username (trim code) = Ok (Some k) /\ step = Some k)
      \/ (kind = "recovery" /\ step = None /\ exists id hash,
        (id, hash) ∈ candidates (normalize_username username) s /\ verify_recovery_code (trim code) hash = true /\ rid = Some id)).
Proof.
  unfold proof_given. cbv zeta. intros Hs E. destruct (str_eqb_spec kind "totp") as [->|_].
  - destruct (negb (MasterKey.is_configured _)); [done|]. apply try_bind_Ok in E as (sec & d1 & [Hd ->]%or_stop_Ok & E).
    destruct (negb (utf8_valid sec)); [done|]. apply try_bind_Ok in E as ([k|] & d2 & [Hv ->]%or_stop_Ok & E); [|done].
    apply go_on_Ok in E as [[= -> -> ->] ->]. split; [done|]. left. repeat split. by exists sec, k.
  - destruct (str_eqb_spec kind "recovery") as [->|_]; [|done].
    apply try_bind_Ok in E as ([id|] & d1 & E1 & E); [|done]. apply go_on_Ok in E as [[= -> -> ->] ->].
    apply ask_or_Ok in E1 as (db & db' & Hd & Ef & ->). unfold mfa_tables in *. rewrite Hd in Hs. injection Hs as <-.
    pose proof (run_of _ _ _ _ _ (find_candidate_across eq username (trim code)) Ef) as Ht. unfold on_tables in Ht. cbn. rewrite <- Ht. split; [done|].
    right. repeat split. apply find_candidate_Some in Ef as (h & Hin & Hv). by exists id, h.
Qed.

(** The row a proof is paid with: this caller, this session, this token. *)
Definition paid_with (v : MfaVisit.t) (username : string) (g : GrantRow.t) : Prop :=
  exists session_id token_hash confirmed_at epoch,
    MfaVisit.session_cookie v = Some session_id
    /\ g = issued_grant (MfaVisit.grant_id v) username token_hash (session_binding session_id) confirmed_at (MfaVisit.now v)
             (MfaVisit.now v + from_secs (MAX_MFA_VALIDITY_DAYS * 86400)) epoch.

#[local] Hint Extern 1 (preserves (across _) (proof_given _ _ _ _ _ _ _ _)) => apply proof_given_across; apply _ : mfa.
#[local] Hint Extern 1 (preserves (across _) (pending_secret _ _ _)) => apply pending_secret_across; apply _ : mfa.
#[local] Hint Extern 1 (preserves (across _) (new_codes _)) => apply new_codes_across; apply _ : mfa.
#[local] Hint Extern 1 (preserves (across _) (reauthenticate _ _ _ _ _)) => apply reauthenticate_across; apply _ : mfa.
#[local] Hint Extern 1 (preserves (across _) (render_status _ _ _ _)) => apply render_status_across; apply _ : mfa.
#[local] Hint Extern 1 (preserves (on_tables _) (is_enrolled _)) => unfold is_enrolled; apply preserves_query; apply _ : mfa.

(** A run adds the row [g] under [i] only if [X]. *)
Definition adds (i : string) (g : GrantRow.t) (X : Prop) (d d' : MfaDoor.t) : Prop := trusts d' i g -> trusts d i g \/ X.

Lemma adds_none i g X d d' : across no_new d d' -> adds i g X d d'.
Proof. intros Ha Hi. left. by eapply no_new_trusts. Qed.
Lemma adds_after i g X d d1 d' : across no_new d d1 -> adds i g X d1 d' -> adds i g X d d'.
Proof. intros Ha Hx [Hi|]%Hx; [left; by eapply no_new_trusts|by right]. Qed.

Lemma walk_try {A B} i g X (m : HM A) (k : A -> HM B) d r d' :
  preserves (across no_new) m -> try_bind m k d = (r, d') ->
  (forall a d1, m d = (Ok a, d1) -> k a d1 = (r, d') -> adds i g X d1 d') -> adds i g X d d'.
Proof.
  intros Hm [(a & d1 & E1 & E)|(e & E & ->)]%try_bind_inv Hk; [|eapply adds_none, run_of; done].
  eapply adds_after; [eapply run_of; done|by eapply Hk].
Qed.
Lemma walk_bind {A B} i g X (m : St MfaDoor.t A) (k : A -> St MfaDoor.t B) d r d' :
  preserves (across no_new) m -> st_bind m k d = (r, d') ->
  (forall a d1, m d = (a, d1) -> k a d1 = (r, d') -> adds i g X d1 d') -> adds i g X d d'.
Proof. intros Hm (a & d1 & E1 & E)%st_bind_inv Hk. eapply adds_after; [eapply run_of; done|by eapply Hk]. Qed.

Lemma ask_or_issue_new now id u th b fc ver e ep rid k aa actor p d r d' i g :
  ask_or (issue dialect now id u th b fc ver e ep rid k aa actor) p d = (r, d') ->
  adds i g (exists s, mfa_tables d = Some s /\ g = issued_grant id u th b fc ver e ep /\ paid (normalize_username u) rid k s) d d'.
Proof. intros (x & E & _)%st_map_err_inv. exact (ask_issue_new _ _ _ _ _ _ _ _ _ _ _ _ _ _ _ _ _ _ _ E). Qed.

(** The handler stops here, or this step adds nothing. *)
Ltac halts E := injection E as _ <-; apply adds_none; reflexivity.
Ltac quiet := cbv zeta; mfa_auto.
Ltac kept Hs E := rewrite <- Hs; eapply across_eq_tables; refine (run_of _ _ _ _ _ (_ : preserves (across eq) _) E); quiet.

(** The last steps of a challenge: the proof buys the row. *)
Lemma challenge_grant_new v username row fc rid step aa sid th d r d' s i g (k : Result string IssueRefusal -> HM MfaAnswer.t) :
  MfaVisit.session_cookie v = Some sid -> mfa_tables d = Some s -> (forall x, preserves (across no_new) (k x)) ->
  try_bind (ask_or (issue dialect (MfaVisit.now v) (MfaVisit.grant_id v) username th (session_binding sid) fc (MfaVisit.now v)
    (MfaVisit.now v + from_secs (MAX_MFA_VALIDITY_DAYS * 86400)) (MfaRow.security_epoch row) rid step aa username)
    (Plain 500 "MFA grant error")) k d = (r, d') ->
  adds i g (paid_with v username g /\ paid (normalize_username username) rid step s) d d'.
Proof.
  intros Hsid Hs Hk E Hi.
  assert (exists r1 d1, ask_or (issue dialect (MfaVisit.now v) (MfaVisit.grant_id v) username th (session_binding sid) fc (MfaVisit.now v)
    (MfaVisit.now v + from_secs (MAX_MFA_VALIDITY_DAYS * 86400)) (MfaRow.security_epoch row) rid step aa username)
    (Plain 500 "MFA grant error") d = (r1, d1) /\ trusts d1 i g) as (r1 & d1 & E1 & Hi1).
  { apply try_bind_inv in E as [(x & d1 & E1 & E)|(e & E & ->)]; eexists _, _; (split; [done|]); [|done].
    eapply no_new_trusts, Hi. exact (run_of _ _ _ _ _ (Hk x) E). }
  destruct (ask_or_issue_new _ _ _ _ _ _ _ _ _ _ _ _ _ _ _ _ _ i g E1 Hi1) as [?|(s' & Hs' & Hg & Hp)]; [by left|right].
  rewrite Hs in Hs'. injection Hs' as <-. split; [|done]. by exists sid, th, fc, (MfaRow.security_epoch row).
Qed.

Lemma challenge_submit_new v info code kind next d r d' s i g :
  mfa_tables d = Some s -> challenge_submit dialect byte_serialize site v info code kind next d = (r, d') ->
  adds i g (exists username, SessionInfo.actor info = Some username /\ paid_with v username g
              /\ mfa_proof v username s (MfaChallengeSubmit code kind next)) d d'.
Proof.
  unfold challenge_submit. cbv zeta. intros Hs E. destruct (SessionInfo.actor info) as [username|]; [|halts E].
  eapply walk_try; [|exact E|]; [quiet|]. clear E. intros u0 d0 E0 E. assert (mfa_tables d0 = Some s) as Hs0 by kept Hs E0.
  eapply walk_try; [|exact E|]; [quiet|]. clear E. intros found d1 E1 E. apply (ask_fetch_Ok _ _ _ _ _ _ Hs0) in E1 as [-> Hs1].
  destruct (AccountTables.user_mfa s !! normalize_username username) as [row|] eqn:Hrow; [|halts E].
  destruct (MfaRow.confirmed_at row) as [fc|] eqn:Hc; [|halts E].
  eapply walk_bind; [|exact E|]; [quiet|]. clear E. intros allowed d2 E2 E. assert (mfa_tables d2 = Some s) as Hs2 by kept Hs1 E2.
  cbv beta in E. destruct (negb allowed); [halts E|]. eapply walk_try; [|exact E|]; [quiet|]. clear E. intros [[aa rid] step] d3 E3 E.
  apply (proof_given_Ok _ _ _ _ _ _ _ _ _ _ _ _ _ Hs2) in E3 as [Hs3 Hproof].
  destruct (MfaVisit.session_cookie v) as [sid|] eqn:Hsid; [|halts E].
  eapply walk_try; [|exact E|]; [quiet|]. clear E. intros [token th] d4 [_ ->]%or_stop_Ok E.
  intros Hi. eapply (challenge_grant_new v username row fc rid step aa sid th d3 r d' s i g) in E;
    [|exact Hsid|exact Hs3|intros ?; quiet]. destruct (E Hi) as [?|[Hg [Hk Hr]]]; [by left|].
  right. exists username. split; [done|]. split; [done|].
  destruct Hproof as [(-> & _ & secret & k & Hd & Hv & ->)|(-> & _ & id & h & Hin & Hv & ->)].
  - eapply ByCode; [exact Hrow|by rewrite Hc|]. by exists secret, k.
  - eapply ByRecovery; [exact Hrow|by rewrite Hc|exact Hin|done|done].
Qed.

Lemma initial_grant_new v username d x d' i g :
  initial_grant dialect site v username d = (x, d') -> adds i g (paid_with v username g) d d'.
Proof.
  unfold initial_grant. cbv zeta. destruct (MfaVisit.session_cookie v) as [sid|] eqn:Hsid; [|by intros [= _ <-] ?; left].
  intros E. eapply walk_bind; [|exact E|]; [apply ask_across; quiet|]. clear E. intros found d1 _ E. cbv beta in E.
  destruct (match found with Ok o => o | Err _ => None end) as [row|]; [|halts E].
  destruct (MfaRow.confirmed_at row) as [fc|]; [|halts E]. destruct (new_device_token v) as [[token th]|]; [|halts E].
  apply st_bind_inv in E as (issued & d2 & E1 & E). injection E as _ <-. intros Hi.
  apply (ask_issue_new _ _ _ _ _ _ _ _ _ _ _ _ _ _ _ _ _ _ _ E1) in Hi as [Hi|(s & _ & -> & _)]; [by left|right].
  by exists sid, th, fc, (MfaRow.security_epoch row).
Qed.

Lemma confirm_new v info code next d r d' s i g :
  mfa_tables d = Some s -> confirm dialect site v info code next d = (r, d') ->
  adds i g (exists username, SessionInfo.actor info = Some username /\ paid_with v username g
              /\ mfa_proof v username s (MfaConfirm code next)) d d'.
Proof.
  unfold confirm. cbv zeta. intros Hs E. destruct (SessionInfo.actor info) as [username|]; [|halts E].
  destruct (negb (MasterKey.is_configured _)); [halts E|].
  eapply walk_try; [|exact E|]; [quiet|]. clear E. intros u0 d0 E0 E. assert (mfa_tables d0 = Some s) as Hs0 by kept Hs E0.
  eapply walk_try; [|exact E|]; [quiet|]. clear E. intros [[row secret] enrollment] d1 E1 E.
  apply (pending_secret_Ok _ _ _ _ _ _ _ _ Hs0) in E1 as (Hs1 & Hrow & Hp & Hc & Hd).
  eapply walk_bind; [|exact E|]; [quiet|]. clear E. intros allowed d2 E2 E. assert (mfa_tables d2 = Some s) as Hs2 by kept Hs1 E2.
  cbv beta in E. destruct (negb allowed); [halts E|].
  eapply walk_try; [|exact E|]; [quiet|]. clear E. intros [step|] d3 [Hv ->]%or_stop_Ok E; [|halts E].
  eapply walk_try; [|exact E|]; [quiet|]. clear E. intros fresh d4 (db & db' & Hdb & E4 & ->)%ask_or_Ok E. cbv beta in E.
  destruct fresh; cbn [negb] in E; [|halts E]. apply record_used_step_true in E4.
  assert (ConfigDb.tables db = s) as Hdbs by (unfold mfa_tables in Hs2; rewrite Hdb in Hs2; by injection Hs2).
  rewrite Hdbs in E4. clear Hdb.
  eapply walk_try; [|exact E|]; [quiet|]. clear E. intros [codes hashes] d5 _ E.
  eapply walk_try; [|exact E|]; [quiet|]. clear E. intros u6 d6 _ E.
  eapply walk_bind; [|exact E|]; [quiet|]. clear E. intros u7 d7 _ E.
  apply st_bind_inv in E as (granted & d8 & E8 & E). injection E as _ <-.
  intros Hi. destruct (initial_grant_new _ _ _ _ _ i g E8 Hi) as [?|Hg]; [by left|right].
  exists username. split; [done|]. split; [done|]. eapply ByEnrollment; [exact Hrow|exact Hp|exact Hc|]. by exists secret, step.
Qed.

Lemma other_requests_no_new v info req :
  (forall code kind next, req <> MfaChallengeSubmit code kind next) -> (forall code next, req <> MfaConfirm code next) ->
  preserves (across no_new) (handle dialect byte_serialize site v info req).
Proof.
  intros Hs Hc. destruct req; cbn [handle]; try (by destruct (Hc code next)); try (by destruct (Hs code kind next));
    unfold status, start, challenge, regenerate_recovery, forget_device, revoke_devices; quiet.
Qed.

(** C30. A browser becomes trusted against a proof only.  Whatever request is
    made to these pages, a row of trust that was not there before is the
    caller's own, bound to the session cookie the request came with, and stands
    until at most the longest validity from now; and the request carried a proof
    that holds against the tables it met: a code of the caller's confirmed
    factor for a step not used before, an unused recovery code of the caller's,
    or a code of the caller's pending factor from the browser that began the
    enrollment.  Starting, status pages, new recovery codes and revocations
    never trust a browser. *)
Theorem trust_needs_a_proof v req d ans d' s i g :
  mfa_routes dialect byte_serialize site v req d = (ans, d') -> mfa_tables d = Some s ->
  trusts d' i g -> ~ trusts d i g ->
  exists info username, mfa_caller site v d = Some info /\ SessionInfo.actor info = Some username
    /\ paid_with v username g /\ mfa_proof v username s req.
Proof.
  intros (d0 & Hdb & _ & E)%mfa_routes_inv Hs Hi Hold. assert (mfa_tables d0 = Some s) as Hs0 by (unfold mfa_tables in *; by rewrite Hdb).
  assert (~ trusts d0 i g) as Hold0 by (unfold trusts, mfa_tables in *; by rewrite Hdb).
  destruct (mfa_caller site v d) as [info|]; [|by destruct E as [-> _]]. destruct E as (r & E & _). exists info.
  assert (adds i g (exists username, SessionInfo.actor info = Some username /\ paid_with v username g /\ mfa_proof v username s req) d0 d') as Ha.
  { destruct req; first
      [ exact (confirm_new _ _ _ _ _ _ _ _ _ _ Hs0 E)
      | exact (challenge_submit_new _ _ _ _ _ _ _ _ _ _ _ Hs0 E)
      | apply adds_none; refine (run_of _ _ _ _ _ (other_requests_no_new v info _ _ _) E); done ]. }
  destruct (Ha Hi) as [?|(username & ? & ? & ?)]; [done|]. by exists username.
Qed.
End Trust.

(** ** A correct code opens the protected apps *)

Section Opens.
Context `{UnicodeCase} `{JsonObject} `{Argon2} `{TotpCrate} `{EnrollmentQr} `{MfaCratesLaws} `{AesGcm} `{HttpCrate}.
Context (dialect : Dialect) (byte_serialize : string -> string) (site : MfaSite.t).

Lemma issue_spec_step now g k audit s row :
  let u := GrantRow.username g in
  AccountTables.user_mfa s !! u = Some row -> MfaRow.security_epoch row = GrantRow.security_epoch g -> Factor.step_is_new k row = true ->
  now <= GrantRow.expires_at g ->
  let '(r, s') := issue_spec now g None (Some k) audit s in
  r = Ok (GrantRow.id g) /\ AccountTables.user_mfa_grants s' !! GrantRow.id g = Some g
  /\ AccountTables.user_mfa s' !! u = Some (Factor.set_last_used_step k row).
Proof.
  cbv zeta. intros Hrow He Hk Hexp. unfold issue_spec, epoch_stands, step_usable. rewrite Hrow, Hk, He, Z.eqb_refl. cbn [negb].
  split; [done|]. split.
  - cbn. rewrite map_lookup_filter_Some, lookup_insert_eq. split; [done|]. cbn. by rewrite (proj2 (Z.ltb_ge _ _) Hexp), andb_false_r.
  - cbn. unfold use_step, alter_factor. rewrite Hrow, Hk. cbn. by rewrite lookup_insert_eq.
Qed.

Lemma reads_satisfied later db username id sid token salt fc epoch verified expires row spec :
  let u := normalize_username username in
  let g := issued_grant id username (hash_device_token salt token) (session_binding sid) fc verified expires epoch in
  ConfigDb.faults db = [] -> AccountTables.user_mfa_grants (ConfigDb.tables db) !! id = Some g ->
  AccountTables.user_mfa (ConfigDb.tables db) !! u = Some row -> MfaRow.confirmed_at row = Some fc -> MfaRow.security_epoch row = epoch ->
  String.length salt = 16%nat -> device_cookie_parts (id +:+ "." +:+ token) = Some (id, token) -> later < expires ->
  grant_fresh later sid (Spec.effective_mfa_validity_days spec) g = true ->
  evaluate later (Some (reads later db)) username sid (Some (id +:+ "." +:+ token)) spec = MfaDecision.Satisfied.
Proof.
  intros u g Hf Hg Hrow Hc He Hsalt Hparts Hlater Hfresh. destruct db as [s faults]. cbn in *. subst faults.
  unfold evaluate. destruct (negb _); [done|]. cbn [mbind option_bind]. rewrite Hparts. unfold reads, fetch_valid, fetch_factor. cbn.
  rewrite Hg. cbn. rewrite (proj2 (Z.ltb_lt _ _) Hlater). cbn. fold u. rewrite Hrow, Hc. cbn.
  rewrite Hfresh. unfold grant_accepted. cbn. rewrite Auth.verify_hashed, str_eqb_refl, Hc, He, Z.eqb_refl by done.
  rewrite (proj2 (Z.leb_gt _ _)) by done. by rewrite bool_decide_true.
Qed.

(** A code of the caller's confirmed factor for a new step, a token drawn from
    the generator and a fresh id. *)
Record correct_code (v : MfaVisit.t) (username code : string) (s : AccountTables.t) (token : string) : Prop := {
  cc_configured : MasterKey.is_configured (MfaSite.master_key site) = true;
  cc_factor : exists row secret step confirmed_at,
    AccountTables.user_mfa s !! normalize_username username = Some row /\ MfaRow.confirmed_at row = Some confirmed_at
    /\ MasterKey.decrypt (MfaRow.secret_enc row) (MfaRow.secret_nonce row) (MfaSite.master_key site) = Ok secret
    /\ utf8_valid secret = true /\ verify_totp_step (MfaVisit.now v) secret username (trim code) = Ok (Some step)
    /\ Factor.step_is_new step row = true;
  cc_token : MfaVisit.device_token v = Some token;
  cc_salt : exists salt, MfaVisit.token_salt v = Some salt /\ String.length salt = 16%nat;
  cc_cookie : device_cookie_parts (MfaVisit.grant_id v +:+ "." +:+ token) = Some (MfaVisit.grant_id v, token);
  cc_fresh : AccountTables.user_mfa_grants s !! MfaVisit.grant_id v = None }.

Lemma ask_or_run {A} (m : AM (DbResult A)) p d db a db' :
  MfaDoor.db d = Some db -> m db = (Ok a, db') -> ask_or m p d = (Ok a, MfaDoor.set_db db' d).
Proof. intros Hd Hm. unfold ask_or, st_map_err, ask, st_bind. by rewrite Hd, Hm. Qed.

Lemma step_run {A B} (m : HM A) (k : A -> HM B) d a d' : m d = (Ok a, d') -> try_bind m k d = k a d'.
Proof. unfold try_bind, st_bind. by intros ->. Qed.

Lemma proof_given_totp v info username row code next d secret step :
  MasterKey.is_configured (MfaSite.master_key site) = true ->
  MasterKey.decrypt (MfaRow.secret_enc row) (MfaRow.secret_nonce row) (MfaSite.master_key site) = Ok secret ->
  utf8_valid secret = true -> verify_totp_step (MfaVisit.now v) secret username (trim code) = Ok (Some step) ->
  proof_given site v info username row code "totp" next d = (Ok ("mfa.verify", None, Some step), d).
Proof.
  intros Hk Hd Hu Hv. unfold proof_given. cbv zeta. rewrite str_eqb_refl, Hk. cbn [negb]. unfold try_bind, st_bind, or_stop. rewrite Hd. cbn.
  rewrite Hu. cbn. rewrite Hv. done.
Qed.

(** C31. A correct code opens the protected apps.  On a database that
    answers, a caller whose attempts are within the limit and who sends a code
    of the confirmed factor for a step not used before is sent on, with a
    cookie naming the new row and its token; and from then on the proof an app
    asks for is satisfied for the same session with that cookie, until the
    app's own validity (or the longest one) is over. *)
Theorem correct_code_opens_apps v info username code next d s token sid later spec :
  SessionInfo.actor info = Some username -> MfaDoor.db d = Some (ConfigDb.mk s []) ->
  (reserve_challenge (MfaVisit.now v) username d).1 = true -> MfaVisit.session_cookie v = Some sid ->
  correct_code v username code s token ->
  MfaVisit.now v <= later < MfaVisit.now v + from_secs (MAX_MFA_VALIDITY_DAYS * 86400) ->
  Spec.effective_mfa_validity_days spec = 0 \/ later - MfaVisit.now v <= from_secs (Spec.effective_mfa_validity_days spec * 86400) ->
  let '(r, d') := challenge_submit dialect byte_serialize site v info code "totp" next d in
  (exists target, r = Ok (MfaAnswer.mk (GoTo target) None [issue_device_cookie site v (MfaVisit.grant_id v) token]))
  /\ exists db', MfaDoor.db d' = Some db'
     /\ evaluate later (Some (reads later db')) username sid (Some (MfaVisit.grant_id v +:+ "." +:+ token)) spec = MfaDecision.Satisfied.
Proof.
  intros Hactor Hdb Hallowed Hsid Hcc Hlater Hage.
  destruct Hcc as [Hkey (row & secret & step & fc & Hrow & Hc & Hd & Hu & Hv & Hnew) Htok (salt & Hsalt & Hlen) Hparts Hfresh].
  unfold challenge_submit. cbv zeta. rewrite Hactor.
  rewrite (step_run _ _ d tt d) by (unfold require_db; by rewrite Hdb).
  rewrite (step_run _ _ d (AccountTables.user_mfa s !! normalize_username username) (MfaDoor.set_db (ConfigDb.mk s []) d))
    by (by eapply ask_or_run; [exact Hdb|]).
  rewrite Hrow, Hc. unfold st_bind at 1. set (d1 := MfaDoor.set_db (ConfigDb.mk s []) d).
  assert (exists d2, reserve_challenge (MfaVisit.now v) username d1 = (true, d2) /\ MfaDoor.db d2 = Some (ConfigDb.mk s [])) as (d2 & -> & Hdb2).
  { unfold reserve_challenge in *. change (MfaDoor.challenge d1) with (MfaDoor.challenge d).
    destruct (ConfirmRateLimiter.try_reserve _ _ _) as [b l]. cbn in Hallowed. subst b. by eexists. }
  cbn [negb]. rewrite (step_run _ _ _ _ _ (proof_given_totp v info username row code _ d2 secret step Hkey Hd Hu Hv)).
  rewrite Hsid. rewrite (step_run _ _ d2 (token, hash_device_token salt token) d2) by (unfold new_device_token; by rewrite Htok, Hsalt).
  pose proof (issue_healthy dialect (MfaVisit.now v) (MfaVisit.grant_id v) username (hash_device_token salt token) (session_binding sid) fc
    (MfaVisit.now v) (MfaVisit.now v + from_secs (MAX_MFA_VALIDITY_DAYS * 86400)) (MfaRow.security_epoch row) None (Some step) "mfa.verify" username s Hfresh) as Hi.
  set (g := issued_grant _ _ _ _ _ _ _ _) in *. pose proof (issue_spec_step (MfaVisit.now v) g step
    (issue_audit (MfaVisit.now v) username "mfa.verify" username) s row Hrow eq_refl Hnew ltac:(cbn; lia)) as Hspec.
  destruct (issue_spec _ _ _ _ _ _) as [r' s'] in *. destruct Hspec as (-> & Hg & Hf). cbv zeta in Hi. cbn [fst snd] in Hi.
  rewrite (step_run _ _ _ _ _ (ask_or_run _ _ _ _ _ _ Hdb2 Hi)). cbn. split; [by eexists|]. eexists. split; [done|].
  eapply reads_satisfied; [done|exact Hg|exact Hf|exact Hc|done|done|done|lia|].
  unfold grant_fresh. destruct (Z.eqb_spec (Spec.effective_mfa_validity_days spec) 0); [apply str_eqb_refl|].
  destruct Hage as [?|Hage]; [done|]. cbn. apply negb_true_iff, orb_false_iff. lia.
Qed.
End Opens.

(** ** Examples *)

Module MfaRoutesExamples.
Import AccountExamples UserExamples.
#[local] Existing Instance http_example.
#[local] Existing Instance AuthExamples.example_crates.
#[local] Existing Instance AuthExamples.example_crates_laws.

(** A code that follows the time step, a picture, a cipher that prepends. *)
#[local] Instance stepping : TotpCrate :=
  { totp _ _ := Some (fun t => "12345" +:+ String (ascii_of_N (Z.to_N (48 + (t / 30) mod 10))) "") }.
#[local] Instance picture : EnrollmentQr := { qr_svg_of secret user := Some ("<svg/>") }.
#[local] Instance prepending : AesGcm :=
  { gcm_encrypt _ nonce text := Some (nonce +:+ text); gcm_decrypt _ nonce text := strip_prefix nonce text }.

Definition site : MfaSite.t :=
  MfaSite.mk "/box" (Server.mk false None false None None None None None) (AdminAuth.mk (Some "token")) (MasterKey.mk (Some "key")).

Definition factor : MfaRow.t := MfaRow.mk "ana" "twelve-bytesSECRET" "twelve-bytes" "ceremony" (Some 5) 1 5 (Some 0) 7.
Definition tables : AccountTables.t :=
  AccountTables.mk (<["ana" := account "ana" "editor" "lab"]> (<["bo" := account "bo" "viewer" "lab"]> ∅))
    (<["ana" := factor]> ∅) (<["c1" := RecoveryRow.mk "c1" "bo" "hash" None 5]> ∅) ∅ [].
Definition door : MfaDoor.t :=
  MfaDoor.mk (Some (ConfigDb.mk tables []))
    (AdminSessions.create 0 "c-ana" Role.Editor (Some "ana") AdminSessions.default_policy)
    ConfirmRateLimiter.REAUTH_LIMITER ConfirmRateLimiter.CONFIRM_LIMITER ConfirmRateLimiter.CHALLENGE_LIMITER.

(** Ninety seconds after the epoch: step three. *)
Definition visit : MfaVisit.t :=
  MfaVisit.mk (Some "c-ana") None None ∅ (from_secs 90) "SECRET" "twelve-bytes" "cer2" None (fun _ => None) (fun _ => "")
    (Some AuthExamples.token) (Some "sixteen-byte-slt") "g1".
Definition right_code : MfaRequest := MfaChallengeSubmit " 123453" "totp" (Some "/box/app/a").
Definition go (req : MfaRequest) (d : MfaDoor.t) : MfaAnswer.t * MfaDoor.t := mfa_routes Sqlite (fun s => s) site visit req d.

Example second_factor_pages :
  let after := (go right_code door).2 in
  (MfaAnswer.page (go right_code door).1, MfaAnswer.page (go right_code after).1, MfaAnswer.page (go (MfaChallengeSubmit "123459" "totp" None) door).1)
  = (GoTo "/box/app/a", ChallengeShown 401 Role.Editor false "replayed" "/app/a", ChallengeShown 401 Role.Editor false "wrong-code" "").
Proof. vm_compute. reflexivity. Qed.

Lemma mfa_requests_own_rows_witness :
  let r := go right_code door in
  AccountTables.user_mfa <$> mfa_tables r.2 <> AccountTables.user_mfa <$> mfa_tables door
  /\ exists s', mfa_tables r.2 = Some s' /\ owned "ana" tables s'.
Proof.
  cbv zeta. split; [vm_compute; discriminate|]. set (s' := default AccountTables.empty (mfa_tables (go right_code door).2)).
  assert (mfa_tables (go right_code door).2 = Some s') as Hs' by (vm_compute; reflexivity).
  exists s'. split; [exact Hs'|].
  exact (mfa_requests_own_rows Sqlite (fun s => s) site visit right_code door _ _ tables s' (surjective_pairing _) eq_refl Hs').
Defined.

Definition issued : GrantRow.t :=
  issued_grant "g1" "ana" (hash_device_token "sixteen-byte-slt" AuthExamples.token) (session_binding "c-ana") 5 (from_secs 90)
    (from_secs 90 + from_secs (MAX_MFA_VALIDITY_DAYS * 86400)) 7.

Lemma trust_needs_a_proof_witness :
  trusts (go right_code door).2 "g1" issued
  /\ exists info username, mfa_caller site visit door = Some info /\ SessionInfo.actor info = Some username
       /\ paid_with visit username issued /\ mfa_proof site visit username tables right_code.
Proof.
  assert (trusts (go right_code door).2 "g1" issued) as Ht by (vm_compute; reflexivity). split; [exact Ht|].
  apply (trust_needs_a_proof Sqlite (fun s => s) site visit right_code door _ _ tables "g1" issued (surjective_pairing _) eq_refl Ht).
  vm_compute. discriminate.
Defined.

(** Ana's code lets her into an app that asks for a proof of this session. *)
Lemma correct_code_opens_apps_witness :
  let d' := (challenge_submit Sqlite (fun s => s) site visit (SessionInfo.mk Role.Editor (Some "Ana")) "123453" "totp" None door).2 in
  exists db', MfaDoor.db d' = Some db'
    /\ evaluate (from_secs 120) (Some (reads (from_secs 120) db')) "Ana" "c-ana" (Some ("g1." +:+ AuthExamples.token)) AuthExamples.protected
       = MfaDecision.Satisfied.
Proof.
  assert (correct_code site visit "Ana" "123453" tables AuthExamples.token) as Hcc.
  { split; try (vm_compute; reflexivity).
    - exists factor, "SECRET", 3, 5. repeat split; vm_compute; reflexivity.
    - by exists "sixteen-byte-slt". }
  pose proof (correct_code_opens_apps Sqlite (fun s => s) site visit (SessionInfo.mk Role.Editor (Some "Ana")) "Ana" "123453" None door
    tables AuthExamples.token "c-ana" (from_secs 120) AuthExamples.protected eq_refl eq_refl eq_refl eq_refl Hcc) as Hopens.
  cbv zeta. destruct (challenge_submit _ _ _ _ _ _ _ _ _) as [r d'].
  apply Hopens; [vm_compute; split; congruence|right; vm_compute; congruence].
Defined.
End MfaRoutesExamples.
