(* ===== verification/SpecForm.v ===== *)
(** * SpecForm: the app editor's form (routes/admin/spec_form.rs)

    The text fields of the form, how an app fills them, how they are checked,
    and the app they make on top of the one that was edited.  Parameter: today's
    date as chrono prints it. *)

From Stdlib Require Import Ascii String ZArith Lia SpecFloat OrderedTypeEx Sorted.
From stdpp Require Import base tactics list gmap strings fin_maps numbers pretty.
From S2P Require Import Prelude Text Schema Spawn Auth Validate SpecStore.

Local Open Scope string_scope.
Local Open Scope list_scope.
Local Open Scope Z_scope.
Local Open Scope ruscker_scope.

(** ** Display types (view_model.rs) *)

Module DisplayType.
Inductive t := App | Talk | Report | Package | Api | Link.
#[global] Instance eq_dec : EqDecision t.
Proof. solve_decision. Defined.

Definition parse (s : string) : option t :=
  if str_eqb s "app" then Some App else if str_eqb s "talk" then Some Talk
  else if str_eqb s "report" then Some Report else if str_eqb s "package" then Some Package
  else if str_eqb s "api" then Some Api else if str_eqb s "link" then Some Link
  else None.

Definition key (d : t) : string :=
  match d with App => "app" | Talk => "talk" | Report => "report" | Package => "package" | Api => "api" | Link => "link" end.

Definition from_spec (spec : Spec.t) : t :=
  match TemplateProperties.type_field (Spec.template_properties spec) ≫= parse with
  | Some dt => dt
  | None => match Spec.kind spec with
            | SpecKind.Api => Api
            | SpecKind.External => Link
            | SpecKind.Shiny | SpecKind.InteractiveApp => App
            end
  end.
End DisplayType.

(** ** The form *)

Module SpecForm.
(** Every field is the text of its input; a checkbox is [on] or empty. *)
Record t := mk {
  id : string; base_version : string; display_name : string; description : string; display_type : string; container_image : string; state : string;
  subject : string; featured : string; logo : string; cover : string; accent : string; monogram : string; updated : string; link : string;
  seats_per_container : string; max_lifetime : string; heartbeat_timeout : string; container_wait_time : string; container_cpu_limit : string;
  container_memory_limit : string; min_replicas : string; max_replicas : string; concurrent_requests_per_replica : string; volumes : string; api_port
  : string; api_docs_path : string; api_health_path : string; api_rate_limit : string; api_cors : string; inject_base_href : string; container_port :
  string; platform : string; container_network : string; container_lifetime : string; stop_on_logout : string; container_env : string; container_cmd :
  string; docker_registry_domain : string; docker_registry_username : string; docker_registry_password : string; docker_registry_credential : string;
  access_groups : string; access_users : string; require_mfa : string; mfa_validity_days : string; add_default_http_headers : string;
  identity_claim_email : string; identity_claim_setor : string; container_cpu_request : string; container_memory_request : string; max_body_size :
  string; scale_up_threshold : string; scale_down_threshold : string; scale_down_grace : string; scale_down_cooldown_secs : string; drain_timeout :
  string; routing_strategy : string; placement : string; anti_affinity : string }.

(** [SpecForm::default()]. *)
Definition default_form : t :=
  mk "" "" "" "" "" "" "" "" "" "" "" "" "" "" "" "" "" "" "" "" "" "" "" "" "" "" "" "" "" "" "" "" "" "" "" "" "" "" "" "" "" "" "" "" "" "" "" "" "" ""
 "" "" "" "" "" "" "" "" "" "".

Definition set_id (x : string) (f : t) : t :=
  mk x (base_version f) (display_name f) (description f) (display_type f) (container_image f) (state f) (subject f) (featured f) (logo f) (cover f)
  (accent f) (monogram f) (updated f) (link f) (seats_per_container f) (max_lifetime f) (heartbeat_timeout f) (container_wait_time f)
  (container_cpu_limit f) (container_memory_limit f) (min_replicas f) (max_replicas f) (concurrent_requests_per_replica f) (volumes f) (api_port f)
  (api_docs_path f) (api_health_path f) (api_rate_limit f) (api_cors f) (inject_base_href f) (container_port f) (platform f) (container_network f)
  (container_lifetime f) (stop_on_logout f) (container_env f) (container_cmd f) (docker_registry_domain f) (docker_registry_username f)
  (docker_registry_password f) (docker_registry_credential f) (access_groups f) (access_users f) (require_mfa f) (mfa_validity_days f)
  (add_default_http_headers f) (identity_claim_email f) (identity_claim_setor f) (container_cpu_request f) (container_memory_request f) (max_body_size
  f) (scale_up_threshold f) (scale_down_threshold f) (scale_down_grace f) (scale_down_cooldown_secs f) (drain_timeout f) (routing_strategy f)
  (placement f) (anti_affinity f).
Definition set_base_version (x : string) (f : t) : t :=
  mk (id f) x (display_name f) (description f) (display_type f) (container_image f) (state f) (subject f) (featured f) (logo f) (cover f) (accent f)
  (monogram f) (updated f) (link f) (seats_per_container f) (max_lifetime f) (heartbeat_timeout f) (container_wait_time f) (container_cpu_limit f)
  (container_memory_limit f) (min_replicas f) (max_replicas f) (concurrent_requests_per_replica f) (volumes f) (api_port f) (api_docs_path f)
  (api_health_path f) (api_rate_limit f) (api_cors f) (inject_base_href f) (container_port f) (platform f) (container_network f) (container_lifetime
  f) (stop_on_logout f) (container_env f) (container_cmd f) (docker_registry_domain f) (docker_registry_username f) (docker_registry_password f)
  (docker_registry_credential f) (access_groups f) (access_users f) (require_mfa f) (mfa_validity_days f) (add_default_http_headers f)
  (identity_claim_email f) (identity_claim_setor f) (container_cpu_request f) (container_memory_request f) (max_body_size f) (scale_up_threshold f)
  (scale_down_threshold f) (scale_down_grace f) (scale_down_cooldown_secs f) (drain_timeout f) (routing_strategy f) (placement f) (anti_affinity f).
Definition set_display_type (x : string) (f : t) : t :=
  mk (id f) (base_version f) (display_name f) (description f) x (container_image f) (state f) (subject f) (featured f) (logo f) (cover f) (accent f)
  (monogram f) (updated f) (link f) (seats_per_container f) (max_lifetime f) (heartbeat_timeout f) (container_wait_time f) (container_cpu_limit f)
  (container_memory_limit f) (min_replicas f) (max_replicas f) (concurrent_requests_per_replica f) (volumes f) (api_port f) (api_docs_path f)
  (api_health_path f) (api_rate_limit f) (api_cors f) (inject_base_href f) (container_port f) (platform f) (container_network f) (container_lifetime
  f) (stop_on_logout f) (container_env f) (container_cmd f) (docker_registry_domain f) (docker_registry_username f) (docker_registry_password f)
  (docker_registry_credential f) (access_groups f) (access_users f) (require_mfa f) (mfa_validity_days f) (add_default_http_headers f)
  (identity_claim_email f) (identity_claim_setor f) (container_cpu_request f) (container_memory_request f) (max_body_size f) (scale_up_threshold f)
  (scale_down_threshold f) (scale_down_grace f) (scale_down_cooldown_secs f) (drain_timeout f) (routing_strategy f) (placement f) (anti_affinity f).
Definition set_state (x : string) (f : t) : t :=
  mk (id f) (base_version f) (display_name f) (description f) (display_type f) (container_image f) x (subject f) (featured f) (logo f) (cover f)
  (accent f) (monogram f) (updated f) (link f) (seats_per_container f) (max_lifetime f) (heartbeat_timeout f) (container_wait_time f)
  (container_cpu_limit f) (container_memory_limit f) (min_replicas f) (max_replicas f) (concurrent_requests_per_replica f) (volumes f) (api_port f)
  (api_docs_path f) (api_health_path f) (api_rate_limit f) (api_cors f) (inject_base_href f) (container_port f) (platform f) (container_network f)
  (container_lifetime f) (stop_on_logout f) (container_env f) (container_cmd f) (docker_registry_domain f) (docker_registry_username f)
  (docker_registry_password f) (docker_registry_credential f) (access_groups f) (access_users f) (require_mfa f) (mfa_validity_days f)
  (add_default_http_headers f) (identity_claim_email f) (identity_claim_setor f) (container_cpu_request f) (container_memory_request f) (max_body_size
  f) (scale_up_threshold f) (scale_down_threshold f) (scale_down_grace f) (scale_down_cooldown_secs f) (drain_timeout f) (routing_strategy f)
  (placement f) (anti_affinity f).
Definition set_access_groups (x : string) (f : t) : t :=
  mk (id f) (base_version f) (display_name f) (description f) (display_type f) (container_image f) (state f) (subject f) (featured f) (logo f) (cover
  f) (accent f) (monogram f) (updated f) (link f) (seats_per_container f) (max_lifetime f) (heartbeat_timeout f) (container_wait_time f)
  (container_cpu_limit f) (container_memory_limit f) (min_replicas f) (max_replicas f) (concurrent_requests_per_replica f) (volumes f) (api_port f)
  (api_docs_path f) (api_health_path f) (api_rate_limit f) (api_cors f) (inject_base_href f) (container_port f) (platform f) (container_network f)
  (container_lifetime f) (stop_on_logout f) (container_env f) (container_cmd f) (docker_registry_domain f) (docker_registry_username f)
  (docker_registry_password f) (docker_registry_credential f) x (access_users f) (require_mfa f) (mfa_validity_days f) (add_default_http_headers f)
  (identity_claim_email f) (identity_claim_setor f) (container_cpu_request f) (container_memory_request f) (max_body_size f) (scale_up_threshold f)
  (scale_down_threshold f) (scale_down_grace f) (scale_down_cooldown_secs f) (drain_timeout f) (routing_strategy f) (placement f) (anti_affinity f).
Definition set_inject_base_href (x : string) (f : t) : t :=
  mk (id f) (base_version f) (display_name f) (description f) (display_type f) (container_image f) (state f) (subject f) (featured f) (logo f) (cover
  f) (accent f) (monogram f) (updated f) (link f) (seats_per_container f) (max_lifetime f) (heartbeat_timeout f) (container_wait_time f)
  (container_cpu_limit f) (container_memory_limit f) (min_replicas f) (max_replicas f) (concurrent_requests_per_replica f) (volumes f) (api_port f)
  (api_docs_path f) (api_health_path f) (api_rate_limit f) (api_cors f) x (container_port f) (platform f) (container_network f) (container_lifetime f)
  (stop_on_logout f) (container_env f) (container_cmd f) (docker_registry_domain f) (docker_registry_username f) (docker_registry_password f)
  (docker_registry_credential f) (access_groups f) (access_users f) (require_mfa f) (mfa_validity_days f) (add_default_http_headers f)
  (identity_claim_email f) (identity_claim_setor f) (container_cpu_request f) (container_memory_request f) (max_body_size f) (scale_up_threshold f)
  (scale_down_threshold f) (scale_down_grace f) (scale_down_cooldown_secs f) (drain_timeout f) (routing_strategy f) (placement f) (anti_affinity f).
End SpecForm.

(** *** Fields and their texts *)

Definition is_valid_env_key (k : string) : bool :=
  match k with
  | String c rest =>
    (is_ascii_lower c || is_ascii_upper c || Ascii.eqb c "_")
    && str_forallb (fun c => is_ascii_alphanumeric c || Ascii.eqb c "_") rest
  | EmptyString => false
  end.

Definition empty_to_none (s : string) : option string :=
  let t := trim s in if str_is_empty t then None else Some t.

Definition set_or_remove (m : gmap string YamlValue) (key val : string) : gmap string YamlValue :=
  let t := trim val in if str_is_empty t then delete key m else <[key := YamlString t]> m.

Definition non_empty {A} (l : list A) : option (list A) := match l with [] => None | _ => Some l end.
Definition is_text (s : string) : bool := negb (str_is_empty s).

(** [s.lines().map(str::trim).filter(|l| !l.is_empty())]. *)
Definition trimmed_lines (s : string) : list string := List.filter is_text (map trim (str_lines s)).
Definition lines_to_vec (s : string) : option (list string) := non_empty (trimmed_lines s).

Definition checkbox (on : bool) : string := if on then "on" else "".
Definition checked (s : string) : bool := is_text (trim s).
Definition checkbox_opt (s : string) : option bool := if checked s then Some true else None.

(** [BTreeMap::insert]: keys in byte order, the last value of a key wins. *)
Fixpoint btree_put (k v : string) (l : list (string * string)) : list (string * string) :=
  match l with
  | [] => [(k, v)]
  | (k', v') :: l' => match String.compare k k' with
                      | Lt => (k, v) :: l
                      | Eq => (k, v) :: l'
                      | Gt => (k', v') :: btree_put k v l'
                      end
  end.
Definition btree_map (l : list (string * string)) : list (string * string) :=
  foldl (fun m '(k, v) => btree_put k v m) [] l.

Definition env_entry (line : string) : option (string * string) :=
  let line := trim line in
  if str_is_empty line then None
  else '(k, v) ← split_once "=" line; if str_is_empty (trim k) then None else Some (trim k, trim v).
Definition parse_env (s : string) : option (list (string * string)) := non_empty (btree_map (omap env_entry (str_lines s))).

(** Pieces between commas and line feeds. *)
Definition list_to_vec (s : string) : option (list string) :=
  non_empty (List.filter is_text (map trim (concat (map (split_char ",") (split_char "010" s))))).

Definition routing_from_key (s : string) : option RoutingStrategy.t :=
  let k := trim s in
  if str_eqb k "least-connections" then Some RoutingStrategy.LeastConnections
  else if str_eqb k "round-robin" then Some RoutingStrategy.RoundRobin
  else if str_eqb k "weighted-random" then Some RoutingStrategy.WeightedRandom
  else if str_eqb k "resource-aware" then Some RoutingStrategy.ResourceAware
  else None.
Definition routing_to_key (r : RoutingStrategy.t) : string :=
  match r with
  | RoutingStrategy.LeastConnections => "least-connections" | RoutingStrategy.RoundRobin => "round-robin"
  | RoutingStrategy.WeightedRandom => "weighted-random" | RoutingStrategy.ResourceAware => "resource-aware"
  end.
Definition placement_from_key (s : string) : option Placement.t :=
  let k := trim s in
  if str_eqb k "spread" then Some Placement.Spread else if str_eqb k "bin-pack" then Some Placement.BinPack else None.
Definition placement_to_key (p : Placement.t) : string :=
  match p with Placement.Spread => "spread" | Placement.BinPack => "bin-pack" end.

Definition is_kebab_id (s : string) : bool :=
  match s with
  | String c _ => str_forallb (fun c => is_ascii_alphanumeric c || Ascii.eqb c "_" || Ascii.eqb c "-") s
                  && (is_ascii_lower c || is_ascii_upper c)
  | EmptyString => false
  end.

(** [s.trim().parse().ok()] at the width of the field. *)
Definition parse_u (max : Z) (s : string) : option Z := parse_unsigned max (trim s).
Definition parse_u16 : string -> option Z := parse_u (2 ^ 16 - 1).
Definition parse_u32 : string -> option Z := parse_u (2 ^ 32 - 1).
Definition parse_u64 : string -> option Z := parse_u (2 ^ 64 - 1).
Definition parse_float (s : string) : option f64 := parse_f64 (trim s).
Definition parse_int (s : string) : option Z := parse_i64 (trim s).

Definition shown (n : option Z) : string := from_option show "" n.
Definition shown_f64 (x : option f64) : string := from_option f64_to_string "" x.
Definition text (o : option string) : string := default "" o.

Definition newline : string := byte_str [10%N].

(** *** An app in the form *)

Definition from_spec (spec : Spec.t) : SpecForm.t :=
  let tp := TemplateProperties.get_str (Spec.template_properties spec) in
  let claims := Spec.effective_identity_claims spec in
  let lines (o : option (list string)) := from_option (str_join newline) "" o in
  let listed (o : option (list string)) := from_option (str_join ", ") "" o in {|
  SpecForm.id := Spec.id spec;
  SpecForm.base_version := "";
  SpecForm.display_name := text (Spec.display_name spec);
  SpecForm.description := text (Spec.description spec);
  SpecForm.display_type := DisplayType.key (DisplayType.from_spec spec);
  SpecForm.container_image := text (Spec.container_image spec);
  SpecForm.state := default "active" (tp "state");
  SpecForm.subject := text (tp "subject");
  SpecForm.featured := if Spec.is_featured spec then "on" else "";
  SpecForm.logo := text (tp "logo");
  SpecForm.cover := text (tp "cover");
  SpecForm.accent := text (tp "accent");
  SpecForm.monogram := text (tp "monogram");
  SpecForm.updated := text (tp "updated");
  SpecForm.link := text (tp "link");
  SpecForm.seats_per_container := shown (Spec.seats_per_container spec);
  SpecForm.max_lifetime := shown (Spec.max_lifetime spec);
  SpecForm.heartbeat_timeout := shown (Spec.heartbeat_timeout spec);
  SpecForm.container_wait_time := shown (Spec.container_wait_time spec);
  SpecForm.container_cpu_limit := shown_f64 (Spec.container_cpu_limit spec);
  SpecForm.container_memory_limit := text (Spec.container_memory_limit spec);
  SpecForm.min_replicas := shown (Spec.min_replicas spec);
  SpecForm.max_replicas := shown (Spec.max_replicas spec);
  SpecForm.concurrent_requests_per_replica := shown (Spec.concurrent_requests_per_replica spec);
  SpecForm.volumes := lines (Spec.volumes spec);
  SpecForm.api_port := shown (Spec.api spec ≫= ApiSpec.port);
  SpecForm.api_docs_path := text (Spec.api spec ≫= ApiSpec.docs_path);
  SpecForm.api_health_path := text (Spec.api spec ≫= ApiSpec.health_path);
  SpecForm.api_rate_limit := text (Spec.api spec ≫= ApiSpec.rate_limit);
  SpecForm.api_cors := if from_option ApiSpec.cors false (Spec.api spec) then "on" else "";
  SpecForm.inject_base_href := if Spec.effective_inject_base_href spec then "on" else "";
  SpecForm.container_port := shown (Spec.container_port spec);
  SpecForm.platform := text (Spec.platform spec);
  SpecForm.container_network := text (Spec.container_network spec);
  SpecForm.container_lifetime := shown (Spec.container_lifetime spec);
  SpecForm.stop_on_logout := checkbox (default false (Spec.stop_on_logout spec));
  SpecForm.container_env := str_join newline (Spec.env_pairs spec);
  SpecForm.container_cmd := lines (Spec.container_cmd spec);
  SpecForm.docker_registry_domain := text (Spec.docker_registry_domain spec);
  SpecForm.docker_registry_username := text (Spec.docker_registry_username spec);
  SpecForm.docker_registry_password := "";
  SpecForm.docker_registry_credential := text (Spec.docker_registry_credential spec);
  SpecForm.access_groups := listed (Spec.access_groups spec);
  SpecForm.access_users := listed (Spec.access_users spec);
  SpecForm.require_mfa := checkbox (Spec.effective_require_mfa spec);
  SpecForm.mfa_validity_days := shown ((fun days => Z.min days MAX_MFA_VALIDITY_DAYS) <$> Spec.mfa_validity_days spec);
  SpecForm.add_default_http_headers := checkbox (Spec.effective_add_default_http_headers spec);
  SpecForm.identity_claim_email := checkbox (bool_decide (IdentityClaim.Email ∈ claims));
  SpecForm.identity_claim_setor := checkbox (bool_decide (IdentityClaim.Setor ∈ claims));
  SpecForm.container_cpu_request := shown_f64 (Spec.container_cpu_request spec);
  SpecForm.container_memory_request := text (Spec.container_memory_request spec);
  SpecForm.max_body_size := text (Spec.max_body_size spec);
  SpecForm.scale_up_threshold := shown_f64 (Spec.scale_up_threshold spec);
  SpecForm.scale_down_threshold := shown_f64 (Spec.scale_down_threshold spec);
  SpecForm.scale_down_grace := shown (Spec.scale_down_grace spec);
  SpecForm.scale_down_cooldown_secs := shown (Spec.scale_down_cooldown_secs spec);
  SpecForm.drain_timeout := shown (Spec.drain_timeout spec);
  SpecForm.routing_strategy := from_option routing_to_key "" (Spec.routing_strategy spec);
  SpecForm.placement := from_option placement_to_key "" (Spec.placement spec);
  SpecForm.anti_affinity := checkbox (default false (Spec.anti_affinity spec)) |}.

(** *** An app from the form *)

Definition kind_override_of (dt : DisplayType.t) (base : option Spec.t) : option SpecKindOverride.t :=
  match dt with
  | DisplayType.App =>
    match base ≫= Spec.kind_override with
    | Some (SpecKindOverride.App | SpecKindOverride.Streamlit | SpecKindOverride.Dash | SpecKindOverride.Voila) as k => k
    | _ => Some SpecKindOverride.Shiny
    end
  | DisplayType.Talk | DisplayType.Report => base ≫= Spec.kind_override
  | DisplayType.Package | DisplayType.Link => Some SpecKindOverride.External
  | DisplayType.Api => Some SpecKindOverride.Api
  end.

Definition managed_keys (f : SpecForm.t) : list (string * string) :=
  [("subject", SpecForm.subject f); ("logo", SpecForm.logo f); ("cover", SpecForm.cover f); ("accent", SpecForm.accent f);
   ("monogram", SpecForm.monogram f); ("link", SpecForm.link f)].

Definition properties_of (today : string) (f : SpecForm.t) (dt : DisplayType.t) (base : option Spec.t) : gmap string YamlValue :=
  let updated := if str_is_empty (trim (SpecForm.updated f)) then today else trim (SpecForm.updated f) in
  let m := from_option Spec.template_properties ∅ base in
  let m := <["type" := YamlString (DisplayType.key dt)]> m in
  let m := <["state" := YamlString (SpecForm.state f)]> m in
  let m := <["updated" := YamlString updated]> m in
  let m := delete "icon" m in
  let m := foldl (fun m '(key, val) => set_or_remove m key val) m (managed_keys f) in
  delete "locked" m.

Definition api_of (f : SpecForm.t) (dt : DisplayType.t) : option ApiSpec.t :=
  let cors := checked (SpecForm.api_cors f) in
  let filled := cors || existsb checked [SpecForm.api_port f; SpecForm.api_docs_path f; SpecForm.api_health_path f; SpecForm.api_rate_limit f] in
  if match dt with DisplayType.Api => true | _ => filled end
  then Some (ApiSpec.mk (parse_u16 (SpecForm.api_port f)) (empty_to_none (SpecForm.api_docs_path f))
               (empty_to_none (SpecForm.api_health_path f)) (empty_to_none (SpecForm.api_rate_limit f)) cors)
  else None.

Definition is_known_claim (name : string) : bool := str_eqb (trim name) "email" || str_eqb (trim name) "setor".
Definition claims_of (f : SpecForm.t) (base : option Spec.t) : option (list string) :=
  non_empty (List.filter (fun name => negb (is_known_claim name)) (default [] (base ≫= Spec.identity_claims))
             ++ (if checked (SpecForm.identity_claim_email f) then ["email"] else [])
             ++ (if checked (SpecForm.identity_claim_setor f) then ["setor"] else [])).

Definition into_spec (today : string) (f : SpecForm.t) (base : option Spec.t) (role : Role.t) : Result Spec.t string :=
  let dt := default DisplayType.App (DisplayType.parse (SpecForm.display_type f)) in Ok {|
  Spec.id := trim (SpecForm.id f);
  Spec.display_name := empty_to_none (SpecForm.display_name f);
  Spec.description := empty_to_none (SpecForm.description f);
  Spec.featured := checkbox_opt (SpecForm.featured f);
  Spec.container_image := match dt with
                          | DisplayType.Package | DisplayType.Link => None
                          | _ => empty_to_none (SpecForm.container_image f)
                          end;
  Spec.container_port := parse_u16 (SpecForm.container_port f);
  Spec.platform := empty_to_none (SpecForm.platform f);
  Spec.seats_per_container := parse_u32 (SpecForm.seats_per_container f);
  Spec.max_lifetime := parse_u64 (SpecForm.max_lifetime f);
  Spec.container_lifetime := parse_u64 (SpecForm.container_lifetime f);
  Spec.heartbeat_timeout := parse_int (SpecForm.heartbeat_timeout f);
  Spec.container_wait_time := parse_u64 (SpecForm.container_wait_time f);
  Spec.stop_on_logout := checkbox_opt (SpecForm.stop_on_logout f);
  Spec.docker_registry_username := empty_to_none (SpecForm.docker_registry_username f);
  Spec.docker_registry_password := match empty_to_none (SpecForm.docker_registry_password f) with
                                   | Some v => Some v
                                   | None => base ≫= Spec.docker_registry_password
                                   end;
  Spec.docker_registry_domain := empty_to_none (SpecForm.docker_registry_domain f);
  Spec.docker_registry_credential := empty_to_none (SpecForm.docker_registry_credential f);
  Spec.container_cpu_limit := parse_float (SpecForm.container_cpu_limit f);
  Spec.container_cpu_request := parse_float (SpecForm.container_cpu_request f);
  Spec.container_memory_limit := empty_to_none (SpecForm.container_memory_limit f);
  Spec.container_memory_request := empty_to_none (SpecForm.container_memory_request f);
  Spec.max_body_size := empty_to_none (SpecForm.max_body_size f);
  Spec.volumes := if bool_decide (role = Role.Admin) then lines_to_vec (SpecForm.volumes f) else base ≫= Spec.volumes;
  Spec.container_env := parse_env (SpecForm.container_env f);
  Spec.container_cmd := lines_to_vec (SpecForm.container_cmd f);
  Spec.container_network := empty_to_none (SpecForm.container_network f);
  Spec.labels := base ≫= Spec.labels;
  Spec.access_groups := list_to_vec (SpecForm.access_groups f);
  Spec.access_users := list_to_vec (SpecForm.access_users f);
  Spec.require_mfa := checkbox_opt (SpecForm.require_mfa f);
  Spec.mfa_validity_days := parse_u16 (SpecForm.mfa_validity_days f);
  Spec.add_default_http_headers := checkbox_opt (SpecForm.add_default_http_headers f);
  Spec.identity_claims := claims_of f base;
  Spec.template_properties := properties_of today f dt base;
  Spec.kind_override := kind_override_of dt base;
  Spec.api := api_of f dt;
  Spec.min_replicas := parse_u32 (SpecForm.min_replicas f);
  Spec.max_replicas := parse_u32 (SpecForm.max_replicas f);
  Spec.scale_up_threshold := parse_float (SpecForm.scale_up_threshold f);
  Spec.scale_down_threshold := parse_float (SpecForm.scale_down_threshold f);
  Spec.scale_down_grace := parse_u64 (SpecForm.scale_down_grace f);
  Spec.scale_down_cooldown_secs := parse_u64 (SpecForm.scale_down_cooldown_secs f);
  Spec.drain_timeout := parse_u64 (SpecForm.drain_timeout f);
  Spec.routing_strategy := routing_from_key (SpecForm.routing_strategy f);
  Spec.concurrent_requests_per_replica := parse_u32 (SpecForm.concurrent_requests_per_replica f);
  Spec.placement := placement_from_key (SpecForm.placement f);
  Spec.anti_affinity := checkbox_opt (SpecForm.anti_affinity f);
  Spec.inject_base_href := if checked (SpecForm.inject_base_href f) then None else Some false |}.

(** *** Checks *)

Inductive FormMode := New | Edit.

Definition bad_int (v : string) : bool := checked v && bool_decide (parse_int v = None).
Definition bad_cpu (v : string) : bool := checked v && negb (from_option positive_finite false (parse_float v)).
Definition bad_threshold (v : string) : bool :=
  checked v && negb (from_option (fun x => positive_finite x && SFleb x (f64_of_Z 1)) false (parse_float v)).
Definition bad_port (v : string) : bool :=
  checked v && negb (from_option (fun n => (1 <=? n) && (n <=? 65535)) false (parse_u32 v)).
Definition bad_memory (v : string) : bool := checked v && negb (is_valid_memory_size (trim v)).
Definition bad_env_line (l : string) : bool :=
  match split_once "=" l with None => true | Some (k, _) => negb (is_valid_env_key (trim k)) end.

Definition int_fields (f : SpecForm.t) : list string :=
  [SpecForm.seats_per_container f; SpecForm.max_lifetime f; SpecForm.heartbeat_timeout f; SpecForm.container_wait_time f;
   SpecForm.min_replicas f; SpecForm.max_replicas f; SpecForm.concurrent_requests_per_replica f; SpecForm.api_port f;
   SpecForm.container_port f; SpecForm.container_lifetime f; SpecForm.mfa_validity_days f; SpecForm.scale_down_grace f;
   SpecForm.scale_down_cooldown_secs f; SpecForm.drain_timeout f].

Definition validate (f : SpecForm.t) (mode : FormMode) : list string :=
  let push (b : bool) (key : string) := if b then [key] else [] in
  let wrong_number := existsb bad_int (int_fields f) in
  let wrong_wait := checked (SpecForm.container_wait_time f) && bool_decide (parse_u64 (SpecForm.container_wait_time f) = None) in
  (if str_is_empty (trim (SpecForm.id f)) then ["spec-form-error-id-required"]
   else push (negb (is_kebab_id (trim (SpecForm.id f)))) "spec-form-error-id-shape")
  ++ push (str_is_empty (trim (SpecForm.display_name f))) "spec-form-error-name-required"
  ++ push (wrong_number || wrong_wait) "spec-form-error-number"
  ++ push (from_option (fun n => negb ((0 <=? n) && (n <=? MAX_MFA_VALIDITY_DAYS))) false (parse_int (SpecForm.mfa_validity_days f)))
       "spec-form-error-mfa-days"
  ++ push (from_option (fun n => n <=? 0) false (parse_int (SpecForm.max_replicas f))) "spec-form-error-max-replicas-zero"
  ++ push (existsb bad_port [SpecForm.container_port f; SpecForm.api_port f]) "spec-form-error-port"
  ++ push (existsb bad_cpu [SpecForm.container_cpu_limit f; SpecForm.container_cpu_request f]) "spec-form-error-cpu"
  ++ push (existsb bad_memory [SpecForm.container_memory_limit f; SpecForm.container_memory_request f; SpecForm.max_body_size f])
       "spec-form-error-memory"
  ++ push (existsb bad_threshold [SpecForm.scale_up_threshold f; SpecForm.scale_down_threshold f]) "spec-form-error-threshold"
  ++ push (match parse_u32 (SpecForm.min_replicas f), parse_u32 (SpecForm.max_replicas f) with
           | Some min, Some max => max <? min | _, _ => false end) "spec-form-error-replica-range"
  ++ push (existsb (fun l => negb (is_valid_volume_bind l)) (trimmed_lines (SpecForm.volumes f))) "spec-form-error-volume"
  ++ push (checked (SpecForm.container_network f) && negb (is_valid_network_name (trim (SpecForm.container_network f))))
       "spec-form-error-network"
  ++ push (existsb bad_env_line (trimmed_lines (SpecForm.container_env f))) "spec-form-error-env".

(** The first of [base-copy], [base-copy-2], .., [base-copy-99] not taken. *)
Definition copy_id (base : string) (n : Z) : string := base +:+ "-copy-" +:+ show n.
Definition pick_copy_id (base : string) (taken : list string) : string :=
  let first := base +:+ "-copy" in
  default first (List.find (fun c => negb (existsb (str_eqb c) taken)) (first :: map (copy_id base) (Z.of_nat <$> seq 2 98))).

(** ** Fields are read back *)

Definition clean (s : string) : bool := is_text s && str_eqb (trim s) s.
Definition clean_line (s : string) : bool := clean s && negb (str_contains_char "010" s).
Definition clean_item (s : string) : bool := clean_line s && negb (str_contains_char "," s).
Definition all_of {A} (p : A -> bool) (o : option (list A)) : bool := from_option (fun l => negb (bool_decide (length l = 0%nat)) && forallb p l) true o.
Definition fits (lo hi : Z) (o : option Z) : bool := from_option (fun n => (lo <=? n) && (n <=? hi)) true o.
Definition set_or_absent (o : option bool) : bool := default true o.
Definition decimal (x : f64) : bool := clean (f64_to_string x) && reads_as x (f64_to_string x).

Lemma clean_spec s : clean s = true <-> s <> "" /\ trim s = s.
Proof.
  unfold clean, is_text. rewrite andb_true_iff, negb_true_iff, str_eqb_eq. split; intros [Hs Ht]; (split; [|done]); [by intros ->|by destruct s].
Qed.

Lemma clean_line_spec s : clean_line s = true <-> s <> "" /\ trim s = s /\ str_contains_char "010" s = false.
Proof. unfold clean_line. rewrite andb_true_iff, negb_true_iff, clean_spec. tauto. Qed.

Lemma is_text_clean s : clean s = true -> is_text s = true.
Proof. by intros [? _]%andb_true_iff. Qed.

Lemma empty_to_none_text o : from_option clean true o = true -> empty_to_none (text o) = o.
Proof.
  destruct o as [s|]; [|done]. cbn. intros [Hs Ht]%clean_spec. unfold empty_to_none. cbv zeta. rewrite Ht. by destruct s.
Qed.

Lemma show_printable n : str_forallb (byte_in 33 126) (show n) = true.
Proof.
  assert (forall x s, str_forallb (byte_in 33 126) s = true -> str_forallb (byte_in 33 126) (pretty_N_go x s) = true) as Hgo.
  { intros x. induction (N.lt_wf_0 x) as [x _ IH]. intros s Hs. destruct (decide (x = 0)%N) as [->|Hx]; [done|].
    rewrite pretty_N_go_step by lia. apply IH; [apply N.div_lt; lia|]. cbn [str_forallb]. rewrite Hs, andb_true_r.
    assert (x `mod` 10 < 10)%N as Hd by (apply N.mod_lt; lia). revert Hd. generalize (x `mod` 10)%N as d. intros d Hd.
    rewrite digit_char by done. unfold byte_in, byte_of. rewrite N_ascii_embedding by lia. apply andb_true_intro; split; apply Z.leb_le; lia. }
  assert (forall k, str_forallb (byte_in 33 126) (pretty (k : N)) = true) as Hn.
  { intros k. unfold pretty, pretty_N. destruct (decide _); [done|]. by apply Hgo. }
  unfold show. destruct n as [|p|p]; [done|apply Hn|]. change (str_forallb (byte_in 33 126) (String "-" (pretty (Npos p))) = true).
  cbn [str_forallb]. by rewrite Hn.
Qed.

Lemma show_nonempty n : show n <> "".
Proof.
  assert (forall k : N, pretty k <> "") as Hn.
  { intros k. unfold pretty, pretty_N. destruct (decide _); [done|]. by apply pretty_N_go_ne_nil. }
  unfold show. destruct n as [|p|p]; [done|apply Hn|done].
Qed.

Lemma trim_show n : trim (show n) = show n.
Proof. apply trim_printable, show_printable. Qed.

Lemma parse_u_shown max o : fits 0 max o = true -> parse_u max (shown o) = o.
Proof.
  destruct o as [n|]; [|done]. cbn. intros [H1 H2]%andb_true_iff. unfold parse_u, shown. cbn. rewrite trim_show. apply parse_show. lia.
Qed.

Lemma parse_i64_show n : i64_min <= n <= i64_max -> parse_i64 (show n) = Some n.
Proof.
  intros Hn. assert ((if (i64_min <=? n) && (n <=? i64_max) then Some n else None) = Some n) as Hr.
  { rewrite (proj2 (Z.leb_le _ _)), (proj2 (Z.leb_le _ _)) by lia. done. }
  destruct (Z.ltb_spec n 0) as [Hneg|Hpos].
  - destruct n as [|p|p]; [lia|lia|]. change (show (Zneg p)) with (String "-" (show (Zpos p))).
    pose proof (show_nonempty (Zpos p)) as Hne. pose proof (parse_digits_show (Zpos p) ltac:(lia)) as Hp. unfold parse_i64.
    cbn [Ascii.eqb Bool.eqb andb]. destruct (show (Zpos p)); [done|]. rewrite Hp. exact Hr.
  - pose proof (show_nonempty n) as Hne. pose proof (parse_digits_show n Hpos) as Hp. pose proof (show_printable n) as Hd. unfold parse_i64.
    destruct (show n) as [|c s] eqn:Es; [done|].
    destruct (Ascii.eqb_spec c "-") as [->|_]; [by cbn in Hp|]. destruct (Ascii.eqb_spec c "+") as [->|_]; [by cbn in Hp|].
    rewrite Hp. exact Hr.
Qed.

Lemma parse_int_shown o : fits i64_min i64_max o = true -> parse_int (shown o) = o.
Proof.
  destruct o as [n|]; [|done]. cbn. intros [H1 H2]%andb_true_iff. unfold parse_int, shown. cbn. rewrite trim_show. apply parse_i64_show. lia.
Qed.

Lemma parse_float_shown o : from_option decimal true o = true -> parse_float (shown_f64 o) = o.
Proof.
  destruct o as [x|]; [|done]. unfold decimal. cbn. intros [[_ Ht]%clean_spec Hr]%andb_true_iff. unfold parse_float. cbn. rewrite Ht.
  by apply bool_decide_eq_true in Hr.
Qed.

Lemma checkbox_read o : set_or_absent o = true -> checkbox_opt (checkbox (default false o)) = o.
Proof. by destruct o as [[]|]. Qed.
Lemma checked_checkbox b : checked (checkbox b) = b.
Proof. by destruct b. Qed.

(** *** Lines *)

Lemma no_end p x : p ∈ whitespace_seqs -> trim x = x -> strip_suffix p x = None.
Proof.
  intros Hp [_ He]%trim_fixed. rewrite strip_any_None in He. unfold strip_suffix.
  by rewrite (He (str_rev p)) by (by apply list_elem_of_fmap_2).
Qed.

Lemma strip_line_end_line x : trim x = x -> strip_line_end (x +:+ newline) = x.
Proof.
  intros Hx. unfold strip_line_end, newline. rewrite strip_suffix_app, no_end; [done|vm_compute; set_solver|done].
Qed.
Lemma strip_line_end_last x : trim x = x -> strip_line_end x = x.
Proof. intros Hx. unfold strip_line_end. rewrite no_end; [done|vm_compute; set_solver|done]. Qed.

Lemma split_inclusive_last c x : x <> "" -> str_contains_char c x = false -> split_inclusive c x = [x].
Proof.
  induction x as [|d x IH]; [done|]. cbn [str_contains_char]. intros _ [Hd Hx]%orb_false_iff. cbn [split_inclusive].
  rewrite Ascii.eqb_sym, Hd. destruct x; [done|]. by rewrite IH.
Qed.

Lemma str_lines_join l : forallb clean_line l = true -> str_lines (str_join newline l) = l.
Proof.
  unfold str_lines. induction l as [|x [|y l] IH]; [done|..]; cbn [forallb]; intros [(Hne & Ht & Hlf)%clean_line_spec Hl]%andb_true_iff.
  - change (str_join newline [x]) with x. rewrite split_inclusive_last by done. cbn [map]. by rewrite strip_line_end_last.
  - change (str_join newline (x :: y :: l)) with (x +:+ String "010" (str_join newline (y :: l))).
    rewrite split_inclusive_app by done. cbn [map]. f_equal; [by apply strip_line_end_line|by apply IH].
Qed.

Lemma filter_text l : forallb clean l = true -> List.filter is_text (map trim l) = l.
Proof.
  induction l as [|x l IH]; [done|]. cbn [forallb map List.filter]. intros [Hx Hl]%andb_true_iff.
  pose proof (proj1 (clean_spec x) Hx) as [_ ->]. rewrite (is_text_clean x Hx). by rewrite IH.
Qed.

Lemma forallb_weaken {A} (p q : A -> bool) l : (forall x, p x = true -> q x = true) -> forallb p l = true -> forallb q l = true.
Proof. rewrite !forallb_forall. auto. Qed.
Lemma clean_line_clean x : clean_line x = true -> clean x = true.
Proof. by intros [? _]%andb_true_iff. Qed.

Lemma trimmed_lines_join l : forallb clean_line l = true -> trimmed_lines (str_join newline l) = l.
Proof.
  intros Hl. unfold trimmed_lines. rewrite str_lines_join by done. apply filter_text. by apply (forallb_weaken clean_line); [apply clean_line_clean|].
Qed.

Lemma non_empty_some {A} (p : A -> bool) l : all_of p (Some l) = true -> non_empty l = Some l /\ forallb p l = true.
Proof. cbn. intros [Hl ?]%andb_true_iff. split; [|done]. by destruct l. Qed.

Lemma lines_read o : all_of clean_line o = true -> lines_to_vec (from_option (str_join newline) "" o) = o.
Proof.
  destruct o as [l|]; [|done]. intros [Hn Hl]%non_empty_some. unfold lines_to_vec. cbn [from_option]. by rewrite trimmed_lines_join.
Qed.

(** *** Environment and lists *)

Definition clean_entry (e : string * string) : bool :=
  clean e.1 && str_eqb (trim e.2) e.2 && negb (str_contains_char "=" e.1)
  && negb (str_contains_char "010" e.1) && negb (str_contains_char "010" e.2).
Definition clean_env (o : option (list (string * string))) : bool :=
  all_of clean_entry o && from_option (fun m => bool_decide (btree_map m = m)) true o.

Lemma entry_read e : clean_entry e = true ->
  clean_line (e.1 +:+ String "=" e.2) = true /\ env_entry (e.1 +:+ String "=" e.2) = Some e.
Proof.
  destruct e as [k v]. unfold clean_entry. cbn [fst snd]. rewrite !andb_true_iff, !negb_true_iff, str_eqb_eq.
  intros [[[[[Hk Htk]%clean_spec Htv] Hek] Hlk] Hlv].
  assert (trim (k +:+ String "=" v) = k +:+ String "=" v) as Ht by (by apply trim_app_sep).
  assert (k +:+ String "=" v <> "") as Hne by (by destruct k). split.
  - apply clean_line_spec. split; [done|]. split; [done|]. rewrite str_contains_char_app, Hlk. cbn [str_contains_char]. by rewrite Hlv.
  - unfold env_entry. cbv zeta. rewrite Ht. destruct (k +:+ String "=" v) as [|c r] eqn:E; [done|]. cbn [str_is_empty]. rewrite <- E.
    rewrite split_once_no_sep by done. cbn [mbind option_bind]. rewrite Htk, Htv. by destruct k.
Qed.

Lemma env_read o : clean_env o = true ->
  parse_env (str_join newline (from_option (map (fun '(k, v) => k +:+ "=" +:+ v)) [] o)) = o.
Proof.
  destruct o as [m|]; [|done]. intros [[Hn Hm]%non_empty_some Hb]%andb_true_iff. cbn [from_option] in Hb |- *.
  apply bool_decide_eq_true in Hb. rewrite forallb_forall in Hm. unfold parse_env.
  assert (map (fun '(k, v) => k +:+ "=" +:+ v) m = map (fun e => e.1 +:+ String "=" e.2) m) as -> by (apply map_ext; by intros []).
  rewrite str_lines_join.
  - assert (omap env_entry (map (fun e => e.1 +:+ String "=" e.2) m) = m) as ->; [|by rewrite Hb].
    clear Hn Hb. induction m as [|e m IH]; [done|]. cbn [map omap list_omap]. rewrite (proj2 (entry_read e (Hm e (or_introl eq_refl)))).
    f_equal. apply IH. intros x Hx. apply Hm. by right.
  - rewrite forallb_forall. intros x (e & <- & He)%in_map_iff. by apply entry_read, Hm.
Qed.

Lemma clean_item_spec x : clean_item x = true <-> clean x = true /\ str_contains_char "010" x = false /\ str_contains_char "," x = false.
Proof. unfold clean_item, clean_line. rewrite !andb_true_iff, !negb_true_iff. tauto. Qed.

Lemma no_lf_join l : forallb clean_item l = true -> str_contains_char "010" (str_join ", " l) = false.
Proof.
  induction l as [|x [|y l] IH]; [done|..]; cbn [forallb]; intros [(_ & Hlf & _)%clean_item_spec Hl]%andb_true_iff; [done|].
  change (str_join ", " (x :: y :: l)) with (x +:+ ", " +:+ str_join ", " (y :: l)). rewrite !str_contains_char_app, Hlf, IH by done. done.
Qed.

Lemma pieces_join l : l <> [] -> forallb clean_item l = true ->
  map trim (split_char "," (str_join ", " l)) = l /\ map trim (split_char "," (" " +:+ str_join ", " l)) = l.
Proof.
  induction l as [|x [|y l] IH]; [done|..]; intros _; cbn [forallb]; intros [([Hne Ht]%clean_spec & _ & Hc)%clean_item_spec Hl]%andb_true_iff.
  - change (str_join ", " [x]) with x. change (" " +:+ x) with (String " " x).
    rewrite !split_char_no_sep by done. cbn [map]. by rewrite trim_space, Ht.
  - change (str_join ", " (x :: y :: l)) with (x +:+ String "," (" " +:+ str_join ", " (y :: l))).
    change (" " +:+ (x +:+ String "," (" " +:+ str_join ", " (y :: l)))) with (String " " x +:+ String "," (" " +:+ str_join ", " (y :: l))).
    rewrite !split_char_app_sep by done. cbn [map]. rewrite trim_space, Ht, (proj2 (IH ltac:(done) Hl)). done.
Qed.

Lemma list_read o : all_of clean_item o = true -> list_to_vec (from_option (str_join ", ") "" o) = o.
Proof.
  destruct o as [l|]; [|done]. intros [Hn Hl]%non_empty_some. unfold list_to_vec. cbn [from_option].
  rewrite split_char_no_sep by (by apply no_lf_join). cbn [map concat]. rewrite app_nil_r.
  rewrite (proj1 (pieces_join l ltac:(by destruct l) Hl)).
  rewrite list_filter_all; [done|]. intros x Hx. apply is_text_clean. rewrite forallb_forall in Hl. apply list_elem_of_In, Hl in Hx.
  by apply clean_item_spec in Hx as [? _].
Qed.

(** ** What the form can express

    An app every field of which the form shows and reads back: texts without
    blanks around them, lines and list entries that are one line (entries
    without commas), numbers of their width, no explicit default. *)

Definition managed_names : list string := ["subject"; "logo"; "cover"; "accent"; "monogram"; "link"].
Definition clean_property (v : option YamlValue) : bool :=
  match v with None => true | Some (YamlString s) => clean s | Some YamlOther => false end.
Definition type_of (spec : Spec.t) : DisplayType.t := DisplayType.from_spec spec.

Definition clean_api (dt : DisplayType.t) (o : option ApiSpec.t) : bool :=
  match o with
  | None => negb (bool_decide (dt = DisplayType.Api))
  | Some a =>
    fits 0 (2 ^ 16 - 1) (ApiSpec.port a)
    && forallb (from_option clean true) [ApiSpec.docs_path a; ApiSpec.health_path a; ApiSpec.rate_limit a]
    && (bool_decide (dt = DisplayType.Api) || ApiSpec.cors a || bool_decide (is_Some (ApiSpec.port a))
        || bool_decide (is_Some (ApiSpec.docs_path a)) || bool_decide (is_Some (ApiSpec.health_path a))
        || bool_decide (is_Some (ApiSpec.rate_limit a)))
  end.

Record expressible (spec : Spec.t) : Prop := {
  ex_id : trim (Spec.id spec) = Spec.id spec;
  ex_texts : forallb (from_option clean true)
    [Spec.display_name spec; Spec.description spec; Spec.container_image spec; Spec.platform spec; Spec.container_network spec;
     Spec.docker_registry_domain spec; Spec.docker_registry_username spec; Spec.docker_registry_credential spec;
     Spec.container_memory_limit spec; Spec.container_memory_request spec; Spec.max_body_size spec] = true;
  ex_u16 : forallb (fits 0 (2 ^ 16 - 1)) [Spec.container_port spec; Spec.mfa_validity_days spec] = true;
  ex_days : from_option (fun d => d <=? MAX_MFA_VALIDITY_DAYS) true (Spec.mfa_validity_days spec) = true;
  ex_u32 : forallb (fits 0 (2 ^ 32 - 1))
    [Spec.seats_per_container spec; Spec.min_replicas spec; Spec.max_replicas spec; Spec.concurrent_requests_per_replica spec] = true;
  ex_u64 : forallb (fits 0 (2 ^ 64 - 1))
    [Spec.max_lifetime spec; Spec.container_lifetime spec; Spec.container_wait_time spec; Spec.scale_down_grace spec;
     Spec.scale_down_cooldown_secs spec; Spec.drain_timeout spec] = true;
  ex_i64 : fits i64_min i64_max (Spec.heartbeat_timeout spec) = true;
  ex_decimals : forallb (from_option decimal true)
    [Spec.container_cpu_limit spec; Spec.container_cpu_request spec; Spec.scale_up_threshold spec; Spec.scale_down_threshold spec] = true;
  ex_flags : forallb set_or_absent
    [Spec.featured spec; Spec.stop_on_logout spec; Spec.require_mfa spec; Spec.add_default_http_headers spec; Spec.anti_affinity spec] = true;
  ex_base_href : Spec.inject_base_href spec <> Some true;
  ex_volumes : all_of clean_line (Spec.volumes spec) = true;
  ex_cmd : all_of clean_line (Spec.container_cmd spec) = true;
  ex_env : clean_env (Spec.container_env spec) = true;
  ex_groups : all_of clean_item (Spec.access_groups spec) = true;
  ex_users : all_of clean_item (Spec.access_users spec) = true;
  ex_claims : claims_of (from_spec spec) (Some spec) = Spec.identity_claims spec;
  ex_api : clean_api (type_of spec) (Spec.api spec) = true;
  ex_kind : kind_override_of (type_of spec) (Some spec) = Spec.kind_override spec;
  ex_image : match type_of spec with DisplayType.Package | DisplayType.Link => Spec.container_image spec = None | _ => True end;
  ex_type : Spec.template_properties spec !! "type" = Some (YamlString (DisplayType.key (type_of spec)));
  ex_state : is_Some (TemplateProperties.get_str (Spec.template_properties spec) "state");
  ex_updated : exists day, Spec.template_properties spec !! "updated" = Some (YamlString day) /\ clean day = true;
  ex_unused : Spec.template_properties spec !! "icon" = None /\ Spec.template_properties spec !! "locked" = None;
  ex_managed : forallb (fun k => clean_property (Spec.template_properties spec !! k)) managed_names = true }.

Lemma parse_key d : DisplayType.parse (DisplayType.key d) = Some d.
Proof. by destruct d. Qed.
Lemma routing_read o : routing_from_key (from_option routing_to_key "" o) = o.
Proof. by destruct o as [[]|]. Qed.
Lemma placement_read o : placement_from_key (from_option placement_to_key "" o) = o.
Proof. by destruct o as [[]|]. Qed.

Lemma checked_clean s : clean s = true -> checked s = true.
Proof. intros Hs. unfold checked. rewrite (proj2 (proj1 (clean_spec s) Hs)). by apply is_text_clean. Qed.
Lemma checked_shown n : checked (show n) = true.
Proof. apply checked_clean, clean_spec. split; [apply show_nonempty|apply trim_show]. Qed.
Lemma checked_text o : from_option clean true o = true -> checked (text o) = bool_decide (is_Some o).
Proof. destruct o as [s|]; cbn; [by intros ->%checked_clean|done]. Qed.

Lemma set_or_remove_same m k : clean_property (m !! k) = true -> set_or_remove m k (text (TemplateProperties.get_str m k)) = m.
Proof.
  unfold set_or_remove, TemplateProperties.get_str. cbv zeta. destruct (m !! k) as [[s|]|] eqn:E; [|done|intros _; by apply delete_id].
  intros [Hne Ht]%clean_spec. change (text (Some (YamlString s) ≫= as_str)) with s. rewrite Ht. destruct s; [done|]. by apply insert_id.
Qed.

Lemma properties_kept today spec : expressible spec ->
  properties_of today (from_spec spec) (type_of spec) (Some spec) = Spec.template_properties spec.
Proof.
  intros [*]. unfold properties_of. cbn [from_option from_spec SpecForm.state SpecForm.updated managed_keys].
  set (m := Spec.template_properties spec) in *. destruct ex_updated0 as (day & Hday & [Hne Ht]%clean_spec).
  assert (TemplateProperties.get_str m "updated" = Some day) as -> by (unfold TemplateProperties.get_str; by rewrite Hday).
  destruct ex_state0 as [st Hst]. rewrite Hst.
  change (text (Some day)) with day. change (default "active" (Some st)) with st. rewrite Ht.
  assert (m !! "state" = Some (YamlString st)) as Hst'.
  { unfold TemplateProperties.get_str in Hst. destruct (m !! "state") as [[]|]; by simplify_eq/=. }
  assert ((if str_is_empty day then today else day) = day) as -> by (by destruct day).
  rewrite (insert_id m "type"), (insert_id m "state"), (insert_id m "updated"), (delete_id m "icon") by (done || apply ex_unused0).
  cbn in ex_managed0. bool_split. unfold managed_keys. cbn [foldl]. cbn [from_spec SpecForm.subject SpecForm.logo SpecForm.cover SpecForm.accent SpecForm.monogram SpecForm.link].
  fold m. rewrite !set_or_remove_same by done. by apply delete_id, ex_unused0.
Qed.

Lemma api_kept spec : expressible spec -> api_of (from_spec spec) (type_of spec) = Spec.api spec.
Proof.
  intros [*]. unfold api_of. cbn [from_spec SpecForm.api_port SpecForm.api_docs_path SpecForm.api_health_path SpecForm.api_rate_limit SpecForm.api_cors].
  revert ex_api0. unfold clean_api. destruct (Spec.api spec) as [[port docs health rate cors]|]; cbn.
  - rewrite !andb_true_iff. intros [[Hport (Hd & Hh & Hr & _)] Hsome]. change (if cors then "on" else "") with (checkbox cors).
    unfold parse_u16. rewrite checked_checkbox, !checked_text, parse_u_shown, !empty_to_none_text by done.
    assert (checked (from_option show "" port) = bool_decide (is_Some port)) as -> by (destruct port; [apply checked_shown|done]).
    rewrite <- !orb_assoc in Hsome. rewrite orb_false_r.
    apply orb_true_iff in Hsome as [Hapi|Hsome]; [apply bool_decide_eq_true in Hapi; by rewrite Hapi|].
    rewrite Hsome. by destruct (type_of spec).
  - intros Hdt. by destruct (type_of spec).
Qed.

Lemma into_spec_fields today role spec : expressible spec -> into_spec today (from_spec spec) (Some spec) role = Ok spec.
Proof.
  intros Hex. pose proof (properties_kept today spec Hex) as Hprops. pose proof (api_kept spec Hex) as Hapi. destruct Hex as [*].
  unfold into_spec. cbv zeta. f_equal. cbn [from_spec SpecForm.display_type]. fold (type_of spec). rewrite parse_key. cbn [default].
  cbn [forallb] in *. bool_split.
  assert (Hvol : (if bool_decide (role = Role.Admin) then lines_to_vec (from_option (str_join newline) "" (Spec.volumes spec))
                  else Some spec ≫= Spec.volumes) = Spec.volumes spec).
  { case_bool_decide; [by apply lines_read|done]. }
  assert (Himg : match type_of spec with DisplayType.Package | DisplayType.Link => None | _ => empty_to_none (text (Spec.container_image spec)) end
                 = Spec.container_image spec).
  { destruct (type_of spec); try (by apply empty_to_none_text); by rewrite ex_image0. }
  assert (Hbase : (if checked (if Spec.effective_inject_base_href spec then "on" else "") then None else Some false) = Spec.inject_base_href spec).
  { unfold Spec.effective_inject_base_href. by destruct (Spec.inject_base_href spec) as [[]|]. }
  assert (Hmfa : parse_u16 (shown ((fun days => Z.min days MAX_MFA_VALIDITY_DAYS) <$> Spec.mfa_validity_days spec)) = Spec.mfa_validity_days spec).
  { destruct (Spec.mfa_validity_days spec) as [d|]; [|done]. cbn [fmap option_fmap option_map]. cbn in ex_days0. rewrite Z.min_l by lia.
    by apply parse_u_shown. }
  destruct spec; cbn [from_spec type_of] in *. cbn in Hprops, Hapi, Hvol, Himg, Hbase, Hmfa, ex_claims0, ex_kind0.
  cbn. f_equal; try assumption; try (by apply empty_to_none_text); try (by apply parse_u_shown); try (by apply parse_float_shown);
    try (by apply parse_int_shown); try (by apply checkbox_read); try (by apply lines_read); try (by apply list_read); try (by apply env_read);
    try apply routing_read; try apply placement_read.
Qed.

(** ** What a save leaves is expressible *)

Lemma empty_to_none_clean s : from_option clean true (empty_to_none s) = true.
Proof.
  unfold empty_to_none. cbv zeta. destruct (str_is_empty (trim s)) eqn:E; [done|]. cbn. apply clean_spec. split; [by destruct (trim s)|apply trim_idem].
Qed.

Lemma parse_unsigned_fits max s n : parse_unsigned max s = Some n -> 0 <= n <= max.
Proof.
  unfold parse_unsigned. cbv zeta. set (d := match s with String c s' => if Ascii.eqb c "+" then s' else s | EmptyString => s end).
  destruct d as [|c r]; [done|]. destruct (parse_digits 0 (String c r)) as [v|] eqn:E; [|done].
  apply parse_digits_nonneg in E; [|lia]. destruct (Z.leb_spec v max); [intros [= <-]; lia|done].
Qed.

Lemma parse_u_fits max s : fits 0 max (parse_u max s) = true.
Proof.
  unfold parse_u. destruct (parse_unsigned max (trim s)) as [n|] eqn:E; [|done]. apply parse_unsigned_fits in E. cbn.
  apply andb_true_intro; split; apply Z.leb_le; lia.
Qed.

Lemma parse_int_fits s : fits i64_min i64_max (parse_int s) = true.
Proof.
  assert (forall o (k : Z -> Z), fits i64_min i64_max (o ≫= fun v => if (i64_min <=? k v) && (k v <=? i64_max) then Some (k v) else None) = true) as Hr.
  { intros o k. destruct o as [v|]; [|done]. cbn. destruct ((i64_min <=? k v) && (k v <=? i64_max)) eqn:E; [exact E|done]. }
  unfold parse_int, parse_i64. destruct (trim s) as [|c r]; [done|]. destruct (Ascii.eqb c "-").
  - destruct r as [|c' r]; [done|]. exact (Hr _ Z.opp).
  - destruct (if Ascii.eqb c "+" then r else String c r); [done|]. exact (Hr _ (fun v => v)).
Qed.

(** What an unsigned width accepts, [i64] reads the same. *)
Lemma parse_unsigned_i64 max s n : max <= i64_max -> parse_unsigned max s = Some n -> parse_i64 s = Some n.
Proof.
  intros Hmax Hp. pose proof (parse_unsigned_fits _ _ _ Hp) as Hn. revert Hp. unfold parse_unsigned, parse_i64. cbv zeta.
  destruct s as [|c r]; [done|]. assert ((i64_min <=? n) && (n <=? i64_max) = true) as Hr.
  { apply andb_true_intro; split; apply Z.leb_le; unfold i64_min in *; lia. }
  destruct (Ascii.eqb_spec c "-") as [->|_].
  - change (Ascii.eqb "-" "+") with false. cbv iota. done.
  - destruct (if Ascii.eqb c "+" then r else String c r) as [|c' r'] eqn:E; [done|].
    destruct (parse_digits 0 (String c' r')) as [v|]; [|done]. destruct (v <=? max); [|done]. intros [= ->]. cbn [mbind option_bind]. by rewrite Hr.
Qed.

Lemma checkbox_opt_set s : set_or_absent (checkbox_opt s) = true.
Proof. unfold checkbox_opt. by destruct (checked s). Qed.

Lemma all_of_non_empty {A} (p : A -> bool) l : forallb p l = true -> all_of p (non_empty l) = true.
Proof. destruct l as [|x l]; [done|]. cbn. by intros ->. Qed.

Lemma no_char_suffix c p s r : strip_suffix p s = Some r -> str_contains_char c s = false -> str_contains_char c r = false.
Proof.
  unfold strip_suffix. destruct (strip_prefix (str_rev p) (str_rev s)) as [q|] eqn:E; [|done]. intros [= <-].
  apply strip_prefix_Some in E. rewrite <- (str_contains_char_rev c s), E, str_contains_char_app. intros [_ Hq]%orb_false_iff.
  by rewrite str_contains_char_rev.
Qed.

Lemma split_inclusive_pieces c s p : p ∈ split_inclusive c s ->
  str_contains_char c p = false \/ exists a, p = a +:+ String c "" /\ str_contains_char c a = false.
Proof.
  revert p; induction s as [|x s IH]; intros p; cbn [split_inclusive]; [by intros ?%elem_of_nil|].
  destruct (Ascii.eqb_spec x c) as [->|Hne].
  - intros [->|Hp]%elem_of_cons; [right; by exists ""|by apply IH].
  - destruct (split_inclusive c s) as [|q qs] eqn:E.
    + intros ->%list_elem_of_singleton. left. cbn. destruct (Ascii.eqb_spec c x); [congruence|done].
    + intros [->|Hp]%elem_of_cons; [|apply IH; set_solver].
      destruct (IH q ltac:(set_solver)) as [Hq|(a & -> & Ha)].
      * left. cbn. destruct (Ascii.eqb_spec c x); [congruence|done].
      * right. exists (String x a). split; [done|]. cbn. destruct (Ascii.eqb_spec c x); [congruence|done].
Qed.

Lemma lines_one_line s l : l ∈ str_lines s -> str_contains_char "010" l = false.
Proof.
  unfold str_lines. intros (p & -> & Hp)%list_elem_of_fmap. unfold strip_line_end.
  apply split_inclusive_pieces in Hp as [Hp|(a & -> & Ha)].
  - destruct (strip_suffix (byte_str [10%N]) p) as [r|] eqn:E; [|done]. apply (no_char_suffix "010") in E; [|done].
    destruct (strip_suffix (byte_str [13%N]) r) as [q|] eqn:E'; [|done]. by apply (no_char_suffix "010") in E'.
  - change (String "010" "") with (byte_str [10%N]). rewrite strip_suffix_app. cbv iota.
    destruct (strip_suffix (byte_str [13%N]) a) as [q|] eqn:E'; [|done]. by apply (no_char_suffix "010") in E'.
Qed.

Lemma trimmed_clean (p : string -> bool) ls :
  (forall l, l ∈ ls -> is_text (trim l) = true -> p (trim l) = true) -> forallb p (List.filter is_text (map trim ls)) = true.
Proof.
  intros Hls. apply forallb_forall. intros x (y & Hx)%filter_In. apply in_map_iff in y as (l & <- & Hl). apply Hls; [by apply list_elem_of_In|done].
Qed.

Lemma trim_text_clean l : is_text (trim l) = true -> clean (trim l) = true.
Proof. intros Ht. unfold clean. by rewrite Ht, trim_idem, str_eqb_refl. Qed.

Lemma lines_to_vec_clean s : all_of clean_line (lines_to_vec s) = true.
Proof.
  apply all_of_non_empty, trimmed_clean. intros l Hl Ht. unfold clean_line. rewrite trim_text_clean by done.
  by rewrite trim_no_char by (by eapply lines_one_line).
Qed.

Lemma list_to_vec_clean s : all_of clean_item (list_to_vec s) = true.
Proof.
  apply all_of_non_empty, trimmed_clean. intros l Hl Ht. apply clean_item_spec. split; [by apply trim_text_clean|].
  apply list_elem_of_In, in_concat in Hl as (ps & Hps & Hl). apply in_map_iff in Hps as (line & <- & Hline).
  apply list_elem_of_In in Hl, Hline. pose proof (split_char_pieces _ _ _ Hl) as Hc. pose proof (split_char_pieces _ _ _ Hline) as Hn.
  split; apply trim_no_char; [|done]. apply str_forallb_split with (p := fun c => negb (Ascii.eqb "010" c)) in Hl.
  - by eapply forallb_no_char.
  - clear -Hn. induction line as [|c line IH]; [done|]. cbn [str_contains_char] in Hn. apply orb_false_iff in Hn as [Hc Hn]. cbn [str_forallb].
    by rewrite Hc, IH.
Qed.

(** *** A [BTreeMap] is sorted *)

Definition key_lt (a b : string * string) : Prop := String_as_OT.lt a.1 b.1.
#[export] Instance key_lt_trans : Transitive key_lt.
Proof. intros a b c. apply String_as_OT.lt_trans. Qed.

Lemma btree_put_elem k v l e : e ∈ btree_put k v l -> e = (k, v) \/ e ∈ l.
Proof.
  induction l as [|[k' v'] l IH]; cbn; [set_solver|]. destruct (String.compare k k'); [set_solver|set_solver|].
  intros [->|He]%elem_of_cons; [set_solver|]. destruct (IH He); set_solver.
Qed.

Lemma btree_put_sorted k v l : StronglySorted key_lt l -> StronglySorted key_lt (btree_put k v l).
Proof.
  induction 1 as [|[k' v'] l Hs IH Hall]; [cbn; repeat constructor|]. cbn. destruct (String.compare k k') eqn:E.
  - apply String.compare_eq_iff in E as ->. constructor; [done|]. by eapply Forall_impl.
  - apply String_as_OT.cmp_lt in E. constructor; [by constructor|]. constructor; [exact E|]. eapply Forall_impl; [exact Hall|].
    intros e He. exact (String_as_OT.lt_trans _ _ _ E He).
  - constructor; [done|]. rewrite String.compare_antisym in E. apply CompOpp_iff, String_as_OT.cmp_lt in E.
    apply list.Forall_forall. intros e [->|He]%btree_put_elem; [exact E|]. rewrite list.Forall_forall in Hall. by apply Hall.
Qed.

Lemma btree_fold_sorted l m : StronglySorted key_lt m -> StronglySorted key_lt (foldl (fun m '(k, v) => btree_put k v m) m l).
Proof. revert m; induction l as [|[k v] l IH]; intros m Hm; [done|]. cbn. by apply IH, btree_put_sorted. Qed.

Lemma btree_map_elem l m e : e ∈ foldl (fun m '(k, v) => btree_put k v m) m l -> e ∈ m \/ e ∈ l.
Proof.
  revert m; induction l as [|[k v] l IH]; intros m; cbn; [by left|]. intros [He|He]%IH; [|set_solver].
  apply btree_put_elem in He as [->|He]; set_solver.
Qed.

Lemma btree_put_last k v l : Forall (fun e => key_lt e (k, v)) l -> btree_put k v l = l ++ [(k, v)].
Proof.
  induction 1 as [|[k' v'] l Hk _ IH]; [done|]. cbn. rewrite String.compare_antisym.
  pose proof (proj2 (String_as_OT.cmp_lt k' k) Hk) as E. unfold String_as_OT.cmp in E. rewrite E. cbn. by rewrite IH.
Qed.

Lemma StronglySorted_app_forall {A} (R : A -> A -> Prop) l x l' :
  StronglySorted R (l ++ x :: l') -> Forall (fun y => R y x) l.
Proof.
  induction l as [|y l IH]; [constructor|]. cbn. intros Hs. inversion Hs as [|? ? Hs' Hall]. subst.
  apply Forall_app in Hall as [_ Hall]. inversion Hall. subst. constructor; [done|by apply IH].
Qed.

Lemma btree_map_sorted_id m : StronglySorted key_lt m -> btree_map m = m.
Proof.
  unfold btree_map. change m with ([] ++ m) at 1 3. generalize (@nil (string * string)) as acc.
  induction m as [|[k v] m IH]; intros acc Hs; [cbn; by rewrite app_nil_r|]. cbn [foldl].
  rewrite btree_put_last by (by eapply StronglySorted_app_forall). rewrite (IH (acc ++ [(k, v)])), <- app_assoc; [done|]. by rewrite <- app_assoc.
Qed.

Lemma split_once_Some c s a b : split_once c s = Some (a, b) -> s = a +:+ String c b /\ str_contains_char c a = false.
Proof.
  revert a; induction s as [|d s IH]; intros a; cbn [split_once]; [done|]. destruct (Ascii.eqb_spec c d) as [->|Hne]; [by intros [= <- <-]|].
  destruct (split_once c s) as [[a' b']|]; [|done]. intros [= <- <-]. destruct (IH a' eq_refl) as [-> Ha]. split; [done|].
  cbn [str_contains_char]. by rewrite Ha, orb_false_r; apply Ascii.eqb_neq.
Qed.

Lemma env_entry_clean line e : str_contains_char "010" line = false -> env_entry line = Some e -> clean_entry e = true.
Proof.
  intros Hlf. unfold env_entry. cbv zeta. destruct (str_is_empty (trim line)); [done|].
  destruct (split_once "=" (trim line)) as [[k v]|] eqn:E; cbn; [|done]. destruct (str_is_empty (trim k)) eqn:Ek; [done|]. intros [= <-].
  apply split_once_Some in E as [E Hk]. apply (trim_no_char "010") in Hlf. rewrite E, str_contains_char_app in Hlf.
  apply orb_false_iff in Hlf as [Hlk Hlv]. cbn in Hlv. unfold clean_entry. cbn [fst snd].
  rewrite trim_idem, str_eqb_refl, !trim_no_char by done. rewrite trim_text_clean; [done|]. unfold is_text. by rewrite Ek.
Qed.

Lemma parse_env_clean s : clean_env (parse_env s) = true.
Proof.
  unfold clean_env, parse_env. set (m := btree_map (omap env_entry (str_lines s))).
  assert (forallb clean_entry m = true) as Hm.
  { apply forallb_forall. intros e He%list_elem_of_In. subst m. unfold btree_map in He. apply btree_map_elem in He as [He|He]; [by apply elem_of_nil in He|].
    apply list_elem_of_omap in He as (line & Hl & He). eapply env_entry_clean; [|exact He]. by eapply lines_one_line. }
  apply andb_true_iff. split; [by apply all_of_non_empty|].
  assert (btree_map m = m) as Hid by (apply btree_map_sorted_id, btree_fold_sorted; constructor).
  destruct m as [|e m']; [done|]. cbn [non_empty from_option]. by rewrite bool_decide_true.
Qed.

(** *** Claims, properties, the API block *)

Lemma effective_claims_elem spec c :
  c ∈ Spec.effective_identity_claims spec
  <-> exists name, name ∈ default [] (Spec.identity_claims spec) /\ Spec.parse_identity_claim name = Some c.
Proof.
  unfold Spec.effective_identity_claims. generalize (default [] (Spec.identity_claims spec)) as l. intros l.
  set (step := fun claims name => match Spec.parse_identity_claim name with
    | None => claims | Some claim => if bool_decide (claim ∈ claims) then claims else claims ++ [claim] end).
  enough (forall acc, c ∈ foldl step acc l <-> c ∈ acc \/ exists name, name ∈ l /\ Spec.parse_identity_claim name = Some c) as Hgen.
  { rewrite Hgen. split; [intros [?%elem_of_nil|?]; done|by right]. }
  induction l as [|name l IH]; intros acc; cbn [foldl]; [set_solver|]. rewrite IH. unfold step at 1.
  destruct (Spec.parse_identity_claim name) as [claim|] eqn:E; [|set_solver].
  case_bool_decide as Hin; rewrite ?elem_of_app, ?list_elem_of_singleton; set_solver.
Qed.

Lemma unknown_unparsed name : is_known_claim name = false -> Spec.parse_identity_claim name = None.
Proof. unfold is_known_claim, Spec.parse_identity_claim. by intros [-> ->]%orb_false_iff. Qed.

Definition claim_names (email setor : bool) : list string := (if email then ["email"] else []) ++ (if setor then ["setor"] else []).

Lemma filter_known (p : string -> bool) l x : List.filter p (List.filter p l ++ x) = List.filter p l ++ List.filter p x.
Proof. rewrite List.filter_app. f_equal. apply list_filter_all. by intros y [_ Hy]%filter_elem. Qed.

Lemma claims_settled f base spec : Spec.identity_claims spec = claims_of f base -> claims_of (from_spec spec) (Some spec) = Spec.identity_claims spec.
Proof.
  intros Hc. unfold claims_of in Hc. set (e := checked (SpecForm.identity_claim_email f)) in *. set (t := checked (SpecForm.identity_claim_setor f)) in *.
  set (B := List.filter (fun name => negb (is_known_claim name)) (default [] (base ≫= Spec.identity_claims))) in *.
  fold (claim_names e t) in Hc.
  assert (default [] (Spec.identity_claims spec) = B ++ claim_names e t) as Hl by (rewrite Hc; by destruct (B ++ claim_names e t)).
  assert (forall c b, (forall name, name ∈ claim_names e t -> Spec.parse_identity_claim name = Some c -> b = true) ->
            (b = true -> exists name, name ∈ claim_names e t /\ Spec.parse_identity_claim name = Some c) ->
            bool_decide (c ∈ Spec.effective_identity_claims spec) = b) as Hflag.
  { intros c b Hin Hex. apply eq_true_iff_eq. rewrite bool_decide_eq_true, effective_claims_elem, Hl. split.
    - intros (name & [Hb|Hn]%elem_of_app & Hp); [|by eapply Hin]. subst B. apply filter_elem in Hb as [_ Hb%negb_true_iff].
      apply unknown_unparsed in Hb. congruence.
    - intros (name & Hn & Hp)%Hex. exists name. split; [set_solver|done]. }
  unfold claims_of. cbn [from_spec SpecForm.identity_claim_email SpecForm.identity_claim_setor mbind option_bind]. rewrite !checked_checkbox.
  rewrite (Hflag IdentityClaim.Email e), (Hflag IdentityClaim.Setor t), Hl; unfold claim_names.
  - rewrite Hc. fold (claim_names e t). unfold B. rewrite filter_known.
    assert (List.filter (fun name => negb (is_known_claim name)) (claim_names e t) = []) as -> by (destruct e, t; reflexivity).
    by rewrite app_nil_r.
  - intros name Hn. destruct e, t; cbn in Hn; repeat (apply elem_of_cons in Hn as [->|Hn]); try done; by apply elem_of_nil in Hn.
  - intros ->. exists "setor". split; [set_solver|done].
  - intros name Hn. destruct e, t; cbn in Hn; repeat (apply elem_of_cons in Hn as [->|Hn]); try done; by apply elem_of_nil in Hn.
  - intros ->. exists "email". split; [set_solver|done].
Qed.

Lemma set_or_remove_ne m k v j : k <> j -> set_or_remove m k v !! j = m !! j.
Proof. intros Hne. unfold set_or_remove. cbv zeta. destruct (str_is_empty (trim v)); [by rewrite lookup_delete_ne|by rewrite lookup_insert_ne]. Qed.
Lemma set_or_remove_eq m k v : clean_property (set_or_remove m k v !! k) = true.
Proof.
  unfold set_or_remove. cbv zeta. destruct (str_is_empty (trim v)) eqn:E; [by rewrite lookup_delete_eq|]. rewrite lookup_insert_eq. cbn.
  apply trim_text_clean. unfold is_text. by rewrite E.
Qed.

Ltac look_past := repeat first [rewrite set_or_remove_ne by discriminate | rewrite lookup_delete_ne by discriminate | rewrite lookup_insert_ne by discriminate].

Lemma properties_settled today f dt base : clean today = true ->
  let m := properties_of today f dt base in
  m !! "type" = Some (YamlString (DisplayType.key dt)) /\ m !! "state" = Some (YamlString (SpecForm.state f))
  /\ (exists day, m !! "updated" = Some (YamlString day) /\ clean day = true) /\ m !! "icon" = None /\ m !! "locked" = None
  /\ forallb (fun k => clean_property (m !! k)) managed_names = true.
Proof.
  intros Hday m. subst m. unfold properties_of, managed_keys. cbv zeta. cbn [foldl].
  split; [look_past; apply lookup_insert_eq|]. split; [look_past; apply lookup_insert_eq|].
  split; [|split; [look_past; apply lookup_delete_eq|split; [apply lookup_delete_eq|]]].
  - eexists. split; [look_past; apply lookup_insert_eq|]. destruct (str_is_empty (trim (SpecForm.updated f))) eqn:E; [done|].
    apply trim_text_clean. unfold is_text. by rewrite E.
  - unfold managed_names. cbn [forallb].
    repeat (apply andb_true_iff; split); [..|done]; look_past; apply set_or_remove_eq.
Qed.

Lemma parse_u_checked max s n : parse_u max s = Some n -> checked s = true.
Proof. unfold parse_u, checked, is_text. by destruct (trim s). Qed.
Lemma empty_to_none_checked s : bool_decide (is_Some (empty_to_none s)) = checked s.
Proof. unfold empty_to_none, checked, is_text. cbv zeta. by destruct (str_is_empty (trim s)). Qed.

Lemma api_settled f dt : (checked (SpecForm.api_port f) = true -> is_Some (parse_u16 (SpecForm.api_port f))) -> clean_api dt (api_of f dt) = true.
Proof.
  intros Hport. unfold api_of. cbv zeta. set (filled := _ || existsb _ _). destruct (bool_decide (dt = DisplayType.Api)) eqn:Edt.
  - apply bool_decide_eq_true in Edt as ->. unfold clean_api. cbn [ApiSpec.port ApiSpec.docs_path ApiSpec.health_path ApiSpec.rate_limit ApiSpec.cors forallb].
    rewrite !empty_to_none_clean. unfold parse_u16. by rewrite parse_u_fits, bool_decide_true.
  - assert ((match dt with DisplayType.Api => true | _ => filled end) = filled) as -> by (by destruct dt).
    destruct filled eqn:Ef; unfold clean_api; rewrite Edt; [|done].
    cbn [ApiSpec.port ApiSpec.docs_path ApiSpec.health_path ApiSpec.rate_limit ApiSpec.cors forallb].
    rewrite !empty_to_none_clean, !empty_to_none_checked. unfold parse_u16. rewrite parse_u_fits. cbn [andb orb]. subst filled. cbn [existsb] in Ef.
    rewrite orb_false_r in Ef. destruct (checked (SpecForm.api_port f)) eqn:Ep.
    + rewrite (bool_decide_true (is_Some (parse_u _ _))) by (by apply Hport). by rewrite orb_true_r.
    + cbn [orb] in Ef. rewrite <- !orb_assoc. destruct (bool_decide (is_Some (parse_u _ _))); [by rewrite orb_true_r|exact Ef].
Qed.

(** *** Accepted forms *)

Lemma push_nil (b : bool) (k : string) : (if b then [k] else []) = [] -> b = false.
Proof. by destruct b. Qed.

(** The checks a form with no errors has passed. *)
Lemma validate_nil f mode : validate f mode = [] ->
  is_kebab_id (trim (SpecForm.id f)) = true
  /\ existsb bad_int (int_fields f) = false
  /\ (checked (SpecForm.container_wait_time f) = true -> is_Some (parse_u64 (SpecForm.container_wait_time f)))
  /\ (forall d, parse_int (SpecForm.mfa_validity_days f) = Some d -> 0 <= d <= MAX_MFA_VALIDITY_DAYS)
  /\ (forall n, parse_int (SpecForm.max_replicas f) = Some n -> 0 < n)
  /\ existsb bad_port [SpecForm.container_port f; SpecForm.api_port f] = false
  /\ existsb bad_cpu [SpecForm.container_cpu_limit f; SpecForm.container_cpu_request f] = false
  /\ existsb bad_memory [SpecForm.container_memory_limit f; SpecForm.container_memory_request f; SpecForm.max_body_size f] = false
  /\ existsb bad_threshold [SpecForm.scale_up_threshold f; SpecForm.scale_down_threshold f] = false
  /\ (forall lo hi, parse_u32 (SpecForm.min_replicas f) = Some lo -> parse_u32 (SpecForm.max_replicas f) = Some hi -> lo <= hi)
  /\ forallb is_valid_volume_bind (trimmed_lines (SpecForm.volumes f)) = true
  /\ (checked (SpecForm.container_network f) = true -> is_valid_network_name (trim (SpecForm.container_network f)) = true)
  /\ existsb bad_env_line (trimmed_lines (SpecForm.container_env f)) = false.
Proof.
  unfold validate. cbv zeta. intros H.
  repeat (apply app_eq_nil in H as [? H]). repeat match goal with E : (if _ then [_] else []) = [] |- _ => apply push_nil in E end.
  rename H into Henv.
  match goal with E : (if str_is_empty _ then _ else _) = [] |- _ => rename E into Hid end.
  destruct (str_is_empty (trim (SpecForm.id f))); [done|]. apply push_nil, negb_false_iff in Hid. split; [done|].
  match goal with E : _ || _ = false |- _ => apply orb_false_iff in E as [Hint Hwait] end. split; [done|].
  split.
  { intros Hck. rewrite Hck in Hwait. apply bool_decide_eq_false in Hwait. by apply not_eq_None_Some. }
  split.
  { intros d Hd. match goal with E : from_option (fun n => negb ((0 <=? n) && _)) _ _ = false |- _ => rewrite Hd in E; cbn in E; apply negb_false_iff in E end.
    bool_split. lia. }
  split.
  { intros n Hn. match goal with E : from_option (fun n => n <=? 0) _ _ = false |- _ => rewrite Hn in E; cbn in E end. bool_split. lia. }
  do 4 (split; [done|]). split.
  { intros lo hi Hlo Hhi. match goal with E : match parse_u32 _ with Some _ => _ | None => _ end = false |- _ => rewrite Hlo, Hhi in E end. bool_split. lia. }
  split.
  { match goal with E : existsb (fun l => negb _) _ = false |- _ => rename E into Hv end. apply forallb_forall. intros l Hl.
    destruct (is_valid_volume_bind l) eqn:E; [done|]. exfalso. rewrite <- not_true_iff_false in Hv. apply Hv, existsb_exists. exists l. by rewrite E. }
  split; [|done].
  intros Hck. match goal with E : checked (SpecForm.container_network f) && _ = false |- _ => rewrite Hck in E; by apply negb_false_iff in E end.
Qed.

Lemma parse_unsigned_narrow max max' s n : parse_unsigned max s = Some n -> n <= max' -> parse_unsigned max' s = Some n.
Proof.
  unfold parse_unsigned. cbv zeta. destruct (match s with String c s' => if Ascii.eqb c "+" then s' else s | EmptyString => s end); [done|].
  destruct (parse_digits 0 _) as [v|]; [|done]. destruct (v <=? max); [|done]. intros [= ->] Hn. by rewrite (proj2 (Z.leb_le n max')).
Qed.

Lemma good_port s : bad_port s = false -> checked s = true -> is_Some (parse_u16 s).
Proof.
  unfold bad_port, parse_u16, parse_u32, parse_u. intros Hb Hc. rewrite Hc in Hb. cbn [andb] in Hb. apply negb_false_iff in Hb.
  destruct (parse_unsigned _ (trim s)) as [n|] eqn:E; [|done]. cbn in Hb. bool_split. exists n. eapply parse_unsigned_narrow; [exact E|lia].
Qed.

Definition prints_back (s : string) : bool := from_option decimal true (parse_float s).

Lemma saved_expressible today f base role mode spec :
  clean today = true -> validate f mode = [] ->
  forallb prints_back [SpecForm.container_cpu_limit f; SpecForm.container_cpu_request f; SpecForm.scale_up_threshold f; SpecForm.scale_down_threshold f] = true ->
  into_spec today f base role = Ok spec -> role = Role.Admin \/ all_of clean_line (base ≫= Spec.volumes) = true -> expressible spec.
Proof.
  intros Hday (_ & _ & _ & Hdays & _ & Hports & _)%validate_nil Hdec. unfold into_spec. set (dt := default DisplayType.App _). cbv zeta.
  intros [= <-] Hvol. destruct (properties_settled today f dt base Hday) as (Htype & Hstate & Hupd & Hicon & Hlocked & Hman).
  match goal with |- expressible ?s => set (spec := s) end.
  assert (type_of spec = dt) as Hdt.
  { unfold type_of, DisplayType.from_spec, TemplateProperties.type_field, TemplateProperties.get_str. cbn [spec Spec.template_properties].
    rewrite Htype. cbn. by rewrite parse_key. }
  split; rewrite ?Hdt; cbn [spec Spec.id Spec.display_name Spec.description Spec.container_image Spec.platform Spec.container_network
    Spec.docker_registry_domain Spec.docker_registry_username Spec.docker_registry_credential Spec.container_memory_limit
    Spec.container_memory_request Spec.max_body_size Spec.container_port Spec.mfa_validity_days Spec.seats_per_container Spec.min_replicas
    Spec.max_replicas Spec.concurrent_requests_per_replica Spec.max_lifetime Spec.container_lifetime Spec.container_wait_time
    Spec.scale_down_grace Spec.scale_down_cooldown_secs Spec.drain_timeout Spec.heartbeat_timeout Spec.featured Spec.stop_on_logout
    Spec.require_mfa Spec.add_default_http_headers Spec.anti_affinity Spec.inject_base_href Spec.volumes Spec.container_cmd
    Spec.container_env Spec.access_groups Spec.access_users Spec.api Spec.kind_override Spec.template_properties]; cbn [forallb].
  - apply trim_idem.
  - rewrite !empty_to_none_clean. destruct dt; by rewrite ?empty_to_none_clean.
  - unfold parse_u16. by rewrite !parse_u_fits.
  - destruct (parse_u16 (SpecForm.mfa_validity_days f)) as [d|] eqn:E; [|done]. cbn. apply Z.leb_le, Hdays.
    eapply parse_unsigned_i64; [|exact E]. by vm_compute.
  - unfold parse_u32. by rewrite !parse_u_fits.
  - unfold parse_u64. by rewrite !parse_u_fits.
  - apply parse_int_fits.
  - exact Hdec.
  - by rewrite !checkbox_opt_set.
  - by destruct (checked (SpecForm.inject_base_href f)).
  - case_bool_decide; [apply lines_to_vec_clean|by destruct Hvol].
  - apply lines_to_vec_clean.
  - apply parse_env_clean.
  - apply list_to_vec_clean.
  - apply list_to_vec_clean.
  - by apply (claims_settled f base).
  - apply api_settled. apply good_port. by cbn in Hports; bool_split.
  - destruct dt; try done. cbn. destruct (base ≫= Spec.kind_override) as [[]|]; done.
  - by destruct dt.
  - exact Htype.
  - unfold TemplateProperties.get_str. rewrite Hstate. by eexists.
  - exact Hupd.
  - done.
  - exact Hman.
Qed.

(** ** Properties *)

(** C32. Saving settles an app.  What a form without errors saves, the editor
    shows and reads back exactly: opening the saved app and submitting the form
    untouched, on any day and with any role, makes the same app again, field by
    field; so no save after the first changes what was not edited.  (The four
    fractional numbers must print as a text that reads back as them, which a
    binary64 does; for an Editor the volumes come from the app that was
    edited.) *)
Theorem saved_apps_settle today f base role mode spec today' role' :
  clean today = true -> validate f mode = [] ->
  forallb prints_back [SpecForm.container_cpu_limit f; SpecForm.container_cpu_request f; SpecForm.scale_up_threshold f; SpecForm.scale_down_threshold f] = true ->
  into_spec today f base role = Ok spec -> role = Role.Admin \/ all_of clean_line (base ≫= Spec.volumes) = true ->
  into_spec today' (from_spec spec) (Some spec) role' = Ok spec.
Proof. intros Hday Hv Hdec Hs Hvol. eapply into_spec_fields, saved_expressible; eassumption. Qed.

Lemma bad_number_false (p : f64 -> bool) s :
  checked s && negb (from_option p false (parse_float s)) = false -> checked s = true -> exists x, parse_float s = Some x /\ p x = true.
Proof.
  intros Hb Hc. rewrite Hc in Hb. apply negb_false_iff in Hb. destruct (parse_float s) as [x|]; [|done]. by exists x.
Qed.

Lemma unchecked_none s : checked s = false -> parse_float s = None /\ empty_to_none s = None.
Proof.
  unfold checked, is_text, parse_float, empty_to_none. cbv zeta. intros Hs%negb_false_iff. rewrite Hs. by destruct (trim s).
Qed.

Lemma empty_to_none_trim s : checked s = true -> empty_to_none s = Some (trim s).
Proof. unfold checked, is_text, empty_to_none. cbv zeta. intros Hs%negb_true_iff. by rewrite Hs. Qed.

Lemma good_cpu s : bad_cpu s = false -> from_option positive_finite true (parse_float s) = true.
Proof.
  unfold bad_cpu. intros Hb. destruct (checked s) eqn:Hc; [|by destruct (unchecked_none s Hc) as [-> _]].
  cbn [andb] in Hb. apply negb_false_iff in Hb. by destruct (parse_float s).
Qed.

Lemma good_memory s : bad_memory s = false ->
  match empty_to_none s with Some raw => is_some (parse_memory_string raw) = true | None => True end.
Proof.
  unfold bad_memory. destruct (checked s) eqn:Hc; [|by destruct (unchecked_none s Hc) as [_ ->]].
  rewrite (empty_to_none_trim s Hc). cbn [andb]. intros Hb%negb_false_iff. unfold is_valid_memory_size in Hb. apply bool_decide_eq_true in Hb.
  by destruct Hb as [b ->].
Qed.

Lemma replicas_in_range s :
  is_external s = false -> (forall hi, Spec.max_replicas s = Some hi -> 0 < hi /\ Spec.effective_min_replicas s <= hi) -> check_replicas s = [].
Proof.
  intros Hext Hhi. assert (0 < Spec.effective_max_replicas s /\ Spec.effective_min_replicas s <= Spec.effective_max_replicas s) as [Hpos Hle].
  { destruct (Spec.max_replicas s) as [hi|] eqn:E.
    - unfold Spec.effective_max_replicas. rewrite E. by apply Hhi.
    - apply effective_max_unset_pos; [done|]. unfold is_external in Hext. by destruct (Spec.kind s). }
  unfold check_replicas. cbv zeta. rewrite (proj2 (Z.ltb_ge _ _) Hle), (proj2 (Z.eqb_neq (Spec.effective_max_replicas s) 0)) by lia.
  by rewrite andb_false_r.
Qed.

(** An app an Admin saves from a form without errors raises no warning of the
    configuration validator about the fields the form checks. *)
Lemma accepted_form_unwarned today f base mode spec :
  validate f mode = [] -> into_spec today f base Role.Admin = Ok spec ->
  check_body_size spec = [] /\ check_cpu spec = [] /\ check_memory spec = [] /\ check_volumes spec = [] /\ check_network spec = []
  /\ (is_external spec = false -> check_replicas spec = []) /\ (type_of spec <> DisplayType.Link -> check_type spec = []).
Proof.
  intros (_ & _ & Hwait & Hdays & Hmax & Hports & Hcpu & Hmem & Hth & Hrange & Hvol & Hnet & _)%validate_nil. unfold into_spec.
  set (dt := default DisplayType.App _). cbv zeta. intros [= <-]. match goal with |- context [check_body_size ?s] => set (spec := s) end.
  cbn [existsb] in Hports, Hcpu, Hmem, Hth. bool_split. split_and!.
  - unfold check_body_size, Spec.effective_max_body_bytes. cbn [spec Spec.max_body_size].
    pose proof (good_memory (SpecForm.max_body_size f) ltac:(done)) as Hg. destruct (empty_to_none (SpecForm.max_body_size f)) as [raw|]; [|done]. cbn.
    by destruct (parse_memory_string raw).
  - unfold check_cpu. cbn [spec Spec.container_cpu_limit Spec.container_cpu_request map concat].
    pose proof (good_cpu (SpecForm.container_cpu_limit f) ltac:(done)) as H1'. pose proof (good_cpu (SpecForm.container_cpu_request f) ltac:(done)) as H2'.
    destruct (parse_float (SpecForm.container_cpu_limit f)), (parse_float (SpecForm.container_cpu_request f));
      unfold positive_finite in H1', H2'; cbn [from_option] in H1', H2'; rewrite ?H1', ?H2'; done.
  - unfold check_memory, Spec.effective_memory_limit_bytes, Spec.effective_memory_request_bytes.
    cbn [spec Spec.container_memory_limit Spec.container_memory_request map concat].
    pose proof (good_memory (SpecForm.container_memory_limit f) ltac:(done)) as H1'. pose proof (good_memory (SpecForm.container_memory_request f) ltac:(done)) as H2'.
    destruct (empty_to_none (SpecForm.container_memory_limit f)), (empty_to_none (SpecForm.container_memory_request f));
      cbn [mbind option_bind]; rewrite ?H1', ?H2'; done.
  - unfold check_volumes. change (Spec.volumes spec) with (lines_to_vec (SpecForm.volumes f)). apply concat_map_nil. intros v Hin. apply push_if_nil, negb_false_iff.
    rewrite forallb_forall in Hvol. apply Hvol, list_elem_of_In. unfold lines_to_vec in Hin. by destruct (trimmed_lines (SpecForm.volumes f)).
  - unfold check_network, Spec.effective_container_network. change (Spec.container_network spec) with (empty_to_none (SpecForm.container_network f)).
    clearbody spec. destruct (checked (SpecForm.container_network f)) eqn:Hc; [|by destruct (unchecked_none _ Hc) as [_ ->]].
    rewrite (empty_to_none_trim _ Hc). cbv beta iota zeta. rewrite trim_idem.
    destruct (str_is_empty _); [done|]. by rewrite (Hnet eq_refl).
  - intros Hext. apply replicas_in_range; [done|]. intros hi Hhi. change (parse_u32 (SpecForm.max_replicas f) = Some hi) in Hhi.
    assert (0 < hi) as Hpos by (apply Hmax; eapply parse_unsigned_i64; [|exact Hhi]; by vm_compute). split; [done|].
    change (default 0 (parse_u32 (SpecForm.min_replicas f)) <= hi).
    destruct (parse_u32 (SpecForm.min_replicas f)) as [lo|]; cbn; [by apply Hrange|lia].
  - intros Hlink. unfold check_type, TemplateProperties.type_field, TemplateProperties.get_str. unfold type_of, DisplayType.from_spec in Hlink.
    assert (Spec.template_properties spec !! "type" = Some (YamlString (DisplayType.key dt))) as Ht.
    { cbn [spec Spec.template_properties]. unfold properties_of, managed_keys. cbv zeta. cbn [foldl]. look_past. apply lookup_insert_eq. }
    unfold TemplateProperties.type_field, TemplateProperties.get_str in Hlink. rewrite Ht in Hlink |- *. cbn in Hlink |- *. rewrite parse_key in Hlink.
    by destruct dt.
Qed.

(** ** Examples *)

Module SpecFormExamples.
Definition form (seats : string) : SpecForm.t :=
  SpecForm.mk "demo" "" "Demo" "" "app" "img:1" "active" "" "" "" "" "" "" "" "" seats "" "" "0" "0.5" "" "1" "3" "" "/data:/srv" "" "" "" ""
    "" "" "3838" "" "net" "" "" ("A=1" +:+ newline +:+ "B=two") "" "" "" "" "" "staff, sales" "" "on" "7" "" "on" "" "" "" "" "0.8" "" "" ""
    "" "" "" "".
Definition saved (seats : string) : Result Spec.t string := into_spec "2026-01-31" (form seats) None Role.Admin.
Definition app : Spec.t := match saved "2" with Ok s => s | Err _ => Spec.sample "demo" None None None None None None end.

Lemma saved_apps_settle_witness :
  validate (form "2") New = [] /\ into_spec "2027-02-01" (from_spec app) (Some app) Role.Editor = Ok app.
Proof.
  split; [by vm_compute|].
  apply (saved_apps_settle "2026-01-31" (form "2") None Role.Admin New app "2027-02-01" Role.Editor); try by vm_compute. by left.
Defined.

(** A count no [u32] holds passes the check, which reads an [i64], and is saved as absent: the app gets the default. *)
Example count_out_of_range_dropped :
  validate (form "5000000000") New = [] /\ validate (form "-1") New = []
  /\ (Spec.seats_per_container <$> ok (saved "5000000000")) = Some None /\ (Spec.seats_per_container <$> ok (saved "-1")) = Some None.
Proof. by vm_compute. Qed.

(** What the editor saves as a link, the configuration calls an unknown type. *)
Example saved_links_warn :
  (check_type <$> ok (into_spec "2026-01-31" (SpecForm.set_display_type "link" (form "2")) None Role.Admin))
  = Some [Warning.UnknownTypeProperty "demo" "link"].
Proof. by vm_compute. Qed.

(** An untouched edit changes an app the form cannot express: a group whose name has a comma becomes two groups, a
    property that is not a text is dropped, and a variable that holds a line feed keeps its first line. *)
Definition resaved (s : Spec.t) : option Spec.t := ok (into_spec "2026-01-31" (from_spec s) (Some s) Role.Admin).
Definition plain : Spec.t := Spec.sample "demo" (Some "img") None None None None None.

Example comma_splits_group :
  Spec.access_groups <$> resaved (Spec.with_access (Some ["staff,sales"]) None None plain) = Some (Some ["staff"; "sales"]).
Proof. by vm_compute. Qed.
Example other_properties_dropped :
  (fun s => Spec.template_properties s !! "logo") <$> resaved (with_template_properties {["logo" := YamlOther]} plain) = Some None.
Proof. by vm_compute. Qed.
Example multiline_variable_cut : parse_env ("K=a" +:+ newline +:+ "b") = Some [("K", "a")].
Proof. by vm_compute. Qed.
End SpecFormExamples.
