(* ===== verification/FormFields.v ===== *)
(** * FormFields: what was typed in the editor is what is saved

    The fields of the editor's form that are checked, read as text: numbers by
    the decimal notation, keys and paths by their grammars, lines by their
    contents.  The theorem says of each what an accepted form saves of it. *)

From Stdlib Require Import Ascii String ZArith Lia SpecFloat OrderedTypeEx Sorted.
From stdpp Require Import base tactics list gmap strings numbers.
From S2P Require Import Prelude Text Schema References Spawn Auth Validate WellFormed SpecForm.

Local Open Scope string_scope.
Local Open Scope list_scope.
Local Open Scope Z_scope.
Local Open Scope ruscker_scope.

(** ** Decimal notation *)

















(** ** What is saved of what was typed *)









(** *** Numbers *)














(** *** Texts and lines *)






(** *** The environment *)







(** *** Every field *)





(** ** Properties *)


Module FormFieldsExamples.
Import SpecFormExamples.

End FormFieldsExamples.
