(* ===== verification/SpecRoutes.v ===== *)
(** * SpecRoutes: the pages that edit apps (routes/admin/spec_form.rs)

    The handlers of the app editor behind their extractor: new, edit,
    duplicate, create, update and delete, on the catalogue and the runtime
    they change.  Clock, date, the answers of repositories that only fill the
    page (media files, credential names, the groups of accounts) and what
    other connections commit in between are arguments. *)

From Stdlib Require Import Ascii String ZArith Lia OrderedTypeEx Sorted.
From stdpp Require Import base tactics list gmap strings fin_maps numbers sorting.
From S2P Require Import Prelude Text Schema Core Spawn Auth Database SpecStore SpecCatalog SpecForm.

Local Open Scope string_scope.
Local Open Scope list_scope.
Local Open Scope Z_scope.
Local Open Scope ruscker_scope.

(** ** State, requests, answers *)

(** What the handlers reach of [AppState]. *)
Module Desk.
Record t {B : Type} := mk { catalog : CatalogState.t; world : World.t B }.
Arguments t : clear implicits.
Arguments mk {B}.
Definition set_catalog {B} (c : CatalogState.t) (d : t B) : t B := mk c (world d).
Definition set_world {B} (w : World.t B) (d : t B) : t B := mk (catalog d) w.
End Desk.

(** What the page reads besides the catalogue. *)
Module PageReads.
Record t := mk { logo_filenames : list string; credential_names : list string; user_groups : list (list string) }.
End PageReads.

(** What other connections commit inside one request: before the version
    check, and between it and the save. *)
Module Others.
Record t := mk { before_check : Tables.t -> Tables.t; before_save : Tables.t -> Tables.t }.
Definition none : t := mk (fun s => s) (fun s => s).
End Others.

Module SpecFormPage.
Record t := mk {
  role : Role.t;
  mode : FormMode;
  form : SpecForm.t;
  just_created : bool;
  errors : list string;
  logo_images : list string;
  subject_suggestions : list string;
  credential_names : list string;
  available_groups : list string }.

Definition cred_selected (p : t) (name : string) : bool := str_eqb (SpecForm.docker_registry_credential (form p)) name.
Definition cred_known (p : t) : bool :=
  let cur := trim (SpecForm.docker_registry_credential (form p)) in
  str_is_empty cur || existsb (fun n => str_eqb n cur) (credential_names p).
End SpecFormPage.

Inductive Response :=
  | ServiceUnavailable (message : string)
  | NotFound (message : string)
  | BadRequest (message : string)
  | ServerError (message : string)
  | Page (page : SpecFormPage.t)
  | Unprocessable (page : SpecFormPage.t)
  | Redirect (location : string).

Inductive AppRequest :=
  | NewForm
  | EditForm (id : string) (created : option string)
  | DuplicateForm (id : string)
  | Create (form : SpecForm.t)
  | Update (id : string) (form : SpecForm.t)
  | Delete (id : string).

Definition actor (s : EditorScope.t) : string := default "token" (EditorScope.actor s).

Section SpecRoutes.
Context {B : Type} `{ContainerBackend B} `{SpecCodec} (collate : string -> string -> bool).
(** [state.config.proxy.specs] *)
Context (yaml : list Spec.t).
Abbreviation RM A := (St (Desk.t B) A).

Definition on_catalog {A} (m : St CatalogState.t A) : RM A := fun d =>
  let '(a, c) := m (Desk.catalog d) in (a, Desk.set_catalog c d).

(** The handlers call it where a pool is attached. *)
Definition on_db {A} (m : St Db (DbResult A)) : RM (DbResult A) := on_catalog (fun c =>
  match CatalogState.db c with
  | Some db => let '(r, db') := m db in (r, CatalogState.mk (Some db') (CatalogState.catalog_cache c))
  | None => (Err (Failed "no db"), c)
  end).

Definition on_tables (f : Tables.t -> Tables.t) (db : Db) : Db := ConfigDb.mk (f (ConfigDb.tables db)) (ConfigDb.faults db).
Definition meanwhile (f : Tables.t -> Tables.t) : RM (DbResult unit) := on_db (fun db => (Ok tt, on_tables f db)).

Definition with_pool (k : RM Response) : RM Response := fun d =>
  match CatalogState.db (Desk.catalog d) with Some _ => k d | None => (ServiceUnavailable "no db", d) end.

(** *** The page *)

Definition subject_suggestions (scope : EditorScope.t) : RM (list string) :=
  do specs <- on_catalog (effective_specs collate yaml);
  st_ret (btree_set (List.filter is_text (map trim
    (omap (fun s => TemplateProperties.get_str (Spec.template_properties s) "subject")
       (List.filter (EditorScope.may_touch_spec scope) specs))))).

Definition group_names (scope : EditorScope.t) (reads : PageReads.t) : RM (list string) :=
  do specs <- on_catalog (effective_specs collate yaml);
  let known := btree_set (concat (omap Spec.access_groups specs) ++ concat (PageReads.user_groups reads)) in
  st_ret (EditorScope.merge_preserving_out_of_scope scope [] known).

Definition form_page (scope : EditorScope.t) (reads : PageReads.t) (mode : FormMode) (form : SpecForm.t) (just_created : bool)
    (errors : list string) : RM SpecFormPage.t :=
  do subjects <- subject_suggestions scope;
  do groups <- group_names scope reads;
  st_ret (SpecFormPage.mk (EditorScope.role scope) mode form just_created errors (PageReads.logo_filenames reads) subjects
            (PageReads.credential_names reads) groups).

Definition render (scope : EditorScope.t) (reads : PageReads.t) (mode : FormMode) (form : SpecForm.t) (just_created : bool) : RM Response :=
  do page <- form_page scope reads mode form just_created []; st_ret (Page page).

Definition render_form_with_errors (scope : EditorScope.t) (reads : PageReads.t) (mode : FormMode) (form : SpecForm.t)
    (errors : list string) : RM Response :=
  do page <- form_page scope reads mode form false errors; st_ret (Unprocessable page).

(** Only the groups the caller may assign are shown. *)
Definition show_groups (scope : EditorScope.t) (spec : Spec.t) (f : SpecForm.t) : SpecForm.t :=
  SpecForm.set_access_groups
    (str_join ", " (EditorScope.merge_preserving_out_of_scope scope [] (default [] (Spec.access_groups spec)))) f.

Definition blank_form : SpecForm.t :=
  SpecForm.set_display_type "app" (SpecForm.set_state "active" (SpecForm.set_inject_base_href "on" SpecForm.default_form)).

Definition new_form (scope : EditorScope.t) (reads : PageReads.t) : RM Response := render scope reads New blank_form false.

(** A foreign app is answered like an absent one. *)
Definition load_app (scope : EditorScope.t) (id : string) (absent : string) : RM (Result Spec.t Response) :=
  do r <- on_db (fetch_one id);
  st_ret (match r with
          | Ok (Some spec) => if EditorScope.may_touch_spec scope spec then Ok spec else Err (NotFound "spec not found")
          | Ok None => Err (NotFound absent)
          | Err _ => Err (ServerError "db error")
          end).

Definition edit_form (scope : EditorScope.t) (reads : PageReads.t) (id : string) (created : option string) : RM Response :=
  with_pool (
  do r <- load_app scope id "spec not found";
  match r with
  | Err resp => st_ret resp
  | Ok spec =>
    do v <- on_db (fetch_version id);
    let version := match v with Ok (Some v) => show v | Ok None | Err _ => "" end in
    render scope reads Edit (SpecForm.set_base_version version (show_groups scope spec (from_spec spec))) (bool_decide (is_Some created))
  end).

Definition unique_copy_id (between : Db -> Db) (base : string) : RM string :=
  do specs <- on_catalog (effective_specs_cached collate between yaml);
  st_ret (pick_copy_id base (map Spec.id specs)).

Definition duplicate_form (between : Db -> Db) (scope : EditorScope.t) (reads : PageReads.t) (id : string) : RM Response :=
  with_pool (
  do r <- on_db (fetch_one id);
  do source <- match r with
               | Ok (Some spec) => st_ret (Ok spec)
               | Ok None =>
                 do specs <- on_catalog (effective_specs_cached collate between yaml);
                 st_ret (match List.find (fun s => str_eqb (Spec.id s) id) specs with
                         | Some spec => Ok spec
                         | None => Err (NotFound "spec not found")
                         end)
               | Err _ => st_ret (Err (ServerError "db error"))
               end;
  match source with
  | Err resp => st_ret resp
  | Ok spec =>
    if negb (EditorScope.may_touch_spec scope spec) then st_ret (NotFound "spec not found")
    else
      do copy <- unique_copy_id between (Spec.id spec);
      render scope reads New (SpecForm.set_id copy (show_groups scope spec (from_spec spec))) false
  end).

(** *** Saving *)

Definition create (others : Others.t) (today : string) (now : Z) (scope : EditorScope.t) (reads : PageReads.t) (form : SpecForm.t)
    : RM Response :=
  with_pool (
  match validate form New with
  | [] =>
    match into_spec today form None (EditorScope.role scope) with
    | Err _ => st_ret (BadRequest "invalid form data")
    | Ok candidate =>
      if negb (EditorScope.may_assign_groups scope (default [] (Spec.access_groups candidate)))
         || negb (EditorScope.may_touch_spec scope candidate)
      then render_form_with_errors scope reads New form ["spec-form-error-editor-scope"]
      else
        do taken <- on_db (fetch_one (trim (SpecForm.id form)));
        match taken with
        | Err _ => st_ret (ServerError "db error")
        | Ok (Some _) => render_form_with_errors scope reads New form ["spec-form-error-id-duplicate"]
        | Ok None =>
          do r <- on_db (insert_new (Others.before_save others) candidate (Some (actor scope)) now);
          match r with
          | Ok true => st_ret (Redirect ("/admin/specs/" +:+ trim (SpecForm.id form) +:+ "/edit?created=1"))
          | Ok false => render_form_with_errors scope reads New (from_spec candidate) ["spec-form-error-id-duplicate"]
          | Err _ => st_ret (ServerError "save failed")
          end
        end
    end
  | errors => render_form_with_errors scope reads New form errors
  end).

(** The app an edit saves: the groups out of the caller's scope stay. *)
Definition edited (today : string) (scope : EditorScope.t) (base : Spec.t) (form : SpecForm.t) : Result Spec.t (Response + list string) :=
  match validate form Edit with
  | [] =>
    match into_spec today form (Some base) (EditorScope.role scope) with
    | Err _ => Err (inl (BadRequest "invalid form data"))
    | Ok spec =>
      let requested := default [] (Spec.access_groups spec) in
      if negb (EditorScope.may_assign_groups scope requested) then Err (inr ["spec-form-error-editor-scope"])
      else
        let merged := EditorScope.merge_preserving_out_of_scope scope (default [] (Spec.access_groups base)) requested in
        let spec := Spec.with_access (non_empty merged) (Spec.require_mfa spec) (Spec.api spec) spec in
        if EditorScope.may_touch_spec scope spec then Ok spec else Err (inr ["spec-form-error-editor-scope"])
    end
  | errors => Err (inr errors)
  end.

Definition update (others : Others.t) (today : string) (now : Z) (scope : EditorScope.t) (reads : PageReads.t) (id : string)
    (form : SpecForm.t) : RM Response :=
  with_pool (
  let form := SpecForm.set_id id form in
  do r <- load_app scope id ("spec `" +:+ id +:+ "` not found");
  match r with
  | Err resp => st_ret resp
  | Ok base =>
    match edited today scope base form with
    | Err (inl resp) => st_ret resp
    | Err (inr errors) => render_form_with_errors scope reads Edit form errors
    | Ok spec =>
      do! meanwhile (Others.before_check others);
      do stale <- match parse_int (SpecForm.base_version form) with
                  | None => st_ret None
                  | Some submitted =>
                    do current <- on_db (fetch_version id);
                    st_ret (match current with Ok (Some v) => if v =? submitted then None else Some v | Ok None | Err _ => None end)
                  end;
      match stale with
      | Some v => render_form_with_errors scope reads Edit (SpecForm.set_base_version (show v) form) ["spec-form-error-stale"]
      | None =>
        do! meanwhile (Others.before_save others);
        do saved <- on_db (upsert_one spec (Some (actor scope)) now);
        st_ret (match saved with
                | Ok _ => Redirect ("/admin/specs/" +:+ id +:+ "/edit")
                | Err _ => ServerError "save failed"
                end)
      end
    end
  end).

(** The containers of a deleted app are stopped. *)
Definition delete_app (now : Z) (scope : EditorScope.t) (id : string) : RM Response :=
  with_pool (
  do r <- load_app scope id "spec not found";
  match r with
  | Err resp => st_ret resp
  | Ok _ =>
    do deleted <- on_db (delete_one id (Some (actor scope)) now);
    match deleted with
    | Err _ => st_ret (ServerError "delete failed")
    | Ok _ =>
      do! (fun d => let '(n, w) := stop_spec id (Desk.world d) in (n, Desk.set_world w d));
      st_ret (Redirect "/admin/specs")
    end
  end).

Definition handle (others : Others.t) (today : string) (now : Z) (scope : EditorScope.t) (reads : PageReads.t) (req : AppRequest)
    : RM Response :=
  match req with
  | NewForm => new_form scope reads
  | EditForm id created => edit_form scope reads id created
  | DuplicateForm id => duplicate_form (on_tables (Others.before_check others)) scope reads id
  | Create form => create others today now scope reads form
  | Update id form => update others today now scope reads id form
  | Delete id => delete_app now scope id
  end.
End SpecRoutes.

(** ** What the handlers change *)

Section Effects.
Context {B : Type} `{ContainerBackendLaws B} `{SpecCodecLaws} (collate : string -> string -> bool) (yaml : list Spec.t).
Abbreviation Desk := (Desk.t B).

Definition tables (d : Desk) : option Tables.t := ConfigDb.tables <$> CatalogState.db (Desk.catalog d).

(** Nothing but the caches and the statements still to fail changes. *)
Definition quiet (d d' : Desk) : Prop := tables d' = tables d /\ Desk.world d' = Desk.world d.
#[export] Instance quiet_preorder : PreOrder quiet.
Proof. split; [done|]. intros d1 d2 d3 [? ?] [? ?]. split; congruence. Qed.

Definition put_db (db : Db) (d : Desk) : Desk :=
  Desk.set_catalog (CatalogState.mk (Some db) (CatalogState.catalog_cache (Desk.catalog d))) d.

Lemma on_db_inv {A} (m : St Db (DbResult A)) (d : Desk) r d' :
  on_db m d = (r, d') ->
  (tables d = None /\ r = Err (Failed "no db") /\ d' = d)
  \/ exists db db', CatalogState.db (Desk.catalog d) = Some db /\ m db = (r, db') /\ d' = put_db db' d.
Proof.
  unfold on_db, on_catalog, tables. destruct d as [[[db|] cache] w]; cbn.
  - destruct (m db) as [r0 db'] eqn:Em. intros [= <- <-]. right. by exists db, db'.
  - intros [= <- <-]. by left.
Qed.

Lemma quiet_on_db {A} (m : St Db (DbResult A)) :
  (forall db r db', m db = (r, db') -> ConfigDb.tables db' = ConfigDb.tables db) -> preserves quiet (on_db (B := B) m).
Proof.
  intros Hm d. destruct (on_db m d) as [r d'] eqn:E. apply on_db_inv in E as [(_ & _ & ->)|(db & db' & Hdb & E & ->)]; [done|].
  split; [|done]. unfold tables. rewrite Hdb. cbn. by rewrite (Hm _ _ _ E).
Qed.

Lemma quiet_on_catalog {A} (m : St CatalogState.t A) :
  (forall c, ConfigDb.tables <$> CatalogState.db (m c).2 = ConfigDb.tables <$> CatalogState.db c) -> preserves quiet (on_catalog (B := B) m).
Proof. intros Hm d. unfold on_catalog. specialize (Hm (Desk.catalog d)). destruct (m (Desk.catalog d)) as [a c]. by split. Qed.

Lemma quiet_fetch_one id : preserves quiet (on_db (B := B) (fetch_one id)).
Proof. apply quiet_on_db. intros db r db'. apply fetch_one_tables. Qed.

Lemma quiet_fetch_version id : preserves quiet (on_db (B := B) (fetch_version id)).
Proof. apply quiet_on_db. intros db r db' [Ht _]%query_inv. done. Qed.

Lemma listing_tables db : ConfigDb.tables (effective_specs_db collate yaml db).2 = ConfigDb.tables db.
Proof.
  unfold effective_specs_db. destruct (st_bind _ _ db) as [a db'] eqn:E. cbn. apply st_bind_inv in E as (r & db1 & Hl & [= _ <-]).
  unfold list_all in Hl. apply try_bind_inv in Hl as [(rows & db2 & [Ht _]%query_inv & Hp)|(e & [Ht _]%query_inv & _)]; [|done].
  by injection Hp as _ <-.
Qed.

Lemma quiet_effective_specs : preserves quiet (on_catalog (B := B) (effective_specs collate yaml)).
Proof.
  apply quiet_on_catalog. intros [[db|] cache]; [|done]. unfold effective_specs. cbn [CatalogState.db].
  pose proof (listing_tables db) as Hl. destruct (effective_specs_db collate yaml db) as [l db']. cbn in Hl |- *. by rewrite Hl.
Qed.

Lemma quiet_effective_specs_cached between : (forall db, ConfigDb.tables (between db) = ConfigDb.tables db) ->
  preserves quiet (on_catalog (B := B) (effective_specs_cached collate between yaml)).
Proof.
  intros Hb. apply quiet_on_catalog. intros [[db|] cache]; [|done]. unfold effective_specs_cached. cbn [CatalogState.db CatalogState.catalog_cache].
  destruct (catalog_signature db) as [sig db1] eqn:Es. apply query_inv in Es as [Ht _]. destruct sig as [sig|e].
  - destruct (cached_under sig cache); [cbn; by rewrite Ht|]. pose proof (listing_tables (between db1)) as Hl.
    destruct (effective_specs_db collate yaml (between db1)) as [l db2]. cbn in Hl |- *. by rewrite Hl, Hb, Ht.
  - unfold effective_specs. cbn [CatalogState.db]. pose proof (listing_tables db1) as Hl.
    destruct (effective_specs_db collate yaml db1) as [l db2]. cbn in Hl |- *. by rewrite Hl, Ht.
Qed.

Hint Resolve quiet_fetch_one quiet_fetch_version quiet_effective_specs quiet_effective_specs_cached : preserves.

Lemma quiet_form_page scope reads mode form created errors :
  preserves quiet (form_page (B := B) collate yaml scope reads mode form created errors).
Proof. unfold form_page, subject_suggestions, group_names. preserves_auto. Qed.
Hint Resolve quiet_form_page : preserves.

Lemma quiet_render scope reads mode form created : preserves quiet (render (B := B) collate yaml scope reads mode form created).
Proof. unfold render. preserves_auto. Qed.
Lemma quiet_render_errors scope reads mode form errors :
  preserves quiet (render_form_with_errors (B := B) collate yaml scope reads mode form errors).
Proof. unfold render_form_with_errors. preserves_auto. Qed.
Lemma quiet_load_app scope id absent : preserves quiet (load_app (B := B) scope id absent).
Proof. unfold load_app. preserves_auto. Qed.
Hint Resolve quiet_render quiet_render_errors quiet_load_app : preserves.

Lemma preserves_with_pool (k : St Desk Response) : preserves quiet k -> preserves quiet (with_pool k).
Proof. intros Hk d. unfold with_pool. destruct (CatalogState.db _); [apply Hk|done]. Qed.

Lemma quiet_new_form scope reads : preserves quiet (new_form (B := B) collate yaml scope reads).
Proof. apply quiet_render. Qed.
Lemma quiet_edit_form scope reads id created : preserves quiet (edit_form (B := B) collate yaml scope reads id created).
Proof. apply preserves_with_pool. preserves_auto. Qed.
Lemma quiet_duplicate_form between scope reads id : (forall db, ConfigDb.tables (between db) = ConfigDb.tables db) ->
  preserves quiet (duplicate_form (B := B) collate yaml between scope reads id).
Proof. intros Hb. apply preserves_with_pool. unfold unique_copy_id. preserves_auto. Qed.

(** The app a row holds. *)
Definition app_of (s : Tables.t) (id : string) : option Spec.t :=
  r ← Tables.specs s !! id; ok (from_json (SpecRow.config_json r)).

Lemma fetch_one_Ok id db o db' : fetch_one id db = (Ok o, db') ->
  ConfigDb.tables db' = ConfigDb.tables db /\ app_of (ConfigDb.tables db) id = o
  /\ (o = None -> Tables.specs (ConfigDb.tables db) !! id = None).
Proof.
  intros Hf. split; [by eapply fetch_one_tables|]. revert Hf. unfold fetch_one, app_of.
  intros (row & db1 & [Ht [[=]|[= ->]]]%query_inv & [Hl _]%lift_Ok)%try_bind_Ok.
  destruct (Tables.specs (ConfigDb.tables db) !! id) as [r|]; cbn in Hl |- *; [|by injection Hl as <-].
  destruct (from_json (SpecRow.config_json r)); [by injection Hl as <-|done].
Qed.

Lemma load_app_Ok scope id absent (d : Desk) spec d' : load_app scope id absent d = (Ok spec, d') ->
  quiet d d' /\ EditorScope.may_touch_spec scope spec = true /\ exists s, tables d = Some s /\ app_of s id = Some spec.
Proof.
  intros Hl. split; [by apply (run_of quiet _ _ _ _ (quiet_load_app scope id absent)) in Hl|]. revert Hl. unfold load_app.
  intros (r & d1 & Hd & [= Hr _])%st_bind_inv. apply on_db_inv in Hd as [(_ & -> & _)|(db & db' & Hdb & Hf & _)]; [done|].
  destruct r as [[base|]|e]; [|done..]. destruct (EditorScope.may_touch_spec scope base) eqn:Et; [|done]. injection Hr as ->.
  apply fetch_one_Ok in Hf as (_ & Ha & _). split; [done|]. exists (ConfigDb.tables db). unfold tables. by rewrite Hdb.
Qed.

Lemma upsert_one_core spec actor now db r db' : upsert_one spec actor now db = (r, db') ->
  ConfigDb.tables db' = ConfigDb.tables db
  \/ exists json, canonical_json spec = Ok json /\ core (ConfigDb.tables db') = core (upserted spec json now (ConfigDb.tables db)).
Proof.
  intros [E|(o & db1 & db2 & -> & E1 & Hb & E2)]%transaction_inv; [by left|]. right.
  apply try_bind_Ok in Hb as (out & db3 & Hu & Hb). apply upsert_in_tx_Ok in Hu as (json & Hj & _ & Hc).
  apply try_bind_Ok in Hb as (u & db4 & Ha & Hb). apply audit_option_Ok in Ha. injection Hb as _ <-.
  exists json. split; [done|]. by rewrite E2, Ha, Hc, E1.
Qed.

Lemma insert_new_core spec actor now db r db' : insert_new (fun s => s) spec actor now db = (r, db') ->
  ConfigDb.tables db' = ConfigDb.tables db
  \/ exists json, canonical_json spec = Ok json /\ Tables.specs (ConfigDb.tables db) !! Spec.id spec = None
       /\ core (ConfigDb.tables db') = core (upserted spec json now (ConfigDb.tables db)).
Proof.
  intros [E|[E|(b & db1 & db2 & -> & E1 & Hb & E2)]]%transaction_beside_inv; [by left..|]. right.
  apply try_bind_Ok in Hb as (found & db3 & Hq & Hb). apply query_inv in Hq as [Ht [[=]|[= ->]]].
  destruct (Tables.specs _ !! _) eqn:En; [done|].
  apply st_bind_inv in Hb as (u & db4 & Hm & Hb). injection Hm as _ <-.
  apply st_bind_inv in Hb as (out & db5 & Hu & Hb). destruct out as [out|[]]; [|by injection Hb..].
  apply upsert_in_tx_Ok in Hu as (json & Hj & _ & Hc). cbn in Hc.
  apply try_bind_Ok in Hb as (u' & db6 & Ha & Hb). apply add_audit_Ok in Ha. injection Hb as _ <-.
  exists json. split; [done|]. rewrite E1 in En. split; [done|]. by rewrite E2, Ha, Hc, Ht, E1.
Qed.

Lemma delete_one_core id actor now db r db' : delete_one id actor now db = (r, db') ->
  core (ConfigDb.tables db') = core (ConfigDb.tables db) \/ core (ConfigDb.tables db') = core (delete_spec id (ConfigDb.tables db)).
Proof.
  intros [E|(o & db1 & db2 & -> & E1 & Hb & E2)]%transaction_inv; [left; by rewrite E|].
  apply try_bind_Ok in Hb as (removed & db3 & Hs & Hb). apply statement_inv in Hs as [[[=] _]|[[= ->] Hs]].
  apply try_bind_Ok in Hb as (u & db4 & Ha & Hb). injection Hb as _ <-. rewrite E2. rewrite E1 in *.
  destruct (Tables.specs (ConfigDb.tables db) !! id); cbn in Ha, Hs.
  - apply add_audit_Ok in Ha. right. by rewrite Ha, Hs.
  - injection Ha as _ <-. left. by rewrite Hs.
Qed.

(** What a save by [scope] keeps of the app [base] it replaces. *)
Record respects (scope : EditorScope.t) (base : option Spec.t) (spec : Spec.t) : Prop := {
  kept_reach : EditorScope.may_touch_spec scope spec = true /\ from_option (EditorScope.may_touch_spec scope) true base = true;
  kept_volumes : EditorScope.role scope <> Role.Admin -> Spec.volumes spec = base ≫= Spec.volumes;
  kept_labels : Spec.labels spec = base ≫= Spec.labels;
  kept_groups g : EditorScope.unscoped scope = false -> EditorScope.has_group scope g = false ->
    g ∈ default [] (Spec.access_groups spec) <-> g ∈ default [] (base ≫= Spec.access_groups) }.

Lemma default_non_empty {A} (l : list A) : default [] (non_empty l) = l.
Proof. by destruct l. Qed.

Lemma into_spec_Ok today f base role spec : into_spec today f base role = Ok spec ->
  Spec.id spec = trim (SpecForm.id f) /\ Spec.labels spec = base ≫= Spec.labels
  /\ (role <> Role.Admin -> Spec.volumes spec = base ≫= Spec.volumes).
Proof. unfold into_spec. cbv zeta. intros [= <-]. cbn. split; [done|]. split; [done|]. intros Hr. by rewrite bool_decide_false. Qed.

Lemma edited_Ok today scope base form spec :
  EditorScope.may_touch_spec scope base = true -> edited today scope base form = Ok spec ->
  Spec.id spec = trim (SpecForm.id form) /\ respects scope (Some base) spec.
Proof.
  unfold edited. intros Hbase. destruct (validate form Edit); [|done]. destruct (into_spec _ _ _ _) as [cand|] eqn:Ei; [|done]. cbv zeta.
  apply into_spec_Ok in Ei as (Hid & Hlab & Hvol). destruct (negb _) eqn:Ea; [done|].
  set (s' := Spec.with_access _ _ _ _). destruct (EditorScope.may_touch_spec scope s') eqn:Et; [|done]. intros [= <-].
  split; [done|]. split; [done|exact Hvol|exact Hlab|]. intros g Hun Hg. cbn [s' Spec.with_access Spec.access_groups].
  rewrite default_non_empty. unfold EditorScope.merge_preserving_out_of_scope. rewrite Hun, btree_set_elem, elem_of_app, !filter_elem, Hg.
  cbn. naive_solver.
Qed.

Lemma created_respects today scope form spec :
  into_spec today form None (EditorScope.role scope) = Ok spec ->
  negb (EditorScope.may_assign_groups scope (default [] (Spec.access_groups spec))) || negb (EditorScope.may_touch_spec scope spec) = false ->
  respects scope None spec.
Proof.
  intros (_ & Hlab & Hvol)%into_spec_Ok [Ha%negb_false_iff Ht%negb_false_iff]%orb_false_iff.
  split; [done|exact Hvol|exact Hlab|]. intros g Hun Hg. cbn. split; [|by intros ?%elem_of_nil]. intros Hin. exfalso.
  unfold EditorScope.may_assign_groups in Ha. rewrite Hun in Ha. cbn [orb] in Ha. rewrite forallb_forall in Ha.
  apply list_elem_of_In in Hin. rewrite (Ha _ Hin) in Hg. done.
Qed.

(** The effect of one request. *)
Inductive app_effect (scope : EditorScope.t) (now : Z) (d d' : Desk) : Prop :=
| effect_quiet : quiet d d' -> app_effect scope now d d'
| effect_saved s s' spec json :
    tables d = Some s -> tables d' = Some s' -> Desk.world d' = Desk.world d -> canonical_json spec = Ok json ->
    core s' = core (upserted spec json now s) -> (app_of s (Spec.id spec) = None -> Tables.specs s !! Spec.id spec = None) ->
    respects scope (app_of s (Spec.id spec)) spec -> app_effect scope now d d'
| effect_deleted s s' id base :
    tables d = Some s -> tables d' = Some s' -> app_of s id = Some base -> EditorScope.may_touch_spec scope base = true ->
    (core s' = core s \/ core s' = core (delete_spec id s)) ->
    Desk.world d' = Desk.world d \/ Desk.world d' = (stop_spec id (Desk.world d)).2 -> app_effect scope now d d'.

Lemma tables_put db db' (d : Desk) : CatalogState.db (Desk.catalog d) = Some db ->
  tables d = Some (ConfigDb.tables db) /\ tables (put_db db' d) = Some (ConfigDb.tables db') /\ Desk.world (put_db db' d) = Desk.world d.
Proof. unfold tables. by intros ->. Qed.

Lemma tables_quiet d d' s : quiet d d' -> tables d = Some s -> tables d' = Some s.
Proof. intros [Ht _]. by rewrite Ht. Qed.

(** Reads around an effect. *)
Lemma effect_quiet_l scope now d d1 d' : quiet d d1 -> app_effect scope now d1 d' -> app_effect scope now d d'.
Proof.
  intros [Ht Hw] He. destruct He as [Hq|s s' spec json|s s' id base].
  - apply effect_quiet. etransitivity; [by split|done].
  - eapply effect_saved; rewrite <- ?Ht, <- ?Hw; eassumption.
  - eapply effect_deleted; rewrite <- ?Ht, <- ?Hw; eassumption.
Qed.

Lemma effect_quiet_r scope now d d1 d' : app_effect scope now d d1 -> quiet d1 d' -> app_effect scope now d d'.
Proof.
  intros He [Ht Hw]. destruct He as [Hq|s s' spec json|s s' id base].
  - apply effect_quiet. etransitivity; [exact Hq|by split].
  - eapply effect_saved; rewrite ?Ht, ?Hw; eassumption.
  - eapply effect_deleted; rewrite ?Ht, ?Hw; eassumption.
Qed.

Lemma quiet_run {A} scope now (m : St Desk A) d a d' : preserves quiet m -> m d = (a, d') -> app_effect scope now d d'.
Proof. intros Hm E. apply effect_quiet. by eapply run_of. Qed.

Lemma with_pool_quiet (k : St Desk Response) d r d' : with_pool k d = (r, d') ->
  quiet d d' \/ k d = (r, d').
Proof. unfold with_pool. destruct (CatalogState.db _); [by right|]. intros [= _ <-]. by left. Qed.

Lemma quiet_meanwhile_none : preserves quiet (meanwhile (B := B) (fun s => s)).
Proof. apply quiet_on_db. by intros [t f] r db' [= _ <-]. Qed.
Hint Resolve quiet_meanwhile_none : preserves.

Lemma save_effect scope now actor spec (d : Desk) s r d' :
  tables d = Some s -> (app_of s (Spec.id spec) = None -> Tables.specs s !! Spec.id spec = None) ->
  respects scope (app_of s (Spec.id spec)) spec ->
  on_db (upsert_one spec actor now) d = (r, d') -> app_effect scope now d d'.
Proof.
  intros Hs Hrow Hresp. intros [(_ & _ & ->)|(db & db' & Hdb & Hu & ->)]%on_db_inv; [by apply effect_quiet|].
  destruct (tables_put db db' d Hdb) as (E & E' & Ew). assert (s = ConfigDb.tables db) as -> by congruence.
  apply upsert_one_core in Hu as [Ht|(json & Hj & Hc)].
  - apply effect_quiet. split; [|done]. by rewrite E, E', Ht.
  - by eapply effect_saved.
Qed.

Lemma create_app_effect today now scope reads form d r d' :
  create collate yaml Others.none today now scope reads form d = (r, d') -> app_effect scope now d d'.
Proof.
  intros [Hq|Hk]%with_pool_quiet; [by apply effect_quiet|]. revert Hk.
  destruct (validate form New); [|by apply quiet_run, quiet_render_errors].
  destruct (into_spec today form None (EditorScope.role scope)) as [cand|] eqn:Ei; [|by intros [= _ <-]; apply effect_quiet].
  destruct (negb _ || negb _) eqn:Ea; [by apply quiet_run, quiet_render_errors|].
  pose proof (created_respects today scope form cand Ei Ea) as Hresp. apply into_spec_Ok in Ei as (Hid & _).
  intros (taken & d1 & Hf & Hk)%st_bind_inv. pose proof (run_of quiet _ _ _ _ (quiet_fetch_one _) Hf) as Hq1.
  eapply effect_quiet_l; [exact Hq1|]. destruct taken as [[x|]|e]; [by apply (quiet_run _ now _ _ _ _ (quiet_render_errors _ _ _ _ _) Hk)| |by injection Hk as _ <-; apply effect_quiet].
  apply st_bind_inv in Hk as (saved & d2 & Hi & Hk). apply (effect_quiet_r _ _ _ d2).
  - apply on_db_inv in Hf as [(_ & [=] & _)|(db0 & db1 & Hdb0 & Hf & ->)].
    apply fetch_one_Ok in Hf as (Ht & Happ & Hnone). rewrite <- Hid in Happ, Hnone.
    apply on_db_inv in Hi as [(_ & _ & ->)|(db & db' & Hdb & Hu & ->)]; [by apply effect_quiet|]. injection Hdb as <-.
    apply insert_new_core in Hu as [Hsame|(json & Hj & Hn & Hc)].
    + apply effect_quiet. split; [|done]. unfold tables. cbn. by rewrite Hsame.
    + eapply (effect_saved _ _ _ _ (ConfigDb.tables db1) (ConfigDb.tables db') cand); try done. rewrite Ht. by rewrite Happ.
  - destruct saved as [[]|e]; [by injection Hk as _ <-|by apply (run_of quiet _ _ _ _ (quiet_render_errors _ _ _ _ _)) in Hk|by injection Hk as _ <-].
Qed.

Lemma update_app_effect today now scope reads id form d r d' : trim id = id ->
  update collate yaml Others.none today now scope reads id form d = (r, d') -> app_effect scope now d d'.
Proof.
  intros Hid. intros [Hq|Hk]%with_pool_quiet; [by apply effect_quiet|]. revert Hk. cbv zeta. set (f := SpecForm.set_id id form).
  intros (base & d1 & Hl & Hk)%st_bind_inv. pose proof (run_of quiet _ _ _ _ (quiet_load_app _ _ _) Hl) as Hq1.
  eapply effect_quiet_l; [exact Hq1|]. destruct base as [base|resp]; [|injection Hk as _ <-; by apply effect_quiet].
  apply load_app_Ok in Hl as (_ & Htouch & s & Hs & Happ). apply (tables_quiet _ _ _ Hq1) in Hs. revert Hk.
  destruct (edited today scope base f) as [spec|[resp|errors]] eqn:Ee;
    [|intros [= _ <-]; by apply effect_quiet|by apply quiet_run, quiet_render_errors].
  apply edited_Ok in Ee as [Hsid Hresp]; [|done]. change (SpecForm.id f) with id in Hsid. rewrite Hid in Hsid.
  intros (u & d2 & Hm & Hk)%st_bind_inv. pose proof (run_of quiet _ _ _ _ quiet_meanwhile_none Hm) as Hq2.
  eapply effect_quiet_l; [exact Hq2|]. apply (tables_quiet _ _ _ Hq2) in Hs.
  apply st_bind_inv in Hk as (stale & d3 & Hv & Hk). assert (quiet d2 d3) as Hq3.
  { eapply (run_of quiet); [|exact Hv]. match goal with |- forall s, quiet s (?m s).2 => change (preserves quiet m) end. preserves_auto. }
  eapply effect_quiet_l; [exact Hq3|]. apply (tables_quiet _ _ _ Hq3) in Hs.
  destruct stale as [v|]; [by apply (quiet_run _ now _ _ _ _ (quiet_render_errors _ _ _ _ _) Hk)|].
  apply st_bind_inv in Hk as (u' & d4 & Hm' & Hk). pose proof (run_of quiet _ _ _ _ quiet_meanwhile_none Hm') as Hq4.
  eapply effect_quiet_l; [exact Hq4|]. apply (tables_quiet _ _ _ Hq4) in Hs.
  apply st_bind_inv in Hk as (saved & d5 & Hu & [= _ <-]). eapply save_effect; [exact Hs|..|exact Hu]; by rewrite Hsid, Happ.
Qed.

Lemma delete_app_effect now scope id d r d' : delete_app now scope id d = (r, d') -> app_effect scope now d d'.
Proof.
  intros [Hq|Hk]%with_pool_quiet; [by apply effect_quiet|]. revert Hk.
  intros (base & d1 & Hl & Hk)%st_bind_inv. pose proof (run_of quiet _ _ _ _ (quiet_load_app _ _ _) Hl) as Hq1.
  eapply effect_quiet_l; [exact Hq1|]. destruct base as [base|resp]; [|injection Hk as _ <-; by apply effect_quiet].
  apply load_app_Ok in Hl as (_ & Htouch & s & Hs & Happ). apply (tables_quiet _ _ _ Hq1) in Hs.
  apply st_bind_inv in Hk as (deleted & d2 & Hd & Hk).
  apply on_db_inv in Hd as [(_ & -> & ->)|(db & db' & Hdb & Hd & ->)]; [by injection Hk as _ <-; apply effect_quiet|].
  destruct (tables_put db db' d1 Hdb) as (E & E' & Ew). assert (s = ConfigDb.tables db) as -> by congruence. apply delete_one_core in Hd.
  destruct deleted as [b|e].
  - apply st_bind_inv in Hk as (n & d3 & Hst & [= _ <-]). cbv beta in Hst. rewrite Ew in Hst.
    pose proof (surjective_pairing (stop_spec id (Desk.world d1))) as Ep. rewrite Ep in Hst. injection Hst as _ <-.
    eapply (effect_deleted _ _ _ _ _ (ConfigDb.tables db') id base); try done. by right.
  - injection Hk as _ <-. eapply (effect_deleted _ _ _ _ _ (ConfigDb.tables db') id base); try done. by left.
Qed.

Lemma handle_effect today now scope reads req d r d' :
  (forall id form, req = Update id form -> trim id = id) ->
  handle collate yaml Others.none today now scope reads req d = (r, d') -> app_effect scope now d d'.
Proof.
  intros Hid. destruct req; cbn [handle].
  - apply quiet_run, quiet_new_form.
  - apply quiet_run, quiet_edit_form.
  - apply quiet_run, quiet_duplicate_form. done.
  - apply create_app_effect.
  - apply update_app_effect. by eapply Hid.
  - apply delete_app_effect.
Qed.

Lemma upserted_lookup spec json now s i r :
  Tables.specs (upserted spec json now s) !! i = Some r ->
  Tables.specs s !! i = Some r \/ i = Spec.id spec /\ SpecRow.config_json r = json.
Proof.
  unfold upserted. destruct (Tables.specs s !! Spec.id spec) as [q|]; [destruct (str_eqb _ _); [by left|]|];
    cbn; intros [[<- <-]|[_ Hi]]%lookup_insert_Some; first [by right|by left].
Qed.

Lemma upserted_elsewhere spec json now s i : i <> Spec.id spec ->
  Tables.specs (upserted spec json now s) !! i = Tables.specs s !! i /\ history i (upserted spec json now s) = history i s.
Proof.
  intros Hne. assert (str_eqb (Spec.id spec) i = false) as Hne' by (by destruct (str_eqb_spec (Spec.id spec) i)). unfold upserted, history.
  destruct (Tables.specs s !! Spec.id spec) as [q|]; [destruct (str_eqb (SpecRow.config_json q) json); [done|]|];
    cbn [Tables.specs Tables.spec_versions Tables.set_spec_versions Tables.set_specs]; rewrite lookup_insert_ne, List.filter_app by done;
    cbn [List.filter VersionRow.spec_id]; by rewrite Hne', app_nil_r.
Qed.

Lemma deleted_elsewhere id s i : i <> id ->
  Tables.specs (delete_spec id s) !! i = Tables.specs s !! i /\ history i (delete_spec id s) = history i s.
Proof.
  intros Hne. unfold delete_spec, history. cbn. rewrite lookup_delete_ne by done. split; [done|].
  induction (Tables.spec_versions s) as [|v l IH]; [done|]. cbn. destruct (str_eqb_spec (VersionRow.spec_id v) id) as [->|Hv]; cbn.
  - rewrite IH. by destruct (str_eqb_spec id i).
  - by rewrite IH.
Qed.

(** The replicas of the other apps survive a [stop_spec]. *)
Lemma stop_spec_elsewhere id (w : World.t B) j r : Registry.wf (World.replicas w) ->
  Registry.by_id (World.replicas w) !! j = Some r -> Replica.spec_id r <> id ->
  Registry.by_id (World.replicas (stop_spec id w).2) !! j = Some r.
Proof.
  intros Hwf Hj Hne. unfold stop_spec, st_bind at 1, st_get. destruct (World.backend w) eqn:Eb; [|done]. unfold st_bind at 1 2.
  pose proof (stop_each_spec (map Replica.id (World.pool w id)) w Hwf) as Hs.
  destruct (st_for _ _ w) as [u w']. destruct Hs as (_ & _ & Hrest & _). cbn. rewrite Hrest; [done|].
  intros (q & -> & Hq)%list_elem_of_fmap. apply pool_elem in Hq as [Hl Hs]; [|done]. congruence.
Qed.

(** What an effect leaves of an app that the caller may not touch. *)
Lemma effect_spares scope now d d' s i spec : app_effect scope now d d' -> Registry.wf (World.replicas (Desk.world d)) ->
  tables d = Some s -> app_of s i = Some spec -> EditorScope.may_touch_spec scope spec = false ->
  exists s', tables d' = Some s' /\ Tables.specs s' !! i = Tables.specs s !! i /\ history i s' = history i s
    /\ forall j r, Registry.by_id (World.replicas (Desk.world d)) !! j = Some r -> Replica.spec_id r = i ->
         Registry.by_id (World.replicas (Desk.world d')) !! j = Some r.
Proof.
  intros He Hwf Hs Happ Ht. assert (forall s1 s2, core s1 = core s2 -> Tables.specs s1 = Tables.specs s2 /\ history i s1 = history i s2) as Hcore.
  { intros s1 s2 [= E1 E2]. unfold history. by rewrite E1, E2. }
  destruct He as [[Ets Ew]|s0 s' spec' json E E' Ew Hj Hc Hrow Hresp|s0 s' id base E E' Hbase Htb Hc Hw].
  - exists s. rewrite Ets, Ew. auto.
  - exists s'. assert (s0 = s) as -> by congruence. apply Hcore in Hc as [-> Hh]. rewrite Hh. split; [done|]. rewrite Ew.
    assert (i <> Spec.id spec') as Hne.
    { intros ->. destruct Hresp as [[_ Hb] _ _ _]. rewrite Happ in Hb. cbn in Hb. congruence. }
    destruct (upserted_elsewhere spec' json now s i Hne) as [-> ->]. auto.
  - exists s'. assert (s0 = s) as -> by congruence. assert (i <> id) as Hne by (intros ->; congruence). split; [done|].
    assert (Tables.specs s' !! i = Tables.specs s !! i /\ history i s' = history i s) as [-> ->].
    { destruct Hc as [[-> ->]%Hcore|[-> ->]%Hcore]; [done|]. by apply deleted_elsewhere. }
    split; [done|]. split; [done|]. intros j r Hj Hr. destruct Hw as [->| ->]; [done|]. apply stop_spec_elsewhere; [done..|congruence].
Qed.

(** Every row an effect writes. *)
Lemma effect_writes scope now d d' s s' i r : app_effect scope now d d' -> tables d = Some s -> tables d' = Some s' ->
  Tables.specs s' !! i = Some r -> Tables.specs s !! i <> Some r ->
  exists spec, from_json (SpecRow.config_json r) = Ok spec /\ respects scope (app_of s i) spec
    /\ (app_of s i = None -> Tables.specs s !! i = None).
Proof.
  intros He Hs Hs' Hr Hne. destruct He as [[Ets Ew]|s0 s0' spec json E E' Ew Hj Hc Hrow Hresp|s0 s0' id base E E' Hbase Htb Hc Hw].
  - congruence.
  - assert (s0 = s) as -> by congruence. assert (s0' = s') as -> by congruence. injection Hc as Hc _. rewrite Hc in Hr.
    apply upserted_lookup in Hr as [?|[-> <-]]; [done|]. exists spec. split; [by apply json_round_trip|done].
  - assert (s0 = s) as -> by congruence. assert (s0' = s') as -> by congruence. exfalso. apply Hne.
    destruct Hc as [Hc|Hc]; injection Hc as Hc _; rewrite Hc in Hr; [done|]. by apply lookup_delete_Some in Hr as [_ Hr].
Qed.
End Effects.

(** ** Sets of names *)

Definition name_lt : string -> string -> Prop := String_as_OT.lt.
#[local] Instance name_lt_trans : Transitive name_lt.
Proof. intros a b c. apply String_as_OT.lt_trans. Qed.

Lemma btree_insert_sorted x l : StronglySorted name_lt l -> StronglySorted name_lt (btree_insert x l).
Proof.
  induction 1 as [|y l Hs IH Hall]; [cbn; repeat constructor|]. cbn. destruct (String.compare x y) eqn:E.
  - by constructor.
  - apply String_as_OT.cmp_lt in E. constructor; [by constructor|]. constructor; [exact E|]. eapply Forall_impl; [exact Hall|].
    intros z Hz. exact (String_as_OT.lt_trans _ _ _ E Hz).
  - constructor; [done|]. rewrite String.compare_antisym in E. apply CompOpp_iff, String_as_OT.cmp_lt in E.
    apply list.Forall_forall. intros z [->|Hz]%btree_insert_elem; [exact E|]. rewrite list.Forall_forall in Hall. by apply Hall.
Qed.

Lemma btree_set_sorted l : StronglySorted name_lt (btree_set l).
Proof. induction l; [constructor|]. by apply btree_insert_sorted. Qed.

Lemma name_sorted_nodup l : StronglySorted name_lt l -> NoDup l.
Proof.
  induction 1 as [|x l _ IH Hall]; constructor; [|done]. intros Hx. rewrite list.Forall_forall in Hall.
  exact (String_as_OT.lt_not_eq _ _ (Hall _ Hx) eq_refl).
Qed.

(** The elements determine the set. *)
Lemma btree_set_ext l l' : (forall x, x ∈ l <-> x ∈ l') -> btree_set l = btree_set l'.
Proof.
  intros Hext. apply (StronglySorted_unique_strong name_lt); [| | |apply NoDup_Permutation]; try apply name_sorted_nodup; try apply btree_set_sorted.
  - intros x y _ _ Hxy Hyx. exfalso. exact (String_as_OT.lt_not_eq _ _ (String_as_OT.lt_trans _ _ _ Hxy Hyx) eq_refl).
  - intros x. by rewrite !btree_set_elem.
Qed.

(** ** An untouched edit *)

Lemma list_to_vec_join l : forallb clean_item l = true -> list_to_vec (str_join ", " l) = non_empty l.
Proof.
  intros Hl. rewrite <- (list_read (non_empty l)) by (by apply all_of_non_empty). by destruct l.
Qed.

(** The groups of the page, put back into those of the app. *)
Lemma shown_groups_merge scope groups : btree_set groups = groups ->
  let shown := EditorScope.merge_preserving_out_of_scope scope [] groups in
  EditorScope.may_assign_groups scope shown = true /\ EditorScope.merge_preserving_out_of_scope scope groups shown = groups
  /\ forall g, g ∈ shown -> g ∈ groups.
Proof.
  intros Hs. cbv zeta. unfold EditorScope.may_assign_groups, EditorScope.merge_preserving_out_of_scope.
  destruct (EditorScope.unscoped scope); cbn [orb].
  - split; [done|]. split; [by rewrite !Hs|]. by rewrite Hs.
  - split; [|split].
    + apply forallb_forall. intros g Hg%list_elem_of_In. rewrite btree_set_elem in Hg. cbn [List.filter app] in Hg. by apply filter_elem in Hg as [_ Hg].
    + rewrite <- Hs at 3. apply btree_set_ext. intros g. rewrite elem_of_app, !filter_elem, btree_set_elem. cbn [List.filter app].
      rewrite !filter_elem. destruct (EditorScope.has_group scope g); naive_solver.
    + intros g Hg. rewrite btree_set_elem in Hg. cbn [List.filter app] in Hg. by apply filter_elem in Hg as [Hg _].
Qed.

Lemma into_spec_groups today f v g base role spec : into_spec today f base role = Ok spec ->
  into_spec today (SpecForm.set_id (SpecForm.id f) (SpecForm.set_base_version v (SpecForm.set_access_groups g f))) base role
  = Ok (Spec.with_access (list_to_vec g) (Spec.require_mfa spec) (Spec.api spec) spec).
Proof. unfold into_spec. cbv zeta. by intros [= <-]. Qed.

(** The checks read neither the version nor the groups. *)
Lemma validate_ignores v g f mode :
  validate (SpecForm.set_id (SpecForm.id f) (SpecForm.set_base_version v (SpecForm.set_access_groups g f))) mode = validate f mode.
Proof. unfold validate, int_fields. destruct f. reflexivity. Qed.

Lemma with_access_twice g m a g' m' a' spec : Spec.with_access g m a (Spec.with_access g' m' a' spec) = Spec.with_access g m a spec.
Proof. by destruct spec. Qed.
Lemma with_access_same spec : Spec.with_access (Spec.access_groups spec) (Spec.require_mfa spec) (Spec.api spec) spec = spec.
Proof. by destruct spec. Qed.

Lemma edited_untouched today scope spec v :
  expressible spec -> EditorScope.may_touch_spec scope spec = true -> validate (from_spec spec) Edit = [] ->
  (let groups := default [] (Spec.access_groups spec) in btree_set groups = groups) ->
  edited today scope spec (SpecForm.set_id (Spec.id spec) (SpecForm.set_base_version v (show_groups scope spec (from_spec spec)))) = Ok spec.
Proof.
  cbv zeta. intros Hex Htouch Hval Hsorted. unfold edited.
  change (Spec.id spec) with (SpecForm.id (from_spec spec)). unfold show_groups. rewrite validate_ignores, Hval.
  rewrite (into_spec_groups _ _ _ _ _ _ _ (into_spec_fields today (EditorScope.role scope) spec Hex)).
  destruct (shown_groups_merge scope _ Hsorted) as (Hassign & Hmerge & Hsub).
  set (shown := EditorScope.merge_preserving_out_of_scope scope [] (default [] (Spec.access_groups spec))) in *.
  pose proof (ex_groups _ Hex) as Hclean. rewrite list_to_vec_join.
  2: { apply forallb_forall. intros g Hg%list_elem_of_In%Hsub. destruct (Spec.access_groups spec) as [l|]; [|by apply elem_of_nil in Hg].
       apply non_empty_some in Hclean as [_ Hl]. rewrite forallb_forall in Hl. by apply Hl, list_elem_of_In. }
  cbn [Spec.with_access Spec.access_groups]. cbv zeta. rewrite default_non_empty, Hassign, Hmerge. cbn [negb].
  assert (non_empty (default [] (Spec.access_groups spec)) = Spec.access_groups spec) as ->.
  { destruct (Spec.access_groups spec) as [l|]; [|done]. by apply non_empty_some in Hclean as [? _]. }
  rewrite with_access_twice. cbn [Spec.with_access Spec.require_mfa Spec.api]. by rewrite with_access_same, Htouch.
Qed.

Section Visits.
Context {B : Type} `{ContainerBackendLaws B} `{SpecCodecLaws} (collate : string -> string -> bool) (yaml : list Spec.t).
Abbreviation Desk := (Desk.t B).

Lemma form_page_form scope reads mode form created errors (d : Desk) page d' :
  form_page collate yaml scope reads mode form created errors d = (page, d') -> SpecFormPage.form page = form.
Proof. unfold form_page. intros (a & d1 & _ & (b & d2 & _ & [= <- _])%st_bind_inv)%st_bind_inv. done. Qed.

Lemma render_form scope reads mode form created (d : Desk) r d' :
  render collate yaml scope reads mode form created d = (r, d') -> exists page, r = Page page /\ SpecFormPage.form page = form.
Proof. unfold render. intros (page & d1 & Hp%form_page_form & [= <- _])%st_bind_inv. by exists page. Qed.

(** An app within reach is loaded, unless the statement fails. *)
Lemma load_app_known scope id absent (d : Desk) s spec r d' :
  tables d = Some s -> app_of s id = Some spec -> EditorScope.may_touch_spec scope spec = true ->
  load_app scope id absent d = (r, d') -> r = Ok spec \/ r = Err (ServerError "db error").
Proof.
  intros Hs Happ Ht. unfold load_app. intros (q & d1 & Hd & [= <- _])%st_bind_inv.
  apply on_db_inv in Hd as [(Hn & _ & _)|(db & db' & Hdb & Hf & _)]; [congruence|]. destruct q as [o|e]; [|by right].
  apply fetch_one_Ok in Hf as (_ & Ho & _). unfold tables in Hs. rewrite Hdb in Hs. injection Hs as <-.
  rewrite Happ in Ho. subst o. rewrite Ht. by left.
Qed.

Lemma fetch_version_Ok (d : Desk) id v d' s : tables d = Some s -> on_db (fetch_version id) d = (Ok v, d') ->
  v = SpecRow.version <$> Tables.specs s !! id.
Proof.
  intros Hs [(_ & [=] & _)|(db & db' & Hdb & Hf & _)]%on_db_inv. apply query_inv in Hf as [_ [[=]|[= ->]]].
  unfold tables in Hs. rewrite Hdb in Hs. by injection Hs as <-.
Qed.

(** The version that an edit page carries. *)
Lemma edit_form_page scope reads id created (d : Desk) page d' s spec :
  tables d = Some s -> app_of s id = Some spec ->
  edit_form collate yaml scope reads id created d = (Page page, d') ->
  EditorScope.may_touch_spec scope spec = true /\ exists v,
    SpecFormPage.form page = SpecForm.set_base_version (from_option show "" v) (show_groups scope spec (from_spec spec))
    /\ (v = None \/ v = SpecRow.version <$> Tables.specs s !! id).
Proof.
  intros Hs Happ. unfold edit_form, with_pool. destruct (CatalogState.db _); [|done]. intros (base & d1 & Hl & Hk)%st_bind_inv.
  destruct base as [base|resp].
  2: { revert Hl. unfold load_app. intros (q & d2 & _ & [= Hq _])%st_bind_inv. injection Hk as -> _.
       destruct q as [[x|]|e]; [destruct (EditorScope.may_touch_spec scope x)|..]; done. }
  apply load_app_Ok in Hl as (Hq & Ht & s0 & Hs0 & Happ0). assert (base = spec) as -> by congruence. split; [done|].
  apply st_bind_inv in Hk as (v & d2 & Hv & Hk). apply render_form in Hk as (page' & [= <-] & ->).
  destruct v as [[v|]|e]; [|by exists None; auto..]. exists (Some v). split; [done|]. right.
  eapply fetch_version_Ok; [|exact Hv]. by eapply tables_quiet.
Qed.

Lemma query_fault_free {A} context (f : Tables.t -> A) db : ConfigDb.faults db = [] ->
  query context f db = (Ok (f (ConfigDb.tables db)), db).
Proof. destruct db as [t fs]. cbn. by intros ->. Qed.

Definition fault_free (d : Desk) (s : Tables.t) : Prop := CatalogState.db (Desk.catalog d) = Some (ConfigDb.mk s []).

Lemma on_db_fault_free {A} (m : St Db (DbResult A)) (d : Desk) s r db' :
  fault_free d s -> m (ConfigDb.mk s []) = (r, db') -> on_db m d = (r, put_db db' d).
Proof. unfold fault_free, on_db, on_catalog. intros Hd Hm. by rewrite Hd, Hm. Qed.

Lemma load_app_fault_free scope id absent (d : Desk) s r d' :
  fault_free d s -> load_app scope id absent d = (r, d') -> fault_free d' s.
Proof.
  intros Hd. unfold load_app. intros (q & d1 & Hf & [= _ <-])%st_bind_inv.
  destruct (fetch_one id (ConfigDb.mk s [])) as [q' db'] eqn:E. rewrite (on_db_fault_free _ _ _ _ _ Hd E) in Hf. injection Hf as _ <-.
  unfold fault_free. cbn. f_equal. revert E. unfold fetch_one, try_bind, st_bind. rewrite query_fault_free by done. by intros [= _ <-].
Qed.
End Visits.

(** ** Properties *)

Section Properties.
Context {B : Type} `{ContainerBackendLaws B} `{SpecCodecLaws} (collate : string -> string -> bool) (yaml : list Spec.t).

(** C34. An Editor stays among the apps of the own groups.  Whatever request
    to the app pages an Editor sends, an app that is neither open nor in one of
    the Editor's groups keeps its row, its history and every replica; and every
    row written is of an app the Editor may reach, before and after: its
    volumes and labels are those it had (none for a new app) and its groups
    outside the Editor's are unchanged, neither added nor removed.  (The ids
    of edited apps carry no blanks at their ends; no other request runs in
    between.) *)
Theorem editor_app_requests_confined today now info fetch reads req d r d' s :
  SessionInfo.role info <> Role.Admin -> let scope := EditorScope.from_editor info fetch in
  handle collate yaml Others.none today now scope reads req d = (r, d') ->
  (forall id form, req = Update id form -> trim id = id) -> Registry.wf (World.replicas (Desk.world d)) -> tables d = Some s ->
  (forall i spec, app_of s i = Some spec -> EditorScope.may_touch_spec scope spec = false ->
    exists s', tables d' = Some s' /\ Tables.specs s' !! i = Tables.specs s !! i /\ history i s' = history i s
      /\ forall j q, Registry.by_id (World.replicas (Desk.world d)) !! j = Some q -> Replica.spec_id q = i ->
           Registry.by_id (World.replicas (Desk.world d')) !! j = Some q)
  /\ (forall s' i row, tables d' = Some s' -> Tables.specs s' !! i = Some row -> Tables.specs s !! i <> Some row ->
    exists spec, from_json (SpecRow.config_json row) = Ok spec /\ EditorScope.may_touch_spec scope spec = true
      /\ (forall base, app_of s i = Some base -> EditorScope.may_touch_spec scope base = true)
      /\ Spec.volumes spec = app_of s i ≫= Spec.volumes /\ Spec.labels spec = app_of s i ≫= Spec.labels
      /\ forall g, EditorScope.has_group scope g = false ->
           g ∈ default [] (Spec.access_groups spec) <-> g ∈ default [] (app_of s i ≫= Spec.access_groups)).
Proof.
  intros Hrole scope Hrun Hid Hwf Hs. apply handle_effect in Hrun; [|done].
  assert (EditorScope.unscoped scope = false /\ EditorScope.role scope <> Role.Admin) as [Hun Hr].
  { subst scope. unfold EditorScope.from_editor. by rewrite bool_decide_false. }
  split; [intros; by eapply effect_spares|]. intros s' i row Hs' Hrow Hne.
  destruct (effect_writes _ _ _ _ _ _ _ _ Hrun Hs Hs' Hrow Hne) as (spec & Hj & [[Hreach Hb] Hvol Hlab Hg] & _).
  exists spec. split; [done|]. split; [done|]. split; [|split; [auto|split; [done|auto]]].
  intros base Hbase. by rewrite Hbase in Hb.
Qed.

(** An untouched edit writes nothing.  Opening the edit page of an app
    the form can express, whose groups are in order, and submitting the form
    as it came leaves every row, every version and every replica as they were,
    for an Admin and, whatever groups of others the app has, for an Editor;
    the answer is the redirect back to the page unless a statement fails. *)
Theorem untouched_edit_writes_nothing today now scope reads reads' id created d page d1 r d2 s row spec :
  tables d = Some s -> Tables.specs s !! id = Some row -> canonical_json spec = Ok (SpecRow.config_json row) -> Spec.id spec = id ->
  i64_min <= SpecRow.version row <= i64_max -> expressible spec -> validate (from_spec spec) Edit = [] ->
  (let groups := default [] (Spec.access_groups spec) in btree_set groups = groups) ->
  handle (B := B) collate yaml Others.none today now scope reads (EditForm id created) d = (Page page, d1) ->
  handle collate yaml Others.none today now scope reads' (Update id (SpecFormPage.form page)) d1 = (r, d2) ->
  (exists s2, tables d2 = Some s2 /\ Tables.specs s2 = Tables.specs s /\ Tables.spec_versions s2 = Tables.spec_versions s)
  /\ Desk.world d2 = Desk.world d /\ (r = Redirect ("/admin/specs/" +:+ id +:+ "/edit") \/ exists m, r = ServerError m).
Proof.
  intros Hs Hrow Hj <- Hver Hex Hval Hsort Hopen Hsave. cbn [handle] in Hopen, Hsave. set (id := Spec.id spec) in *.
  assert (app_of s id = Some spec) as Happ by (unfold app_of; rewrite Hrow; cbn; by rewrite (json_round_trip _ _ Hj)).
  pose proof (run_of quiet _ _ _ _ (quiet_edit_form collate yaml scope reads id created) Hopen) as [Hq1 Hw1].
  destruct (edit_form_page collate yaml _ _ _ _ _ _ _ _ _ Hs Happ Hopen) as (Htouch & v & Hform & Hv). rewrite Hform in Hsave.
  rewrite <- Hq1 in Hs. rewrite <- Hw1. clear Hopen Hq1 Hw1. unfold update, with_pool in Hsave.
  destruct (CatalogState.db (Desk.catalog d1)) eqn:Edb; [|unfold tables in Hs; by rewrite Edb in Hs]. cbv zeta in Hsave.
  assert (forall d' : Desk.t B, quiet d1 d' -> exists s2, tables d' = Some s2 /\ Tables.specs s2 = Tables.specs s
    /\ Tables.spec_versions s2 = Tables.spec_versions s) as Hdone by (intros d' [-> _]; by exists s).
  apply st_bind_inv in Hsave as (base & d3 & Hl & Hk).
  pose proof (run_of quiet _ _ _ _ (quiet_load_app _ _ _) Hl) as Hq3.
  destruct (load_app_known _ _ _ _ _ _ _ _ Hs Happ Htouch Hl) as [-> | ->]; [|injection Hk as <- <-; split; [auto|]; split; [apply Hq3|eauto]].
  subst id. rewrite edited_untouched in Hk by done.
  apply st_bind_inv in Hk as (u & d4 & Hm & Hk). pose proof (run_of quiet _ _ _ _ quiet_meanwhile_none Hm) as Hq4.
  apply st_bind_inv in Hk as (stale & d5 & Hc & Hk).
  assert (quiet d1 d5 /\ stale = None) as [Hq5 ->].
  { assert (quiet d1 d4) as Hq14 by (by etransitivity). pose proof (tables_quiet _ _ _ Hq14 Hs) as Hs4. revert Hc.
    cbn [SpecForm.set_id SpecForm.set_base_version SpecForm.base_version].
    destruct v as [v|]; cbn [from_option]; [|change (parse_int "") with (@None Z); intros [= <- <-]; by split].
    destruct Hv as [[=]|Hv]. rewrite Hrow in Hv. injection Hv as ->.
    change (show (SpecRow.version row)) with (shown (Some (SpecRow.version row))).
    rewrite (parse_int_shown (Some (SpecRow.version row))) by (cbn; apply andb_true_iff; split; apply Z.leb_le; lia).
    intros (cur & d6 & Hf & [= <- <-])%st_bind_inv. split; [transitivity d4; [done|]; exact (run_of quiet _ _ _ _ (quiet_fetch_version _) Hf)|].
    destruct cur as [cur|e]; [|done]. rewrite (fetch_version_Ok _ _ _ _ _ Hs4 Hf), Hrow. cbn. by rewrite Z.eqb_refl. }
  apply st_bind_inv in Hk as (u' & d6 & Hm' & Hk). pose proof (run_of quiet _ _ _ _ quiet_meanwhile_none Hm') as Hq6.
  assert (quiet d1 d6) as Hq16 by (by etransitivity). pose proof (tables_quiet _ _ _ Hq16 Hs) as Hs6.
  apply st_bind_inv in Hk as (saved & d7 & Hu & [= <- <-]).
  apply on_db_inv in Hu as [(Hn & _ & _)|(db & db' & Hdb & Hu & ->)]; [congruence|].
  destruct (tables_put db db' d6 Hdb) as (E & E' & Ew). rewrite E', Ew. split; [|split; [apply Hq16|destruct saved; eauto]].
  exists (ConfigDb.tables db'). split; [done|]. assert (ConfigDb.tables db = s) as Hdbs by congruence.
  apply upsert_one_core in Hu as [->|(json & Hj' & Hc')]; [by rewrite Hdbs|]. rewrite Hdbs in Hc'.
  assert (upserted spec json now s = s) as Hup.
  { apply stored_unchanged; [done|]. by exists (SpecRow.config_json row), row. }
  rewrite Hup in Hc'. by injection Hc'.
Qed.

(** A stale edit is refused.  Whatever others commit while the request
    runs, an edit that carries the version it was opened at saves nothing when
    the check finds another version in the row, and does not answer that it
    did.  (The statements of the request succeed: where reading the version
    fails the check is skipped.) *)
Theorem stale_edit_refused others today now scope reads id form d r d' s row submitted :
  fault_free (B := B) d s -> parse_int (SpecForm.base_version form) = Some submitted ->
  Tables.specs (Others.before_check others s) !! id = Some row -> SpecRow.version row <> submitted ->
  handle collate yaml others today now scope reads (Update id form) d = (r, d') ->
  (tables d' = Some s \/ tables d' = Some (Others.before_check others s)) /\ Desk.world d' = Desk.world d
  /\ forall location, r <> Redirect location.
Proof.
  intros Hd Hsub Hrow Hne. cbn [handle]. unfold update, with_pool. rewrite Hd. cbv zeta.
  set (f := SpecForm.set_id id form). intros (base & d1 & Hl & Hk)%st_bind_inv.
  pose proof (load_app_fault_free _ _ _ _ _ _ _ Hd Hl) as Hd1. pose proof (run_of quiet _ _ _ _ (quiet_load_app _ _ _) Hl) as [_ Hw1].
  assert (tables d1 = Some s) as Ht1 by (unfold tables; by rewrite Hd1). rewrite <- Hw1.
  assert (forall scope' errors e d'', render_form_with_errors collate yaml scope' reads Edit errors e d1 = (r, d'') ->
            quiet d1 d'' /\ forall location, r <> Redirect location) as Hpage.
  { intros scope' g e d'' Hp. split; [by apply (run_of quiet _ _ _ _ (quiet_render_errors _ _ _ _ _ _ _)) in Hp|].
    revert Hp. unfold render_form_with_errors. intros (pg & d2 & _ & [= <- _])%st_bind_inv. done. }
  destruct base as [base|resp].
  2: { injection Hk as <- <-. split; [by left|]. split; [done|]. revert Hl. unfold load_app. intros (q & d2 & _ & [= Hq _])%st_bind_inv l ->.
       destruct q as [[x|]|e]; [destruct (EditorScope.may_touch_spec scope x)|..]; done. }
  destruct (edited today scope base f) as [spec|[resp|errors]] eqn:Ee.
  - apply st_bind_inv in Hk as (u & d2 & Hm & Hk).
    assert (d2 = put_db (ConfigDb.mk (Others.before_check others s) []) d1) as ->.
    { unfold meanwhile in Hm. erewrite on_db_fault_free in Hm; [|exact Hd1|reflexivity]. by injection Hm as _ <-. }
    change (SpecForm.base_version f) with (SpecForm.base_version form) in Hk. rewrite Hsub in Hk.
    apply st_bind_inv in Hk as (stale & d3 & Hc & Hk). apply st_bind_inv in Hc as (cur & d4 & Hf & [= <- <-]).
    unfold fetch_version in Hf. erewrite on_db_fault_free in Hf; [|reflexivity|apply query_fault_free; reflexivity]. injection Hf as <- <-.
    cbn [ConfigDb.tables] in Hk. rewrite Hrow in Hk. cbn [fmap option_fmap option_map] in Hk. rewrite (proj2 (Z.eqb_neq _ _) Hne) in Hk.
    pose proof (run_of quiet _ _ _ _ (quiet_render_errors _ _ _ _ _ _ _) Hk) as [Ht Hw]. split; [right; by rewrite Ht|]. split; [by rewrite Hw|].
    revert Hk. unfold render_form_with_errors. intros (pg & d5 & _ & [= <- _])%st_bind_inv. done.
  - injection Hk as <- <-. split; [by left|]. split; [done|]. intros l ->. revert Ee. unfold edited.
    destruct (validate f Edit); [|done]. destruct (into_spec _ _ _ _); [|done]. cbv zeta. destruct (negb _); [done|]. by destruct (EditorScope.may_touch_spec _ _).
  - apply Hpage in Hk as [[Ht Hw] Hr]. split; [left; by rewrite Ht|]. by split.
Qed.
End Properties.

(** ** Examples *)

Module SpecRoutesExamples.
Definition today : string := "2026-01-31".
Definition saved (groups : string) : Spec.t :=
  match into_spec today (SpecForm.set_access_groups groups (SpecFormExamples.form "2")) None Role.Admin with
  | Ok s => s | Err _ => SpecFormExamples.plain end.
Definition demo : Spec.t := saved "sales, staff".
Definition payroll : Spec.t := Spec.with_access (Some ["hr"]) None None (Spec.sample "payroll" (Some "img:1") None None None None None).

(** An Editor of the group [sales], who archives the app. *)
Definition info : SessionInfo.t := SessionInfo.mk Role.Editor (Some "ana").
Definition fetch (username : string) : Result (option UserRow.t) string :=
  Ok (Some (UserRow.mk "1" username Role.Editor false ["sales"] 0 None None None None)).
Definition scope : EditorScope.t := EditorScope.from_editor info (Some fetch).
Definition reads : PageReads.t := PageReads.mk [] [] [["sales"]].
Definition shown_form : SpecForm.t := SpecForm.set_base_version "1" (show_groups scope demo (from_spec demo)).
Definition archive : SpecForm.t := SpecForm.set_state "inactive" shown_form.
Definition archived : Spec.t := match edited today scope demo archive with Ok s => s | Err _ => demo end.

(** An app whose id, imported from a file, starts with a blank, and what an edit of it saves. *)
Definition padded : Spec.t := Spec.with_access (Some ["sales"]) None None (Spec.sample " payroll" (Some "img:1") None None None None None).
Definition unpadded : Spec.t := match edited today scope padded (SpecForm.set_id " payroll" archive) with Ok s => s | Err _ => padded end.

Definition known : list (string * Spec.t) :=
  [("demo1", demo); ("demo2", archived); ("payroll1", payroll); ("padded1", padded); ("payroll2", unpadded)].
#[local] Instance codec : SpecCodec := {
  to_json s := match List.find (fun p => bool_decide (p.2 = s)) known with Some p => Ok p.1 | None => Err (Failed "encode") end;
  from_json j := match List.find (fun p => str_eqb p.1 j) known with Some p => Ok p.2 | None => Err (Failed "decode") end;
  proxy_json _ := Ok "{}"; server_json _ := Ok "{}"; logging_json _ := Ok "{}" }.
#[local] Instance codec_laws : SpecCodecLaws.
Proof.
  constructor. intros s j. cbn -[bool_decide known]. destruct (List.find _ known) as [p|] eqn:E; [|done]. intros [= <-].
  apply List.find_some in E as [Hin Hp]. apply bool_decide_eq_true in Hp. subst s. unfold known in Hin.
  repeat destruct Hin as [<-|Hin]; by vm_compute.
Defined.

Definition put (spec : Spec.t) (db : Db) : Db := (upsert_one spec None 5 db).2.
Definition store : Db := put payroll (put demo (ConfigDb.mk Tables.empty [])).
Definition desk : Desk.t CountingBackend.t := Desk.mk (CatalogState.mk (Some store) None) SpawnExamples.roomy.
Abbreviation run req := (handle (B := CountingBackend.t) ExampleStore.collate [] Others.none today 9 scope reads req).
Definition json_of (d : Desk.t CountingBackend.t) (id : string) : option string :=
  s ← tables d; SpecRow.config_json <$> Tables.specs s !! id.

Example editor_archives : let '(r, d) := run (Update "demo" archive) desk in
  r = Redirect "/admin/specs/demo/edit" /\ json_of d "demo" = Some "demo2" /\ json_of d "payroll" = Some "payroll1".
Proof. by vm_compute. Qed.

Lemma editor_app_requests_confined_witness :
  let d' := (run (Update "demo" archive) desk).2 in json_of d' "demo" = Some "demo2" /\ json_of d' "payroll" = Some "payroll1".
Proof.
  split; [by vm_compute|].
  assert (forall i spec, app_of (ConfigDb.tables store) i = Some spec -> EditorScope.may_touch_spec scope spec = false ->
    json_of (run (Update "demo" archive) desk).2 i = SpecRow.config_json <$> Tables.specs (ConfigDb.tables store) !! i) as Hspared.
  { intros i spec Happ Ht.
    pose proof (editor_app_requests_confined ExampleStore.collate [] today 9 info (Some fetch) reads (Update "demo" archive) desk) as Hc.
    specialize (Hc _ _ (ConfigDb.tables store) ltac:(done) (surjective_pairing _)).
    destruct Hc as [Hs _].
    - by intros id form [= <- _].
    - apply world_registry, SpawnExamples.numbered_wf. by vm_compute.
    - reflexivity.
    - destruct (Hs i spec Happ Ht) as (s' & Hs' & Hrow & _). unfold json_of.
      change (EditorScope.from_editor info (Some fetch)) with scope in Hs'. rewrite Hs'. cbn [mbind option_bind]. by rewrite Hrow. }
  by rewrite (Hspared "payroll" payroll) by (by vm_compute).
Defined.

Definition opened (r : Response * Desk.t CountingBackend.t) : SpecForm.t :=
  match r.1 with Page page => SpecFormPage.form page | _ => SpecForm.default_form end.

Lemma demo_expressible : expressible demo.
Proof.
  apply (saved_expressible today (SpecForm.set_access_groups "sales, staff" (SpecFormExamples.form "2")) None Role.Admin New); try by vm_compute. by left.
Defined.

(** Of the two groups the Editor sees one; the app keeps both. *)
Example untouched_edit :
  let visit := run (EditForm "demo" None) desk in let saved := run (Update "demo" (opened visit)) visit.2 in
  saved.1 = Redirect "/admin/specs/demo/edit" /\ SpecForm.access_groups (opened visit) = "sales" /\ json_of saved.2 "demo" = Some "demo1".
Proof. by vm_compute. Qed.

Lemma untouched_edit_writes_nothing_witness :
  exists page d1 r d2, run (EditForm "demo" None) desk = (Page page, d1) /\ run (Update "demo" (SpecFormPage.form page)) d1 = (r, d2)
    /\ Tables.spec_versions <$> tables d2 = Some (Tables.spec_versions (ConfigDb.tables store)).
Proof.
  assert (match Tables.specs (ConfigDb.tables store) !! "demo" with
          | Some row => canonical_json demo = Ok (SpecRow.config_json row) /\ i64_min <= SpecRow.version row <= i64_max
          | None => False end) as Hrow'.
  { vm_compute. split; [reflexivity|split; discriminate]. }
  destruct (Tables.specs (ConfigDb.tables store) !! "demo") as [row|] eqn:Hrow; [|exfalso; exact Hrow'].
  destruct Hrow' as [Hj Hver]. assert (tables desk = Some (ConfigDb.tables store)) as Htab by (by vm_compute).
  assert (Spec.id demo = "demo") as Hid by (by vm_compute).
  assert (validate (from_spec demo) Edit = []) as Hval by (by vm_compute).
  assert (let groups := default [] (Spec.access_groups demo) in btree_set groups = groups) as Hsort by (by vm_compute).
  assert (match (run (EditForm "demo" None) desk).1 with Page _ => True | _ => False end) as Hpage by (by vm_compute).
  destruct (run (EditForm "demo" None) desk) as [resp d1] eqn:Hopen. destruct resp as [| | | |page| |]; try (exfalso; exact Hpage).
  destruct (run (Update "demo" (SpecFormPage.form page)) d1) as [r d2] eqn:Hsave. exists page, d1, r, d2.
  split; [reflexivity|]. split; [exact Hsave|].
  pose proof (untouched_edit_writes_nothing ExampleStore.collate [] today 9 scope reads reads "demo" None desk page d1 r d2
    (ConfigDb.tables store) row demo Htab Hrow Hj Hid Hver demo_expressible Hval Hsort Hopen Hsave) as H.
  destruct H as [(s2 & Hs2 & _ & Hvs) _]. rewrite Hs2. cbn [fmap option_fmap option_map]. rewrite Hvs. reflexivity.
Defined.

(** Another Editor saves while the request runs. *)
Definition concurrent (s : Tables.t) : Tables.t := ConfigDb.tables (put archived (ConfigDb.mk s [])).
Abbreviation update_beside others form :=
  (handle (B := CountingBackend.t) ExampleStore.collate [] others today 9 scope reads (Update "demo" form)).

Definition beside : Others.t := Others.mk concurrent (fun s => s).
Lemma stale_edit_refused_witness :
  exists r d', update_beside beside shown_form desk = (r, d') /\ (forall location, r <> Redirect location)
    /\ (tables d' = Some (ConfigDb.tables store) \/ tables d' = Some (Others.before_check beside (ConfigDb.tables store))).
Proof.
  assert (match Tables.specs (Others.before_check beside (ConfigDb.tables store)) !! "demo" with
          | Some row => SpecRow.version row = 2 | None => False end) as Hver by (by vm_compute).
  destruct (Tables.specs (Others.before_check beside (ConfigDb.tables store)) !! "demo") as [row|] eqn:Hrow; [|exfalso; exact Hver].
  assert (fault_free desk (ConfigDb.tables store)) as Hdb by (by vm_compute).
  assert (parse_int (SpecForm.base_version shown_form) = Some 1) as Hsub by (by vm_compute).
  destruct (update_beside beside shown_form desk) as [r d'] eqn:Hrun. exists r, d'. split; [reflexivity|].
  assert (SpecRow.version row <> 1) as Hne by (rewrite Hver; discriminate).
  pose proof (stale_edit_refused ExampleStore.collate [] beside today 9 scope reads "demo" shown_form desk r d'
    (ConfigDb.tables store) row 1 Hdb Hsub Hrow Hne Hrun) as (Htables & _ & Hr).
  split; [exact Hr|exact Htables].
Defined.

(** The check and the save are two transactions: what is saved in between is overwritten. *)
Example edit_between_check_and_save_lost :
  let r := update_beside (Others.mk (fun s => s) concurrent) shown_form desk in
  r.1 = Redirect "/admin/specs/demo/edit" /\ json_of r.2 "demo" = Some "demo1"
  /\ SpecRow.config_json <$> Tables.specs (concurrent (ConfigDb.tables store)) !! "demo" = Some "demo2".
Proof. by vm_compute. Qed.

(** Where the version cannot be read, the stale edit is saved. *)
Example unread_version_not_checked :
  let failing := Desk.mk (CatalogState.mk (Some (ConfigDb.mk (concurrent (ConfigDb.tables store)) [false; true])) None) SpawnExamples.roomy in
  let r := update_beside Others.none shown_form failing in r.1 = Redirect "/admin/specs/demo/edit" /\ json_of r.2 "demo" = Some "demo1".
Proof. by vm_compute. Qed.

(** A submitted edit of a foreign app is answered otherwise than one of no app. *)
Example foreign_app_disclosed :
  (run (Update "payroll" archive) desk).1 = NotFound "spec not found"
  /\ (run (Update "nothing" archive) desk).1 = NotFound "spec `nothing` not found"
  /\ (run (Delete "payroll") desk).1 = (run (Delete "nothing") desk).1
  /\ (run (EditForm "payroll" None) desk).1 = (run (EditForm "nothing" None) desk).1.
Proof. by vm_compute. Qed.

(** An edit of an app whose id has a blank at its start saves over the app of the trimmed id, a foreign one. *)
Example padded_id_overwrites :
  let d := Desk.mk (CatalogState.mk (Some (put padded store)) None) SpawnExamples.roomy in
  let r := run (Update " payroll" archive) d in
  r.1 = Redirect "/admin/specs/ payroll/edit" /\ json_of d "payroll" = Some "payroll1" /\ json_of r.2 "payroll" = Some "payroll2".
Proof. by vm_compute. Qed.
End SpecRoutesExamples.
