(* ===== verification/Pulls.v ===== *)
(** * Pulls: image checks and image pulls (routes/admin/spec_form.rs)

    The editor's image check, and the pulls it starts.  A start takes one of
    four permits, then waits for the daemon and for the database, so the other
    requests run in between, and may be cancelled at either wait; the permit
    then rides into the task that forwards the daemon's lines into a bounded
    channel; the browser follows the channel once, under a token.  What a
    handler does between two waits, and the turns of tasks, followers and
    timers, are the transitions on one state.  A token is a fresh UUID, a
    request a number, the daemon's progress a list of lines. *)

From Stdlib Require Import Ascii String ZArith Lia.
From stdpp Require Import base tactics list gmap strings fin_maps numbers.
From S2P Require Import Prelude Text Schema Core Spawn Bollard Docker Auth Database SpecStore SpecRoutes.

Local Open Scope string_scope.
Local Open Scope list_scope.
Local Open Scope Z_scope.
Local Open Scope ruscker_scope.

(** ** State *)

(** What the handlers call of a container backend. *)
Class ImageBackend (D : Type) := {
  has_image : string -> St D (CoreResult bool);
  start_daemon_pull : string -> option RegistryCredentials.t -> option string -> St D (CoreResult (list string))
}.

#[global] Instance docker_image_backend {D} `{Docker D, System D, Formats} : ImageBackend (LocalDockerBackend.t D) := {
  has_image := image_present;
  start_daemon_pull := pull_image
}.

Inductive PullEvent := Line (l : string) | Done.

(** The receiving end of a channel: in [PULL_JOBS], taken, or dropped. *)
Inductive Receiver := Parked | Followed | Gone.

(** A pull: the lines the daemon has yet to send, whether its task runs, the
    channel, and what its follower was sent. *)
Module Pull.
Record t := mk { stream : list string; sending : bool; queue : list PullEvent; receiver : Receiver; delivered : list PullEvent }.
Definition started (lines : list string) : t := mk lines true [] Parked [].
Definition ended (p : t) : t := mk (stream p) false (queue p) (receiver p) (delivered p).
Definition sent (ev : PullEvent) (rest : list string) (p : t) : t := mk rest (sending p) (queue p ++ [ev]) (receiver p) (delivered p).
Definition set_receiver (r : Receiver) (p : t) : t := mk (stream p) (sending p) (queue p) r (delivered p).
Definition drop_receiver (p : t) : t := mk (stream p) (sending p) [] Gone (delivered p).
End Pull.

(** A request inside [start_pull], which holds a permit: waiting for the
    daemon, for the provenance write, about to register its task; or over. *)
Module Start.
Inductive stage := Calling | Opened (lines : list string) | Recorded (lines : list string) | Over.
Record t := mk { image : string; creds : option RegistryCredentials.t; at_ : stage }.
Definition holds (x : t) : bool := match at_ x with Over => false | _ => true end.
Definition reach (st : stage) (x : t) : t := mk (image x) (creds x) st.
End Start.

Definition PULL_CHANNEL_CAP : Z := 256.
Definition MAX_CONCURRENT_PULLS : Z := 4.
Definition PULL_JOB_TTL_SECS : Z := 300.

(** The parts of [AppState] in use, and the statics [PULL_SLOTS] and
    [PULL_JOBS]; [starts] are the requests that entered [start_pull], [pulls]
    the running and finished pulls by token. *)
Module PullDesk.
Record t {D : Type} := mk {
  backend : option D; db : option Db; slots : Z; jobs : gset string; starts : gmap N Start.t; pulls : gmap string Pull.t }.
Arguments t : clear implicits.
Arguments mk {D}.
Section Setters.
Context {D : Type}.
Definition set_backend (b : D) (s : t D) : t D := mk (Some b) (db s) (slots s) (jobs s) (starts s) (pulls s).
Definition set_db (x : Db) (s : t D) : t D := mk (backend s) (Some x) (slots s) (jobs s) (starts s) (pulls s).
Definition set_slots (x : Z) (s : t D) : t D := mk (backend s) (db s) x (jobs s) (starts s) (pulls s).
Definition set_jobs (x : gset string) (s : t D) : t D := mk (backend s) (db s) (slots s) x (starts s) (pulls s).
Definition set_start (r : N) (x : Start.t) (s : t D) : t D :=
  mk (backend s) (db s) (slots s) (jobs s) (<[r := x]> (starts s)) (pulls s).
Definition set_pull (token : string) (p : Pull.t) (s : t D) : t D :=
  mk (backend s) (db s) (slots s) (jobs s) (starts s) (<[token := p]> (pulls s)).
End Setters.
(** With no pull yet. *)
Definition fresh {D} (b : option D) (d : option Db) : t D := mk b d MAX_CONCURRENT_PULLS ∅ ∅ ∅.
End PullDesk.

Inductive Answer :=
  | Status (status : string)
  | Job (token : string)
  | Stream (token : string)
  | Invalid (message : string)
  | Missing (message : string)
  | Unavailable (message : string)
  | Gateway (message : string)
  | Internal (message : string).

Section Pulls.
Context {D : Type} `{ImageBackend D} `{SpecCodec}.
Abbreviation PM A := (St (PullDesk.t D) A).

(** [image.contains("${")] *)
Definition unresolved (image : string) : bool := str_contains "${" image.

(** *** Image check *)

Definition image_check (image : string) : PM Answer := fun s =>
  let image := trim image in
  if str_is_empty image then (Status "empty", s)
  else if unresolved image then (Status "unresolved", s)
  else match PullDesk.backend s with
       | None => (Status "no-backend", s)
       | Some b => let '(r, b') := has_image image b in
                   (Status (match r with Ok true => "present" | Ok false => "absent" | Err _ => "error" end), PullDesk.set_backend b' s)
       end.

(** *** Starting a pull *)

(** The credential store is there when the database and the master key are. *)
Definition resolve_pull_creds (env : Env.t) (credential : string) : option RegistryCredentials.t :=
  let name := trim credential in
  if str_is_empty name then None
  else store ← Env.credential_store env; match store name with Ok creds => creds | Err _ => None end.

(** [ruscker_images::remember] of one image; an error is only logged. *)
Definition remember (image : string) (now : Z) : PM unit := st_modify (fun s =>
  match PullDesk.db s with
  | Some db => if str_is_empty (trim image) then s
               else PullDesk.set_db (execute ("record ruscker image " +:+ trim image) (fun tables =>
                      Tables.set_ruscker_images
                        (match Tables.ruscker_images tables !! trim image with
                         | Some _ => Tables.ruscker_images tables
                         | None => <[trim image := now]> (Tables.ruscker_images tables) end) tables) db).2 s
  | None => s
  end).

(** [start_pull] up to its first wait: the permit comes before the daemon is
    touched.  [None]: the request goes on. *)
Definition start_pull (r : N) (image : string) (creds : option RegistryCredentials.t) : PM (option Answer) := fun s =>
  match PullDesk.backend s with
  | None => (Some (Unavailable "Docker backend not connected"), s)
  | Some _ =>
    if PullDesk.slots s <=? 0 then (Some (Unavailable "too many image pulls in progress; retry shortly"), s)
    else (None, PullDesk.set_start r (Start.mk image creds Start.Calling) (PullDesk.set_slots (PullDesk.slots s - 1) s))
  end.

(** Leaving [start_pull] early drops the permit. *)
Definition drop_permit (r : N) (x : Start.t) (s : PullDesk.t D) : PullDesk.t D :=
  PullDesk.set_start r (Start.reach Start.Over x) (PullDesk.set_slots (PullDesk.slots s + 1) s).

(** The daemon answers. *)
Definition open_stream (r : N) (s : PullDesk.t D) : option (option Answer * PullDesk.t D) :=
  x ← PullDesk.starts s !! r;
  b ← PullDesk.backend s;
  match Start.at_ x with
  | Start.Calling =>
    let '(res, b') := start_daemon_pull (Start.image x) (Start.creds x) None b in
    let s := PullDesk.set_backend b' s in
    match res with
    | Err e => Some (Some (Gateway ("pull failed: " +:+ CoreError.display e)), drop_permit r x s)
    | Ok lines => Some (None, PullDesk.set_start r (Start.reach (Start.Opened lines) x) s)
    end
  | _ => None
  end.

(** The provenance write is over. *)
Definition record_image (r : N) (now : Z) (s : PullDesk.t D) : option (PullDesk.t D) :=
  x ← PullDesk.starts s !! r;
  match Start.at_ x with
  | Start.Opened lines => Some (PullDesk.set_start r (Start.reach (Start.Recorded lines) x) (remember (Start.image x) now s).2)
  | _ => None
  end.

(** The rest of [start_pull]: the task takes the permit, the registry the
    receiver. *)
Definition register (r : N) (token : string) (s : PullDesk.t D) : option (Answer * PullDesk.t D) :=
  x ← PullDesk.starts s !! r;
  match Start.at_ x with
  | Start.Recorded lines =>
    let s := PullDesk.set_start r (Start.reach Start.Over x) (PullDesk.set_pull token (Pull.started lines) s) in
    Some (Job token, PullDesk.set_jobs ({[token]} ∪ PullDesk.jobs s) s)
  | _ => None
  end.

(** The browser cancels a request that waits. *)
Definition cancel (r : N) (s : PullDesk.t D) : option (PullDesk.t D) :=
  x ← PullDesk.starts s !! r;
  if Start.holds x then Some (drop_permit r x s) else None.

Definition image_pull_start (env : Env.t) (r : N) (image credential : string) : PM (option Answer) :=
  let image := trim image in
  if str_is_empty image || unresolved image then st_ret (Some (Invalid "image name required (and must be free of ${…})"))
  else start_pull r image (resolve_pull_creds env credential).

Definition image_repull (env : Env.t) (scope : EditorScope.t) (r : N) (id : string) : PM (option Answer) := fun s =>
  match PullDesk.db s with
  | None => (Some (Unavailable "database not attached"), s)
  | Some db =>
    let '(res, db') := fetch_one id db in
    let s := PullDesk.set_db db' s in
    match res with
    | Err _ => (Some (Internal "db error"), s)
    | Ok None => (Some (Missing "no such app"), s)
    | Ok (Some spec) =>
      if negb (EditorScope.may_touch_spec scope spec) then (Some (Missing "no such app"), s)
      else
        match nonempty (trim <$> Spec.container_image spec) with
        | None => (Some (Invalid "this app has no container image to update"), s)
        | Some image =>
          if unresolved image then (Some (Invalid "image name still contains ${…}"), s)
          else match resolve_creds env spec with
               | Err e => (Some (Gateway ("credential error: " +:+ e)), s)
               | Ok creds => start_pull r image creds s
               end
        end
    end
  end.

(** *** The task, the follower, the timer *)

Definition release (token : string) (p : Pull.t) (s : PullDesk.t D) : PullDesk.t D :=
  PullDesk.set_slots (PullDesk.slots s + 1) (PullDesk.set_pull token (Pull.ended p) s).

(** One turn of [forward_pull]: [None] while the channel is full.  A send to a
    dropped receiver ends the task. *)
Definition forward_pull (token : string) (s : PullDesk.t D) : option (PullDesk.t D) :=
  p ← PullDesk.pulls s !! token;
  if negb (Pull.sending p) then None
  else
    let room := zlen (Pull.queue p) <? PULL_CHANNEL_CAP in
    match Pull.receiver p, Pull.stream p with
    | Gone, _ => Some (release token p s)
    | _, line :: rest => if room then Some (PullDesk.set_pull token (Pull.sent (Line line) rest p) s) else None
    | _, [] => if room then Some (release token (Pull.sent Done [] p) s) else None
    end.

(** The follower takes the receiver out of the registry. *)
Definition image_pull_events (token : string) : PM Answer := fun s =>
  if bool_decide (token ∈ PullDesk.jobs s)
  then
    let s := PullDesk.set_jobs (PullDesk.jobs s ∖ {[token]}) s in
    match PullDesk.pulls s !! token with
    | Some p => match Pull.receiver p with
                | Parked => (Stream token, PullDesk.set_pull token (Pull.set_receiver Followed p) s)
                | Followed | Gone => (Missing "pull job already followed", s)
                end
    | None => (Missing "pull job already followed", s)
    end
  else (Missing "unknown or already-followed pull job", s).

(** The response stream yields the next event; it ends after [Done]. *)
Definition receive (token : string) (s : PullDesk.t D) : option (PullDesk.t D) :=
  p ← PullDesk.pulls s !! token;
  match Pull.receiver p, Pull.queue p with
  | Followed, ev :: queue =>
    let p := Pull.mk (Pull.stream p) (Pull.sending p) queue (Pull.receiver p) (Pull.delivered p ++ [ev]) in
    Some (PullDesk.set_pull token (match ev with Done => Pull.drop_receiver p | Line _ => p end) s)
  | _, _ => None
  end.

(** The browser goes away. *)
Definition disconnect (token : string) (s : PullDesk.t D) : option (PullDesk.t D) :=
  p ← PullDesk.pulls s !! token;
  match Pull.receiver p with Followed => Some (PullDesk.set_pull token (Pull.drop_receiver p) s) | _ => None end.

(** After [PULL_JOB_TTL_SECS] a job nobody followed is dropped. *)
Definition sweep (token : string) (s : PullDesk.t D) : PullDesk.t D :=
  let s' := PullDesk.set_jobs (PullDesk.jobs s ∖ {[token]}) s in
  if bool_decide (token ∈ PullDesk.jobs s)
  then match PullDesk.pulls s !! token with
       | Some p => PullDesk.set_pull token (Pull.drop_receiver p) s'
       | None => s'
       end
  else s'.

(** *** Runs *)

Inductive step : PullDesk.t D -> PullDesk.t D -> Prop :=
| step_check image s a s' : image_check image s = (a, s') -> step s s'
| step_start env r image credential s a s' :
    PullDesk.starts s !! r = None -> image_pull_start env r image credential s = (a, s') -> step s s'
| step_repull env scope r id s a s' :
    PullDesk.starts s !! r = None -> image_repull env scope r id s = (a, s') -> step s s'
| step_open r s a s' : open_stream r s = Some (a, s') -> step s s'
| step_record r now s s' : record_image r now s = Some s' -> step s s'
| step_register r token s a s' : PullDesk.pulls s !! token = None -> register r token s = Some (a, s') -> step s s'
| step_cancel r s s' : cancel r s = Some s' -> step s s'
| step_forward token s s' : forward_pull token s = Some s' -> step s s'
| step_events token s a s' : image_pull_events token s = (a, s') -> step s s'
| step_receive token s s' : receive token s = Some s' -> step s s'
| step_disconnect token s s' : disconnect token s = Some s' -> step s s'
| step_sweep token s : step s (sweep token s).

Definition reachable (s : PullDesk.t D) : Prop := exists b d, rtc step (PullDesk.fresh b d) s.
End Pulls.

(** ** What a step changes *)

Section Runs.
Context {D : Type} `{ImageBackend D} `{SpecCodec}.
Abbreviation PullDesk := (PullDesk.t D).

(** How many entries of a map satisfy a test. *)
Definition tally {K A} `{Countable K} (f : A -> bool) (m : gmap K A) : Z := map_fold (fun _ x n => Z.b2z (f x) + n) 0 m.

Lemma tally_insert {K A} `{Countable K} (f : A -> bool) (m : gmap K A) k x :
  m !! k = None -> tally f (<[k := x]> m) = Z.b2z (f x) + tally f m.
Proof.
  intros Hk. unfold tally. rewrite (map_fold_insert_L (fun _ x n => Z.b2z (f x) + n)); [done| |done]. intros. lia.
Qed.

Lemma tally_update {K A} `{Countable K} (f : A -> bool) (m : gmap K A) k x y :
  m !! k = Some x -> tally f (<[k := y]> m) = tally f m - Z.b2z (f x) + Z.b2z (f y).
Proof.
  intros Hk. rewrite <- (insert_delete_id m k x Hk) at 2. rewrite <- insert_delete_eq.
  rewrite !tally_insert by apply lookup_delete_eq. lia.
Qed.

Lemma tally_nonneg {K A} `{Countable K} (f : A -> bool) (m : gmap K A) : 0 <= tally f m.
Proof. unfold tally. apply (map_fold_weak_ind (fun n _ => 0 <= n)); [lia|]. intros k x m' n _ Hn. destruct (f x); cbn; lia. Qed.

Definition running (s : PullDesk) : Z := tally Pull.sending (PullDesk.pulls s).
Definition starting (s : PullDesk) : Z := tally Start.holds (PullDesk.starts s).

(** Every start in progress and every running task holds a permit, channels
    are bounded, and the registry holds exactly the pulls nobody follows yet. *)
Record pulls_ok (s : PullDesk) : Prop := {
  ok_slots : PullDesk.slots s + starting s + running s = MAX_CONCURRENT_PULLS /\ 0 <= PullDesk.slots s;
  ok_queues : forall token p, PullDesk.pulls s !! token = Some p -> zlen (Pull.queue p) <= PULL_CHANNEL_CAP;
  ok_jobs : forall token, token ∈ PullDesk.jobs s <-> exists p, PullDesk.pulls s !! token = Some p /\ Pull.receiver p = Parked }.

(** One turn of a pull. *)
Inductive turn : Pull.t -> Pull.t -> Prop :=
| turn_line line rest q r d : zlen q < PULL_CHANNEL_CAP -> r <> Gone ->
    turn (Pull.mk (line :: rest) true q r d) (Pull.mk rest true (q ++ [Line line]) r d)
| turn_done q r d : zlen q < PULL_CHANNEL_CAP -> r <> Gone -> turn (Pull.mk [] true q r d) (Pull.mk [] false (q ++ [Done]) r d)
| turn_stop rest q d : turn (Pull.mk rest true q Gone d) (Pull.mk rest false q Gone d)
| turn_follow rest b q d : turn (Pull.mk rest b q Parked d) (Pull.mk rest b q Followed d)
| turn_read rest b line q d : turn (Pull.mk rest b (Line line :: q) Followed d) (Pull.mk rest b q Followed (d ++ [Line line]))
| turn_end rest b q d : turn (Pull.mk rest b (Done :: q) Followed d) (Pull.mk rest b [] Gone (d ++ [Done]))
| turn_drop rest b q r d : turn (Pull.mk rest b q r d) (Pull.mk rest b [] Gone d).

(** The stages of a start. *)
Inductive onward : Start.t -> Start.t -> Prop :=
| onward_open i c lines : onward (Start.mk i c Start.Calling) (Start.mk i c (Start.Opened lines))
| onward_record i c lines : onward (Start.mk i c (Start.Opened lines)) (Start.mk i c (Start.Recorded lines))
| onward_over x : Start.holds x = true -> onward x (Start.reach Start.Over x).

Inductive change (s s' : PullDesk) : Prop :=
| change_none : PullDesk.slots s' = PullDesk.slots s -> PullDesk.jobs s' = PullDesk.jobs s -> PullDesk.starts s' = PullDesk.starts s ->
    PullDesk.pulls s' = PullDesk.pulls s -> change s s'
| change_begin r image creds :
    PullDesk.starts s !! r = None -> 0 < PullDesk.slots s -> PullDesk.slots s' = PullDesk.slots s - 1 ->
    PullDesk.starts s' = <[r := Start.mk image creds Start.Calling]> (PullDesk.starts s) ->
    PullDesk.jobs s' = PullDesk.jobs s -> PullDesk.pulls s' = PullDesk.pulls s -> change s s'
| change_stage r x x' :
    PullDesk.starts s !! r = Some x -> onward x x' -> PullDesk.starts s' = <[r := x']> (PullDesk.starts s) ->
    PullDesk.slots s' = PullDesk.slots s + Z.b2z (Start.holds x) - Z.b2z (Start.holds x') ->
    (forall lines, Start.at_ x = Start.Calling -> Start.at_ x' = Start.Opened lines ->
      exists b b', PullDesk.backend s = Some b /\ start_daemon_pull (Start.image x) (Start.creds x) None b = (Ok lines, b')) ->
    PullDesk.jobs s' = PullDesk.jobs s -> PullDesk.pulls s' = PullDesk.pulls s -> change s s'
| change_start r x token lines :
    PullDesk.starts s !! r = Some x -> Start.at_ x = Start.Recorded lines ->
    PullDesk.starts s' = <[r := Start.reach Start.Over x]> (PullDesk.starts s) ->
    PullDesk.pulls s !! token = None -> PullDesk.slots s' = PullDesk.slots s ->
    PullDesk.jobs s' = {[token]} ∪ PullDesk.jobs s -> PullDesk.pulls s' = <[token := Pull.started lines]> (PullDesk.pulls s) -> change s s'
| change_pull token p p' :
    PullDesk.pulls s !! token = Some p -> turn p p' -> PullDesk.pulls s' = <[token := p']> (PullDesk.pulls s) ->
    PullDesk.starts s' = PullDesk.starts s ->
    PullDesk.slots s' = PullDesk.slots s + Z.b2z (Pull.sending p) - Z.b2z (Pull.sending p') ->
    (PullDesk.jobs s' = PullDesk.jobs s /\ (Pull.receiver p' = Parked <-> Pull.receiver p = Parked)
     \/ PullDesk.jobs s' = PullDesk.jobs s ∖ {[token]} /\ Pull.receiver p' <> Parked) -> change s s'.

Lemma remember_rest image now (s : PullDesk) :
  let s' := (remember image now s).2 in
  PullDesk.slots s' = PullDesk.slots s /\ PullDesk.jobs s' = PullDesk.jobs s /\ PullDesk.starts s' = PullDesk.starts s
  /\ PullDesk.pulls s' = PullDesk.pulls s.
Proof. unfold remember, st_modify. cbn. destruct (PullDesk.db s); [|done]. by destruct (str_is_empty _). Qed.

Lemma start_pull_change r image creds (s : PullDesk) a s' :
  PullDesk.starts s !! r = None -> start_pull r image creds s = (a, s') -> change s s'.
Proof.
  intros Hfresh. unfold start_pull. destruct (PullDesk.backend s) as [b|] eqn:Eb; [|by intros [= <- <-]; apply change_none].
  destruct (Z.leb_spec (PullDesk.slots s) 0); [by intros [= <- <-]; apply change_none|]. intros [= <- <-].
  by apply (change_begin _ _ r image creds).
Qed.

Lemma drop_change r x b (s : PullDesk) : PullDesk.starts s !! r = Some x -> Start.holds x = true ->
  change s (drop_permit r x s) /\ change s (drop_permit r x (PullDesk.set_backend b s)).
Proof.
  intros Hx Hh. split; (eapply (change_stage _ _ r x); [done|by apply onward_over|done|cbn; rewrite Hh; cbn; lia|done|done|done]).
Qed.

Lemma open_change r (s : PullDesk) a s' : open_stream r s = Some (a, s') -> change s s'.
Proof.
  unfold open_stream. destruct (PullDesk.starts s !! r) as [[i c st]|] eqn:Ex; [|done]. cbn.
  destruct (PullDesk.backend s) as [b|] eqn:Eb; [|done]. cbn. destruct st; try done.
  destruct (start_daemon_pull i c None b) as [[lines|e] b'] eqn:Ed; intros [= <- <-]; [|by apply drop_change].
  eapply (change_stage _ _ r); [exact Ex|apply onward_open|done|cbn; lia| |done|done].
  intros lines' _ [= <-]. by exists b, b'.
Qed.

Lemma record_change r now (s s' : PullDesk) : record_image r now s = Some s' -> change s s'.
Proof.
  unfold record_image. destruct (PullDesk.starts s !! r) as [[i c st]|] eqn:Ex; [|done]. cbn -[remember]. destruct st as [|lines| |]; try done.
  pose proof (remember_rest i now s) as (Es & Ej & Et & Ep). destruct (remember i now s) as [u s1]. cbn in Es, Ej, Et, Ep |- *. intros [= <-].
  eapply (change_stage _ _ r); [exact Ex|apply onward_record|cbn; by rewrite Et|cbn; lia|done|done|done].
Qed.

Lemma register_change r token (s : PullDesk) a s' :
  PullDesk.pulls s !! token = None -> register r token s = Some (a, s') -> change s s'.
Proof.
  intros Hfresh. unfold register. destruct (PullDesk.starts s !! r) as [x|] eqn:Ex; [|done]. cbn.
  destruct (Start.at_ x) as [| |lines|] eqn:Ea; try done. intros [= <- <-]. by apply (change_start _ _ r x token lines).
Qed.

Lemma cancel_change r (s s' : PullDesk) : cancel r s = Some s' -> change s s'.
Proof.
  unfold cancel. destruct (PullDesk.starts s !! r) as [x|] eqn:Ex; [|done]. cbn. destruct (Start.holds x) eqn:Eh; [|done].
  intros [= <-]. unfold drop_permit.
  eapply (change_stage _ _ r x); [done|by apply onward_over|done|cbn; rewrite Eh; cbn; lia|done|done|done].
Qed.

Lemma forward_change token (s s' : PullDesk) : forward_pull token s = Some s' -> change s s'.
Proof.
  unfold forward_pull. destruct (PullDesk.pulls s !! token) as [[stream sending q r d]|] eqn:Ep; [|done]. cbn.
  destruct sending; [|done]. cbn. destruct (Z.ltb_spec (zlen q) PULL_CHANNEL_CAP) as [Hq|Hq].
  - destruct r, stream as [|line rest]; intros [= <-]; (eapply change_pull; [exact Ep|econstructor; done|done|done|cbn; lia|left; done]).
  - destruct r, stream as [|line rest]; intros [= <-]; (eapply change_pull; [exact Ep|econstructor; done|done|done|cbn; lia|left; done]).
Qed.

Lemma events_change token (s : PullDesk) a s' : pulls_ok s -> image_pull_events token s = (a, s') ->
  change s s' /\ (a = Stream token -> token ∈ PullDesk.jobs s /\ token ∉ PullDesk.jobs s').
Proof.
  intros Hok. unfold image_pull_events. case_bool_decide as Hj; [|by intros [= <- <-]; split; [apply change_none|]].
  destruct (proj1 (ok_jobs _ Hok token) Hj) as ([stream b q r d] & Ep & Hr). cbn in Hr. subst r. cbn. rewrite Ep. cbn. intros [= <- <-].
  split; [|cbn; set_solver]. eapply change_pull; [exact Ep|constructor|done|done|cbn; lia|by right].
Qed.

Lemma receive_change token (s s' : PullDesk) : receive token s = Some s' -> change s s'.
Proof.
  unfold receive. destruct (PullDesk.pulls s !! token) as [[stream b q r d]|] eqn:Ep; [|done]. cbn.
  destruct r, q as [|[line|] q]; try done; intros [= <-].
  - eapply change_pull; [exact Ep|constructor|done|done|cbn; lia|by left].
  - eapply change_pull; [exact Ep|constructor|done|done|cbn; lia|by left].
Qed.

Lemma disconnect_change token (s s' : PullDesk) : disconnect token s = Some s' -> change s s'.
Proof.
  unfold disconnect. destruct (PullDesk.pulls s !! token) as [[stream b q r d]|] eqn:Ep; [|done]. cbn.
  destruct r; [done| |done]. intros [= <-]. eapply change_pull; [exact Ep|constructor|done|done|cbn; lia|by left].
Qed.

Lemma sweep_change token (s : PullDesk) : pulls_ok s -> change s (sweep token s).
Proof.
  intros Hok. unfold sweep. case_bool_decide as Hj.
  - destruct (proj1 (ok_jobs _ Hok token) Hj) as ([stream b q r d] & Ep & Hr). rewrite Ep.
    eapply change_pull; [exact Ep|constructor|done|done|cbn; lia|by right].
  - apply change_none; [done| |done|done]. cbn. set_solver.
Qed.

Lemma repull_change env scope r id (s : PullDesk) a s' :
  PullDesk.starts s !! r = None -> image_repull env scope r id s = (a, s') -> change s s'.
Proof.
  intros Hfresh. unfold image_repull. destruct (PullDesk.db s) as [db|]; [|intros [= <- <-]; by apply change_none].
  destruct (fetch_one id db) as [res db'].
  destruct res as [[spec|]|]; [|intros [= <- <-]; by apply change_none..]. cbv zeta.
  destruct (negb _); [intros [= <- <-]; by apply change_none|].
  destruct (nonempty _) as [image|]; [|intros [= <- <-]; by apply change_none].
  destruct (unresolved image); [intros [= <- <-]; by apply change_none|].
  destruct (resolve_creds env spec) as [creds|e]; [|intros [= <- <-]; by apply change_none]. unfold start_pull. cbn.
  destruct (PullDesk.backend s); [|intros [= <- <-]; by apply change_none].
  destruct (Z.leb_spec (PullDesk.slots s) 0); intros [= <- <-]; [by apply change_none|]. by apply (change_begin _ _ r image creds).
Qed.

Lemma step_change (s s' : PullDesk) : pulls_ok s -> step s s' -> change s s'.
Proof.
  intros Hok Hstep. destruct Hstep as [image s a s' Hc|env r image credential s a s' Hf Hs|env scope r id s a s' Hf Hs|
    r s a s' Hs|r now s s' Hs|r token s a s' Hf Hs|r s s' Hs|token s s' Hs|token s a s' Hs|token s s' Hs|token s s' Hs|token s].
  - revert Hc. unfold image_check. cbv zeta. destruct (str_is_empty _); [intros [= <- <-]; by apply change_none|].
    destruct (unresolved _); [intros [= <- <-]; by apply change_none|].
    destruct (PullDesk.backend s) as [b|]; [|intros [= <- <-]; by apply change_none].
    destruct (has_image _ b) as [res b']. intros [= <- <-]. by apply change_none.
  - revert Hs. unfold image_pull_start. cbv zeta. destruct (_ || _); [intros [= <- <-]; by apply change_none|].
    by apply start_pull_change.
  - by eapply repull_change.
  - by eapply open_change.
  - by eapply record_change.
  - by eapply register_change.
  - by eapply cancel_change.
  - by eapply forward_change.
  - by eapply events_change.
  - by eapply receive_change.
  - by eapply disconnect_change.
  - by apply sweep_change.
Qed.

Lemma fresh_ok b d : pulls_ok (PullDesk.fresh b d).
Proof.
  split; [by vm_compute|by intros token p|]. intros token. cbn. split; [set_solver|]. intros (p & Hp & _). by rewrite lookup_empty in Hp.
Qed.

Lemma turn_queue p p' : turn p p' -> zlen (Pull.queue p) <= PULL_CHANNEL_CAP -> zlen (Pull.queue p') <= PULL_CHANNEL_CAP.
Proof.
  intros Ht. destruct Ht; unfold zlen, PULL_CHANNEL_CAP in *; cbn [Pull.queue]; rewrite ?length_app; cbn [length]; lia.
Qed.

Lemma onward_holds x x' : onward x x' -> Start.holds x = true.
Proof. by destruct 1. Qed.

Lemma change_ok (s s' : PullDesk) : pulls_ok s -> change s s' -> pulls_ok s'.
Proof.
  intros [[Hslots Hpos] Hq Hj] [Es Ej Et Ep|r image creds Hx Hfree Es Et Ej Ep|r x x' Hx Ho Et Es _ Ej Ep|
    r x token lines Hx Ha Et Hfresh Es Ej Ep|token p p' Hp Ht Ep Et Es Ej]; unfold starting, running in *.
  - split; [unfold starting, running; by rewrite Es, Et, Ep|by rewrite Ep|by rewrite Ej, Ep].
  - split; [unfold starting, running; rewrite Es, Et, Ep, tally_insert by done; cbn; lia|by rewrite Ep|by rewrite Ej, Ep].
  - split; [|by rewrite Ep|by rewrite Ej, Ep]. unfold starting, running. rewrite Es, Et, Ep, (tally_update _ _ _ _ _ Hx), (onward_holds _ _ Ho).
    destruct (Start.holds x'); cbn; lia.
  - split; [| |].
    + unfold starting, running. rewrite Es, Et, Ep, (tally_update _ _ _ _ _ Hx), tally_insert by done.
      assert (Start.holds x = true) as -> by (unfold Start.holds; by rewrite Ha). cbn. lia.
    + rewrite Ep. intros t q [[<- <-]|[_ Hl]]%lookup_insert_Some; [done|by eapply Hq].
    + intros t. rewrite Ej, Ep, elem_of_union, elem_of_singleton, Hj. destruct (decide (t = token)) as [->|Hne].
      * rewrite lookup_insert_eq. split; [intros _; by eexists|by left].
      * rewrite lookup_insert_ne by done. naive_solver.
  - split; [unfold starting, running; rewrite Es, Et, Ep, (tally_update _ _ _ _ _ Hp); split; [lia|]| |].
    + destruct Ht; cbn; lia.
    + rewrite Ep. intros t q [[<- <-]|[_ Hl]]%lookup_insert_Some; [eapply turn_queue; [exact Ht|by eapply Hq]|by eapply Hq].
    + intros t. rewrite Ep. destruct (decide (t = token)) as [->|Hne].
      * rewrite lookup_insert_eq. destruct Ej as [[-> Hr]|[-> Hr]].
        -- rewrite Hj, Hp. split; intros (q & [= <-] & Hq'); eexists; (split; [reflexivity|by apply Hr]).
        -- split; [set_solver|]. by intros (q & [= <-] & ?).
      * rewrite lookup_insert_ne by done. rewrite <- Hj. destruct Ej as [[-> _]|[-> _]]; set_solver.
Qed.

Lemma runs_ok (s s' : PullDesk) : pulls_ok s -> rtc step s s' -> pulls_ok s'.
Proof. intros Hok Hr. induction Hr as [|s s1 s2 Hs _ IH]; [done|]. apply IH. eapply change_ok; [exact Hok|by apply step_change]. Qed.

Lemma reachable_ok (s : PullDesk) : reachable s -> pulls_ok s.
Proof. intros (b & d & Hr). eapply runs_ok; [apply fresh_ok|exact Hr]. Qed.

(** *** What a follower is sent *)

Definition all_events (lines : list string) : list PullEvent := map Line lines ++ [Done].
Definition pending (p : Pull.t) : list PullEvent := if Pull.sending p then all_events (Pull.stream p) else [].

(** Until its receiver is dropped, a pull holds all its events in order; what
    was delivered is their beginning, the whole once [Done] is in it. *)
Record faithful (lines : list string) (p : Pull.t) : Prop := {
  whole : Pull.receiver p <> Gone -> Pull.delivered p ++ Pull.queue p ++ pending p = all_events lines;
  beginning : Pull.delivered p `prefix_of` all_events lines }.

Lemma started_faithful lines : faithful lines (Pull.started lines).
Proof. split; [done|]. apply prefix_nil. Qed.

Lemma turn_faithful lines p p' : turn p p' -> faithful lines p -> faithful lines p'.
Proof.
  intros Ht [Hw Hb]. destruct Ht; cbn in Hw, Hb.
  - specialize (Hw H2). split; cbn; [|done]. intros _. rewrite <- Hw, <- app_assoc. done.
  - specialize (Hw H2). split; cbn; [|done]. intros _. rewrite <- Hw, app_nil_r. done.
  - by split.
  - split; cbn; [|done]. intros _. by apply Hw.
  - specialize (Hw ltac:(done)). split; cbn; [intros _; rewrite <- Hw, <- app_assoc; done|].
    rewrite <- Hw. exists (q ++ pending (Pull.mk rest b q Followed d)). by rewrite <- app_assoc.
  - specialize (Hw ltac:(done)). split; [done|]. cbn. rewrite <- Hw. exists (q ++ pending (Pull.mk rest b q Followed d)).
    by rewrite <- app_assoc.
  - by split.
Qed.

Lemma turn_receiver p p' : turn p p' -> Pull.receiver p <> Parked -> Pull.receiver p' <> Parked.
Proof. by destruct 1. Qed.

(** A pull stays under its token. *)
Lemma runs_pull (P : Pull.t -> Prop) token (s s' : PullDesk) p :
  (forall q q', turn q q' -> P q -> P q') -> pulls_ok s -> rtc step s s' ->
  PullDesk.pulls s !! token = Some p -> P p -> exists p', PullDesk.pulls s' !! token = Some p' /\ P p'.
Proof.
  intros HP Hok Hr. revert p. induction Hr as [s|s s1 s2 Hs Hr IH]; intros p Hp HPp; [by exists p|].
  pose proof (step_change _ _ Hok Hs) as Hc. pose proof (change_ok _ _ Hok Hc) as Hok1. specialize (IH Hok1).
  destruct Hc as [_ _ _ Ep|r i c _ _ _ _ _ Ep|r x x' _ _ _ _ _ _ Ep|r x token' lines _ _ _ Hfresh _ _ Ep|token' q q' Hq Ht Ep _ _ _];
    rewrite Ep in IH.
  - by apply (IH p).
  - by apply (IH p).
  - by apply (IH p).
  - apply (IH p); [|done]. rewrite lookup_insert_ne; [done|]. intros ->. congruence.
  - destruct (decide (token' = token)) as [->|Hne].
    + rewrite lookup_insert_eq in IH. assert (q = p) as -> by congruence. apply (IH q'); [done|by eapply HP].
    + rewrite lookup_insert_ne in IH by done. by apply (IH p).
Qed.

(** *** A follower that reads reaches the end *)

Inductive own_step (token : string) (s s' : PullDesk) : Prop :=
| own_forward : forward_pull token s = Some s' -> own_step token s s'
| own_receive : receive token s = Some s' -> own_step token s s'.

(** The reads and turns left. *)
Definition work (p : Pull.t) : nat := length (Pull.queue p) + 2 * length (pending p).

Lemma own_progress token (s : PullDesk) p : PullDesk.pulls s !! token = Some p -> Pull.receiver p = Followed ->
  Pull.queue p ++ pending p <> [] ->
  exists s' p', own_step token s s' /\ PullDesk.pulls s' !! token = Some p' /\ turn p p' /\ (work p' < work p)%nat
    /\ PullDesk.slots s' = PullDesk.slots s + Z.b2z (Pull.sending p) - Z.b2z (Pull.sending p')
    /\ (Pull.receiver p' = Followed \/ exists q, Pull.queue p = Done :: q /\ Pull.delivered p' = Pull.delivered p ++ [Done] /\ Pull.sending p' = Pull.sending p).
Proof.
  intros Hp Hr Hne. destruct p as [stream b q r d]. cbn in Hr. subst r. destruct q as [|[line|] q].
  - destruct b; [|done]. destruct stream as [|line rest].
    + eexists _, _. split; [apply own_forward; unfold forward_pull; rewrite Hp; reflexivity|]. cbn. split; [apply lookup_insert_eq|].
      split; [by constructor|]. split; [unfold work, pending, all_events; cbn; lia|]. split; [cbn; lia|by left].
    + eexists _, _. split; [apply own_forward; unfold forward_pull; rewrite Hp; reflexivity|]. cbn. split; [apply lookup_insert_eq|].
      split; [by constructor|]. split; [unfold work, pending, all_events; cbn; rewrite !length_app, length_map; cbn; lia|]. split; [cbn; lia|by left].
  - eexists _, _. split; [apply own_receive; unfold receive; rewrite Hp; reflexivity|]. cbn. split; [apply lookup_insert_eq|].
    split; [by constructor|]. split; [unfold work, pending, all_events; cbn; lia|]. split; [cbn; lia|by left].
  - eexists _, _. split; [apply own_receive; unfold receive; rewrite Hp; reflexivity|]. cbn. split; [apply lookup_insert_eq|].
    split; [by constructor|]. split; [unfold work, pending, all_events; cbn; lia|]. split; [cbn; lia|right; by exists q].
Qed.

Lemma done_last d x lines : d ++ Done :: x = all_events lines -> x = [] /\ d = map Line lines.
Proof.
  unfold all_events. revert lines. induction d as [|ev d IH]; intros [|line lines]; cbn; try done.
  - by intros [= ->].
  - intros [= _ Hd]. by destruct d.
  - intros [= -> Hd]. by destruct (IH lines Hd) as [-> ->].
Qed.

Lemma pull_finishes token lines (s : PullDesk) p :
  PullDesk.pulls s !! token = Some p -> Pull.receiver p = Followed -> faithful lines p ->
  exists s' p', rtc (own_step token) s s' /\ PullDesk.pulls s' !! token = Some p' /\ Pull.delivered p' = all_events lines
    /\ Pull.sending p' = false /\ PullDesk.slots s' = PullDesk.slots s + Z.b2z (Pull.sending p).
Proof.
  remember (work p) as n eqn:Hn. revert s p Hn. induction n as [n IH] using lt_wf_ind. intros s p -> Hp Hr Hf.
  destruct (decide (Pull.queue p ++ pending p = [])) as [He|Hne].
  - apply app_eq_nil in He as [Hq Hpend]. exists s, p. split; [apply rtc_refl|]. split; [done|].
    pose proof (whole _ _ Hf) as Hw. rewrite Hr, Hq, Hpend, !app_nil_r in Hw. split; [by apply Hw|].
    unfold pending in Hpend. destruct (Pull.sending p); [by apply app_eq_nil in Hpend as [_ ?]|]. split; [done|cbn; lia].
  - destruct (own_progress token s p Hp Hr Hne) as (s1 & p1 & Hstep & Hp1 & Ht & Hlt & Hs1 & Hcase).
    pose proof (turn_faithful lines _ _ Ht Hf) as Hf1. destruct Hcase as [Hr1|(q & Hq & Hd & Hsend)].
    + destruct (IH _ Hlt s1 p1 eq_refl Hp1 Hr1 Hf1) as (s' & p' & Hrun & Hp' & Hall & Hsend & Hs').
      exists s', p'. split; [by eapply rtc_l|]. split; [done|]. split; [done|]. split; [done|lia].
    + pose proof (whole _ _ Hf) as Hw. rewrite Hr, Hq in Hw. destruct (done_last _ _ _ (Hw ltac:(done))) as [He Hall].
      apply app_eq_nil in He as [_ Hpend]. exists s1, p1. split; [by apply rtc_once|]. split; [done|]. rewrite Hd, Hall. split; [done|].
      unfold pending in Hpend. rewrite Hsend in Hs1 |- *. destruct (Pull.sending p); [by apply app_eq_nil in Hpend as [_ ?]|].
      split; [done|cbn in *; lia].
Qed.

(** *** From the request to its registration *)

(** A request keeps its image and its credentials; the lines it opened are
    what the daemon answered it. *)
Lemma start_kept r image creds (s1 s2 : PullDesk) :
  pulls_ok s1 -> PullDesk.starts s1 !! r = Some (Start.mk image creds Start.Calling) -> rtc step s1 s2 ->
  exists st, PullDesk.starts s2 !! r = Some (Start.mk image creds st)
    /\ forall lines, st = Start.Opened lines \/ st = Start.Recorded lines ->
         exists sd b b', rtc step s1 sd /\ rtc step sd s2 /\ PullDesk.backend sd = Some b
           /\ start_daemon_pull image creds None b = (Ok lines, b').
Proof.
  intros Hok Hx. revert s2. refine (rtc_ind_r _ s1 _ _); [exists Start.Calling; split; [done|by intros ? [|]]|].
  intros s s' Hrun Hstep IH.
  destruct IH as (st & Hst & Hlines). pose proof (step_change _ _ (runs_ok _ _ Hok Hrun) Hstep) as Hc.
  assert (forall lines, st = Start.Opened lines \/ st = Start.Recorded lines -> exists sd b b', rtc step s1 sd /\ rtc step sd s'
    /\ PullDesk.backend sd = Some b /\ start_daemon_pull image creds None b = (Ok lines, b')) as Hkeep.
  { intros lines Hl. destruct (Hlines lines Hl) as (sd & b & b' & H1 & H2 & H3). exists sd, b, b'. split; [done|].
    split; [by eapply rtc_r|done]. }
  destruct Hc as [_ _ Et _|r' i c Hf _ _ Et _ _|r' x x' Hx' Ho Et _ Hd _ _|r' x t lines Hx' Ha Et _ _ _ _|t p p' _ _ _ Et _ _];
    rewrite Et.
  - by exists st.
  - exists st. split; [|done]. rewrite lookup_insert_ne; [done|]. intros ->. congruence.
  - destruct (decide (r' = r)) as [->|]; [|exists st; by rewrite lookup_insert_ne].
    rewrite Hst in Hx'. injection Hx' as <-. rewrite lookup_insert_eq.
    inversion Ho as [i c lines|i c lines|y Hh]; subst; eexists; (split; [reflexivity|]).
    + intros l [[= ->]|]; [|done]. destruct (Hd l eq_refl eq_refl) as (b & b' & Hb & Hp). exists s, b, b'.
      split; [done|]. split; [by apply rtc_once|done].
    + intros l [|[= ->]]; [done|]. apply Hkeep. by left.
    + by intros l [|].
  - destruct (decide (r' = r)) as [->|]; [|exists st; by rewrite lookup_insert_ne].
    rewrite Hst in Hx'. injection Hx' as <-. rewrite lookup_insert_eq. eexists. split; [reflexivity|]. by intros l [|].
  - by exists st.
Qed.

(** ** Properties *)

(** C35. Pulls are bounded.  However requests, their waits and cancellations,
    tasks, followers and timers interleave, the free permits, the starts that
    wait for the daemon or the database and the running tasks are always four
    together, so never more than four pulls burden the daemon; no channel holds
    more than its capacity, and the registry holds exactly the tokens of the
    pulls that nobody has followed and no timer has dropped. *)
Theorem pulls_bounded (s : PullDesk) : reachable s ->
  PullDesk.slots s + starting s + running s = 4 /\ 0 <= PullDesk.slots s /\ 0 <= starting s /\ 0 <= running s
  /\ (forall token p, PullDesk.pulls s !! token = Some p -> zlen (Pull.queue p) <= 256)
  /\ forall token, token ∈ PullDesk.jobs s <-> exists p, PullDesk.pulls s !! token = Some p /\ Pull.receiver p = Parked.
Proof.
  intros [[Hs Hpos] Hq Hj]%reachable_ok. pose proof (tally_nonneg Pull.sending (PullDesk.pulls s)).
  pose proof (tally_nonneg Start.holds (PullDesk.starts s)). do 4 (split; [done|]). by split.
Qed.

(** C36. A started pull reaches its follower.  Whatever happens while a
    request waits and after its pull is registered under a new token, what the
    follower was sent is the beginning of the lines the daemon answered that
    request with, for its image and credential, in order, with the end marker
    after the last one; once taken or dropped, no later request can follow the
    token; and while it is followed, the turns of the task and the reads of the
    follower alone lead to a state where every line and the end marker were
    sent, the task is over and its slot is free. *)
Theorem pull_reaches_its_follower env r token image credential (s0 s1 s2 s3 s : PullDesk) :
  reachable s0 -> PullDesk.starts s0 !! r = None -> image_pull_start env r image credential s0 = (None, s1) ->
  rtc step s1 s2 -> PullDesk.pulls s2 !! token = None -> register r token s2 = Some (Job token, s3) -> rtc step s3 s ->
  exists lines sd b b' p,
    rtc step s1 sd /\ rtc step sd s2 /\ PullDesk.backend sd = Some b
    /\ start_daemon_pull (trim image) (resolve_pull_creds env credential) None b = (Ok lines, b')
    /\ PullDesk.pulls s !! token = Some p /\ Pull.delivered p `prefix_of` all_events lines
    /\ (Pull.receiver p <> Parked -> forall s', rtc step s s' ->
         (image_pull_events token s').1 = Missing "unknown or already-followed pull job")
    /\ (Pull.receiver p = Followed -> exists s' p', rtc (own_step token) s s' /\ PullDesk.pulls s' !! token = Some p'
         /\ Pull.delivered p' = all_events lines /\ Pull.sending p' = false
         /\ PullDesk.slots s' = PullDesk.slots s + Z.b2z (Pull.sending p)).
Proof.
  intros Hok%reachable_ok Hr0 Hstart Hwait Hfresh Hreg Hrun. pose proof (step_start env r image credential s0 None s1 Hr0 Hstart) as Hs0.
  unfold image_pull_start in Hstart. cbv zeta in Hstart. destruct (_ || _); [done|].
  pose proof (runs_ok _ _ Hok (rtc_once _ _ Hs0)) as Hok1. pose proof (runs_ok _ _ Hok1 Hwait) as Hok2.
  assert (PullDesk.starts s1 !! r = Some (Start.mk (trim image) (resolve_pull_creds env credential) Start.Calling)) as Hcall.
  { revert Hstart. unfold start_pull. destruct (PullDesk.backend s0); [|done]. destruct (_ <=? 0); [done|].
    intros [= <-]. apply lookup_insert_eq. }
  destruct (start_kept _ _ _ _ _ Hok1 Hcall Hwait) as (st & Hst & Hlines).
  pose proof (change_ok _ _ Hok2 (register_change _ _ _ _ _ Hfresh Hreg)) as Hok3. pose proof (runs_ok _ _ Hok3 Hrun) as Hok4.
  unfold register in Hreg. rewrite Hst in Hreg. cbn in Hreg. destruct st as [| |lines|]; try done. injection Hreg as Hreg.
  destruct (Hlines lines (or_intror eq_refl)) as (sd & b & b' & H1 & H2 & H3 & H4).
  destruct (runs_pull (faithful lines) token s3 s (Pull.started lines)) as (p & Hp & Hf);
    [by apply turn_faithful|done|done|rewrite <- Hreg; apply lookup_insert_eq|apply started_faithful|].
  exists lines, sd, b, b', p. do 5 (split; [done|]). split; [apply Hf|]. split.
  - intros Hr s' Hrun'. destruct (runs_pull (fun p => Pull.receiver p <> Parked) token s s' p turn_receiver Hok4 Hrun' Hp Hr) as (p' & Hp' & Hr').
    unfold image_pull_events. rewrite bool_decide_false; [done|]. rewrite (ok_jobs _ (runs_ok _ _ Hok4 Hrun')).
    intros (q & Hq & Hpark). congruence.
  - intros Hr. by apply pull_finishes.
Qed.
End Runs.

(** ** Examples *)

Module PullExamples.
Import ExampleStore.

(** A daemon that knows one image and sends two lines for any pull but one. *)
#[local] Instance daemon : ImageBackend unit := {
  has_image i u := (Ok (str_eqb i "r:1"), u);
  start_daemon_pull i _ _ u := (if str_eqb i "bad" then Err (CoreError.Backend "refused") else Ok ["pulling"; "complete"], u) }.

Definition empty : PullDesk.t unit := PullDesk.fresh (Some tt) (Some imported).
Definition env : Env.t := Env.mk "" (fun _ => EnvNotPresent) None (fun _ => 0).
Definition then_ (f : PullDesk.t unit -> option (PullDesk.t unit)) (o : option (PullDesk.t unit)) : option (PullDesk.t unit) := s ← o; f s.

(** A request that enters [start_pull]; the daemon answers it; it ends. *)
Definition enter (r : N) (image : string) (s : PullDesk.t unit) : PullDesk.t unit := (image_pull_start env r image "" s).2.
Definition opened (r : N) (s : PullDesk.t unit) : PullDesk.t unit := from_option snd s (open_stream r s).
Definition recorded (r : N) (s : PullDesk.t unit) : PullDesk.t unit := default s (record_image r 9 s).
Definition registered (r : N) (token : string) (s : PullDesk.t unit) : PullDesk.t unit := from_option snd s (register r token s).
Definition start (r : N) (token image : string) (s : PullDesk.t unit) : PullDesk.t unit :=
  registered r token (recorded r (opened r (enter r image s))).
Definition one : PullDesk.t unit := start 1 "t1" " r:2 " empty.

(** Four requests, none of them answered by the daemon yet. *)
Definition waiting : PullDesk.t unit := enter 4 "r:5" (enter 3 "r:4" (enter 2 "r:3" (enter 1 "r:2" empty))).

(** One pull runs, a second request waits to register, a third for the daemon. *)
Definition mixed : PullDesk.t unit := enter 3 "r:4" (recorded 2 (opened 2 (enter 2 "r:3" one))).

Example checks :
  (image_check " r:1 " empty).1 = Status "present" /\ (image_check "r:2" empty).1 = Status "absent" /\ (image_check " " empty).1 = Status "empty"
  /\ (image_check "${REG}/r" empty).1 = Status "unresolved"
  /\ (image_check "r:1" (PullDesk.fresh (None : option unit) None)).1 = Status "no-backend".
Proof. by vm_compute. Qed.

(** The fifth request is refused while four wait; a refusal of the daemon and
    a cancellation free the permit. *)
Example fifth_refused :
  (image_pull_start env 5 "r:6" "" waiting).1 = Some (Unavailable "too many image pulls in progress; retry shortly")
  /\ PullDesk.slots waiting = 0 /\ starting waiting = 4 /\ running waiting = 0
  /\ PullDesk.slots (opened 1 (enter 1 "bad" empty)) = 4 /\ (PullDesk.slots <$> cancel 2 waiting) = Some 1
  /\ (tables ← ConfigDb.tables <$> PullDesk.db one; Tables.ruscker_images tables !! "r:2") = Some 9.
Proof. by vm_compute. Qed.

(** Started, followed, read to the end. *)
Definition followed : PullDesk.t unit := (image_pull_events "t1" one).2.
Definition read_all : option (PullDesk.t unit) :=
  then_ (receive "t1") (then_ (receive "t1") (then_ (receive "t1")
    (then_ (forward_pull "t1") (then_ (forward_pull "t1") (then_ (forward_pull "t1") (Some followed)))))).
Example read_to_the_end :
  ((fun s => (PullDesk.slots s, Pull.delivered <$> PullDesk.pulls s !! "t1")) <$> read_all)
  = Some (4, Some [Line "pulling"; Line "complete"; Done])
  /\ (image_pull_events "t1" followed).1 = Missing "unknown or already-followed pull job".
Proof. by vm_compute. Qed.

(** The steps of the examples. *)
Lemma enter_step r image s : PullDesk.starts s !! r = None -> rtc step s (enter r image s).
Proof. intros Hr. apply rtc_once. eapply step_start; [exact Hr|]. apply surjective_pairing. Defined.

Lemma opened_step r s : rtc step s (opened r s).
Proof. unfold opened. destruct (open_stream r s) as [[a s']|] eqn:E; [apply rtc_once; by eapply step_open|apply rtc_refl]. Defined.

Lemma recorded_step r s : rtc step s (recorded r s).
Proof. unfold recorded. destruct (record_image r 9 s) as [s'|] eqn:E; [apply rtc_once; by eapply step_record|apply rtc_refl]. Defined.

Lemma registered_step r token s : PullDesk.pulls s !! token = None -> rtc step s (registered r token s).
Proof.
  intros Ht. unfold registered. destruct (register r token s) as [[a s']|] eqn:E; [apply rtc_once; by eapply step_register|apply rtc_refl].
Defined.

Lemma one_run : rtc step empty one.
Proof.
  unfold one, start. etransitivity; [|apply registered_step; reflexivity]. etransitivity; [|apply recorded_step].
  etransitivity; [|apply opened_step]. by apply enter_step.
Defined.

Lemma mixed_reachable : reachable mixed.
Proof.
  exists (Some tt), (Some imported). unfold mixed. etransitivity; [|by apply enter_step]. etransitivity; [|apply recorded_step].
  etransitivity; [|apply opened_step]. etransitivity; [|by apply enter_step]. exact one_run.
Defined.

Lemma pulls_bounded_witness :
  (PullDesk.slots mixed = 1 /\ starting mixed = 2 /\ running mixed = 1) /\ PullDesk.slots mixed + starting mixed + running mixed = 4.
Proof. split; [by vm_compute|]. exact (proj1 (pulls_bounded mixed mixed_reachable)). Defined.

(** A second request enters while the first waits for the daemon. *)
Definition entered : PullDesk.t unit := enter 1 " r:2 " empty.
Definition waited : PullDesk.t unit := recorded 1 (opened 1 (enter 2 "r:3" entered)).
Definition parked : PullDesk.t unit := registered 1 "t1" waited.
Definition taken : PullDesk.t unit := (image_pull_events "t1" parked).2.

Lemma pull_reaches_its_follower_witness :
  exists s' p', rtc (own_step "t1") taken s' /\ PullDesk.pulls s' !! "t1" = Some p'
    /\ Pull.delivered p' = [Line "pulling"; Line "complete"; Done] /\ PullDesk.slots s' = 3.
Proof.
  assert (reachable empty) as Hreach by (exists (Some tt), (Some imported); apply rtc_refl).
  assert (rtc step entered waited) as Hwait.
  { unfold waited. etransitivity; [|apply recorded_step]. etransitivity; [|apply opened_step]. by apply enter_step. }
  assert (rtc step parked taken) as Hrun by (apply rtc_once; by apply (step_events "t1" parked (Stream "t1") taken)).
  destruct (pull_reaches_its_follower env 1 "t1" " r:2 " "" empty entered waited parked taken Hreach eq_refl eq_refl Hwait eq_refl eq_refl Hrun)
    as (lines & sd & b & b' & p & _ & _ & _ & Hlines & Hp & _ & _ & Hend).
  injection Hlines as <- _. assert (p = Pull.mk ["pulling"; "complete"] true [] Followed []) as ->
    by (apply (inj Some); rewrite <- Hp; by vm_compute).
  destruct (Hend eq_refl) as (s' & p' & Hown & Hp' & Hd & _ & Hs). exists s', p'. split; [exact Hown|]. split; [exact Hp'|].
  split; [exact Hd|]. rewrite Hs. by vm_compute.
Defined.
End PullExamples.
