(* ===== verification/AdminSessionsPg.v ===== *)
(** * AdminSessionsPg: the shared sign-in sessions (admin_sessions_pg.rs)

    [PostgresAdminSessionStore]: the table [admin_sessions] shared by the nodes
    of a cluster and the cache each node keeps of it, and the cluster as a
    transition system next to the reference, the store of one node
    (AdminSessions of Auth).  Wall clocks and monotonic clocks are one clock,
    the same on every node; the statements and the cache updates of one call
    run at one time. *)

From Stdlib Require Import Ascii String ZArith Lia.
From stdpp Require Import base tactics list gmap strings fin_maps numbers.
From S2P Require Import Prelude Text Auth Database.

Local Open Scope string_scope.
Local Open Scope list_scope.
Local Open Scope Z_scope.
Local Open Scope ruscker_scope.

(** ** The table and a node *)

Definition role_to_str (role : Role.t) : string :=
  match role with Role.Admin => "admin" | Role.Editor => "editor" | Role.Viewer => "viewer" end.
Definition role_from_str (s : string) : option Role.t :=
  if str_eqb s "admin" then Some Role.Admin else if str_eqb s "editor" then Some Role.Editor
  else if str_eqb s "viewer" then Some Role.Viewer else None.

Module AdminRow.
Record t := mk { role : string; actor : option string; expires_at : Z }.
End AdminRow.

Abbreviation AdminRows := (gmap string AdminRow.t).
Abbreviation AdminPool := (ConfigDb.t AdminRows).

Module CachedEntry.
Record t := mk { info : option SessionInfo.t; valid_until : Z }.
End CachedEntry.

Definition SWEEP_EVERY : Z := 512.
Definition DEFAULT_TTL : Z := from_secs (24 * 60 * 60).
Definition DEFAULT_CACHE_TTL : Z := from_secs 5.

(** [PostgresAdminSessionStore] without its pool. *)
Module AdminNode.
Record t := mk { ttl : Z; cache_ttl : Z; cache : gmap string CachedEntry.t; since_sweep : Z }.
Definition set_cache (c : gmap string CachedEntry.t) (n : t) : t := mk (ttl n) (cache_ttl n) c (since_sweep n).
Definition put (sid : string) (info : option SessionInfo.t) (valid_until : Z) (n : t) : t :=
  set_cache (<[sid := CachedEntry.mk info valid_until]> (cache n)) n.
Definition connect_with (ttl cache_ttl : Z) : t := mk ttl cache_ttl ∅ 0.
Definition connect : t := connect_with DEFAULT_TTL DEFAULT_CACHE_TTL.
Definition cache_len (n : t) : Z := Z.of_nat (size (cache n)).
End AdminNode.

(** The pool and the node a call works on. *)
Abbreviation AS := (AdminPool * AdminNode.t)%type.
Abbreviation AM A := (St AS A).
Definition on_pool {A} (m : St AdminPool A) : AM A := fun '(p, n) => let '(a, p') := m p in (a, (p', n)).
Definition on_node (f : AdminNode.t -> AdminNode.t) : AM unit := fun '(p, n) => (tt, (p, f n)).

(** ** Calls *)

Definition clip_to_expiry (now cache_until expires_at : Z) : Z :=
  if expires_at <=? now then now else Z.min cache_until (now + (expires_at - now)).

(** [id] is the minted id; a failing [INSERT] is logged. *)
Definition create (now : Z) (id : string) (role : Role.t) (actor : option string) : AM string :=
  do ttl <- st_get (fun s => AdminNode.ttl s.2);
  do cache_ttl <- st_get (fun s => AdminNode.cache_ttl s.2);
  let expires_at := now + ttl in
  do! on_pool (execute "insert" (fun rows => match rows !! id with
                                             | Some _ => rows | None => <[id := AdminRow.mk (role_to_str role) actor expires_at]> rows end));
  do! on_node (AdminNode.put id (Some (SessionInfo.mk role actor)) (clip_to_expiry now (now + cache_ttl) expires_at));
  st_ret id.

(** [e.valid_until > now] *)
Definition fresh_entry (now : Z) (e : CachedEntry.t) : bool := now <? CachedEntry.valid_until e.

Definition sweep_cache (now : Z) (n : AdminNode.t) : AdminNode.t :=
  let k := as_u32 (AdminNode.since_sweep n + 1) in
  if SWEEP_EVERY <=? AdminNode.since_sweep n + 1
  then AdminNode.mk (AdminNode.ttl n) (AdminNode.cache_ttl n) (filter (fun kv => fresh_entry now kv.2 = true) (AdminNode.cache n)) 0
  else AdminNode.mk (AdminNode.ttl n) (AdminNode.cache_ttl n) (AdminNode.cache n) k.

Definition cached (now : Z) (id : string) (n : AdminNode.t) : option CachedEntry.t :=
  e ← AdminNode.cache n !! id; if fresh_entry now e then Some e else None.

(** The lookup in the table and what is cached of it. *)
Definition resolve_session (now : Z) (id : string) : AM (option SessionInfo.t) :=
  do cache_ttl <- st_get (fun s => AdminNode.cache_ttl s.2);
  do row <- on_pool (query "select" (fun rows => rows !! id));
  match row with
  | Err _ => st_ret None
  | Ok None => do! on_node (AdminNode.put id None (now + cache_ttl)); st_ret None
  | Ok (Some r) =>
    match role_from_str (AdminRow.role r) with
    | None => do! on_node (AdminNode.put id None (now + cache_ttl)); st_ret None
    | Some role =>
      if AdminRow.expires_at r <=? now then
        do! on_pool (execute "delete expired" (delete id));
        do! on_node (AdminNode.put id None (now + cache_ttl));
        st_ret None
      else
        let info := SessionInfo.mk role (AdminRow.actor r) in
        do! on_node (AdminNode.put id (Some info) (clip_to_expiry now (now + cache_ttl) (AdminRow.expires_at r)));
        st_ret (Some info)
    end
  end.

Definition validate (now : Z) (id : string) : AM (option SessionInfo.t) :=
  do! on_node (sweep_cache now);
  do hit <- st_get (fun s => cached now id s.2);
  match hit with
  | Some e => st_ret (CachedEntry.info e)
  | None => resolve_session now id
  end.

Definition remove (now : Z) (id : string) : AM unit :=
  do! on_pool (execute "delete" (delete id));
  on_node (fun n => AdminNode.put id None (now + AdminNode.cache_ttl n) (AdminNode.set_cache (delete id (AdminNode.cache n)) n)).

Definition actor_is (actor : string) (info : option SessionInfo.t) : bool := bool_decide ((info ≫= SessionInfo.actor) = Some actor).

Definition revoke_by_actor (actor : string) : AM unit :=
  do! on_pool (execute "revoke" (filter (fun kv => bool_decide (AdminRow.actor kv.2 = Some actor) = false)));
  on_node (fun n => AdminNode.set_cache (filter (fun kv => actor_is actor (CachedEntry.info kv.2) = false) (AdminNode.cache n)) n).

(** ** The cluster *)

Module Cluster.
Record t := mk { rows : AdminRows; nodes : gmap N AdminNode.t }.
End Cluster.

(** A call on node [k] whose statements all succeed. *)
Definition on_cluster {A} (k : N) (m : AM A) (c : Cluster.t) : option (A * Cluster.t) :=
  n ← Cluster.nodes c !! k;
  let '(a, (p, n')) := m (ConfigDb.mk (Cluster.rows c) [], n) in
  Some (a, Cluster.mk (ConfigDb.tables p) (<[k := n']> (Cluster.nodes c))).

Section Cluster.
Context (ttl cache_ttl : Z).

(** When, and on which node, a session was ended. *)
Abbreviation Ended := (gmap string (Z * N)).

Definition ended_by (now : Z) (k : N) (p : AdminSessions.entry -> bool) (ref : AdminSessions.t) (gone : Ended) : Ended :=
  ((fun _ => (now, k)) <$> filter (fun kv => p kv.2 = true) (AdminSessions.sessions ref)) ∪ gone.

(** The id was never minted, nor looked up lately on any node. *)
Definition unseen (sid : string) (c : Cluster.t) (ref : AdminSessions.t) (gone : Ended) : Prop :=
  AdminSessions.sessions ref !! sid = None /\ gone !! sid = None
  /\ forall k n, Cluster.nodes c !! k = Some n -> AdminNode.cache n !! sid = None.

(** Runs of the cluster beside the reference: time passes, nodes start, calls
    run on any node. *)
Inductive run : Z -> Cluster.t -> AdminSessions.t -> Ended -> Prop :=
| run_start now : run now (Cluster.mk ∅ ∅) (AdminSessions.new ttl) ∅
| run_tick now now' c ref gone : now <= now' -> run now c ref gone -> run now' c ref gone
| run_join now k c ref gone : Cluster.nodes c !! k = None -> run now c ref gone ->
    run now (Cluster.mk (Cluster.rows c) (<[k := AdminNode.connect_with ttl cache_ttl]> (Cluster.nodes c))) ref gone
| run_create now k id role actor c c' x ref gone :
    run now c ref gone -> unseen id c ref gone -> on_cluster k (create now id role actor) c = Some (x, c') ->
    run now c' (AdminSessions.create now id role actor ref) gone
| run_validate now k id c c' x ref gone :
    run now c ref gone -> on_cluster k (validate now id) c = Some (x, c') -> run now c' ref gone
| run_remove now k id c c' x ref gone :
    run now c ref gone -> on_cluster k (remove now id) c = Some (x, c') ->
    run now c' (AdminSessions.remove id ref)
      (match AdminSessions.sessions ref !! id with Some _ => <[id := (now, k)]> gone | None => gone end)
| run_revoke now k actor c c' x ref gone :
    run now c ref gone -> on_cluster k (revoke_by_actor actor) c = Some (x, c') ->
    run now c' (AdminSessions.revoke_by_actor actor ref) (ended_by now k (AdminSessions.belongs_to actor) ref gone).

(** ** What the caches say *)

Definition entry_ok (now : Z) (k : N) (sid : string) (ref : AdminSessions.t) (gone : Ended) (e : CachedEntry.t) : Prop :=
  CachedEntry.valid_until e <= now + cache_ttl
  /\ match CachedEntry.info e with
     | Some i => (exists s, AdminSessions.sessions ref !! sid = Some s /\ i = AdminSessions.info s
                    /\ CachedEntry.valid_until e <= AdminSessions.expiry s)
                 \/ (exists t k', gone !! sid = Some (t, k') /\ k' <> k /\ CachedEntry.valid_until e <= t + cache_ttl)
     | None => forall s, AdminSessions.sessions ref !! sid = Some s -> AdminSessions.expiry s <= now
     end.

Definition row_entry (r : AdminRow.t) (s : AdminSessions.entry) : Prop :=
  exists role, AdminRow.role r = role_to_str role
    /\ s = AdminSessions.mkEntry (AdminRow.expires_at r) (SessionInfo.mk role (AdminRow.actor r)).

Record consistent (now : Z) (c : Cluster.t) (ref : AdminSessions.t) (gone : Ended) : Prop := {
  c_ttl : AdminSessions.ttl ref = ttl;
  c_nodes : forall k n, Cluster.nodes c !! k = Some n -> AdminNode.ttl n = ttl /\ AdminNode.cache_ttl n = cache_ttl;
  c_rows : forall sid r, Cluster.rows c !! sid = Some r -> exists s, AdminSessions.sessions ref !! sid = Some s /\ row_entry r s;
  c_live : forall sid s, AdminSessions.sessions ref !! sid = Some s -> now < AdminSessions.expiry s -> is_Some (Cluster.rows c !! sid);
  c_gone : forall sid t k, gone !! sid = Some (t, k) -> AdminSessions.sessions ref !! sid = None;
  c_cache : forall k n sid e, Cluster.nodes c !! k = Some n -> AdminNode.cache n !! sid = Some e -> entry_ok now k sid ref gone e }.

Context (ttl_pos : 0 < ttl) (cache_ttl_nonneg : 0 <= cache_ttl).

Lemma role_round_trip role : role_from_str (role_to_str role) = Some role.
Proof. by destruct role. Qed.

Lemma clip_bounds now expires_at : now < expires_at ->
  clip_to_expiry now (now + cache_ttl) expires_at <= now + cache_ttl /\ clip_to_expiry now (now + cache_ttl) expires_at <= expires_at.
Proof. unfold clip_to_expiry. destruct (Z.leb_spec expires_at now); lia. Qed.

Lemma entry_ok_later now now' k sid ref gone e : now <= now' -> entry_ok now k sid ref gone e -> entry_ok now' k sid ref gone e.
Proof.
  intros Hle [Hv Hi]. split; [lia|]. destruct (CachedEntry.info e); [done|]. intros s Hs. specialize (Hi s Hs). lia.
Qed.

(** A node whose cache says nothing new. *)
Lemma consistent_node now k n n' c ref gone : consistent now c ref gone -> Cluster.nodes c !! k = Some n ->
  AdminNode.ttl n' = AdminNode.ttl n -> AdminNode.cache_ttl n' = AdminNode.cache_ttl n ->
  (forall sid e, AdminNode.cache n' !! sid = Some e -> AdminNode.cache n !! sid = Some e \/ entry_ok now k sid ref gone e) ->
  consistent now (Cluster.mk (Cluster.rows c) (<[k := n']> (Cluster.nodes c))) ref gone.
Proof.
  intros [Ht Hn Hr Hl Hg Hc] Hk Et Ec He. split; [done| |done|done|done|]; cbn.
  - intros j m [[<- <-]|[_ Hj]]%lookup_insert_Some; [|by eapply Hn]. rewrite Et, Ec. by eapply Hn.
  - intros j m sid e [[<- <-]|[_ Hj]]%lookup_insert_Some Hs; [|by eapply Hc].
    destruct (He _ _ Hs) as [Hs'|?]; [by eapply Hc|done].
Qed.

Lemma put_lookup sid0 info v n sid e : AdminNode.cache (AdminNode.put sid0 info v n) !! sid = Some e ->
  sid = sid0 /\ e = CachedEntry.mk info v \/ sid <> sid0 /\ AdminNode.cache n !! sid = Some e.
Proof. cbn. intros [[<- <-]|[Hne Hs]]%lookup_insert_Some; [by left|by right]. Qed.

Lemma sweep_cache_same now n : AdminNode.ttl (sweep_cache now n) = AdminNode.ttl n /\ AdminNode.cache_ttl (sweep_cache now n) = AdminNode.cache_ttl n
  /\ forall sid e, AdminNode.cache (sweep_cache now n) !! sid = Some e -> AdminNode.cache n !! sid = Some e.
Proof.
  unfold sweep_cache. cbv zeta. destruct (_ <=? _); cbn; (split; [done|split; [done|]]); [|done].
  intros sid e [He _]%map_lookup_filter_Some. done.
Qed.

(** *** A validation *)

(** The answer, what became of the table, and what was cached. *)
Inductive validated (now : Z) (id : string) (rows : AdminRows) (n : AdminNode.t) :
    option SessionInfo.t -> AdminRows -> AdminNode.t -> Prop :=
| validated_hit e : cached now id (sweep_cache now n) = Some e ->
    validated now id rows n (CachedEntry.info e) rows (sweep_cache now n)
| validated_none : rows !! id = None ->
    validated now id rows n None rows (AdminNode.put id None (now + AdminNode.cache_ttl n) (sweep_cache now n))
| validated_odd r : rows !! id = Some r -> role_from_str (AdminRow.role r) = None ->
    validated now id rows n None rows (AdminNode.put id None (now + AdminNode.cache_ttl n) (sweep_cache now n))
| validated_expired r role : rows !! id = Some r -> role_from_str (AdminRow.role r) = Some role -> AdminRow.expires_at r <= now ->
    validated now id rows n None (delete id rows) (AdminNode.put id None (now + AdminNode.cache_ttl n) (sweep_cache now n))
| validated_live r role : rows !! id = Some r -> role_from_str (AdminRow.role r) = Some role -> now < AdminRow.expires_at r ->
    validated now id rows n (Some (SessionInfo.mk role (AdminRow.actor r))) rows
      (AdminNode.put id (Some (SessionInfo.mk role (AdminRow.actor r)))
         (clip_to_expiry now (now + AdminNode.cache_ttl n) (AdminRow.expires_at r)) (sweep_cache now n)).

Lemma validate_validated now id rows n : exists x rows' n',
  validate now id (ConfigDb.mk rows [], n) = (x, (ConfigDb.mk rows' [], n')) /\ validated now id rows n x rows' n'.
Proof.
  destruct (sweep_cache_same now n) as (_ & Ec & _). unfold validate, st_bind at 1, on_node, st_bind at 1, st_get. cbn [snd].
  destruct (cached now id (sweep_cache now n)) as [e|] eqn:E.
  { eexists _, _, _. split; [reflexivity|by constructor]. }
  unfold resolve_session, st_bind, st_get, on_pool, query, statement. cbn [fst snd ConfigDb.faults ConfigDb.tables]. rewrite Ec.
  destruct (rows !! id) as [r|] eqn:Er; [|eexists _, _, _; split; [reflexivity|by constructor]].
  destruct (role_from_str (AdminRow.role r)) as [role|] eqn:Ero; [|eexists _, _, _; split; [reflexivity|by econstructor]].
  destruct (Z.leb_spec (AdminRow.expires_at r) now); eexists _, _, _; (split; [reflexivity|by econstructor]).
Qed.

Lemma validated_ok now k id c n x rows' n' ref gone : consistent now c ref gone -> Cluster.nodes c !! k = Some n ->
  validated now id (Cluster.rows c) n x rows' n' ->
  consistent now (Cluster.mk rows' (<[k := n']> (Cluster.nodes c))) ref gone
  /\ (forall info, (AdminSessions.validate now id ref).1 = Some info -> x = Some info)
  /\ (forall info, x = Some info -> (AdminSessions.validate now id ref).1 = Some info
        \/ exists t k', gone !! id = Some (t, k') /\ k' <> k /\ now < t + cache_ttl).
Proof.
  intros Hok Hk Hv. pose proof Hok as [Ht Hn Hr Hl Hg Hc]. destruct (sweep_cache_same now n) as (Et & Ec & Hsw).
  destruct (Hn _ _ Hk) as [Hnt Hnc].
  assert (forall info, (AdminSessions.validate now id ref).1 = Some info <-> exists s, AdminSessions.sessions ref !! id = Some s
            /\ now < AdminSessions.expiry s /\ info = AdminSessions.info s) as Href.
  { intros info. unfold AdminSessions.validate. destruct (AdminSessions.sessions ref !! id) as [s|]; [|naive_solver].
    destruct (Z.ltb_spec now (AdminSessions.expiry s)); cbn; [naive_solver|]. split; [done|]. intros (s' & [= <-] & ? & _). lia. }
  destruct Hv as [e He|Hnone|r Her Hodd|r role Her Hro Hexp|r role Her Hro Hlive].
  - unfold cached in He. destruct (AdminNode.cache (sweep_cache now n) !! id) as [e'|] eqn:Ee; [|done]. cbn in He.
    destruct (fresh_entry now e') eqn:Ef; [|done]. injection He as ->. unfold fresh_entry in Ef. apply Z.ltb_lt in Ef.
    destruct (Hc _ _ _ _ Hk (Hsw _ _ Ee)) as [_ Hi]. split; [|split].
    + eapply consistent_node; [done..|]. intros sid e0 ?%Hsw. by left.
    + intros info (s & Hs & Hlt & ->)%Href. destruct (CachedEntry.info e) as [i|]; [|specialize (Hi s Hs); lia].
      destruct Hi as [(s' & Hs' & -> & _)|(t & k' & Hgone & _)]; [congruence|]. apply Hg in Hgone. congruence.
    + intros info Hinfo. rewrite Hinfo in Hi. destruct Hi as [(s & Hs & -> & Hle)|(t & k' & Hgone & Hne & Hle)].
      * left. apply Href. exists s. split; [done|]. split; [lia|done].
      * right. exists t, k'. split; [done|]. split; [done|lia].
  - split; [|split; [|done]].
    + eapply consistent_node; [done|done|exact Et|exact Ec|]. intros sid e [[-> ->]|[_ ?%Hsw]]%put_lookup; [right|by left].
      split; [cbn; lia|]. cbn. intros s Hs. destruct (Z.le_gt_cases (AdminSessions.expiry s) now) as [|Hlt]; [done|].
      destruct (Hl _ _ Hs) as [? ?]; [lia|congruence].
    + intros info (s & Hs & Hlt & _)%Href. destruct (Hl _ _ Hs Hlt). congruence.
  - destruct (Hr _ _ Her) as (s & _ & role & Hrole & _). by rewrite Hrole, role_round_trip in Hodd.
  - destruct (Hr _ _ Her) as (s & Hs & role' & Hrole & ->). split; [|split; [|done]].
    + assert (consistent now (Cluster.mk (delete id (Cluster.rows c)) (Cluster.nodes c)) ref gone) as Hok'.
      { split; [done|done| |  |done|done]; cbn.
        - intros sid r' [_ Hr']%lookup_delete_Some. by apply Hr.
        - intros sid s' Hs' Hlt. rewrite lookup_delete_ne; [by eapply Hl|]. intros ->. rewrite Hs in Hs'. injection Hs' as <-. cbn in Hlt. lia. }
      eapply (consistent_node _ _ _ _ _ _ _ Hok'); [done|exact Et|exact Ec|]. intros sid e [[-> ->]|[_ ?%Hsw]]%put_lookup; [right|by left].
      split; [cbn; lia|]. cbn. intros s' Hs'. rewrite Hs in Hs'. injection Hs' as <-. done.
    + intros info (s' & Hs' & Hlt & _)%Href. rewrite Hs in Hs'. injection Hs' as <-. cbn in Hlt. lia.
  - destruct (Hr _ _ Her) as (s & Hs & role' & Hrole & ->). rewrite Hrole, role_round_trip in Hro. injection Hro as <-. rewrite Hnc.
    split; [|split].
    + eapply consistent_node; [done|done|exact Et|exact Ec|]. intros sid e [[-> ->]|[_ ?%Hsw]]%put_lookup; [right|by left].
      destruct (clip_bounds now (AdminRow.expires_at r) Hlive) as [H1 H2]. split; [exact H1|]. left. eexists. split; [exact Hs|]. by split.
    + intros info (s' & Hs' & _ & ->)%Href. rewrite Hs in Hs'. by injection Hs' as <-.
    + intros info [= <-]. left. apply Href. eexists. split; [exact Hs|]. by split.
Qed.

(** *** The writes *)

Lemma on_cluster_inv {A} k (m : AM A) c x c' : on_cluster k m c = Some (x, c') ->
  exists n p n', Cluster.nodes c !! k = Some n /\ m (ConfigDb.mk (Cluster.rows c) [], n) = (x, (p, n'))
    /\ c' = Cluster.mk (ConfigDb.tables p) (<[k := n']> (Cluster.nodes c)).
Proof.
  unfold on_cluster. destruct (Cluster.nodes c !! k) as [n|]; [|done]. cbn. destruct (m _) as [a [p n']] eqn:E. intros [= <- <-].
  by exists n, p, n'.
Qed.

Lemma consistent_later now now' c ref gone : now <= now' -> consistent now c ref gone -> consistent now' c ref gone.
Proof.
  intros Hle [Ht Hn Hr Hl Hg Hc]. split; [done..| |done|].
  - intros sid s Hs Hlt. eapply Hl; [done|lia].
  - intros k n sid e Hk Hs. eapply entry_ok_later; [done|by eapply Hc].
Qed.

Lemma consistent_join now k c ref gone : Cluster.nodes c !! k = None -> consistent now c ref gone ->
  consistent now (Cluster.mk (Cluster.rows c) (<[k := AdminNode.connect_with ttl cache_ttl]> (Cluster.nodes c))) ref gone.
Proof.
  intros Hk [Ht Hn Hr Hl Hg Hc]. split; [done| |done|done|done|]; cbn.
  - intros j m [[<- <-]|[_ Hj]]%lookup_insert_Some; [done|by eapply Hn].
  - intros j m sid e [[<- <-]|[_ Hj]]%lookup_insert_Some Hs; [cbn in Hs; by rewrite lookup_empty in Hs|by eapply Hc].
Qed.

Lemma create_ok now k id role actor c x c' ref gone : consistent now c ref gone -> unseen id c ref gone ->
  on_cluster k (create now id role actor) c = Some (x, c') -> consistent now c' (AdminSessions.create now id role actor ref) gone.
Proof.
  intros [Ht Hn Hr Hl Hg Hc] (Hur & Hug & Huc) (n & p & n' & Hk & Hm & ->)%on_cluster_inv. destruct (Hn _ _ Hk) as [Hnt Hnc].
  assert (Cluster.rows c !! id = None) as Hrow.
  { destruct (Cluster.rows c !! id) eqn:E; [|done]. apply Hr in E as (s & Hs & _). congruence. }
  unfold create, st_bind, st_get, on_pool, on_node, st_ret, execute, statement in Hm. cbn in Hm. rewrite Hrow in Hm. injection Hm as _ <- <-.
  rewrite Hnt, Hnc. destruct (clip_bounds now (now + ttl)) as [H1 H2]; [lia|]. split; cbn; [done| | | | |].
  - intros j m [[<- <-]|[_ Hj]]%lookup_insert_Some; [done|by eapply Hn].
  - intros sid r [[<- <-]|[Hne Hs]]%lookup_insert_Some.
    + exists (AdminSessions.mkEntry (now + ttl) (SessionInfo.mk role actor)). rewrite lookup_insert_eq, Ht. split; [done|]. by exists role.
    + rewrite lookup_insert_ne by done. by apply Hr.
  - intros sid s [[<- <-]|[Hne Hs]]%lookup_insert_Some Hlt; [rewrite lookup_insert_eq; by eexists|]. rewrite lookup_insert_ne by done. by eapply Hl.
  - intros sid t k' Hs. rewrite lookup_insert_ne; [by eapply Hg|]. intros ->. congruence.
  - intros j m sid e Hj Hs.
    destruct (decide (sid = id)) as [->|Hne].
    + apply lookup_insert_Some in Hj as [[<- <-]|[_ Hj]]; [|by rewrite (Huc _ _ Hj) in Hs]. cbn in Hs. rewrite lookup_insert_eq in Hs.
      injection Hs as <-. split; [exact H1|]. cbn. left. eexists. rewrite lookup_insert_eq, Ht. split; [done|]. by split.
    + assert (entry_ok now j sid ref gone e) as [Hv Hi].
      { apply lookup_insert_Some in Hj as [[<- <-]|[_ Hj]]; [|by eapply Hc]. cbn in Hs. rewrite lookup_insert_ne in Hs by done. by eapply Hc. }
      split; [done|]. cbn. by rewrite lookup_insert_ne.
Qed.

(** Sessions that end: the reference drops them, the table too, and the node
    that ends them keeps nothing of them. *)
Lemma end_ok now k n n' (p : string -> AdminSessions.entry -> bool) rows' c ref ref' gone gone' :
  consistent now c ref gone -> Cluster.nodes c !! k = Some n ->
  AdminSessions.ttl ref' = ttl -> AdminNode.ttl n' = ttl -> AdminNode.cache_ttl n' = cache_ttl ->
  (forall sid, AdminSessions.sessions ref' !! sid = (s ← AdminSessions.sessions ref !! sid; if p sid s then None else Some s)) ->
  (forall sid, gone' !! sid = match AdminSessions.sessions ref !! sid with
                              | Some s => if p sid s then Some (now, k) else gone !! sid | None => gone !! sid end) ->
  (forall sid r, rows' !! sid = Some r <-> Cluster.rows c !! sid = Some r
     /\ forall s, AdminSessions.sessions ref !! sid = Some s -> p sid s = false) ->
  (forall sid e, AdminNode.cache n' !! sid = Some e -> CachedEntry.valid_until e <= now + cache_ttl
     /\ match CachedEntry.info e with
        | Some i => AdminNode.cache n !! sid = Some e /\ forall s, AdminSessions.sessions ref !! sid = Some s -> i = AdminSessions.info s -> p sid s = false
        | None => AdminNode.cache n !! sid = Some e \/ forall s, AdminSessions.sessions ref !! sid = Some s -> p sid s = true
        end) ->
  consistent now (Cluster.mk rows' (<[k := n']> (Cluster.nodes c))) ref' gone'.
Proof.
  intros [Ht Hn Hr Hl Hg Hc] Hk Et' Ent Enc Href Hgone Hrows Hcache. split; [done| | | | |]; cbn.
  - intros j m [[<- <-]|[_ Hj]]%lookup_insert_Some; [done|by eapply Hn].
  - intros sid r [Hrow Hp]%Hrows. destruct (Hr _ _ Hrow) as (s & Hs & He). exists s. rewrite Href, Hs. cbn. by rewrite (Hp s Hs).
  - intros sid s. rewrite Href. destruct (AdminSessions.sessions ref !! sid) as [s0|] eqn:Es; [|done]. cbn.
    destruct (p sid s0) eqn:Ep; [done|]. intros [= <-] Hlt. destruct (Hl _ _ Es Hlt) as [r Hrow]. exists r. apply Hrows. split; [done|congruence].
  - intros sid t j. rewrite Hgone, Href. destruct (AdminSessions.sessions ref !! sid) as [s0|] eqn:Es; [|done]. cbn.
    destruct (p sid s0); [done|]. intros ?%Hg. congruence.
  - assert (forall j sid e, entry_ok now j sid ref gone e ->
      (forall s i, AdminSessions.sessions ref !! sid = Some s -> CachedEntry.info e = Some i -> i = AdminSessions.info s -> j = k -> p sid s = false) ->
      entry_ok now j sid ref' gone' e) as Hkeep.
    { intros j sid e [Hv Hi] Hp. split; [done|]. rewrite Hgone, Href. destruct (CachedEntry.info e) as [i|]; cycle 1.
      { intros s. destruct (AdminSessions.sessions ref !! sid) as [s0|]; [|done]. cbn. destruct (p sid s0); [done|]. intros [= <-]. by apply Hi. }
      destruct (AdminSessions.sessions ref !! sid) as [s0|] eqn:Es.
      - destruct Hi as [(s & [= <-] & -> & Hle)|(t & j' & Hgn & _)]; [|apply Hg in Hgn; congruence]. cbn. destruct (p sid s0) eqn:Ep.
        + right. exists now, k. split; [done|]. split; [|lia]. intros <-. rewrite (Hp s0 _ eq_refl eq_refl eq_refl eq_refl) in Ep. done.
        + left. by exists s0.
      - cbn. destruct Hi as [(s & [=] & _)|Hi]. by right. }
    intros j m sid e [[<- <-]|[Hne Hj]]%lookup_insert_Some Hs; [|apply Hkeep; [by eapply Hc|congruence]].
    destruct (Hcache _ _ Hs) as [Hv He]. destruct (CachedEntry.info e) as [i|] eqn:Ei.
    + destruct He as [Hs0 Hp]. apply Hkeep; [by eapply Hc|]. intros s i' Hs' Hi' Hinfo _. apply Hp; [done|congruence].
    + destruct He as [Hs0|Hall]; [apply Hkeep; [by eapply Hc|intros; congruence]|]. split; [done|]. rewrite Ei. intros s. rewrite Href.
      destruct (AdminSessions.sessions ref !! sid) as [s0|] eqn:Es; [|done]. cbn. by rewrite (Hall s0 eq_refl).
Qed.

Lemma remove_ok now k id c x c' ref gone : consistent now c ref gone -> on_cluster k (remove now id) c = Some (x, c') ->
  consistent now c' (AdminSessions.remove id ref)
    (match AdminSessions.sessions ref !! id with Some _ => <[id := (now, k)]> gone | None => gone end).
Proof.
  intros Hok (n & p & n' & Hk & Hm & ->)%on_cluster_inv. pose proof (c_nodes _ _ _ _ Hok _ _ Hk) as [Hnt Hnc]. injection Hm as _ <- <-.
  apply (end_ok now k n _ (fun sid _ => bool_decide (sid = id)) _ _ ref _ gone); try done; cbn.
  - apply (c_ttl _ _ _ _ Hok).
  - intros sid. destruct (decide (sid = id)) as [->|Hne].
    + rewrite lookup_delete_eq, bool_decide_true by done. by destruct (AdminSessions.sessions ref !! id).
    + rewrite lookup_delete_ne, bool_decide_false by done. by destruct (AdminSessions.sessions ref !! sid).
  - intros sid. destruct (decide (sid = id)) as [->|Hne].
    + rewrite bool_decide_true by done. destruct (AdminSessions.sessions ref !! id); [apply lookup_insert_eq|done].
    + rewrite bool_decide_false by done. destruct (AdminSessions.sessions ref !! id); [rewrite lookup_insert_ne by done|]; by destruct (AdminSessions.sessions ref !! sid).
  - intros sid r. rewrite lookup_delete_Some. split.
    + intros [Hne Hr]. split; [done|]. intros s _. by apply bool_decide_false.
    + intros [Hr Hp]. split; [|done]. intros <-. destruct (c_rows _ _ _ _ Hok _ _ Hr) as (s & Hs & _). specialize (Hp s Hs).
      by rewrite bool_decide_true in Hp.
  - intros sid e [[<- <-]|[Hne Hs]]%lookup_insert_Some.
    + cbn. rewrite Hnc. split; [lia|]. right. intros s _. by apply bool_decide_true.
    + rewrite lookup_delete_ne in Hs by done. split; [by eapply (c_cache _ _ _ _ Hok)|].
      destruct (CachedEntry.info e); [|by left]. split; [done|]. intros s _ _. by apply bool_decide_false.
Qed.

Lemma revoke_ok now k actor c x c' ref gone : consistent now c ref gone -> on_cluster k (revoke_by_actor actor) c = Some (x, c') ->
  consistent now c' (AdminSessions.revoke_by_actor actor ref) (ended_by now k (AdminSessions.belongs_to actor) ref gone).
Proof.
  intros Hok (n & p & n' & Hk & Hm & ->)%on_cluster_inv. pose proof (c_nodes _ _ _ _ Hok _ _ Hk) as [Hnt Hnc]. injection Hm as _ <- <-.
  apply (end_ok now k n _ (fun _ s => AdminSessions.belongs_to actor s) _ _ ref _ gone); try done; cbn.
  - apply (c_ttl _ _ _ _ Hok).
  - intros sid. rewrite map_lookup_filter. destruct (AdminSessions.sessions ref !! sid) as [s|]; [|done]. cbn.
    by destruct (AdminSessions.belongs_to actor s).
  - intros sid. unfold ended_by. rewrite lookup_union, lookup_fmap, map_lookup_filter.
    destruct (AdminSessions.sessions ref !! sid) as [s|]; cbn; [|by destruct (gone !! sid)].
    destruct (AdminSessions.belongs_to actor s); cbn; by destruct (gone !! sid).
  - intros sid r. rewrite map_lookup_filter_Some. cbn. split; intros [Hr Hp]; (split; [done|]);
      destruct (c_rows _ _ _ _ Hok _ _ Hr) as (s & Hs & role & _ & ->).
    + intros s'. rewrite Hs. intros [= <-]. exact Hp.
    + exact (Hp _ Hs).
  - intros sid e [Hs Hp]%map_lookup_filter_Some. split; [by eapply (c_cache _ _ _ _ Hok)|].
    destruct (CachedEntry.info e) as [i|] eqn:Ei; [|by left]. split; [done|]. intros s _ ->. cbn in Hp. by rewrite Ei in Hp.
Qed.

Lemma run_consistent now c ref gone : run now c ref gone -> consistent now c ref gone.
Proof.
  induction 1 as [now|now now' c ref gone Hle _ IH|now k c ref gone Hk _ IH|now k id role actor c c' x ref gone _ IH Hu Hc|
    now k id c c' x ref gone _ IH Hc|now k id c c' x ref gone _ IH Hc|now k actor c c' x ref gone _ IH Hc].
  - by split.
  - by eapply consistent_later.
  - by apply consistent_join.
  - by eapply create_ok.
  - apply on_cluster_inv in Hc as (n & p & n' & Hk & Hm & ->). destruct (validate_validated now id (Cluster.rows c) n) as (x' & rows' & n'' & E & Hv).
    rewrite E in Hm. injection Hm as -> <- ->. by eapply validated_ok.
  - by eapply remove_ok.
  - by eapply revoke_ok.
Qed.

(** ** Properties *)

(** C37. The shared store is the store of one node, up to one cache window.
    In every run of a cluster whose statements succeed, whatever nodes create,
    validate, remove and revoke sessions in whatever order, a validation on any
    node accepts every session that the one-node store would accept then, with
    the same role and actor; and what it accepts the one-node store accepts
    too, unless another node ended that session less than one cache window
    ago.  The node that ended it never accepts it. *)
Theorem shared_admin_sessions_refine now c ref gone k id answer c' :
  run now c ref gone -> on_cluster k (validate now id) c = Some (answer, c') ->
  (forall info, (AdminSessions.validate now id ref).1 = Some info -> answer = Some info)
  /\ (forall info, answer = Some info ->
       (AdminSessions.validate now id ref).1 = Some info
       \/ exists t k', gone !! id = Some (t, k') /\ k' <> k /\ now < t + cache_ttl).
Proof.
  intros Hok%run_consistent (n & p & n' & Hk & Hm & ->)%on_cluster_inv.
  destruct (validate_validated now id (Cluster.rows c) n) as (x & rows' & n'' & E & Hv). rewrite E in Hm. injection Hm as -> <- ->.
  by eapply validated_ok.
Qed.
End Cluster.

(** ** Examples *)

Module AdminClusterExamples.
Definition day : Z := DEFAULT_TTL.
Definition window : Z := DEFAULT_CACHE_TTL.
Definition after {A} (o : option (A * Cluster.t)) : Cluster.t := match o with Some (_, c) => c | None => Cluster.mk ∅ ∅ end.
Definition answer {A} (o : option (A * Cluster.t)) : option A := fst <$> o.
Definition two : Cluster.t := Cluster.mk ∅ (<[1%N := AdminNode.connect]> (<[0%N := AdminNode.connect]> ∅)).
Definition ana : SessionInfo.t := SessionInfo.mk Role.Editor (Some "ana").

(** Signed in on node 0, seen by node 1, revoked on node 0 a second later. *)
Definition signed_in : Cluster.t := after (on_cluster 0 (create 0 "s" Role.Editor (Some "ana")) two).
Definition seen : Cluster.t := after (on_cluster 1 (validate 0 "s") signed_in).
Definition revoked : Cluster.t := after (on_cluster 0 (revoke_by_actor "ana") seen).

Example revoked_session_lingers :
  answer (on_cluster 1 (validate (from_secs 3) "s") revoked) = Some (Some ana)
  /\ answer (on_cluster 0 (validate (from_secs 1) "s") revoked) = Some None
  /\ answer (on_cluster 1 (validate (from_secs 6) "s") revoked) = Some None.
Proof. by vm_compute. Qed.

Definition one_ref : AdminSessions.t := AdminSessions.create 0 "s" Role.Editor (Some "ana") (AdminSessions.new day).
Definition revoked_ref : AdminSessions.t := AdminSessions.revoke_by_actor "ana" one_ref.
Definition ended : gmap string (Z * N) := ended_by (from_secs 1) 0 (AdminSessions.belongs_to "ana") one_ref ∅.

Lemma run_revoked : run day window (from_secs 3) revoked revoked_ref ended.
Proof.
  apply (run_tick _ _ (from_secs 1)); [by vm_compute|].
  apply (run_revoke _ _ _ 0 "ana" seen revoked tt one_ref ∅); [|by vm_compute].
  apply (run_tick _ _ 0); [by vm_compute|].
  apply (run_validate _ _ _ 1 "s" signed_in seen (Some ana)); [|by vm_compute].
  apply (run_create _ _ _ 0 "s" Role.Editor (Some "ana") two signed_in "s" (AdminSessions.new day) ∅); [| |by vm_compute].
  - exact (run_join day window 0 1 (Cluster.mk ∅ (<[0%N := AdminNode.connect]> ∅)) _ _ eq_refl
      (run_join day window 0 0 (Cluster.mk ∅ ∅) _ _ eq_refl (run_start day window 0))).
  - split; [by vm_compute|]. split; [by vm_compute|]. intros k n. unfold two. cbn [Cluster.nodes].
    intros [[<- <-]|[_ [[<- <-]|[_ Hn]]%lookup_insert_Some]]%lookup_insert_Some; [by vm_compute..|by rewrite lookup_empty in Hn].
Defined.

Lemma shared_admin_sessions_refine_witness :
  exists c', on_cluster 1 (validate (from_secs 3) "s") revoked = Some (Some ana, c')
    /\ exists t k', ended !! "s" = Some (t, k') /\ k' <> 1%N /\ from_secs 3 < t + window.
Proof.
  assert (exists c', on_cluster 1 (validate (from_secs 3) "s") revoked = Some (Some ana, c')) as [c' Hc].
  { exists (after (on_cluster 1 (validate (from_secs 3) "s") revoked)). by vm_compute. }
  exists c'. split; [exact Hc|].
  destruct (shared_admin_sessions_refine day window ltac:(by vm_compute) ltac:(by vm_compute) (from_secs 3) revoked revoked_ref ended 1 "s" (Some ana) c'
    run_revoked Hc) as [_ Hans].
  destruct (Hans ana eq_refl) as [Href|Hgone]; [by vm_compute in Href|exact Hgone].
Defined.

(** A statement that fails: the row outlives the call. *)
Definition failing (c : Cluster.t) (faults : list bool) : AS := (ConfigDb.mk (Cluster.rows c) faults, default AdminNode.connect (Cluster.nodes c !! 0%N)).

(** Signed out while the table is out of reach, accepted again when the tombstone is stale. *)
Example removed_session_returns :
  let s := (remove (from_secs 1) "s" (failing seen [true])).2 in
  (validate (from_secs 2) "s" s).1 = None /\ (validate (from_secs 7) "s" s).1 = Some ana.
Proof. by vm_compute. Qed.

(** Revoked while the table is out of reach, accepted at once. *)
Example failed_revocation_undone :
  (validate (from_secs 1) "s" (revoke_by_actor "ana" (failing seen [true])).2).1 = Some ana.
Proof. by vm_compute. Qed.

(** Signed in while the table is out of reach, unknown on the same node once the cache is stale. *)
Example failed_sign_in_forgotten :
  let s := (create 0 "s" Role.Editor (Some "ana") (failing two [true])).2 in
  (validate (from_secs 1) "s" s).1 = Some ana /\ (validate (from_secs 6) "s" s).1 = None.
Proof. by vm_compute. Qed.
End AdminClusterExamples.
