(* ===== verification/Groups.v ===== *)
(** * Groups: the groups page (routes/admin/groups.rs)

    Groups are derived: a group is any name in an account's memberships or in
    an app's access-groups.  The page lists them; an Admin creates, renames
    and deletes them, and an Editor edits the members of its own.  A rename
    or a deletion rewrites every account and every app of the database, one
    transaction each.  Shown: renaming keeps who may open what, the page lists
    exactly the groups referenced in the caller's scope, and an Editor's
    request changes memberships in the Editor's groups only. *)

From Stdlib Require Import Ascii String ZArith Lia Sorted.
From stdpp Require Import base tactics list gmap strings fin_maps numbers sorting.
From S2P Require Import Prelude Text Schema Auth Caches Database SpecStore SpecCatalog SpecForm SpecRoutes Accounts Users UsersCsv UserRoutes UserAccess.

Local Open Scope string_scope.
Local Open Scope list_scope.
Local Open Scope Z_scope.
Local Open Scope ruscker_scope.

(** ** State and views *)

(** The part of [AppState] involved; [state.db] is in both, each with the
    tables it works on. *)
Module Site.
Record t := mk { portal : Portal.t; catalog : CatalogState.t }.
End Site.

Module AppRef.
Record t := mk { id : string; name : string; logo : option string; kind : string }.

Definition from_spec (s : Spec.t) : t :=
  mk (Spec.id s) (default (Spec.id s) (Spec.display_name s)) (TemplateProperties.get_str (Spec.template_properties s) "logo")
    (DisplayType.key (DisplayType.from_spec s)).
End AppRef.

Module GroupView.
Record t := mk { name : string; members : list string; apps : list AppRef.t }.
End GroupView.

Module GroupsPage.
Record t := mk {
  role : Role.t; groups : list GroupView.t; kpi_groups : Z; kpi_members : Z; kpi_apps : Z; public_apps : list AppRef.t;
  all_users : list string; flash : option string }.
End GroupsPage.

Inductive Response :=
  | Rejected (r : Rejection)
  | RedirectFlash (flash : string)
  | NotFound
  | Groups (page : GroupsPage.t).

(** A group's members and apps while they are collected, both [BTreeSet]s. *)
Definition GroupData : Type := list string * list string.

Definition entry (f : GroupData -> GroupData) (group : string) (m : gmap string GroupData) : gmap string GroupData :=
  partial_alter (fun o => Some (f (default ([], []) o))) group m.
Definition add_user (u : string) (d : GroupData) : GroupData := (btree_insert u d.1, d.2).
Definition add_app (a : string) (d : GroupData) : GroupData := (d.1, btree_insert a d.2).

(** The entries of a [BTreeMap], by key. *)
Definition entries (m : gmap string GroupData) : list (string * GroupData) :=
  omap (fun g => d ← m !! g; Some (g, d)) (btree_set (fst <$> map_to_list m)).

Definition by_name (a b : AppRef.t) : Prop := String.leb (AppRef.name a) (AppRef.name b) = true.
#[global] Instance by_name_dec a b : Decision (by_name a b).
Proof. unfold by_name. apply _. Defined.
Definition text_le (a b : string) : Prop := String.leb a b = true.
#[global] Instance text_le_dec a b : Decision (text_le a b).
Proof. unfold text_le. apply _. Defined.

(** ** The page *)

Section Index.
Context (scope : EditorScope.t).

Definition own_groups : gmap string GroupData :=
  if EditorScope.unscoped scope then ∅ else foldl (fun m g => entry (fun d => d) g m) ∅ (EditorScope.groups scope).

(** The groups of one row that the scope may touch. *)
Definition entries_of (f : GroupData -> GroupData) (groups : list string) (m : gmap string GroupData) : gmap string GroupData :=
  foldl (fun m g => if EditorScope.may_touch_group scope g then entry f g m else m) m groups.

Definition collect_user (m : gmap string GroupData) (u : UserRow.t) : gmap string GroupData :=
  if EditorScope.may_touch_user scope u then entries_of (add_user (UserRow.username u)) (UserRow.groups u) m else m.

Definition collect_app (m : gmap string GroupData) (spec : Spec.t) : gmap string GroupData :=
  match Spec.access_groups spec with Some groups => entries_of (add_app (Spec.id spec)) groups m | None => m end.

Definition pickable (u : UserRow.t) : bool := EditorScope.unscoped scope || negb (bool_decide (UserRow.role u = Role.Admin)).

Definition group_map (users : list UserRow.t) (specs : list Spec.t) : gmap string GroupData :=
  foldl collect_app (foldl collect_user own_groups users) (List.filter (EditorScope.may_touch_spec scope) specs).

Definition group_view (specs : list Spec.t) (e : string * GroupData) : GroupView.t :=
  GroupView.mk e.1 e.2.1
    (omap (fun id => AppRef.from_spec <$> find (fun spec => str_eqb (Spec.id spec) id) specs) e.2.2).

Definition groups_page (users : list UserRow.t) (specs : list Spec.t) (flash : option string) : GroupsPage.t :=
  let groups := map (group_view specs) (entries (group_map users specs)) in
  GroupsPage.mk (EditorScope.role scope) groups (zlen groups)
    (zlen (btree_set (concat (map GroupView.members groups))))
    (zlen (btree_set (concat (map (fun g => map AppRef.id (GroupView.apps g)) groups))))
    (merge_sort by_name (map AppRef.from_spec
      (List.filter (fun spec => EditorScope.may_touch_spec scope spec && Spec.is_open spec) specs)))
    (merge_sort text_le (map UserRow.username (List.filter pickable users)))
    flash.
End Index.

(** The row with other memberships. *)
Definition proposed (groups : list string) (u : UserRow.t) : UserRow.t :=
  UserRow.mk (UserRow.id u) (UserRow.username u) (UserRow.role u) (UserRow.must_change_password u) groups (UserRow.created_at u)
    (UserRow.created_by u) (UserRow.setor u) (UserRow.email u) (UserRow.celular u).

(** ** Rewriting *)

Definition clean_group (raw : string) : option string :=
  let g := trim raw in
  if str_is_empty g || str_contains_char "," g then None else Some g.

(** One list of memberships with [old] taken out and [new] folded in. *)
Definition rewritten (old : string) (new : option string) (groups : list string) : list string :=
  let groups := List.filter (fun g => negb (str_eqb g old)) groups in
  match new with
  | Some n => if existsb (fun g => str_eqb g n) groups then groups else groups ++ [n]
  | None => groups
  end.

Definition names (old : string) (groups : list string) : bool := existsb (fun g => str_eqb g old) groups.

Arguments names : simpl never.
Arguments rewritten : simpl never.

Definition rewrite_access (old : string) (new : option string) (spec : Spec.t) : option Spec.t :=
  match Spec.access_groups spec with
  | None => None
  | Some ag =>
    if names old ag
    then Some (Spec.with_access (non_empty (rewritten old new ag)) (Spec.require_mfa spec) (Spec.api spec) spec)
    else None
  end.

Section Handlers.
Context `{UnicodeCase} `{JsonObject} `{SpecCodec} (collate : string -> string -> bool) (yaml : list Spec.t).
Abbreviation GM A := (St Site.t A).

Definition on_portal {A} (m : St Portal.t A) : GM A := fun s =>
  let '(a, p) := m (Site.portal s) in (a, Site.mk p (Site.catalog s)).
Definition on_catalog {A} (m : St CatalogState.t A) : GM A := fun s =>
  let '(a, c) := m (Site.catalog s) in (a, Site.mk (Site.portal s) c).

Definition on_accounts {A} (m : St AccountDb (DbResult A)) : GM (DbResult A) := on_portal (UserRoutes.on_db m).
Definition on_specs {A} (m : St Db (DbResult A)) : GM (DbResult A) := on_catalog (fun c =>
  match CatalogState.db c with
  | Some db => let '(r, db') := m db in (r, CatalogState.mk (Some db') (CatalogState.catalog_cache c))
  | None => (Err (Failed "no db"), c)
  end).

(** [let Some(db) = state.db else { return .. }] *)
Definition attached {A} (absent : A) (k : GM A) : GM A := fun s =>
  match Portal.db (Site.portal s) with Some _ => k s | None => (absent, s) end.

Definition index (between : Db -> Db) (scope : EditorScope.t) (flash : option string) : GM Response :=
  do users <- on_accounts (Users.list_all collate);
  do specs <- on_catalog (effective_specs_cached collate between yaml);
  st_ret (Groups (groups_page scope (match users with Ok l => l | Err _ => [] end) specs flash)).

Definition save_memberships (now : Z) (user : UserRow.t) (groups : list string) (actor success : string) : GM Response :=
  attached (RedirectFlash "bad-input") (
  do r <- on_accounts (set_groups now (UserRow.username user) groups (Some actor));
  match r with
  | Ok _ => do u <- on_portal invalidate_identity_cache; st_ret (RedirectFlash success)
  | Err _ => st_ret (RedirectFlash "bad-input")
  end).

Definition create (now : Z) (info : SessionInfo.t) (group username : string) : GM Response :=
  match clean_group group with
  | None => st_ret (RedirectFlash "bad-input")
  | Some group =>
    attached (RedirectFlash "bad-input") (
    do r <- on_accounts (Users.fetch username);
    match r with
    | Ok (Some user) =>
      let groups := UserRow.groups user in
      let groups := if names group groups then groups else groups ++ [group] in
      save_memberships now user groups (audit_actor info) "created"
    | Ok None | Err _ => st_ret (RedirectFlash "bad-input")
    end)
  end.

Definition rewrite_user (now : Z) (old : string) (new : option string) (actor : string) (u : UserRow.t) : GM unit :=
  if negb (names old (UserRow.groups u)) then st_ret tt
  else
    do logged <- on_accounts (set_groups now (UserRow.username u) (rewritten old new (UserRow.groups u)) (Some actor));
    st_ret tt.

Definition rewrite_spec (now : Z) (old : string) (new : option string) (actor : string) (spec : Spec.t) : GM unit :=
  st_when (rewrite_access old new spec) (fun spec' =>
    do logged <- on_specs (upsert_one spec' (Some actor) now);
    st_ret tt).

Definition rewrite_group (now : Z) (old : string) (new : option string) (actor : string) : GM unit :=
  attached tt (
  do users <- on_accounts (Users.list_all collate);
  do u <- match users with
          | Ok users => do u <- st_for users (rewrite_user now old new actor); on_portal invalidate_identity_cache
          | Err _ => st_ret tt
          end;
  do specs <- on_specs (SpecStore.list_all collate);
  match specs with Ok specs => st_for specs (rewrite_spec now old new actor) | Err _ => st_ret tt end).

Definition rename (now : Z) (info : SessionInfo.t) (old new : string) : GM Response :=
  match clean_group old, clean_group new with
  | Some old, Some new =>
    if str_eqb old new then st_ret (RedirectFlash "renamed")
    else do u <- rewrite_group now old (Some new) (audit_actor info); st_ret (RedirectFlash "renamed")
  | _, _ => st_ret (RedirectFlash "bad-input")
  end.

Definition delete_group (now : Z) (info : SessionInfo.t) (name : string) : GM Response :=
  match clean_group name with
  | Some name => do u <- rewrite_group now name None (audit_actor info); st_ret (RedirectFlash "deleted")
  | None => st_ret (RedirectFlash "bad-input")
  end.

Definition add_member (now : Z) (scope : EditorScope.t) (group username : string) : GM Response :=
  match clean_group group with
  | None => st_ret (RedirectFlash "bad-input")
  | Some group =>
    if negb (EditorScope.may_touch_group scope group) then st_ret NotFound
    else attached (RedirectFlash "bad-input") (
      do r <- on_accounts (Users.fetch username);
      match r with
      | Ok (Some user) =>
        let requested := List.filter (EditorScope.may_touch_group scope) (UserRow.groups user) in
        let requested := if names group requested then requested else requested ++ [group] in
        let groups := EditorScope.merge_preserving_out_of_scope scope (UserRow.groups user) requested in
        if negb (EditorScope.may_touch_user scope (proposed groups user)) then st_ret NotFound
        else save_memberships now user groups (UserRoutes.actor scope) "member-added"
      | Ok None | Err _ => st_ret NotFound
      end)
  end.

Definition remove_member (now : Z) (scope : EditorScope.t) (group username : string) : GM Response :=
  match clean_group group with
  | None => st_ret (RedirectFlash "bad-input")
  | Some group =>
    if negb (EditorScope.may_touch_group scope group) then st_ret NotFound
    else attached (RedirectFlash "bad-input") (
      do r <- on_accounts (Users.fetch username);
      match r with
      | Ok (Some user) =>
        if EditorScope.may_touch_user scope user then
          let requested :=
            List.filter (fun g => negb (str_eqb g group) && EditorScope.may_touch_group scope g) (UserRow.groups user) in
          let groups := EditorScope.merge_preserving_out_of_scope scope (UserRow.groups user) requested in
          save_memberships now user groups (UserRoutes.actor scope) "member-removed"
        else st_ret NotFound
      | Ok None | Err _ => st_ret NotFound
      end)
  end.

(** ** The routes *)

Inductive GroupRequest :=
  | GetGroups (flash : option string)
  | PostCreate (group username : string)
  | PostRename (old new : string)
  | PostDelete (name : string)
  | PostAdd (group username : string)
  | PostRemove (group username : string).

Definition guarded_by (guard : Z -> AdminAuth.t -> option string -> AdminSessions.t -> Result SessionInfo.t Rejection * AdminSessions.t)
    (now : Z) (auth : AdminAuth.t) (cookie : option string) (k : SessionInfo.t -> GM Response) : GM Response :=
  do r <- on_portal (fun p =>
    let '(r, sessions) := guard now auth cookie (Portal.admin_sessions p) in (r, Portal.set_admin_sessions sessions p));
  match r with Ok info => k info | Err e => st_ret (Rejected e) end.

Definition as_admin := guarded_by require_admin.
Definition as_editor (now : Z) (auth : AdminAuth.t) (cookie : option string) (k : EditorScope.t -> GM Response) : GM Response :=
  guarded_by require_editor now auth cookie (fun info => do scope <- on_portal (editor_scope info); k scope).

Definition routes (between : Db -> Db) (now : Z) (auth : AdminAuth.t) (cookie : option string) (req : GroupRequest) : GM Response :=
  match req with
  | GetGroups flash => as_editor now auth cookie (fun scope => index between scope flash)
  | PostCreate group username => as_admin now auth cookie (fun info => create now info group username)
  | PostRename old new => as_admin now auth cookie (fun info => rename now info old new)
  | PostDelete name => as_admin now auth cookie (fun info => delete_group now info name)
  | PostAdd group username => as_editor now auth cookie (fun scope => add_member now scope group username)
  | PostRemove group username => as_editor now auth cookie (fun scope => remove_member now scope group username)
  end.
End Handlers.

(** ** Lists of groups *)

Lemma names_spec g l : names g l = true <-> g ∈ l.
Proof.
  unfold names. rewrite existsb_elem. split; [by intros (x & Hx & ->%str_eqb_eq)|]. intros Hg. exists g. split; [done|apply str_eqb_refl].
Qed.

Lemma rewritten_elem old new l g : g ∈ rewritten old new l <-> (g ∈ l /\ g <> old) \/ new = Some g.
Proof.
  assert (g ∈ List.filter (fun g => negb (str_eqb g old)) l <-> g ∈ l /\ g <> old) as Hf.
  { rewrite filter_elem, negb_true_iff, str_eqb_neq. done. }
  unfold rewritten. destruct new as [n|]; [|rewrite Hf; naive_solver]. fold (names n (List.filter (fun g => negb (str_eqb g old)) l)).
  destruct (names n _) eqn:En.
  - apply names_spec in En. rewrite Hf. split; [auto|]. intros [?|[= ->]]; [done|]. by apply Hf.
  - rewrite elem_of_app, list_elem_of_singleton, Hf. naive_solver.
Qed.

Definition clean_name (g : string) : Prop := g <> "" /\ trim g = g /\ str_contains_char "," g = false.

Lemma clean_group_Some raw g : clean_group raw = Some g -> clean_name g.
Proof.
  unfold clean_group. cbv zeta. destruct (str_is_empty (trim raw) || str_contains_char "," (trim raw)) eqn:E; [done|]. intros [= <-].
  bool_split. split_and!; [|apply trim_idem|done]. intros E'. by rewrite E' in *.
Qed.

Lemma rewritten_clean old new l :
  clean_groups l -> (forall n, new = Some n -> clean_name n) -> clean_groups (rewritten old new l).
Proof.
  intros [Hnd Hall] Hn. split; [|intros g [[Hg _]| ->]%rewritten_elem; [by apply Hall|by apply Hn]].
  assert (NoDup (List.filter (fun g => negb (str_eqb g old)) l)) as Hf.
  { clear -Hnd. induction Hnd as [|x l Hx Hl IH]; cbn; [constructor|]. destruct (negb _); [|done]. constructor; [|done].
    rewrite filter_elem. naive_solver. }
  unfold rewritten. destruct new as [n|]; [|done]. fold (names n (List.filter (fun g => negb (str_eqb g old)) l)).
  destruct (names n _) eqn:En; [done|]. apply list.NoDup_app. split; [done|]. split; [|apply NoDup_singleton].
  intros x Hx ->%list_elem_of_singleton. apply names_spec in Hx. congruence.
Qed.

(** ** Rewriting on a database whose statements succeed *)

(** An account with its memberships rewritten; [updated_at] moves with them. *)
Definition rewritten_account (now : Z) (old : string) (new : option string) (a : Account.t) : Account.t :=
  let groups := parse_groups (Account.groups a) in
  if names old groups then Account.set_groups (join_groups (rewritten old new groups)) now a else a.

Lemma rewritten_account_groups now old new a :
  (forall n, new = Some n -> clean_name n) ->
  parse_groups (Account.groups (rewritten_account now old new a))
  = if names old (parse_groups (Account.groups a)) then rewritten old new (parse_groups (Account.groups a))
    else parse_groups (Account.groups a).
Proof.
  intros Hn. unfold rewritten_account. cbv zeta. destruct (names _ _); [|done].
  cbn [Account.groups Account.set_groups Account.set_account]. rewrite parse_join_groups.
  apply parse_join, rewritten_clean; [apply parse_groups_clean|done].
Qed.

Definition rewritten_spec (old : string) (new : option string) (spec : Spec.t) : Spec.t := default spec (rewrite_access old new spec).

Section Healthy.
Context `{UnicodeCase} `{JsonObject} `{SpecCodecLaws} (collate : string -> string -> bool).

(** The databases behind the state, with no failing statement ahead. *)
Definition healthy (s : Site.t) (accounts : AccountTables.t) (specs : Tables.t) : Prop :=
  Portal.db (Site.portal s) = Some (ConfigDb.mk accounts []) /\ CatalogState.db (Site.catalog s) = Some (ConfigDb.mk specs []).

(** Reads leave the state as it was. *)
Lemma on_accounts_query {A} ctx (f : AccountTables.t -> A) s accounts specs :
  healthy s accounts specs -> on_accounts (query ctx f) s = (Ok (f accounts), s).
Proof.
  destruct s as [[db sessions identities] [cdb cache]]. intros [Hdb _]. cbn in Hdb. subst db. reflexivity.
Qed.

Lemma on_specs_list_all s accounts specs :
  healthy s accounts specs -> on_specs (SpecStore.list_all collate) s = (parse_rows (ordered_rows collate specs), s).
Proof.
  destruct s as [portal [cdb cache]]. intros [_ Hc]. cbn in Hc. subst cdb. reflexivity.
Qed.

Lemma set_groups_healthy now u groups actor s a :
  normalize_username u = u -> AccountTables.users s !! u = Some a ->
  exists log, set_groups now u groups actor (ConfigDb.mk s [])
    = (Ok tt, ConfigDb.mk (AccountTables.set_audit_log log
        (AccountTables.set_users (<[u := Account.set_groups (join_groups groups) now a]> (AccountTables.users s)) s)) []).
Proof.
  intros Hu Ha. unfold set_groups. rewrite Hu. eexists. erewrite transaction_healthy.
  2: { unfold update_user, try_bind, st_bind. rewrite statement_no_faults. unfold alter_user. rewrite Ha. reflexivity. }
  reflexivity.
Qed.

Lemma rewrite_user_healthy now old new actor s accounts specs u a :
  healthy s accounts specs -> AccountTables.users accounts !! u = Some a -> Account.username a = u -> normalize_username u = u ->
  exists accounts' s', rewrite_user now old new actor (row_from a) s = (tt, s') /\ healthy s' accounts' specs
    /\ AccountTables.users accounts' = <[u := rewritten_account now old new a]> (AccountTables.users accounts).
Proof.
  intros [Hdb Hc] Ha Hn Hu. unfold rewrite_user, rewritten_account. change (UserRow.groups (row_from a)) with (parse_groups (Account.groups a)).
  change (UserRow.username (row_from a)) with (Account.username a). rewrite Hn. cbv zeta. destruct (names old _) eqn:En; cbn [negb].
  - destruct (set_groups_healthy now u (rewritten old new (parse_groups (Account.groups a))) (Some actor) accounts a Hu Ha) as [log Hrun].
    eexists _, _. unfold st_bind, on_accounts, on_portal, UserRoutes.on_db. rewrite Hdb, Hrun. by split_and!.
  - exists accounts, s. split_and!; try done. by rewrite insert_id.
Qed.

Lemma rewrite_users_healthy now old new actor l s accounts specs :
  healthy s accounts specs -> NoDup (Account.username <$> l) ->
  (forall a, a ∈ l -> AccountTables.users accounts !! Account.username a = Some a
     /\ normalize_username (Account.username a) = Account.username a) ->
  exists accounts' s', st_for (row_from <$> l) (rewrite_user now old new actor) s = (tt, s') /\ healthy s' accounts' specs
    /\ forall v, AccountTables.users accounts' !! v
         = (if decide (v ∈ Account.username <$> l) then rewritten_account now old new <$> (AccountTables.users accounts !! v)
            else AccountTables.users accounts !! v).
Proof.
  revert s accounts; induction l as [|a l IH]; intros s accounts Hs Hnd Hl; cbn [fmap list_fmap st_for].
  - exists accounts, s. split; [done|]. split; [done|]. intros v. by rewrite decide_False by (by intros ?%not_elem_of_nil).
  - apply list.NoDup_cons in Hnd as [Hnot Hnd]. destruct (Hl a ltac:(by left)) as [Ha Hu].
    destruct (rewrite_user_healthy now old new actor s accounts specs _ a Hs Ha eq_refl Hu) as (accounts1 & s1 & -> & Hs1 & E).
    destruct (IH s1 accounts1 Hs1 Hnd) as (accounts2 & s2 & Hrun & Hs2 & Hv).
    { intros b Hb. destruct (Hl b ltac:(by right)) as [Hb' Hbu]. split; [|done]. rewrite E, lookup_insert_ne; [done|].
      intros Eq. apply Hnot. rewrite Eq. by apply list_elem_of_fmap_2. }
    exists accounts2, s2. split; [done|]. split; [done|]. intros v. rewrite Hv, E. destruct (decide (v = Account.username a)) as [->|Hne].
    + rewrite (decide_False (P := _ ∈ Account.username <$> l)) by done. rewrite decide_True by (by left).
      by rewrite lookup_insert_eq, Ha.
    + rewrite lookup_insert_ne by done. destruct (decide (v ∈ Account.username <$> l)).
      * by rewrite decide_True by (by right).
      * rewrite decide_False; [done|]. rewrite elem_of_cons. naive_solver.
Qed.
Lemma upsert_in_tx_healthy spec json now t :
  canonical_json spec = Ok json ->
  exists out t', upsert_in_tx spec now (ConfigDb.mk t []) = (Ok out, ConfigDb.mk t' []) /\ core t' = core (upserted spec json now t).
Proof.
  intros Hj. assert (exists out t', upsert_in_tx spec now (ConfigDb.mk t []) = (Ok out, ConfigDb.mk t' [])) as (out & t' & E).
  { assert (exists t1, record_image spec now (ConfigDb.mk t []) = (Ok tt, ConfigDb.mk t1 []) /\ Tables.specs t1 = Tables.specs t)
      as (t1 & Hi & E1) by (unfold record_image; cbv zeta; destruct (str_is_empty _); eexists; by split).
    unfold upsert_in_tx, insert_spec, try_bind, st_bind, lift, st_ret, map_err_context. rewrite Hj. cbn. rewrite Hi. cbn. rewrite E1.
    destruct (Tables.specs t !! Spec.id spec) as [r|] eqn:Er; cbn; [destruct (str_eqb _ _); eexists _, _; reflexivity|].
    rewrite E1, Er. eexists _, _. reflexivity. }
  exists out, t'. split; [done|]. apply upsert_in_tx_Ok in E as (json' & Hj' & _ & Hc). by assert (json' = json) as -> by congruence.
Qed.

Lemma upsert_one_healthy spec json actor now t :
  canonical_json spec = Ok json ->
  exists out t', upsert_one spec actor now (ConfigDb.mk t []) = (Ok out, ConfigDb.mk t' []) /\ core t' = core (upserted spec json now t).
Proof.
  intros (out & t1 & Hu & Hc)%(fun Hj => upsert_in_tx_healthy spec json now t Hj).
  assert (exists t2, (do? outcome <- upsert_in_tx spec now;
     do? u <- match upsert_audit_action outcome with
              | Some action => add_audit "audit upsert_one" (AuditRow.mk actor action (Some ("spec:" +:+ Spec.id spec)) None now)
              | None => st_ret (Ok tt)
              end;
     st_ret (Ok (Commit outcome))) (ConfigDb.mk t []) = (Ok (Commit out), ConfigDb.mk t2 []) /\ core t2 = core t1) as (t2 & Hb & E2).
  { unfold try_bind, st_bind. rewrite Hu. destruct out; eexists; by split. }
  exists out, t2. split; [|congruence]. unfold upsert_one. by rewrite (transaction_healthy _ _ _ _ _ _ Hb).
Qed.

Lemma app_of_core t t' i : core t' = core t -> app_of t' i = app_of t i.
Proof. intros [= Hs _]. unfold app_of. by rewrite Hs. Qed.

Lemma app_of_upserted spec json now t i : canonical_json spec = Ok json ->
  app_of (upserted spec json now t) i = if decide (i = Spec.id spec) then Some spec else app_of t i.
Proof.
  intros Hj%json_round_trip. unfold app_of. case_decide as Hi.
  - subst i. unfold upserted. destruct (Tables.specs t !! Spec.id spec) as [r|] eqn:Er; cbn.
    + destruct (str_eqb_spec (SpecRow.config_json r) json) as [<-|]; cbn; [by rewrite Er; cbn; rewrite Hj|].
      rewrite lookup_insert_eq. cbn. by rewrite Hj.
    + rewrite lookup_insert_eq. cbn. by rewrite Hj.
  - by rewrite (proj1 (upserted_elsewhere spec json now t i Hi)).
Qed.

(** The apps whose rewriting the codec can write. *)
Definition writable (old : string) (new : option string) (spec : Spec.t) : Prop :=
  forall spec', rewrite_access old new spec = Some spec' -> is_ok (canonical_json spec') = true.

Lemma rewritten_spec_id old new spec : Spec.id (rewritten_spec old new spec) = Spec.id spec.
Proof.
  unfold rewritten_spec, rewrite_access. destruct (Spec.access_groups spec) as [ag|]; [|done]. by destruct (names old ag).
Qed.

Lemma rewrite_spec_healthy now old new actor s accounts t spec :
  healthy s accounts t -> app_of t (Spec.id spec) = Some spec -> writable old new spec ->
  exists t' s', rewrite_spec now old new actor spec s = (tt, s') /\ healthy s' accounts t' /\ Site.portal s' = Site.portal s
    /\ forall i, app_of t' i = if decide (i = Spec.id spec) then Some (rewritten_spec old new spec) else app_of t i.
Proof.
  intros [Hdb Hc] Ha Hw. pose proof (rewritten_spec_id old new spec) as Hid. unfold rewrite_spec, writable, rewritten_spec in *.
  destruct (rewrite_access old new spec) as [spec'|]; cbn [st_when default] in *.
  - specialize (Hw _ eq_refl). destruct (canonical_json spec') as [json|] eqn:Ej; [|done].
    destruct (upsert_one_healthy spec' json (Some actor) now t Ej) as (out & t' & Hrun & Hcore).
    eexists t', _. unfold st_bind, on_specs, on_catalog. rewrite Hc, Hrun. split; [reflexivity|]. split; [by split|]. split; [done|].
    intros i. rewrite (app_of_core _ _ i Hcore), app_of_upserted by done. cbn in Hid. by rewrite Hid.
  - exists t, s. split_and!; [done..|]. intros i. case_decide as Hi; [by subst|done].
Qed.

Lemma rewrite_specs_healthy now old new actor l s accounts t :
  healthy s accounts t -> NoDup (Spec.id <$> l) ->
  (forall spec, spec ∈ l -> app_of t (Spec.id spec) = Some spec /\ writable old new spec) ->
  exists t' s', st_for l (rewrite_spec now old new actor) s = (tt, s') /\ healthy s' accounts t' /\ Site.portal s' = Site.portal s
    /\ forall i, app_of t' i = if decide (i ∈ Spec.id <$> l) then rewritten_spec old new <$> app_of t i else app_of t i.
Proof.
  revert s t; induction l as [|spec l IH]; intros s t Hs Hnd Hl; cbn [fmap list_fmap st_for].
  - exists t, s. split_and!; [done..|]. intros i. by rewrite decide_False by (by intros ?%not_elem_of_nil).
  - apply list.NoDup_cons in Hnd as [Hnot Hnd]. destruct (Hl spec ltac:(by left)) as [Ha Hw].
    destruct (rewrite_spec_healthy now old new actor s accounts t spec Hs Ha Hw) as (t1 & s1 & -> & Hs1 & Hp1 & E).
    destruct (IH s1 t1 Hs1 Hnd) as (t2 & s2 & Hrun & Hs2 & Hp2 & Hv).
    { intros b Hb. destruct (Hl b ltac:(by right)) as [Hb' Hbw]. split; [|done]. rewrite E, decide_False; [done|].
      intros Eq. apply Hnot. rewrite <- Eq. by apply list_elem_of_fmap_2. }
    exists t2, s2. split; [done|]. split; [done|]. split; [congruence|]. intros i. rewrite Hv, E. destruct (decide (i = Spec.id spec)) as [->|Hne].
    + rewrite (decide_False (P := _ ∈ Spec.id <$> l)) by done. rewrite decide_True by (by left). by rewrite Ha.
    + destruct (decide (i ∈ Spec.id <$> l)).
      * by rewrite decide_True by (by right).
      * rewrite decide_False; [done|]. rewrite elem_of_cons. naive_solver.
Qed.

(** What [list_all] of the apps answers. *)
Lemma listed_apps t : store_wf t ->
  exists l, parse_rows (ordered_rows collate t) = Ok l /\ NoDup (Spec.id <$> l)
    /\ (forall spec, spec ∈ l -> app_of t (Spec.id spec) = Some spec)
    /\ (forall i, is_Some (app_of t i) -> i ∈ Spec.id <$> l).
Proof.
  intros Hwf. pose proof Hwf as [Hrows _].
  destruct (parse_rows_total (ordered_rows collate t)) as [l Hl].
  { intros r [i Hi]%elem_of_rows. destruct (Hrows _ _ Hi) as [_ (spec & Hs & _) _ _ _]. by exists spec. }
  exists l. pose proof (parse_rows_elem _ _ Hl) as Hf. split; [done|].
  assert (Spec.id <$> l = SpecRow.id <$> ordered_rows collate t) as Hids.
  { assert (forall r, r ∈ ordered_rows collate t -> exists i, Tables.specs t !! i = Some r) as Hr by (intros r; apply elem_of_rows).
    clear Hl. induction Hf as [|r spec rows l Hj Hf IH]; [done|]. cbn. f_equal; [|apply IH; intros r' Hr'; apply Hr; by right].
    destruct (Hr r ltac:(by left)) as [i Hi]. destruct (Hrows _ _ Hi) as [Hk (sp & Hsp & Hid & _) _ _ _]. congruence. }
  split; [|split].
  - rewrite Hids. unfold ordered_rows. rewrite merge_sort_Permutation. rewrite <- list_fmap_compose.
    apply (NoDup_fmap_2_strong _ _); [|apply NoDup_map_to_list].
    intros [i r] [j r'] Hi%elem_of_map_to_list Hj%elem_of_map_to_list E. cbn in E.
    destruct (Hrows _ _ Hi) as [Hk _ _ _ _], (Hrows _ _ Hj) as [Hk' _ _ _ _]. assert (i = j) as -> by congruence. congruence.
  - intros spec Hin. destruct (Forall2_elem_r _ _ _ _ Hf Hin) as (r & [i Hi]%elem_of_rows & Hj).
    destruct (Hrows _ _ Hi) as [_ (sp & Hsp & Hid & _) _ _ _]. assert (sp = spec) as -> by congruence. rewrite Hid.
    unfold app_of. rewrite Hi. cbn. by rewrite Hj.
  - intros i [spec Ha]. unfold app_of in Ha. destruct (Tables.specs t !! i) as [r|] eqn:Er; [|done]. rewrite Hids.
    destruct (Hrows _ _ Er) as [<- _ _ _ _]. apply list_elem_of_fmap_2. apply elem_of_rows. eauto.
Qed.

(** The accounts as the repository keeps them: keys are normal forms. *)
Definition accounts_keyed (s : AccountTables.t) : Prop :=
  map_Forall (fun u a => Account.username a = u /\ normalize_username u = u) (AccountTables.users s).

Lemma listed_accounts o s : accounts_keyed s ->
  NoDup (Account.username <$> sorted_by collate o (accounts s))
  /\ (forall a, a ∈ sorted_by collate o (accounts s) -> AccountTables.users s !! Account.username a = Some a
        /\ normalize_username (Account.username a) = Account.username a)
  /\ (forall u, is_Some (AccountTables.users s !! u) -> u ∈ Account.username <$> sorted_by collate o (accounts s)).
Proof.
  intros Hk. split; [|split].
  - unfold sorted_by. rewrite merge_sort_Permutation. unfold accounts. rewrite <- list_fmap_compose.
    apply (NoDup_fmap_2_strong _ _); [|apply NoDup_map_to_list].
    intros [u a] [v b] Hu%elem_of_map_to_list Hv%elem_of_map_to_list E. cbn in E.
    destruct (Hk _ _ Hu) as [Hn _], (Hk _ _ Hv) as [Hn' _]. assert (u = v) as -> by congruence. congruence.
  - intros a [u Hu]%sorted_by_elem%accounts_elem. destruct (Hk _ _ Hu) as [-> Hn]. done.
  - intros u [a Ha]. destruct (Hk _ _ Ha) as [<- _]. apply list_elem_of_fmap_2, sorted_by_elem, accounts_elem. eauto.
Qed.

(** A rewrite reaches every account and every app of the database. *)
Lemma rewrite_group_healthy now old new actor s accounts t :
  healthy s accounts t -> accounts_keyed accounts -> store_wf t ->
  (forall i spec, app_of t i = Some spec -> writable old new spec) ->
  exists accounts' t' s', rewrite_group collate now old new actor s = (tt, s') /\ healthy s' accounts' t'
    /\ IdentityCache.map (Portal.identities (Site.portal s')) = ∅
    /\ (forall u, AccountTables.users accounts' !! u = rewritten_account now old new <$> AccountTables.users accounts !! u)
    /\ (forall i, app_of t' i = rewritten_spec old new <$> app_of t i).
Proof.
  intros Hs Hk Hwf Hw. destruct (listed_accounts UserOrder.CreatedDesc accounts Hk) as (Hnd & Hl & Hall).
  destruct (rewrite_users_healthy now old new actor _ s accounts t Hs Hnd Hl) as (accounts1 & s1 & Hrun & [Hdb1 Hc1] & Hv).
  set (s2 := Site.mk (Portal.invalidate_identity_cache (Site.portal s1)) (Site.catalog s1)).
  assert (healthy s2 accounts1 t) as Hs2 by done.
  destruct (listed_apps t Hwf) as (l & Hp & Hnd' & Hl' & Hall').
  destruct (rewrite_specs_healthy now old new actor l s2 accounts1 t Hs2 Hnd') as (t' & s3 & Hrun' & Hs3 & Hp3 & Hi).
  { intros spec Hin. split; [by apply Hl'|]. eapply Hw. by apply Hl'. }
  exists accounts1, t', s3. split; [|split; [done|split; [by rewrite Hp3|split]]].
  - unfold rewrite_group, attached. rewrite (proj1 Hs). unfold st_bind at 1, Users.list_all.
    rewrite (on_accounts_query _ _ _ _ _ Hs). unfold st_bind at 1 2. rewrite Hrun. unfold st_bind, on_portal, invalidate_identity_cache, st_modify.
    fold s2. by rewrite (on_specs_list_all _ _ _ Hs2), Hp.
  - intros u. rewrite Hv. case_decide as Hu; [done|]. destruct (AccountTables.users accounts !! u) eqn:E; [|done].
    exfalso. apply Hu, Hall. by eexists.
  - intros i. rewrite Hi. case_decide as Hu; [done|]. destruct (app_of t i) eqn:E; [|done]. exfalso. apply Hu, Hall'. by eexists.
Qed.
End Healthy.

(** ** Who may open what *)

Lemma access_allows_spec spec is_admin u groups :
  Spec.access_allows spec is_admin (Some u) groups = true <->
  is_admin = true \/ Spec.is_open spec = true \/ (exists us, Spec.access_users spec = Some us /\ u ∈ us)
  \/ (exists gs g, Spec.access_groups spec = Some gs /\ g ∈ gs /\ g ∈ groups).
Proof.
  unfold Spec.access_allows. destruct is_admin; [cbn; naive_solver|]. destruct (Spec.is_open spec); [cbn; naive_solver|]. cbn [orb].
  assert (forall us, existsb (fun v => str_eqb v u) us = true <-> u ∈ us) as Hu by (intros us; apply names_spec).
  assert (forall gs, existsb (fun g => existsb (fun h => str_eqb h g) groups) gs = true <-> exists g, g ∈ gs /\ g ∈ groups) as Hg.
  { intros gs. rewrite existsb_elem. split; intros (g & Hin & Hn); exists g; (split; [done|]); by apply names_spec. }
  assert (match Spec.access_groups spec with
          | Some gs => existsb (fun g => existsb (fun h => str_eqb h g) groups) gs | None => false end = true
      <-> exists gs g, Spec.access_groups spec = Some gs /\ g ∈ gs /\ g ∈ groups) as <-.
  { destruct (Spec.access_groups spec) as [gs|]; [rewrite Hg|]; naive_solver. }
  assert (match Spec.access_users spec with Some us => existsb (fun v => str_eqb v u) us | None => false end = true
      <-> exists us, Spec.access_users spec = Some us /\ u ∈ us) as <-.
  { destruct (Spec.access_users spec) as [us|]; [rewrite Hu|]; naive_solver. }
  destruct (match Spec.access_users spec with Some _ => _ | None => _ end); naive_solver.
Qed.

(** Membership after a rename. *)
Lemma renamed_elem old new l g :
  g ∈ (if names old l then rewritten old (Some new) l else l) <-> (g ∈ l /\ g <> old) \/ (g = new /\ old ∈ l).
Proof.
  destruct (names old l) eqn:E.
  - apply names_spec in E. rewrite rewritten_elem. naive_solver.
  - assert (old ∉ l) as Hn by (rewrite <- names_spec; congruence). split; [|naive_solver]. intros Hg. left. split; [done|]. by intros ->.
Qed.

Definition groups_of (spec : Spec.t) : list string := default [] (Spec.access_groups spec).

Lemma groups_of_spec spec g : g ∈ groups_of spec <-> exists gs, Spec.access_groups spec = Some gs /\ g ∈ gs.
Proof. unfold groups_of. destruct (Spec.access_groups spec) as [gs|]; cbn; [naive_solver|]. split; [by intros ?%not_elem_of_nil|naive_solver]. Qed.

Lemma rewritten_groups_of old new spec :
  groups_of (rewritten_spec old new spec) = if names old (groups_of spec) then rewritten old new (groups_of spec) else groups_of spec.
Proof.
  unfold groups_of, rewritten_spec, rewrite_access. destruct (Spec.access_groups spec) as [gs|] eqn:E; cbn; [|by rewrite E].
  destruct (names old gs); cbn; [|by rewrite E]. by destruct (rewritten old new gs).
Qed.

Lemma renamed_open old new spec : Spec.is_open (rewritten_spec old (Some new) spec) = Spec.is_open spec.
Proof.
  unfold rewritten_spec, rewrite_access, Spec.is_open. destruct (Spec.access_groups spec) as [gs|] eqn:E; cbn; [|by rewrite E].
  destruct (names old gs) eqn:En; cbn; [|by rewrite E]. apply names_spec in En.
  assert (new ∈ rewritten old (Some new) gs) as Hn by (apply rewritten_elem; auto).
  destruct (rewritten old (Some new) gs); [by apply not_elem_of_nil in Hn|]. destruct gs; [by apply not_elem_of_nil in En|done].
Qed.

Lemma rewritten_users old new spec : Spec.access_users (rewritten_spec old new spec) = Spec.access_users spec.
Proof. unfold rewritten_spec, rewrite_access. destruct (Spec.access_groups spec); [|done]. by destruct (names old _). Qed.

(** A rename keeps every permission, and grants none if the name was free. *)
Lemma renamed_access old new spec is_admin u groups :
  let groups' := if names old groups then rewritten old (Some new) groups else groups in
  let spec' := rewritten_spec old (Some new) spec in
  (Spec.access_allows spec is_admin (Some u) groups = true -> Spec.access_allows spec' is_admin (Some u) groups' = true)
  /\ (new ∉ groups -> new ∉ groups_of spec ->
      Spec.access_allows spec' is_admin (Some u) groups' = Spec.access_allows spec is_admin (Some u) groups).
Proof.
  cbv zeta. set (groups' := if names old groups then _ else _).
  assert (forall g, g ∈ groups' <-> (g ∈ groups /\ g <> old) \/ (g = new /\ old ∈ groups)) as Hg by (intros g; apply renamed_elem).
  assert (forall g, g ∈ groups_of (rewritten_spec old (Some new) spec)
    <-> (g ∈ groups_of spec /\ g <> old) \/ (g = new /\ old ∈ groups_of spec)) as Hs by (intros g; rewrite rewritten_groups_of; apply renamed_elem).
  assert (forall sp (gr : list string), (exists gs g, Spec.access_groups sp = Some gs /\ g ∈ gs /\ g ∈ gr) <-> exists g, g ∈ groups_of sp /\ g ∈ gr) as Ho.
  { intros sp gr. setoid_rewrite groups_of_spec. naive_solver. }
  assert (Spec.access_allows spec is_admin (Some u) groups = true
    -> Spec.access_allows (rewritten_spec old (Some new) spec) is_admin (Some u) groups' = true) as Hmono.
  { rewrite !access_allows_spec, !Ho, renamed_open, rewritten_users. intros [?|[?|[?|(g & Hgs & Hgr)]]]; [by auto..|].
    right; right; right. destruct (decide (g = old)) as [->|Hne]; [exists new|exists g]; rewrite Hg, Hs; auto. }
  split; [done|]. intros Hn Hn'. apply eq_bool_prop_intro. rewrite !Is_true_true. split; [|done].
  rewrite !access_allows_spec, !Ho, renamed_open, rewritten_users. intros [?|[?|[?|(g & Hgs%Hs & Hgr%Hg)]]]; [by auto..|].
  right; right; right. naive_solver.
Qed.

(** A name that no account and no app of the database uses. *)
Definition unused `{SpecCodec} (g : string) (accounts : AccountTables.t) (t : Tables.t) : Prop :=
  (forall u a, AccountTables.users accounts !! u = Some a -> g ∉ parse_groups (Account.groups a))
  /\ forall i spec, app_of t i = Some spec -> g ∉ groups_of spec.

(** [u] opens the app [i]. *)
Definition opens `{SpecCodec} (is_admin : bool) (accounts : AccountTables.t) (t : Tables.t) (u i : string) : bool :=
  match AccountTables.users accounts !! u, app_of t i with
  | Some a, Some spec => Spec.access_allows spec is_admin (Some u) (parse_groups (Account.groups a))
  | _, _ => false
  end.

(** ** What an Editor's request does *)

(** One account with other memberships, and an audit row. *)
Inductive membership_write (u : string) (groups : list string) (s s' : AccountTables.t) : Prop :=
  | mw_none : s' = s -> membership_write u groups s s'
  | mw_set now a log : AccountTables.users s !! u = Some a ->
      s' = AccountTables.set_audit_log log
             (AccountTables.set_users (<[u := Account.set_groups (join_groups groups) now a]> (AccountTables.users s)) s) ->
      membership_write u groups s s'.

(** What a request of the Editor [scope] may do to the memberships: those of
    one account in one group of the scope. *)
Definition within_groups (scope : EditorScope.t) (s s' : AccountTables.t) : Prop :=
  s' = s \/ exists u a a' g log,
    AccountTables.users s !! u = Some a /\ UserRow.role (row_from a) <> Role.Admin /\ EditorScope.has_group scope g = true
    /\ (exists gs now, a' = Account.set_groups (join_groups gs) now a)
    /\ s' = AccountTables.set_audit_log log (AccountTables.set_users (<[u := a']> (AccountTables.users s)) s)
    /\ forall h, h <> g -> h ∈ parse_groups (Account.groups a') <-> h ∈ parse_groups (Account.groups a).

Section Confined.
Context `{UnicodeCase} `{JsonObject} `{SpecCodec}.

Definition accounts_of (s : Site.t) : option AccountTables.t := tables_of (Site.portal s).
Definition apps_of (s : Site.t) : option Tables.t := ConfigDb.tables <$> CatalogState.db (Site.catalog s).

(** The tables stay; caches, sessions and failing statements may move. *)
Definition still (s s' : Site.t) : Prop := accounts_of s' = accounts_of s /\ apps_of s' = apps_of s.
#[export] Instance still_preorder : PreOrder still.
Proof. split; [done|]. intros a b c [? ?] [? ?]. split; congruence. Qed.

Lemma still_on_portal {A} (m : St Portal.t A) : (forall p, tables_of (m p).2 = tables_of p) -> preserves still (on_portal m).
Proof. intros Hm s. unfold still, accounts_of, on_portal. specialize (Hm (Site.portal s)). by destruct (m (Site.portal s)). Qed.

Lemma still_query {A} ctx (f : AccountTables.t -> A) : preserves still (on_accounts (query ctx f)).
Proof.
  apply still_on_portal. intros p. unfold UserRoutes.on_db, tables_of. destruct (Portal.db p) as [d|] eqn:Ed; [|cbn; by rewrite Ed].
  destruct (query ctx f d) as [r d'] eqn:E. apply query_inv in E as [Ht _]. cbn. by rewrite Ht.
Qed.

Lemma still_scope info : preserves still (on_portal (editor_scope info)).
Proof.
  apply still_on_portal. intros p. destruct (editor_scope info p) as [scope q] eqn:E. by apply editor_scope_moves in E as [[Ht _]%moves_eq _].
Qed.

Lemma still_invalidate : preserves still (on_portal invalidate_identity_cache).
Proof. by apply still_on_portal. Qed.

Lemma still_catalog collate yaml between : (forall db, ConfigDb.tables (between db) = ConfigDb.tables db) ->
  preserves still (on_catalog (effective_specs_cached collate between yaml)).
Proof.
  intros Hb s. unfold still, accounts_of, apps_of, on_catalog. destruct (effective_specs_cached collate between yaml (Site.catalog s)) as [l c] eqn:E.
  cbn. split; [done|]. revert E. unfold effective_specs_cached, effective_specs. destruct (CatalogState.db (Site.catalog s)) as [db|] eqn:Edb.
  - destruct (catalog_signature db) as [r db1] eqn:Es. apply query_inv in Es as [Ht _]. cbn [CatalogState.db].
    destruct r as [sig|e].
    + destruct (cached_under _ _); [intros [= _ <-]; cbn; by rewrite Ht|].
      pose proof (listing_tables collate yaml (between db1)) as Hl. destruct (effective_specs_db _ _ _) as [specs db2].
      intros [= _ <-]. cbn in *. by rewrite Hl, Hb, Ht.
    + pose proof (listing_tables collate yaml db1) as Hl. destruct (effective_specs_db _ _ _) as [specs db2].
      intros [= _ <-]. cbn in *. by rewrite Hl, Ht.
  - intros [= _ <-]. by rewrite Edb.
Qed.

Lemma still_index collate yaml between scope flash : (forall db, ConfigDb.tables (between db) = ConfigDb.tables db) ->
  preserves still (index collate yaml between scope flash).
Proof.
  intros Hb. unfold index. apply preserves_bind; [apply _|apply still_query|]. intros users.
  apply preserves_bind; [apply _|by apply still_catalog|]. intros specs. apply preserves_ret, _.
Qed.

Lemma set_groups_write now u groups actor db r db' : normalize_username u = u ->
  set_groups now u groups actor db = (r, db') -> membership_write u groups (ConfigDb.tables db) (ConfigDb.tables db').
Proof.
  intros Hu. unfold set_groups. rewrite Hu. intros [E|(x & db1 & db2 & _ & E1 & Hb & E2)]%transaction_inv; [by apply mw_none|].
  apply try_bind_Ok in Hb as (u1 & db3 & Hw & Hb). apply try_bind_Ok in Hb as (u2 & db4 & Ha & Hb). injection Hb as _ <-.
  unfold update_user in Hw. apply try_bind_Ok in Hw as (n & db5 & Hs & Hw). apply statement_inv in Hs as [[[=] _]|[[= ->] Hs]].
  apply execute_Ok in Ha. rewrite E2, Ha. unfold alter_user in Hs, Hw. rewrite E1 in *.
  destruct (AccountTables.users (ConfigDb.tables db) !! u) as [a|] eqn:Ea; [|done].
  injection Hw as _ <-. rewrite Hs. eapply mw_set; [exact Ea|reflexivity].
Qed.

Lemma save_memberships_write now user groups actor success s r s' accounts :
  normalize_username (UserRow.username user) = UserRow.username user -> accounts_of s = Some accounts ->
  save_memberships now user groups actor success s = (r, s') ->
  apps_of s' = apps_of s
  /\ exists accounts', accounts_of s' = Some accounts' /\ membership_write (UserRow.username user) groups accounts accounts'.
Proof.
  intros Hu Hs. unfold save_memberships, attached, accounts_of, tables_of in *. destruct (Portal.db (Site.portal s)) as [d|] eqn:Ed; [|done].
  injection Hs as <-. intros (x & s1 & Hw & Hk)%st_bind_inv. unfold on_accounts, on_portal, UserRoutes.on_db in Hw. rewrite Ed in Hw.
  destruct (set_groups _ _ _ _ d) as [res d'] eqn:E. injection Hw as <- <-. apply set_groups_write in E; [|done].
  destruct res as [v|e].
  - apply st_bind_inv in Hk as (u & s2 & Hi & [= _ <-]). injection Hi as _ <-. split; [done|]. eexists. split; [reflexivity|done].
  - injection Hk as _ <-. split; [done|]. eexists. split; [reflexivity|done].
Qed.

Lemma fetch_row username s user s1 :
  on_accounts (Users.fetch username) s = (Ok (Some user), s1) ->
  still s s1 /\ exists accounts a, accounts_of s = Some accounts
    /\ AccountTables.users accounts !! normalize_username username = Some a /\ user = row_from a.
Proof.
  intros E. split; [refine (run_of still (on_accounts (Users.fetch username)) _ _ _ _ E); unfold Users.fetch; apply still_query|].
  unfold on_accounts, on_portal in E.
  destruct (UserRoutes.on_db _ _) as [x p] eqn:Ef. injection E as -> _. apply fetch_Some in Ef as (accounts & a & Ht & Ha & ->). eauto.
Qed.

(** A merge of the scope's groups, as it is stored and read back. *)
Lemma merged_groups scope existing requested g :
  EditorScope.unscoped scope = false -> clean_groups existing -> (forall h, h ∈ requested -> clean_name h) ->
  (forall h, h <> g -> EditorScope.has_group scope h = true -> h ∈ requested <-> h ∈ existing) ->
  forall h, h <> g -> h ∈ parse_groups (join_groups (EditorScope.merge_preserving_out_of_scope scope existing requested)) <-> h ∈ existing.
Proof.
  intros Hun [_ He] Hr Hin h Hne. rewrite parse_join_groups. rewrite parse_join.
  - unfold EditorScope.merge_preserving_out_of_scope. rewrite Hun, btree_set_elem, elem_of_app, !filter_elem, negb_true_iff.
    specialize (Hin h Hne). destruct (EditorScope.has_group scope h); naive_solver.
  - unfold EditorScope.merge_preserving_out_of_scope. rewrite Hun. split; [apply name_sorted_nodup, btree_set_sorted|].
    intros x. rewrite btree_set_elem, elem_of_app, !filter_elem. intros [[Hx _]|[Hx _]]; [by apply He|by apply Hr].
Qed.

(** The write behind both edits of members. *)
Lemma member_write now scope username g requested success s s1 user actor r s' :
  (forall accounts, accounts_of s = Some accounts -> accounts_keyed accounts) ->
  EditorScope.unscoped scope = false -> EditorScope.may_touch_group scope g = true -> UserRow.role user <> Role.Admin ->
  on_accounts (Users.fetch username) s = (Ok (Some user), s1) ->
  (forall h, h ∈ requested -> clean_name h) ->
  (forall h, h <> g -> EditorScope.has_group scope h = true -> h ∈ requested <-> h ∈ UserRow.groups user) ->
  save_memberships now user (EditorScope.merge_preserving_out_of_scope scope (UserRow.groups user) requested) actor success s1 = (r, s') ->
  apps_of s' = apps_of s /\ option_Forall2 (within_groups scope) (accounts_of s) (accounts_of s').
Proof.
  intros Hk Hun Hg Hrole Hf Hc Hr Hw. apply fetch_row in Hf as ([Hst Hap] & accounts & a & Hs & Ha & ->).
  destruct (Hk _ Hs _ _ Ha) as [Hname Hnorm]. change (UserRow.username (row_from a)) with (Account.username a) in *.
  apply (save_memberships_write _ _ _ _ _ _ _ _ accounts) in Hw; [|by cbn; rewrite Hname|congruence].
  destruct Hw as (Hap' & accounts' & Hs' & Hw). split; [congruence|]. rewrite Hs, Hs'. constructor.
  change (UserRow.username (row_from a)) with (Account.username a) in Hw. rewrite Hname in Hw.
  destruct Hw as [->|now' b log Hb ->]; [by left|]. right. assert (b = a) as -> by congruence.
  exists (normalize_username username), a,
    (Account.set_groups (join_groups (EditorScope.merge_preserving_out_of_scope scope (UserRow.groups (row_from a)) requested)) now' a), g, log.
  split; [done|]. split; [done|].
  split; [unfold EditorScope.may_touch_group in Hg; by rewrite Hun in Hg|]. split; [eauto|]. split; [reflexivity|].
  intros h Hne. cbn [Account.groups Account.set_groups Account.set_account]. apply (merged_groups scope _ requested g); [done| |done|done|done].
  apply parse_groups_clean.
Qed.

(** Where a handler of an Editor leaves the state. *)
Definition edits_members (scope : EditorScope.t) (s s' : Site.t) : Prop :=
  apps_of s' = apps_of s /\ option_Forall2 (within_groups scope) (accounts_of s) (accounts_of s').

Lemma still_edits scope s s' : still s s' -> edits_members scope s s'.
Proof. intros [Ha Hp]. split; [done|]. rewrite Ha. destruct (accounts_of s); constructor. by left. Qed.

Lemma attached_inv {A} (absent : A) (k : St Site.t A) s r s' :
  attached absent k s = (r, s') -> s' = s \/ k s = (r, s').
Proof. unfold attached. destruct (Portal.db _); [by right|]. intros [= _ <-]. by left. Qed.

Lemma fetch_still username s r s1 : on_accounts (Users.fetch username) s = (r, s1) -> still s s1.
Proof. intros E. refine (run_of still (on_accounts (Users.fetch username)) _ _ _ _ E). unfold Users.fetch. apply still_query. Qed.

Lemma proposed_role scope groups user :
  EditorScope.unscoped scope = false -> EditorScope.may_touch_user scope (proposed groups user) = true -> UserRow.role user <> Role.Admin.
Proof.
  unfold EditorScope.may_touch_user. intros ->. cbn [orb]. intros [Hr _]%andb_true_iff. intros E. cbn in Hr. by rewrite E in Hr.
Qed.

Lemma touched_role scope user :
  EditorScope.unscoped scope = false -> EditorScope.may_touch_user scope user = true -> UserRow.role user <> Role.Admin.
Proof. intros Hun. destruct user. by apply (proposed_role scope groups (UserRow.mk id username role must_change_password groups created_at created_by setor email celular)). Qed.

Lemma row_groups_clean a g : g ∈ UserRow.groups (row_from a) -> clean_name g.
Proof. intros Hg. by apply (parse_groups_clean (Account.groups a)). Qed.

Lemma add_member_effect now scope group username s r s' :
  (forall accounts, accounts_of s = Some accounts -> accounts_keyed accounts) -> EditorScope.unscoped scope = false ->
  add_member now scope group username s = (r, s') -> edits_members scope s s'.
Proof.
  intros Hk Hun. unfold add_member. destruct (clean_group group) as [g|] eqn:Eg; [|intros [= _ <-]; by apply still_edits].
  destruct (EditorScope.may_touch_group scope g) eqn:Et; cbn [negb]; [|intros [= _ <-]; by apply still_edits].
  intros [->|(f & s1 & Hf & Hw)%st_bind_inv]%attached_inv; [by apply still_edits|].
  destruct f as [[user|]|e]; [|injection Hw as _ <-; by eapply still_edits, fetch_still..].
  destruct (EditorScope.may_touch_user _ _) eqn:Em; cbn [negb] in Hw; [|injection Hw as _ <-; by eapply still_edits, fetch_still].
  apply proposed_role in Em; [|done]. pose proof Hf as (_ & accounts & a & _ & _ & ->)%fetch_row.
  set (kept := List.filter (EditorScope.may_touch_group scope) (UserRow.groups (row_from a))) in *.
  assert (forall h, h ∈ (if names g kept then kept else kept ++ [g]) <-> h ∈ kept \/ h = g) as Hin.
  { intros h. destruct (names g kept) eqn:En; [apply names_spec in En; naive_solver|]. by rewrite elem_of_app, list_elem_of_singleton. }
  eapply member_write; [exact Hk|exact Hun|exact Et|exact Em|exact Hf| | |exact Hw].
  - intros h [[Hh _]%filter_elem| ->]%Hin; [by eapply row_groups_clean|by eapply clean_group_Some].
  - intros h Hne Hg. rewrite Hin. unfold kept. rewrite filter_elem. unfold EditorScope.may_touch_group. rewrite Hun, Hg. naive_solver.
Qed.

Lemma remove_member_effect now scope group username s r s' :
  (forall accounts, accounts_of s = Some accounts -> accounts_keyed accounts) -> EditorScope.unscoped scope = false ->
  remove_member now scope group username s = (r, s') -> edits_members scope s s'.
Proof.
  intros Hk Hun. unfold remove_member. destruct (clean_group group) as [g|] eqn:Eg; [|intros [= _ <-]; by apply still_edits].
  destruct (EditorScope.may_touch_group scope g) eqn:Et; cbn [negb]; [|intros [= _ <-]; by apply still_edits].
  intros [->|(f & s1 & Hf & Hw)%st_bind_inv]%attached_inv; [by apply still_edits|].
  destruct f as [[user|]|e]; [|injection Hw as _ <-; by eapply still_edits, fetch_still..].
  destruct (EditorScope.may_touch_user _ _) eqn:Em; [|injection Hw as _ <-; by eapply still_edits, fetch_still].
  apply touched_role in Em; [|done]. pose proof Hf as (_ & accounts & a & _ & _ & ->)%fetch_row.
  eapply member_write; [exact Hk|exact Hun|exact Et|exact Em|exact Hf| | |exact Hw].
  - intros h [Hh _]%filter_elem. by eapply row_groups_clean.
  - intros h Hne Hg. rewrite filter_elem. unfold EditorScope.may_touch_group. rewrite Hun, Hg. apply str_eqb_neq in Hne. rewrite Hne. naive_solver.
Qed.

Lemma guarded_inv guard now auth cookie k s r s' :
  guarded_by guard now auth cookie k s = (r, s') ->
  exists s1, still s s1 /\ Portal.db (Site.portal s1) = Portal.db (Site.portal s)
    /\ match (guard now auth cookie (Portal.admin_sessions (Site.portal s))).1 with Ok info => k info s1 = (r, s') | Err _ => s' = s1 end.
Proof.
  unfold guarded_by. intros (x & s1 & Hg & Hk)%st_bind_inv. exists s1. unfold on_portal in Hg.
  destruct (guard now auth cookie (Portal.admin_sessions (Site.portal s))) as [res sessions]. injection Hg as <- <-. split; [done|].
  split; [done|]. cbn. destruct res; [done|]. by injection Hk.
Qed.

Lemma as_editor_members now auth cookie k s r s' info :
  (forall s1 r1 s2, still s s1 -> k (editor_scope info (Site.portal s)).1 s1 = (r1, s2) -> edits_members (editor_scope info (Site.portal s)).1 s1 s2) ->
  (require_editor now auth cookie (Portal.admin_sessions (Site.portal s))).1 = Ok info ->
  as_editor now auth cookie k s = (r, s') -> edits_members (editor_scope info (Site.portal s)).1 s s'.
Proof.
  intros Hk Hi (s1 & Hs1 & Hdb & Hrun)%guarded_inv. rewrite Hi in Hrun. apply st_bind_inv in Hrun as (scope & s2 & Hsc & Hrun).
  assert (still s s2) as Hs2 by (etransitivity; [exact Hs1|]; eapply run_of; [apply still_scope|exact Hsc]).
  assert (scope = (editor_scope info (Site.portal s)).1) as ->.
  { unfold on_portal in Hsc. destruct (editor_scope info (Site.portal s1)) as [sc p] eqn:E. injection Hsc as <- _.
    rewrite <- (editor_scope_db info _ _ Hdb). by rewrite E. }
  destruct (Hk _ _ _ Hs2 Hrun) as [Ha Hw]. destruct Hs2 as [E1 E2]. split; [congruence|]. by rewrite <- E1.
Qed.

Lemma admin_only now auth cookie k s info :
  (require_editor now auth cookie (Portal.admin_sessions (Site.portal s))).1 = Ok info -> SessionInfo.role info = Role.Editor ->
  still s (as_admin now auth cookie k s).2.
Proof.
  intros Hi Hr. destruct (as_admin now auth cookie k s) as [r s'] eqn:E. apply guarded_inv in E as (s1 & Hs & _ & Hk).
  assert (exists e, (require_admin now auth cookie (Portal.admin_sessions (Site.portal s))).1 = Err e) as [e He].
  { revert Hi. unfold require_editor, require_admin. destruct (admin_session now auth cookie _) as [[i|e] st]; [|done].
    cbn. destruct (Role.leb Role.Editor (SessionInfo.role i)); [|done]. intros [= ->]. rewrite Hr. by eexists. }
  rewrite He in Hk. by rewrite Hk.
Qed.
End Confined.

(** ** What the page lists *)

(** A loop that adds: what is seen after it was there or some step put it. *)
Lemma foldl_or {M R} (step : M -> R -> M) (O : M -> Prop) (Q : R -> Prop) :
  (forall m r, O (step m r) <-> O m \/ Q r) -> forall l m, O (foldl step m l) <-> O m \/ exists r, r ∈ l /\ Q r.
Proof.
  intros Hs l. induction l as [|r l IH]; intros m; cbn [foldl].
  - split; [by left|]. intros [?|(r & Hr & _)]; [done|by apply not_elem_of_nil in Hr].
  - rewrite IH, Hs. setoid_rewrite elem_of_cons. naive_solver.
Qed.

Definition data (m : gmap string GroupData) (g : string) : GroupData := default ([], []) (m !! g).

(** What a page shows of one row or app: the group, and that it is there. *)
Definition is_entry (g : string) (m : gmap string GroupData) : Prop := is_Some (m !! g).
Definition has_member (g u : string) (m : gmap string GroupData) : Prop := u ∈ (data m g).1.
Definition has_app (g a : string) (m : gmap string GroupData) : Prop := a ∈ (data m g).2.

Lemma entry_is_entry f h m g : is_entry g (entry f h m) <-> is_entry g m \/ g = h.
Proof.
  unfold is_entry, entry. destruct (decide (g = h)) as [->|Hne]; [rewrite lookup_partial_alter_eq; naive_solver|].
  rewrite lookup_partial_alter_ne by done. naive_solver.
Qed.

Lemma entry_data f h m g : data (entry f h m) g = if decide (g = h) then f (data m g) else data m g.
Proof.
  unfold data, entry. case_decide as E; [subst; by rewrite lookup_partial_alter_eq|]. by rewrite lookup_partial_alter_ne.
Qed.

Section Listed.
Context (scope : EditorScope.t).
Abbreviation touch := (EditorScope.may_touch_group scope).

Lemma own_groups_entry g : is_entry g (own_groups scope) <-> EditorScope.unscoped scope = false /\ g ∈ EditorScope.groups scope.
Proof.
  unfold own_groups. destruct (EditorScope.unscoped scope); [unfold is_entry; rewrite lookup_empty; split; [by intros [? ?]|by intros [? _]]|].
  rewrite (foldl_or _ (is_entry g) (fun h => g = h)); [|intros m h; apply entry_is_entry]. unfold is_entry at 1. rewrite lookup_empty.
  split; [intros [[? ?]|(h & Hh & ->)]; [done|by split]|]. intros [_ Hg]. right. eauto.
Qed.

Lemma own_groups_data g : data (own_groups scope) g = ([], []).
Proof.
  unfold own_groups. destruct (EditorScope.unscoped scope); [unfold data; by rewrite lookup_empty|].
  assert (forall l m, data m g = ([], []) -> data (foldl (fun m h => entry (fun d => d) h m) m l) g = ([], [])) as Hf.
  { intros l. induction l as [|h l IH]; intros m Hm; cbn [foldl]; [done|]. apply IH. rewrite entry_data. by case_decide. }
  apply Hf. unfold data. by rewrite lookup_empty.
Qed.

(** One row's or one app's turn: [O] is seen afterwards if it was there or
    the turn adds it, as [f] does for one group. *)
Lemma entries_of_or (O : gmap string GroupData -> Prop) f g P groups m :
  (forall m h, O (entry f h m) <-> O m \/ (g = h /\ P)) ->
  O (entries_of scope f groups m) <-> O m \/ (touch g = true /\ g ∈ groups /\ P).
Proof.
  intros Hf. unfold entries_of. rewrite (foldl_or _ O (fun h => touch h = true /\ g = h /\ P)).
  - naive_solver.
  - intros m' h. destruct (touch h) eqn:Et; [rewrite Hf|]; naive_solver.
Qed.

Lemma add_user_member u h m g v : has_member g v (entry (add_user u) h m) <-> has_member g v m \/ (g = h /\ v = u).
Proof.
  unfold has_member. rewrite entry_data. case_decide; cbn; [rewrite btree_insert_elem|]; naive_solver.
Qed.
Lemma add_user_app u h m g a : has_app g a (entry (add_user u) h m) <-> has_app g a m \/ (g = h /\ False).
Proof. unfold has_app. rewrite entry_data. case_decide; cbn; naive_solver. Qed.
Lemma add_app_app a h m g b : has_app g b (entry (add_app a) h m) <-> has_app g b m \/ (g = h /\ b = a).
Proof. unfold has_app. rewrite entry_data. case_decide; cbn; [rewrite btree_insert_elem|]; naive_solver. Qed.
Lemma add_app_member a h m g v : has_member g v (entry (add_app a) h m) <-> has_member g v m \/ (g = h /\ False).
Proof. unfold has_member. rewrite entry_data. case_decide; cbn; naive_solver. Qed.

Definition member_of (g : string) (u : UserRow.t) : Prop :=
  EditorScope.may_touch_user scope u = true /\ touch g = true /\ g ∈ UserRow.groups u.
Definition gates (g : string) (spec : Spec.t) : Prop :=
  EditorScope.may_touch_spec scope spec = true /\ touch g = true /\ g ∈ groups_of spec.

Lemma collect_user_or O g P u m :
  (forall m h, O (entry (add_user (UserRow.username u)) h m) <-> O m \/ (g = h /\ P)) ->
  O (collect_user scope m u) <-> O m \/ (member_of g u /\ P).
Proof.
  intros Hf. unfold collect_user, member_of. destruct (EditorScope.may_touch_user scope u) eqn:Et; [|naive_solver].
  rewrite (entries_of_or O _ g P) by done. naive_solver.
Qed.

Lemma collect_app_or O g P spec m :
  (forall m h, O (entry (add_app (Spec.id spec)) h m) <-> O m \/ (g = h /\ P)) ->
  O (collect_app scope m spec) <-> O m \/ ((touch g = true /\ g ∈ groups_of spec) /\ P).
Proof.
  intros Hf. unfold collect_app, groups_of. destruct (Spec.access_groups spec) as [gs|]; cbn [default from_option id].
  - rewrite (entries_of_or O _ g P) by done. naive_solver.
  - split; [by left|]. intros [?|[[_ Hg] _]]; [done|by apply not_elem_of_nil in Hg].
Qed.

(** Everything the two loops put on the page. *)
Lemma group_map_or O g (P : UserRow.t -> Prop) (P' : Spec.t -> Prop) users specs :
  (forall u m h, O (entry (add_user (UserRow.username u)) h m) <-> O m \/ (g = h /\ P u)) ->
  (forall spec m h, O (entry (add_app (Spec.id spec)) h m) <-> O m \/ (g = h /\ P' spec)) ->
  O (group_map scope users specs)
  <-> O (own_groups scope) \/ (exists u, u ∈ users /\ member_of g u /\ P u) \/ (exists spec, spec ∈ specs /\ gates g spec /\ P' spec).
Proof.
  intros Hu Hs. unfold group_map.
  rewrite (foldl_or _ O (fun spec => (touch g = true /\ g ∈ groups_of spec) /\ P' spec)) by (intros m spec; by apply collect_app_or).
  rewrite (foldl_or _ O (fun u => member_of g u /\ P u)) by (intros m u; by apply collect_user_or).
  setoid_rewrite filter_elem. unfold gates. naive_solver.
Qed.

Lemma group_map_members users specs g v :
  has_member g v (group_map scope users specs) <-> exists u, u ∈ users /\ member_of g u /\ v = UserRow.username u.
Proof.
  rewrite (group_map_or (has_member g v) g (fun u => v = UserRow.username u) (fun _ => False)).
  - unfold has_member at 1. rewrite own_groups_data. cbn. rewrite elem_of_nil. naive_solver.
  - intros u m h. apply add_user_member.
  - intros spec m h. apply add_app_member.
Qed.

Lemma group_map_apps users specs g a :
  has_app g a (group_map scope users specs) <-> exists spec, spec ∈ specs /\ gates g spec /\ a = Spec.id spec.
Proof.
  rewrite (group_map_or (has_app g a) g (fun _ => False) (fun spec => a = Spec.id spec)).
  - unfold has_app at 1. rewrite own_groups_data. cbn. rewrite elem_of_nil. naive_solver.
  - intros u m h. apply add_user_app.
  - intros spec m h. apply add_app_app.
Qed.

Lemma group_map_entries users specs g :
  is_entry g (group_map scope users specs) <->
  (EditorScope.unscoped scope = false /\ g ∈ EditorScope.groups scope)
  \/ (exists u, u ∈ users /\ member_of g u) \/ (exists spec, spec ∈ specs /\ gates g spec).
Proof.
  rewrite (group_map_or (is_entry g) g (fun _ => True) (fun _ => True)).
  - rewrite own_groups_entry. naive_solver.
  - intros u m h. rewrite entry_is_entry. naive_solver.
  - intros spec m h. rewrite entry_is_entry. naive_solver.
Qed.
End Listed.

Lemma entries_elem m g d : (g, d) ∈ entries m <-> m !! g = Some d.
Proof.
  unfold entries. rewrite list_elem_of_omap. setoid_rewrite btree_set_elem. setoid_rewrite list_elem_of_fmap. split.
  - intros (h & _ & Hh). destruct (m !! h) as [d'|] eqn:E; cbn in Hh; [|done]. by injection Hh as <- <-.
  - intros Hg. exists g. split; [exists (g, d); by rewrite elem_of_map_to_list|]. by rewrite Hg.
Qed.

Lemma entries_names m : fst <$> entries m = btree_set (fst <$> map_to_list m).
Proof.
  unfold entries. assert (forall l : list string, (forall g, g ∈ l -> is_Some (m !! g)) -> fst <$> omap (fun g => d ← m !! g; Some (g, d)) l = l) as Hl.
  { intros l. induction l as [|g l IH]; intros Hin; [done|]. destruct (Hin g ltac:(by left)) as [d Hd]. cbn. rewrite Hd. cbn.
    f_equal. apply IH. intros h Hh. apply Hin. by right. }
  apply Hl. intros g. rewrite btree_set_elem, list_elem_of_fmap. intros ([h d] & -> & Hd%elem_of_map_to_list). by eexists.
Qed.

Lemma view_apps specs e : (forall a, a ∈ e.2.2 -> exists spec, spec ∈ specs /\ Spec.id spec = a) ->
  map AppRef.id (GroupView.apps (group_view specs e)) = e.2.2.
Proof.
  destruct e as [g [members l]]. cbn. induction l as [|a l IH]; [reflexivity|]. cbn in *. intros Ha.
  destruct (find _ specs) as [spec|] eqn:Ef; cbn.
  - apply find_elem in Ef as [_ Heq%str_eqb_eq]. rewrite Heq. f_equal. apply IH. intros b Hb. apply Ha. by right.
  - exfalso. destruct (Ha a ltac:(by left)) as (spec & Hin & Hid). eapply find_none_elem in Ef; [|exact Hin]. cbn in Ef.
    by rewrite Hid, str_eqb_refl in Ef.
Qed.

Section Properties.
Context `{UnicodeCase} `{JsonObject} `{SpecCodecLaws} (collate : string -> string -> bool) (yaml : list Spec.t).

(** C38. A rename keeps who may open what: on a database whose statements
    succeed it reaches every account and every app, so nobody loses an app of
    the database; if the new name was free, nobody gains one either.  The old
    name is gone, no account or app is, and no cached identity is left. *)
Theorem renaming_keeps_access now info raw_old raw_new old new s accounts t r s' :
  clean_group raw_old = Some old -> clean_group raw_new = Some new -> old <> new ->
  healthy s accounts t -> accounts_keyed accounts -> store_wf t ->
  (forall i spec, app_of t i = Some spec -> writable old (Some new) spec) ->
  rename collate now info raw_old raw_new s = (r, s') ->
  exists accounts' t', healthy s' accounts' t' /\ IdentityCache.map (Portal.identities (Site.portal s')) = ∅
    /\ unused old accounts' t'
    /\ (forall u, is_Some (AccountTables.users accounts' !! u) <-> is_Some (AccountTables.users accounts !! u))
    /\ (forall i, is_Some (app_of t' i) <-> is_Some (app_of t i))
    /\ (forall is_admin u i, opens is_admin accounts t u i = true -> opens is_admin accounts' t' u i = true)
    /\ (unused new accounts t -> forall is_admin u i, opens is_admin accounts' t' u i = opens is_admin accounts t u i).
Proof.
  intros Ho Hn Hne Hs Hk Hwf Hw. unfold rename. rewrite Ho, Hn. apply str_eqb_neq in Hne as Hne'. rewrite Hne'.
  intros (u & s1 & Hrun & [= _ <-])%st_bind_inv.
  destruct (rewrite_group_healthy collate now old (Some new) (audit_actor info) s accounts t Hs Hk Hwf Hw)
    as (accounts' & t' & s2 & Hrun' & Hs' & Hid & Hu & Hi). rewrite Hrun in Hrun'. injection Hrun' as _ <-.
  assert (forall n, Some new = Some n -> clean_name n) as Hnew by (intros n [= <-]; by eapply clean_group_Some).
  assert (forall is_admin v i, opens is_admin accounts' t' v i
    = match AccountTables.users accounts !! v, app_of t i with
      | Some a, Some spec => Spec.access_allows (rewritten_spec old (Some new) spec) is_admin (Some v)
          (if names old (parse_groups (Account.groups a)) then rewritten old (Some new) (parse_groups (Account.groups a))
           else parse_groups (Account.groups a))
      | _, _ => false end) as Hop.
  { intros is_admin v i. unfold opens. rewrite Hu, Hi. destruct (AccountTables.users accounts !! v) as [a|]; [|done].
    destruct (app_of t i) as [spec|]; [|done]. cbn. by rewrite rewritten_account_groups. }
  exists accounts', t'. split; [done|]. split; [done|]. split; [|split; [|split; [|split]]].
  - split.
    + intros v a'. rewrite Hu. destruct (AccountTables.users accounts !! v) as [a|]; [|done]. intros [= <-].
      rewrite rewritten_account_groups, renamed_elem by done. naive_solver.
    + intros i spec'. rewrite Hi. destruct (app_of t i) as [spec|]; [|done]. intros [= <-]. rewrite rewritten_groups_of, renamed_elem. naive_solver.
  - intros v. rewrite Hu. by rewrite fmap_is_Some.
  - intros i. rewrite Hi. by rewrite fmap_is_Some.
  - intros is_admin v i. rewrite Hop. unfold opens. destruct (AccountTables.users accounts !! v) as [a|]; [|done].
    destruct (app_of t i) as [spec|]; [|done]. apply renamed_access.
  - intros [Hfree Hfree'] is_admin v i. rewrite Hop. unfold opens. destruct (AccountTables.users accounts !! v) as [a|] eqn:Ea; [|done].
    destruct (app_of t i) as [spec|] eqn:Ei; [|done]. apply renamed_access; [by eapply Hfree|by eapply Hfree'].
Qed.

(** C39. The page lists the groups there are: for the caller's scope, the
    names in its accounts' memberships or its apps' access-groups, and an
    Editor's own, each once and in order, with exactly the accounts in them
    and the apps they gate; only an Admin sees or picks Admin accounts. *)
Theorem group_page_exact between scope flash s accounts t page s' :
  healthy s accounts t -> index collate yaml between scope flash s = (Groups page, s') ->
  let specs := (effective_specs_cached collate between yaml (Site.catalog s)).1 in
  let row u := exists v a, AccountTables.users accounts !! v = Some a /\ u = row_from a in
  StronglySorted name_lt (map GroupView.name (GroupsPage.groups page))
  /\ (forall g, g ∈ map GroupView.name (GroupsPage.groups page) <->
       (EditorScope.unscoped scope = false /\ g ∈ EditorScope.groups scope)
       \/ (exists u, row u /\ member_of scope g u) \/ (exists spec, spec ∈ specs /\ gates scope g spec))
  /\ (forall view, view ∈ GroupsPage.groups page ->
       (forall v, v ∈ GroupView.members view <-> exists u, row u /\ member_of scope (GroupView.name view) u /\ v = UserRow.username u)
       /\ (forall a, a ∈ map AppRef.id (GroupView.apps view)
             <-> exists spec, spec ∈ specs /\ gates scope (GroupView.name view) spec /\ a = Spec.id spec))
  /\ (forall v, v ∈ GroupsPage.all_users page <->
       exists u, row u /\ (EditorScope.unscoped scope = true \/ UserRow.role u <> Role.Admin) /\ v = UserRow.username u).
Proof.
  intros Hs. unfold index, Users.list_all, st_bind at 1. rewrite (on_accounts_query _ _ _ _ _ Hs). unfold st_bind, on_catalog.
  destruct (effective_specs_cached collate between yaml (Site.catalog s)) as [specs c]. intros [= <- _]. cbv zeta. cbn [fst].
  set (users := row_from <$> _). unfold groups_page. cbn [GroupsPage.groups GroupsPage.all_users].
  assert (forall u, u ∈ users <-> exists v a, AccountTables.users accounts !! v = Some a /\ u = row_from a) as Hrow.
  { intros u. unfold users. rewrite list_elem_of_fmap. setoid_rewrite sorted_by_elem. setoid_rewrite accounts_elem. naive_solver. }
  set (m := group_map scope users specs).
  assert (map GroupView.name (map (group_view specs) (entries m)) = fst <$> entries m) as Hnames by (rewrite map_map; reflexivity).
  split; [|split; [|split]].
  - rewrite Hnames, entries_names. apply btree_set_sorted.
  - intros g. rewrite Hnames, entries_names, btree_set_elem, list_elem_of_fmap. setoid_rewrite <- Hrow.
    rewrite <- (group_map_entries scope users specs g). fold m. unfold is_entry, is_Some. split.
    + intros ([h d] & -> & Hd%elem_of_map_to_list). eauto.
    + intros [d Hd]. exists (g, d). by rewrite elem_of_map_to_list.
  - intros view ([g d] & -> & Hd)%list_elem_of_fmap. apply entries_elem in Hd. cbn [group_view GroupView.name GroupView.members fst snd].
    assert (data m g = d) as <- by exact (f_equal (default ([], [])) Hd). split.
    + intros v. setoid_rewrite <- Hrow. apply group_map_members.
    + intros a. rewrite view_apps; [apply group_map_apps|]. cbn. intros b (spec & Hin & _ & ->)%group_map_apps. eauto.
  - intros v. rewrite merge_sort_Permutation. rewrite list_elem_of_fmap. setoid_rewrite filter_elem. setoid_rewrite Hrow. unfold pickable.
    setoid_rewrite orb_true_iff. setoid_rewrite negb_true_iff. setoid_rewrite bool_decide_eq_false. naive_solver.
Qed.

(** C40. Editors change memberships of their own groups only: whatever an
    Editor requests of the groups page, and whichever statements fail, the
    apps, the factors and every Admin account stay as they are, and at most
    one account changes, in its membership of one group that is the
    Editor's. *)
Theorem group_edits_confined between now auth cookie req s accounts info :
  (forall db, ConfigDb.tables (between db) = ConfigDb.tables db) ->
  (require_editor now auth cookie (Portal.admin_sessions (Site.portal s))).1 = Ok info -> SessionInfo.role info = Role.Editor ->
  accounts_of s = Some accounts -> accounts_keyed accounts ->
  let s' := (routes collate yaml between now auth cookie req s).2 in
  apps_of s' = apps_of s
  /\ exists accounts', accounts_of s' = Some accounts' /\ within_groups (editor_scope info (Site.portal s)).1 accounts accounts'.
Proof.
  intros Hb Hi Hr Hs Hk. cbv zeta. set (scope := (editor_scope info (Site.portal s)).1).
  assert (edits_members scope s (routes collate yaml between now auth cookie req s).2) as [Ha Hw].
  { destruct (routes collate yaml between now auth cookie req s) as [r s'] eqn:E. cbn [snd].
    assert (EditorScope.unscoped scope = false) as Hun.
    { unfold scope, editor_scope, EditorScope.from_editor. destruct (Portal.db (Site.portal s)); cbn; by rewrite Hr. }
    assert (forall s1, still s s1 -> forall a1, accounts_of s1 = Some a1 -> accounts_keyed a1) as Hk1.
    { intros s1 [E1 _] a1 Ha1. by assert (a1 = accounts) as -> by congruence. }
    destruct req; cbn [routes] in E;
      try (apply still_edits; pose proof (admin_only now auth cookie) as Hadm; eapply Hadm in Hi; [|exact Hr]; unfold as_admin in *; rewrite E in Hi; exact Hi);
      (eapply as_editor_members; [|exact Hi|exact E]); intros s1 r1 s2 Hst Hrun.
    - apply still_edits. eapply run_of; [by apply still_index|exact Hrun].
    - by apply (add_member_effect now scope group username s1 r1 s2 (Hk1 s1 Hst) Hun).
    - by apply (remove_member_effect now scope group username s1 r1 s2 (Hk1 s1 Hst) Hun). }
  split; [done|]. rewrite Hs in Hw. inversion Hw as [x y Hxy E E'|]. eauto.
Qed.
End Properties.

(** ** Examples *)

Module GroupsExamples.
Import AccountExamples UserExamples UsersCsvExamples UserAccessExamples.

(** An app of the groups lab and hr, and one of hr alone. *)
Definition notebook : Spec.t := Spec.with_access (Some ["lab"; "hr"]) None None (ExampleStore.app "notebook" "img:1").
Definition payroll : Spec.t := Spec.with_access (Some ["hr"]) None None (ExampleStore.app "payroll" "img:1").
Definition known : list (string * Spec.t) :=
  [("notebook1", notebook); ("notebook2", rewritten_spec "lab" (Some "bench") notebook); ("payroll1", payroll)].
#[local] Instance codec : SpecCodec := {
  to_json s := match List.find (fun p => bool_decide (p.2 = s)) known with Some p => Ok p.1 | None => Err (Failed "encode") end;
  from_json j := match List.find (fun p => str_eqb p.1 j) known with Some p => Ok p.2 | None => Err (Failed "decode") end;
  proxy_json _ := Ok "{}"; server_json _ := Ok "{}"; logging_json _ := Ok "{}" }.
#[local] Instance codec_laws : SpecCodecLaws.
Proof.
  constructor. intros s j. cbn -[bool_decide known]. destruct (List.find _ known) as [p|] eqn:E; [|done]. intros [= <-].
  apply List.find_some in E as [Hin Hp]. apply bool_decide_eq_true in Hp. subst s. unfold known in Hin.
  repeat destruct Hin as [<-|Hin]; by vm_compute.
Defined.

Definition store : Db := (upsert_one payroll None 5 (upsert_one notebook None 5 (ConfigDb.mk Tables.empty [])).2).2.
Definition site : Site.t := Site.mk portal (CatalogState.mk (Some store) None).
Definition root : SessionInfo.t := SessionInfo.mk Role.Admin (Some "root").

Lemma store_typed : store_wf (ConfigDb.tables store).
Proof.
  unfold store. destruct (upsert_one notebook None 5 (ConfigDb.mk Tables.empty [])) as [r1 db1] eqn:E1. cbn [snd].
  destruct (upsert_one payroll None 5 db1) as [r2 db2] eqn:E2. apply upsert_one_effects in E1, E2. cbn [snd].
  eapply effects_wf; [exact E2|]. eapply effects_wf; [exact E1|]. apply store_wf_empty.
Qed.

Lemma db_keyed : accounts_keyed (ConfigDb.tables db).
Proof. unfold accounts_keyed, db. cbn. repeat apply map_Forall_insert_2; [by vm_compute..|apply map_Forall_empty]. Qed.

(** What holds of every app of the store is checked row by row. *)
Lemma store_apps (p : Spec.t -> bool) :
  bool_decide (map_Forall (fun _ r => from_option p true (ok (from_json (SpecRow.config_json r))) = true)
    (Tables.specs (ConfigDb.tables store))) = true ->
  forall i spec, app_of (ConfigDb.tables store) i = Some spec -> p spec = true.
Proof.
  intros Hp%bool_decide_eq_true i spec. unfold app_of. destruct (Tables.specs (ConfigDb.tables store) !! i) as [r|] eqn:Er; [|done].
  cbn [mbind option_bind]. intros Hj. specialize (Hp i r Er). cbn beta in Hp. by rewrite Hj in Hp.
Qed.

Lemma store_writable i spec : app_of (ConfigDb.tables store) i = Some spec -> writable "lab" (Some "bench") spec.
Proof.
  intros Ha. apply (store_apps (fun s => from_option (fun s' => is_ok (canonical_json s')) true (rewrite_access "lab" (Some "bench") s))) in Ha;
    [|by vm_compute]. intros spec' E. by rewrite E in Ha.
Qed.

Lemma bench_unused : unused "bench" (ConfigDb.tables db) (ConfigDb.tables store).
Proof.
  split.
  - change (map_Forall (fun _ a => "bench" ∉ parse_groups (Account.groups a)) (AccountTables.users (ConfigDb.tables db))).
    apply (bool_decide_eq_true_1 _). by vm_compute.
  - intros i spec Ha. apply (store_apps (fun s => negb (names "bench" (groups_of s)))) in Ha; [|by vm_compute].
    intros Hin%names_spec. by rewrite Hin in Ha.
Qed.

(** Root renames lab to bench. *)
Abbreviation renaming := (rename collate 9 root "lab" " bench" site).
Lemma renaming_keeps_access_witness : exists accounts' t', healthy renaming.2 accounts' t'
  /\ opens false accounts' t' "ana" "notebook" = true /\ opens false accounts' t' "zoe" "notebook" = false.
Proof.
  destruct (renaming_keeps_access collate 9 root "lab" " bench" "lab" "bench" site (ConfigDb.tables db) (ConfigDb.tables store)
    renaming.1 renaming.2) as (accounts' & t' & Hh & _ & _ & _ & _ & Hkeep & Hsame).
  - by vm_compute.
  - by vm_compute.
  - done.
  - split; by vm_compute.
  - apply db_keyed.
  - apply store_typed.
  - apply store_writable.
  - apply surjective_pairing.
  - exists accounts', t'. split; [exact Hh|]. split; [apply Hkeep; by vm_compute|]. rewrite (Hsame bench_unused). by vm_compute.
Defined.

(** Ana's page. *)
Abbreviation ana_scope := (editor_scope UserExamples.ana portal).1.
Abbreviation anas_page := (index collate [] (fun d => d) ana_scope None site).
Definition page_of (r : Response) : GroupsPage.t :=
  match r with Groups page => page | _ => GroupsPage.mk Role.Viewer [] 0 0 0 [] [] None end.

Lemma group_page_exact_witness :
  map (fun v => (GroupView.name v, GroupView.members v, map AppRef.id (GroupView.apps v))) (GroupsPage.groups (page_of anas_page.1))
    = [("lab", ["ana"], ["notebook"]); ("ops", ["ana"; "bo"], [])]
  /\ forall v, v ∈ GroupsPage.all_users (page_of anas_page.1) <->
       exists u, (exists w a, AccountTables.users (ConfigDb.tables db) !! w = Some a /\ u = row_from a)
         /\ (EditorScope.unscoped ana_scope = true \/ UserRow.role u <> Role.Admin) /\ v = UserRow.username u.
Proof.
  split; [by vm_compute|].
  apply (group_page_exact collate [] (fun d => d) ana_scope None site (ConfigDb.tables db) (ConfigDb.tables store)
           (page_of anas_page.1) anas_page.2).
  - split; by vm_compute.
  - by vm_compute.
Defined.

(** Ana takes zoe into lab. *)
Abbreviation request cookie req := (routes collate [] (fun d => d) 7 auth (Some cookie) req site).
Lemma group_edits_confined_witness :
  role_and_groups "zoe" (Site.portal (request "c-ana" (PostAdd "lab" "zoe")).2) = Some ("viewer", "lab,labs")
  /\ exists accounts', accounts_of (request "c-ana" (PostAdd "lab" "zoe")).2 = Some accounts'
       /\ within_groups ana_scope (ConfigDb.tables db) accounts'.
Proof.
  split; [by vm_compute|].
  apply (group_edits_confined collate [] (fun d => d) 7 auth (Some "c-ana") (PostAdd "lab" "zoe") site (ConfigDb.tables db) UserExamples.ana).
  - done.
  - by vm_compute.
  - done.
  - by vm_compute.
  - apply db_keyed.
Defined.

(** An account of another team is out of an Editor's reach on the account
    pages, until the Editor adds it to a group. *)
Abbreviation reset p := (UserRoutes.routes Sqlite collate (fun s => s) (fun _ _ _ => "") (fun s => s) 7 auth (Some "c-ana") draws
  (PostPassword "zoe" "a-Longer-pass-1") p).
Example added_accounts_come_in_reach :
  (reset portal).1 = UserRoutes.NotFound
  /\ (reset (Site.portal (request "c-ana" (PostAdd "lab" "zoe")).2)).1 <> UserRoutes.NotFound
  /\ (a ← (s ← tables_of (reset (Site.portal (request "c-ana" (PostAdd "lab" "zoe")).2)).2; AccountTables.users s !! "zoe");
      Some (Account.password_hash a)) = Some "salt$a-Longer-pass-1".
Proof. split_and!; by vm_compute. Qed.

(** Deleting the only group of an app opens it to everybody. *)
Example deleting_opens : Spec.is_open payroll = false /\ Spec.is_open (rewritten_spec "hr" None payroll) = true.
Proof. by vm_compute. Qed.
End GroupsExamples.
